(* ===== verification/_CoqProject ===== *)
-Q . S2P
Prelude.v
StateError.v
Text.v
Ip.v
Edge.v
Roles.v
ServiceTokens.v
Sessions.v
Identity.v
IdentitySafety.v
Versions.v
ServiceTypes.v
Registry.v
RateLimit.v
Gateway.v
GatewaySafety.v
Rollout.v
Scheduler.v
StatementCache.v
Pool.v
Manifests.v
Verifier.v
ModuleStorage.v
ModuleStorageSafety.v
BundleInspect.v
TokenExchange.v
TokenExchangeSafety.v
Routing.v
RoutingSafety.v
DepotPlan.v
DepotStore.v
DepotInstaller.v
DepotTransaction.v
DepotHost.v
Schema.v
MigrationSql.v
Migrations.v
Ports.v
Redact.v
LogRetention.v
LogRetentionSafety.v
ProcessRuntime.v
ProcessRuntimeSafety.v
Lifecycle.v
LifecycleSafety.v
ModuleEnv.v
ModuleEnvSafety.v
Autostart.v
AutostartSafety.v
DbConnector.v
DbConnectorSafety.v
Backup.v
BackupSafety.v
RuntimeGateway.v
RuntimeGatewaySafety.v
Compression.v
CompressionSafety.v
StaticSite.v
StaticSiteSafety.v
ConfigCheck.v
ConfigLoad.v
ConfigSafety.v
ServiceOverrides.v
ReportedServices.v
ReportedSafety.v
AuditLog.v
AuditLogSafety.v
PublicStatus.v
PublicStatusSafety.v
ServiceControl.v
ControlPlane.v
ControlPlaneSafety.v
ModuleRegistry.v
ModuleRegistrySafety.v
DepotVerify.v
DepotVerifySafety.v
DepotSettings.v
DepotSettingsSafety.v
PasswordPolicy.v
Crypto.v
