(* ===== verification/Prelude.v ===== *)
(** * Fenrir host: verification development

    Fenrir is a host for modules: it installs signed module bundles from a
    depot, runs them as processes or static sites, routes HTTP requests to
    them through a gateway, and gives them service tokens, sessions and a
    database.  This library translates the parts that decide something into
    Gallina and proves what makes them correct.  Paths below are relative to
    [src/src].

    ** The parts and how they interact

    - A request reaches the static edge of a module's site
      ([infra/modules/runtime/process.rs]) or the gateway
      ([infra/http/routes.rs]).  The client address comes from [config/edge.rs]
      and [infra/http/proxy_headers.rs]; the gateway checks the token against
      the service tokens, sessions and roles ([security]), applies the rate
      limit, asks the module service for the targets of the route
      ([services/module/service.rs], with canaries from the rollout
      configuration), and fails over between them.
    - The module service ([services/module]) starts, stops and restarts
      modules: it takes a runnable version from the module storage, checks
      it, issues the module's token, builds its environment and hands both to
      the process runtime ([infra/modules/runtime/process.rs]); at boot the
      autostart orders the modules by their dependencies.
    - The identity authority ([security/identity]) holds users and signs
      them in; the token exchange ([infra/http/routes.rs]) gives a module a
      short-lived token for another one; the database connector
      ([services/db_connector]) runs a module's statements for a tenant.
    - The depot ([services/depot]) selects signed distributions, plans which
      modules to install, update or remove, verifies every bundle, and
      changes the host transactionally, with backups, a lock and a rollback.
      The module registries ([infra/modules/registry.rs]) are the other
      source of bundles.
    - Running modules call each other through the runtime gateway
      ([services/module/gateway.rs]) and report services of their own, which
      the configured overrides restrict; their sites are served, compressed
      where that is safe, by [infra/modules/runtime/process.rs].
    - The control plane (the management routes of [infra/http/routes.rs])
      checks the caller's role, controls the services and records what was
      done in the audit log ([audit]); the public page shows the levels and
      incidents of [services/public_status.rs].
    - At boot the configuration ([config]) is loaded and checked; what a
      production host must not have stops the start.
    - The scheduler ([services/scheduler]) runs the host's jobs, among them
      the retention of log files; the service registry
      ([services/registry.rs]) publishes what runs.
    - The database side: pool and statement cache of the Postgres adapter,
      schema diffs and their SQL, migrations, backups.

    ** Files

    - [Prelude]: results and their notation, machine integers, shared lemmas
      on lists and maps, the tactics [boolify] and friends.  [StateError]: a
      state monad with errors.  [Text]: strings of characters, splitting,
      UTF-8.  [Ip]: [std::net] addresses.
    - [Edge]: [config/edge.rs], [infra/http/proxy_headers.rs].
    - [Roles], [ServiceTokens], [Sessions]: [security/auth/role.rs],
      [security/service.rs], [security/service_tokens.rs], [security/session].
      [Identity], [IdentitySafety]: the embedded identity authority of
      [security/identity].
    - [Versions], [Manifests]: [domain/module].  [ServiceTypes], [Registry]:
      [services/types.rs], [services/registry.rs].
    - [RateLimit], [Gateway], [GatewaySafety]: [infra/http/gateway.rs], the
      proxy handler of [infra/http/routes.rs] and the static edge; the second
      file has the theorems.  [TokenExchange], [TokenExchangeSafety]: the
      token routes of the same file.
    - [Rollout], [Routing], [RoutingSafety]: rollout sections of
      [config/model.rs] and [services/module/config.rs]; target resolution,
      instance health and canaries of [services/module/service.rs].
    - [Verifier], [ModuleStorage], [ModuleStorageSafety], [BundleInspect]:
      signatures of module packages, the versions on disk, and the check of an
      archive before it is unpacked ([infra/modules], [services/module]).
    - [ProcessRuntime], [ProcessRuntimeSafety]: the instances of a module
      and their health, [infra/modules/runtime/process.rs].  [Lifecycle],
      [LifecycleSafety]: start, stop, restart and quarantine,
      [services/module/runtime.rs] and [services/module/service.rs].
      [ModuleEnv], [ModuleEnvSafety]: the variables a module gets.
      [Autostart], [AutostartSafety]: the order of starts at boot.
    - [Scheduler]: [services/scheduler].  [StatementCache], [Pool]:
      [infra/db/adapters/postgres/pool.rs].
    - [DepotPlan], [DepotStore], [DepotInstaller], [DepotTransaction],
      [DepotHost]: [services/depot]: the plan; state file, lock, backups and
      blob cache; the pipeline; its theorems; the order of starts.
      [DepotVerify], [DepotVerifySafety]: fetching, checking and selecting
      signed distributions.  [DepotSettings], [DepotSettingsSafety]: settings
      and client of [infra/modules/depot].  [ModuleRegistry],
      [ModuleRegistrySafety]: registries over HTTP, local directories and
      their composition.
    - [Schema], [MigrationSql], [Migrations]: [services/db_schema],
      [infra/db/migrations], the sessions of [services/db_shell].
      [DbConnector], [DbConnectorSafety]: [services/db_connector] and
      [domain/db/context.rs].
    - [Ports]: [services/module/ports.rs].  [Redact]: [utils/redact.rs].
      [LogRetention], [LogRetentionSafety]: [infra/logging].
    - [Backup], [BackupSafety]: [services/backup], the backups of the
      database.  [RuntimeGateway], [RuntimeGatewaySafety]: calls between
      modules.  [Compression], [CompressionSafety], [StaticSite],
      [StaticSiteSafety]: content coding and the files of a module's site.
    - [ConfigCheck], [ConfigLoad], [ConfigSafety]: checks and loading of the
      configuration.  [ServiceOverrides], [ReportedServices],
      [ReportedSafety]: the services a module reports and their overrides.
    - [AuditLog], [AuditLogSafety]: [audit] and its views.  [PublicStatus],
      [PublicStatusSafety]: the public status page.  [ServiceControl],
      [ControlPlane], [ControlPlaneSafety]: start and stop of services, and
      the management routes with their authorization.  [PasswordPolicy]:
      [security/auth/password_policy.rs].  [Crypto]: [security/crypto].

    A stateful part is a record and one function per operation that returns
    the new record; a failing call returns [result], and [Lifecycle] and
    [ProcessRuntime] use the monad of [StateError], whose failures keep the
    state reached.  Where tasks interleave (tokens, sessions, scheduler,
    pool, registry) the operations are split at the points where a lock is
    released or an [await] lets others run, and the theorems are about every
    reachable state of the step relation.

    ** What the theorems show

    - Depot: over every module runtime with the laws of [ModuleHostLaws], an
      installation either changes the host as planned, or gives back every
      module as it was or as its backup holds it, or says that it could not;
      installed bytes are the signed ones; pinned modules are left
      alone; planning after success yields nothing; starts follow the
      dependencies, and the loop ends.  A selected distribution is signed,
      with every include, may run on this host, and is the newest such of
      its range; fetching ends.  A download of a registry ends after at most
      four requests, with an error or with the bytes its manifest names.
    - Security: which tokens are accepted, that revocation is exact, the
      order of roles, sessions as a map with expiry; who signs in, and how
      failures lock an account; an exchanged token is never wider than the
      one presented.
    - Gateway: only authorized requests are sent, no non-idempotent request
      is repeated, requests go to targets of the service, headers sent
      upstream, the rate bound, that an untrusted peer cannot choose its
      address.
    - Routing: the targets of a service are those of the module its id
      names, instances among them run, canary shares are exact, canaries move only
      on evidence and take over.
    - Modules: a start is complete or leaves nothing behind, a stop releases
      what the start took, the process runtime reaches the desired number of
      instances and loses no process (but the one of an instance that is
      restarted for another module), a module that keeps failing is quarantined; a module cannot
      choose its own identity; storage keeps the active version, and an
      archive that passes inspection stays in its directory; the order of
      autostart respects every dependency.
    - Scheduler, registry, pool, statement cache: one task per active job,
      events agree with the state, exact counters and limits, LRU order.
    - Database: a schema plan reaches the desired schema exactly when it can
      express the change; drops need [--force]; every migration file runs
      once and in order; a connector call runs exactly the allowed
      statement, bound to its tenant.
    - Control plane: no management request is served without the role it
      needs, the services the host itself runs on survive every bulk action,
      what is done is audited; the audit log is the window of the newest
      events and, when appends do not overlap, survives a crash.  A failing service shows on the public
      page.  Reported services stay within their module, and configured
      security wins.
    - A production host that starts has none of the settings that its checks
      exclude, with what they miss stated beside it; a password
      is accepted exactly when it follows the policy, and its hash verifies;
      what is encrypted decrypts to itself; a successful backup is
      kept when at least one is retained and it is the newest; what is compressed decompresses to itself, and secrets are not
      compressed; static files stay in their site.
    - Ports are distinct; log lines do not depend on the secrets in them; log
      retention deletes only what its rules name.
    - Some theorems show behaviours the code does not mean to have (the
      findings of the manifest): identity headers taken from anonymous
      callers, a lost rollback flag, leaked pool counters and tokens, a
      rollback that stops at an absent module, a second foreign key that is
      lost, migrations repeated after a recreated database, a host
      environment passed to every module, a tenant parameter a module may
      repeat, an outage that never shows, a registry token sent to any host
      a manifest names, an include whose second reference is not checked,
      a commented-out key that is trusted, a process lost by a restart for
      another module, and others.

    ** Bounds, fuel and parameters

    Integers are [Z] with their width where it matters ([u16], [u64], [i64],
    saturating and wrapping operations in this file).  Seven definitions use
    fuel: [Ip] prints a 16-bit group with fuel 5, enough for its four digits;
    the loop of [DepotHost] that orders starts uses the number of wanted
    modules, and every round but the last starts one (termination theorem);
    the layers of [Autostart] use the number of manifests in the same way;
    the search of [LogRetention] for a free archive name uses one more than
    the number of archives, which is proved to find one; the calls of
    [RuntimeGateway] use targets and retries, the downloads of
    [ModuleRegistry] use three turns, both proved to suffice; the includes of
    [DepotVerify] take any fuel, and enough exists when the signed releases
    are finitely many.  Everything else is
    structural.  Third-party code is a class: [Semver] (semver),
    [DepotProtocol] and [SignedManifests] (depot client, signatures), [HttpTypes] and [RequestBuilder] (http, reqwest),
    [Floats] (f32 and f64), [HashOrder] (iteration of a [HashMap]),
    [DbAdminPort] (a database adapter), [UrlDecode], [IdentityCrypto] and
    [DbIdentity], [VerifierCrypto], [ModuleArchive], [TarBuilder],
    [TarReader] and [StorageJson] (archives and files), [Stamps],
    [VersionText] and [BundleText] (printing), [ModuleKit], [ConnectorLibs],
    [BackupLibs], [GatewayLibs], [Quality] and [Codec] (content coding),
    [SiteLibs], [ConfigLibs], [ManifestSigning], [AuditJson],
    [SignedDocuments] and [DepotSource] (signed documents of the depot and
    the depot itself), [SettingsLibs], [RegistryLibs], [Unicode],
    [Ciphers] and [Argon2].
    [ServiceWorld], [ModuleTypes] and [ControlWorld] are what the control
    plane asks of the other services.
    [ModuleHost] is the depot's interface to the module service and storage;
    what its laws say of activation and backups is proved for the storage in
    [ModuleStorageSafety], outside the findings on damaged caches and on
    archives named like the manifest.
    [ModuleRuntimePort] is the interface between the life cycle and a
    runtime; its laws are proved for the process runtime.  Each is
    instantiated by a concrete one in the witnesses.  Clocks, random values
    and the results of file writes are arguments.

    ** Not modelled

    Boot, command line, HTTP and SSH servers, TLS, telemetry, logging
    set-up, the embedded database process and the adapters themselves: they
    move data between operating system and libraries.  External identity
    providers and the database store of identities are requests and queries
    whose answers decide.  The development tools of modules run other
    programs; the completion of the shell only suggests. *)

From stdpp Require Export base tactics numbers option list list_numbers
  strings gmap fin_maps sets sorting.
From Stdlib Require Export ZArith Lia.

#[global] Open Scope Z_scope.

Declare Scope fenrir_scope.
Delimit Scope fenrir_scope with fenrir.

(** ** Results: Rust's [Result<A, E>] *)

Inductive result (A E : Type) : Type :=
| Ok (a : A)
| Err (e : E).
Arguments Ok {A E} a.
Arguments Err {A E} e.

Definition is_ok {A E} (r : result A E) : bool :=
  match r with Ok _ => true | Err _ => false end.

Definition result_bind {A B E} (r : result A E) (k : A -> result B E) : result B E :=
  match r with Ok a => k a | Err e => Err e end.

Definition map_err {A E F} (f : E -> F) (r : result A E) : result A F :=
  match r with Ok a => Ok a | Err e => Err (f e) end.

Definition ok_or {A E} (o : option A) (e : E) : result A E :=
  match o with Some a => Ok a | None => Err e end.

(** [x <-? r ;; k] is Rust's [let x = r?; k]. *)
Notation "x '<-?' r ';;' k" := (result_bind r (fun x => k))
  (at level 100, r at next level, right associativity) : fenrir_scope.
Lemma result_bind_ok_inv {A B E} (r : result A E) (k : A -> result B E) b :
  result_bind r k = Ok b -> exists a, r = Ok a /\ k a = Ok b.
Proof. destruct r; simpl; [eauto | discriminate]. Qed.

(** ** Machine integers *)

Definition u16_max : Z := 2 ^ 16 - 1.
Definition u64_max : Z := 2 ^ 64 - 1.
Definition i64_max : Z := 2 ^ 63 - 1.
Definition i64_min : Z := - 2 ^ 63.

(** [a.saturating_add(b)] on [u64]. *)
Definition u64_saturating_add (a b : Z) : Z := Z.min (a + b) u64_max.
(** [a.wrapping_add(b)] on [u64]. *)
Definition u64_wrapping_add (a b : Z) : Z := (a + b) mod 2 ^ 64.
(** [x as i64] for a [u64]: two's complement reinterpretation. *)
Definition u64_as_i64 (x : Z) : Z := if x <=? i64_max then x else x - 2 ^ 64.

Definition u64_ok (x : Z) : Prop := 0 <= x <= u64_max.

Lemma u64_saturating_add_ok a b : u64_ok a -> u64_ok b -> u64_ok (u64_saturating_add a b).
Proof. unfold u64_ok, u64_saturating_add. lia. Qed.

Lemma u64_as_i64_small x : 0 <= x <= i64_max -> u64_as_i64 x = x.
Proof. intros ?. unfold u64_as_i64. destruct (Z.leb_spec x i64_max); lia. Qed.

(** ** Tactics *)

(** Splits on the scrutinee of a [match] or [if] in the goal or a hypothesis,
    keeping the equation. *)
Ltac split_match :=
  match goal with
  | |- context [ match ?x with _ => _ end ] =>
      lazymatch x with context [ match _ with _ => _ end ] => fail | _ => destruct x eqn:? end
  | H : context [ match ?x with _ => _ end ] |- _ =>
      lazymatch x with context [ match _ with _ => _ end ] => fail | _ => destruct x eqn:? end
  end.

(** Turns boolean comparisons in the context into propositions. *)
Ltac boolify :=
  repeat match goal with
  | H : (_ && _)%bool = true |- _ => apply andb_true_iff in H; destruct H
  | H : (_ || _)%bool = false |- _ => apply orb_false_iff in H; destruct H
  | H : negb _ = true |- _ => apply negb_true_iff in H
  | H : negb _ = false |- _ => apply negb_false_iff in H
  | H : (_ <=? _) = true |- _ => apply Z.leb_le in H
  | H : (_ <=? _) = false |- _ => apply Z.leb_gt in H
  | H : (_ <? _) = true |- _ => apply Z.ltb_lt in H
  | H : (_ <? _) = false |- _ => apply Z.ltb_ge in H
  | H : (_ =? _) = true |- _ => apply Z.eqb_eq in H
  | H : (_ =? _) = false |- _ => apply Z.eqb_neq in H
  | H : bool_decide _ = true |- _ => apply bool_decide_eq_true in H
  | H : bool_decide _ = false |- _ => apply bool_decide_eq_false in H
  end.

(** Case analysis on every guard, then simplification and arithmetic. *)
Ltac solve_guards := repeat split_match; simplify_eq/=; boolify; try lia; try done.

Create HintDb fenrir.
#[export] Hint Resolve u64_saturating_add_ok : fenrir.

(** ** [BTreeMap<String, _>]

    The map itself is a [gmap]; what the ordered map adds is its iteration
    order, by key. *)
Definition btree_keys {A} (m : gmap string A) : list string := merge_sort String.le (elements (dom m)).
Definition btree_entries {A} (m : gmap string A) : list (string * A) :=
  omap (λ k, (k,.) <$> m !! k) (btree_keys m).
Definition btree_values {A} (m : gmap string A) : list A := snd <$> btree_entries m.

(** [entries.sort_by(|a, b| a.name.cmp(&b.name))]: a stable sort by a key. *)
Definition sort_by_key {A} (k : A -> string) : list A -> list A :=
  merge_sort (λ a b, String.le (k a) (k b)).

Lemma btree_keys_elem {A} (m : gmap string A) k : k ∈ btree_keys m <-> is_Some (m !! k).
Proof. unfold btree_keys. by rewrite merge_sort_Permutation, elem_of_elements, elem_of_dom. Qed.

Lemma btree_keys_sorted {A} (m : gmap string A) : StronglySorted String.le (btree_keys m).
Proof. apply Sorted_StronglySorted; [apply _|]. apply Sorted_merge_sort, _. Qed.

Lemma btree_keys_nodup {A} (m : gmap string A) : NoDup (btree_keys m).
Proof. unfold btree_keys. rewrite merge_sort_Permutation. apply NoDup_elements. Qed.

Lemma btree_entries_keys {A} (m : gmap string A) : (btree_entries m).*1 = btree_keys m.
Proof.
  unfold btree_entries.
  assert (H : Forall (λ k, is_Some (m !! k)) (btree_keys m)).
  { apply Forall_forall. intros k. by rewrite btree_keys_elem. }
  induction H as [|k ks [x Hx] _ IH]; [done|]. simpl. rewrite Hx. simpl. by f_equal.
Qed.

Lemma btree_entries_elem {A} (m : gmap string A) k x : (k, x) ∈ btree_entries m <-> m !! k = Some x.
Proof.
  unfold btree_entries. rewrite list_elem_of_omap. split.
  - intros (k' & _ & (x' & Hx & [= -> ->])%fmap_Some). done.
  - intros Hx. exists k. rewrite btree_keys_elem, Hx. eauto.
Qed.

#[global] Instance key_le_total {A} (k : A -> string) : Total (λ a b, String.le (k a) (k b)).
Proof. intros a b. apply (total String.le). Qed.
#[global] Instance key_le_trans {A} (k : A -> string) : Transitive (λ a b, String.le (k a) (k b)).
Proof. intros a b c ??. by etrans. Qed.

Lemma sort_by_key_perm {A} (k : A -> string) l : sort_by_key k l ≡ₚ l.
Proof. apply merge_sort_Permutation. Qed.

Lemma sort_by_key_sorted {A} (k : A -> string) l : StronglySorted (λ a b, String.le (k a) (k b)) (sort_by_key k l).
Proof. apply Sorted_StronglySorted; [apply _|]. apply Sorted_merge_sort, _. Qed.

(** A stable sort by a boolean order, as [slice::sort_by]. *)
Section StableSort.
Context {A : Type} (le : A -> A -> bool).
Fixpoint insert_by (x : A) (l : list A) : list A :=
  match l with
  | [] => [x]
  | y :: l' => if le x y then x :: l else y :: insert_by x l'
  end.
Definition stable_sort (l : list A) : list A := foldr insert_by [] l.

Lemma insert_by_perm x l : insert_by x l ≡ₚ x :: l.
Proof. induction l as [|y l IH]; cbn; [done|]. case_match; [done|]. rewrite IH. apply Permutation_swap. Qed.

Lemma stable_sort_perm l : stable_sort l ≡ₚ l.
Proof. induction l as [|x l IH]; cbn; [done|]. by rewrite insert_by_perm, IH. Qed.

Lemma stable_sort_id l : StronglySorted (λ a b, le a b = true) l -> stable_sort l = l.
Proof.
  induction 1 as [|x l Hs IH Hle]; [done|]. cbn [stable_sort foldr]. fold (stable_sort l). rewrite IH.
  destruct l as [|y l]; [done|]. cbn. by apply Forall_cons in Hle as [-> _].
Qed.

Hypothesis le_total : forall x y, le x y = false -> le y x = true.
Hypothesis le_trans : forall x y z, le x y = true -> le y z = true -> le x z = true.

Lemma insert_by_sorted x l : StronglySorted (λ a b, le a b = true) l -> StronglySorted (λ a b, le a b = true) (insert_by x l).
Proof.
  induction 1 as [|y l Hs IH Hle]; cbn; [repeat constructor|]. destruct (le x y) eqn:E.
  - constructor; [by constructor|]. constructor; [done|]. eapply Forall_impl; [exact Hle|]. cbn. eauto.
  - constructor; [done|]. rewrite insert_by_perm. constructor; eauto.
Qed.

Lemma stable_sort_sorted l : StronglySorted (λ a b, le a b = true) (stable_sort l).
Proof. induction l; cbn; [constructor|]. by apply insert_by_sorted. Qed.
End StableSort.

(** ** Filters *)

Lemma filter_ext_in {X} (P Q : X -> Prop) `{!forall x, Decision (P x), !forall x, Decision (Q x)} (l : list X) :
  (forall x, x ∈ l -> P x <-> Q x) -> filter P l = filter Q l.
Proof.
  induction l as [|x l IH]; intros Hl; [done|]. rewrite !filter_cons.
  rewrite IH by (intros y Hy; apply Hl; by right). specialize (Hl x (list_elem_of_here _ _)).
  repeat case_decide; tauto.
Qed.
Lemma strongly_sorted_sublist {X : Type} (R : relation X) (l k : list X) : l `sublist_of` k -> StronglySorted R k -> StronglySorted R l.
Proof.
  induction 1 as [|x l k Hlk IH|x l k Hlk IH]; intros Hs; [done|..]; inversion_clear Hs as [|? ? Hs' Hx]; [|auto].
  constructor; [auto|]. rewrite Forall_forall in *. intros y Hy. apply Hx. by eapply elem_of_submseteq, sublist_submseteq.
Qed.

Lemma filter_id {X} (P : X -> Prop) `{!forall x, Decision (P x)} (l : list X) : (forall x, x ∈ l -> P x) -> filter P l = l.
Proof.
  induction l as [|x l IH]; intros Hl; [done|]. rewrite filter_cons_True by (apply Hl; left).
  rewrite IH; [done|]. intros y Hy. apply Hl. by right.
Qed.

(** ** Sums over finite maps *)

Section MapSum.
Context {K : Type} `{Countable K} {A : Type} (w : A -> nat).

(** The sum of [w] over the values of a map. *)
Definition msum (m : gmap K A) : nat := map_fold (λ _ x n, (w x + n)%nat) 0%nat m.

Lemma msum_empty : msum ∅ = 0%nat.
Proof. apply map_fold_empty. Qed.

Lemma msum_insert_new m i x : m !! i = None -> msum (<[i := x]> m) = (w x + msum m)%nat.
Proof. intros Hi. unfold msum. rewrite map_fold_insert_L; [done| |done]. intros. lia. Qed.

Lemma msum_delete m i y : m !! i = Some y -> (w y + msum (delete i m))%nat = msum m.
Proof.
  intros Hi. rewrite <- (insert_delete_id m i y Hi) at 2.
  by rewrite msum_insert_new by apply lookup_delete_eq.
Qed.

Lemma msum_update m i x y :
  m !! i = Some y -> (w y + msum (<[i := x]> m))%nat = (w x + msum m)%nat.
Proof.
  intros Hi. rewrite <- insert_delete_eq, msum_insert_new by apply lookup_delete_eq.
  rewrite <- (msum_delete m i y Hi). lia.
Qed.
End MapSum.

Lemma msum_le {K} `{Countable K} {A} (w w' : A -> nat) (m : gmap K A) :
  (forall i x, m !! i = Some x -> (w x <= w' x)%nat) -> (msum w m <= msum w' m)%nat.
Proof.
  induction m as [|i x m Hi IH] using map_ind; intros Hle; [by rewrite !msum_empty|].
  rewrite !msum_insert_new by done. pose proof (Hle i x (lookup_insert_eq _ _ _)).
  assert (msum w m <= msum w' m)%nat; [|lia]. apply IH. intros j y Hj. apply (Hle j).
  rewrite lookup_insert_ne; [done|]. congruence.
Qed.

Lemma msum_ext {K} `{Countable K} {A} (w w' : A -> nat) (m : gmap K A) :
  (forall i x, m !! i = Some x -> w x = w' x) -> msum w m = msum w' m.
Proof.
  intros Hw. apply Nat.le_antisymm; apply msum_le; intros i x Hx; rewrite (Hw i x Hx); lia.
Qed.

Lemma msum_add {K} `{Countable K} {A} (w w' : A -> nat) (m : gmap K A) :
  msum (λ x, w x + w' x)%nat m = (msum w m + msum w' m)%nat.
Proof.
  induction m as [|i x m Hi IH] using map_ind; [by rewrite !msum_empty|].
  rewrite !msum_insert_new by done. lia.
Qed.

(** What a partition keeps and what it drops. *)
Lemma length_filter_not {A} (P : A -> Prop) `{!forall x, Decision (P x)} (l : list A) :
  (length (filter P l) + length (filter (λ x, ~ P x) l))%nat = length l.
Proof.
  induction l as [|x l IH]; [done|]. rewrite !filter_cons. repeat case_decide; cbn; try lia; tauto.
Qed.

(** Replacing or removing one binding, and the sums before and after. *)
Section MapPut.
Context {K : Type} `{Countable K} {A : Type}.
Definition put (i : K) (o : option A) (m : gmap K A) : gmap K A :=
  match o with Some x => <[i := x]> m | None => delete i m end.
Definition weight (w : A -> nat) (o : option A) : nat := default 0%nat (w <$> o).

Lemma msum_put w (m : gmap K A) i o :
  (weight w (m !! i) + msum w (put i o m))%nat = (weight w o + msum w m)%nat.
Proof.
  unfold weight. destruct o as [x|], (m !! i) as [y|] eqn:Hi; cbn.
  - by apply msum_update.
  - by rewrite msum_insert_new.
  - by rewrite msum_delete.
  - by rewrite delete_id.
Qed.

Lemma put_same (m : gmap K A) i o : m !! i = o -> put i o m = m.
Proof. intros <-. unfold put. destruct (m !! i) eqn:Hi; [by apply insert_id|by apply delete_id]. Qed.
End MapPut.

(** ** Strings *)

Lemma string_length_app s t : String.length (s +:+ t) = (String.length s + String.length t)%nat.
Proof. induction s as [|a s IH]; [done|]. change (S (String.length (s +:+ t)) = S (String.length s + String.length t)). by rewrite IH. Qed.

Lemma string_app_inj_r s1 s2 t : s1 +:+ t = s2 +:+ t -> s1 = s2.
Proof.
  revert s2. induction s1 as [|a s1 IH]; intros [|b s2] E.
  - done.
  - apply (f_equal String.length) in E. change (String.length t = S (String.length (s2 +:+ t))) in E.
    rewrite string_length_app in E. lia.
  - apply (f_equal String.length) in E. change (S (String.length (s1 +:+ t)) = String.length t) in E.
    rewrite string_length_app in E. lia.
  - change (String a (s1 +:+ t) = String b (s2 +:+ t)) in E. injection E as -> E. f_equal. by apply IH.
Qed.
