(* ===== verification/StateError.v ===== *)
(** * Computations with state and errors

    The fallible, stateful code of the process runtime and of the module life
    cycle: a computation takes the state and gives a result and the new
    state, also when it fails.  [let* x := m in k] is [let x = m?; k],
    [m >> k] runs [k] after a successful [m]. *)

From S2P Require Import Prelude.

#[local] Open Scope fenrir_scope.

Definition SE (S E A : Type) : Type := S -> result A E * S.

Section SE.
Context {S E : Type}.
Definition ret {A : Type} (a : A) : SE S E A := λ s, (Ok a, s).
Definition fail {A : Type} (e : E) : SE S E A := λ s, (Err e, s).
Definition bindr {A B : Type} (m : SE S E A) (k : A -> SE S E B) : SE S E B :=
  λ s, match m s with (Ok a, s) => k a s | (Err e, s) => (Err e, s) end.
Definition lift {A : Type} (x : result A E) : SE S E A := λ s, (x, s).
Definition gets {A : Type} (f : S -> A) : SE S E A := λ s, (Ok (f s), s).
Definition modify (f : S -> S) : SE S E unit := λ s, (Ok tt, f s).
Fixpoint each {A : Type} (l : list A) (f : A -> SE S E unit) : SE S E unit :=
  match l with [] => ret tt | a :: l => bindr (f a) (λ _, each l f) end.

Lemma bindr_ok {A B : Type} (c : SE S E A) (k : A -> SE S E B) s a s1 : c s = (Ok a, s1) -> bindr c k s = k a s1.
Proof. unfold bindr. by intros ->. Qed.
Lemma bindr_err {A B : Type} (c : SE S E A) (k : A -> SE S E B) s e s1 : c s = (Err e, s1) -> bindr c k s = (Err e, s1).
Proof. unfold bindr. by intros ->. Qed.
(** A computation that succeeds has run its first part successfully. *)
Lemma bindr_ok_inv {A B : Type} (c : SE S E A) (k : A -> SE S E B) s b s' : bindr c k s = (Ok b, s') ->
  exists a s1, c s = (Ok a, s1) /\ k a s1 = (Ok b, s').
Proof. unfold bindr. destruct (c s) as [[a|e] s1]; [|done]. eauto. Qed.
(** A failure is one of its first part, or of the rest after it. *)
Lemma bindr_err_inv {A B : Type} (c : SE S E A) (k : A -> SE S E B) s e s' : bindr c k s = (Err e, s') ->
  c s = (Err e, s') \/ exists a s1, c s = (Ok a, s1) /\ k a s1 = (Err e, s').
Proof. unfold bindr. destruct (c s) as [[a|e'] s1]; [eauto|]. intros [= -> ->]. by left. Qed.
End SE.

Notation "'let*' x := m 'in' k" := (bindr m (λ x, k)) (at level 10, x name, m at level 100, k at level 200).
Notation "m '>>' k" := (bindr m (λ _, k)) (at level 100, k at level 200, right associativity, only parsing) : fenrir_scope.
