(* ===== verification/Text.v ===== *)
(** * Text: the parts of Rust's [str] and [char] the host uses

    A [char] is a Unicode scalar value (a [Z]), a [text] the list of the
    characters of a Rust [String]; [utf8] gives the bytes of a text and
    [from_utf8] is [std::str::from_utf8].  The functions are those of the
    standard library: [trim], [split], [split_once], [join],
    [to_ascii_lowercase], [strip_prefix], ... *)

From stdpp Require Import pretty.
From S2P Require Import Prelude.

Abbreviation char := Z (only parsing).
Abbreviation text := (list Z) (only parsing).

(** An ASCII literal of the source as a text. *)
Definition lit (s : string) : text :=
  (λ a, Z.of_N (Ascii.N_of_ascii a)) <$> String.list_ascii_of_string s.

Definition char_ok (c : char) : bool :=
  (0 <=? c) && (c <=? 0x10FFFF) && negb ((0xD800 <=? c) && (c <=? 0xDFFF)).

(** [char::is_whitespace]: the 25 characters of Unicode [White_Space]. *)
Definition is_whitespace (c : char) : bool :=
  ((9 <=? c) && (c <=? 13)) || (c =? 32) || (c =? 0x85) || (c =? 0xA0)
  || (c =? 0x1680) || ((0x2000 <=? c) && (c <=? 0x200A)) || (c =? 0x2028)
  || (c =? 0x2029) || (c =? 0x202F) || (c =? 0x205F) || (c =? 0x3000).

Definition is_ascii_digit (c : char) : bool := (48 <=? c) && (c <=? 57).
Definition is_ascii_upper (c : char) : bool := (65 <=? c) && (c <=? 90).
Definition is_ascii_lower (c : char) : bool := (97 <=? c) && (c <=? 122).
Definition is_ascii_alphanumeric (c : char) : bool :=
  is_ascii_digit c || is_ascii_upper c || is_ascii_lower c.

Definition ascii_lower (c : char) : char := if is_ascii_upper c then c + 32 else c.
Definition ascii_upper (c : char) : char := if is_ascii_lower c then c - 32 else c.
Definition to_ascii_lowercase (s : text) : text := ascii_lower <$> s.
Definition to_ascii_uppercase (s : text) : text := ascii_upper <$> s.
Definition eq_ignore_ascii_case (a b : text) : bool :=
  bool_decide (to_ascii_lowercase a = to_ascii_lowercase b).

(** [char::len_utf8] and [str::len]. *)
Definition len_utf8 (c : char) : Z :=
  if c <? 0x80 then 1 else if c <? 0x800 then 2 else if c <? 0x10000 then 3 else 4.
Definition byte_len (s : text) : Z := foldr (λ c n, len_utf8 c + n) 0 s.

Fixpoint drop_while (p : char -> bool) (s : text) : text :=
  match s with
  | [] => []
  | c :: s' => if p c then drop_while p s' else s
  end.

Definition trim_start (s : text) : text := drop_while is_whitespace s.
Definition trim_end (s : text) : text := rev (drop_while is_whitespace (rev s)).
Definition trim (s : text) : text := trim_end (trim_start s).

(** [s.split(c)]: always at least one piece. *)
Fixpoint split (c : char) (s : text) : list text :=
  match s with
  | [] => [[]]
  | x :: s' =>
      if x =? c then [] :: split c s'
      else match split c s' with
           | p :: ps => (x :: p) :: ps
           | [] => [[x]]
           end
  end.

(** [pieces.join(sep)]. *)
Fixpoint join (sep : text) (ps : list text) : text :=
  match ps with
  | [] => []
  | [p] => p
  | p :: ps' => p ++ sep ++ join sep ps'
  end.

(** [s.split_once(c)] and [s.rsplit_once(c)]. *)
Fixpoint split_once (c : char) (s : text) : option (text * text) :=
  match s with
  | [] => None
  | x :: s' => if x =? c then Some ([], s')
               else match split_once c s' with
                    | Some (a, b) => Some (x :: a, b)
                    | None => None
                    end
  end.
Definition rsplit_once (c : char) (s : text) : option (text * text) :=
  match split_once c (rev s) with
  | Some (a, b) => Some (rev b, rev a)
  | None => None
  end.

(** [s.strip_prefix(p)], [s.starts_with(p)], [s.strip_suffix(p)]. *)
Fixpoint strip_prefix (p s : text) : option text :=
  match p, s with
  | [], _ => Some s
  | x :: p', y :: s' => if x =? y then strip_prefix p' s' else None
  | _ :: _, [] => None
  end.
Definition starts_with (p s : text) : bool :=
  match strip_prefix p s with Some _ => true | None => false end.
Definition strip_suffix (p s : text) : option text := @rev Z <$> strip_prefix (rev p) (rev s).

(** [s.find(pat)] for a text pattern: the part before the first occurrence
    and the part after it. *)
Fixpoint find_sub (pat s : text) : option (text * text) :=
  match strip_prefix pat s with
  | Some rest => Some ([], rest)
  | None =>
      match s with
      | [] => None
      | x :: s' => match find_sub pat s' with
                   | Some (a, b) => Some (x :: a, b)
                   | None => None
                   end
      end
  end.
Definition contains_sub (pat s : text) : bool :=
  match find_sub pat s with Some _ => true | None => false end.

(** The UTF-8 encoding of one character and of a text. *)
Definition utf8_char (c : char) : list Z :=
  if c <? 0x80 then [c]
  else if c <? 0x800 then [0xC0 + c / 64; 0x80 + c mod 64]
  else if c <? 0x10000 then [0xE0 + c / 4096; 0x80 + c / 64 mod 64; 0x80 + c mod 64]
  else [0xF0 + c / 262144; 0x80 + c / 4096 mod 64; 0x80 + c / 64 mod 64; 0x80 + c mod 64].
Definition utf8 (s : text) : list Z := concat (utf8_char <$> s).

Definition is_cont (b : Z) : bool := (0x80 <=? b) && (b <=? 0xBF).

(** [std::str::from_utf8]: [None] on ill-formed input (truncated, overlong,
    surrogate or out-of-range sequences). *)
Fixpoint from_utf8 (bs : list Z) : option text :=
  match bs with
  | [] => Some []
  | b0 :: r0 =>
      if (0 <=? b0) && (b0 <? 0x80) then cons b0 <$> from_utf8 r0
      else match r0 with
      | [] => None
      | b1 :: r1 =>
          if negb (is_cont b1) then None
          else if (0xC2 <=? b0) && (b0 <=? 0xDF) then
            cons ((b0 - 0xC0) * 64 + (b1 - 0x80)) <$> from_utf8 r1
          else match r1 with
          | [] => None
          | b2 :: r2 =>
              if negb (is_cont b2) then None
              else if (0xE0 <=? b0) && (b0 <=? 0xEF) then
                let c := (b0 - 0xE0) * 4096 + (b1 - 0x80) * 64 + (b2 - 0x80) in
                if (0x800 <=? c) && char_ok c then cons c <$> from_utf8 r2 else None
              else match r2 with
              | [] => None
              | b3 :: r3 =>
                  if negb (is_cont b3) then None
                  else if (0xF0 <=? b0) && (b0 <=? 0xF4) then
                    let c := (b0 - 0xF0) * 262144 + (b1 - 0x80) * 4096
                             + (b2 - 0x80) * 64 + (b3 - 0x80) in
                    if (0x10000 <=? c) && char_ok c then cons c <$> from_utf8 r3 else None
                  else None
              end
          end
      end
  end.

(** The value of a non-empty string of ASCII digits, most significant first. *)
Definition digits_value (s : text) : Z := foldl (λ n c, n * 10 + (c - 48)) 0 s.

(** [s.parse::<u64>()] on a text without sign: all digits, no overflow. *)
Definition parse_unsigned (max : Z) (s : text) : option Z :=
  if bool_decide (s = []) then None
  else if forallb is_ascii_digit s then
    let v := digits_value s in if v <=? max then Some v else None
  else None.

(** [s.parse::<uN>()]: Rust also accepts one leading [+]. *)
Definition parse_uint (max : Z) (s : text) : option Z :=
  match s with
  | 43 :: s' => parse_unsigned max s'
  | _ => parse_unsigned max s
  end.

(** ** Lemmas *)

Lemma drop_while_suffix p s : exists pre, s = pre ++ drop_while p s /\ Forall (λ c, p c = true) pre.
Proof.
  induction s as [|c s [pre [IH1 IH2]]]; simpl.
  - by exists [].
  - destruct (p c) eqn:E; [exists (c :: pre) | exists []]; simpl; split; auto.
    congruence.
Qed.

Lemma drop_while_idemp p s : drop_while p (drop_while p s) = drop_while p s.
Proof. induction s as [|c s IH]; simpl; [done|]. destruct (p c) eqn:E; simpl; rewrite ?E; done. Qed.

Lemma drop_while_head p s c s' : drop_while p s = c :: s' -> p c = false.
Proof. induction s as [|x s IH]; simpl; [done|]. destruct (p x) eqn:E; [done|]. by intros [= -> ->]. Qed.

Lemma drop_while_id p s : match s with [] => True | c :: _ => p c = false end -> drop_while p s = s.
Proof. destruct s; simpl; [done|]. by intros ->. Qed.

Lemma drop_while_snoc p s c : p c = false -> drop_while p (s ++ [c]) = drop_while p s ++ [c].
Proof. intros Hc. induction s as [|x s IH]; simpl; [by rewrite Hc|]. by destruct (p x). Qed.

Lemma trim_idemp s : trim (trim s) = trim s.
Proof.
  unfold trim. set (t := trim_start s).
  assert (Ht : trim_start (trim_end t) = trim_end t).
  { unfold trim_start. apply drop_while_id.
    destruct (drop_while_suffix is_whitespace (rev t)) as (pre & Hpre & _).
    apply (f_equal (@rev _)) in Hpre. rewrite rev_involutive, rev_app_distr in Hpre.
    fold (trim_end t) in Hpre. destruct (trim_end t) as [|c r] eqn:E; [done|].
    apply (drop_while_head is_whitespace s c (r ++ rev pre)). fold (trim_start s) t. by rewrite Hpre. }
  rewrite Ht. unfold trim_end. by rewrite rev_involutive, drop_while_idemp.
Qed.

Lemma split_nonempty c s : split c s <> [].
Proof. destruct s as [|x s]; simpl; [done|]. destruct (x =? c), (split c s); done. Qed.

Lemma split_pieces c s : Forall (λ p, c ∉ p) (split c s).
Proof.
  induction s as [|x s IH]; simpl; [apply Forall_singleton, not_elem_of_nil|].
  destruct (Z.eqb_spec x c) as [->|Hne]; [constructor; [apply not_elem_of_nil|done]|].
  destruct (split c s) as [|p ps] eqn:E; [by destruct (split_nonempty c s)|].
  inv IH. constructor; [|done]. rewrite not_elem_of_cons; split; congruence.
Qed.

Lemma join_split c s : join [c] (split c s) = s.
Proof.
  induction s as [|x s IH]; simpl; [done|].
  pose proof (split_nonempty c s) as Hne.
  destruct (Z.eqb_spec x c) as [->|_].
  - destruct (split c s) as [|p ps]; [done|]. simpl in *. by rewrite <- IH.
  - destruct (split c s) as [|p ps]; [done|]. destruct ps; simpl in *; by rewrite <- IH.
Qed.

Lemma split_no_sep c s : c ∉ s -> split c s = [s].
Proof.
  induction s as [|x s IH]; simpl; [done|]. intros Hn.
  destruct (Z.eqb_spec x c); [set_solver|]. rewrite IH by set_solver. done.
Qed.

Lemma split_app_sep c a s : c ∉ a -> split c (a ++ c :: s) = a :: split c s.
Proof.
  induction a as [|x a IH]; simpl; intros Hn; [by rewrite Z.eqb_refl|].
  destruct (Z.eqb_spec x c); [set_solver|]. by rewrite IH by set_solver.
Qed.

Lemma split_join c ps : ps <> [] -> Forall (λ p, c ∉ p) ps -> split c (join [c] ps) = ps.
Proof.
  induction ps as [|p ps IH]; [done|]. intros _ HF. inv HF.
  destruct ps as [|q ps]; simpl; [by apply split_no_sep|].
  rewrite split_app_sep by done. f_equal. by apply IH.
Qed.

Lemma split_once_some c s a b : split_once c s = Some (a, b) -> s = a ++ c :: b /\ c ∉ a.
Proof.
  revert a. induction s as [|x s IH]; simpl; intros a; [done|].
  destruct (Z.eqb_spec x c) as [->|Hne].
  - intros [= <- <-]. split; [done|set_solver].
  - destruct (split_once c s) as [[a' b']|] eqn:E; [|done]. intros [= <- <-].
    destruct (IH a') as [-> ?]; [done|]. split; [done|set_solver].
Qed.

Lemma split_once_none c s : split_once c s = None <-> c ∉ s.
Proof.
  induction s as [|x s IH]; simpl; [set_solver|].
  destruct (Z.eqb_spec x c) as [->|Hne]; [set_solver|].
  destruct (split_once c s) as [[a b]|] eqn:E; set_solver.
Qed.

Lemma split_once_app c a b : c ∉ a -> split_once c (a ++ c :: b) = Some (a, b).
Proof.
  induction a as [|x a IH]; simpl; intros Hn; [by rewrite Z.eqb_refl|].
  destruct (Z.eqb_spec x c); [set_solver|]. rewrite IH by set_solver. done.
Qed.

Lemma rsplit_once_app c a b : c ∉ b -> rsplit_once c (a ++ c :: b) = Some (a, b).
Proof.
  intros Hb. unfold rsplit_once. rewrite rev_app_distr. cbn. rewrite <- app_assoc. cbn. rewrite split_once_app; [by rewrite !rev_involutive|].
  intros H. apply Hb, list_elem_of_In, in_rev. by apply list_elem_of_In.
Qed.

Lemma strip_prefix_some p s r : strip_prefix p s = Some r <-> s = p ++ r.
Proof.
  revert s. induction p as [|x p IH]; intros s; simpl; [naive_solver|].
  destruct s as [|y s]; [naive_solver|].
  destruct (Z.eqb_spec x y) as [->|Hne]; [rewrite IH; naive_solver | naive_solver].
Qed.

Lemma strip_suffix_some p s r : strip_suffix p s = Some r <-> s = r ++ p.
Proof.
  unfold strip_suffix. rewrite fmap_Some. split.
  - intros (r' & Hr & ->). apply strip_prefix_some in Hr.
    apply (f_equal (@rev _)) in Hr. by rewrite rev_involutive, rev_app_distr, rev_involutive in Hr.
  - intros ->. exists (rev r). rewrite rev_involutive. split; [|done].
    apply strip_prefix_some. apply rev_app_distr.
Qed.

Lemma find_sub_some pat s a b : find_sub pat s = Some (a, b) -> s = a ++ pat ++ b.
Proof.
  revert a. induction s as [|x s IH]; intros a; simpl;
    (destruct (strip_prefix pat _) as [r|] eqn:E;
     [apply strip_prefix_some in E; intros [= <- <-]; done|]); [done|].
  destruct (find_sub pat s) as [[a' b']|]; [|done]. intros [= <- <-].
  by rewrite (IH a').
Qed.

Lemma find_sub_here pat a b : (forall x, head pat = Some x -> x ∉ a) -> pat <> [] -> find_sub pat (a ++ pat ++ b) = Some (a, b).
Proof.
  intros Hx Hne. induction a as [|y a IH]; cbn.
  - assert (strip_prefix pat (pat ++ b) = Some b) as E by by apply strip_prefix_some. destruct pat; [done|]. cbn in E |- *. by rewrite E.
  - destruct (strip_prefix pat _) as [r|] eqn:E.
    + exfalso. destruct pat as [|p pat]; [done|]. cbn in E. destruct (p =? y) eqn:Epy; [|done]. apply Z.eqb_eq in Epy. apply (Hx p); [done|]. set_solver.
    + rewrite IH; [done|]. intros x Hp Hin. apply (Hx x Hp). set_solver.
Qed.

Lemma byte_len_app a b : byte_len (a ++ b) = byte_len a + byte_len b.
Proof. induction a as [|c a IH]; simpl; [done|]. unfold byte_len in *. simpl. lia. Qed.

Lemma utf8_ascii s : Forall (λ c, 0 <= c < 128) s -> utf8 s = s /\ from_utf8 s = Some s.
Proof.
  induction 1 as [|c s Hc _ [IH1 IH2]]; [done|]. split.
  - change (utf8 (c :: s)) with (utf8_char c ++ utf8 s). rewrite IH1. unfold utf8_char. by destruct (Z.ltb_spec c 128); [|lia].
  - cbn [from_utf8]. rewrite (proj2 (Z.leb_le 0 c)), (proj2 (Z.ltb_lt c 128)) by lia. cbn [andb]. by rewrite IH2.
Qed.

Lemma len_utf8_pos c : 1 <= len_utf8 c <= 4.
Proof. unfold len_utf8. repeat case_match; lia. Qed.

Lemma byte_len_nonneg s : 0 <= byte_len s.
Proof. induction s as [|c s IH]; unfold byte_len in *; simpl; [lia|]. pose proof (len_utf8_pos c). lia. Qed.

Lemma ascii_lower_idemp c : ascii_lower (ascii_lower c) = ascii_lower c.
Proof.
  unfold ascii_lower, is_ascii_upper.
  destruct ((65 <=? c) && (c <=? 90)) eqn:E; [|by rewrite E].
  apply andb_true_iff in E as [?%Z.leb_le ?%Z.leb_le].
  destruct ((65 <=? c + 32) && (c + 32 <=? 90)) eqn:E'; [|done]. boolify. lia.
Qed.

Lemma to_ascii_lowercase_idemp s : to_ascii_lowercase (to_ascii_lowercase s) = to_ascii_lowercase s.
Proof.
  unfold to_ascii_lowercase. rewrite <- list_fmap_compose. apply list_fmap_ext.
  intros; simpl. apply ascii_lower_idemp.
Qed.

Lemma trim_no_ws s : Forall (λ c, is_whitespace c = false) s -> trim s = s.
Proof.
  intros HF. unfold trim, trim_start, trim_end. rewrite (drop_while_id _ s).
  2:{ destruct s; [done|]. by inv HF. }
  rewrite drop_while_id; [apply rev_involutive|].
  destruct (rev s) as [|c r] eqn:E; [done|].
  rewrite Forall_forall in HF. apply HF. apply list_elem_of_In, in_rev. rewrite E. by left.
Qed.

(** ** Decimal numbers *)

Lemma lit_inj s s' : lit s = lit s' -> s = s'.
Proof.
  unfold lit. revert s'. induction s as [|a s IH]; intros [|a' s']; cbn; try done.
  intros [= Ha Hs]. f_equal; [|by apply IH]. apply N2Z.inj in Ha. rewrite <- (Ascii.ascii_N_embedding a), Ha.
  apply Ascii.ascii_N_embedding.
Qed.

Definition digit_text (s : string) : Prop := Forall (λ c, is_ascii_digit c = true) (lit s).

Lemma pretty_go_digits x s : digit_text s -> s <> ""%string \/ (0 < x)%N ->
  digit_text (pretty_N_go x s) /\ pretty_N_go x s <> ""%string.
Proof.
  revert s. induction (N.lt_wf_0 x) as [x _ IH]; intros s Hs Hne.
  assert (x = 0 \/ 0 < x)%N as [->|Hx] by lia.
  - rewrite pretty_N_go_0. split; [done|]. destruct Hne; [done|lia].
  - rewrite pretty_N_go_step by done. apply IH; [by apply N.div_lt| |by left].
    unfold digit_text. cbn. apply Forall_cons. split; [|done]. unfold pretty_N_char. by repeat case_match.
Qed.

Lemma pretty_go_value x s : foldl (λ n c, n * 10 + (c - 48)) 0 (lit (pretty_N_go x s)) = foldl (λ n c, n * 10 + (c - 48)) (Z.of_N x) (lit s).
Proof.
  revert s. induction (N.lt_wf_0 x) as [x _ IH]; intros s. assert (x = 0 \/ 0 < x)%N as [->|Hx] by lia; [by rewrite pretty_N_go_0|].
  rewrite pretty_N_go_step, IH by first [done|by apply N.div_lt]. 
  change (lit (String (pretty_N_char (x mod 10)) s)) with (Z.of_N (Ascii.N_of_ascii (pretty_N_char (x mod 10))) :: lit s). cbn [foldl]. f_equal.
  assert (Hc : Z.of_N (Ascii.N_of_ascii (pretty_N_char (x mod 10))) = 48 + Z.of_N (x mod 10)).
  { assert (Hm : (x mod 10 < 10)%N) by (by apply N.mod_lt). clear IH. generalize dependent (x mod 10)%N. intros m Hm.
    assert (m = 0 \/ m = 1 \/ m = 2 \/ m = 3 \/ m = 4 \/ m = 5 \/ m = 6 \/ m = 7 \/ m = 8 \/ m = 9)%N as Hcases by lia.
    by repeat destruct Hcases as [->|Hcases]; [..|rewrite Hcases]. }
  rewrite Hc. pose proof (N.div_mod x 10). lia.
Qed.

Lemma pretty_digit_text n : digit_text (pretty (n : N)) /\ lit (pretty n) <> [].
Proof.
  unfold pretty, pretty_N. case_decide; [by split; [repeat constructor|]|].
  destruct (pretty_go_digits n "") as [Hd Hne]; [constructor|right; lia|]. split; [done|].
  intros Hl. apply Hne. by destruct (pretty_N_go n "").
Qed.

(** A printed number is parsed back. *)
Lemma parse_pretty max n : Z.of_N n <= max -> parse_uint max (lit (pretty (n : N))) = Some (Z.of_N n).
Proof.
  intros Hn. destruct (pretty_digit_text n) as [Hd Hne].
  assert (Hp : parse_unsigned max (lit (pretty n)) = Some (Z.of_N n)).
  { unfold parse_unsigned. rewrite bool_decide_eq_false_2 by done. rewrite (proj2 (forallb_forall _ _)).
    - assert (Hv : digits_value (lit (pretty n)) = Z.of_N n).
      { unfold digits_value, pretty, pretty_N. case_decide as Hz; [by rewrite Hz|]. by rewrite pretty_go_value. }
      rewrite Hv. by rewrite (proj2 (Z.leb_le _ _) Hn).
    - intros c Hc. unfold digit_text in Hd. rewrite Forall_forall in Hd. apply Hd. by apply list_elem_of_In. }
  unfold parse_uint. destruct (lit (pretty n)) as [|c l] eqn:E; [done|].
  assert (c <> 43) by (intros ->; unfold digit_text in Hd; rewrite E in Hd; by apply Forall_cons in Hd as [Hd _]).
  repeat case_match; simplify_eq; done.
Qed.

(** A text is determined by its parts around a character the first lacks. *)
Lemma split_char_inj (d : char) (a b a' b' : text) : d ∉ a -> d ∉ a' -> a ++ d :: b = a' ++ d :: b' -> a = a' /\ b = b'.
Proof.
  revert a'. induction a as [|x a IH]; intros [|y a'] Ha Ha' H; cbn in H; [by injection H as ->| | |].
  - injection H as <- _. by destruct Ha'; left.
  - injection H as -> _. by destruct Ha; left.
  - injection H as <- H. destruct (IH a') as [-> ->]; [set_solver..|done|done].
Qed.
