(* ===== verification/Ip.v ===== *)
(** * Internet addresses: what the host uses of [std::net]

    [IpAddr] with its textual form: the parser and the printer of the Rust
    standard library, [to_canonical], and the conversion to integers.  An
    IPv4 address is its 32-bit and an IPv6 address its 128-bit value. *)

From S2P Require Import Prelude Text.

Inductive IpAddr := V4 (bits : Z) | V6 (bits : Z).
#[export] Instance IpAddr_eq_dec : EqDecision IpAddr.
Proof. solve_decision. Defined.

Definition ip_ok (ip : IpAddr) : Prop :=
  match ip with V4 b => 0 <= b < 2 ^ 32 | V6 b => 0 <= b < 2 ^ 128 end.
Definition is_ipv4 (ip : IpAddr) : bool := match ip with V4 _ => true | V6 _ => false end.

(** [IpAddr::to_canonical]: an IPv4-mapped IPv6 address is its IPv4 address. *)
Definition to_canonical (ip : IpAddr) : IpAddr :=
  match ip with
  | V6 b => if Z.shiftr b 32 =? 0xFFFF then V4 (Z.land b 0xFFFFFFFF) else ip
  | V4 _ => ip
  end.

(** ** Parsing *)

Definition to_digit (radix : Z) (c : char) : option Z :=
  let d := if is_ascii_digit c then c - 48
           else if is_ascii_lower c then c - 87
           else if is_ascii_upper c then c - 55 else 36 in
  if d <? radix then Some d else None.

(** The digits of a number and the rest of the input. *)
Fixpoint read_digits (radix : Z) (s : text) : list Z * text :=
  match s with
  | [] => ([], [])
  | c :: s' => match to_digit radix c with
               | Some d => let (ds, r) := read_digits radix s' in (d :: ds, r)
               | None => ([], s)
               end
  end.

(** [Parser::read_number]: at most [max_digits] digits, the value below
    [bound], no superfluous leading zero unless allowed. *)
Definition read_number (radix : Z) (max_digits : nat) (allow_zero_prefix : bool) (bound : Z) (s : text) : option (Z * text) :=
  let (ds, r) := read_digits radix s in
  let v := foldl (λ n d, n * radix + d) 0 ds in
  if (length ds =? 0)%nat || (max_digits <? length ds)%nat || (bound <=? v) then None
  else if negb allow_zero_prefix && (1 <? length ds)%nat && match ds with 0 :: _ => true | _ => false end then None
  else Some (v, r).

(** [read_given_char] and [read_separator]. *)
Definition read_given (c : char) (s : text) : option text :=
  match s with x :: s' => if x =? c then Some s' else None | [] => None end.
Definition read_separator {A} (sep : char) (i : nat) (f : text -> option (A * text)) (s : text) : option (A * text) :=
  match i with O => f s | S _ => read_given sep s ≫= f end.

Definition read_octet := read_number 10 3 false 256.
Definition read_ipv4 (s : text) : option (Z * text) :=
  '(a, s) ← read_octet s; s ← read_given 46 s;
  '(b, s) ← read_octet s; s ← read_given 46 s;
  '(c, s) ← read_octet s; s ← read_given 46 s;
  '(d, s) ← read_octet s;
  Some (((a * 256 + b) * 256 + c) * 256 + d, s).

(** [read_groups]: the 16-bit groups read (at most [limit], [i] of them so
    far), whether they end with an embedded IPv4 address, and the rest. *)
Fixpoint read_groups (i limit : nat) (s : text) : list Z * bool * text :=
  match limit with
  | O => ([], false, s)
  | S limit' =>
      match (if (0 <? limit')%nat then read_separator 58 i read_ipv4 s else None) with
      | Some (v, r) => ([v / 65536; v mod 65536], true, r)
      | None =>
          match read_separator 58 i (read_number 16 4 true 65536) s with
          | Some (g, r) => let '(gs, e, r) := read_groups (S i) limit' r in (g :: gs, e, r)
          | None => ([], false, s)
          end
      end
  end.

Definition groups_value (gs : list Z) : Z := foldl (λ n g, n * 65536 + g) 0 gs.

Definition read_ipv6 (s : text) : option (Z * text) :=
  let '(head, head_v4, r) := read_groups 0 8 s in
  if (length head =? 8)%nat then Some (groups_value head, r)
  else if (head_v4 : bool) then None
  else
    r ← read_given 58 r; r ← read_given 58 r;
    let '(tail, _, r) := read_groups 0 (8 - (length head + 1)) r in
    Some (groups_value (head ++ replicate (8 - length head - length tail) 0 ++ tail), r).

(** [s.parse::<IpAddr>()]. *)
Definition parse_ip (s : text) : option IpAddr :=
  match read_ipv4 s with
  | Some (v, []) => Some (V4 v)
  | Some _ => None
  | None => match read_ipv6 s with Some (v, []) => Some (V6 v) | _ => None end
  end.

(** ** Printing *)

(** The digits of [n] in a radix, most significant first ([fuel] digits at
    most; 5 are enough for 16 bits). *)
Fixpoint digits_of (fuel : nat) (radix n : Z) (acc : list Z) : list Z :=
  match fuel with
  | O => acc
  | S fuel => if n <? radix then n :: acc else digits_of fuel radix (n / radix) (n mod radix :: acc)
  end.
Definition digit_char (d : Z) : char := if d <? 10 then d + 48 else d + 87.
Definition show_number (radix n : Z) : text := digit_char <$> digits_of 5 radix n [].

Definition octets (b : Z) : list Z :=
  [Z.shiftr b 24 mod 256; Z.shiftr b 16 mod 256; Z.shiftr b 8 mod 256; b mod 256].
Definition show_v4 (b : Z) : text := join [46] (show_number 10 <$> octets b).

Definition segments (b : Z) : list Z :=
  (λ i, Z.shiftr b i mod 65536) <$> [112; 96; 80; 64; 48; 32; 16; 0].

(** The first longest run of zero segments, as start and length. *)
Fixpoint zero_run (i : nat) (cur best : nat * nat) (gs : list Z) : nat * nat :=
  match gs with
  | [] => best
  | g :: gs =>
      if g =? 0 then
        let cur := if (cur.2 =? 0)%nat then (i, 1%nat) else (cur.1, S cur.2) in
        zero_run (S i) cur (if (best.2 <? cur.2)%nat then cur else best) gs
      else zero_run (S i) (0%nat, 0%nat) best gs
  end.

Definition show_groups (gs : list Z) : text := join [58] (show_number 16 <$> gs).
Definition show_v6 (b : Z) : text :=
  if Z.shiftr b 32 =? 0xFFFF then lit "::ffff:" ++ show_v4 (Z.land b 0xFFFFFFFF)
  else
    let gs := segments b in
    let (start, len) := zero_run 0 (0%nat, 0%nat) (0%nat, 0%nat) gs in
    if (1 <? len)%nat then show_groups (take start gs) ++ lit "::" ++ show_groups (drop (start + len) gs)
    else show_groups gs.

(** [ip.to_string()]. *)
Definition show_ip (ip : IpAddr) : text := match ip with V4 b => show_v4 b | V6 b => show_v6 b end.

(** ** Examples from the documentation of [std::net] *)

Example ip_examples :
  parse_ip (lit "127.0.0.1") = Some (V4 0x7F000001)
  /\ parse_ip (lit "2001:db8::1") = Some (V6 0x20010db8000000000000000000000001)
  /\ parse_ip (lit "::ffff:10.1.2.3") = Some (V6 0xFFFF0A010203)
  /\ parse_ip (lit "::") = Some (V6 0) /\ parse_ip (lit "1.2.3") = None /\ parse_ip (lit "01.2.3.4") = None
  /\ parse_ip (lit "1::2::3") = None /\ parse_ip (lit "256.0.0.1") = None
  /\ show_ip (V6 0x20010db8000000000000000000000001) = lit "2001:db8::1"
  /\ show_ip (V6 0) = lit "::" /\ show_ip (V6 1) = lit "::1" /\ show_ip (V4 0x0A010203) = lit "10.1.2.3".
Proof. vm_compute. repeat split. Qed.

(** ** The text of an IPv4 address parses back *)

Lemma number_digits_small n : 0 <= n < 256 ->
  read_octet (show_number 10 n ++ [46]) = Some (n, [46]) /\ read_octet (show_number 10 n) = Some (n, []).
Proof.
  intros Hn. assert (Hall : forallb (λ n, bool_decide (read_octet (show_number 10 (Z.of_nat n) ++ [46]) = Some (Z.of_nat n, [46]))
      && bool_decide (read_octet (show_number 10 (Z.of_nat n)) = Some (Z.of_nat n, []))) (seq 0 256) = true) by (vm_compute; reflexivity).
  rewrite forallb_forall in Hall. specialize (Hall (Z.to_nat n)). rewrite in_seq in Hall.
  specialize (Hall ltac:(lia)). apply andb_prop in Hall as [H1%bool_decide_eq_true_1 H2%bool_decide_eq_true_1].
  rewrite !Z2Nat.id in * by lia. done.
Qed.

Lemma read_digits_stop radix a c ds r :
  read_digits radix (a ++ [c]) = (ds, [c]) -> to_digit radix c = None -> read_digits radix (a ++ c :: r) = (ds, c :: r).
Proof.
  revert ds. induction a as [|x a IH]; intros ds; cbn.
  - intros Hd Hc. rewrite Hc in *. by injection Hd as <-.
  - destruct (to_digit radix x) as [d|]; [|intros [= _ H] _; destruct a; done].
    destruct (read_digits radix (a ++ [c])) as [ds' r'] eqn:E. intros [= <- ->] Hc. by rewrite (IH ds').
Qed.

Lemma read_octet_dot n r : 0 <= n < 256 -> read_octet (show_number 10 n ++ 46 :: r) = Some (n, 46 :: r).
Proof.
  intros Hn. destruct (number_digits_small n Hn) as [H1 _]. unfold read_octet, read_number in *.
  destruct (read_digits 10 (show_number 10 n ++ [46])) as [ds r'] eqn:E.
  assert (r' = [46]) as ->.
  { destruct (_ || _); [done|]. destruct (negb _ && _ && _); [done|]. by injection H1. }
  rewrite (read_digits_stop 10 _ 46 ds r) by done.
  destruct (_ || _); [done|]. destruct (negb _ && _ && _); [done|]. by injection H1 as ->.
Qed.

Lemma octets_value b : 0 <= b < 2 ^ 32 ->
  match octets b with [a; c; d; e] => ((a * 256 + c) * 256 + d) * 256 + e = b | _ => False end
  /\ Forall (λ o, 0 <= o < 256) (octets b).
Proof.
  intros Hb. unfold octets. rewrite !Z.shiftr_div_pow2 by lia. split.
  - change (2 ^ 24) with 16777216. change (2 ^ 16) with 65536. change (2 ^ 8) with 256. Z.to_euclidean_division_equations; lia.
  - repeat constructor; apply Z.mod_pos_bound; lia.
Qed.

Lemma parse_show_v4 b : 0 <= b < 2 ^ 32 -> parse_ip (show_ip (V4 b)) = Some (V4 b).
Proof.
  intros Hb. destruct (octets_value b Hb) as [Hv Hf]. unfold show_ip, show_v4, octets in *.
  apply Forall_cons in Hf as [H1 Hf]. apply Forall_cons in Hf as [H2 Hf]. apply Forall_cons in Hf as [H3 Hf].
  apply Forall_cons in Hf as [H4 _]. cbn [fmap list_fmap join]. unfold parse_ip, read_ipv4. cbn [app].
  rewrite read_octet_dot by done. cbn [mbind option_bind read_given]. rewrite Z.eqb_refl. cbn [mbind option_bind].
  rewrite read_octet_dot by done. cbn [mbind option_bind read_given]. rewrite Z.eqb_refl. cbn [mbind option_bind].
  rewrite read_octet_dot by done. cbn [mbind option_bind read_given]. rewrite Z.eqb_refl. cbn [mbind option_bind].
  rewrite (proj2 (number_digits_small _ H4)). cbn [mbind option_bind]. by rewrite Hv.
Qed.

(** ** Parsed addresses are in range *)

Lemma to_digit_range radix c d : 2 <= radix <= 36 -> to_digit radix c = Some d -> 0 <= d < radix.
Proof.
  unfold to_digit, is_ascii_digit, is_ascii_lower, is_ascii_upper. intros Hr.
  destruct (_ && _) eqn:E1; boolify; [|destruct ((97 <=? c) && _) eqn:E2; boolify; [|destruct ((65 <=? c) && _) eqn:E3; boolify]];
    destruct (_ <? radix) eqn:E; intros [= <-]; boolify; lia.
Qed.

Lemma read_digits_range radix s : 2 <= radix <= 36 -> Forall (λ d, 0 <= d < radix) (read_digits radix s).1.
Proof.
  intros Hr. induction s as [|c s IH]; cbn; [constructor|].
  destruct (to_digit radix c) as [d|] eqn:E; [|constructor].
  destruct (read_digits radix s). constructor; [by eapply to_digit_range|done].
Qed.

Lemma foldl_digits_nonneg radix ds n : 0 <= radix -> 0 <= n -> Forall (λ d, 0 <= d < radix) ds ->
  0 <= foldl (λ n d, n * radix + d) n ds.
Proof. intros Hr. revert n. induction ds as [|d ds IH]; intros n Hn Hf; [done|]. inv Hf. apply IH; [nia|done]. Qed.

Lemma read_number_range radix k z bound s v r : 2 <= radix <= 36 ->
  read_number radix k z bound s = Some (v, r) -> 0 <= v < bound.
Proof.
  intros Hr. unfold read_number. pose proof (read_digits_range radix s Hr) as Hf. destruct (read_digits radix s) as [ds r'].
  destruct (_ || _) eqn:E; [done|]. destruct (_ && _); [done|]. intros [= <- <-]. boolify.
  split; [|done]. apply foldl_digits_nonneg; [lia|done|done].
Qed.

Lemma read_ipv4_range s v r : read_ipv4 s = Some (v, r) -> 0 <= v < 2 ^ 32.
Proof.
  unfold read_ipv4, read_octet. intros H.
  repeat (apply bind_Some in H as [[? ?] [?%read_number_range H]]; [|lia]; try (apply bind_Some in H as [? [_ H]])).
  injection H as <- _. lia.
Qed.

Lemma read_separator_inv {A} sep i (f : text -> option (A * text)) s x :
  read_separator sep i f s = Some x -> exists s', f s' = Some x.
Proof. destruct i; cbn; [eauto|]. intros H. apply bind_Some in H as [s' [_ H]]. eauto. Qed.

Lemma read_groups_range i limit s :
  Forall (λ g, 0 <= g < 65536) (read_groups i limit s).1.1 /\ (length (read_groups i limit s).1.1 <= limit)%nat.
Proof.
  revert i s. induction limit as [|limit IH]; intros i s; cbn [read_groups]; [done|].
  destruct (if (0 <? limit)%nat then _ else _) as [[v r]|] eqn:E.
  - destruct (0 <? limit)%nat eqn:El; [|done]. apply read_separator_inv in E as [s' E%read_ipv4_range].
    apply Nat.ltb_lt in El. cbn. split; [|lia].
    repeat constructor; first [apply Z.mod_pos_bound; lia | Z.to_euclidean_division_equations; lia].
  - destruct (read_separator 58 i (read_number 16 4 true 65536) s) as [[g r]|] eqn:E2; [|cbn; split; [constructor|lia]].
    apply read_separator_inv in E2 as [s' E2%read_number_range]; [|lia].
    destruct (IH (S i) r) as [Hf Hl]. destruct (read_groups (S i) limit r) as [[gs e] r']. cbn in *. split; [by constructor|lia].
Qed.

Lemma groups_value_range gs n k : 0 <= n < 2 ^ (16 * k) -> 0 <= k -> Forall (λ g, 0 <= g < 65536) gs ->
  0 <= foldl (λ n g, n * 65536 + g) n gs < 2 ^ (16 * (k + Z.of_nat (length gs))).
Proof.
  revert n k. induction gs as [|g gs IH]; intros n k Hn Hk Hf; cbn [foldl length].
  - by rewrite Z.add_0_r.
  - inv Hf. replace (k + Z.of_nat (S (length gs))) with (k + 1 + Z.of_nat (length gs)) by lia.
    apply IH; [|lia|done]. replace (16 * (k + 1)) with (16 * k + 16) by lia. rewrite Z.pow_add_r by lia. lia.
Qed.

Lemma read_ipv6_range s v r : read_ipv6 s = Some (v, r) -> 0 <= v < 2 ^ 128.
Proof.
  unfold read_ipv6. destruct (read_groups_range 0 8 s) as [Hf Hl]. destruct (read_groups 0 8 s) as [[head e] r1]. cbn in Hf, Hl.
  assert (Hval : forall gs, Forall (λ g, 0 <= g < 65536) gs -> length gs = 8%nat -> 0 <= groups_value gs < 2 ^ 128).
  { intros gs Hg He. pose proof (groups_value_range gs 0 0 ltac:(lia) ltac:(lia) Hg) as Hb. by rewrite He in Hb. }
  destruct (length head =? 8)%nat eqn:E; [apply Nat.eqb_eq in E; intros [= <- _]; by apply Hval|]. apply Nat.eqb_neq in E.
  destruct e; [done|]. intros H. apply bind_Some in H as [r2 [_ H]]. apply bind_Some in H as [r3 [_ H]].
  destruct (read_groups_range 0 (8 - (length head + 1)) r3) as [Hf2 Hl2].
  destruct (read_groups 0 (8 - (length head + 1)) r3) as [[tl e2] r4]. cbn [fst snd] in Hf2, Hl2. injection H as <- _. apply Hval.
  - rewrite !Forall_app. repeat split; [done| |done]. apply Forall_replicate. lia.
  - rewrite !length_app, length_replicate. lia.
Qed.

Lemma parse_ip_ok s ip : parse_ip s = Some ip -> ip_ok ip.
Proof.
  unfold parse_ip. destruct (read_ipv4 s) as [[v [|? ?]]|] eqn:E4; [|done|].
  - intros [= <-]. by eapply read_ipv4_range.
  - destruct (read_ipv6 s) as [[v [|? ?]]|] eqn:E6; [|done|done]. intros [= <-]. by eapply read_ipv6_range.
Qed.

(** An address in canonical form is not an IPv4-mapped one. *)
Lemma to_canonical_ok ip : ip_ok ip -> ip_ok (to_canonical ip).
Proof.
  destruct ip as [b|b]; cbn; [done|]. destruct (_ =? _); [|done]. intros _. cbn.
  change 0xFFFFFFFF with (Z.ones 32). rewrite Z.land_ones by lia. apply Z.mod_pos_bound. lia.
Qed.

Lemma to_canonical_idemp ip : to_canonical (to_canonical ip) = to_canonical ip.
Proof. destruct ip as [b|b]; cbn; [done|]. destruct (_ =? _) eqn:E; cbn; [done|by rewrite E]. Qed.

(** ** The alphabet of a printed address *)

(** Hexadecimal digits, the point and the colon. *)
Definition ip_char (c : char) : bool := is_ascii_digit c || ((97 <=? c) && (c <=? 102)) || (c =? 46) || (c =? 58).

Lemma digits_of_range fuel radix n acc : 2 <= radix -> 0 <= n ->
  n < radix ^ Z.of_nat fuel -> Forall (λ d, 0 <= d < radix) acc -> Forall (λ d, 0 <= d < radix) (digits_of fuel radix n acc).
Proof.
  intros Hr. revert n acc. induction fuel as [|fuel IH]; intros n acc Hn Hb Ha; cbn [digits_of]; [done|].
  destruct (n <? radix) eqn:E; boolify; [by constructor|]. apply IH.
  - apply Z.div_pos; lia.
  - apply Z.div_lt_upper_bound; [lia|]. rewrite <- Z.pow_succ_r by lia. by rewrite <- Nat2Z.inj_succ.
  - constructor; [apply Z.mod_pos_bound; lia|done].
Qed.

Lemma digits_of_nonempty fuel radix n acc : acc <> [] \/ fuel <> O -> digits_of fuel radix n acc <> [].
Proof.
  revert n acc. induction fuel as [|fuel IH]; intros n acc [H|H]; cbn; try done; destruct (_ <? _); try done; apply IH; by left.
Qed.

Lemma show_number_chars radix n : radix = 10 \/ radix = 16 -> 0 <= n < 65536 ->
  Forall (λ c, ip_char c = true) (show_number radix n) /\ show_number radix n <> [].
Proof.
  intros Hr Hn. split.
  - unfold show_number. apply Forall_fmap. apply (Forall_impl (λ d, 0 <= d < radix)).
    + apply digits_of_range; [lia|lia| |constructor]. destruct Hr as [-> | ->]; [change (10 ^ Z.of_nat 5) with 100000|change (16 ^ Z.of_nat 5) with 1048576]; lia.
    + intros d Hd. unfold compose, digit_char, ip_char, is_ascii_digit.
      destruct (Z.ltb_spec d 10); repeat (rewrite ?orb_true_iff, ?andb_true_iff, ?Z.leb_le, ?Z.eqb_eq); lia.
  - unfold show_number. intros H%fmap_nil_inv. revert H. apply digits_of_nonempty. by right.
Qed.

Lemma join_chars (P : char -> Prop) sep ps : Forall P sep -> Forall (Forall P) ps -> Forall P (join sep ps).
Proof.
  intros Hs. induction ps as [|p ps IH]; intros Hf; [constructor|]. apply Forall_cons in Hf as [Hp Hf].
  destruct ps as [|q ps]; [done|]. change (join sep (p :: q :: ps)) with (p ++ sep ++ join sep (q :: ps)). rewrite !Forall_app. auto.
Qed.

Lemma show_groups_chars gs : Forall (λ g, 0 <= g < 65536) gs -> Forall (λ c, ip_char c = true) (show_groups gs).
Proof.
  intros Hf. apply join_chars; [by repeat constructor|]. apply Forall_fmap. eapply Forall_impl; [done|].
  intros g Hg. by apply show_number_chars; [right|].
Qed.

Lemma show_v4_chars b : Forall (λ c, ip_char c = true) (show_v4 b) /\ show_v4 b <> [].
Proof.
  assert (Ho : Forall (λ o, 0 <= o < 65536) (octets b)).
  { repeat constructor; match goal with |- context [?x mod 256] => pose proof (Z.mod_pos_bound x 256) end; lia. }
  split.
  - apply join_chars; [by repeat constructor|]. apply Forall_fmap. eapply Forall_impl; [done|].
    intros g Hg. by apply show_number_chars; [left|].
  - unfold show_v4, octets in *. apply Forall_cons in Ho as [Ho _]. destruct (show_number_chars 10 _ (or_introl eq_refl) Ho) as [_ Hne].
    cbn [fmap list_fmap join]. intros H%app_nil. naive_solver.
Qed.

Lemma segments_range b : Forall (λ g, 0 <= g < 65536) (segments b).
Proof. repeat constructor; try (apply Z.mod_pos_bound; lia). Qed.

Lemma show_v6_chars b : Forall (λ c, ip_char c = true) (show_v6 b) /\ show_v6 b <> [].
Proof.
  unfold show_v6. destruct (_ =? _).
  - split; [|done]. apply Forall_app. split; [by repeat constructor|apply show_v4_chars].
  - pose proof (segments_range b) as Hs. destruct (zero_run _ _ _ _) as [start len]. destruct (1 <? len)%nat.
    + rewrite !Forall_app. repeat split; [by apply show_groups_chars, Forall_take|by repeat constructor|by apply show_groups_chars, Forall_drop|].
      intros [_ [H _]%app_nil]%app_nil. done.
    + split; [by apply show_groups_chars|]. unfold show_groups, segments in *. inv Hs.
      destruct (show_number_chars 16 _ (or_intror eq_refl) H1) as [_ Hne]. cbn [fmap list_fmap join]. intros H%app_nil. naive_solver.
Qed.

Lemma show_ip_chars ip : Forall (λ c, ip_char c = true) (show_ip ip) /\ show_ip ip <> [].
Proof. destruct ip; [apply show_v4_chars|apply show_v6_chars]. Qed.
