(* ===== verification/Edge.v ===== *)
(** * The edge: which address a request counts for

    [config/edge.rs] ([server.edge]: the trusted proxies and the header that
    carries the client's address) and [infra/http/proxy_headers.rs] (the
    header rules of the host's proxies).  Header names and settings are
    [text]; header values are byte lists. *)

From S2P Require Import Prelude Text Ip.

#[local] Open Scope fenrir_scope.

Abbreviation bytes := (list Z).

Module Edge.

(** ** Configuration *)

Inductive ConfigError := InvalidMessage (message : text) | Invalid (message : text).

Record EdgeSection := mkEdge { client_ip_header : option text; trusted_proxies : list text }.

Definition CLIENT_ADDRESS_HEADERS : list text :=
  [lit "x-forwarded-for"; lit "x-real-ip"; lit "forwarded"; lit "cf-connecting-ip"; lit "true-client-ip"].

Definition nonempty (s : text) : bool := negb (bool_decide (s = [])).

Definition split_list (value : text) : list text :=
  base.filter (λ entry, Is_true (nonempty entry)) (trim <$> split 44 value).

Definition is_header_token (name : text) : bool :=
  nonempty name
  && forallb (λ byte, is_ascii_alphanumeric byte || bool_decide (byte ∈ lit "!#$%&'*+-.^_`|~")) (utf8 name).

(** ** Address blocks *)

Record IpCidr := mkCidr { network : IpAddr; prefix : Z }.

(** Shifts of [u128] and [u32] values; every call keeps the amount below the
    width, or handles the overflow ([checked_shl]). *)
Definition prefix_match (net ip bits prefix : Z) : bool :=
  if prefix =? 0 then true
  else let shift := bits - prefix in Z.shiftr net shift =? Z.shiftr ip shift.

Definition contains (self : IpCidr) (ip : IpAddr) : bool :=
  match network self, to_canonical ip with
  | V4 net, V4 ip => prefix_match net ip 32 (prefix self)
  | V6 net, V6 ip => prefix_match net ip 128 (prefix self)
  | _, _ => false
  end.

Definition checked_shl_max (width amount : Z) : option Z :=
  if amount <? width then Some (Z.shiftl (2 ^ width - 1) amount mod 2 ^ width) else None.

Definition masked (self : IpCidr) : IpAddr :=
  match network self with
  | V4 bits => V4 (Z.land bits (default 0 (checked_shl_max 32 (32 - prefix self))))
  | V6 bits => V6 (Z.land bits (default 0 (checked_shl_max 128 (128 - prefix self))))
  end.

(** The reasons the block parser gives. *)
Inductive CidrError := NotAnAddress | PrefixLength (max : Z) | HostBits.

Definition from_str (raw : text) : result IpCidr CidrError :=
  let '(addr, pfx) := match split_once 47 raw with
                      | Some (addr, pfx) => (addr, Some pfx)
                      | None => (raw, None)
                      end in
  network <-? ok_or (to_canonical <$> parse_ip (trim addr)) NotAnAddress;;
  let max := if is_ipv4 network then 32 else 128 in
  pfx <-? match pfx with
          | Some value =>
              match parse_uint 255 (trim value) with
              | Some p => if p <=? max then Ok p else Err (PrefixLength max)
              | None => Err (PrefixLength max)
              end
          | None => Ok max
          end;;
  let cidr := mkCidr network pfx in
  if decide (network = masked cidr) then Ok cidr else Err HostBits.

Definition cidr_reason (e : CidrError) : text :=
  match e with
  | NotAnAddress => lit "not an IP address"
  | PrefixLength max => lit "prefix length must be 0..=" ++ show_number 10 max
  | HostBits => lit "host bits are set below the prefix length"
  end.

(** ** The policy *)

Record ClientIpPolicy := mkPolicy { header : option text; trusted : list IpCidr }.

Fixpoint parse_trusted (entries : list text) : result (list IpCidr) ConfigError :=
  match entries with
  | [] => Ok []
  | entry :: entries =>
      cidr <-? map_err (λ reason, InvalidMessage (lit "server.edge.trusted_proxies entry '" ++ entry
                                     ++ lit "' is invalid: " ++ cidr_reason reason)) (from_str entry);;
      rest <-? parse_trusted entries;;
      Ok (cidr :: rest)
  end.

Definition policy (self : EdgeSection) : result ClientIpPolicy ConfigError :=
  header <-? match (name ← client_ip_header self; let t := trim name in if nonempty t then Some t else None) with
             | Some name =>
                 if is_header_token name then Ok (Some (to_ascii_lowercase name))
                 else Err (InvalidMessage (lit "server.edge.client_ip_header '" ++ name ++ lit "' is not a valid header name"))
             | None => Ok None
             end;;
  trusted <-? parse_trusted (base.filter (λ entry, Is_true (nonempty entry)) (trim <$> trusted_proxies self));;
  if bool_decide (is_Some header) && bool_decide (trusted = []) then
    Err (Invalid (lit "server.edge.client_ip_header needs at least one server.edge.trusted_proxies entry"))
  else Ok (mkPolicy header trusted).

Definition is_trusted_peer (self : ClientIpPolicy) (peer : IpAddr) : bool :=
  existsb (λ cidr, contains cidr peer) (trusted self).

Definition is_address_header (self : ClientIpPolicy) (name : text) : bool :=
  bool_decide (name ∈ CLIENT_ADDRESS_HEADERS) || bool_decide (header self = Some name).

Definition resolve (self : ClientIpPolicy) (peer : option IpAddr) (header_values : list bytes) : option IpAddr :=
  let peer := to_canonical <$> peer in
  match header self with
  | None => peer
  | Some _ =>
      match (ip ← peer; if is_trusted_peer self ip then Some ip else None) with
      | None => peer
      | Some proxy =>
          match header_values with
          | [value] =>
              match (t ← from_utf8 value; parse_ip (trim t)) with
              | Some client => Some (to_canonical client)
              | None => Some proxy
              end
          | _ => Some proxy
          end
      end
  end.

End Edge.

(** ** Header rules of the proxies *)

Module ProxyHeaders.
Import Edge.

Definition HOP_BY_HOP : list text :=
  [lit "connection"; lit "keep-alive"; lit "proxy-connection"; lit "te"; lit "trailer"; lit "transfer-encoding"; lit "upgrade"].

Record HopByHop := mkHop { listed : list text }.

Definition new (connection_values : list bytes) : HopByHop :=
  mkHop (base.filter (λ token, Is_true (nonempty token))
    ((λ token, to_ascii_lowercase (trim token)) <$> concat (split 44 <$> omap from_utf8 connection_values))).

Definition contains (self : HopByHop) (name : text) : bool :=
  bool_decide (name ∈ HOP_BY_HOP) || starts_with (lit "proxy-") name || existsb (λ l, bool_decide (l = name)) (listed self).

Definition FORWARDED_FOR : text := lit "x-forwarded-for".
Definition EDGE_HOP_HEADER : text := lit "x-fenrir-edge-hop".

(** The process's random secret is the argument [secret]. *)
Definition is_edge_hop (secret : bytes) (value : option bytes) : bool :=
  match value with
  | None => false
  | Some value => (length value =? length secret)%nat && bool_decide (value = secret)
  end.

Definition forwarded_for (existing : list bytes) (peer : option IpAddr) (trusted : bool) : option text :=
  let peer := (λ ip, show_ip (to_canonical ip)) <$> peer in
  if negb trusted then peer
  else
    let chain := base.filter (λ hop, Is_true (nonempty hop)) (trim <$> concat (split 44 <$> omap from_utf8 existing)) in
    let chain := chain ++ option_list peer in
    if bool_decide (chain = []) then None else Some (join [44; 32] chain).

(** A message's headers, in order: names in lower case, as [HeaderName] keeps
    them. *)
Abbreviation HeaderMap := (list (text * bytes)).
Definition get_all (headers : HeaderMap) (name : text) : list bytes :=
  snd <$> base.filter (λ h, h.1 = name) headers.
Definition get (headers : HeaderMap) (name : text) : option bytes := head (get_all headers name).

Definition gateway_forwarded_for (headers : HeaderMap) (peer : option IpAddr) (trusted_hop : bool)
    (policy : ClientIpPolicy) : option text :=
  let hop := if trusted_hop then peer
             else resolve policy peer (match header policy with Some name => get_all headers name | None => [] end) in
  forwarded_for (get_all headers FORWARDED_FOR) hop trusted_hop.

End ProxyHeaders.

(** ** The cases of the tests *)

Definition ip_of (s : string) : IpAddr := default (V4 0) (parse_ip (lit s)).
Definition demo_policy (header : string) (entries : list string) : Edge.ClientIpPolicy :=
  match Edge.policy (Edge.mkEdge (Some (lit header)) (lit <$> entries)) with Ok p => p | Err _ => Edge.mkPolicy None [] end.

Example cidr_examples :
  (λ s, is_ok (Edge.from_str (lit s))) <$> ["localhost"; "10.0.0.0/33"; "::/129"; "10.0.0.1/8"; "10.0.0.0/x"; "1.2.3"; "10.0.0.0/8"; "2001:db8::/32"; "0.0.0.0/0"]
  = [false; false; false; false; false; false; true; true; true].
Proof. vm_compute. reflexivity. Qed.

Example resolve_examples :
  let p := demo_policy "X-Real-IP" ["127.0.0.1/32"; "::1/128"] in
  Edge.header p = Some (lit "x-real-ip")
  /\ Edge.resolve p (Some (ip_of "::ffff:127.0.0.1")) [lit " ::ffff:198.51.100.2 "] = Some (ip_of "198.51.100.2")
  /\ Edge.resolve p (Some (ip_of "192.0.2.10")) [lit "203.0.113.7"] = Some (ip_of "192.0.2.10")
  /\ Edge.resolve p (Some (ip_of "127.0.0.1")) [lit "203.0.113.7, 198.51.100.1"] = Some (ip_of "127.0.0.1")
  /\ Edge.split_list (lit " 127.0.0.1/32 ,::1/128,, ") = [lit "127.0.0.1/32"; lit "::1/128"].
Proof. vm_compute. repeat split. Qed.

(** ** Blocks are intervals *)

Definition ip_value (ip : IpAddr) : Z := match ip with V4 b | V6 b => b end.
Definition ip_width (ip : IpAddr) : Z := match ip with V4 _ => 32 | V6 _ => 128 end.

Lemma shifted_mask_low w s i : 0 <= i < s -> s < w -> Z.testbit (Z.shiftl (2 ^ w - 1) s mod 2 ^ w) i = false.
Proof. intros Hi Hs. rewrite Z.mod_pow2_bits_low by lia. apply Z.shiftl_spec_low. lia. Qed.

Lemma masked_no_host_bits w s b : 0 <= s <= w -> 0 <= b ->
  b = Z.land b (default 0 (Edge.checked_shl_max w s)) -> b mod 2 ^ s = 0.
Proof.
  intros Hs Hb. unfold Edge.checked_shl_max. destruct (Z.ltb_spec s w) as [Hlt|Hge]; intros Heq; simpl in Heq.
  - apply Z.bits_inj'. intros i Hi. rewrite Z.bits_0. destruct (Z.lt_ge_cases i s) as [H|H].
    + rewrite Z.mod_pow2_bits_low by lia. rewrite Heq, Z.land_spec, (shifted_mask_low w s i) by lia. apply andb_false_r.
    + by rewrite Z.mod_pow2_bits_high by lia.
  - rewrite Z.land_0_r in Heq. subst b. apply Z.mod_0_l. lia.
Qed.

Lemma prefix_match_interval w p net ip : 0 <= p <= w -> 0 <= net < 2 ^ w -> 0 <= ip < 2 ^ w -> net mod 2 ^ (w - p) = 0 ->
  Edge.prefix_match net ip w p = true <-> net <= ip < net + 2 ^ (w - p).
Proof.
  intros Hp Hn Hi Hm. unfold Edge.prefix_match. destruct (Z.eqb_spec p 0) as [->|Hp0].
  - rewrite Z.sub_0_r in *. rewrite Z.mod_small in Hm by done. subst net. split; [lia|done].
  - rewrite Z.eqb_eq, !Z.shiftr_div_pow2 by lia. pose proof (Z.pow_pos_nonneg 2 (w - p)) as Hpos.
    set (q := 2 ^ (w - p)) in *. pose proof (Z.div_mod net q) as H1. pose proof (Z.div_mod ip q) as H2.
    pose proof (Z.mod_pos_bound ip q) as H3. split; [nia|]. intros H. apply (Z.div_unique_pos ip q _ (ip - net)); lia.
Qed.

Lemma block_fits w p net : 0 <= p <= w -> 0 <= net < 2 ^ w -> net mod 2 ^ (w - p) = 0 -> net + 2 ^ (w - p) <= 2 ^ w.
Proof.
  intros Hp Hn Hm. assert (Hw : 2 ^ w = 2 ^ p * 2 ^ (w - p)) by (rewrite <- Z.pow_add_r by lia; f_equal; lia).
  pose proof (Z.pow_pos_nonneg 2 (w - p)). set (q := 2 ^ (w - p)) in *.
  rewrite Hw in *. generalize (2 ^ p) as m, Hn. intros m Hm2. assert (Hk : net = q * (net / q)) by (rewrite (Z.div_mod net q) at 1; lia).
  set (k := net / q) in *. assert (k < m) by nia. nia.
Qed.

Lemma parse_uint_nonneg max s v : parse_uint max s = Some v -> 0 <= v.
Proof.
  assert (Hu : forall s v, parse_unsigned max s = Some v -> 0 <= v).
  { clear s v. intros s v. unfold parse_unsigned. destruct (bool_decide _); [done|]. destruct (forallb _ s) eqn:E; [|done].
    destruct (_ <=? _); [|done]. intros [= <-]. unfold digits_value. rewrite forallb_forall in E.
    assert (Hg : forall n, 0 <= n -> 0 <= foldl (λ n c, n * 10 + (c - 48)) n s); [|by apply Hg].
    induction s as [|c s IH]; intros n Hn; cbn; [done|]. apply IH; [intros; apply E; by right|].
    specialize (E c (or_introl eq_refl)). unfold is_ascii_digit in E. boolify. lia. }
  unfold parse_uint. repeat case_match; apply Hu.
Qed.

Lemma from_str_inv raw cidr : Edge.from_str raw = Ok cidr ->
  ip_ok (Edge.network cidr) /\ to_canonical (Edge.network cidr) = Edge.network cidr
  /\ 0 <= Edge.prefix cidr <= ip_width (Edge.network cidr) /\ Edge.network cidr = Edge.masked cidr.
Proof.
  unfold Edge.from_str. destruct (match split_once 47 raw with Some _ => _ | None => _ end) as [addr pfx].
  intros H. apply result_bind_ok_inv in H as [net [H1 H]]. apply result_bind_ok_inv in H as [p [H2 H]].
  destruct (decide _) as [Hm|]; [|done]. injection H as <-. cbn.
  destruct (parse_ip (trim addr)) as [ip|] eqn:Ep; [|done]. injection H1 as <-.
  split; [by apply to_canonical_ok, (parse_ip_ok _ _ Ep)|]. split; [apply to_canonical_idemp|]. split; [|done].
  assert (Hw : (if is_ipv4 (to_canonical ip) then 32 else 128) = ip_width (to_canonical ip)) by by destruct (to_canonical ip).
  rewrite Hw in H2. destruct pfx as [value|]; [|injection H2 as <-; destruct (to_canonical ip); cbn; lia].
  destruct (parse_uint 255 (trim value)) as [v|] eqn:Ev; [|done]. destruct (v <=? _) eqn:El; [|done]. injection H2 as <-. boolify.
  split; [|done]. by eapply parse_uint_nonneg.
Qed.

(** A parsed address block [a/p] is the interval of [2^(width-p)]
    addresses that starts at [a]: the prefix is at most the width of the
    family, the block lies within the address space, and an address
    belongs to the block exactly when its canonical form (an IPv4-mapped
    IPv6 address is its IPv4 address) is of the same family and in the
    interval. *)
Theorem cidr_is_interval raw cidr : Edge.from_str raw = Ok cidr ->
  let net := Edge.network cidr in
  let size := 2 ^ (ip_width net - Edge.prefix cidr) in
  0 <= Edge.prefix cidr <= ip_width net
  /\ ip_value net mod size = 0 /\ 0 <= ip_value net /\ ip_value net + size <= 2 ^ ip_width net
  /\ forall ip, ip_ok ip ->
     Edge.contains cidr ip = true
     <-> is_ipv4 (to_canonical ip) = is_ipv4 net /\ ip_value net <= ip_value (to_canonical ip) < ip_value net + size.
Proof.
  intros (Hok & _ & Hp & Hm)%from_str_inv. cbn zeta.
  assert (Hb : 0 <= ip_value (Edge.network cidr) < 2 ^ ip_width (Edge.network cidr)) by (destruct (Edge.network cidr); exact Hok).
  assert (Hmod : ip_value (Edge.network cidr) mod 2 ^ (ip_width (Edge.network cidr) - Edge.prefix cidr) = 0).
  { apply (masked_no_host_bits (ip_width (Edge.network cidr))); [lia|lia|].
    unfold Edge.masked in Hm. destruct (Edge.network cidr); cbn in *; congruence. }
  split; [done|]. split; [done|]. split; [lia|]. split; [by apply block_fits|].
  intros ip Hip%to_canonical_ok. unfold Edge.contains.
  destruct (Edge.network cidr) as [net|net] eqn:En, (to_canonical ip) as [b|b] eqn:Ec; cbn in *;
    try (split; [done|intros [? _]; done]); rewrite prefix_match_interval by done; naive_solver.
Qed.
Lemma cidr_is_interval_witness : Edge.contains (Edge.mkCidr (V4 0x0A000000) 8) (V6 0xFFFF0A010203) = true.
Proof. apply (cidr_is_interval (lit "10.0.0.0/8") (Edge.mkCidr (V4 0x0A000000) 8)); [vm_compute; reflexivity|cbn; lia|vm_compute; repeat split; discriminate]. Defined.

(** ** The client of a request *)

Lemma resolve_untrusted p peer values : Edge.is_trusted_peer p (to_canonical peer) = false ->
  Edge.resolve p (Some peer) values = Some (to_canonical peer).
Proof. intros Ht. unfold Edge.resolve. destruct (Edge.header p); [|done]. cbn. by rewrite Ht. Qed.

Lemma gateway_forwarded_for_client headers peer p :
  ProxyHeaders.gateway_forwarded_for headers peer false p
  = show_ip <$> (to_canonical <$> Edge.resolve p peer (match Edge.header p with Some n => ProxyHeaders.get_all headers n | None => [] end)).
Proof. unfold ProxyHeaders.gateway_forwarded_for, ProxyHeaders.forwarded_for. cbn. by destruct (Edge.resolve _ _ _). Qed.

Lemma policy_header_needs_proxies section p name :
  Edge.policy section = Ok p -> Edge.header p = Some name -> Edge.trusted p <> [].
Proof.
  unfold Edge.policy. intros H Hh. apply result_bind_ok_inv in H as [h [_ H]]. apply result_bind_ok_inv in H as [t [_ H]].
  destruct (_ && _) eqn:E; [done|]. injection H as <-. cbn in *. subst h. intros ->. done.
Qed.

(** A caller the host does not trust cannot choose the address it
    counts for.  For a caller that is no trusted hop, behind any peer
    outside the trusted proxies, the [X-Forwarded-For] a module receives is
    the peer's canonical address, whatever headers the caller sent; when
    it is another address, [client_ip_header] is configured (and then at
    least one proxy is), the peer is in one of the trusted blocks, and that
    header has exactly one value, which is that address; and nothing but the
    values of that one header has an influence. *)
Theorem untrusted_peer_cannot_choose_address section p headers peer :
  Edge.policy section = Ok p ->
  (Edge.is_trusted_peer p (to_canonical peer) = false ->
     ProxyHeaders.gateway_forwarded_for headers (Some peer) false p = Some (show_ip (to_canonical peer)))
  /\ (ProxyHeaders.gateway_forwarded_for headers (Some peer) false p <> Some (show_ip (to_canonical peer)) ->
      exists name cidr value t client,
        Edge.header p = Some name /\ cidr ∈ Edge.trusted p /\ Edge.contains cidr (to_canonical peer) = true
        /\ ProxyHeaders.get_all headers name = [value] /\ from_utf8 value = Some t /\ parse_ip (trim t) = Some client
        /\ ProxyHeaders.gateway_forwarded_for headers (Some peer) false p = Some (show_ip (to_canonical client)))
  /\ (forall headers', (forall name, Edge.header p = Some name -> ProxyHeaders.get_all headers' name = ProxyHeaders.get_all headers name) ->
      ProxyHeaders.gateway_forwarded_for headers' (Some peer) false p = ProxyHeaders.gateway_forwarded_for headers (Some peer) false p)
  /\ (is_Some (Edge.header p) -> Edge.trusted p <> []).
Proof.
  intros Hp. rewrite !gateway_forwarded_for_client. split; [|split; [|split]].
  - intros Ht. rewrite resolve_untrusted by done. cbn. by rewrite to_canonical_idemp.
  - unfold Edge.resolve. destruct (Edge.header p) as [name|] eqn:Eh; [|cbn; by rewrite to_canonical_idemp]. cbn [fmap option_fmap option_map mbind option_bind].
    destruct (Edge.is_trusted_peer p (to_canonical peer)) eqn:Et; [|cbn; by rewrite to_canonical_idemp].
    destruct (ProxyHeaders.get_all headers name) as [|v [|? ?]] eqn:Eg; [cbn; by rewrite to_canonical_idemp| |cbn; by rewrite to_canonical_idemp].
    destruct (_ ≫= _) as [client|] eqn:Ec; [|cbn; by rewrite to_canonical_idemp]. intros _.
    apply bind_Some in Ec as [t [Hu Hparse]]. unfold Edge.is_trusted_peer in Et. apply existsb_exists in Et as [cidr [Hin Hc]].
    exists name, cidr, v, t, client. apply list_elem_of_In in Hin. cbn. rewrite to_canonical_idemp. done.
  - intros headers' Heq. rewrite gateway_forwarded_for_client. destruct (Edge.header p) as [name|]; [|done]. by rewrite Heq.
  - intros [name Hn]. by eapply policy_header_needs_proxies.
Qed.
Lemma untrusted_peer_cannot_choose_address_witness :
  ProxyHeaders.gateway_forwarded_for [(lit "x-real-ip", lit "10.9.9.9"); (lit "x-forwarded-for", lit "10.8.8.8")]
    (Some (ip_of "192.0.2.10")) false (demo_policy "x-real-ip" ["127.0.0.1/32"]) = Some (show_ip (to_canonical (ip_of "192.0.2.10"))).
Proof.
  apply (untrusted_peer_cannot_choose_address (Edge.mkEdge (Some (lit "x-real-ip")) [lit "127.0.0.1/32"])); vm_compute; reflexivity.
Defined.

(** ** The chain of a trusted hop *)

Lemma ip_char_plain c : ip_char c = true -> c <> 44 /\ is_whitespace c = false.
Proof.
  unfold ip_char, is_ascii_digit. rewrite !orb_true_iff, !andb_true_iff, !Z.leb_le, !Z.eqb_eq. intros Hc.
  split; [lia|]. unfold is_whitespace. repeat (rewrite ?orb_false_iff, ?andb_false_iff, ?Z.leb_gt, ?Z.eqb_neq). lia.
Qed.

(** A hop of the chain: trimmed, not empty, without a comma. *)
Definition hop_ok (h : text) : Prop := trim h = h /\ h <> [] /\ 44 ∉ h.

Lemma show_ip_hop_ok ip : hop_ok (show_ip ip).
Proof.
  destruct (show_ip_chars ip) as [Hc Hne]. repeat split; [|done|].
  - apply trim_no_ws. eapply Forall_impl; [done|]. intros c Hx. by apply ip_char_plain.
  - intros Hin. rewrite Forall_forall in Hc. by destruct (ip_char_plain _ (Hc _ Hin)).
Qed.

Lemma drop_while_subset p s : forall c, c ∈ drop_while p s -> c ∈ s.
Proof. intros c. destruct (drop_while_suffix p s) as (pre & Hs & _). rewrite Hs at 2. set_solver. Qed.

Lemma trim_subset s c : c ∈ trim s -> c ∈ s.
Proof.
  unfold trim, trim_end, trim_start. intros H. apply (drop_while_subset is_whitespace).
  apply list_elem_of_In, in_rev, list_elem_of_In in H. apply drop_while_subset in H.
  by apply list_elem_of_In, in_rev, list_elem_of_In.
Qed.

Lemma split_list_hops s : Forall hop_ok (Edge.split_list s).
Proof.
  apply Forall_forall. intros h Hh. unfold Edge.split_list in Hh. apply list_elem_of_filter in Hh as [Hne Hin].
  apply list_elem_of_fmap in Hin as (piece & -> & Hp). split; [apply trim_idemp|]. split.
  - intros He. rewrite He in Hne. done.
  - intros Hc%trim_subset. pose proof (split_pieces 44 s) as Hs. rewrite Forall_forall in Hs. by apply (Hs piece).
Qed.

Lemma trim_space h : trim (32 :: h) = trim h.
Proof. done. Qed.

Lemma split_list_join hops : Forall hop_ok hops -> Edge.split_list (join [44; 32] hops) = hops.
Proof.
  assert (Hg : forall pre hops, (forall h, hop_ok h -> trim (pre ++ h) = h) -> 44 ∉ pre -> hops <> [] -> Forall hop_ok hops ->
      Edge.split_list (pre ++ join [44; 32] hops) = hops).
  { clear hops. intros pre hops. revert pre. induction hops as [|h hops IH]; intros pre Hpre Hcomma Hne Hf; [done|].
    apply Forall_cons in Hf as [Hh Hf]. assert (Hkeep : Edge.nonempty h = true) by (unfold Edge.nonempty; rewrite bool_decide_eq_false_2 by apply Hh; done).
    assert (Hn : 44 ∉ pre ++ h) by (destruct Hh as (_ & _ & ?); set_solver).
    unfold Edge.split_list. destruct hops as [|h' hops].
    - cbn [join]. rewrite split_no_sep by done. cbn [fmap list_fmap]. rewrite (Hpre h Hh), filter_cons_True by (by rewrite Hkeep). done.
    - change (join [44; 32] (h :: h' :: hops)) with (h ++ 44 :: ([32] ++ join [44; 32] (h' :: hops))).
      rewrite app_assoc, split_app_sep by done. cbn [fmap list_fmap]. rewrite (Hpre h Hh), filter_cons_True by (by rewrite Hkeep). f_equal.
      apply (IH [32]); [|set_solver|done|done]. intros k Hk. cbn [app]. rewrite trim_space. apply Hk. }
  intros Hf. destruct hops as [|h hops]; [done|]. apply (Hg [] (h :: hops)); [by intros k (Hk & _)|set_solver|done|done].
Qed.

Lemma split_list_concat values :
  base.filter (λ hop, Is_true (Edge.nonempty hop)) (trim <$> concat (split 44 <$> omap from_utf8 values))
  = concat (Edge.split_list <$> omap from_utf8 values).
Proof.
  induction (omap from_utf8 values) as [|t ts IH]; [done|]. cbn [fmap list_fmap concat]. by rewrite fmap_app, filter_app, IH.
Qed.

Lemma trusted_forwarded headers peer p :
  match ProxyHeaders.gateway_forwarded_for headers peer true p with
  | Some value =>
      Edge.split_list value
      = concat (Edge.split_list <$> omap from_utf8 (ProxyHeaders.get_all headers ProxyHeaders.FORWARDED_FOR))
        ++ option_list ((λ ip, show_ip (to_canonical ip)) <$> peer)
  | None =>
      peer = None
      /\ concat (Edge.split_list <$> omap from_utf8 (ProxyHeaders.get_all headers ProxyHeaders.FORWARDED_FOR)) = []
  end.
Proof.
  unfold ProxyHeaders.gateway_forwarded_for, ProxyHeaders.forwarded_for. cbn [negb]. rewrite split_list_concat.
  set (hops := concat _). set (mine := option_list _).
  assert (Hf : Forall hop_ok (hops ++ mine)).
  { apply Forall_app. split.
    - apply Forall_concat, Forall_fmap, Forall_true. intros t. apply split_list_hops.
    - destruct peer; [|constructor]. apply Forall_singleton, show_ip_hop_ok. }
  destruct (bool_decide (hops ++ mine = [])) eqn:E; boolify.
  - apply app_nil in E as [Hh Hm]. split; [|done]. by destruct peer.
  - by apply split_list_join.
Qed.

(** A trusted hop's chain is extended, never rewritten.  When the
    caller is the host's own edge or a module with a valid token, the
    [X-Forwarded-For] sent upstream, read back as a comma-separated list, is
    the list of all hops the caller sent followed by the canonical address
    of the caller's TCP peer; the header is absent exactly when there is
    neither a hop nor a known peer.  The configured header counts for
    nothing. *)
Theorem trusted_chain_extended headers peer p :
  match ProxyHeaders.gateway_forwarded_for headers peer true p with
  | Some value =>
      Edge.split_list value
      = concat (Edge.split_list <$> omap from_utf8 (ProxyHeaders.get_all headers ProxyHeaders.FORWARDED_FOR))
        ++ option_list ((λ ip, show_ip (to_canonical ip)) <$> peer)
  | None =>
      peer = None
      /\ concat (Edge.split_list <$> omap from_utf8 (ProxyHeaders.get_all headers ProxyHeaders.FORWARDED_FOR)) = []
  end.
Proof. apply trusted_forwarded. Qed.
