(* ===== verification/Roles.v ===== *)
(** * Roles and scopes: [security/auth/role.rs] and [security/service.rs]

    User roles, service roles and the scopes of service tokens, with their
    parsers. *)

From S2P Require Import Prelude Text.

Inductive Role := Admin | Operator | Viewer.
#[global] Instance Role_eq_dec : EqDecision Role.
Proof. solve_decision. Defined.

Module Role.
Definition satisfies (self required : Role) : bool :=
  match self, required with
  | Admin, _ => true
  | Operator, (Operator | Viewer) => true
  | Viewer, Viewer => true
  | _, _ => false
  end.

Definition as_str (self : Role) : text :=
  match self with
  | Admin => lit "admin"
  | Operator => lit "operator"
  | Viewer => lit "viewer"
  end.

Definition variants : list text := [lit "admin"; lit "operator"; lit "viewer"].

(** The error carries the trimmed input ([RoleParseError::value]). *)
Definition from_str (value : text) : result Role text :=
  let normalized := trim value in
  if eq_ignore_ascii_case normalized (lit "admin") then Ok Admin
  else if eq_ignore_ascii_case normalized (lit "operator") then Ok Operator
  else if eq_ignore_ascii_case normalized (lit "viewer") then Ok Viewer
  else Err normalized.
End Role.

Inductive ServiceRole := SAdmin | SWrite | SRead.
#[global] Instance ServiceRole_eq_dec : EqDecision ServiceRole.
Proof. solve_decision. Defined.

Module ServiceRole.
Definition as_str (self : ServiceRole) : text :=
  match self with
  | SAdmin => lit "service-admin"
  | SWrite => lit "service-write"
  | SRead => lit "service-read"
  end.

Definition satisfies (self required : ServiceRole) : bool :=
  match self, required with
  | SAdmin, _ => true
  | SWrite, (SWrite | SRead) => true
  | SRead, SRead => true
  | _, _ => false
  end.

(** The error carries the normalized input. *)
Definition from_str (value : text) : result ServiceRole text :=
  let other := to_ascii_lowercase (trim value) in
  if bool_decide (other = lit "service-admin") then Ok SAdmin
  else if bool_decide (other = lit "service-write") then Ok SWrite
  else if bool_decide (other = lit "service-read") then Ok SRead
  else Err other.
End ServiceRole.

(** A scope is its text, e.g. [db:read]. *)
Record ServiceScope := mkScope { scope_text : text }.
#[global] Instance ServiceScope_eq_dec : EqDecision ServiceScope.
Proof. solve_decision. Defined.

Module ServiceScope.
Definition MAX_SCOPE_LENGTH : Z := 96.

(** [ServiceScopeError]: the rejected value and which message it carries. *)
Inductive Error :=
| ScopeEmpty (value : text)
| ScopeTooLong (value : text)
| InvalidScope (value : text)
| ScopeInvalidSegment (value : text).

Definition is_segment_char (ch : char) : bool :=
  is_ascii_lower ch || is_ascii_digit ch || (ch =? 45) || (ch =? 95).

Definition is_valid_segment (segment : text) : bool :=
  negb (bool_decide (segment = [])) && forallb is_segment_char segment.

Definition new (raw : text) : result ServiceScope Error :=
  let trimmed := trim raw in
  if bool_decide (trimmed = []) then Err (ScopeEmpty raw)
  else if MAX_SCOPE_LENGTH <? byte_len trimmed then Err (ScopeTooLong trimmed)
  else match split_once 58 trimmed with
       | None => Err (InvalidScope trimmed)
       | Some (domain, action) =>
           if negb (is_valid_segment domain) || negb (is_valid_segment action)
           then Err (ScopeInvalidSegment trimmed)
           else Ok (mkScope trimmed)
       end.
End ServiceScope.

(** ** Theorems *)

Lemma satisfies_transitive a b c :
  Role.satisfies a b = true -> Role.satisfies b c = true -> Role.satisfies a c = true.
Proof. by destruct a, b, c. Qed.

Lemma service_satisfies_transitive a b c :
  ServiceRole.satisfies a b = true -> ServiceRole.satisfies b c = true ->
  ServiceRole.satisfies a c = true.
Proof. by destruct a, b, c. Qed.

Lemma segment_char_not_ws ch : ServiceScope.is_segment_char ch = true -> is_whitespace ch = false.
Proof.
  unfold ServiceScope.is_segment_char, is_ascii_lower, is_ascii_digit, is_whitespace.
  intros H. apply not_true_iff_false. intros E.
  rewrite !orb_true_iff, !andb_true_iff, !Z.leb_le, !Z.eqb_eq in H.
  rewrite !orb_true_iff, !andb_true_iff, !Z.leb_le, !Z.eqb_eq in E. lia.
Qed.

Lemma segment_char_not_colon ch : ServiceScope.is_segment_char ch = true -> ch <> 58.
Proof. intros H ->. vm_compute in H. discriminate. Qed.

Lemma valid_segment_chars seg :
  ServiceScope.is_valid_segment seg = true ->
  seg <> [] /\ Forall (λ ch, ServiceScope.is_segment_char ch = true) seg.
Proof.
  unfold ServiceScope.is_valid_segment. intros [H1 H2]%andb_true_iff. boolify.
  split; [done|]. apply Forall_forall; intros x Hx%list_elem_of_In; by eapply forallb_forall in H2.
Qed.

Lemma valid_scope_trim d a :
  ServiceScope.is_valid_segment d = true -> ServiceScope.is_valid_segment a = true ->
  trim (d ++ 58 :: a) = d ++ 58 :: a.
Proof.
  intros [_ Hd]%valid_segment_chars [_ Ha]%valid_segment_chars.
  apply trim_no_ws, Forall_app; split; [|constructor; [done|]];
    eapply Forall_impl; eauto using segment_char_not_ws.
Qed.

Lemma valid_scope_split d a :
  ServiceScope.is_valid_segment d = true -> split_once 58 (d ++ 58 :: a) = Some (d, a).
Proof.
  intros [_ Hd]%valid_segment_chars. apply split_once_app. intros Hin.
  rewrite Forall_forall in Hd. by apply Hd, segment_char_not_colon in Hin.
Qed.

(** A text is accepted exactly when, trimmed, it is two valid segments
    around the first colon, within the length limit. *)
Lemma scope_new_ok_iff raw s :
  ServiceScope.new raw = Ok s <->
  exists d a, trim raw = d ++ 58 :: a /\ s = mkScope (d ++ 58 :: a)
    /\ ServiceScope.is_valid_segment d = true /\ ServiceScope.is_valid_segment a = true
    /\ byte_len (d ++ 58 :: a) <= ServiceScope.MAX_SCOPE_LENGTH.
Proof.
  unfold ServiceScope.new. split.
  - case_bool_decide; [done|]. destruct (_ <? _) eqn:El; [done|].
    destruct (split_once 58 (trim raw)) as [[d a]|] eqn:Es; [|done].
    destruct (_ || _)%bool eqn:Ev; [done|]. intros [= <-].
    apply split_once_some in Es as [Es _]. boolify. rewrite Es in *. by exists d, a.
  - intros (d & a & -> & -> & Hd & Ha & Hl).
    rewrite bool_decide_eq_false_2 by (destruct d; done).
    destruct (_ <? _) eqn:E; [boolify; lia|].
    by rewrite valid_scope_split, Hd, Ha by done.
Qed.

(** ** Properties *)

(** a scope text is accepted exactly when, trimmed, it is
    [domain:action] with two non-empty segments of lower-case letters,
    digits, [-] and [_], at most 96 bytes; and the text of an accepted scope
    parses back to the same scope. *)
Theorem scope_new_spec raw s :
  (ServiceScope.new raw = Ok s <->
   exists d a, trim raw = d ++ 58 :: a /\ s = mkScope (d ++ 58 :: a)
     /\ ServiceScope.is_valid_segment d = true /\ ServiceScope.is_valid_segment a = true
     /\ byte_len (d ++ 58 :: a) <= ServiceScope.MAX_SCOPE_LENGTH)
  /\ (ServiceScope.new raw = Ok s -> ServiceScope.new (scope_text s) = Ok s).
Proof.
  split; [apply scope_new_ok_iff|]. intros (d & a & _ & -> & Hd & Ha & Hl)%scope_new_ok_iff.
  apply scope_new_ok_iff. exists d, a. simpl. by rewrite valid_scope_trim.
Qed.

Lemma scope_new_spec_witness : ServiceScope.new (lit "db:read") = Ok (mkScope (lit "db:read")).
Proof.
  apply (scope_new_spec (lit " db:read ") (mkScope (lit "db:read"))). vm_compute. reflexivity.
Defined.

(** both role orders are total orders with the admin role on top, and
    every role parses back from its own name, whatever white space and ASCII
    case surround it. *)
Theorem roles_order_and_parse :
  (forall a b, Role.satisfies a b = true \/ Role.satisfies b a = true) /\
  (forall a b c, Role.satisfies a b = true -> Role.satisfies b c = true -> Role.satisfies a c = true) /\
  (forall a b, Role.satisfies a b = true -> Role.satisfies b a = true -> a = b) /\
  (forall a b, ServiceRole.satisfies a b = true \/ ServiceRole.satisfies b a = true) /\
  (forall a b c, ServiceRole.satisfies a b = true -> ServiceRole.satisfies b c = true ->
                 ServiceRole.satisfies a c = true) /\
  (forall a b, ServiceRole.satisfies a b = true -> ServiceRole.satisfies b a = true -> a = b) /\
  (forall r v, to_ascii_lowercase (trim v) = Role.as_str r <-> Role.from_str v = Ok r) /\
  (forall r v, to_ascii_lowercase (trim v) = ServiceRole.as_str r <-> ServiceRole.from_str v = Ok r).
Proof.
  repeat match goal with |- _ /\ _ => split end.
  - by intros [] []; auto.
  - apply satisfies_transitive.
  - by intros [] [].
  - by intros [] []; auto.
  - apply service_satisfies_transitive.
  - by intros [] [].
  - intros r v. unfold Role.from_str, eq_ignore_ascii_case.
    change (to_ascii_lowercase (lit "admin")) with (Role.as_str Admin).
    change (to_ascii_lowercase (lit "operator")) with (Role.as_str Operator).
    change (to_ascii_lowercase (lit "viewer")) with (Role.as_str Viewer).
    repeat case_bool_decide; split; intros Hx; try (rewrite Hx in *); destruct r; vm_compute in *; congruence.
  - intros r v. unfold ServiceRole.from_str.
    change (lit "service-admin") with (ServiceRole.as_str SAdmin).
    change (lit "service-write") with (ServiceRole.as_str SWrite).
    change (lit "service-read") with (ServiceRole.as_str SRead).
    repeat case_bool_decide; split; intros Hx; try (rewrite Hx in *); destruct r; vm_compute in *; congruence.
Qed.
