(* ===== verification/ServiceTokens.v ===== *)
(** * Service tokens: [security/service_tokens.rs]

    The store of delegated service tokens.  Times are nanoseconds ([now] is
    the Unix time of [OffsetDateTime::now_utc], [elapsed] the time since the
    store's [epoch]); the random token, the token id and the clock are
    arguments of the operations that read them.  [poisoned] is the state of
    the [RwLock] around the map.

    The second half runs the same atomic actions under arbitrary interleaving
    of validating, issuing and revoking threads. *)

From S2P Require Import Prelude Text Roles.

(** ** Data *)

Inductive DelegatedActor :=
| User (user_id : string) (role : Role)
| Service (service_id : string) (role : ServiceRole).

Record DelegatedTokenRequest := mkRequest {
  req_actor : DelegatedActor;
  req_tenant_id : string;
  req_scopes : list ServiceScope;
}.

Record DelegatedTokenClaims := mkClaims {
  token_id : string;
  actor : DelegatedActor;
  tenant_id : string;
  scopes : list ServiceScope;
  issued_at : Z;
  expires_at : Z;
}.

Record ServiceTokenEntry := mkEntry {
  claims : DelegatedTokenClaims;
  last_activity_ns : Z;
}.

Inductive TokenVerdict := VValid | VExpired | VIdle.

Record Limits := mkLimits { expiry_grace : Z; idle : Z }.

Inductive ServiceTokenError := NotFound | Expired | IdleTimeout | Store.

Record ServiceTokenSection := mkSection {
  lifetime_seconds : Z;
  idle_timeout_seconds : Z;
  cleanup_interval_seconds : Z;
  refresh_grace_seconds : Z;
}.

Record ServiceTokenStore := mkStore {
  lifetime : Z;
  idle_timeout : Z;
  refresh_grace : Z;
  cleanup_interval : Z;
  tokens : gmap string ServiceTokenEntry;
  next_cleanup_ns : Z;
  poisoned : bool;
}.

Definition set_tokens (s : ServiceTokenStore) m :=
  mkStore (lifetime s) (idle_timeout s) (refresh_grace s) (cleanup_interval s) m
    (next_cleanup_ns s) (poisoned s).
Definition set_next_cleanup (s : ServiceTokenStore) n :=
  mkStore (lifetime s) (idle_timeout s) (refresh_grace s) (cleanup_interval s) (tokens s)
    n (poisoned s).

(** ** Requests *)

Definition kind (a : DelegatedActor) : string :=
  match a with User _ _ => "user" | Service _ _ => "service" end.
Definition identifier (a : DelegatedActor) : string :=
  match a with User u _ => u | Service i _ => i end.
Definition new_request (a : DelegatedActor) (tenant : string) : DelegatedTokenRequest :=
  mkRequest a tenant [].
Definition with_scopes (r : DelegatedTokenRequest) (sc : list ServiceScope) :=
  mkRequest (req_actor r) (req_tenant_id r) sc.

(** ** Clocks *)

Definition NANOS : Z := 1000000000.
(** [time::Duration::seconds] and [std::time::Duration::from_secs]. *)
Definition seconds (s : Z) : Z := s * NANOS.

(** Range of [OffsetDateTime]: years -9999 to 9999. *)
Definition offset_min : Z := -377705116800 * NANOS.
Definition offset_max : Z := 253402300800 * NANOS - 1.
Definition from_unix_timestamp_nanos (n : Z) : option Z :=
  if (offset_min <=? n) && (n <=? offset_max) then Some n else None.

(** [i64::try_from(nanos).unwrap_or(i64::MAX)]. *)
Definition unix_nanos (time : Z) : Z :=
  if (i64_min <=? time) && (time <=? i64_max) then time else i64_max.

(** [u64::try_from(duration.as_nanos()).unwrap_or(u64::MAX)]. *)
Definition duration_nanos (d : Z) : Z := if d <=? u64_max then d else u64_max.

(** ** Entries *)

Definition new_entry (c : DelegatedTokenClaims) (now : Z) : ServiceTokenEntry :=
  mkEntry c (unix_nanos now).
Definition last_activity (e : ServiceTokenEntry) : Z :=
  default 0 (from_unix_timestamp_nanos (last_activity_ns e)).
(** [fetch_max]. *)
Definition touch (e : ServiceTokenEntry) (now : Z) : ServiceTokenEntry :=
  mkEntry (claims e) (Z.max (last_activity_ns e) (unix_nanos now)).

(** ** The store *)

Definition new (cfg : ServiceTokenSection) : ServiceTokenStore :=
  mkStore (seconds (u64_as_i64 (lifetime_seconds cfg)))
    (seconds (u64_as_i64 (idle_timeout_seconds cfg)))
    (seconds (u64_as_i64 (refresh_grace_seconds cfg)))
    (seconds (cleanup_interval_seconds cfg))
    ∅ (duration_nanos (seconds (cleanup_interval_seconds cfg))) false.

Definition issue (s : ServiceTokenStore) (req : DelegatedTokenRequest)
    (token uuid : string) (now : Z)
    : result (string * DelegatedTokenClaims) ServiceTokenError * ServiceTokenStore :=
  let c := mkClaims uuid (req_actor req) (req_tenant_id req) (req_scopes req)
             now (now + lifetime s) in
  if poisoned s then (Err Store, s)
  else (Ok (token, c), set_tokens s (<[token := new_entry c now]> (tokens s))).

Definition revoke (s : ServiceTokenStore) (token : string)
    : result unit ServiceTokenError * ServiceTokenStore :=
  if poisoned s then (Err Store, s) else (Ok tt, set_tokens s (delete token (tokens s))).

Definition lifetime_limits (s : ServiceTokenStore) : Limits := mkLimits 0 (idle_timeout s).
Definition refresh_limits (s : ServiceTokenStore) : Limits :=
  mkLimits (refresh_grace s) (idle_timeout s + refresh_grace s).

Definition verdict (e : ServiceTokenEntry) (now : Z) (l : Limits) : TokenVerdict :=
  if expires_at (claims e) + expiry_grace l <=? now then VExpired
  else if idle l <? now - last_activity e then VIdle
  else VValid.

(** *** The atomic actions of [cleanup_if_needed] and [validate_with] *)

(** Is a cleanup due at [elapsed], for the loaded [due]? *)
Definition cleanup_due (elapsed due : Z) : bool := negb (duration_nanos elapsed <? due).

(** [compare_exchange(due, next)]. *)
Definition cleanup_claim (s : ServiceTokenStore) (elapsed due : Z) : bool * ServiceTokenStore :=
  let next := u64_saturating_add (duration_nanos elapsed) (duration_nanos (cleanup_interval s)) in
  if next_cleanup_ns s =? due then (true, set_next_cleanup s next) else (false, s).

(** The predicate given to [retain]. *)
Definition retained (s : ServiceTokenStore) (now : Z) (e : ServiceTokenEntry) : bool :=
  if expires_at (claims e) + refresh_grace s <=? now then false
  else now - last_activity e <=? idle_timeout s + refresh_grace s.

Definition sweep (s : ServiceTokenStore) (now : Z) : result unit ServiceTokenError * ServiceTokenStore :=
  if poisoned s then (Err Store, s)
  else (Ok tt, set_tokens s (filter (λ kv, retained s now kv.2 = true) (tokens s))).

Definition cleanup_if_needed (s : ServiceTokenStore) (elapsed now : Z)
    : result unit ServiceTokenError * ServiceTokenStore :=
  let due := next_cleanup_ns s in
  if cleanup_due elapsed due then
    match cleanup_claim s elapsed due with
    | (true, s') => sweep s' now
    | (false, s') => (Ok tt, s')
    end
  else (Ok tt, s).

(** Under the read lock: [Some r] returns [r], [None] falls through. *)
Definition validate_read (s : ServiceTokenStore) (token : string) (now : Z) (l : Limits)
    : option (result DelegatedTokenClaims ServiceTokenError) * ServiceTokenStore :=
  if poisoned s then (Some (Err Store), s)
  else match tokens s !! token with
       | None => (Some (Err NotFound), s)
       | Some e =>
           match verdict e now l with
           | VValid => (Some (Ok (claims e)), set_tokens s (<[token := touch e now]> (tokens s)))
           | _ => (None, s)
           end
       end.

(** Under the write lock, re-checking first. *)
Definition validate_write (s : ServiceTokenStore) (token : string) (now : Z) (l : Limits)
    : result DelegatedTokenClaims ServiceTokenError * ServiceTokenStore :=
  if poisoned s then (Err Store, s)
  else match tokens s !! token with
       | None => (Err NotFound, s)
       | Some e =>
           match verdict e now l with
           | VValid => (Ok (claims e), set_tokens s (<[token := touch e now]> (tokens s)))
           | VExpired => (Err Expired, set_tokens s (delete token (tokens s)))
           | VIdle => (Err IdleTimeout, set_tokens s (delete token (tokens s)))
           end
       end.

Definition validate_with (s : ServiceTokenStore) (token : string) (elapsed now : Z) (l : Limits)
    : result DelegatedTokenClaims ServiceTokenError * ServiceTokenStore :=
  match cleanup_if_needed s elapsed now with
  | (Err e, s1) => (Err e, s1)
  | (Ok _, s1) =>
      match validate_read s1 token now l with
      | (Some r, s2) => (r, s2)
      | (None, s2) => validate_write s2 token now l
      end
  end.

Definition validate (s : ServiceTokenStore) (token : string) (elapsed now : Z) :=
  validate_with s token elapsed now (lifetime_limits s).
Definition validate_for_refresh (s : ServiceTokenStore) (token : string) (elapsed now : Z) :=
  validate_with s token elapsed now (refresh_limits s).

(** ** Interleaved executions

    A thread is a call in flight: [validate_with] runs as four atomic
    actions (load of the due time, compare-exchange, sweep, read-locked
    check, write-locked removal), [issue] and [revoke] as one each. *)

Inductive pc :=
| PStart
| PLoaded (due : Z)
| PSweep
| PRead
| PWrite
| PDone (r : result DelegatedTokenClaims ServiceTokenError).

Record thread := mkThread {
  t_token : string; t_elapsed : Z; t_now : Z; t_limits : Limits; t_pc : pc
}.
Definition set_pc (t : thread) (p : pc) : thread :=
  mkThread (t_token t) (t_elapsed t) (t_now t) (t_limits t) p.

(** One atomic action of a validating thread. *)
Definition thread_step (s : ServiceTokenStore) (t : thread) : ServiceTokenStore * thread :=
  match t_pc t with
  | PStart => (s, set_pc t (PLoaded (next_cleanup_ns s)))
  | PLoaded due =>
      if cleanup_due (t_elapsed t) due then
        match cleanup_claim s (t_elapsed t) due with
        | (true, s') => (s', set_pc t PSweep)
        | (false, s') => (s', set_pc t PRead)
        end
      else (s, set_pc t PRead)
  | PSweep =>
      match sweep s (t_now t) with
      | (Ok _, s') => (s', set_pc t PRead)
      | (Err e, s') => (s', set_pc t (PDone (Err e)))
      end
  | PRead =>
      match validate_read s (t_token t) (t_now t) (t_limits t) with
      | (Some r, s') => (s', set_pc t (PDone r))
      | (None, s') => (s', set_pc t PWrite)
      end
  | PWrite =>
      let '(r, s') := validate_write s (t_token t) (t_now t) (t_limits t) in
      (s', set_pc t (PDone r))
  | PDone _ => (s, t)
  end.

(** [n] actions of one thread with nobody else running. *)
Fixpoint run_thread (n : nat) (s : ServiceTokenStore) (t : thread) : ServiceTokenStore * thread :=
  match n with
  | O => (s, t)
  | S n => run_thread n (thread_step s t).1 (thread_step s t).2
  end.

Inductive event :=
| EvThread (i : nat)
| EvIssue (req : DelegatedTokenRequest) (token uuid : string) (now : Z)
| EvRevoke (token : string).

Record config := mkConfig { c_store : ServiceTokenStore; c_threads : list thread }.

Inductive step : config -> event -> config -> Prop :=
| step_thread s ts i t :
    ts !! i = Some t ->
    step (mkConfig s ts) (EvThread i)
      (mkConfig (thread_step s t).1 (<[i := (thread_step s t).2]> ts))
| step_issue s ts req token uuid now :
    step (mkConfig s ts) (EvIssue req token uuid now)
      (mkConfig (issue s req token uuid now).2 ts)
| step_revoke s ts token :
    step (mkConfig s ts) (EvRevoke token) (mkConfig (revoke s token).2 ts).

Inductive steps : config -> list event -> config -> Prop :=
| steps_nil c : steps c [] c
| steps_cons c1 e c2 es c3 : step c1 e c2 -> steps c2 es c3 -> steps c1 (e :: es) c3.

(** The event issues [token]. *)
Definition issues (token : string) (e : event) : Prop :=
  match e with EvIssue _ t _ _ => t = token | _ => False end.

(** ** Clocks and verdicts *)

(** Within the [i64] range the activity time read back is the one stored. *)
Lemma new_entry_activity c now :
  i64_min <= now <= i64_max -> last_activity (new_entry c now) = now.
Proof.
  intros [H1 H2]. unfold last_activity, new_entry, unix_nanos, from_unix_timestamp_nanos.
  cbn [last_activity_ns]. rewrite (proj2 (Z.leb_le _ _) H1), (proj2 (Z.leb_le _ _) H2).
  cbn [andb].
  assert (offset_min <= i64_min) by (vm_compute; discriminate).
  assert (i64_max <= offset_max) by (vm_compute; discriminate).
  rewrite (proj2 (Z.leb_le offset_min now)), (proj2 (Z.leb_le now offset_max)) by (etrans; eassumption).
  reflexivity.
Qed.

Lemma verdict_valid_iff e now l :
  verdict e now l = VValid <->
  now < expires_at (claims e) + expiry_grace l /\ now - last_activity e <= idle l.
Proof.
  unfold verdict. destruct (Z.leb_spec (expires_at (claims e) + expiry_grace l) now).
  - split; [done|lia].
  - destruct (Z.ltb_spec (idle l) (now - last_activity e)); split; (done || lia).
Qed.

Lemma verdict_expired_iff e now l :
  verdict e now l = VExpired <-> expires_at (claims e) + expiry_grace l <= now.
Proof. unfold verdict. solve_guards; split; (done || lia). Qed.

(** The sweep keeps exactly what a refresh would accept. *)
Lemma retained_iff s now e :
  retained s now e = true <-> verdict e now (refresh_limits s) = VValid.
Proof.
  rewrite verdict_valid_iff. unfold retained. simpl.
  destruct (Z.leb_spec (expires_at (claims e) + refresh_grace s) now); [split; [done|lia]|].
  rewrite Z.leb_le. lia.
Qed.

(** [l] accepts no more than a refresh of store [s] does. *)
Definition within_refresh (s : ServiceTokenStore) (l : Limits) : Prop :=
  expiry_grace l <= refresh_grace s /\ idle l <= idle_timeout s + refresh_grace s.

Lemma within_refresh_valid s e now l :
  within_refresh s l -> verdict e now l = VValid -> verdict e now (refresh_limits s) = VValid.
Proof. intros [? ?]. rewrite !verdict_valid_iff. simpl. lia. Qed.

Lemma lifetime_within s : 0 <= refresh_grace s -> within_refresh s (lifetime_limits s).
Proof. split; simpl; lia. Qed.
Lemma refresh_within s : within_refresh s (refresh_limits s).
Proof. split; simpl; lia. Qed.
#[export] Hint Resolve lifetime_within refresh_within : fenrir.

(** ** Cleanup *)

(** The map after the cleanup of one validation. *)
Lemma cleanup_cases s elapsed now :
  poisoned s = false ->
  exists s1, cleanup_if_needed s elapsed now = (Ok tt, s1)
    /\ poisoned s1 = false
    /\ (tokens s1 = tokens s
        \/ tokens s1 = filter (λ kv, retained s now kv.2 = true) (tokens s)).
Proof.
  intros Hp. unfold cleanup_if_needed, cleanup_claim, sweep.
  destruct (cleanup_due _ _); [|eauto]. rewrite Z.eqb_refl. simpl. rewrite Hp.
  eexists. split; [done|]. split; [done|]. by right.
Qed.

Lemma cleanup_lookup_valid s s1 elapsed now token e l :
  poisoned s = false -> within_refresh s l ->
  cleanup_if_needed s elapsed now = (Ok tt, s1) -> verdict e now l = VValid ->
  tokens s1 !! token = Some e <-> tokens s !! token = Some e.
Proof.
  intros Hp Hl Hc Hv. destruct (cleanup_cases s elapsed now Hp) as (s2 & Hc2 & _ & Hm).
  rewrite Hc2 in Hc. injection Hc as <-. destruct Hm as [->| ->]; [done|].
  rewrite map_lookup_filter_Some. simpl. split; [tauto|]. split; [done|].
  apply retained_iff. by eapply within_refresh_valid.
Qed.

Lemma cleanup_lookup_some s s1 elapsed now token e :
  poisoned s = false -> cleanup_if_needed s elapsed now = (Ok tt, s1) ->
  tokens s1 !! token = Some e -> tokens s !! token = Some e.
Proof.
  intros Hp Hc Ht. destruct (cleanup_cases s elapsed now Hp) as (s2 & Hc2 & _ & Hm).
  rewrite Hc2 in Hc. injection Hc as <-. destruct Hm as [E|E]; rewrite E in Ht; [done|].
  by apply map_lookup_filter_Some in Ht as [? _].
Qed.

(** ** Sequential validation *)

(** What a validation returns once the cleanup is done. *)
Lemma validate_with_after s s1 token elapsed now l :
  cleanup_if_needed s elapsed now = (Ok tt, s1) -> poisoned s1 = false ->
  validate_with s token elapsed now l =
  match tokens s1 !! token with
  | None => (Err NotFound, s1)
  | Some e =>
      match verdict e now l with
      | VValid => (Ok (claims e), set_tokens s1 (<[token := touch e now]> (tokens s1)))
      | VExpired => (Err Expired, set_tokens s1 (delete token (tokens s1)))
      | VIdle => (Err IdleTimeout, set_tokens s1 (delete token (tokens s1)))
      end
  end.
Proof.
  intros Hc Hp. unfold validate_with, validate_read, validate_write. rewrite Hc, Hp.
  destruct (tokens s1 !! token) as [e|] eqn:Ht; [|done].
  destruct (verdict e now l) eqn:Hv; rewrite ?Hp, ?Ht, ?Hv; done.
Qed.

Lemma validate_with_ok_iff s token elapsed now l c :
  poisoned s = false -> within_refresh s l ->
  (validate_with s token elapsed now l).1 = Ok c <->
  exists e, tokens s !! token = Some e /\ claims e = c /\ verdict e now l = VValid.
Proof.
  intros Hp Hl. destruct (cleanup_cases s elapsed now Hp) as (s1 & Hc & Hp1 & _).
  rewrite (validate_with_after _ _ _ _ _ _ Hc Hp1). split.
  - destruct (tokens s1 !! token) as [e|] eqn:Ht; [|done].
    destruct (verdict e now l) eqn:Hv; [|done|done]. simpl. intros [= <-].
    exists e. split; [|done]. by apply (cleanup_lookup_valid s s1 elapsed now token e l).
  - intros (e & Ht & <- & Hv). rewrite (proj2 (cleanup_lookup_valid s s1 elapsed now token e l Hp Hl Hc Hv) Ht).
    by rewrite Hv.
Qed.

(** A rejected token is gone afterwards. *)
Lemma validate_with_err_removes s token elapsed now l e :
  poisoned s = false -> (validate_with s token elapsed now l).1 = Err e ->
  tokens (validate_with s token elapsed now l).2 !! token = None.
Proof.
  intros Hp. destruct (cleanup_cases s elapsed now Hp) as (s1 & Hc & Hp1 & _).
  rewrite (validate_with_after _ _ _ _ _ _ Hc Hp1).
  destruct (tokens s1 !! token) as [e'|] eqn:Ht; [|done].
  destruct (verdict e' now l); simpl; [done| |]; intros _; apply lookup_delete_eq.
Qed.

Lemma validate_with_poisoned s token elapsed now l :
  poisoned s = false -> poisoned (validate_with s token elapsed now l).2 = false.
Proof.
  intros Hp. destruct (cleanup_cases s elapsed now Hp) as (s1 & Hc & Hp1 & _).
  rewrite (validate_with_after _ _ _ _ _ _ Hc Hp1). by solve_guards.
Qed.

(** An absent token stays absent and is reported as such. *)
Lemma validate_with_absent s token elapsed now l :
  poisoned s = false -> tokens s !! token = None ->
  (validate_with s token elapsed now l).1 = Err NotFound.
Proof.
  intros Hp Ht. destruct (cleanup_cases s elapsed now Hp) as (s1 & Hc & Hp1 & _).
  rewrite (validate_with_after _ _ _ _ _ _ Hc Hp1).
  destruct (tokens s1 !! token) as [e|] eqn:Ht1; [|done].
  by rewrite (cleanup_lookup_some s s1 elapsed now token e Hp Hc Ht1) in Ht.
Qed.

(** ** A thread running alone *)

Lemma run_thread_step n s t s' t' :
  thread_step s t = (s', t') -> run_thread (S n) s t = run_thread n s' t'.
Proof. simpl. by intros ->. Qed.

Lemma run_thread_done n s t r : t_pc t = PDone r -> run_thread n s t = (s, t).
Proof.
  intros H. induction n as [|n IH]; [done|]. simpl. unfold thread_step. rewrite H. exact IH.
Qed.

Lemma thread_step_start s t :
  t_pc t = PStart -> thread_step s t = (s, set_pc t (PLoaded (next_cleanup_ns s))).
Proof. unfold thread_step. by intros ->. Qed.

Lemma thread_step_claim s t due next :
  t_pc t = PLoaded due -> cleanup_due (t_elapsed t) due = true ->
  cleanup_claim s (t_elapsed t) due = (true, next) -> thread_step s t = (next, set_pc t PSweep).
Proof. unfold thread_step. by intros -> -> ->. Qed.

Lemma thread_step_skip s t due :
  t_pc t = PLoaded due -> cleanup_due (t_elapsed t) due = false -> thread_step s t = (s, set_pc t PRead).
Proof. unfold thread_step. by intros -> ->. Qed.

Lemma thread_step_sweep_ok s t s' :
  t_pc t = PSweep -> sweep s (t_now t) = (Ok tt, s') -> thread_step s t = (s', set_pc t PRead).
Proof. unfold thread_step. by intros -> ->. Qed.

Lemma thread_step_sweep_err s t s' e :
  t_pc t = PSweep -> sweep s (t_now t) = (Err e, s') -> thread_step s t = (s', set_pc t (PDone (Err e))).
Proof. unfold thread_step. by intros -> ->. Qed.

(** The two locked phases, from the read lock on. *)
Lemma run_thread_read n s t :
  t_pc t = PRead ->
  let run := run_thread (S (S n)) s t in
  let seq := match validate_read s (t_token t) (t_now t) (t_limits t) with
             | (Some r, s2) => (r, s2)
             | (None, s2) => validate_write s2 (t_token t) (t_now t) (t_limits t)
             end in
  t_pc run.2 = PDone seq.1 /\ run.1 = seq.2.
Proof.
  intros Hpc. cbv zeta. destruct (validate_read _ _ _ _) as [[r|] s2] eqn:Er.
  - erewrite run_thread_step by (unfold thread_step; rewrite Hpc, Er; reflexivity).
    by rewrite (run_thread_done _ _ _ r).
  - erewrite run_thread_step by (unfold thread_step; rewrite Hpc, Er; reflexivity).
    destruct (validate_write s2 (t_token t) (t_now t) (t_limits t)) as [r s3] eqn:Ew.
    erewrite run_thread_step by (unfold thread_step; simpl; rewrite Ew; reflexivity).
    by rewrite (run_thread_done _ _ _ r).
Qed.

(** ** Interleaved executions: invariants *)

Lemma thread_step_tokens s t token :
  tokens s !! token = None -> tokens (thread_step s t).1 !! token = None.
Proof.
  intros H. unfold thread_step, cleanup_claim, sweep, validate_read, validate_write.
  destruct (t_pc t); solve_guards;
    try (apply map_lookup_filter_None; by left);
    try (apply lookup_delete_None; by right);
    (apply lookup_insert_None; split; [done | congruence]).
Qed.

Lemma step_absent c ev c' token :
  step c ev c' -> ~ issues token ev -> tokens (c_store c) !! token = None ->
  tokens (c_store c') !! token = None.
Proof.
  intros Hs Hi H. destruct Hs; simpl in *.
  - by apply thread_step_tokens.
  - unfold issue. destruct (poisoned s); [done|]. simpl. by rewrite lookup_insert_ne.
  - unfold revoke. destruct (poisoned s); [done|]. simpl. apply lookup_delete_None. by right.
Qed.

(** No validation of [token] has been accepted by thread [i]. *)
Definition not_accepted (token : string) (i : nat) (c : config) : Prop :=
  forall t, c_threads c !! i = Some t -> t_token t = token ->
  match t_pc t with PDone r => is_ok r = false | _ => True end.

Lemma thread_step_rejects s t :
  tokens s !! t_token t = None ->
  match t_pc t with PDone r => is_ok r = false | _ => True end ->
  match t_pc (thread_step s t).2 with PDone r => is_ok r = false | _ => True end.
Proof.
  intros H Hpc. unfold thread_step, cleanup_claim, sweep, validate_read, validate_write.
  rewrite H. destruct (t_pc t) eqn:E; repeat split_match; simplify_eq/=; try done.
  congruence.
Qed.

Lemma thread_step_token s t : t_token (thread_step s t).2 = t_token t.
Proof.
  unfold thread_step. destruct (t_pc t); try done; repeat split_match; done.
Qed.

Lemma step_not_accepted c ev c' token i :
  step c ev c' -> tokens (c_store c) !! token = None ->
  not_accepted token i c -> not_accepted token i c'.
Proof.
  intros Hs H Hn. destruct Hs as [s ts j t0 Hj| |]; [|exact Hn|exact Hn].
  intros t Ht Htok. simpl in *.
  destruct (decide (i = j)) as [->|Hij].
  - rewrite list_lookup_insert_eq in Ht by by eapply lookup_lt_Some.
    injection Ht as <-. rewrite thread_step_token in Htok. subst token.
    apply thread_step_rejects; [done|]. by apply Hn.
  - rewrite list_lookup_insert_ne in Ht by done. by apply Hn.
Qed.

Lemma steps_absent c es c' token :
  steps c es c' -> Forall (λ ev, ~ issues token ev) es ->
  tokens (c_store c) !! token = None -> tokens (c_store c') !! token = None.
Proof.
  induction 1 as [|c1 ev c2 es c3 Hs _ IH]; intros HF Ht; [done|].
  inv HF. eauto using step_absent.
Qed.

Lemma steps_revoked c es c' token i :
  steps c es c' -> Forall (λ ev, ~ issues token ev) es ->
  tokens (c_store c) !! token = None -> not_accepted token i c ->
  tokens (c_store c') !! token = None /\ not_accepted token i c'.
Proof.
  induction 1 as [|c1 ev c2 es c3 Hs _ IH]; intros HF Ht Hn; [done|].
  inv HF. apply IH; eauto using step_absent, step_not_accepted.
Qed.

(** [last_activity_ns] of a token only grows along a step that does not
    issue it again. *)
Lemma thread_step_monotone s t token e e' :
  tokens s !! token = Some e -> tokens (thread_step s t).1 !! token = Some e' ->
  claims e' = claims e /\ last_activity_ns e <= last_activity_ns e'.
Proof.
  intros H. unfold thread_step, cleanup_claim, sweep, validate_read, validate_write.
  destruct (t_pc t); repeat split_match; simplify_eq/=;
    rewrite ?map_lookup_filter_Some, ?lookup_delete, ?lookup_insert; repeat case_decide;
    intros; destruct_and?; simplify_eq/=; split; (done || lia).
Qed.

Lemma step_monotone c ev c' token e e' :
  step c ev c' -> ~ issues token ev ->
  tokens (c_store c) !! token = Some e -> tokens (c_store c') !! token = Some e' ->
  claims e' = claims e /\ last_activity_ns e <= last_activity_ns e'.
Proof.
  intros Hs Hi H. destruct Hs; simpl in *.
  - by apply thread_step_monotone.
  - unfold issue. destruct (poisoned s); simpl; [|rewrite lookup_insert_ne by done];
      rewrite H; intros [= <-]; split; (done || lia).
  - unfold revoke. destruct (poisoned s); simpl; rewrite ?lookup_delete; repeat case_decide;
      try done; rewrite H; intros [= <-]; split; (done || lia).
Qed.

Lemma steps_monotone c es c' token e e' :
  steps c es c' -> Forall (λ ev, ~ issues token ev) es ->
  tokens (c_store c) !! token = Some e -> tokens (c_store c') !! token = Some e' ->
  claims e' = claims e /\ last_activity_ns e <= last_activity_ns e'.
Proof.
  intros Hs. revert e. induction Hs as [c|c1 ev c2 es c3 Hs Hss IH]; intros e HF H1 H3.
  - rewrite H1 in H3. injection H3 as <-. split; (done || lia).
  - inv HF. destruct (tokens (c_store c2) !! token) as [e2|] eqn:Hmid.
    + destruct (step_monotone _ _ _ _ _ _ Hs ltac:(done) H1 Hmid).
      destruct (IH e2) as [? ?]; [done..|]. split; [congruence|lia].
    + by rewrite (steps_absent _ _ _ _ Hss ltac:(done) Hmid) in H3.
Qed.

(** ** Sweeps are at least one interval apart

    A run is watched through its successful compare-exchanges: [claims_at]
    gives the [elapsed] of a step that wins one. *)
Definition claims_at (c : config) (ev : event) : option Z :=
  match ev with
  | EvThread i =>
      match c_threads c !! i with
      | Some t =>
          match t_pc t with
          | PLoaded due =>
              if cleanup_due (t_elapsed t) due && (next_cleanup_ns (c_store c) =? due)
              then Some (duration_nanos (t_elapsed t)) else None
          | _ => None
          end
      | None => None
      end
  | _ => None
  end.

Lemma step_interval c ev c' :
  step c ev c' -> cleanup_interval (c_store c') = cleanup_interval (c_store c).
Proof.
  destruct 1; simpl; unfold issue, revoke, thread_step, cleanup_claim, sweep, validate_read,
    validate_write; [destruct (t_pc t)|..]; repeat split_match; simplify_eq/=; done.
Qed.

(** Only a winning compare-exchange moves the due time, to one interval
    after its own clock. *)
Lemma step_next_cleanup c ev c' :
  step c ev c' ->
  match claims_at c ev with
  | Some e => next_cleanup_ns (c_store c) <= e
      /\ next_cleanup_ns (c_store c') =
         u64_saturating_add e (duration_nanos (cleanup_interval (c_store c)))
  | None => next_cleanup_ns (c_store c') = next_cleanup_ns (c_store c)
  end.
Proof.
  intros Hs. destruct Hs as [s ts i t Ht| |]; simpl.
  - rewrite Ht. unfold thread_step, cleanup_claim, sweep, validate_read, validate_write.
    destruct (t_pc t); repeat split_match; simplify_eq/=; boolify; try done; try lia.
    unfold cleanup_due in *. boolify. lia.
  - unfold issue. by destruct (poisoned s).
  - unfold revoke. by destruct (poisoned s).
Qed.

Lemma steps_next_cleanup_mono c es c' :
  steps c es c' -> 0 <= cleanup_interval (c_store c) ->
  0 <= next_cleanup_ns (c_store c) <= u64_max ->
  next_cleanup_ns (c_store c) <= next_cleanup_ns (c_store c') <= u64_max
  /\ cleanup_interval (c_store c') = cleanup_interval (c_store c).
Proof.
  induction 1 as [c|c1 ev c2 es c3 Hs _ IH]; intros Hi Hn; [lia|].
  pose proof (step_interval _ _ _ Hs) as Hiv. pose proof (step_next_cleanup _ _ _ Hs) as Hnc.
  assert (next_cleanup_ns (c_store c1) <= next_cleanup_ns (c_store c2) <= u64_max).
  { destruct (claims_at c1 ev) as [e|]; [|lia]. destruct Hnc as [? ->].
    unfold u64_saturating_add, duration_nanos. destruct (_ <=? _); lia. }
  destruct IH; lia.
Qed.

(** ** Properties *)

(** C25: a validation accepts a token exactly when it is in the store, not
    expired and not idle: strictly for [validate], with the grace window on
    both limits for [validate_for_refresh]; whether a cleanup runs in the
    same call makes no difference to what is accepted. *)
Theorem validate_accepts_iff s token elapsed now c :
  poisoned s = false -> 0 <= refresh_grace s ->
  ((validate s token elapsed now).1 = Ok c <->
   exists e, tokens s !! token = Some e /\ claims e = c /\ now < expires_at c
     /\ now - last_activity e <= idle_timeout s) /\
  ((validate_for_refresh s token elapsed now).1 = Ok c <->
   exists e, tokens s !! token = Some e /\ claims e = c
     /\ now < expires_at c + refresh_grace s
     /\ now - last_activity e <= idle_timeout s + refresh_grace s).
Proof.
  intros Hp Hg. unfold validate, validate_for_refresh.
  split; rewrite validate_with_ok_iff by auto with fenrir;
    setoid_rewrite verdict_valid_iff; simpl;
    (split; intros (e & ? & <- & ?); exists e; repeat split; try done; lia).
Qed.

(** C29: revocation is exact under any interleaving: once a token is out of
    the store, no validation of it that has not been answered yet (it may be
    anywhere in [validate_with]) is ever accepted, until the token is issued
    again. *)
Theorem revocation_exact s ts token es c' i t :
  poisoned s = false ->
  not_accepted token i (mkConfig s ts) ->
  steps (mkConfig (revoke s token).2 ts) es c' ->
  Forall (λ ev, ~ issues token ev) es ->
  c_threads c' !! i = Some t -> t_token t = token ->
  match t_pc t with PDone r => is_ok r = false | _ => True end.
Proof.
  intros Hp Hn Hs HF Ht Htok.
  refine (proj2 (steps_revoked _ _ _ token i Hs HF _ _) t Ht Htok); [|exact Hn].
  unfold revoke. rewrite Hp. apply lookup_delete_eq.
Qed.

(** under any interleaving the activity time of a token never moves
    backwards and its claims never change, unless the token is issued
    again. *)
Theorem activity_never_backwards c es c' token e e' :
  steps c es c' -> Forall (λ ev, ~ issues token ev) es ->
  tokens (c_store c) !! token = Some e -> tokens (c_store c') !! token = Some e' ->
  claims e' = claims e /\ last_activity_ns e <= last_activity_ns e'.
Proof. apply steps_monotone. Qed.

(** at most one sweep per cleanup interval: between two calls that win
    the compare-exchange, however many threads race for it, the clock has
    advanced by at least [cleanup_interval]. *)
Theorem sweeps_spaced c1 ev1 c2 es c3 ev2 c4 e1 e2 :
  0 <= cleanup_interval (c_store c1) -> 0 <= e1 ->
  e1 + cleanup_interval (c_store c1) <= u64_max ->
  step c1 ev1 c2 -> claims_at c1 ev1 = Some e1 ->
  steps c2 es c3 -> step c3 ev2 c4 -> claims_at c3 ev2 = Some e2 ->
  e1 + cleanup_interval (c_store c1) <= e2.
Proof.
  intros Hi H0 Hsat Hs1 Hc1 Hss Hs2 Hc2.
  pose proof (step_next_cleanup _ _ _ Hs1) as Hn1. rewrite Hc1 in Hn1. destruct Hn1 as [_ Hn1].
  pose proof (step_next_cleanup _ _ _ Hs2) as Hn2. rewrite Hc2 in Hn2. destruct Hn2 as [Hn2 _].
  unfold u64_saturating_add, duration_nanos in Hn1.
  destruct (Z.leb_spec (cleanup_interval (c_store c1)) u64_max); [|lia].
  pose proof (steps_next_cleanup_mono _ _ _ Hss) as Hm.
  rewrite (step_interval _ _ _ Hs1) in Hm. lia.
Qed.

(** a validation that runs alone, atomic action by atomic action, is
    [validate_with]: same answer, same store. *)
Theorem thread_alone_is_validate_with s t :
  t_pc t = PStart ->
  let run := run_thread 5 s t in
  let seq := validate_with s (t_token t) (t_elapsed t) (t_now t) (t_limits t) in
  t_pc run.2 = PDone seq.1 /\ run.1 = seq.2.
Proof.
  intros Hpc. unfold validate_with, cleanup_if_needed. cbv zeta.
  rewrite (run_thread_step _ _ _ _ _ (thread_step_start s t Hpc)).
  destruct (cleanup_due _ _) eqn:Hd.
  - unfold cleanup_claim. rewrite Z.eqb_refl.
    erewrite run_thread_step by (eapply thread_step_claim; [reflexivity | exact Hd | unfold cleanup_claim; rewrite Z.eqb_refl; reflexivity]).
    destruct (sweep _ _) as [[[]|e] s1] eqn:Es.
    + erewrite run_thread_step by (eapply thread_step_sweep_ok; [reflexivity | exact Es]).
      apply (run_thread_read 0 s1 (set_pc (set_pc (set_pc t _) PSweep) PRead)); reflexivity.
    + erewrite run_thread_step by (eapply thread_step_sweep_err; [reflexivity | exact Es]).
      by rewrite (run_thread_done _ _ _ (Err e)).
  - erewrite run_thread_step by (eapply thread_step_skip; [reflexivity | exact Hd]).
    apply (run_thread_read 1 s (set_pc (set_pc t _) PRead)); reflexivity.
Qed.

(** the strict check burns the grace window: a token that has expired
    but could still be refreshed is removed by a strict validation, and every
    later refresh of it fails with [NotFound]. *)
Theorem strict_check_burns_grace s token e elapsed now elapsed' now' :
  poisoned s = false -> tokens s !! token = Some e ->
  expires_at (claims e) <= now ->
  let s' := (validate s token elapsed now).2 in
  is_ok (validate s token elapsed now).1 = false
  /\ (validate_for_refresh s' token elapsed' now').1 = Err NotFound.
Proof.
  intros Hp Ht Hexp s'.
  destruct ((validate s token elapsed now).1) as [c|err] eqn:Hr.
  - exfalso. unfold validate in Hr. destruct (cleanup_cases s elapsed now Hp) as (s1 & Hc & Hp1 & _).
    rewrite (validate_with_after _ _ _ _ _ _ Hc Hp1) in Hr.
    destruct (tokens s1 !! token) as [e1|] eqn:Ht1; [|done].
    rewrite (cleanup_lookup_some s s1 elapsed now token e1) in Ht by done. injection Ht as <-.
    rewrite (proj2 (verdict_expired_iff e1 now (lifetime_limits s))) in Hr; [done|]. simpl. lia.
  - split; [done|]. apply validate_with_absent.
    + by apply validate_with_poisoned.
    + by eapply validate_with_err_removes.
Qed.

(** a freshly issued token validates, with the claims that were issued,
    until it expires or sits idle for longer than the idle timeout. *)
Theorem issue_then_validate s req token uuid now elapsed now' :
  poisoned s = false -> 0 <= refresh_grace s -> i64_min <= now <= i64_max ->
  now' < now + lifetime s -> now' - now <= idle_timeout s ->
  exists c s', issue s req token uuid now = (Ok (token, c), s')
    /\ (validate s' token elapsed now').1 = Ok c
    /\ actor c = req_actor req /\ tenant_id c = req_tenant_id req
    /\ scopes c = req_scopes req /\ expires_at c = now + lifetime s.
Proof.
  intros Hp Hg Hnow Hexp Hidle. unfold issue. rewrite Hp. do 2 eexists.
  split; [reflexivity|]. split; [|done]. unfold validate.
  apply validate_with_ok_iff; [done|by apply lifetime_within|]. eexists.
  split; [apply lookup_insert_eq|]. split; [done|]. apply verdict_valid_iff.
  rewrite new_entry_activity by done. simpl. lia.
Qed.

(** ** Witnesses *)

Definition demo_section := mkSection 900 300 60 600.
Definition demo_request := with_scopes (new_request (Service "module:a" SWrite) "tenant-1") [].
Definition demo_store := (issue (new demo_section) demo_request "tok" "id-1" 0).2.

Definition demo_claims := mkClaims "id-1" (Service "module:a" SWrite) "tenant-1" [] 0 (seconds 900).

Lemma validate_accepts_iff_witness :
  (validate demo_store "tok" 0 5).1 = Ok demo_claims.
Proof.
  refine (proj2 (proj1 (validate_accepts_iff demo_store "tok" 0 5 demo_claims _ _)) _);
    [vm_compute; reflexivity | vm_compute; discriminate |].
  exists (mkEntry demo_claims 0).
  repeat split; vm_compute; congruence.
Defined.

Definition demo_thread := mkThread "tok" 0 5 (lifetime_limits demo_store) PRead.

Lemma revocation_exact_witness :
  t_pc (set_pc demo_thread (PDone (Err NotFound))) = PDone (Err NotFound) /\
  match t_pc (thread_step (revoke demo_store "tok").2 demo_thread).2 with
  | PDone r => is_ok r = false | _ => True end.
Proof.
  split; [reflexivity|].
  apply (revocation_exact demo_store [demo_thread] "tok" [EvThread 0]
    (mkConfig (thread_step (revoke demo_store "tok").2 demo_thread).1
       [(thread_step (revoke demo_store "tok").2 demo_thread).2]) 0
    (thread_step (revoke demo_store "tok").2 demo_thread).2).
  - reflexivity.
  - intros t [= <-] _. exact I.
  - eapply steps_cons; [apply (step_thread _ _ 0 demo_thread); reflexivity | apply steps_nil].
  - constructor; [intros [] | constructor].
  - reflexivity.
  - reflexivity.
Defined.

Lemma activity_never_backwards_witness :
  claims (mkEntry demo_claims 5) = claims (mkEntry demo_claims 0) /\ 0 <= 5.
Proof.
  apply (activity_never_backwards (mkConfig demo_store [demo_thread]) [EvThread 0]
    (mkConfig (thread_step demo_store demo_thread).1 [(thread_step demo_store demo_thread).2])
    "tok" (mkEntry demo_claims 0) (mkEntry demo_claims 5)).
  - eapply steps_cons; [apply (step_thread _ _ 0 demo_thread); reflexivity | apply steps_nil].
  - constructor; [intros [] | constructor].
  - vm_compute. reflexivity.
  - vm_compute. reflexivity.
Defined.

(** Two threads, the second one interval later. *)
Definition sweep_thread (elapsed : Z) (p : pc) := mkThread "tok" elapsed 5 (lifetime_limits demo_store) p.
Definition sweep_config := mkConfig demo_store
  [sweep_thread (seconds 60) (PLoaded (seconds 60)); sweep_thread (seconds 120) (PLoaded (seconds 120))].

Lemma sweeps_spaced_witness :
  seconds 60 + cleanup_interval (c_store sweep_config) <= seconds 120.
Proof.
  eapply (sweeps_spaced sweep_config (EvThread 0) _ [] _ (EvThread 1)).
  - vm_compute; discriminate.
  - vm_compute; discriminate.
  - vm_compute; discriminate.
  - apply (step_thread _ _ 0 (sweep_thread (seconds 60) (PLoaded (seconds 60)))); reflexivity.
  - reflexivity.
  - apply steps_nil.
  - apply (step_thread _ _ 1 (sweep_thread (seconds 120) (PLoaded (seconds 120)))); reflexivity.
  - reflexivity.
Defined.

Lemma thread_alone_is_validate_with_witness :
  t_pc (run_thread 5 demo_store (set_pc demo_thread PStart)).2
  = PDone (validate_with demo_store "tok" 0 5 (lifetime_limits demo_store)).1.
Proof. apply (thread_alone_is_validate_with demo_store (set_pc demo_thread PStart)). reflexivity. Defined.

Lemma strict_check_burns_grace_witness :
  (validate_for_refresh demo_store "tok" 0 (seconds 900)).1 <> Err NotFound /\
  (validate_for_refresh (validate demo_store "tok" 0 (seconds 900)).2 "tok" 0 (seconds 901)).1
  = Err NotFound.
Proof.
  split; [vm_compute; discriminate|].
  eapply (strict_check_burns_grace demo_store "tok"); [reflexivity | reflexivity | vm_compute; discriminate].
Defined.

Lemma issue_then_validate_witness :
  exists c s', issue (new demo_section) demo_request "tok" "id-1" 0 = (Ok ("tok", c), s')
    /\ (validate s' "tok" 0 (seconds 10)).1 = Ok c.
Proof.
  assert (Hg : 0 <= refresh_grace (new demo_section)) by (vm_compute; discriminate).
  assert (Hn : i64_min <= 0 <= i64_max) by (vm_compute; split; discriminate).
  assert (He : seconds 10 < 0 + lifetime (new demo_section)) by (vm_compute; reflexivity).
  assert (Hi : seconds 10 - 0 <= idle_timeout (new demo_section)) by (vm_compute; discriminate).
  destruct (issue_then_validate (new demo_section) demo_request "tok" "id-1" 0 0 (seconds 10)
              eq_refl Hg Hn He Hi) as (c & s' & H1 & H2 & _).
  exists c, s'. exact (conj H1 H2).
Defined.
