(* ===== verification/Sessions.v ===== *)
(** * Sessions: [security/session/store.rs]

    The store of operator sessions, and the abstract store it implements:
    one that never forgets a session on its own and simply ignores the dead
    ones.  Times are nanoseconds; the two locks can be poisoned. *)

From S2P Require Import Prelude Text Roles.
From S2P Require ServiceTokens.

Record Session := mkSession {
  id : string;
  user_id : string;
  role : Role;
  created_at : Z;
  expires_at : Z;
  last_activity : Z;
}.

Inductive SessionError := NotFound | Expired | IdleTimeout | Store.

Record SessionSection := mkSection {
  lifetime_seconds : Z;
  idle_timeout_seconds : Z;
  cleanup_interval_seconds : Z;
}.

Record SessionStore := mkStore {
  lifetime : Z;
  idle_timeout : Z;
  cleanup_interval : Z;
  sessions : gmap string Session;
  sessions_poisoned : bool;
  next_cleanup : Z;
  schedule_poisoned : bool;
}.

Definition set_sessions (s : SessionStore) m :=
  mkStore (lifetime s) (idle_timeout s) (cleanup_interval s) m (sessions_poisoned s)
    (next_cleanup s) (schedule_poisoned s).
Definition set_schedule (s : SessionStore) n :=
  mkStore (lifetime s) (idle_timeout s) (cleanup_interval s) (sessions s) (sessions_poisoned s)
    n (schedule_poisoned s).

Definition touch (e : Session) (now : Z) : Session :=
  mkSession (id e) (user_id e) (role e) (created_at e) (expires_at e) now.

Definition new (cfg : SessionSection) (instant : Z) : SessionStore :=
  mkStore (ServiceTokens.seconds (u64_as_i64 (lifetime_seconds cfg)))
    (ServiceTokens.seconds (u64_as_i64 (idle_timeout_seconds cfg)))
    (ServiceTokens.seconds (cleanup_interval_seconds cfg))
    ∅ false (instant + ServiceTokens.seconds (cleanup_interval_seconds cfg)) false.

Definition create_session (s : SessionStore) (user : string) (r : Role) (token : string) (now : Z)
    : result Session SessionError * SessionStore :=
  let session := mkSession token user r now (now + lifetime s) now in
  if sessions_poisoned s then (Err Store, s)
  else (Ok session, set_sessions s (<[token := session]> (sessions s))).

(** The predicate given to [retain]. *)
Definition retained (s : SessionStore) (now : Z) (e : Session) : bool :=
  if expires_at e <=? now then false else now - last_activity e <=? idle_timeout s.

Definition cleanup_if_needed (s : SessionStore) (now_instant now : Z)
    : result unit SessionError * SessionStore :=
  if schedule_poisoned s then (Err Store, s)
  else if now_instant <? next_cleanup s then (Ok tt, s)
  else
    let s := set_schedule s (now_instant + cleanup_interval s) in
    if sessions_poisoned s then (Err Store, s)
    else (Ok tt, set_sessions s (filter (λ kv, retained s now kv.2 = true) (sessions s))).

Definition validate (s : SessionStore) (token : string) (now_instant now : Z)
    : result Session SessionError * SessionStore :=
  match cleanup_if_needed s now_instant now with
  | (Err e, s) => (Err e, s)
  | (Ok _, s) =>
      if sessions_poisoned s then (Err Store, s)
      else match sessions s !! token with
           | Some e =>
               if expires_at e <=? now then
                 (Err Expired, set_sessions s (delete token (sessions s)))
               else if idle_timeout s <? now - last_activity e then
                 (Err IdleTimeout, set_sessions s (delete token (sessions s)))
               else (Ok (touch e now), set_sessions s (<[token := touch e now]> (sessions s)))
           | None => (Err NotFound, s)
           end
  end.

Definition revoke (s : SessionStore) (token : string) : result unit SessionError * SessionStore :=
  if sessions_poisoned s then (Err Store, s)
  else match sessions s !! token with
       | Some _ => (Ok tt, set_sessions s (delete token (sessions s)))
       | None => (Err NotFound, s)
       end.

Definition active_sessions (s : SessionStore) : result Z SessionError :=
  if sessions_poisoned s then Err Store else Ok (Z.of_nat (size (sessions s))).

(** ** The abstract store

    It remembers every session until it is revoked and has no cleanup; a
    validation only looks at the clock. *)
Module Abstract.
Record store := mkAbs { a_lifetime : Z; a_idle : Z; a_sessions : gmap string Session }.

Definition live (idle now : Z) (e : Session) : bool :=
  (now <? expires_at e) && (now - last_activity e <=? idle).

Definition create (a : store) (user : string) (r : Role) (token : string) (now : Z) : store :=
  mkAbs (a_lifetime a) (a_idle a)
    (<[token := mkSession token user r now (now + a_lifetime a) now]> (a_sessions a)).

Definition validate (a : store) (token : string) (now : Z) : option Session * store :=
  match a_sessions a !! token with
  | Some e =>
      if live (a_idle a) now e then
        (Some (touch e now), mkAbs (a_lifetime a) (a_idle a) (<[token := touch e now]> (a_sessions a)))
      else (None, a)
  | None => (None, a)
  end.

Definition revoke (a : store) (token : string) : store :=
  mkAbs (a_lifetime a) (a_idle a) (delete token (a_sessions a)).
End Abstract.

(** ** Operation sequences on both *)

Inductive op :=
| OCreate (user : string) (r : Role) (token : string)
| OValidate (token : string)
| ORevoke (token : string).

(** One call at Unix time [now] and monotonic time [inst], and what the
    caller learns: the session a validation accepts. *)
Definition run_op (s : SessionStore) (o : op) (inst now : Z) : option Session * SessionStore :=
  match o with
  | OCreate user r token => (None, (create_session s user r token now).2)
  | OValidate token =>
      match validate s token inst now with
      | (Ok e, s') => (Some e, s')
      | (Err _, s') => (None, s')
      end
  | ORevoke token => (None, (revoke s token).2)
  end.

Definition run_abs (a : Abstract.store) (o : op) (now : Z) : option Session * Abstract.store :=
  match o with
  | OCreate user r token => (None, Abstract.create a user r token now)
  | OValidate token => Abstract.validate a token now
  | ORevoke token => (None, Abstract.revoke a token)
  end.

Fixpoint run_ops (s : SessionStore) (os : list (op * Z * Z)) : list (option Session) :=
  match os with
  | [] => []
  | (o, inst, now) :: os' => let '(r, s') := run_op s o inst now in r :: run_ops s' os'
  end.

Fixpoint run_abs_ops (a : Abstract.store) (os : list (op * Z * Z)) : list (option Session) :=
  match os with
  | [] => []
  | (o, _, now) :: os' => let '(r, a') := run_abs a o now in r :: run_abs_ops a' os'
  end.

(** The Unix clock of the calls never goes back. *)
Fixpoint clock_ok (t : Z) (os : list (op * Z * Z)) : Prop :=
  match os with
  | [] => True
  | (_, _, now) :: os' => t <= now /\ clock_ok now os'
  end.

(** ** Simulation *)

(** At time [t] both stores hold the same live sessions. *)
Record simulates (t : Z) (s : SessionStore) (a : Abstract.store) : Prop := mkSim {
  sim_lifetime : Abstract.a_lifetime a = lifetime s;
  sim_idle : Abstract.a_idle a = idle_timeout s;
  sim_p1 : sessions_poisoned s = false;
  sim_p2 : schedule_poisoned s = false;
  sim_live : forall token e, Abstract.live (idle_timeout s) t e = true ->
    sessions s !! token = Some e <-> Abstract.a_sessions a !! token = Some e;
}.

Lemma live_iff idle now e :
  Abstract.live idle now e = true <-> now < expires_at e /\ now - last_activity e <= idle.
Proof. unfold Abstract.live. rewrite andb_true_iff, Z.ltb_lt, Z.leb_le. done. Qed.

Lemma retained_live s now e : retained s now e = Abstract.live (idle_timeout s) now e.
Proof.
  apply eq_true_iff_eq. rewrite live_iff. unfold retained.
  destruct (Z.leb_spec (expires_at e) now); [split; [done|lia]|]. rewrite Z.leb_le. lia.
Qed.

(** Dead sessions stay dead. *)
Lemma live_mono idle t now e : t <= now -> Abstract.live idle now e = true -> Abstract.live idle t e = true.
Proof. rewrite !live_iff. lia. Qed.

Lemma simulates_mono t now s a : t <= now -> simulates t s a -> simulates now s a.
Proof. intros Ht []. split; eauto using live_mono. Qed.

(** The cleanup inside a validation is invisible to the abstract store. *)
Lemma cleanup_simulates now inst s a :
  simulates now s a ->
  exists s1, cleanup_if_needed s inst now = (Ok tt, s1) /\ simulates now s1 a.
Proof.
  intros [Hl Hi Hp1 Hp2 Hlive]. unfold cleanup_if_needed. rewrite Hp2.
  destruct (inst <? next_cleanup s); [by eexists|]. simpl. rewrite Hp1.
  eexists. split; [done|]. split; simpl; try done.
  intros token e He. rewrite <- Hlive by done. rewrite map_lookup_filter_Some. simpl.
  rewrite retained_live. simpl. tauto.
Qed.

(** A change of one key on both sides. *)
Lemma simulates_change now s a m m' :
  simulates now s a ->
  (forall token e, Abstract.live (idle_timeout s) now e = true ->
     m !! token = Some e <-> m' !! token = Some e) ->
  simulates now (set_sessions s m) (Abstract.mkAbs (Abstract.a_lifetime a) (Abstract.a_idle a) m').
Proof. intros [] H. by split. Qed.

Lemma simulates_update now s a token o :
  simulates now s a ->
  simulates now (set_sessions s (partial_alter (λ _, o) token (sessions s)))
    (Abstract.mkAbs (Abstract.a_lifetime a) (Abstract.a_idle a)
       (partial_alter (λ _, o) token (Abstract.a_sessions a))).
Proof.
  intros Hs. apply simulates_change; [done|]. intros token' e He.
  rewrite !lookup_partial_alter. case_decide; [done|]. by apply Hs.
Qed.

(** Removing a session that is dead anyway. *)
Lemma simulates_drop_dead now s a token e :
  simulates now s a -> sessions s !! token = Some e ->
  Abstract.live (idle_timeout s) now e = false ->
  simulates now (set_sessions s (delete token (sessions s))) a.
Proof.
  intros Hs He Hd. destruct a as [l i m]. apply (simulates_change _ _ (Abstract.mkAbs l i m) _ m Hs).
  intros token' e' He'. rewrite lookup_delete_Some.
  rewrite <- (sim_live _ _ _ Hs token' e' He').
  split; [by intros [_ ?]|]. intros Hin. split; [intros ->; congruence|done].
Qed.

Lemma validate_simulates now inst s a token :
  simulates now s a ->
  (run_op s (OValidate token) inst now).1 = (Abstract.validate a token now).1
  /\ simulates now (run_op s (OValidate token) inst now).2 (Abstract.validate a token now).2.
Proof.
  intros Hs. simpl. unfold validate.
  destruct (cleanup_simulates now inst s a Hs) as (s1 & -> & Hs1).
  rewrite (sim_p1 _ _ _ Hs1). unfold Abstract.validate.
  destruct (sessions s1 !! token) as [e|] eqn:He.
  - destruct (Abstract.live (idle_timeout s1) now e) eqn:Hlv.
    + rewrite (proj1 (sim_live _ _ _ Hs1 token e Hlv) He), (sim_idle _ _ _ Hs1), Hlv.
      apply live_iff in Hlv as [H1 H2]. rewrite (proj2 (Z.leb_gt _ _) H1), (proj2 (Z.ltb_ge _ _) H2).
      split; [done|]. rewrite <- (sim_idle _ _ _ Hs1). by apply simulates_update.
    + assert (Hnone : match Abstract.a_sessions a !! token with
                      | Some e' => Abstract.live (Abstract.a_idle a) now e' = false
                      | None => True end).
      { destruct (Abstract.a_sessions a !! token) as [e'|] eqn:He'; [|done].
        apply not_true_iff_false. intros Hlv'. rewrite (sim_idle _ _ _ Hs1) in Hlv'.
        rewrite <- (sim_live _ _ _ Hs1 token e' Hlv') in He'. congruence. }
      pose proof (simulates_drop_dead _ _ _ _ _ Hs1 He Hlv) as Hdrop.
      apply not_true_iff_false in Hlv. rewrite live_iff in Hlv.
      destruct (Z.leb_spec (expires_at e) now); [|destruct (Z.ltb_spec (idle_timeout s1) (now - last_activity e)); [|lia]];
        (destruct (Abstract.a_sessions a !! token) as [e'|]; [rewrite Hnone|]; done).
  - destruct (Abstract.a_sessions a !! token) as [e'|] eqn:He'; [|done].
    destruct (Abstract.live (Abstract.a_idle a) now e') eqn:Hlv; [|done].
    rewrite (sim_idle _ _ _ Hs1) in Hlv. apply (sim_live _ _ _ Hs1 token e' Hlv) in He'. congruence.
Qed.

Lemma op_simulates now inst s a o :
  simulates now s a ->
  (run_op s o inst now).1 = (run_abs a o now).1
  /\ simulates now (run_op s o inst now).2 (run_abs a o now).2.
Proof.
  intros Hs. destruct o as [user r token|token|token].
  - simpl. split; [done|]. unfold create_session, Abstract.create. rewrite (sim_p1 _ _ _ Hs).
    rewrite <- (sim_lifetime _ _ _ Hs). by apply simulates_update.
  - by apply validate_simulates.
  - simpl. split; [done|]. unfold revoke, Abstract.revoke. rewrite (sim_p1 _ _ _ Hs).
    destruct (sessions s !! token) as [e|] eqn:He; simpl; [by apply simulates_update|].
    replace s with (set_sessions s (delete token (sessions s))); [by apply simulates_update|].
    rewrite delete_id by done. by destruct s.
Qed.

Lemma ops_simulate os t s a :
  simulates t s a -> clock_ok t os -> run_ops s os = run_abs_ops a os.
Proof.
  revert t s a. induction os as [|[[o inst] now] os IH]; intros t s a Hs Hc; [done|].
  destruct Hc as [Ht Hc]. simpl.
  destruct (op_simulates now inst s a o) as [Hr Hs']; [by eapply simulates_mono|].
  destruct (run_op s o inst now) as [r s'], (run_abs a o now) as [r' a']. simpl in *.
  rewrite Hr. f_equal. by eapply IH.
Qed.

Definition abs_of (s : SessionStore) : Abstract.store :=
  Abstract.mkAbs (lifetime s) (idle_timeout s) (sessions s).

Lemma abs_of_simulates t s :
  sessions_poisoned s = false -> schedule_poisoned s = false -> simulates t s (abs_of s).
Proof. by split. Qed.

(** ** Properties *)

(** C35: for any sequence of calls on a non-decreasing clock, the store with
    its cleanup and its removal of dead sessions accepts the same validations,
    with the same session, as the abstract store that never forgets: cleanup
    loses no live session, and no dead or revoked session is accepted.  What
    [create_session] and [revoke] answer and the kind of a refusal are not
    compared. *)
Theorem session_store_refines s os t :
  sessions_poisoned s = false -> schedule_poisoned s = false -> clock_ok t os ->
  run_ops s os = run_abs_ops (abs_of s) os.
Proof. intros. eapply ops_simulate; eauto using abs_of_simulates. Qed.

Definition demo_ops : list (op * Z * Z) :=
  [(OCreate "alice" Operator "tok", 0, 0); (OValidate "tok", 5, 5);
   (OValidate "tok", ServiceTokens.seconds 700, ServiceTokens.seconds 700);
   (ORevoke "tok", ServiceTokens.seconds 701, ServiceTokens.seconds 701)].
Definition demo_sessions := new (mkSection 3600 600 60) 0.

Lemma session_store_refines_witness :
  run_ops demo_sessions demo_ops = run_abs_ops (abs_of demo_sessions) demo_ops
  /\ run_ops demo_sessions demo_ops
     = [None; Some (mkSession "tok" "alice" Operator 0 (ServiceTokens.seconds 3600) 5); None; None].
Proof.
  split; [|vm_compute; reflexivity].
  apply (session_store_refines demo_sessions demo_ops 0); [reflexivity | reflexivity |].
  vm_compute. repeat split; discriminate.
Defined.
