(* ===== verification/Identity.v ===== *)
(** * The identity authority ([security/identity/authority.rs], [jwt.rs],
    [store.rs], [any_store.rs], [types.rs])

    Users, the signing key and the signed tokens of the embedded identity
    provider.  Signatures, base64, JSON, SHA-256 and the password hash are
    classes; a text is signed as its UTF-8 bytes.  Times are nanoseconds of
    [OffsetDateTime]; adding past its range panics ([None]). *)

From S2P Require Import Prelude Text Roles.
#[local] Open Scope fenrir_scope.

(** ** Time *)

Definition MIN_TIMESTAMP : Z := -377705116800.
Definition MAX_TIMESTAMP : Z := 253402300799.
Definition NANOS : Z := 1000000000.
Definition unix_timestamp (t : Z) : Z := t / NANOS.
Definition time_ok (t : Z) : bool := (MIN_TIMESTAMP * NANOS <=? t) && (t <? (MAX_TIMESTAMP + 1) * NANOS).
Definition add_seconds (t s : Z) : option Z := let r := t + s * NANOS in if time_ok r then Some r else None.
Definition from_unix_timestamp (s : Z) : option Z := if (MIN_TIMESTAMP <=? s) && (s <=? MAX_TIMESTAMP) then Some (s * NANOS) else None.

(** ** Data *)

Inductive IdentityError :=
| Io
| Serde
| IdDb (m : string)
| Invalid (m : string)
| Unauthorized (m : string)
| PasswordNotSet (user_id : text).

Record IdentityKeyMaterial := mkKey { key_id : text; key_created_at : Z; secret_key : list Z; public_key : list Z }.
Record IdentityTokenRecord := mkTokenRecord { token_id : text; fingerprint : text; issued_at : Z; expires_at : Z; tok_key_id : text }.
Record IdentityUserRecord := mkUser {
  user_id : text;
  display_name : option text;
  role : Role;
  created_at : Z;
  last_issued_at : option Z;
  token_count : Z;
  last_token_fingerprint : option text;
  tokens : list IdentityTokenRecord;
  password_hash : option text;
  password_updated_at : option Z;
  last_login_at : option Z;
}.
Record IdentityState := mkState {
  environment : text;
  instance_id : text;
  app_version : text;
  current_key : IdentityKeyMaterial;
  users : gmap text IdentityUserRecord;
}.

Record RawHeader := mkHeader { alg : text; typ : text; kid : text }.
Record RawClaims := mkClaims {
  iss : text; aud : text; sub : text; env : text; inst : text; c_role : text; ver : text; iat : Z; exp : Z; jti : text;
}.

Record IssueTokenRequest := mkIssue { req_user_id : text; req_display_name : option text; req_role : Role }.
Record IssuedToken := mkIssued {
  it_token : text; it_issued_at : Z; it_expires_at : Z; it_user_id : text; it_key_id : text; it_fingerprint : text; it_token_id : text;
}.
Record IdentityClaims := mkIdClaims {
  ic_user_id : text; ic_role : Role; ic_environment : text; ic_instance_id : text; ic_app_version : text;
  ic_issued_at : Z; ic_expires_at : Z; ic_key_id : text; ic_token_id : text;
}.
Record IdentityUserProfile := mkProfile {
  up_user_id : text; up_display_name : option text; up_role : Role; up_password_updated_at : option Z; up_last_login_at : option Z;
}.

(** ** Libraries *)

Class IdentityCrypto := {
  public_of : list Z -> list Z;
  valid_public : list Z -> bool;
  sign : list Z -> text -> list Z;
  sig_verify : list Z -> text -> list Z -> bool;
  b64 : list Z -> text;
  unb64 : text -> option (list Z);
  header_json : RawHeader -> list Z;
  header_of : list Z -> option (text * text);
  claims_json : RawClaims -> list Z;
  claims_of : list Z -> option RawClaims;
  sha256 : text -> list Z;
  parse_hash : text -> bool;
  verify_password : text -> text -> bool;
}.
Class IdentityCryptoLaws (C : IdentityCrypto) : Prop := {
  public_of_valid : forall sk, valid_public (public_of sk) = true;
  sign_verifies : forall sk m, sig_verify (public_of sk) m (sign sk m) = true;
  sign_length : forall sk m, length (sign sk m) = 64%nat;
  b64_roundtrip : forall l, unb64 (b64 l) = Some l;
  b64_no_dot : forall l, 46 ∉ b64 l;
  header_roundtrip : forall h, header_of (header_json h) = Some (alg h, kid h);
  claims_roundtrip : forall c, claims_of (claims_json c) = Some c;
}.

(** The file of the store: absent, not readable as a store, or a document. *)
Inductive StoreFile (P : Type) := Missing | Garbage | Doc (p : P).
Arguments Missing {P}.
Arguments Garbage {P}.
Arguments Doc {P} p.

Section Authority.
Context `{C : IdentityCrypto}.

(** ** Tokens *)

Definition keypair (k : IdentityKeyMaterial) : result (list Z) IdentityError :=
  if bool_decide (public_of (secret_key k) = public_key k) then Ok (secret_key k) else Err (Invalid "stored key material invalid").
Definition verifying_key (k : IdentityKeyMaterial) : result (list Z) IdentityError :=
  if valid_public (public_key k) then Ok (public_key k) else Err (Invalid "stored public key invalid").

Definition signing_input (k : IdentityKeyMaterial) (c : RawClaims) : text :=
  b64 (header_json (mkHeader (lit "EdDSA") (lit "JWT") (key_id k))) ++ [46] ++ b64 (claims_json c).

Definition encode_jwt (k : IdentityKeyMaterial) (c : RawClaims) : result text IdentityError :=
  let input := signing_input k c in
  sk <-? keypair k ;; Ok (input ++ [46] ++ b64 (sign sk input)).

Definition fingerprint_token (token : text) : text := b64 (sha256 token).

Record ParsedJwt := mkParsed { encoded_header : text; p_alg : text; p_kid : text; encoded_claims : text; decoded : list Z; signature : list Z }.

Definition parse_jwt (token : text) : result ParsedJwt IdentityError :=
  match split 46 token with
  | [h; c; s] =>
      hb <-? ok_or (unb64 h) (Unauthorized "invalid token header encoding") ;;
      ho <-? ok_or (header_of hb) (Unauthorized "invalid token header payload") ;;
      cb <-? ok_or (unb64 c) (Unauthorized "invalid token claims encoding") ;;
      sb <-? ok_or (unb64 s) (Unauthorized "invalid signature encoding") ;;
      if (length sb =? 64)%nat then Ok (mkParsed h ho.1 ho.2 c cb sb) else Err (Unauthorized "invalid signature length")
  | [] => Err (Unauthorized "invalid token: missing header")
  | [_] => Err (Unauthorized "invalid token: missing claims")
  | [_; _] => Err (Unauthorized "invalid token: missing signature")
  | _ => Err (Unauthorized "invalid token: too many segments")
  end.

(** ** The store *)

Record PersistedIdentityKey := mkPKey { pk_key_id : text; pk_created_at : Z; pk_secret : text; pk_public : text }.
(** A persisted user is the record with its role as text. *)
Record PersistedIdentityUser := mkPUser { pu_record : IdentityUserRecord; pu_role : text }.
Record PersistedIdentityState := mkPState {
  version : Z; ps_environment : text; ps_instance_id : text; ps_app_version : text; ps_key : PersistedIdentityKey; ps_users : list PersistedIdentityUser;
}.
Definition STORE_VERSION : Z := 1.

Definition persisted_key (k : IdentityKeyMaterial) : PersistedIdentityKey := mkPKey (key_id k) (key_created_at k) (b64 (secret_key k)) (b64 (public_key k)).
Definition persisted_user (u : IdentityUserRecord) : PersistedIdentityUser := mkPUser u (Role.as_str (role u)).
(** [BTreeMap::into_values]: the records in some fixed order of the keys. *)
Definition persisted_state (s : IdentityState) : PersistedIdentityState :=
  mkPState STORE_VERSION (environment s) (instance_id s) (app_version s) (persisted_key (current_key s)) (persisted_user <$> (map_to_list (users s)).*2).

Definition decode_key_component (e : text) : result (list Z) IdentityError :=
  match unb64 e with
  | None => Err (Invalid "invalid base64")
  | Some b => if (length b =? 32)%nat then Ok b else Err (Invalid "unexpected key length in identity store")
  end.
Definition load_key (p : PersistedIdentityKey) : result IdentityKeyMaterial IdentityError :=
  sk <-? decode_key_component (pk_secret p) ;; pk <-? decode_key_component (pk_public p) ;; Ok (mkKey (pk_key_id p) (pk_created_at p) sk pk).
Definition load_user (p : PersistedIdentityUser) : result IdentityUserRecord IdentityError :=
  match Role.from_str (pu_role p) with
  | Err _ => Err (Invalid "unknown role in identity store")
  | Ok r => let u := pu_record p in
      Ok (mkUser (user_id u) (display_name u) r (created_at u) (last_issued_at u) (token_count u) (last_token_fingerprint u) (tokens u)
            (password_hash u) (password_updated_at u) (last_login_at u))
  end.
Fixpoint load_users (l : list PersistedIdentityUser) : result (gmap text IdentityUserRecord) IdentityError :=
  match l with
  | [] => Ok ∅
  | p :: l => u <-? load_user p ;; m <-? load_users l ;; Ok (match m !! user_id u with Some _ => m | None => <[user_id u := u]> m end)
  end.

Record IdentityStore := mkStore { file : StoreFile PersistedIdentityState; state : IdentityState }.

(** A fresh key, as the random generator and the clock give it. *)
Record FreshKey := mkFresh { fresh_secret : list Z; fresh_uuid : text; fresh_time : Z }.

(** [persist_state]: a temporary file is written and renamed, so a failed
    step ([ok] is false) leaves the file. *)
Definition persist_state (ok : bool) (s : IdentityStore) : IdentityStore * result unit IdentityError :=
  if ok then (mkStore (Doc (persisted_state (state s))) (state s), Ok tt) else (s, Err Io).

Definition load_or_initialize (ok : bool) (fresh : FreshKey) (f : StoreFile PersistedIdentityState) (e i v : text) : result IdentityStore IdentityError :=
  s <-? match f with
        | Garbage => Err Serde
        | Doc p =>
            if negb (version p =? STORE_VERSION) then Err (Invalid "unsupported identity store version")
            else if negb (bool_decide (ps_environment p = e)) then Err (Invalid "identity store environment mismatch")
            else if negb (bool_decide (ps_instance_id p = i)) then Err (Invalid "identity store instance mismatch")
            else k <-? load_key (ps_key p) ;; us <-? load_users (ps_users p) ;; Ok (mkState e i v k us)
        | Missing => Ok (mkState e i v (mkKey (lit "kid-" ++ fresh_uuid fresh) (fresh_time fresh) (fresh_secret fresh) (public_of (fresh_secret fresh))) ∅)
        end ;;
  let (st, r) := persist_state ok (mkStore f s) in _ <-? r ;; Ok st.

(** [write]: the change stays in memory also when it or the file fails. *)
Definition write {R} (ok : bool) (writer : IdentityState -> IdentityState * result R IdentityError) (s : IdentityStore) : IdentityStore * result R IdentityError :=
  match writer (state s) with
  | (st, Err e) => (mkStore (file s) st, Err e)
  | (st, Ok v) => let (s', r) := persist_state ok (mkStore (file s) st) in (s', _ <-? r ;; Ok v)
  end.

Definition set_users (m : gmap text IdentityUserRecord) (s : IdentityState) : IdentityState :=
  mkState (environment s) (instance_id s) (app_version s) (current_key s) m.

Definition store_set_password (ok : bool) (now : Z) (u hash : text) (r : Role) (s : IdentityStore) : IdentityStore * result unit IdentityError :=
  write ok (λ st,
    let user := match users st !! u with
      | Some x => mkUser (user_id x) (display_name x) (role x) (created_at x) (last_issued_at x) (token_count x) (last_token_fingerprint x) (tokens x)
                    (Some hash) (Some now) (last_login_at x)
      | None => mkUser u (Some u) r now None 0 None [] (Some hash) (Some now) None
      end in (set_users (<[u := user]> (users st)) st, Ok tt)) s.

Definition store_record_login (ok : bool) (now : Z) (u : text) (s : IdentityStore) : IdentityStore * result unit IdentityError :=
  write ok (λ st,
    match users st !! u with
    | Some x => (set_users (<[u := mkUser (user_id x) (display_name x) (role x) (created_at x) (last_issued_at x) (token_count x) (last_token_fingerprint x)
                    (tokens x) (password_hash x) (password_updated_at x) (Some now)]> (users st)) st, Ok tt)
    | None => (st, Ok tt)
    end) s.

Definition store_is_password_set (u : text) (s : IdentityStore) : bool :=
  match users (state s) !! u with Some x => match password_hash x with Some _ => true | None => false end | None => false end.

(** ** Both kinds of storage

    The database keeps its own copy: [D] with what its queries answer. *)

Class DbIdentity (D : Type) := {
  db_load_state : D -> result IdentityState IdentityError;
  db_get_user : D -> text -> result (option IdentityUserRecord) IdentityError;
  db_record_login : D -> Z -> text -> D * result unit IdentityError;
  db_set_password : D -> Z -> text -> text -> Role -> D * result unit IdentityError;
}.

Section AnyStore.
Context {D : Type} `{!DbIdentity D}.

Inductive AnyIdentityStore := File (s : IdentityStore) | Db (d : D).

Definition any_read {R} (reader : IdentityState -> R) (a : AnyIdentityStore) : result R IdentityError :=
  match a with
  | File s => Ok (reader (state s))
  | Db d => st <-? db_load_state d ;; Ok (reader st)
  end.

(** For the database the writer changes the loaded copy. *)
Definition any_write {R} (ok : bool) (writer : IdentityState -> IdentityState * result R IdentityError) (a : AnyIdentityStore)
    : AnyIdentityStore * result R IdentityError :=
  match a with
  | File s => let (s, r) := write ok writer s in (File s, r)
  | Db d => (Db d, st <-? db_load_state d ;; (writer st).2)
  end.

Definition any_get_user (u : text) (a : AnyIdentityStore) : result (option IdentityUserRecord) IdentityError :=
  match a with File s => Ok (users (state s) !! u) | Db d => db_get_user d u end.
Definition any_record_login (ok : bool) (now : Z) (u : text) (a : AnyIdentityStore) : AnyIdentityStore * result unit IdentityError :=
  match a with
  | File s => let (s, r) := store_record_login ok now u s in (File s, r)
  | Db d => let (d, r) := db_record_login d now u in (Db d, r)
  end.
Definition any_set_password (ok : bool) (now : Z) (u hash : text) (r : Role) (a : AnyIdentityStore) : AnyIdentityStore * result unit IdentityError :=
  match a with
  | File s => let (s, r) := store_set_password ok now u hash r s in (File s, r)
  | Db d => let (d, r) := db_set_password d now u hash r in (Db d, r)
  end.

(** ** The authority *)

Record IdentityAuthority := mkAuthority {
  a_environment : text; a_instance_id : text; issuer : text; audience : text; a_app_version : text; exp_seconds : Z; store : AnyIdentityStore;
}.
Definition set_store (s : AnyIdentityStore) (a : IdentityAuthority) : IdentityAuthority :=
  mkAuthority (a_environment a) (a_instance_id a) (issuer a) (audience a) (a_app_version a) (exp_seconds a) s.
Definition MAX_TOKENS_PER_USER : nat := 20.

Definition bootstrap (e i aud v : text) (exps : Z) (s : AnyIdentityStore) : IdentityAuthority :=
  mkAuthority e i (lit "urn:fenrir:" ++ e ++ [58] ++ i) aud v exps s.

Definition new_user (u : text) (name : option text) (r : Role) (now : Z) : IdentityUserRecord :=
  mkUser u name r now None 0 None [] None None None.

(** The record before the token is signed. *)
Definition touch_user (r : IssueTokenRequest) (now : Z) (x : IdentityUserRecord) : IdentityUserRecord :=
  mkUser (user_id x)
    (match trim <$> req_display_name r with Some (c :: n) => Some (c :: n) | _ => display_name x end)
    (req_role r) (created_at x) (Some now) (u64_saturating_add (token_count x) 1) (last_token_fingerprint x) (tokens x)
    (password_hash x) (password_updated_at x) (last_login_at x).
Definition add_token (t : IdentityTokenRecord) (x : IdentityUserRecord) : IdentityUserRecord :=
  mkUser (user_id x) (display_name x) (role x) (created_at x) (last_issued_at x) (token_count x) (Some (fingerprint t))
    (take MAX_TOKENS_PER_USER (t :: tokens x)) (password_hash x) (password_updated_at x) (last_login_at x).

Definition claims_for (a : IdentityAuthority) (r : IssueTokenRequest) (now expires : Z) (uuid : text) : RawClaims :=
  mkClaims (issuer a) (audience a) (req_user_id r) (a_environment a) (a_instance_id a) (Role.as_str (req_role r)) (a_app_version a)
    (unix_timestamp now) (unix_timestamp expires) uuid.

(** The closure [issue_token] gives to [write]. *)
Definition issue_writer (a : IdentityAuthority) (r : IssueTokenRequest) (now expires : Z) (uuid : text) (st : IdentityState)
    : IdentityState * result IssuedToken IdentityError :=
  let u := req_user_id r in
  let key := current_key st in
  let x := touch_user r now (default (new_user u (req_display_name r) (req_role r) now) (users st !! u)) in
  match encode_jwt key (claims_for a r now expires uuid) with
  | Err e => (set_users (<[u := x]> (users st)) st, Err e)
  | Ok token =>
      let fp := fingerprint_token token in
      (set_users (<[u := add_token (mkTokenRecord uuid fp now expires (key_id key)) x]> (users st)) st,
       Ok (mkIssued token now expires u (key_id key) fp uuid))
  end.

(** [None]: the expiry is past the last date and the call panics. *)
Definition issue_token (ok : bool) (now : Z) (uuid : text) (r : IssueTokenRequest) (a : IdentityAuthority)
    : option (IdentityAuthority * result IssuedToken IdentityError) :=
  let ttl := if exp_seconds a <=? i64_max then exp_seconds a else i64_max in
  expires ← add_seconds now ttl;
  let (s, res) := any_write ok (issue_writer a r now expires uuid) (store a) in Some (set_store s a, res).

Definition verify (now : Z) (token : text) (a : IdentityAuthority) : result IdentityClaims IdentityError :=
  p <-? parse_jwt token ;;
  if negb (bool_decide (p_alg p = lit "EdDSA")) then Err (Unauthorized "unsupported signing algorithm")
  else
    st <-? any_read (λ st, st) (store a) ;;
    if negb (bool_decide (p_kid p = key_id (current_key st))) then Err (Unauthorized "unknown signing key")
    else
      vk <-? verifying_key (current_key st) ;;
      if negb (sig_verify vk (encoded_header p ++ [46] ++ encoded_claims p) (signature p)) then Err (Unauthorized "signature verification failed")
      else
        c <-? ok_or (claims_of (decoded p)) (Unauthorized "invalid token claims payload") ;;
        if negb (bool_decide (iss c = issuer a)) then Err (Unauthorized "issuer mismatch")
        else if negb (bool_decide (aud c = audience a)) then Err (Unauthorized "audience mismatch")
        else if negb (bool_decide (env c = a_environment a)) then Err (Unauthorized "environment mismatch")
        else if exp c <=? unix_timestamp now then Err (Unauthorized "token expired")
        else
          r <-? map_err (λ _, Unauthorized "unknown role claim") (Role.from_str (c_role c)) ;;
          i <-? ok_or (from_unix_timestamp (iat c)) (Invalid "invalid issued-at timestamp") ;;
          e <-? ok_or (from_unix_timestamp (exp c)) (Invalid "invalid expiry timestamp") ;;
          Ok (mkIdClaims (sub c) r (env c) (inst c) (ver c) i e (p_kid p) (jti c)).

Definition list_users (a : IdentityAuthority) : result (list IdentityUserRecord) IdentityError :=
  any_read (λ st, (λ x, mkUser (user_id x) (display_name x) (role x) (created_at x) (last_issued_at x) (token_count x) (last_token_fingerprint x)
                          (tokens x) None (password_updated_at x) (last_login_at x)) <$> (map_to_list (users st)).*2) (store a).

Definition authenticate_user (ok : bool) (now : Z) (u password : text) (a : IdentityAuthority) : IdentityAuthority * result IdentityUserProfile IdentityError :=
  match any_get_user u (store a) with
  | Err e => (a, Err e)
  | Ok None => (a, Err (PasswordNotSet u))
  | Ok (Some x) =>
      match password_hash x with
      | None => (a, Err (PasswordNotSet u))
      | Some hash =>
          if negb (parse_hash hash) then (a, Err (Invalid "invalid password hash format"))
          else if negb (verify_password password hash) then (a, Err (Unauthorized "invalid credentials"))
          else (set_store (any_record_login ok now u (store a)).1 a,
                Ok (mkProfile (user_id x) (display_name x) (role x) (password_updated_at x) (last_login_at x)))
      end
  end.

Definition set_user_password (ok : bool) (now : Z) (u hash : text) (r : Role) (a : IdentityAuthority) : IdentityAuthority * result unit IdentityError :=
  let (s, res) := any_set_password ok now u hash r (store a) in (set_store s a, res).
End AnyStore.
End Authority.
