(* ===== verification/IdentitySafety.v ===== *)
(** * What identity tokens promise

    Theorems about [Identity]: an issued token verifies until it expires, an
    accepted one was issued, the store survives a restart, and who can log
    in. *)

From S2P Require Import Prelude Text Roles Identity.
#[local] Open Scope fenrir_scope.

Lemma role_roundtrip r : Role.from_str (Role.as_str r) = Ok r.
Proof. destruct r; vm_compute; reflexivity. Qed.

Lemma unix_timestamp_le a b : a <= b -> unix_timestamp a <= unix_timestamp b.
Proof. intros H. unfold unix_timestamp. apply Z.div_le_mono; [done|lia]. Qed.

Lemma from_unix_timestamp_ok t : time_ok t = true -> from_unix_timestamp (unix_timestamp t) = Some (unix_timestamp t * NANOS).
Proof.
  unfold time_ok, from_unix_timestamp, unix_timestamp. rewrite andb_true_iff, Z.leb_le, Z.ltb_lt. intros [H1 H2].
  assert (MIN_TIMESTAMP <= t / NANOS <= MAX_TIMESTAMP) as [E1 E2]; [|by rewrite (proj2 (Z.leb_le _ _) E1), (proj2 (Z.leb_le _ _) E2)].
  split; [apply Z.div_le_lower_bound; [done|lia]|]. assert (t / NANOS < MAX_TIMESTAMP + 1); [|lia]. apply Z.div_lt_upper_bound; [done|lia].
Qed.

Lemma add_seconds_some t s r : add_seconds t s = Some r -> time_ok r = true /\ r = t + s * NANOS.
Proof. unfold add_seconds. cbv zeta. destruct (time_ok _) eqn:E; [|done]. intros [= <-]. done. Qed.

Section Tokens.
Context `{C : IdentityCrypto} {L : IdentityCryptoLaws C}.

Lemma signing_input_split k c s : split 46 (signing_input k c ++ [46] ++ b64 s)
  = [b64 (header_json (mkHeader (lit "EdDSA") (lit "JWT") (key_id k))); b64 (claims_json c); b64 s].
Proof.
  unfold signing_input. rewrite <- !app_assoc. cbn [app]. rewrite split_app_sep, split_app_sep, split_no_sep by apply b64_no_dot. done.
Qed.

Lemma signing_input_of_parts k c s h cl s' : split 46 (signing_input k c ++ [46] ++ b64 s) = [h; cl; s'] -> h ++ [46] ++ cl = signing_input k c.
Proof. rewrite signing_input_split. by intros [= <- <- _]. Qed.

Lemma parse_encoded k c s : length s = 64%nat -> parse_jwt (signing_input k c ++ [46] ++ b64 s) =
  Ok (mkParsed (b64 (header_json (mkHeader (lit "EdDSA") (lit "JWT") (key_id k)))) (lit "EdDSA") (key_id k) (b64 (claims_json c)) (claims_json c) s).
Proof.
  intros Hs. unfold parse_jwt. rewrite signing_input_split, !b64_roundtrip. cbn [ok_or result_bind]. rewrite header_roundtrip. cbn. by rewrite Hs.
Qed.

(** The parts of an accepted token are read back from it. *)
Lemma parse_parts token p : parse_jwt token = Ok p ->
  exists s, split 46 token = [encoded_header p; encoded_claims p; s] /\ unb64 (encoded_claims p) = Some (decoded p) /\
  exists hb, unb64 (encoded_header p) = Some hb /\ header_of hb = Some (p_alg p, p_kid p).
Proof.
  unfold parse_jwt. destruct (split 46 token) as [|h [|c [|s [|? ?]]]]; try done. destruct (unb64 h) as [hb|] eqn:Eh; [|done]. cbn.
  destruct (header_of hb) as [[al kd]|] eqn:Eho; [|done]. cbn. destruct (unb64 c) as [cb|] eqn:Ec; [|done]. cbn. destruct (unb64 s) as [sb|]; [|done]. cbn.
  destruct (length sb =? 64)%nat; [|done]. intros [= <-]. cbn. eauto 10.
Qed.

Section Authority.
Context {D : Type} `{!DbIdentity D}.

Lemma any_write_key (ok : bool) (a : IdentityAuthority (D:=D)) r now expires uuid (s s' : AnyIdentityStore (D:=D)) it :
  any_write ok (issue_writer a r now expires uuid) s = (s', Ok it) ->
  exists st st', any_read (λ st, st) s = Ok st /\ any_read (λ st, st) s' = Ok st' /\ current_key st' = current_key st /\
  encode_jwt (current_key st) (claims_for a r now expires uuid) = Ok (it_token it).
Proof.
  destruct s as [fs|d]; cbn.
  - unfold write, issue_writer. destruct (encode_jwt _ _) as [token|] eqn:Ee; [|by intros [=]]. destruct ok; cbn; [|by intros [=]].
    intros [= <- <-]. eexists _, _. split_and!; cbn; done.
  - destruct (db_load_state d) as [st|] eqn:El; cbn; [|by intros [=]]. unfold issue_writer. destruct (encode_jwt _ _) as [token|] eqn:Ee; cbn; [|by intros [=]].
    intros [= <- <-]. exists st, st. cbn. rewrite El. cbn. auto.
Qed.

Lemma encode_jwt_ok k c token : encode_jwt k c = Ok token ->
  public_of (secret_key k) = public_key k /\ token = signing_input k c ++ [46] ++ b64 (sign (secret_key k) (signing_input k c)).
Proof. unfold encode_jwt, keypair. case_bool_decide as H; cbn; [|done]. by intros [= <-]. Qed.

(** C27: A token the authority issues is accepted by it until it expires, as the
    user, role and environment it was issued for, with either storage. *)
Theorem issued_token_verifies ok now uuid r (a a' : IdentityAuthority (D:=D)) it now' :
  issue_token ok now uuid r a = Some (a', Ok it) -> time_ok now = true -> unix_timestamp now' < unix_timestamp (it_expires_at it) ->
  verify now' (it_token it) a' =
    Ok (mkIdClaims (req_user_id r) (req_role r) (a_environment a) (a_instance_id a) (a_app_version a)
          (unix_timestamp now * NANOS) (unix_timestamp (it_expires_at it) * NANOS) (it_key_id it) uuid).
Proof.
  unfold issue_token. intros Hissue Hnow Hexp. destruct (add_seconds now _) as [expires|] eqn:Ea; [|done]. cbn in Hissue.
  apply add_seconds_some in Ea as [Hexpok _]. destruct (any_write ok _ (store a)) as [s' res] eqn:Ew. injection Hissue as <- ->.
  pose proof (any_write_key _ _ _ _ _ _ _ _ _ Ew) as (st & st' & Hst & Hst' & Hkey & Henc). apply encode_jwt_ok in Henc as [Hpub Htok].
  assert (Hit : it_expires_at it = expires /\ it_key_id it = key_id (current_key st)).
  { destruct (store a) as [fs|d]; cbn in Ew, Hst.
    - injection Hst as <-. unfold write, issue_writer in Ew. destruct (encode_jwt _ _); [|by injection Ew]. destruct ok; cbn in Ew; [|by injection Ew]. by injection Ew as _ <-.
    - destruct (db_load_state d) as [st0|]; [|done]. injection Hst as <-. cbn in Ew. unfold issue_writer in Ew. destruct (encode_jwt _ _); cbn in Ew; [|by injection Ew]. by injection Ew as _ <-. }
  destruct Hit as [He Hk]. rewrite He in *. unfold verify. rewrite Htok, parse_encoded by apply sign_length. cbn [result_bind].
  rewrite bool_decide_eq_true_2 by done. cbn [negb store set_store]. rewrite Hst'. cbn [result_bind]. rewrite Hkey, bool_decide_eq_true_2 by done. cbn [negb].
  unfold verifying_key. rewrite <- Hpub, public_of_valid. cbn [result_bind encoded_header encoded_claims signature]. fold (signing_input (current_key st) (claims_for a r now expires uuid)).
  rewrite sign_verifies. cbn [negb decoded]. rewrite claims_roundtrip. cbn. rewrite !bool_decide_eq_true_2 by done. cbn.
  rewrite (proj2 (Z.leb_gt _ _)) by done. rewrite role_roundtrip. cbn. rewrite !from_unix_timestamp_ok by done. cbn. by rewrite Hk.
Qed.

(** ** Accepted tokens *)

(** What [verify] has checked of an accepted token. *)
Lemma verify_ok now token (a : IdentityAuthority (D:=D)) c : verify now token a = Ok c ->
  exists p st raw, parse_jwt token = Ok p /\ any_read (λ st, st) (store a) = Ok st /\ p_kid p = key_id (current_key st) /\
  sig_verify (public_key (current_key st)) (encoded_header p ++ [46] ++ encoded_claims p) (signature p) = true /\
  claims_of (decoded p) = Some raw /\ iss raw = issuer a /\ aud raw = audience a /\ env raw = a_environment a /\ unix_timestamp now < exp raw /\
  Role.from_str (c_role raw) = Ok (ic_role c) /\ ic_user_id c = sub raw /\ ic_environment c = env raw /\ ic_token_id c = jti raw /\ ic_key_id c = p_kid p /\
  ic_instance_id c = inst raw.
Proof.
  unfold verify. destruct (parse_jwt token) as [p|]; [|done]. cbn. case_bool_decide; [|done]. cbn. destruct (any_read _ _) as [st|]; [|done]. cbn.
  case_bool_decide as Hkid; [|done]. cbn. unfold verifying_key. destruct (valid_public _); [|done]. cbn. destruct (sig_verify _ _ _) eqn:Hsig; [|done]. cbn.
  destruct (claims_of (decoded p)) as [raw|] eqn:Hraw; [|done]. cbn. case_bool_decide; [|done]. case_bool_decide; [|done]. case_bool_decide; [|done]. cbn.
  destruct (exp raw <=? unix_timestamp now) eqn:Hexp; [done|]. apply Z.leb_gt in Hexp. destruct (Role.from_str (c_role raw)) as [r|] eqn:Hr; [|done]. cbn.
  destruct (from_unix_timestamp (iat raw)); [|done]. cbn. destruct (from_unix_timestamp (exp raw)); [|done]. cbn. intros [= <-]. exists p, st, raw. by split_and!.
Qed.

(** An issue of the authority, and the message it signed. *)
Record Issue := mkIssueEvent { is_request : IssueTokenRequest; is_now : Z; is_expires : Z; is_uuid : text }.
Definition issue_claims (a : IdentityAuthority (D:=D)) (i : Issue) : RawClaims := claims_for a (is_request i) (is_now i) (is_expires i) (is_uuid i).

(** The signature scheme: a message of the token that the key of the
    authority verifies was signed by the authority. *)
Definition unforged (a : IdentityAuthority (D:=D)) (k : IdentityKeyMaterial) (issues : list Issue) (token : text) : Prop :=
  forall h c s sg, split 46 token = [h; c; s] -> sig_verify (public_key k) (h ++ [46] ++ c) sg = true ->
  exists i, i ∈ issues /\ h ++ [46] ++ c = signing_input k (issue_claims a i).

Lemma signing_input_inj k c h cl : 46 ∉ h -> 46 ∉ cl -> h ++ [46] ++ cl = signing_input k c -> cl = b64 (claims_json c).
Proof.
  intros Hh Hcl H. apply (f_equal (split 46)) in H. unfold signing_input in H. cbn [app] in H.
  rewrite !split_app_sep, !split_no_sep in H by (done || apply b64_no_dot). by injection H.
Qed.

Lemma split_no_dot token h c s : split 46 token = [h; c; s] -> (46 ∉ h) /\ (46 ∉ c).
Proof. intros H. pose proof (split_pieces 46 token) as Hp. rewrite H in Hp. by inversion_clear Hp as [|? ? Hh Hp']; inversion_clear Hp'. Qed.

(** C26: A token the authority accepts, unless its signature was forged, is one
    it issued and that has not expired: the user, role, token id and
    instance are those of the issue. *)
Theorem accepted_token_was_issued now token (a : IdentityAuthority (D:=D)) st issues c :
  any_read (λ st, st) (store a) = Ok st -> unforged a (current_key st) issues token -> verify now token a = Ok c ->
  exists i, i ∈ issues /\ ic_user_id c = req_user_id (is_request i) /\ ic_role c = req_role (is_request i) /\ ic_token_id c = is_uuid i /\
  ic_environment c = a_environment a /\ ic_instance_id c = a_instance_id a /\ unix_timestamp now < unix_timestamp (is_expires i).
Proof.
  intros Hst Hunf (p & st0 & raw & Hp & Hst0 & _ & Hsig & Hraw & _ & _ & Henv & Hexp & Hrole & Hu & He & Hj & _ & Hi)%verify_ok.
  assert (st0 = st) as -> by congruence. apply parse_parts in Hp as (s & Hsplit & Hdec & _). destruct (Hunf _ _ _ _ Hsplit Hsig) as (i & Hin & Hmsg).
  apply split_no_dot in Hsplit as [Hh Hc]. apply signing_input_inj in Hmsg; [|done|done]. rewrite Hmsg, b64_roundtrip in Hdec. injection Hdec as Hdec.
  rewrite <- Hdec, claims_roundtrip in Hraw. injection Hraw as <-. exists i. cbn in *. rewrite role_roundtrip in Hrole. injection Hrole as <-. split_and!; try done; congruence.
Qed.

(** ** The store *)

Record wf_state (st : IdentityState) : Prop := {
  wf_secret : length (secret_key (current_key st)) = 32%nat;
  wf_public : length (public_key (current_key st)) = 32%nat;
  wf_ids : forall k x, users st !! k = Some x -> user_id x = k;
  wf_tokens : forall k x, users st !! k = Some x -> (length (tokens x) <= MAX_TOKENS_PER_USER)%nat;
}.

Lemma wf_insert st k x : wf_state st -> user_id x = k -> (length (tokens x) <= MAX_TOKENS_PER_USER)%nat -> wf_state (set_users (<[k := x]> (users st)) st).
Proof.
  intros [H1 H2 H3 H4] Hk Ht. split; cbn; [done|done|..]; intros k' x' [[<- <-]|[_ Hx]]%lookup_insert_Some; eauto.
Qed.

Lemma wf_write {R} ok (writer : IdentityState -> IdentityState * result R IdentityError) s :
  wf_state (writer (state s)).1 -> wf_state (state (write ok writer s).1).
Proof. unfold write. destruct (writer (state s)) as [st [v|e]]; cbn; [|done]. unfold persist_state. by destruct ok. Qed.

Lemma wf_touch (a : IdentityAuthority (D:=D)) r now expires uuid st : wf_state st -> wf_state (issue_writer a r now expires uuid st).1.
Proof.
  intros Hwf. set (x := default (new_user (req_user_id r) (req_display_name r) (req_role r) now) (users st !! req_user_id r)).
  assert (user_id x = req_user_id r /\ (length (tokens x) <= MAX_TOKENS_PER_USER)%nat) as [Hid Hlen].
  { unfold x. destruct (users st !! req_user_id r) as [y|] eqn:E; cbn; [|unfold MAX_TOKENS_PER_USER; split; [done|lia]]. split; [by eapply wf_ids|by eapply wf_tokens]. }
  unfold issue_writer. fold x. destruct (encode_jwt _ _); cbn [fst]; apply wf_insert; try done. cbn [tokens add_token]. rewrite length_take. lia.
Qed.

(** Changes of the file store, with the writes that fail. *)
Inductive store_step : IdentityStore -> IdentityStore -> Prop :=
| step_issue (a : IdentityAuthority (D:=D)) ok r now expires uuid s : store_step s (write ok (issue_writer a r now expires uuid) s).1
| step_password ok now u hash r s : store_step s (store_set_password ok now u hash r s).1
| step_login ok now u s : store_step s (store_record_login ok now u s).1.

Lemma store_step_wf s s' : store_step s s' -> wf_state (state s) -> wf_state (state s').
Proof.
  intros [a ok r now expires uuid s0|ok now u hash r s0|ok now u s0] Hwf; apply wf_write; [by apply wf_touch|..]; cbn.
  - destruct (users (state s0) !! u) as [x|] eqn:E; apply wf_insert; cbn; try done; try lia; [by eapply wf_ids|by eapply wf_tokens].
  - destruct (users (state s0) !! u) as [x|] eqn:E; cbn; [|done]. apply wf_insert; cbn; [done|by eapply wf_ids|by eapply wf_tokens].
Qed.

Lemma load_persisted_user u : load_user (persisted_user u) = Ok u.
Proof. unfold load_user, persisted_user. cbn. rewrite role_roundtrip. by destruct u. Qed.

Lemma load_persisted_users us : NoDup (user_id <$> us) ->
  load_users (persisted_user <$> us) = Ok (list_to_map ((λ u, (user_id u, u)) <$> us)).
Proof.
  induction us as [|u us IH]; intros Hnd; [done|]. cbn [fmap list_fmap] in *. apply NoDup_cons in Hnd as [Hu Hnd]. cbn [load_users].
  rewrite load_persisted_user. cbn [result_bind]. rewrite IH by done. cbn [result_bind list_to_map foldr uncurry].
  rewrite (not_elem_of_list_to_map_1 _ (user_id u)); [done|]. rewrite <- list_fmap_compose. exact Hu.
Qed.

Lemma load_persisted_map (m : gmap text IdentityUserRecord) : (forall k x, m !! k = Some x -> user_id x = k) ->
  load_users (persisted_user <$> (map_to_list m).*2) = Ok m.
Proof.
  intros Hid. assert (Hl : (λ u, (user_id u, u)) <$> (map_to_list m).*2 = map_to_list m).
  { rewrite <- list_fmap_compose. rewrite <- (list_fmap_id (map_to_list m)) at 2. apply list_fmap_ext. intros i [k x] Hi. cbn. f_equal. apply Hid.
    apply elem_of_map_to_list. by eapply list_elem_of_lookup_2. }
  rewrite load_persisted_users, Hl, list_to_map_to_list; [done|].
  assert (user_id <$> (map_to_list m).*2 = (map_to_list m).*1) as ->; [|apply NoDup_fst_map_to_list]. pose proof (f_equal (fmap fst) Hl) as E. by rewrite <- (list_fmap_compose (λ u, (user_id u, u)) fst) in E.
Qed.

Lemma load_persisted_key k : length (secret_key k) = 32%nat -> length (public_key k) = 32%nat -> load_key (persisted_key k) = Ok k.
Proof. intros H1 H2. unfold load_key, persisted_key, decode_key_component. cbn. rewrite !b64_roundtrip, H1, H2. cbn. by destruct k. Qed.

(** However the file store was used since it was opened, failed writes
    included, what a successful write leaves in the file opens again as the
    same key and the same users; no user has more than 20 tokens. *)
Theorem identity_store_survives_restart s0 s fresh v : wf_state (state s0) -> rtc store_step s0 s ->
  (forall k x, users (state s) !! k = Some x -> (length (tokens x) <= 20)%nat) /\
  exists s', load_or_initialize true fresh (file (persist_state true s).1) (environment (state s)) (instance_id (state s)) v = Ok s' /\
  current_key (state s') = current_key (state s) /\ users (state s') = users (state s).
Proof.
  intros H0 Hrun. assert (Hwf : wf_state (state s)) by (induction Hrun; eauto using store_step_wf). split; [apply Hwf|].
  unfold load_or_initialize, persist_state, persisted_state. cbn [fst file version ps_environment ps_instance_id ps_key ps_users]. rewrite Z.eqb_refl. cbn [negb].
  rewrite !bool_decide_eq_true_2 by done. cbn [negb]. rewrite load_persisted_key by apply Hwf. cbn [result_bind].
  rewrite load_persisted_map by apply Hwf. cbn. eexists. split; [reflexivity|]. done.
Qed.

(** With the database storage the authority hands out tokens of which the
    store has no trace: the writer changes a copy that is dropped. *)
Theorem database_storage_forgets_tokens ok now uuid r (a a' : IdentityAuthority (D:=D)) d it :
  store a = Db d -> issue_token ok now uuid r a = Some (a', Ok it) ->
  verify now (it_token it) a' = verify now (it_token it) a /\ list_users a' = list_users a /\ store a' = Db d.
Proof.
  intros Hd. unfold issue_token. destruct (add_seconds now _) as [expires|]; [|done]. cbn. rewrite Hd. cbn. intros [= <- Hres].
  unfold verify, list_users. cbn [store set_store]. rewrite Hd. done.
Qed.

(** An issue that fails because the stored key is inconsistent has already
    changed the role of the user in memory, and the next successful write
    stores it. *)
Theorem failed_issue_changes_role ok now uuid r (a : IdentityAuthority (D:=D)) s x expires :
  store a = File s -> public_of (secret_key (current_key (state s))) <> public_key (current_key (state s)) ->
  users (state s) !! req_user_id r = Some x -> add_seconds now (if exp_seconds a <=? i64_max then exp_seconds a else i64_max) = Some expires ->
  exists s', issue_token ok now uuid r a = Some (set_store (File s') a, Err (Invalid "stored key material invalid")) /\
  role <$> users (state s') !! req_user_id r = Some (req_role r) /\ file s' = file s.
Proof.
  intros Hs Hkey Hx Hexp. unfold issue_token. rewrite Hexp. cbn. rewrite Hs. cbn. unfold write, issue_writer, encode_jwt, keypair.
  rewrite bool_decide_eq_false_2 by done. cbn. eexists. split; [reflexivity|]. cbn. rewrite lookup_insert_eq, Hx. done.
Qed.

(** Who can log in with the file store: a user with a password whose stored
    hash the password matches. A login changes the time of the last login of
    that user and nothing else, and the password that was set last decides. *)
Theorem authenticate_exact ok now u pw (a : IdentityAuthority (D:=D)) s : store a = File s ->
  (is_ok (authenticate_user ok now u pw a).2 = true <->
    exists x h, users (state s) !! u = Some x /\ password_hash x = Some h /\ parse_hash h = true /\ verify_password pw h = true) /\
  (forall h r now', is_ok (authenticate_user ok now u pw (set_user_password ok now' u h r a).1).2 = parse_hash h && verify_password pw h) /\
  (forall v, v <> u -> any_get_user v (store (authenticate_user ok now u pw a).1) = any_get_user v (store a)).
Proof.
  intros Hs. split_and!.
  - unfold authenticate_user. rewrite Hs. cbn. destruct (users (state s) !! u) as [x|] eqn:Ex; [|by split; [|intros (? & ? & ? & _)]].
    destruct (password_hash x) as [h|] eqn:Eh; [|split; [done|intros (x' & h & [= <-] & Hh & _); congruence]].
    destruct (parse_hash h) eqn:Ep; cbn; [|split; [done|intros (x' & h' & [= <-] & Hh & Hp & _); congruence]].
    destruct (verify_password pw h) eqn:Ev; cbn; [split; [eauto 10|done]|split; [done|intros (x' & h' & [= <-] & Hh & _ & Hv); congruence]].
  - intros h r now'. unfold set_user_password. rewrite Hs. cbn. unfold store_set_password, write. cbn. unfold authenticate_user. destruct ok; cbn;
      rewrite lookup_insert_eq; destruct (users (state s) !! u); cbn; destruct (parse_hash h); cbn; try done; destruct (verify_password pw h); done.
  - intros v Hv. unfold authenticate_user. rewrite Hs. cbn. destruct (users (state s) !! u) as [x|] eqn:Ex; [|cbn; by rewrite Hs].
    destruct (password_hash x) as [h|]; [|cbn; by rewrite Hs]. destruct (parse_hash h); cbn; [|by rewrite Hs]. destruct (verify_password pw h); cbn; [|by rewrite Hs].
    unfold store_record_login, write. rewrite Ex. destruct ok; cbn; by rewrite lookup_insert_ne.
Qed.
End Authority.
End Tokens.

(** ** Concrete authorities

    A toy signature scheme and encodings that satisfy the laws. *)

Definition dodge (z : Z) : Z := if z <? 46 then z else z + 1.
Definition undodge (z : Z) : Z := if z <? 46 then z else z - 1.
Definition no_signature : list Z := replicate 64 0.
Definition claims_tuple (c : RawClaims) : text * text * text * text * text * text * text * Z * Z * text :=
  (iss c, aud c, sub c, env c, inst c, c_role c, ver c, iat c, exp c, jti c).
Definition tuple_claims (t : text * text * text * text * text * text * text * Z * Z * text) : RawClaims :=
  let '(a, b, c, d, e, f, g, h, i, j) := t in mkClaims a b c d e f g h i j.

#[global] Instance toy_crypto : IdentityCrypto := {|
  public_of sk := sk; valid_public _ := true; sign _ _ := no_signature; sig_verify _ _ s := bool_decide (s = no_signature);
  b64 l := dodge <$> l; unb64 t := Some (undodge <$> t);
  header_json h := [Zpos (encode (alg h, kid h))];
  header_of l := match l with [Zpos p] => decode p | _ => None end;
  claims_json c := [Zpos (encode (claims_tuple c))];
  claims_of l := match l with [Zpos p] => tuple_claims <$> decode p | _ => None end;
  sha256 t := take 32 t; parse_hash _ := true; verify_password pw h := bool_decide (pw = h) |}.

#[global] Instance toy_crypto_laws : IdentityCryptoLaws toy_crypto.
Proof.
  split.
  - intros sk. reflexivity.
  - intros sk m. by apply bool_decide_eq_true_2.
  - intros sk m. reflexivity.
  - intros l. cbn. f_equal. rewrite <- list_fmap_compose. rewrite <- (list_fmap_id l) at 2. apply list_fmap_ext. intros _ z _. cbn. unfold dodge, undodge.
    repeat case_match; rewrite ?Z.ltb_lt, ?Z.ltb_ge in *; lia.
  - intros l Hin. cbn in Hin. apply list_elem_of_fmap in Hin as (z & Hz & _). unfold dodge in Hz. case_match; rewrite ?Z.ltb_lt, ?Z.ltb_ge in *; lia.
  - intros h. cbn [header_of header_json toy_crypto]. apply decode_encode.
  - intros c. cbn [claims_of claims_json toy_crypto]. rewrite decode_encode. by destruct c.
Qed.

#[global] Instance toy_db : DbIdentity IdentityState := {|
  db_load_state d := Ok d; db_get_user d u := Ok (users d !! u); db_record_login d _ _ := (d, Ok tt); db_set_password d _ _ _ _ := (d, Ok tt) |}.

Definition demo_key : IdentityKeyMaterial := mkKey (lit "kid-1") 0 (replicate 32 7) (replicate 32 7).
Definition demo_state : IdentityState := mkState (lit "prod") (lit "one") (lit "1.0") demo_key ∅.
Definition demo_authority (s : AnyIdentityStore (D:=IdentityState)) : IdentityAuthority :=
  bootstrap (lit "prod") (lit "one") (lit "fenrir") (lit "1.0") 3600 s.
Definition demo_file : AnyIdentityStore (D:=IdentityState) := File (mkStore Missing demo_state).
Definition demo_request : IssueTokenRequest := mkIssue (lit "ann") (Some (lit " Ann ")) Operator.
Definition noon : Z := 1700000000 * NANOS.
Definition demo_issue := issue_token true noon (lit "u-1") demo_request.

Lemma demo_issued s : s = demo_file \/ s = Db demo_state ->
  exists a' it, demo_issue (demo_authority s) = Some (a', Ok it) /\ it_expires_at it = noon + 3600 * NANOS.
Proof. intros [->| ->]; eexists _, _; (split; [reflexivity|reflexivity]). Qed.

Lemma issued_token_verifies_witness : exists a' it, demo_issue (demo_authority demo_file) = Some (a', Ok it) /\
  is_ok (verify (noon + 60 * NANOS) (it_token it) a') = true.
Proof.
  destruct (demo_issued demo_file) as (a' & it & Hi & He); [by left|]. exists a', it. split; [done|].
  rewrite (issued_token_verifies true noon (lit "u-1") demo_request (demo_authority demo_file) a' it (noon + 60 * NANOS)); [reflexivity|exact Hi|reflexivity|].
  rewrite He. reflexivity.
Defined.

Lemma accepted_token_was_issued_witness : exists a' it c, demo_issue (demo_authority (Db demo_state)) = Some (a', Ok it) /\
  verify noon (it_token it) (demo_authority (Db demo_state)) = Ok c /\ ic_user_id c = lit "ann" /\ ic_role c = Operator.
Proof.
  set (ev := mkIssueEvent demo_request noon (noon + 3600 * NANOS) (lit "u-1")).
  set (tok := signing_input demo_key (issue_claims (demo_authority (Db demo_state)) ev) ++ [46] ++ b64 no_signature).
  assert (Hv : exists c, verify noon tok (demo_authority (Db demo_state)) = Ok c).
  { assert (is_ok (verify noon tok (demo_authority (Db demo_state))) = true) as H by (vm_compute; reflexivity). destruct (verify _ _ _) as [c|]; [eauto|done]. }
  destruct Hv as [c Hc]. destruct (accepted_token_was_issued noon tok (demo_authority (Db demo_state)) demo_state [ev] c) as (i & Hi & Hu & Hr & _); [done| |exact Hc|].
  - intros h cl s sg Hs _. exists ev. split; [by apply list_elem_of_singleton|]. apply signing_input_of_parts in Hs. exact Hs.
  - apply list_elem_of_singleton in Hi as ->. eexists _, _, c. split_and!; [reflexivity|exact Hc|exact Hu|exact Hr].
Defined.

Lemma demo_wf : wf_state demo_state.
Proof. split; cbn; try done; intros k x Hx; by rewrite lookup_empty in Hx. Qed.

Lemma identity_store_survives_restart_witness :
  let s := (store_set_password true noon (lit "ann") (lit "h") Viewer (mkStore Missing demo_state)).1 in
  exists s', load_or_initialize true (mkFresh [] [] 0) (file (persist_state true s).1) (lit "prod") (lit "one") (lit "2.0") = Ok s' /\
  users (state s') = users (state s).
Proof.
  intros s. destruct (identity_store_survives_restart (D:=IdentityState) (mkStore Missing demo_state) s (mkFresh [] [] 0) (lit "2.0") demo_wf) as (_ & s' & Hl & _ & Hu);
    [|exists s'; split; [exact Hl|exact Hu]].
  eapply rtc_l; [|apply rtc_refl]. apply (step_password true noon (lit "ann") (lit "h") Viewer).
Defined.

Lemma database_storage_forgets_tokens_witness : exists a' it, demo_issue (demo_authority (Db demo_state)) = Some (a', Ok it) /\ list_users a' = Ok [].
Proof.
  destruct (demo_issued (Db demo_state)) as (a' & it & Hi & _); [by right|]. exists a', it. split; [exact Hi|].
  destruct (database_storage_forgets_tokens true noon (lit "u-1") demo_request (demo_authority (Db demo_state)) a' demo_state it eq_refl Hi) as (_ & Hl & _).
  rewrite Hl. reflexivity.
Defined.

Definition broken_state : IdentityState :=
  mkState (lit "prod") (lit "one") (lit "1.0") (mkKey (lit "kid-1") 0 (replicate 32 7) (replicate 32 8)) {[ lit "ann" := new_user (lit "ann") None Viewer 0 ]}.
Lemma failed_issue_changes_role_witness : exists s',
  demo_issue (demo_authority (File (mkStore Missing broken_state))) = Some (demo_authority (File s'), Err (Invalid "stored key material invalid")) /\
  role <$> users (state s') !! lit "ann" = Some Operator.
Proof.
  destruct (failed_issue_changes_role true noon (lit "u-1") demo_request (demo_authority (File (mkStore Missing broken_state))) (mkStore Missing broken_state)
    (new_user (lit "ann") None Viewer 0) (noon + 3600 * NANOS)) as (s' & H1 & H2 & _); [done|done|apply lookup_singleton_eq|reflexivity|]. exists s'. split; [exact H1|exact H2].
Defined.

Lemma authenticate_exact_witness :
  is_ok (authenticate_user true noon (lit "ann") (lit "pw") (set_user_password true noon (lit "ann") (lit "pw") Viewer (demo_authority demo_file)).1).2 = true.
Proof. rewrite (proj1 (proj2 (authenticate_exact true noon (lit "ann") (lit "pw") (demo_authority demo_file) (mkStore Missing demo_state) eq_refl))). reflexivity. Defined.
