(* ===== verification/Versions.v ===== *)
(** * Module versions: [domain/module/version.rs]

    The build-number order on top of the [semver] crate.  The crate itself is
    a parameter ([Semver]): the order of pre-release tags and of build
    metadata, and its own matching of comparators and requirements.  What the
    host relies on is that both orders are total orders that agree with
    equality ([SemverLaws]). *)

From S2P Require Import Prelude Text.

Record Version := mkVersion {
  major : Z; minor : Z; patch : Z;
  pre : text;      (** [semver::Prerelease], without the dash *)
  build : text;    (** [semver::BuildMetadata], without the plus *)
}.

Inductive Op := Exact | Greater | GreaterEq | Less | LessEq | Tilde | Caret | Wildcard.
#[global] Instance Op_eq_dec : EqDecision Op.
Proof. solve_decision. Defined.

Record Comparator := mkComparator {
  op : Op; c_major : Z; c_minor : option Z; c_patch : option Z; c_pre : text
}.

(** [VersionReq::comparators]. *)
Definition VersionReq := list Comparator.

(** The [semver] crate. *)
Class Semver := mkSemver {
  pre_cmp : text -> text -> comparison;
  build_cmp : text -> text -> comparison;
  semver_comparator_matches : Comparator -> Version -> bool;
  semver_req_matches : VersionReq -> Version -> bool;
}.

(** A comparison is a total order that agrees with equality. *)
Record cmp_laws {A} (cmp : A -> A -> comparison) : Prop := {
  cmp_eq : forall a b, cmp a b = Eq <-> a = b;
  cmp_opp : forall a b, cmp b a = CompOpp (cmp a b);
  cmp_trans : forall a b c, cmp a b = Lt -> cmp b c = Lt -> cmp a c = Lt;
}.

Class SemverLaws (S : Semver) : Prop := {
  pre_cmp_laws : cmp_laws pre_cmp;
  build_cmp_laws : cmp_laws build_cmp;
}.

Definition pre_build (p : text) : option Z :=
  if bool_decide (p = []) then Some 0
  else if negb (forallb is_ascii_digit p) then None
  else match parse_unsigned u64_max p with
       | Some b => if 0 <? b then Some b else None
       | None => None
       end.

Definition build_number (v : Version) : option Z := pre_build (pre v).

(** [a.then_with(|| b)]. *)
Definition then_with (a b : comparison) : comparison := match a with Eq => b | _ => a end.

(** [(a.major, a.minor, a.patch).cmp(&(b.major, b.minor, b.patch))]. *)
Definition core_cmp (a b : Version) : comparison :=
  then_with (major a ?= major b) (then_with (minor a ?= minor b) (patch a ?= patch b)).

(** The version without pre-release and build ([Version::new]). *)
Definition core_of (v : Version) : Version := mkVersion (major v) (minor v) (patch v) [] [].

Section WithSemver.
Context `{S : Semver}.

Definition release_order (a b : Version) : comparison :=
  match core_cmp a b with
  | Eq =>
      match build_number a, build_number b with
      | Some x, Some y => x ?= y
      | None, Some _ => Lt
      | Some _, None => Gt
      | None, None => pre_cmp (pre a) (pre b)
      end
  | core => core
  end.

Definition compare_versions (a b : Version) : comparison :=
  then_with (release_order a b) (build_cmp (build a) (build b)).

Definition comparator_matches (c : Comparator) (v : Version) : bool :=
  let core := core_of v in
  if bool_decide (c_pre c = []) then
    match op c, c_minor c, c_patch c with
    | Exact, Some mi, Some pa =>
        bool_decide (build_number v = Some 0)
        && (major v =? c_major c) && (minor v =? mi) && (patch v =? pa)
    | _, _, _ => semver_comparator_matches c core
    end
  else match pre_build (c_pre c) with
  | None => semver_comparator_matches c v
  | Some _ =>
      let floor := mkVersion (c_major c) (default 0 (c_minor c)) (default 0 (c_patch c)) (c_pre c) [] in
      let against := release_order v floor in
      match op c with
      | Exact => bool_decide (against = Eq)
      | Greater => bool_decide (against = Gt)
      | GreaterEq => negb (bool_decide (against = Lt))
      | Less => bool_decide (against = Lt)
      | LessEq => negb (bool_decide (against = Gt))
      | _ =>
          let core_range := mkComparator (op c) (c_major c) (c_minor c) (c_patch c) [] in
          negb (bool_decide (against = Lt)) && semver_comparator_matches core_range core
      end
  end.

Definition version_req_matches (req : VersionReq) (v : Version) : bool :=
  match build_number v with
  | None => semver_req_matches req v
  | Some _ => forallb (λ c, comparator_matches c v) req
  end.
End WithSemver.

(** [Prerelease] values have no numeric identifier with a leading zero; for
    an all-digit pre-release that is the whole text. *)
Definition pre_wf (p : text) : Prop :=
  forallb is_ascii_digit p = true -> forall p', p = 48 :: p' -> p' = [].

Definition version_wf (v : Version) : Prop := pre_wf (pre v).

(** ** Decimal numerals *)

Lemma digits_value_snoc s c : digits_value (s ++ [c]) = digits_value s * 10 + (c - 48).
Proof. unfold digits_value. by rewrite foldl_app. Qed.

Lemma forallb_snoc {A} (f : A -> bool) s c : forallb f (s ++ [c]) = forallb f s && f c.
Proof. rewrite forallb_app. simpl. by rewrite andb_true_r. Qed.

Lemma digits_value_bound s :
  forallb is_ascii_digit s = true -> 0 <= digits_value s < 10 ^ Z.of_nat (length s).
Proof.
  induction s as [|c s IH] using rev_ind; [done|].
  rewrite forallb_snoc, digits_value_snoc, length_app. intros [Hs Hc]%andb_true_iff.
  specialize (IH Hs). unfold is_ascii_digit in Hc. boolify. simpl length.
  rewrite Nat2Z.inj_add, Z.pow_add_r by lia. change (10 ^ Z.of_nat 1) with 10. nia.
Qed.

(** A numeral without leading zero has at least its leading digit's weight. *)
Lemma digits_value_lower c s :
  forallb is_ascii_digit (c :: s) = true -> c <> 48 ->
  10 ^ Z.of_nat (length s) <= digits_value (c :: s).
Proof.
  induction s as [|d s IH] using rev_ind; intros H Hc.
  - simpl in H. unfold is_ascii_digit, digits_value in *. simpl in *. boolify. lia.
  - rewrite app_comm_cons in *. rewrite forallb_snoc in H. apply andb_true_iff in H as [H Hd].
    specialize (IH H Hc). rewrite digits_value_snoc, length_app. simpl length.
    unfold is_ascii_digit in Hd. boolify.
    rewrite Nat2Z.inj_add, Z.pow_add_r by lia. change (10 ^ Z.of_nat 1) with 10. lia.
Qed.

Lemma digits_value_inj_len s s' :
  length s = length s' -> forallb is_ascii_digit s = true -> forallb is_ascii_digit s' = true ->
  digits_value s = digits_value s' -> s = s'.
Proof.
  revert s'. induction s as [|c s IH] using rev_ind; intros s' Hlen Hs Hs' Hv.
  { by destruct s'. }
  destruct s' as [|c' s' _] using rev_ind; [rewrite length_app in Hlen; simpl in Hlen; lia|].
  rewrite !length_app in Hlen. simpl in Hlen.
  rewrite forallb_snoc in Hs, Hs'. apply andb_true_iff in Hs as [Hs Hc], Hs' as [Hs' Hc'].
  rewrite !digits_value_snoc in Hv. unfold is_ascii_digit in Hc, Hc'. boolify.
  assert (digits_value s = digits_value s' /\ c = c') as [Hds ->] by lia.
  by rewrite (IH s') by (done || lia).
Qed.

(** Equal values, no leading zeros: equal numerals. *)
Lemma numeral_inj s s' :
  s <> [] -> s' <> [] -> forallb is_ascii_digit s = true -> forallb is_ascii_digit s' = true ->
  hd 0 s <> 48 -> hd 0 s' <> 48 -> digits_value s = digits_value s' -> s = s'.
Proof.
  intros Hn Hn' Hs Hs' Hh Hh' Hv. apply digits_value_inj_len; try done.
  destruct s as [|c s], s' as [|c' s']; try done.
  pose proof (digits_value_bound _ Hs). pose proof (digits_value_bound _ Hs').
  pose proof (digits_value_lower _ _ Hs Hh). pose proof (digits_value_lower _ _ Hs' Hh').
  simpl length in *. f_equal.
  destruct (Nat.lt_trichotomy (length s) (length s')) as [Hlt|[?|Hlt]]; [|done|]; exfalso.
  - assert (10 ^ Z.of_nat (S (length s)) <= 10 ^ Z.of_nat (length s')) by (apply Z.pow_le_mono_r; lia). lia.
  - assert (10 ^ Z.of_nat (S (length s')) <= 10 ^ Z.of_nat (length s)) by (apply Z.pow_le_mono_r; lia). lia.
Qed.

Lemma pre_build_some p b :
  pre_build p = Some b -> (p = [] /\ b = 0)
  \/ (p <> [] /\ forallb is_ascii_digit p = true /\ b = digits_value p /\ 0 < b).
Proof.
  unfold pre_build, parse_unsigned. case_bool_decide; [naive_solver|].
  destruct (forallb is_ascii_digit p) eqn:E; [|done]. simpl.
  destruct (_ <=? _); [|done]. destruct (Z.ltb_spec 0 (digits_value p)); [|done].
  intros [= <-]. by right.
Qed.

(** The build number identifies the pre-release text. *)
Lemma pre_build_inj p p' b :
  pre_wf p -> pre_wf p' -> pre_build p = Some b -> pre_build p' = Some b -> p = p'.
Proof.
  intros Hw Hw' [[-> ->]|(Hn & Hd & -> & Hpos)]%pre_build_some [[-> Hb]|(Hn' & Hd' & Hb & Hpos')]%pre_build_some;
    try done; try lia.
  assert (Hh : forall q, q <> [] -> forallb is_ascii_digit q = true -> pre_wf q ->
    0 < digits_value q -> hd 0 q <> 48).
  { intros [|c q] Hq Hqd Hqw Hqv; [done|]. simpl. intros ->. rewrite (Hqw Hqd q eq_refl) in Hqv.
    vm_compute in Hqv. done. }
  apply numeral_inj; try done; apply Hh; try done. lia.
Qed.

(** ** Comparisons that are total orders *)

Lemma Z_cmp_laws : cmp_laws Z.compare.
Proof.
  split.
  - apply Z.compare_eq_iff.
  - intros a b. apply Z.compare_antisym.
  - intros a b c. rewrite !Z.compare_lt_iff. lia.
Qed.

Definition lex {A B} (ca : A -> A -> comparison) (cb : B -> B -> comparison) (x y : A * B) : comparison :=
  then_with (ca x.1 y.1) (cb x.2 y.2).

Lemma lex_laws {A B} (ca : A -> A -> comparison) (cb : B -> B -> comparison) :
  cmp_laws ca -> cmp_laws cb -> cmp_laws (lex ca cb).
Proof.
  intros [ea oa ta] [eb ob tb]. split.
  - intros [a b] [a' b']. unfold lex, then_with. simpl.
    destruct (ca a a') eqn:E; [apply ea in E as ->; rewrite eb; naive_solver| |];
      (split; [done|]; intros [= -> ->]; by rewrite (proj2 (ea a' a')) in E).
  - intros [a b] [a' b']. unfold lex, then_with. simpl. rewrite (oa a a').
    destruct (ca a a'); simpl; auto.
  - intros [a b] [a' b'] [a'' b'']. unfold lex, then_with. simpl.
    destruct (ca a a') eqn:E1; [apply ea in E1 as ->| |done];
      (destruct (ca a' a'') eqn:E2; [apply ea in E2 as ->| |done]); rewrite ?E1, ?E2; try done.
    + apply tb.
    + by rewrite (ta _ _ _ E1 E2).
Qed.

(** What follows the core: a pre-release tag or a build number; tags come
    first. *)
Inductive suffix := STag (p : text) | SBuild (n : Z).

Definition suffix_cmp (pc : text -> text -> comparison) (x y : suffix) : comparison :=
  match x, y with
  | SBuild m, SBuild n => m ?= n
  | STag _, SBuild _ => Lt
  | SBuild _, STag _ => Gt
  | STag p, STag q => pc p q
  end.

Lemma suffix_cmp_laws pc : cmp_laws pc -> cmp_laws (suffix_cmp pc).
Proof.
  intros [e o t]. destruct Z_cmp_laws as [ze zo zt]. split.
  - intros [p|m] [q|n]; simpl; rewrite ?e, ?ze; naive_solver.
  - intros [p|m] [q|n]; simpl; auto.
  - intros [p|m] [q|n] [r|k]; simpl; eauto; done.
Qed.

(** The sort key of a version. *)
Definition key (v : Version) : Z * (Z * (Z * (suffix * text))) :=
  (major v, (minor v, (patch v,
    (match build_number v with Some n => SBuild n | None => STag (pre v) end, build v)))).

Section Order.
Context `{S : Semver} `{!SemverLaws S}.

Definition key_cmp := lex Z.compare (lex Z.compare (lex Z.compare (lex (suffix_cmp pre_cmp) build_cmp))).

Lemma key_cmp_laws : cmp_laws key_cmp.
Proof.
  repeat apply lex_laws; try apply Z_cmp_laws; [apply suffix_cmp_laws, pre_cmp_laws | apply build_cmp_laws].
Qed.

Lemma compare_versions_key a b : compare_versions a b = key_cmp (key a) (key b).
Proof.
  unfold compare_versions, release_order, core_cmp, key_cmp, key, lex. simpl.
  destruct (major a ?= major b); [|done..]. destruct (minor a ?= minor b); [|done..].
  destruct (patch a ?= patch b); [|done..]. simpl.
  by destruct (build_number a), (build_number b).
Qed.

Lemma key_inj a b : version_wf a -> version_wf b -> key a = key b -> a = b.
Proof.
  unfold version_wf, key, build_number. intros Hwa Hwb.
  destruct a as [ma mi pa pr bu], b as [ma' mi' pa' pr' bu']. simpl in *.
  destruct (pre_build pr) eqn:Ea, (pre_build pr') eqn:Eb; intros; simplify_eq; [|done].
  f_equal. by eapply pre_build_inj.
Qed.

(** Both ends of a [>=] requirement with a build: upwards closed. *)
Definition rel_key (v : Version) : Z * (Z * (Z * suffix)) :=
  (major v, (minor v, (patch v,
    match build_number v with Some n => SBuild n | None => STag (pre v) end))).
Definition rel_cmp := lex Z.compare (lex Z.compare (lex Z.compare (suffix_cmp pre_cmp))).

Lemma rel_cmp_laws : cmp_laws rel_cmp.
Proof. repeat apply lex_laws; try apply Z_cmp_laws. apply suffix_cmp_laws, pre_cmp_laws. Qed.

Lemma release_order_key a b : release_order a b = rel_cmp (rel_key a) (rel_key b).
Proof.
  unfold release_order, core_cmp, rel_cmp, rel_key, lex. simpl.
  destruct (major a ?= major b); [|done..]. destruct (minor a ?= minor b); [|done..].
  destruct (patch a ?= patch b); [|done..]. simpl.
  by destruct (build_number a), (build_number b).
Qed.

(** In a total order, not below a floor is inherited by what is not smaller. *)
Lemma cmp_not_lt_up {A} (cmp : A -> A -> comparison) (L : cmp_laws cmp) x y f :
  cmp x f <> Lt -> cmp y x <> Lt -> cmp y f <> Lt.
Proof.
  intros Hx Hy Hf. destruct L as [e o t]. destruct (cmp y x) eqn:E; [|done|].
  - apply e in E as ->. done.
  - assert (E' : cmp x y = Lt) by by rewrite (o y x), E. by apply Hx, (t x y f).
Qed.

(** ** Properties *)

(** [compare_versions] is a total order that agrees with equality:
    reflexive on equal versions only, antisymmetric, transitive. *)
Theorem compare_versions_total_order :
  (forall a b, version_wf a -> version_wf b -> compare_versions a b = Eq <-> a = b)
  /\ (forall a b, compare_versions b a = CompOpp (compare_versions a b))
  /\ (forall a b c, compare_versions a b = Lt -> compare_versions b c = Lt -> compare_versions a c = Lt).
Proof.
  destruct key_cmp_laws as [e o t]. repeat split; intros *; rewrite ?compare_versions_key.
  - intros ?%e. by apply key_inj.
  - intros ->. by apply e.
  - apply o.
  - apply t.
Qed.

(** the release scheme: the core decides first; on the same core build
    numbers compare as numbers, no suffix is build 0, and a pre-release tag
    comes before every build. *)
Theorem release_scheme a b x y :
  build_number a = Some x -> build_number b = Some y ->
  (core_cmp a b <> Eq -> compare_versions a b = core_cmp a b)
  /\ (core_cmp a b = Eq -> x <> y -> compare_versions a b = (x ?= y))
  /\ (forall c, build_number c = None -> core_cmp c b = Eq -> compare_versions c b = Lt).
Proof.
  intros Ha Hb. unfold compare_versions, release_order. rewrite Ha, Hb. repeat split.
  - destruct (core_cmp a b); done.
  - intros -> Hne. destruct (Z.compare_spec x y); done.
  - intros c -> ->. done.
Qed.

(** requirements under the build scheme: a comparator without a build
    (other than a full [=x.y.z]) depends on the core only, and a [>=]
    comparator with a build accepts every later version of one it accepts. *)
Theorem requirements_follow_scheme c v w :
  (c_pre c = [] -> (op c <> Exact \/ c_minor c = None \/ c_patch c = None) ->
   core_of v = core_of w -> comparator_matches c v = comparator_matches c w)
  /\ (op c = GreaterEq -> c_pre c <> [] -> pre_build (c_pre c) <> None ->
      release_order w v <> Lt -> comparator_matches c v = true -> comparator_matches c w = true).
Proof.
  split.
  - intros Hp Hop Hcore. unfold comparator_matches. rewrite Hp, Hcore, bool_decide_eq_true_2 by done.
    destruct (op c) eqn:?, (c_minor c), (c_patch c); try done. naive_solver.
  - intros Hop Hp Hb Hw. unfold comparator_matches. rewrite bool_decide_eq_false_2 by done.
    destruct (pre_build (c_pre c)) eqn:E; [|done]. rewrite Hop.
    rewrite !negb_true_iff, !bool_decide_eq_false. rewrite !release_order_key in *.
    intros Hv. by eapply (cmp_not_lt_up rel_cmp rel_cmp_laws (rel_key v)).
Qed.
End Order.

(** ** Witnesses: a concrete crate that orders texts lexicographically *)

Fixpoint text_cmp (a b : text) : comparison :=
  match a, b with
  | [], [] => Eq
  | [], _ => Lt
  | _, [] => Gt
  | x :: a', y :: b' => then_with (x ?= y) (text_cmp a' b')
  end.

Lemma text_cmp_laws : cmp_laws text_cmp.
Proof.
  split.
  - induction a as [|x a IH]; intros [|y b]; simpl; try done.
    destruct (Z.compare_spec x y) as [->| |]; simpl; rewrite ?IH; split; try naive_solver;
      intros [= -> _]; lia.
  - induction a as [|x a IH]; intros [|y b]; simpl; try done.
    rewrite (Z.compare_antisym x y). destruct (x ?= y); simpl; auto.
  - induction a as [|x a IH]; intros [|y b] [|z c]; simpl; try done.
    unfold then_with. destruct (x ?= y) eqn:E1; [|..|done];
      (destruct (y ?= z) eqn:E2; [|..|done]); intros Hab Hbc.
    + apply Z.compare_eq_iff in E1, E2. subst. rewrite Z.compare_refl. by eapply IH.
    + apply Z.compare_eq_iff in E1 as ->. by rewrite E2.
    + apply Z.compare_eq_iff in E2 as <-. by rewrite E1.
    + by rewrite (cmp_trans _ Z_cmp_laws _ _ _ E1 E2).
Qed.

Lemma text_cmp_app x y z : text_cmp (x ++ y) (x ++ z) = text_cmp y z.
Proof. induction x as [|c x IH]; [done|]. cbn. by rewrite Z.compare_refl. Qed.

Definition demo_semver : Semver := mkSemver text_cmp text_cmp (λ _ _, true) (λ _ _, false).
#[local] Instance demo_semver_laws : SemverLaws demo_semver.
Proof. split; apply text_cmp_laws. Qed.

Definition v (ma mi pa : Z) (p : string) := mkVersion ma mi pa (lit p) [].

Lemma compare_versions_total_order_witness :
  @compare_versions demo_semver (v 1 2 0 "9") (v 1 2 0 "9") = Eq.
Proof.
  apply (proj1 (@compare_versions_total_order demo_semver demo_semver_laws)); [| |reflexivity];
    intros _ p' Hp; vm_compute in Hp; discriminate Hp.
Defined.

Lemma release_scheme_witness :
  @compare_versions demo_semver (v 1 2 0 "9") (v 1 2 0 "10") = Lt.
Proof.
  refine (proj1 (proj2 (release_scheme (S := demo_semver) (v 1 2 0 "9") (v 1 2 0 "10") 9 10 _ _)) _ _);
    vm_compute; congruence.
Defined.

Lemma requirements_follow_scheme_witness :
  @comparator_matches demo_semver (mkComparator GreaterEq 1 (Some 2) (Some 0) (lit "3")) (v 1 3 0 "1") = true.
Proof.
  apply (requirements_follow_scheme (S := demo_semver)
           (mkComparator GreaterEq 1 (Some 2) (Some 0) (lit "3")) (v 1 2 0 "3"));
    vm_compute; try discriminate; reflexivity.
Defined.
