(* ===== verification/ServiceTypes.v ===== *)
(** * Services: access metadata ([services/types.rs])

    What a service declares about who may call it and how: the ingress
    metadata (access, route prefix, rate limit, protocols) and the security
    metadata (roles, scopes, tenants), with the decision
    [allows_claims] the gateway takes on the claims of a token. *)

From S2P Require Import Prelude Text Roles ServiceTokens.

Inductive ServiceIngressProtocol := Http | Grpc.
Inductive ServiceIngressAccess := Internal | Public.
Inductive ServiceRateLimit := RDefault | Unlimited | CustomPerSecond (limit : Z).
Inductive ServiceTenantGuard := AnyTenant | Fixed (value : string) | AllowList (values : list string).

#[global] Instance protocol_eq_dec : EqDecision ServiceIngressProtocol.
Proof. solve_decision. Defined.
#[global] Instance access_eq_dec : EqDecision ServiceIngressAccess.
Proof. solve_decision. Defined.

Definition protocol_str (p : ServiceIngressProtocol) : text := match p with Http => lit "http" | Grpc => lit "grpc" end.

(** ** Tenant guard *)

Definition guard_allows (self : ServiceTenantGuard) (tenant : string) : bool :=
  match self with
  | AnyTenant => true
  | Fixed value => bool_decide (value = tenant)
  | AllowList values => existsb (λ value, bool_decide (value = tenant)) values
  end.

(** ** Ingress metadata *)

Record ServiceIngressMetadata := mkIngress {
  route_prefix : option text;
  health_endpoint : option text;
  access : ServiceIngressAccess;
  rate_limit : ServiceRateLimit;
  protocols : list ServiceIngressProtocol;
}.

Definition internal : ServiceIngressMetadata := mkIngress None None Internal RDefault [Http].
Definition public : ServiceIngressMetadata :=
  mkIngress (route_prefix internal) (health_endpoint internal) Public (rate_limit internal) (protocols internal).

(** [with_route_prefix] and [with_health_endpoint] normalise alike. *)
Definition rooted (value : text) : option text :=
  if bool_decide (value = []) then None
  else if starts_with [47] value then Some value else Some (47 :: value).
Definition with_route_prefix (self : ServiceIngressMetadata) (prefix : text) : ServiceIngressMetadata :=
  mkIngress (rooted prefix) (health_endpoint self) (access self) (rate_limit self) (protocols self).
Definition with_health_endpoint (self : ServiceIngressMetadata) (endpoint : text) : ServiceIngressMetadata :=
  mkIngress (route_prefix self) (rooted endpoint) (access self) (rate_limit self) (protocols self).
Definition with_protocol (self : ServiceIngressMetadata) (p : ServiceIngressProtocol) : ServiceIngressMetadata :=
  mkIngress (route_prefix self) (health_endpoint self) (access self) (rate_limit self)
    (if bool_decide (p ∈ protocols self) then protocols self else protocols self ++ [p]).
Definition with_protocols (self : ServiceIngressMetadata) (ps : list ServiceIngressProtocol) : ServiceIngressMetadata :=
  let unique := foldl (λ u p, if bool_decide (p ∈ u) then u else u ++ [p]) [] ps in
  mkIngress (route_prefix self) (health_endpoint self) (access self) (rate_limit self)
    (if bool_decide (unique = []) then [Http] else unique).
Definition with_rate_limit (self : ServiceIngressMetadata) (l : ServiceRateLimit) : ServiceIngressMetadata :=
  mkIngress (route_prefix self) (health_endpoint self) (access self) l (protocols self).

(** ** Security metadata *)

Record ServiceSecurityMetadata := mkSecurity {
  internal_only : bool;
  allowed_roles : list ServiceRole;
  required_scopes : list ServiceScope;
  tenant : ServiceTenantGuard;
}.

Definition default_allowed_roles : list ServiceRole := [SAdmin; SWrite; SRead].
Definition internal_default : ServiceSecurityMetadata := mkSecurity true default_allowed_roles [] AnyTenant.
Definition with_tenant_guard (self : ServiceSecurityMetadata) (g : ServiceTenantGuard) : ServiceSecurityMetadata :=
  mkSecurity (internal_only self) (allowed_roles self) (required_scopes self) g.

Definition allows_role (self : ServiceSecurityMetadata) (role : ServiceRole) : bool :=
  if bool_decide (allowed_roles self = []) then true
  else existsb (λ allowed, ServiceRole.satisfies role allowed) (allowed_roles self).

Definition allows_claims (self : ServiceSecurityMetadata) (c : DelegatedTokenClaims) : bool :=
  if internal_only self && negb (match actor c with
                                 | Service _ role => allows_role self role
                                 | User _ _ => false
                                 end) then false
  else if negb (guard_allows (tenant self) (tenant_id c)) then false
  else forallb (λ required, existsb (λ scope, bool_decide (scope = required)) (scopes c)) (required_scopes self).

(** What [allows_claims] promises. *)
Record admits (m : ServiceSecurityMetadata) (c : DelegatedTokenClaims) : Prop := {
  admits_actor : internal_only m = true ->
    exists id role, actor c = Service id role
      /\ (allowed_roles m = [] \/ exists allowed, allowed ∈ allowed_roles m /\ ServiceRole.satisfies role allowed = true);
  admits_tenant : match tenant m with
                  | AnyTenant => True
                  | Fixed t => tenant_id c = t
                  | AllowList ts => tenant_id c ∈ ts
                  end;
  admits_scopes : forall s, s ∈ required_scopes m -> s ∈ scopes c;
}.

Lemma allows_role_spec m role : allows_role m role = true
  <-> allowed_roles m = [] \/ exists allowed, allowed ∈ allowed_roles m /\ ServiceRole.satisfies role allowed = true.
Proof.
  unfold allows_role. destruct (bool_decide (allowed_roles m = [])) eqn:E; boolify; [naive_solver|].
  rewrite existsb_exists. setoid_rewrite list_elem_of_In. naive_solver.
Qed.

Lemma guard_allows_spec g t : guard_allows g t = true
  <-> match g with AnyTenant => True | Fixed v => t = v | AllowList vs => t ∈ vs end.
Proof.
  destruct g as [|v|vs]; cbn; [done| |].
  - rewrite bool_decide_eq_true. naive_solver.
  - rewrite existsb_exists. setoid_rewrite bool_decide_eq_true. rewrite list_elem_of_In. naive_solver.
Qed.

Lemma allows_claims_spec m c : allows_claims m c = true <-> admits m c.
Proof.
  unfold allows_claims. split.
  - intros H. destruct (_ && _) eqn:E1 in H; [done|]. destruct (guard_allows _ _) eqn:E2; cbn in H; [|done].
    apply guard_allows_spec in E2. split.
    + intros Hi. rewrite Hi in E1. cbn in E1. apply negb_false_iff in E1. destruct (actor c) as [|id role]; [done|].
      exists id, role. split; [done|]. by apply allows_role_spec.
    + by destruct (tenant m).
    + intros s Hs%list_elem_of_In. rewrite forallb_forall in H. apply H in Hs. apply existsb_exists in Hs as [s' [Hin Heq]]. boolify.
      subst. by apply list_elem_of_In.
  - intros [Ha Ht Hs]. replace (_ && _) with false; [replace (guard_allows _ _) with true; cbn|].
    + apply forallb_forall. intros s Hin%list_elem_of_In. apply existsb_exists. exists s.
      split; [by apply list_elem_of_In, Hs|by apply bool_decide_eq_true].
    + symmetry. apply guard_allows_spec. by destruct (tenant m).
    + destruct (internal_only m); [|done]. destruct (Ha eq_refl) as (id & role & -> & Hr). symmetry. cbn.
      apply negb_false_iff. by apply allows_role_spec.
Qed.
