(* ===== verification/Registry.v ===== *)
(** * Service registry: [services/registry.rs]

    The registry of services with their status, and the broadcast channel
    every change is sent to.  Records are keyed by the id of their
    descriptor; the rest of the descriptor is never looked at here, so its
    type is a parameter.  [events] is the sequence of snapshots sent so far,
    newest last; the clock is an argument. *)

From S2P Require Import Prelude.

Inductive ServiceStatus := Starting | Active | Degraded | Failed | Standby | Stopped.
#[global] Instance ServiceStatus_eq_dec : EqDecision ServiceStatus.
Proof. solve_decision. Defined.

Section Registry.
Context {D : Type} (d_id : D -> string).

Record ServiceRecord := mkRecord {
  descriptor : D;
  status : ServiceStatus;
  since : Z;
  note : option string;
}.

Record ServiceSnapshot := mkSnapshot {
  s_descriptor : D;
  s_status : ServiceStatus;
  s_since : Z;
  s_note : option string;
}.

Record ServiceRegistry := mkRegistry {
  inner : gmap string ServiceRecord;
  poisoned : bool;
  events : list ServiceSnapshot;
}.

Definition snapshot_from_record (r : ServiceRecord) : ServiceSnapshot :=
  mkSnapshot (descriptor r) (status r) (since r) (note r).

Definition new : ServiceRegistry := mkRegistry ∅ false [].

(** [self.events.send(snapshot)] when there is one. *)
Definition send (evs : list ServiceSnapshot) (s : option ServiceSnapshot) : list ServiceSnapshot :=
  match s with Some s => evs ++ [s] | None => evs end.

Definition register (g : ServiceRegistry) (d : D) (st : ServiceStatus) (n : option string) (now : Z)
    : ServiceRegistry :=
  let id := d_id d in
  let record := mkRecord d st now n in
  if poisoned g then g
  else let m := <[id := record]> (inner g) in
       mkRegistry m (poisoned g) (send (events g) (snapshot_from_record <$> m !! id)).

Definition set_status (g : ServiceRegistry) (id : string) (st : ServiceStatus) (n : option string)
    (now : Z) : ServiceRegistry :=
  if poisoned g then g
  else match inner g !! id with
       | Some r =>
           let r' := mkRecord (descriptor r) st now n in
           mkRegistry (<[id := r']> (inner g)) (poisoned g)
             (send (events g) (Some (snapshot_from_record r')))
       | None => g
       end.

Definition update_note (g : ServiceRegistry) (id : string) (n : option string) : ServiceRegistry :=
  if poisoned g then g
  else match inner g !! id with
       | Some r =>
           let r' := mkRecord (descriptor r) (status r) (since r) n in
           mkRegistry (<[id := r']> (inner g)) (poisoned g)
             (send (events g) (Some (snapshot_from_record r')))
       | None => g
       end.

Definition unregister (g : ServiceRegistry) (id : string) : ServiceRegistry :=
  if poisoned g then g else mkRegistry (delete id (inner g)) (poisoned g) (events g).

(** [key.starts_with(prefix)]. *)
Definition has_prefix (prefix key : string) : bool := String.prefix prefix key.

Definition unregister_prefixed (g : ServiceRegistry) (prefix : string) : ServiceRegistry :=
  if poisoned g then g
  else
    let ids := filter (λ k, has_prefix prefix k = true) (btree_keys (inner g)) in
    mkRegistry (foldl (λ m id, delete id m) (inner g) ids) (poisoned g) (events g).

Definition snapshot (g : ServiceRegistry) : list ServiceSnapshot :=
  if poisoned g then [] else snapshot_from_record <$> btree_values (inner g).

Definition get (g : ServiceRegistry) (id : string) : option ServiceSnapshot :=
  if poisoned g then None else snapshot_from_record <$> inner g !! id.

(** ** Executions *)

Inductive op :=
| ORegister (d : D) (st : ServiceStatus) (n : option string) (now : Z)
| OSetStatus (id : string) (st : ServiceStatus) (n : option string) (now : Z)
| OUpdateNote (id : string) (n : option string)
| OUnregister (id : string)
| OUnregisterPrefixed (prefix : string).

Definition run_op (g : ServiceRegistry) (o : op) : ServiceRegistry :=
  match o with
  | ORegister d st n now => register g d st n now
  | OSetStatus id st n now => set_status g id st n now
  | OUpdateNote id n => update_note g id n
  | OUnregister id => unregister g id
  | OUnregisterPrefixed p => unregister_prefixed g p
  end.

(** The newest snapshot of service [id] in a sequence of events. *)
Definition latest (id : string) (evs : list ServiceSnapshot) : option ServiceSnapshot :=
  last (filter (λ s, d_id (s_descriptor s) = id) evs).

(** What holds of every reachable registry: records are stored under their
    own id, and a subscriber that saw every event knows the current record
    of every registered service. *)
Record registry_ok (g : ServiceRegistry) : Prop := {
  ok_ids : forall id r, inner g !! id = Some r -> d_id (descriptor r) = id;
  ok_latest : forall id r, inner g !! id = Some r ->
    latest id (events g) = Some (snapshot_from_record r);
}.

(** ** Lemmas *)

Lemma latest_snoc id evs s :
  latest id (evs ++ [s]) = if decide (d_id (s_descriptor s) = id) then Some s else latest id evs.
Proof.
  unfold latest. rewrite filter_app. destruct (decide (d_id (s_descriptor s) = id)) as [E|E].
  - rewrite filter_cons_True, filter_nil by done. by rewrite last_snoc.
  - rewrite filter_cons_False, filter_nil by done. by rewrite app_nil_r.
Qed.

Lemma foldl_delete_lookup (ids : list string) (m : gmap string ServiceRecord) k :
  foldl (λ m id, delete id m) m ids !! k = if decide (k ∈ ids) then None else m !! k.
Proof.
  revert m. induction ids as [|i ids IH]; intros m; cbn [foldl];
    [by rewrite decide_False by set_solver|].
  rewrite IH. destruct (decide (k ∈ ids)).
  - by rewrite decide_True by set_solver.
  - destruct (decide (k = i)) as [->|].
    + rewrite decide_True by set_solver. apply lookup_delete_eq.
    + rewrite decide_False by set_solver. by apply lookup_delete_ne.
Qed.

(** Removal keeps the invariant. *)
Lemma registry_ok_shrink g m :
  registry_ok g -> (forall id r, m !! id = Some r -> inner g !! id = Some r) ->
  registry_ok (mkRegistry m (poisoned g) (events g)).
Proof. intros [H1 H2] Hm. split; simpl; eauto. Qed.

(** Storing a record under its own id and sending it keeps the invariant. *)
Lemma registry_ok_store g id r :
  registry_ok g -> d_id (descriptor r) = id ->
  registry_ok (mkRegistry (<[id := r]> (inner g)) (poisoned g)
                 (send (events g) (Some (snapshot_from_record r)))).
Proof.
  intros [H1 H2] Hid. split; simpl; intros id' r'; rewrite lookup_insert_Some;
    intros [[<- <-]|[Hne Hr]]; eauto.
  - rewrite latest_snoc. simpl. by rewrite decide_True.
  - rewrite latest_snoc. simpl. rewrite decide_False by congruence. eauto.
Qed.

Lemma registry_op_ok g o : registry_ok g -> registry_ok (run_op g o).
Proof.
  intros Hg. destruct o as [d st n now|id st n now|id n|id|p]; simpl;
    unfold register, set_status, update_note, unregister, unregister_prefixed;
    destruct (poisoned g) eqn:Hp; try done; try rewrite <- Hp.
  - rewrite lookup_insert_eq. simpl. by apply registry_ok_store.
  - destruct (inner g !! id) as [r|] eqn:Hr; [|done]. apply registry_ok_store; [done|].
    simpl. by apply Hg.
  - destruct (inner g !! id) as [r|] eqn:Hr; [|done]. apply registry_ok_store; [done|].
    simpl. by apply Hg.
  - apply registry_ok_shrink; [done|]. intros id' r [_ ?]%lookup_delete_Some. done.
  - apply registry_ok_shrink; [done|]. intros id' r. rewrite foldl_delete_lookup.
    by destruct (decide _).
Qed.

Lemma registry_new_ok : registry_ok new.
Proof. split; simpl; intros id r; by rewrite lookup_empty. Qed.

Lemma registry_runs_ok os g : registry_ok g -> registry_ok (foldl run_op g os).
Proof. revert g. induction os as [|o os IH]; simpl; eauto using registry_op_ok. Qed.

(** ** Properties *)

(** in every registry reached from [new], the last event sent for a
    registered service is the snapshot [get] returns for it: a subscriber
    that follows the channel never disagrees with a reader about a service
    that is still registered. *)
Theorem events_agree_with_state os id s :
  get (foldl run_op new os) id = Some s ->
  latest id (events (foldl run_op new os)) = Some s /\ d_id (s_descriptor s) = id.
Proof.
  destruct (registry_runs_ok os new registry_new_ok) as [H1 H2]. unfold get.
  destruct (poisoned _); [done|]. intros (r & Hr & ->)%fmap_Some. split; [eauto|]. simpl. eauto.
Qed.

(** [snapshot] lists every registered service exactly once, in the order
    of the ids, and [unregister_prefixed] removes exactly the services whose
    id has the prefix. *)
Theorem snapshot_complete_sorted g prefix :
  registry_ok g -> poisoned g = false ->
  ((λ s, d_id (s_descriptor s)) <$> snapshot g) = btree_keys (inner g)
  /\ (forall id s, get g id = Some s -> s ∈ snapshot g)
  /\ (forall id, get (unregister_prefixed g prefix) id
        = if has_prefix prefix id then None else get g id).
Proof.
  intros [Hid _] Hp. unfold snapshot, get, unregister_prefixed. rewrite Hp. simpl. repeat split.
  - unfold btree_values. rewrite <- btree_entries_keys, <- !list_fmap_compose.
    apply list_fmap_ext. intros i [k r] Hk. simpl. apply Hid.
    apply btree_entries_elem, list_elem_of_lookup. eauto.
  - intros id s (r & Hr & ->)%fmap_Some. apply list_elem_of_fmap_2. unfold btree_values.
    apply list_elem_of_fmap. exists (id, r). split; [done|]. by apply btree_entries_elem.
  - intros id. rewrite foldl_delete_lookup. destruct (has_prefix prefix id) eqn:E.
    + destruct (decide _) as [|Hn]; [done|]. rewrite list_elem_of_filter, btree_keys_elem in Hn.
      destruct (inner g !! id) eqn:Hr; [|done]. exfalso. apply Hn. by eauto.
    + rewrite decide_False; [done|]. rewrite list_elem_of_filter. intros [H _]. congruence.
Qed.
End Registry.

Arguments new {D}.
Arguments get {D}.
Arguments update_note {D}.
Arguments set_status {D}.
Arguments snapshot {D}.

(** ** Witnesses *)

Definition demo_ops : list (op (D := string)) :=
  [ORegister "scheduler" Starting None 1; OSetStatus "scheduler" Active (Some "up") 2;
   OUnregister "ghost"; OUpdateNote "scheduler" (Some "Heartbeat OK")].

Lemma events_agree_with_state_witness :
  latest (λ d, d) "scheduler" (events (foldl (run_op (λ d, d)) new demo_ops))
  = Some (mkSnapshot "scheduler" Active 2 (Some "Heartbeat OK")).
Proof. apply (events_agree_with_state (λ d : string, d) demo_ops "scheduler"). vm_compute. reflexivity. Defined.

Lemma snapshot_complete_sorted_witness :
  get (unregister_prefixed (foldl (run_op (λ d, d)) new demo_ops) "sch") "scheduler" = None.
Proof.
  refine (eq_trans (proj2 (proj2 (snapshot_complete_sorted (λ d : string, d)
    (foldl (run_op (λ d, d)) new demo_ops) "sch" _ _)) "scheduler") _).
  - apply registry_runs_ok, registry_new_ok.
  - vm_compute. reflexivity.
  - vm_compute. reflexivity.
Defined.
