(* ===== verification/RateLimit.v ===== *)
(** * The gateway's rate limiter ([infra/http/gateway.rs])

    One fixed window per service.  A call reads the monotonic clock up to
    three times under the mutex (when it inserts an entry, when it measures
    the window's age and when it starts a new window); the readings are the
    arguments [t1], [t2] and [t3] of a call, in nanoseconds. *)

From S2P Require Import Prelude.

Definition DEFAULT_RATE_LIMIT_PER_WINDOW : Z := 120.
Definition DEFAULT_WINDOW : Z := 1000000000.

Record RateEntry := mkRate { window_start : Z; count : Z }.
Record GatewayRateLimiter := mkLimiter { inner : gmap string RateEntry; window : Z; limit : Z }.

Definition new (limit window : Z) : GatewayRateLimiter := mkLimiter ∅ window limit.
Definition SERVICE_RATE_LIMITER : GatewayRateLimiter := new DEFAULT_RATE_LIMIT_PER_WINDOW DEFAULT_WINDOW.

(** The body under the lock, on the entry of the key. *)
Definition acquire_entry (window limit : Z) (entry : RateEntry) (t2 t3 : Z) : bool * RateEntry :=
  let entry := if window <=? Z.max 0 (t2 - window_start entry) then mkRate t3 0 else entry in
  if limit <=? count entry then (false, entry) else (true, mkRate (window_start entry) (count entry + 1)).

Definition try_acquire_with_limit (self : GatewayRateLimiter) (key : string) (limit_override : option Z) (t1 t2 t3 : Z)
    : bool * GatewayRateLimiter :=
  let limit := default (limit self) limit_override in
  if limit =? 0 then (true, self)
  else
    let entry := default (mkRate t1 0) (inner self !! key) in
    let (ok, entry) := acquire_entry (window self) limit entry t2 t3 in
    (ok, mkLimiter (<[key := entry]> (inner self)) (window self) (RateLimit.limit self)).

(** ** Sequences of calls *)

Record call := mkCall { c_key : string; c_override : option Z; c_t1 : Z; c_t2 : Z; c_t3 : Z }.

Fixpoint run (self : GatewayRateLimiter) (calls : list call) : list bool * GatewayRateLimiter :=
  match calls with
  | [] => ([], self)
  | c :: calls =>
      let (ok, self) := try_acquire_with_limit self (c_key c) (c_override c) (c_t1 c) (c_t2 c) (c_t3 c) in
      let (oks, self) := run self calls in (ok :: oks, self)
  end.

(** The clock never runs backwards: the readings of the calls, in order,
    starting no earlier than [last]. *)
Fixpoint ordered (last : Z) (calls : list call) : Prop :=
  match calls with
  | [] => True
  | c :: calls => last <= c_t1 c /\ c_t1 c <= c_t2 c /\ c_t2 c <= c_t3 c /\ ordered (c_t3 c) calls
  end.

(** The effective limit of a call. *)
Definition effective (self : GatewayRateLimiter) (c : call) : Z := default (limit self) (c_override c).

(** Admitted calls for [key] in the half-open interval [[a, b)]. *)
Fixpoint admitted (key : string) (a b : Z) (calls : list call) (oks : list bool) : Z :=
  match calls, oks with
  | c :: calls, ok :: oks =>
      (if ok && bool_decide (c_key c = key) && (a <=? c_t2 c) && (c_t2 c <? b) then 1 else 0) + admitted key a b calls oks
  | _, _ => 0
  end.

Section Bound.
Variables W L a : Z.
Hypothesis (HW : 0 < W).

(** The bookkeeping of the proof: [n] calls admitted in [[a, a + W)] so far,
    the clock at [last], the key's entry [e]. *)
Definition tally (last n : Z) (e : RateEntry) : Prop :=
  0 <= count e <= L /\ window_start e <= last /\ (last < a -> n = 0)
  /\ (n <= count e \/ (a <= window_start e /\ n <= L + count e) \/ (a + W <= last /\ n <= 2 * L)).

Lemma acquire_tally last n e lim t2 t3 : tally last n e -> 0 < lim <= L -> 0 <= n -> last <= t2 -> t2 <= t3 ->
  let (ok, e') := acquire_entry W lim e t2 t3 in
  tally t3 (n + if ok && (a <=? t2) && (t2 <? a + W) then 1 else 0) e'.
Proof.
  intros (Hc & Hs & Hz & Hn) Hl Hn0 H2 H3. unfold acquire_entry.
  rewrite Z.max_r by lia. destruct (Z.leb_spec W (t2 - window_start e)) as [Hreset|Hkeep].
  - cbn [count window_start]. destruct (Z.leb_spec lim 0); [lia|]. cbn [andb].
    destruct (Z.leb_spec a t2), (Z.ltb_spec t2 (a + W)); cbn [andb]; unfold tally; cbn; repeat split; try lia.
  - destruct (Z.leb_spec lim (count e)); cbn [andb]; [|destruct (Z.leb_spec a t2), (Z.ltb_spec t2 (a + W)); cbn [andb]];
      unfold tally; cbn; repeat split; lia.
Qed.
End Bound.

(** The state of the key's entry as far as the bound is concerned: absent, or tallied. *)
Definition key_tally (W L a : Z) (key : string) (last n : Z) (g : GatewayRateLimiter) : Prop :=
  match inner g !! key with Some e => tally W L a last n e | None => n = 0 end.

Lemma tally_later W L a last last' n e : tally W L a last n e -> last <= last' -> tally W L a last' n e.
Proof. unfold tally. intros. repeat split; lia. Qed.

Lemma call_tally W L a key last n g c : 0 < W -> 0 <= L -> window g = W -> key_tally W L a key last n g -> 0 <= n ->
  (c_key c = key -> 0 < effective g c <= L) -> last <= c_t1 c -> c_t1 c <= c_t2 c -> c_t2 c <= c_t3 c ->
  let (ok, g') := try_acquire_with_limit g (c_key c) (c_override c) (c_t1 c) (c_t2 c) (c_t3 c) in
  window g' = W /\ limit g' = limit g
  /\ key_tally W L a key (c_t3 c) (n + if ok && bool_decide (c_key c = key) && (a <=? c_t2 c) && (c_t2 c <? a + W) then 1 else 0) g'.
Proof.
  intros HW HL Hw Ht Hn Hlim H1 H2 H3. unfold try_acquire_with_limit, effective, key_tally in *.
  destruct (decide (c_key c = key)) as [Heq|Hne].
  - specialize (Hlim Heq). rewrite (bool_decide_eq_true_2 _ Heq). rewrite Heq. destruct (Z.eqb_spec (default (limit g) (c_override c)) 0); [lia|].
    rewrite Hw. set (e := default (mkRate (c_t1 c) 0) _).
    assert (He : tally W L a (c_t1 c) n e).
    { subst e. destruct (inner g !! key) as [e|]; cbn; [by eapply tally_later|]. unfold tally; cbn. lia. }
    pose proof (acquire_tally W L a HW _ n e _ (c_t2 c) (c_t3 c) He Hlim Hn H2 H3) as Hstep.
    destruct (acquire_entry _ _ _ _ _) as [ok e'] eqn:E. cbn. by rewrite lookup_insert_eq, andb_true_r.
  - rewrite (bool_decide_eq_false_2 _ Hne).
    destruct (_ =? 0); [|destruct (acquire_entry _ _ _ _ _) as [[] e']]; cbn [window limit inner andb];
      rewrite ?Z.add_0_r, ?lookup_insert_ne by done; (split; [done|split; [done|]]);
      (destruct (inner g !! key); [eapply tally_later; [done|lia]|done]).
Qed.

Lemma admitted_nonneg key a b calls oks : 0 <= admitted key a b calls oks.
Proof. revert oks. induction calls as [|c calls IH]; intros [|ok oks]; cbn; try lia. specialize (IH oks). destruct (_ && _); lia. Qed.

Lemma run_bound W L a key last n g calls : 0 < W -> 0 <= L -> window g = W -> key_tally W L a key last n g -> 0 <= n ->
  ordered last calls -> (forall c, c ∈ calls -> c_key c = key -> 0 < effective g c <= L) ->
  n + admitted key a (a + W) calls (run g calls).1 <= 2 * L.
Proof.
  intros HW HL. revert last n g. induction calls as [|c calls IH]; intros last n g Hw Ht Hn Ho Hlim; cbn.
  - unfold key_tally in Ht. destruct (inner g !! key); [|lia]. unfold tally in Ht. lia.
  - destruct Ho as (H1 & H2 & H3 & Ho). pose proof (call_tally W L a key last n g c HW HL Hw Ht Hn (Hlim c ltac:(set_solver)) H1 H2 H3) as Hc.
    destruct (try_acquire_with_limit _ _ _ _ _ _) as [ok g']. destruct Hc as (Hw' & Hl' & Ht').
    specialize (IH (c_t3 c) _ g' Hw' Ht'). destruct (run g' calls) as [oks g'']. cbn in *.
    rewrite Z.add_assoc. apply IH; [destruct (_ && _); lia|done|].
    intros c' Hin Hk. unfold effective. rewrite Hl'. apply Hlim; [set_solver|done].
Qed.

(** C37: The gateway never admits more than twice a service's limit in any
    interval as long as its window.  From a fresh limiter, for every
    sequence of calls under a clock that never runs backwards, whatever
    services they are for and wherever the interval starts, at most [2 * L]
    calls of one service, each with an effective limit of at most [L]
    requests per window, are admitted in [[a, a + window)]. *)
Theorem rate_limit_bound limit W L a key calls :
  0 < W -> 0 <= L -> ordered 0 calls ->
  (forall c, c ∈ calls -> c_key c = key -> 0 < effective (new limit W) c <= L) ->
  admitted key a (a + W) calls (run (new limit W) calls).1 <= 2 * L.
Proof.
  intros HW HL Ho Hlim. apply (run_bound W L a key 0 0 (new limit W) calls); done.
Qed.

(** The factor two is reached: with a limit of two, four calls of the service
    are admitted within one window's length, two in the first window (whose
    start was read just before the first call's age) and two in the next. *)
Definition burst : list call :=
  [mkCall "s" None 0 1 1; mkCall "s" None 1 1 1; mkCall "s" None 2 2 2; mkCall "s" None 1000 1000 1000;
   mkCall "s" None 1000 1000 1000; mkCall "s" None 1000 1000 1000; mkCall "t" None 1003 1003 1003].
Lemma rate_limit_bound_witness :
  admitted "s" 1 1001 burst (run (new 2 1000) burst).1 = 4 /\ admitted "s" 1 1001 burst (run (new 2 1000) burst).1 <= 4.
Proof.
  split; [vm_compute; reflexivity|]. apply (rate_limit_bound 2 1000 2 1 "s" burst); [lia|lia|cbn; lia|].
  intros c Hc _. revert c Hc. apply (proj1 (Forall_forall _ _)). repeat constructor; cbn; lia.
Defined.
