(* ===== verification/Gateway.v ===== *)
(** * The service gateway ([infra/http/routes.rs], [infra/modules/runtime/process.rs])

    A call of [/gateway/services/<id>/...]: the service is looked up, the
    caller's token checked against the service's metadata, the rate limit
    taken, the request rebuilt for the module and sent to its targets in
    turn.  [gateway_proxy] is the handler; it threads the token store and the
    rate limiter and returns what was sent upstream and audited.  The
    static-site edge, which forwards browser requests to the gateway, is
    [static_gateway_request].

    The libraries the handler calls are the classes below: [HttpTypes]
    (header texts, percent decoding, method and header conversion) and
    [RequestBuilder] (the client's request builder). *)

From S2P Require Import Prelude Text Ip Edge Roles ServiceTokens ServiceTypes Registry RateLimit.

#[local] Open Scope fenrir_scope.

(** ** Library interfaces *)

(** [HeaderValue::to_str], [urlencoding::decode], and the conversions of a
    method and of a header from one HTTP library's types to the other's. *)
Class HttpTypes := {
  to_str : bytes -> option text;
  url_decode : text -> option text;
  method_converts : text -> bool;
  header_converts : text -> bytes -> bool;
}.

(** The request builder: [streaming] selects the client without a total
    timeout. *)
Class RequestBuilder (B : Type) := {
  request : bool -> text -> text -> B;
  add_header : B -> text -> bytes -> B;
  set_body : B -> bytes -> B;
  values : B -> text -> list bytes;
}.
(** What the handler relies on: a new request has no headers, [header]
    appends a value to those of its name, [body] leaves the headers alone. *)
Class RequestBuilderLaws (B : Type) `{!RequestBuilder B} : Prop := {
  values_request streaming m u n : values (request streaming m u) n = [];
  values_add_header b n v m : values (add_header b n v) m = values b m ++ (if decide (n = m) then [v] else []);
  values_set_body b x n : values (set_body b x) n = values b n;
}.

(** A text as the host's byte strings hold it. *)
Definition str_of (t : text) : string := String.string_of_list_ascii ((λ b, Ascii.ascii_of_N (Z.to_N b)) <$> utf8 t).

(** ** Services *)

(** The fields of [ServiceDescriptorOwned] the gateway reads. *)
Record Descriptor := mkDescriptor {
  id : string;
  security : option ServiceSecurityMetadata;
  ingress : option ServiceIngressMetadata;
}.

Inductive Target :=
| RuntimePort (module_id instance_id : text) (port : Z)
| DevService (module_id service_id endpoint : text)
| DeclaredService (module_id service_id endpoint : text).

Inductive IngressError := UnsupportedService | InvalidModuleId | ModuleNotRunning | ModulePortUnknown
  | DevServiceInactive | DeclaredServiceMissing | RuntimeError.

(** ** Problems: the status of the answer and its message *)

Inductive Reason := module_service_missing | gateway_security_unavailable | gateway_invalid_service
  | gateway_unknown_service | gateway_service_unavailable | gateway_protocol_unsupported | gateway_security_missing
  | gateway_token_missing | gateway_token_invalid | gateway_token_expired | gateway_security_failure
  | gateway_access_denied | gateway_rate_limited | gateway_service_failure | gateway_method_not_allowed
  | gateway_body_read_failed | gateway_upstream_unreachable | gateway_upstream_read_failed.
Record Problem := http_problem { p_status : Z; p_reason : Reason }.

(** ** Pieces of the handler *)

Section Pieces.
Context {HT : HttpTypes}.

Definition decode_service_id (value : text) : result string Problem :=
  ok_or (str_of <$> url_decode value) (http_problem 400 gateway_invalid_service).

Definition AUTHORIZATION : text := lit "authorization".

Definition extract_optional_gateway_token (headers : ProxyHeaders.HeaderMap) : result (option text) Problem :=
  match ProxyHeaders.get headers AUTHORIZATION with
  | None => Ok None
  | Some value =>
      text <-? ok_or (to_str value) (http_problem 401 gateway_token_invalid);;
      let text := trim text in
      if bool_decide (text = []) then Ok None
      else
        let token := match strip_prefix (lit "Bearer ") text with
                     | Some token => Some token
                     | None => strip_prefix (lit "bearer ") text
                     end in
        match (token ← token; let token := trim token in if bool_decide (token = []) then None else Some token) with
        | Some token => Ok (Some token)
        | None => Err (http_problem 401 gateway_token_invalid)
        end
  end.

Definition extract_gateway_token (headers : ProxyHeaders.HeaderMap) : result text Problem :=
  token <-? extract_optional_gateway_token headers;;
  ok_or token (http_problem 401 gateway_token_missing).
End Pieces.

(** Only errors of the token store reach it here. *)
Definition map_service_token_error (e : ServiceTokenError) : Problem :=
  match e with
  | NotFound | Expired | IdleTimeout => http_problem 401 gateway_token_expired
  | Store => http_problem 502 gateway_security_failure
  end.

Definition map_ingress_error (e : IngressError) : Problem :=
  match e with
  | UnsupportedService => http_problem 404 gateway_unknown_service
  | InvalidModuleId => http_problem 400 gateway_invalid_service
  | ModuleNotRunning | ModulePortUnknown => http_problem 503 gateway_service_unavailable
  | DevServiceInactive | DeclaredServiceMissing => http_problem 404 gateway_unknown_service
  | RuntimeError => http_problem 502 gateway_service_failure
  end.

(** [trim_start_matches('/')] and [trim_end_matches('/')]. *)
Definition trim_start_slashes (s : text) : text := drop_while (λ c, c =? 47) s.
Definition trim_end_slashes (s : text) : text := rev (drop_while (λ c, c =? 47) (rev s)).

(** The prefix in front of the caller's path, unless the path has it. *)
Definition route_below (normalized tail : text) : text :=
  let otherwise := 47 :: normalized ++ (if bool_decide (tail = []) then [] else 47 :: tail) in
  match strip_prefix normalized tail with
  | Some rest => if bool_decide (rest = []) then 47 :: normalized
                 else if starts_with [47] rest then 47 :: tail else otherwise
  | None => otherwise
  end.

Definition service_route_path (ingress : option ServiceIngressMetadata) (path : text) (query : option text) : text :=
  let tail := trim_start_slashes path in
  let buffer :=
    match ingress with
    | Some meta =>
        match route_prefix meta with
        | Some prefix =>
            if bool_decide (prefix = lit "/") then 47 :: tail
            else
              let normalized := trim_start_slashes (trim_end_slashes prefix) in
              if bool_decide (normalized = []) then 47 :: tail
              else route_below normalized tail
        | None => 47 :: tail
        end
    | None => 47 :: tail
    end in
  buffer ++ match query with
            | Some q => if bool_decide (q = []) then [] else 63 :: q
            | None => []
            end.

Definition target_origin (t : Target) : text :=
  match t with
  | RuntimePort _ _ port => lit "127.0.0.1:" ++ show_number 10 port
  | DevService _ _ endpoint | DeclaredService _ _ endpoint => endpoint
  end.
Definition build_target_url (t : Target) (path : text) : text := lit "http://" ++ target_origin t ++ path.

(** ** Failover *)

(** What an attempt gives: a response (the body is absent when reading it
    fails), or an error with what the client library says about it. *)
Inductive Reply :=
| Response (status : Z) (headers : ProxyHeaders.HeaderMap) (body : option bytes)
| Failure (is_connect is_timeout : bool).

Definition is_retry_safe_method (method : text) : bool :=
  bool_decide (method ∈ [lit "GET"; lit "HEAD"; lit "OPTIONS"]).
Definition should_fail_over_gateway_response (method : text) (status : Z) : bool :=
  bool_decide (method = lit "GET") && bool_decide (status ∈ [502; 503; 504]).
Definition should_fail_over_gateway_error (method : text) (is_connect is_timeout : bool) : bool :=
  if is_connect then true else is_retry_safe_method method && is_timeout.

(** The replies to the attempts, in order, and the result that counts.  The
    network answers the [i]-th attempt with [send i]. *)
Fixpoint send_with_failover {T} (method : text) (i : nat) (targets : list T) (send : nat -> T -> Reply)
    : list (T * Reply) * option Reply :=
  match targets with
  | [] => ([], None)
  | target :: rest =>
      let more := negb (bool_decide (rest = [] :> list T)) in
      let result := send i target in
      if more && match result with
                 | Response status _ _ => should_fail_over_gateway_response method status
                 | Failure c t => should_fail_over_gateway_error method c t
                 end
      then let (sent, final) := send_with_failover method (S i) rest send in ((target, result) :: sent, final)
      else ([(target, result)], Some result)
  end.

(** ** The handler *)

Inductive GatewayRequestKind := KHttp | KGrpc.
#[global] Instance kind_eq_dec : EqDecision GatewayRequestKind.
Proof. solve_decision. Defined.
Definition kind_str (k : GatewayRequestKind) : text := match k with KHttp => lit "http" | KGrpc => lit "grpc" end.

(** A request to the gateway; [body] is absent when reading it fails. *)
Record Call := mkGatewayCall {
  service_param : text;
  tail : text;
  peer : option IpAddr;
  method : text;
  headers : ProxyHeaders.HeaderMap;
  query : option text;
  body : option bytes;
  kind : GatewayRequestKind;
}.

Record Host := mkHost {
  module_service : bool;
  security_manager : option ServiceTokenStore;
  registry : ServiceRegistry (D := Descriptor);
  limiter : GatewayRateLimiter;
  client_ip : Edge.ClientIpPolicy;
}.

(** The clock readings of one call: for the token check (time since the
    store's start, and now) and for the limiter. *)
Record Clock := mkClock { k_elapsed : Z; k_now : Z; k_t1 : Z; k_t2 : Z; k_t3 : Z }.

Section Handler.
Context {HT : HttpTypes} {B : Type} {RB : RequestBuilder B}.

(** The process's edge secret; the module service's answer to
    [resolve_ingress_targets]; the network's answer to the [i]-th attempt. *)
Context (secret : bytes) (resolve_ingress_targets : string -> result (list Target) IngressError)
        (network : nat -> Target -> B -> Reply).

(** Who calls: the claims of the caller's token, or nobody. *)
Definition authorize (store : ServiceTokenStore) (k : Clock) (access : ServiceIngressAccess)
    (metadata : option ServiceSecurityMetadata) (headers : ProxyHeaders.HeaderMap)
    : result (option DelegatedTokenClaims) Problem * ServiceTokenStore :=
  let denied c := match metadata with Some m => negb (allows_claims m c) | None => false end in
  match access with
  | Internal =>
      match extract_gateway_token headers with
      | Err p => (Err p, store)
      | Ok token =>
          match ServiceTokens.validate store (str_of token) (k_elapsed k) (k_now k) with
          | (Err e, store) => (Err (map_service_token_error e), store)
          | (Ok c, store) =>
              if denied c then (Err (http_problem 403 gateway_access_denied), store) else (Ok (Some c), store)
          end
      end
  | Public =>
      match extract_optional_gateway_token headers with
      | Err p => (Err p, store)
      | Ok None => (Ok None, store)
      | Ok (Some token) =>
          match ServiceTokens.validate store (str_of token) (k_elapsed k) (k_now k) with
          | (Err NotFound, store) | (Err Expired, store) | (Err IdleTimeout, store) => (Ok None, store)
          | (Err e, store) => (Err (map_service_token_error e), store)
          | (Ok c, store) =>
              if denied c then (Err (http_problem 403 gateway_access_denied), store) else (Ok (Some c), store)
          end
      end
  end.

Definition rate_limit_override (ingress : option ServiceIngressMetadata) : option Z :=
  meta ← ingress;
  match rate_limit meta with RDefault => None | Unlimited => Some 0 | CustomPerSecond limit => Some limit end.

Definition HOST : text := lit "host".
Definition ACCEPT : text := lit "accept".

Definition accepts_sse (headers : ProxyHeaders.HeaderMap) : bool :=
  match (v ← ProxyHeaders.get headers ACCEPT; to_str v) with
  | Some v => contains_sub (lit "text/event-stream") v
  | None => false
  end.

(** The headers the gateway sets itself, in order. *)
Definition identity_headers (service_id : string) (kind : GatewayRequestKind) (claims : option DelegatedTokenClaims)
    : list (text * bytes) :=
  [(lit "x-fenrir-gateway-service", lit service_id); (lit "x-fenrir-gateway-protocol", kind_str kind)]
  ++ match claims with
     | Some c =>
         [(lit "x-fenrir-actor", lit (identifier (actor c))); (lit "x-fenrir-tenant", lit (tenant_id c))]
         ++ (if bool_decide (scopes c = []) then []
             else [(lit "x-fenrir-scopes", utf8 (join (lit " ") (scope_text <$> scopes c)))])
     | None => [(lit "x-fenrir-actor", lit "public"); (lit "x-fenrir-tenant", lit "public")]
     end.

(** A caller's header the gateway does not pass on. *)
Definition withheld (policy : Edge.ClientIpPolicy) (trusted_hop : bool) (name : text) : bool :=
  bool_decide (name = HOST) || bool_decide (name = ProxyHeaders.EDGE_HOP_HEADER)
  || bool_decide (name = ProxyHeaders.FORWARDED_FOR)
  || (negb trusted_hop && Edge.is_address_header policy name).

Definition trusted_hop (claims : option DelegatedTokenClaims) (headers : ProxyHeaders.HeaderMap) : bool :=
  bool_decide (is_Some claims) || ProxyHeaders.is_edge_hop secret (ProxyHeaders.get headers ProxyHeaders.EDGE_HOP_HEADER).

Definition build_request (policy : Edge.ClientIpPolicy) (service_id : string) (claims : option DelegatedTokenClaims)
    (c : Call) (path : text) (body : bytes) (target : Target) : B :=
  let hop := trusted_hop claims (headers c) in
  let builder := request (accepts_sse (headers c)) (method c) (build_target_url target path) in
  let builder := foldl (λ b h, add_header b h.1 h.2) builder (identity_headers service_id (kind c) claims) in
  let builder := foldl (λ b h, if withheld policy hop h.1 then b
                               else if header_converts h.1 h.2 then add_header b h.1 h.2 else b) builder (headers c) in
  let builder := match ProxyHeaders.gateway_forwarded_for (headers c) (peer c) hop policy with
                 | Some value => add_header builder ProxyHeaders.FORWARDED_FOR (utf8 value)
                 | None => builder
                 end in
  set_body builder body.

(** The answer to the caller; a streamed body is passed on as it comes. *)
Record Answer := mkAnswer { a_status : Z; a_headers : ProxyHeaders.HeaderMap; a_body : option bytes }.

Definition convert_upstream_response (status : Z) (hs : ProxyHeaders.HeaderMap) (body : option bytes) : result Answer Problem :=
  let status := if (100 <=? status) && (status <=? 999) then status else 502 in
  let is_streaming := match (v ← ProxyHeaders.get hs (lit "content-type"); to_str v) with
                      | Some ct => starts_with (lit "text/event-stream") ct
                      | None => false
                      end in
  let hop := ProxyHeaders.new (ProxyHeaders.get_all hs (lit "connection")) in
  let hs := base.filter (λ h, Is_true (negb (ProxyHeaders.contains hop h.1) && header_converts h.1 h.2)) hs in
  if is_streaming then Ok (mkAnswer status hs body)
  else body <-? ok_or body (http_problem 502 gateway_upstream_read_failed);; Ok (mkAnswer status hs (Some body)).

(** What a call did: the answer, the requests sent with the replies to them,
    and the host afterwards. *)
Record Outcome := mkOutcome {
  result_of : result Answer Problem;
  sent : list (Target * B * Reply);
  host : Host;
  audit : list (bool * Z);
}.

Definition set_store (h : Host) (s : ServiceTokenStore) : Host :=
  mkHost (module_service h) (Some s) (registry h) (limiter h) (client_ip h).
Definition set_limiter (h : Host) (l : GatewayRateLimiter) : Host :=
  mkHost (module_service h) (security_manager h) (registry h) l (client_ip h).

(** From the resolution of the targets on. *)
Definition forward (h : Host) (c : Call) (service_id : string) (ingress : option ServiceIngressMetadata)
    (claims : option DelegatedTokenClaims) : result Answer Problem * list (Target * B * Reply) :=
  match resolve_ingress_targets service_id with
  | Err e => (Err (map_ingress_error e), [])
  | Ok targets =>
      let path := service_route_path ingress (tail c) (query c) in
      if negb (method_converts (method c)) then (Err (http_problem 405 gateway_method_not_allowed), [])
      else match body c with
           | None => (Err (http_problem 400 gateway_body_read_failed), [])
           | Some bytes =>
               let build := build_request (client_ip h) service_id claims c path bytes in
               let (replies, final) := send_with_failover (method c) 0 targets (λ i t, network i t (build t)) in
               (match final with
                | Some (Response status hs body) => convert_upstream_response status hs body
                | Some (Failure _ _) | None => Err (http_problem 502 gateway_upstream_unreachable)
                end, (λ tr, (tr.1, build tr.1, tr.2)) <$> replies)
           end
  end.

(** After the service is known to be active. *)
Definition serve (h : Host) (store : ServiceTokenStore) (k : Clock) (c : Call) (service_id : string) (d : Descriptor)
    : result Answer Problem * list (Target * B * Reply) * Host :=
  let access := match ingress d with Some meta => access meta | None => Internal end in
  let supports_grpc := match ingress d with Some meta => bool_decide (Grpc ∈ protocols meta) | None => false end in
  if bool_decide (kind c = KGrpc) && negb supports_grpc then (Err (http_problem 400 gateway_protocol_unsupported), [], h)
  else if bool_decide (access = Internal) && bool_decide (security d = None) then
    (Err (http_problem 403 gateway_security_missing), [], h)
  else
    let (claims, store) := authorize store k access (security d) (headers c) in
    let h := set_store h store in
    match claims with
    | Err p => (Err p, [], h)
    | Ok claims =>
        let (ok, l) := try_acquire_with_limit (limiter h) service_id (rate_limit_override (ingress d)) (k_t1 k) (k_t2 k) (k_t3 k) in
        let h := set_limiter h l in
        if negb ok then (Err (http_problem 429 gateway_rate_limited), [], h)
        else (forward h c service_id (ingress d) claims, h)
    end.

Definition gateway_proxy (h : Host) (k : Clock) (c : Call) : Outcome :=
  let fail p := mkOutcome (Err p) [] h [] in
  if negb (module_service h) then fail (http_problem 503 module_service_missing)
  else match security_manager h with
  | None => fail (http_problem 503 gateway_security_unavailable)
  | Some store =>
      match decode_service_id (service_param c) with
      | Err p => fail p
      | Ok service_id =>
          match Registry.get (registry h) service_id with
          | None => fail (http_problem 404 gateway_unknown_service)
          | Some snapshot =>
              if negb (bool_decide (s_status snapshot = Active)) then fail (http_problem 503 gateway_service_unavailable)
              else
                let d := s_descriptor snapshot in
                let '(r, sent, h') := serve h store k c service_id d in
                let audited := match ingress d with Some meta => bool_decide (access meta = Public) | None => false end in
                mkOutcome r sent h'
                  (if audited then [match r with Ok a => (true, a_status a) | Err p => (false, p_status p) end] else [])
          end
      end
  end.
End Handler.

(** ** The static-site edge

    [static_gateway_proxy_handler] up to the request it sends to the control
    plane's gateway ([control_plane] is its base URL). *)

Section StaticEdge.
Context {HT : HttpTypes} {B : Type} {RB : RequestBuilder B} (secret : bytes).

Definition ACCEPT_ENCODING : text := lit "accept-encoding".

(** A browser's header the edge does not pass on. *)
Definition edge_withheld (policy : Edge.ClientIpPolicy) (hop : ProxyHeaders.HopByHop) (name : text) : bool :=
  bool_decide (name = HOST) || bool_decide (name = ACCEPT_ENCODING) || bool_decide (name = ProxyHeaders.EDGE_HOP_HEADER)
  || Edge.is_address_header policy name || ProxyHeaders.contains hop name.

Definition static_gateway_request (policy : Edge.ClientIpPolicy) (control_plane path_and_query : text) (method : text)
    (peer : option IpAddr) (hs : ProxyHeaders.HeaderMap) (body : option bytes) : B :=
  let method := if method_converts method then method else lit "GET" in
  let hop := ProxyHeaders.new (ProxyHeaders.get_all hs (lit "connection")) in
  let client := Edge.resolve policy peer (match Edge.header policy with Some n => ProxyHeaders.get_all hs n | None => [] end) in
  let upstream := request true method (control_plane ++ path_and_query) in
  let upstream := foldl (λ b h, if edge_withheld policy hop h.1 then b else add_header b h.1 h.2) upstream hs in
  let upstream := match client with
                  | Some client => add_header upstream ProxyHeaders.FORWARDED_FOR (utf8 (show_ip client))
                  | None => upstream
                  end in
  let upstream := add_header upstream ProxyHeaders.EDGE_HOP_HEADER secret in
  match body with Some bytes => set_body upstream bytes | None => upstream end.
End StaticEdge.

(** ** An instance of the libraries, for examples *)

Record SimpleRequest := mkSimple { q_streaming : bool; q_method : text; q_url : text; q_headers : ProxyHeaders.HeaderMap; q_body : bytes }.
#[export] Instance simple_builder : RequestBuilder SimpleRequest := {
  request s m u := mkSimple s m u [] [];
  add_header b n v := mkSimple (q_streaming b) (q_method b) (q_url b) (q_headers b ++ [(n, v)]) (q_body b);
  set_body b x := mkSimple (q_streaming b) (q_method b) (q_url b) (q_headers b) x;
  values b n := ProxyHeaders.get_all (q_headers b) n;
}.

Lemma get_all_snoc hs n v m : ProxyHeaders.get_all (hs ++ [(n, v)]) m = ProxyHeaders.get_all hs m ++ (if decide (n = m) then [v] else []).
Proof.
  unfold ProxyHeaders.get_all. rewrite filter_app, fmap_app. f_equal. destruct (decide (n = m)).
  - by rewrite filter_cons_True.
  - by rewrite filter_cons_False.
Qed.

#[export] Instance simple_builder_laws : RequestBuilderLaws SimpleRequest.
Proof. split; intros; [done|apply get_all_snoc|done]. Qed.

#[export] Instance simple_types : HttpTypes := {
  to_str v := if forallb (λ b, (32 <=? b) && (b <=? 126)) v then Some v else None;
  url_decode t := Some t;
  method_converts m := negb (bool_decide (m = []));
  header_converts n v := true;
}.

(** ** Headers of built requests *)

Lemma get_all_cons n v hs m : ProxyHeaders.get_all ((n, v) :: hs) m = (if decide (n = m) then [v] else []) ++ ProxyHeaders.get_all hs m.
Proof.
  unfold ProxyHeaders.get_all. destruct (decide (n = m)).
  - by rewrite filter_cons_True.
  - by rewrite filter_cons_False.
Qed.
Lemma get_all_absent (hs : ProxyHeaders.HeaderMap) n : n ∉ hs.*1 -> ProxyHeaders.get_all hs n = [].
Proof.
  induction hs as [|[m v] hs IH]; [done|]. rewrite fmap_cons, not_elem_of_cons. cbn [fst]. intros [Hm Hn].
  rewrite get_all_cons, decide_False by congruence. by apply IH.
Qed.

(** The values of [name] among the headers that pass a test. *)
Definition passed (p : text -> bytes -> bool) (hs : ProxyHeaders.HeaderMap) (name : text) : list bytes :=
  base.filter (λ v, Is_true (p name v)) (ProxyHeaders.get_all hs name).

Section Built.
Context {HT : HttpTypes} {B : Type} {RB : RequestBuilder B} {RL : RequestBuilderLaws B}.

Lemma values_add_all hs (b : B) n :
  values (foldl (λ b h, add_header b h.1 h.2) b hs) n = values b n ++ ProxyHeaders.get_all hs n.
Proof.
  revert b. induction hs as [|[m v] hs IH]; intros b; cbn [foldl]; [by rewrite app_nil_r|].
  rewrite IH, values_add_header, get_all_cons, app_assoc. done.
Qed.

Lemma values_add_passed (p : text -> bytes -> bool) hs (b : B) n :
  values (foldl (λ b h, if p h.1 h.2 then add_header b h.1 h.2 else b) b hs) n = values b n ++ passed p hs n.
Proof.
  unfold passed. revert b. induction hs as [|[m v] hs IH]; intros b; cbn [foldl fst snd]; [by rewrite app_nil_r|].
  rewrite IH, get_all_cons, filter_app. destruct (p m v) eqn:E.
  - rewrite values_add_header, <- app_assoc. f_equal. f_equal. destruct (decide (m = n)) as [->|]; [|done].
    rewrite filter_cons_True by (by rewrite E). done.
  - destruct (decide (m = n)) as [->|]; [|done]. rewrite filter_cons_False by (rewrite E; by intros []). done.
Qed.

Lemma passed_none p hs n : (forall v, p n v = false) -> passed p hs n = [].
Proof. intros Hp. unfold passed. induction (ProxyHeaders.get_all hs n) as [|v vs IH]; [done|]. rewrite filter_cons_False; [done|]. rewrite Hp. by intros []. Qed.
Lemma passed_all p hs n : (forall v, p n v = true) -> passed p hs n = ProxyHeaders.get_all hs n.
Proof. intros Hp. unfold passed. induction (ProxyHeaders.get_all hs n) as [|v vs IH]; [done|]. rewrite filter_cons_True; [by rewrite IH|]. by rewrite Hp. Qed.

Definition gateway_passes (policy : Edge.ClientIpPolicy) (hop : bool) (n : text) (v : bytes) : bool :=
  negb (withheld policy hop n) && header_converts n v.

Lemma build_request_values secret policy sid claims c path body target n :
  values (build_request (B := B) secret policy sid claims c path body target) n
  = ProxyHeaders.get_all (identity_headers sid (kind c) claims) n
    ++ passed (gateway_passes policy (trusted_hop secret claims (headers c))) (headers c) n
    ++ (if decide (ProxyHeaders.FORWARDED_FOR = n)
        then utf8 <$> option_list (ProxyHeaders.gateway_forwarded_for (headers c) (peer c) (trusted_hop secret claims (headers c)) policy) else []).
Proof.
  unfold build_request. set (hop := trusted_hop _ _ _). rewrite values_set_body.
  assert (Hf : forall (b : B) l, foldl (λ b h, if withheld policy hop h.1 then b else if header_converts h.1 h.2 then add_header b h.1 h.2 else b) b l
      = foldl (λ b h, if gateway_passes policy hop h.1 h.2 then add_header b h.1 h.2 else b) b l).
  { intros b l. revert b. induction l as [|h l IH]; intros b; [done|]. cbn [foldl]. rewrite IH. unfold gateway_passes. by destruct (withheld _ _ _). }
  rewrite Hf. destruct (ProxyHeaders.gateway_forwarded_for _ _ _ _) as [v|]; [rewrite values_add_header|];
    rewrite values_add_passed, values_add_all, values_request, app_nil_l.
  - by rewrite <- app_assoc.
  - by destruct (decide _); rewrite app_nil_r.
Qed.
End Built.
