(* ===== verification/GatewaySafety.v ===== *)
(** * What the gateway guarantees

    Theorems about [Gateway]: who may cause a request to a module and what
    that request says about its caller; that failover never repeats a
    request a module may have executed, and reaches a live target; that a
    service's route prefix is always in force; the path of a browser's
    address through the static edge and the gateway. *)

From S2P Require Import Prelude Text Ip Edge Roles ServiceTokens ServiceTypes Registry RateLimit Gateway.

(** ** Failover *)

(** Whether the client library's report leaves open that the module received
    the request. *)
Definition may_have_run (r : Reply) : Prop := match r with Response _ _ _ => True | Failure is_connect _ => is_connect = false end.

Lemma failover_prefix {T} method i (targets : list T) send :
  (send_with_failover method i targets send).1.*1 `prefix_of` targets.
Proof.
  revert i. induction targets as [|t ts IH]; intros i; cbn; [done|]. specialize (IH (S i)).
  destruct (_ && _); [|cbn; apply prefix_cons, prefix_nil]. destruct (send_with_failover method (S i) ts send) as [s f]. cbn in *. by apply prefix_cons.
Qed.

Lemma failover_tries {T} method i (t : T) ts send : (send_with_failover method i (t :: ts) send).1 <> [].
Proof. cbn. destruct (_ && _); [|done]. by destruct (send_with_failover _ _ _ _). Qed.

Lemma failover_result {T} method i (targets : list T) send :
  (send_with_failover method i targets send).2 = snd <$> last (send_with_failover method i targets send).1.
Proof.
  revert i. induction targets as [|t ts IH]; intros i; cbn; [done|]. specialize (IH (S i)).
  destruct (_ && _) eqn:E; [|done]. destruct ts as [|t' ts]; [done|]. pose proof (failover_tries method (S i) t' ts send) as Hne.
  destruct (send_with_failover method (S i) (t' :: ts) send) as [s f]. cbn in *. rewrite IH. by destruct s.
Qed.

Lemma failover_unsafe {T} method i (targets : list T) send : is_retry_safe_method method = false ->
  Forall (λ tr, ~ may_have_run tr.2) (removelast (send_with_failover method i targets send).1).
Proof.
  intros Hm. revert i. induction targets as [|t ts IH]; intros i; cbn; [constructor|]. specialize (IH (S i)).
  destruct (_ && _) eqn:E; [|constructor]. apply andb_prop in E as [_ E]. destruct (send_with_failover method (S i) ts send) as [s f]. cbn in *.
  destruct s as [|x s]; [constructor|]. constructor; [|done]. cbn. destruct (send i t) as [st h b|c tm]; cbn.
  - unfold should_fail_over_gateway_response in E. apply andb_prop in E as [E _]. boolify. by subst method.
  - unfold should_fail_over_gateway_error in E. rewrite Hm in E. by destruct c.
Qed.

(** C9: Failover never executes a request twice.  Whatever the network
    answers, the targets are tried in order, each at most once; for every
    method that is not GET, HEAD or OPTIONS, every attempt but the last
    failed to connect, so at most one module may have received the request;
    the result is that of the last attempt, and there is none exactly when
    there is no target. *)
Theorem failover_never_repeats {T} method (targets : list T) send :
  let '(tried, final) := send_with_failover method 0 targets send in
  tried.*1 `prefix_of` targets
  /\ final = snd <$> last tried
  /\ (final = None <-> targets = [])
  /\ (method ∉ [lit "GET"; lit "HEAD"; lit "OPTIONS"] ->
      forall earlier x, tried = earlier ++ [x] -> Forall (λ tr, ~ may_have_run tr.2) earlier).
Proof.
  pose proof (failover_prefix method 0 targets send) as Hp. pose proof (failover_result method 0 targets send) as Hr.
  assert (Hnone : (send_with_failover method 0 targets send).2 = None <-> targets = []).
  { split; [|by intros ->]. destruct targets as [|t ts]; [done|]. rewrite Hr, fmap_None, last_None. intros Hn. by apply failover_tries in Hn. }
  pose proof (failover_unsafe method 0 targets send) as Hu.
  destruct (send_with_failover method 0 targets send) as [tried final]. cbn in *. repeat split; [done|done|apply Hnone|apply Hnone|].
  intros Hm earlier x ->. rewrite removelast_last in Hu. apply Hu. unfold is_retry_safe_method. by rewrite bool_decide_eq_false.
Qed.

(** A service stays available while one of its targets does.  When the
    targets before it refuse the connection and a target answers with a
    status other than 502, 503 and 504, the caller of any method gets
    exactly that answer. *)
Theorem failover_reaches_live_target {T} method (dead : list T) live rest send status hs body :
  Forall (λ d, forall j, exists tm, send j d = Failure true tm) dead ->
  (forall j, send j live = Response status hs body) -> status ∉ [502; 503; 504] ->
  (send_with_failover method 0 (dead ++ live :: rest) send).2 = Some (Response status hs body)
  /\ (send_with_failover method 0 (dead ++ live :: rest) send).1.*1 = dead ++ [live].
Proof.
  intros Hd Hl Hs. generalize 0%nat as i. induction Hd as [|d ds Hf Hd IH]; intros i; cbn.
  - rewrite Hl. unfold should_fail_over_gateway_response. rewrite (bool_decide_eq_false_2 (status ∈ _)) by done.
    by rewrite andb_false_r, andb_false_r.
  - destruct (Hf i) as [tm ->]. rewrite bool_decide_eq_false_2 by (by destruct ds). cbn.
    specialize (IH (S i)). destruct (send_with_failover _ _ _ _). cbn in *. destruct IH as [-> ->]. done.
Qed.
Lemma failover_reaches_live_target_witness :
  (send_with_failover (lit "POST") 0 [1; 2; 3] (λ _ t, if t =? 1 then Failure true false else Response 201 [] (Some []))).2 = Some (Response 201 [] (Some [])).
Proof.
  apply (failover_reaches_live_target (lit "POST") [1] 2 [3]); [repeat constructor; intros; by exists false|done|].
  apply (bool_decide_unpack _); vm_compute; exact I.
Defined.

(** ** Route prefix *)

Lemma drop_while_slash_head s c s' : trim_start_slashes s = c :: s' -> c <> 47.
Proof. intros H. apply drop_while_head in H. by apply Z.eqb_neq in H. Qed.

(** The path a module sees, without the query, for a normalised prefix. *)
Definition under (prefix path : text) : Prop := path = 47 :: prefix \/ exists rest, path = 47 :: prefix ++ 47 :: rest.

Lemma strip_prefix_app p r : strip_prefix p (p ++ r) = Some r.
Proof. by apply strip_prefix_some. Qed.

Lemma route_below_shape n tail : exists x, route_below n tail = 47 :: n ++ x /\ (x = [] \/ exists y, x = 47 :: y).
Proof.
  unfold route_below. set (other := 47 :: n ++ _).
  assert (Ho : exists x, other = 47 :: n ++ x /\ (x = [] \/ exists y, x = 47 :: y)).
  { subst other. destruct (bool_decide (tail = [])); eauto. }
  destruct (strip_prefix n tail) as [rest|] eqn:E; [|done]. apply strip_prefix_some in E as ->.
  destruct (bool_decide (rest = [])) eqn:Er; [exists []; rewrite app_nil_r; auto|].
  destruct (starts_with [47] rest) eqn:Es; [|done]. exists rest. split; [done|].
  unfold starts_with in Es. destruct (strip_prefix [47] rest) as [y|] eqn:Ey; [|done]. apply strip_prefix_some in Ey as ->. eauto.
Qed.

Lemma route_below_stable n x : x = [] \/ (exists y, x = 47 :: y) -> route_below n (n ++ x) = 47 :: n ++ x.
Proof. unfold route_below. rewrite strip_prefix_app. intros [->|[y ->]]; cbn; by rewrite ?app_nil_r. Qed.

Lemma service_route_path_prefix meta prefix path query : route_prefix meta = Some prefix ->
  trim_start_slashes (trim_end_slashes prefix) <> [] ->
  service_route_path (Some meta) path query
  = route_below (trim_start_slashes (trim_end_slashes prefix)) (trim_start_slashes path)
    ++ match query with Some (q :: qs) => 63 :: q :: qs | _ => [] end.
Proof.
  intros Hp Hn. unfold service_route_path. rewrite Hp. rewrite (bool_decide_eq_false_2 (prefix = _)) by (intros ->; by apply Hn).
  rewrite (bool_decide_eq_false_2 _ Hn). f_equal. by destruct query as [[|]|].
Qed.

(** Every path the gateway builds carries the service's route prefix,
    once.  For a service with a prefix that is not only slashes, the path of
    the target URL is the prefix itself or the prefix, a slash and a rest,
    whatever path the caller asked for (dot segments are the client
    library's), and the query follows unchanged; a caller that already wrote
    that path gets it again, so the prefix is never doubled. *)
Theorem route_prefix_enforced meta prefix path query :
  route_prefix meta = Some prefix ->
  let normalized := trim_start_slashes (trim_end_slashes prefix) in
  normalized <> [] ->
  exists p, under normalized p
    /\ service_route_path (Some meta) path query = p ++ match query with Some (q :: qs) => 63 :: q :: qs | _ => [] end
    /\ service_route_path (Some meta) p query = service_route_path (Some meta) path query.
Proof.
  intros Hp normalized Hn. pose proof (service_route_path_prefix meta prefix path query Hp Hn) as H1. fold normalized in H1.
  destruct (route_below_shape normalized (trim_start_slashes path)) as (x & Hx & Hy).
  exists (47 :: normalized ++ x). split; [|split].
  - destruct Hy as [->|[y ->]]; [left; by rewrite app_nil_r|right; eauto].
  - by rewrite H1, Hx.
  - rewrite H1, Hx, (service_route_path_prefix meta prefix _ query Hp Hn). fold normalized. f_equal.
    replace (trim_start_slashes (47 :: normalized ++ x)) with (normalized ++ x); [by apply route_below_stable|].
    destruct normalized as [|c s] eqn:E; [done|]. apply drop_while_slash_head in E. cbn. by rewrite (proj2 (Z.eqb_neq c 47) E).
Qed.
Lemma route_prefix_enforced_witness :
  exists p, under (lit "api/v1") p
    /\ service_route_path (Some (with_route_prefix public (lit "/api/v1/"))) (lit "/x") (Some (lit "q=1")) = p ++ lit "?q=1"
    /\ service_route_path (Some (with_route_prefix public (lit "/api/v1/"))) p (Some (lit "q=1"))
       = service_route_path (Some (with_route_prefix public (lit "/api/v1/"))) (lit "/x") (Some (lit "q=1")).
Proof. apply (route_prefix_enforced (with_route_prefix public (lit "/api/v1/")) (lit "/api/v1/") (lit "/x") (Some (lit "q=1"))); [reflexivity|done]. Defined.

(** ** Who may reach a module *)

Section Gateway.
Context {HT : HttpTypes} {B : Type} {RB : RequestBuilder B}.
Context (secret : bytes) (resolve_ingress_targets : string -> result (list Target) IngressError)
        (network : nat -> Target -> B -> Reply).

Abbreviation gateway := (gateway_proxy secret resolve_ingress_targets network).

(** The store's tokens can be checked: its lock is not poisoned and the
    refresh grace is a duration. *)
Definition store_ok (s : ServiceTokenStore) : Prop := ServiceTokens.poisoned s = false /\ 0 <= refresh_grace s.

(** The caller presented a token that is in the store, neither expired nor
    idle, and whose claims the service's metadata admits. *)
Definition presented (store : ServiceTokenStore) (now : Z) (hs : ProxyHeaders.HeaderMap) (m : option ServiceSecurityMetadata)
    (c : DelegatedTokenClaims) : Prop :=
  exists token e, extract_optional_gateway_token hs = Ok (Some token)
    /\ tokens store !! str_of token = Some e /\ claims e = c /\ verdict e now (lifetime_limits store) = VValid
    /\ forall md, m = Some md -> admits md c.

Lemma validate_presented store k hs m token c s' : store_ok store ->
  extract_optional_gateway_token hs = Ok (Some token) ->
  ServiceTokens.validate store (str_of token) (k_elapsed k) (k_now k) = (Ok c, s') ->
  match m with Some md => negb (allows_claims md c) | None => false end = false ->
  presented store (k_now k) hs m c.
Proof.
  intros [Hp Hg] Ht Hv Hm. apply (f_equal fst) in Hv. apply validate_with_ok_iff in Hv as (e & He & Hc & Hverd); [|done|by apply lifetime_within].
  exists token, e. repeat split; try done; destruct m as [m|]; simplify_eq; apply negb_false_iff, allows_claims_spec in Hm; apply Hm.
Qed.

Lemma authorize_ok store k access m hs cl store' : store_ok store ->
  authorize store k access m hs = (Ok cl, store') ->
  match cl with Some c => presented store (k_now k) hs m c | None => access = Public end.
Proof.
  intros Hs. unfold authorize, extract_gateway_token. destruct access.
  - destruct (extract_optional_gateway_token hs) as [[token|]|] eqn:Et; cbn; [|done|done].
    destruct (ServiceTokens.validate _ _ _ _) as [[c|e] s1] eqn:Ev; [|done].
    destruct (match m with Some _ => _ | None => _ end) eqn:Em; [done|]. intros [= <- <-]. by eapply validate_presented.
  - destruct (extract_optional_gateway_token hs) as [[token|]|] eqn:Et; [|by intros [= <- _]|done].
    destruct (ServiceTokens.validate _ _ _ _) as [[c|e] s1] eqn:Ev; [|by destruct e; intros [= <- _]].
    destruct (match m with Some _ => _ | None => _ end) eqn:Em; [done|]. intros [= <- <-]. by eapply validate_presented.
Qed.

(** What holds of a call that reached a module. *)
Record admitted_call (h : Host) (k : Clock) (c : Call) (o : Outcome) (sid : string) (d : Descriptor)
    (cl : option DelegatedTokenClaims) : Prop := {
  ac_id : decode_service_id (service_param c) = Ok sid;
  ac_active : exists snap, Registry.get (registry h) sid = Some snap /\ s_status snap = Active /\ s_descriptor snap = d;
  ac_grpc : kind c = KGrpc -> exists meta, ingress d = Some meta /\ Grpc ∈ protocols meta;
  ac_caller : match cl with
              | Some c' => exists store, security_manager h = Some store /\ presented store (k_now k) (headers c) (security d) c'
              | None => exists meta, ingress d = Some meta /\ access meta = Public
              end;
  ac_guarded : security d = None -> exists meta, ingress d = Some meta /\ access meta = Public;
  ac_rate : (try_acquire_with_limit (limiter h) sid (rate_limit_override (ingress d)) (k_t1 k) (k_t2 k) (k_t3 k)).1 = true;
  ac_sent : exists targets body, resolve_ingress_targets sid = Ok targets /\ Gateway.body c = Some body
    /\ (sent o).*1.*1 `prefix_of` targets
    /\ forall t b r, (t, b, r) ∈ sent o ->
         b = build_request secret (client_ip h) sid cl c (service_route_path (ingress d) (Gateway.tail c) (query c)) body t;
}.

Lemma forward_sent h c sid ing cl : (forward secret resolve_ingress_targets network h c sid ing cl).2 <> [] ->
  exists targets body, resolve_ingress_targets sid = Ok targets /\ Gateway.body c = Some body
    /\ (forward secret resolve_ingress_targets network h c sid ing cl).2.*1.*1 `prefix_of` targets
    /\ forall t b r, (t, b, r) ∈ (forward secret resolve_ingress_targets network h c sid ing cl).2 ->
         b = build_request secret (client_ip h) sid cl c (service_route_path ing (Gateway.tail c) (query c)) body t.
Proof.
  unfold forward. destruct (resolve_ingress_targets sid) as [targets|]; [|done]. destruct (negb _); [done|].
  destruct (Gateway.body c) as [body|]; [|done]. intros _. exists targets, body. repeat split.
  - pose proof (failover_prefix (method c) 0 targets (λ i t, network i t (build_request secret (client_ip h) sid cl c
        (service_route_path ing (Gateway.tail c) (query c)) body t))) as Hp.
    destruct (send_with_failover _ _ _ _) as [tried f]. cbn in *. by rewrite <- !list_fmap_compose.
  - intros t b r. destruct (send_with_failover _ _ _ _) as [tried f]. cbn. intros Hin.
    apply list_elem_of_fmap in Hin as ([t' r'] & [= -> -> ->] & _). done.
Qed.

Lemma serve_sent h store k c sid d : store_ok store -> security_manager h = Some store ->
  (serve secret resolve_ingress_targets network h store k c sid d).1.2 <> [] ->
  exists cl h', (serve secret resolve_ingress_targets network h store k c sid d).1 = forward secret resolve_ingress_targets network h' c sid (ingress d) cl
    /\ client_ip h' = client_ip h
    /\ (kind c = KGrpc -> exists meta, ingress d = Some meta /\ Grpc ∈ protocols meta)
    /\ match cl with
       | Some c' => presented store (k_now k) (headers c) (security d) c'
       | None => exists meta, ingress d = Some meta /\ access meta = Public
       end
    /\ (security d = None -> exists meta, ingress d = Some meta /\ access meta = Public)
    /\ (try_acquire_with_limit (limiter h) sid (rate_limit_override (ingress d)) (k_t1 k) (k_t2 k) (k_t3 k)).1 = true.
Proof.
  intros Hs Hsec. unfold serve. set (acc := match ingress d with Some meta => access meta | None => Internal end).
  assert (Hpub : acc = Public -> exists meta, ingress d = Some meta /\ access meta = Public) by (subst acc; destruct (ingress d); [eauto|done]).
  destruct (bool_decide (kind c = KGrpc) && _) eqn:Eg; [done|]. destruct (bool_decide (acc = Internal) && _) eqn:Ei; [done|].
  destruct (authorize store k acc (security d) (headers c)) as [[cl|p] store'] eqn:Ea; [|done].
  apply (authorize_ok _ _ _ _ _ _ _ Hs) in Ea. cbn [limiter set_store].
  destruct (try_acquire_with_limit _ _ _ _ _ _) as [ok l] eqn:Et. destruct ok; [|done]. intros _.
  exists cl, (set_limiter (set_store h store') l). repeat split.
  - intros Hk. rewrite bool_decide_eq_true_2 in Eg by done. cbn in Eg. apply negb_false_iff in Eg.
    destruct (ingress d) as [meta|]; [|done]. boolify. eauto.
  - destruct cl; [done|by apply Hpub].
  - intros Hn. apply Hpub. destruct acc; [|done]. by rewrite !bool_decide_eq_true_2 in Ei.
Qed.

Lemma gateway_admits h k c : (forall store, security_manager h = Some store -> store_ok store) ->
  sent (gateway h k c) <> [] -> exists sid d cl, admitted_call h k c (gateway h k c) sid d cl.
Proof.
  intros Hs. unfold gateway_proxy. destruct (negb _); [done|]. destruct (security_manager h) as [store|] eqn:Esec; [|done].
  destruct (decode_service_id _) as [sid|] eqn:Eid; [|done]. destruct (Registry.get _ _) as [snap|] eqn:Eg; [|done].
  destruct (bool_decide (s_status snap = Active)) eqn:Ea; [|done]. cbn [negb]. boolify.
  pose proof (serve_sent h store k c sid (s_descriptor snap) (Hs _ eq_refl) Esec) as Hserve.
  destruct (serve _ _ _ _ _ _ _ _ _) as [[r l] h']. cbn [sent fst snd] in *. intros Hne. destruct (Hserve Hne) as (cl & h'' & Hf & Hip & Hgrpc & Hcl & Hg & Hr).
  exists sid, (s_descriptor snap), cl. split; [done|eauto|done|destruct cl; eauto|done|done|].
  pose proof (forward_sent h'' c sid (ingress (s_descriptor snap)) cl) as Hfs. rewrite <- Hf in Hfs. cbn in Hfs |- *. rewrite Hip in Hfs. by apply Hfs.
Qed.

(** C3: The gateway sends a module nothing its caller is not entitled to.
    Whenever a call causes a request to any target: the decoded id names an
    active service; a gRPC call is to a service that declares gRPC; the
    caller presented a token that is in the store, unexpired and not idle,
    with claims the service's roles, tenants and scopes admit, or the service
    declares public access; a service without security metadata is public;
    the rate limiter admitted the call; and the requests go, in order and at
    most once each, to the service's resolved targets. *)
Theorem gateway_sends_only_authorized h k c : (forall store, security_manager h = Some store -> store_ok store) ->
  sent (gateway h k c) <> [] -> exists sid d cl, admitted_call h k c (gateway h k c) sid d cl.
Proof. apply gateway_admits. Qed.
End Gateway.

(** ** What a module learns about its caller *)

Section Upstream.
Context {HT : HttpTypes} {B : Type} {RB : RequestBuilder B} {RL : RequestBuilderLaws B}.
Context (secret : bytes) (resolve_ingress_targets : string -> result (list Target) IngressError)
        (network : nat -> Target -> B -> Reply).
Abbreviation gateway := (gateway_proxy secret resolve_ingress_targets network).

Definition caller_actor (cl : option DelegatedTokenClaims) : bytes :=
  match cl with Some c => lit (identifier (actor c)) | None => lit "public" end.
Definition caller_tenant (cl : option DelegatedTokenClaims) : bytes :=
  match cl with Some c => lit (tenant_id c) | None => lit "public" end.

Lemma identity_actor sid kd cl : ProxyHeaders.get_all (identity_headers sid kd cl) (lit "x-fenrir-actor") = [caller_actor cl].
Proof. unfold identity_headers. destruct cl as [c|]; cbn [app]; [destruct (bool_decide (scopes c = []))|]; reflexivity. Qed.
Lemma identity_tenant sid kd cl : ProxyHeaders.get_all (identity_headers sid kd cl) (lit "x-fenrir-tenant") = [caller_tenant cl].
Proof. unfold identity_headers. destruct cl as [c|]; cbn [app]; [destruct (bool_decide (scopes c = []))|]; reflexivity. Qed.

Definition own_names : list text :=
  [lit "x-fenrir-gateway-service"; lit "x-fenrir-gateway-protocol"; lit "x-fenrir-actor"; lit "x-fenrir-tenant"; lit "x-fenrir-scopes"].

Lemma identity_other sid kd cl n : n ∉ own_names -> ProxyHeaders.get_all (identity_headers sid kd cl) n = [].
Proof.
  intros Hn. unfold own_names in Hn. rewrite !not_elem_of_cons in Hn. destruct Hn as (H1 & H2 & H3 & H4 & H5 & _).
  assert (Hd : forall m v l, n <> m -> ProxyHeaders.get_all ((m, v) :: l) n = ProxyHeaders.get_all l n)
    by (intros m v l Hne; rewrite get_all_cons, decide_False by congruence; done).
  unfold identity_headers. destruct cl as [c|]; cbn [app]; rewrite !Hd by done; [|done].
  destruct (bool_decide (scopes c = [])); [done|by rewrite Hd].
Qed.

Lemma passed_withheld policy hop hs n : withheld policy hop n = true -> passed (gateway_passes policy hop) hs n = [].
Proof. intros Hw. apply passed_none. intros v. unfold gateway_passes. by rewrite Hw. Qed.

(** C32: What a module is told about the caller comes first and from the
    gateway.  Of every request sent to a module, for the claims [cl] the
    gateway accepted: the first [x-fenrir-actor] and [x-fenrir-tenant] are
    those of the claims, or [public] for a caller without a token; the only
    [x-forwarded-for] is the one the gateway computed; neither the caller's
    [host] nor the edge secret is passed on; an untrusted caller's
    address headers are all dropped. *)
Theorem upstream_request_headers h k c t b r : (forall store, security_manager h = Some store -> store_ok store) ->
  (t, b, r) ∈ sent (gateway h k c) ->
  exists sid d cl, admitted_call secret resolve_ingress_targets h k c (gateway h k c) sid d cl
  /\ head (values b (lit "x-fenrir-actor")) = Some (caller_actor cl)
  /\ head (values b (lit "x-fenrir-tenant")) = Some (caller_tenant cl)
  /\ values b ProxyHeaders.FORWARDED_FOR
     = utf8 <$> option_list (ProxyHeaders.gateway_forwarded_for (headers c) (peer c) (trusted_hop secret cl (headers c)) (client_ip h))
  /\ values b HOST = [] /\ values b ProxyHeaders.EDGE_HOP_HEADER = []
  /\ (trusted_hop secret cl (headers c) = false ->
      forall n, Edge.is_address_header (client_ip h) n = true -> n <> ProxyHeaders.FORWARDED_FOR -> n ∉ own_names -> values b n = []).
Proof.
  intros Hs Hin. assert (Hne : sent (gateway h k c) <> []) by (intros He; rewrite He in Hin; by apply not_elem_of_nil in Hin).
  destruct (gateway_admits secret resolve_ingress_targets network h k c Hs Hne) as (sid & d & cl & Ha). exists sid, d, cl.
  split; [done|]. destruct Ha as [_ _ _ _ _ _ (targets & body & _ & _ & _ & Hb)]. rewrite (Hb t b r Hin). clear Hb Hin.
  rewrite !build_request_values, identity_actor, identity_tenant. do 2 (split; [done|]). rewrite decide_True by done.
  rewrite (identity_other _ _ _ ProxyHeaders.FORWARDED_FOR) by (apply (bool_decide_unpack _); vm_compute; exact I).
  rewrite passed_withheld by (unfold withheld; by rewrite !orb_true_r). split; [done|].
  rewrite !(decide_False (P := ProxyHeaders.FORWARDED_FOR = _)) by done. rewrite !app_nil_r.
  rewrite (identity_other _ _ _ HOST), (identity_other _ _ _ ProxyHeaders.EDGE_HOP_HEADER) by (apply (bool_decide_unpack _); vm_compute; exact I).
  rewrite !passed_withheld by (unfold withheld; by rewrite ?orb_true_r). do 2 (split; [done|]).
  intros Hhop n Hn Hxff Hown. rewrite build_request_values, identity_other, decide_False by congruence.
  rewrite passed_withheld; [done|]. unfold withheld. by rewrite Hhop, Hn, !orb_true_r.
Qed.

(** A caller without a token can put its own scopes, and a second actor
    and tenant, in front of a module.  The gateway withholds none of the
    caller's [x-fenrir-...] identity headers: of every request it sends for
    an unauthenticated caller, the [x-fenrir-scopes] values are exactly the
    caller's own, and after the gateway's [public] the caller's own
    [x-fenrir-actor] values follow. *)
Theorem anonymous_caller_sets_identity h k c t b r policy_header : (forall store, security_manager h = Some store -> store_ok store) ->
  ProxyHeaders.get (headers c) AUTHORIZATION = None ->
  Edge.header (client_ip h) = policy_header -> policy_header ∉ (Some <$> own_names) ->
  (t, b, r) ∈ sent (gateway h k c) ->
  values b (lit "x-fenrir-scopes") = passed header_converts (headers c) (lit "x-fenrir-scopes")
  /\ values b (lit "x-fenrir-actor") = lit "public" :: passed header_converts (headers c) (lit "x-fenrir-actor").
Proof.
  intros Hs Hauth Hph Hnot Hin. assert (Hne : sent (gateway h k c) <> []) by (intros He; rewrite He in Hin; by apply not_elem_of_nil in Hin).
  destruct (gateway_admits secret resolve_ingress_targets network h k c Hs Hne) as (sid & d & cl & Ha).
  destruct Ha as [_ _ _ Hcl _ _ (targets & body & _ & _ & _ & Hb)]. rewrite (Hb t b r Hin). clear Hb Hin.
  assert (cl = None) as ->.
  { destruct cl as [c'|]; [|done]. destruct Hcl as (store & _ & token & e & He & _). unfold extract_optional_gateway_token in He. by rewrite Hauth in He. }
  assert (Hpass : forall n, n ∈ own_names -> forall v, gateway_passes (client_ip h) (trusted_hop secret None (headers c)) n v = header_converts n v).
  { intros n Hn v. unfold gateway_passes. replace (withheld _ _ n) with false; [done|]. symmetry. unfold withheld, Edge.is_address_header.
    rewrite (bool_decide_eq_false_2 (Edge.header _ = _)) by (rewrite Hph; intros ->; apply Hnot; by apply list_elem_of_fmap_2).
    revert n Hn. apply (proj1 (Forall_forall _ _)). repeat constructor; cbn; apply andb_false_r. }
  rewrite !build_request_values, identity_actor. rewrite !(decide_False (P := ProxyHeaders.FORWARDED_FOR = _)) by done. rewrite !app_nil_r.
  unfold passed. split; [rewrite app_nil_l|cbn [app caller_actor]; f_equal]; apply list_filter_iff; intros v; rewrite Hpass; done || set_solver.
Qed.
End Upstream.

(** ** From the browser through the static edge *)

Lemma show_ip_utf8 ip : utf8 (show_ip ip) = show_ip ip /\ from_utf8 (show_ip ip) = Some (show_ip ip).
Proof.
  apply utf8_ascii. eapply Forall_impl; [apply show_ip_chars|]. intros c. unfold ip_char, is_ascii_digit.
  rewrite !orb_true_iff, !andb_true_iff, !Z.leb_le, !Z.eqb_eq. lia.
Qed.

Section TwoHops.
Context {HT : HttpTypes} {B : Type} {RB : RequestBuilder B} {RL : RequestBuilderLaws B}.
Context (secret : bytes).

Definition edge_passes (policy : Edge.ClientIpPolicy) (hop : ProxyHeaders.HopByHop) (n : text) (_ : bytes) : bool :=
  negb (edge_withheld policy hop n).

Lemma static_gateway_values policy cp path m pr hs bd n :
  let hop := ProxyHeaders.new (ProxyHeaders.get_all hs (lit "connection")) in
  let client := Edge.resolve policy pr (match Edge.header policy with Some n => ProxyHeaders.get_all hs n | None => [] end) in
  values (static_gateway_request (B := B) secret policy cp path m pr hs bd) n
  = passed (edge_passes policy hop) hs n
    ++ (if decide (ProxyHeaders.FORWARDED_FOR = n) then (λ ip, utf8 (show_ip ip)) <$> option_list client else [])
    ++ (if decide (ProxyHeaders.EDGE_HOP_HEADER = n) then [secret] else []).
Proof.
  cbn zeta. unfold static_gateway_request. set (hop := ProxyHeaders.new _). set (client := Edge.resolve _ _ _).
  assert (Hf : forall (b : B) l, foldl (λ b h, if edge_withheld policy hop h.1 then b else add_header b h.1 h.2) b l
      = foldl (λ b h, if edge_passes policy hop h.1 h.2 then add_header b h.1 h.2 else b) b l).
  { intros b l. revert b. induction l as [|h l IH]; intros b; [done|]. cbn [foldl]. rewrite IH. unfold edge_passes. by destruct (edge_withheld _ _ _). }
  assert (Hv : forall b : B, values (match bd with Some x => set_body b x | None => b end) n = values b n) by (destruct bd; intros; rewrite ?values_set_body; done).
  rewrite Hv, values_add_header, app_assoc. f_equal. rewrite Hf.
  destruct client as [ip|]; [rewrite values_add_header|]; rewrite values_add_passed, values_request, app_nil_l; [done|].
  by destruct (decide _); rewrite app_nil_r.
Qed.

Lemma edge_drops policy hop n v : n = ProxyHeaders.EDGE_HOP_HEADER \/ n = ProxyHeaders.FORWARDED_FOR -> edge_passes policy hop n v = false.
Proof.
  unfold edge_passes, edge_withheld, Edge.is_address_header. intros [-> | ->]; apply negb_false_iff.
  - rewrite (bool_decide_eq_true_2 (ProxyHeaders.EDGE_HOP_HEADER = ProxyHeaders.EDGE_HOP_HEADER)) by done. by rewrite !orb_true_r.
  - rewrite (bool_decide_eq_true_2 (ProxyHeaders.FORWARDED_FOR ∈ _)) by (apply (bool_decide_unpack _); vm_compute; exact I). by rewrite !orb_true_r.
Qed.

(** A browser's address reaches the module through both proxies.  When a
    request of a peer goes through the static edge to the gateway (the
    gateway receives the headers the edge sent) with an edge that reaches
    it from [edge_ip], the gateway trusts the hop, and the
    [X-Forwarded-For] it computes for the module, read as a list, is the
    client the edge resolved, then the edge: nothing the browser sent in
    [X-Forwarded-For] or in the hop header survives. *)
Theorem browser_address_through_edge policy policy' cp path m pr hs bd edge_ip received client :
  (forall n, ProxyHeaders.get_all received n = values (static_gateway_request (B := B) secret policy cp path m (Some pr) hs bd) n) ->
  Edge.resolve policy (Some pr) (match Edge.header policy with Some n => ProxyHeaders.get_all hs n | None => [] end) = Some client ->
  trusted_hop secret None received = true
  /\ exists v, ProxyHeaders.gateway_forwarded_for received (Some edge_ip) (trusted_hop secret None received) policy' = Some v
     /\ Edge.split_list v = [show_ip client; show_ip (to_canonical edge_ip)].
Proof.
  intros Hrec Hclient. pose proof (Hrec ProxyHeaders.EDGE_HOP_HEADER) as Hhop. pose proof (Hrec ProxyHeaders.FORWARDED_FOR) as Hxff.
  rewrite static_gateway_values, Hclient, passed_none in Hhop by (intros v; apply edge_drops; by left).
  rewrite static_gateway_values, Hclient, passed_none in Hxff by (intros v; apply edge_drops; by right).
  rewrite decide_False, decide_True in Hhop by done. rewrite decide_True, decide_False in Hxff by done. cbn [option_list fmap list_fmap app] in Hhop, Hxff.
  assert (Ht : trusted_hop secret None received = true).
  { unfold trusted_hop, ProxyHeaders.get. rewrite Hhop. cbn [head ProxyHeaders.is_edge_hop]. rewrite Nat.eqb_refl, (bool_decide_eq_true_2 (secret = secret)) by done. apply orb_true_r. }
  split; [done|]. rewrite Ht. pose proof (trusted_forwarded received (Some edge_ip) policy') as Hc.
  destruct (ProxyHeaders.gateway_forwarded_for _ _ _ _) as [v|]; [|by destruct Hc]. exists v. split; [done|]. rewrite Hc, Hxff.
  change (((λ ip, utf8 (show_ip ip)) <$> option_list (Some client)) ++ []) with [utf8 (show_ip client)].
  destruct (show_ip_utf8 client) as [-> Hu]. cbn [omap list_omap]. rewrite Hu. cbn [fmap list_fmap concat].
  change (show_ip client) with (join [44; 32] [show_ip client]) at 1.
  rewrite split_list_join by apply Forall_singleton, show_ip_hop_ok. done.
Qed.
End TwoHops.

(** ** A concrete gateway *)

Definition demo_descriptors : list Descriptor :=
  [mkDescriptor "module:shop" (Some internal_default) (Some (with_route_prefix public (lit "/api/v1")));
   mkDescriptor "module:ledger" (Some internal_default) (Some internal)].
Definition demo_host : Host :=
  mkHost true (Some demo_store)
    (foldl (λ g d, register id g d Active None 0) Registry.new demo_descriptors) SERVICE_RATE_LIMITER (Edge.mkPolicy None []).
Definition demo_resolve (sid : string) : result (list Target) IngressError := Ok [RuntimePort (lit "m") (lit "1") 9001; RuntimePort (lit "m") (lit "2") 9002].
Definition demo_network (i : nat) (t : Target) (b : SimpleRequest) : Reply :=
  match i with O => Failure true false | _ => Response 200 [(lit "set-cookie", lit "a=1")] (Some (lit "ok")) end.
Definition demo_call (service : string) (hs : ProxyHeaders.HeaderMap) : Call :=
  mkGatewayCall (lit service) (lit "/cart") (Some (ip_of "192.0.2.10")) (lit "POST") hs None (Some []) KHttp.
Definition demo_gateway := gateway_proxy (lit "edge-secret") demo_resolve demo_network demo_host (mkClock 1 2 3 4 5).

(** Without a token the internal service refuses, the public one answers;
    with the token both do; an unknown service is not found. *)
Example gateway_examples :
  (λ o, match result_of o with Ok a => a_status a | Err p => p_status p end) <$>
    [demo_gateway (demo_call "module:ledger" []); demo_gateway (demo_call "module:shop" []);
     demo_gateway (demo_call "module:ledger" [(lit "authorization", lit "Bearer tok")]);
     demo_gateway (demo_call "module:ledger" [(lit "authorization", lit "Basic x")]);
     demo_gateway (demo_call "module:none" [])] = [401; 200; 200; 401; 404].
Proof. vm_compute. reflexivity. Qed.

Lemma demo_store_ok : forall store, security_manager demo_host = Some store -> store_ok store.
Proof. intros store [= <-]. split; vm_compute; [reflexivity|discriminate]. Qed.

Lemma gateway_sends_only_authorized_witness :
  exists sid d cl, admitted_call (lit "edge-secret") demo_resolve demo_host (mkClock 1 2 3 4 5)
    (demo_call "module:ledger" [(lit "authorization", lit "Bearer tok")])
    (demo_gateway (demo_call "module:ledger" [(lit "authorization", lit "Bearer tok")])) sid d cl.
Proof. apply (gateway_sends_only_authorized (lit "edge-secret") demo_resolve demo_network); [apply demo_store_ok|vm_compute; discriminate]. Defined.

Definition demo_sent (hs : ProxyHeaders.HeaderMap) : Target * SimpleRequest * Reply :=
  default (RuntimePort [] [] 0, request false [] [], Failure false false) (head (sent (demo_gateway (demo_call "module:shop" hs)))).
Definition forged : ProxyHeaders.HeaderMap :=
  [(lit "x-fenrir-scopes", lit "db:write"); (lit "x-fenrir-actor", lit "module:admin"); (lit "x-forwarded-for", lit "10.0.0.1")].

Lemma upstream_request_headers_witness :
  exists sid d cl, admitted_call (lit "edge-secret") demo_resolve demo_host (mkClock 1 2 3 4 5) (demo_call "module:shop" forged)
      (demo_gateway (demo_call "module:shop" forged)) sid d cl
    /\ head (values (demo_sent forged).1.2 (lit "x-fenrir-actor")) = Some (caller_actor cl).
Proof.
  destruct (upstream_request_headers (lit "edge-secret") demo_resolve demo_network demo_host (mkClock 1 2 3 4 5) (demo_call "module:shop" forged)
    (demo_sent forged).1.1 (demo_sent forged).1.2 (demo_sent forged).2 demo_store_ok) as (sid & d & cl & Ha & Hh & _).
  - apply list_elem_of_lookup. exists 0%nat. vm_compute. reflexivity.
  - exists sid, d, cl. split; [exact Ha|exact Hh].
Defined.

Lemma anonymous_caller_sets_identity_witness :
  values (demo_sent forged).1.2 (lit "x-fenrir-scopes") = [lit "db:write"]
  /\ values (demo_sent forged).1.2 (lit "x-fenrir-actor") = [lit "public"; lit "module:admin"].
Proof.
  destruct (anonymous_caller_sets_identity (lit "edge-secret") demo_resolve demo_network demo_host (mkClock 1 2 3 4 5) (demo_call "module:shop" forged)
    (demo_sent forged).1.1 (demo_sent forged).1.2 (demo_sent forged).2 None demo_store_ok) as [H1 H2]; [vm_compute; reflexivity|reflexivity| | |].
  - apply (bool_decide_unpack _); vm_compute; exact I.
  - apply list_elem_of_lookup. exists 0%nat. vm_compute. reflexivity.
  - split; [rewrite H1|rewrite H2]; vm_compute; reflexivity.
Defined.

Definition demo_edge_request : SimpleRequest :=
  static_gateway_request (lit "edge-secret") (Edge.mkPolicy None []) (lit "http://127.0.0.1:1") (lit "/gateway") (lit "GET")
    (Some (ip_of "192.0.2.10")) forged None.
Lemma browser_address_through_edge_witness :
  exists v, ProxyHeaders.gateway_forwarded_for (q_headers demo_edge_request) (Some (ip_of "127.0.0.1"))
      (trusted_hop (lit "edge-secret") None (q_headers demo_edge_request)) (Edge.mkPolicy None []) = Some v
    /\ Edge.split_list v = [show_ip (ip_of "192.0.2.10"); show_ip (to_canonical (ip_of "127.0.0.1"))].
Proof.
  apply (browser_address_through_edge (B := SimpleRequest) (lit "edge-secret") (Edge.mkPolicy None []) (Edge.mkPolicy None []) (lit "http://127.0.0.1:1")
    (lit "/gateway") (lit "GET") (ip_of "192.0.2.10") forged None); [intros n; reflexivity|vm_compute; reflexivity].
Defined.
