(* ===== verification/Rollout.v ===== *)
(** * Rollout configuration ([config/model.rs], [services/module/config.rs])

    The rollout settings of a module's service: how a profile and the
    service's own section combine, which settings a request finds, when the
    section is valid, the next traffic step, and the evaluation of a
    canary's metrics ([services/module/service.rs]).  Times are
    milliseconds; floating-point numbers are the class [Floats]. *)

From S2P Require Import Prelude Text.

(** The comparisons and conversions of [f64] and [f32] the evaluation uses,
    on one carrier ([f32] values are [f64] values). *)
Class Floats := {
  F : Type;
  gt : F -> F -> bool;
  of_u64 : Z -> F;
  as_f32 : F -> F;
  parse_f32 : text -> option F;
  within_0_100 : F -> bool;
}.

Inductive ModuleRolloutStrategy := Restart | RollingReplace | CanaryReplace | WorkerHandover.
#[global] Instance strategy_eq_dec : EqDecision ModuleRolloutStrategy.
Proof. solve_decision. Defined.

Section Rollout.
Context {FL : Floats}.

Record ModuleRolloutSuccessCriteria := mkCriteria {
  max_error_rate_percent : option F;
  max_p95_latency_ms : option Z;
  max_retry_rate_percent : option F;
  max_queue_backlog : option Z;
}.

Record ModuleServiceRolloutConfig := mkRollout {
  strategy : option ModuleRolloutStrategy;
  max_surge : option Z;
  max_unavailable : option Z;
  warmup_timeout_ms : option Z;
  drain_timeout_ms : option Z;
  traffic_steps : list Z;
  promotion_interval_ms : option Z;
  rollback_on_regression : bool;
  stickiness : bool;
  success_criteria : ModuleRolloutSuccessCriteria;
}.

(** [Default::default()], which stands for a section that is absent; in a
    section that is present, [rollback_on_regression] defaults to [true]. *)
Definition default_criteria : ModuleRolloutSuccessCriteria := mkCriteria None None None None.
Definition default_rollout : ModuleServiceRolloutConfig := mkRollout None None None None None [] None false false default_criteria.

Definition or_else {A} (a b : option A) : option A := match a with Some _ => a | None => b end.

Definition merge_success_criteria (base override_cfg : ModuleRolloutSuccessCriteria) : ModuleRolloutSuccessCriteria :=
  mkCriteria (or_else (max_error_rate_percent override_cfg) (max_error_rate_percent base))
    (or_else (max_p95_latency_ms override_cfg) (max_p95_latency_ms base))
    (or_else (max_retry_rate_percent override_cfg) (max_retry_rate_percent base))
    (or_else (max_queue_backlog override_cfg) (max_queue_backlog base)).

Definition merge_rollout_config (base override_cfg : ModuleServiceRolloutConfig) : ModuleServiceRolloutConfig :=
  mkRollout (or_else (strategy override_cfg) (strategy base)) (or_else (max_surge override_cfg) (max_surge base))
    (or_else (max_unavailable override_cfg) (max_unavailable base))
    (or_else (warmup_timeout_ms override_cfg) (warmup_timeout_ms base))
    (or_else (drain_timeout_ms override_cfg) (drain_timeout_ms base))
    (if bool_decide (traffic_steps override_cfg = []) then traffic_steps base else traffic_steps override_cfg)
    (or_else (promotion_interval_ms override_cfg) (promotion_interval_ms base))
    (rollback_on_regression override_cfg)
    (stickiness override_cfg || stickiness base)
    (merge_success_criteria (success_criteria base) (success_criteria override_cfg)).

Definition is_some {A} (o : option A) : bool := match o with Some _ => true | None => false end.

Definition criteria_configured (c : ModuleRolloutSuccessCriteria) : bool :=
  is_some (max_error_rate_percent c) || is_some (max_p95_latency_ms c) || is_some (max_retry_rate_percent c)
  || is_some (max_queue_backlog c).

Definition is_configured (r : ModuleServiceRolloutConfig) : bool :=
  is_some (strategy r) || is_some (max_surge r) || is_some (max_unavailable r) || is_some (warmup_timeout_ms r)
  || is_some (drain_timeout_ms r) || negb (bool_decide (traffic_steps r = [])) || is_some (promotion_interval_ms r)
  || stickiness r || criteria_configured (success_criteria r).

(** The rollout settings [ModuleServiceOverrides::from_config] stores for a
    service with a profile (or none) and a section of its own. *)
Definition service_rollout (profile : option ModuleServiceRolloutConfig) (own : ModuleServiceRolloutConfig)
    : option ModuleServiceRolloutConfig :=
  let r := default_rollout in
  let r := match profile with Some p => merge_rollout_config r p | None => r end in
  let r := merge_rollout_config r own in
  if is_configured r then Some r else None.

Definition service_candidates (service_id : text) : list text :=
  service_id :: match find_sub (lit "::") service_id with Some (root, _) => [root] | None => [] end.

(** The entry of the first candidate that has one. *)
Fixpoint first_of {A} (m : gmap text A) (cs : list text) : option A :=
  match cs with [] => None | c :: cs => match m !! c with Some v => Some v | None => first_of m cs end end.
Definition rollout_for (rollouts : gmap text ModuleServiceRolloutConfig) (service_id : text)
    : option ModuleServiceRolloutConfig := first_of rollouts (service_candidates service_id).

(** ** Validation *)

Inductive RolloutError := SurgeZero | WarmupZero | DrainZero | IntervalZero | StepRange | StepOrder | StepEnd
  | RateRange | LatencyZero.

Fixpoint validate_steps (previous : Z) (steps : list Z) : result unit RolloutError :=
  match steps with
  | [] => Ok tt
  | step :: steps =>
      if (step =? 0) || (100 <? step) then Err StepRange
      else if step <? previous then Err StepOrder
      else validate_steps step steps
  end.

Definition is_zero (o : option Z) : bool := match o with Some v => v =? 0 | None => false end.
Definition out_of_range (o : option F) : bool := match o with Some v => negb (within_0_100 v) | None => false end.

Definition validate_criteria (c : ModuleRolloutSuccessCriteria) : result unit RolloutError :=
  if out_of_range (max_error_rate_percent c) || out_of_range (max_retry_rate_percent c) then Err RateRange
  else if is_zero (max_p95_latency_ms c) then Err LatencyZero else Ok tt.

Definition validate (r : ModuleServiceRolloutConfig) : result unit RolloutError :=
  if is_zero (max_surge r) then Err SurgeZero
  else if is_zero (warmup_timeout_ms r) then Err WarmupZero
  else if is_zero (drain_timeout_ms r) then Err DrainZero
  else if is_zero (promotion_interval_ms r) then Err IntervalZero
  else match (if bool_decide (traffic_steps r = []) then Ok tt
              else match validate_steps 0 (traffic_steps r) with
                   | Ok _ => if default 100 (last (traffic_steps r)) =? 100 then Ok tt else Err StepEnd
                   | Err e => Err e
                   end) with
       | Ok _ => validate_criteria (success_criteria r)
       | Err e => Err e
       end.

(** ** Traffic steps *)

Definition steps_of (r : ModuleServiceRolloutConfig) : list Z :=
  if bool_decide (traffic_steps r = []) then [10; 25; 50; 100] else traffic_steps r.

Definition next_canary_percent (r : ModuleServiceRolloutConfig) (current : Z) : Z :=
  default current (find (λ step, current <? step) (steps_of r)).

Definition initial_percent (r : ModuleServiceRolloutConfig) : Z := default 10 (find (λ step, 0 <? step) (traffic_steps r)).

(** ** Evaluation of a canary *)

(** A JSON document; [JNum] carries what [as_f64] gives, when it gives one. *)
Inductive JsonValue :=
| JOther
| JNum (x : option F)
| JStr (s : text)
| JArr (vs : list JsonValue)
| JObj (fields : list (text * JsonValue)).

(** The number under one of the keys of an object, in the keys' order. *)
Definition scalar (v : JsonValue) : option F :=
  match v with
  | JNum (Some x) => Some (as_f32 x)
  | JStr s => parse_f32 s
  | _ => None
  end.
Definition field {A} (fields : list (text * A)) (key : text) : option A := snd <$> find (λ f, bool_decide (f.1 = key)) fields.
Fixpoint direct (fields : list (text * JsonValue)) (keys : list text) : option F :=
  match keys with
  | [] => None
  | key :: keys => match (v ← field fields key; scalar v) with Some x => Some x | None => direct fields keys end
  end.

Fixpoint metric_value (keys : list text) (v : JsonValue) : option F :=
  match v with
  | JObj fields =>
      match direct fields keys with
      | Some x => Some x
      | None =>
          (fix nested (fs : list (text * JsonValue)) : option F :=
             match fs with
             | [] => None
             | (_, v) :: fs => match metric_value keys v with Some x => Some x | None => nested fs end
             end) fields
      end
  | JArr vs =>
      (fix nested (vs : list JsonValue) : option F :=
         match vs with
         | [] => None
         | v :: vs => match metric_value keys v with Some x => Some x | None => nested vs end
         end) vs
  | _ => None
  end.

(** The diagnostics of a service: the snapshot's error rate and latency, and
    the payload of the runtime metrics. *)
Record ServiceMetricSnapshot := mkMetrics { error_rate_pct : option F; latency_p95_ms : option F }.

Inductive CanaryEvaluation := Healthy | Pending | Regressed.

(** One criterion: nothing to check, or the measured value against a bound. *)
Definition criterion (bound : option F) (value : option F) : CanaryEvaluation :=
  match bound with
  | None => Healthy
  | Some b => match value with None => Pending | Some v => if gt v b then Regressed else Healthy end
  end.

Definition evaluate_canary_success (c : ModuleRolloutSuccessCriteria) (diagnostics : option ServiceMetricSnapshot)
    (runtime_metrics : option (option JsonValue)) : CanaryEvaluation :=
  let metric keys := (payload ← runtime_metrics; v ← payload; metric_value keys v) in
  match criterion (max_error_rate_percent c) (d ← diagnostics; error_rate_pct d) with
  | Healthy =>
      match criterion (of_u64 <$> max_p95_latency_ms c) (d ← diagnostics; latency_p95_ms d) with
      | Healthy =>
          match criterion (max_retry_rate_percent c)
                  (metric [lit "retry_rate_percent"; lit "retry_rate_pct"; lit "retry_pct"]) with
          | Healthy => criterion (of_u64 <$> max_queue_backlog c) (metric [lit "queue_backlog"; lit "backlog"; lit "pending_jobs"; lit "queued"])
          | e => e
          end
      | e => e
      end
  | e => e
  end.

(** ** Lemmas *)

Lemma find_spec {A} (p : A -> bool) l x : find p l = Some x -> x ∈ l /\ p x = true.
Proof. intros H. apply find_some in H as [Hin Hp]. split; [by apply list_elem_of_In|done]. Qed.

Lemma next_percent_step r current : next_canary_percent r current = current
  \/ (current < next_canary_percent r current /\ next_canary_percent r current ∈ steps_of r).
Proof.
  unfold next_canary_percent. destruct (find _ (steps_of r)) as [s|] eqn:E; [|by left]. right. cbn.
  apply find_spec in E as [Hin Hp]. by apply Z.ltb_lt in Hp.
Qed.

Lemma validate_steps_ok previous steps : validate_steps previous steps = Ok tt ->
  Forall (λ s, 1 <= s <= 100) steps \/ exists s, s ∈ steps /\ s < 0.
Proof.
  revert previous. induction steps as [|s steps IH]; intros previous; cbn; [by left|].
  destruct (_ || _) eqn:E; [done|]. destruct (s <? previous) eqn:E2; [done|]. boolify. intros Hv.
  destruct (Z.lt_ge_cases s 0) as [Hneg|Hpos]; [right; exists s; set_solver|].
  destruct (IH s Hv) as [Hf|[s' [? ?]]]; [left; constructor; [lia|done]|right; exists s'; set_solver].
Qed.

Lemma validate_steps_nonneg steps : Forall (λ s, 0 <= s) steps -> forall previous, validate_steps previous steps = Ok tt -> Forall (λ s, 1 <= s <= 100) steps.
Proof.
  intros Hn previous H. destruct (validate_steps_ok previous steps H) as [Hf|[s [Hin Hs]]]; [done|].
  rewrite Forall_forall in Hn. specialize (Hn s Hin). lia.
Qed.

(** The steps of a valid section, or the built-in ones: within 1..100, the last one 100. *)
Lemma valid_steps r : Forall (λ s, 0 <= s) (traffic_steps r) -> validate r = Ok tt ->
  Forall (λ s, 1 <= s <= 100) (steps_of r) /\ 100 ∈ steps_of r.
Proof.
  intros Hn. unfold validate, steps_of. repeat (destruct (is_zero _); [done|]).
  destruct (bool_decide (traffic_steps r = [])) eqn:E.
  - intros _. split; [repeat constructor; lia|set_solver].
  - destruct (validate_steps 0 (traffic_steps r)) as [[]|] eqn:Ev; [|done]. destruct (_ =? 100) eqn:El; [|done]. intros _.
    split; [by eapply validate_steps_nonneg|]. boolify. destruct (last (traffic_steps r)) as [x|] eqn:Elast.
    + cbn in El. subst x. by eapply last_Some_elem_of.
    + by apply last_None in Elast.
Qed.
End Rollout.

(** A profile's automatic rollback is lost on every service that uses
    the profile without a rollout section of its own.  The merge takes
    [rollback_on_regression] from the service's section alone, and an
    absent section stands for [false], so whatever profile asks for
    rollback, the service's effective settings never do, while every
    other setting of the profile is kept. *)
Theorem profile_rollback_is_lost `{FL : Floats} profile r :
  service_rollout (Some profile) default_rollout = Some r ->
  rollback_on_regression r = false
  /\ strategy r = strategy profile /\ traffic_steps r = traffic_steps profile
  /\ promotion_interval_ms r = promotion_interval_ms profile.
Proof.
  unfold service_rollout. destruct (is_configured _); [|done]. intros [= <-]. cbn.
  repeat split; [by destruct (strategy profile)| |by destruct (promotion_interval_ms profile)].
  by destruct (traffic_steps profile).
Qed.

#[export] Instance z_floats : Floats := {
  F := Z; gt a b := b <? a; of_u64 x := x; as_f32 x := x; parse_f32 s := parse_uint u64_max s; within_0_100 x := (0 <=? x) && (x <=? 100)
}.
Definition canary_profile : ModuleServiceRolloutConfig :=
  mkRollout (Some CanaryReplace) None None None None [5; 50; 100] (Some 60000) true false (mkCriteria (Some 2) None None None).
Lemma profile_rollback_is_lost_witness :
  exists r, service_rollout (Some canary_profile) default_rollout = Some r /\ rollback_on_regression canary_profile = true
    /\ rollback_on_regression r = false.
Proof.
  eexists. split; [reflexivity|]. split; [reflexivity|].
  apply (profile_rollback_is_lost canary_profile); reflexivity.
Defined.

Example evaluation_examples :
  evaluate_canary_success (success_criteria canary_profile) None None = Pending
  /\ evaluate_canary_success (success_criteria canary_profile) (Some (mkMetrics (Some 3) None)) None = Regressed
  /\ evaluate_canary_success (success_criteria canary_profile) (Some (mkMetrics (Some 2) None)) None = Healthy
  /\ metric_value [lit "a"; lit "b"] (JObj [(lit "x", JArr [JOther; JObj [(lit "b", JNum (Some 7))]])]) = Some 7.
Proof. vm_compute. repeat split. Qed.
