(* ===== verification/Scheduler.v ===== *)
(** * Scheduler: [services/scheduler/service.rs]

    The scheduler owns one heartbeat task and one task per active job.
    [running] is the set of tokio tasks it has spawned and not aborted, each
    with what it runs; a [JobHandle] is the id of such a task.  The state
    file [scheduler_state.json] is [state_file] ([None]: missing or not
    readable), and the outcome of a write is an argument.  The registry is
    the one of [Registry]; the closure a job runs is a parameter. *)

From S2P Require Import Prelude Registry.
From stdpp Require Import pretty.

#[local] Open Scope Z_scope.

Inductive SchedulerError :=
| SchedulerNotStarted
| JobAlreadyExists (id : string)
| JobNotFound (id : string)
| InvalidInterval.

Inductive JobControlOutcome :=
| Restarted | SchedulerInactive | Paused | AlreadyPaused | Resumed | AlreadyActive.

Record ScheduledJobSpec := mkSpec {
  id : string;
  interval : Z;                  (** nanoseconds *)
  initial_delay : option Z;
  description : string;
}.

Record ScheduledJobSnapshot := mkJobSnapshot {
  sn_id : string; sn_interval : Z; sn_description : string; sn_active : bool; sn_paused : bool
}.

(** What a spawned task runs. *)
Inductive task_info :=
| THeartbeat
| TJob (job_id : string) (period : Z) (delay : option Z).

(** Outcome of writing the state file; on failure the file holds whatever
    the write left behind. *)
Inductive write_outcome := WOk | WFailed (left : option (list string)).

Section Scheduler.
Context {D T : Type} (d_id : D -> string).

Record JobEntry := mkJob {
  spec : ScheduledJobSpec;
  task : T;
  handle : option nat;
  paused : bool;
}.

Record SchedulerService := mkScheduler {
  registry : ServiceRegistry (D := D);
  heartbeat : option nat;
  jobs_map : gmap string JobEntry;
  paused_jobs : gset string;
  state_file : option (list string);
  running : gmap nat task_info;
  next_task : nat;
}.

Definition set_registry (s : SchedulerService) g := mkScheduler g (heartbeat s) (jobs_map s)
  (paused_jobs s) (state_file s) (running s) (next_task s).
Definition set_heartbeat (s : SchedulerService) h := mkScheduler (registry s) h (jobs_map s)
  (paused_jobs s) (state_file s) (running s) (next_task s).
Definition set_jobs (s : SchedulerService) m := mkScheduler (registry s) (heartbeat s) m
  (paused_jobs s) (state_file s) (running s) (next_task s).
Definition set_paused (s : SchedulerService) p := mkScheduler (registry s) (heartbeat s) (jobs_map s)
  p (state_file s) (running s) (next_task s).
Definition set_file (s : SchedulerService) f := mkScheduler (registry s) (heartbeat s) (jobs_map s)
  (paused_jobs s) f (running s) (next_task s).
Definition set_running (s : SchedulerService) r := mkScheduler (registry s) (heartbeat s) (jobs_map s)
  (paused_jobs s) (state_file s) r (next_task s).

(** [tokio::spawn]. *)
Definition spawn (s : SchedulerService) (t : task_info) : nat * SchedulerService :=
  (next_task s, mkScheduler (registry s) (heartbeat s) (jobs_map s) (paused_jobs s) (state_file s)
     (<[next_task s := t]> (running s)) (S (next_task s))).

(** [JobHandle::stop] and [JoinHandle::abort]: the task is gone. *)
Definition stop_task (s : SchedulerService) (h : nat) : SchedulerService :=
  set_running s (delete h (running s)).
Definition stop_handle (s : SchedulerService) (h : option nat) : SchedulerService :=
  match h with Some h => stop_task s h | None => s end.

Definition note (s : SchedulerService) (n : string) : SchedulerService :=
  set_registry s (update_note (registry s) "scheduler" (Some n)).
Definition with_status (s : SchedulerService) (st : ServiceStatus) (n : string) (now : Z) :=
  set_registry s (set_status (registry s) "scheduler" st (Some n) now).

(** Messages of [utils/messages/services/scheduler.rs]. *)
Definition job_paused (i : string) : string := "job " +:+ i +:+ " paused".
Definition job_resumed (i : string) : string := "job " +:+ i +:+ " resumed".
Definition job_stopped (i : string) : string := "job " +:+ i +:+ " stopped".
Definition job_active (i : string) (secs : Z) : string := "job " +:+ i +:+ " active (" +:+ pretty secs +:+ "s)".
Definition as_secs (d : Z) : Z := d / 1000000000.

Definition job_snapshot (e : JobEntry) (scheduler_active : bool) : ScheduledJobSnapshot :=
  mkJobSnapshot (id (spec e)) (interval (spec e)) (description (spec e))
    (scheduler_active && bool_decide (is_Some (handle e))) (paused e).

(** [load_paused_jobs]. *)
Definition load_paused_jobs (file : option (list string)) : gset string :=
  match file with Some l => list_to_set l | None => ∅ end.

Definition new (g : ServiceRegistry (D := D)) (file : option (list string)) : SchedulerService :=
  mkScheduler g None ∅ (load_paused_jobs file) file ∅ 0.

Definition is_running (s : SchedulerService) : bool := bool_decide (is_Some (heartbeat s)).

(** [start], in its two critical sections: the check, then the spawn. *)
Definition start_check (s : SchedulerService) : bool := negb (is_running s).
Definition start_commit (s : SchedulerService) (now : Z) : SchedulerService :=
  let s := with_status s Starting "initializing" now in
  let '(h, s) := spawn s THeartbeat in
  set_heartbeat s (Some h).
Definition start (s : SchedulerService) (now : Z) : bool * SchedulerService :=
  if start_check s then (true, start_commit s now) else (false, s).

Definition clear_jobs (s : SchedulerService) : SchedulerService :=
  let s := foldl (λ s e, stop_handle s (handle e)) s (btree_values (jobs_map s)) in
  note (set_jobs s ∅) "jobs inactive".

Definition stop (s : SchedulerService) (now : Z) : bool * SchedulerService :=
  match heartbeat s with
  | None => (false, s)
  | Some h =>
      let s := stop_task (set_heartbeat s None) h in
      (true, with_status (clear_jobs s) Standby "stopped" now)
  end.

Definition spawn_job (s : SchedulerService) (sp : ScheduledJobSpec) (skip_initial_delay : bool)
    : nat * SchedulerService :=
  spawn s (TJob (id sp) (interval sp) (if skip_initial_delay then None else initial_delay sp)).

Definition register_job (s : SchedulerService) (sp : ScheduledJobSpec) (job : T) (skip : bool)
    : result unit SchedulerError * SchedulerService :=
  if interval sp =? 0 then (Err InvalidInterval, s)
  else if negb (is_running s) then (Err SchedulerNotStarted, s)
  else match jobs_map s !! id sp with
  | Some _ => (Err (JobAlreadyExists (id sp)), s)
  | None =>
      let is_paused := bool_decide (id sp ∈ paused_jobs s) in
      let '(h, s) := if is_paused then (None, s)
                     else let '(h, s) := spawn_job s sp skip in (Some h, s) in
      let s := set_jobs s (<[id sp := mkJob sp job h is_paused]> (jobs_map s)) in
      (Ok tt, note s (if is_paused then job_paused (id sp)
                      else job_active (id sp) (as_secs (interval sp))))
  end.

Definition schedule_fixed_rate (s : SchedulerService) (sp : ScheduledJobSpec) (job : T) :=
  register_job s sp job false.

Definition cancel_job (s : SchedulerService) (i : string) : bool * SchedulerService :=
  match jobs_map s !! i with
  | Some e =>
      let s := stop_handle (set_jobs s (delete i (jobs_map s))) (handle e) in
      (true, note s (job_stopped i))
  | None => (false, s)
  end.

Definition jobs (s : SchedulerService) : list ScheduledJobSnapshot :=
  (λ e, job_snapshot e (is_running s)) <$> btree_values (jobs_map s).
Definition job (s : SchedulerService) (i : string) : option ScheduledJobSnapshot :=
  (λ e, job_snapshot e (is_running s)) <$> jobs_map s !! i.

(** Stops the entry's task, spawns a new one and stores the entry. *)
Definition respawn (s : SchedulerService) (i : string) (e : JobEntry) : SchedulerService :=
  let s := stop_handle s (handle e) in
  let '(h, s) := spawn_job s (spec e) true in
  set_jobs s (<[i := mkJob (spec e) (task e) (Some h) (paused e)]> (jobs_map s)).

Definition restart_job (s : SchedulerService) (i : string)
    : result JobControlOutcome SchedulerError * SchedulerService :=
  if negb (is_running s) then (Ok SchedulerInactive, s)
  else match jobs_map s !! i with
  | None => (Err (JobNotFound i), s)
  | Some e => if paused e then (Ok Paused, s) else (Ok Restarted, respawn s i e)
  end.

Definition persist_paused_jobs (s : SchedulerService) (w : write_outcome) : SchedulerService :=
  match w with
  | WOk => set_file s (Some (merge_sort String.le (elements (paused_jobs s))))
  | WFailed l => set_file s l
  end.

Definition pause_job (s : SchedulerService) (i : string) (w : write_outcome)
    : result JobControlOutcome SchedulerError * SchedulerService :=
  match jobs_map s !! i with
  | None => (Err (JobNotFound i), s)
  | Some e =>
      if paused e then (Ok AlreadyPaused, s)
      else
        let s := stop_handle s (handle e) in
        let s := set_jobs s (<[i := mkJob (spec e) (task e) None true]> (jobs_map s)) in
        let s := persist_paused_jobs (set_paused s ({[i]} ∪ paused_jobs s)) w in
        (Ok Paused, note s (job_paused i))
  end.

Definition resume_job (s : SchedulerService) (i : string) (w : write_outcome)
    : result JobControlOutcome SchedulerError * SchedulerService :=
  if negb (is_running s) then (Ok SchedulerInactive, s)
  else match jobs_map s !! i with
  | None => (Err (JobNotFound i), s)
  | Some e =>
      if negb (paused e) then (Ok AlreadyActive, s)
      else
        let s := persist_paused_jobs (set_paused s (paused_jobs s ∖ {[i]})) w in
        let s := respawn s i (mkJob (spec e) (task e) (handle e) false) in
        (Ok Resumed, note s (job_resumed i))
  end.

(** [Drop for SchedulerService]. *)
Definition drop (s : SchedulerService) (now : Z) : SchedulerService :=
  with_status (stop s now).2 Stopped "stopped" now.

(** ** Executions *)

Inductive op :=
| OStart (now : Z)
| OStop (now : Z)
| OClear
| ORegister (sp : ScheduledJobSpec) (t : T) (skip : bool)
| OCancel (i : string)
| ORestart (i : string)
| OPause (i : string) (w : write_outcome)
| OResume (i : string) (w : write_outcome).

Definition run_op (s : SchedulerService) (o : op) : SchedulerService :=
  match o with
  | OStart now => (start s now).2
  | OStop now => (stop s now).2
  | OClear => clear_jobs s
  | ORegister sp t skip => (register_job s sp t skip).2
  | OCancel i => (cancel_job s i).2
  | ORestart i => (restart_job s i).2
  | OPause i w => (pause_job s i w).2
  | OResume i w => (resume_job s i w).2
  end.

(** ** The invariant

    Tasks and bookkeeping agree in both directions: every job has its task
    exactly when it is not paused, every task belongs to the heartbeat or to
    one job. *)
Record sched_ok (s : SchedulerService) : Prop := mkOk {
  ok_entry : forall i e, jobs_map s !! i = Some e ->
    id (spec e) = i /\ (paused e = true <-> i ∈ paused_jobs s)
    /\ (handle e = None <-> paused e = true);
  ok_handle : forall i e h, jobs_map s !! i = Some e -> handle e = Some h ->
    exists p d, running s !! h = Some (TJob i p d);
  ok_heartbeat : forall h, heartbeat s = Some h -> running s !! h = Some THeartbeat;
  ok_owned : forall h t, running s !! h = Some t ->
    match t with
    | THeartbeat => heartbeat s = Some h
    | TJob i _ _ => exists e, jobs_map s !! i = Some e /\ handle e = Some h
    end;
  ok_fresh : forall h t, running s !! h = Some t -> (h < next_task s)%nat;
  ok_inactive : heartbeat s = None -> jobs_map s = ∅;
}.

(** ** Building blocks *)

Implicit Types s : SchedulerService.

(** Registry, file and notes play no part in the invariant. *)
Lemma ok_congr s s' :
  heartbeat s' = heartbeat s -> jobs_map s' = jobs_map s -> paused_jobs s' = paused_jobs s ->
  running s' = running s -> next_task s' = next_task s -> sched_ok s -> sched_ok s'.
Proof.
  destruct s, s'. simpl. intros -> -> -> -> -> []. split; simpl in *; done.
Qed.

Lemma sched_new_ok g file : sched_ok (new g file).
Proof. split; simpl; intros *; rewrite ?lookup_empty; done. Qed.

Lemma start_ok s now : sched_ok s -> sched_ok (start s now).2.
Proof.
  intros Hs. unfold start, start_check, is_running. case_bool_decide as Hh; [done|]. simpl.
  assert (heartbeat s = None) as Hn by (destruct (heartbeat s); [exfalso; eauto|done]).
  destruct Hs as [H1 H2 H3 H4 H5 H6]. rewrite (H6 Hn) in *.
  split; simpl; intros *; rewrite ?(H6 Hn), ?lookup_empty; try done.
  - intros [= <-]. apply lookup_insert_eq.
  - intros [[<- <-]|[Hne Ht]]%lookup_insert_Some; [done|]. specialize (H4 _ _ Ht).
    destruct t; [congruence|]. destruct H4 as (e & He & _). by rewrite lookup_empty in He.
  - intros [[<- <-]|[Hne Ht]]%lookup_insert_Some; [lia|]. apply H5 in Ht. lia.
Qed.

(** Stopping the handles of a list of entries. *)
Lemma stop_handles_fields s (es : list JobEntry) :
  let s' := foldl (λ s e, stop_handle s (handle e)) s es in
  heartbeat s' = heartbeat s /\ jobs_map s' = jobs_map s /\ paused_jobs s' = paused_jobs s
  /\ next_task s' = next_task s
  /\ (forall h, running s' !! h = if decide (Some h ∈ handle <$> es) then None else running s !! h).
Proof.
  revert s. induction es as [|e es IH]; intros s; cbn [foldl];
    [split_and!; try done; intros h; by rewrite decide_False by set_solver|].
  destruct (IH (stop_handle s (handle e))) as (-> & -> & -> & -> & Hr).
  destruct (handle e) as [h0|] eqn:E; cbn [stop_handle stop_task set_running heartbeat jobs_map paused_jobs next_task].
  - split_and!; try done. intros h. rewrite Hr. cbn [stop_handle stop_task set_running running].
    rewrite fmap_cons, E. destruct (decide (Some h ∈ handle <$> es)).
    + by rewrite decide_True by set_solver.
    + rewrite lookup_delete. destruct (decide (h0 = h)) as [->|].
      * by rewrite decide_True by set_solver.
      * by rewrite decide_False by set_solver.
  - split_and!; try done. intros h. rewrite Hr. cbn [stop_handle stop_task set_running running].
    rewrite fmap_cons, E. destruct (decide (Some h ∈ handle <$> es)).
    + by rewrite decide_True by set_solver.
    + by rewrite decide_False by set_solver.
Qed.

(** After [clear_jobs] only the heartbeat task is left. *)
Lemma clear_jobs_spec s :
  (forall h t, running s !! h = Some t ->
     match t with
     | THeartbeat => True
     | TJob i _ _ => exists e, jobs_map s !! i = Some e /\ handle e = Some h end) ->
  (forall i e h, jobs_map s !! i = Some e -> handle e = Some h ->
     exists p d, running s !! h = Some (TJob i p d)) ->
  heartbeat (clear_jobs s) = heartbeat s /\ jobs_map (clear_jobs s) = ∅
  /\ paused_jobs (clear_jobs s) = paused_jobs s /\ next_task (clear_jobs s) = next_task s
  /\ (forall h t, running (clear_jobs s) !! h = Some t <-> running s !! h = Some t /\ t = THeartbeat).
Proof.
  intros Hown Hhan. unfold clear_jobs.
  destruct (stop_handles_fields s (btree_values (jobs_map s))) as (E1 & _ & E3 & E4 & E5).
  cbn. rewrite E1, E3, E4. split_and!; try done. intros h t. rewrite E5. split.
  - destruct (decide _) as [|Hn]; [done|]. intros H. split; [done|]. apply Hown in H as Ho.
    destruct t as [|i p d]; [done|]. exfalso. apply Hn. destruct Ho as (e & He & Hh).
    rewrite <- Hh. apply list_elem_of_fmap_2. unfold btree_values. apply list_elem_of_fmap.
    exists (i, e). split; [done|]. by apply btree_entries_elem.
  - intros [Hr ->]. destruct (decide _) as [Hin|]; [|done]. exfalso.
    apply list_elem_of_fmap in Hin as (e & Hh & He). unfold btree_values in He.
    apply list_elem_of_fmap in He as ([i e'] & -> & He%btree_entries_elem).
    symmetry in Hh. destruct (Hhan _ _ _ He Hh) as (p & d & ?). simplify_eq.
Qed.

Lemma clear_jobs_ok s : sched_ok s -> sched_ok (clear_jobs s).
Proof.
  intros Hs. destruct (clear_jobs_spec s) as (E1 & E2 & E3 & E4 & E5).
  { intros h t Ht. apply (ok_owned _ Hs) in Ht. by destruct t. }
  { apply (ok_handle _ Hs). }
  split; rewrite ?E1, ?E2, ?E3, ?E4; intros *; rewrite ?lookup_empty; try done.
  - intros Hh. apply E5. split; [|done]. by apply (ok_heartbeat _ Hs).
  - intros [Ht ->]%E5. by apply (ok_owned _ Hs) in Ht.
  - intros [Ht ->]%E5. by apply (ok_fresh _ Hs) in Ht.
Qed.

(** [stop] leaves no task behind. *)
Lemma stop_running s now :
  sched_ok s -> is_running s = true ->
  (stop s now).1 = true /\ running (stop s now).2 = ∅ /\ jobs_map (stop s now).2 = ∅
  /\ heartbeat (stop s now).2 = None /\ paused_jobs (stop s now).2 = paused_jobs s.
Proof.
  intros Hs Hr. unfold is_running in Hr. apply bool_decide_eq_true in Hr as [h0 Hh]. unfold stop. rewrite Hh.
  destruct (clear_jobs_spec (stop_task (set_heartbeat s None) h0)) as (E1 & E2 & E3 & E4 & E5).
  { intros h t. cbn. intros [_ Ht]%lookup_delete_Some. apply (ok_owned _ Hs) in Ht. by destruct t. }
  { intros i e h Hi He. destruct (ok_handle _ Hs i e h Hi He) as (p & d & Hj). exists p, d.
    cbn. rewrite lookup_delete_ne; [done|]. intros ->.
    apply (ok_heartbeat _ Hs) in Hh. simplify_eq. }
  cbn [fst snd]. unfold with_status. cbn [set_registry running jobs_map heartbeat paused_jobs].
  split; [done|]. split; [|by rewrite E1, E2, E3].
  apply map_empty. intros h. apply eq_None_not_Some. intros [t Ht].
  apply E5 in Ht as [Ht ->]. cbn in Ht. apply lookup_delete_Some in Ht as [Hne Ht].
  apply (ok_owned _ Hs) in Ht. congruence.
Qed.

Lemma stop_ok s now : sched_ok s -> sched_ok (stop s now).2.
Proof.
  intros Hs. destruct (is_running s) eqn:Hr.
  - destruct (stop_running s now Hs Hr) as (_ & E1 & E2 & E3 & E4).
    split; rewrite ?E1, ?E2, ?E3, ?E4; intros *; rewrite ?lookup_empty; done.
  - unfold is_running in Hr. apply bool_decide_eq_false in Hr. unfold stop.
    destruct (heartbeat s); [exfalso; eauto|done].
Qed.

(** The invariant with a hole: everything but the entry of job [i], which
    owns no task at the moment. *)
Record sched_hole (i : string) (s : SchedulerService) : Prop := mkHole {
  hole_entry : forall j e, j <> i -> jobs_map s !! j = Some e ->
    id (spec e) = j /\ (paused e = true <-> j ∈ paused_jobs s)
    /\ (handle e = None <-> paused e = true);
  hole_handle : forall j e h, j <> i -> jobs_map s !! j = Some e -> handle e = Some h ->
    exists p d, running s !! h = Some (TJob j p d);
  hole_heartbeat : forall h, heartbeat s = Some h -> running s !! h = Some THeartbeat;
  hole_owned : forall h t, running s !! h = Some t ->
    match t with
    | THeartbeat => heartbeat s = Some h
    | TJob j _ _ => j <> i /\ exists e, jobs_map s !! j = Some e /\ handle e = Some h
    end;
  hole_fresh : forall h t, running s !! h = Some t -> (h < next_task s)%nat;
  hole_active : heartbeat s <> None;
}.

(** Stopping the task of job [i] leaves the hole. *)
Lemma stop_hole s i :
  sched_ok s -> heartbeat s <> None ->
  sched_hole i (stop_handle s ((jobs_map s !! i) ≫= handle)).
Proof.
  intros Hs Hhb. set (o := (jobs_map s !! i) ≫= handle).
  assert (Hr : forall h t, running (stop_handle s o) !! h = Some t <->
    running s !! h = Some t /\ o <> Some h).
  { intros h t. destruct o as [h0|]; cbn; [rewrite lookup_delete_Some|]; naive_solver. }
  assert (Ho : forall h, o = Some h -> exists p d, running s !! h = Some (TJob i p d)).
  { intros h Hi. unfold o in Hi. destruct (jobs_map s !! i) as [e|] eqn:E; [|done].
    by apply (ok_handle _ Hs i e). }
  assert (Hf : heartbeat (stop_handle s o) = heartbeat s /\ jobs_map (stop_handle s o) = jobs_map s
    /\ paused_jobs (stop_handle s o) = paused_jobs s /\ next_task (stop_handle s o) = next_task s)
    by by destruct o.
  destruct Hf as (F1 & F2 & F3 & F4). split; rewrite ?F1, ?F2, ?F3, ?F4.
  - intros j e _. apply (ok_entry _ Hs).
  - intros j e h Hj He Hh. destruct (ok_handle _ Hs _ _ _ He Hh) as (p & d & Ht). exists p, d.
    apply Hr. split; [done|]. intros (? & ? & ?)%Ho. simplify_eq.
  - intros h Hh%(ok_heartbeat _ Hs). apply Hr. split; [done|]. intros (? & ? & ?)%Ho. simplify_eq.
  - intros h t [Ht Hi]%Hr. apply (ok_owned _ Hs) in Ht. destruct t as [|j p d]; [done|].
    destruct Ht as (e & He & Hh). split; [|eauto]. intros ->. unfold o in Hi. by rewrite He in Hi.
  - intros h t [Ht _]%Hr. by eapply (ok_fresh _ Hs).
  - done.
Qed.

(** Filling the hole: nothing ([cancel_job]). *)
Lemma hole_delete s i : sched_hole i s -> sched_ok (set_jobs s (delete i (jobs_map s))).
Proof.
  intros Hs. split; cbn.
  - intros j e [Hj He]%lookup_delete_Some. by apply (hole_entry _ _ Hs).
  - intros j e h [Hj He]%lookup_delete_Some. by apply (hole_handle _ _ Hs).
  - apply (hole_heartbeat _ _ Hs).
  - intros h t Ht%(hole_owned _ _ Hs). destruct t as [|j p d]; [done|].
    destruct Ht as (Hj & e & He & Hh). exists e. by rewrite lookup_delete_ne.
  - apply (hole_fresh _ _ Hs).
  - intros H. by destruct (hole_active _ _ Hs).
Qed.

(** A paused entry without a task. *)
Lemma hole_paused s i sp t :
  sched_hole i s -> id sp = i -> i ∈ paused_jobs s ->
  sched_ok (set_jobs s (<[i := mkJob sp t None true]> (jobs_map s))).
Proof.
  intros Hs Hid Hp. split; cbn.
  - intros j e [[<- <-]|[Hj He]]%lookup_insert_Some; [naive_solver|].
    by apply (hole_entry _ _ Hs).
  - intros j e h [[<- <-]|[Hj He]]%lookup_insert_Some; [done|]. by apply (hole_handle _ _ Hs).
  - apply (hole_heartbeat _ _ Hs).
  - intros h t' Ht%(hole_owned _ _ Hs). destruct t' as [|j p d]; [done|].
    destruct Ht as (Hj & e & He & Hh). exists e. by rewrite lookup_insert_ne.
  - apply (hole_fresh _ _ Hs).
  - intros H. by destruct (hole_active _ _ Hs).
Qed.

(** An active entry with a freshly spawned task. *)
Lemma hole_active_job s i sp t skip :
  sched_hole i s -> id sp = i -> i ∉ paused_jobs s ->
  let '(h, s') := spawn_job s sp skip in
  sched_ok (set_jobs s' (<[i := mkJob sp t (Some h) false]> (jobs_map s'))).
Proof.
  intros Hs Hid Hp. cbn.
  assert (Hlt : forall h t, running s !! h = Some t -> next_task s <> h).
  { intros h t' Ht%(hole_fresh _ _ Hs). lia. }
  split; cbn.
  - intros j e [[<- <-]|[Hj He]]%lookup_insert_Some; [naive_solver|].
    by apply (hole_entry _ _ Hs).
  - intros j e h [[<- <-]|[Hj He]]%lookup_insert_Some.
    + cbn. intros [= <-]. rewrite lookup_insert_eq, Hid. eauto.
    + intros Hh. destruct (hole_handle _ _ Hs j e h) as (p & d & Ht); [done..|].
      exists p, d. rewrite lookup_insert_ne; eauto.
  - intros h Hh%(hole_heartbeat _ _ Hs). rewrite lookup_insert_ne; eauto.
  - intros h t' [[<- <-]|[Hne Ht]]%lookup_insert_Some.
    + rewrite Hid. eexists. by rewrite lookup_insert_eq.
    + apply (hole_owned _ _ Hs) in Ht. destruct t' as [|j p d]; [done|].
      destruct Ht as (Hj & e & He & Hh). exists e. by rewrite lookup_insert_ne.
  - intros h t' [[<- <-]|[Hne Ht]]%lookup_insert_Some; [lia|].
    apply (hole_fresh _ _ Hs) in Ht. lia.
  - intros H. by destruct (hole_active _ _ Hs).
Qed.

(** The pause set may change at the hole, the file anywhere. *)
Lemma hole_set_paused s i ps :
  sched_hole i s -> (forall j, j <> i -> j ∈ ps <-> j ∈ paused_jobs s) -> sched_hole i (set_paused s ps).
Proof.
  intros Hs Hps. split; cbn; try apply Hs.
  intros j e Hj He. rewrite Hps by done. by apply (hole_entry _ _ Hs).
Qed.

(** ** Every operation preserves the invariant *)

Lemma running_active s : is_running s = true -> heartbeat s <> None.
Proof. unfold is_running. intros [h ->]%bool_decide_eq_true. done. Qed.

Lemma entry_active s i e : sched_ok s -> jobs_map s !! i = Some e -> heartbeat s <> None.
Proof. intros Hs He Hn. apply (ok_inactive _ Hs) in Hn. by rewrite Hn, lookup_empty in He. Qed.

Lemma entry_hole s i e :
  sched_ok s -> jobs_map s !! i = Some e -> sched_hole i (stop_handle s (handle e)).
Proof.
  intros Hs He. pose proof (stop_hole s i Hs (entry_active _ _ _ Hs He)) as H. by rewrite He in H.
Qed.

Lemma respawn_ok s i e :
  sched_hole i (stop_handle s (handle e)) -> id (spec e) = i -> i ∉ paused_jobs s -> paused e = false ->
  sched_ok (respawn s i e).
Proof.
  intros Hh Hid Hp He. unfold respawn.
  pose proof (hole_active_job _ i (spec e) (task e) true Hh Hid) as H.
  rewrite He. cbn in *. apply H. by destruct (handle e).
Qed.

Lemma register_job_ok s sp t skip : sched_ok s -> sched_ok (register_job s sp t skip).2.
Proof.
  intros Hs. unfold register_job. destruct (_ =? _); [done|].
  destruct (is_running s) eqn:Hr; [|done]. cbn [negb].
  destruct (jobs_map s !! id sp) eqn:Hj; [done|].
  pose proof (stop_hole s (id sp) Hs (running_active _ Hr)) as Hh. rewrite Hj in Hh. cbn in Hh.
  case_bool_decide as Hp.
  - refine (ok_congr _ _ _ _ _ _ _ (hole_paused _ _ sp t Hh eq_refl Hp)); done.
  - refine (ok_congr _ _ _ _ _ _ _ (hole_active_job _ _ sp t skip Hh eq_refl Hp)); done.
Qed.

Lemma cancel_job_ok s i : sched_ok s -> sched_ok (cancel_job s i).2.
Proof.
  intros Hs. unfold cancel_job. destruct (jobs_map s !! i) as [e|] eqn:He; [|done].
  refine (ok_congr _ _ _ _ _ _ _ (hole_delete _ i (entry_hole _ _ _ Hs He))); by destruct (handle e).
Qed.

Lemma restart_job_ok s i : sched_ok s -> sched_ok (restart_job s i).2.
Proof.
  intros Hs. unfold restart_job. destruct (negb _); [done|].
  destruct (jobs_map s !! i) as [e|] eqn:He; [|done]. destruct (paused e) eqn:Hp; [done|].
  destruct (ok_entry _ Hs i e He) as (Hid & Hpp & _).
  apply respawn_ok; [by apply entry_hole|done| |done]. rewrite <- Hpp. congruence.
Qed.

Lemma persist_fields s w :
  heartbeat (persist_paused_jobs s w) = heartbeat s /\ jobs_map (persist_paused_jobs s w) = jobs_map s
  /\ paused_jobs (persist_paused_jobs s w) = paused_jobs s /\ running (persist_paused_jobs s w) = running s
  /\ next_task (persist_paused_jobs s w) = next_task s.
Proof. by destruct w. Qed.

Lemma pause_job_ok s i w : sched_ok s -> sched_ok (pause_job s i w).2.
Proof.
  intros Hs. unfold pause_job. destruct (jobs_map s !! i) as [e|] eqn:He; [|done].
  destruct (paused e) eqn:Hp; [done|]. destruct (ok_entry _ Hs i e He) as (Hid & _ & _).
  pose proof (entry_hole _ _ _ Hs He) as Hh.
  apply (hole_set_paused _ _ ({[i]} ∪ paused_jobs (stop_handle s (handle e)))) in Hh; [|set_solver].
  apply (hole_paused _ _ (spec e) (task e)) in Hh; [|done|cbn; set_solver].
  refine (ok_congr _ _ _ _ _ _ _ Hh); cbn; destruct w; cbn; by destruct (handle e).
Qed.

Lemma resume_job_ok s i w : sched_ok s -> sched_ok (resume_job s i w).2.
Proof.
  intros Hs. unfold resume_job. destruct (negb _); [done|].
  destruct (jobs_map s !! i) as [e|] eqn:He; [|done]. destruct (paused e) eqn:Hp; [|done].
  destruct (ok_entry _ Hs i e He) as (Hid & _ & _). cbn [negb].
  set (s1 := persist_paused_jobs (set_paused s (paused_jobs s ∖ {[i]})) w).
  assert (Hh : sched_hole i (stop_handle s1 (handle e))).
  { pose proof (hole_set_paused _ _ (paused_jobs s ∖ {[i]}) (entry_hole _ _ _ Hs He)) as Hh.
    destruct Hh as [A1 A2 A3 A4 A5 A6]; [destruct (handle e); cbn; set_solver|].
    unfold s1. destruct w, (handle e); split; assumption. }
  assert (Hps : i ∉ paused_jobs s1) by (unfold s1; destruct w; cbn; set_solver).
  refine (ok_congr _ _ _ _ _ _ _ (respawn_ok s1 i (mkJob (spec e) (task e) (handle e) false) Hh Hid Hps eq_refl)); done.
Qed.

Lemma sched_op_ok s o : sched_ok s -> sched_ok (run_op s o).
Proof.
  destruct o; cbn [run_op]; auto using start_ok, stop_ok, clear_jobs_ok, register_job_ok, cancel_job_ok,
    restart_job_ok, pause_job_ok, resume_job_ok.
Qed.

Lemma sched_runs_ok os s : sched_ok s -> sched_ok (foldl run_op s os).
Proof. revert s. induction os; cbn [foldl]; eauto using sched_op_ok. Qed.

(** ** Properties *)

(** in every state the scheduler can reach, a registered job has exactly
    one running task if it is not paused and none if it is; every running
    job task belongs to a registered job; and the pause flag of a job is its
    membership in the persisted pause set. *)
Theorem one_task_per_active_job g file os :
  let s := foldl run_op (new g file) os in
  (forall i e, jobs_map s !! i = Some e -> paused e = false ->
     exists h, (exists p d, running s !! h = Some (TJob i p d))
       /\ forall h' p d, running s !! h' = Some (TJob i p d) -> h' = h)
  /\ (forall i e h p d, jobs_map s !! i = Some e -> paused e = true ->
        running s !! h <> Some (TJob i p d))
  /\ (forall h i p d, running s !! h = Some (TJob i p d) -> is_Some (jobs_map s !! i))
  /\ (forall i e, jobs_map s !! i = Some e -> paused e = true <-> i ∈ paused_jobs s).
Proof.
  intros s. assert (Hs : sched_ok s) by apply sched_runs_ok, sched_new_ok. split_and!.
  - intros i e He Hp. destruct (ok_entry _ Hs i e He) as (_ & _ & Hn).
    destruct (handle e) as [h|] eqn:Hh; [|by rewrite (proj1 Hn eq_refl) in Hp].
    exists h. split; [by apply (ok_handle _ Hs i e)|].
    intros h' p d (e' & He' & Hh')%(ok_owned _ Hs). simplify_eq. done.
  - intros i e h p d He Hp Ht. destruct (ok_entry _ Hs i e He) as (_ & _ & Hn).
    apply (ok_owned _ Hs) in Ht as (e' & He' & Hh'). simplify_eq. rewrite (proj2 Hn Hp) in Hh'. done.
  - intros h i p d (e & -> & _)%(ok_owned _ Hs). eauto.
  - intros i e He. by destruct (ok_entry _ Hs i e He) as (_ & Hp & _).
Qed.

(** stopping a running scheduler leaves no task of it running, forgets
    its jobs and keeps the pause set. *)
Theorem stop_leaves_no_task g file os now :
  let s := foldl run_op (new g file) os in
  is_running s = true ->
  (stop s now).1 = true /\ running (stop s now).2 = ∅ /\ jobs_map (stop s now).2 = ∅
  /\ heartbeat (stop s now).2 = None /\ paused_jobs (stop s now).2 = paused_jobs s.
Proof. intros s. apply stop_running, sched_runs_ok, sched_new_ok. Qed.

(** a pause survives a restart of the host: when the state file was
    written, a scheduler built from it registers the job paused and spawns
    no task for it. *)
Theorem pause_survives_restart s i e g' now sp t skip :
  jobs_map s !! i = Some e -> paused e = false -> id sp = i -> interval sp <> 0 ->
  let s' := (pause_job s i WOk).2 in
  let r := (start (new g' (state_file s')) now).2 in
  let s3 := (register_job r sp t skip).2 in
  (register_job r sp t skip).1 = Ok tt
  /\ jobs_map s3 !! i = Some (mkJob sp t None true) /\ running s3 = {[ 0%nat := THeartbeat ]}.
Proof.
  intros He Hp Hid Hint. cbv zeta. unfold pause_job. rewrite He, Hp.
  unfold register_job. rewrite (proj2 (Z.eqb_neq _ _) Hint). cbn.
  rewrite lookup_empty. rewrite bool_decide_eq_true_2.
  2:{ rewrite elem_of_list_to_set, merge_sort_Permutation, elem_of_elements. set_solver. }
  cbn. rewrite Hid. split; [done|]. split; [apply lookup_insert_eq|done].
Qed.

(** [start] checks and spawns in two critical sections; when two calls
    both pass the check before either spawns, the first heartbeat task is
    overwritten and keeps running after [stop]. *)
Theorem start_race_leaks_heartbeat g file now1 now2 now3 :
  let s0 := new g file in
  start_check s0 = true ->
  let s2 := start_commit (start_commit s0 now1) now2 in
  running (stop s2 now3).2 = {[ 0%nat := THeartbeat ]} /\ is_running (stop s2 now3).2 = false.
Proof. intros s0 _ s2. split; [|done]. cbn. unfold btree_values, btree_entries. done. Qed.
End Scheduler.

(** ** Witnesses *)

Definition demo_scheduler : SchedulerService (D := string) (T := unit) := new Registry.new None.
Definition demo_spec := mkSpec "audit-drain" 300000000000 None "drain".
Definition demo_ops : list (op (T := unit)) :=
  [OStart 0; ORegister demo_spec tt false; OPause "audit-drain" WOk; OResume "audit-drain" WOk].

Lemma stop_leaves_no_task_witness :
  running (stop (foldl run_op demo_scheduler demo_ops) 9).2 = ∅.
Proof. apply (stop_leaves_no_task Registry.new None demo_ops 9). vm_compute. reflexivity. Defined.

Lemma pause_survives_restart_witness :
  (register_job (start (new (Registry.new (D := string))
      (state_file (pause_job (foldl run_op demo_scheduler demo_ops) "audit-drain" WOk).2)) 0).2
    demo_spec tt false).1 = Ok tt.
Proof.
  eapply (pause_survives_restart (foldl run_op demo_scheduler demo_ops) "audit-drain"
    (mkJob demo_spec tt (Some 2%nat) false)).
  - vm_compute. reflexivity.
  - reflexivity.
  - reflexivity.
  - discriminate.
Defined.

Lemma start_race_leaks_heartbeat_witness :
  is_running (stop (start_commit (start_commit demo_scheduler 1) 2) 3).2 = false.
Proof. apply (start_race_leaks_heartbeat Registry.new None 1 2 3). reflexivity. Defined.
