(* ===== verification/StatementCache.v ===== *)
(** * Prepared statements of a connection: [StatementCache] of
    [infra/db/adapters/postgres/pool.rs]

    The cache with its tick counter, a specification as a recency list, and
    the simulation between them.  [HashMap::iter] is the iteration of the
    finite map; ticks are distinct, so its order does not matter. *)

From S2P Require Import Prelude.

(** ** The cache *)

Section StatementCache.
Context {St : Type}.

Record StatementCache := mkCache {
  capacity : Z;
  tick : Z;
  entries : gmap string (St * Z);
}.

Definition cache_new (cap : Z) : StatementCache := mkCache (Z.max cap 1) 0 ∅.

Definition cache_get (c : StatementCache) (sql : string) : option St * StatementCache :=
  let t := u64_wrapping_add (tick c) 1 in
  match entries c !! sql with
  | Some (st, _) => (Some st, mkCache (capacity c) t (<[sql := (st, t)]> (entries c)))
  | None => (None, mkCache (capacity c) t (entries c))
  end.

(** [entries.iter().min_by_key(used)]: the first entry with the smallest
    tick. *)
Definition older (best : option (string * Z)) (kv : string * (St * Z)) : option (string * Z) :=
  match best with
  | Some (k, u) => if kv.2.2 <? u then Some (kv.1, kv.2.2) else best
  | None => Some (kv.1, kv.2.2)
  end.
Definition least_recent (m : gmap string (St * Z)) : option (string * Z) :=
  foldl older None (map_to_list m).

Definition cache_len (c : StatementCache) : Z := Z.of_nat (size (entries c)).

Definition cache_insert (c : StatementCache) (sql : string) (st : St) : StatementCache :=
  let m :=
    if (capacity c <=? cache_len c) && negb (bool_decide (is_Some (entries c !! sql))) then
      match least_recent (entries c) with
      | Some (oldest, _) => delete oldest (entries c)
      | None => entries c
      end
    else entries c in
  let t := u64_wrapping_add (tick c) 1 in
  mkCache (capacity c) t (<[sql := (st, t)]> m).

Definition cache_remove (c : StatementCache) (sql : string) : StatementCache :=
  mkCache (capacity c) (tick c) (delete sql (entries c)).
Definition cache_clear (c : StatementCache) : StatementCache := mkCache (capacity c) (tick c) ∅.

(** *** The cache as a recency list

    The specification: the cached statements with the most recently used
    first, at most [cap] of them. *)
Inductive cache_op := OGet (sql : string) | OInsert (sql : string) (st : St) | ORemove (sql : string) | OClear.

Definition cache_step (c : StatementCache) (o : cache_op) : option St * StatementCache :=
  match o with
  | OGet sql => cache_get c sql
  | OInsert sql st => (None, cache_insert c sql st)
  | ORemove sql => (None, cache_remove c sql)
  | OClear => (None, cache_clear c)
  end.

Definition without (sql : string) {B} (l : list (string * B)) : list (string * B) :=
  filter (λ kv, kv.1 <> sql) l.
Definition assoc {B} (sql : string) (l : list (string * B)) : option B :=
  snd <$> List.find (λ kv, bool_decide (kv.1 = sql)) l.
Definition lru_step (cap : Z) (l : list (string * St)) (o : cache_op) : option St * list (string * St) :=
  match o with
  | OGet sql => match assoc sql l with
                | Some st => (Some st, (sql, st) :: without sql l)
                | None => (None, l)
                end
  | OInsert sql st =>
      let kept := match assoc sql l with
                  | Some _ => without sql l
                  | None => if (cap <=? Z.of_nat (length l)) then take (length l - 1) l else l
                  end in
      (None, (sql, st) :: kept)
  | ORemove sql => (None, without sql l)
  | OClear => (None, [])
  end.

(** The concrete cache is a recency list [l] whose entries carry their
    ticks, the newest first. *)
Definition erase (kv : string * (St * Z)) : string * St := (kv.1, kv.2.1).
Record cache_rel (c : StatementCache) (l : list (string * (St * Z))) : Prop := mkRel {
  rel_nodup : NoDup l.*1;
  rel_entries : forall k x, entries c !! k = Some x <-> (k, x) ∈ l;
  rel_order : StronglySorted (λ a b, b.2.2 < a.2.2) l;
  rel_tick : Forall (λ a, a.2.2 <= tick c) l;
  rel_cap : Z.of_nat (length l) <= capacity c;
  rel_room : 1 <= capacity c;
}.

Lemma assoc_elem {B} k (l : list (string * B)) x : NoDup l.*1 -> assoc k l = Some x <-> (k, x) ∈ l.
Proof.
  unfold assoc. induction l as [|[k' y] l IH]; cbn; [set_solver|].
  intros [Hk Hnd]%NoDup_cons. rewrite elem_of_cons. case_bool_decide; cbn in *; subst.
  - split; [intros [= ->]; by left|intros [[= ->]|Hx]; [done|]]. destruct Hk. by apply (list_elem_of_fmap_2 fst) in Hx.
  - rewrite IH by done. naive_solver.
Qed.

Lemma without_elem {B} k (l : list (string * B)) k' x : (k', x) ∈ without k l <-> k' <> k /\ (k', x) ∈ l.
Proof. unfold without. by rewrite list_elem_of_filter. Qed.

Lemma sublist_Forall {A} (P : A -> Prop) (l l' : list A) : l' `sublist_of` l -> Forall P l -> Forall P l'.
Proof. rewrite !Forall_forall. intros Hs Hl x Hx. apply Hl. by eapply elem_of_sublist. Qed.

Lemma rel_sublist c l l' m t :
  cache_rel c l -> l' `sublist_of` l -> tick c <= t ->
  (forall k x, m !! k = Some x <-> (k, x) ∈ l') -> cache_rel (mkCache (capacity c) t m) l'.
Proof.
  intros [Hn He Ho Ht Hc H1] Hs Htc Hm. split; cbn; try done.
  - eapply sublist_NoDup; [done|]. by apply fmap_sublist.
  - by eapply strongly_sorted_sublist.
  - eapply sublist_Forall; [done|]. eapply Forall_impl; [done|]. cbn. lia.
  - apply sublist_length in Hs. lia.
Qed.

(** A new entry in front of a list that does not have its key. *)
Lemma rel_cons c l k st :
  cache_rel c l -> k ∉ l.*1 -> Z.of_nat (length l) < capacity c -> u64_wrapping_add (tick c) 1 = tick c + 1 ->
  cache_rel (mkCache (capacity c) (tick c + 1) (<[k := (st, tick c + 1)]> (entries c))) ((k, (st, tick c + 1)) :: l).
Proof.
  intros [Hn He Ho Ht Hc H1] Hk Hlen Hw. split; cbn; try lia.
  - by constructor.
  - intros k' x. rewrite lookup_insert, elem_of_cons, <- He. case_decide; subst; [|naive_solver].
    rewrite He. split; [naive_solver|]. intros [[= ->]|Hx]; [done|]. by apply (list_elem_of_fmap_2 fst) in Hx.
  - constructor; [done|]. eapply Forall_impl; [done|]. cbn. lia.
  - constructor; cbn; [lia|]. eapply Forall_impl; [done|]. cbn. lia.
Qed.

Lemma older_fold l best k u :
  foldl older best l = Some (k, u) ->
  (best = Some (k, u) \/ exists st, (k, (st, u)) ∈ l)
  /\ (forall k' u', best = Some (k', u') -> u <= u') /\ Forall (λ kv, u <= kv.2.2) l.
Proof.
  revert best. induction l as [|[k1 [st1 u1]] l IH]; intros best; cbn.
  - intros ->. split_and!; [by left| |constructor]. intros ?? [= -> ->]. lia.
  - intros (Hin & Hbest & Hl)%IH. unfold older in *. cbn in *.
    assert (Hle : u <= u1 /\ forall k' u', best = Some (k', u') -> u <= u').
    { destruct best as [[kb ub]|]; [destruct (Z.ltb_spec u1 ub)|]; specialize (Hbest _ _ eq_refl);
        (split; [lia|intros ?? [= -> ->] || intros ?? [=]; lia]). }
    destruct Hle as [Hle1 Hle2]. split_and!; [|done|by constructor].
    destruct Hin as [Hin|[st Hin]]; [|right; exists st; by right].
    destruct best as [[kb ub]|]; [destruct (Z.ltb_spec u1 ub)|]; [|by left|]; injection Hin as -> ->; right; exists st1; by left.
Qed.

Lemma older_some l b : is_Some (foldl older (Some b) l).
Proof.
  revert b. induction l as [|[k [st u]] l IH]; intros [kb ub]; cbn; [done|].
  destruct (u <? ub); apply IH.
Qed.

Lemma least_recent_last c l x :
  cache_rel c (l ++ [x]) -> least_recent (entries c) = Some (x.1, x.2.2).
Proof.
  intros [_ He Ho _ _ _]. unfold least_recent.
  assert (Hx : (x.1, x.2) ∈ map_to_list (entries c)).
  { rewrite elem_of_map_to_list, He. rewrite <- surjective_pairing. set_solver. }
  destruct (foldl older None (map_to_list (entries c))) as [[k u]|] eqn:Hf.
  - apply older_fold in Hf as ([[=]|[st Hin]] & _ & Hall).
    apply (proj1 (Forall_forall _ _)) with (x := (x.1, x.2)) in Hall; [|done]. cbn in Hall.
    rewrite elem_of_map_to_list, He in Hin. apply elem_of_app in Hin as [Hin|Hin%list_elem_of_singleton]; [|by subst x].
    apply StronglySorted_app in Ho as (Hlt & _ & _).
    specialize (Hlt _ x Hin ltac:(set_solver)). cbn in Hlt. lia.
  - destruct (map_to_list (entries c)) as [|[k [st u]] m] eqn:E; [set_solver|]. cbn in Hf.
    destruct (older_some m (k, u)) as [y Hy]. congruence.
Qed.

Lemma erase_without k l : erase <$> without k l = without k (erase <$> l).
Proof.
  unfold without. induction l as [|[k' [st u]] l IH]; [done|]. rewrite fmap_cons, !filter_cons. cbn.
  case_decide; cbn; by rewrite IH.
Qed.

Lemma erase_assoc k l : assoc k (erase <$> l) = fst <$> assoc k l.
Proof.
  unfold assoc. induction l as [|[k' [st u]] l IH]; [done|]. cbn. by case_bool_decide.
Qed.

Lemma erase_keys l : (erase <$> l).*1 = l.*1.
Proof. by rewrite <- list_fmap_compose. Qed.

Lemma rel_assoc c l k : cache_rel c l -> entries c !! k = assoc k l.
Proof.
  intros [Hn He _ _ _ _]. apply option_eq. intros x. by rewrite He, assoc_elem.
Qed.

Lemma rel_len c l : cache_rel c l -> cache_len c = Z.of_nat (length l).
Proof.
  intros [Hn He _ _ _ _]. unfold cache_len. f_equal. rewrite <- (map_size_list_to_map (M := gmap string) l Hn). f_equal.
  apply map_eq. intros k. apply option_eq. intros x. by rewrite He, elem_of_list_to_map.
Qed.

Lemma rel_without c l k t :
  cache_rel c l -> tick c <= t -> cache_rel (mkCache (capacity c) t (delete k (entries c))) (without k l).
Proof.
  intros Hr Ht. eapply rel_sublist; [done|apply sublist_filter|done|]. intros k' x.
  rewrite without_elem, <- (rel_entries _ _ Hr), lookup_delete_Some. naive_solver.
Qed.

(** Using [k] again: its entry goes to the front with a new tick. *)
Lemma rel_front c l k st x :
  cache_rel c l -> assoc k l = Some x -> u64_wrapping_add (tick c) 1 = tick c + 1 ->
  cache_rel (mkCache (capacity c) (tick c + 1) (<[k := (st, tick c + 1)]> (entries c)))
            ((k, (st, tick c + 1)) :: without k l).
Proof.
  intros Hr Hx Hw. rewrite <- insert_delete_eq.
  pose proof (rel_cons (mkCache (capacity c) (tick c) (delete k (entries c))) (without k l) k st) as Hc.
  cbn [capacity tick entries] in Hc. apply Hc; [| | |done].
  - apply rel_without; [done|lia].
  - intros Hin. apply list_elem_of_fmap in Hin as [[k' y] [-> Hin]]. by apply without_elem in Hin as [? _].
  - apply assoc_elem in Hx; [|by eapply rel_nodup]. pose proof (rel_cap _ _ Hr).
    pose proof (length_filter_lt (λ kv : string * (St * Z), kv.1 <> k) l (k, x) Hx ltac:(naive_solver)). unfold without. lia.
Qed.

(** Dropping the entry that [least_recent] finds. *)
Lemma rel_evict c l :
  cache_rel c l -> l <> [] ->
  exists k u, least_recent (entries c) = Some (k, u)
    /\ cache_rel (mkCache (capacity c) (tick c) (delete k (entries c))) (take (length l - 1) l).
Proof.
  intros Hr Hne. destruct (exists_last Hne) as (l' & x & ->).
  exists x.1, x.2.2. split; [by eapply least_recent_last|].
  rewrite length_app. cbn. rewrite Nat.add_sub, take_app_length.
  eapply rel_sublist; [done|by apply sublist_inserts_r|lia|]. intros k v.
  pose proof (rel_nodup _ _ Hr) as Hn. rewrite fmap_app in Hn. apply NoDup_app in Hn as (_ & Hd & _).
  rewrite lookup_delete_Some, (rel_entries _ _ Hr), elem_of_app, list_elem_of_singleton. split.
  - intros [Hk [?|Hx]]; [done|]. rewrite <- Hx in Hk. by destruct Hk.
  - intros Hin. split; [|by left]. intros <-. apply (list_elem_of_fmap_2 fst) in Hin. by specialize (Hd _ Hin ltac:(set_solver)).
Qed.

Lemma cache_step_sim c l o :
  cache_rel c l -> u64_wrapping_add (tick c) 1 = tick c + 1 ->
  exists l', (cache_step c o).1 = (lru_step (capacity c) (erase <$> l) o).1
    /\ erase <$> l' = (lru_step (capacity c) (erase <$> l) o).2
    /\ cache_rel (cache_step c o).2 l' /\ capacity (cache_step c o).2 = capacity c
    /\ tick (cache_step c o).2 <= tick c + 1.
Proof.
  intros Hr Hw. destruct o as [k|k st|k|]; cbn.
  - unfold cache_get. rewrite Hw, (rel_assoc _ _ _ Hr), erase_assoc. destruct (assoc k l) as [[st u]|] eqn:Hk; cbn.
    + exists ((k, (st, tick c + 1)) :: without k l). rewrite fmap_cons, erase_without.
      split_and!; try done; try lia. by eapply rel_front.
    + exists l. split_and!; try done; try lia. eapply rel_sublist; [done|done|lia|apply Hr].
  - unfold cache_insert. rewrite Hw, (rel_assoc _ _ _ Hr), (rel_len _ _ Hr), erase_assoc, length_fmap.
    destruct (assoc k l) as [x|] eqn:Hk; cbn.
    + rewrite andb_false_r. exists ((k, (st, tick c + 1)) :: without k l).
      rewrite fmap_cons, erase_without. split_and!; try done; try lia. by eapply rel_front.
    + rewrite andb_true_r. assert (Hkl : k ∉ l.*1).
      { intros ([k' v] & -> & Hv)%list_elem_of_fmap. apply assoc_elem in Hv; [cbn in Hk; congruence|apply Hr]. }
      destruct (Z.leb_spec (capacity c) (Z.of_nat (length l))) as [Hfull|Hroom].
      * pose proof (rel_room _ _ Hr). pose proof (rel_cap _ _ Hr).
        destruct (rel_evict c l Hr) as (ko & u & -> & Hr'); [intros ->; cbn in *; lia|].
        exists ((k, (st, tick c + 1)) :: take (length l - 1) l). rewrite fmap_cons, fmap_take.
        split_and!; try done; try lia. pose proof (rel_cons _ _ k st Hr') as Hc. cbn [capacity tick entries] in Hc.
        apply Hc; [|rewrite length_take; lia|done]. intros Hin. apply Hkl. rewrite fmap_take in Hin.
        by eapply elem_of_sublist, sublist_take.
      * exists ((k, (st, tick c + 1)) :: l). rewrite fmap_cons. split_and!; try done; try lia. by apply rel_cons.
  - exists (without k l). rewrite erase_without. split_and!; try done; try lia. apply rel_without; [done|lia].
  - exists []. split_and!; try done; try lia. eapply rel_sublist; [done|apply sublist_nil_l|lia|].
    intros k x. rewrite lookup_empty. set_solver.
Qed.

Fixpoint cache_run (c : StatementCache) (ops : list cache_op) : list (option St) * StatementCache :=
  match ops with
  | [] => ([], c)
  | o :: ops => let '(r, c) := cache_step c o in let '(rs, c) := cache_run c ops in (r :: rs, c)
  end.
Fixpoint lru_run (cap : Z) (l : list (string * St)) (ops : list cache_op) : list (option St) * list (string * St) :=
  match ops with
  | [] => ([], l)
  | o :: ops => let '(r, l) := lru_step cap l o in let '(rs, l) := lru_run cap l ops in (r :: rs, l)
  end.

Lemma cache_run_sim ops c l :
  cache_rel c l -> 0 <= tick c -> tick c + Z.of_nat (length ops) < 2 ^ 64 ->
  exists l', (cache_run c ops).1 = (lru_run (capacity c) (erase <$> l) ops).1
    /\ erase <$> l' = (lru_run (capacity c) (erase <$> l) ops).2 /\ cache_rel (cache_run c ops).2 l'
    /\ capacity (cache_run c ops).2 = capacity c.
Proof.
  revert c l. induction ops as [|o ops IH]; intros c l Hr H0 Ht; [by exists l|]. cbn in Ht.
  assert (Hw : u64_wrapping_add (tick c) 1 = tick c + 1).
  { unfold u64_wrapping_add. apply Z.mod_small. lia. }
  destruct (cache_step_sim c l o Hr Hw) as (l1 & E1 & E2 & Hr1 & Ec & Etk). cbn.
  assert (0 <= tick (cache_step c o).2).
  { destruct o; cbn; try done; unfold cache_get, cache_insert; rewrite ?Hw; [destruct (entries c !! sql) as [[]|]|]; cbn; lia. }
  destruct (IH (cache_step c o).2 l1 Hr1 ltac:(lia) ltac:(lia)) as (l' & F1 & F2 & Hr' & Fc).
  exists l'. destruct (cache_step c o) as [r c1], (lru_step _ _ _) as [r' l1']. cbn in *. subst.
  rewrite Ec in F1, F2. destruct (cache_run c1 ops), (lru_run _ _ ops). cbn in *. subst. split_and!; congruence || done.
Qed.

(** for any sequence of fewer than 2^64 cache operations the statement
    cache answers as a recency list of at most [max capacity 1] entries that
    drops its last entry when a new statement does not fit, and holds the
    same statements. *)
Theorem statement_cache_is_lru (cap : Z) (ops : list cache_op) :
  Z.of_nat (length ops) < 2 ^ 64 ->
  let (rs, c) := cache_run (cache_new cap) ops in
  let (rs', l) := lru_run (Z.max cap 1) [] ops in
  rs = rs' /\ (forall k, fst <$> entries c !! k = assoc k l) /\ cache_len c = Z.of_nat (length l)
  /\ cache_len c <= Z.max cap 1.
Proof.
  intros Hlen.
  assert (Hr : cache_rel (cache_new cap) []).
  { split; cbn; try constructor; try lia; rewrite ?lookup_empty; set_solver. }
  destruct (cache_run_sim ops _ _ Hr) as (l' & E1 & E2 & Hr' & Ec); [cbn; lia..|].
  cbn in E1, E2, Ec. destruct (cache_run _ ops) as [rs c], (lru_run _ _ ops) as [rs' l]. cbn in *. subst.
  split_and!; [done| | |].
  - intros k. by rewrite (rel_assoc _ _ _ Hr'), erase_assoc.
  - by rewrite (rel_len _ _ Hr'), length_fmap.
  - rewrite (rel_len _ _ Hr'), <- Ec. apply Hr'.
Qed.
End StatementCache.
Arguments StatementCache : clear implicits.

Lemma statement_cache_is_lru_witness :
  cache_len (cache_run (St := Z) (cache_new 2) [OInsert "a" 1; OInsert "b" 2; OGet "a"; OInsert "c" 3]).2 = 2
  /\ (cache_run (St := Z) (cache_new 2) [OInsert "a" 1; OInsert "b" 2; OGet "a"; OInsert "c" 3]).1
     = (lru_run 2 [] [OInsert "a" 1; OInsert "b" 2; OGet "a"; OInsert "c" 3]).1.
Proof.
  split; [vm_compute; reflexivity|].
  pose proof (statement_cache_is_lru 2 [OInsert "a" 1; OInsert "b" 2; OGet "a"; OInsert "c" 3]) as H.
  destruct (cache_run (cache_new 2) _) as [rs c], (lru_run (Z.max 2 1) _ _) as [rs' l] eqn:E.
  change (Z.max 2 1) with 2 in E. rewrite E. apply H. cbn. lia.
Defined.
