(* ===== verification/Pool.v ===== *)
(** * Postgres connection pool: [infra/db/adapters/postgres/pool.rs]

    [PgPool::get] waits at several points (permits, ping, connect), so a
    checkout is a task with a phase and the pool a machine whose steps are
    the stretches between two waits; [step] is total and executable
    ([None]: the step is not enabled).  A semaphore is the number of tasks
    that hold one of its permits.  Outside decisions are arguments: clocks,
    which clients the server has closed, the iteration order of the
    [HashMap] of pools, whether a ping or a connect succeeds, and when a
    caller drops the [get] future ([ACancel]).  Times are nanoseconds. *)

From S2P Require Import Prelude.
From S2P Require Import StatementCache.

(** ** The pool *)

Record PoolSettings := mkSettings {
  max_per_pool : Z;
  max_total : Z;
  wait_timeout : Z;
  connect_timeout : Z;
  reset_timeout : Z;
  max_lifetime : Z;
  idle_timeout : Z;
  health_check_after : Z;
  statement_cache : Z;
  sweep_interval : Z;
  module_statement_timeout : option Z;
}.

Definition secs (n : Z) : Z := n * 1000000000.
Definition settings_default : PoolSettings :=
  mkSettings 8 48 (secs 5) (secs 5) (secs 2) (secs (30 * 60)) (secs (5 * 60)) (secs 30) 256 (secs 30) (Some (secs 30)).

Section Pool.
Context {St : Type}.

Record PgConn := mkConn {
  conn_id : Z;
  statements : StatementCache St;
  created : Z;
  last_used : Z;
  generation : Z;
}.

Record KeyStats := mkStats {
  n_created : Z; n_reused : Z; n_closed : Z; n_resets : Z; n_wait_timeouts : Z; n_connect_failures : Z;
  n_waiting : Z; n_in_use : Z; n_cache_hits : Z; n_cache_misses : Z; n_invalidations : Z; n_retries : Z;
}.
Definition stats_default := mkStats 0 0 0 0 0 0 0 0 0 0 0 0.

Record KeyPool := mkPool { idle : list PgConn; stats : KeyStats }.
Definition pool_default := mkPool [] stats_default.

(** Where a [get] (and then its [PooledConn]) is. *)
Inductive phase :=
| PWait                              (** waiting for the permit of its key *)
| PKey                               (** has it, waiting for the total permit *)
| PPop (gen : Z)                     (** has both and has read the generation; taking idle connections *)
| PPing (gen : Z) (c : PgConn)       (** pinging one of them *)
| PRoom (gen : Z)                    (** found none, about to make room *)
| PConnect (gen : Z)                 (** connecting *)
| PHeld (c : PgConn) (reused discard : bool).  (** the connection is handed out *)

Record checkout := mkCheckout { g_key : string; g_phase : phase }.

Record PgPool := mkPgPool {
  settings : PoolSettings;
  pools : gmap string KeyPool;
  tasks : gmap nat checkout;
  open_total : Z;
  next_id : Z;
  cur_generation : Z;
  last_sweep : Z;
}.

Definition new (cfg : PoolSettings) (now : Z) : PgPool := mkPgPool cfg ∅ ∅ 0 1 0 now.

Definition set_pools (s : PgPool) p := mkPgPool (settings s) p (tasks s) (open_total s)
  (next_id s) (cur_generation s) (last_sweep s).
Definition set_tasks (s : PgPool) t := mkPgPool (settings s) (pools s) t (open_total s)
  (next_id s) (cur_generation s) (last_sweep s).
Definition set_open (s : PgPool) o := mkPgPool (settings s) (pools s) (tasks s) o
  (next_id s) (cur_generation s) (last_sweep s).
Definition set_next (s : PgPool) := mkPgPool (settings s) (pools s) (tasks s) (open_total s)
  (next_id s + 1) (cur_generation s) (last_sweep s).

(** Semaphores: a task holds the permit of its key from [PKey] on and the
    total permit from [PPop] on. *)
Definition holds_key (k : string) (g : checkout) : nat :=
  match g_phase g with PWait => 0 | _ => if bool_decide (g_key g = k) then 1 else 0 end.
Definition holds_total (g : checkout) : nat :=
  match g_phase g with PWait | PKey => 0 | _ => 1 end.
Definition key_permits_used (s : PgPool) (k : string) : Z := Z.of_nat (msum (holds_key k) (tasks s)).
Definition total_permits_used (s : PgPool) : Z := Z.of_nat (msum holds_total (tasks s)).

Definition pool_of (s : PgPool) (k : string) : KeyPool := default pool_default (pools s !! k).

(** Applies [f] to the counters of pool [k]. *)
Definition bump (s : PgPool) (k : string) (f : KeyStats -> KeyStats) : PgPool :=
  set_pools s (<[k := mkPool (idle (pool_of s k)) (f (stats (pool_of s k)))]> (pools s)).
Definition set_idle (s : PgPool) (k : string) (l : list PgConn) : PgPool :=
  set_pools s (<[k := mkPool l (stats (pool_of s k))]> (pools s)).
Definition set_phase (s : PgPool) (i : nat) (k : string) (p : phase) : PgPool :=
  set_tasks s (<[i := mkCheckout k p]> (tasks s)).

(** [fetch_add] and [fetch_sub] on one counter. *)
Definition inc_created st := mkStats (n_created st + 1) (n_reused st) (n_closed st) (n_resets st)
  (n_wait_timeouts st) (n_connect_failures st) (n_waiting st) (n_in_use st)
  (n_cache_hits st) (n_cache_misses st) (n_invalidations st) (n_retries st).
Definition inc_reused st := mkStats (n_created st) (n_reused st + 1) (n_closed st) (n_resets st)
  (n_wait_timeouts st) (n_connect_failures st) (n_waiting st) (n_in_use st)
  (n_cache_hits st) (n_cache_misses st) (n_invalidations st) (n_retries st).
Definition inc_closed (n : Z) st := mkStats (n_created st) (n_reused st) (n_closed st + n) (n_resets st)
  (n_wait_timeouts st) (n_connect_failures st) (n_waiting st) (n_in_use st)
  (n_cache_hits st) (n_cache_misses st) (n_invalidations st) (n_retries st).
Definition inc_resets st := mkStats (n_created st) (n_reused st) (n_closed st) (n_resets st + 1)
  (n_wait_timeouts st) (n_connect_failures st) (n_waiting st) (n_in_use st)
  (n_cache_hits st) (n_cache_misses st) (n_invalidations st) (n_retries st).
Definition inc_timeouts st := mkStats (n_created st) (n_reused st) (n_closed st) (n_resets st)
  (n_wait_timeouts st + 1) (n_connect_failures st) (n_waiting st) (n_in_use st)
  (n_cache_hits st) (n_cache_misses st) (n_invalidations st) (n_retries st).
Definition inc_failures st := mkStats (n_created st) (n_reused st) (n_closed st) (n_resets st)
  (n_wait_timeouts st) (n_connect_failures st + 1) (n_waiting st) (n_in_use st)
  (n_cache_hits st) (n_cache_misses st) (n_invalidations st) (n_retries st).
Definition add_waiting (n : Z) st := mkStats (n_created st) (n_reused st) (n_closed st) (n_resets st)
  (n_wait_timeouts st) (n_connect_failures st) (n_waiting st + n) (n_in_use st)
  (n_cache_hits st) (n_cache_misses st) (n_invalidations st) (n_retries st).
Definition add_in_use (n : Z) st := mkStats (n_created st) (n_reused st) (n_closed st) (n_resets st)
  (n_wait_timeouts st) (n_connect_failures st) (n_waiting st) (n_in_use st + n)
  (n_cache_hits st) (n_cache_misses st) (n_invalidations st) (n_retries st).
Definition inc_hits st := mkStats (n_created st) (n_reused st) (n_closed st) (n_resets st)
  (n_wait_timeouts st) (n_connect_failures st) (n_waiting st) (n_in_use st)
  (n_cache_hits st + 1) (n_cache_misses st) (n_invalidations st) (n_retries st).
Definition inc_misses st := mkStats (n_created st) (n_reused st) (n_closed st) (n_resets st)
  (n_wait_timeouts st) (n_connect_failures st) (n_waiting st) (n_in_use st)
  (n_cache_hits st) (n_cache_misses st + 1) (n_invalidations st) (n_retries st).
Definition inc_invalidations st := mkStats (n_created st) (n_reused st) (n_closed st) (n_resets st)
  (n_wait_timeouts st) (n_connect_failures st) (n_waiting st) (n_in_use st)
  (n_cache_hits st) (n_cache_misses st) (n_invalidations st + 1) (n_retries st).
Definition inc_retries st := mkStats (n_created st) (n_reused st) (n_closed st) (n_resets st)
  (n_wait_timeouts st) (n_connect_failures st) (n_waiting st) (n_in_use st)
  (n_cache_hits st) (n_cache_misses st) (n_invalidations st) (n_retries st + 1).

(** [PgPool::close], [n] connections of pool [k] at once. *)
Definition close (s : PgPool) (k : string) (n : Z) : PgPool :=
  bump (set_open s (open_total s - n)) k (inc_closed n).

(** Still good to keep: not closed by the server, within both limits. *)
Definition keepable (s : PgPool) (closed : Z -> bool) (now : Z) (c : PgConn) : bool :=
  negb (closed (conn_id c)) && (now - created c <=? max_lifetime (settings s))
  && (now - last_used c <=? idle_timeout (settings s)).

(** [sweep_if_due] over the pools in [order]. *)
Definition sweep_pool (closed : Z -> bool) (now : Z) (s : PgPool) (k : string) : PgPool :=
  match pools s !! k with
  | Some p =>
      let keep := filter (λ c, keepable s closed now c = true) (idle p) in
      let expired := filter (λ c, keepable s closed now c <> true) (idle p) in
      close (set_idle s k keep) k (Z.of_nat (length expired))
  | None => s
  end.
Definition sweep_if_due (s : PgPool) (closed : Z -> bool) (now : Z) (order : list string) : PgPool :=
  if now - last_sweep s <? sweep_interval (settings s) then s
  else foldl (sweep_pool closed now)
         (mkPgPool (settings s) (pools s) (tasks s) (open_total s) (next_id s) (cur_generation s) now) order.

(** [idle.swap_remove(i)]. *)
Definition swap_remove {A} (i : nat) (l : list A) : list A :=
  match last l with
  | Some x => take (length l - 1) (<[i := x]> l)
  | None => l
  end.

(** The smallest [last_used] of a pool's idle connections. *)
Definition min_last_used (l : list PgConn) : option Z :=
  match l with [] => None | c :: l => Some (foldl (λ m c, Z.min m (last_used c)) (last_used c) l) end.

(** The pool (in [order]) whose idle connection was used longest ago. *)
Definition candidate (s : PgPool) (k : string) : option Z := pools s !! k ≫= λ p, min_last_used (idle p).
Definition older_pool (s : PgPool) (best : option (string * Z)) (k : string) : option (string * Z) :=
  match candidate s k with
  | Some u => match best with
              | Some (_, b) => if u <? b then Some (k, u) else best
              | None => Some (k, u)
              end
  | None => best
  end.
Definition oldest_idle (s : PgPool) (order : list string) : option (string * Z) :=
  foldl (older_pool s) None order.

Definition make_room (s : PgPool) (order : list string) : PgPool :=
  if open_total s <? max_total (settings s) then s
  else match oldest_idle s order with
       | None => s
       | Some (k, u) =>
           match list_find (λ c, last_used c = u) (idle (pool_of s k)) with
           | Some (i, _) => close (set_idle s k (swap_remove i (idle (pool_of s k)))) k 1
           | None => s
           end
       end.

(** The connection taken from the idle list, brought to the current
    generation. *)
Definition refresh_conn (gen : Z) (c : PgConn) : PgConn :=
  if generation c =? gen then c
  else mkConn (conn_id c) (cache_clear (statements c)) (created c) (last_used c) gen.
Definition hand_out (s : PgPool) (i : nat) (k : string) (gen : Z) (c : PgConn) : PgPool :=
  let s := if negb (generation c =? gen) && (0 <? cache_len (statements c))
           then bump s k inc_invalidations else s in
  set_phase (bump s k inc_reused) i k (PHeld (refresh_conn gen c) true false).

(** What the holder of a connection records: [record_cache],
    [record_invalidation], [record_retry], [record_reset]. *)
Inductive record := RCache (hit : bool) | RInvalidation | RRetry | RReset.
Definition record_stat (r : record) : KeyStats -> KeyStats :=
  match r with
  | RCache hit => if hit then inc_hits else inc_misses
  | RInvalidation => inc_invalidations
  | RRetry => inc_retries
  | RReset => inc_resets
  end.

Inductive action :=
| ABegin (i : nat) (k : string) (now : Z) (closed : Z -> bool) (order : list string)
| AAcquireKey (i : nat)
| AAcquireTotal (i : nat)
| ATimeout (i : nat)
| APop (i : nat) (now : Z) (closed : Z -> bool)
| APing (i : nat) (ok : bool)
| AMakeRoom (i : nat) (order : list string)
| AConnect (i : nat) (ok : bool) (now : Z)
| ADiscard (i : nat)
| ADrop (i : nat) (now : Z) (closed : Z -> bool)
| ARecord (i : nat) (r : record)
| AInvalidate
| ACancel (i : nat).

(** [Vec::pop]: the last idle connection and the rest. *)
Definition pop_idle (l : list PgConn) : option (PgConn * list PgConn) :=
  match last l with Some c => Some (c, take (length l - 1) l) | None => None end.

Definition step (s : PgPool) (a : action) : option PgPool :=
  match a with
  | ABegin i k now closed order =>
      match tasks s !! i with
      | Some _ => None
      | None =>
          let s := sweep_if_due s closed now order in
          Some (set_phase (bump s k (add_waiting 1)) i k PWait)
      end
  | AAcquireKey i =>
      match tasks s !! i with
      | Some (mkCheckout k PWait) =>
          if key_permits_used s k <? Z.max (max_per_pool (settings s)) 1
          then Some (set_phase s i k PKey) else None
      | _ => None
      end
  | AAcquireTotal i =>
      match tasks s !! i with
      | Some (mkCheckout k PKey) =>
          if total_permits_used s <? Z.max (max_total (settings s)) 1
          then Some (set_phase (bump s k (λ st, add_in_use 1 (add_waiting (-1) st))) i k (PPop (cur_generation s)))
          else None
      | _ => None
      end
  | ATimeout i =>
      match tasks s !! i with
      | Some (mkCheckout k (PWait | PKey)) =>
          Some (set_tasks (bump s k (λ st, inc_timeouts (add_waiting (-1) st))) (delete i (tasks s)))
      | _ => None
      end
  | APop i now closed =>
      match tasks s !! i with
      | Some (mkCheckout k (PPop gen)) =>
          match pop_idle (idle (pool_of s k)) with
          | None => Some (set_phase s i k (PRoom gen))
          | Some (c, rest) =>
              let s := set_idle s k rest in
              if negb (keepable s closed now c) then Some (close s k 1)
              else if health_check_after (settings s) <? now - last_used c
              then Some (set_phase s i k (PPing gen c))
              else Some (hand_out s i k gen c)
          end
      | _ => None
      end
  | APing i ok =>
      match tasks s !! i with
      | Some (mkCheckout k (PPing gen c)) =>
          if ok then Some (hand_out s i k gen c) else Some (set_phase (close s k 1) i k (PPop gen))
      | _ => None
      end
  | AMakeRoom i order =>
      match tasks s !! i with
      | Some (mkCheckout k (PRoom gen)) => Some (set_phase (make_room s order) i k (PConnect gen))
      | _ => None
      end
  | AConnect i ok now =>
      match tasks s !! i with
      | Some (mkCheckout k (PConnect gen)) =>
          if ok then
            let c := mkConn (next_id s) (cache_new (statement_cache (settings s))) now now gen in
            let s := bump (set_open s (open_total s + 1)) k inc_created in
            Some (set_phase (set_next s) i k (PHeld c false false))
          else Some (set_tasks (bump s k (λ st, add_in_use (-1) (inc_failures st))) (delete i (tasks s)))
      | _ => None
      end
  | ADiscard i =>
      match tasks s !! i with
      | Some (mkCheckout k (PHeld c r _)) => Some (set_phase s i k (PHeld c r true))
      | _ => None
      end
  | ADrop i now closed =>
      match tasks s !! i with
      | Some (mkCheckout k (PHeld c _ discard)) =>
          let s := set_tasks (bump s k (add_in_use (-1))) (delete i (tasks s)) in
          if discard || closed (conn_id c) then Some (close s k 1)
          else Some (set_idle s k (idle (pool_of s k) ++
                 [mkConn (conn_id c) (statements c) (created c) now (generation c)]))
      | _ => None
      end
  | ARecord i r =>
      match tasks s !! i with
      | Some (mkCheckout k (PHeld _ _ _)) => Some (bump s k (record_stat r))
      | _ => None
      end
  | AInvalidate =>
      Some (mkPgPool (settings s) (pools s) (tasks s) (open_total s) (next_id s)
              (u64_wrapping_add (cur_generation s) 1) (last_sweep s))
  | ACancel i =>
      (* the caller drops the [get] future at one of its waits: permits and
         local connections are dropped, [in_use] through the guard's [Drop] *)
      match tasks s !! i with
      | Some (mkCheckout k (PWait | PKey)) => Some (set_tasks s (delete i (tasks s)))
      | Some (mkCheckout k (PPing _ _ | PConnect _)) =>
          Some (set_tasks (bump s k (add_in_use (-1))) (delete i (tasks s)))
      | _ => None
      end
  end.

(** [status]: one view per key, sorted by key, and the totals. *)
Record KeyStatus := mkKeyStatus { v_key : string; v_open : Z; v_idle : Z; v_in_use : Z; v_stats : KeyStats }.
Record PoolStatus := mkPoolStatus {
  st_max_per_pool : Z; st_max_total : Z; st_open_total : Z; st_in_use_total : Z; st_pools : list KeyStatus;
}.
Definition key_status (k : string) (p : KeyPool) : KeyStatus :=
  let n := Z.of_nat (length (idle p)) in
  mkKeyStatus k (u64_saturating_add n (n_in_use (stats p))) n (n_in_use (stats p)) (stats p).
Definition status (s : PgPool) : PoolStatus :=
  let views := (λ kp, key_status kp.1 kp.2) <$> btree_entries (pools s) in
  mkPoolStatus (max_per_pool (settings s)) (max_total (settings s)) (open_total s)
    (foldr Z.add 0 (v_in_use <$> views)) views.

Fixpoint run (s : PgPool) (as_ : list action) : option PgPool :=
  match as_ with
  | [] => Some s
  | a :: as_ => match step s a with Some s' => run s' as_ | None => None end
  end.

(** ** Counting *)

(** Tasks that count as [in_use] for pool [k]; those that own a slot of the
    key's connections (open or about to be opened); those that carry an open
    connection. *)
Definition in_use_of (k : string) (g : checkout) : nat :=
  match g_phase g with PWait | PKey => 0 | _ => if bool_decide (g_key g = k) then 1 else 0 end.
Definition reserved (k : string) (g : checkout) : nat :=
  match g_phase g with
  | PWait | PKey | PPop _ => 0
  | _ => if bool_decide (g_key g = k) then 1 else 0
  end.
Definition carries (g : checkout) : nat :=
  match g_phase g with PPing _ _ | PHeld _ _ _ => 1 | _ => 0 end.

Definition idle_sum (s : PgPool) : nat := msum (λ p, length (idle p)) (pools s).

Definition key_limit (s : PgPool) : Z := Z.max (max_per_pool (settings s)) 1.
Definition total_limit (s : PgPool) : Z := Z.max (max_total (settings s)) 1.

(** Limits and counters of every reachable pool. *)
Record pool_inv (s : PgPool) : Prop := mkInv {
  inv_key : forall k, (Z.of_nat (length (idle (pool_of s k))) + Z.of_nat (msum (reserved k) (tasks s)) <= key_limit s)%Z;
  inv_perm : forall k, (key_permits_used s k <= key_limit s)%Z;
  inv_total : (total_permits_used s <= total_limit s)%Z;
  inv_in_use : forall k, n_in_use (stats (pool_of s k)) = Z.of_nat (msum (in_use_of k) (tasks s));
}.

(** [open_total] counts the connections that exist, plus [leaked] that do
    not. *)
Definition accounted (s : PgPool) (leaked : Z) : Prop :=
  open_total s = Z.of_nat (idle_sum s) + Z.of_nat (msum carries (tasks s)) + leaked.

(** What one step leaks: a cancelled ping. *)
Definition leak (s : PgPool) (a : action) : Z :=
  match a with
  | ACancel i => match tasks s !! i with Some (mkCheckout _ (PPing _ _)) => 1 | _ => 0 end
  | _ => 0
  end.

(** ** Pools and their counters *)

Lemma pool_of_insert (m : gmap string KeyPool) s k p k' :
  pool_of (set_pools s (<[k := p]> m)) k' = if decide (k = k') then p else default pool_default (m !! k').
Proof. unfold pool_of. cbn. rewrite lookup_insert. by destruct (decide (k = k')). Qed.

Lemma pool_of_bump s k f k' :
  pool_of (bump s k f) k' = if decide (k = k') then mkPool (idle (pool_of s k)) (f (stats (pool_of s k))) else pool_of s k'.
Proof. apply pool_of_insert. Qed.

Lemma pool_of_set_idle s k l k' :
  pool_of (set_idle s k l) k' = if decide (k = k') then mkPool l (stats (pool_of s k)) else pool_of s k'.
Proof. apply pool_of_insert. Qed.

Lemma idle_bump s k f k' : idle (pool_of (bump s k f) k') = idle (pool_of s k').
Proof. rewrite pool_of_bump. by destruct (decide (k = k')) as [->|]. Qed.

Lemma idle_sum_set_pools s k p :
  (idle_sum (set_pools s (<[k := p]> (pools s))) + length (idle (pool_of s k)) = idle_sum s + length (idle p))%nat.
Proof.
  unfold idle_sum, pool_of. cbn. destruct (pools s !! k) as [q|] eqn:Hk; cbn.
  - pose proof (msum_update (λ p, length (idle p)) (pools s) k p q Hk). cbn in *. lia.
  - rewrite msum_insert_new by done. lia.
Qed.

Lemma idle_sum_bump s k f : idle_sum (bump s k f) = idle_sum s.
Proof.
  unfold bump. pose proof (idle_sum_set_pools s k (mkPool (idle (pool_of s k)) (f (stats (pool_of s k))))) as H.
  cbn [idle] in H. lia.
Qed.

Lemma idle_sum_set_idle s k l :
  (idle_sum (set_idle s k l) + length (idle (pool_of s k)) = idle_sum s + length l)%nat.
Proof. apply (idle_sum_set_pools s k (mkPool l (stats (pool_of s k)))). Qed.

Lemma close_fields s k n :
  tasks (close s k n) = tasks s /\ settings (close s k n) = settings s
  /\ open_total (close s k n) = open_total s - n /\ idle_sum (close s k n) = idle_sum s
  /\ (forall k', idle (pool_of (close s k n) k') = idle (pool_of s k'))
  /\ (forall k', n_in_use (stats (pool_of (close s k n) k')) = n_in_use (stats (pool_of s k'))).
Proof.
  unfold close. split_and!; try done.
  - by rewrite idle_sum_bump.
  - intros k'. rewrite idle_bump. done.
  - intros k'. rewrite pool_of_bump. by destruct (decide (k = k')) as [->|].
Qed.

(** Closing [n] idle connections of one pool. *)
Record shrinks (s s' : PgPool) : Prop := mkShrinks {
  sh_tasks : tasks s' = tasks s;
  sh_settings : settings s' = settings s;
  sh_idle : forall k, (length (idle (pool_of s' k)) <= length (idle (pool_of s k)))%nat;
  sh_in_use : forall k, n_in_use (stats (pool_of s' k)) = n_in_use (stats (pool_of s k));
  sh_open : open_total s' - Z.of_nat (idle_sum s') = open_total s - Z.of_nat (idle_sum s);
  sh_le : open_total s' <= open_total s;
}.

Lemma shrinks_refl s : shrinks s s.
Proof. by split. Qed.

Lemma shrinks_trans s1 s2 s3 : shrinks s1 s2 -> shrinks s2 s3 -> shrinks s1 s3.
Proof.
  intros [] []. split; try congruence; try lia.
  - intros k. etrans; eauto.
Qed.

Lemma shrink_one s k l :
  (length l <= length (idle (pool_of s k)))%nat ->
  shrinks s (close (set_idle s k l) k (Z.of_nat (length (idle (pool_of s k)) - length l))).
Proof.
  intros Hl. destruct (close_fields (set_idle s k l) k (Z.of_nat (length (idle (pool_of s k)) - length l)))
    as (E1 & E2 & E3 & E4 & E5 & E6).
  split; rewrite ?E1, ?E2; try done.
  - intros k'. rewrite E5, pool_of_set_idle. destruct (decide (k = k')) as [->|]; [done|lia].
  - intros k'. rewrite E6, pool_of_set_idle. by destruct (decide (k = k')) as [->|].
  - rewrite E3, E4. pose proof (idle_sum_set_idle s k l). cbn. lia.
  - rewrite E3. cbn. lia.
Qed.

Lemma length_swap_remove {A} i (l : list A) : l <> [] -> length (swap_remove i l) = (length l - 1)%nat.
Proof.
  intros Hl. unfold swap_remove. destruct (last l) eqn:E; [|by apply last_None in E].
  rewrite length_take, length_insert. lia.
Qed.

Lemma sweep_shrinks closed now s k : shrinks s (sweep_pool closed now s k).
Proof.
  unfold sweep_pool. destruct (pools s !! k) as [p|] eqn:Hk; [|apply shrinks_refl].
  assert (Hp : pool_of s k = p) by (unfold pool_of; by rewrite Hk).
  pose proof (length_filter_not (λ c, keepable s closed now c = true) (idle p)) as Hlen.
  pose proof (shrink_one s k (filter (λ c, keepable s closed now c = true) (idle p))) as Hsh.
  rewrite Hp in Hsh. cbn zeta. cbv beta in Hlen.
  replace (length (filter (λ c, keepable s closed now c <> true) (idle p)))
    with (length (idle p) - length (filter (λ c, keepable s closed now c = true) (idle p)))%nat by lia.
  apply Hsh. lia.
Qed.

Lemma sweeps_shrink closed now order s : shrinks s (foldl (sweep_pool closed now) s order).
Proof.
  revert s. induction order as [|k order IH]; intros s; [apply shrinks_refl|].
  eapply shrinks_trans; [apply sweep_shrinks|apply IH].
Qed.

Lemma sweep_if_due_shrinks s closed now order : shrinks s (sweep_if_due s closed now order).
Proof.
  unfold sweep_if_due. destruct (_ <? _); [apply shrinks_refl|].
  eapply shrinks_trans; [|apply sweeps_shrink]. by split.
Qed.

Lemma make_room_shrinks s order : shrinks s (make_room s order).
Proof.
  unfold make_room. destruct (_ <? _); [apply shrinks_refl|].
  destruct (oldest_idle s order) as [[k u]|]; [|apply shrinks_refl].
  destruct (list_find _ _) as [[i c]|] eqn:Hf; [|apply shrinks_refl].
  apply list_find_Some in Hf as (Hi & _ & _). apply lookup_lt_Some in Hi.
  assert (Hne : idle (pool_of s k) <> []) by (intros E; rewrite E in Hi; cbn in Hi; lia).
  pose proof (length_swap_remove i _ Hne) as Hl.
  replace 1 with (Z.of_nat (length (idle (pool_of s k)) - length (swap_remove i (idle (pool_of s k))))) by lia.
  apply shrink_one. lia.
Qed.

Lemma pop_idle_spec (l : list PgConn) c rest : pop_idle l = Some (c, rest) -> l = rest ++ [c].
Proof.
  unfold pop_idle. destruct (last l) as [x|] eqn:Hl; [|done]. intros [= -> <-].
  apply last_Some in Hl as [l' ->]. rewrite length_app. cbn.
  by rewrite Nat.add_sub, take_app_length.
Qed.

(** ** One step *)

(** How a step moves task [i] of key [k] to [o], in the terms both
    invariants need: the idle connections and the counter of each key. *)
Record moves (s s' : PgPool) (i : nat) (o : option checkout) (leaks : Z) : Prop := mkMoves {
  mv_settings : settings s' = settings s;
  mv_tasks : tasks s' = put i o (tasks s);
  mv_key : forall k, (length (idle (pool_of s' k)) + weight (reserved k) o
                      <= length (idle (pool_of s k)) + weight (reserved k) (tasks s !! i)
                      \/ length (idle (pool_of s' k)) = 0)%nat;
  mv_perm : forall k, (weight (holds_key k) o <= weight (holds_key k) (tasks s !! i))%nat
                      \/ (key_permits_used s k < key_limit s /\ Z.of_nat (weight (holds_key k) o) <= 1)%Z;
  mv_total : (weight holds_total o <= weight holds_total (tasks s !! i))%nat
             \/ (total_permits_used s < total_limit s /\ Z.of_nat (weight holds_total o) <= 1)%Z;
  mv_in_use : forall k, n_in_use (stats (pool_of s' k)) + Z.of_nat (weight (in_use_of k) (tasks s !! i))
                        = n_in_use (stats (pool_of s k)) + Z.of_nat (weight (in_use_of k) o);
  mv_open : open_total s' - Z.of_nat (idle_sum s') - Z.of_nat (weight carries o)
            = open_total s - Z.of_nat (idle_sum s) - Z.of_nat (weight carries (tasks s !! i)) + leaks;
}.

Lemma reserved_holds k (g : checkout) : (reserved k g <= holds_key k g)%nat.
Proof. unfold reserved, holds_key. destruct (g_phase g); lia. Qed.

Lemma moves_inv s s' i o lk : moves s s' i o lk -> pool_inv s -> pool_inv s'.
Proof.
  intros [Hs Ht Hk Hp Htot Hu _] [Ik Ip It Iu].
  assert (Hw : forall w, (weight w (tasks s !! i) + msum w (tasks s') = weight w o + msum w (tasks s))%nat)
    by (intros w; rewrite Ht; apply msum_put).
  unfold key_limit, total_limit, key_permits_used, total_permits_used in *. cbn in *.
  assert (Ip' : forall k, Z.of_nat (msum (holds_key k) (tasks s')) <= Z.max (max_per_pool (settings s)) 1).
  { intros k. specialize (Hw (holds_key k)). specialize (Hp k). specialize (Ip k). lia. }
  split; unfold key_limit, total_limit, key_permits_used, total_permits_used; rewrite ?Hs;
    [intros k|apply Ip'| |intros k].
  - destruct (Hk k) as [Hle|H0]; [specialize (Hw (reserved k)); specialize (Ik k); lia|].
    specialize (Ip' k). rewrite H0.
    pose proof (msum_le (reserved k) (holds_key k) (tasks s') (λ _ g _, reserved_holds k g)). lia.
  - specialize (Hw holds_total). lia.
  - specialize (Hw (in_use_of k)). specialize (Hu k). specialize (Iu k). lia.
Qed.

Lemma moves_accounted s s' i o lk l :
  moves s s' i o lk -> accounted s l -> accounted s' (l + lk).
Proof.
  intros [_ Ht _ _ _ _ Ho] Ha. unfold accounted in *. pose proof (msum_put carries (tasks s) i o) as Hw.
  rewrite Ht in *. lia.
Qed.

Lemma pool_of_set_tasks s t k : pool_of (set_tasks s t) k = pool_of s k.
Proof. done. Qed.
Lemma pool_of_set_open s o k : pool_of (set_open s o) k = pool_of s k.
Proof. done. Qed.
Lemma idle_sum_set_tasks s t : idle_sum (set_tasks s t) = idle_sum s.
Proof. done. Qed.
Lemma idle_sum_set_open s o : idle_sum (set_open s o) = idle_sum s.
Proof. done. Qed.

Lemma idle_sum_set_next s : idle_sum (set_next s) = idle_sum s.
Proof. done. Qed.
Lemma pool_of_set_next s k : pool_of (set_next s) k = pool_of s k.
Proof. done. Qed.

(** A step after some idle connections were closed. *)
Lemma moves_shrunk s s1 s2 i o lk : shrinks s s1 -> moves s1 s2 i o lk -> moves s s2 i o lk.
Proof.
  intros [Ht Hs Hi Hu Ho _] [Ms Mt Mk Mp Mtot Mu Mo].
  unfold key_permits_used, total_permits_used, key_limit, total_limit in *.
  rewrite Ht, Hs in *. split; try done.
  - intros k. specialize (Mk k). specialize (Hi k). lia.
  - intros k. specialize (Mu k). specialize (Hu k). lia.
  - lia.
Qed.

Ltac pool_norm :=
  unfold close, set_phase, hand_out;
  rewrite ?pool_of_set_tasks, ?pool_of_set_next, ?pool_of_bump, ?pool_of_set_open, ?pool_of_set_idle,
    ?pool_of_set_tasks, ?pool_of_set_next, ?pool_of_bump, ?pool_of_set_open, ?pool_of_set_idle,
    ?pool_of_set_tasks, ?pool_of_bump, ?pool_of_set_open;
  rewrite ?idle_sum_set_tasks, ?idle_sum_set_next, ?idle_sum_bump, ?idle_sum_set_open, ?idle_sum_set_tasks, ?idle_sum_bump.
Ltac weights H := rewrite ?H; unfold weight, reserved, holds_key, holds_total, in_use_of, carries; cbn.
Ltac moves_tac H :=
  split; [done | done | intros k' | intros k' | | intros k' | ]; pool_norm; weights H;
  repeat case_decide; subst; repeat case_bool_decide; subst; cbn; rewrite ?bool_decide_eq_true_2 by done; cbn;
  unfold key_limit, total_limit; try done; try lia.

(** A step that leaves the tasks, the open connections and the idle ones. *)
Lemma moves_none s s' i o :
  tasks s !! i = o -> tasks s' = tasks s -> settings s' = settings s -> open_total s' = open_total s ->
  idle_sum s' = idle_sum s ->
  (forall k, idle (pool_of s' k) = idle (pool_of s k)) ->
  (forall k, n_in_use (stats (pool_of s' k)) = n_in_use (stats (pool_of s k))) ->
  moves s s' i o 0.
Proof.
  intros Hi Ht Hs Ho Hsum Hidle Hu. split; try done.
  - rewrite Ht. symmetry. by apply put_same.
  - intros k. rewrite Hidle, Hi. lia.
  - intros k. rewrite Hi. lia.
  - rewrite Hi. lia.
  - intros k. rewrite Hu, Hi. lia.
  - rewrite Hi. lia.
Qed.

(** Taking the last idle connection [c] of [k]. *)
Lemma moves_pop s i k gen now closed c rest s' :
  tasks s !! i = Some (mkCheckout k (PPop gen)) -> idle (pool_of s k) = rest ++ [c] ->
  (if negb (keepable (set_idle s k rest) closed now c) then Some (close (set_idle s k rest) k 1)
   else if health_check_after (settings s) <? now - last_used c
   then Some (set_phase (set_idle s k rest) i k (PPing gen c))
   else Some (hand_out (set_idle s k rest) i k gen c)) = Some s' ->
  exists o, moves s s' i o 0.
Proof.
  intros Hi Hidle Hs. pose proof (idle_sum_set_idle s k rest) as Hsum.
  assert (Hlen : length (idle (pool_of s k)) = S (length rest)) by (rewrite Hidle, length_app; cbn; lia).
  destruct (negb (keepable _ _ _ _)); [|destruct (_ <? _)]; injection Hs as <-.
  - exists (tasks s !! i). split; [done|by rewrite put_same|..]; [intros k'|intros k'| |intros k'|]; pool_norm;
      weights Hi; repeat case_decide; subst; cbn; try lia.
  - exists (Some (mkCheckout k (PPing gen c))). moves_tac Hi.
  - exists (Some (mkCheckout k (PHeld (refresh_conn gen c) true false))). unfold hand_out. destruct (negb _ && _); moves_tac Hi.
Qed.

(** Giving a connection back, or closing it. *)
Lemma moves_drop s i k c r dis now closed s' :
  tasks s !! i = Some (mkCheckout k (PHeld c r dis)) ->
  step s (ADrop i now closed) = Some s' -> moves s s' i None 0.
Proof.
  intros Hi Hs. cbn in Hs. rewrite Hi in Hs. cbn zeta in Hs.
  destruct (dis || _); injection Hs as <-; [moves_tac Hi|].
  match goal with |- context [set_idle ?s0 k ?l] => pose proof (idle_sum_set_idle s0 k l) as Hsum end.
  rewrite length_app, idle_sum_set_tasks, idle_sum_bump in Hsum. cbn [length] in Hsum.
  split; [done|done|intros k'|intros k'| |intros k'|weights Hi; lia];
    rewrite ?pool_of_set_idle; pool_norm; weights Hi; repeat case_decide; subst; repeat case_bool_decide; cbn;
    rewrite ?length_app; cbn; try lia; done.
Qed.

(** Splits on where task [i] is, keeping the phases the step accepts. *)
Ltac phase_of i Hi Hs :=
  match type of Hs with
  | context [tasks ?s !! i] => destruct (tasks s !! i) as [[k [| |gen|gen c|gen|gen|c r dis]]|] eqn:Hi; try done
  end.

Lemma step_moves s a s' : step s a = Some s' -> exists i o, moves s s' i o (leak s a).
Proof.
  intros Hs. destruct a as [i k now closed order|i|i|i|i now closed|i ok|i order|i ok now|i|i now closed|i rc| |i];
    pose proof Hs as Hstep; cbn [step leak] in *.
  - exists i, (Some (mkCheckout k PWait)). destruct (tasks s !! i) eqn:Hi; [done|]. injection Hs as <-.
    pose proof (sweep_if_due_shrinks s closed now order) as Hsh.
    eapply moves_shrunk; [exact Hsh|]. destruct Hsh as [Ht _ _ _ _ _]. rewrite <- Ht in Hi. moves_tac Hi.
  - phase_of i Hi Hs. destruct (_ <? _) eqn:Hp; [|done]. injection Hs as <-.
    apply Z.ltb_lt in Hp. exists i, (Some (mkCheckout k PKey)). moves_tac Hi.
  - phase_of i Hi Hs. destruct (_ <? _) eqn:Hp; [|done]. injection Hs as <-.
    apply Z.ltb_lt in Hp. exists i, (Some (mkCheckout k (PPop (cur_generation s)))). moves_tac Hi.
  - phase_of i Hi Hs; injection Hs as <-; exists i, None; moves_tac Hi.
  - phase_of i Hi Hs. destruct (pop_idle _) as [[c rest]|] eqn:Hp.
    + apply pop_idle_spec in Hp. exists i. by eapply moves_pop.
    + injection Hs as <-. unfold pop_idle in Hp.
      assert (Hn : idle (pool_of s k) = []) by (apply last_None; by destruct (last _)).
      exists i, (Some (mkCheckout k (PRoom gen))). moves_tac Hi. right. by rewrite Hn.
  - phase_of i Hi Hs. exists i. destruct ok; injection Hs as <-.
    + exists (Some (mkCheckout k (PHeld (refresh_conn gen c) true false))). unfold hand_out.
      destruct (negb _ && _); moves_tac Hi.
    + exists (Some (mkCheckout k (PPop gen))). moves_tac Hi.
  - phase_of i Hi Hs. injection Hs as <-. exists i, (Some (mkCheckout k (PConnect gen))).
    pose proof (make_room_shrinks s order) as Hsh. eapply moves_shrunk; [exact Hsh|].
    destruct Hsh as [Ht _ _ _ _ _]. rewrite <- Ht in Hi. moves_tac Hi.
  - phase_of i Hi Hs. exists i. destruct ok; injection Hs as <-; [|exists None; moves_tac Hi].
    match goal with |- context [PHeld ?c false false] => exists (Some (mkCheckout k (PHeld c false false))) end.
    moves_tac Hi.
  - phase_of i Hi Hs. injection Hs as <-. exists i, (Some (mkCheckout k (PHeld c r true))). moves_tac Hi.
  - exists i, None. phase_of i Hi Hs. eapply (moves_drop _ _ _ _ _ _ now closed); [done|]. cbn [step]. by rewrite Hi.
  - phase_of i Hi Hs. injection Hs as <-. exists i. eexists. eapply moves_none; try done; pool_norm; try done.
    all: intros k'; pool_norm; case_decide; subst; try done. destruct rc as [[]| | |]; done.
  - injection Hs as <-. exists 0%nat. eexists. by apply moves_none.
  - phase_of i Hi Hs; injection Hs as <-; exists i, None; moves_tac Hi.
Qed.

(** ** Runs *)

(** The connections a run leaks. *)
Fixpoint leaks (s : PgPool) (acts : list action) : Z :=
  match acts with
  | [] => 0
  | a :: acts => leak s a + match step s a with Some s' => leaks s' acts | None => 0 end
  end.

Lemma run_invariants acts s s' l :
  run s acts = Some s' -> pool_inv s -> accounted s l -> pool_inv s' /\ accounted s' (l + leaks s acts).
Proof.
  revert s l. induction acts as [|a acts IH]; intros s l; cbn.
  - intros [= ->] Hi Ha. by rewrite Z.add_0_r.
  - destruct (step s a) as [s1|] eqn:Hs; [|done]. intros Hrun Hi Ha.
    destruct (step_moves _ _ _ Hs) as (i & o & Hm). rewrite Z.add_assoc.
    apply IH; [done|by eapply moves_inv|by eapply moves_accounted].
Qed.

Lemma new_inv cfg now : pool_inv (new cfg now) /\ accounted (new cfg now) 0.
Proof.
  assert (Hp : forall k, pool_of (new cfg now) k = pool_default) by done.
  assert (Ht : forall w, msum w (tasks (new cfg now)) = 0%nat) by (intros w; apply msum_empty).
  assert (Hi : idle_sum (new cfg now) = 0%nat) by apply msum_empty.
  split; [split|]; intros; unfold accounted, key_permits_used, total_permits_used, key_limit, total_limit;
    rewrite ?Hp, ?Ht, ?Hi; cbn [pool_default idle stats stats_default n_in_use length open_total new Z.of_nat]; lia.
Qed.

Lemma run_settings acts s s' : run s acts = Some s' -> settings s' = settings s.
Proof.
  revert s. induction acts as [|a acts IH]; intros s; cbn; [by intros [= ->]|].
  destruct (step s a) as [s1|] eqn:Hs; [|done]. intros Hrun.
  destruct (step_moves _ _ _ Hs) as (i & o & Hm). rewrite (IH _ Hrun). apply Hm.
Qed.

(** whatever the callers, the server and the scheduler do, a key's idle
    connections and the ones its callers hold or are opening never exceed
    [max_per_pool]; its callers past the first semaphore never exceed it
    either, and the callers that hold or fetch a connection over all keys
    never exceed [max_total] (both limits at least one).  The [in_use]
    counter is their number. *)
Theorem pool_limits (cfg : PoolSettings) (now : Z) (acts : list action) (s : PgPool) :
  run (new cfg now) acts = Some s ->
  (forall k, Z.of_nat (length (idle (pool_of s k)) + msum (reserved k) (tasks s)) <= Z.max (max_per_pool cfg) 1)
  /\ (forall k, Z.of_nat (msum (holds_key k) (tasks s)) <= Z.max (max_per_pool cfg) 1)
  /\ Z.of_nat (msum holds_total (tasks s)) <= Z.max (max_total cfg) 1
  /\ (forall k, n_in_use (stats (pool_of s k)) = Z.of_nat (msum (in_use_of k) (tasks s))).
Proof.
  intros Hrun. destruct (new_inv cfg now) as [Hi Ha].
  destruct (run_invariants _ _ _ _ Hrun Hi Ha) as [[Ik Ip It Iu] _].
  pose proof (run_settings _ _ _ Hrun) as Hs. cbn in Hs.
  unfold key_limit, total_limit, key_permits_used, total_permits_used in *. rewrite Hs in *.
  split_and!; try done. intros k. specialize (Ik k). lia.
Qed.

(** [open_total] is the number of connections that exist, idle or
    with a caller, plus one for every ping during which the caller dropped
    the [get] future. *)
Theorem open_total_exact (cfg : PoolSettings) (now : Z) (acts : list action) (s : PgPool) :
  run (new cfg now) acts = Some s ->
  open_total s = Z.of_nat (idle_sum s) + Z.of_nat (msum carries (tasks s)) + leaks (new cfg now) acts.
Proof.
  intros Hrun. destruct (new_inv cfg now) as [Hi Ha].
  by destruct (run_invariants _ _ _ _ Hrun Hi Ha) as [_ Hacc].
Qed.

(** ** The limit on open connections *)

Definition connecting (g : checkout) : nat := match g_phase g with PConnect _ => 1 | _ => 0 end.

(** A run in which no caller makes room while another one is connecting,
    none drops its future during a ping, and [make_room] looks at all
    pools (as [pools.values()] does). *)
Definition serial_step (s : PgPool) (a : action) : Prop :=
  leak s a = 0 /\
  match a with
  | AMakeRoom _ order => msum connecting (tasks s) = 0%nat /\ forall k, is_Some (pools s !! k) -> k ∈ order
  | _ => True
  end.
Fixpoint serial (s : PgPool) (acts : list action) : Prop :=
  match acts with
  | [] => True
  | a :: acts => serial_step s a /\ match step s a with Some s' => serial s' acts | None => True end
  end.

(** The same as a test. *)
Definition serial_stepb (s : PgPool) (a : action) : bool :=
  (leak s a =? 0) &&
  match a with
  | AMakeRoom _ order =>
      Nat.eqb (msum connecting (tasks s)) 0 && forallb (λ kp, bool_decide (kp.1 ∈ order)) (map_to_list (pools s))
  | _ => true
  end.
Fixpoint serialb (s : PgPool) (acts : list action) : bool :=
  match acts with
  | [] => true
  | a :: acts => serial_stepb s a && match step s a with Some s' => serialb s' acts | None => true end
  end.

Lemma serialb_sound acts s : serialb s acts = true -> serial s acts.
Proof.
  revert s. induction acts as [|a acts IH]; intros s; [done|]. cbn. intros [Hs Hr]%andb_prop. split.
  - apply andb_prop in Hs as [Hl Ha]. split; [by apply Z.eqb_eq|]. destruct a; try done.
    apply andb_prop in Ha as [Hc Ho]. split; [by apply Nat.eqb_eq|]. intros k [p Hp].
    rewrite forallb_forall in Ho. specialize (Ho (k, p)). cbn in Ho.
    eapply bool_decide_eq_true_1, Ho, list_elem_of_In. by apply elem_of_map_to_list.
  - destruct (step s a); [by apply IH|done].
Qed.

Lemma oldest_fold s order best :
  match foldl (older_pool s) best order with
  | Some (k, u) => best = Some (k, u) \/ candidate s k = Some u
  | None => best = None /\ forall k, k ∈ order -> candidate s k = None
  end.
Proof.
  revert best. induction order as [|k order IH]; intros best; cbn.
  - destruct best as [[??]|]; [by left|]. split; [done|]. set_solver.
  - specialize (IH (older_pool s best k)). set (b' := older_pool s best k) in *.
    assert (Hb : b' = older_pool s best k) by done. clearbody b'. unfold older_pool in Hb.
    destruct (foldl _ _ order) as [[k1 u1]|]; [destruct IH as [->|IH]; [|by right]|destruct IH as [-> IH]];
      (destruct (candidate s k) as [u|] eqn:Hk; [destruct best as [[kb ub]|]; [destruct (_ <? _)|]|]); try done.
    + injection Hb as -> ->. by right.
    + by left.
    + injection Hb as -> ->. by right.
    + by left.
    + split; [done|]. intros k1 [->|Hk1]%elem_of_cons; [done|by apply IH].
Qed.

Lemma min_last_used_elem l u : min_last_used l = Some u -> exists c, c ∈ l /\ last_used c = u.
Proof.
  destruct l as [|c l]; [done|]. cbn. intros [= <-]. revert c. induction l as [|d l IH]; intros c; cbn.
  - exists c. set_solver.
  - destruct (Z.min_spec (last_used c) (last_used d)) as [[_ ->]|[_ ->]].
    + destruct (IH c) as (x & Hx & <-). exists x. set_solver.
    + destruct (IH d) as (x & Hx & <-). exists x. set_solver.
Qed.

Lemma min_last_used_none l : min_last_used l = None -> l = [].
Proof. by destruct l. Qed.

(** [make_room] at the limit closes one connection, or there is none idle. *)
Lemma make_room_full s order :
  max_total (settings s) <= open_total s -> (forall k, is_Some (pools s !! k) -> k ∈ order) ->
  open_total (make_room s order) = open_total s - 1 \/ (make_room s order = s /\ idle_sum s = 0%nat).
Proof.
  intros Hfull Hord. unfold make_room. destruct (Z.ltb_spec (open_total s) (max_total (settings s))); [lia|].
  pose proof (oldest_fold s order None) as Hf. unfold oldest_idle.
  destruct (foldl (older_pool s) None order) as [[k u]|].
  - left. destruct Hf as [[=]|Hk]. unfold candidate in Hk. destruct (pools s !! k) as [p|] eqn:Hp; [|done]. cbn in Hk.
    apply min_last_used_elem in Hk as (c & Hc & Hu). assert (Hpk : pool_of s k = p) by (unfold pool_of; by rewrite Hp).
    rewrite Hpk.
    destruct (list_find_elem_of (λ c, last_used c = u) (idle p) c Hc Hu) as [[i x] ->]. done.
  - right. split; [done|]. destruct Hf as [_ Hf]. unfold idle_sum.
    rewrite (msum_ext _ (λ _, 0%nat)); [|].
    + clear. induction (pools s) as [|k p m Hk IH] using map_ind; [apply msum_empty|]. by rewrite msum_insert_new.
    + intros k p Hp. specialize (Hf k (Hord k ltac:(eauto))). unfold candidate in Hf. rewrite Hp in Hf. cbn in Hf.
      by rewrite (min_last_used_none _ Hf).
Qed.

Ltac quiet Hi Hs :=
  injection Hs as <-; cbn;
  match type of Hi with tasks ?s !! ?i = _ =>
    match goal with
    | |- context [<[i := ?g]> (tasks s)] => pose proof (msum_update connecting _ i g _ Hi)
    | |- context [delete i (tasks s)] => pose proof (msum_delete connecting _ i _ Hi)
    | _ => idtac
    end
  end; cbn in *; lia.

(** Every other step opens nothing and starts no connect. *)
Lemma step_quiet s a s' :
  step s a = Some s' -> (match a with AMakeRoom _ _ | AConnect _ _ _ => False | _ => True end) ->
  open_total s' + Z.of_nat (msum connecting (tasks s')) <= open_total s + Z.of_nat (msum connecting (tasks s)).
Proof.
  intros Hs Ha.
  destruct a as [i k now closed order|i|i|i|i now closed|i ok|i order|i ok now|i|i now closed|i rc| |i];
    try done; cbn [step] in Hs.
  - destruct (tasks s !! i) eqn:Hi; [done|]. injection Hs as <-.
    destruct (sweep_if_due_shrinks s closed now order) as [Ht _ _ _ _ Hle]. cbn. rewrite Ht.
    rewrite msum_insert_new by done. cbn. lia.
  - phase_of i Hi Hs. destruct (_ <? _); [|done]. quiet Hi Hs.
  - phase_of i Hi Hs. destruct (_ <? _); [|done]. quiet Hi Hs.
  - phase_of i Hi Hs; quiet Hi Hs.
  - phase_of i Hi Hs. destruct (pop_idle _) as [[c rest]|]; [|quiet Hi Hs].
    cbn zeta in Hs. destruct (negb _); [quiet Hi Hs|]. destruct (_ <? _); [quiet Hi Hs|].
    unfold hand_out in Hs. destruct (negb _ && _); quiet Hi Hs.
  - phase_of i Hi Hs. destruct ok; [|quiet Hi Hs]. unfold hand_out in Hs. destruct (negb _ && _); quiet Hi Hs.
  - phase_of i Hi Hs. quiet Hi Hs.
  - phase_of i Hi Hs. cbn zeta in Hs. destruct (dis || _); quiet Hi Hs.
  - phase_of i Hi Hs. quiet Hi Hs.
  - injection Hs as <-. cbn. lia.
  - phase_of i Hi Hs; quiet Hi Hs.
Qed.

Lemma carries_le_total (g : checkout) : (carries g <= holds_total g)%nat.
Proof. unfold carries, holds_total. destruct (g_phase g); lia. Qed.

(** A caller about to make room holds a permit and no connection. *)
Lemma room_left s i k gen :
  tasks s !! i = Some (mkCheckout k (PRoom gen)) ->
  (msum carries (tasks s) + 1 <= msum holds_total (tasks s))%nat.
Proof.
  intros Hi. rewrite <- (msum_delete carries _ i _ Hi), <- (msum_delete holds_total _ i _ Hi).
  pose proof (msum_le carries holds_total (delete i (tasks s)) (λ _ g _, carries_le_total g)). cbn. lia.
Qed.

Definition open_bounded (s : PgPool) : Prop :=
  1 <= max_total (settings s)
  /\ open_total s + Z.of_nat (msum connecting (tasks s)) <= max_total (settings s).

Lemma step_bounded s a s' :
  step s a = Some s' -> serial_step s a -> pool_inv s -> accounted s 0 -> open_bounded s -> open_bounded s'.
Proof.
  intros Hs [_ Hser] Hinv Hacc [H1 Hb].
  assert (Hset : settings s' = settings s) by (destruct (step_moves _ _ _ Hs) as (i & o & Hm); apply Hm).
  split; rewrite Hset; [done|].
  destruct a as [i k now closed order|i|i|i|i now closed|i ok|i order|i ok now|i|i now closed|i rc| |i];
    try (pose proof (step_quiet _ _ _ Hs I); lia); cbn [step] in Hs; phase_of i Hi Hs.
  - destruct Hser as [H0 Hord]. injection Hs as <-. pose proof (room_left _ _ _ _ Hi) as Hroom.
    pose proof (msum_update connecting _ i (mkCheckout k (PConnect gen)) _ Hi) as Hc. cbn in Hc. rewrite H0 in *.
    destruct (make_room_shrinks s order) as [Ht _ _ _ _ Hle]. cbn. rewrite Ht.
    destruct (Z.ltb_spec (open_total s) (max_total (settings s))) as [Hlt|Hge]; [lia|].
    destruct (make_room_full s order Hge Hord) as [->|[-> Hn]]; [lia|].
    pose proof (inv_total _ Hinv) as Htot. unfold total_permits_used, total_limit, accounted in *. lia.
  - destruct ok; quiet Hi Hs.
Qed.

Lemma serial_bounded acts s s' :
  run s acts = Some s' -> serial s acts -> pool_inv s -> accounted s 0 -> open_bounded s -> open_bounded s'.
Proof.
  revert s. induction acts as [|a acts IH]; intros s; cbn; [by intros [= ->]|].
  destruct (step s a) as [s1|] eqn:Hs; [|done]. intros Hrun [Hser Hrest] Hi Ha Hb.
  destruct (step_moves _ _ _ Hs) as (i & o & Hm). pose proof (moves_accounted _ _ _ _ _ _ Hm Ha) as Ha1.
  destruct Hser as [Hl Hser]. rewrite Hl in Ha1.
  apply (IH s1); try done; [by eapply moves_inv|by eapply step_bounded].
Qed.

Lemma serial_accounted acts s s' : run s acts = Some s' -> serial s acts -> accounted s 0 -> accounted s' 0.
Proof.
  revert s. induction acts as [|a acts IH]; intros s; cbn; [by intros [= ->]|].
  destruct (step s a) as [s1|] eqn:Hs; [|done]. intros Hrun [[Hl _] Hrest] Ha.
  destruct (step_moves _ _ _ Hs) as (i & o & Hm). pose proof (moves_accounted _ _ _ _ _ _ Hm Ha) as Ha1.
  rewrite Hl in Ha1. by apply (IH s1).
Qed.

(** when connects do not overlap (and no ping is abandoned) at most
    [max_total] connections are open, as the module's documentation says. *)
Theorem serial_connects_within_total (cfg : PoolSettings) (now : Z) (acts : list action) (s : PgPool) :
  1 <= max_total cfg -> run (new cfg now) acts = Some s -> serial (new cfg now) acts ->
  Z.of_nat (idle_sum s) + Z.of_nat (msum carries (tasks s)) <= max_total cfg.
Proof.
  intros H1 Hrun Hser. destruct (new_inv cfg now) as [Hi Ha].
  assert (Hb : open_bounded (new cfg now)).
  { split; [done|]. replace (msum connecting (tasks (new cfg now))) with 0%nat by (symmetry; apply msum_empty). cbn. lia. }
  destruct (serial_bounded _ _ _ Hrun Hser Hi Ha Hb) as [_ Hs].
  rewrite (run_settings _ _ _ Hrun) in Hs. cbn in Hs.
  pose proof (serial_accounted _ _ _ Hrun Hser Ha) as Hacc. unfold accounted in Hacc. lia.
Qed.
End Pool.

(** ** Concrete runs *)

Lemma run_check {St} (s : @PgPool St) acts (b : PgPool -> bool) :
  match run s acts with Some s' => b s' | None => false end = true ->
  exists s', run s acts = Some s' /\ b s' = true.
Proof. destruct (run s acts) as [s'|]; [eauto|done]. Qed.

Definition demo_cfg : PoolSettings :=
  mkSettings 2 2 (secs 5) (secs 5) (secs 2) (secs 1800) (secs 300) (secs 30) 256 (secs 30) (Some (secs 30)).
Definition never (_ : Z) : bool := false.

(** A [get] of key [k] by task [i] up to both permits, and through a connect. *)
Definition enter_task (i : nat) (k : string) (now : Z) (order : list string) : list action :=
  [ABegin i k now never order; AAcquireKey i; AAcquireTotal i].
Definition open_task (i : nat) (k : string) (now : Z) (order : list string) : list (@action) :=
  enter_task i k now order ++ [APop i now never; AMakeRoom i order; AConnect i true now].

(** Two connections of ["a"] opened and given back, one taken again for a
    new key. *)
Definition demo_acts : list action :=
  open_task 0 "a" 0 [] ++ open_task 1 "a" 1 ["a"] ++ [ADrop 0 2 never; ADrop 1 3 never]
  ++ open_task 2 "b" 4 ["a"; "b"] ++ [ARecord 2 (RCache true)].

Lemma pool_limits_witness :
  exists s : @PgPool unit, run (new demo_cfg 0) demo_acts = Some s
    /\ (forall k, Z.of_nat (length (idle (pool_of s k)) + msum (reserved k) (tasks s)) <= 2).
Proof.
  destruct (run_check (new (St := unit) demo_cfg 0) demo_acts (λ _, true)) as (s & Hs & _); [vm_compute; reflexivity|].
  exists s. split; [exact Hs|]. exact (proj1 (pool_limits demo_cfg 0 demo_acts s Hs)).
Defined.

Lemma open_total_exact_witness :
  exists s : @PgPool unit, run (new demo_cfg 0) demo_acts = Some s /\ open_total s = 2
    /\ open_total s = Z.of_nat (idle_sum s) + Z.of_nat (msum carries (tasks s)) + leaks (St := unit) (new demo_cfg 0) demo_acts.
Proof.
  destruct (run_check (new (St := unit) demo_cfg 0) demo_acts (λ s, open_total s =? 2)) as (s & Hs & Ho); [vm_compute; reflexivity|].
  exists s. split; [exact Hs|]. split; [by apply Z.eqb_eq|]. exact (open_total_exact demo_cfg 0 demo_acts s Hs).
Defined.

Definition all_keys : list string := ["a"; "b"].
Definition serial_acts : list action :=
  open_task 0 "a" 0 all_keys ++ open_task 1 "a" 1 all_keys ++ [ADrop 0 2 never; ADrop 1 3 never]
  ++ open_task 2 "b" 4 all_keys ++ open_task 3 "b" 5 all_keys.

Lemma serial_connects_within_total_witness :
  exists s : @PgPool unit, run (new demo_cfg 0) serial_acts = Some s
    /\ Z.of_nat (idle_sum s) + Z.of_nat (msum carries (tasks s)) <= 2.
Proof.
  destruct (run_check (new (St := unit) demo_cfg 0) serial_acts (λ _, true)) as (s & Hs & _); [vm_compute; reflexivity|].
  exists s. split; [exact Hs|]. apply (serial_connects_within_total demo_cfg 0 serial_acts s); [vm_compute; congruence|exact Hs|].
  apply serialb_sound. vm_compute. reflexivity.
Defined.

(** two connects that overlap leave more than [max_total] connections
    open: the first one makes room, the second one sees the room the first
    one made. *)
Theorem overlapping_connects_exceed_total :
  exists (acts : list action) (s : @PgPool unit),
    run (new demo_cfg 0) acts = Some s
    /\ max_total demo_cfg < Z.of_nat (idle_sum s) + Z.of_nat (msum carries (tasks s)).
Proof.
  pose (acts := open_task 0 "a" 0 all_keys ++ open_task 1 "a" 1 all_keys ++ [ADrop 0 2 never; ADrop 1 3 never]
    ++ enter_task 2 "b" 4 all_keys ++ enter_task 3 "b" 4 all_keys
    ++ [APop 2 5 never; APop 3 5 never; AMakeRoom 2 all_keys; AMakeRoom 3 all_keys; AConnect 2 true 6; AConnect 3 true 6]).
  destruct (run_check (new (St := unit) demo_cfg 0) acts
    (λ s, max_total demo_cfg <? Z.of_nat (idle_sum s) + Z.of_nat (msum carries (tasks s)))) as (s & Hs & Hb);
    [vm_compute; reflexivity|].
  exists acts, s. split; [exact Hs|]. by apply Z.ltb_lt.
Qed.

(** a [get] whose future is dropped leaves its counters behind: dropped
    while waiting, the key counts one [waiting] caller for ever; dropped
    during the ping, the pool counts an open connection that no longer
    exists. *)
Theorem dropped_get_leaks_counters :
  (exists (acts : list action) (s : @PgPool unit), run (new demo_cfg 0) acts = Some s
     /\ tasks s = ∅ /\ n_waiting (stats (pool_of s "a")) = 1)
  /\ (exists (acts : list action) (s : @PgPool unit), run (new demo_cfg 0) acts = Some s
     /\ tasks s = ∅ /\ idle_sum s = 0%nat /\ open_total s = 1).
Proof.
  split.
  - destruct (run_check (new (St := unit) demo_cfg 0) [ABegin 0 "a" 0 never []; ACancel 0]
      (λ s, Nat.eqb (size (tasks s)) 0 && (n_waiting (stats (pool_of s "a")) =? 1))) as (s & Hs & Hb);
      [vm_compute; reflexivity|].
    apply andb_prop in Hb as [Ht%Nat.eqb_eq Hw%Z.eqb_eq]. apply map_size_empty_iff in Ht. eauto 6.
  - destruct (run_check (new (St := unit) demo_cfg 0)
      (open_task 0 "a" 0 [] ++ [ADrop 0 1 never] ++ enter_task 1 "a" (secs 31) [] ++ [APop 1 (secs 31) never; ACancel 1])
      (λ s, Nat.eqb (size (tasks s)) 0 && Nat.eqb (idle_sum s) 0 && (open_total s =? 1))) as (s & Hs & Hb);
      [vm_compute; reflexivity|].
    apply andb_prop in Hb as [[Ht%Nat.eqb_eq Hi%Nat.eqb_eq]%andb_prop Hw%Z.eqb_eq].
    apply map_size_empty_iff in Ht. eauto 8.
Qed.
