(* ===== verification/Manifests.v ===== *)
(** * Module ids, manifests and bundles: [domain/module/id.rs],
    [manifest.rs] and [bundle.rs]

    The data the module storage and the depot work with.  Versions are the
    [semver] values of [Versions]; error messages are constructors. *)

From S2P Require Import Prelude Text Versions.

(** ** Module ids *)

Inductive IdError := IdEmpty | IdInvalidChars.
Record ModuleId := mkId { id_text : text }.

Definition is_id_char (c : char) : bool :=
  is_ascii_lower c || is_ascii_digit c || (c =? 45) || (c =? 95).

Definition ModuleId_new (value : text) : result ModuleId IdError :=
  let trimmed := trim value in
  match trimmed with
  | [] => Err IdEmpty
  | _ => if negb (forallb is_id_char trimmed) then Err IdInvalidChars else Ok (mkId trimmed)
  end.

(** ** Manifests *)

Inductive ChecksumAlgorithm := Sha256.
Inductive SignatureAlgorithm := Ed25519.
Record ModuleChecksum := mkChecksum { algorithm : ChecksumAlgorithm; hash : text }.
Record ModuleArtifactDescriptor := mkArtifact {
  download_url : text; checksum : ModuleChecksum; content_type : option string; size_bytes : option Z;
}.
Record ModuleSignatureDescriptor := mkSignature {
  sig_algorithm : SignatureAlgorithm; sig_key_id : string; sig_value : string;
}.
Record ModuleDependencySpec := mkDependencySpec { dep_id : string; dep_version : option VersionReq; dep_required : bool }.
Inductive ModuleDependency := DepId (i : string) | DepSpec (s : ModuleDependencySpec).
Definition dependency_id (d : ModuleDependency) : string :=
  match d with DepId i => i | DepSpec s => dep_id s end.
Definition required (d : ModuleDependency) : bool :=
  match d with DepId _ => true | DepSpec s => dep_required s end.

Record ModuleManifest := mkManifest {
  m_id : string;
  m_version : Version;
  m_title : option string;
  m_description : option string;
  m_fenrir_version : option VersionReq;
  m_authors : list string;
  m_license : option string;
  m_artifact : ModuleArtifactDescriptor;
  m_signature : ModuleSignatureDescriptor;
  m_dependencies : list ModuleDependency;
  m_tags : list string;
  m_published_at : option Z;
}.

Record ModuleBundle := mkBundle {
  b_manifest : ModuleManifest; b_archive : list Z; b_signature : list Z; b_checksum : list Z;
}.

(** ** Ids are canonical *)

Lemma id_char_not_ws c : is_id_char c = true -> is_whitespace c = false.
Proof.
  unfold is_id_char, is_ascii_lower, is_ascii_digit, is_whitespace. rewrite !orb_true_iff, !andb_true_iff.
  intros H. repeat (rewrite orb_false_iff || rewrite andb_false_iff || rewrite Z.leb_gt || rewrite Z.eqb_neq).
  rewrite ?Z.leb_le, ?Z.eqb_eq in H. lia.
Qed.

(** a module id is accepted exactly when its trimmed text is a
    non-empty string of lower-case letters, digits, [-] and [_], and an
    accepted id is parsed back to itself. *)
Theorem module_id_canonical (value : text) (i : ModuleId) :
  (ModuleId_new value = Ok i <-> trim value = id_text i /\ id_text i <> [] /\ forallb is_id_char (id_text i) = true)
  /\ (ModuleId_new value = Ok i -> ModuleId_new (id_text i) = Ok i).
Proof.
  assert (Hiff : forall v, ModuleId_new v = Ok i <-> trim v = id_text i /\ id_text i <> [] /\ forallb is_id_char (id_text i) = true).
  { intros v. unfold ModuleId_new. destruct (trim v) as [|c t] eqn:E.
    - split; [done|]. by intros (<- & ? & _).
    - destruct (forallb is_id_char (c :: t)) eqn:F; cbn [negb].
      + split; [by intros [= <-]|]. intros (Ht & _ & _). destruct i as [t']. cbn in Ht. by subst.
      + split; [done|]. intros (Ht & _ & Hf). congruence. }
  split; [apply Hiff|]. rewrite !Hiff. intros (Ht & Hn & Hf). split_and!; try done.
  apply trim_no_ws. apply Forall_forall. intros c Hc. apply id_char_not_ws.
  rewrite forallb_forall in Hf. by apply Hf, list_elem_of_In.
Qed.

Lemma module_id_canonical_witness :
  ModuleId_new (lit " web-shop_2 ") = Ok (mkId (lit "web-shop_2"))
  /\ ModuleId_new (lit "web-shop_2") = Ok (mkId (lit "web-shop_2")).
Proof.
  split; [vm_compute; reflexivity|].
  apply (proj2 (module_id_canonical (lit " web-shop_2 ") (mkId (lit "web-shop_2")))). vm_compute. reflexivity.
Defined.
