(* ===== verification/Verifier.v ===== *)
(** * The module verifier: [infra/modules/verifier.rs]

    The keyring and the list of allowed signers decide which bundles of the
    module registry may be installed.  SHA-256, Ed25519 and base64 are the
    class [VerifierCrypto]; the bytes of the keyring file and its JSON are
    arguments of [from_config]. *)

From S2P Require Import Prelude Text Versions Manifests.
#[local] Open Scope fenrir_scope.

(** sha2, ed25519-dalek and base64. *)
Class VerifierCrypto := {
  VerifyingKey : Type;
  sha256_of : list Z -> list Z;
  base64_decode : text -> option (list Z);
  key_from_bytes : list Z -> option VerifyingKey;
  ed25519_verify : VerifyingKey -> list Z -> list Z -> bool;
}.

(** What ed25519-dalek promises: a signature of 64 bytes, and [sign] makes
    the ones the public key accepts. *)
Class Ed25519Signer (C : VerifierCrypto) := {
  SigningKey : Type;
  public_key : SigningKey -> VerifyingKey;
  ed25519_sign : SigningKey -> list Z -> list Z;
  sign_len k m : length (ed25519_sign k m) = 64%nat;
  sign_verifies k m : ed25519_verify (public_key k) m (ed25519_sign k m) = true;
}.

Definition PUBLIC_KEY_LENGTH : nat := 32.
Definition SIGNATURE_LENGTH : nat := 64.

Record KeyringEntry := mkKeyEntry { ke_id : text; ke_algorithm : text; ke_public_key : text }.
Record Keyring := mkKeyring { kr_version : Z; kr_keys : list KeyringEntry }.

Record ModuleTrustSection := mkTrust {
  require_signature : bool; cfg_allowed_signers : list text; keyring_path : option text;
}.

Inductive ModuleVerifierInitError := VIo | InvalidKeyring | UnsupportedAlgorithm (a : text).
Inductive ModuleVerificationError := VSignature | VChecksum | VUnsupported.

Section Verifier.
Context {C : VerifierCrypto}.

Record Ed25519ModuleVerifier := mkVerifier {
  v_require_signature : bool;
  v_allowed_signers : option (gset text);
  v_keys : gmap text VerifyingKey;
}.

(** ** [from_config] *)

(** One turn of the loop over the entries of the keyring. *)
Definition load_key (entry : KeyringEntry) (keys : gmap text VerifyingKey)
    : result (gmap text VerifyingKey) ModuleVerifierInitError :=
  if negb (eq_ignore_ascii_case (ke_algorithm entry) (lit "ed25519"))
  then Err (UnsupportedAlgorithm (ke_algorithm entry))
  else
    decoded <-? ok_or (base64_decode (trim (ke_public_key entry))) InvalidKeyring;;
    if negb (bool_decide (length decoded = PUBLIC_KEY_LENGTH)) then Err InvalidKeyring
    else
      verifying <-? ok_or (key_from_bytes decoded) InvalidKeyring;;
      Ok (<[to_ascii_lowercase (ke_id entry) := verifying]> keys).

Fixpoint load_keys (entries : list KeyringEntry) (keys : gmap text VerifyingKey)
    : result (gmap text VerifyingKey) ModuleVerifierInitError :=
  match entries with
  | [] => Ok keys
  | e :: es => keys' <-? load_key e keys;; load_keys es keys'
  end.

(** [read] is [std::fs::read], [parse] is [serde_json::from_slice]. *)
Definition from_config (read : text -> option (list Z)) (parse : list Z -> option Keyring)
    (config : ModuleTrustSection) : result Ed25519ModuleVerifier ModuleVerifierInitError :=
  keys <-? match keyring_path config with
           | None => Ok ∅
           | Some path =>
               bytes <-? ok_or (read path) VIo;;
               keyring <-? ok_or (parse bytes) InvalidKeyring;;
               load_keys (kr_keys keyring) ∅
           end;;
  if require_signature config && (size keys =? 0)%nat then Err InvalidKeyring
  else
    let allowed_signers := match cfg_allowed_signers config with
                           | [] => None
                           | l => Some (list_to_set (to_ascii_lowercase <$> l))
                           end in
    Ok (mkVerifier (require_signature config) allowed_signers keys).

(** ** [verify] *)

Definition ensure_allowed (v : Ed25519ModuleVerifier) (signer : text) : result unit ModuleVerificationError :=
  match v_allowed_signers v with
  | Some allowed => if bool_decide (to_ascii_lowercase signer ∈ allowed) then Ok tt else Err VSignature
  | None => Ok tt
  end.

(** [SignatureAlgorithm] has one constructor, so the comparison with
    [Ed25519] is always true; it is kept as the match. *)
Definition verify (v : Ed25519ModuleVerifier) (bundle : ModuleBundle) : result unit ModuleVerificationError :=
  let digest := sha256_of (b_archive bundle) in
  if negb (bool_decide (digest = b_checksum bundle)) then Err VChecksum
  else
    let signer := trim (lit (sig_key_id (m_signature (b_manifest bundle)))) in
    match sig_algorithm (m_signature (b_manifest bundle)) with
    | Ed25519 =>
      _ <-? ensure_allowed v signer;;
      match b_signature bundle with
      | [] =>
          if negb (v_require_signature v) then Ok tt
          else match v_keys v !! to_ascii_lowercase signer with
               | None => Ok tt
               | Some _ => Err VSignature
               end
      | _ =>
          match v_keys v !! to_ascii_lowercase signer with
          | None => Err VSignature
          | Some verifying_key =>
              if negb (bool_decide (length (b_signature bundle) = SIGNATURE_LENGTH)) then Err VSignature
              else if ed25519_verify verifying_key digest (b_signature bundle) then Ok tt
              else Err VSignature
          end
      end
    end.

(** ** What is accepted *)

(** The signer of a bundle, as the keyring and the list compare it. *)
Definition signer_of (b : ModuleBundle) : text :=
  to_ascii_lowercase (trim (lit (sig_key_id (m_signature (b_manifest b))))).

Definition signer_allowed (v : Ed25519ModuleVerifier) (b : ModuleBundle) : Prop :=
  match v_allowed_signers v with Some allowed => signer_of b ∈ allowed | None => True end.

Definition signature_valid (k : VerifyingKey) (b : ModuleBundle) : Prop :=
  length (b_signature b) = SIGNATURE_LENGTH /\ ed25519_verify k (sha256_of (b_archive b)) (b_signature b) = true.

Lemma ensure_allowed_ok v b :
  ensure_allowed v (trim (lit (sig_key_id (m_signature (b_manifest b))))) = Ok tt <-> signer_allowed v b.
Proof.
  unfold ensure_allowed, signer_allowed, signer_of. destruct (v_allowed_signers v); [|done].
  case_bool_decide; naive_solver.
Qed.

Lemma verify_spec v b : verify v b = Ok tt <->
  sha256_of (b_archive b) = b_checksum b /\ signer_allowed v b
  /\ match b_signature b, v_keys v !! signer_of b with
     | [], None => True
     | [], Some _ => v_require_signature v = false
     | _, None => False
     | _, Some k => signature_valid k b
     end.
Proof.
  unfold verify. case_bool_decide as Hc; cbn [negb]; [|naive_solver].
  destruct (sig_algorithm _). rewrite <- ensure_allowed_ok.
  destruct (ensure_allowed _ _) as [[]|e]; cbn [result_bind]; [|naive_solver]. fold (signer_of b).
  unfold signature_valid.
  destruct (b_signature b) as [|c s], (v_keys v !! signer_of b), (v_require_signature v);
    cbn [negb]; try naive_solver;
    (case_bool_decide; cbn [negb]; [destruct (ed25519_verify _ _ _)|]; naive_solver).
Qed.

(** ** The keyring *)

(** [k] is the key the entry [e] of the keyring holds. *)
Definition entry_key (e : KeyringEntry) (k : VerifyingKey) : Prop :=
  eq_ignore_ascii_case (ke_algorithm e) (lit "ed25519") = true
  /\ exists bs, base64_decode (trim (ke_public_key e)) = Some bs /\ length bs = PUBLIC_KEY_LENGTH
              /\ key_from_bytes bs = Some k.

Lemma load_key_ok e keys keys' : load_key e keys = Ok keys' ->
  exists k, entry_key e k /\ keys' = <[to_ascii_lowercase (ke_id e) := k]> keys.
Proof.
  unfold load_key, entry_key. destruct (eq_ignore_ascii_case _ _); [|done]. cbn [negb].
  destruct (base64_decode _) as [bs|]; [|done]. cbn [ok_or result_bind].
  case_bool_decide; [|done]. cbn [negb].
  destruct (key_from_bytes bs) as [k|] eqn:E; [|done]. cbn [ok_or result_bind]. intros [= <-]. eauto 7.
Qed.

Lemma load_keys_ok es : forall keys keys', load_keys es keys = Ok keys' ->
  (forall i, is_Some (keys' !! i) <-> is_Some (keys !! i) \/ exists e, e ∈ es /\ to_ascii_lowercase (ke_id e) = i)
  /\ (forall i k, keys' !! i = Some k ->
       keys !! i = Some k \/ exists e, e ∈ es /\ to_ascii_lowercase (ke_id e) = i /\ entry_key e k).
Proof.
  induction es as [|e es IH]; intros keys keys'; cbn [load_keys].
  - intros [= <-]. split; [intros i; split; [by left | by intros [?|(e & He%not_elem_of_nil & _)]] | by left].
  - intros (ks & (k & Hk & ->)%load_key_ok & [H1 H2]%IH)%result_bind_ok_inv. split.
    + intros i. rewrite H1, lookup_insert_is_Some'. setoid_rewrite elem_of_cons. naive_solver.
    + intros i k' [Hl|(e' & He' & Hi & Hk')]%H2.
      * rewrite lookup_insert_Some in Hl. destruct Hl as [[<- <-]|[_ Hl]]; [right|by left].
        exists e. split; [by left|done].
      * right. exists e'. split; [by right|done].
Qed.

Lemma entry_key_fun e k k' : entry_key e k -> entry_key e k' -> k = k'.
Proof. intros (_ & bs & H1 & _ & H2) (_ & bs' & H1' & _ & H2'). congruence. Qed.

Lemma from_config_ok read parse config path bytes keyring v :
  from_config read parse config = Ok v ->
  keyring_path config = Some path -> read path = Some bytes -> parse bytes = Some keyring ->
  v_require_signature v = require_signature config
  /\ v_allowed_signers v = match cfg_allowed_signers config with
                           | [] => None
                           | l => Some (list_to_set (to_ascii_lowercase <$> l))
                           end
  /\ load_keys (kr_keys keyring) ∅ = Ok (v_keys v).
Proof.
  unfold from_config. intros Hv Hpath Hr Hp. rewrite Hpath in Hv. cbn [result_bind] in Hv. rewrite Hr in Hv. cbn [ok_or result_bind] in Hv.
  rewrite Hp in Hv. cbn [ok_or result_bind] in Hv.
  apply result_bind_ok_inv in Hv as (ks & Hks & Hv). destruct (_ && _)%bool; [done|]. by injection Hv as <-.
Qed.

Lemma allowed_spec config v b :
  v_allowed_signers v = match cfg_allowed_signers config with
                        | [] => None
                        | l => Some (list_to_set (to_ascii_lowercase <$> l))
                        end ->
  cfg_allowed_signers config <> [] ->
  signer_allowed v b <-> exists s, s ∈ cfg_allowed_signers config /\ to_ascii_lowercase s = signer_of b.
Proof.
  unfold signer_allowed. intros -> Hne. destruct (cfg_allowed_signers config) as [|s0 l]; [done|].
  rewrite elem_of_list_to_set, list_elem_of_fmap. naive_solver.
Qed.

(** C15: with [require_signature], a list of allowed signers, and a key in
    the keyring for each of them, the verifier accepts a bundle exactly when
    the archive has the stated checksum, the signer is on the list, and the
    signature is 64 bytes that verify the archive's digest under the key
    which the keyring holds for that signer; in particular no bundle without
    a signature is accepted. *)
Theorem only_signed_bundles_accepted read parse config path bytes keyring v (b : ModuleBundle)
  (Hv : from_config read parse config = Ok v)
  (Hpath : keyring_path config = Some path) (Hread : read path = Some bytes) (Hparse : parse bytes = Some keyring)
  (Hreq : require_signature config = true) (Hsome : cfg_allowed_signers config <> [])
  (Hcover : forall s, s ∈ cfg_allowed_signers config ->
     exists e, e ∈ kr_keys keyring /\ to_ascii_lowercase (ke_id e) = to_ascii_lowercase s)
  (Huniq : forall e e', e ∈ kr_keys keyring -> e' ∈ kr_keys keyring ->
     to_ascii_lowercase (ke_id e) = to_ascii_lowercase (ke_id e') -> e = e') :
  verify v b = Ok tt <->
    sha256_of (b_archive b) = b_checksum b
    /\ exists s e k, s ∈ cfg_allowed_signers config /\ to_ascii_lowercase s = signer_of b
         /\ e ∈ kr_keys keyring /\ to_ascii_lowercase (ke_id e) = signer_of b
         /\ entry_key e k /\ signature_valid k b.
Proof.
  destruct (from_config_ok _ _ _ _ _ _ _ Hv Hpath Hread Hparse) as (Hr & Ha & [Hdom Hkeys]%load_keys_ok).
  assert (Hk : forall k, v_keys v !! signer_of b = Some k ->
    exists e, e ∈ kr_keys keyring /\ to_ascii_lowercase (ke_id e) = signer_of b /\ entry_key e k).
  { intros k Hk. apply Hkeys in Hk as [Hk|]; [by rewrite lookup_empty in Hk | done]. }
  rewrite verify_spec, (allowed_spec config v b Ha Hsome), Hr, Hreq. split.
  - intros (Hc & (s & Hs & Hsig) & Hm). split; [done|].
    assert (is_Some (v_keys v !! signer_of b)) as [k Hlk].
    { apply Hdom. right. rewrite <- Hsig. by apply Hcover. }
    rewrite Hlk in Hm. destruct (b_signature b) eqn:Eb; [done|]. naive_solver.
  - intros (Hc & s & e & k & Hs & Hsig & He & Hid & Hek & Hval). split_and!; [done|eauto|].
    assert (is_Some (v_keys v !! signer_of b)) as [k' Hlk] by (apply Hdom; right; eauto).
    destruct (Hk _ Hlk) as (e' & He' & Hid' & Hek'). rewrite Hlk.
    assert (e' = e) as -> by (apply Huniq; congruence). rewrite (entry_key_fun _ _ _ Hek' Hek).
    destruct (b_signature b) eqn:Eb; [|done]. destruct Hval as [Hlen _]. by rewrite Eb in Hlen.
Qed.

(** without a list of allowed signers, a bundle with no signature at all
    is accepted although signatures are required, when its manifest names a
    signer the keyring does not hold; the comment on that branch takes the
    signer to be on the list. *)
Theorem unsigned_bundle_accepted read parse config path bytes keyring v (b : ModuleBundle)
  (Hv : from_config read parse config = Ok v)
  (Hpath : keyring_path config = Some path) (Hread : read path = Some bytes) (Hparse : parse bytes = Some keyring)
  (Hreq : require_signature config = true) (Hnone : cfg_allowed_signers config = [])
  (Hsig : b_signature b = []) (Hsum : sha256_of (b_archive b) = b_checksum b)
  (Hunknown : forall e, e ∈ kr_keys keyring -> to_ascii_lowercase (ke_id e) <> signer_of b) :
  verify v b = Ok tt.
Proof.
  destruct (from_config_ok _ _ _ _ _ _ _ Hv Hpath Hread Hparse) as (Hr & Ha & [Hdom _]%load_keys_ok).
  apply verify_spec. unfold signer_allowed. rewrite Ha, Hnone, Hsig. split_and!; [done|done|].
  destruct (v_keys v !! signer_of b) as [k|] eqn:Ek; [|done].
  destruct (proj1 (Hdom (signer_of b)) (mk_is_Some _ _ Ek)) as [[? Hl]|(e & He & Hid)].
  - by rewrite lookup_empty in Hl.
  - by destruct (Hunknown e He).
Qed.

End Verifier.

(** ** A concrete scheme

    Digests are the bytes themselves, a key is 32 bytes, and a signature is
    the key followed by 32 bytes that repeat the first byte of the message. *)
Definition toy_sig (k m : list Z) : list Z := take 32 (k ++ replicate 32 0) ++ replicate 32 (default 0 (head m)).
#[local] Instance toy_crypto : VerifierCrypto := {|
  VerifyingKey := list Z;
  sha256_of b := b;
  base64_decode t := Some t;
  key_from_bytes b := Some b;
  ed25519_verify k m s := bool_decide (s = toy_sig k m);
|}.
#[local] Instance toy_signer : Ed25519Signer toy_crypto.
Proof.
  refine {| SigningKey := list Z; public_key k := k; ed25519_sign := toy_sig |}.
  - intros k m. unfold toy_sig. rewrite length_app, length_take, length_app, !length_replicate. lia.
  - intros k m. cbn. by apply bool_decide_eq_true.
Defined.

Definition toy_key : list Z := replicate 32 7.
Definition toy_entry : KeyringEntry := mkKeyEntry (lit "Module-Registry") (lit "ed25519") toy_key.
Definition toy_keyring : Keyring := mkKeyring 1 [toy_entry].
Definition toy_config (allowed : list text) : ModuleTrustSection := mkTrust true allowed (Some (lit "keyring.json")).
Definition toy_manifest (signer : string) : ModuleManifest :=
  mkManifest "athenos" (mkVersion 1 0 0 [] []) None None None [] None
    (mkArtifact [] (mkChecksum Sha256 []) None None) (mkSignature Ed25519 signer "") [] [] None.
Definition toy_bundle (signer : string) (s : list Z) : ModuleBundle := mkBundle (toy_manifest signer) [1; 2] s [1; 2].
Definition toy_verifier (allowed : option (gset text)) : Ed25519ModuleVerifier :=
  mkVerifier true allowed {[ lit "module-registry" := toy_key ]}.

Lemma only_signed_bundles_accepted_witness :
  verify (toy_verifier (Some {[ lit "module-registry" ]}))
    (toy_bundle "module-registry" (ed25519_sign toy_key [1; 2])) = Ok tt.
Proof.
  assert (He : forall e, e ∈ kr_keys toy_keyring -> e = toy_entry)
    by (intros e; apply list_elem_of_singleton).
  apply (only_signed_bundles_accepted (λ _, Some []) (λ _, Some toy_keyring) (toy_config [lit "MODULE-REGISTRY"])
           (lit "keyring.json") [] toy_keyring).
  - vm_compute. reflexivity.
  - reflexivity.
  - reflexivity.
  - reflexivity.
  - reflexivity.
  - discriminate.
  - intros s Hs. apply list_elem_of_singleton in Hs as ->. exists toy_entry.
    split; [by apply list_elem_of_singleton | vm_compute; reflexivity].
  - intros e e' H H' _. by rewrite (He e H), (He e' H').
  - split; [reflexivity|]. exists (lit "MODULE-REGISTRY"), toy_entry, toy_key. split_and!.
    + by apply list_elem_of_singleton.
    + vm_compute; reflexivity.
    + by apply list_elem_of_singleton.
    + vm_compute; reflexivity.
    + split; [vm_compute; reflexivity|]. exists toy_key. by split_and!.
    + split; [exact (@sign_len _ toy_signer toy_key [1; 2])|]. exact (@sign_verifies _ toy_signer toy_key [1; 2]).
Defined.

Lemma unsigned_bundle_accepted_witness : verify (toy_verifier None) (toy_bundle "mallory" []) = Ok tt.
Proof.
  apply (unsigned_bundle_accepted (λ _, Some []) (λ _, Some toy_keyring) (toy_config [])
           (lit "keyring.json") [] toy_keyring).
  - vm_compute. reflexivity.
  - reflexivity.
  - reflexivity.
  - reflexivity.
  - reflexivity.
  - reflexivity.
  - reflexivity.
  - reflexivity.
  - intros e He. apply list_elem_of_singleton in He as ->. vm_compute. discriminate.
Defined.
