(* ===== verification/ModuleStorage.v ===== *)
(** * Module storage: [infra/modules/storage.rs]

    The directory of installed modules and the cache of archives.  A
    directory is the list of its entries, in the order [read_dir] gives them;
    a new entry is put at the end.  Every call to the file system can fail:
    [StorageIo] says which calls of an operation do, and what a failed write
    or removal leaves behind.  Unpacking (tar, flate2) and JSON (serde_json)
    are classes.  Links and modification times are left out. *)

From S2P Require Import Prelude Text Versions Manifests Verifier.
#[local] Open Scope fenrir_scope.

(** ** Files and directories *)

Abbreviation name := (list Z) (only parsing).
#[warnings="-register-all"] Inductive tree :=
| TFile (content : list Z)
| TDir (entries : list (list Z * tree)).
Abbreviation dir := (list (list Z * tree)) (only parsing).

Fixpoint entry (n : name) (d : dir) : option tree :=
  match d with
  | [] => None
  | (n', t) :: d' => if decide (n = n') then Some t else entry n d'
  end.
Fixpoint set_entry (n : name) (t : tree) (d : dir) : dir :=
  match d with
  | [] => [(n, t)]
  | (n', t') :: d' => if decide (n = n') then (n, t) :: d' else (n', t') :: set_entry n t d'
  end.
Definition remove_entry (n : name) (d : dir) : dir := filter (λ e, e.1 <> n) d.
Definition put_entry (n : name) (o : option tree) (d : dir) : dir :=
  match o with Some t => set_entry n t d | None => remove_entry n d end.

(** [std::fs::rename] of the entry [n] with value [t] onto [target] of [d]:
    a file replaces a file, a directory an empty directory. *)
Definition may_replace (t : tree) (old : option tree) : bool :=
  match old, t with
  | None, _ => true
  | Some (TFile _), TFile _ => true
  | Some (TDir []), TDir _ => true
  | _, _ => false
  end.

Inductive read_res := RBytes (bs : list Z) | RNotFound | RFailed.
(** [fs::read] below a directory; [path] is never empty. *)
Fixpoint read_path (path : list name) (d : dir) : read_res :=
  match path with
  | [] => RFailed
  | n :: p =>
      match entry n d, p with
      | None, _ => RNotFound
      | Some (TFile bs), [] => RBytes bs
      | Some (TDir d'), _ :: _ => read_path p d'
      | _, _ => RFailed
      end
  end.

(** What a failed removal leaves of the entry, what a failed write leaves of
    the file. *)
Abbreviation rm_outcome := (option (option tree)) (only parsing).
Abbreviation write_outcome := (option (option (list Z))) (only parsing).

Inductive MetaFile := FManifest | FArtifact | FSignature | FChecksum | FDownload | FInstall.

Record StorageIo := mkIo {
  io_manifest_read : bool; io_meta_read : bool;
  io_clean : rm_outcome; io_create : bool;
  io_cache_read : bool; io_cache_write : write_outcome;
  io_unpack : option dir;
  io_list : bool; io_access : name -> bool; io_junk : name -> rm_outcome;
  io_type : bool; io_aside : bool; io_nested : bool; io_child : name -> bool; io_move : name -> bool;
  io_inner : rm_outcome;
  io_meta_dir : bool;
  io_write : MetaFile -> write_outcome;
  io_remove : rm_outcome;
}.

(** Nothing fails. *)
Definition io_ok : StorageIo :=
  mkIo true true None true true None None true (λ _, true) (λ _, None) true true true
    (λ _, true) (λ _, true) None true (λ _, None) None.

(** ** Data *)

Inductive ModuleInstallSource := Distribution | LocalOverride.
#[export] Instance ModuleInstallSource_eq_dec : EqDecision ModuleInstallSource.
Proof. solve_decision. Defined.
Record InstalledModule := mkInstalledModule {
  im_manifest : ModuleManifest; im_path : text; im_source : ModuleInstallSource;
}.
Inductive ModuleInstallStatus := SInstalled | SUpdated | SAlreadyCurrent.
Record ModuleInstallResult := mkInstallResult {
  ir_status : ModuleInstallStatus; ir_manifest : ModuleManifest; ir_path : text; ir_source : ModuleInstallSource;
}.
Inductive ModuleStorageError := Unavailable | StIo | InvalidState.

(** tar and flate2: unpacking into an empty directory gives its entries,
    also the ones that were made before an error. *)
Class ModuleArchive := { untar : list Z -> result unit unit * dir }.

(** serde_json on a manifest and on the install metadata, and how semver
    prints a version. *)
Class StorageJson := {
  version_display : Version -> text;
  manifest_to_json : ModuleManifest -> option (list Z);
  manifest_from_json : list Z -> option ModuleManifest;
  source_to_json : ModuleInstallSource -> option (list Z);
  source_from_json : list Z -> option ModuleInstallSource;
}.
Class StorageJsonLaws (J : StorageJson) : Prop := {
  manifest_roundtrip m bs : manifest_to_json m = Some bs -> manifest_from_json bs = Some m;
  source_roundtrip x bs : source_to_json x = Some bs -> source_from_json bs = Some x;
}.

(** The storage on disk: the entries of [install_dir], and the files of the
    cache when there is one. *)
Record Storage := mkStorage { s_root : text; s_modules : dir; s_cache : option (gmap text (list Z)) }.

(** ** Paths *)

Definition META : name := lit ".fenrir-meta".
Definition FLATTEN : name := lit ".fenrir-flatten".

(** [PathBuf::join] with a relative path. *)
Definition path_join (p q : text) : text :=
  match p with
  | [] => q
  | _ => if bool_decide (last p = Some 47) then p ++ q else p ++ lit "/" ++ q
  end.
Definition module_dir (s : Storage) (id : ModuleId) : text := path_join (s_root s) (id_text id).

Section Storage.
Context {S : Semver} {A : ModuleArchive} {J : StorageJson}.

Definition artifact_file_name (m : ModuleManifest) : text :=
  let raw := trim (download_url (m_artifact m)) in
  match last (split 47 raw) with
  | Some (c :: segment) => c :: segment
  | _ => lit (m_id m) ++ lit "-" ++ version_display (m_version m) ++ lit ".module"
  end.

Definition meta_name (m : ModuleManifest) (f : MetaFile) : name :=
  match f with
  | FManifest => lit "manifest.json"
  | FArtifact => utf8 (artifact_file_name m)
  | FSignature => lit "signature.bin"
  | FChecksum => lit "checksum.bin"
  | FDownload => lit "download"
  | FInstall => lit "install.json"
  end.

Definition hex_digit (n : Z) : char := if n <? 10 then 48 + n else 87 + n.
(** [hex::encode]. *)
Definition hex_encode (bs : list Z) : text := concat ((λ b, [hex_digit (b / 16); hex_digit (b mod 16)]) <$> bs).
Definition cache_name (b : ModuleBundle) : text := hex_encode (b_checksum b) ++ lit ".module.tgz".

(** ** Programs on a state, with errors *)

Definition prog (St R : Type) : Type := St -> result R ModuleStorageError * St.
Definition pret {St R} (r : R) : prog St R := λ s, (Ok r, s).
Definition pfail {St R} (e : ModuleStorageError) : prog St R := λ s, (Err e, s).
Definition pbind {St R R'} (m : prog St R) (k : R -> prog St R') : prog St R' :=
  λ s, match m s with (Ok r, s') => k r s' | (Err e, s') => (Err e, s') end.
#[local] Notation "x <~ m ;; k" := (pbind m (λ x, k)) (at level 100, m at next level, right associativity).
(** A call that does nothing but fail or succeed. *)
Definition guard_io {St} (ok : bool) : prog St unit := if ok then pret tt else pfail StIo.

(** ** [flatten_module_root] *)

(** macOS leftovers. *)
Definition is_junk (n : text) : bool :=
  bool_decide (n = lit ".DS_Store") || starts_with (lit "._") n.

(** The first loop: removes leftovers from the directory, skips names that
    are not UTF-8, collects the rest. *)
Fixpoint collect_entries (io : StorageIo) (es kept : dir) : prog dir dir :=
  match es with
  | [] => pret kept
  | (n, t) :: es' =>
      _ <~ guard_io (io_access io n);;
      match from_utf8 n with
      | None => collect_entries io es' kept
      | Some name_str =>
          if is_junk name_str
          then λ d, collect_entries io es' kept (put_entry n (default None (io_junk io n)) d)
          else collect_entries io es' (kept ++ [(n, t)])
      end
  end.

(** The loop over the children of the directory that was moved aside:
    each is renamed into the destination.  The children that are still to
    come are what the directory holds. *)
Fixpoint move_children (io : StorageIo) (cs : dir) : prog dir unit :=
  match cs with
  | [] => pret tt
  | (c, t) :: cs' =>
      _ <~ guard_io (io_child io c);;
      λ d, if io_move io c && may_replace t (entry c d)
           then move_children io cs' (set_entry c t (set_entry FLATTEN (TDir cs') d))
           else (Err StIo, d)
  end.

Definition flatten_module_root (io : StorageIo) : prog dir unit :=
  _ <~ guard_io (io_list io);;
  entries <~ (λ d, collect_entries io d [] d);;
  match entries with
  | [(n, t)] =>
      _ <~ guard_io (io_type io);;
      match t with
      | TFile _ => pret tt
      | TDir cs =>
          _ <~ (λ d, if io_aside io && (bool_decide (n = FLATTEN) || may_replace t (entry FLATTEN d))
                     then (Ok tt, if bool_decide (n = FLATTEN) then d
                                  else set_entry FLATTEN t (remove_entry n d))
                     else (Err StIo, d));;
          _ <~ guard_io (io_nested io);;
          _ <~ move_children io cs;;
          λ d, match io_inner io with
               | None => (Ok tt, remove_entry FLATTEN d)
               | Some remains => (Err StIo, put_entry FLATTEN remains d)
               end
      end
  | _ => pret tt
  end.

Definition extract_module_archive (io : StorageIo) (bytes : list Z) : prog dir unit :=
  _ <~ (λ _, match io_unpack io with
             | Some remains => (Err StIo, remains)
             | None => match untar bytes with
                       | (Ok _, d) => (Ok tt, d)
                       | (Err _, d) => (Err StIo, d)
                       end
             end);;
  flatten_module_root io.

(** ** Reading what is installed *)

Definition read_install_source (io : StorageIo) (id : ModuleId) (s : Storage) : ModuleInstallSource :=
  match (if io_meta_read io then read_path [id_text id; META; lit "install.json"] (s_modules s) else RFailed) with
  | RBytes bytes => default Distribution (source_from_json bytes)
  | RNotFound => Distribution
  | RFailed => Distribution
  end.

Definition read_installed (io : StorageIo) (id : ModuleId) (s : Storage)
    : result (option InstalledModule) ModuleStorageError :=
  match (if io_manifest_read io then read_path [id_text id; META; lit "manifest.json"] (s_modules s) else RFailed) with
  | RBytes bytes =>
      manifest <-? ok_or (manifest_from_json bytes) InvalidState;;
      Ok (Some (mkInstalledModule manifest (module_dir s id) (read_install_source io id s)))
  | RNotFound => Ok None
  | RFailed => Err StIo
  end.

Definition load := read_installed.

(** The loop of [list]: the answers of [file_type] and of the iteration are
    [io_type_of] and [io_access]. *)
Fixpoint list_entries (io : StorageIo) (io_type_of : name -> bool) (s : Storage) (es : dir)
    (entries : list InstalledModule) : result (list InstalledModule) ModuleStorageError :=
  match es with
  | [] => Ok entries
  | (n, t) :: es' =>
      if negb (io_access io n) then Err StIo
      else if negb (io_type_of n) then Err StIo
      else
        match t, from_utf8 n with
        | TFile _, _ | _, None => list_entries io io_type_of s es' entries
        | TDir _, Some module_name =>
            if starts_with (lit ".") module_name then list_entries io io_type_of s es' entries
            else match ModuleId_new module_name with
                 | Err _ => list_entries io io_type_of s es' entries
                 | Ok module_id =>
                     o <-? read_installed io module_id s;;
                     list_entries io io_type_of s es' (entries ++ match o with Some i => [i] | None => [] end)
                 end
        end
  end.

Definition list_installed (io : StorageIo) (io_type_of : name -> bool) (s : Storage)
    : result (list InstalledModule) ModuleStorageError :=
  if negb (io_list io) then Err StIo
  else entries <-? list_entries io io_type_of s (s_modules s) [];;
       Ok (sort_by_key (λ i, m_id (im_manifest i)) entries).

(** ** [stage_and_activate] *)

(** A program on the directory of a module, which exists by then. *)
Definition in_module (id : ModuleId) {R} (m : prog dir R) : prog Storage R := λ s,
  let d := match entry (id_text id) (s_modules s) with Some (TDir d) => d | _ => [] end in
  let r := m d in
  (r.1, mkStorage (s_root s) (set_entry (id_text id) (TDir r.2) (s_modules s)) (s_cache s)).

(** [fs::remove_dir_all]; a file is not a directory. *)
Definition remove_dir_all (id : ModuleId) (out : rm_outcome) : prog Storage unit := λ s,
  match entry (id_text id) (s_modules s), out with
  | Some (TFile _), _ => (Err StIo, s)
  | _, None => (Ok tt, mkStorage (s_root s) (remove_entry (id_text id) (s_modules s)) (s_cache s))
  | _, Some remains => (Err StIo, mkStorage (s_root s) (put_entry (id_text id) remains (s_modules s)) (s_cache s))
  end.

Definition cache_archive_bytes (io : StorageIo) (bundle : ModuleBundle) : prog Storage (list Z) := λ s,
  match s_cache s with
  | None => (Ok (b_archive bundle), s)
  | Some files =>
      if negb (io_cache_read io) then (Ok (b_archive bundle), s)
      else match files !! cache_name bundle with
           | Some bytes => (Ok bytes, s)
           | None =>
               let files' := match io_cache_write io with
                             | None => <[cache_name bundle := b_archive bundle]> files
                             | Some (Some remains) => <[cache_name bundle := remains]> files
                             | Some None => files
                             end in
               (Ok (b_archive bundle), mkStorage (s_root s) (s_modules s) (Some files'))
           end
  end.

(** [create_dir_all] of the metadata directory. *)
Definition create_meta_dir (io : StorageIo) : prog dir unit := λ d,
  if negb (io_meta_dir io) then (Err StIo, d)
  else match entry META d with
       | None => (Ok tt, set_entry META (TDir []) d)
       | Some (TDir _) => (Ok tt, d)
       | Some (TFile _) => (Err StIo, d)
       end.

(** [fs::write] of a file of the metadata directory; [.] and [..] are
    directories. *)
Definition write_meta (out : write_outcome) (n : name) (bytes : list Z) : prog dir unit := λ d,
  match entry META d with
  | Some (TDir meta) =>
      if bool_decide (n = lit ".") || bool_decide (n = lit "..") then (Err StIo, d)
      else match entry n meta, out with
           | Some (TDir _), _ => (Err StIo, d)
           | _, None => (Ok tt, set_entry META (TDir (set_entry n (TFile bytes) meta)) d)
           | _, Some (Some remains) => (Err StIo, set_entry META (TDir (set_entry n (TFile remains) meta)) d)
           | _, Some None => (Err StIo, d)
           end
  | _ => (Err StIo, d)
  end.

Definition lift_json {St R} (o : option R) : prog St R :=
  match o with Some r => pret r | None => pfail InvalidState end.

Definition persist_install_metadata (io : StorageIo) (m : ModuleManifest) (source : ModuleInstallSource) : prog dir unit :=
  bytes <~ lift_json (source_to_json source);;
  write_meta (io_write io FInstall) (meta_name m FInstall) bytes.

(** Extraction and the metadata files, all in the directory of the module. *)
Definition write_module (io : StorageIo) (bundle : ModuleBundle) (source : ModuleInstallSource)
    (archive_bytes : list Z) : prog dir unit :=
  let m := b_manifest bundle in
  _ <~ extract_module_archive io archive_bytes;;
  _ <~ create_meta_dir io;;
  manifest_bytes <~ lift_json (manifest_to_json m);;
  _ <~ write_meta (io_write io FManifest) (meta_name m FManifest) manifest_bytes;;
  _ <~ write_meta (io_write io FArtifact) (meta_name m FArtifact) archive_bytes;;
  _ <~ write_meta (io_write io FSignature) (meta_name m FSignature) (b_signature bundle);;
  _ <~ write_meta (io_write io FChecksum) (meta_name m FChecksum) (b_checksum bundle);;
  _ <~ write_meta (io_write io FDownload) (meta_name m FDownload) (utf8 (download_url (m_artifact m)));;
  persist_install_metadata io m source.

#[local] Instance Version_eq_dec : EqDecision Version.
Proof. solve_decision. Defined.

Definition install_status (current : option InstalledModule) (m : ModuleManifest) : ModuleInstallStatus :=
  match current with
  | None => SInstalled
  | Some installed =>
      if bool_decide (m_version (im_manifest installed) = m_version m) then SAlreadyCurrent else SUpdated
  end.

Definition is_newer (current : option InstalledModule) (m : ModuleManifest) : bool :=
  match current with
  | None => false
  | Some installed => bool_decide (compare_versions (m_version (im_manifest installed)) (m_version m) = Gt)
  end.

Definition stage_and_activate (io : StorageIo) (bundle : ModuleBundle) (source : ModuleInstallSource)
    : prog Storage ModuleInstallResult :=
  let m := b_manifest bundle in
  match ModuleId_new (lit (m_id m)) with
  | Err _ => pfail InvalidState
  | Ok id =>
      current <~ (λ s, (read_installed io id s, s));;
      if is_newer current m then pfail InvalidState
      else
        _ <~ (λ s, match entry (id_text id) (s_modules s) with
                   | Some _ => remove_dir_all id (io_clean io) s
                   | None => (Ok tt, s)
                   end);;
        _ <~ guard_io (io_create io);;
        _ <~ in_module id (pret tt);;
        archive_bytes <~ cache_archive_bytes io bundle;;
        _ <~ in_module id (write_module io bundle source archive_bytes);;
        λ s, (Ok (mkInstallResult (install_status current m) m (module_dir s id) source), s)
  end.

(** [remove]: a directory that is not there counts as removed. *)
Definition remove (io : StorageIo) (id : ModuleId) : prog Storage unit := λ s,
  match entry (id_text id) (s_modules s) with
  | None => (Ok tt, s)
  | Some _ => remove_dir_all id (io_remove io) s
  end.

(** ** [services/module/depot_support.rs] *)

(** [activate_verified_bundle]; the status it publishes in the registry is
    no part of the storage.  [io_load] are the calls of the first read. *)
Definition activate_verified_bundle (io_load io : StorageIo) (bundle : ModuleBundle)
    : prog Storage ModuleInstallResult :=
  match ModuleId_new (lit (m_id (b_manifest bundle))) with
  | Err _ => pfail InvalidState
  | Ok id =>
      current <~ (λ s, (load io_load id s, s));;
      _ <~ (if is_newer current (b_manifest bundle) then remove io_load id else pret tt);;
      stage_and_activate io bundle Distribution
  end.
End Storage.

(** ** Packaging a module directory: [services/module/dev.rs] *)

(** What the tar builder was given: a path below the root, and the content
    of a file or nothing for a directory. *)
Abbreviation member := (list (list Z) * option (list Z))%type (only parsing).

Definition skipped (n : name) : bool :=
  bool_decide (n = META) || bool_decide (from_utf8 n = Some (lit ".fenrir-dev.toml")).

Fixpoint append_entry (rel : list name) (t : tree) : list member :=
  match t with
  | TFile bs => [(rel, Some bs)]
  | TDir es => (rel, None) :: flat_map (λ '(n, t), if skipped n then [] else append_entry (rel ++ [n]) t) es
  end.
Definition append_directory_filtered (rel : list name) (current : dir) : list member :=
  flat_map (λ '(n, t), if skipped n then [] else append_entry (rel ++ [n]) t) current.

(** [None] when reading or packing fails. *)
Class TarBuilder := { tar_gz : list member -> option (list Z) }.

Section Package.
Context {S : Semver} {A : ModuleArchive} {J : StorageJson} {T : TarBuilder}.

Definition package_module_directory (o : option tree) : result (list Z) ModuleStorageError :=
  match o with
  | None => Err InvalidState
  | Some (TFile _) => Err InvalidState
  | Some (TDir d) => ok_or (tar_gz (append_directory_filtered [] d)) StIo
  end.

Definition package_installed_module (io : StorageIo) (id : ModuleId) (s : Storage)
    : result (option (ModuleManifest * list Z)) ModuleStorageError :=
  o <-? load io id s;;
  match o with
  | None => Ok None
  | Some installed =>
      archive <-? package_module_directory (entry (id_text id) (s_modules s));;
      Ok (Some (im_manifest installed, archive))
  end.

(** ** [ModuleService::install_module] of [services/module/service.rs]

    [fetch] and [download] are the answers of the module registry. *)
Inductive ModuleServiceError :=
| RegistryError | StorageError (e : ModuleStorageError) | VerificationError (e : ModuleVerificationError).

Context {C : VerifierCrypto}.
Definition install_module (v : Ed25519ModuleVerifier) (fetch : option ModuleManifest)
    (download : ModuleManifest -> option ModuleBundle) (io : StorageIo) (s : Storage)
    : result ModuleInstallResult ModuleServiceError * Storage :=
  match fetch with
  | None => (Err RegistryError, s)
  | Some manifest =>
      match download manifest with
      | None => (Err RegistryError, s)
      | Some bundle =>
          match verify v bundle with
          | Err e => (Err (VerificationError e), s)
          | Ok _ => let '(r, s') := stage_and_activate io bundle Distribution s in (map_err StorageError r, s')
          end
      end
  end.
End Package.
