(* ===== verification/ModuleStorageSafety.v ===== *)
(** * Installed modules are the ones that were staged: properties of
    [infra/modules/storage.rs], [services/module/depot_support.rs] and the
    packaging of [services/module/dev.rs]

    Frames first: whatever fails, an operation on one module leaves the
    others alone.  Then what a successful staging leaves on disk, what a
    backup restores, and two ways in which the storage loses a module. *)

From S2P Require Import Prelude Text Versions Manifests Verifier ModuleStorage.
#[local] Open Scope fenrir_scope.

(** ** Entries of a directory *)

Lemma entry_set n t d : entry n (set_entry n t d) = Some t.
Proof. induction d as [|[n' t'] d IH]; simpl; repeat (case_decide; simpl); congruence. Qed.
Lemma entry_set_ne n n' t d : n <> n' -> entry n (set_entry n' t d) = entry n d.
Proof. intros Hn. induction d as [|[m u] d IH]; simpl; repeat (case_decide; simpl); congruence. Qed.
Lemma entry_remove n d : entry n (remove_entry n d) = None.
Proof.
  induction d as [|[m u] d IH]; [done|]. unfold remove_entry. rewrite filter_cons. simpl.
  case_decide; simpl; [|done]. case_decide; [congruence|done].
Qed.
Lemma entry_remove_ne n n' d : n <> n' -> entry n (remove_entry n' d) = entry n d.
Proof.
  intros Hn. induction d as [|[m u] d IH]; [done|]. unfold remove_entry in *. rewrite filter_cons. simpl.
  repeat (case_decide; simpl); try congruence.
Qed.
Lemma entry_put_ne n n' o d : n <> n' -> entry n (put_entry n' o d) = entry n d.
Proof. destruct o; [apply entry_set_ne | apply entry_remove_ne]. Qed.
Lemma set_set_entry n t t' d : set_entry n t (set_entry n t' d) = set_entry n t d.
Proof. induction d as [|[m u] d IH]; simpl; repeat (case_decide; simpl); congruence. Qed.
Lemma remove_set_entry n t d : remove_entry n (set_entry n t d) = remove_entry n d.
Proof.
  unfold remove_entry. induction d as [|[m u] d IH]; simpl.
  - rewrite filter_cons_False; [done|]. simpl. tauto.
  - case_decide; subst; rewrite !filter_cons; simpl; repeat case_decide; congruence.
Qed.
Lemma remove_entry_absent n d : n ∉ d.*1 -> remove_entry n d = d.
Proof.
  unfold remove_entry. induction d as [|[m u] d IH]; [done|]. rewrite fmap_cons, not_elem_of_cons. simpl.
  intros [Hm Hd]. rewrite filter_cons_True by (simpl; congruence). by rewrite IH.
Qed.
Lemma set_entry_absent n t d : n ∉ d.*1 -> set_entry n t d = d ++ [(n, t)].
Proof.
  induction d as [|[m u] d IH]; [done|]. rewrite fmap_cons, not_elem_of_cons. simpl. intros [Hm Hd].
  rewrite decide_False by done. by rewrite IH.
Qed.
Lemma entry_None n d : entry n d = None <-> n ∉ d.*1.
Proof.
  induction d as [|[m u] d IH]; simpl; [split; [intros _; apply not_elem_of_nil|done]|].
  rewrite not_elem_of_cons, <- IH. case_decide; naive_solver.
Qed.



(** ** Programs *)

Lemma pbind_ok {St R R'} (m : prog St R) (k : R -> prog St R') s r s' :
  pbind m k s = (Ok r, s') -> exists a s1, m s = (Ok a, s1) /\ k a s1 = (Ok r, s').
Proof. unfold pbind. destruct (m s) as [[a|e] s1]; [eauto|done]. Qed.

Lemma guard_io_ok {St} b (s s' : St) u : guard_io b s = (Ok u, s') -> b = true /\ s' = s.
Proof. destruct b; [by intros [= <- <-]|done]. Qed.

(** Whatever the outcome, [m] leaves a state related to the first one. *)
Definition leaves {St R} (P : St -> St -> Prop) (m : prog St R) : Prop := forall s, P s (m s).2.

Section Leaves.
Context {St : Type} (P : St -> St -> Prop) `{!PreOrder P}.
Lemma leaves_pret {R} (r : R) : leaves P (pret r).
Proof. by intros s. Qed.
Lemma leaves_pfail {R} e : leaves P (pfail (R := R) e).
Proof. by intros s. Qed.
Lemma leaves_guard b : leaves P (guard_io b).
Proof. destruct b; by intros s. Qed.
Lemma leaves_same {R} (f : St -> result R ModuleStorageError) : leaves P (λ s, (f s, s)).
Proof. by intros s. Qed.
Lemma leaves_bind {R R'} (m : prog St R) (k : R -> prog St R') :
  leaves P m -> (forall r, leaves P (k r)) -> leaves P (pbind m k).
Proof.
  intros Hm Hk s. unfold pbind. specialize (Hm s). destruct (m s) as [[r|e] s1]; [|done].
  simpl in Hm. etrans; [exact Hm|]. apply Hk.
Qed.
End Leaves.
Create HintDb leaves.
#[export] Hint Resolve leaves_pret leaves_pfail leaves_guard leaves_same leaves_bind : leaves.

(** Every entry but that of [id] is the same. *)
Definition touches_only (id : ModuleId) (s s' : Storage) : Prop :=
  s_root s' = s_root s /\ forall n, n <> id_text id -> entry n (s_modules s') = entry n (s_modules s).
#[export] Instance touches_only_preorder id : PreOrder (touches_only id).
Proof.
  split; [by intros s|]. intros s1 s2 s3 [? H1] [? H2]. split; [congruence|].
  intros n Hn. by rewrite H2, H1.
Qed.

Section Frames.
Context {S : Semver} {A : ModuleArchive} {J : StorageJson}.

Lemma in_module_leaves id {R} (m : prog (list (list Z * tree)) R) : leaves (touches_only id) (in_module id m).
Proof. intros s. split; [done|]. intros n Hn. cbn. by apply entry_set_ne. Qed.

Lemma remove_dir_all_leaves id out : leaves (touches_only id) (remove_dir_all id out).
Proof.
  intros s. unfold remove_dir_all. destruct (entry _ _) as [[]|], out; (split; [done|]); intros n Hn; cbn;
    by rewrite ?entry_remove_ne, ?entry_put_ne.
Qed.

Lemma cache_archive_leaves id io b : leaves (touches_only id) (cache_archive_bytes io b).
Proof.
  intros s. unfold cache_archive_bytes. destruct (s_cache s); [|done].
  destruct (io_cache_read io); [|done]. cbn [negb]. by destruct (_ !! _).
Qed.

Lemma remove_leaves id io : leaves (touches_only id) (remove io id).
Proof. intros s. unfold remove. destruct (entry _ _); [apply remove_dir_all_leaves | done]. Qed.

Lemma stage_leaves id io b src : ModuleId_new (lit (m_id (b_manifest b))) = Ok id ->
  leaves (touches_only id) (stage_and_activate io b src).
Proof.
  intros Hid. unfold stage_and_activate. rewrite Hid.
  apply leaves_bind; [apply _ | auto with leaves typeclass_instances | intros current].
  destruct (is_newer _ _); [auto with leaves typeclass_instances|].
  repeat (apply leaves_bind; [apply _ | | intros ?]);
    auto using in_module_leaves, cache_archive_leaves with leaves typeclass_instances.
  intros s. destruct (entry _ _); [apply remove_dir_all_leaves | done].
Qed.

Lemma activate_leaves id io_l io b : ModuleId_new (lit (m_id (b_manifest b))) = Ok id ->
  leaves (touches_only id) (activate_verified_bundle io_l io b).
Proof.
  intros Hid. unfold activate_verified_bundle. rewrite Hid.
  apply leaves_bind; [apply _ | auto with leaves typeclass_instances | intros current].
  apply leaves_bind; [apply _ | destruct (is_newer _ _) | intros _];
    auto using remove_leaves, stage_leaves with leaves typeclass_instances.
Qed.

Lemma stage_refuses io b src s i id :
  ModuleId_new (lit (m_id (b_manifest b))) = Ok id -> read_installed io id s = Ok (Some i) ->
  compare_versions (m_version (im_manifest i)) (m_version (b_manifest b)) = Gt ->
  stage_and_activate io b src s = (Err InvalidState, s).
Proof.
  intros Hid Hr Hc. unfold stage_and_activate, pbind. rewrite Hid, Hr. unfold is_newer.
  by rewrite bool_decide_true.
Qed.
End Frames.

(** ** What a staging writes *)

(** [flatten_module_root] on names in UTF-8, when nothing fails: leftovers
    go, and a single directory is replaced by its children. *)
Definition junk_name (n : list Z) : bool := match from_utf8 n with Some x => is_junk x | None => false end.
Definition without_junk (d : list (list Z * tree)) := filter (λ e, junk_name e.1 = false) d.
Definition flattened (d : list (list Z * tree)) : list (list Z * tree) :=
  match without_junk d with [(_, TDir cs)] => cs | d' => d' end.

Definition utf8_names (d : list (list Z * tree)) : Prop := Forall (λ e, is_Some (from_utf8 e.1)) d.
(** Junk is removed without errors. *)
Definition junk_goes (io : StorageIo) : Prop := forall n, io_junk io n = None.

Lemma without_junk_cons n t d :
  without_junk ((n, t) :: d) = (if junk_name n then [] else [(n, t)]) ++ without_junk d.
Proof. unfold without_junk. rewrite filter_cons. simpl. destruct (junk_name n); by case_decide. Qed.

Lemma collect_entries_ok io es : forall kept d r d',
  junk_goes io -> utf8_names es -> collect_entries io es kept d = (Ok r, d') ->
  r = kept ++ without_junk es /\ d' = filter (λ e, e.1 ∉ filter (λ n, junk_name n = true) es.*1) d.
Proof.
  induction es as [|[n t] es IH]; intros kept d r d' Hj Hu.
  - intros [= <- <-]. rewrite app_nil_r. split; [done|]. symmetry. apply filter_id.
    intros e _. apply not_elem_of_nil.
  - cbn [collect_entries]. apply Forall_cons in Hu as [[x Hx] Hu]. simpl in Hx.
    intros (u & s1 & [_ ->]%guard_io_ok & H)%pbind_ok. rewrite Hx in H.
    rewrite without_junk_cons, fmap_cons, filter_cons. cbn [fst].
    assert (Hn : junk_name n = is_junk x) by (unfold junk_name; by rewrite Hx). rewrite !Hn.
    destruct (is_junk x).
    + rewrite Hj in H. apply IH in H as [-> ->]; [|done..]. rewrite decide_True by done. split; [done|].
      cbn [default put_entry]. unfold remove_entry. rewrite list_filter_filter. apply list_filter_iff.
      intros e. rewrite not_elem_of_cons. tauto.
    + apply IH in H as [-> ->]; [|done..]. rewrite decide_False by done. by rewrite <- app_assoc.
Qed.

Lemma filter_junk_self d : filter (λ e, e.1 ∉ filter (λ n, junk_name n = true) d.*1) d = without_junk d.
Proof.
  unfold without_junk. apply filter_ext_in. intros [n t] He. cbn [fst]. rewrite list_elem_of_filter. split.
  - intros Hn. destruct (junk_name n) eqn:E; [|done]. destruct Hn. split; [done|].
    apply list_elem_of_fmap. by exists (n, t).
  - intros E [E' _]. congruence.
Qed.

(** Directories as a file system has them: at every depth, names are
    distinct, not empty, not [.] or [..], and without [/] and NUL. *)
Definition name_ok (n : list Z) : bool :=
  negb (bool_decide (n = [])) && negb (bool_decide (n = lit ".")) && negb (bool_decide (n = lit ".."))
  && forallb (λ b, negb (b =? 47) && negb (b =? 0)) n.
Fixpoint wf_tree (t : tree) : Prop :=
  match t with
  | TFile _ => True
  | TDir es => NoDup es.*1 /\ forallb name_ok es.*1 = true /\ foldr (λ e P, wf_tree e.2 /\ P) True es
  end.
Definition wf_dir (d : list (list Z * tree)) : Prop := wf_tree (TDir d).

Lemma wf_dir_elem d n t : wf_dir d -> (n, t) ∈ d -> wf_tree t.
Proof.
  intros (_ & _ & Hf). induction d as [|[m u] d IH]; [by intros ?%not_elem_of_nil|].
  destruct Hf as [Hu Hf]. intros [[= -> ->]|]%elem_of_cons; [done|]. by apply IH.
Qed.
Lemma wf_dir_cons n t d : wf_dir ((n, t) :: d) -> (n ∉ d.*1) /\ wf_tree t /\ wf_dir d.
Proof.
  intros ([Hn Hd]%NoDup_cons & [_ Ho]%andb_true_iff & Ht & Hf). by split_and!.
Qed.

Lemma move_children_ok io cs : forall moved u d',
  NoDup (moved.*1 ++ cs.*1) -> FLATTEN ∉ moved.*1 ->
  move_children io cs ((FLATTEN, TDir cs) :: moved) = (Ok u, d') ->
  d' = (FLATTEN, TDir []) :: moved ++ cs /\ FLATTEN ∉ (moved ++ cs).*1.
Proof.
  induction cs as [|[c t] cs IH]; intros moved u d' Hnd Hfl.
  - intros [= <- <-]. by rewrite !app_nil_r.
  - cbn [move_children]. intros (u' & s1 & [_ ->]%guard_io_ok & Hm)%pbind_ok.
    destruct (io_move io c); [|done]. cbn [andb] in Hm. cbn [entry] in Hm.
    destruct (decide (c = FLATTEN)) as [->|Hc]; [by destruct t|].
    rewrite fmap_cons in Hnd. cbn [fst] in Hnd.
    assert (Hcm : c ∉ moved.*1) by (apply NoDup_app in Hnd as (_ & Hd & _); intros Hin; by apply (Hd c Hin); left).
    rewrite (proj2 (entry_None c moved) Hcm) in Hm. cbn [may_replace set_entry] in Hm.
    rewrite decide_True in Hm by done. cbn [set_entry] in Hm. rewrite decide_False in Hm by done.
    rewrite (set_entry_absent c t moved) in Hm by done.
    apply IH in Hm as [-> Hin]; [by rewrite <- app_assoc in * | |].
    + rewrite fmap_app. cbn. by rewrite <- app_assoc.
    + rewrite fmap_app, elem_of_app. cbn. rewrite list_elem_of_singleton. naive_solver.
Qed.

Lemma flatten_ok io d u root : junk_goes io -> utf8_names d -> wf_dir d ->
  flatten_module_root io d = (Ok u, root) -> root = flattened d.
Proof.
  intros Hj Hu Hwf. unfold flatten_module_root.
  intros (u1 & s1 & [_ ->]%guard_io_ok & (es & s2 & Hc & H)%pbind_ok)%pbind_ok.
  apply collect_entries_ok in Hc as [-> ->]; [|done..]. rewrite filter_junk_self in H. simpl in H.
  unfold flattened. destruct (without_junk d) as [|[n t] [|e' es]] eqn:E;
    [by injection H as _ <- | | by injection H as _ <-; destruct t].
  apply pbind_ok in H as (u2 & s2 & [_ ->]%guard_io_ok & H). destruct t as [bs|cs]; [by injection H as _ <-|].
  apply pbind_ok in H as (u3 & s3 & Ha & (u4 & s4 & [_ ->]%guard_io_ok & (u5 & s5 & Hm & H)%pbind_ok)%pbind_ok).
  assert (Hs3 : s3 = [(FLATTEN, TDir cs)]).
  { destruct (io_aside io); [|done]. cbn [andb] in Ha. destruct (_ || _); [|done]. injection Ha as _ <-.
    case_bool_decide; [by subst|]. unfold remove_entry. rewrite filter_cons_False; [done|]. simpl. tauto. }
  subst s3.
  assert (Hin : (n, TDir cs) ∈ d).
  { assert (Hin : (n, TDir cs) ∈ without_junk d) by (rewrite E; by left). by apply list_elem_of_filter in Hin as [_ ?]. }
  destruct (wf_dir_elem _ _ _ Hwf Hin) as [Hnd _].
  apply (move_children_ok io cs []) in Hm as [-> Hf]; [|done|apply not_elem_of_nil].
  destruct (io_inner io); [done|]. injection H as _ <-. simpl in Hf. cbn [app].
  unfold remove_entry. rewrite filter_cons_False by (simpl; tauto). by apply remove_entry_absent.
Qed.

(** ** The metadata files *)

Lemma write_meta_ok out n bs d u d' : write_meta out n bs d = (Ok u, d') ->
  exists meta, entry META d = Some (TDir meta) /\ d' = set_entry META (TDir (set_entry n (TFile bs) meta)) d.
Proof.
  unfold write_meta. destruct (entry META d) as [[|meta]|]; [done| |done]. destruct (_ || _); [done|].
  destruct (entry n meta) as [[|]|], out as [[|]|]; try done; intros [= <- <-]; eauto.
Qed.

(** [d'] is [d] with other metadata, in which the file [n] has content [bs]. *)
Definition with_meta (d d' : list (list Z * tree)) (meta' : list (list Z * tree)) : Prop :=
  entry META d' = Some (TDir meta') /\ remove_entry META d' = remove_entry META d.

Lemma write_meta_step out n bs d meta d1 u d2 :
  with_meta d d1 meta -> write_meta out n bs d1 = (Ok u, d2) -> with_meta d d2 (set_entry n (TFile bs) meta).
Proof.
  intros [He Hr] (meta' & He' & ->)%write_meta_ok. rewrite He in He'. injection He' as <-.
  split; [apply entry_set|]. by rewrite remove_set_entry.
Qed.

Lemma create_meta_dir_ok io d u d' : create_meta_dir io d = (Ok u, d') -> exists meta, with_meta d d' meta.
Proof.
  unfold create_meta_dir. destruct (io_meta_dir io); [|done]. cbn [negb].
  destruct (entry META d) as [[|meta]|] eqn:E; [done| |]; intros [= _ <-].
  - by exists meta.
  - exists []. split; [apply entry_set|]. apply remove_set_entry.
Qed.

Lemma lift_json_ok {St R} (o : option R) (s s' : St) r : lift_json o s = (Ok r, s') -> o = Some r /\ s' = s.
Proof. destruct o; [by intros [= <- <-]|done]. Qed.

Section Written.
Context {S : Semver} {A : ModuleArchive} {J : StorageJson}.

(** The files of the metadata directory after a staging, in the order in
    which they were written. *)
Definition meta_files (b : ModuleBundle) (archive mbytes sbytes : list Z) (meta : list (list Z * tree)) :=
  let m := b_manifest b in
  set_entry (meta_name m FInstall) (TFile sbytes)
    (set_entry (meta_name m FDownload) (TFile (utf8 (download_url (m_artifact m))))
      (set_entry (meta_name m FChecksum) (TFile (b_checksum b))
        (set_entry (meta_name m FSignature) (TFile (b_signature b))
          (set_entry (meta_name m FArtifact) (TFile archive)
            (set_entry (meta_name m FManifest) (TFile mbytes) meta))))).

Lemma write_module_ok io b src archive d0 u md : write_module io b src archive d0 = (Ok u, md) ->
  exists d root mbytes sbytes meta,
    untar archive = (Ok tt, d) /\ flatten_module_root io d = (Ok tt, root)
    /\ manifest_to_json (b_manifest b) = Some mbytes /\ source_to_json src = Some sbytes
    /\ with_meta root md (meta_files b archive mbytes sbytes meta).
Proof.
  unfold write_module, extract_module_archive, persist_install_metadata.
  intros ([] & root & (x & d & Hd & Hf)%pbind_ok & H)%pbind_ok.
  destruct (io_unpack io); [done|]. destruct (untar archive) as [[[]|] d'] eqn:Eu; [|done]. injection Hd as _ ->.
  apply pbind_ok in H as (? & d1 & (meta & Hc)%create_meta_dir_ok & H).
  apply pbind_ok in H as (mbytes & ? & [Hm ->]%lift_json_ok & H).
  do 5 (apply pbind_ok in H as (? & ? & ?Hw & H)).
  apply pbind_ok in H as (sbytes & ? & [Hs ->]%lift_json_ok & H).
  exists d, root, mbytes, sbytes, meta. split_and!; try done.
  repeat (eapply write_meta_step; [|eassumption]). done.
Qed.

(** The bytes that are unpacked: the cached ones when they can be read. *)
Definition staged_bytes (io : StorageIo) (b : ModuleBundle) (s : Storage) : list Z :=
  match s_cache s with
  | Some files => if io_cache_read io then default (b_archive b) (files !! cache_name b) else b_archive b
  | None => b_archive b
  end.

Lemma cache_archive_ok io b s r s' : cache_archive_bytes io b s = (Ok r, s') ->
  r = staged_bytes io b s /\ s_modules s' = s_modules s.
Proof.
  unfold cache_archive_bytes, staged_bytes. destruct (s_cache s) as [files|]; [|by intros [= <- <-]].
  destruct (io_cache_read io); cbn [negb]; [|by intros [= <- <-]].
  destruct (files !! _) eqn:E; intros [= <- <-]; by rewrite ?E.
Qed.

Lemma stage_ok io b src s r s' : stage_and_activate io b src s = (Ok r, s') ->
  exists id md, ModuleId_new (lit (m_id (b_manifest b))) = Ok id
    /\ entry (id_text id) (s_modules s') = Some (TDir md)
    /\ write_module io b src (staged_bytes io b s) [] = (Ok tt, md).
Proof.
  unfold stage_and_activate. destruct (ModuleId_new _) as [id|e]; [|done].
  intros (current & s1 & Hc & H)%pbind_ok. injection Hc as Hc <-.
  destruct (is_newer _ _); [done|].
  apply pbind_ok in H as (u & s2 & Hrm & H). apply pbind_ok in H as (? & ? & [_ ->]%guard_io_ok & H).
  apply pbind_ok in H as (? & s3 & H3 & H). apply pbind_ok in H as (bytes & s4 & [-> H4]%cache_archive_ok & H).
  apply pbind_ok in H as ([] & s5 & H5 & H). injection H as _ <-.
  assert (H2 : entry (id_text id) (s_modules s2) = None /\ s_cache s2 = s_cache s).
  { destruct (entry _ (s_modules s)) as [t|] eqn:E; [|by injection Hrm as _ <-].
    unfold remove_dir_all in Hrm. rewrite E in Hrm. destruct t, (io_clean io); try done.
    injection Hrm as _ <-. split; [apply entry_remove|done]. }
  destruct H2 as [H2 H2c].
  unfold in_module in H3. rewrite H2 in H3. injection H3 as _ <-.
  unfold in_module in H5. rewrite H4 in H5. cbn [s_modules] in H5. rewrite entry_set in H5.
  exists id. destruct (write_module _ _ _ _ _) as [o md] eqn:Ew. injection H5 as -> <-. exists md.
  split_and!; [done|cbn; by rewrite entry_set|]. unfold staged_bytes in *. cbn [s_cache snd pret] in *. by rewrite H2c in Ew.
Qed.
End Written.

(** ** What the host sees *)

Section View.
Context {S : Semver} {A : ModuleArchive} {J : StorageJson}.

(** An installed module: its manifest, and its files without metadata. *)
Definition installed_view (id : ModuleId) (s : Storage) : option (ModuleManifest * list (list Z * tree)) :=
  match load io_ok id s, entry (id_text id) (s_modules s) with
  | Ok (Some i), Some (TDir d) => Some (im_manifest i, remove_entry META d)
  | _, _ => None
  end.

(** The cache holds no other bytes under the checksum of the bundle. *)
Definition cache_agrees (s : Storage) (b : ModuleBundle) : Prop :=
  match s_cache s with
  | Some files => forall bs, files !! cache_name b = Some bs -> bs = b_archive b
  | None => True
  end.

Lemma staged_bytes_agree io b s : cache_agrees s b -> staged_bytes io b s = b_archive b.
Proof.
  unfold cache_agrees, staged_bytes. destruct (s_cache s) as [files|]; [|done]. destruct (io_cache_read io); [|done].
  destruct (files !! _) eqn:E; [|done]. intros H. simpl. by apply H.
Qed.

Lemma read_path_entry n p d d' : entry n d' = entry n d -> read_path (n :: p) d' = read_path (n :: p) d.
Proof. intros He. cbn [read_path]. by rewrite He. Qed.

Lemma view_frame id id' s s' : touches_only id s s' -> id' <> id -> installed_view id' s' = installed_view id' s.
Proof.
  intros [Hr Ht] Hne. assert (Hn : id_text id' <> id_text id) by (intros E; apply Hne; destruct id, id'; simpl in E; by subst).
  unfold installed_view, load, read_installed, read_install_source, module_dir. rewrite Hr, (Ht _ Hn).
  cbn [io_manifest_read io_meta_read io_ok]. by rewrite !(read_path_entry _ _ _ _ (Ht _ Hn)).
Qed.

Lemma remove_cache io id s : s_cache (remove io id s).2 = s_cache s.
Proof. unfold remove, remove_dir_all. by destruct (entry _ _) as [[]|], (io_remove io). Qed.

Lemma stage_view {L : StorageJsonLaws J} io b src s r s' d :
  stage_and_activate io b src s = (Ok r, s') -> cache_agrees s b ->
  utf8 (artifact_file_name (b_manifest b)) <> lit "manifest.json" -> junk_goes io ->
  untar (b_archive b) = (Ok tt, d) -> utf8_names d -> wf_dir d ->
  exists id, ModuleId_new (lit (m_id (b_manifest b))) = Ok id
    /\ installed_view id s' = Some (b_manifest b, remove_entry META (flattened d))
    /\ read_installed io_ok id s' = Ok (Some (mkInstalledModule (b_manifest b) (module_dir s' id) src)).
Proof.
  intros (id & md & Hid & He & Hw)%stage_ok Hc Hn Hj Ha Hu Hwf.
  rewrite (staged_bytes_agree _ _ _ Hc) in Hw.
  apply write_module_ok in Hw as (d' & root & mbytes & sbytes & meta & Ha' & Hf & Hm & Hs & Hmeta & Hrest).
  rewrite Ha in Ha'. injection Ha' as <-. rewrite (flatten_ok _ _ _ _ Hj Hu Hwf Hf) in Hrest.
  assert (Hread : read_installed io_ok id s' = Ok (Some (mkInstalledModule (b_manifest b) (module_dir s' id) src))).
  { unfold read_installed, read_install_source. cbn [io_manifest_read io_meta_read io_ok read_path].
    rewrite He, Hmeta. unfold meta_files. cbn [meta_name]. rewrite entry_set.
    rewrite (entry_set_ne (lit "manifest.json") (lit "install.json")) by (by vm_compute).
    rewrite (entry_set_ne (lit "manifest.json") (lit "download")) by (by vm_compute).
    rewrite (entry_set_ne (lit "manifest.json") (lit "checksum.bin")) by (by vm_compute).
    rewrite (entry_set_ne (lit "manifest.json") (lit "signature.bin")) by (by vm_compute).
    rewrite entry_set_ne by congruence. rewrite entry_set.
    by rewrite (manifest_roundtrip _ _ Hm), (source_roundtrip _ _ Hs). }
  exists id. split_and!; [done| |done]. unfold installed_view, load. by rewrite Hread, He, Hrest.
Qed.

(** C14: the storage keeps the promise on which the depot relies
    ([ModuleHost::activate]): a verified bundle that is activated, also one
    of a lower version, is afterwards installed with its own manifest and
    with exactly the files of its archive (a single top directory and macOS
    leftovers removed), and no other module changes.  This needs that the
    cache holds no other bytes under the bundle's checksum and that the
    archive is not stored as [manifest.json]. *)
Theorem activation_installs_bundle {L : StorageJsonLaws J} io_l io b s r s' d
  (Hrun : activate_verified_bundle io_l io b s = (Ok r, s')) (Hcache : cache_agrees s b)
  (Hname : utf8 (artifact_file_name (b_manifest b)) <> lit "manifest.json") (Hjunk : junk_goes io)
  (Harch : untar (b_archive b) = (Ok tt, d)) (Hu : utf8_names d) (Hwf : wf_dir d) :
  exists id, ModuleId_new (lit (m_id (b_manifest b))) = Ok id
    /\ installed_view id s' = Some (b_manifest b, remove_entry META (flattened d))
    /\ forall id', id' <> id -> installed_view id' s' = installed_view id' s.
Proof.
  pose proof Hrun as Hrun'. unfold activate_verified_bundle in Hrun.
  destruct (ModuleId_new _) as [id|e] eqn:Hid; [|done].
  apply pbind_ok in Hrun as (current & s1 & [= _ <-] & (u & s2 & Hrm & Hst)%pbind_ok).
  assert (Hc2 : s_cache s2 = s_cache s).
  { destruct (is_newer _ _); [|by injection Hrm as _ <-]. rewrite <- (remove_cache io_l id s). by rewrite Hrm. }
  destruct (stage_view _ _ _ _ _ _ d Hst) as (id' & Hid' & Hv & _); try done.
  { unfold cache_agrees in *. by rewrite Hc2. }
  rewrite Hid in Hid'. injection Hid' as <-. exists id. split_and!; [done..|]. intros id' Hne.
  apply (view_frame id); [|done]. pose proof (activate_leaves id io_l io b Hid s) as Hl. by rewrite Hrun' in Hl.
Qed.

(** whatever goes wrong on the way, activating a bundle and removing a
    module leave every other module installed as it was; and staging a
    bundle whose version is lower than the installed one is refused before
    anything is touched. *)
Theorem storage_changes_one_module io_l io b src id (s : Storage)
  (Hid : ModuleId_new (lit (m_id (b_manifest b))) = Ok id) :
  (forall id', id' <> id ->
     installed_view id' (stage_and_activate io b src s).2 = installed_view id' s
     /\ installed_view id' (activate_verified_bundle io_l io b s).2 = installed_view id' s
     /\ installed_view id' (remove io id s).2 = installed_view id' s)
  /\ (forall i, read_installed io id s = Ok (Some i) ->
       compare_versions (m_version (im_manifest i)) (m_version (b_manifest b)) = Gt ->
       stage_and_activate io b src s = (Err InvalidState, s))
  /\ (forall s', remove io id s = (Ok tt, s') -> read_installed io_ok id s' = Ok None).
Proof.
  split_and!.
  - intros id' Hne. split_and!; apply (view_frame id); try done;
      [by apply stage_leaves | by apply activate_leaves | by apply remove_leaves].
  - intros i Hr Hc. by eapply stage_refuses.
  - intros s' Hr. unfold remove, remove_dir_all in Hr. unfold read_installed. cbn [io_manifest_read io_ok read_path].
    assert (Hn : entry (id_text id) (s_modules s') = None); [|by rewrite Hn].
    destruct (entry (id_text id) (s_modules s)) as [[]|] eqn:E; [done| |by injection Hr as <-].
    destruct (io_remove io); [done|]. injection Hr as <-. apply entry_remove.
Qed.
End View.

(** ** Backups *)

(** What the tar crate promises.  [unpacked ms d] is the directory [d] after
    [Archive::unpack] has put the members [ms] there, one after the other: a
    file or a directory with a new name appears, and a member below a
    directory goes into that directory.  Unpacking what the builder wrote
    unpacks its members. *)
Class TarLaws (A : ModuleArchive) (T : TarBuilder) := {
  unpacked : list (list (list Z) * option (list Z)) -> list (list Z * tree) -> list (list Z * tree);
  unpacked_nil d : unpacked [] d = d;
  unpacked_cons m ms d : unpacked (m :: ms) d = unpacked ms (unpacked [m] d);
  unpacked_file n bs d : n ∉ d.*1 -> unpacked [([n], Some bs)] d = d ++ [(n, TFile bs)];
  unpacked_dir n d : n ∉ d.*1 -> unpacked [([n], None)] d = d ++ [(n, TDir [])];
  unpacked_below n p v d es : n ∉ d.*1 -> p <> [] ->
    unpacked [(n :: p, v)] (d ++ [(n, TDir es)]) = d ++ [(n, TDir (unpacked [(p, v)] es))];
  tar_roundtrip d bs : wf_dir d -> tar_gz (append_directory_filtered [] d) = Some bs ->
    untar bs = (Ok tt, unpacked (append_directory_filtered [] d) []);
}.

(** The files of a directory that are packed. *)
Fixpoint packed_tree (t : tree) : tree :=
  match t with
  | TFile bs => TFile bs
  | TDir es => TDir (flat_map (λ '(n, t), if skipped n then [] else [(n, packed_tree t)]) es)
  end.
Definition packed (d : list (list Z * tree)) : list (list Z * tree) :=
  flat_map (λ '(n, t), if skipped n then [] else [(n, packed_tree t)]) d.

Lemma packed_cons n t d : packed ((n, t) :: d) = (if skipped n then [] else [(n, packed_tree t)]) ++ packed d.
Proof. done. Qed.
Lemma append_cons rel n t d : append_directory_filtered rel ((n, t) :: d)
  = (if skipped n then [] else append_entry (rel ++ [n]) t) ++ append_directory_filtered rel d.
Proof. done. Qed.

(** Induction on trees, with the hypothesis for every entry. *)
Lemma tree_rect' (P : tree -> Prop) (Hf : forall bs, P (TFile bs))
  (Hd : forall es, Forall (λ e, P e.2) es -> P (TDir es)) t : P t.
Proof.
  revert t. fix IH 1. intros [bs|es]; [apply Hf|]. apply Hd.
  induction es as [|[n t] es IHes]; constructor; [apply IH | exact IHes].
Qed.

Definition below (rel : list (list Z)) (m : list (list Z) * option (list Z)) := (rel ++ m.1, m.2).

Lemma append_entry_below t : forall rel rel', append_entry (rel ++ rel') t = below rel <$> append_entry rel' t.
Proof.
  induction t as [bs|es IH] using tree_rect'; intros rel rel'; [done|]. cbn [append_entry]. rewrite fmap_cons. f_equal.
  induction IH as [|[n t] es Ht _ IHes]; [done|]. cbn [flat_map]. rewrite IHes, fmap_app. f_equal.
  destruct (skipped n); [done|]. rewrite <- app_assoc. apply Ht.
Qed.

Lemma append_nonempty t : forall rel, rel <> [] -> Forall (λ m, m.1 <> []) (append_entry rel t).
Proof.
  induction t as [bs|es IH] using tree_rect'; intros rel Hrel; repeat constructor; try done.
  induction IH as [|[n t] es Ht _ IHes]; [constructor|]. cbn [flat_map]. apply Forall_app. split; [|done].
  destruct (skipped n); [constructor|]. apply Ht. by destruct rel.
Qed.

Lemma append_dir_nonempty es : Forall (λ m, m.1 <> []) (append_directory_filtered [] es).
Proof.
  induction es as [|[m t] es IH]; [constructor|]. rewrite append_cons. apply Forall_app. split; [|done].
  destruct (skipped m); [constructor|]. by apply append_nonempty.
Qed.

Lemma append_dir_below n es :
  append_entry [n] (TDir es) = ([n], None) :: (below [n] <$> append_directory_filtered [] es).
Proof.
  cbn [append_entry]. f_equal. induction es as [|[m t] es IH]; [done|].
  cbn [flat_map]. rewrite append_cons, IH, fmap_app. f_equal. destruct (skipped m); [done|]. apply append_entry_below.
Qed.

Section Unpacking.
Context {A : ModuleArchive} {T : TarBuilder} {L : TarLaws A T}.

Lemma unpacked_app ms ms' d : unpacked (ms ++ ms') d = unpacked ms' (unpacked ms d).
Proof.
  revert d. induction ms as [|m ms IH]; intros d; [by rewrite unpacked_nil|]. cbn [app].
  by rewrite unpacked_cons, IH, (unpacked_cons m ms).
Qed.

(** Members below an entry that is a directory only change that entry. *)
Lemma unpacked_all_below n ms : forall d es, n ∉ d.*1 -> Forall (λ m, m.1 <> []) ms ->
  unpacked (below [n] <$> ms) (d ++ [(n, TDir es)]) = d ++ [(n, TDir (unpacked ms es))].
Proof.
  induction ms as [|[p v] ms IH]; intros d es Hn Hne; [by rewrite fmap_nil, !unpacked_nil|].
  apply Forall_cons in Hne as [Hp Hne]. rewrite fmap_cons, unpacked_cons. unfold below at 2. cbn [fst snd app] in *.
  rewrite unpacked_below by done. rewrite IH by done. by rewrite (unpacked_cons (p, v) ms).
Qed.

(** The members of [t] put below [n] make its packed files. *)
Definition places (t : tree) : Prop := forall n d, wf_tree t -> n ∉ d.*1 ->
  unpacked (append_entry [n] t) d = d ++ [(n, packed_tree t)].

Lemma unpacked_append_dir es : Forall (λ e, places e.2) es -> forall acc, wf_dir es ->
  (forall e, e ∈ es.*1 -> e ∉ acc.*1) -> unpacked (append_directory_filtered [] es) acc = acc ++ packed es.
Proof.
  induction 1 as [|[m t] es Ht _ IH]; intros acc Hwf Hacc; [by rewrite app_nil_r, unpacked_nil|].
  apply wf_dir_cons in Hwf as (Hm & Hwt & Hwf). rewrite append_cons, packed_cons, unpacked_app.
  destruct (skipped m); [rewrite unpacked_nil; apply IH; [done|]; intros e He; apply Hacc; by right|].
  cbn [app]. cbn [snd] in Ht. rewrite Ht; [|done|apply Hacc; by left]. rewrite IH; [by rewrite <- app_assoc|done|].
  intros e He. rewrite fmap_app, elem_of_app. cbn. rewrite list_elem_of_singleton.
  intros [Hin| ->]; [|done]. by apply (Hacc e); [right|].
Qed.

Lemma unpacked_append_entry t : places t.
Proof.
  induction t as [bs|es IH] using tree_rect'; intros n d Hwf Hn.
  - by apply unpacked_file.
  - rewrite append_dir_below, unpacked_cons, unpacked_dir by done.
    rewrite (unpacked_all_below n (append_directory_filtered [] es) d []) by auto using append_dir_nonempty.
    rewrite (unpacked_append_dir es IH []); [done|done|]. intros e _. apply not_elem_of_nil.
Qed.

Lemma unpack_packed d bs :
  wf_dir d -> tar_gz (append_directory_filtered [] d) = Some bs -> untar bs = (Ok tt, packed d).
Proof.
  intros Hwf Ht. rewrite (tar_roundtrip d bs Hwf Ht), unpacked_append_dir; [done| |done|].
  - apply Forall_forall. intros e _. apply unpacked_append_entry.
  - intros e _. apply not_elem_of_nil.
Qed.
End Unpacking.

Lemma packed_names d : (packed d).*1 = filter (λ n, skipped n = false) d.*1.
Proof.
  induction d as [|[n t] d IH]; [done|]. rewrite packed_cons, fmap_app, fmap_cons, filter_cons, IH. cbn [fst].
  destruct (skipped n); by case_decide.
Qed.

Lemma packed_utf8 d : utf8_names d -> utf8_names (packed d).
Proof.
  induction 1 as [|[n t] d Hn _ IH]; [constructor|]. unfold utf8_names. rewrite packed_cons. apply Forall_app.
  split; [|done]. destruct (skipped n); repeat constructor. done.
Qed.

Lemma forallb_filter {X} (f : X -> bool) (P : X -> Prop) `{!forall x, Decision (P x)} (l : list X) :
  forallb f l = true -> forallb f (filter P l) = true.
Proof.
  rewrite !forallb_forall. intros Hf x Hx. apply Hf. apply list_elem_of_In.
  by apply list_elem_of_In, list_elem_of_filter in Hx as [_ ?].
Qed.

Lemma packed_wf t : wf_tree t -> wf_tree (packed_tree t).
Proof.
  induction t as [bs|es IH] using tree_rect'; [done|]. intros (Hnd & Hok & Hf). cbn [packed_tree]. fold (packed es).
  cbn [wf_tree]. rewrite packed_names. split_and!; [by apply NoDup_filter | by apply forallb_filter |].
  clear Hnd Hok. induction IH as [|[n t] es Ht _ IHes]; [done|]. destruct Hf as [Hw Hf].
  rewrite packed_cons. destruct (skipped n); [by apply IHes|]. split; [by apply Ht | by apply IHes].
Qed.
Lemma packed_wf_dir d : wf_dir d -> wf_dir (packed d).
Proof. apply (packed_wf (TDir d)). Qed.

Lemma skipped_meta : skipped META = true.
Proof. reflexivity. Qed.
Lemma packed_no_meta d : remove_entry META (packed d) = packed d.
Proof.
  apply remove_entry_absent. rewrite packed_names, list_elem_of_filter, skipped_meta. by intros [? _].
Qed.

(** The size of a tree, to tell a directory from its content. *)
Fixpoint tree_size (t : tree) : nat :=
  match t with TFile _ => 1 | TDir es => Datatypes.S (foldr (λ e k, tree_size e.2 + k) 0 es)%nat end.
Lemma tree_size_elem n t es : (n, t) ∈ es -> (tree_size t < tree_size (TDir es))%nat.
Proof.
  induction es as [|[m u] es IH]; [by intros ?%not_elem_of_nil|]. cbn. intros [[= -> ->]|He]%elem_of_cons; [lia|].
  specialize (IH He). cbn in IH. lia.
Qed.
Lemma not_own_entry n cs : (n, TDir cs) ∉ cs.
Proof. intros H%tree_size_elem. lia. Qed.

Section Backup.
Context {S : Semver} {A : ModuleArchive} {J : StorageJson} {T : TarBuilder}.

Lemma package_ok io id s man archive :
  package_installed_module io id s = Ok (Some (man, archive)) ->
  exists md, entry (id_text id) (s_modules s) = Some (TDir md)
    /\ tar_gz (append_directory_filtered [] md) = Some archive.
Proof.
  unfold package_installed_module. intros ([i|] & _ & H)%result_bind_ok_inv; [|done].
  apply result_bind_ok_inv in H as (bs & Hp & [= _ <-]). unfold package_module_directory in Hp.
  destruct (entry _ _) as [[|md]|]; [done| |done]. exists md. split; [done|].
  destruct (tar_gz _); [|done]. by injection Hp as <-.
Qed.

Context {LJ : StorageJsonLaws J} {LT : TarLaws A T}.

(** A backup of a module that is activated again. *)
Lemma restored_view io io_l io' id s man archive md b s1 r s2 :
  package_installed_module io id s = Ok (Some (man, archive)) ->
  entry (id_text id) (s_modules s) = Some (TDir md) -> wf_dir md -> utf8_names md ->
  b_manifest b = man -> b_archive b = archive -> ModuleId_new (lit (m_id man)) = Ok id ->
  activate_verified_bundle io_l io' b s1 = (Ok r, s2) -> cache_agrees s1 b ->
  utf8 (artifact_file_name man) <> lit "manifest.json" -> junk_goes io' ->
  installed_view id s2 = Some (man, remove_entry META (flattened (packed md))).
Proof.
  intros (md' & He' & Ht)%package_ok He Hwf Hu <- <- Hid Hrun Hc Hn Hj.
  rewrite He in He'. injection He' as <-.
  pose proof Hrun as Hrun'. unfold activate_verified_bundle in Hrun. rewrite Hid in Hrun.
  apply pbind_ok in Hrun as (current & s3 & [= _ <-] & (u & s4 & Hrm & Hst)%pbind_ok).
  assert (Hc4 : s_cache s4 = s_cache s1).
  { destruct (is_newer _ _); [|by injection Hrm as _ <-]. rewrite <- (remove_cache io_l id s1). by rewrite Hrm. }
  destruct (stage_view _ _ _ _ _ _ (packed md) Hst) as (id' & Hid' & Hv & _); try done.
  - unfold cache_agrees in *. by rewrite Hc4.
  - by apply unpack_packed.
  - by apply packed_utf8.
  - by apply packed_wf_dir.
  - congruence.
Qed.

(** a backup that the depot makes of an installed module and activates
    again on a rollback brings back the manifest and exactly the files that
    were packed, when the module's files are neither a single directory nor
    hold macOS leftovers at the top. *)
Theorem backup_restores_module io io_l io' id s man archive md b s1 r s2
  (Hpack : package_installed_module io id s = Ok (Some (man, archive)))
  (Hdir : entry (id_text id) (s_modules s) = Some (TDir md)) (Hwf : wf_dir md) (Hu : utf8_names md)
  (Hman : b_manifest b = man) (Harch : b_archive b = archive) (Hid : ModuleId_new (lit (m_id man)) = Ok id)
  (Hrun : activate_verified_bundle io_l io' b s1 = (Ok r, s2)) (Hcache : cache_agrees s1 b)
  (Hname : utf8 (artifact_file_name man) <> lit "manifest.json") (Hjunk : junk_goes io')
  (Hmany : forall n cs, packed md <> [(n, TDir cs)])
  (Hclean : forall n t, (n, t) ∈ packed md -> junk_name n = false) :
  installed_view id s2 = Some (man, packed md).
Proof.
  rewrite (restored_view io io_l io' id s man archive md b s1 r s2) by done.
  assert (Hj : without_junk (packed md) = packed md) by (apply filter_id; intros [n t] Hin; by eapply Hclean).
  assert (Hfl : flattened (packed md) = packed md).
  { unfold flattened. rewrite Hj. destruct (packed md) as [|[n [bs|cs]] [|e es]] eqn:E; try done. by destruct (Hmany n cs). }
  by rewrite Hfl, packed_no_meta.
Qed.

(** when the files of an installed module are a single directory (which
    happens when its archive nested two), the backup does not bring them
    back: the archive leaves out [.fenrir-meta], so the directory is alone at
    its top and staging removes it once more; its content ends up one level
    higher. *)
Theorem backup_loses_single_directory io io_l io' id s man archive md b s1 r s2 n cs
  (Hpack : package_installed_module io id s = Ok (Some (man, archive)))
  (Hdir : entry (id_text id) (s_modules s) = Some (TDir md)) (Hwf : wf_dir md) (Hu : utf8_names md)
  (Hman : b_manifest b = man) (Harch : b_archive b = archive) (Hid : ModuleId_new (lit (m_id man)) = Ok id)
  (Hrun : activate_verified_bundle io_l io' b s1 = (Ok r, s2)) (Hcache : cache_agrees s1 b)
  (Hname : utf8 (artifact_file_name man) <> lit "manifest.json") (Hjunk : junk_goes io')
  (Hone : packed md = [(n, TDir cs)]) (Hclean : junk_name n = false) :
  installed_view id s2 = Some (man, remove_entry META cs)
  /\ remove_entry META cs <> packed md.
Proof.
  rewrite (restored_view io io_l io' id s man archive md b s1 r s2) by done. split.
  - unfold flattened. rewrite Hone, without_junk_cons, Hclean. done.
  - rewrite Hone. intros H. apply (not_own_entry n cs).
    assert (Hin : (n, TDir cs) ∈ remove_entry META cs) by (rewrite H; by left).
    by apply list_elem_of_filter in Hin as [_ ?].
Qed.
End Backup.

(** ** The registry path *)

Section Install.
Context {S : Semver} {A : ModuleArchive} {J : StorageJson} {C : VerifierCrypto}.

(** what [install_module] leaves installed was verified: the files are
    those of an archive with the stated checksum, from an allowed signer,
    and with a valid signature unless it has none; a bundle that is refused
    changes nothing. *)
Theorem installed_module_was_verified {L : StorageJsonLaws J} v fetch download io (s s' : Storage) r
  (Hrun : install_module v fetch download io s = (r, s'))
  (Hcache : forall b, cache_agrees s b)
  (Hname : forall m b, download m = Some b -> utf8 (artifact_file_name (b_manifest b)) <> lit "manifest.json")
  (Hjunk : junk_goes io) (Harch : forall bs r d, untar bs = (r, d) -> utf8_names d /\ wf_dir d) :
  match r with
  | Err (StorageError _) => True
  | Err _ => s' = s
  | Ok _ => exists m b id d, fetch = Some m /\ download m = Some b
      /\ ModuleId_new (lit (m_id (b_manifest b))) = Ok id /\ untar (b_archive b) = (Ok tt, d)
      /\ installed_view id s' = Some (b_manifest b, remove_entry META (flattened d))
      /\ sha256_of (b_archive b) = b_checksum b /\ signer_allowed v b
      /\ (b_signature b = [] \/ exists k, v_keys v !! signer_of b = Some k /\ signature_valid k b)
  end.
Proof.
  unfold install_module in Hrun. destruct fetch as [m|]; [|by simplify_eq].
  destruct (download m) as [b|] eqn:Ed; [|by simplify_eq].
  destruct (verify v b) as [[]|e] eqn:Ev; [|by simplify_eq].
  destruct (stage_and_activate io b Distribution s) as [[x|e] s1] eqn:Es; simplify_eq/=; [|done].
  assert (exists d, untar (b_archive b) = (Ok tt, d)) as [d Hd].
  { destruct (stage_ok _ _ _ _ _ _ Es) as (id & md & _ & _ & Hw). rewrite (staged_bytes_agree io b s) in Hw by done.
    apply write_module_ok in Hw as (d & _ & _ & _ & _ & Hd & _). by exists d. }
  destruct (Harch _ _ _ Hd) as [Hu Hwf].
  destruct (stage_view _ _ _ _ _ _ d Es) as (id & Hid & Hv & _); [done|by eapply Hname|done..|].
  apply verify_spec in Ev as (Hsum & Hall & Hsig). exists m, b, id, d. split_and!; try done.
  destruct (b_signature b), (v_keys v !! signer_of b); naive_solver.
Qed.

(** ** Two ways to lose a module *)

Lemma stage_cache io b src s r s' : stage_and_activate io b src s = (Ok r, s') ->
  s_cache s' = s_cache (cache_archive_bytes io b s).2.
Proof.
  unfold stage_and_activate. destruct (ModuleId_new _) as [id|e]; [|done].
  intros (current & s1 & Hc & H)%pbind_ok. injection Hc as Hc <-. destruct (is_newer _ _); [done|].
  apply pbind_ok in H as (u & s2 & Hrm & H). apply pbind_ok in H as (? & ? & [_ ->]%guard_io_ok & H).
  apply pbind_ok in H as (? & s3 & [= _ <-] & H). apply pbind_ok in H as (bytes & s4 & H4 & H).
  apply pbind_ok in H as ([] & s5 & [= _ <-] & H). injection H as _ <-. cbn [s_cache].
  assert (H2 : s_cache s2 = s_cache s).
  { destruct (entry _ (s_modules s)) as [t|] eqn:E; [|by injection Hrm as _ <-].
    unfold remove_dir_all in Hrm. rewrite E in Hrm. destruct t, (io_clean io); try done. by injection Hrm as _ <-. }
  unfold cache_archive_bytes in *. cbn [s_cache] in H4. rewrite H2 in H4.
  destruct (s_cache s) as [files|] eqn:E; [|by injection H4 as _ <-].
  destruct (io_cache_read io); cbn [negb] in *; [|by injection H4 as _ <-].
  destruct (files !! _); by injection H4 as _ <-.
Qed.

(** A staging that fails while it unpacks. *)
Lemma stage_unpack_fails b src s id i files remains part :
  ModuleId_new (lit (m_id (b_manifest b))) = Ok id -> read_installed io_ok id s = Ok (Some i) ->
  compare_versions (m_version (im_manifest i)) (m_version (b_manifest b)) <> Gt ->
  s_cache s = Some files -> files !! cache_name b = Some remains -> untar remains = (Err tt, part) ->
  exists s', stage_and_activate io_ok b src s = (Err StIo, s')
    /\ entry (id_text id) (s_modules s') = Some (TDir part).
Proof.
  intros Hid Hr Hc Hf Hl Hu. unfold stage_and_activate. rewrite Hid. unfold pbind at 1. rewrite Hr.
  unfold is_newer. rewrite bool_decide_false by done.
  assert (Hdir : exists md, entry (id_text id) (s_modules s) = Some (TDir md)).
  { unfold read_installed in Hr. cbn [io_manifest_read io_ok read_path] in Hr.
    destruct (entry (id_text id) (s_modules s)) as [[|md]|]; try done. by exists md. }
  destruct Hdir as [md Hmd]. unfold pbind, guard_io, pret. rewrite Hmd. unfold remove_dir_all. rewrite Hmd.
  cbn [io_ok io_clean io_create in_module]. unfold in_module, cache_archive_bytes. cbn [s_cache s_root s_modules fst snd io_cache_read negb].
  rewrite Hf, Hl. unfold write_module, extract_module_archive, pbind. cbn [io_cache_read negb io_unpack io_ok s_modules s_cache s_root]. rewrite Hu. cbn [fst snd].
  eexists. split; [done|]. cbn [s_modules]. apply entry_set.
Qed.

(** when writing an archive to the cache fails half way, the staging
    only warns and succeeds, but the truncated file stays under the checksum;
    installing the same bundle again then removes the working module and
    fails, since the cached bytes are unpacked without being checked. *)
Theorem truncated_cache_loses_module {L : StorageJsonLaws J} {LS : SemverLaws S}
  io b src s files remains part d r s1
  (Hrun : stage_and_activate io b src s = (Ok r, s1))
  (Hs : s_cache s = Some files) (Hread : io_cache_read io = true) (Hfree : files !! cache_name b = None)
  (Htrunc : io_cache_write io = Some (Some remains)) (Hbad : untar remains = (Err tt, part))
  (Hpart : entry META part = None)
  (Hname : utf8 (artifact_file_name (b_manifest b)) <> lit "manifest.json") (Hjunk : junk_goes io)
  (Harch : untar (b_archive b) = (Ok tt, d)) (Hu : utf8_names d) (Hwf : wf_dir d) :
  exists id s2, installed_view id s1 = Some (b_manifest b, remove_entry META (flattened d))
    /\ stage_and_activate io_ok b src s1 = (Err StIo, s2) /\ installed_view id s2 = None.
Proof.
  assert (Hagree : cache_agrees s b) by (unfold cache_agrees; rewrite Hs, Hfree; done).
  destruct (stage_view _ _ _ _ _ _ d Hrun) as (id & Hid & Hv & Hi); try done.
  pose proof (stage_cache _ _ _ _ _ _ Hrun) as Hc. unfold cache_archive_bytes in Hc.
  rewrite Hs, Hread, Hfree, Htrunc in Hc. cbn in Hc.
  destruct (stage_unpack_fails b src s1 id _ (<[cache_name b := remains]> files) remains part Hid Hi) as (s2 & H2 & He).
  - cbn. unfold compare_versions, release_order, core_cmp. rewrite !Z.compare_refl. cbn [then_with].
    assert (Hp : forall x, pre_cmp x x = Eq) by (intros x; by apply (cmp_eq _ pre_cmp_laws)).
    assert (Hb : forall x, build_cmp x x = Eq) by (intros x; by apply (cmp_eq _ build_cmp_laws)).
    destruct (build_number _); rewrite ?Z.compare_refl, ?Hp; cbn [then_with]; by rewrite Hb.
  - exact Hc.
  - apply lookup_insert_eq.
  - done.
  - exists id, s2. split_and!; [done..|]. unfold installed_view, load, read_installed.
    cbn [io_manifest_read io_ok read_path]. by rewrite He, Hpart.
Qed.

(** an archive whose download URL ends in [manifest.json] overwrites the
    manifest it was staged with: the staging reports success, and from then
    on the module cannot be loaded or staged again. *)
Theorem archive_overwrites_manifest io b src s r s'
  (Hrun : stage_and_activate io b src s = (Ok r, s')) (Hcache : cache_agrees s b)
  (Hname : utf8 (artifact_file_name (b_manifest b)) = lit "manifest.json")
  (Hjson : manifest_from_json (b_archive b) = None) :
  exists id, ModuleId_new (lit (m_id (b_manifest b))) = Ok id
    /\ read_installed io_ok id s' = Err InvalidState
    /\ forall b' src', m_id (b_manifest b') = m_id (b_manifest b) ->
         stage_and_activate io_ok b' src' s' = (Err InvalidState, s').
Proof.
  destruct (stage_ok _ _ _ _ _ _ Hrun) as (id & md & Hid & He & Hw). rewrite (staged_bytes_agree _ _ _ Hcache) in Hw.
  apply write_module_ok in Hw as (d & root & mbytes & sbytes & meta & _ & _ & _ & _ & Hmeta & _).
  assert (Hread : read_installed io_ok id s' = Err InvalidState).
  { unfold read_installed. cbn [io_manifest_read io_ok read_path]. rewrite He, Hmeta. unfold meta_files. cbn [meta_name].
    rewrite (entry_set_ne (lit "manifest.json") (lit "install.json")) by (by vm_compute).
    rewrite (entry_set_ne (lit "manifest.json") (lit "download")) by (by vm_compute).
    rewrite (entry_set_ne (lit "manifest.json") (lit "checksum.bin")) by (by vm_compute).
    rewrite (entry_set_ne (lit "manifest.json") (lit "signature.bin")) by (by vm_compute).
    by rewrite Hname, entry_set, Hjson. }
  exists id. split_and!; [done..|]. intros b' src' Hid'. unfold stage_and_activate. rewrite Hid', Hid.
  unfold pbind. by rewrite Hread.
Qed.
End Install.

(** ** A concrete file system

    Archives are numbers that encode their members, which are unpacked one
    after the other with the directories that are missing; two manifests have
    a JSON form. *)
Fixpoint place (path : list (list Z)) (v : option (list Z)) (d : list (list Z * tree)) : list (list Z * tree) :=
  match path with
  | [] => d
  | n :: p =>
      let sub := match entry n d with Some (TDir es) => es | _ => [] end in
      match p, v with
      | [], Some bs => set_entry n (TFile bs) d
      | _, _ => set_entry n (TDir (place p v sub)) d
      end
  end.
Definition place_all (ms : list (list (list Z) * option (list Z))) (d : list (list Z * tree)) :=
  foldl (λ d m, place m.1 m.2 d) d ms.

Lemma place_below n p v d es : n ∉ d.*1 -> p <> [] -> place (n :: p) v (d ++ [(n, TDir es)]) = d ++ [(n, TDir (place p v es))].
Proof.
  intros Hn Hp. cbn [place]. rewrite <- (set_entry_absent _ (TDir es) _ Hn), entry_set. destruct p as [|q p]; [done|].
  rewrite set_set_entry. by apply set_entry_absent.
Qed.

#[local] Instance demo_archive : ModuleArchive := {|
  untar bs := match bs with
              | [Zpos p] => match decode p : option (list (list (list Z) * option (list Z))) with
                            | Some ms => (Ok tt, place_all ms [])
                            | None => (Err tt, [])
                            end
              | _ => (Err tt, [])
              end |}.
#[local] Instance demo_tar : TarBuilder := {| tar_gz ms := Some [Zpos (encode ms)] |}.
#[local] Instance demo_tar_laws : TarLaws demo_archive demo_tar.
Proof.
  refine {| unpacked := place_all |}; try done.
  - intros n bs d Hn. cbn. destruct (entry n d) as [[]|]; by apply set_entry_absent.
  - intros n d Hn. cbn. rewrite (proj2 (entry_None n d) Hn). by apply set_entry_absent.
  - intros n p v d es Hn Hp. by apply place_below.
  - intros d bs _ [= <-]. cbn [untar demo_archive]. by rewrite decode_encode.
Defined.

Definition demo_manifest (url : string) : ModuleManifest :=
  mkManifest "athenos" (mkVersion 1 0 0 [] []) None None None [] None
    (mkArtifact (lit url) (mkChecksum Sha256 []) None None) (mkSignature Ed25519 "registry" "") [] [] None.
Definition demo_url : string := "https://depot/athenos-1.0.0.tgz".
Definition clash_url : string := "https://depot/manifest.json".

#[local] Instance manifest_eq_dec : EqDecision ModuleManifest.
Proof.
  assert (EqDecision Version) by solve_decision. assert (EqDecision Comparator) by solve_decision.
  assert (EqDecision VersionReq) by (unfold VersionReq; apply _).
  assert (EqDecision ChecksumAlgorithm) by solve_decision. assert (EqDecision SignatureAlgorithm) by solve_decision.
  assert (EqDecision ModuleChecksum) by solve_decision. assert (EqDecision ModuleArtifactDescriptor) by solve_decision.
  assert (EqDecision ModuleSignatureDescriptor) by solve_decision.
  assert (EqDecision ModuleDependencySpec) by solve_decision. assert (EqDecision ModuleDependency) by solve_decision.
  solve_decision.
Defined.
#[local] Instance demo_json : StorageJson := {|
  version_display _ := lit "1.0.0";
  manifest_to_json m := if decide (m = demo_manifest demo_url) then Some [1; 1]
                        else if decide (m = demo_manifest clash_url) then Some [2; 2] else None;
  manifest_from_json bs := if decide (bs = [1; 1]) then Some (demo_manifest demo_url)
                           else if decide (bs = [2; 2]) then Some (demo_manifest clash_url) else None;
  source_to_json x := Some (match x with Distribution => [0] | LocalOverride => [1] end);
  source_from_json bs := if decide (bs = [0]) then Some Distribution
                         else if decide (bs = [1]) then Some LocalOverride else None;
|}.
#[local] Instance demo_json_laws : StorageJsonLaws demo_json.
Proof.
  split.
  - intros m bs. cbn. repeat case_decide; intros [= <-]; by subst.
  - by intros [] bs [= <-].
Qed.
#[local] Existing Instances demo_semver demo_semver_laws.

(** [athenos/athenos], and the same two levels down. *)
Definition demo_members : list (list (list Z) * option (list Z)) :=
  [([lit "athenos"], None); ([lit "athenos"; lit "athenos"], Some [7])].
Definition nested_members : list (list (list Z) * option (list Z)) :=
  [([lit "athenos"], None); ([lit "athenos"; lit "site"], None); ([lit "athenos"; lit "site"; lit "index"], Some [7])].
Definition demo_bytes (ms : list (list (list Z) * option (list Z))) : list Z := [Zpos (encode ms)].
Definition demo_files : list (list Z * tree) := [(lit "athenos", TDir [(lit "athenos", TFile [7])])].
Definition nested_files : list (list Z * tree) := [(lit "athenos", TDir [(lit "site", TDir [(lit "index", TFile [7])])])].
Definition demo_bundle url ms : ModuleBundle := mkBundle (demo_manifest url) (demo_bytes ms) [] [1; 171].
Definition demo_storage : Storage := mkStorage (lit "/var/modules") [] (Some ∅).
Definition athenos : ModuleId := mkId (lit "athenos").
Definition demo_result : ModuleInstallResult :=
  mkInstallResult SInstalled (demo_manifest demo_url) (lit "/var/modules/athenos") Distribution.

Ltac forall_names := repeat (apply Forall_cons; split; [eexists; reflexivity|]); constructor.
Ltac wf_demo := cbn [wf_dir wf_tree foldr snd];
  repeat match goal with
  | |- _ /\ _ => split
  | |- NoDup _ => apply (bool_decide_eq_true_1 _); vm_compute; reflexivity
  | |- _ = true => vm_compute; reflexivity
  | |- True => exact I
  end.

Lemma activation_installs_bundle_witness :
  installed_view athenos (activate_verified_bundle io_ok io_ok (demo_bundle demo_url demo_members) demo_storage).2
  = Some (demo_manifest demo_url, [(lit "athenos", TFile [7])]).
Proof.
  destruct (activation_installs_bundle io_ok io_ok (demo_bundle demo_url demo_members) demo_storage demo_result
    (activate_verified_bundle io_ok io_ok (demo_bundle demo_url demo_members) demo_storage).2 demo_files)
    as (id & Hid & Hv & _).
  - vm_compute. reflexivity.
  - vm_compute. intros bs Hbs. discriminate.
  - vm_compute. discriminate.
  - intros n. reflexivity.
  - vm_compute. reflexivity.
  - forall_names.
  - unfold wf_dir, demo_files. wf_demo.
  - injection Hid as <-. exact Hv.
Defined.

Lemma storage_changes_one_module_witness :
  installed_view (mkId (lit "odin")) (remove io_ok athenos demo_storage).2 = installed_view (mkId (lit "odin")) demo_storage.
Proof.
  apply (proj1 (storage_changes_one_module io_ok io_ok (demo_bundle demo_url demo_members) Distribution athenos demo_storage
    ltac:(vm_compute; reflexivity)) (mkId (lit "odin")) ltac:(vm_compute; discriminate)).
Defined.

(** The host after the first installation, the module's directory there, and
    the archive a backup of it makes. *)
Definition demo_host ms : Storage := (activate_verified_bundle io_ok io_ok (demo_bundle demo_url ms) demo_storage).2.
Definition demo_dir (files : list (list Z * tree)) (bytes : list Z) : list (list Z * tree) :=
  files ++ [(META, TDir [(lit "manifest.json", TFile [1; 1]); (lit "athenos-1.0.0.tgz", TFile bytes);
    (lit "signature.bin", TFile []); (lit "checksum.bin", TFile [1; 171]); (lit "download", TFile (lit demo_url));
    (lit "install.json", TFile [0])])].
Definition backup_of ms : ModuleBundle :=
  match package_installed_module io_ok athenos (demo_host ms) with
  | Ok (Some (m, bytes)) => mkBundle m bytes [] [2; 2]
  | _ => demo_bundle demo_url ms
  end.

Lemma backup_restores_module_witness :
  installed_view athenos (activate_verified_bundle io_ok io_ok (backup_of demo_members) (demo_host demo_members)).2
  = Some (demo_manifest demo_url, [(lit "athenos", TFile [7])]).
Proof.
  apply (backup_restores_module io_ok io_ok io_ok athenos (demo_host demo_members) (demo_manifest demo_url)
    (b_archive (backup_of demo_members)) (demo_dir [(lit "athenos", TFile [7])] (demo_bytes demo_members))
    (backup_of demo_members) (demo_host demo_members)
    (mkInstallResult SAlreadyCurrent (demo_manifest demo_url) (lit "/var/modules/athenos") Distribution)).
  - vm_compute. reflexivity.
  - vm_compute. reflexivity.
  - unfold wf_dir, demo_dir. cbn [app]. wf_demo.
  - forall_names.
  - vm_compute. reflexivity.
  - reflexivity.
  - vm_compute. reflexivity.
  - vm_compute. reflexivity.
  - vm_compute. intros bs Hbs. discriminate.
  - vm_compute. discriminate.
  - intros n. reflexivity.
  - intros n cs. vm_compute. discriminate.
  - intros n t Hin. apply list_elem_of_singleton in Hin as [= -> _]. vm_compute. reflexivity.
Defined.

Lemma backup_loses_single_directory_witness :
  installed_view athenos (demo_host nested_members)
    = Some (demo_manifest demo_url, [(lit "site", TDir [(lit "index", TFile [7])])])
  /\ installed_view athenos (activate_verified_bundle io_ok io_ok (backup_of nested_members) (demo_host nested_members)).2
    = Some (demo_manifest demo_url, [(lit "index", TFile [7])]).
Proof.
  split; [vm_compute; reflexivity|].
  destruct (backup_loses_single_directory io_ok io_ok io_ok athenos (demo_host nested_members) (demo_manifest demo_url)
    (b_archive (backup_of nested_members))
    (demo_dir [(lit "site", TDir [(lit "index", TFile [7])])] (demo_bytes nested_members))
    (backup_of nested_members) (demo_host nested_members)
    (mkInstallResult SAlreadyCurrent (demo_manifest demo_url) (lit "/var/modules/athenos") Distribution)
    (activate_verified_bundle io_ok io_ok (backup_of nested_members) (demo_host nested_members)).2
    (lit "site") [(lit "index", TFile [7])]) as [H _].
  - vm_compute. reflexivity.
  - vm_compute. reflexivity.
  - unfold wf_dir, demo_dir. cbn [app]. wf_demo.
  - forall_names.
  - vm_compute. reflexivity.
  - reflexivity.
  - vm_compute. reflexivity.
  - vm_compute. reflexivity.
  - vm_compute. intros bs Hbs. discriminate.
  - vm_compute. discriminate.
  - intros n. reflexivity.
  - vm_compute. reflexivity.
  - vm_compute. reflexivity.
  - exact H.
Defined.

Lemma archive_overwrites_manifest_witness :
  read_installed io_ok athenos (stage_and_activate io_ok (demo_bundle clash_url demo_members) Distribution demo_storage).2
  = Err InvalidState.
Proof.
  destruct (archive_overwrites_manifest io_ok (demo_bundle clash_url demo_members) Distribution demo_storage
    (mkInstallResult SInstalled (demo_manifest clash_url) (lit "/var/modules/athenos") Distribution)
    (stage_and_activate io_ok (demo_bundle clash_url demo_members) Distribution demo_storage).2)
    as (id & Hid & Hr & _).
  - vm_compute. reflexivity.
  - vm_compute. intros bs Hbs. discriminate.
  - vm_compute. reflexivity.
  - vm_compute. reflexivity.
  - injection Hid as <-. exact Hr.
Defined.

(** The cache write stops after the file was created. *)
Definition disk_full : StorageIo :=
  mkIo true true None true true (Some (Some [])) None true (λ _, true) (λ _, None) true true true
    (λ _, true) (λ _, true) None true (λ _, None) None.
Definition full_host : Storage := (stage_and_activate disk_full (demo_bundle demo_url demo_members) Distribution demo_storage).2.

Lemma truncated_cache_loses_module_witness :
  exists id s2, installed_view id full_host = Some (demo_manifest demo_url, [(lit "athenos", TFile [7])])
    /\ stage_and_activate io_ok (demo_bundle demo_url demo_members) Distribution full_host = (Err StIo, s2)
    /\ installed_view id s2 = None.
Proof.
  apply (truncated_cache_loses_module disk_full (demo_bundle demo_url demo_members) Distribution demo_storage ∅ [] []
    demo_files demo_result full_host).
  - vm_compute. reflexivity.
  - vm_compute. reflexivity.
  - vm_compute. reflexivity.
  - vm_compute. reflexivity.
  - vm_compute. reflexivity.
  - vm_compute. reflexivity.
  - vm_compute. reflexivity.
  - vm_compute. discriminate.
  - intros n. reflexivity.
  - vm_compute. reflexivity.
  - forall_names.
  - unfold wf_dir, demo_files. wf_demo.
Defined.

(** A verifier that asks for no signature, with digests as in the archive's
    own checksum. *)
#[local] Instance demo_crypto : VerifierCrypto := {|
  VerifyingKey := list Z; sha256_of _ := [1; 171]; base64_decode t := Some t; key_from_bytes b := Some b;
  ed25519_verify _ _ _ := false |}.
Definition small_archive : ModuleArchive := {|
  untar bs := if decide (bs = [1]) then (Ok tt, demo_files) else (Err tt, []) |}.
Definition small_bundle : ModuleBundle := mkBundle (demo_manifest demo_url) [1] [] [1; 171].
Definition small_storage : Storage := mkStorage (lit "/var/modules") [] None.
Definition open_verifier : Ed25519ModuleVerifier := mkVerifier false None ∅.
Definition small_run := @install_module demo_semver small_archive demo_json demo_crypto open_verifier
  (Some (demo_manifest demo_url)) (λ _, Some small_bundle) io_ok small_storage.

Lemma installed_module_was_verified_witness :
  @installed_view demo_json athenos small_run.2 = Some (demo_manifest demo_url, [(lit "athenos", TFile [7])])
  /\ sha256_of (b_archive small_bundle) = b_checksum small_bundle.
Proof.
  assert (H := @installed_module_was_verified demo_semver small_archive demo_json demo_crypto demo_json_laws open_verifier
    (Some (demo_manifest demo_url)) (λ _, Some small_bundle) io_ok small_storage small_run.2 (Ok demo_result)).
  destruct H as (m & b & id & d & Hm & Hb & Hid & Hd & Hv & Hsum & _).
  - vm_compute. reflexivity.
  - intros b. exact I.
  - intros m b [= <-]. vm_compute. discriminate.
  - intros n. reflexivity.
  - intros bs r d. cbn [untar small_archive]. case_decide; intros [= _ <-].
    + split; [forall_names|]. unfold wf_dir, demo_files. wf_demo.
    + split; [constructor|]. unfold wf_dir. wf_demo.
  - injection Hb as <-. injection Hid as <-. split; [|exact Hsum]. etransitivity; [exact Hv|].
    cbn [untar small_archive] in Hd. vm_compute in Hd. injection Hd as <-. reflexivity.
Defined.
