(* ===== verification/BundleInspect.v ===== *)
(** * Looking into a bundle: [services/depot/bundle.rs]

    [inspect] reads a module archive before it is installed: it refuses
    links and paths that leave the directory, and finds the bundle's own
    manifest and migrations below the directory that the module storage will
    flatten away.  The entries come from the tar crate (class [TarReader]);
    JSON and TOML are parsed by serde.  [common_root] has to agree with
    [flatten_module_root] of [ModuleStorage]: the theorems say when it does. *)

From S2P Require Import Prelude Text Versions Manifests Verifier ModuleStorage ModuleStorageSafety.
#[local] Open Scope fenrir_scope.

(** [tar::EntryType] and [std::path::Component]; a name is what
    [to_string_lossy] makes of it. *)
Inductive EntryType := Regular | Directory | OtherType.
Inductive Component := Normal (part : text) | CurDir | ParentDir | RootDir.
Record TarEntry := mkEntry { te_kind : EntryType; te_path : option (list Component); te_content : list Z }.

(** [archive.entries()]: [None] when the archive cannot be opened; an entry
    that cannot be read is [None]. *)
Class TarReader := { tar_entries : list Z -> option (list (option TarEntry)) }.
(** serde_json and toml. *)
Class BundleText := { manifest_from_text : text -> option ModuleManifest; parse_migrations_dir : text -> option text }.

Record BundleInfo := mkInfo { i_manifest : option ModuleManifest; i_migrations : list text }.
(** The one constructor of [DepotError] that occurs: the bundle is refused. *)
Inductive BundleError := InvalidBundle.

Definition MANIFEST_PATH : text := lit ".fenrir-meta/manifest.json".
Definition RUNTIME_PATH : text := lit ".fenrir/runtime.toml".
Definition MAX_META_BYTES : nat := 2 ^ 20.

Definition ends_with (p s : text) : bool := match strip_suffix p s with Some _ => true | None => false end.

(** The loop over the components of a path. *)
Fixpoint path_parts (cs : list Component) : option (list text) :=
  match cs with
  | [] => Some []
  | Normal p :: cs => (cons p) <$> path_parts cs
  | CurDir :: cs => path_parts cs
  | _ :: _ => None
  end.

(** The state of the loop over the entries. *)
Record Seen := mkSeen { paths : list (text * bool); meta : gmap text text }.

Definition is_directory (k : EntryType) : bool := match k with Directory => true | _ => false end.

Definition read_entry (e : option TarEntry) (s : Seen) : result Seen BundleError :=
  match e with
  | None => Err InvalidBundle
  | Some e =>
      match te_path e with
      | None => Err InvalidBundle
      | Some cs =>
          match te_kind e with
          | OtherType => Err InvalidBundle
          | k =>
              parts <-? ok_or (path_parts cs) InvalidBundle;;
              match parts with
              | [] => Ok s
              | _ =>
                  let joined := join (lit "/") parts in
                  let is_dir := is_directory k in
                  m <-? (if negb is_dir && (ends_with MANIFEST_PATH joined || ends_with RUNTIME_PATH joined) then
                           t <-? ok_or (from_utf8 (take MAX_META_BYTES (te_content e))) InvalidBundle;;
                           Ok (<[joined := t]> (meta s))
                         else Ok (meta s));;
                  Ok (mkSeen (paths s ++ [(joined, is_dir)]) m)
              end
          end
      end
  end.

Fixpoint read_entries (es : list (option TarEntry)) (s : Seen) : result Seen BundleError :=
  match es with
  | [] => Ok s
  | e :: es => s' <-? read_entry e s;; read_entries es s'
  end.

(** [tops.sort_unstable(); tops.dedup()]: a sorted list without repetitions
    has one element exactly when all the elements are the same. *)
Definition top_names (ps : list (text * bool)) : list text :=
  remove_dups (filter (λ top, (negb (starts_with (lit "._") top) && negb (bool_decide (top = lit ".DS_Store"))) = true)
    ((λ p : text * bool, default [] (head (split 47 p.1))) <$> ps)).

Definition common_root (ps : list (text * bool)) : text :=
  match top_names ps with
  | [only] =>
      let nested := existsb (λ p : text * bool, starts_with (only ++ lit "/") p.1 || (p.2 && bool_decide (p.1 = only))) ps in
      if nested then only ++ lit "/" else []
  | _ => []
  end.

Section Inspect.
Context {T : TarReader} {X : BundleText}.

Definition trim_matches (c : char) (s : text) : text :=
  rev (drop_while (λ x, x =? c) (rev (drop_while (λ x, x =? c) s))).

(** [files.sort()] on texts: by code points. *)
Definition text_ord (x y : text) : Prop := text_cmp x y <> Gt.
#[local] Instance text_ord_dec x y : Decision (text_ord x y).
Proof. unfold text_ord. destruct (text_cmp x y); [left|left|right]; congruence. Defined.

Definition migration_files (prefix dir : text) (ps : list (text * bool)) : list text :=
  let dir := prefix ++ trim_matches 47 dir ++ lit "/" in
  merge_sort text_ord
    (filter (λ n, (negb (bool_decide (47 ∈ n)) && ends_with (lit ".sql") n) = true)
      (omap (λ p : text * bool, strip_prefix dir p.1) (filter (λ p : text * bool, p.2 = false) ps))).

Definition inspect (bytes : list Z) : result BundleInfo BundleError :=
  es <-? ok_or (tar_entries bytes) InvalidBundle;;
  s <-? read_entries es (mkSeen [] ∅);;
  let prefix := common_root (paths s) in
  manifest <-? match meta s !! (prefix ++ MANIFEST_PATH) with
               | Some t => m <-? ok_or (manifest_from_text t) InvalidBundle;; Ok (Some m)
               | None => Ok None
               end;;
  let migrations := match meta s !! (prefix ++ RUNTIME_PATH) ≫= parse_migrations_dir with
                    | Some dir => migration_files prefix dir (paths s)
                    | None => []
                    end in
  Ok (mkInfo manifest migrations).
End Inspect.

(** ** What is refused *)

Section Refused.
Context {T : TarReader} {X : BundleText}.

Definition plain_component (c : Component) : Prop := match c with Normal _ | CurDir => True | _ => False end.
Definition plain_entry (e : option TarEntry) : Prop :=
  match e with
  | Some e => te_kind e <> OtherType /\ exists cs, te_path e = Some cs /\ Forall plain_component cs
  | None => False
  end.

Lemma path_parts_plain cs : is_Some (path_parts cs) <-> Forall plain_component cs.
Proof.
  induction cs as [|[p| | |] cs IH]; cbn [path_parts]; rewrite ?Forall_cons.
  - by split; [constructor|eexists].
  - rewrite fmap_is_Some, IH. cbn. tauto.
  - rewrite IH. cbn. tauto.
  - split; [by intros []|by intros [[] _]].
  - split; [by intros []|by intros [[] _]].
Qed.

Lemma read_entry_plain e s s' : read_entry e s = Ok s' -> plain_entry e.
Proof.
  unfold read_entry, plain_entry. destruct e as [e|]; [|done]. destruct (te_path e) as [cs|]; [|done].
  destruct (path_parts cs) as [ps|] eqn:E; [|by destruct (te_kind e)].
  assert (Forall plain_component cs) by (apply path_parts_plain; by rewrite E).
  destruct (te_kind e); [| |done]; intros _; (split; [done|]); by exists cs.
Qed.

Lemma read_entries_plain es : forall s s', read_entries es s = Ok s' -> Forall plain_entry es.
Proof.
  induction es as [|e es IH]; intros s s'; [constructor|]. cbn [read_entries].
  intros (s1 & H1%read_entry_plain & H2%IH)%result_bind_ok_inv. by constructor.
Qed.

(** a bundle that passes [inspect] holds regular files and directories
    only (no links, devices or other special entries), and every path in it
    stays below the directory it is unpacked to (no absolute path, no
    [..]). *)
Theorem inspected_bundle_is_contained bytes info (H : inspect bytes = Ok info) :
  exists es, tar_entries bytes = Some es /\ Forall plain_entry es.
Proof.
  unfold inspect in H. apply result_bind_ok_inv in H as (es & He & H). destruct (tar_entries bytes) as [l|]; [|done].
  injection He as <-. apply result_bind_ok_inv in H as (s & Hs & _). exists l. split; [done|]. by eapply read_entries_plain.
Qed.
End Refused.

(** ** The root agrees with the storage *)

(** A member of the archive: the texts of its path, its content or nothing
    for a directory. *)
Abbreviation tmember := (list (list Z) * option (list Z))%type (only parsing).
Definition on_disk (m : tmember) : tmember := (utf8 <$> m.1, m.2).
Definition as_path (m : tmember) : list Z * bool :=
  (join (lit "/") m.1, match m.2 with None => true | Some _ => false end).

(** Names as a file system and UTF-8 have them. *)
Definition text_name (t : list Z) : Prop := t <> [] /\ (47 ∉ t) /\ from_utf8 (utf8 t) = Some t.
Definition good_member (m : tmember) : Prop := m.1 <> [] /\ Forall text_name m.1.

(** No file lies above another member. *)
Definition consistent (ms : list tmember) : Prop :=
  forall p bs m, (p, Some bs) ∈ ms -> m ∈ ms -> (exists q, m.1 = p ++ q) -> m.1 = p /\ is_Some m.2.

Definition head_of (m : tmember) : list Z := default [] (head m.1).
Definition is_top_file (m : tmember) : Prop := length m.1 = 1%nat /\ is_Some m.2.

Lemma set_entry_names n t d : (set_entry n t d).*1 = if decide (n ∈ d.*1) then d.*1 else d.*1 ++ [n].
Proof.
  induction d as [|[m u] d IH]; cbn; [by rewrite decide_False by apply not_elem_of_nil|].
  destruct (decide (n = m)) as [->|Hn]; cbn; [by rewrite decide_True by left|]. rewrite IH.
  repeat (case_decide; rewrite ?elem_of_cons in *; try tauto); done.
Qed.

Lemma set_entry_nodup n t d : NoDup d.*1 -> NoDup (set_entry n t d).*1.
Proof.
  intros Hd. rewrite set_entry_names. case_decide; [done|]. apply NoDup_app. split_and!; [done| |apply NoDup_singleton].
  intros x Hx Hn%list_elem_of_singleton. by subst.
Qed.

Lemma head_of_cons t p v : head_of (t :: p, v) = t.
Proof. done. Qed.

(** What the tar crate promises of the directory that members are unpacked
    to, as far as its top level goes: the names are the first names of the
    members, and a name is a file or a directory because some member with it
    says so. *)
Definition unpacked_top (ms : list (list (list Z) * option (list Z))) (d : list (list Z * tree)) : Prop :=
  NoDup d.*1 /\ forall n, match entry n d with
    | None => n ∉ head_of <$> ms
    | Some (TFile _) => exists m, m ∈ ms /\ head_of m = n /\ is_top_file m
    | Some (TDir _) => exists m, m ∈ ms /\ head_of m = n /\ ~ is_top_file m
    end.

Lemma without_junk_elem d n x : NoDup d.*1 -> (n, x) ∈ without_junk d <-> entry n d = Some x /\ junk_name n = false.
Proof.
  intros Hnd. unfold without_junk. rewrite list_elem_of_filter. cbn [fst]. rewrite (and_comm (entry _ _ = _)).
  apply and_iff_compat_l. induction d as [|[m u] d IH]; cbn; [by rewrite elem_of_nil|].
  rewrite fmap_cons in Hnd. cbn in Hnd. apply NoDup_cons in Hnd as [Hm Hnd]. rewrite elem_of_cons, IH by done.
  destruct (decide (n = m)) as [->|Hn]; [|naive_solver]. split; [|intros [= ->]; by left].
  intros [[= ->]|He]; [done|]. apply entry_None in Hm. congruence.
Qed.

Lemma without_junk_nodup d : NoDup d.*1 -> NoDup (without_junk d).*1.
Proof.
  intros Hnd. apply NoDup_fmap_fst.
  - intros n x y Hx%without_junk_elem Hy%without_junk_elem; [|done..]. destruct Hx, Hy. congruence.
  - unfold without_junk. apply NoDup_filter. by eapply NoDup_fmap_1.
Qed.

Section Agreement.
Context (ms : list (list (list Z) * option (list Z))) (Hgood : Forall good_member ms) (Hcons : consistent ms).
Context (d : list (list Z * tree)) (Hd : unpacked_top (on_disk <$> ms) d).
Let ps := as_path <$> ms.

Lemma good_head m : m ∈ ms -> exists t p v, m = (t :: p, v) /\ text_name t /\ Forall text_name p.
Proof.
  intros Hm. destruct (proj1 (Forall_forall _ _) Hgood m Hm) as [Hne Hn]. destruct m as [[|t p] v]; [done|].
  cbn in Hn. apply Forall_cons in Hn as [Ht Hp]. eauto 6.
Qed.

Lemma split_path m : m ∈ ms -> split 47 (as_path m).1 = m.1.
Proof.
  intros Hm. destruct (proj1 (Forall_forall _ _) Hgood m Hm) as [Hne Hn]. apply split_join; [done|].
  eapply Forall_impl; [exact Hn|]. by intros x (_ & ? & _).
Qed.

Lemma top_names_elem t : t ∈ top_names ps <-> (exists m, m ∈ ms /\ head_of m = t) /\ is_junk t = false.
Proof.
  unfold top_names, ps. rewrite elem_of_remove_dups, list_elem_of_filter, <- list_fmap_compose, list_elem_of_fmap.
  assert (Hj : (negb (starts_with (lit "._") t) && negb (bool_decide (t = lit ".DS_Store"))) = true <-> is_junk t = false).
  { unfold is_junk. destruct (starts_with _ _), (bool_decide _); cbn; naive_solver. }
  rewrite Hj, (and_comm (is_junk t = false)). apply and_iff_compat_r. split.
  - intros (m & -> & Hm). exists m. split; [done|]. unfold head_of, compose. by rewrite (split_path m Hm).
  - intros (m & Hm & <-). exists m. split; [|done]. unfold head_of, compose. by rewrite (split_path m Hm).
Qed.

Lemma disk_top : NoDup d.*1 /\ forall n x, (n, x) ∈ without_junk d ->
  exists m, m ∈ ms /\ n = utf8 (head_of m) /\ is_junk (head_of m) = false
    /\ match x with TFile _ => is_top_file m | TDir _ => ~ is_top_file m end.
Proof.
  destruct Hd as [Hnd He]. split; [done|].
  intros n x Hx. apply without_junk_elem in Hx as [Hx Hj]; [|done]. specialize (He n). rewrite Hx in He.
  assert (Hm : exists m', m' ∈ on_disk <$> ms /\ head_of m' = n /\ match x with TFile _ => is_top_file m' | TDir _ => ~ is_top_file m' end).
  { destruct x; naive_solver. }
  destruct Hm as (m' & Hin & Hh & Hk). apply list_elem_of_fmap in Hin as (m & -> & Hm). exists m.
  destruct (good_head m Hm) as (t & p & v & -> & (_ & _ & Hu) & _). unfold head_of, on_disk in *. cbn in *. subst n.
  split_and!; [done|done| |].
  - unfold junk_name in Hj. by rewrite Hu in Hj.
  - unfold is_top_file in *. cbn in *. by rewrite length_fmap in Hk.
Qed.

Lemma disk_has m : m ∈ ms -> is_junk (head_of m) = false -> exists x, (utf8 (head_of m), x) ∈ without_junk d.
Proof.
  intros Hm Hj. destruct Hd as [Hnd He]. specialize (He (utf8 (head_of m))).
  destruct (good_head m Hm) as (t & p & v & -> & (_ & _ & Hu) & _). rewrite head_of_cons in *.
  destruct (entry (utf8 t) d) as [x|] eqn:E.
  - exists x. apply without_junk_elem; [done|]. split; [done|]. unfold junk_name. by rewrite Hu.
  - exfalso. apply He. apply list_elem_of_fmap. exists (on_disk (t :: p, v)). split; [done|].
    apply list_elem_of_fmap. by exists (t :: p, v).
Qed.

Lemma disk_utf8 : utf8_names d.
Proof.
  destruct Hd as [Hnd He]. apply Forall_forall. intros [n x] Hin. cbn [fst]. specialize (He n).
  assert (Hn : n ∈ head_of <$> (on_disk <$> ms)).
  { destruct (entry n d) as [[]|] eqn:E; [destruct He as (m & ? & ? & _)..|]; [apply list_elem_of_fmap; eauto..|].
    apply entry_None in E. apply (list_elem_of_fmap_2 fst) in Hin. done. }
  apply list_elem_of_fmap in Hn as (m' & -> & (m & -> & Hm)%list_elem_of_fmap).
  destruct (good_head m Hm) as (t & p & v & -> & (_ & _ & Hu) & _). unfold head_of, on_disk. cbn. by rewrite Hu.
Qed.

Lemma same_kind m m' : m ∈ ms -> m' ∈ ms -> head_of m = head_of m' -> is_top_file m -> is_top_file m'.
Proof.
  intros Hm Hm' Hh [Hl [bs Hv]]. destruct (good_head m Hm) as (t & p & v & -> & _).
  destruct (good_head m' Hm') as (t' & p' & v' & -> & _). unfold head_of in Hh. cbn in *. subst t' v.
  destruct p; [|done]. destruct (Hcons [t] bs (t :: p', v') Hm Hm') as [Hq Hs]; [by exists p'|]. cbn in Hq. injection Hq as ->.
  by split.
Qed.

Lemma starts_with_spec p s : starts_with p s = true <-> exists r, s = p ++ r.
Proof.
  unfold starts_with. destruct (strip_prefix p s) as [r|] eqn:E.
  - apply strip_prefix_some in E. split; [by exists r|done].
  - split; [done|]. intros [r Hr%strip_prefix_some]. congruence.
Qed.

(** [nested] says whether a member with this first name is more than a file. *)
Lemma nested_spec only : 47 ∉ only ->
  existsb (λ p : list Z * bool, starts_with (only ++ lit "/") p.1 || (p.2 && bool_decide (p.1 = only))) ps = true
  <-> exists m, m ∈ ms /\ head_of m = only /\ ~ is_top_file m.
Proof.
  intros Ho. rewrite existsb_exists. split.
  - intros (p & Hp & Hb). apply list_elem_of_In, list_elem_of_fmap in Hp as (m & -> & Hm). exists m. split; [done|].
    pose proof (split_path m Hm) as Hs. apply orb_true_iff in Hb as [Hb|Hb].
    + apply starts_with_spec in Hb as [r Hr]. rewrite Hr, <- app_assoc in Hs. cbn [app lit] in Hs.
      change (split 47 (only ++ 47 :: r) = m.1) in Hs. rewrite split_app_sep in Hs by done.
      unfold head_of, is_top_file. rewrite <- Hs. cbn. split; [done|]. intros [Hl _].
      pose proof (split_nonempty 47 r). destruct (split 47 r); [done|]. cbn in Hl. lia.
    + boolify. unfold is_top_file. assert (Hm1 : m.1 = [only]) by (rewrite <- Hs; rewrite H0; by apply split_no_sep).
      unfold head_of. rewrite Hm1. split; [done|]. intros [_ [bs Hbs]]. unfold as_path in H. cbn in H. by rewrite Hbs in H.
  - intros (m & Hm & Hh & Hnt). exists (as_path m). split; [apply list_elem_of_In, list_elem_of_fmap; by exists m|].
    destruct (good_head m Hm) as (t & p & v & -> & _). unfold head_of in Hh. cbn in Hh. subst t. apply orb_true_iff.
    destruct p as [|q p].
    + right. destruct v as [bs|]; [by destruct Hnt; split|]. cbn. by apply bool_decide_eq_true.
    + left. apply starts_with_spec. exists (join (lit "/") (q :: p)). cbn. by rewrite <- app_assoc.
Qed.

Lemma top_valid t : t ∈ top_names ps -> (47 ∉ t) /\ from_utf8 (utf8 t) = Some t.
Proof.
  intros ((m & Hm & <-) & _)%top_names_elem. destruct (good_head m Hm) as (t & p & v & -> & (_ & ? & ?) & _). done.
Qed.

Lemma disk_in_tops n x : (n, x) ∈ without_junk d -> exists t, t ∈ top_names ps /\ n = utf8 t.
Proof.
  intros Hx. destruct (proj2 disk_top n x Hx) as (m & Hm & -> & Hj & _). exists (head_of m).
  split; [|done]. apply top_names_elem; eauto.
Qed.

Lemma tops_on_disk t : t ∈ top_names ps -> exists x, (utf8 t, x) ∈ without_junk d.
Proof. intros ((m & Hm & <-) & Hj)%top_names_elem. by apply disk_has. Qed.
End Agreement.

Lemma all_same_singleton {X} (l : list (list Z * X)) n x :
  NoDup l.*1 -> (n, x) ∈ l -> (forall m y, (m, y) ∈ l -> m = n) -> l = [(n, x)].
Proof.
  intros Hnd Hx Hall. destruct l as [|[n1 y1] [|[n2 y2] l]].
  - by apply elem_of_nil in Hx.
  - apply list_elem_of_singleton in Hx as [= -> ->]. done.
  - exfalso. cbn in Hnd. apply NoDup_cons in Hnd as [Hn _]. apply Hn.
    rewrite (Hall n1 y1), (Hall n2 y2); [left|right; left|left].
Qed.

Lemma common_root_flattens ms d : Forall good_member ms -> consistent ms -> unpacked_top (on_disk <$> ms) d ->
  (exists only cs, common_root (as_path <$> ms) = only ++ lit "/"
     /\ without_junk d = [(utf8 only, TDir cs)] /\ flattened d = cs)
  \/ (common_root (as_path <$> ms) = [] /\ flattened d = without_junk d).
Proof.
  intros Hgood Hcons Hd. destruct (disk_top ms Hgood d Hd) as [Hnd Htop].
  pose proof (without_junk_nodup d Hnd) as Hnd'. pose proof (disk_in_tops ms Hgood d Hd) as Hin.
  pose proof (tops_on_disk ms Hgood d Hd) as Hout. pose proof (top_valid ms Hgood) as Hval.
  assert (Htops : NoDup (top_names (as_path <$> ms))) by apply NoDup_remove_dups.
  unfold common_root, flattened. destruct (top_names (as_path <$> ms)) as [|only [|t2 ts]] eqn:Et.
  - right. split; [done|]. destruct (without_junk d) as [|[n x] l]; [done|].
    destruct (Hin n x (list_elem_of_here _ _)) as (t & Ht%elem_of_nil & _). done.
  - destruct (Hval only (list_elem_of_here _ _)) as [Hslash Hutf]. destruct (Hout only (list_elem_of_here _ _)) as [x Hx].
    assert (Hone : without_junk d = [(utf8 only, x)]).
    { apply all_same_singleton; [done..|]. intros m y (t & ->%list_elem_of_singleton & ->)%Hin. done. }
    rewrite Hone. destruct (Htop (utf8 only) x Hx) as (m & Hm & Hmu & Hmj & Hk).
    assert (Hmo : head_of m = only).
    { assert (Hin' : head_of m ∈ top_names (as_path <$> ms)) by (apply top_names_elem; eauto).
      rewrite Et in Hin'. by apply list_elem_of_singleton in Hin'. }
    pose proof (nested_spec ms Hgood only Hslash) as Hns. destruct (existsb _ _).
    + left. destruct (proj1 Hns eq_refl) as (m1 & Hm1 & Hh1 & Hnt). destruct x as [bs|cs]; [|by exists only, cs].
      exfalso. apply Hnt. by apply (same_kind ms Hgood Hcons m); [| |congruence|].
    + right. split; [done|]. destruct x as [bs|cs]; [done|]. exfalso. by discriminate (proj2 Hns ltac:(eauto)).
  - right. split; [done|]. destruct (Hout only (list_elem_of_here _ _)) as [x Hx].
    destruct (Hout t2 ltac:(right; left)) as [y Hy].
    destruct (without_junk d) as [|[n1 [b1|c1]] [|e l]]; try done. exfalso.
    apply list_elem_of_singleton in Hx, Hy. apply NoDup_cons in Htops as [Hn _]. apply Hn.
    destruct (Hval only (list_elem_of_here _ _)) as [_ E1]. destruct (Hval t2 ltac:(right; left)) as [_ E2].
    assert (Heq : utf8 only = utf8 t2) by congruence. rewrite Heq, E2 in E1. injection E1 as ->. left.
Qed.

Lemma read_without_junk n p d : NoDup d.*1 -> junk_name n = false -> read_path (n :: p) (without_junk d) = read_path (n :: p) d.
Proof.
  intros Hnd Hj. assert (He : entry n (without_junk d) = entry n d); [|cbn [read_path]; by rewrite He].
  clear Hnd. unfold without_junk. induction d as [|[m t] d IH]; [done|]. rewrite filter_cons. cbn [fst entry].
  destruct (decide (n = m)) as [->|Hn]; [rewrite decide_True by done; cbn; by rewrite decide_True|].
  destruct (decide (junk_name m = false)); cbn; rewrite ?decide_False by done; exact IH.
Qed.

(** C39: [inspect] looks where the storage will put things.  Take an archive
    whose names are UTF-8 and in which no file lies above another member, a
    directory [d] to which it was unpacked (of which only the top level is
    assumed to be the tar crate's, [unpacked_top]), and suppose that
    [flatten_module_root] succeeds on [d] and could delete the macOS
    leftovers.  Then [common_root] is the directory that was flattened away,
    with a slash, or it is empty and only leftovers are gone from the top
    level; in both cases the file at a path in the flattened directory is
    the one that was unpacked at [common_root] followed by that path (a path
    that does not begin with a leftover), as [inspect] assumes for the
    manifest and the runtime file. *)
Theorem common_root_agrees_with_storage ms d io u root :
  Forall good_member ms -> consistent ms -> unpacked_top (on_disk <$> ms) d -> wf_dir d -> junk_goes io ->
  flatten_module_root io d = (Ok u, root) ->
  exists prefix, common_root (as_path <$> ms) = concat ((λ n, n ++ lit "/") <$> prefix)
    /\ ((exists only, prefix = [only] /\ without_junk d = [(utf8 only, TDir root)]) \/ (prefix = [] /\ root = without_junk d))
    /\ forall n p, junk_name n = false -> read_path (n :: p) root = read_path ((utf8 <$> prefix) ++ n :: p) d.
Proof.
  intros Hgood Hcons Hd Hwf Hj Hfl. apply flatten_ok in Hfl as ->; [|done|by eapply disk_utf8|done].
  destruct (common_root_flattens ms d Hgood Hcons Hd) as [(only & cs & -> & Hw & ->)|[-> ->]].
  - exists [only]. cbn [fmap list_fmap concat app]. rewrite app_nil_r. split; [done|]. split; [left; by exists only|].
    intros n p Hn. assert (Hin : (utf8 only, TDir cs) ∈ without_junk d) by (rewrite Hw; left).
    apply without_junk_elem in Hin as [He _]; [|apply Hd]. cbn [read_path]. by rewrite He.
  - exists []. split; [done|]. split; [by right|]. intros n p Hn. apply read_without_junk; [apply Hd|done].
Qed.

(** with a name that is not UTF-8 the two part ways: the storage does
    not count such an entry and flattens the only other one, a directory;
    [common_root] counts it under its replacement characters and finds no
    root, so the manifest in that directory (the module's dependencies) and
    its migrations are not seen. *)
Theorem non_utf8_name_hides_manifest bad shown x only f content rest
  (Hbad : from_utf8 bad = None) (Honly : text_name only) (Hjunk : is_junk only = false)
  (Hshown : shown <> only) (Hslash : 47 ∉ shown) (Hsj : is_junk shown = false) (Hff : f <> FLATTEN) (Hfb : f <> bad) :
  flatten_module_root io_ok [(bad, TFile x); (utf8 only, TDir [(f, TFile content)])]
    = (Ok tt, [(bad, TFile x); (f, TFile content)])
  /\ common_root [(shown, false); (only ++ lit "/" ++ rest, false)] = [].
Proof.
  destruct Honly as (_ & Hs & Hu). split.
  - assert (Hbf : bad <> FLATTEN) by (intros ->; done). assert (Hbo : bad <> utf8 only) by congruence.
    unfold flatten_module_root, pbind, guard_io, pret, pfail. cbn [io_list io_ok collect_entries].
    unfold pbind, guard_io, pret, pfail. cbn [io_access io_ok collect_entries]. rewrite Hbad, Hu, Hjunk. cbn [app].
    cbn [io_type io_aside io_nested io_inner io_ok andb entry].
    assert (Haside : (if bool_decide (utf8 only = FLATTEN) then [(bad, TFile x); (utf8 only, TDir [(f, TFile content)])]
       else set_entry FLATTEN (TDir [(f, TFile content)]) (remove_entry (utf8 only) [(bad, TFile x); (utf8 only, TDir [(f, TFile content)])]))
       = [(bad, TFile x); (FLATTEN, TDir [(f, TFile content)])]).
    { case_bool_decide as E; [by rewrite E|]. unfold remove_entry. rewrite filter_cons_True by done.
      rewrite filter_cons_False by (cbn; tauto). rewrite filter_nil. cbn [set_entry]. by rewrite decide_False. }
    rewrite Haside.
    assert (Hmay : (bool_decide (utf8 only = FLATTEN) || may_replace (TDir [(f, TFile content)])
      (if decide (FLATTEN = bad) then Some (TFile x) else if decide (FLATTEN = utf8 only) then Some (TDir [(f, TFile content)]) else None)) = true).
    { case_bool_decide as E; [done|]. rewrite !decide_False by congruence. done. }
    rewrite Hmay. cbn [move_children]. unfold pbind, guard_io, pret, pfail. cbn [io_child io_move io_ok andb entry].
    rewrite (decide_False (P := f = bad)), (decide_False (P := f = FLATTEN)) by done. cbn [may_replace set_entry].
    rewrite (decide_False (P := FLATTEN = bad)), (decide_True (P := FLATTEN = FLATTEN)) by congruence. cbn [set_entry].
    rewrite (decide_False (P := f = bad)), (decide_False (P := f = FLATTEN)) by done. cbn [set_entry].
    unfold remove_entry. rewrite filter_cons_True by done. rewrite filter_cons_False by (cbn; tauto).
    rewrite filter_cons_True by done. done.
  - unfold common_root, top_names. rewrite !fmap_cons. cbn [fst].
    rewrite (split_no_sep 47 shown Hslash). change (only ++ lit "/" ++ rest) with (only ++ 47 :: rest).
    rewrite (split_app_sep 47 only rest Hs). cbn [head default fmap list_fmap].
    assert (Hj : forall t, is_junk t = false -> (negb (starts_with (lit "._") t) && negb (bool_decide (t = lit ".DS_Store"))) = true).
    { intros t. unfold is_junk. by destruct (starts_with _ _), (bool_decide _). }
    rewrite !filter_cons_True by auto. rewrite filter_nil. cbn [remove_dups].
    destruct (decide_rel elem_of (id shown) [id only]) as [Hd|_]; [by apply list_elem_of_singleton in Hd|].
    by destruct (decide_rel elem_of (id only) []) as [Hd%elem_of_nil|_].
Qed.

(** ** Witnesses *)

Definition text_name_b (t : list Z) : bool :=
  negb (bool_decide (t = [])) && negb (bool_decide (47 ∈ t)) && bool_decide (from_utf8 (utf8 t) = Some t).
Lemma text_name_check t : text_name_b t = true -> text_name t.
Proof. unfold text_name_b. intros H. boolify. by split_and!. Qed.
Lemma good_members_check ms :
  forallb (λ m : list (list Z) * option (list Z), negb (bool_decide (m.1 = [])) && forallb text_name_b m.1) ms = true ->
  Forall good_member ms.
Proof.
  rewrite forallb_forall, Forall_forall. intros H m Hm%list_elem_of_In%H. boolify. split; [done|].
  rewrite Forall_forall. intros t Ht. apply text_name_check. rewrite forallb_forall in *. by apply H1, list_elem_of_In.
Qed.

Lemma place_top t p v d : exists x,
  place (t :: p) v d = set_entry t x d
  /\ (match x with TFile _ => p = [] /\ is_Some v | TDir _ => p <> [] \/ v = None end).
Proof.
  cbn [place]. destruct p as [|q p], v as [bs|]; eexists; (split; [reflexivity|]); cbn; eauto.
Qed.

(** The top of the unpacked tree: one entry per first name, a file exactly
    when the last member with that name is one. *)
Lemma place_all_top ms : Forall (λ m, m.1 <> []) ms -> unpacked_top ms (place_all ms []).
Proof.
  unfold unpacked_top.
  induction ms as [|m ms IH] using rev_ind; intros Hne; [by split; [constructor|]; intros n; apply not_elem_of_nil|].
  apply Forall_app in Hne as [Hne [Hm _]%Forall_cons]. destruct (IH Hne) as [Hnd He]. 
  replace (place_all (ms ++ [m]) []) with (place m.1 m.2 (place_all ms [])) by (unfold place_all; by rewrite foldl_app). destruct m as [[|t p] v]; [done|].
  cbn [fst snd]. destruct (place_top t p v (place_all ms [])) as (x & -> & Hx). split; [by apply set_entry_nodup|].
  intros n. destruct (decide (n = t)) as [->|Hn].
  - rewrite entry_set. destruct x as [bs|es]; exists (t :: p, v); (split; [apply elem_of_app; right; by left|]); (split; [done|]).
    + destruct Hx as [-> Hv]. by split.
    + intros [Hl Hv]. cbn in Hl, Hv. destruct Hx as [Hp| ->]; [by destruct p|by destruct Hv].
  - rewrite entry_set_ne by done. specialize (He n). destruct (entry n (place_all ms [])) as [[]|].
    + destruct He as (m & Hin & ?). exists m. split; [apply elem_of_app; by left|done].
    + destruct He as (m & Hin & ?). exists m. split; [apply elem_of_app; by left|done].
    + rewrite fmap_app, elem_of_app. intros [?|Hin]; [done|]. apply list_elem_of_singleton in Hin. done.
Qed.

Definition web_members : list (list (list Z) * option (list Z)) :=
  [([lit "web"], None); ([lit "web"; lit "app"], Some [1]); ([lit "._web"], Some [2])].

Lemma common_root_agrees_with_storage_witness :
  exists prefix, common_root (as_path <$> web_members) = concat ((λ n, n ++ lit "/") <$> prefix)
    /\ read_path [lit "app"] [(lit "app", TFile [1])] = read_path ((utf8 <$> prefix) ++ [lit "app"]) (place_all (on_disk <$> web_members) []).
Proof.
  destruct (common_root_agrees_with_storage web_members (place_all (on_disk <$> web_members) []) io_ok tt [(lit "app", TFile [1])]) as (prefix & Hp & _ & Hr).
  - apply good_members_check. vm_compute. reflexivity.
  - intros p bs m Hp Hm [q Hq]. unfold web_members in Hp, Hm. rewrite !elem_of_cons, elem_of_nil in Hp, Hm.
    destruct Hp as [[=]|[[= -> ->]|[[= -> ->]|[]]]]; destruct Hm as [->|[->|[->|[]]]]; cbn in Hq; try discriminate;
      (split; [reflexivity|by eexists]).
  - apply place_all_top. repeat constructor; discriminate.
  - assert (Hd : place_all (on_disk <$> web_members) [] = [(lit "web", TDir [(lit "app", TFile [1])]); (lit "._web", TFile [2])]) by (vm_compute; reflexivity).
    rewrite Hd. unfold wf_dir. wf_demo.
  - intros n. reflexivity.
  - vm_compute. reflexivity.
  - exists prefix. split; [exact Hp|]. apply (Hr (lit "app") []). vm_compute. reflexivity.
Defined.

Lemma non_utf8_name_hides_manifest_witness :
  flatten_module_root io_ok [([255], TFile [1]); (lit "web", TDir [(lit "app", TFile [2])])]
    = (Ok tt, [([255], TFile [1]); (lit "app", TFile [2])])
  /\ common_root [([65533], false); (lit "web/app", false)] = [].
Proof.
  apply (non_utf8_name_hides_manifest [255] [65533] [1] (lit "web") (lit "app") [2] (lit "app")).
  - vm_compute. reflexivity.
  - apply text_name_check. vm_compute. reflexivity.
  - vm_compute. reflexivity.
  - vm_compute. discriminate.
  - intros Hin. apply list_elem_of_In in Hin. vm_compute in Hin. lia.
  - vm_compute. reflexivity.
  - vm_compute. discriminate.
  - vm_compute. discriminate.
Defined.

#[local] Instance web_reader : TarReader := {|
  tar_entries _ := Some [Some (mkEntry Directory (Some [CurDir; Normal (lit "web")]) []);
                         Some (mkEntry Regular (Some [Normal (lit "web"); Normal (lit "app")]) [1])] |}.
#[local] Instance web_text : BundleText := {| manifest_from_text _ := None; parse_migrations_dir _ := None |}.
Lemma inspected_bundle_is_contained_witness :
  exists es, tar_entries [] = Some es /\ Forall plain_entry es.
Proof. apply (inspected_bundle_is_contained [] (mkInfo None [])). vm_compute. reflexivity. Defined.
