(* ===== verification/TokenExchange.v ===== *)
(** * Exchange of module tokens: [services/token_exchange.rs], the token
    operations of [services/module/service.rs] and [security/manager.rs], the
    handler of [/modules/runtime/tokens] in [infra/http/routes.rs] and the
    lease monitor of [services/scheduler/service.rs]

    A running module exchanges its service token for a new one.  The state
    is the store of [ServiceTokens] with the rate windows of the exchange, the
    leases the module service has recorded and the audit trail.  The random
    token, its id and the clock readings of a call are arguments ([Reads]);
    times are nanoseconds. *)

From S2P Require Import Prelude Text Edge Roles ServiceTokens RateLimit Gateway Manifests.

#[local] Open Scope fenrir_scope.

(** ** Data *)

Definition RATE_LIMIT_WINDOW : Z := seconds 30.
Definition RATE_LIMIT_MAX_REQUESTS : Z := 60.
Definition DEFAULT_SERVICE_TENANT : string := "default".
Definition ALLOWED_MODULE_TOKEN_SCOPES : list text := [lit "db:write"].
Definition MODULE_TOKEN_ENDPOINT : text := lit "/modules/runtime/tokens".
Definition TOKEN_REFRESH_THRESHOLD_SECS : Z := 180.

Record RateBucket := mkBucket { b_start : Z; b_count : Z }.

Record ModuleTokenLease := mkLease { l_token : string; l_issued_at : Z; l_expires_at : Z; l_scopes : list ServiceScope }.

(** [ModuleRuntimeError::InvalidState] of the store's error, and the errors of the exchange. *)
Inductive TokenExchangeError := XRateLimited | XModule (e : ServiceTokenError).

Inductive AuditOutcome := Success | Failure.
Record ModuleTokenAuditContext := mkAudit {
  au_transport : text; au_endpoint : option text; au_requested_scopes : text; au_granted_scopes : text;
  au_reason : option text; au_expires_in_seconds : Z; au_outcome : AuditOutcome; au_error : option TokenExchangeError;
}.
(** The audit events of this part, with the data they are built from. *)
Inductive AuditEvent :=
| TokenIssue (c : DelegatedTokenClaims)
| TokenRevoke (c : DelegatedTokenClaims) (reason : string)
| TokenExchanged (module_id : text) (ctx : ModuleTokenAuditContext)
| LeaseRefresh (module_id : text) (ttl_secs : Z) (outcome : AuditOutcome) (error : option ServiceTokenError).

Record Exchange := mkExchange {
  x_tokens : ServiceTokenStore;
  x_windows : gmap string RateBucket;
  x_windows_poisoned : bool;
  x_leases : gmap text ModuleTokenLease;
  x_default_scopes : list ServiceScope;
  x_audit : list AuditEvent;
}.
Definition set_store (x : Exchange) s := mkExchange s (x_windows x) (x_windows_poisoned x) (x_leases x) (x_default_scopes x) (x_audit x).
Definition set_windows (x : Exchange) w := mkExchange (x_tokens x) w (x_windows_poisoned x) (x_leases x) (x_default_scopes x) (x_audit x).
Definition set_leases (x : Exchange) l := mkExchange (x_tokens x) (x_windows x) (x_windows_poisoned x) l (x_default_scopes x) (x_audit x).
Definition record_event (x : Exchange) (e : AuditEvent) :=
  mkExchange (x_tokens x) (x_windows x) (x_windows_poisoned x) (x_leases x) (x_default_scopes x) (x_audit x ++ [e]).

(** What a call reads from outside: the new token and its id, the readings
    of the monotonic clock by the rate limiter and by the token store, and
    of the wall clock by the validation, the grace check, the issue and the
    answer. *)
Record Reads := mkReads {
  r_token : string; r_uuid : string; r_t1 : Z; r_t2 : Z; r_t3 : Z;
  r_elapsed : Z; r_validate : Z; r_grace : Z; r_issue : Z; r_answer : Z;
}.

(** A host string as text; every [String] is well-formed UTF-8. *)
Definition bytes_of (s : string) : list Z := (λ a, Z.of_N (Ascii.N_of_ascii a)) <$> String.list_ascii_of_string s.
Definition text_of (s : string) : text := default [] (from_utf8 (bytes_of s)).

(** ** The security manager *)

Definition issue_service_token (x : Exchange) (req : DelegatedTokenRequest) (token uuid : string) (now : Z)
    : result (string * DelegatedTokenClaims) ServiceTokenError * Exchange :=
  match issue (x_tokens x) req token uuid now with
  | (Ok (token, c), s) => (Ok (token, c), record_event (set_store x s) (TokenIssue c))
  | (Err e, s) => (Err e, set_store x s)
  end.

Definition revoke_service_token (x : Exchange) (token reason : string) (elapsed now : Z)
    : result unit ServiceTokenError * Exchange :=
  let (r, s) := validate (x_tokens x) token elapsed now in
  let (done, s) := revoke s token in
  let x := set_store x s in
  match done with
  | Err e => (Err e, x)
  | Ok _ => (Ok tt, match r with Ok c => record_event x (TokenRevoke c reason) | Err _ => x end)
  end.

(** ** The module service *)

Definition module_service_id (module_id : ModuleId) : string := str_of (lit "module:" ++ id_text module_id).

Definition issue_service_token_with_scopes (x : Exchange) (module_id : ModuleId) (sc : list ServiceScope) (rd : Reads) :=
  issue_service_token x (with_scopes (new_request (Service (module_service_id module_id) SWrite) DEFAULT_SERVICE_TENANT) sc)
    (r_token rd) (r_uuid rd) (r_issue rd).

Definition issue_default_service_token (x : Exchange) (module_id : ModuleId) (rd : Reads) :=
  issue_service_token_with_scopes x module_id (x_default_scopes x) rd.

(** The default scopes, then the extra ones that are not there yet. *)
Definition merge_scopes (base extra : list ServiceScope) : list ServiceScope :=
  foldl (λ merged scope, if bool_decide (scope ∈ merged) then merged else merged ++ [scope]) base extra.

Definition issue_scoped_service_token (x : Exchange) (module_id : ModuleId) (extra : list ServiceScope) (rd : Reads) :=
  issue_service_token_with_scopes x module_id (merge_scopes (x_default_scopes x) extra) rd.

Definition lease_from (token : string * DelegatedTokenClaims) : ModuleTokenLease :=
  mkLease token.1 (issued_at token.2) (expires_at token.2) (scopes token.2).

Definition record_service_token (x : Exchange) (module_id : ModuleId) (token : string * DelegatedTokenClaims) : Exchange :=
  set_leases x (<[id_text module_id := lease_from token]> (x_leases x)).

Definition take_service_token (x : Exchange) (module_id : ModuleId) : option ModuleTokenLease * Exchange :=
  (x_leases x !! id_text module_id, set_leases x (delete (id_text module_id) (x_leases x))).

(** A failed revocation is only logged. *)
Definition revoke_service_token_if_any (x : Exchange) (module_id : ModuleId) (reason : string) (elapsed now : Z) : Exchange :=
  match take_service_token x module_id with
  | (Some lease, x) => (revoke_service_token x (l_token lease) reason elapsed now).2
  | (None, x) => x
  end.

Definition refresh_service_token (x : Exchange) (module_id : ModuleId) (rd : Reads) : result ModuleTokenLease ServiceTokenError * Exchange :=
  match issue_default_service_token x module_id rd with
  | (Ok token, x) => (Ok (lease_from token), record_service_token x module_id token)
  | (Err e, x) => (Err e, x)
  end.

(** [whole_seconds] truncates towards zero. *)
Definition whole_seconds (d : Z) : Z := Z.quot d NANOS.
Definition seconds_until_expiry (l : ModuleTokenLease) (now : Z) : Z := whole_seconds (l_expires_at l - now).
Definition is_expired (l : ModuleTokenLease) (now : Z) : bool := seconds_until_expiry l now <=? 0.

(** ** The exchange service *)

(** The body of [check_rate_limit] under the lock. *)
Definition check_windows (ws : gmap string RateBucket) (key : string) (t1 t2 t3 : Z) : bool * gmap string RateBucket :=
  let entry := default (mkBucket t1 0) (ws !! key) in
  let entry := if RATE_LIMIT_WINDOW <? Z.max 0 (t2 - b_start entry) then mkBucket t3 0 else entry in
  if RATE_LIMIT_MAX_REQUESTS <=? b_count entry then (false, <[key := entry]> ws)
  else (true, <[key := mkBucket (b_start entry) (b_count entry + 1)]> ws).

Definition check_rate_limit (x : Exchange) (module_id : ModuleId) (rd : Reads) : bool * Exchange :=
  if x_windows_poisoned x then (false, x)
  else let (ok, ws) := check_windows (x_windows x) (str_of (id_text module_id)) (r_t1 rd) (r_t2 rd) (r_t3 rd) in (ok, set_windows x ws).

(** The common body of [issue_default_token] and [issue_scoped_token]:
    [sc] is [None] for the default scopes. *)
Definition issue_token (x : Exchange) (module_id : ModuleId) (sc : option (list ServiceScope)) (rd : Reads)
    : result (string * DelegatedTokenClaims) TokenExchangeError * Exchange :=
  match check_rate_limit x module_id rd with
  | (false, x) => (Err XRateLimited, x)
  | (true, x) =>
      match match sc with
            | None => issue_default_service_token x module_id rd
            | Some sc => issue_scoped_service_token x module_id sc rd
            end with
      | (Err e, x) => (Err (XModule e), x)
      | (Ok token, x) => (Ok token, record_service_token x module_id token)
      end
  end.
Definition issue_default_token x module_id rd := issue_token x module_id None rd.
Definition issue_scoped_token x module_id sc rd := issue_token x module_id (Some sc) rd.

(** The rate bucket starts anew after a forced refresh; [r_t1] is the reading of [reset]. *)
Definition force_refresh (x : Exchange) (module_id : ModuleId) (rd : Reads) : result ModuleTokenLease ServiceTokenError * Exchange :=
  match refresh_service_token x module_id rd with
  | (Err e, x) => (Err e, x)
  | (Ok lease, x) =>
      let key := str_of (id_text module_id) in
      (Ok lease, if x_windows_poisoned x then x
                 else match x_windows x !! key with
                      | Some _ => set_windows x (<[key := mkBucket (r_t1 rd) 0]> (x_windows x))
                      | None => x
                      end)
  end.

(** ** The lease monitor: one run of the job *)

(** One lease of the snapshot: [now] is the reading of the check, the
    readings of the refresh and of the audit are in [rd]. *)
Definition monitor_lease (x : Exchange) (module_id : ModuleId) (lease : ModuleTokenLease) (now : Z) (rd : Reads) : Exchange :=
  if seconds_until_expiry lease now <=? TOKEN_REFRESH_THRESHOLD_SECS then
    match force_refresh x module_id rd with
    | (Ok new_lease, x) => record_event x (LeaseRefresh (id_text module_id) (seconds_until_expiry new_lease (r_answer rd)) Success None)
    | (Err e, x) => record_event x (LeaseRefresh (id_text module_id) (seconds_until_expiry lease (r_answer rd)) Failure (Some e))
    end
  else x.

(** The leases in the order the hash map gives them, each with its readings. *)
Fixpoint monitor_leases (x : Exchange) (leases : list (ModuleId * ModuleTokenLease * (Z * Reads))) : Exchange :=
  match leases with
  | [] => x
  | (module_id, lease, (now, rd)) :: rest => monitor_leases (monitor_lease x module_id lease now rd) rest
  end.

(** ** The handler of [/modules/runtime/tokens] *)

Inductive Message :=
| MGateway (r : Reason)
| module_token_invalid_service (service_id : string)
| module_token_service_only
| module_token_scope_invalid (scope : text)
| token_exchange_unavailable
| token_exchange_rate_limited
| module_token_issue_failed (e : ServiceTokenError).
Record Refusal := mkRefusal { status : Z; message : Message }.
Definition of_problem (p : Problem) : Refusal := mkRefusal (p_status p) (MGateway (p_reason p)).

Definition module_id_from_claims (c : DelegatedTokenClaims) : result ModuleId Refusal :=
  match actor c with
  | Service service_id _ =>
      match strip_prefix (lit "module:") (text_of service_id) with
      | None => Err (mkRefusal 403 (module_token_invalid_service service_id))
      | Some raw_id => map_err (λ _, mkRefusal 400 (module_token_invalid_service service_id)) (ModuleId_new raw_id)
      end
  | _ => Err (mkRefusal 403 module_token_service_only)
  end.

Fixpoint parse_requested_scopes (parsed : list ServiceScope) (requested : list text) : result (list ServiceScope) Refusal :=
  match requested with
  | [] => Ok parsed
  | scope :: rest =>
      let scope_trimmed := trim scope in
      if negb (bool_decide (scope_trimmed ∈ ALLOWED_MODULE_TOKEN_SCOPES)) then Err (mkRefusal 400 (module_token_scope_invalid scope_trimmed))
      else
        parsed_scope <-? map_err (λ _, mkRefusal 400 (module_token_scope_invalid scope_trimmed)) (ServiceScope.new scope_trimmed);;
        parse_requested_scopes (if bool_decide (parsed_scope ∈ parsed) then parsed else parsed ++ [parsed_scope]) rest
  end.

Definition token_expires_in_seconds (c : DelegatedTokenClaims) (now : Z) : Z :=
  if expires_at c <=? now then 0 else Z.max (whole_seconds (expires_at c - now)) 0.

Definition format_requested_scope_list (requested : list text) : text :=
  if bool_decide (requested = []) then lit "-"
  else join (lit ",") (filter (λ s, s <> []) (trim <$> requested)).
Definition format_granted_scope_list (granted : list ServiceScope) : text :=
  if bool_decide (granted = []) then lit "-" else join (lit ",") (scope_text <$> granted).

Definition effective_reason (grace : bool) (reason : option text) : option text :=
  if grace then
    Some (lit "grace_period_refresh" ++ default [] ((λ r, lit " (original: " ++ r ++ lit ")") <$> reason))
  else reason.

Record ExchangeRequest := mkExchangeRequest { q_scopes : list text; q_reason : option text }.
Record ExchangeResponse := mkExchangeResponse { s_token : string; s_scopes : list text; s_expires_in_seconds : Z }.
(** Which of the services the host has. *)
Record Available := mkAvailable { has_module_service : bool; has_token_exchange : bool; has_security_manager : bool }.
#[global] Instance Available_eq_dec : EqDecision Available.
Proof. solve_decision. Defined.

Section Handler.
Context {HT : HttpTypes}.

Definition issue_module_service_token (av : Available) (headers : ProxyHeaders.HeaderMap) (payload : ExchangeRequest)
    (rd : Reads) (x : Exchange) : result ExchangeResponse Refusal * Exchange :=
  if negb (has_module_service av) then (Err (mkRefusal 503 (MGateway module_service_missing)), x)
  else if negb (has_token_exchange av) then (Err (mkRefusal 503 token_exchange_unavailable), x)
  else if negb (has_security_manager av) then (Err (mkRefusal 503 (MGateway gateway_security_unavailable)), x)
  else
    match extract_gateway_token headers with
    | Err p => (Err (of_problem p), x)
    | Ok token =>
        match validate_for_refresh (x_tokens x) (str_of token) (r_elapsed rd) (r_validate rd) with
        | (Err e, s) => (Err (of_problem (map_service_token_error e)), set_store x s)
        | (Ok claims, s) =>
            let x := set_store x s in
            let grace_refresh := expires_at claims <=? r_grace rd in
            match module_id_from_claims claims with
            | Err problem => (Err problem, x)
            | Ok module_id =>
                let reason := effective_reason grace_refresh (q_reason payload) in
                match parse_requested_scopes [] (q_scopes payload) with
                | Err problem => (Err problem, x)
                | Ok sc =>
                    let audit granted expires outcome error :=
                      mkAudit (lit "control-plane") (Some MODULE_TOKEN_ENDPOINT) (format_requested_scope_list (q_scopes payload))
                        (default (lit "-") (format_granted_scope_list <$> granted)) reason expires outcome error in
                    match (if bool_decide (sc = []) then issue_default_token x module_id rd else issue_scoped_token x module_id sc rd) with
                    | (Err e, x) =>
                        (Err match e with
                             | XRateLimited => mkRefusal 429 token_exchange_rate_limited
                             | XModule e => mkRefusal 500 (module_token_issue_failed e)
                             end,
                         record_event x (TokenExchanged (id_text module_id) (audit None 0 Failure (Some e))))
                    | (Ok (token, claims), x) =>
                        let expires_in_seconds := token_expires_in_seconds claims (r_answer rd) in
                        (Ok (mkExchangeResponse token (scope_text <$> scopes claims) expires_in_seconds),
                         record_event x (TokenExchanged (id_text module_id) (audit (Some (scopes claims)) expires_in_seconds Success None)))
                    end
                end
            end
        end
    end.
End Handler.
