(* ===== verification/TokenExchangeSafety.v ===== *)
(** * What the exchange of module tokens guarantees

    When an exchange succeeds and what it grants, which identities can appear
    by exchanges, the rate of exchanges, the leases after a run of the lease
    monitor, and what stopping a module revokes.  Theorems about
    [TokenExchange]. *)

From S2P Require Import Prelude Text Edge Roles ServiceTokens RateLimit Gateway Manifests TokenExchange.

#[local] Open Scope fenrir_scope.

(** ** The store under one call *)

Definition same_limits (s s' : ServiceTokenStore) : Prop :=
  lifetime s' = lifetime s /\ idle_timeout s' = idle_timeout s /\ refresh_grace s' = refresh_grace s /\ poisoned s' = poisoned s.

Lemma same_limits_trans s1 s2 s3 : same_limits s1 s2 -> same_limits s2 s3 -> same_limits s1 s3.
Proof. intros (? & ? & ? & ?) (? & ? & ? & ?). repeat split; congruence. Qed.

Lemma validate_with_limits s token elapsed now l : same_limits s (validate_with s token elapsed now l).2.
Proof.
  unfold validate_with, cleanup_if_needed, cleanup_claim, sweep, validate_read, validate_write. rewrite Z.eqb_refl. cbn.
  repeat case_match; simplify_eq; cbn; repeat split; congruence.
Qed.

(** What is in the store after a validation was there before, with the same claims. *)
Lemma validate_with_claims s token elapsed now l t e' : poisoned s = false ->
  tokens (validate_with s token elapsed now l).2 !! t = Some e' -> exists e, tokens s !! t = Some e /\ claims e = claims e'.
Proof.
  intros Hp. destruct (cleanup_cases s elapsed now Hp) as (s1 & Hc & Hp1 & _). rewrite (validate_with_after _ _ _ _ _ _ Hc Hp1).
  assert (Hback : forall u e, tokens s1 !! u = Some e -> tokens s !! u = Some e) by (intros u e; by apply (cleanup_lookup_some s s1 elapsed now u e Hp Hc)).
  destruct (tokens s1 !! token) as [e|] eqn:Et; [|cbn; eauto].
  destruct (verdict e now l); cbn.
  - destruct (decide (t = token)) as [->|]; [rewrite lookup_insert_eq|rewrite lookup_insert_ne by done; eauto].
    intros [= <-]. exists e. auto.
  - intros [_ ?]%lookup_delete_Some. eauto.
  - intros [_ ?]%lookup_delete_Some. eauto.
Qed.

(** A token within its refresh window survives a validation of another. *)
Lemma validate_with_keeps s token elapsed now l t e : poisoned s = false -> t <> token ->
  tokens s !! t = Some e -> verdict e now (refresh_limits s) = VValid ->
  tokens (validate_with s token elapsed now l).2 !! t = Some e.
Proof.
  intros Hp Hne Ht Hv. destruct (cleanup_cases s elapsed now Hp) as (s1 & Hc & Hp1 & _). rewrite (validate_with_after _ _ _ _ _ _ Hc Hp1).
  assert (H1 : tokens s1 !! t = Some e) by (apply (cleanup_lookup_valid s s1 elapsed now t e _ Hp (refresh_within s) Hc Hv); done).
  destruct (tokens s1 !! token) as [e0|]; [destruct (verdict e0 now l)|]; cbn; rewrite ?lookup_insert_ne, ?lookup_delete_ne by done; done.
Qed.

(** ** Module identities *)

Lemma id_chars_ascii t : forallb is_id_char t = true -> Forall (λ c, 0 <= c < 128) t.
Proof.
  intros H. apply Forall_forall. intros c Hc. rewrite forallb_forall in H. specialize (H c (proj1 (list_elem_of_In _ _) Hc)).
  unfold is_id_char, is_ascii_lower, is_ascii_digit in H. rewrite !orb_true_iff, !andb_true_iff, ?Z.leb_le, ?Z.eqb_eq in H. lia.
Qed.

Lemma bytes_of_ascii t : Forall (λ c, 0 <= c < 128) t -> bytes_of (str_of t) = t.
Proof.
  intros H. unfold bytes_of, str_of. rewrite String.list_ascii_of_string_of_list_ascii, (proj1 (utf8_ascii t H)).
  induction H as [|c t Hc _ IH]; [done|]. cbn. rewrite IH, Ascii.N_ascii_embedding by lia. f_equal. lia.
Qed.

Lemma text_of_ascii t : Forall (λ c, 0 <= c < 128) t -> text_of (str_of t) = t.
Proof. intros H. unfold text_of. by rewrite bytes_of_ascii, (proj2 (utf8_ascii t H)) by done. Qed.

Definition id_ok (i : ModuleId) : Prop := id_text i <> [] /\ forallb is_id_char (id_text i) = true.

Lemma module_id_ok value i : ModuleId_new value = Ok i -> id_ok i.
Proof.
  unfold ModuleId_new, id_ok. destruct (trim value) as [|c t]; [done|]. destruct (forallb is_id_char (c :: t)) eqn:E; [|done].
  by intros [= <-].
Qed.

Lemma module_id_new_ok i : id_ok i -> ModuleId_new (id_text i) = Ok i.
Proof.
  intros [Hne Hok]. unfold ModuleId_new. rewrite trim_no_ws.
  - destruct i as [[|c t]]; [done|]. cbn [id_text] in *. by rewrite Hok.
  - apply Forall_forall. intros c Hc. apply id_char_not_ws. rewrite forallb_forall in Hok. apply Hok. by apply list_elem_of_In.
Qed.

Lemma claims_id_ok c i : module_id_from_claims c = Ok i -> id_ok i.
Proof.
  unfold module_id_from_claims. destruct (actor c) as [|sid r]; [done|]. destruct (strip_prefix _ _) as [raw|]; [|done].
  destruct (ModuleId_new raw) as [j|] eqn:E; [|done]. cbn. intros [= ->]. by eapply module_id_ok.
Qed.

(** The identity of a token that was issued for a module is that module's. *)
Lemma module_service_identity i c r : id_ok i -> actor c = Service (module_service_id i) r -> module_id_from_claims c = Ok i.
Proof.
  intros Hi Ha. unfold module_id_from_claims. rewrite Ha. unfold module_service_id. rewrite text_of_ascii.
  - rewrite (proj2 (strip_prefix_some _ _ (id_text i))) by done. by rewrite module_id_new_ok.
  - apply Forall_app. split; [repeat constructor; lia|]. apply id_chars_ascii, Hi.
Qed.

(** ** Scopes *)

Lemma merge_scopes_elem base extra sc : sc ∈ merge_scopes base extra <-> sc ∈ base \/ sc ∈ extra.
Proof.
  unfold merge_scopes. revert base. induction extra as [|e extra IH]; intros base; cbn; [set_solver|].
  rewrite IH. case_bool_decide; set_solver.
Qed.

Lemma allowed_scope_ok scope : trim scope ∈ ALLOWED_MODULE_TOKEN_SCOPES -> ServiceScope.new (trim scope) = Ok (mkScope (lit "db:write")).
Proof. unfold ALLOWED_MODULE_TOKEN_SCOPES. intros ->%list_elem_of_singleton. reflexivity. Qed.

(** Accepted requests are lists of allowed scopes, and what is parsed is
    exactly what was asked for. *)
Lemma parse_requested_exact parsed requested sc :
  parse_requested_scopes parsed requested = Ok sc <->
  Forall (λ s, trim s ∈ ALLOWED_MODULE_TOKEN_SCOPES) requested /\
  sc = (if bool_decide (requested = []) then parsed else merge_scopes parsed [mkScope (lit "db:write")]).
Proof.
  revert parsed. induction requested as [|s requested IH]; intros parsed; cbn [parse_requested_scopes].
  - cbn. split; [intros [= <-]; auto|]. by intros [_ ->].
  - rewrite (bool_decide_eq_false_2 (s :: requested = [])) by done. destruct (bool_decide_reflect (trim s ∈ ALLOWED_MODULE_TOKEN_SCOPES)) as [Ha|Ha].
    + cbn [negb]. rewrite allowed_scope_ok by done. cbn [map_err result_bind]. rewrite IH, Forall_cons.
      assert (Hm : (if bool_decide (requested = []) then merge_scopes parsed [mkScope (lit "db:write")]
        else merge_scopes (merge_scopes parsed [mkScope (lit "db:write")]) [mkScope (lit "db:write")]) = merge_scopes parsed [mkScope (lit "db:write")]).
      { case_bool_decide; [done|]. unfold merge_scopes at 1. cbn [foldl]. rewrite bool_decide_eq_true_2; [done|]. apply merge_scopes_elem. set_solver. }
      change (if bool_decide (mkScope (lit "db:write") ∈ parsed) then parsed else parsed ++ [mkScope (lit "db:write")])
        with (merge_scopes parsed [mkScope (lit "db:write")]). rewrite Hm. tauto.
    + cbn [negb]. split; [done|]. by intros [[? _]%Forall_cons _].
Qed.

(** ** One exchange *)

Section OneExchange.
Context {HT : HttpTypes}.

Definition granted_scopes (x : Exchange) (requested : list text) : list ServiceScope :=
  if bool_decide (requested = []) then x_default_scopes x else merge_scopes (x_default_scopes x) [mkScope (lit "db:write")].

Definition granted_claims (x : Exchange) (i : ModuleId) (requested : list text) (rd : Reads) : DelegatedTokenClaims :=
  mkClaims (r_uuid rd) (Service (module_service_id i) SWrite) DEFAULT_SERVICE_TENANT (granted_scopes x requested)
    (r_issue rd) (r_issue rd + lifetime (x_tokens x)).

(** The conditions of the handler, in its order. *)
Definition may_exchange (hs : ProxyHeaders.HeaderMap) (payload : ExchangeRequest) (rd : Reads) (x : Exchange) (i : ModuleId) : Prop :=
  exists token e, extract_gateway_token hs = Ok token /\ tokens (x_tokens x) !! str_of token = Some e
    /\ r_validate rd < expires_at (claims e) + refresh_grace (x_tokens x)
    /\ r_validate rd - last_activity e <= idle_timeout (x_tokens x) + refresh_grace (x_tokens x)
    /\ module_id_from_claims (claims e) = Ok i
    /\ Forall (λ s, trim s ∈ ALLOWED_MODULE_TOKEN_SCOPES) (q_scopes payload)
    /\ x_windows_poisoned x = false
    /\ (check_windows (x_windows x) (str_of (id_text i)) (r_t1 rd) (r_t2 rd) (r_t3 rd)).1 = true.

(** The state a successful exchange leaves. *)
Definition exchanged (token : string) (payload : ExchangeRequest) (rd : Reads) (x x' : Exchange) (i : ModuleId) : Prop :=
  let s := (validate_for_refresh (x_tokens x) token (r_elapsed rd) (r_validate rd)).2 in
  let c := granted_claims x i (q_scopes payload) rd in
  x_tokens x' = set_tokens s (<[r_token rd := new_entry c (r_issue rd)]> (tokens s))
  /\ x_leases x' = <[id_text i := lease_from (r_token rd, c)]> (x_leases x)
  /\ x_windows x' = (check_windows (x_windows x) (str_of (id_text i)) (r_t1 rd) (r_t2 rd) (r_t3 rd)).2
  /\ x_default_scopes x' = x_default_scopes x /\ x_windows_poisoned x' = x_windows_poisoned x.

Lemma issue_token_cases x i requested rd : poisoned (x_tokens x) = false ->
  let sc := if bool_decide (requested = []) then None else Some [mkScope (lit "db:write")] in
  let c := granted_claims x i requested rd in
  match issue_token x i sc rd with
  | (Ok t, x') => t = (r_token rd, c) /\ x_windows_poisoned x = false
      /\ (check_windows (x_windows x) (str_of (id_text i)) (r_t1 rd) (r_t2 rd) (r_t3 rd)).1 = true
      /\ x_tokens x' = set_tokens (x_tokens x) (<[r_token rd := new_entry c (r_issue rd)]> (tokens (x_tokens x)))
      /\ x_leases x' = <[id_text i := lease_from (r_token rd, c)]> (x_leases x)
      /\ x_windows x' = (check_windows (x_windows x) (str_of (id_text i)) (r_t1 rd) (r_t2 rd) (r_t3 rd)).2
      /\ x_default_scopes x' = x_default_scopes x /\ x_windows_poisoned x' = x_windows_poisoned x
  | (Err e, x') => e = XRateLimited /\ x_tokens x' = x_tokens x
      /\ (x_windows_poisoned x = true \/ (check_windows (x_windows x) (str_of (id_text i)) (r_t1 rd) (r_t2 rd) (r_t3 rd)).1 = false)
      /\ x_leases x' = x_leases x /\ x_default_scopes x' = x_default_scopes x
  end.
Proof.
  intros Hp. unfold issue_token, check_rate_limit. destruct (x_windows_poisoned x) eqn:Ew; [cbn; auto|].
  destruct (check_windows _ _ _ _ _) as [[] ws]; [|cbn; auto].
  unfold granted_claims, granted_scopes. case_bool_decide; cbn -[check_windows];
    unfold issue_default_service_token, issue_scoped_service_token, issue_service_token_with_scopes, issue_service_token, issue; cbn; rewrite Hp; cbn; repeat split; done.
Qed.

Lemma parsed_choice (requested : list text) (sc : list ServiceScope) (x : Exchange) i rd :
  sc = (if bool_decide (requested = []) then [] else merge_scopes [] [mkScope (lit "db:write")]) ->
  (if bool_decide (sc = []) then issue_default_token x i rd else issue_scoped_token x i sc rd) =
  issue_token x i (if bool_decide (requested = []) then None else Some [mkScope (lit "db:write")]) rd.
Proof. intros ->. destruct (bool_decide (requested = [])); reflexivity. Qed.

Definition all_available : Available := mkAvailable true true true.

(** The handler on every branch: success exactly under [may_exchange], with
    the state [exchanged]; a refusal issues nothing and records no lease. *)
Lemma exchange_cases hs payload rd x : poisoned (x_tokens x) = false ->
  match issue_module_service_token all_available hs payload rd x with
  | (Ok resp, x') => exists i token, may_exchange hs payload rd x i /\ extract_gateway_token hs = Ok token
      /\ exchanged (str_of token) payload rd x x' i
      /\ resp = mkExchangeResponse (r_token rd) (scope_text <$> granted_scopes x (q_scopes payload))
                  (token_expires_in_seconds (granted_claims x i (q_scopes payload) rd) (r_answer rd))
  | (Err _, x') => (forall i, ~ may_exchange hs payload rd x i)
      /\ x_leases x' = x_leases x /\ x_default_scopes x' = x_default_scopes x
      /\ (x_tokens x' = x_tokens x \/ exists token, x_tokens x' = (validate_for_refresh (x_tokens x) token (r_elapsed rd) (r_validate rd)).2)
  end.
Proof.
  intros Hp. unfold issue_module_service_token. cbn [negb has_module_service has_token_exchange has_security_manager all_available].
  destruct (extract_gateway_token hs) as [token|p] eqn:Ex.
  2: { split_and!; [|done|done|by left]. intros i (? & ? & ? & _). congruence. }
  pose proof (validate_with_ok_iff (x_tokens x) (str_of token) (r_elapsed rd) (r_validate rd) (refresh_limits (x_tokens x))) as Hok.
  specialize (fun c => Hok c Hp (refresh_within _)). fold (validate_for_refresh (x_tokens x) (str_of token) (r_elapsed rd) (r_validate rd)) in Hok.
  assert (Hmay : forall i, may_exchange hs payload rd x i -> exists c, (validate_for_refresh (x_tokens x) (str_of token) (r_elapsed rd) (r_validate rd)).1 = Ok c
    /\ module_id_from_claims c = Ok i).
  { intros i (t & e & Ht & He & H1 & H2 & Hi & _). assert (t = token) as -> by congruence. exists (claims e). split; [|done].
    apply Hok. exists e. split_and!; [done|done|]. apply verdict_valid_iff. cbn. lia. }
  pose proof (validate_with_poisoned (x_tokens x) (str_of token) (r_elapsed rd) (r_validate rd) (refresh_limits (x_tokens x)) Hp) as Hp1.
  pose proof (validate_with_limits (x_tokens x) (str_of token) (r_elapsed rd) (r_validate rd) (refresh_limits (x_tokens x))) as Hlim.
  fold (validate_for_refresh (x_tokens x) (str_of token) (r_elapsed rd) (r_validate rd)) in Hp1, Hlim.
  destruct (validate_for_refresh (x_tokens x) (str_of token) (r_elapsed rd) (r_validate rd)) as [[c|err] s] eqn:Ev; cbn [fst snd] in *.
  2: { split_and!; [|done|done|right; exists (str_of token); by rewrite Ev]. intros i (c & ? & _)%Hmay. done. }
  destruct (module_id_from_claims c) as [i|pr] eqn:Ei.
  2: { split_and!; [|done|done|right; exists (str_of token); by rewrite Ev]. intros i (c' & [= <-] & ?)%Hmay. congruence. }
  destruct (parse_requested_scopes [] (q_scopes payload)) as [sc|pr] eqn:Es.
  2: { split_and!; [|done|done|right; exists (str_of token); by rewrite Ev]. intros j (t & e & _ & _ & _ & _ & _ & Hall & _).
       pose proof (proj2 (parse_requested_exact [] (q_scopes payload) _) (conj Hall eq_refl)). congruence. }
  apply parse_requested_exact in Es as [Hall Hsc].
  rewrite (parsed_choice (q_scopes payload) sc _ i rd Hsc).
  pose proof (issue_token_cases (set_store x s) i (q_scopes payload) rd Hp1) as Hissue. cbv zeta in Hissue.
  destruct (issue_token _ _ _ _) as [[t|err] x']; cbn in Hissue.
  - destruct Hissue as (-> & Hw & Hck & Htok & Hl & Hws & Hd & Hwp). exists i, token.
    destruct Hlim as (Hlife & _).
    assert (Hg : granted_claims (set_store x s) i (q_scopes payload) rd = granted_claims x i (q_scopes payload) rd).
    { unfold granted_claims, granted_scopes. cbn. by rewrite Hlife. }
    rewrite Hg in *. split_and!; [|done| |done].
    + assert (exists e, tokens (x_tokens x) !! str_of token = Some e /\ claims e = c /\ verdict e (r_validate rd) (refresh_limits (x_tokens x)) = VValid)
        as (e & He & Hce & Hv) by by apply Hok. apply verdict_valid_iff in Hv. cbn in Hv. subst c.
      exists token, e. split_and!; (done || lia).
    + unfold exchanged. rewrite Ev. cbn. by split_and!.
  - destruct Hissue as (-> & Htok & Hrej & Hl & Hd). split_and!; [|done|done|right; exists (str_of token); rewrite Ev; done].
    intros j Hm. destruct (Hmay j Hm) as (c' & [= <-] & ?). assert (j = i) as -> by congruence.
    destruct Hm as (? & ? & _ & _ & _ & _ & _ & _ & ? & ?). destruct Hrej; congruence.
Qed.

(** C20: A module token is exchanged exactly when the request presents a
    token that the store holds within its refresh window, that belongs to a
    module, asks for allowed scopes only and finds the module below its rate;
    the new token belongs to the same module, with the write role, the host's
    tenant, a full lifetime and no scope beyond the host's defaults and
    [db:write]. *)
Theorem module_token_exchange_exact hs payload rd x : poisoned (x_tokens x) = false ->
  ((exists resp, (issue_module_service_token all_available hs payload rd x).1 = Ok resp) <-> exists i, may_exchange hs payload rd x i)
  /\ forall resp x', issue_module_service_token all_available hs payload rd x = (Ok resp, x') ->
     exists i e, may_exchange hs payload rd x i /\ tokens (x_tokens x') !! s_token resp = Some e
       /\ actor (claims e) = Service (module_service_id i) SWrite /\ tenant_id (claims e) = DEFAULT_SERVICE_TENANT
       /\ expires_at (claims e) = r_issue rd + lifetime (x_tokens x) /\ s_scopes resp = scope_text <$> scopes (claims e)
       /\ (forall sc, sc ∈ scopes (claims e) -> sc ∈ x_default_scopes x \/ sc = mkScope (lit "db:write"))
       /\ x_leases x' !! id_text i = Some (lease_from (s_token resp, claims e)).
Proof.
  intros Hp. pose proof (exchange_cases hs payload rd x Hp) as Hc.
  destruct (issue_module_service_token _ _ _ _ _) as [[resp|err] x'].
  - destruct Hc as (i & token & Hm & _ & (Ht & Hl & _) & ->). split; [split; eauto|]. intros _ _ [= <- <-]. exists i, (new_entry (granted_claims x i (q_scopes payload) rd) (r_issue rd)).
    cbn [s_token s_scopes]. rewrite Ht, Hl. cbn. rewrite !lookup_insert_eq. split_and!; try done.
    unfold granted_scopes. intros sc. case_bool_decide; [by left|]. rewrite merge_scopes_elem. set_solver.
  - destruct Hc as (Hno & _). split; [|done]. split; [by intros [? ?]|]. intros [i Hi]. by destruct (Hno i).
Qed.

(** ** Sequences of exchanges and stops *)

Inductive exchange_op :=
| OpExchange (av : Available) (hs : ProxyHeaders.HeaderMap) (payload : ExchangeRequest) (rd : Reads)
| OpStop (i : ModuleId) (reason : string) (elapsed now : Z).

Definition exchange_step (x : Exchange) (o : exchange_op) : Exchange :=
  match o with
  | OpExchange av hs payload rd => (issue_module_service_token av hs payload rd x).2
  | OpStop i reason elapsed now => revoke_service_token_if_any x i reason elapsed now
  end.

(** The claims [c] were in the store at the beginning, or are those of a
    module that had a token there, with no scope beyond the host's. *)
Definition descends (x0 : Exchange) (c : DelegatedTokenClaims) : Prop :=
  exists t e, tokens (x_tokens x0) !! t = Some e
    /\ (claims e = c \/ exists i, module_id_from_claims (claims e) = Ok i /\ actor c = Service (module_service_id i) SWrite
          /\ tenant_id c = DEFAULT_SERVICE_TENANT /\ forall sc, sc ∈ scopes c -> sc ∈ x_default_scopes x0 \/ sc = mkScope (lit "db:write")).

Definition all_descend (x0 x : Exchange) : Prop :=
  poisoned (x_tokens x) = false /\ x_default_scopes x = x_default_scopes x0
  /\ forall t e, tokens (x_tokens x) !! t = Some e -> descends x0 (claims e).

Lemma unavailable_unchanged av hs payload rd x : av <> all_available -> (issue_module_service_token av hs payload rd x).2 = x.
Proof. destruct av as [[] [] []]; intros H; try done. Qed.

Lemma validated_descend x0 x token elapsed now l : all_descend x0 x ->
  let s := (validate_with (x_tokens x) token elapsed now l).2 in
  poisoned s = false /\ forall t e, tokens s !! t = Some e -> descends x0 (claims e).
Proof.
  intros (Hp & _ & Hd). split; [by apply validate_with_poisoned|]. intros t e He.
  apply validate_with_claims in He as (e0 & He0 & <-); [by eapply Hd|done].
Qed.

Lemma revoke_tokens x token reason elapsed now : poisoned (x_tokens x) = false ->
  let s := (validate (x_tokens x) token elapsed now).2 in
  x_tokens (revoke_service_token x token reason elapsed now).2 = set_tokens s (delete token (tokens s))
  /\ x_leases (revoke_service_token x token reason elapsed now).2 = x_leases x
  /\ x_default_scopes (revoke_service_token x token reason elapsed now).2 = x_default_scopes x.
Proof.
  intros Hp. unfold revoke_service_token. pose proof (validate_with_poisoned (x_tokens x) token elapsed now (lifetime_limits (x_tokens x)) Hp) as Hp1.
  unfold validate. destruct (validate_with _ _ _ _ _) as [r s]. cbn in *. unfold revoke. rewrite Hp1. by destruct r.
Qed.

Lemma exchange_step_descend x0 x o : all_descend x0 x -> all_descend x0 (exchange_step x o).
Proof.
  intros Hx. pose proof Hx as (Hp & Hdef & Hd). destruct o as [av hs payload rd|i reason elapsed now]; cbn [exchange_step].
  - destruct (decide (av = all_available)) as [->|Hne]; [|by rewrite unavailable_unchanged].
    pose proof (exchange_cases hs payload rd x Hp) as Hc. destruct (issue_module_service_token _ _ _ _ _) as [[resp|err] x']; cbn [snd].
    + destruct Hc as (i & token & (t0 & e0 & Ht0 & He0 & _ & _ & Hi & _) & Ht & (Htok & _ & _ & Hdef' & _) & _).
      destruct (validated_descend x0 x (str_of token) (r_elapsed rd) (r_validate rd) (refresh_limits (x_tokens x)) Hx) as [Hp1 Hd1].
      split_and!; [by rewrite Htok|congruence|]. intros t e. rewrite Htok. cbn. intros [[<- <-]|[_ He]]%lookup_insert_Some; [|by eapply Hd1].
      destruct (Hd _ _ He0) as (t1 & e1 & He1 & Hcl). exists t1, e1. split; [done|]. right. exists i. cbn. split_and!; [|done|done|].
      * destruct Hcl as [->|(j & Hj & Ha & _)]; [done|]. rewrite (module_service_identity j (claims e0) SWrite) in Hi; [congruence|by eapply claims_id_ok|done].
      * intros sc. unfold granted_scopes. rewrite Hdef. case_bool_decide; [by left|]. rewrite merge_scopes_elem. set_solver.
    + destruct Hc as (_ & _ & Hdef' & [Ht|[token Ht]]); (split_and!; [|congruence|]); rewrite Ht; [done|done| |];
        by apply (validated_descend x0 x token (r_elapsed rd) (r_validate rd) (refresh_limits (x_tokens x))).
  - unfold revoke_service_token_if_any, take_service_token. destruct (x_leases x !! id_text i) as [lease|]; [|by split_and!].
    set (x1 := set_leases x _). destruct (revoke_tokens x1 (l_token lease) reason elapsed now Hp) as (Ht & _ & Hdef').
    destruct (validated_descend x0 x (l_token lease) elapsed now (lifetime_limits (x_tokens x)) Hx) as [Hp1 Hd1].
    split_and!; [by rewrite Ht|by rewrite Hdef'|]. intros t e. rewrite Ht. cbn. intros [_ He]%lookup_delete_Some. by eapply Hd1.
Qed.

(** C17: Exchanges give no module an identity or a scope it could not have: in
    every sequence of exchanges (any headers, payloads and clock readings) and
    module stops, each token of the store was there at the beginning or is a
    write token of a module that held one then, with the host's default
    scopes and at most [db:write] besides. *)
Theorem exchanges_add_no_identity x0 ops : poisoned (x_tokens x0) = false ->
  forall t e, tokens (x_tokens (foldl exchange_step x0 ops)) !! t = Some e -> descends x0 (claims e).
Proof.
  intros Hp. assert (all_descend x0 (foldl exchange_step x0 ops)) as (_ & _ & H); [|exact H].
  assert (H0 : all_descend x0 x0) by (split_and!; [done..|]; intros t e He; exists t, e; auto).
  revert H0. generalize x0 at 2 4. induction ops as [|o ops IH]; intros x Hx; cbn; [done|]. by apply IH, exchange_step_descend.
Qed.
End OneExchange.

(** ** The rate of exchanges *)

(** The windows as the gateway's limiter sees them: its window is one
    nanosecond longer, because the exchange starts a new window only when the
    old one is older than [RATE_LIMIT_WINDOW]. *)
Definition as_limiter (ws : gmap string RateBucket) : GatewayRateLimiter :=
  mkLimiter ((λ b, mkRate (b_start b) (b_count b)) <$> ws) (RATE_LIMIT_WINDOW + 1) RATE_LIMIT_MAX_REQUESTS.

Lemma check_windows_limiter ws key t1 t2 t3 :
  try_acquire_with_limit (as_limiter ws) key None t1 t2 t3 =
  ((check_windows ws key t1 t2 t3).1, as_limiter (check_windows ws key t1 t2 t3).2).
Proof.
  unfold try_acquire_with_limit, check_windows. cbn [default RateLimit.limit as_limiter inner window].
  change (RATE_LIMIT_MAX_REQUESTS =? 0) with false. cbv iota.
  assert (Hd : default (mkRate t1 0) (((λ b, mkRate (b_start b) (b_count b)) <$> ws) !! key) =
    mkRate (b_start (default (mkBucket t1 0) (ws !! key))) (b_count (default (mkBucket t1 0) (ws !! key)))).
  { rewrite lookup_fmap. by destruct (ws !! key). }
  rewrite Hd. clear Hd. unfold acquire_entry. cbn [window_start].
  set (b := default _ (ws !! key)).
  assert (Hc : (RATE_LIMIT_WINDOW + 1 <=? Z.max 0 (t2 - b_start b)) = (RATE_LIMIT_WINDOW <? Z.max 0 (t2 - b_start b))).
  { apply eq_true_iff_eq. rewrite Z.leb_le, Z.ltb_lt. lia. }
  rewrite Hc. destruct (RATE_LIMIT_WINDOW <? _); cbn [RateLimit.count window_start b_start b_count].
  - cbn. unfold as_limiter. by rewrite fmap_insert.
  - destruct (RATE_LIMIT_MAX_REQUESTS <=? b_count b); cbn; unfold as_limiter; by rewrite fmap_insert.
Qed.

(** Calls of [check_rate_limit] for modules, in order: which were admitted. *)
Fixpoint checks (ws : gmap string RateBucket) (calls : list call) : list bool :=
  match calls with
  | [] => []
  | c :: calls =>
      let (ok, ws) := check_windows ws (c_key c) (c_t1 c) (c_t2 c) (c_t3 c) in ok :: checks ws calls
  end.

Lemma checks_run ws calls : Forall (λ c, c_override c = None) calls -> (run (as_limiter ws) calls).1 = checks ws calls.
Proof.
  intros H. revert ws. induction H as [|c calls Hc _ IH]; intros ws; cbn [run checks]; [done|].
  rewrite Hc, check_windows_limiter. destruct (check_windows _ _ _ _ _) as [ok ws']. cbn [fst snd].
  specialize (IH ws'). destruct (run _ _) as [oks g]. cbn in *. by rewrite IH.
Qed.

(** The exchange issues at most 120 tokens to a module in any 30 seconds:
    from a new exchange service, for every sequence of rate checks under a
    clock that never runs backwards, whatever modules they are for and
    wherever the interval starts. *)
Theorem exchange_rate_bound a key calls : ordered 0 calls -> Forall (λ c, c_override c = None) calls ->
  admitted key a (a + RATE_LIMIT_WINDOW) calls (checks ∅ calls) <= 2 * RATE_LIMIT_MAX_REQUESTS.
Proof.
  intros Ho Hn. rewrite <- checks_run by done.
  assert (Hm : forall cs oks, admitted key a (a + RATE_LIMIT_WINDOW) cs oks <= admitted key a (a + (RATE_LIMIT_WINDOW + 1)) cs oks).
  { induction cs as [|c cs IH]; intros [|ok oks]; cbn [admitted]; try done. specialize (IH oks).
    destruct ok, (bool_decide _), (Z.leb_spec a (c_t2 c)), (Z.ltb_spec (c_t2 c) (a + RATE_LIMIT_WINDOW)), (Z.ltb_spec (c_t2 c) (a + (RATE_LIMIT_WINDOW + 1))); cbn [andb]; lia. }
  etrans; [apply Hm|].
  apply (run_bound (RATE_LIMIT_WINDOW + 1) RATE_LIMIT_MAX_REQUESTS a key 0 0 (as_limiter ∅) calls); try done.
  intros c Hc _. unfold effective. rewrite Forall_forall in Hn. by rewrite (Hn c Hc).
Qed.

(** ** Stopping a module *)

(** Stopping a module revokes its recorded token: the token is in the
    store no more, the lease is gone, and every other token within its
    refresh window stays as it was. *)
Theorem stop_revokes_recorded_token x i lease reason elapsed now : poisoned (x_tokens x) = false ->
  x_leases x !! id_text i = Some lease ->
  let x' := revoke_service_token_if_any x i reason elapsed now in
  tokens (x_tokens x') !! l_token lease = None
  /\ (forall elapsed' now', (validate_for_refresh (x_tokens x') (l_token lease) elapsed' now').1 = Err NotFound)
  /\ x_leases x' = delete (id_text i) (x_leases x)
  /\ forall t e, t <> l_token lease -> tokens (x_tokens x) !! t = Some e -> verdict e now (refresh_limits (x_tokens x)) = VValid ->
       tokens (x_tokens x') !! t = Some e.
Proof.
  intros Hp Hl. unfold revoke_service_token_if_any, take_service_token. rewrite Hl.
  set (x1 := set_leases x _). destruct (revoke_tokens x1 (l_token lease) reason elapsed now Hp) as (Ht & Hle & _).
  set (x' := (revoke_service_token x1 _ _ _ _).2) in *. cbv zeta.
  assert (Hgone : tokens (x_tokens x') !! l_token lease = None) by (rewrite Ht; apply lookup_delete_eq).
  assert (Hp' : poisoned (x_tokens x') = false).
  { rewrite Ht. cbn. apply (validate_with_poisoned (x_tokens x)). done. }
  split_and!; [done| |by rewrite Hle|].
  - intros. by apply validate_with_absent.
  - intros t e Hne He Hv. rewrite Ht. cbn. rewrite lookup_delete_ne by done. by apply (validate_with_keeps (x_tokens x)).
Qed.

Lemma force_refresh_ok x i rd : poisoned (x_tokens x) = false ->
  let c := granted_claims x i [] rd in
  exists x', force_refresh x i rd = (Ok (lease_from (r_token rd, c)), x')
    /\ x_tokens x' = set_tokens (x_tokens x) (<[r_token rd := new_entry c (r_issue rd)]> (tokens (x_tokens x)))
    /\ x_leases x' = <[id_text i := lease_from (r_token rd, c)]> (x_leases x) /\ x_default_scopes x' = x_default_scopes x.
Proof.
  intros Hp. unfold force_refresh, refresh_service_token, issue_default_service_token, issue_service_token_with_scopes, issue_service_token, issue.
  rewrite Hp. cbn. eexists. split; [done|]. cbn. repeat case_match; cbn; by split_and!.
Qed.

(** Stopping a module does not revoke the token its process holds once the
    lease monitor has run: the monitor replaces the recorded lease of a
    running module by a token the process never receives, the stop revokes
    that one, and the process's own token is still accepted for its identity
    and can still be exchanged. *)
Theorem monitored_token_outlives_stop x i lease now rd reason elapsed stop e elapsed' now' :
  poisoned (x_tokens x) = false -> 0 <= refresh_grace (x_tokens x) ->
  x_leases x !! id_text i = Some lease -> tokens (x_tokens x) !! l_token lease = Some e ->
  seconds_until_expiry lease now <= TOKEN_REFRESH_THRESHOLD_SECS -> r_token rd <> l_token lease ->
  stop <= now' -> now' < expires_at (claims e) -> now' - last_activity e <= idle_timeout (x_tokens x) ->
  let x1 := monitor_lease x i lease now rd in
  let x2 := revoke_service_token_if_any x1 i reason elapsed stop in
  x_leases x2 !! id_text i = None
  /\ (validate (x_tokens x2) (l_token lease) elapsed' now').1 = Ok (claims e)
  /\ (validate_for_refresh (x_tokens x2) (l_token lease) elapsed' now').1 = Ok (claims e).
Proof.
  intros Hp Hg Hl Ht Hsec Hne Hs Hexp Hidle. unfold monitor_lease. rewrite (proj2 (Z.leb_le _ _) Hsec).
  destruct (force_refresh_ok x i rd Hp) as (x' & -> & Htok & Hle & _). cbv zeta.
  set (x1 := record_event x' _). set (c := granted_claims x i [] rd) in *.
  assert (Hp1 : poisoned (x_tokens x1) = false) by (cbn; by rewrite Htok).
  unfold revoke_service_token_if_any, take_service_token. replace (x_leases x1 !! id_text i) with (Some (lease_from (r_token rd, c)))
    by (cbn; rewrite Hle, lookup_insert_eq; done).
  set (x2 := set_leases x1 _). cbn [l_token lease_from fst].
  destruct (revoke_tokens x2 (r_token rd) reason elapsed stop Hp1) as (Ht2 & Hl2 & _).
  assert (Hlim : same_limits (x_tokens x) (validate (x_tokens x1) (r_token rd) elapsed stop).2).
  { eapply same_limits_trans; [|apply validate_with_limits]. cbn. rewrite Htok. by split_and!. }
  destruct Hlim as (_ & Hi & Hgr & Hpo).
  set (x3 := (revoke_service_token x2 _ _ _ _).2) in *.
  assert (He : tokens (x_tokens x3) !! l_token lease = Some e).
  { rewrite Ht2. cbn. rewrite lookup_delete_ne by done. apply (validate_with_keeps (x_tokens x1)); [done|done| |].
    - cbn. rewrite Htok. cbn. by rewrite lookup_insert_ne.
    - apply verdict_valid_iff. cbn. rewrite Htok. cbn. lia. }
  assert (Hp3 : poisoned (x_tokens x3) = false) by (rewrite Ht2; exact (eq_trans Hpo Hp)).
  assert (Hc3 : idle_timeout (x_tokens x3) = idle_timeout (x_tokens x) /\ refresh_grace (x_tokens x3) = refresh_grace (x_tokens x)) by (rewrite Ht2; exact (conj Hi Hgr)).
  destruct Hc3 as [Hi3 Hg3]. split_and!.
  - rewrite Hl2. cbn. apply lookup_delete_eq.
  - apply validate_with_ok_iff; [done|apply lifetime_within; lia|]. exists e. split_and!; [done..|]. apply verdict_valid_iff. cbn. lia.
  - apply validate_with_ok_iff; [done|apply refresh_within|]. exists e. split_and!; [done..|]. apply verdict_valid_iff. cbn. lia.
Qed.

(** ** A run of the lease monitor *)

(** The lease had more than the threshold left at one of the readings of its module's turn. *)
Definition settled_at (l : ModuleTokenLease) (times : list Z) : Prop :=
  exists t, t ∈ times /\ TOKEN_REFRESH_THRESHOLD_SECS < seconds_until_expiry l t.

Lemma monitor_lease_ok x i lease now rd : poisoned (x_tokens x) = false -> seconds (TOKEN_REFRESH_THRESHOLD_SECS + 1) <= lifetime (x_tokens x) ->
  x_leases x !! id_text i = Some lease ->
  let x' := monitor_lease x i lease now rd in
  poisoned (x_tokens x') = false /\ lifetime (x_tokens x') = lifetime (x_tokens x)
  /\ (forall j, j <> id_text i -> x_leases x' !! j = x_leases x !! j)
  /\ exists l, x_leases x' !! id_text i = Some l /\ settled_at l [now; r_issue rd].
Proof.
  intros Hp Hlife Hl. unfold monitor_lease. destruct (Z.leb_spec (seconds_until_expiry lease now) TOKEN_REFRESH_THRESHOLD_SECS) as [Hs|Hs].
  - destruct (force_refresh_ok x i rd Hp) as (x' & -> & Htok & Hle & _). cbn. rewrite Htok, Hle. cbn. split_and!; [done|done| |].
    + intros j Hj. by rewrite lookup_insert_ne.
    + rewrite lookup_insert_eq. eexists. split; [done|]. exists (r_issue rd). split; [set_solver|].
      unfold seconds_until_expiry, whole_seconds. cbn. replace (r_issue rd + lifetime (x_tokens x) - r_issue rd) with (lifetime (x_tokens x)) by lia.
      unfold seconds in Hlife. apply Z.lt_le_trans with (TOKEN_REFRESH_THRESHOLD_SECS + 1); [lia|].
      rewrite <- (Z.quot_mul (TOKEN_REFRESH_THRESHOLD_SECS + 1) NANOS) by done. apply Z.quot_le_mono; [done|lia].
  - split_and!; [done..|]. exists lease. split; [done|]. exists now. split; [set_solver|lia].
Qed.

(** A run of the lease monitor settles every lease: whatever the order of
    the snapshot, afterwards each recorded lease had more than the threshold
    of 180 seconds left when the monitor checked or renewed it, provided the
    lifetime of tokens is longer than the threshold. *)
Theorem monitor_settles_leases x snapshot : poisoned (x_tokens x) = false ->
  seconds (TOKEN_REFRESH_THRESHOLD_SECS + 1) <= lifetime (x_tokens x) ->
  ((λ p, (id_text p.1.1, p.1.2)) <$> snapshot) ≡ₚ map_to_list (x_leases x) ->
  forall j l, x_leases (monitor_leases x snapshot) !! j = Some l ->
  exists i lease now rd, (i, lease, (now, rd)) ∈ snapshot /\ id_text i = j /\ settled_at l [now; r_issue rd].
Proof.
  intros Hp Hlife Hperm.
  assert (Hnd : NoDup ((λ p, id_text p.1.1) <$> snapshot)).
  { replace ((λ p, id_text p.1.1) <$> snapshot) with (fst <$> ((λ p, (id_text p.1.1, p.1.2)) <$> snapshot)) by (rewrite <- list_fmap_compose; done).
    rewrite Hperm. apply NoDup_fst_map_to_list. }
  assert (Hin : forall p, p ∈ snapshot -> x_leases x !! id_text p.1.1 = Some p.1.2).
  { intros p Hin. apply elem_of_map_to_list. rewrite <- Hperm. by apply (list_elem_of_fmap_2 (λ p, (id_text p.1.1, p.1.2))). }
  assert (Hcov : forall j, is_Some (x_leases x !! j) -> j ∈ (λ p, id_text p.1.1) <$> snapshot).
  { intros j [l Hj]. apply elem_of_map_to_list in Hj. rewrite <- Hperm in Hj. apply list_elem_of_fmap in Hj as (p & [= -> ->] & Hj).
    by apply (list_elem_of_fmap_2 (λ p, id_text p.1.1)). }
  clear Hperm. revert x Hp Hlife Hin Hcov.
  enough (H : forall x, poisoned (x_tokens x) = false -> seconds (TOKEN_REFRESH_THRESHOLD_SECS + 1) <= lifetime (x_tokens x) ->
    (forall p, p ∈ snapshot -> x_leases x !! id_text p.1.1 = Some p.1.2) -> forall j l, x_leases (monitor_leases x snapshot) !! j = Some l ->
    ((j ∉ ((λ p, id_text p.1.1) <$> snapshot)) /\ x_leases x !! j = Some l)
    \/ exists i lease now rd, (i, lease, (now, rd)) ∈ snapshot /\ id_text i = j /\ settled_at l [now; r_issue rd]).
  { intros x Hp Hlife Hin Hcov j l Hl. destruct (H x Hp Hlife Hin j l Hl) as [[Hno Hj]|]; [|done]. destruct Hno. by apply Hcov. }
  induction snapshot as [|[[i lease] [now rd]] rest IH]; intros x Hp Hlife Hin j l Hl; cbn in *; [left; split; [set_solver|done]|].
  apply NoDup_cons in Hnd as [Hnotin Hnd].
  destruct (monitor_lease_ok x i lease now rd Hp Hlife (Hin _ ltac:(left))) as (Hp' & Hlife' & Hother & l' & Hl' & Hset).
  destruct (IH Hnd (monitor_lease x i lease now rd) Hp' ltac:(lia)) with (j := j) (l := l) as [[Hno Hj]|(i' & le' & n' & rd' & Hin' & Hr)]; [|done| |].
  - intros p Hp2. rewrite Hother; [apply Hin; by right|]. intros Heq. apply Hnotin. rewrite <- Heq. by apply (list_elem_of_fmap_2 (λ p, id_text p.1.1)).
  - destruct (decide (j = id_text i)) as [->|Hne].
    + right. rewrite Hl' in Hj. injection Hj as <-. exists i, lease, now, rd. split_and!; [left|done|done].
    + left. rewrite Hother in Hj by done. split; [|done]. set_solver.
  - right. exists i', le', n', rd'. split; [by right|done].
Qed.

(** ** Witnesses *)

Definition shop : ModuleId := mkId (lit "shop").
Definition shop_claims : DelegatedTokenClaims :=
  mkClaims "id-1" (Service (module_service_id shop) SWrite) DEFAULT_SERVICE_TENANT [mkScope (lit "db:read")] 0 (seconds 200).
Definition shop_lease : ModuleTokenLease := lease_from ("t-1", shop_claims).
Definition demo_exchange : Exchange :=
  mkExchange (set_tokens (ServiceTokens.new (mkSection 900 300 60 600)) {[ "t-1" := mkEntry shop_claims 0 ]}) ∅ false
    {[ lit "shop" := shop_lease ]} [mkScope (lit "db:read")] [].
Definition demo_headers : ProxyHeaders.HeaderMap := [(AUTHORIZATION, lit "Bearer t-1")].
Definition demo_payload : ExchangeRequest := mkExchangeRequest [lit " db:write "] (Some (lit "wake up")).
Definition demo_reads : Reads := mkReads "t-2" "id-2" 0 0 0 0 (seconds 250) (seconds 250) (seconds 250) (seconds 250).

(** An expired token within its grace period, exchanged for one with [db:write]. *)
Lemma module_token_exchange_exact_witness :
  exists resp x', issue_module_service_token all_available demo_headers demo_payload demo_reads demo_exchange = (Ok resp, x')
    /\ exists i e, may_exchange demo_headers demo_payload demo_reads demo_exchange i /\ tokens (x_tokens x') !! s_token resp = Some e
       /\ actor (claims e) = Service (module_service_id i) SWrite.
Proof.
  destruct (module_token_exchange_exact demo_headers demo_payload demo_reads demo_exchange) as [_ H]; [reflexivity|].
  destruct (issue_module_service_token all_available demo_headers demo_payload demo_reads demo_exchange) as [[resp|err] x'] eqn:E.
  - exists resp, x'. split; [done|]. destruct (H resp x' eq_refl) as (i & e & Hm & Ht & Ha & _). exists i, e. auto.
  - exfalso. assert (Ho : is_ok (issue_module_service_token all_available demo_headers demo_payload demo_reads demo_exchange).1 = true) by (vm_compute; reflexivity).
    by rewrite E in Ho.
Defined.

Definition demo_ops : list exchange_op :=
  [OpExchange all_available demo_headers demo_payload demo_reads; OpStop (mkId (lit "blog")) "module-stop" 0 (seconds 251)].
Lemma exchanges_add_no_identity_witness :
  is_Some (tokens (x_tokens (foldl exchange_step demo_exchange demo_ops)) !! "t-2") /\
  forall e, tokens (x_tokens (foldl exchange_step demo_exchange demo_ops)) !! "t-2" = Some e -> descends demo_exchange (claims e).
Proof.
  split; [vm_compute; eauto|]. intros e. apply (exchanges_add_no_identity demo_exchange demo_ops); reflexivity.
Defined.

(** Two calls of the module in one window. *)
Definition demo_calls : list call := [mkCall "shop" None 0 0 0; mkCall "blog" None 1 1 1; mkCall "shop" None 2 2 2].
Lemma exchange_rate_bound_witness : admitted "shop" 0 (0 + RATE_LIMIT_WINDOW) demo_calls (checks ∅ demo_calls) = 2 /\
  admitted "shop" 0 (0 + RATE_LIMIT_WINDOW) demo_calls (checks ∅ demo_calls) <= 2 * RATE_LIMIT_MAX_REQUESTS.
Proof.
  split; [vm_compute; reflexivity|]. apply (exchange_rate_bound 0 "shop" demo_calls); [cbn; lia|]. repeat constructor.
Defined.

Lemma stop_revokes_recorded_token_witness :
  (validate_for_refresh (x_tokens (revoke_service_token_if_any demo_exchange shop "module-stop" 0 5)) "t-1" 0 6).1 = Err NotFound.
Proof. apply (stop_revokes_recorded_token demo_exchange shop shop_lease "module-stop" 0 5); reflexivity. Defined.

Lemma monitored_token_outlives_stop_witness :
  let x1 := monitor_lease demo_exchange shop shop_lease (seconds 30) demo_reads in
  let x2 := revoke_service_token_if_any x1 shop "module-stop" 0 (seconds 100) in
  x_leases x2 !! lit "shop" = None /\ (validate (x_tokens x2) "t-1" 0 (seconds 150)).1 = Ok shop_claims.
Proof.
  destruct (monitored_token_outlives_stop demo_exchange shop shop_lease (seconds 30) demo_reads "module-stop" 0 (seconds 100)
    (mkEntry shop_claims 0) 0 (seconds 150)) as (Hl & Hv & _); try reflexivity; try (vm_compute; congruence).
  exact (conj Hl Hv).
Defined.

Lemma monitor_settles_leases_witness :
  x_leases (monitor_leases demo_exchange [(shop, shop_lease, (seconds 30, demo_reads))]) !! lit "shop"
    = Some (lease_from ("t-2", granted_claims demo_exchange shop [] demo_reads))
  /\ exists i lease now rd, (i, lease, (now, rd)) ∈ [(shop, shop_lease, (seconds 30, demo_reads))] /\ id_text i = lit "shop"
       /\ settled_at (lease_from ("t-2", granted_claims demo_exchange shop [] demo_reads)) [now; r_issue rd].
Proof.
  assert (H : x_leases (monitor_leases demo_exchange [(shop, shop_lease, (seconds 30, demo_reads))]) !! lit "shop"
    = Some (lease_from ("t-2", granted_claims demo_exchange shop [] demo_reads))) by (vm_compute; reflexivity).
  split; [exact H|]. apply (monitor_settles_leases demo_exchange [(shop, shop_lease, (seconds 30, demo_reads))]); [reflexivity|vm_compute; congruence| |exact H].
  replace (x_leases demo_exchange) with ({[ lit "shop" := shop_lease ]} : gmap text ModuleTokenLease) by reflexivity.
  rewrite map_to_list_singleton. reflexivity.
Defined.
