(* ===== verification/Routing.v ===== *)
(** * Routing to module instances ([services/module/service.rs])

    [resolve_ingress_targets]: which instances of a module a request to one
    of its services may go to, and in which order: development overrides,
    declared services, running and ready instances, canaries and the
    round-robin cursor; the commands that start and stop canary routing, and
    the reconciliation that promotes or rolls back a canary.

    The maps the module service keeps under locks are the fields of
    [Routing]; [None] is a poisoned lock.  The runtime's answer to
    [list_instances] and the clock (nanoseconds) are arguments. *)

From S2P Require Import Prelude Text Versions Manifests Rollout Gateway.

#[local] Open Scope fenrir_scope.

Inductive ModuleRuntimeStatus := RunningStatus | StoppedStatus | FailedStatus | StartingStatus | StoppingStatus.
#[global] Instance runtime_status_eq_dec : EqDecision ModuleRuntimeStatus.
Proof. solve_decision. Defined.

(** The fields of [ModuleRuntimeInstanceInfo] that are looked at. *)
Record Instance := mkInstance { instance_id : text; primary : bool; status : ModuleRuntimeStatus; port : option Z }.
#[global] Instance instance_eq_dec : EqDecision Instance.
Proof. solve_decision. Defined.

Record ModuleCanaryAllocation := mkAllocation { traffic_percent : Z; instance_ids : list text; last_changed_at : option Z }.

Inductive RuntimeError := NotRunning | InvalidState | OtherRuntime.

Section Routing.
Context {FL : Floats}.

(** [services] of an override or a declaration in the map's iteration order. *)
Record Routing := mkRouting {
  dev_overrides : gmap text (list (text * text));
  declared_services : gmap text (list (text * text));
  runtime_services : gmap text (list text);
  rollouts : gmap text ModuleServiceRolloutConfig;
  instance_health : option (gmap text (gmap text bool));
  canary_allocations : option (gmap text ModuleCanaryAllocation);
  ingress_cursor : gmap text Z;
  canary_cursor : gmap text Z;
}.

Definition set_ingress_cursor (s : Routing) c :=
  mkRouting (dev_overrides s) (declared_services s) (runtime_services s) (rollouts s) (instance_health s) (canary_allocations s) c (canary_cursor s).
Definition set_canary_cursor (s : Routing) c :=
  mkRouting (dev_overrides s) (declared_services s) (runtime_services s) (rollouts s) (instance_health s) (canary_allocations s) (ingress_cursor s) c.
Definition set_allocations (s : Routing) a :=
  mkRouting (dev_overrides s) (declared_services s) (runtime_services s) (rollouts s) (instance_health s) (Some a) (ingress_cursor s) (canary_cursor s).
Definition set_health (s : Routing) h :=
  mkRouting (dev_overrides s) (declared_services s) (runtime_services s) (rollouts s) (Some h) (canary_allocations s) (ingress_cursor s) (canary_cursor s).

(** ** Health of instances *)

Definition update_instance_health (s : Routing) (m iid : text) (ready : bool) : Routing :=
  match instance_health s with
  | Some h => set_health s (<[m := <[iid := ready]> (default ∅ (h !! m))]> h)
  | None => s
  end.
Definition clear_instance_health (s : Routing) (m : text) : Routing :=
  match instance_health s with Some h => set_health s (delete m h) | None => s end.
Definition prune_instance_health (s : Routing) (m : text) (active : list text) : Routing :=
  match instance_health s with
  | Some h =>
      match h !! m with
      | None => s
      | Some entries =>
          let entries := base.filter (λ e : text * bool, e.1 ∈ active) entries in
          set_health s (if decide (entries = ∅) then delete m h else <[m := entries]> h)
      end
  | None => s
  end.

Definition ready_runtime_instance_ids (s : Routing) (m : text) : option (list text) :=
  h ← instance_health s; entries ← h !! m;
  let ready := fst <$> base.filter (λ e : text * bool, e.2 = true) (map_to_list entries) in
  if bool_decide (ready = []) then None else Some ready.

(** ** Selection *)

Definition lookup_service (services : list (text * text)) (id : text) : option text :=
  snd <$> find (λ s, bool_decide (s.1 = id)) services.
Definition resolve_override_service (s : Routing) (m service_id : text) : option Target :=
  services ← dev_overrides s !! m; (λ e, DevService m service_id e) <$> lookup_service services service_id.
Definition resolve_first_override_service (s : Routing) (m : text) : option Target :=
  services ← dev_overrides s !! m; (λ e, DevService m e.1 e.2) <$> head services.
Definition resolve_declared_service (s : Routing) (m service_id : text) : option Target :=
  services ← declared_services s !! m; (λ e, DeclaredService m service_id e) <$> lookup_service services service_id.
Definition is_dev_override_active (s : Routing) (m : text) : bool := is_some (dev_overrides s !! m).
Definition runtime_service_registered (s : Routing) (m service_id : text) : bool :=
  match runtime_services s !! m with Some ids => bool_decide (service_id ∈ ids) | None => false end.

Definition should_route_to_canary (s : Routing) (service_id : text) (percent : Z) : bool * Routing :=
  if percent =? 0 then (false, s)
  else if 100 <=? percent then (true, s)
  else
    let next := default 0 (canary_cursor s !! service_id) in
    let bucket := next mod 100 in
    (bucket <? percent, set_canary_cursor s (<[service_id := u64_saturating_add next 1]> (canary_cursor s))).

Definition listed (a : ModuleCanaryAllocation) (i : Instance) : bool := bool_decide (instance_id i ∈ instance_ids a).

Definition runtime_selection_pool (s : Routing) (m service_id : text) (running : list Instance) : list Instance * Routing :=
  match (al ← canary_allocations s; al !! m) with
  | None => (running, s)
  | Some a =>
      let canary_strategy := bool_decide ((r ← rollout_for (rollouts s) service_id; strategy r) = Some CanaryReplace) in
      if (traffic_percent a =? 0) || negb canary_strategy then (running, s)
      else
        let canary_pool := base.filter (λ i, Is_true (listed a i)) running in
        let stable_pool := base.filter (λ i, Is_true (negb (listed a i))) running in
        if bool_decide (canary_pool = []) then (stable_pool, s)
        else if bool_decide (stable_pool = []) then (canary_pool, s)
        else let (canary, s) := should_route_to_canary s service_id (traffic_percent a) in
             (if canary : bool then canary_pool else stable_pool, s)
  end.

Definition next_runtime_ingress_index (s : Routing) (service_id : text) (instance_count : Z) : Z * Routing :=
  if instance_count <=? 1 then (0, s)
  else
    let next := default 0 (ingress_cursor s !! service_id) in
    let index := next mod instance_count in
    (index, set_ingress_cursor s (<[service_id := (index + 1) mod instance_count]> (ingress_cursor s))).

Definition ordered_runtime_candidates {A} (candidates : list A) (start : Z) : list A :=
  if (length candidates <=? 1)%nat then candidates
  else let start := Z.to_nat (start mod Z.of_nat (length candidates)) in drop start candidates ++ take start candidates.

Definition ordered_runtime_selection_pool (s : Routing) (service_id : text) (pool : list Instance) : list Instance * Routing :=
  if (length pool <=? 1)%nat then (pool, s)
  else let (start, s) := next_runtime_ingress_index s service_id (Z.of_nat (length pool)) in
       (ordered_runtime_candidates pool start, s).

Definition is_running (i : Instance) : bool := bool_decide (status i = RunningStatus) && is_some (port i).

Fixpoint port_targets (m : text) (pool : list Instance) : result (list Target) IngressError :=
  match pool with
  | [] => Ok []
  | i :: pool =>
      p <-? ok_or (port i) ModulePortUnknown;;
      rest <-? port_targets m pool;;
      Ok (RuntimePort m (instance_id i) p :: rest)
  end.

(** Running instances, only the ready ones when any is known to be ready. *)
Definition ready_pool (s : Routing) (m : text) (running : list Instance) : list Instance :=
  match ready_runtime_instance_ids s m with
  | Some ids =>
      let ready := base.filter (λ i, instance_id i ∈ ids) running in
      if bool_decide (ready = []) then running else ready
  | None => running
  end.

Definition resolve_runtime_ingress_targets (s : Routing) (instances : result (list Instance) RuntimeError) (m service_id : text)
    : result (list Target) IngressError * Routing :=
  if is_dev_override_active s m then (Err ModuleNotRunning, s)
  else match instances with
  | Ok instances =>
      let running := base.filter (λ i, Is_true (is_running i)) instances in
      if bool_decide (running = []) then (Err ModuleNotRunning, s)
      else
        let (pool, s) := runtime_selection_pool s m service_id (ready_pool s m running) in
        let (pool, s) := ordered_runtime_selection_pool s service_id pool in
        (port_targets m pool, s)
  | Err NotRunning => (Err ModuleNotRunning, s)
  | Err _ => (Err Gateway.RuntimeError, s)
  end.

(** [list_instances] answers for the module asked about. *)
Definition resolve_ingress_targets (s : Routing) (list_instances : text -> result (list Instance) RuntimeError) (service_id : text)
    : result (list Target) IngressError * Routing :=
  match strip_prefix (lit "module:") service_id with
  | None => (Err UnsupportedService, s)
  | Some stripped =>
      let (module_raw, suffix) := match find_sub (lit "::") stripped with
                                  | Some (module, svc) => (module, true)
                                  | None => (stripped, false)
                                  end in
      match ModuleId_new module_raw with
      | Err _ => (Err InvalidModuleId, s)
      | Ok id =>
          let m := id_text id in
          if (suffix : bool) then
            match resolve_override_service s m service_id with
            | Some t => (Ok [t], s)
            | None =>
                match resolve_declared_service s m service_id with
                | Some t => (Ok [t], s)
                | None =>
                    if runtime_service_registered s m service_id then
                      resolve_runtime_ingress_targets s (list_instances m) m service_id
                    else (Err DeclaredServiceMissing, s)
                end
            end
          else match resolve_first_override_service s m with
               | Some t => (Ok [t], s)
               | None => resolve_runtime_ingress_targets s (list_instances m) m service_id
               end
      end
  end.

(** ** Canary commands *)

Definition module_service_id (m : text) : text := lit "module:" ++ m.

Definition rollout_config_for (s : Routing) (service_id : text) := rollout_for (rollouts s) service_id.

Inductive CanaryError := PercentRange | NotCanaryReplace | NoCandidates | UnknownInstance (id : text) | Poisoned | NoRollout
  | RuntimeFailed (e : RuntimeError).

Record ModuleCanaryRoutingStatus := mkStatus {
  st_strategy : option ModuleRolloutStrategy;
  st_percent : Z;
  st_configured : list text;
  st_canary : list Instance;
  st_stable : list Instance;
}.

Definition canary_routing_status (s : Routing) (m : text) (instances : result (list Instance) RuntimeError)
    : result ModuleCanaryRoutingStatus CanaryError :=
  let strategy := (r ← rollout_config_for s (module_service_id m); strategy r) in
  let a := default (mkAllocation 0 [] None) (al ← canary_allocations s; al !! m) in
  insts <-? map_err RuntimeFailed instances;;
  Ok (mkStatus strategy (traffic_percent a) (instance_ids a)
        (base.filter (λ i, Is_true (listed a i)) insts) (base.filter (λ i, Is_true (negb (listed a i))) insts)).

Definition set_canary_routing (s : Routing) (m : text) (percent : Z) (ids : option (list text))
    (instances : result (list Instance) RuntimeError) (now : Z) : result ModuleCanaryRoutingStatus CanaryError * Routing :=
  if 100 <? percent then (Err PercentRange, s)
  else if negb (bool_decide ((r ← rollout_config_for s (module_service_id m); strategy r) = Some CanaryReplace)) then (Err NotCanaryReplace, s)
  else match instances with
  | Err e => (Err (RuntimeFailed e), s)
  | Ok insts =>
      let candidates := instance_id <$> base.filter (λ i, primary i = false) insts in
      let selected := default candidates ids in
      if bool_decide (selected = []) && (0 <? percent) then (Err NoCandidates, s)
      else match find (λ id, negb (bool_decide (id ∈ instance_id <$> insts))) selected with
      | Some id => (Err (UnknownInstance id), s)
      | None =>
          match canary_allocations s with
          | None => (Err Poisoned, s)
          | Some al =>
              let al := if (percent =? 0) || bool_decide (selected = []) then delete m al
                        else <[m := mkAllocation percent selected (Some now)]> al in
              let s := set_allocations s al in
              let s := set_canary_cursor s (delete (module_service_id m) (canary_cursor s)) in
              (canary_routing_status s m instances, s)
          end
      end
  end.

Definition start_canary_routing (s : Routing) (m : text) (ids : option (list text))
    (instances : result (list Instance) RuntimeError) (now : Z) : result ModuleCanaryRoutingStatus CanaryError * Routing :=
  match rollout_config_for s (module_service_id m) with
  | None => (Err NoRollout, s)
  | Some r =>
      if negb (bool_decide (strategy r = Some CanaryReplace)) then (Err NotCanaryReplace, s)
      else set_canary_routing s m (initial_percent r) ids instances now
  end.

Definition clear_canary_routing (s : Routing) (m : text) (instances : result (list Instance) RuntimeError)
    : result ModuleCanaryRoutingStatus CanaryError * Routing :=
  match canary_allocations s with
  | None => (Err Poisoned, s)
  | Some al =>
      let s := set_allocations s (delete m al) in
      let s := set_canary_cursor s (delete (module_service_id m) (canary_cursor s)) in
      (canary_routing_status s m instances, s)
  end.

(** ** Reconciliation *)

Definition canary_instances_unhealthy (s : Routing) (m : text) (ids : list text) : option bool :=
  h ← instance_health s; entries ← h !! m;
  Some (existsb (λ id, negb (default false (entries !! id))) ids).

Section Reconcile.
Context (diagnostics : text -> option ServiceMetricSnapshot) (runtime_metrics : text -> option (option JsonValue))
        (instances : text -> result (list Instance) RuntimeError) (now : Z).

(** One allocation: the new state, and the service set to [Degraded] if any. *)
Definition reconcile_one (s : Routing) (entry : text * ModuleCanaryAllocation) : Routing * list text :=
  let (m, a) := entry in
  let service_id := module_service_id m in
  let roll_back r := if rollback_on_regression r then ((clear_canary_routing s m (instances m)).2, [service_id]) else (s, []) in
  match rollout_config_for s service_id with
  | None => (s, [])
  | Some r =>
      if negb (bool_decide (strategy r = Some CanaryReplace)) then (s, [])
      else if (traffic_percent a =? 0) || (100 <=? traffic_percent a) then (s, [])
      else if default true (canary_instances_unhealthy s m (instance_ids a)) then roll_back r
      else match evaluate_canary_success (success_criteria r) (diagnostics service_id) (runtime_metrics service_id) with
      | Pending => (s, [])
      | Regressed => roll_back r
      | Healthy =>
          let interval := default 30000 (promotion_interval_ms r) * 1000000 in
          let elapsed := default 0 (t ← last_changed_at a; if t <=? now then Some (now - t) else None) in
          if elapsed <? interval then (s, [])
          else
            let next := next_canary_percent r (traffic_percent a) in
            if next <=? traffic_percent a then (s, [])
            else match canary_allocations s with
            | None => (s, [])
            | Some al =>
                match al !! m with
                | Some current => (set_allocations s (<[m := mkAllocation next (instance_ids current) (Some now)]> al), [])
                | None => (s, [])
                end
            end
      end
  end.

Definition reconcile_dynamic_canary_rollouts (s : Routing) : Routing * list text :=
  match canary_allocations s with
  | None => (s, [])
  | Some al =>
      foldl (λ acc e, let (s, degraded) := reconcile_one acc.1 e in (s, acc.2 ++ degraded)) (s, []) (map_to_list al)
  end.
End Reconcile.
End Routing.
