(* ===== verification/RoutingSafety.v ===== *)
(** * What routing guarantees

    Theorems about [Routing]: every target is live, canaries get exactly
    their share, instances take turns, and a canary is promoted only on
    evidence and, while it stays healthy, all the way. *)

From S2P Require Import Prelude Text Versions Manifests Rollout ServiceTokens Registry Gateway GatewaySafety Routing.

Section Targets.
Context {FL : Floats}.

(** ** Targets are live *)

(** The instances of the module that may be asked for a target. *)
Record live (s : Routing) (m : text) (insts : list Instance) (i : Instance) : Prop := {
  live_known : i ∈ insts;
  live_running : status i = RunningStatus;
  live_ready : forall ids j, ready_runtime_instance_ids s m = Some ids ->
    j ∈ insts -> status j = RunningStatus -> is_Some (port j) -> instance_id j ∈ ids -> instance_id i ∈ ids;
}.

Lemma is_running_spec i : is_running i = true <-> status i = RunningStatus /\ is_Some (port i).
Proof.
  unfold is_running. rewrite andb_true_iff, bool_decide_eq_true. destruct (port i); cbn; split; intros [? H]; split; try done; try by destruct H.
Qed.

Lemma ready_pool_live s m insts i :
  i ∈ ready_pool s m (base.filter (λ i, Is_true (is_running i)) insts) -> live s m insts i.
Proof.
  unfold ready_pool. set (running := base.filter _ insts).
  assert (Hrun : forall j, j ∈ running <-> j ∈ insts /\ status j = RunningStatus /\ is_Some (port j)).
  { intros j. subst running. rewrite list_elem_of_filter, Is_true_true, is_running_spec. naive_solver. }
  destruct (ready_runtime_instance_ids s m) as [ids|] eqn:Er.
  - destruct (bool_decide (base.filter (λ i, instance_id i ∈ ids) running = [])) eqn:E; boolify.
    + intros Hi. apply Hrun in Hi as (H1 & H2 & H3). split; [done|done|]. intros ids' j Hids Hj Hs Hp Hin. exfalso.
      rewrite Er in Hids. injection Hids as <-. assert (Hj' : j ∈ base.filter (λ i, instance_id i ∈ ids) running).
      { apply list_elem_of_filter. split; [done|]. by apply Hrun. }
      rewrite E in Hj'. by apply not_elem_of_nil in Hj'.
    + intros Hi. apply list_elem_of_filter in Hi as [Hid Hi]. apply Hrun in Hi as (H1 & H2 & H3). split; [done|done|].
      intros ids' j Hids _ _ _ _. rewrite Er in Hids. by injection Hids as <-.
  - intros Hi. apply Hrun in Hi as (H1 & H2 & H3). split; [done|done|]. intros ids j Hids. by rewrite Er in Hids.
Qed.

Lemma ready_pool_subset s m running : ready_pool s m running ⊆ running.
Proof.
  intros i Hi. unfold ready_pool in Hi. destruct (ready_runtime_instance_ids s m); [|done].
  destruct (bool_decide _); [done|]. by apply list_elem_of_filter in Hi as [_ Hi].
Qed.

Lemma ready_pool_nonempty s m running : running <> [] -> ready_pool s m running <> [].
Proof.
  intros Hne. unfold ready_pool. destruct (ready_runtime_instance_ids s m); [|done].
  destruct (bool_decide (_ = [])) eqn:E; boolify; done.
Qed.

(** A selection of the pool: part of it, not empty, and of one kind when a canary runs. *)
Lemma filter_split_nonempty {A} (p : A -> bool) l : base.filter (λ x, Is_true (p x)) l = [] -> l <> [] -> base.filter (λ x, Is_true (negb (p x))) l <> [].
Proof.
  intros Hn Hne. destruct l as [|x l]; [done|]. destruct (p x) eqn:E.
  - by rewrite filter_cons_True in Hn by (by rewrite E).
  - rewrite filter_cons_True by (by rewrite E). done.
Qed.

Lemma runtime_selection_pool_spec s m sid running pool s' : running <> [] ->
  runtime_selection_pool s m sid running = (pool, s') ->
  pool <> [] /\ pool ⊆ running
  /\ (forall al a, canary_allocations s = Some al -> al !! m = Some a -> traffic_percent a <> 0 ->
      (r ← rollout_for (rollouts s) sid; strategy r) = Some CanaryReplace ->
      Forall (λ i, listed a i = true) pool \/ Forall (λ i, listed a i = false) pool).
Proof.
  intros Hne. unfold runtime_selection_pool. destruct (_ ≫= λ al, al !! m) as [a|] eqn:Ea.
  2:{ intros [= <- <-]. split; [done|split; [done|]]. intros al a Hal Hm. by rewrite Hal in Ea; cbn in Ea; rewrite Hm in Ea. }
  destruct ((traffic_percent a =? 0) || _) eqn:Ep.
  { intros [= <- <-]. split; [done|split; [done|]]. intros al a' Hal Hm Hp Hc. rewrite Hal in Ea. cbn in Ea. rewrite Hm in Ea. injection Ea as ->.
    rewrite Hc, bool_decide_eq_true_2 in Ep by done. apply orb_true_iff in Ep as [Ep|Ep]; [|done]. boolify. lia. }
  set (canary := base.filter (λ i, Is_true (listed a i)) running). set (stable := base.filter (λ i, Is_true (negb (listed a i))) running).
  assert (Hcan : Forall (λ i, listed a i = true) canary) by (apply Forall_forall; intros i Hi; apply list_elem_of_filter in Hi as [Hi _]; by apply Is_true_true in Hi).
  assert (Hsta : Forall (λ i, listed a i = false) stable)
    by (apply Forall_forall; intros i Hi; apply list_elem_of_filter in Hi as [Hi _]; by apply Is_true_true, negb_true_iff in Hi).
  assert (Hkind : forall al a', canary_allocations s = Some al -> al !! m = Some a' -> a' = a)
    by (intros al a' Hal Hm; rewrite Hal in Ea; cbn in Ea; rewrite Hm in Ea; by injection Ea).
  assert (Hres : (pool = canary /\ canary <> []) \/ (pool = stable /\ stable <> []) ->
    pool <> [] /\ pool ⊆ running /\ (forall al a, canary_allocations s = Some al -> al !! m = Some a -> traffic_percent a <> 0 ->
      (r ← rollout_for (rollouts s) sid; strategy r) = Some CanaryReplace -> Forall (λ i, listed a i = true) pool \/ Forall (λ i, listed a i = false) pool)).
  { intros [[-> Hn]|[-> Hn]]; (split; [done|split; [intros x Hx; by apply list_elem_of_filter in Hx as [_ Hx]|]]); intros al a' Hal Hm _ _; rewrite (Hkind _ _ Hal Hm); auto. }
  destruct (bool_decide (canary = [])) eqn:Ec; boolify.
  { intros [= <- <-]. apply Hres. right. split; [done|]. by apply filter_split_nonempty. }
  destruct (bool_decide (stable = [])) eqn:Es; boolify; [intros [= <- <-]; apply Hres; by left|].
  destruct (should_route_to_canary _ _ _) as [[] s1]; intros [= <- <-]; apply Hres; auto.
Qed.

Lemma ordered_candidates_perm {A} (l : list A) start : ordered_runtime_candidates l start ≡ₚ l.
Proof. unfold ordered_runtime_candidates. destruct (_ <=? _)%nat; [done|]. rewrite Permutation_app_comm. by rewrite take_drop. Qed.

Lemma ordered_pool_perm s sid pool : (ordered_runtime_selection_pool s sid pool).1 ≡ₚ pool.
Proof.
  unfold ordered_runtime_selection_pool. destruct (_ <=? _)%nat; [done|]. destruct (next_runtime_ingress_index _ _ _). apply ordered_candidates_perm.
Qed.

Lemma port_targets_ok m pool : (forall i, i ∈ pool -> is_Some (port i)) ->
  exists ts, port_targets m pool = Ok ts /\ Forall2 (λ i t, exists p, port i = Some p /\ t = RuntimePort m (instance_id i) p) pool ts.
Proof.
  induction pool as [|i pool IH]; intros Hp; cbn; [by exists []|]. destruct (Hp i) as [p Hi]; [set_solver|]. rewrite Hi. cbn.
  destruct IH as (ts & -> & Hf); [intros j Hj; apply Hp; set_solver|]. cbn. eexists. split; [done|]. constructor; eauto.
Qed.

(** What a list of instance targets promises. *)
Definition instance_targets (s : Routing) (m sid : text) (insts : list Instance) (ts : list Target) : Prop :=
  ts <> []
  /\ (forall t, t ∈ ts -> exists i p, live s m insts i /\ port i = Some p /\ t = RuntimePort m (instance_id i) p)
  /\ (forall al a, canary_allocations s = Some al -> al !! m = Some a -> traffic_percent a <> 0 ->
      (r ← rollout_for (rollouts s) sid; strategy r) = Some CanaryReplace ->
      Forall (λ t, exists id p, t = RuntimePort m id p /\ id ∈ instance_ids a) ts
      \/ Forall (λ t, exists id p, t = RuntimePort m id p /\ id ∉ instance_ids a) ts).

Lemma resolve_runtime_spec s insts m sid :
  match resolve_runtime_ingress_targets s insts m sid with
  | (Ok ts, _) => dev_overrides s !! m = None /\ exists l, insts = Ok l /\ instance_targets s m sid l ts
  | (Err e, _) => e <> ModulePortUnknown
      /\ (forall l i, insts = Ok l -> dev_overrides s !! m = None -> i ∈ l -> is_running i = true -> False)
  end.
Proof.
  unfold resolve_runtime_ingress_targets, is_dev_override_active. destruct (dev_overrides s !! m) as [sv|] eqn:Ed; cbn.
  { split; [done|]. intros l i _ H. done. }
  destruct insts as [l|[| |]]; [|by split; [|intros ? ? ?]..]. set (running := base.filter _ l).
  destruct (bool_decide (running = [])) eqn:En; boolify.
  { split; [done|]. intros l' i [= <-] _ Hi Hr. assert (Hin : i ∈ running) by (apply list_elem_of_filter; split; [by rewrite Hr|done]).
    rewrite En in Hin. by apply not_elem_of_nil in Hin. }
  destruct (runtime_selection_pool s m sid (ready_pool s m running)) as [pool s1] eqn:Ep.
  destruct (runtime_selection_pool_spec _ _ _ _ _ _ (ready_pool_nonempty s m running En) Ep) as (Hpne & Hsub & Hcan).
  pose proof (ordered_pool_perm s1 sid pool) as Hperm. destruct (ordered_runtime_selection_pool s1 sid pool) as [pool' s2]. cbn in Hperm.
  assert (Hlive : forall i, i ∈ pool' -> live s m l i /\ is_Some (port i)).
  { intros i Hi. rewrite Hperm in Hi. apply Hsub in Hi. pose proof (ready_pool_live s m l i Hi) as Hl. split; [done|].
    pose proof (ready_pool_subset s m running i Hi) as Hr.
    apply list_elem_of_filter in Hr as [Hr _]. apply Is_true_true, is_running_spec in Hr. apply Hr. }
  destruct (port_targets_ok m pool') as (ts & -> & Hf); [intros i Hi; by apply Hlive|]. split; [done|]. exists l. split; [done|]. split; [|split].
  - intros ->. inv Hf. by apply Permutation_nil_l in Hperm.
  - intros t Ht. apply list_elem_of_lookup in Ht as [k Hk]. destruct (Forall2_lookup_r _ _ _ _ _ Hf Hk) as (i & Hi & p & Hp & ->).
    exists i, p. split; [|done]. apply Hlive. by apply list_elem_of_lookup_2 in Hi.
  - intros al a Hal Hm Hp Hr. destruct (Hcan al a Hal Hm Hp Hr) as [Hc|Hc]; [left|right];
      (rewrite <- Hperm in Hc; apply (Forall2_Forall_r _ _ _ _ Hf); eapply Forall_impl; [exact Hc|]; intros i Hi t (p & _ & ->);
       exists (instance_id i), p; split; [done|]; unfold listed in Hi; by boolify).
Qed.
End Targets.

(** ** The module of a service *)

(** The service id [sid] names module [m]: it is [module:m] (the module
    itself, [named] is [None]) or [module:m::n] (its service [n]), where
    white space may surround [m]. *)
Definition names_module (sid m : text) (named : option text) : Prop :=
  exists raw, trim raw = m /\ m <> [] /\ forallb is_id_char m = true
    /\ sid = lit "module:" ++ raw ++ match named with Some n => lit "::" ++ n | None => [] end.

Lemma module_id_accepted raw i : ModuleId_new raw = Ok i -> trim raw = id_text i /\ id_text i <> [] /\ forallb is_id_char (id_text i) = true.
Proof. unfold ModuleId_new. destruct (trim raw) as [|c t] eqn:E; [done|]. destruct (forallb is_id_char (c :: t)) eqn:F; [by intros [= <-]|done]. Qed.

Lemma raw_no_colon raw m : trim raw = m -> forallb is_id_char m = true -> 58 ∉ raw.
Proof.
  intros <- Hc Hin. unfold trim, trim_end, trim_start in Hc.
  destruct (drop_while_suffix is_whitespace raw) as (pre & Hr & Hp). set (rest := drop_while is_whitespace raw) in *.
  destruct (drop_while_suffix is_whitespace (rev rest)) as (post & Hr' & Hp'). set (mid := drop_while is_whitespace (rev rest)) in *.
  rewrite Hr in Hin. apply elem_of_app in Hin as [Hin|Hin]; [by eapply Forall_forall in Hp; [|exact Hin]|].
  apply list_elem_of_In, in_rev, list_elem_of_In in Hin. rewrite Hr' in Hin. apply elem_of_app in Hin as [Hin|Hin]; [by eapply Forall_forall in Hp'; [|exact Hin]|].
  apply list_elem_of_In, in_rev, (proj1 (forallb_forall _ _) Hc) in Hin. by vm_compute in Hin.
Qed.

(** A service id names at most one module and one service of it. *)
Lemma names_module_unique sid m m' n n' : names_module sid m n -> names_module sid m' n' -> m = m' /\ n = n'.
Proof.
  intros (raw & Ht & _ & Hc & ->) (raw' & Ht' & _ & Hc' & E). apply app_inv_head in E.
  pose proof (raw_no_colon raw m Ht Hc) as Hn. pose proof (raw_no_colon raw' m' Ht' Hc') as Hn'.
  assert (Hf : forall r o, 58 ∉ r -> find_sub (lit "::") (r ++ match o with Some n => lit "::" ++ n | None => [] end) = (λ n, (r, n)) <$> o).
  { intros r [x|] Hr; cbn [fmap option_fmap option_map].
    - apply find_sub_here; [|done]. by intros ? [= <-].
    - rewrite app_nil_r. destruct (find_sub (lit "::") r) as [[a b]|] eqn:Ef; [|done]. apply find_sub_some in Ef as ->. exfalso. apply Hr.
      rewrite elem_of_app. right. left. }
  pose proof (Hf raw n Hn) as H1. rewrite E, (Hf raw' n' Hn') in H1. destruct n as [x|], n' as [x'|]; [|done|done|].
  - injection H1 as -> ->. split; [congruence|done].
  - rewrite !app_nil_r in E. split; [congruence|done].
Qed.

Lemma lookup_service_elem services id e : lookup_service services id = Some e -> (id, e) ∈ services.
Proof.
  unfold lookup_service. intros ([k v] & Hf & ->)%fmap_Some. apply find_some in Hf as [Hin Hk]. cbn in Hk. boolify. subst. by apply list_elem_of_In.
Qed.
Lemma lookup_service_none services id : lookup_service services id = None -> id ∉ services.*1.
Proof.
  unfold lookup_service. intros Hf%fmap_None ([k v] & -> & Hin)%list_elem_of_fmap. apply list_elem_of_In in Hin.
  apply (find_none _ _ Hf) in Hin. cbn in Hin. by boolify.
Qed.

(** The targets of service [sid]: of the module that it names, and of that
    service of it where it names one. *)
Definition targets_of `{FL : Floats} (s : Routing) (list_instances : text -> result (list Instance) RuntimeError) (sid : text) (ts : list Target) : Prop :=
  exists m named, names_module sid m named /\
    ((exists services svc e, dev_overrides s !! m = Some services /\ ts = [DevService m svc e] /\ (svc, e) ∈ services
        /\ (named = None -> head services = Some (svc, e)) /\ (is_Some named -> svc = sid))
     \/ (exists services e, is_Some named /\ declared_services s !! m = Some services /\ ts = [DeclaredService m sid e] /\ (sid, e) ∈ services
        /\ forall overrides, dev_overrides s !! m = Some overrides -> sid ∉ overrides.*1)
     \/ (dev_overrides s !! m = None /\ (is_Some named -> runtime_service_registered s m sid = true)
        /\ exists insts, list_instances m = Ok insts /\ instance_targets s m sid insts ts)).

Lemma resolve_targets_of `{FL : Floats} s list_instances sid ts s' :
  resolve_ingress_targets s list_instances sid = (Ok ts, s') -> targets_of s list_instances sid ts.
Proof.
  unfold resolve_ingress_targets. destruct (strip_prefix _ sid) as [stripped|] eqn:Es; [|done]. apply strip_prefix_some in Es.
  assert (Hn : exists raw named, match find_sub (lit "::") stripped with Some (module, _) => (module, true) | None => (stripped, false) end = (raw, is_some named)
    /\ stripped = raw ++ match named with Some n => lit "::" ++ n | None => [] end).
  { destruct (find_sub (lit "::") stripped) as [[a b]|] eqn:Ef; [exists a, (Some b)|exists stripped, None]; (split; [done|]); [by apply find_sub_some|by rewrite app_nil_r]. }
  destruct Hn as (raw & named & -> & ->). destruct (ModuleId_new raw) as [[m]|] eqn:Ei; [|done]. cbn [id_text].
  apply module_id_accepted in Ei as (Ht & Hne & Hc). cbn [id_text] in *. intros H. exists m, named. split; [by exists raw|]. revert H.
  assert (Hrt : resolve_runtime_ingress_targets s (list_instances m) m sid = (Ok ts, s') ->
    dev_overrides s !! m = None /\ exists insts, list_instances m = Ok insts /\ instance_targets s m sid insts ts).
  { intros H. pose proof (resolve_runtime_spec s (list_instances m) m sid) as Hs. by rewrite H in Hs. }
  destruct named as [n|]; cbn [is_some].
  - unfold resolve_override_service, resolve_declared_service.
    destruct (services ← dev_overrides s !! m; (λ e, DevService m sid e) <$> lookup_service services sid) as [t|] eqn:Eo.
    + apply bind_Some in Eo as (sv & Hsv & (e & He%lookup_service_elem & ->)%fmap_Some). intros [= <- <-]. left. exists sv, sid, e. by split_and!.
    + destruct (services ← declared_services s !! m; (λ e, DeclaredService m sid e) <$> lookup_service services sid) as [t|] eqn:Ed.
      * apply bind_Some in Ed as (sv & Hsv & (e & He%lookup_service_elem & ->)%fmap_Some). intros [= <- <-]. right. left. exists sv, e. split_and!; try done.
        intros ov Hov. rewrite Hov in Eo. cbn in Eo. apply fmap_None in Eo. by apply lookup_service_none.
      * destruct (runtime_service_registered s m sid) eqn:Er; [|done]. intros [? ?]%Hrt. right. right. by split_and!.
  - unfold resolve_first_override_service. destruct (dev_overrides s !! m) as [[|[svc e] sv]|] eqn:Ed; cbn [mbind option_bind head fmap option_fmap option_map fst snd].
    + by intros [? ?]%Hrt.
    + intros [= <- <-]. left. exists ((svc, e) :: sv), svc, e. split_and!; [done|done|set_solver|done|by intros [? ?]].
    + intros [? ?]%Hrt. right. right. split_and!; [done|by intros [? ?]|done].
Qed.

Lemma targets_of_nonempty `{FL : Floats} s list_instances sid ts : targets_of s list_instances sid ts -> ts <> [].
Proof. intros (m & named & _ & [(? & ? & ? & _ & -> & _)|[(? & ? & _ & _ & -> & _)|(_ & _ & insts & _ & Hi)]]); [done..|]. by destruct Hi. Qed.

(** C10: A service is only ever routed to targets of the module that its id
    names.  When the targets of a service are resolved there is at least
    one, and they are the one endpoint that a development override or a
    declaration of that module registers for the service (for the module
    itself, the first endpoint of the override), or, with no override in
    place and the service registered by the module, running instances of the
    module on their own ports, all of them ready if any running instance is
    known to be ready, and while a canary takes part of the traffic either
    all canaries or all not. *)
Theorem targets_are_live `{FL : Floats} s list_instances sid ts s' :
  resolve_ingress_targets s list_instances sid = (Ok ts, s') -> targets_of s list_instances sid ts.
Proof. apply resolve_targets_of. Qed.

(** ** Shares and turns *)

Section Turns.
Context {FL : Floats}.

(** [n] consecutive decisions for one service at a constant percentage. *)
Fixpoint route_many (s : Routing) (sid : text) (percent : Z) (n : nat) : list bool * Routing :=
  match n with
  | O => ([], s)
  | S n => let (b, s) := should_route_to_canary s sid percent in
           let (bs, s) := route_many s sid percent n in (b :: bs, s)
  end.

Definition count_true (bs : list bool) : Z := Z.of_nat (length (base.filter (λ b, b = true) bs)).

Lemma count_true_cons b bs : count_true (b :: bs) = (if b then 1 else 0) + count_true bs.
Proof. unfold count_true. destruct b; [rewrite filter_cons_True by done|rewrite filter_cons_False by done]; cbn [length]; lia. Qed.

(** The buckets below [p] among [n] requests from number [c] on. *)
Fixpoint share (p c : Z) (n : nat) : Z := match n with O => 0 | S n => (if c mod 100 <? p then 1 else 0) + share p (c + 1) n end.

Lemma share_snoc p c n : share p c (S n) = share p c n + (if (c + Z.of_nat n) mod 100 <? p then 1 else 0).
Proof.
  revert c. induction n as [|n IH]; intros c; [cbn [share]; change (Z.of_nat 0) with 0; by rewrite !Z.add_0_r|].
  change (share p c (S (S n))) with ((if c mod 100 <? p then 1 else 0) + share p (c + 1) (S n)). rewrite IH. cbn [share].
  replace (c + 1 + Z.of_nat n) with (c + Z.of_nat (S n)) by lia. lia.
Qed.

Lemma share_shift p c : share p (c + 1) 100 = share p c 100.
Proof.
  pose proof (share_snoc p c 100) as H. change (share p c 101) with ((if c mod 100 <? p then 1 else 0) + share p (c + 1) 100) in H.
  replace ((c + Z.of_nat 100) mod 100) with (c mod 100) in H; [lia|]. rewrite <- (Z_mod_plus_full c 1 100). f_equal.
Qed.

Lemma share_zero p : 0 <= p <= 100 -> share p 0 100 = p.
Proof.
  intros Hp. assert (Hall : forallb (λ n, share (Z.of_nat n) 0 100 =? Z.of_nat n) (seq 0 101) = true) by (vm_compute; reflexivity).
  rewrite forallb_forall in Hall. specialize (Hall (Z.to_nat p)). rewrite in_seq, Z2Nat.id in Hall by lia. apply Z.eqb_eq, Hall. lia.
Qed.

Lemma share_any p c : 0 <= p <= 100 -> 0 <= c -> share p c 100 = p.
Proof.
  intros Hp Hc. rewrite <- (share_zero p Hp) at 2. revert c Hc. apply natlike_ind; [done|]. intros c Hc IH. rewrite <- Z.add_1_r, share_shift. exact IH.
Qed.

Lemma route_many_share sid p n s c : 0 < p < 100 -> default 0 (canary_cursor s !! sid) = c -> 0 <= c -> c + Z.of_nat n <= u64_max ->
  count_true (route_many s sid p n).1 = share p c n.
Proof.
  intros Hp. revert s c. induction n as [|n IH]; intros s c Hc Hc0 Hmax; [done|]. cbn [route_many share].
  unfold should_route_to_canary. destruct (Z.eqb_spec p 0); [lia|]. destruct (Z.leb_spec 100 p); [lia|]. rewrite Hc.
  specialize (IH (set_canary_cursor s (<[sid:=u64_saturating_add c 1]> (canary_cursor s))) (c + 1)). cbn [canary_cursor set_canary_cursor] in IH.
  rewrite lookup_insert_eq in IH. cbn in IH. unfold u64_saturating_add in IH at 1. rewrite Z.min_l in IH by lia.
  specialize (IH eq_refl ltac:(lia) ltac:(lia)). destruct (route_many _ sid p n) as [bs s']. cbn [fst] in *. by rewrite count_true_cons, IH.
Qed.

Lemma route_many_constant sid p n s : p = 0 \/ p = 100 -> (route_many s sid p n).1 = replicate n (p =? 100).
Proof.
  intros Hp. revert s. induction n as [|n IH]; intros s; [done|]. cbn. unfold should_route_to_canary. specialize (IH s).
  destruct Hp as [-> | ->]; cbn; destruct (route_many s sid _ n); cbn in *; by rewrite IH.
Qed.

Lemma count_true_replicate n b : count_true (replicate n b) = if b then Z.of_nat n else 0.
Proof. induction n as [|n IH]; [by destruct b|]. cbn [replicate]. rewrite count_true_cons, IH. destruct b; lia. Qed.
End Turns.

(** A canary gets exactly its share.  For every percentage from 0 to 100
    and wherever the service's request counter stands (short of the end of
    its 64 bits), of any 100 consecutive requests of the service exactly
    [percent] are routed to the canary. *)
Theorem canary_share_exact `{FL : Floats} s sid percent :
  0 <= percent <= 100 -> 0 <= default 0 (canary_cursor s !! sid) -> default 0 (canary_cursor s !! sid) + 100 <= u64_max ->
  count_true (route_many s sid percent 100).1 = percent.
Proof.
  intros Hp Hc Hmax. destruct (decide (percent = 0 \/ percent = 100)) as [He|He].
  - rewrite route_many_constant, count_true_replicate by done. destruct He as [-> | ->]; reflexivity.
  - rewrite (route_many_share sid percent 100 s _ ltac:(lia) eq_refl Hc Hmax). apply share_any; lia.
Qed.

(** [n] requests for a pool that does not change: the instance tried first by each. *)
Fixpoint serve_many `{FL : Floats} (s : Routing) (sid : text) (pool : list Instance) (n : nat) : list Instance * Routing :=
  match n with
  | O => ([], s)
  | S n => let (order, s) := ordered_runtime_selection_pool s sid pool in
           let (firsts, s) := serve_many s sid pool n in (option_list (head order) ++ firsts, s)
  end.

Section RoundRobin.
Context {FL : Floats} (sid : text) (pool : list Instance).
Hypothesis (Hlen : (2 <= length pool)%nat).
Abbreviation N := (Z.of_nat (length pool)).

Lemma head_ordered c d : 0 <= c -> head (ordered_runtime_candidates pool c) = Some (nth (Z.to_nat (c mod N)) pool d).
Proof.
  intros Hc. unfold ordered_runtime_candidates. destruct (Nat.leb_spec (length pool) 1); [lia|].
  pose proof (Z.mod_pos_bound c N ltac:(lia)) as Hb. set (k := Z.to_nat (c mod N)).
  assert (Hk : (k < length pool)%nat) by lia. destruct (drop k pool) as [|x l] eqn:E.
  - apply (f_equal length) in E. rewrite length_drop in E. cbn in E. lia.
  - cbn. f_equal. assert (Hn : nth k (take k pool ++ drop k pool) d = x).
    { rewrite E, app_nth2; rewrite length_take_le by lia; [|lia]. by rewrite Nat.sub_diag. }
    by rewrite take_drop in Hn.
Qed.

(** From cursor [c] on, the requests start at [c], [c + 1], ... round the pool. *)
Lemma serve_many_turns n s c d : default 0 (ingress_cursor s !! sid) = c -> 0 <= c ->
  (serve_many s sid pool n).1 = (λ k, nth (Z.to_nat ((c + Z.of_nat k) mod N)) pool d) <$> seq 0 n.
Proof.
  revert s c. induction n as [|n IH]; intros s c Hc Hc0; [done|]. cbn [serve_many]. unfold ordered_runtime_selection_pool.
  destruct (Nat.leb_spec (length pool) 1); [lia|]. unfold next_runtime_ingress_index. destruct (Z.leb_spec N 1); [lia|]. rewrite Hc.
  pose proof (Z.mod_pos_bound c N ltac:(lia)) as Hb. rewrite (head_ordered _ d) by lia. rewrite Z.mod_mod by lia.
  set (s1 := set_ingress_cursor _ _). specialize (IH s1 ((c mod N + 1) mod N)). subst s1. cbn [ingress_cursor set_ingress_cursor] in IH.
  rewrite lookup_insert_eq in IH. cbn in IH. specialize (IH eq_refl (proj1 (Z.mod_pos_bound _ N ltac:(lia)))).
  destruct (serve_many _ sid pool n) as [firsts s']. cbn [fst] in *. rewrite IH. cbn [option_list app seq fmap list_fmap].
  rewrite Z.add_0_r. f_equal. rewrite <- seq_shift, <- list_fmap_compose. apply list_fmap_ext. intros _ k _. unfold compose. do 2 f_equal.
  rewrite Zplus_mod_idemp_l. rewrite <- Z.add_assoc, Zplus_mod_idemp_l. f_equal. lia.
Qed.

Lemma rotation_perm c : 0 <= c < N -> (λ k, (c + Z.of_nat k) mod N) <$> seq 0 (length pool) ≡ₚ Z.of_nat <$> seq 0 (length pool).
Proof.
  intros Hc. set (n := length pool) in *. set (i := Z.to_nat c). rewrite <- (take_drop (n - i) (seq 0 n)) at 1. rewrite fmap_app.
  rewrite Permutation_app_comm. rewrite take_seq, drop_seq. replace ((n - i) `min` n)%nat with (n - i)%nat by lia.
  replace (n - (n - i))%nat with i by lia. replace (seq 0 n) with (seq 0 i ++ seq i (n - i)) by (rewrite <- seq_app; f_equal; lia).
  rewrite fmap_app. apply Permutation_app.
  - apply reflexive_eq. replace (seq (0 + (n - i)) i) with ((Nat.add (n - i)) <$> seq 0 i) by (rewrite fmap_add_seq; f_equal; lia).
    rewrite <- list_fmap_compose. apply list_fmap_ext. intros j k Hk. apply lookup_seq in Hk as [-> Hj]. unfold compose.
    replace (c + Z.of_nat (n - i + (0 + j))) with (Z.of_nat (0 + j) + 1 * Z.of_nat n) by lia. rewrite Z_mod_plus_full. apply Z.mod_small. lia.
  - apply reflexive_eq. replace (seq i (n - i)) with ((Nat.add i) <$> seq 0 (n - i)) by (rewrite fmap_add_seq; f_equal; lia).
    rewrite <- list_fmap_compose. apply list_fmap_ext. intros j k Hk. apply lookup_seq in Hk as [-> Hj]. unfold compose.
    rewrite Z.mod_small; lia.
Qed.
End RoundRobin.

(** Instances take turns.  While the pool of a service does not change,
    of as many consecutive requests as it has instances, each instance is
    tried first by exactly one, wherever the cursor stands. *)
Theorem instances_take_turns `{FL : Floats} s sid pool :
  0 <= default 0 (ingress_cursor s !! sid) -> (serve_many s sid pool (length pool)).1 ≡ₚ pool.
Proof.
  intros Hc. destruct pool as [|i0 [|i1 rest]]; [done|done|]. set (pool := i0 :: i1 :: rest) in *.
  assert (Hlen : (2 <= length pool)%nat) by (cbn; lia). clearbody pool. rewrite (serve_many_turns sid pool Hlen (length pool) s _ i0 eq_refl Hc).
  set (c := default 0 _) in *.
  transitivity ((λ z, nth (Z.to_nat z) pool i0) <$> ((λ k, (c mod Z.of_nat (length pool) + Z.of_nat k) mod Z.of_nat (length pool)) <$> seq 0 (length pool))).
  { apply reflexive_eq. rewrite <- list_fmap_compose. apply list_fmap_ext. intros _ k _. unfold compose. by rewrite Zplus_mod_idemp_l. }
  rewrite (rotation_perm pool Hlen (c mod Z.of_nat (length pool))) by (apply Z.mod_pos_bound; lia).
  apply reflexive_eq. rewrite <- list_fmap_compose. unfold compose. apply list_eq. intros j. rewrite list_lookup_fmap.
  destruct (decide (j < length pool)%nat) as [Hj|Hj].
  - rewrite lookup_seq_lt by done. cbn. rewrite Nat2Z.id. destruct (pool !! j) as [x|] eqn:E; [|apply lookup_ge_None in E; lia].
    f_equal. by apply nth_lookup_Some.
  - rewrite lookup_seq_ge by lia. cbn. symmetry. apply lookup_ge_None. lia.
Qed.

(** ** Promotion and rollback *)

Section Reconciliation.
Context {FL : Floats}.
Context (diagnostics : text -> option ServiceMetricSnapshot) (runtime_metrics : text -> option (option JsonValue))
        (instances : text -> result (list Instance) RuntimeError) (now : Z).
Abbreviation reconcile1 := (reconcile_one diagnostics runtime_metrics instances now).
Abbreviation reconcile := (reconcile_dynamic_canary_rollouts diagnostics runtime_metrics instances now).

Definition interval_of (r : ModuleServiceRolloutConfig) : Z := default 30000 (promotion_interval_ms r) * 1000000.
Definition evaluation_of (r : ModuleServiceRolloutConfig) (m : text) : CanaryEvaluation :=
  evaluate_canary_success (success_criteria r) (diagnostics (module_service_id m)) (runtime_metrics (module_service_id m)).

(** A canary that a round has to promote, and the allocation it gets. *)
Record due (s : Routing) (m : text) (a : ModuleCanaryAllocation) (r : ModuleServiceRolloutConfig) : Prop := {
  due_rollout : rollout_config_for s (module_service_id m) = Some r;
  due_strategy : strategy r = Some CanaryReplace;
  due_partial : traffic_percent a <> 0 /\ traffic_percent a < 100;
  due_ready : canary_instances_unhealthy s m (instance_ids a) = Some false;
  due_healthy : evaluation_of r m = Healthy;
  due_time : exists t, last_changed_at a = Some t /\ t + interval_of r <= now;
  due_step : traffic_percent a < next_canary_percent r (traffic_percent a);
}.
Definition promotion (r : ModuleServiceRolloutConfig) (a : ModuleCanaryAllocation) : ModuleCanaryAllocation :=
  mkAllocation (next_canary_percent r (traffic_percent a)) (instance_ids a) (Some now).

(** What a round may do to an allocation: promote it when it is due, roll it
    back on a regression, keep it otherwise. *)
Inductive fate (s : Routing) (m : text) (a : ModuleCanaryAllocation) : option ModuleCanaryAllocation -> list text -> Prop :=
| kept degraded : (forall r, ~ due s m a r) -> fate s m a (Some a) degraded
| promoted degraded r : due s m a r -> fate s m a (Some (promotion r a)) degraded
| rolled_back degraded r :
    rollout_config_for s (module_service_id m) = Some r -> rollback_on_regression r = true ->
    canary_instances_unhealthy s m (instance_ids a) <> Some false \/ evaluation_of r m = Regressed ->
    module_service_id m ∈ degraded -> fate s m a None degraded.

Lemma fate_more s m a o d d' : fate s m a o d -> d ⊆ d' -> fate s m a o d'.
Proof. intros [] Hd; [by apply kept|by apply promoted|eapply rolled_back; eauto]. Qed.

Lemma due_same s s' m a r : rollouts s' = rollouts s -> instance_health s' = instance_health s -> due s' m a r -> due s m a r.
Proof.
  intros Hr Hh [? ? ? Hu ? ? ?]. unfold canary_instances_unhealthy in Hu. rewrite Hh in Hu. unfold rollout_config_for in *. rewrite Hr in *. by split.
Qed.

Lemma fate_same s s' m a o d : rollouts s' = rollouts s -> instance_health s' = instance_health s -> fate s' m a o d -> fate s m a o d.
Proof.
  intros Hr Hh [d' Hn|d' r Hdue|d' r Hc Hb Hwhy Hd].
  - apply kept. intros r Hdue. apply (Hn r). by apply (due_same s' s).
  - apply promoted. by apply (due_same s s').
  - unfold rollout_config_for, canary_instances_unhealthy in *. rewrite Hr, Hh in *. by eapply rolled_back.
Qed.

(** Every rollout that can promote has a positive interval (validation). *)
Definition intervals_ok (s : Routing) : Prop := forall sid r, rollout_config_for s sid = Some r -> 0 < interval_of r.

Lemma reconcile_one_fate s m a al : intervals_ok s -> canary_allocations s = Some al -> al !! m = Some a ->
  let (s', d) := reconcile1 s (m, a) in
  rollouts s' = rollouts s /\ instance_health s' = instance_health s
  /\ exists al', canary_allocations s' = Some al' /\ (forall k, k <> m -> al' !! k = al !! k) /\ fate s m a (al' !! m) d.
Proof.
  intros Hint Hal Hm.
  assert (Hkeep : forall d, (forall r, ~ due s m a r) -> rollouts s = rollouts s /\ instance_health s = instance_health s
    /\ exists al', canary_allocations s = Some al' /\ (forall k, k <> m -> al' !! k = al !! k) /\ fate s m a (al' !! m) d).
  { intros d Hd. do 2 (split; [done|]). exists al. split; [done|]. split; [done|]. rewrite Hm. by apply kept. }
  unfold reconcile_one. destruct (rollout_config_for s (module_service_id m)) as [r|] eqn:Er; [|apply Hkeep; intros r [H _ _ _ _ _ _]; congruence].
  assert (Hroll : canary_instances_unhealthy s m (instance_ids a) <> Some false \/ evaluation_of r m = Regressed ->
    let (s', d) := (if rollback_on_regression r then ((clear_canary_routing s m (instances m)).2, [module_service_id m]) else (s, [])) in
    rollouts s' = rollouts s /\ instance_health s' = instance_health s
    /\ exists al', canary_allocations s' = Some al' /\ (forall k, k <> m -> al' !! k = al !! k) /\ fate s m a (al' !! m) d).
  { intros Hwhy. destruct (rollback_on_regression r) eqn:Eb; [|apply Hkeep; intros r' [H _ _ H2 H3 _ _]; rewrite Er in H; injection H as <-; destruct Hwhy; congruence].
    unfold clear_canary_routing. rewrite Hal. cbn.
    do 2 (split; [done|]). exists (delete m al). split; [done|]. split; [intros k Hk; by rewrite lookup_delete_ne|].
    rewrite lookup_delete_eq. apply (rolled_back _ _ _ _ r); [done|done|done|set_solver]. }
  assert (Hno : (due s m a r -> False) -> forall r', ~ due s m a r') by (intros Hn r' Hd; apply Hn; pose proof (due_rollout _ _ _ _ Hd) as H; rewrite Er in H; by injection H as <-).
  destruct (bool_decide (strategy r = Some CanaryReplace)) eqn:Es; boolify; [|apply Hkeep, Hno; by intros []]. cbn [negb].
  destruct ((traffic_percent a =? 0) || _) eqn:Ep; [apply Hkeep, Hno; intros [_ _ [? ?] _ _ _ _]; apply orb_true_iff in Ep as [Ep|Ep]; boolify; lia|].
  destruct (canary_instances_unhealthy s m (instance_ids a)) as [[]|] eqn:Eu; cbn [default id]; [apply Hroll; auto| |apply Hroll; auto].
  fold (evaluation_of r m). destruct (evaluation_of r m) eqn:Ee; [|apply Hkeep, Hno; intros []; congruence|apply Hroll; auto].
  pose proof (Hint _ _ Er) as Hi. fold (interval_of r).
  destruct (_ <? interval_of r) eqn:Et.
  { apply Hkeep, Hno. intros [_ _ _ _ _ (t & Hl & Ht) _]. rewrite Hl in Et. cbn in Et. destruct (Z.leb_spec t now); cbn in Et; boolify; lia. }
  destruct (next_canary_percent r (traffic_percent a) <=? traffic_percent a) eqn:En; [apply Hkeep, Hno; intros []; boolify; lia|]. rewrite Hal, Hm. boolify.
  cbn. do 2 (split; [done|]). eexists. split; [done|]. split; [intros k Hk; by rewrite lookup_insert_ne|]. rewrite lookup_insert_eq.
  destruct (last_changed_at a) as [t|] eqn:El; cbn in Et; [|lia]. destruct (t <=? now) eqn:Eti; cbn in Et; [|lia]. boolify.
  apply (promoted _ _ _ _ r). split; try done. exists t. split; [done|lia].
Qed.

Lemma reconcile_fold l s d al : intervals_ok s -> canary_allocations s = Some al -> NoDup l.*1 -> (forall m a, (m, a) ∈ l -> al !! m = Some a) ->
  let acc' := foldl (λ acc e, let (s, degraded) := reconcile1 acc.1 e in (s, acc.2 ++ degraded)) (s, d) l in
  rollouts acc'.1 = rollouts s /\ instance_health acc'.1 = instance_health s /\ d ⊆ acc'.2
  /\ exists al', canary_allocations acc'.1 = Some al' /\ (forall k, k ∉ l.*1 -> al' !! k = al !! k)
     /\ (forall m a, (m, a) ∈ l -> fate s m a (al' !! m) acc'.2).
Proof.
  revert s d al. induction l as [|[m a] l IH]; intros s d al Hint Hal Hnd Hin; cbn [foldl].
  - repeat split; [done|]. exists al. repeat split; [done|]. intros m a H. by apply not_elem_of_nil in H.
  - cbn in Hnd. apply NoDup_cons in Hnd as [Hm Hnd]. pose proof (reconcile_one_fate s m a al Hint Hal (Hin m a ltac:(set_solver))) as H1. cbn [fst snd].
    destruct (reconcile1 s (m, a)) as [s1 d1]. destruct H1 as (Hr1 & Hh1 & al1 & Hal1 & Hoth & Hfate).
    assert (Hint1 : intervals_ok s1) by (unfold intervals_ok, rollout_config_for; rewrite Hr1; exact Hint).
    assert (Hin1 : forall k b, (k, b) ∈ l -> al1 !! k = Some b).
    { intros k b Hkb. rewrite Hoth; [apply Hin; set_solver|]. intros ->. apply Hm. by apply (list_elem_of_fmap_2 fst) in Hkb. }
    destruct (IH s1 (d ++ d1) al1 Hint1 Hal1 Hnd Hin1) as (Hr & Hh & Hd & al' & Hal' & Hother & Hfates).
    split; [congruence|]. split; [congruence|]. split; [set_solver|]. exists al'. split; [done|]. split.
    + intros k Hk. rewrite Hother by set_solver. apply Hoth. set_solver.
    + intros k b Hkb. apply elem_of_cons in Hkb as [[= -> ->]|Hkb].
      * rewrite Hother by done. apply (fate_more _ _ _ _ d1); [done|set_solver].
      * apply (fate_same s s1); [done|done|]. by apply Hfates.
Qed.

Lemma reconcile_fate s al m a : intervals_ok s -> canary_allocations s = Some al -> al !! m = Some a ->
  rollouts (reconcile s).1 = rollouts s /\ instance_health (reconcile s).1 = instance_health s
  /\ exists al', canary_allocations (reconcile s).1 = Some al' /\ fate s m a (al' !! m) (reconcile s).2.
Proof.
  intros Hint Hal Hm. unfold reconcile_dynamic_canary_rollouts. rewrite Hal.
  destruct (reconcile_fold (map_to_list al) s [] al Hint Hal) as (Hr & Hh & _ & al' & Hal' & _ & Hf);
    [apply NoDup_fst_map_to_list|intros k b; by rewrite elem_of_map_to_list|].
  split; [done|]. split; [done|]. exists al'. split; [done|]. apply Hf. by apply elem_of_map_to_list.
Qed.
End Reconciliation.

(** A canary's share changes only on evidence.  In one round of
    reconciliation, whatever the other allocations are, a module's
    allocation is promoted exactly when it is due: its strategy is
    [canary_replace], all its instances are known to be ready, every
    configured criterion is measured and met, the promotion interval has
    passed, and the new share is the next larger configured step; it is
    removed only by a rollback, on an instance that is not ready or a
    criterion that is exceeded, and then the service is set to degraded. *)
Theorem canary_changes_on_evidence `{FL : Floats} diagnostics runtime_metrics instances now s al m a :
  intervals_ok s -> canary_allocations s = Some al -> al !! m = Some a ->
  exists al', canary_allocations (reconcile_dynamic_canary_rollouts diagnostics runtime_metrics instances now s).1 = Some al'
    /\ fate diagnostics runtime_metrics now s m a (al' !! m) (reconcile_dynamic_canary_rollouts diagnostics runtime_metrics instances now s).2.
Proof. intros Hint Hal Hm. by destruct (reconcile_fate diagnostics runtime_metrics instances now s al m a Hint Hal Hm) as (_ & _ & ?). Qed.

(** ** A healthy canary takes over *)

Section Progress.
Context {FL : Floats}.
Context (diagnostics : text -> option ServiceMetricSnapshot) (runtime_metrics : text -> option (option JsonValue))
        (instances : text -> result (list Instance) RuntimeError).

(** Rounds of reconciliation at the times [ts]. *)
Definition rounds (s : Routing) (ts : list Z) : Routing :=
  foldl (λ s t, (reconcile_dynamic_canary_rollouts diagnostics runtime_metrics instances t s).1) s ts.

(** Each time at least [gap] after the one before. *)
Fixpoint spaced (gap last : Z) (ts : list Z) : Prop :=
  match ts with [] => True | t :: ts => last + gap <= t /\ spaced gap t ts end.

(** The steps a canary still has to take. *)
Definition remaining (r : ModuleServiceRolloutConfig) (p : Z) : nat := length (base.filter (λ s, p < s) (steps_of r)).

Lemma remaining_decreases r p q : p < q -> q ∈ steps_of r -> (remaining r q < remaining r p)%nat.
Proof.
  intros Hpq Hin. unfold remaining. induction (steps_of r) as [|x l IH]; [by apply not_elem_of_nil in Hin|].
  assert (Hmono : forall l, (length (base.filter (λ s, (q < s)%Z) l) <= length (base.filter (λ s, (p < s)%Z) l))%nat).
  { clear -Hpq. induction l as [|y l IH]; [done|]. destruct (decide (q < y)).
    - rewrite !filter_cons_True by lia. cbn. lia.
    - rewrite filter_cons_False by done. destruct (decide (p < y)); [rewrite filter_cons_True by done; cbn; lia|by rewrite filter_cons_False]. }
  apply elem_of_cons in Hin as [<-|Hin].
  - rewrite filter_cons_False by lia. rewrite filter_cons_True by done. cbn. specialize (Hmono l). lia.
  - specialize (IH Hin). destruct (decide (q < x)).
    + rewrite !filter_cons_True by lia. cbn. lia.
    + rewrite (filter_cons_False (λ s, (q < s)%Z)) by done. destruct (decide (p < x)); [rewrite filter_cons_True by done; cbn; lia|by rewrite filter_cons_False].
Qed.

Lemma remaining_full r : Forall (λ s, 1 <= s <= 100) (steps_of r) -> remaining r 100 = 0%nat.
Proof. unfold remaining. induction 1 as [|x l Hx _ IH]; [done|]. rewrite filter_cons_False by lia. exact IH. Qed.

Lemma spaced_weaken gap last last' ts : spaced gap last' ts -> last <= last' -> spaced gap last ts.
Proof. destruct ts; cbn; [done|]. intros [H1 H2] Hl. split; [lia|done]. Qed.

Lemma next_percent_grows r p : Forall (λ s, 1 <= s <= 100) (steps_of r) -> 100 ∈ steps_of r -> p < 100 ->
  p < next_canary_percent r p <= 100 /\ next_canary_percent r p ∈ steps_of r.
Proof.
  intros Hr Hin Hp. unfold next_canary_percent. destruct (find _ (steps_of r)) as [q|] eqn:E.
  - apply find_spec in E as [Hq Hlt]. boolify. rewrite Forall_forall in Hr. specialize (Hr q Hq). cbn. split; [lia|done].
  - exfalso. apply list_elem_of_In in Hin. apply (find_none _ _ E) in Hin. boolify. lia.
Qed.

(** A canary on its way: partly routed, ready, healthy. *)
Record on_its_way (s : Routing) (m : text) (r : ModuleServiceRolloutConfig) (a : ModuleCanaryAllocation) : Prop := {
  way_rollout : rollout_config_for s (module_service_id m) = Some r;
  way_strategy : strategy r = Some CanaryReplace;
  way_ready : canary_instances_unhealthy s m (instance_ids a) = Some false;
  way_healthy : evaluation_of diagnostics runtime_metrics r m = Healthy;
  way_percent : 0 < traffic_percent a <= 100;
}.

Lemma rounds_reach_full ts : forall s m r a al t0, intervals_ok s ->
  Forall (λ s, 1 <= s <= 100) (steps_of r) -> 100 ∈ steps_of r -> on_its_way s m r a ->
  canary_allocations s = Some al -> al !! m = Some a -> last_changed_at a = Some t0 ->
  spaced (interval_of r) t0 ts -> (remaining r (traffic_percent a) <= length ts)%nat ->
  exists al' a', canary_allocations (rounds s ts) = Some al' /\ al' !! m = Some a' /\ traffic_percent a' = 100 /\ instance_ids a' = instance_ids a.
Proof.
  induction ts as [|t ts IH]; intros s m r a al t0 Hint Hsteps H100 Hway Hal Hm Hlast Hsp Hrem.
  - exists al, a. repeat split; try done. destruct Hway as [_ _ _ _ Hp]. destruct (Z.eq_dec (traffic_percent a) 100) as [|Hne]; [done|exfalso].
    destruct (next_percent_grows r (traffic_percent a) Hsteps H100 ltac:(lia)) as [Hg Hin].
    pose proof (remaining_decreases r _ _ (proj1 Hg) Hin). cbn in Hrem. lia.
  - cbn [rounds foldl]. fold (rounds (reconcile_dynamic_canary_rollouts diagnostics runtime_metrics instances t s).1 ts).
    destruct Hsp as [Ht Hsp]. destruct (reconcile_fate diagnostics runtime_metrics instances t s al m a Hint Hal Hm) as (Hr & Hh & al1 & Hal1 & Hfate).
    set (s1 := (reconcile_dynamic_canary_rollouts _ _ _ t s).1) in *.
    assert (Hint1 : intervals_ok s1) by (unfold intervals_ok, rollout_config_for; rewrite Hr; exact Hint).
    assert (Hway1 : forall a1, instance_ids a1 = instance_ids a -> 0 < traffic_percent a1 <= 100 -> on_its_way s1 m r a1).
    { intros a1 Hids Hp1. destruct Hway as [? ? Hu ? ?]. split; try done; unfold rollout_config_for, canary_instances_unhealthy in *; rewrite ?Hr, ?Hh, ?Hids; done. }
    destruct (Z.eq_dec (traffic_percent a) 100) as [Hfull|Hpart].
    + assert (Hkept : al1 !! m = Some a).
      { inversion Hfate as [d Hn Ho|d r' Hd Ho|d r' Hc Hb Hwhy Hd Ho]; [done| |].
        - destruct Hd as [_ _ [_ Hlt] _ _ _ _]. lia.
        - exfalso. destruct Hway as [Hro _ Hre He _]. rewrite Hro in Hc. injection Hc as <-. destruct Hwhy; congruence. }
      apply (IH s1 m r a al1 t0); try done.
      * apply Hway1; [done|lia].
      * apply (spaced_weaken _ _ t); [done|]. pose proof (Hint _ _ (way_rollout _ _ _ _ Hway)). lia.
      * rewrite Hfull, remaining_full by done. lia.
    + destruct Hway as [Hro Hst Hre Hhe Hp]. destruct (next_percent_grows r (traffic_percent a) Hsteps H100 ltac:(lia)) as [Hg Hin].
      assert (Hdue : due diagnostics runtime_metrics t s m a r) by (split; try done; [lia|exists t0; split; [done|lia]|lia]).
      assert (Hpro : al1 !! m = Some (promotion t r a)).
      { inversion Hfate as [d Hn Ho|d r' Hd Ho|d r' Hc Hb Hwhy Hd Ho]; [by destruct (Hn r)| |].
        - f_equal. f_equal. destruct Hd as [Hro' _ _ _ _ _ _]. congruence.
        - exfalso. rewrite Hro in Hc. injection Hc as <-. destruct Hwhy; congruence. }
      destruct (IH s1 m r (promotion t r a) al1 t Hint1 Hsteps H100) as (al' & a' & H1 & H2 & H3 & H4); try done.
      * apply Hway1; [done|cbn; lia].
      * cbn [promotion traffic_percent]. pose proof (remaining_decreases r _ _ (proj1 Hg) Hin). cbn in Hrem. lia.
      * exists al', a'. done.
Qed.
End Progress.

(** A canary that stays ready and healthy takes all the traffic.  Under
    a valid rollout section, from any share the canary has, after as many
    rounds as the section has steps, each at least the promotion interval
    after the one before, the canary's share is 100 percent, of the same
    instances, whatever other canaries run. *)
Theorem canary_takes_over `{FL : Floats} diagnostics runtime_metrics instances s m r a al t0 ts :
  intervals_ok s -> Forall (λ step, 0 <= step) (traffic_steps r) -> Rollout.validate r = Ok tt ->
  on_its_way diagnostics runtime_metrics s m r a ->
  canary_allocations s = Some al -> al !! m = Some a -> last_changed_at a = Some t0 ->
  spaced (interval_of r) t0 ts -> (length (steps_of r) <= length ts)%nat ->
  exists al' a', canary_allocations (rounds diagnostics runtime_metrics instances s ts) = Some al'
    /\ al' !! m = Some a' /\ traffic_percent a' = 100 /\ instance_ids a' = instance_ids a.
Proof.
  intros Hint Hnn Hv Hway Hal Hm Hlast Hsp Hlen. destruct (valid_steps r Hnn Hv) as [Hsteps H100].
  apply (rounds_reach_full diagnostics runtime_metrics instances ts s m r a al t0); try done.
  etransitivity; [|done]. unfold remaining. apply length_filter.
Qed.

(** C33: Gateway and routing together: every request the gateway sends goes
    to one of the targets of the service it was authorized for: the endpoint
    that an override or a declaration of the module of that service registers
    for it, or a running instance of that module on its own port, as for
    [targets_are_live]. *)
Theorem gateway_reaches_live_targets `{FL : Floats} `{HT : HttpTypes} {B} `{RB : RequestBuilder B} secret s list_instances network h k c t b r :
  (forall store, security_manager h = Some store -> store_ok store) ->
  (t, b, r) ∈ sent (gateway_proxy secret (λ sid, (resolve_ingress_targets s list_instances (lit sid)).1) network h k c) ->
  exists sid ts, decode_service_id (service_param c) = Ok sid /\ t ∈ ts /\ targets_of s list_instances (lit sid) ts.
Proof.
  intros Hs Hin. set (resolve := λ sid, _) in *. set (o := gateway_proxy _ _ _ _ _ _) in *.
  assert (Hne : sent o <> []) by (intros He; rewrite He in Hin; by apply not_elem_of_nil in Hin).
  destruct (gateway_admits secret resolve network h k c Hs Hne) as (sid & d & cl & [Hid _ _ _ _ _ (targets & body & Hr & _ & Hp & _)]).
  assert (Ht : t ∈ targets).
  { apply (list_elem_of_fmap_2 fst) in Hin. apply (list_elem_of_fmap_2 fst) in Hin. destruct Hp as [rest ->]. set_solver. }
  subst resolve. cbn in Hr. destruct (resolve_ingress_targets s list_instances (lit sid)) as [res s'] eqn:E. cbn in Hr. subst res.
  exists sid, targets. split; [done|]. split; [done|]. by eapply resolve_targets_of.
Qed.

(** ** A concrete rollout *)

Definition demo_instances : list Instance :=
  [mkInstance (lit "a") true RunningStatus (Some 9001); mkInstance (lit "b") true RunningStatus (Some 9002);
   mkInstance (lit "c") false RunningStatus (Some 9003); mkInstance (lit "d") false FailedStatus (Some 9004)].
Definition demo_rollout : ModuleServiceRolloutConfig :=
  mkRollout (Some CanaryReplace) None None None None [] (Some 1) true false (mkCriteria (Some 2) None None None).
Definition demo_allocation : ModuleCanaryAllocation := mkAllocation 10 [lit "c"] (Some 0).
Definition demo_routing : Routing :=
  mkRouting ∅ ∅ ∅ {[lit "module:shop" := demo_rollout]} (Some {[lit "shop" := {[lit "a" := true; lit "c" := true]}]})
    (Some {[lit "shop" := demo_allocation]}) ∅ ∅.
Definition demo_list (m : text) : result (list Instance) RuntimeError := Ok demo_instances.

(** The first ten requests go to the canary, the next to the ready stable instance. *)
Example routing_examples :
  (resolve_ingress_targets demo_routing demo_list (lit "module:shop")).1 = Ok [RuntimePort (lit "shop") (lit "c") 9003]
  /\ count_true (route_many demo_routing (lit "module:shop") 10 100).1 = 10
  /\ (resolve_ingress_targets demo_routing demo_list (lit "shop")).1 = Err UnsupportedService.
Proof. vm_compute. repeat split. Qed.

Lemma demo_intervals : intervals_ok demo_routing.
Proof.
  intros sid r Hr. unfold rollout_config_for, rollout_for in Hr. assert (Hf : forall cs, first_of (rollouts demo_routing) cs = Some r -> r = demo_rollout).
  { change (rollouts demo_routing) with ({[lit "module:shop" := demo_rollout]} : gmap text ModuleServiceRolloutConfig).
    induction cs as [|c cs IH]; [done|]. cbn [first_of]. destruct (decide (c = lit "module:shop")) as [->|Hne].
    - rewrite lookup_singleton_eq. by intros [= <-].
    - rewrite lookup_singleton_ne by done. exact IH. }
  rewrite (Hf _ Hr). vm_compute. reflexivity.
Qed.

Lemma demo_rollout_found : rollout_config_for demo_routing (module_service_id (lit "shop")) = Some demo_rollout.
Proof.
  unfold rollout_config_for, rollout_for, service_candidates.
  change (rollouts demo_routing) with ({[lit "module:shop" := demo_rollout]} : gmap text ModuleServiceRolloutConfig).
  change (module_service_id (lit "shop")) with (lit "module:shop"). cbn [first_of]. by rewrite lookup_singleton_eq.
Qed.

Lemma targets_are_live_witness : targets_of demo_routing demo_list (lit "module:shop") [RuntimePort (lit "shop") (lit "c") 9003].
Proof.
  apply (targets_are_live demo_routing demo_list (lit "module:shop") _ (resolve_ingress_targets demo_routing demo_list (lit "module:shop")).2).
  assert (H1 : (resolve_ingress_targets demo_routing demo_list (lit "module:shop")).1 = Ok [RuntimePort (lit "shop") (lit "c") 9003]) by (vm_compute; reflexivity).
  rewrite <- H1. apply surjective_pairing.
Defined.

Lemma canary_share_exact_witness : count_true (route_many demo_routing (lit "module:shop") 37 100).1 = 37.
Proof. apply (canary_share_exact demo_routing (lit "module:shop") 37); vm_compute; [split|..]; discriminate. Defined.

Lemma instances_take_turns_witness : (serve_many demo_routing (lit "module:shop") demo_instances 4).1 ≡ₚ demo_instances.
Proof. apply (instances_take_turns demo_routing (lit "module:shop") demo_instances). vm_compute. discriminate. Defined.

Definition demo_diagnostics (sid : text) : option ServiceMetricSnapshot := Some (mkMetrics (Some 1) None).
Definition demo_metrics (sid : text) : option (option JsonValue) := None.

Lemma canary_changes_on_evidence_witness :
  exists al', canary_allocations (reconcile_dynamic_canary_rollouts demo_diagnostics demo_metrics demo_list 1000000 demo_routing).1 = Some al'
    /\ fate demo_diagnostics demo_metrics 1000000 demo_routing (lit "shop") demo_allocation (al' !! lit "shop")
         (reconcile_dynamic_canary_rollouts demo_diagnostics demo_metrics demo_list 1000000 demo_routing).2.
Proof.
  apply (canary_changes_on_evidence demo_diagnostics demo_metrics demo_list 1000000 demo_routing {[lit "shop" := demo_allocation]});
    [apply demo_intervals|reflexivity|vm_compute; reflexivity].
Defined.

Lemma canary_takes_over_witness :
  exists al' a', canary_allocations (rounds demo_diagnostics demo_metrics demo_list demo_routing [1000000; 2000000; 3000000; 4000000]) = Some al'
    /\ al' !! lit "shop" = Some a' /\ traffic_percent a' = 100 /\ instance_ids a' = [lit "c"].
Proof.
  apply (canary_takes_over demo_diagnostics demo_metrics demo_list demo_routing (lit "shop") demo_rollout demo_allocation {[lit "shop" := demo_allocation]} 0);
    [apply demo_intervals|constructor|reflexivity| |reflexivity|vm_compute; reflexivity|reflexivity|vm_compute; repeat split; discriminate|vm_compute; lia].
  split; [apply demo_rollout_found|reflexivity|vm_compute; reflexivity|vm_compute; reflexivity|cbn; lia].
Defined.

Lemma gateway_reaches_live_targets_witness :
  exists sid ts, decode_service_id (service_param (demo_call "module:shop" [])) = Ok sid
    /\ RuntimePort (lit "shop") (lit "c") 9003 ∈ ts /\ targets_of demo_routing demo_list (lit sid) ts.
Proof.
  set (o := gateway_proxy (lit "edge-secret") (λ sid, (resolve_ingress_targets demo_routing demo_list (lit sid)).1) demo_network demo_host (mkClock 1 2 3 4 5) (demo_call "module:shop" [])).
  apply (gateway_reaches_live_targets (lit "edge-secret") demo_routing demo_list demo_network demo_host (mkClock 1 2 3 4 5) (demo_call "module:shop" [])
    (RuntimePort (lit "shop") (lit "c") 9003) (default (request false [] []) (head (sent o).*1.*2)) (Failure true false) demo_store_ok).
  apply list_elem_of_lookup. exists 0%nat. vm_compute. reflexivity.
Defined.
