(* ===== verification/DepotPlan.v ===== *)
(** * What an install changes: [services/depot/plan.rs], with the data of
    [services/depot/state.rs], [ports.rs] and [verify.rs]

    The crate [depot_protocol] (versions, version rules, digests) is a
    class; its operations are used only through it.  Operator messages are
    constructors that carry what the text shows.  [BTreeMap] collected from
    an iterator keeps the last of two equal keys ([collect_map]). *)

From S2P Require Import Prelude Text Versions Manifests.

(** What the code uses of the crate [depot_protocol]. *)
Class DepotProtocol := mkProtocol {
  DepotVersion : Type;
  Rule : Type;
  Digest : Type;
  version_eq :: EqDecision DepotVersion;
  digest_eq :: EqDecision Digest;
  version_cmp : DepotVersion -> DepotVersion -> comparison;
  version_text : DepotVersion -> text;
  rule_matches : Rule -> DepotVersion -> bool;
  to_hex : Digest -> text;
  parse_digest : text -> option Digest;
  digest_of : list Z -> Digest;
  digest_bytes : Digest -> list Z;
  parse_version : Version -> option DepotVersion;    (** [DepotVersion::parse] of the semver text *)
  semver_version : DepotVersion -> option Version;   (** [semver::Version::parse] of the depot text *)
}.

Definition collect_map {A} (l : list (string * A)) : gmap string A := list_to_map (reverse l).

Section Plan.
Context `{P : DepotProtocol}.

Record Requirement := mkRequirement { req_module : string; req_rule : Rule }.
Record Requires := mkRequires { req_fenrir : option Rule; req_modules : list Requirement }.

Record TargetModule := mkTarget {
  name : string;
  t_rule : string;
  version : DepotVersion;
  platform : string;
  sha256 : Digest;
  size : Z;
  optional : bool;
  requires : Requires;
  via : option text;
}.

(** An installed module as the pipeline sees it. *)
Record HostModule := mkHostModule {
  h_name : string;
  h_version : DepotVersion;
  h_sha256 : text;
  local_sync : bool;
  is_running : bool;
  instances : Z;
  h_migrations : list string;
}.

Record ModuleRecord := mkModuleRecord {
  r_version : DepotVersion; r_sha256 : text; r_size : Z; r_via : option text;
}.
Record InstalledDistribution := mkInstalled {
  d_id : text; manifest_sha256 : text; channel : string; key_id : string; installed_at : text;
  d_modules : gmap string ModuleRecord;
}.
Record ModuleOverride := mkOverride {
  o_version : DepotVersion; o_sha256 : text; o_size : Z; o_from : text; o_installed_at : text;
}.
Record HostState := mkState {
  format : string;
  current : option InstalledDistribution;
  previous : option InstalledDistribution;
  backup : option text;
  pins : gmap string DepotVersion;
  overrides : gmap string ModuleOverride;
}.
Definition STATE_FORMAT : string := "fenrir/depot-state/v1".
Definition state_default : HostState := mkState STATE_FORMAT None None None ∅ ∅.

Inductive Action :=
| Install | Update | Downgrade | Replace | Unchanged | Pinned | LocalSync | OptionalSkipped | Kept | Restore | Remove.
#[export] Instance Action_eq_dec : EqDecision Action.
Proof. solve_decision. Defined.

Definition changes (a : Action) : bool :=
  match a with Install | Update | Downgrade | Replace | Restore | Remove => true | _ => false end.

Inductive RestartKind := RNone | RStart | RRestart | RRolling | RStop.
#[export] Instance RestartKind_eq_dec : EqDecision RestartKind.
Proof. solve_decision. Defined.

Inductive Note :=
| DistributionHas (v : DepotVersion)
| EndsOverride (v : DepotVersion) (from : text)
| FromLocalBackup.

Record PlanEntry := mkEntry {
  module : string;
  rule : option string;
  installed : option DepotVersion;
  target : option DepotVersion;
  e_size : option Z;
  action : Action;
  restart : RestartKind;
  migrations : list string;
  e_via : option text;
  note : option Note;
  source : option TargetModule;
}.

Inductive Problem :=
| StaysAt (name : string) (v : DepotVersion) (needed : string) (r : Rule) (why : string) (at_ : DepotVersion)
| WillNotBeInstalled (name : string) (v : DepotVersion) (needed : string) (r : Rule)
| IsPinned (name : string) (v : DepotVersion)
| IsLocal (name : string)
| InstalledIs (name : string) (v : DepotVersion) (needed : string) (r : Rule) (at_ : DepotVersion)
| NotInstalled (name : string) (v : DepotVersion) (needed : string) (r : Rule).

Record Plan := mkPlan { title : text; entries : list PlanEntry; problems : list Problem }.

Definition plan_changes (p : Plan) : list PlanEntry := filter (λ e, changes (action e) = true) (entries p).
Definition has_changes (p : Plan) : bool := match plan_changes p with [] => false | _ => true end.
Definition download_size (p : Plan) : Z := foldl u64_saturating_add 0 (omap e_size (plan_changes p)).

Definition restart_for (installed : option HostModule) : RestartKind :=
  match installed with
  | Some m => if is_running m && (1 <? instances m) then RRolling else if is_running m then RRestart else RStart
  | None => RStart
  end.

Definition change_action (installed : option HostModule) (t : TargetModule) : Action :=
  match installed with
  | None => Install
  | Some m =>
      if bool_decide (h_version m = version t) then
        if eq_ignore_ascii_case (h_sha256 m) (to_hex (sha256 t)) then Unchanged else Replace
      else match version_cmp (h_version m) (version t) with Lt => Update | _ => Downgrade end
  end.

Definition by_name (inst : list HostModule) : gmap string HostModule :=
  collect_map ((λ m, (h_name m, m)) <$> inst).
Definition is_local (o : option HostModule) : bool := match o with Some m => local_sync m | None => false end.

(** What runs afterwards is the signed module. *)
Definition runs_signed (a : Action) : bool := changes a || bool_decide (a = Unchanged).

(** The action of a target module and its note. *)
Definition target_action (st : HostState) (cur : option HostModule) (t : TargetModule) : Action * option Note :=
  if is_local cur then (LocalSync, None)
  else match pins st !! name t with
       | Some pinned =>
           (Pinned, if bool_decide (pinned = version t) then None else Some (DistributionHas (version t)))
       | None =>
           if optional t && negb (bool_decide (is_Some cur)) then (OptionalSkipped, None)
           else (change_action cur t, None)
       end.

Definition target_entry (st : HostState) (cur : option HostModule) (t : TargetModule) : PlanEntry :=
  let (act, n) := target_action st cur t in
  let n := if runs_signed act then
             match overrides st !! name t with
             | Some o => Some (EndsOverride (o_version o) (o_from o))
             | None => n
             end
           else n in
  let runs := match act with
              | Pinned | LocalSync => h_version <$> cur
              | OptionalSkipped => None
              | _ => Some (version t)
              end in
  mkEntry (name t) (Some (t_rule t)) (h_version <$> cur) runs
    (if changes act then Some (size t) else None) act
    (if changes act then restart_for cur else RNone) [] (via t) n (Some t).

(** An installed module outside the target set. *)
Definition kept_entry (m : HostModule) : PlanEntry :=
  mkEntry (h_name m) None (Some (h_version m)) (Some (h_version m)) None
    (if local_sync m then LocalSync else Kept) RNone [] None None None.

Definition runs_map (es : list PlanEntry) : gmap string (DepotVersion * Action) :=
  collect_map (omap (λ e, (λ v, (module e, (v, action e))) <$> target e) es).

Definition why (a : Action) : string :=
  match a with
  | Pinned => "pinned at" | LocalSync => "synchronized locally at" | Kept => "kept at" | _ => "at"
  end.

Definition requirement_problem (runs : gmap string (DepotVersion * Action)) (t : TargetModule) (r : Requirement)
    : list Problem :=
  match runs !! req_module r with
  | Some (v, a) =>
      if negb (rule_matches (req_rule r) v)
      then [StaysAt (name t) (version t) (req_module r) (req_rule r) (why a) v] else []
  | None => [WillNotBeInstalled (name t) (version t) (req_module r) (req_rule r)]
  end.

Definition effective_requirements (es : list PlanEntry) : list Problem :=
  es ≫= λ e,
    match source e with
    | Some t => if runs_signed (action e) then req_modules (requires t) ≫= requirement_problem (runs_map es) t else []
    | None => []
    end.

Definition distribution_entries (ts : list TargetModule) (inst : list HostModule) (st : HostState) : list PlanEntry :=
  sort_by_key module
    (((λ t, target_entry st (by_name inst !! name t) t) <$> ts)
     ++ (kept_entry <$> filter (λ m, ~ h_name m ∈ name <$> ts) inst)).

Definition plan_distribution (ti : text) (ts : list TargetModule) (inst : list HostModule) (st : HostState) : Plan :=
  let es := distribution_entries ts inst st in
  mkPlan ti es (effective_requirements es).

Definition find_module (n : string) (inst : list HostModule) : option HostModule :=
  List.find (λ m, bool_decide (h_name m = n)) inst.

Definition module_requirement (t : TargetModule) (inst : list HostModule) (r : Requirement) : list Problem :=
  match find_module (req_module r) inst with
  | Some m => if negb (rule_matches (req_rule r) (h_version m))
              then [InstalledIs (name t) (version t) (req_module r) (req_rule r) (h_version m)] else []
  | None => [NotInstalled (name t) (version t) (req_module r) (req_rule r)]
  end.

Definition plan_module (t : TargetModule) (inst : list HostModule) (st : HostState) : Plan :=
  let cur := find_module (name t) inst in
  let act := change_action cur t in
  mkPlan (lit "module " ++ lit (name t) ++ lit " " ++ version_text (version t))
    [mkEntry (name t) None (h_version <$> cur) (Some (version t)) (if changes act then Some (size t) else None)
       act (if changes act then restart_for cur else RNone) [] None None (Some t)]
    ((match pins st !! name t with Some v => [IsPinned (name t) v] | None => [] end)
     ++ (if is_local cur then [IsLocal (name t)] else [])
     ++ (req_modules (requires t) ≫= module_requirement t inst)).

(** ** Rollback from a backup *)

Record BackedUpModule := mkBackedUp {
  bk_version : DepotVersion; bk_archive : string; bk_sha256 : text; bk_manifest : ModuleManifest;
}.
Record BackupModule := mkBackupModule { bm_module : string; bm_previous : option BackedUpModule }.
Record BackupRecord := mkBackupRecord {
  br_format : string; br_created_at : text; br_before : option text; br_after : text;
  br_modules : list BackupModule;
}.

Definition restore_entry (inst : list HostModule) (b : BackupModule) : PlanEntry :=
  let cur := find_module (bm_module b) inst in
  let '(act, tgt, rs) :=
    match bm_previous b with
    | Some p => (Restore, Some (bk_version p), restart_for cur)
    | None => (Remove, None, match cur with Some _ => RStop | None => RNone end)
    end in
  mkEntry (bm_module b) None (h_version <$> cur) tgt None act rs [] None (Some FromLocalBackup) None.

Definition plan_restore (ti : text) (r : BackupRecord) (inst : list HostModule) : Plan :=
  mkPlan ti (sort_by_key module (restore_entry inst <$> br_modules r)) [].

(** ** Maps collected from lists *)

Lemma filter_nil_iff_elem (es : list PlanEntry) :
  filter (λ e, changes (action e) = true) es = [] <-> forall e, e ∈ es -> changes (action e) = false.
Proof.
  split.
  - intros Hf e He. apply not_true_is_false. intros Hc.
    assert (e ∈ filter (λ e, changes (action e) = true) es) by (by apply list_elem_of_filter). rewrite Hf in *. set_solver.
  - intros H. induction es as [|e es IH]; [done|]. rewrite filter_cons. rewrite H by set_solver. cbn. apply IH. set_solver.
Qed.

Lemma collect_map_lookup {A} (l : list (string * A)) k x :
  NoDup l.*1 -> collect_map l !! k = Some x <-> (k, x) ∈ l.
Proof.
  intros Hn. unfold collect_map. rewrite <- elem_of_list_to_map.
  - by rewrite elem_of_reverse.
  - rewrite fmap_reverse. by rewrite reverse_Permutation.
Qed.

Lemma by_name_lookup inst m : NoDup (h_name <$> inst) -> m ∈ inst -> by_name inst !! h_name m = Some m.
Proof.
  intros Hn Hm. unfold by_name. apply collect_map_lookup.
  - by rewrite <- list_fmap_compose.
  - apply list_elem_of_fmap. by exists m.
Qed.

Lemma find_module_some n inst m : find_module n inst = Some m -> h_name m = n /\ m ∈ inst.
Proof.
  intros [Hin Hb]%find_some. split; [by apply bool_decide_eq_true_1 in Hb|by apply list_elem_of_In].
Qed.

(** ** The entries of a plan *)

Lemma distribution_entries_elem ts inst st e :
  e ∈ distribution_entries ts inst st <->
  (exists t, t ∈ ts /\ e = target_entry st (by_name inst !! name t) t)
  \/ (exists m, m ∈ inst /\ ~ h_name m ∈ name <$> ts /\ e = kept_entry m).
Proof.
  unfold distribution_entries. rewrite sort_by_key_perm, elem_of_app, !list_elem_of_fmap. split.
  - intros [(t & -> & Ht)|(m & -> & [Hm Hin]%list_elem_of_filter)]; [left; eauto|right; eauto].
  - intros [(t & Ht & ->)|(m & Hin & Hm & ->)]; [left; eauto|right]. exists m. split; [done|]. by apply list_elem_of_filter.
Qed.

Lemma target_entry_module st cur t : module (target_entry st cur t) = name t.
Proof. unfold target_entry. by destruct (target_action st cur t). Qed.

Lemma target_entry_action st cur t : action (target_entry st cur t) = (target_action st cur t).1.
Proof. unfold target_entry. by destruct (target_action st cur t). Qed.

Lemma target_entry_source st cur t : source (target_entry st cur t) = Some t.
Proof. unfold target_entry. by destruct (target_action st cur t). Qed.

(** Every module once. *)
Lemma distribution_entries_modules ts inst st :
  (module <$> distribution_entries ts inst st)
  ≡ₚ (name <$> ts) ++ (h_name <$> filter (λ m, ~ h_name m ∈ name <$> ts) inst).
Proof.
  unfold distribution_entries. rewrite sort_by_key_perm, fmap_app, <- !list_fmap_compose.
  apply reflexive_eq. f_equal. apply list_fmap_ext. intros i t _. apply target_entry_module.
Qed.

Lemma distribution_entries_nodup ts inst st :
  NoDup (name <$> ts) -> NoDup (h_name <$> inst) -> NoDup (module <$> distribution_entries ts inst st).
Proof.
  intros Ht Hi. rewrite distribution_entries_modules. apply NoDup_app. split_and!; [done| |].
  - intros x Hx (m & -> & [Hm _]%list_elem_of_filter)%list_elem_of_fmap. done.
  - eapply sublist_NoDup; [exact Hi|]. apply fmap_sublist, sublist_filter.
Qed.

(** ** Requirements *)

(** What runs after the plan, read off its entries. *)
Lemma runs_map_lookup es k v a :
  NoDup (module <$> es) ->
  runs_map es !! k = Some (v, a) <-> exists e, e ∈ es /\ module e = k /\ target e = Some v /\ action e = a.
Proof.
  intros Hn. unfold runs_map. rewrite collect_map_lookup.
  - rewrite list_elem_of_omap. split.
    + intros (e & He & (v' & Hv & [= -> -> ->])%fmap_Some). eauto 6.
    + intros (e & He & <- & Hv & <-). exists e. by rewrite Hv.
  - eapply sublist_NoDup; [exact Hn|]. clear Hn. induction es as [|e es IH]; [done|]. cbn.
    destruct (target e); cbn; [by apply sublist_skip|by apply sublist_cons].
Qed.

Lemma requirement_problem_nil runs t r :
  requirement_problem runs t r = [] <->
  exists v a, runs !! req_module r = Some (v, a) /\ rule_matches (req_rule r) v = true.
Proof.
  unfold requirement_problem. destruct (runs !! req_module r) as [[v a]|].
  - destruct (rule_matches (req_rule r) v) eqn:Hm; cbn; split; [eauto|done|done|].
    intros (v' & a' & [= <- <-] & ?). congruence.
  - split; [done|]. by intros (? & ? & [=] & _).
Qed.

Lemma bind_nil {A B} (l : list A) (f : A -> list B) : l ≫= f = [] <-> forall x, x ∈ l -> f x = [].
Proof.
  induction l as [|x l IH]; cbn; [split; [set_solver|done]|]. rewrite app_nil, IH. set_solver.
Qed.

Lemma change_action_unchanged cur t :
  change_action cur t = Unchanged <->
  exists m, cur = Some m /\ h_version m = version t
    /\ eq_ignore_ascii_case (h_sha256 m) (to_hex (sha256 t)) = true.
Proof.
  unfold change_action. split.
  - destruct cur as [m|]; [|done]. case_bool_decide; [|by destruct (version_cmp _ _)].
    destruct (eq_ignore_ascii_case _ _) eqn:E; [|done]. eauto.
  - intros (m & -> & -> & E). by rewrite bool_decide_eq_true_2, E.
Qed.

Lemma change_action_kind cur t : changes (change_action cur t) = true \/ change_action cur t = Unchanged.
Proof.
  unfold change_action. destruct cur as [m|]; [|by left]. case_bool_decide.
  - destruct (eq_ignore_ascii_case _ _); [by right|by left].
  - destruct (version_cmp _ _); by left.
Qed.

(** An entry of a target module that does not change leaves what runs. *)
Lemma target_entry_idle st cur t :
  changes (action (target_entry st cur t)) = false ->
  target (target_entry st cur t) = installed (target_entry st cur t)
  /\ restart (target_entry st cur t) = RNone /\ e_size (target_entry st cur t) = None.
Proof.
  rewrite target_entry_action. unfold target_entry, target_action.
  destruct (is_local cur); [done|]. destruct (pins st !! name t); [done|].
  destruct (optional t && _) eqn:Ho; cbn.
  - intros _. apply andb_prop in Ho as [_ Hc%negb_true_iff]. apply bool_decide_eq_false in Hc.
    destruct cur; [|done]. destruct Hc. eauto.
  - intros Hc. destruct (change_action_kind cur t) as [Hk|Hk]; [congruence|].
    rewrite Hk. cbn. apply change_action_unchanged in Hk as (m & -> & Hv & _). cbn. by rewrite Hv.
Qed.

Lemma target_entry_changes st cur t :
  changes (action (target_entry st cur t)) = true ->
  pins st !! name t = None /\ is_local cur = false /\ target (target_entry st cur t) = Some (version t).
Proof.
  rewrite target_entry_action. unfold target_entry, target_action.
  destruct (is_local cur); [done|]. destruct (pins st !! name t); [done|].
  destruct (optional t && _); cbn; [done|]. intros Hc. split_and!; try done.
  destruct (change_action cur t); done.
Qed.

(** ** Properties *)

(** C6: a distribution plan touches only modules of the signed set that are
    neither pinned nor synchronized from local sources, and takes those to
    the signed version; every other entry leaves the installed version, needs
    no download and no restart. *)
Theorem plan_touches_only_unpinned ti ts inst st e :
  e ∈ entries (plan_distribution ti ts inst st) ->
  (changes (action e) = true ->
     pins st !! module e = None /\ is_local (by_name inst !! module e) = false
     /\ exists t, t ∈ ts /\ name t = module e /\ source e = Some t /\ target e = Some (version t))
  /\ (changes (action e) = false -> target e = installed e /\ restart e = RNone /\ e_size e = None).
Proof.
  cbn. intros [(t & Ht & ->)|(m & Hm & Hn & ->)]%distribution_entries_elem.
  - rewrite target_entry_module. split; [|apply target_entry_idle].
    intros Hc. destruct (target_entry_changes _ _ _ Hc) as (Hp & Hl & Hv). split_and!; try done.
    exists t. by rewrite target_entry_source.
  - unfold kept_entry. cbn. by destruct (local_sync m).
Qed.

(** C7: the plan reports no problem exactly when every requirement of every
    signed module that will run is met by a module that runs afterwards, at
    the version it then has. *)
Theorem plan_requirements_exact ti ts inst st :
  NoDup (name <$> ts) -> NoDup (h_name <$> inst) ->
  let p := plan_distribution ti ts inst st in
  problems p = [] <->
  forall e t r, e ∈ entries p -> source e = Some t -> runs_signed (action e) = true -> r ∈ req_modules (requires t) ->
    exists e' v, e' ∈ entries p /\ module e' = req_module r /\ target e' = Some v /\ rule_matches (req_rule r) v = true.
Proof.
  intros Ht Hi. cbn. pose proof (distribution_entries_nodup ts inst st Ht Hi) as Hn.
  unfold effective_requirements. rewrite bind_nil. split.
  - intros H e t r He Hs Hr Hin. specialize (H e He). rewrite Hs, Hr in H. rewrite bind_nil in H.
    apply H, requirement_problem_nil in Hin as (v & a & Hv & Hm).
    apply runs_map_lookup in Hv as (e' & ? & ? & ? & _); [|done]. eauto 8.
  - intros H e He. destruct (source e) as [t|] eqn:Hs; [|done]. destruct (runs_signed (action e)) eqn:Hr; [|done].
    apply bind_nil. intros r Hin. apply requirement_problem_nil.
    destruct (H e t r He Hs Hr Hin) as (e' & v & He' & Hk & Hv & Hm). exists v, (action e'). split; [|done].
    apply runs_map_lookup; eauto.
Qed.

(** What the host reports after a plan was carried out: the changed modules
    at the signed version and bytes, all others as before. *)
Definition carried_out (p : Plan) (inst inst' : list HostModule) : Prop :=
  forall e, e ∈ entries p ->
    match changes (action e), source e with
    | true, Some t => exists m, by_name inst' !! module e = Some m /\ h_version m = version t
                        /\ h_sha256 m = to_hex (sha256 t) /\ local_sync m = false
    | _, _ => by_name inst' !! module e = by_name inst !! module e
    end.

(** installing is idempotent: once a plan was carried out, planning the
    same distribution again (with the same pins) finds nothing to change. *)
Theorem replan_is_empty ti ts inst inst' st st' :
  carried_out (plan_distribution ti ts inst st) inst inst' -> pins st' = pins st ->
  has_changes (plan_distribution ti ts inst' st') = false.
Proof.
  intros Hc Hp. unfold has_changes, plan_changes. cbn.
  replace (filter _ _) with (@nil PlanEntry); [done|]. symmetry. apply filter_nil_iff_elem.
  intros e He. apply distribution_entries_elem in He as [(t & Ht & ->)|(m & _ & _ & ->)];
    [|unfold kept_entry; cbn; by destruct (local_sync m)].
  specialize (Hc (target_entry st (by_name inst !! name t) t)). cbn in Hc.
  rewrite distribution_entries_elem, target_entry_module, target_entry_source in Hc.
  specialize (Hc ltac:(left; eauto)).
  destruct (changes (action (target_entry st (by_name inst !! name t) t))) eqn:E.
  - destruct Hc as (m & -> & Hv & Hs & Hl). apply target_entry_changes in E as (Hpin & _ & _).
    rewrite target_entry_action. unfold target_action. cbn. rewrite Hl, Hp, Hpin, andb_false_r. cbn.
    rewrite bool_decide_eq_true_2 by done. rewrite Hs. unfold eq_ignore_ascii_case. by rewrite bool_decide_eq_true_2.
  - rewrite Hc, target_entry_action. rewrite target_entry_action in E. unfold target_action in *. rewrite Hp. congruence.
Qed.

(** [install module] may go ahead exactly when the module is not pinned,
    not synchronized locally, and every module it requires is installed at a
    version the rule accepts. *)
Theorem plan_module_exact t inst st :
  problems (plan_module t inst st) = [] <->
  pins st !! name t = None /\ is_local (find_module (name t) inst) = false
  /\ forall r, r ∈ req_modules (requires t) ->
       exists m, find_module (req_module r) inst = Some m /\ rule_matches (req_rule r) (h_version m) = true.
Proof.
  unfold plan_module. cbn. rewrite !app_nil, bind_nil. destruct (pins st !! name t); [naive_solver|].
  destruct (is_local _); [naive_solver|]. split.
  - intros (_ & _ & H). split_and!; try done. intros r Hr. specialize (H r Hr). unfold module_requirement in H.
    destruct (find_module _ _) as [m|]; [|done]. destruct (rule_matches _ _) eqn:E; [eauto|done].
  - intros (_ & _ & H). split_and!; try done. intros r Hr. destruct (H r Hr) as (m & Hm & E).
    unfold module_requirement. by rewrite Hm, E.
Qed.
End Plan.

(** ** A concrete protocol and host *)

#[export] Instance demo_protocol : DepotProtocol :=
  mkProtocol Z Z Z _ _ Z.compare (λ v, lit (pretty.pretty v)) (λ r v, r <=? v) (λ d, [d]) head (foldr Z.add 0) (λ d, [d])
    (λ v, Some (major v)) (λ v, Some (mkVersion v 0 0 [] [])).

Definition demo_target (n : string) (v : Z) (rs : list Requirement) : TargetModule (P := demo_protocol) :=
  mkTarget n "*" v "any" (v + 100) 10 false (mkRequires None rs) None.
Definition demo_host (n : string) (v : Z) (pinned_local : bool) : HostModule (P := demo_protocol) :=
  mkHostModule n v [v + 100] pinned_local true 1 [].
Definition demo_targets : list TargetModule :=
  [demo_target "db" 2 []; demo_target "web" 3 [mkRequirement (P := demo_protocol) "db" (2 : Z)]].
Definition demo_installed : list HostModule := [demo_host "db" 2 false; demo_host "web" 1 false; demo_host "old" 1 true].
Definition demo_after : list HostModule := [demo_host "db" 2 false; demo_host "web" 3 false; demo_host "old" 1 true].
Definition demo_plan : Plan := plan_distribution (lit "athenos-1") demo_targets demo_installed state_default.
Definition demo_update : PlanEntry := target_entry state_default (Some (demo_host "web" 1 false)) (demo_target "web" 3 [mkRequirement (P := demo_protocol) "db" (2 : Z)]).

Lemma demo_update_elem : demo_update ∈ entries demo_plan.
Proof.
  apply distribution_entries_elem. left. exists (demo_target "web" 3 [mkRequirement (P := demo_protocol) "db" (2 : Z)]).
  split; [set_solver|]. unfold demo_update. f_equal.
Qed.

Lemma plan_touches_only_unpinned_witness :
  action demo_update = Update /\ pins (P := demo_protocol) state_default !! "web" = None.
Proof.
  split; [vm_compute; reflexivity|].
  apply (plan_touches_only_unpinned (lit "athenos-1") demo_targets demo_installed state_default demo_update demo_update_elem).
  vm_compute. reflexivity.
Defined.

Lemma demo_nodup : NoDup (name <$> demo_targets) /\ NoDup (h_name <$> demo_installed).
Proof. split; apply (bool_decide_unpack _); vm_compute; exact I. Qed.

Lemma plan_requirements_exact_witness :
  exists e' v, e' ∈ entries demo_plan /\ module e' = "db" /\ target e' = Some v /\ rule_matches (2 : Z) v = true.
Proof.
  apply (proj1 (plan_requirements_exact (lit "athenos-1") demo_targets demo_installed state_default (proj1 demo_nodup) (proj2 demo_nodup)))
    with (e := demo_update) (t := demo_target "web" 3 [mkRequirement (P := demo_protocol) "db" (2 : Z)])
         (r := mkRequirement (P := demo_protocol) "db" (2 : Z)).
  - vm_compute. reflexivity.
  - exact demo_update_elem.
  - vm_compute. reflexivity.
  - vm_compute. reflexivity.
  - set_solver.
Defined.

Lemma demo_carried_out : carried_out demo_plan demo_installed demo_after.
Proof.
  intros e He. apply distribution_entries_elem in He as [(t & Ht & ->)|(m & Hm & Hn & ->)].
  - unfold demo_targets in Ht. apply elem_of_cons in Ht as [->|[->|Ht]%elem_of_cons]; [| |set_solver].
    + vm_compute. reflexivity.
    + exists (demo_host "web" 3 false). split_and!; vm_compute; reflexivity.
  - unfold demo_installed in Hm. rewrite !elem_of_cons in Hm.
    destruct Hm as [->|[->|[->|Hm]]]; [destruct Hn; set_solver..| |set_solver]. vm_compute. reflexivity.
Qed.

Lemma replan_is_empty_witness :
  has_changes demo_plan = true /\ has_changes (plan_distribution (lit "athenos-1") demo_targets demo_after state_default) = false.
Proof.
  split; [vm_compute; reflexivity|].
  apply (replan_is_empty (lit "athenos-1") demo_targets demo_installed demo_after state_default state_default demo_carried_out).
  reflexivity.
Defined.
