(* ===== verification/DepotStore.v ===== *)
(** * Files of the depot pipeline: [services/depot/state.rs], [blob.rs] and
    the lock of [installer.rs]

    The world of the pipeline: the lock file, [state.json], the backup
    directories, the blob cache and the host's module runtime.  Every file
    operation that can fail takes the next decision of [w_io] (an empty list
    means success), so a statement about all worlds covers every failure.
    [write_atomic] writes a temporary file and renames it: it either
    replaces the file or leaves it.  JSON encoding is the identity on
    records; a file that does not parse is [FCorrupt]. *)

From S2P Require Import Prelude Text Versions Manifests DepotPlan.

Inductive DepotError :=
| EConfig | EUnreachable | EApi (status : Z) | EProtocol | ENotFound | EVerification | EBundle
| ERefused | EIo
| EInstall (rolled_back : bool).
#[export] Instance DepotError_eq_dec : EqDecision DepotError.
Proof. solve_decision. Defined.

Definition code (e : DepotError) : string :=
  match e with
  | EConfig => "depot_config" | EUnreachable => "depot_unreachable" | EApi _ => "depot_api"
  | EProtocol => "depot_protocol" | ENotFound => "depot_not_found" | EVerification => "depot_verification"
  | EBundle => "depot_bundle" | ERefused => "depot_refused" | EIo => "depot_io" | EInstall _ => "depot_install"
  end.

Inductive file (A : Type) := FParsed (a : A) | FCorrupt.
Arguments FParsed {A} a.
Arguments FCorrupt {A}.

Section Store.
Context `{P : DepotProtocol} {H : Type}.

(** One directory under [backups/]. *)
Record BackupDir := mkDir { dir_record : option (file BackupRecord); dir_files : gmap string (list Z) }.

Record World := mkWorld {
  w_lock : bool;
  w_state : option (file HostState);
  w_backups : gmap (list Z) BackupDir;
  w_blobs : gmap (list Z) (list Z);
  w_io : list bool;
  w_host : H;
}.

Definition set_lock (w : World) b := mkWorld b (w_state w) (w_backups w) (w_blobs w) (w_io w) (w_host w).
Definition set_state (w : World) s := mkWorld (w_lock w) s (w_backups w) (w_blobs w) (w_io w) (w_host w).
Definition set_backups (w : World) b := mkWorld (w_lock w) (w_state w) b (w_blobs w) (w_io w) (w_host w).
Definition set_blobs (w : World) b := mkWorld (w_lock w) (w_state w) (w_backups w) b (w_io w) (w_host w).
Definition set_io (w : World) i := mkWorld (w_lock w) (w_state w) (w_backups w) (w_blobs w) i (w_host w).
Definition set_host (w : World) h := mkWorld (w_lock w) (w_state w) (w_backups w) (w_blobs w) (w_io w) h.

(** State and errors: a failed computation keeps what it changed. *)
Definition M (A : Type) : Type := World -> result A DepotError * World.
Definition ret {A} (a : A) : M A := λ w, (Ok a, w).
Definition fail {A} (e : DepotError) : M A := λ w, (Err e, w).
Definition bind {A B} (m : M A) (k : A -> M B) : M B :=
  λ w, match m w with (Ok a, w') => k a w' | (Err e, w') => (Err e, w') end.
Definition lift {A} (r : result A DepotError) : M A := λ w, (r, w).
Definition gets {A} (f : World -> A) : M A := λ w, (Ok (f w), w).
Definition modify (f : World -> World) : M unit := λ w, (Ok tt, f w).

(** One file operation: the next decision. *)
Definition io : M unit :=
  λ w, match w_io w with
       | false :: l => (Err EIo, set_io w l)
       | true :: l => (Ok tt, set_io w l)
       | [] => (Ok tt, w)
       end.
End Store.
Arguments World {P} H.
Arguments M {P} H A.

Declare Scope depot_scope.
Delimit Scope depot_scope with depot.
Notation "x <- m ;; k" := (bind m (λ x, k)) (at level 20, m at level 99, k at level 200) : depot_scope.
Notation "' p <- m ;; k" := (bind m (λ p, k)) (at level 20, p pattern, m at level 99, k at level 200) : depot_scope.
Notation "m ;;; k" := (bind m (λ _, k)) (at level 100, k at level 200, right associativity) : depot_scope.
#[global] Open Scope depot_scope.

Fixpoint each {P : DepotProtocol} {H A} (f : A -> M H unit) (l : list A) : M H unit :=
  match l with [] => ret tt | x :: l => f x;;; each f l end.

Section Files.
Context `{P : DepotProtocol} {H : Type}.
Implicit Types w : World H.

(** ** The host state *)

Definition load : M H HostState :=
  io;;;
  s <- gets w_state;;
  match s with
  | None => ret state_default
  | Some FCorrupt => fail EIo
  | Some (FParsed st) => if bool_decide (format st = STATE_FORMAT) then ret st else fail EIo
  end.

Definition save (st : HostState) : M H unit := io;;; modify (λ w, set_state w (Some (FParsed st))).

(** ** Backups *)

Definition dir_of (w : World H) (n : text) : BackupDir := default (mkDir None ∅) (w_backups w !! n).
Definition create_dir (n : text) : M H unit :=
  io;;; modify (λ w, set_backups w (<[n := dir_of w n]> (w_backups w))).
Definition write_file (n : text) (f : string) (bytes : list Z) : M H unit :=
  modify (λ w, set_backups w (<[n := mkDir (dir_record (dir_of w n)) (<[f := bytes]> (dir_files (dir_of w n)))]> (w_backups w))).
Definition read_file (n : text) (f : string) : M H (list Z) :=
  io;;; o <- gets (λ w, dir_files (dir_of w n) !! f);; match o with Some b => ret b | None => fail EIo end.

Definition load_backup (n : text) : M H (option BackupRecord) :=
  io;;; o <- gets (λ w, dir_record (dir_of w n));;
  match o with None => ret None | Some (FParsed r) => ret (Some r) | Some FCorrupt => fail EIo end.
Definition save_backup (n : text) (r : BackupRecord) : M H unit :=
  io;;; modify (λ w, set_backups w (<[n := mkDir (Some (FParsed r)) (dir_files (dir_of w n))]> (w_backups w))).

(** [prune_backups]: every directory but [keep], in the order of the
    listing; an error stops it. *)
Definition remove_backup (n : text) : M H unit := io;;; modify (λ w, set_backups w (delete n (w_backups w))).
Definition prune_backups (keep : option text) : M H unit :=
  io;;; names <- gets (λ w, elements (dom (w_backups w)));;
  each (λ n, if bool_decide (keep = Some n) then ret tt else remove_backup n) names.

(** ** Blobs *)

Definition check_bytes (bytes : list Z) (d : Digest) (sz : Z) : result unit DepotError :=
  if negb (Z.of_nat (length bytes) =? sz) then Err EBundle
  else if bool_decide (digest_of bytes = d) then Ok tt else Err EBundle.

Definition cache_read (d : Digest) (sz : Z) : M H (list Z) :=
  io;;; o <- gets (λ w, w_blobs w !! to_hex d);;
  match o with
  | None => fail EIo
  | Some b => lift (check_bytes b d sz);;; ret b
  end.

(** [BlobWriter]: the bytes of the partial file, counted and hashed. *)
Record BlobWriter := mkWriter { bw_bytes : list Z; written : Z; bw_size : Z; bw_digest : Digest }.
Definition writer_write (bw : BlobWriter) (chunk : list Z) : M H BlobWriter :=
  let n := u64_saturating_add (written bw) (Z.of_nat (length chunk)) in
  if bw_size bw <? n then fail EBundle
  else io;;; ret (mkWriter (bw_bytes bw ++ chunk) n (bw_size bw) (bw_digest bw)).
Fixpoint writer_write_all (bw : BlobWriter) (chunks : list (list Z)) : M H BlobWriter :=
  match chunks with [] => ret bw | c :: cs => bw <- writer_write bw c;; writer_write_all bw cs end.
Definition writer_finish (bw : BlobWriter) : M H unit :=
  if negb (written bw =? bw_size bw) then fail EBundle
  else if negb (bool_decide (digest_of (bw_bytes bw) = bw_digest bw)) then fail EBundle
  else io;;; io;;; modify (λ w, set_blobs w (<[to_hex (bw_digest bw) := bw_bytes bw]> (w_blobs w))).

(** What the depot sends for a blob: chunks, then perhaps an error. *)
Definition BlobSource := Digest -> Z -> list (list Z) * option DepotError.

(** [BlobCache::ensure]. *)
Definition contains (w : World H) (d : Digest) (sz : Z) : bool * World H :=
  match cache_read d sz w with (Ok _, w') => (true, w') | (Err _, w') => (false, w') end.
Definition ensure (src : BlobSource) (d : Digest) (sz : Z) : M H bool :=
  λ w, let (hit, w) := contains w d sz in
       if hit then (Ok false, w)
       else (modify (λ w, set_blobs w (delete (to_hex d) (w_blobs w)));;;
             io;;; io;;;
             bw <- writer_write_all (mkWriter [] 0 sz d) (src d sz).1;;
             match (src d sz).2 with Some e => fail e | None => writer_finish bw end;;;
             ret true) w.

(** [BlobCache::prune] keeps the named blobs; a file that cannot be removed
    stays. *)
Definition prune (keep : gset (list Z)) : M H unit :=
  io;;; names <- gets (λ w, elements (dom (w_blobs w)));;
  each (λ n, if bool_decide (n ∈ keep) then ret tt
             else λ w, match io w with
                       | (Ok _, w') => (Ok tt, set_blobs w' (delete n (w_blobs w')))
                       | (Err _, w') => (Ok tt, w')
                       end) names.

(** ** The lock *)

Definition lock_take : M H unit :=
  io;;; held <- gets w_lock;;
  if held then fail ERefused else io;;; modify (λ w, set_lock w true).
(** [Drop for Lock]: a failed removal is ignored. *)
Definition lock_drop (w : World H) : World H :=
  match io w with (Ok _, w') => set_lock w' false | (Err _, w') => w' end.

(** [update_state]: load, change and save under the lock. *)
Definition with_lock {A} (m : M H A) : M H A :=
  λ w, match lock_take w with
       | (Err e, w') => (Err e, w')
       | (Ok _, w') => let (r, w'') := m w' in (r, lock_drop w'')
       end.
Definition update_state {A} (change : HostState -> result (A * HostState) DepotError) : M H A :=
  with_lock (st <- load;; ' (a, st') <- lift (change st);; save st';;; ret a).

(** ** The cache holds what it was asked for *)

Lemma bind_ok_inv {A B} (m : M H A) (k : A -> M H B) w b w' :
  bind m k w = (Ok b, w') -> exists a w1, m w = (Ok a, w1) /\ k a w1 = (Ok b, w').
Proof. unfold bind. destruct (m w) as [[a|e] w1]; [eauto|done]. Qed.

Lemma io_blobs w : w_blobs (io w).2 = w_blobs w.
Proof. unfold io. by destruct (w_io w) as [|[] l]. Qed.

Lemma cache_read_blobs d sz w : w_blobs (cache_read d sz w).2 = w_blobs w.
Proof.
  unfold cache_read, bind, gets. pose proof (io_blobs w) as Hb. destruct (io w) as [[u|e] w1]; [|done]. cbn in *.
  destruct (w_blobs w1 !! to_hex d); [|done]. unfold lift. by destruct (check_bytes _ _ _).
Qed.

Lemma cache_read_ok d sz w b w' :
  cache_read d sz w = (Ok b, w') -> w_blobs w' !! to_hex d = Some b /\ check_bytes b d sz = Ok tt.
Proof.
  intros Hr. pose proof (cache_read_blobs d sz w) as Hb. rewrite Hr in Hb. cbn in Hb. rewrite Hb.
  unfold cache_read, bind, gets in Hr. pose proof (io_blobs w) as Hio. destruct (io w) as [[u|e] w1]; [|done].
  cbn in Hio. rewrite <- Hio. destruct (w_blobs w1 !! to_hex d) as [b'|]; [|done]. unfold lift in Hr.
  destruct (check_bytes b' d sz) as [[]|] eqn:Hc; [|done]. by injection Hr as <- <-.
Qed.

(** The writer counts what it writes, up to the [u64] range. *)
Definition writer_wf (bw : BlobWriter) : Prop := written bw = Z.min (Z.of_nat (length (bw_bytes bw))) u64_max.

Lemma writer_write_all_ok cs bw w bw' w' :
  writer_wf bw -> writer_write_all bw cs w = (Ok bw', w') ->
  writer_wf bw' /\ bw_size bw' = bw_size bw /\ bw_digest bw' = bw_digest bw /\ w_blobs w' = w_blobs w.
Proof.
  revert bw w. induction cs as [|c cs IH]; intros bw w Hwf Hr; cbn in Hr.
  - injection Hr as <- <-. done.
  - apply bind_ok_inv in Hr as (bw1 & w1 & H1 & Hr). unfold writer_write in H1. destruct (_ <? _); [done|].
    apply bind_ok_inv in H1 as (u & w2 & Hio & [= <- <-]). pose proof (io_blobs w) as Hb. rewrite Hio in Hb. cbn in Hb.
    apply IH in Hr as (? & ? & ? & ?); [split_and!; try done; congruence|].
    unfold writer_wf, u64_saturating_add in *. cbn. rewrite Hwf, length_app. unfold u64_max. lia.
Qed.

Lemma writer_finish_ok bw w u w' :
  writer_wf bw -> 0 <= bw_size bw < u64_max -> writer_finish bw w = (Ok u, w') ->
  w_blobs w' = <[to_hex (bw_digest bw) := bw_bytes bw]> (w_blobs w)
  /\ check_bytes (bw_bytes bw) (bw_digest bw) (bw_size bw) = Ok tt.
Proof.
  intros Hwf Hs. unfold writer_finish. destruct (Z.eqb_spec (written bw) (bw_size bw)) as [Hw|]; [|done]. cbn [negb].
  case_bool_decide as Hd; [|done]. cbn [negb]. intros Hr. apply bind_ok_inv in Hr as (u1 & w1 & Hio1 & Hr).
  apply bind_ok_inv in Hr as (u2 & w2 & Hio2 & [= _ <-]).
  pose proof (io_blobs w) as Hb1. pose proof (io_blobs w1) as Hb2. rewrite Hio1 in Hb1. rewrite Hio2 in Hb2. cbn in *.
  split; [congruence|]. unfold check_bytes. rewrite (proj2 (Z.eqb_eq _ _)) by (unfold writer_wf, u64_max in *; lia).
  by rewrite bool_decide_eq_true_2.
Qed.

(** when [ensure] succeeds the cache holds, under the name of the
    digest, bytes with exactly this digest and size, whatever the depot
    sent; no other blob changed. *)
Theorem ensure_verified (src : BlobSource) (d : Digest) (sz : Z) (w : World H) (fetched : bool) (w' : World H) :
  0 <= sz < u64_max -> ensure src d sz w = (Ok fetched, w') ->
  (exists bytes, w_blobs w' !! to_hex d = Some bytes /\ check_bytes bytes d sz = Ok tt)
  /\ (forall k, k <> to_hex d -> w_blobs w' !! k = w_blobs w !! k).
Proof.
  intros Hsz. unfold ensure, contains. pose proof (cache_read_blobs d sz w) as Hb.
  destruct (cache_read d sz w) as [[b|e] w1] eqn:Hc; cbn in Hb.
  - intros [= <- <-]. apply cache_read_ok in Hc as [??]. rewrite Hb in *. eauto.
  - intros Hr. apply bind_ok_inv in Hr as (u & w2 & [= _ <-] & Hr). apply bind_ok_inv in Hr as (u1 & w3 & Hio1 & Hr).
    apply bind_ok_inv in Hr as (u2 & w4 & Hio2 & Hr). apply bind_ok_inv in Hr as (bw & w5 & Hw & Hr).
    apply bind_ok_inv in Hr as (u3 & w6 & Hf & [= _ <-]).
    match type of Hio1 with io ?x = _ => pose proof (io_blobs x) as Hb1 end. rewrite Hio1 in Hb1.
    pose proof (io_blobs w3) as Hb2. rewrite Hio2 in Hb2. cbn in Hb1, Hb2.
    apply writer_write_all_ok in Hw as (Hwf & Hs & Hd & Hb3); [|done]. cbn in Hs, Hd.
    destruct (src d sz).2 as [?|]; [done|]. apply writer_finish_ok in Hf as [Hb4 Hck]; [|done|by rewrite Hs].
    rewrite Hd, Hs in *. rewrite Hb4. split.
    + exists (bw_bytes bw). by rewrite lookup_insert_eq.
    + intros k Hk. rewrite lookup_insert_ne by done. rewrite Hb3, Hb2, Hb1, lookup_delete_ne by done. by rewrite Hb.
Qed.
End Files.

Lemma ensure_verified_witness :
  exists w', ensure (P := demo_protocol) (H := unit) (λ _ _, ([[1]; [2]], None)) (3 : Z) 2 (mkWorld false None ∅ ∅ [] tt) = (Ok true, w')
    /\ exists bytes, w_blobs w' !! [3] = Some bytes /\ check_bytes (P := demo_protocol) bytes (3 : Z) 2 = Ok tt.
Proof.
  destruct (ensure (P := demo_protocol) (H := unit) (λ _ _, ([[1]; [2]], None)) (3 : Z) 2 (mkWorld false None ∅ ∅ [] tt))
    as [[[]|] w'] eqn:E; [|vm_compute in E; discriminate E|vm_compute in E; discriminate E].
  exists w'. split; [reflexivity|].
  apply (ensure_verified (P := demo_protocol) (H := unit) (λ _ _, ([[1]; [2]], None)) (3 : Z) 2 (mkWorld false None ∅ ∅ [] tt) true w').
  - vm_compute. split; congruence.
  - exact E.
Defined.
