(* ===== verification/DepotInstaller.v ===== *)
(** * The install pipeline: [services/depot/installer.rs]

    Prepare (plan, download and check every bundle) and execute (lock, back
    up, activate, migrate, start or roll, wait for health, record; restore
    the backup on failure), over the files of [DepotStore].  The module
    runtime is the class [ModuleHost] (the trait of [ports.rs]); what the
    pipeline relies on is [ModuleHostLaws], the trait's documentation.
    Signed manifests come from [depot_protocol] through the class
    [SignedManifests].  Clock readings are arguments; [bundle::inspect]
    (gzip and tar) is a parameter of [stage].  Progress lines are not
    modelled. *)

From S2P Require Import Prelude Text Versions Manifests DepotPlan DepotStore.
#[local] Open Scope fenrir_scope.

(** What the code reads of a checked distribution. *)
Class SignedManifests (P : DepotProtocol) := mkManifests {
  Checked : Type;
  cd_id : Checked -> text;
  cd_product : Checked -> string;
  cd_modules : Checked -> list TargetModule;
  cd_digest : Checked -> Digest;
  cd_channel : Checked -> string;
  cd_key : Checked -> string;
}.

(** The trait [ModuleHost]; errors carry a message only. *)
Class ModuleHost (P : DepotProtocol) (H : Type) := mkHost {
  host_modules : H -> result (list HostModule) unit * H;
  host_backup : string -> H -> result (option (ModuleManifest * list Z)) unit * H;
  host_stop : string -> H -> result unit unit * H;
  host_activate : ModuleBundle -> H -> result unit unit * H;
  host_remove : string -> H -> result unit unit * H;
  host_migrate : list string -> H -> result (list string) unit * H;
  host_start : list string -> H -> result unit unit * H;
  host_roll : string -> H -> result unit unit * H;
  host_healthy : string -> H -> result unit unit * H;
}.

Section Installer.
Context {P : DepotProtocol} {SM : SignedManifests P} {H : Type} {MH : ModuleHost P H}.

Definition FENRIR_PRODUCT : string := "fenrir".
Definition BACKUP_FORMAT : string := "fenrir/depot-backup/v1".

Record VerifiedDistribution := mkVerified { root : Checked; includes : list Checked }.
Definition with_via (v : option text) (t : TargetModule) : TargetModule :=
  mkTarget (name t) (t_rule t) (version t) (platform t) (sha256 t) (size t) (optional t) (requires t) v.
Definition vd_id (d : VerifiedDistribution) : text := cd_id (root d).
Definition target_modules (d : VerifiedDistribution) : list TargetModule :=
  sort_by_key name
    ((with_via None <$> cd_modules (root d))
     ++ (filter (λ c, cd_product c <> FENRIR_PRODUCT) (includes d)
         ≫= λ c, with_via (Some (cd_id c)) <$> cd_modules c)).
Definition host_includes (d : VerifiedDistribution) : list text :=
  cd_id <$> filter (λ c, cd_product c = FENRIR_PRODUCT) (includes d).

Inductive Intent :=
| IDistribution (d : VerifiedDistribution) (rollback : bool)
| IModule (m : TargetModule) (from : text)
| IRestore (backup_name : text) (r : BackupRecord).

(** Where a staged bundle lies. *)
Inductive BundlePath := InCache (d : Digest) | InBackup (dir : text) (f : string).
Record StagedBundle := mkStaged { sb_manifest : ModuleManifest; sb_path : BundlePath; sb_sha256 : Digest; sb_size : Z }.

Record Prepared := mkPrepared {
  intent : Intent;
  plan : Plan;
  staged : gmap string StagedBundle;
  downloaded : Z;
}.
Definition is_installable (p : Prepared) : bool := match problems (plan p) with [] => true | _ => false end.

(** A call of the runtime; its error becomes [e]. *)
Definition host {A} (e : DepotError) (f : H -> result A unit * H) : M H A :=
  λ w, match f (w_host w) with
       | (Ok a, h) => (Ok a, set_host w h)
       | (Err _, h) => (Err e, set_host w h)
       end.

(** ** Staging *)

Record BundleInfo := mkInfo { i_manifest : option ModuleManifest; i_migrations : list string }.
Context (inspect : list Z -> result BundleInfo DepotError).

Definition placeholder_artifact := mkArtifact [] (mkChecksum Sha256 []) None None.
Definition placeholder_signature := mkSignature Ed25519 EmptyString EmptyString.

Definition with_artifact (m : ModuleManifest) (a : ModuleArtifactDescriptor) (s : ModuleSignatureDescriptor) :=
  mkManifest (m_id m) (m_version m) (m_title m) (m_description m) (m_fenrir_version m) (m_authors m) (m_license m)
    a s (m_dependencies m) (m_tags m) (m_published_at m).

Definition module_manifest (t : TargetModule) (own : option ModuleManifest) (signer : string)
    : result ModuleManifest DepotError :=
  m <-? match own with
        | Some m =>
            if bool_decide (m_id m = name t) && bool_decide (parse_version (m_version m) = Some (version t))
            then Ok m else Err EBundle
        | None =>
            v <-? ok_or (semver_version (version t)) EProtocol;;
            Ok (mkManifest (name t) v None None None [] None placeholder_artifact placeholder_signature [] [] None)
        end;;
  Ok (with_artifact m
        (mkArtifact (lit "depot:sha256/" ++ to_hex (sha256 t) ++ lit "/" ++ lit (name t) ++ lit "-"
                       ++ version_text (version t) ++ lit ".tar.gz")
           (mkChecksum Sha256 (to_hex (sha256 t))) (Some "application/gzip") (Some (size t)))
        (mkSignature Ed25519 ("depot:" +:+ signer) EmptyString)).

Definition set_migrations (e : PlanEntry) (ms : list string) : PlanEntry :=
  mkEntry (module e) (rule e) (installed e) (target e) (e_size e) (action e) (restart e) ms (e_via e) (note e) (source e).

(** One changed entry: its bundle is fetched, checked and inspected. *)
Definition stage_entry (src : BlobSource) (inst : list HostModule) (signer : string) (e : PlanEntry)
    (acc : gmap string StagedBundle * Z) : M H (PlanEntry * (gmap string StagedBundle * Z)) :=
  if negb (changes (action e)) then ret (e, acc)
  else match source e with
  | None => ret (e, acc)
  | Some t =>
      fetched <- ensure src (sha256 t) (size t);;
      bytes <- cache_read (sha256 t) (size t);;
      info <- lift (map_err (λ _, EBundle) (inspect bytes));;
      m <- lift (module_manifest t (i_manifest info) signer);;
      let known := default [] (h_migrations <$> find_module (name t) inst) in
      ret (set_migrations e (filter (λ f, ~ f ∈ known) (i_migrations info)),
           (<[name t := mkStaged m (InCache (sha256 t)) (sha256 t) (size t)]> acc.1,
            if (fetched : bool) then u64_saturating_add acc.2 (size t) else acc.2))
  end.

Fixpoint stage_all (src : BlobSource) (inst : list HostModule) (signer : string) (es : list PlanEntry)
    (acc : gmap string StagedBundle * Z) : M H (list PlanEntry * (gmap string StagedBundle * Z)) :=
  match es with
  | [] => ret ([], acc)
  | e :: es =>
      ' (e', acc) <- stage_entry src inst signer e acc;;
      ' (es', acc) <- stage_all src inst signer es acc;;
      ret (e' :: es', acc)
  end.

Definition stage (src : BlobSource) (p : Plan) (inst : list HostModule) (signer : string)
    : M H (Plan * (gmap string StagedBundle * Z)) :=
  ' (es, acc) <- stage_all src inst signer (entries p) (∅, 0);;
  ret (mkPlan (title p) es (problems p), acc).

(** Plans with problems are shown, not staged. *)
Definition stage_unless_problems (src : BlobSource) (p : Plan) (inst : list HostModule) (signer : string)
    : M H (Plan * (gmap string StagedBundle * Z)) :=
  match problems p with [] => stage src p inst signer | _ => ret (p, (∅, 0)) end.

Definition prepare_verified (src : BlobSource) (d : VerifiedDistribution) (rollback : bool) : M H Prepared :=
  inst <- host EIo host_modules;;
  st <- load;;
  ' (p, (sb, n)) <- stage_unless_problems src (plan_distribution (vd_id d) (target_modules d) inst st) inst (cd_key (root d));;
  ret (mkPrepared (IDistribution d rollback) p sb n).

(** [prepare_module] after [select_module] chose [t] out of [from]. *)
Definition prepare_selected (src : BlobSource) (t : TargetModule) (from : text) : M H Prepared :=
  inst <- host EIo host_modules;;
  st <- load;;
  ' (p, (sb, n)) <- stage_unless_problems src (plan_module t inst st) inst "depot";;
  ret (mkPrepared (IModule t from) p sb n).

(** ** Executing *)

Definition read_path (p : BundlePath) : M H (list Z) :=
  match p with
  | InCache d => io;;; o <- gets (λ w, w_blobs w !! to_hex d);; lift (ok_or o EIo)
  | InBackup n f => read_file n f
  end.

(** Reads a staged bundle and checks it once more. *)
Definition load_bundle (sb : StagedBundle) : M H ModuleBundle :=
  bytes <- read_path (sb_path sb);;
  lift (check_bytes bytes (sb_sha256 sb) (sb_size sb));;;
  ret (mkBundle (sb_manifest sb) bytes [] (digest_bytes (sb_sha256 sb))).

(** [fs::metadata(path).len()]. *)
Definition file_len (n : text) (f : string) : M H Z :=
  io;;; o <- gets (λ w, dir_files (dir_of w n) !! f);; lift (ok_or (Z.of_nat ∘ length <$> o) EIo).

Fixpoint restore_bundles (n : text) (ms : list BackupModule) (acc : gmap string StagedBundle)
    : M H (gmap string StagedBundle) :=
  match ms with
  | [] => ret acc
  | b :: ms =>
      match bm_previous b with
      | None => restore_bundles n ms acc
      | Some pv =>
          d <- lift (ok_or (parse_digest (bk_sha256 pv)) EIo);;
          sz <- file_len n (bk_archive pv);;
          restore_bundles n ms (<[bm_module b := mkStaged (bk_manifest pv) (InBackup n (bk_archive pv)) d sz]> acc)
      end
  end.

(** Activates or removes the changed modules; the ones to start. *)
Fixpoint activate_all (sb : gmap string StagedBundle) (es : list PlanEntry) : M H (list string) :=
  match es with
  | [] => ret []
  | e :: es =>
      if bool_decide (action e = Remove) then host EIo (host_remove (module e));;; activate_all sb es
      else
        s <- lift (ok_or (sb !! module e) EIo);;
        b <- load_bundle s;;
        host EIo (host_activate b);;;
        rest <- activate_all sb es;;
        ret (module e :: rest)
  end.

(** Stops, activates, migrates, starts or rolls, and waits for health. *)
Definition apply (p : Prepared) : M H (list string) :=
  let chs := plan_changes (plan p) in
  each (λ e, match restart e with RRestart | RStop => host EIo (host_stop (module e)) | _ => ret tt end) chs;;;
  started <- activate_all (staged p) chs;;
  let migrating := module <$> filter (λ e, migrations e <> []) chs in
  applied <- match migrating with [] => ret [] | _ => host EIo (host_migrate migrating) end;;
  host EIo (host_start started);;;
  each (λ e, match restart e with RRolling => host EIo (host_roll (module e)) | _ => ret tt end) chs;;;
  each (λ m, host EIo (host_healthy m)) started;;;
  ret applied.

(** [let _ = ...]. *)
Definition ignore {A} (m : M H A) : M H unit := λ w, (Ok tt, (m w).2).

Fixpoint restore_all (sb : gmap string StagedBundle) (ms : list BackupModule) : M H (list string) :=
  match ms with
  | [] => ret []
  | b :: ms =>
      match sb !! bm_module b with
      | Some s =>
          bu <- load_bundle s;;
          host EIo (host_activate bu);;;
          rest <- restore_all sb ms;;
          ret (bm_module b :: rest)
      | None => host EIo (host_remove (bm_module b));;; restore_all sb ms
      end
  end.

(** Puts back what a backup holds. *)
Definition restore_backup (n : text) (r : BackupRecord) : M H unit :=
  sb <- restore_bundles n (br_modules r) ∅;;
  each (λ b, ignore (host EIo (host_stop (bm_module b)))) (br_modules r);;;
  started <- restore_all sb (br_modules r);;
  host EIo (host_start started);;;
  each (λ m, host EIo (host_healthy m)) started.

(** [prepare_rollback] when the state names a backup of the current
    distribution; [None]: the previous distribution has to be fetched. *)
Definition prepare_restore : M H (option Prepared) :=
  st <- load;;
  match current st with
  | None => fail ERefused
  | Some cur =>
      match backup st with
      | None => ret None
      | Some n =>
          o <- load_backup n;;
          match o with
          | Some r =>
              if bool_decide (br_after r = d_id cur) then
                sb <- restore_bundles n (br_modules r) ∅;;
                inst <- host EIo host_modules;;
                let ti := match br_before r with
                          | Some b => lit "rollback " ++ d_id cur ++ [32; 0x2192; 32] ++ b
                          | None => lit "rollback " ++ d_id cur ++ [32; 0x2192; 32] ++ lit "the modules from before it"
                          end in
                ret (Some (mkPrepared (IRestore n r) (plan_restore ti r inst) sb 0))
              else ret None
          | None => ret None
          end
      end
  end.

Definition is_label_char (c : char) : bool := is_ascii_alphanumeric c || (c =? 46) || (c =? 45).
Definition backup_name (now ti : text) : text :=
  filter (λ c, is_ascii_alphanumeric c = true) now ++ lit "-" ++ ((λ c, if is_label_char c then c else 95) <$> ti).

(** The backup of one module: its archive in the directory and its record. *)
Definition backup_module (n : text) (m : string) : M H BackupModule :=
  let f := m +:+ ".tar.gz" in
  o <- host EIo (host_backup m);;
  match o with
  | None => ret (mkBackupModule m None)
  | Some (man, bytes) =>
      write_file n f bytes;;;
      b <- read_file n f;;
      v <- lift (ok_or (parse_version (m_version man)) ERefused);;
      ret (mkBackupModule m (Some (mkBackedUp v f (to_hex (digest_of b)) man)))
  end.

Fixpoint backup_all (n : text) (es : list PlanEntry) : M H (list BackupModule) :=
  match es with
  | [] => ret []
  | e :: es => b <- backup_module n (module e);; bs <- backup_all n es;; ret (b :: bs)
  end.

Definition apply_or_restore (n : text) (r : BackupRecord) (p : Prepared) : M H (list string) :=
  λ w, match apply p w with
       | (Ok a, w) => (Ok a, w)
       | (Err _, w) => match restore_backup n r w with
                       | (Ok _, w) => (Err (EInstall true), w)
                       | (Err _, w) => (Err (EInstall false), w)
                       end
       end.

(** ** Recording *)

Definition remove_overrides (ms : list string) (o : gmap string ModuleOverride) : gmap string ModuleOverride :=
  foldl (λ o m, delete m o) o ms.

Definition record_of (t : TargetModule) : ModuleRecord :=
  mkModuleRecord (version t) (to_hex (sha256 t)) (size t) (via t).

(** [record_state]: the new state and the backup that is kept. *)
Definition record_state (st : HostState) (p : Prepared) (bk : option text) (now : text) : HostState * option text :=
  let runs_distribution := module <$> filter (λ e, runs_signed (action e) = true) (entries (plan p)) in
  match intent p with
  | IDistribution d _ =>
      let i := vd_id d in
      let ms := collect_map (omap (λ e, if bool_decide (action e = OptionalSkipped) then None
                                        else (λ t, (name t, record_of t)) <$> source e) (entries (plan p))) in
      let rec_ := mkInstalled i (to_hex (cd_digest (root d))) (cd_channel (root d)) (cd_key (root d)) now ms in
      let same := match current st with Some c => bool_decide (d_id c = i) | None => false end in
      let prev := if same then previous st else current st in
      let b := if (match bk with Some _ => true | None => false end) || negb same then bk else backup st in
      (mkState (format st) (Some rec_) prev b (pins st) (remove_overrides runs_distribution (overrides st)), b)
  | IModule t from =>
      (mkState (format st) (current st) (previous st) (backup st) (pins st)
         (<[name t := mkOverride (version t) (to_hex (sha256 t)) (size t) from now]> (overrides st)), backup st)
  | IRestore _ r =>
      (mkState (format st) (previous st) None None (pins st)
         (remove_overrides (bm_module <$> br_modules r) (overrides st)), None)
  end.

(** The digests of the current and previous distribution and the overrides. *)
Definition distribution_digests (o : option InstalledDistribution) : list (list Z) :=
  match o with Some d => map (λ kv, r_sha256 kv.2) (map_to_list (d_modules d)) | None => [] end.
Definition kept_blobs (st : HostState) : gset (list Z) :=
  list_to_set (distribution_digests (current st) ++ distribution_digests (previous st)
               ++ map (λ kv, o_sha256 kv.2) (map_to_list (overrides st))).
Definition prune_cache (st : HostState) : M H unit := ignore (prune (kept_blobs st)).

Record Outcome := mkOutcome {
  out_title : text;
  out_changed : list (string * option DepotVersion * option DepotVersion);
  out_migrations : list string;
  out_backup : option text;
}.

(** The part of [execute] between the lock and the record. *)
Definition change_host (now : text) (p : Prepared) (st : HostState) : M H (option text * list string) :=
  match plan_changes (plan p) with
  | [] => ret (None, [])
  | chs =>
      each (λ sb, load_bundle sb;;; ret tt) (btree_values (staged p));;;
      let n := backup_name now (title (plan p)) in
      create_dir n;;;
      bs <- backup_all n chs;;
      let r := mkBackupRecord BACKUP_FORMAT now (d_id <$> current st)
                 (match intent p with IDistribution d _ => vd_id d | _ => title (plan p) end) bs in
      save_backup n r;;;
      migs <- apply_or_restore n r p;;
      ret (Some n, migs)
  end.

Definition execute (now : text) (p : Prepared) : M H Outcome :=
  if negb (is_installable p) then fail ERefused
  else with_lock (
    st <- load;;
    ' (kept, migs) <- change_host now p st;;
    let changed := (λ e, (module e, installed e, target e)) <$> plan_changes (plan p) in
    let (st', b) := record_state st p kept now in
    save st';;;
    prune_backups (backup st');;;
    prune_cache st';;;
    ret (mkOutcome (title (plan p)) changed migs b)).
End Installer.
