(* ===== verification/DepotTransaction.v ===== *)
(** * An install is all or nothing: properties of [services/depot/installer.rs]

    Frames ([keeps]) say what each computation leaves alone whatever fails;
    backups say what was installed; from these, [execute] either puts every
    change in place, or gives back what the backups hold, or says that the
    plan's modules are in doubt.  Everything about the module runtime is
    proved from [ModuleHostLaws] alone; the concrete runtime at the end is
    one that satisfies the laws. *)

From S2P Require Import Prelude Text Versions Manifests DepotPlan DepotStore DepotInstaller.
#[local] Open Scope fenrir_scope.

(** ** What the runtime promises

    The documentation of the trait [ModuleHost]: [view] is what is
    installed, [unpack] what activating an archive puts in place, and
    [repacked c] what the archive of a backup of [c] unpacks to.  It need
    not be [c]: the module storage strips a single top directory once more
    ([backup_loses_single_directory] of [ModuleStorageSafety]).  That file
    proves for the storage what is assumed here of [host_activate] and
    [host_backup] ([activation_installs_bundle], [restored_view]), outside
    the cases of [truncated_cache_loses_module] and
    [archive_overwrites_manifest]. *)
Class ModuleHostLaws (P : DepotProtocol) (H : Type) (MH : ModuleHost P H) := mkHostLaws {
  Contents : Type;
  unpack : list Z -> Contents;
  repacked : Contents -> Contents;
  view : H -> gmap string (ModuleManifest * Contents);
  law_modules h : view (host_modules h).2 = view h;
  law_backup_view m h : view (host_backup m h).2 = view h;
  law_backup m h : match (host_backup m h).1 with
    | Ok (Some (man, bytes)) => exists c, view h !! m = Some (man, c) /\ unpack bytes = repacked c /\ m_id man = m
    | Ok None => view h !! m = None
    | Err _ => True
    end;
  law_stop m h : view (host_stop m h).2 = view h;
  law_activate b h : match host_activate b h with
    | (Ok _, h') => view h' = <[m_id (b_manifest b) := (b_manifest b, unpack (b_archive b))]> (view h)
    | (Err _, h') => forall k, k <> m_id (b_manifest b) -> view h' !! k = view h !! k
    end;
  law_remove m h : match host_remove m h with
    | (Ok _, h') => view h' = delete m (view h)
    | (Err _, h') => forall k, k <> m -> view h' !! k = view h !! k
    end;
  law_migrate ms h : view (host_migrate ms h).2 = view h;
  law_start ms h : view (host_start ms h).2 = view h;
  law_roll m h : view (host_roll m h).2 = view h;
  law_healthy m h : view (host_healthy m h).2 = view h;
}.

Section Correctness.
Context {P : DepotProtocol} {SM : SignedManifests P} {H : Type} {MH : ModuleHost P H} {L : ModuleHostLaws P H MH}.
Implicit Types w : World H.

(** ** Frames: what a computation leaves alone, whatever its outcome *)

Definition keeps {A} (R : World H -> World H -> Prop) (m : M H A) : Prop := forall w, R w (m w).2.

(** The files are the same, and installed modules outside [ks] too. *)
Definition touches (ks : gset string) (w w' : World H) : Prop :=
  w_state w' = w_state w /\ w_backups w' = w_backups w /\ w_blobs w' = w_blobs w /\ w_lock w' = w_lock w
  /\ forall k, k ∉ ks -> view (w_host w') !! k = view (w_host w) !! k.

#[export] Instance touches_preorder ks : PreOrder (touches ks).
Proof.
  split; [by intros w|]. intros w1 w2 w3 (?&?&?&?&Hv1) (?&?&?&?&Hv2). split_and!; try congruence.
  intros k Hk. rewrite Hv2, Hv1; done.
Qed.

Lemma touches_trans ks w1 w2 w3 : touches ks w1 w2 -> touches ks w2 w3 -> touches ks w1 w3.
Proof. apply (PreOrder_Transitive (R := touches ks)). Qed.

Lemma touches_mono ks ks' w w' : ks ⊆ ks' -> touches ks w w' -> touches ks' w w'.
Proof. intros Hs (?&?&?&?&Hv). split_and!; try done. intros k Hk. apply Hv. set_solver. Qed.

Section Frames.
Context (R : World H -> World H -> Prop) `{!PreOrder R}.
Lemma keeps_ret {A} (a : A) : keeps R (ret a).
Proof. by intros w. Qed.
Lemma keeps_fail {A} e : keeps R (fail (A := A) e).
Proof. by intros w. Qed.
Lemma keeps_lift {A} (r : result A DepotError) : keeps R (lift r).
Proof. by intros w. Qed.
Lemma keeps_gets {A} (f : World H -> A) : keeps R (gets f).
Proof. by intros w. Qed.
Lemma keeps_bind {A B} (m : M H A) (k : A -> M H B) : keeps R m -> (forall a, keeps R (k a)) -> keeps R (bind m k).
Proof.
  intros Hm Hk w. unfold bind. specialize (Hm w). destruct (m w) as [[a|e] w']; [|done].
  etrans; [exact Hm|apply Hk].
Qed.
Lemma keeps_each {A} (f : A -> M H unit) l : (forall x, x ∈ l -> keeps R (f x)) -> keeps R (each f l).
Proof.
  induction l as [|x l IH]; intros Hf; cbn; [apply keeps_ret|]. apply keeps_bind; [|intros _; apply IH]; set_solver.
Qed.
Lemma keeps_ignore {A} (m : M H A) : keeps R m -> keeps R (ignore m).
Proof. intros Hm w. apply Hm. Qed.
End Frames.

Lemma keeps_io ks : keeps (touches ks) io.
Proof. intros w. unfold io. destruct (w_io w) as [|[] l]; by split_and!. Qed.

Lemma keeps_host {A} ks e (f : H -> result A unit * H) :
  (forall h k, k ∉ ks -> view (f h).2 !! k = view h !! k) -> keeps (touches ks) (host e f).
Proof.
  intros Hf w. unfold host. specialize (Hf (w_host w)). destruct (f (w_host w)) as [[a|u] h]; by split_and!.
Qed.

Lemma keeps_host_view {A} ks e (f : H -> result A unit * H) :
  (forall h, view (f h).2 = view h) -> keeps (touches ks) (host e f).
Proof. intros Hf. apply keeps_host. intros h k _. by rewrite Hf. Qed.

Create HintDb depot.
#[local] Hint Resolve keeps_io keeps_ignore : depot.
#[local] Hint Extern 1 (keeps _ (ret _)) => apply keeps_ret; apply _ : depot.
#[local] Hint Extern 1 (keeps _ (fail _)) => apply keeps_fail; apply _ : depot.
#[local] Hint Extern 1 (keeps _ (lift _)) => apply keeps_lift; apply _ : depot.
#[local] Hint Extern 1 (keeps _ (gets _)) => apply keeps_gets; apply _ : depot.
#[local] Hint Resolve law_stop law_migrate law_start law_roll law_healthy law_modules law_backup_view : depot.
#[local] Hint Extern 2 (keeps _ (host _ _)) => apply keeps_host_view; intros : depot.
#[local] Hint Extern 3 (keeps _ (bind _ _)) => apply keeps_bind; [apply _| |intros ?] : depot.
#[local] Hint Extern 3 (keeps _ (each _ _)) => apply keeps_each; [apply _|intros ? ?] : depot.

Lemma keeps_read_path ks p : keeps (touches ks) (read_path p).
Proof.
  destruct p; cbn; unfold read_file; eauto 10 with depot.
  apply keeps_bind; [apply _|apply keeps_io|intros _]. apply keeps_bind; [apply _|auto with depot|].
  intros [?|]; auto with depot.
Qed.
#[local] Hint Resolve keeps_read_path : depot.

Lemma keeps_load_bundle ks sb : keeps (touches ks) (load_bundle sb).
Proof. unfold load_bundle. auto 10 with depot. Qed.
#[local] Hint Resolve keeps_load_bundle : depot.

(** The manifests of staged bundles name their modules. *)
Definition staged_named (sb : gmap string StagedBundle) : Prop :=
  forall m s, sb !! m = Some s -> m_id (sb_manifest s) = m.

Lemma load_bundle_ok sb w b w' :
  load_bundle sb w = (Ok b, w') ->
  exists bytes, b_manifest b = sb_manifest sb /\ b_archive b = bytes
    /\ (read_path (sb_path sb) w).1 = Ok bytes /\ check_bytes bytes (sb_sha256 sb) (sb_size sb) = Ok tt.
Proof.
  unfold load_bundle, bind, lift. destruct (read_path (sb_path sb) w) as [[bytes|e] w1]; [|done].
  destruct (check_bytes _ _ _) as [[]|] eqn:Hc; [|done]. cbn. intros [= <- <-]. eauto 6.
Qed.

Lemma keeps_activate ks b : m_id (b_manifest b) ∈ ks -> keeps (touches ks) (host EIo (host_activate b)).
Proof.
  intros Hb. apply keeps_host. intros h k Hk. pose proof (law_activate b h) as Hl.
  destruct (host_activate b h) as [[u|e] h']; cbn.
  - rewrite Hl, lookup_insert_ne; [done|]. intros <-. done.
  - apply Hl. intros ->. done.
Qed.

Lemma keeps_remove ks m : m ∈ ks -> keeps (touches ks) (host EIo (host_remove m)).
Proof.
  intros Hm. apply keeps_host. intros h k Hk. pose proof (law_remove m h) as Hl.
  destruct (host_remove m h) as [[u|e] h']; cbn.
  - rewrite Hl, lookup_delete_ne; [done|]. intros <-. done.
  - apply Hl. intros ->. done.
Qed.

Lemma keeps_load_activate {A} ks sb (k : M H A) :
  m_id (sb_manifest sb) ∈ ks -> keeps (touches ks) k ->
  keeps (touches ks) (b <- load_bundle sb;; host EIo (host_activate b);;; k).
Proof.
  intros Hm Hk w. unfold bind at 1. pose proof (keeps_load_bundle ks sb w) as Hl.
  destruct (load_bundle sb w) as [[b|e] w1] eqn:Hb; [|done]. etrans; [exact Hl|].
  apply load_bundle_ok in Hb as (bytes & Hman & _). apply keeps_bind; [apply _| |done].
  apply keeps_activate. by rewrite Hman.
Qed.

Lemma keeps_activate_all ks sb es :
  staged_named sb -> (forall e, e ∈ es -> module e ∈ ks) -> keeps (touches ks) (activate_all sb es).
Proof.
  intros Hn. induction es as [|e es IH]; intros Hk; cbn; [auto with depot|].
  assert (Hrest : keeps (touches ks) (activate_all sb es)) by (apply IH; set_solver).
  case_bool_decide.
  - apply keeps_bind; [apply _| |auto]. apply keeps_remove. set_solver.
  - destruct (sb !! module e) as [s|] eqn:Hs; cbn; [|by intros w].
    intros w. unfold bind at 1. cbn. apply keeps_load_activate; [|auto with depot].
    rewrite (Hn _ _ Hs). set_solver.
Qed.

Lemma keeps_restore_all ks sb ms :
  staged_named sb -> (forall b, b ∈ ms -> bm_module b ∈ ks) -> keeps (touches ks) (restore_all sb ms).
Proof.
  intros Hn. induction ms as [|b ms IH]; intros Hk; cbn; [auto with depot|].
  assert (Hrest : keeps (touches ks) (restore_all sb ms)) by (apply IH; set_solver).
  destruct (sb !! bm_module b) as [s|] eqn:Hs.
  - apply keeps_load_activate; [|auto with depot]. rewrite (Hn _ _ Hs). set_solver.
  - apply keeps_bind; [apply _| |auto]. apply keeps_remove. set_solver.
Qed.

(** The modules a plan changes. *)
Definition changed_set (p : Prepared) : gset string := list_to_set (module <$> plan_changes (plan p)).

(** Migrating, starting, rolling and waiting change no files. *)
Lemma keeps_settle ks chs started :
  keeps (touches ks)
    (applied <- match module <$> filter (λ e, migrations e <> []) chs with
                | [] => ret []
                | _ => host EIo (host_migrate (module <$> filter (λ e, migrations e <> []) chs))
                end;;
     host EIo (host_start started);;;
     each (λ e, match restart e with RRolling => host EIo (host_roll (module e)) | _ => ret tt end) chs;;;
     each (λ m, host EIo (host_healthy m)) started;;;
     ret applied).
Proof.
  apply keeps_bind; [apply _|destruct (module <$> _); auto with depot|intros applied].
  apply keeps_bind; [apply _|auto with depot|intros _].
  apply keeps_bind; [apply _| |intros _]; [|auto 10 with depot].
  apply keeps_each; [apply _|]. intros e He. destruct (restart e); auto with depot.
Qed.

Lemma keeps_apply p : staged_named (staged p) -> keeps (touches (changed_set p)) (apply p).
Proof.
  intros Hn. unfold apply. apply keeps_bind; [apply _| |intros _].
  { apply keeps_each; [apply _|]. intros e He. destruct (restart e); auto with depot. }
  apply keeps_bind; [apply _| |intros started].
  { apply keeps_activate_all; [done|]. intros e He. unfold changed_set. apply elem_of_list_to_set.
    apply list_elem_of_fmap. eauto. }
  apply keeps_settle.
Qed.

(** ** Results *)

Lemma bind_ok {A B} (m : M H A) (k : A -> M H B) w b w' :
  bind m k w = (Ok b, w') -> exists a w1, m w = (Ok a, w1) /\ k a w1 = (Ok b, w').
Proof. unfold bind. destruct (m w) as [[a|e] w1]; [eauto|done]. Qed.

Lemma keeps_run {A} R (m : M H A) w r w' : keeps R m -> m w = (r, w') -> R w w'.
Proof. intros Hm Hw. specialize (Hm w). by rewrite Hw in Hm. Qed.

(** The bytes at a path. *)
Definition content (w : World H) (p : BundlePath) : option (list Z) :=
  match p with InCache d => w_blobs w !! to_hex d | InBackup n f => dir_files (dir_of w n) !! f end.

Lemma content_touches ks w w' p : touches ks w w' -> content w' p = content w p.
Proof. intros (_ & Hb & Hc & _). destruct p; cbn; unfold dir_of; by rewrite ?Hb, ?Hc. Qed.

Lemma io_ok w w' : io w = (Ok tt, w') -> touches ∅ w w'.
Proof. intros Hw. by apply (keeps_run _ _ _ _ _ (keeps_io ∅)) in Hw. Qed.

Lemma read_path_ok p w bytes : (read_path p w).1 = Ok bytes -> content w p = Some bytes.
Proof.
  intros Hr. assert (exists w', read_path p w = (Ok bytes, w')) as [w' E].
  { destruct (read_path p w) as [r w'] eqn:E. cbn in Hr. subst. eauto. }
  destruct p as [d|n f]; cbn in E.
  - apply bind_ok in E as ([] & w1 & Hio & E). apply io_ok in Hio. apply bind_ok in E as (o & w2 & [= <- <-] & E).
    cbn. destruct Hio as (_ & _ & Hb & _). rewrite <- Hb. unfold lift in E. destruct (w_blobs w1 !! to_hex d); cbn in E; by simplify_eq.
  - unfold read_file in E. apply bind_ok in E as ([] & w1 & Hio & E). apply io_ok in Hio.
    apply bind_ok in E as (o & w2 & [= <- <-] & E). cbn. destruct Hio as (_ & Hb & _). unfold dir_of. rewrite <- Hb.
    change (default _ (w_backups w1 !! n)) with (dir_of w1 n). destruct (dir_files (dir_of w1 n) !! f); [|done].
    unfold ret in E. by simplify_eq.
Qed.

(** [v] has module [m] as the staged bundle [s] holds it in the files of [w]. *)
Definition installed_from (w : World H) (v : gmap string (ModuleManifest * Contents)) (m : string) (s : StagedBundle) : Prop :=
  exists bytes, content w (sb_path s) = Some bytes /\ check_bytes bytes (sb_sha256 s) (sb_size s) = Ok tt
    /\ v !! m = Some (sb_manifest s, unpack bytes).

Lemma load_activate_ok sb m w b w1 w2 u :
  m_id (sb_manifest sb) = m -> load_bundle sb w = (Ok b, w1) -> host EIo (host_activate b) w1 = (Ok u, w2) ->
  installed_from w (view (w_host w2)) m sb.
Proof.
  intros Hm Hb Ha. apply load_bundle_ok in Hb as (bytes & Hman & Harc & Hr & Hc). apply read_path_ok in Hr.
  exists bytes. split_and!; try done. unfold host in Ha. pose proof (law_activate b (w_host w1)) as Hl.
  destruct (host_activate b (w_host w1)) as [[?|?] h']; [|done]. injection Ha as <- <-. cbn.
  by rewrite Hl, Hman, Hm, Harc, lookup_insert_eq.
Qed.

Lemma remove_ok m w u w' : host EIo (host_remove m) w = (Ok u, w') -> view (w_host w') !! m = None.
Proof.
  unfold host. pose proof (law_remove m (w_host w)) as Hl. destruct (host_remove m (w_host w)) as [[?|?] h']; [|done].
  intros [= <- <-]. cbn. by rewrite Hl, lookup_delete_eq.
Qed.

Lemma installed_from_later w w1 v v' m s ks :
  touches ks w w1 -> v' !! m = v !! m -> installed_from w1 v m s -> installed_from w v' m s.
Proof.
  intros Ht Hv (bytes & Hc & Hk & Hm). exists bytes. rewrite Hv, <- (content_touches ks w w1) by done. done.
Qed.

Definition entry_done (sb : gmap string StagedBundle) (w : World H) (v : gmap string (ModuleManifest * Contents))
    (e : PlanEntry) : Prop :=
  if bool_decide (action e = Remove) then v !! module e = None
  else exists s, sb !! module e = Some s /\ installed_from w v (module e) s.

Lemma entry_done_later sb w w1 v v' e ks :
  touches ks w w1 -> v' !! module e = v !! module e -> entry_done sb w1 v e -> entry_done sb w v' e.
Proof.
  intros Ht Hv. unfold entry_done. case_bool_decide; [by rewrite Hv|].
  intros (s & Hs & Hi). exists s. split; [done|]. by eapply installed_from_later.
Qed.

Lemma activate_all_ok sb es w started w' :
  staged_named sb -> NoDup (module <$> es) -> activate_all sb es w = (Ok started, w') ->
  forall e, e ∈ es -> entry_done sb w (view (w_host w')) e.
Proof.
  intros Hn. revert w started. induction es as [|e es IH]; intros w started Hnd Hrun e' He'; [set_solver|].
  cbn in Hnd. apply NoDup_cons in Hnd as [He Hnd]. cbn in Hrun.
  set (ks := list_to_set (module <$> es) : gset string).
  assert (Hkeep : keeps (touches ks) (activate_all sb es)).
  { apply keeps_activate_all; [done|]. intros x Hx. apply elem_of_list_to_set, list_elem_of_fmap. eauto. }
  assert (Hek : module e ∉ ks) by (unfold ks; by rewrite elem_of_list_to_set).
  assert (Hone : exists w1 started1, touches {[module e]} w w1 /\ activate_all sb es w1 = (Ok started1, w')
                 /\ entry_done sb w (view (w_host w1)) e).
  { unfold entry_done. case_bool_decide as Hr.
    - apply bind_ok in Hrun as (u & w1 & Hrm & Hrun). exists w1, started. split_and!; [|done|by eapply remove_ok].
      eapply keeps_run; [|exact Hrm]. apply keeps_remove. set_solver.
    - apply bind_ok in Hrun as (s & w0 & Hs & Hrun). unfold lift in Hs. destruct (sb !! module e) as [s'|] eqn:Hse; [|done].
      injection Hs as -> ->. apply bind_ok in Hrun as (b & w1 & Hb & Hrun). apply bind_ok in Hrun as (u & w2 & Ha & Hrun).
      apply bind_ok in Hrun as (rest & w3 & Hrest & [= _ ->]). exists w2, rest. split_and!; [|done|].
      + etrans; [exact (keeps_run _ _ _ _ _ (keeps_load_bundle _ _) Hb)|].
        eapply keeps_run; [|exact Ha]. apply keeps_activate. apply load_bundle_ok in Hb as (? & -> & _).
        rewrite (Hn _ _ Hse). set_solver.
      + exists s. split; [done|]. eapply load_activate_ok; [|done|done]. by apply Hn. }
  destruct Hone as (w1 & started1 & Ht & Hrest & Hd).
  pose proof (keeps_run _ _ _ _ _ Hkeep Hrest) as Htail.
  apply elem_of_cons in He' as [->|He'].
  - eapply entry_done_later; [reflexivity| |exact Hd]. by apply Htail.
  - eapply entry_done_later; [exact Ht|reflexivity|]. by eapply IH.
Unshelve. exact ∅.
Qed.

(** [apply] succeeded: every changed entry is in place. *)
Lemma apply_ok p w migs w' :
  staged_named (staged p) -> NoDup (module <$> plan_changes (plan p)) -> apply p w = (Ok migs, w') ->
  forall e, e ∈ plan_changes (plan p) -> entry_done (staged p) w (view (w_host w')) e.
Proof.
  intros Hn Hnd Hrun e He. unfold apply in Hrun. apply bind_ok in Hrun as (u & w1 & Hstop & Hrun).
  assert (Ht1 : touches ∅ w w1).
  { eapply keeps_run; [|exact Hstop]. apply keeps_each; [apply _|]. intros x _. destruct (restart x); auto with depot. }
  apply bind_ok in Hrun as (started & w2 & Hact & Hrun).
  assert (Ht2 : touches ∅ w2 w').
  { eapply keeps_run; [|exact Hrun]. apply keeps_settle. }
  pose proof (activate_all_ok _ _ _ _ _ Hn Hnd Hact e He) as Hd.
  eapply entry_done_later; [exact Ht1| |exact Hd]. apply Ht2. set_solver.
Qed.

(** ** Backing up *)

(** Only the backup directory [n] is written. *)
Definition backs_up (n : text) (w w' : World H) : Prop :=
  w_state w' = w_state w /\ w_blobs w' = w_blobs w /\ w_lock w' = w_lock w /\ view (w_host w') = view (w_host w)
  /\ forall n', n' <> n -> w_backups w' !! n' = w_backups w !! n'.

#[export] Instance backs_up_preorder n : PreOrder (backs_up n).
Proof.
  split; [by intros w|]. intros w1 w2 w3 (?&?&?&?&Hb1) (?&?&?&?&Hb2). split_and!; try congruence.
  intros n' Hn. rewrite Hb2, Hb1; done.
Qed.

Lemma keeps_quiet {A} n (m : M H A) : keeps (touches ∅) m -> keeps (backs_up n) m.
Proof.
  intros Hm w. destruct (Hm w) as (? & Hb & ? & ? & Hv). split_and!; try done.
  - apply map_eq. intros k. apply Hv. set_solver.
  - intros n' _. by rewrite Hb.
Qed.

Lemma keeps_modify_backups n f :
  (forall w n', n' <> n -> f w !! n' = w_backups w !! n') -> keeps (backs_up n) (modify (λ w, set_backups w (f w))).
Proof. intros Hf w. split_and!; try done. cbn. apply Hf. Qed.

Lemma keeps_write_file n f bytes : keeps (backs_up n) (write_file n f bytes).
Proof. apply keeps_modify_backups. intros w n' Hn. by rewrite lookup_insert_ne. Qed.
Lemma keeps_create_dir n : keeps (backs_up n) (create_dir n).
Proof.
  apply keeps_bind; [apply _|apply keeps_quiet, keeps_io|intros _]. apply keeps_modify_backups.
  intros w n' Hn. by rewrite lookup_insert_ne.
Qed.
Lemma keeps_save_backup n r : keeps (backs_up n) (save_backup n r).
Proof.
  apply keeps_bind; [apply _|apply keeps_quiet, keeps_io|intros _]. apply keeps_modify_backups.
  intros w n' Hn. by rewrite lookup_insert_ne.
Qed.

Lemma keeps_backup_module n m : keeps (backs_up n) (backup_module n m).
Proof.
  apply keeps_bind; [apply _|apply keeps_quiet; auto with depot|]. intros [[man bytes]|]; [|by intros w].
  apply keeps_bind; [apply _|apply keeps_write_file|intros _]. apply keeps_bind; [apply _| |intros b].
  - apply keeps_quiet. apply (keeps_read_path ∅ (InBackup n (m +:+ ".tar.gz"))).
  - apply keeps_quiet. auto with depot.
Qed.

Lemma keeps_backup_all n es : keeps (backs_up n) (backup_all n es).
Proof.
  induction es as [|e es IH]; cbn; [by intros w|].
  apply keeps_bind; [apply _|apply keeps_backup_module|intros b].
  apply keeps_bind; [apply _|exact IH|intros bs]. by intros w.
Qed.

(** The files of [n] other than those of the modules [ms] stay. *)
Definition files_kept (n : text) (ms : list string) (w w' : World H) : Prop :=
  forall f, (forall m, m ∈ ms -> f <> m +:+ ".tar.gz") -> dir_files (dir_of w' n) !! f = dir_files (dir_of w n) !! f.

(** The backup record of a module says what was installed. *)
Definition saved (n : text) (w : World H) (v : gmap string (ModuleManifest * Contents)) (b : BackupModule) : Prop :=
  match bm_previous b with
  | None => v !! bm_module b = None
  | Some pv => exists bytes c, bk_archive pv = bm_module b +:+ ".tar.gz"
      /\ dir_files (dir_of w n) !! bk_archive pv = Some bytes /\ bk_sha256 pv = to_hex (digest_of bytes)
      /\ v !! bm_module b = Some (bk_manifest pv, c) /\ unpack bytes = repacked c /\ m_id (bk_manifest pv) = bm_module b
  end.

Lemma dir_of_touches ks w w' n : touches ks w w' -> dir_of w' n = dir_of w n.
Proof. intros (_ & Hb & _). unfold dir_of. by rewrite Hb. Qed.

Lemma dir_of_write n f bytes w : 
  dir_files (dir_of (write_file n f bytes w).2 n) = <[f := bytes]> (dir_files (dir_of w n)).
Proof. unfold write_file, modify, dir_of at 1. cbn. by rewrite lookup_insert_eq. Qed.

Lemma backup_module_ok n m w b w' :
  backup_module n m w = (Ok b, w') ->
  bm_module b = m /\ saved n w' (view (w_host w)) b /\ files_kept n [m] w w'.
Proof.
  intros Hrun. apply bind_ok in Hrun as (o & w1 & Hh & Hrun).
  assert (Ht : touches ∅ w w1) by (eapply keeps_run; [|exact Hh]; auto with depot).
  unfold host in Hh. pose proof (law_backup m (w_host w)) as Hl.
  destruct (host_backup m (w_host w)) as [[o'|] h]; [|done]. injection Hh as -> <-. cbn in Hl.
  destruct o as [[man bytes]|].
  - destruct Hl as (c & Hv & Hc & Hid). apply bind_ok in Hrun as (u & w2 & Hwr & Hrun).
    assert (Hf : dir_files (dir_of w2 n) = <[m +:+ ".tar.gz" := bytes]> (dir_files (dir_of w n))).
    { rewrite <- (dir_of_touches _ _ _ n Ht), <- dir_of_write. by rewrite Hwr. }
    apply bind_ok in Hrun as (bs & w3 & Hrd & Hrun).
    assert (Ht3 : touches ∅ w2 w3) by (eapply keeps_run; [|exact Hrd]; apply (keeps_read_path ∅ (InBackup n (m +:+ ".tar.gz")))).
    assert (bs = bytes) as ->.
    { pose proof (read_path_ok (InBackup n (m +:+ ".tar.gz")) w2 bs) as Hc'. cbn [read_path content] in Hc'.
      rewrite Hrd, Hf, lookup_insert_eq in Hc'. specialize (Hc' eq_refl). congruence. }
    apply bind_ok in Hrun as (v & w4 & Hp & [= <- <-]). unfold lift in Hp. destruct (parse_version _); [|done].
    injection Hp as -> <-. unfold saved, files_kept. cbn [bm_module bm_previous bk_archive bk_sha256 bk_manifest].
    rewrite (dir_of_touches _ _ _ n Ht3), Hf. split_and!; [done| |].
    + exists bytes, c. split_and!; try done. by rewrite lookup_insert_eq.
    + intros f Hne. rewrite lookup_insert_ne; [done|]. intros <-. apply (Hne m); set_solver.
  - injection Hrun as <- <-. split_and!; [done|done|]. intros f _. done.
Qed.

Lemma saved_later n w w' v b :
  dir_files (dir_of w' n) !! (bm_module b +:+ ".tar.gz") = dir_files (dir_of w n) !! (bm_module b +:+ ".tar.gz") ->
  saved n w v b -> saved n w' v b.
Proof.
  unfold saved. intros Hf. destruct (bm_previous b) as [pv|]; [|done].
  intros (bytes & c & Ha & Hb & Hrest). exists bytes, c. rewrite Ha in *. by rewrite Hf.
Qed.

Lemma backup_all_ok n es w bs w' :
  NoDup (module <$> es) -> backup_all n es w = (Ok bs, w') ->
  bm_module <$> bs = module <$> es /\ Forall (saved n w' (view (w_host w))) bs
  /\ files_kept n (module <$> es) w w'.
Proof.
  revert w bs. induction es as [|e es IH]; intros w bs Hnd Hrun; cbn in *.
  - injection Hrun as <- <-. split_and!; [done|constructor|]. by intros f _.
  - apply NoDup_cons in Hnd as [He Hnd]. apply bind_ok in Hrun as (b & w1 & Hb & Hrun).
    apply bind_ok in Hrun as (bs' & w2 & Hbs & [= <- <-]).
    pose proof (keeps_run _ _ _ _ _ (keeps_backup_module n (module e)) Hb) as (_ & _ & _ & Hv & _).
    apply backup_module_ok in Hb as (Hm & Hsv & Hk). apply IH in Hbs as (Hms & Hall & Hk'); [|done].
    rewrite Hv in Hall. cbn. split_and!; [by f_equal| |].
    + constructor; [|done]. eapply saved_later; [|exact Hsv]. apply Hk'. intros m Hin E.
      apply string_app_inj_r in E. subst. congruence.
    + intros f Hne. rewrite Hk', Hk; [done| |]; intros m Hin; apply Hne; set_solver.
Qed.

(** ** Restoring *)

Lemma keeps_file_len ks n f : keeps (touches ks) (file_len (H := H) n f).
Proof. unfold file_len. auto 10 with depot. Qed.
#[local] Hint Resolve keeps_file_len : depot.

Lemma keeps_restore_bundles ks n ms acc : keeps (touches ks) (restore_bundles (H := H) n ms acc).
Proof.
  revert acc. induction ms as [|b ms IH]; intros acc; cbn; [auto with depot|].
  destruct (bm_previous b) as [pv|]; [|apply IH].
  apply keeps_bind; [apply _|auto with depot|intros d]. apply keeps_bind; [apply _|auto with depot|intros sz]. apply IH.
Qed.

(** The staged bundles of a record: one per module that was there before. *)
Definition restores (n : text) (sb : gmap string StagedBundle) (b : BackupModule) : Prop :=
  match bm_previous b with
  | None => sb !! bm_module b = None
  | Some pv => exists d sz, sb !! bm_module b = Some (mkStaged (bk_manifest pv) (InBackup n (bk_archive pv)) d sz)
  end.

Lemma restore_bundles_ok n ms acc w sb w' :
  NoDup (bm_module <$> ms) -> (forall b, b ∈ ms -> acc !! bm_module b = None) ->
  restore_bundles n ms acc w = (Ok sb, w') ->
  (forall b, b ∈ ms -> restores n sb b) /\ (forall m, m ∉ bm_module <$> ms -> sb !! m = acc !! m).
Proof.
  revert acc w. induction ms as [|b ms IH]; intros acc w Hnd Hacc Hrun; cbn in *.
  - injection Hrun as <- <-. split; [set_solver|done].
  - apply NoDup_cons in Hnd as [Hb Hnd].
    destruct (bm_previous b) as [pv|] eqn:Hp.
    + apply bind_ok in Hrun as (d & w1 & _ & Hrun). apply bind_ok in Hrun as (sz & w2 & _ & Hrun).
      apply IH in Hrun as [Hr Ho]; [|done|].
      * split; [|intros m Hm; rewrite Ho, lookup_insert_ne; set_solver].
        intros b' [->|Hb']%elem_of_cons; [|by apply Hr]. unfold restores. rewrite Hp, Ho by done. rewrite lookup_insert_eq. eauto.
      * intros b' Hb'. rewrite lookup_insert_ne; [apply Hacc; set_solver|]. intros E. apply Hb. rewrite E.
        apply list_elem_of_fmap. eauto.
    + apply IH in Hrun as [Hr Ho]; [|done|set_solver]. split; [|set_solver].
      intros b' [->|Hb']%elem_of_cons; [|by apply Hr]. unfold restores. rewrite Hp, Ho by done. apply Hacc. set_solver.
Qed.

Definition restored (sb : gmap string StagedBundle) (w : World H) (v : gmap string (ModuleManifest * Contents))
    (b : BackupModule) : Prop :=
  match sb !! bm_module b with
  | None => v !! bm_module b = None
  | Some s => installed_from w v (bm_module b) s
  end.

Lemma restored_later sb w w1 v v' b ks :
  touches ks w w1 -> v' !! bm_module b = v !! bm_module b -> restored sb w1 v b -> restored sb w v' b.
Proof.
  intros Ht Hv. unfold restored. destruct (sb !! bm_module b); [by apply installed_from_later with (ks := ks)|by rewrite Hv].
Qed.

Lemma restore_all_ok sb ms w started w' :
  staged_named sb -> NoDup (bm_module <$> ms) -> restore_all sb ms w = (Ok started, w') ->
  forall b, b ∈ ms -> restored sb w (view (w_host w')) b.
Proof.
  intros Hn. revert w started. induction ms as [|b ms IH]; intros w started Hnd Hrun b' Hb'; [set_solver|].
  cbn in Hnd. apply NoDup_cons in Hnd as [Hb Hnd]. cbn in Hrun.
  set (ks := list_to_set (bm_module <$> ms) : gset string).
  assert (Hkeep : keeps (touches ks) (restore_all sb ms)).
  { apply keeps_restore_all; [done|]. intros x Hx. apply elem_of_list_to_set, list_elem_of_fmap. eauto. }
  assert (Hbk : bm_module b ∉ ks) by (unfold ks; by rewrite elem_of_list_to_set).
  assert (Hone : exists w1 started1, touches {[bm_module b]} w w1 /\ restore_all sb ms w1 = (Ok started1, w')
                 /\ restored sb w (view (w_host w1)) b).
  { unfold restored. destruct (sb !! bm_module b) as [s|] eqn:Hs.
    - apply bind_ok in Hrun as (bu & w1 & Hbu & Hrun). apply bind_ok in Hrun as (u & w2 & Ha & Hrun).
      apply bind_ok in Hrun as (rest & w3 & Hrest & [= _ ->]). exists w2, rest. split_and!; [|done|].
      + etrans; [exact (keeps_run _ _ _ _ _ (keeps_load_bundle _ _) Hbu)|].
        eapply keeps_run; [|exact Ha]. apply keeps_activate. apply load_bundle_ok in Hbu as (? & -> & _).
        rewrite (Hn _ _ Hs). set_solver.
      + eapply load_activate_ok; [|done|done]. by apply Hn.
    - apply bind_ok in Hrun as (u & w1 & Hrm & Hrun). exists w1, started. split_and!; [|done|by eapply remove_ok].
      eapply keeps_run; [|exact Hrm]. apply keeps_remove. set_solver. }
  destruct Hone as (w1 & started1 & Ht & Hrest & Hd).
  pose proof (keeps_run _ _ _ _ _ Hkeep Hrest) as Htail.
  apply elem_of_cons in Hb' as [->|Hb'].
  - eapply restored_later; [reflexivity| |exact Hd]. by apply Htail.
  - eapply restored_later; [exact Ht|reflexivity|]. by eapply IH.
Unshelve. exact ∅.
Qed.

Lemma restores_named n w v ms sb :
  Forall (saved n w v) ms -> (forall b, b ∈ ms -> restores n sb b) ->
  (forall m, m ∉ bm_module <$> ms -> sb !! m = None) -> staged_named sb.
Proof.
  intros Hsv Hr Ho m s Hs. destruct (decide (m ∈ bm_module <$> ms)) as [Hin|Hout]; [|rewrite Ho in Hs; done].
  apply list_elem_of_fmap in Hin as (b & -> & Hb). specialize (Hr b Hb). rewrite Forall_forall in Hsv.
  specialize (Hsv b Hb). unfold restores, saved in *. destruct (bm_previous b) as [pv|]; [|congruence].
  destruct Hr as (d & sz & Hr). destruct Hsv as (bytes & c & _ & _ & _ & _ & _ & Hid). rewrite Hr in Hs. by injection Hs as <-.
Qed.

(** What a module is after its backup was put back. *)
Definition put_back (mc : ModuleManifest * Contents) : ModuleManifest * Contents := (mc.1, repacked mc.2).

Lemma restore_backup_ok n r w w' v :
  NoDup (bm_module <$> br_modules r) -> Forall (saved n w v) (br_modules r) ->
  restore_backup n r w = (Ok tt, w') ->
  forall b, b ∈ br_modules r -> view (w_host w') !! bm_module b = put_back <$> v !! bm_module b.
Proof.
  intros Hnd Hsv Hrun b Hb. apply bind_ok in Hrun as (sb & w1 & Hst & Hrun).
  pose proof (keeps_run _ _ _ _ _ (keeps_restore_bundles ∅ n _ _) Hst) as Ht1.
  apply restore_bundles_ok in Hst as [Hr Ho]; [|done|by intros; rewrite lookup_empty].
  pose proof (restores_named _ _ _ _ _ Hsv Hr Ho) as Hn.
  apply bind_ok in Hrun as (u & w2 & Hstop & Hrun).
  assert (Ht2 : touches ∅ w1 w2) by (eapply keeps_run; [|exact Hstop]; auto with depot).
  apply bind_ok in Hrun as (started & w3 & Hall & Hrun).
  assert (Ht3 : touches ∅ w3 w') by (eapply keeps_run; [|exact Hrun]; auto 10 with depot).
  pose proof (restore_all_ok _ _ _ _ _ Hn Hnd Hall b Hb) as Hd.
  pose proof (touches_trans _ _ _ _ Ht1 Ht2) as Ht.
  assert (Hv' : view (w_host w') !! bm_module b = view (w_host w3) !! bm_module b) by (apply Ht3; set_solver).
  pose proof (restored_later _ _ _ _ _ _ _ Ht Hv' Hd) as Hd'. clear Hd. rename Hd' into Hd.
  specialize (Hr b Hb). rewrite Forall_forall in Hsv. specialize (Hsv b Hb). unfold restored, restores, saved in *.
  destruct (bm_previous b) as [pv|]; [|rewrite Hr in Hd; by rewrite Hsv].
  destruct Hr as (d & sz & Hr), Hsv as (bytes & c & Ha & Hf & _ & Hv & Hu & _). rewrite Hr in Hd.
  destruct Hd as (bytes' & Hc & _ & Hd). cbn in Hc, Hd. rewrite Hf in Hc. injection Hc as <-. by rewrite Hd, Hv, Hu.
Qed.

Lemma keeps_restore_backup n r w0 v :
  NoDup (bm_module <$> br_modules r) -> Forall (saved n w0 v) (br_modules r) ->
  keeps (touches (list_to_set (bm_module <$> br_modules r))) (restore_backup n r).
Proof.
  intros Hnd Hsv w. set (ks := list_to_set (bm_module <$> br_modules r)). unfold restore_backup. unfold bind at 1.
  pose proof (keeps_restore_bundles ks n (br_modules r) ∅ w) as Ht.
  destruct (restore_bundles n (br_modules r) ∅ w) as [[sb|e] w1] eqn:Hst; [|done]. etrans; [exact Ht|].
  apply restore_bundles_ok in Hst as [Hr Ho]; [|done|by intros; rewrite lookup_empty].
  pose proof (restores_named _ _ _ _ _ Hsv Hr Ho) as Hn.
  apply keeps_bind; [apply _|auto with depot|intros _]. apply keeps_bind; [apply _| |intros started].
  - apply keeps_restore_all; [done|]. intros b Hb. unfold ks. apply elem_of_list_to_set, list_elem_of_fmap. eauto.
  - auto 10 with depot.
Qed.

(** ** Executing *)

Record well_prepared (p : Prepared) : Prop := mkWell {
  wp_named : staged_named (staged p);
  wp_nodup : NoDup (module <$> entries (plan p));
}.

Lemma changes_nodup p : well_prepared p -> NoDup (module <$> plan_changes (plan p)).
Proof. intros [_ Hn]. eapply sublist_NoDup; [exact Hn|]. apply fmap_sublist, sublist_filter. Qed.

(** The change of an entry is in place: removed, or the bytes with the
    staged digest and size are installed. *)
Definition in_place (p : Prepared) (v : gmap string (ModuleManifest * Contents)) (e : PlanEntry) : Prop :=
  if bool_decide (action e = Remove) then v !! module e = None
  else exists s bytes, staged p !! module e = Some s /\ check_bytes bytes (sb_sha256 s) (sb_size s) = Ok tt
         /\ v !! module e = Some (sb_manifest s, unpack bytes).

Lemma entry_done_in_place p w v e : entry_done (staged p) w v e -> in_place p v e.
Proof.
  unfold entry_done, in_place. case_bool_decide; [done|]. intros (s & Hs & bytes & _ & Hc & Hv). eauto 6.
Qed.

(** How a failed execution leaves the host: rolled back means that every
    module is as it was, or one of the plan's with its backup put back. *)
Definition failed_clean (p : Prepared) (w w' : World H) (e : DepotError) : Prop :=
  w_state w' = w_state w
  /\ match e with
     | EInstall true => forall k, view (w_host w') !! k = view (w_host w) !! k
         \/ k ∈ changed_set p /\ view (w_host w') !! k = put_back <$> view (w_host w) !! k
     | EInstall false => forall k, k ∉ changed_set p -> view (w_host w') !! k = view (w_host w) !! k
     | _ => view (w_host w') = view (w_host w)
     end.

Lemma failed_same_view p w w' e :
  w_state w' = w_state w -> view (w_host w') = view (w_host w) -> failed_clean p w w' e.
Proof. intros Hs Hv. split; [done|]. destruct e as [| | | | | | | | |[]]; try done; intros k; rewrite Hv; [by left|done]. Qed.

Definition change_post (p : Prepared) (w : World H) {A} (out : result A DepotError * World H) : Prop :=
  match out with
  | (Ok _, w') => w_state w' = w_state w /\ (forall e, e ∈ plan_changes (plan p) -> in_place p (view (w_host w')) e)
                  /\ (forall k, k ∉ changed_set p -> view (w_host w') !! k = view (w_host w) !! k)
  | (Err e, w') => failed_clean p w w' e
  end.

Lemma apply_or_restore_spec n r p w0 w :
  well_prepared p -> bm_module <$> br_modules r = module <$> plan_changes (plan p) ->
  Forall (saved n w (view (w_host w0))) (br_modules r) ->
  w_state w = w_state w0 -> view (w_host w) = view (w_host w0) ->
  change_post p w0 (apply_or_restore n r p w).
Proof.
  intros Hwp Hms Hsv Hst Hv. pose proof (changes_nodup p Hwp) as Hnd. unfold apply_or_restore.
  destruct (apply p w) as [[migs|e] w1] eqn:Happ.
  - pose proof (keeps_run _ _ _ _ _ (keeps_apply p (wp_named _ Hwp)) Happ) as (Hs1 & _ & _ & _ & Hv1).
    split_and!; [congruence| |].
    + intros x Hx. eapply entry_done_in_place, apply_ok; [apply Hwp|done|done|done].
    + intros k Hk. by rewrite Hv1, Hv.
  - pose proof (keeps_run _ _ _ _ _ (keeps_apply p (wp_named _ Hwp)) Happ) as Ht1.
    assert (Hnd' : NoDup (bm_module <$> br_modules r)) by (by rewrite Hms).
    assert (Hsv1 : Forall (saved n w1 (view (w_host w0))) (br_modules r)).
    { eapply Forall_impl; [exact Hsv|]. intros b Hb. eapply saved_later; [|exact Hb]. by rewrite (dir_of_touches _ _ _ n Ht1). }
    pose proof (keeps_restore_backup n r w1 _ Hnd' Hsv1 w1) as Ht2. rewrite Hms in Ht2.
    change (list_to_set (module <$> plan_changes (plan p))) with (changed_set p) in Ht2.
    destruct (restore_backup n r w1) as [[[]|e'] w2] eqn:Hres; cbn in Ht2.
    + assert (Hs2 : w_state w2 = w_state w0) by (destruct Ht1 as (? & _), Ht2 as (? & _); congruence).
      split; [done|]. intros k. destruct (decide (k ∈ changed_set p)) as [Hk|Hk]; [right; split; [done|]|left].
      * unfold changed_set in Hk. rewrite elem_of_list_to_set, <- Hms in Hk.
        apply list_elem_of_fmap in Hk as (b & -> & Hb). by eapply restore_backup_ok.
      * destruct Ht1 as (_ & _ & _ & _ & Hv1), Ht2 as (_ & _ & _ & _ & Hv2). by rewrite Hv2, Hv1, Hv.
    + destruct Ht1 as (? & _ & _ & _ & Hv1), Ht2 as (? & _ & _ & _ & Hv2). split; [congruence|].
      intros k Hk. by rewrite Hv2, Hv1, Hv.
Qed.

Lemma change_post_pre {A} p w w1 (out : result A DepotError * World H) :
  w_state w1 = w_state w -> view (w_host w1) = view (w_host w) -> change_post p w1 out -> change_post p w out.
Proof.
  intros Hs Hv. destruct out as [[a|e] w']; cbn; unfold failed_clean; rewrite Hs, Hv; done.
Qed.

Lemma change_host_spec now p st w : well_prepared p -> change_post p w (change_host now p st w).
Proof.
  intros Hwp. pose proof (changes_nodup p Hwp) as Hnd. unfold change_host.
  destruct (plan_changes (plan p)) as [|c chs] eqn:Hch.
  { cbn. rewrite Hch. split_and!; [done|set_solver|done]. }
  rewrite <- Hch in *. unfold bind at 1.
  assert (Ha : keeps (touches ∅) (each (λ sb, load_bundle sb;;; ret tt) (btree_values (staged p)))) by auto 10 with depot.
  specialize (Ha w). destruct (each _ _ w) as [[u|e] w1]; cbn in Ha; destruct Ha as (Hs1 & _ & _ & _ & Hv1);
    assert (Hv1' : view (w_host w1) = view (w_host w)) by (apply map_eq; intros k; apply Hv1; set_solver);
    [|by apply failed_same_view].
  apply (change_post_pre p w w1); [done..|]. clear Hv1. cbn zeta.
  set (n := backup_name now (title (plan p))). unfold bind at 1.
  pose proof (keeps_create_dir n w1) as Hc. destruct (create_dir n w1) as [[u1|e] w2]; cbn in Hc;
    destruct Hc as (Hs2 & _ & _ & Hv2 & _); [|by apply failed_same_view].
  apply (change_post_pre p w1 w2); [done..|]. unfold bind at 1.
  pose proof (keeps_backup_all n (plan_changes (plan p)) w2) as Hb.
  destruct (backup_all n (plan_changes (plan p)) w2) as [[bs|e] w3] eqn:Hbk; cbn in Hb;
    destruct Hb as (Hs3 & _ & _ & Hv3 & _); [|by apply failed_same_view].
  apply backup_all_ok in Hbk as (Hms & Hsv & _); [|done]. unfold bind at 1.
  set (r := mkBackupRecord _ _ _ _ bs). pose proof (keeps_save_backup n r w3) as Hr.
  destruct (save_backup n r w3) as [[u2|e] w4] eqn:Hsave; cbn in Hr; destruct Hr as (Hs4 & _ & _ & Hv4 & _);
    [|apply failed_same_view; congruence].
  assert (Hfiles : dir_files (dir_of w4 n) = dir_files (dir_of w3 n)).
  { apply bind_ok in Hsave as ([] & w5 & Hio & [= <- <-]). apply io_ok in Hio. unfold dir_of at 1. cbn.
    rewrite lookup_insert_eq. cbn. by rewrite (dir_of_touches _ _ _ n Hio). }
  assert (Hpost : change_post p w2 (apply_or_restore n r p w4)).
  { apply apply_or_restore_spec; [done|done| |congruence|congruence]. rewrite <- Hv3.
    eapply Forall_impl; [exact Hsv|]. intros b Hb. rewrite Hv3. eapply saved_later; [|exact Hb]. by rewrite Hfiles. }
  unfold bind. by destruct (apply_or_restore n r p w4) as [[migs|e] w5].
Qed.

(** Recording and pruning leave the modules alone and fail with [EIo] only;
    pruning leaves the state file. *)
Definition same_host_state (w w' : World H) : Prop := w_host w' = w_host w /\ w_state w' = w_state w.
#[export] Instance same_host_state_preorder : PreOrder same_host_state.
Proof. split; [by intros w|]. intros w1 w2 w3 [??] [??]. split; congruence. Qed.

Lemma io_same w : same_host_state w (io w).2.
Proof. unfold io. destruct (w_io w) as [|[] l]; done. Qed.

Lemma keeps_prune_backups keep : keeps same_host_state (prune_backups keep).
Proof.
  apply keeps_bind; [apply _|exact io_same|intros _]. apply keeps_bind; [apply _|by intros w|intros names].
  apply keeps_each; [apply _|]. intros n _. destruct (bool_decide _); [by intros w|].
  apply keeps_bind; [apply _|exact io_same|intros _]. by intros w.
Qed.

Lemma keeps_prune_cache st : keeps same_host_state (prune_cache st).
Proof.
  apply keeps_ignore. apply keeps_bind; [apply _|exact io_same|intros _]. apply keeps_bind; [apply _|by intros w|intros names].
  apply keeps_each; [apply _|]. intros n _. destruct (bool_decide _); [by intros w|].
  intros w. pose proof (io_same w) as Hs. destruct (io w) as [[u|e] w']; done.
Qed.

Definition fails_io {A} (m : M H A) : Prop := forall w, match (m w).1 with Err e => e = EIo | Ok _ => True end.

Lemma fails_io_io : fails_io io.
Proof. intros w. unfold io. by destruct (w_io w) as [|[] l]. Qed.
Lemma fails_io_bind {A B} (m : M H A) (k : A -> M H B) : fails_io m -> (forall a, fails_io (k a)) -> fails_io (bind m k).
Proof. intros Hm Hk w. unfold bind. specialize (Hm w). destruct (m w) as [[a|e] w']; [apply Hk|done]. Qed.
Lemma fails_io_each {A} (f : A -> M H unit) l : (forall x, fails_io (f x)) -> fails_io (each f l).
Proof. intros Hf. induction l as [|x l IH]; cbn; [by intros w|]. by apply fails_io_bind. Qed.

(** Saving, pruning and answering. *)
Definition finish (st : HostState) (out : Outcome) : M H Outcome :=
  save st;;; prune_backups (backup st);;; prune_cache st;;; ret out.

Lemma finish_fails_io st out : fails_io (finish st out).
Proof.
  unfold finish, save, prune_backups, remove_backup.
  repeat first [apply fails_io_bind; [|intros ?] | apply fails_io_io | by intros w | apply fails_io_each; intros ? | destruct (bool_decide _)].
Qed.

Lemma finish_host st out : keeps (λ w w', w_host w' = w_host w) (finish st out).
Proof.
  assert (PreOrder (λ w w' : World H, w_host w' = w_host w)) by (split; [by intros w|]; intros w1 w2 w3 ??; congruence).
  apply keeps_bind; [apply _| |intros _].
  - apply keeps_bind; [apply _|intros w; apply io_same|intros _]. by intros w.
  - apply keeps_bind; [apply _|intros w; apply keeps_prune_backups|intros _].
    apply keeps_bind; [apply _|intros w; apply keeps_prune_cache|intros _]. by intros w.
Qed.

Lemma finish_ok st out w o w' : finish st out w = (Ok o, w') -> w_state w' = Some (FParsed st) /\ o = out.
Proof.
  intros Hr. apply bind_ok in Hr as (u & w1 & Hs & Hr). apply bind_ok in Hs as (u0 & w0 & _ & [= _ <-]).
  apply bind_ok in Hr as (u1 & w2 & Hp & Hr). apply bind_ok in Hr as (u2 & w3 & Hc & [= <- <-]).
  apply (keeps_run _ _ _ _ _ (keeps_prune_backups _)) in Hp as [_ Hp].
  apply (keeps_run _ _ _ _ _ (keeps_prune_cache _)) in Hc as [_ Hc]. split; [|done]. by rewrite Hc, Hp.
Qed.

(** The state [execute] starts from. *)
Definition loaded (w : World H) (st : HostState) : Prop :=
  (w_state w = None /\ st = state_default) \/ w_state w = Some (FParsed st).

Lemma load_spec w : match load w with
  | (Ok st, w') => loaded w st /\ same_host_state w w' /\ w_lock w' = w_lock w
  | (Err _, w') => same_host_state w w' /\ w_lock w' = w_lock w
  end.
Proof.
  unfold load, bind, gets, io, same_host_state, loaded. destruct (w_io w) as [|[] l]; cbn; try done;
    (destruct (w_state w) as [[st|]|] eqn:Hs; cbn; [case_bool_decide; cbn| |]; eauto 10).
Qed.

Definition all_in_place (p : Prepared) (w w' : World H) : Prop :=
  (forall e, e ∈ plan_changes (plan p) -> in_place p (view (w_host w')) e)
  /\ (forall k, k ∉ changed_set p -> view (w_host w') !! k = view (w_host w) !! k).

Definition executed (now : text) (p : Prepared) (w : World H) (out : result Outcome DepotError * World H) : Prop :=
  match out with
  | (Ok _, w') => all_in_place p w w'
      /\ exists st kept, loaded w st /\ w_state w' = Some (FParsed (record_state st p kept now).1)
  | (Err e, w') => failed_clean p w w' e \/ (e = EIo /\ all_in_place p w w')
  end.

(** The body of [execute] under the lock. *)
Definition locked_body (now : text) (p : Prepared) : M H Outcome :=
  st <- load;;
  ' (kept, migs) <- change_host now p st;;
  let changed := (λ e, (module e, installed e, target e)) <$> plan_changes (plan p) in
  let (st', b) := record_state st p kept now in
  finish st' (mkOutcome (title (plan p)) changed migs b).

Lemma locked_body_spec now p w : well_prepared p -> executed now p w (locked_body now p w).
Proof.
  intros Hwp. unfold locked_body. unfold bind at 1. pose proof (load_spec w) as Hl.
  destruct (load w) as [[st|e] w1].
  2:{ destruct Hl as [[Hh Hs] _]. left. apply failed_same_view; [done|by rewrite Hh]. }
  destruct Hl as (Hst & [Hh Hs] & _). unfold bind at 1. pose proof (change_host_spec now p st w1 Hwp) as Hc.
  apply (change_post_pre p w) in Hc; [|done|by rewrite Hh].
  destruct (change_host now p st w1) as [[[kept migs]|e] w2]; [|by left]. cbn in Hc. destruct Hc as (Hs2 & Hin & Hfr).
  destruct (record_state st p kept now) as [st' b] eqn:Hrec. cbn zeta.
  set (out := mkOutcome _ _ _ _). pose proof (finish_host st' out w2) as Hfh. pose proof (finish_fails_io st' out w2) as Hfe.
  assert (Hall : all_in_place p w (finish st' out w2).2) by (unfold all_in_place; by rewrite Hfh).
  destruct (finish st' out w2) as [[o|e] w3] eqn:Hf; cbn in *; [|by right]. split; [done|].
  exists st, kept. split; [done|]. rewrite Hrec. by apply finish_ok in Hf as [? _].
Qed.

Lemma lock_drop_same w : same_host_state w (lock_drop w).
Proof. unfold lock_drop. pose proof (io_same w) as Hs. destruct (io w) as [[u|e] w']; done. Qed.

Lemma lock_take_same : keeps same_host_state lock_take.
Proof.
  apply keeps_bind; [apply _|exact io_same|intros _]. apply keeps_bind; [apply _|by intros w0|intros held].
  destruct held; [by intros w0|]. apply keeps_bind; [apply _|exact io_same|intros _]. by intros w0.
Qed.

Lemma executed_frame now p w w1 r w2 w3 :
  same_host_state w w1 -> same_host_state w2 w3 -> executed now p w1 (r, w2) -> executed now p w (r, w3).
Proof.
  intros [Hh1 Hs1] [Hh2 Hs2]. unfold executed, failed_clean, all_in_place, loaded.
  rewrite Hh1, Hs1, Hh2, Hs2. done.
Qed.

Lemma execute_spec (now : text) (p : Prepared) (w : World H) :
  well_prepared p -> executed now p w (execute now p w).
Proof.
  intros Hwp. unfold execute. destruct (is_installable p); cbn [negb]; [|left; by apply failed_same_view].
  unfold with_lock. pose proof (lock_take_same w) as Hl. destruct (lock_take w) as [[u|e] w1]; cbn in Hl.
  - change (executed now p w (let (r, w'') := locked_body now p w1 in (r, lock_drop w''))).
    pose proof (locked_body_spec now p w1 Hwp) as Hb. destruct (locked_body now p w1) as [r w2].
    eapply executed_frame; [exact Hl|apply lock_drop_same|exact Hb].
  - destruct Hl as [Hh Hs]. left. apply failed_same_view; [done|by rewrite Hh].
Qed.

(** C1: over every runtime with the laws of [ModuleHostLaws], executing a
    prepared plan is all or nothing, whatever file operation or runtime call
    fails.  On success every change is in place (removed, or the bytes with
    the staged SHA-256 and size installed), no other module is touched and
    the recorded state is the new one.  On an install error with
    [rolled_back] the state is the one from before and so is every module,
    except that one of the plan's may have been put back from its backup:
    with its manifest, and as contents what the archive of the backup unpacks
    to, which are the contents from before unless the module storage flattens
    them ([backup_loses_single_directory]).  Without [rolled_back] at most the plan's
    modules differ.  Any other error leaves modules and state alone, or it is
    an [Io] error while recording a change that is completely in place. *)
Theorem execute_transactional (now : text) (p : Prepared) (w : World H) :
  well_prepared p -> executed now p w (execute now p w).
Proof. apply execute_spec. Qed.

Lemma lock_take_held w : w_lock w = true ->
  exists e w', lock_take w = (Err e, w') /\ (e = ERefused \/ e = EIo) /\ touches ∅ w w'.
Proof.
  intros Hl. unfold lock_take, bind at 1. pose proof (keeps_io ∅ w) as Hk. pose proof (fails_io_io w) as Hf.
  destruct (io w) as [[u|e] w1]; cbn in Hk, Hf; [|by eauto 6].
  assert (Hl1 : w_lock w1 = true) by (destruct Hk as (_ & _ & _ & -> & _); done).
  unfold bind, gets. rewrite Hl1. exists ERefused, w1. split_and!; [done|by left|exact Hk].
Qed.

(** while another operation holds the lock [execute] is refused or
    fails on a file, and changes neither modules, state, backups, cache nor
    the lock. *)
Theorem execute_excluded (now : text) (p : Prepared) (w : World H) :
  w_lock w = true ->
  exists e, (execute now p w).1 = Err e /\ (e = ERefused \/ e = EIo)
    /\ touches ∅ w (execute now p w).2.
Proof.
  intros Hl. unfold execute. destruct (is_installable p); cbn [negb]; [|by eexists; split_and!; [done|left|]].
  unfold with_lock. destruct (lock_take_held w Hl) as (e & w' & -> & He & Ht). eauto.
Qed.

(** ** Preparing *)

Section Preparing.
Context (inspect : list Z -> result BundleInfo DepotError).

Lemma module_manifest_id t own signer m : module_manifest t own signer = Ok m -> m_id m = name t.
Proof.
  unfold module_manifest. intros (m' & Hm & [= <-])%result_bind_ok_inv. cbn.
  destruct own as [m0|]; [destruct (bool_decide (m_id m0 = name t)) eqn:Hb; [|done]|].
  - apply bool_decide_eq_true_1 in Hb. destruct (bool_decide _); [|done]. by injection Hm as <-.
  - apply result_bind_ok_inv in Hm as (v & _ & [= <-]). done.
Qed.

(** Staging changes an entry's migrations only. *)
Definition same_entry (e e' : PlanEntry) : Prop :=
  module e' = module e /\ action e' = action e /\ source e' = source e.

(** The bundle of a changed entry: the signed digest and size. *)
Definition staged_for (sb : gmap string StagedBundle) (e : PlanEntry) : Prop :=
  forall t, changes (action e) = true -> source e = Some t ->
    exists s, sb !! name t = Some s /\ sb_sha256 s = sha256 t /\ sb_size s = size t.

Lemma stage_entry_ok src inst signer e acc w e' acc' w' :
  staged_named acc.1 -> stage_entry inspect src inst signer e acc w = (Ok (e', acc'), w') ->
  same_entry e e' /\ staged_named acc'.1 /\ staged_for acc'.1 e
  /\ (forall m, (forall t, source e = Some t -> name t <> m) -> acc'.1 !! m = acc.1 !! m).
Proof.
  intros Hn. unfold stage_entry, staged_for. destruct (changes (action e)) eqn:Hc; cbn.
  2:{ intros [= <- <- <-]. split_and!; by (intros; congruence || done). }
  destruct (source e) as [t|] eqn:Hs.
  2:{ intros [= <- <- <-]. split_and!; by (intros; congruence || done). }
  intros Hrun. apply bind_ok in Hrun as (fetched & w1 & _ & Hrun). apply bind_ok in Hrun as (bytes & w2 & _ & Hrun).
  apply bind_ok in Hrun as (info & w3 & _ & Hrun). apply bind_ok in Hrun as (m & w4 & Hm & [= <- <- <-]).
  unfold lift in Hm. injection Hm as Hm _. cbn. split_and!; [done| | |].
  - intros k s. rewrite lookup_insert. case_decide; [|apply Hn]. intros [= <-]. subst k. by eapply module_manifest_id.
  - intros t' _ [= <-]. rewrite lookup_insert_eq. eauto.
  - intros k Hk. rewrite lookup_insert_ne; [done|]. by apply Hk.
Qed.

Lemma stage_all_ok src inst signer es acc w es' acc' w' :
  NoDup (module <$> es) -> (forall e t, e ∈ es -> source e = Some t -> name t = module e) ->
  staged_named acc.1 -> stage_all inspect src inst signer es acc w = (Ok (es', acc'), w') ->
  Forall2 same_entry es es' /\ staged_named acc'.1 /\ (forall e, e ∈ es -> staged_for acc'.1 e)
  /\ (forall m, m ∉ module <$> es -> acc'.1 !! m = acc.1 !! m).
Proof.
  revert acc w es'. induction es as [|e es IH]; intros acc w es' Hnd Hsrc Hn Hrun; cbn in *.
  - injection Hrun as <- <- <-. split_and!; [constructor|done|set_solver|done].
  - apply NoDup_cons in Hnd as [He Hnd]. apply bind_ok in Hrun as ([e1 acc1] & w1 & H1 & Hrun).
    apply bind_ok in Hrun as ([es1 acc2] & w2 & H2 & [= <- <- <-]).
    apply stage_entry_ok in H1 as (Hse & Hn1 & Hf & Ho); [|done].
    apply IH in H2 as (Hall & Hn2 & Hfs & Hos); [|done|set_solver|done]. split_and!.
    + by constructor.
    + done.
    + intros x [->|Hx]%elem_of_cons; [|by apply Hfs]. intros t Hc Hs. rewrite Hos; [by apply Hf|].
      by rewrite (Hsrc e t ltac:(set_solver) Hs).
    + intros m Hm. rewrite Hos, Ho; [done| |set_solver]. intros t Hs <-. rewrite (Hsrc e t ltac:(set_solver) Hs) in Hm. set_solver.
Qed.

Lemma distribution_source ts inst st e t :
  e ∈ distribution_entries ts inst st -> source e = Some t -> t ∈ ts /\ name t = module e.
Proof.
  intros [(t' & Ht & ->)|(m & _ & _ & ->)]%distribution_entries_elem; [|done].
  rewrite target_entry_source, target_entry_module. by intros [= ->].
Qed.

Lemma same_entries_modules es es' : Forall2 same_entry es es' -> module <$> es' = module <$> es.
Proof. induction 1 as [|e e' es es' (Hm & _) _ IH]; [done|]. cbn. by rewrite Hm, IH. Qed.

Lemma changed_entry_source ts inst st e :
  e ∈ distribution_entries ts inst st -> changes (action e) = true ->
  exists t, t ∈ ts /\ name t = module e /\ source e = Some t /\ action e <> Remove.
Proof.
  intros [(t & Ht & ->)|(m & _ & _ & ->)]%distribution_entries_elem Hc.
  - exists t. rewrite target_entry_module, target_entry_source. split_and!; try done.
    rewrite target_entry_action. unfold target_action. destruct (is_local _); [done|]. destruct (pins st !! name t); [done|].
    destruct (optional t && _); [done|]. cbn. unfold change_action. destruct (by_name inst !! name t) as [m|]; [|done].
    case_bool_decide; [by destruct (eq_ignore_ascii_case _ _)|by destruct (version_cmp _ _)].
  - unfold kept_entry in Hc. cbn in Hc. by destruct (local_sync m).
Qed.

(** What [prepare_verified] guarantees of an installable plan. *)
Lemma prepare_verified_ok src d rb w p w' :
  NoDup (name <$> target_modules d) ->
  (forall h l h', host_modules h = (Ok l, h') -> NoDup (h_name <$> l)) ->
  prepare_verified inspect src d rb w = (Ok p, w') -> is_installable p = true ->
  well_prepared p /\
  forall e, e ∈ plan_changes (plan p) -> exists t s, t ∈ target_modules d /\ name t = module e /\ action e <> Remove
    /\ staged p !! module e = Some s /\ sb_sha256 s = sha256 t /\ sb_size s = size t.
Proof.
  intros Hts Hhost Hrun Hok. apply bind_ok in Hrun as (inst & w1 & Hi & Hrun).
  assert (Hin : NoDup (h_name <$> inst)).
  { unfold host in Hi. destruct (host_modules (w_host w)) as [[l|] h] eqn:E; [|done]. injection Hi as -> _. by eapply Hhost. }
  apply bind_ok in Hrun as (st & w2 & _ & Hrun). apply bind_ok in Hrun as ([p0 [sb n]] & w3 & Hst & [= <- _]).
  set (ts := target_modules d) in *. unfold stage_unless_problems in Hst.
  pose proof (distribution_entries_nodup ts inst st Hts Hin) as Hnd. cbn [problems plan_distribution] in Hst.
  destruct (effective_requirements (distribution_entries ts inst st)) as [|pr prs] eqn:Hpr.
  2:{ injection Hst as <- <- <- _. unfold is_installable in Hok. cbn in Hok. by rewrite Hpr in Hok. }
  apply bind_ok in Hst as ([es acc] & w4 & Hall & [= <- -> _]). cbn in Hall.
  apply stage_all_ok in Hall as (Hse & Hn & Hf & _); [|done|by intros e t He Hs; eapply distribution_source|].
  2:{ intros m s. cbn. by rewrite lookup_empty. }
  split.
  - split; cbn; [by apply Hn|]. by rewrite (same_entries_modules _ _ Hse).
  - cbn. intros e [Hc He]%list_elem_of_filter. apply list_elem_of_lookup in He as [i He].
    destruct (Forall2_lookup_r _ _ _ _ _ Hse He) as (e0 & He0 & Hm & Ha & Hs). apply list_elem_of_lookup_2 in He0.
    rewrite Ha in Hc.
    destruct (changed_entry_source _ _ _ _ He0 Hc) as (t & Ht & Hnm & Hsrc & Hrm).
    destruct (Hf e0 He0 t Hc Hsrc) as (s & Hsb & H1 & H2). exists t, s. rewrite Hm, Ha, <- Hnm. by split_and!.
Qed.

(** Module [e] is installed from bytes a signed module of [d] names. *)
Definition installed_signed (d : VerifiedDistribution) (v : gmap string (ModuleManifest * Contents)) (e : PlanEntry) : Prop :=
  exists t man bytes,
    t ∈ target_modules d /\ name t = module e /\ m_id man = module e
    /\ digest_of bytes = sha256 t /\ Z.of_nat (length bytes) = size t
    /\ v !! module e = Some (man, unpack bytes).

(** C2: end to end: when a distribution was prepared and its execution (in
    any later world) succeeds, every module the plan changed is installed
    from bytes whose SHA-256 and length are those of the signed manifest. *)
Theorem installed_bytes_are_signed src d rb w p w' now w1 out w2 :
  NoDup (name <$> target_modules d) ->
  (forall h l h', host_modules h = (Ok l, h') -> NoDup (h_name <$> l)) ->
  prepare_verified inspect src d rb w = (Ok p, w') -> execute now p w1 = (Ok out, w2) ->
  forall e, e ∈ plan_changes (plan p) -> installed_signed d (view (w_host w2)) e.
Proof.
  intros Hts Hhost Hp Hex e He.
  assert (Hok : is_installable p = true) by (unfold execute in Hex; by destruct (is_installable p)).
  destruct (prepare_verified_ok _ _ _ _ _ _ Hts Hhost Hp Hok) as [Hwp Hst].
  pose proof (execute_spec now p w1 Hwp) as Hpost. rewrite Hex in Hpost. destruct Hpost as [[Hin _] _].
  destruct (Hst e He) as (t & s & Ht & Hnm & Hrm & Hs & Hsha & Hsz). specialize (Hin e He). unfold in_place in Hin.
  rewrite bool_decide_eq_false_2 in Hin by done. destruct Hin as (s' & bytes & Hs' & Hc & Hv).
  rewrite Hs in Hs'. injection Hs' as <-. exists t, (sb_manifest s), bytes. split_and!; try done.
  - by apply (wp_named _ Hwp).
  - unfold check_bytes in Hc. destruct (negb _); [done|]. rewrite <- Hsha. by case_bool_decide.
  - unfold check_bytes in Hc. rewrite <- Hsz. destruct (Z.eqb_spec (Z.of_nat (length bytes)) (sb_size s)); [done|by cbn in Hc].
Qed.
End Preparing.
End Correctness.

(** ** A concrete runtime *)

(** Installed modules are a map, archives are their own contents; every
    call succeeds except [host_healthy] of a module at version 13. *)
Abbreviation Runtime := (gmap string (ModuleManifest * list Z)) (only parsing).
Definition runtime_module (kv : string * (ModuleManifest * list Z)) : HostModule (P := demo_protocol) :=
  mkHostModule kv.1 (major (m_version kv.2.1) : Z) (hash (checksum (m_artifact kv.2.1))) false true 1 [].

#[export] Instance demo_runtime : ModuleHost demo_protocol Runtime := {
  host_modules h := (Ok (runtime_module <$> map_to_list h), h);
  host_backup m h := (match h !! m with
                      | Some (man, c) => if bool_decide (m_id man = m) then Ok (Some (man, c)) else Err tt
                      | None => Ok None end, h);
  host_stop _ h := (Ok tt, h);
  host_activate b h := (Ok tt, <[m_id (b_manifest b) := (b_manifest b, b_archive b)]> h);
  host_remove m h := (Ok tt, delete m h);
  host_migrate ms h := (Ok [], h);
  host_start _ h := (Ok tt, h);
  host_roll _ h := (Ok tt, h);
  host_healthy m h := (match h !! m with
                       | Some (man, _) => if major (m_version man) =? 13 then Err tt else Ok tt
                       | None => Ok tt end, h);
}.

#[export] Instance demo_runtime_laws : ModuleHostLaws demo_protocol Runtime demo_runtime.
Proof.
  refine (mkHostLaws _ _ _ (list Z) id id id _ _ _ _ _ _ _ _ _ _); try done.
  intros m h. cbn. destruct (h !! m) as [[man c]|] eqn:Hm; cbn; [|done]. case_bool_decide; [by exists c|done].
Defined.

Definition demo_manifest (n : string) (v digest : Z) : ModuleManifest :=
  mkManifest n (mkVersion v 0 0 [] []) None None None [] None
    (mkArtifact [] (mkChecksum Sha256 [digest]) None None) placeholder_signature [] [] None.

#[export] Instance demo_signed : SignedManifests demo_protocol :=
  mkManifests demo_protocol (text * list TargetModule) fst (λ _, "athenos") snd (λ _, 0 : Z) (λ _, "stable") (λ _, "key").

(** A distribution of one module ["web"], whose bundle is [bytes]. *)
Definition one_module (i : string) (n : string) (v : Z) (bytes : list Z) : VerifiedDistribution :=
  mkVerified (lit i, [mkTarget n "*" v "any" (digest_of bytes) (Z.of_nat (length bytes)) false (mkRequires None []) None]) [].
Definition demo_inspect (_ : list Z) : result BundleInfo DepotError := Ok (mkInfo None []).
Definition depot_of (bytes : list Z) : BlobSource := λ _ _, ([bytes], None).

Definition install (now : string) (d : VerifiedDistribution) (bytes : list Z) : M Runtime Outcome :=
  p <- prepare_verified demo_inspect (depot_of bytes) d false;; execute (lit now) p.

Definition fresh_world (h : Runtime) : World Runtime := mkWorld false None ∅ ∅ [] h.
Definition host_with (n : string) (v : Z) (bytes : list Z) : Runtime :=
  {[ n := (demo_manifest n v (digest_of bytes), bytes) ]}.

Lemma demo_host_nodup h l h' : host_modules (H := Runtime) h = (Ok l, h') -> NoDup (h_name <$> l).
Proof.
  cbn. intros [= <- <-]. rewrite <- list_fmap_compose. apply (NoDup_fst_map_to_list h).
Qed.

Lemma one_module_nodup i n v bytes : NoDup (name <$> target_modules (one_module i n v bytes)).
Proof. cbn. apply NoDup_singleton. Qed.

(** Running a computation whose result satisfies a test. *)
Lemma run_ok {A} (m : M Runtime A) (w : World Runtime) (t : A -> World Runtime -> bool) :
  match m w with (Ok a, w') => t a w' | _ => false end = true -> exists a w', m w = (Ok a, w') /\ t a w' = true.
Proof. destruct (m w) as [[a|e] w']; [eauto|done]. Qed.

Definition is_rolled_back {A} (r : result A DepotError) : bool :=
  match r with Err (EInstall true) => true | _ => false end.
Lemma is_rolled_back_true {A} (r : result A DepotError) : is_rolled_back r = true -> r = Err (EInstall true).
Proof. by destruct r as [|[| | | | | | | | |[]]]. Qed.

(** Preparing version 13 of ["web"] (which will not become healthy) on a
    host that runs version 1. *)
Definition sick_release : VerifiedDistribution := one_module "athenos-13" "web" 13 [7; 8].
Definition prepare_sick : M Runtime Prepared := prepare_verified demo_inspect (depot_of [7; 8]) sick_release false.

Lemma execute_transactional_witness :
  exists p w1, prepare_sick (fresh_world (host_with "web" 1 [5])) = (Ok p, w1)
    /\ (execute (lit "t1") p w1).1 = Err (EInstall true)
    /\ executed (lit "t1") p w1 (execute (lit "t1") p w1).
Proof.
  destruct (run_ok prepare_sick (fresh_world (host_with "web" 1 [5]))
    (λ p w1, is_installable p && is_rolled_back (execute (lit "t1") p w1).1)) as (p & w1 & Hp & Ht);
    [vm_compute; reflexivity|].
  apply andb_prop in Ht as [Hok Hex%is_rolled_back_true]. exists p, w1. split_and!; [exact Hp|exact Hex|].
  apply (execute_transactional (lit "t1") p w1).
  exact (proj1 (prepare_verified_ok _ _ _ _ _ _ _ (one_module_nodup _ _ _ _) demo_host_nodup Hp Hok)).
Defined.

Lemma execute_excluded_witness :
  exists e, (execute (SM := demo_signed) (H := Runtime) (lit "t1")
      (mkPrepared (IModule (demo_target "web" 2 []) [])
         (mkPlan [] [] []) ∅ 0) (set_lock (fresh_world ∅) true)).1 = Err e
    /\ (e = ERefused \/ e = EIo).
Proof.
  destruct (execute_excluded (SM := demo_signed) (H := Runtime) (lit "t1")
      (mkPrepared (IModule (demo_target "web" 2 []) [])
         (mkPlan [] [] []) ∅ 0) (set_lock (fresh_world ∅) true) eq_refl) as (e & He & Hk & _).
  exists e. split; [exact He|exact Hk].
Defined.

Definition good_release : VerifiedDistribution := one_module "athenos-2" "web" 2 [7; 8].
Definition prepare_good : M Runtime Prepared := prepare_verified demo_inspect (depot_of [7; 8]) good_release false.

Lemma installed_bytes_are_signed_witness :
  exists p w1 out w2 e, prepare_good (fresh_world (host_with "web" 1 [5])) = (Ok p, w1)
    /\ execute (lit "t1") p w1 = (Ok out, w2) /\ e ∈ plan_changes (plan p)
    /\ installed_signed good_release (view (w_host w2)) e.
Proof.
  destruct (run_ok prepare_good (fresh_world (host_with "web" 1 [5]))
    (λ p w1, match execute (lit "t1") p w1, plan_changes (plan p) with (Ok _, _), _ :: _ => true | _, _ => false end))
    as (p & w1 & Hp & Ht); [vm_compute; reflexivity|].
  destruct (execute (lit "t1") p w1) as [[out|] w2] eqn:Hex; [|discriminate].
  destruct (plan_changes (plan p)) as [|e es] eqn:Hch; [discriminate|].
  assert (He : e ∈ plan_changes (plan p)) by (rewrite Hch; left).
  exists p, w1, out, w2, e. split_and!; [exact Hp|exact Hex|exact He|].
  exact (installed_bytes_are_signed demo_inspect _ _ _ _ _ _ _ _ _ _ (one_module_nodup _ _ _ _) demo_host_nodup Hp Hex e He).
Defined.

(** ** Rolling back a reinstall *)

(** Install ["athenos-2"] over ["athenos-1"], replace the files of ["web"]
    by hand, install ["athenos-2"] again (which replaces them by the signed
    ones), roll back. *)
Definition reinstall_and_roll_back : M Runtime (option Outcome) :=
  install "t1" (one_module "athenos-1" "web" 1 [5]) [5];;;
  install "t2" (one_module "athenos-2" "web" 2 [7; 8]) [7; 8];;;
  modify (λ w, set_host w (host_with "web" 2 [9; 9]));;;
  install "t3" (one_module "athenos-2" "web" 2 [7; 8]) [7; 8];;;
  o <- prepare_restore;;
  match o with
  | Some p => out <- execute (lit "t4") p;; ret (Some out)
  | None => ret None
  end.

Definition current_id (w : World Runtime) : option text :=
  match w_state w with Some (FParsed st) => d_id <$> current st | _ => None end.
Definition web_version (w : World Runtime) : option Z := (λ mc, major (m_version mc.1)) <$> w_host w !! "web".

(** after a reinstall of the current distribution that changed
    something, [rollback] restores the files from before the reinstall (the
    same distribution) but records the distribution before it as current:
    the state names ["athenos-1"] while version 2 of ["web"] is installed. *)
Theorem rollback_after_reinstall_misrecords :
  exists out w', reinstall_and_roll_back (fresh_world ∅) = (Ok (Some out), w')
    /\ current_id w' = Some (lit "athenos-1") /\ web_version w' = Some 2.
Proof.
  destruct (run_ok reinstall_and_roll_back (fresh_world ∅)
    (λ o w', match o, current_id w', web_version w' with
             | Some _, Some i, Some v => bool_decide (i = lit "athenos-1") && (v =? 2)
             | _, _, _ => false end)) as (o & w' & Hr & Ht); [vm_compute; reflexivity|].
  destruct o as [out|]; [|discriminate Ht]. exists out, w'. split; [exact Hr|]. clear Hr.
  destruct (current_id w') as [i|]; [|discriminate Ht]. destruct (web_version w') as [v|]; [|discriminate Ht].
  apply andb_prop in Ht as [Hi%bool_decide_eq_true_1 Hv%Z.eqb_eq]. rewrite Hi, Hv. split; reflexivity.
Qed.

(** ** An automatic rollback that stops half-way *)

(** A runtime that knows which modules run, whose activation of version 13
    fails, and whose removal fails for a module that is not installed, as
    [ModuleService::uninstall] does ([services/module/service.rs]). *)
Record Strict := mkStrict { s_mods : gmap string (ModuleManifest * list Z); s_running : gset string }.

#[export] Instance strict_runtime : ModuleHost demo_protocol Strict := {
  host_modules h := (Ok ((λ kv, mkHostModule (P := demo_protocol) kv.1 (major (m_version kv.2.1) : Z)
                            (hash (checksum (m_artifact kv.2.1))) false (bool_decide (kv.1 ∈ s_running h)) 1 [])
                         <$> map_to_list (s_mods h)), h);
  host_backup m h := (Ok (s_mods h !! m), h);
  host_stop m h := (Ok tt, mkStrict (s_mods h) (s_running h ∖ {[m]}));
  host_activate b h :=
    if major (m_version (b_manifest b)) =? 13 then (Err tt, h)
    else (Ok tt, mkStrict (<[m_id (b_manifest b) := (b_manifest b, b_archive b)]> (s_mods h)) (s_running h));
  host_remove m h :=
    if bool_decide (is_Some (s_mods h !! m)) then (Ok tt, mkStrict (delete m (s_mods h)) (s_running h)) else (Err tt, h);
  host_migrate _ h := (Ok [], h);
  host_start ms h := (Ok tt, mkStrict (s_mods h) (s_running h ∪ list_to_set ms));
  host_roll _ h := (Ok tt, h);
  host_healthy _ h := (Ok tt, h);
}.

(** A release that updates ["app"] (to the version that does not activate)
    and brings the new module ["new"]. *)
Definition bad_release : VerifiedDistribution :=
  mkVerified (SM := demo_signed) (lit "athenos-13",
    [mkTarget (P := demo_protocol) "app" "*" (13 : Z) "any" (7 : Z) 1 false (mkRequires None []) None;
     mkTarget (P := demo_protocol) "new" "*" (1 : Z) "any" (8 : Z) 1 false (mkRequires None []) None]) [].
Definition install_bad : M Strict Outcome :=
  p <- prepare_verified demo_inspect (λ d _, ([[d : Z]], None)) bad_release false;; execute (lit "t1") p.
Definition strict_world : World Strict :=
  mkWorld false None ∅ ∅ [] (mkStrict (host_with "app" 1 [5]) {["app"]}).

(** when an install that brings a new module fails before that module is
    activated, the automatic rollback removes a module that is not there,
    fails on it and never starts the modules it stopped: ["app"] is back at
    its old version, but does not run, and the error says the rollback did
    not complete. *)
Theorem rollback_stops_at_absent_module :
  "app" ∈ s_running (w_host strict_world)
  /\ (install_bad strict_world).1 = Err (EInstall false)
  /\ (λ mc, major (m_version mc.1)) <$> s_mods (w_host (install_bad strict_world).2) !! "app" = Some 1
  /\ "app" ∉ s_running (w_host (install_bad strict_world).2).
Proof.
  split_and!.
  - apply (bool_decide_unpack _). vm_compute. exact I.
  - vm_compute. reflexivity.
  - vm_compute. reflexivity.
  - apply (bool_decide_unpack _). vm_compute. exact I.
Qed.
