(* ===== verification/DepotHost.v ===== *)
(** * Start order of installed modules: [ModuleServiceHost::start] of
    [services/depot/host.rs]

    Dependencies first within the modules to start, the rest in name order
    when they form a cycle.  [placed] and [order] of the source hold the same
    names, so one list stands for both.  Every round of the [while] loop
    places at least one name, so [length wanted] rounds are enough. *)

From S2P Require Import Prelude Text Versions Manifests.

(** [modules.iter().collect::<BTreeSet<_>>()], in iteration order. *)
Definition btree_set (l : list string) : list string :=
  merge_sort String.le (elements (list_to_set l : gset string)).

Section StartOrder.
Context (wanted : list string) (installed : list ModuleManifest).

(** [deps_ready]: the wanted dependencies of [n] are placed. *)
Definition deps_of (n : string) : list string :=
  match List.find (λ m, bool_decide (m_id m = n)) installed with
  | Some m => dependency_id <$> m_dependencies m
  | None => []
  end.
Definition deps_ready (placed : list string) (n : string) : bool :=
  forallb (λ d, negb (bool_decide (d ∈ wanted)) || bool_decide (d ∈ placed)) (deps_of n).

Definition place (placed : list string) (n : string) : list string :=
  if bool_decide (n ∈ placed) then placed
  else if deps_ready placed n then (placed ++ [n]) else placed.
Definition force (placed : list string) (n : string) : list string :=
  if bool_decide (n ∈ placed) then placed else (placed ++ [n]).

Fixpoint rounds (fuel : nat) (placed : list string) : list string :=
  match fuel with
  | O => placed
  | S fuel =>
      if Nat.ltb (length placed) (length wanted) then
        let after := foldl place placed wanted in
        let after := if Nat.eqb (length after) (length placed) then foldl force after wanted else after in
        rounds fuel after
      else placed
  end.
Definition order_of : list string := rounds (length wanted) [].

(** ** Every module once *)

Definition placed_ok (l : list string) : Prop := NoDup l /\ l ⊆ wanted.

Lemma place_cases l n : place l n = l \/ (place l n = l ++ [n] /\ ~ n ∈ l /\ deps_ready l n = true).
Proof. unfold place. case_bool_decide; [by left|]. destruct (deps_ready l n) eqn:E; [by right|by left]. Qed.

Lemma snoc_ok l n : placed_ok l -> n ∈ wanted -> n ∉ l -> placed_ok (l ++ [n]).
Proof.
  intros [Hn Hs] Hw Hl. split; [|set_solver]. apply NoDup_app. split_and!; [done|set_solver|apply NoDup_singleton].
Qed.

Lemma place_all_ok ns l :
  ns ⊆ wanted -> placed_ok l -> placed_ok (foldl place l ns) /\ l `prefix_of` foldl place l ns.
Proof.
  revert l. induction ns as [|n ns IH]; intros l Hns Hl; cbn; [done|].
  assert (Hp : placed_ok (place l n) /\ l `prefix_of` place l n).
  { destruct (place_cases l n) as [->|(-> & Hn & _)]; [done|]. split; [|by eexists]. apply snoc_ok; set_solver. }
  destruct Hp as [Hp1 Hp2]. destruct (IH (place l n)) as [H1 H2]; [set_solver|done|]. split; [done|]. by etrans.
Qed.

Lemma force_all_ok ns l :
  ns ⊆ wanted -> placed_ok l -> placed_ok (foldl force l ns) /\ l `prefix_of` foldl force l ns /\ ns ⊆ foldl force l ns.
Proof.
  revert l. induction ns as [|n ns IH]; intros l Hns Hl; cbn; [set_solver|].
  assert (Hp : placed_ok (force l n) /\ l `prefix_of` force l n /\ n ∈ force l n).
  { unfold force. case_bool_decide; [done|]. split_and!; [apply snoc_ok; set_solver|by eexists|set_solver]. }
  destruct Hp as (Hp1 & Hp2 & Hp3). destruct (IH (force l n)) as (H1 & H2 & H3); [set_solver|done|].
  split_and!; [done|by etrans|]. intros x [->|Hx]%elem_of_cons; [|by apply H3].
  destruct H2 as [k ->]. set_solver.
Qed.

Lemma placed_bound l : placed_ok l -> (length l <= length wanted)%nat.
Proof. intros [Hn Hs]. apply submseteq_length, NoDup_submseteq; done. Qed.

Lemma placed_full l : placed_ok l -> NoDup wanted -> (length wanted <= length l)%nat -> l ≡ₚ wanted.
Proof.
  intros [Hn Hs] Hw Hl. apply submseteq_length_Permutation; [|done]. by apply NoDup_submseteq.
Qed.

(** One round of the loop. *)
Definition round (l : list string) : list string :=
  let after := foldl place l wanted in
  if Nat.eqb (length after) (length l) then foldl force after wanted else after.

Lemma round_ok l : placed_ok l -> (length l < length wanted)%nat -> NoDup wanted ->
  placed_ok (round l) /\ (length l < length (round l))%nat.
Proof.
  intros Hl Hlt Hw. unfold round. destruct (place_all_ok wanted l) as [H1 H2]; [done|done|].
  destruct (Nat.eqb_spec (length (foldl place l wanted)) (length l)) as [E|E].
  - destruct (force_all_ok wanted (foldl place l wanted)) as (H3 & H4 & H5); [done|done|]. split; [done|].
    assert (length wanted <= length (foldl force (foldl place l wanted) wanted))%nat; [|lia].
    by apply submseteq_length, NoDup_submseteq.
  - split; [done|]. apply prefix_length in H2. lia.
Qed.

Lemma rounds_step fuel l : (length l < length wanted)%nat -> rounds (S fuel) l = rounds fuel (round l).
Proof.
  intros Hl%Nat.ltb_lt. change (rounds (S fuel) l) with (if (length l <? length wanted)%nat then rounds fuel (round l) else l).
  by rewrite Hl.
Qed.

Lemma rounds_all fuel l :
  NoDup wanted -> placed_ok l -> (length wanted <= length l + fuel)%nat -> rounds fuel l ≡ₚ wanted.
Proof.
  intros Hw. revert l. induction fuel as [|fuel IH]; intros l Hl Hf.
  - cbn. apply placed_full; [done|done|lia].
  - destruct (decide (length l < length wanted)%nat) as [Hlt|Hge].
    + rewrite rounds_step by done. destruct (round_ok l) as [H1 H2]; [done..|]. apply IH; [done|lia].
    + change (rounds (S fuel) l) with (if (length l <? length wanted)%nat then rounds fuel (round l) else l).
      assert (Nat.ltb (length l) (length wanted) = false) as -> by (apply Nat.ltb_ge; lia). apply placed_full; [done|done|lia].
Qed.

(** ** Dependencies first *)

Definition ordered (l : list string) : Prop :=
  forall i n d, l !! i = Some n -> d ∈ deps_of n -> d ∈ wanted -> d ∈ take i l.

Lemma deps_ready_iff l n : deps_ready l n = true <-> forall d, d ∈ deps_of n -> d ∈ wanted -> d ∈ l.
Proof.
  unfold deps_ready. rewrite forallb_forall. split.
  - intros Hf d Hd Hw. apply list_elem_of_In, Hf in Hd. rewrite bool_decide_eq_true_2 in Hd by done. by apply bool_decide_eq_true_1 in Hd.
  - intros Hf d Hd%list_elem_of_In. destruct (decide (d ∈ wanted)) as [Hw|Hw].
    + rewrite (bool_decide_eq_true_2 (d ∈ l)) by auto. by rewrite orb_true_r.
    + by rewrite bool_decide_eq_false_2.
Qed.

Lemma place_ordered l n : ordered l -> ordered (place l n).
Proof.
  intros Ho. destruct (place_cases l n) as [->|(-> & _ & Hr)]; [done|]. intros i m d Hi Hd Hw.
  apply lookup_app_Some in Hi as [Hi|[Hlen Hi]].
  - rewrite take_app_le by (apply lookup_lt_Some in Hi; lia). by eapply Ho.
  - apply list_lookup_singleton_Some in Hi as [Hz ->]. rewrite take_app_ge by done.
    assert (d ∈ l); [|set_solver]. by eapply deps_ready_iff.
Qed.

Lemma places_ordered ns l : ordered l -> ordered (foldl place l ns).
Proof. revert l. induction ns as [|n ns IH]; intros l Ho; cbn; [done|]. by apply IH, place_ordered. Qed.

Lemma placed_in_round ns l n : n ∈ ns -> deps_ready l n = true -> n ∈ foldl place l ns.
Proof.
  assert (Hmono : forall ns l x, x ∈ l -> x ∈ foldl place l ns).
  { clear. induction ns as [|m ns IH]; intros l x Hx; cbn; [done|]. apply IH. destruct (place_cases l m) as [->|(-> & _)]; set_solver. }
  revert l. induction ns as [|m ns IH]; intros l Hn Hr; [set_solver|]. cbn.
  destruct (decide (n = m)) as [->|Hne].
  - apply Hmono. unfold place. case_bool_decide; [done|]. rewrite Hr. set_solver.
  - apply IH; [set_solver|]. rewrite deps_ready_iff in *. intros d Hd Hw. specialize (Hr d Hd Hw).
    destruct (place_cases l m) as [->|(-> & _)]; set_solver.
Qed.

Section Acyclic.
Context (rank : string -> nat).
Hypothesis rank_deps : forall n d, n ∈ wanted -> d ∈ deps_of n -> d ∈ wanted -> (rank d < rank n)%nat.

(** A module whose dependencies are placed, if any is left. *)
Lemma next_ready l n : n ∈ wanted -> ~ n ∈ l -> exists m, m ∈ wanted /\ ~ m ∈ l /\ deps_ready l m = true.
Proof.
  remember (rank n) as k eqn:Hk. revert n Hk. induction (lt_wf k) as [k _ IH]. intros n -> Hw Hn.
  destruct (decide (Exists (λ d, d ∈ wanted /\ ~ d ∈ l) (deps_of n))) as [He|He].
  - apply Exists_exists in He as (d & Hd & Hdw & Hdl). apply (IH (rank d)) with (n := d); auto.
  - exists n. split_and!; try done. apply deps_ready_iff. intros d Hd Hdw. destruct (decide (d ∈ l)); [done|].
    destruct He. apply Exists_exists. eauto.
Qed.

Lemma round_places l : NoDup wanted -> placed_ok l -> ordered l -> (length l < length wanted)%nat ->
  round l = foldl place l wanted.
Proof.
  intros Hw Hl Ho Hlt. unfold round. destruct (Nat.eqb_spec (length (foldl place l wanted)) (length l)) as [E|]; [|done].
  exfalso. destruct (place_all_ok wanted l) as [H1 [k Hk]]; [done|done|]. rewrite Hk, length_app in E.
  assert (k = []) as -> by (destruct k; [done|cbn in E; lia]). rewrite app_nil_r in Hk.
  assert (exists n, n ∈ wanted /\ ~ n ∈ l) as (n & Hn & Hnl).
  { destruct (decide (Exists (λ n, ~ n ∈ l) wanted)) as [He|He]; [by apply Exists_exists in He|].
    assert (wanted ⊆ l) as Hsub.
    { intros x Hx. destruct (decide (x ∈ l)); [done|]. destruct He. apply Exists_exists. eauto. }
    apply NoDup_submseteq, submseteq_length in Hsub; [lia|done]. }
  destruct (next_ready l n Hn Hnl) as (m & Hm & Hml & Hr). apply Hml. rewrite <- Hk. by apply placed_in_round.
Qed.

Lemma rounds_ordered fuel l : NoDup wanted -> placed_ok l -> ordered l -> ordered (rounds fuel l).
Proof.
  intros Hw. revert l. induction fuel as [|fuel IH]; intros l Hl Ho; [done|].
  destruct (decide (length l < length wanted)%nat) as [Hlt|Hge].
  - rewrite rounds_step by done. destruct (round_ok l) as [H1 _]; [done..|]. apply IH; [done|].
    rewrite round_places by done. by apply places_ordered.
  - change (rounds (S fuel) l) with (if (length l <? length wanted)%nat then rounds fuel (round l) else l).
    by assert (Nat.ltb (length l) (length wanted) = false) as -> by (apply Nat.ltb_ge; lia).
Qed.
End Acyclic.
End StartOrder.

(** [start]: the modules in the order in which they are started. *)
Definition start_order (modules : list string) (installed : list ModuleManifest) : list string :=
  order_of (btree_set modules) installed.

Lemma btree_set_nodup l : NoDup (btree_set l).
Proof. unfold btree_set. rewrite merge_sort_Permutation. apply NoDup_elements. Qed.

Lemma btree_set_elem l x : x ∈ btree_set l <-> x ∈ l.
Proof. unfold btree_set. by rewrite merge_sort_Permutation, elem_of_elements, elem_of_list_to_set. Qed.

(** [start] tries every requested module exactly once, cycles or not;
    when the dependencies among them are acyclic, a module is started after
    all of its requested dependencies. *)
Theorem start_order_correct (modules : list string) (installed : list ModuleManifest) :
  NoDup (start_order modules installed)
  /\ (forall m, m ∈ start_order modules installed <-> m ∈ modules)
  /\ forall rank : string -> nat,
       (forall n d, n ∈ modules -> d ∈ deps_of installed n -> d ∈ modules -> (rank d < rank n)%nat) ->
       forall i n d, start_order modules installed !! i = Some n -> d ∈ deps_of installed n -> d ∈ modules ->
         d ∈ take i (start_order modules installed).
Proof.
  pose proof (btree_set_nodup modules) as Hn.
  assert (Hok : placed_ok (btree_set modules) []) by (split; [constructor|set_solver]).
  assert (Hp : start_order modules installed ≡ₚ btree_set modules) by (apply rounds_all; [done|done|cbn; lia]).
  split_and!.
  - by rewrite Hp.
  - intros m. by rewrite Hp, btree_set_elem.
  - intros rank Hr i n d Hi Hd Hm.
    assert (Ho : ordered (btree_set modules) installed (start_order modules installed)).
    { apply rounds_ordered with (rank := rank); [|done|done|by intros ???].
      intros n' d' Hn' Hd' Hw. rewrite btree_set_elem in Hn', Hw. by apply Hr. }
    apply (Ho i n d Hi Hd). by rewrite btree_set_elem.
Qed.

Definition demo_module (n : string) (deps : list string) : ModuleManifest :=
  mkManifest n (mkVersion 1 0 0 [] []) None None None [] None (mkArtifact [] (mkChecksum Sha256 []) None None)
    (mkSignature Ed25519 EmptyString EmptyString) (DepId <$> deps) [] None.

Definition demo_start : list string := ["app"; "web"; "db"].
Definition demo_manifests : list ModuleManifest :=
  [demo_module "app" ["web"; "db"]; demo_module "web" ["db"]; demo_module "db" ["cache"]].
Definition demo_rank (s : string) : nat := if bool_decide (s = "app") then 2 else if bool_decide (s = "web") then 1 else 0.

Lemma demo_acyclic :
  Forall (λ n, Forall (λ d, d ∈ demo_start -> (demo_rank d < demo_rank n)%nat) (deps_of demo_manifests n)) demo_start.
Proof. apply (bool_decide_unpack _). vm_compute. exact I. Qed.

Lemma start_order_correct_witness :
  start_order demo_start demo_manifests = ["db"; "web"; "app"]
  /\ "db" ∈ take 2 (start_order demo_start demo_manifests).
Proof.
  split; [vm_compute; reflexivity|].
  apply (proj2 (proj2 (start_order_correct demo_start demo_manifests)) demo_rank) with (n := "app").
  - intros n d Hn Hd Hm. pose proof (proj1 (Forall_forall _ _) demo_acyclic n Hn) as Hf.
    exact (proj1 (Forall_forall _ _) Hf d Hd Hm).
  - vm_compute. reflexivity.
  - apply (bool_decide_unpack _). vm_compute. exact I.
  - apply (bool_decide_unpack _). vm_compute. exact I.
Defined.
