(* ===== verification/Schema.v ===== *)
(** * Schema plans ([services/db_schema/mod.rs], [services/db_schema/diff.rs])

    Blueprints of a database and the plan [diff] makes to turn the current
    one into the desired one.  The operations of a plan are given a meaning
    on schemas ([run_ops]), and the plan is proved to reach the desired
    schema.  A [HashMap] that is iterated has an arbitrary order: the class
    [HashOrder]. *)

From S2P Require Import Prelude.

Inductive DbEngine := Postgres | Mysql | Sqlite | Mongodb.
Inductive DbTableKind := Table | View | MaterializedView | Index | OtherKind.
#[global] Instance kind_dec : EqDecision DbTableKind.
Proof. solve_decision. Defined.

Record ColumnBlueprint := mkColumn {
  c_name : string;
  data_type : string;
  nullable : bool;
  default_value : option string;
  is_primary : bool;
  references : option string;
}.
Record TableBlueprint := mkTable { t_name : string; columns : list ColumnBlueprint; kind : DbTableKind }.
Record DatabaseBlueprint := mkDatabase { engine : DbEngine; tables : list TableBlueprint }.

Inductive MigrationOp :=
| CreateTable (t : TableBlueprint)
| DropTable (name : string)
| AddColumn (table : string) (column : ColumnBlueprint)
| DropColumn (table column : string)
| AlterColumn (table column : string) (new_type : option string) (new_nullable : option bool) (new_default : option (option string))
| AddForeignKey (table column target : string)
| DropForeignKey (table column : string).

Record SchemaMigrationPlan := mkPlan { plan_engine : DbEngine; operations : list MigrationOp }.

(** ** The diff *)

Class HashOrder := {
  iter : forall {A : Type}, gmap string A -> list (string * A);
  iter_perm : forall {A} (m : gmap string A), iter m ≡ₚ map_to_list m;
}.

(** [collect::<HashMap<_, _>>()]: of equal keys the last one stays. *)
Definition collect {A} (l : list (string * A)) : gmap string A := foldl (λ m e, <[e.1 := e.2]> m) ∅ l.

Definition diff_column (table : string) (desired current : ColumnBlueprint) : list MigrationOp :=
  let new_type := if bool_decide (data_type desired = data_type current) then None else Some (data_type desired) in
  let new_nullable := if bool_decide (nullable desired = nullable current) then None else Some (nullable desired) in
  let new_default := if bool_decide (default_value desired = default_value current) then None else Some (default_value desired) in
  match new_type, new_nullable, new_default with
  | None, None, None => []
  | _, _, _ => [AlterColumn table (c_name desired) new_type new_nullable new_default]
  end.

(** The loop over the desired columns, with the map of the current ones. *)
Fixpoint diff_columns (table : string) (desired : list ColumnBlueprint) (current : gmap string ColumnBlueprint)
    : list MigrationOp * gmap string ColumnBlueprint :=
  match desired with
  | [] => ([], current)
  | dc :: desired =>
      let ops := match current !! c_name dc with
                 | Some cc => diff_column table dc cc
                 | None => [AddColumn table dc]
                 end in
      let (rest, current) := diff_columns table desired (delete (c_name dc) current) in (ops ++ rest, current)
  end.

Fixpoint diff_keys (table : string) (desired : list ColumnBlueprint) (current_fk : gmap string string)
    : list MigrationOp * gmap string string :=
  match desired with
  | [] => ([], current_fk)
  | dc :: desired =>
      match references dc with
      | None => diff_keys table desired current_fk
      | Some target =>
          let ops := match current_fk !! c_name dc with
                     | Some existing => if bool_decide (existing = target) then [] else [AddForeignKey table (c_name dc) target]
                     | None => [AddForeignKey table (c_name dc) target]
                     end in
          let (rest, current_fk) := diff_keys table desired (delete (c_name dc) current_fk) in (ops ++ rest, current_fk)
      end
  end.

Definition keys_of (cols : list ColumnBlueprint) : list (string * string) :=
  omap (λ c, (λ r, (c_name c, r)) <$> references c) cols.

Section Diff.
Context {HO : HashOrder}.

Definition diff_table (desired current : TableBlueprint) : list MigrationOp :=
  if negb (bool_decide (kind desired = kind current)) then [DropTable (t_name current); CreateTable desired]
  else
    let (ops, current_cols) := diff_columns (t_name desired) (columns desired) (collect ((λ c, (c_name c, c)) <$> columns current)) in
    let drops := (λ e, DropColumn (t_name desired) e.1) <$> iter current_cols in
    let (fks, current_fk) := diff_keys (t_name desired) (columns desired) (collect (keys_of (columns current))) in
    let fk_drops := (λ e, DropForeignKey (t_name desired) e.1) <$> iter current_fk in
    ops ++ drops ++ fks ++ fk_drops.

Fixpoint diff_tables (desired : list TableBlueprint) (current : gmap string TableBlueprint)
    : list MigrationOp * gmap string TableBlueprint :=
  match desired with
  | [] => ([], current)
  | dt :: desired =>
      let ops := match current !! t_name dt with
                 | Some ct => diff_table dt ct
                 | None => [CreateTable dt]
                 end in
      let (rest, current) := diff_tables desired (delete (t_name dt) current) in (ops ++ rest, current)
  end.

Definition diff (desired current : DatabaseBlueprint) : SchemaMigrationPlan :=
  let (ops, rest) := diff_tables (tables desired) (collect ((λ t, (t_name t, t)) <$> tables current)) in
  mkPlan (engine desired) (ops ++ ((λ e, DropTable e.1) <$> iter rest)).
End Diff.

(** ** Operations on keyed state

    Tables by name, and columns of a table by name, change independently:
    an operation reads and writes the entry of its key. *)

Section Keyed.
Context {A Op : Type} (key : Op -> string) (step : option A -> Op -> option (option A)).

Fixpoint run1 (o : option A) (ops : list Op) : option (option A) :=
  match ops with [] => Some o | op :: ops => o ← step o op; run1 o ops end.
Fixpoint run (m : gmap string A) (ops : list Op) : option (gmap string A) :=
  match ops with
  | [] => Some m
  | op :: ops => o ← step (m !! key op) op; run (put (key op) o m) ops
  end.

Lemma lookup_put (m : gmap string A) k o k' : put k o m !! k' = if decide (k = k') then o else m !! k'.
Proof.
  unfold put. destruct o as [x|], (decide (k = k')) as [->|]; rewrite ?lookup_insert_eq, ?lookup_insert_ne, ?lookup_delete_eq, ?lookup_delete_ne by done; done.
Qed.

(** The run on the map is the run of every key's own operations. *)
Lemma run_keyed ops m (f : string -> option A) :
  (forall k, run1 (m !! k) (base.filter (λ op, key op = k) ops) = Some (f k)) -> exists m', run m ops = Some m' /\ forall k, m' !! k = f k.
Proof.
  revert m. induction ops as [|op ops IH]; intros m Hf; cbn [run].
  - exists m. split; [done|]. intros k. specialize (Hf k). cbn in Hf. congruence.
  - pose proof (Hf (key op)) as Hop. rewrite filter_cons_True in Hop by done. cbn [run1] in Hop.
    destruct (step (m !! key op) op) as [o|] eqn:Eo; [|done]. cbn in Hop |- *. apply IH. intros k. rewrite lookup_put.
    destruct (decide (key op = k)) as [<-|Hne]; [done|]. specialize (Hf k). by rewrite filter_cons_False in Hf by done.
Qed.

Lemma run1_app o ops1 ops2 : run1 o (ops1 ++ ops2) = o' ← run1 o ops1; run1 o' ops2.
Proof. revert o. induction ops1 as [|op ops1 IH]; intros o; cbn; [done|]. destruct (step o op); cbn; [apply IH|done]. Qed.

(** The operations of a key among blocks of operations. *)
Lemma filter_block k k' ops : Forall (λ op, key op = k') ops -> base.filter (λ op, key op = k) ops = if decide (k' = k) then ops else [].
Proof.
  induction 1 as [|op ops Hop _ IH]; [by destruct (decide _)|]. destruct (decide (k' = k)) as [->|Hne].
  - rewrite filter_cons_True by done. by rewrite IH.
  - rewrite filter_cons_False by congruence. exact IH.
Qed.

Lemma filter_blocks {X} (name : X -> string) (block : X -> list Op) xs k :
  NoDup (name <$> xs) -> (forall x, x ∈ xs -> Forall (λ op, key op = name x) (block x)) ->
  base.filter (λ op, key op = k) (concat (block <$> xs)) = match find (λ x, bool_decide (name x = k)) xs with Some x => block x | None => [] end.
Proof.
  induction xs as [|x xs IH]; intros Hnd Hb; [done|]. cbn in Hnd. apply NoDup_cons in Hnd as [Hx Hnd]. cbn [fmap list_fmap concat find].
  rewrite filter_app, (filter_block k (name x)) by (apply Hb; set_solver). rewrite IH by (done || intros y Hy; apply Hb; set_solver).
  destruct (decide (name x = k)) as [Heq|Hne].
  - rewrite (bool_decide_eq_true_2 _ Heq). destruct (find _ xs) as [y|] eqn:E; [|apply app_nil_r]. exfalso.
    apply find_some in E as [Hy Hk]. boolify. apply Hx. rewrite Heq, <- Hk. apply list_elem_of_fmap_2. by apply list_elem_of_In.
  - by rewrite (bool_decide_eq_false_2 _ Hne).
Qed.
End Keyed.

(** ** Schemas, and what the operations of a plan do to them

    A column of a schema has a set of foreign keys: nothing in a plan keeps
    a column from getting a second one. *)

Record SCol := mkSCol { s_type : string; s_nullable : bool; s_default : option string; s_primary : bool; s_refs : gset string }.
Record STable := mkSTable { s_kind : DbTableKind; s_cols : gmap string SCol }.
Definition Schema := gmap string STable.

Definition col_of (c : ColumnBlueprint) : SCol :=
  mkSCol (data_type c) (nullable c) (default_value c) (is_primary c) (match references c with Some r => {[r]} | None => ∅ end).
Definition table_of (t : TableBlueprint) : STable := mkSTable (kind t) (collect ((λ c, (c_name c, col_of c)) <$> columns t)).
Definition schema_of (d : DatabaseBlueprint) : Schema := collect ((λ t, (t_name t, table_of t)) <$> tables d).

Definition op_table (op : MigrationOp) : string :=
  match op with
  | CreateTable t => t_name t
  | DropTable t | AddColumn t _ | DropColumn t _ | AlterColumn t _ _ _ _ | AddForeignKey t _ _ | DropForeignKey t _ => t
  end.
Definition op_column (op : MigrationOp) : string :=
  match op with
  | CreateTable _ | DropTable _ => EmptyString
  | AddColumn _ c => c_name c
  | DropColumn _ c | AlterColumn _ c _ _ _ | AddForeignKey _ c _ | DropForeignKey _ c => c
  end.
Definition is_col_op (op : MigrationOp) : bool := match op with CreateTable _ | DropTable _ => false | _ => true end.

(** The effect on one column; [None] is a statement the database refuses. *)
Definition col_step (o : option SCol) (op : MigrationOp) : option (option SCol) :=
  match op, o with
  | AddColumn _ c, None => Some (Some (mkSCol (data_type c) (nullable c) (default_value c) false ∅))
  | DropColumn _ _, _ => Some None
  | AlterColumn _ _ ty nu de, Some s =>
      Some (Some (mkSCol (default (s_type s) ty) (default (s_nullable s) nu) (default (s_default s) de) (s_primary s) (s_refs s)))
  | AddForeignKey _ _ target, Some s => Some (Some (mkSCol (s_type s) (s_nullable s) (s_default s) (s_primary s) ({[target]} ∪ s_refs s)))
  | DropForeignKey _ _, _ => Some ((λ s, mkSCol (s_type s) (s_nullable s) (s_default s) (s_primary s) ∅) <$> o)
  | _, _ => None
  end.

(** The effect on one table: [CREATE TABLE IF NOT EXISTS] keeps the table it finds. *)
Definition table_step (o : option STable) (op : MigrationOp) : option (option STable) :=
  match op, o with
  | CreateTable t, None => Some (Some (table_of t))
  | CreateTable _, Some _ => Some o
  | DropTable _, _ => Some None
  | _, Some t => c ← col_step (s_cols t !! op_column op) op; Some (Some (mkSTable (s_kind t) (put (op_column op) c (s_cols t))))
  | _, None => None
  end.

Definition run_ops : Schema -> list MigrationOp -> option Schema := run op_table table_step.

(** ** Collected maps and arbitrary iteration orders *)

Lemma collect_snoc {A} (l : list (string * A)) e : collect (l ++ [e]) = <[e.1 := e.2]> (collect l).
Proof. unfold collect. by rewrite foldl_app. Qed.

Lemma find_snoc {X} (f : X -> bool) l x : find f (l ++ [x]) = match find f l with Some y => Some y | None => if f x then Some x else None end.
Proof. induction l as [|y l IH]; cbn; [done|]. by destruct (f y). Qed.

Lemma collect_lookup {X A} (name : X -> string) (f : X -> A) (l : list X) k : NoDup (name <$> l) ->
  collect ((λ x, (name x, f x)) <$> l) !! k = f <$> find (λ x, bool_decide (name x = k)) l.
Proof.
  induction l as [|x l IH] using rev_ind; intros Hnd; [done|]. rewrite (fmap_snoc name) in Hnd. rewrite (fmap_snoc (λ x, (name x, f x))), collect_snoc. cbn [fst snd].
  apply NoDup_app in Hnd as (Hnd & Hx & _). specialize (IH Hnd). rewrite find_snoc.
  destruct (decide (name x = k)) as [<-|Hne].
  - rewrite lookup_insert_eq, (bool_decide_eq_true_2 (name x = name x)) by done. destruct (find _ l) as [y|] eqn:E; [|done].
    apply find_some in E as [Hy Hk]. boolify. exfalso. apply (Hx (name x)); [rewrite <- Hk; by apply list_elem_of_fmap_2, list_elem_of_In | set_solver].
  - rewrite lookup_insert_ne, (bool_decide_eq_false_2 (name x = k)) by done. rewrite IH. by destruct (find _ l).
Qed.

Lemma find_name_in {X} (name : X -> string) (l : list X) k x : find (λ x, bool_decide (name x = k)) l = Some x -> x ∈ l /\ name x = k.
Proof. intros H. apply find_some in H as [Hin Hk]. boolify. split; [by apply list_elem_of_In|done]. Qed.

Lemma find_name_none {X} (name : X -> string) (l : list X) k : find (λ x, bool_decide (name x = k)) l = None -> k ∉ (name <$> l).
Proof.
  intros H Hin. apply list_elem_of_fmap in Hin as (x & -> & Hx). apply list_elem_of_In in Hx. pose proof (find_none _ _ H x Hx) as F. cbn in F. boolify. done.
Qed.

Section Iter.
Context {HO : HashOrder}.

Lemma iter_nodup {A} (m : gmap string A) : NoDup ((iter m).*1).
Proof. rewrite iter_perm. apply NoDup_fst_map_to_list. Qed.

Lemma find_iter {A} (m : gmap string A) k : find (λ e, bool_decide (e.1 = k)) (iter m) = (λ x, (k, x)) <$> m !! k.
Proof.
  destruct (find _ _) as [[k' x]|] eqn:E.
  - apply find_name_in in E as [Hin Hk]. cbn in Hk. subst k'. rewrite iter_perm in Hin. apply elem_of_map_to_list in Hin. by rewrite Hin.
  - apply (find_name_none fst) in E. destruct (m !! k) as [x|] eqn:Ex; [|done]. exfalso. apply E. rewrite iter_perm.
    apply elem_of_map_to_list in Ex. apply (list_elem_of_fmap_2 fst) in Ex. exact Ex.
Qed.

(** Of one operation per entry, those of a key are the one of its entry. *)
Lemma filter_iter {A} (key : MigrationOp -> string) (g : string -> MigrationOp) (m : gmap string A) k :
  (forall k, key (g k) = k) -> base.filter (λ op, key op = k) ((λ e, g e.1) <$> iter m) = match m !! k with Some _ => [g k] | None => [] end.
Proof.
  intros Hg. replace ((λ e, g e.1) <$> iter m) with (concat ((λ e, [g e.1]) <$> iter m)) by (induction (iter m) as [|? ? IH]; cbn; [done|]; by rewrite IH).
  rewrite (filter_blocks key fst (λ e, [g e.1])) by (apply iter_nodup || (intros; repeat constructor; apply Hg)). rewrite find_iter. by destruct (m !! k).
Qed.
End Iter.

(** ** The shape of the loops

    Each loop over distinct names emits a block of operations per name,
    decided by the entry the map had at the start, and leaves the other
    entries. *)

Abbreviation named name k := (find (λ x, bool_decide (name x = k))).

Definition column_block (t : string) (current : gmap string ColumnBlueprint) (dc : ColumnBlueprint) : list MigrationOp :=
  match current !! c_name dc with Some cc => diff_column t dc cc | None => [AddColumn t dc] end.

Definition key_block (t : string) (fks : gmap string string) (dc : ColumnBlueprint) : list MigrationOp :=
  match references dc with
  | None => []
  | Some target => if bool_decide (fks !! c_name dc = Some target) then [] else [AddForeignKey t (c_name dc) target]
  end.

Lemma blocks_delete {A} (l : list ColumnBlueprint) (block : gmap string A -> ColumnBlueprint -> list MigrationOp) m k :
  k ∉ (c_name <$> l) -> (forall c, c ∈ l -> forall m m', m !! c_name c = m' !! c_name c -> block m c = block m' c) ->
  concat (block (delete k m) <$> l) = concat (block m <$> l).
Proof.
  intros Hk Hb. induction l as [|c l IH]; [done|]. cbn [fmap list_fmap concat]. rewrite IH by (set_solver || intros; apply Hb; set_solver). f_equal.
  apply Hb; [set_solver|]. rewrite lookup_delete_ne; [done|]. intros ->. apply Hk. cbn. set_solver.
Qed.

Lemma diff_columns_blocks t ds m : NoDup (c_name <$> ds) ->
  (diff_columns t ds m).1 = concat (column_block t m <$> ds) /\
  forall k, (diff_columns t ds m).2 !! k = match named c_name k ds with Some _ => None | None => m !! k end.
Proof.
  revert m. induction ds as [|d ds IH]; intros m Hnd; [done|]. cbn [fmap list_fmap] in Hnd. apply NoDup_cons in Hnd as [Hd Hnd]. destruct (IH (delete (c_name d) m) Hnd) as [H1 H2].
  cbn [diff_columns fmap list_fmap concat find]. destruct (diff_columns t ds _) as [rest m'] eqn:E. cbn [fst snd] in *. split.
  - rewrite H1, (blocks_delete ds (column_block t)); [done|done|]. intros c _ m1 m2 Hm. unfold column_block. by rewrite Hm.
  - intros k. rewrite H2. destruct (decide (c_name d = k)) as [<-|Hne].
    + rewrite bool_decide_eq_true_2, lookup_delete_eq by done. by destruct (find _ ds).
    + rewrite bool_decide_eq_false_2, lookup_delete_ne by done. done.
Qed.

Lemma diff_keys_blocks t ds m : NoDup (c_name <$> ds) ->
  (diff_keys t ds m).1 = concat (key_block t m <$> ds) /\
  forall k, (diff_keys t ds m).2 !! k = match named c_name k ds ≫= references with Some _ => None | None => m !! k end.
Proof.
  revert m. induction ds as [|d ds IH]; intros m Hnd; [done|]. cbn [fmap list_fmap] in Hnd. apply NoDup_cons in Hnd as [Hd Hnd].
  cbn [diff_keys fmap list_fmap concat find]. unfold key_block at 1. destruct (references d) as [r|] eqn:Er.
  - destruct (IH (delete (c_name d) m) Hnd) as [H1 H2]. destruct (diff_keys t ds _) as [rest m'] eqn:E. cbn [fst snd] in *. split.
    + rewrite H1, (blocks_delete ds (key_block t)); [|done|intros c _ m1 m2 Hm; unfold key_block; by rewrite Hm]. f_equal.
      destruct (m !! c_name d) as [e|]; [|done]. destruct (decide (e = r)) as [->|Hne]; [by rewrite !bool_decide_eq_true_2|].
      by rewrite !bool_decide_eq_false_2 by congruence.
    + intros k. rewrite H2. destruct (decide (c_name d = k)) as [<-|Hne].
      * rewrite bool_decide_eq_true_2, lookup_delete_eq by done. cbn. rewrite Er. by destruct (find _ ds ≫= references).
      * rewrite bool_decide_eq_false_2, lookup_delete_ne by done. done.
  - destruct (IH m Hnd) as [H1 H2]. split; [done|]. intros k. rewrite H2. destruct (decide (c_name d = k)) as [<-|Hne].
    + rewrite bool_decide_eq_true_2 by done. cbn. rewrite Er. destruct (find _ ds) as [x|] eqn:E; [|done]. exfalso.
      apply find_name_in in E as [Hx Hn]. apply Hd. rewrite <- Hn. by apply list_elem_of_fmap_2.
    + by rewrite bool_decide_eq_false_2.
Qed.

Lemma keys_of_lookup cols k : NoDup (c_name <$> cols) -> collect (keys_of cols) !! k = named c_name k cols ≫= references.
Proof.
  induction cols as [|c cols IH] using rev_ind; intros Hnd; [done|]. unfold keys_of. rewrite omap_app. rewrite (fmap_snoc c_name) in Hnd.
  apply NoDup_app in Hnd as (Hnd & Hx & _). specialize (IH Hnd). fold (keys_of cols). rewrite find_snoc.
  assert (Hnew : c_name c = k -> named c_name k cols = None).
  { intros <-. destruct (find _ cols) as [y|] eqn:E; [|done]. exfalso. apply find_name_in in E as [Hy Hk].
    apply (Hx (c_name c)); [rewrite <- Hk; by apply list_elem_of_fmap_2 | set_solver]. }
  cbn. destruct (decide (c_name c = k)) as [Heq|Hne].
  - rewrite (Hnew Heq) in *. rewrite bool_decide_eq_true_2 by done. cbn in IH |- *. destruct (references c) as [r|]; cbn; [|by rewrite app_nil_r].
    rewrite collect_snoc. cbn. by rewrite <- Heq, lookup_insert_eq.
  - rewrite bool_decide_eq_false_2 by done. destruct (references c) as [r|]; cbn; [|rewrite app_nil_r, IH; by destruct (find _ cols)].
    rewrite collect_snoc. cbn. rewrite lookup_insert_ne, IH by done. by destruct (find _ cols).
Qed.

Section Runs.
Context {HO : HashOrder}.

Lemma diff_tables_blocks ds m : NoDup (t_name <$> ds) ->
  (diff_tables ds m).1 = concat ((λ dt, match m !! t_name dt with Some ct => diff_table dt ct | None => [CreateTable dt] end) <$> ds) /\
  forall k, (diff_tables ds m).2 !! k = match named t_name k ds with Some _ => None | None => m !! k end.
Proof.
  revert m. induction ds as [|d ds IH]; intros m Hnd; [done|]. cbn [fmap list_fmap] in Hnd. apply NoDup_cons in Hnd as [Hd Hnd]. destruct (IH (delete (t_name d) m) Hnd) as [H1 H2].
  cbn [diff_tables fmap list_fmap concat find]. destruct (diff_tables ds _) as [rest m'] eqn:E. cbn [fst snd] in *. split.
  - rewrite H1. f_equal. f_equal. apply list_fmap_ext. intros i x Hx. rewrite lookup_delete_ne; [done|]. intros Heq. apply Hd. rewrite Heq.
    by apply list_elem_of_fmap_2, list_elem_of_lookup_2 with i.
  - intros k. rewrite H2. destruct (decide (t_name d = k)) as [<-|Hne].
    + rewrite bool_decide_eq_true_2, lookup_delete_eq by done. by destruct (find _ ds).
    + rewrite bool_decide_eq_false_2, lookup_delete_ne by done. done.
Qed.

(** ** One column

    What the plan leaves of a column that is wanted: its type, nullability
    and default are the desired ones; whether it is a primary key does not
    change; a foreign key that is replaced stays beside the new one. *)

Definition settled (cc : option ColumnBlueprint) (dc : ColumnBlueprint) : SCol :=
  mkSCol (data_type dc) (nullable dc) (default_value dc) (default false (is_primary <$> cc))
    (match references dc with None => ∅ | Some r => {[r]} ∪ (match cc ≫= references with Some r' => {[r']} | None => ∅ end) end).

Lemma diff_column_run t dc cc : run1 col_step (Some (col_of cc)) (diff_column t dc cc) =
  Some (Some (mkSCol (data_type dc) (nullable dc) (default_value dc) (is_primary cc) (s_refs (col_of cc)))).
Proof.
  unfold diff_column, col_of. destruct (decide (data_type dc = data_type cc)) as [->|], (decide (nullable dc = nullable cc)) as [->|],
    (decide (default_value dc = default_value cc)) as [->|]; repeat case_bool_decide; congruence || reflexivity.
Qed.

Definition column_ops t (dcs ccs : list ColumnBlueprint) k : list MigrationOp :=
  let cc := named c_name k ccs in
  match named c_name k dcs with
  | Some dc => (match cc with Some cc => diff_column t dc cc | None => [AddColumn t dc] end)
               ++ (match references dc with
                   | None => match cc ≫= references with Some _ => [DropForeignKey t k] | None => [] end
                   | Some r => if bool_decide (cc ≫= references = Some r) then [] else [AddForeignKey t k r]
                   end)
  | None => match cc with Some c => DropColumn t k :: (match references c with Some _ => [DropForeignKey t k] | None => [] end) | None => [] end
  end.

Lemma column_ops_run t dcs ccs k : run1 col_step (col_of <$> named c_name k ccs) (column_ops t dcs ccs k) =
  Some (settled (named c_name k ccs) <$> named c_name k dcs).
Proof.
  unfold column_ops, settled. destruct (named c_name k ccs) as [cc|], (named c_name k dcs) as [dc|]; [|by destruct (references cc)|..|done].
  - rewrite run1_app. cbn [fmap option_fmap option_map]. rewrite diff_column_run. cbn. unfold col_of. cbn.
    destruct (references dc) as [r|], (references cc) as [r'|]; cbn; try done.
    destruct (decide (r' = r)) as [->|]; [rewrite bool_decide_eq_true_2 by done; cbn; by rewrite union_idemp_L | by rewrite bool_decide_eq_false_2 by congruence].
  - cbn. destruct (references dc) as [r|]; cbn; [|done]. by rewrite bool_decide_eq_false_2.
Qed.

Lemma column_block_key t m d : Forall (λ op, op_column op = c_name d) (column_block t m d).
Proof. unfold column_block, diff_column. destruct (m !! _); repeat case_bool_decide; repeat constructor. Qed.
Lemma key_block_key t m d : Forall (λ op, op_column op = c_name d) (key_block t m d).
Proof. unfold key_block. destruct (references d); repeat case_bool_decide; repeat constructor. Qed.

(** The operations of [diff_table] on one column. *)
Lemma diff_table_column dt ct k : kind dt = kind ct -> NoDup (c_name <$> columns dt) -> NoDup (c_name <$> columns ct) ->
  base.filter (λ op, op_column op = k) (diff_table dt ct) = column_ops (t_name dt) (columns dt) (columns ct) k.
Proof.
  intros Hkind Hd Hc. unfold diff_table. rewrite bool_decide_eq_true_2 by done. cbn [negb].
  pose proof (diff_columns_blocks (t_name dt) (columns dt) (collect ((λ c, (c_name c, c)) <$> columns ct)) Hd) as [C1 C2].
  pose proof (diff_keys_blocks (t_name dt) (columns dt) (collect (keys_of (columns ct))) Hd) as [K1 K2].
  destruct (diff_columns _ _ _) as [ops m], (diff_keys _ _ _) as [fks mf]. cbn [fst snd] in *. rewrite !filter_app.
  rewrite (filter_iter op_column (DropColumn (t_name dt))), (filter_iter op_column (DropForeignKey (t_name dt))) by done.
  rewrite C1, (filter_blocks op_column c_name) by (done || intros; apply column_block_key).
  rewrite K1, (filter_blocks op_column c_name) by (done || intros; apply key_block_key).
  rewrite C2, K2, keys_of_lookup, (collect_lookup c_name (λ c, c)) by done. unfold column_ops.
  destruct (find _ (columns dt)) as [d|] eqn:Ed; cbn.
  - apply find_name_in in Ed as [_ <-]. unfold column_block, key_block. rewrite keys_of_lookup, (collect_lookup c_name (λ c, c)) by done.
    destruct (find _ (columns ct)) as [c|]; cbn; destruct (references d); by rewrite ?app_nil_r.
  - destruct (find _ (columns ct)) as [c|]; cbn; [|done]. by destruct (references c).
Qed.

(** Tables of one kind differ by operations on the columns of the table. *)
Lemma diff_table_on_columns dt ct : kind dt = kind ct -> Forall (λ op, is_col_op op = true /\ op_table op = t_name dt) (diff_table dt ct).
Proof.
  intros Hkind. unfold diff_table. rewrite bool_decide_eq_true_2 by done. cbn [negb]. set (P := λ op, _ /\ _).
  assert (HC : forall l m, Forall P (diff_columns (t_name dt) l m).1).
  { induction l as [|d l IH]; intros m; cbn; [done|]. specialize (IH (delete (c_name d) m)). destruct (diff_columns _ _ _). cbn in *.
    apply Forall_app. split; [|done]. unfold diff_column. destruct (m !! _); repeat case_bool_decide; repeat constructor. }
  assert (HK : forall l m, Forall P (diff_keys (t_name dt) l m).1).
  { induction l as [|d l IH]; intros m; cbn; [done|]. destruct (references d); [|apply IH]. specialize (IH (delete (c_name d) m)). destruct (diff_keys _ _ _). cbn in *.
    apply Forall_app. split; [|done]. destruct (m !! _); repeat case_bool_decide; repeat constructor. }
  specialize (HC (columns dt) (collect ((λ c, (c_name c, c)) <$> columns ct))). specialize (HK (columns dt) (collect (keys_of (columns ct)))).
  destruct (diff_columns _ _ _), (diff_keys _ _ _). cbn [fst] in *. rewrite !Forall_app. split_and!; [done| |done|]; apply Forall_fmap, Forall_true; done.
Qed.

Lemma diff_table_columns_only dt ct : kind dt = kind ct -> Forall (λ op, is_col_op op = true) (diff_table dt ct).
Proof. intros Hk. eapply Forall_impl; [by apply diff_table_on_columns|]. by intros op [? _]. Qed.

(** ** One table *)

Definition settled_columns (cct : list ColumnBlueprint) (dcs : list ColumnBlueprint) : gmap string SCol :=
  collect ((λ c, (c_name c, settled (named c_name (c_name c) cct) c)) <$> dcs).
Definition settled_table (ct : option TableBlueprint) (dt : TableBlueprint) : STable :=
  match ct with
  | Some ct => if bool_decide (kind dt = kind ct) then mkSTable (kind dt) (settled_columns (columns ct) (columns dt)) else table_of dt
  | None => table_of dt
  end.

Lemma run_cols ops t : Forall (λ op, is_col_op op = true) ops ->
  run1 table_step (Some t) ops = cols ← run op_column col_step (s_cols t) ops; Some (Some (mkSTable (s_kind t) cols)).
Proof.
  intros Hops. revert t. induction Hops as [|op ops Hop _ IH]; intros t; [by destruct t|]. cbn [run1 run].
  assert (table_step (Some t) op = c ← col_step (s_cols t !! op_column op) op; Some (Some (mkSTable (s_kind t) (put (op_column op) c (s_cols t))))) as ->
    by (destruct op; done).
  destruct (col_step _ op) as [c|]; cbn; [|done]. rewrite IH. done.
Qed.

Lemma diff_table_run dt ct : NoDup (c_name <$> columns dt) -> NoDup (c_name <$> columns ct) ->
  run1 table_step (Some (table_of ct)) (diff_table dt ct) = Some (Some (settled_table (Some ct) dt)).
Proof.
  intros Hd Hc. unfold settled_table. destruct (decide (kind dt = kind ct)) as [Hk|Hk].
  2:{ rewrite bool_decide_eq_false_2 by done. unfold diff_table. by rewrite bool_decide_eq_false_2 by done. }
  rewrite bool_decide_eq_true_2, run_cols by (done || by apply diff_table_columns_only).
  destruct (run_keyed op_column col_step (diff_table dt ct) (s_cols (table_of ct)) (λ k, settled (named c_name k (columns ct)) <$> named c_name k (columns dt)))
    as (m & Hrun & Hm).
  { intros k. rewrite diff_table_column by done. unfold table_of. cbn [s_cols]. rewrite (collect_lookup c_name col_of) by done. apply column_ops_run. }
  rewrite Hrun. cbn. rewrite Hk. do 3 f_equal. apply map_eq. intros k. rewrite Hm. unfold settled_columns.
  rewrite (collect_lookup c_name (λ c, settled (named c_name (c_name c) (columns ct)) c)) by done.
  destruct (find _ (columns dt)) as [d|] eqn:E; cbn; [|done]. by apply find_name_in in E as [_ <-].
Qed.

Lemma diff_table_key dt ct : t_name dt = t_name ct -> Forall (λ op, op_table op = t_name dt) (diff_table dt ct).
Proof.
  intros Hn. destruct (decide (kind dt = kind ct)) as [Hk|Hk].
  - eapply Forall_impl; [by apply diff_table_on_columns|]. by intros op [_ ?].
  - unfold diff_table. rewrite bool_decide_eq_false_2 by done. repeat constructor; done.
Qed.

(** ** The whole plan *)

Record distinct_names (d : DatabaseBlueprint) : Prop := {
  tables_distinct : NoDup (t_name <$> tables d);
  columns_distinct : forall t, t ∈ tables d -> NoDup (c_name <$> columns t);
}.

Definition settled_schema (desired current : DatabaseBlueprint) : Schema :=
  collect ((λ t, (t_name t, settled_table (named t_name (t_name t) (tables current)) t)) <$> tables desired).

Lemma diff_effect desired current : distinct_names desired -> distinct_names current ->
  run_ops (schema_of current) (operations (diff desired current)) = Some (settled_schema desired current).
Proof.
  intros [Hd Hdc] [Hc Hcc]. unfold diff.
  pose proof (diff_tables_blocks (tables desired) (collect ((λ t, (t_name t, t)) <$> tables current)) Hd) as [T1 T2].
  destruct (diff_tables _ _) as [ops rest]. cbn [fst snd operations] in *.
  destruct (run_keyed op_table table_step (ops ++ ((λ e, DropTable e.1) <$> iter rest)) (schema_of current)
    (λ k, settled_table (named t_name k (tables current)) <$> named t_name k (tables desired))) as (m & Hrun & Hm).
  - intros k. rewrite filter_app, (filter_iter op_table DropTable), T1, T2 by done.
    rewrite (filter_blocks op_table t_name); [|done|].
    2:{ intros d _. rewrite (collect_lookup t_name (λ t, t)) by done. destruct (find _ (tables current)) as [c|] eqn:E; cbn; [|by repeat constructor].
        apply diff_table_key. apply find_name_in in E as [_ E]. done. }
    rewrite !(collect_lookup t_name (λ t, t)) by done. unfold schema_of. rewrite (collect_lookup t_name table_of) by done.
    destruct (find _ (tables desired)) as [d|] eqn:Ed; cbn.
    + apply find_name_in in Ed as [Hind <-]. rewrite app_nil_r, (collect_lookup t_name (λ t, t)) by done.
      destruct (find _ (tables current)) as [c|] eqn:E; [|done]. apply find_name_in in E as [Hinc _]. apply diff_table_run; auto.
    + by destruct (find _ (tables current)).
  - unfold run_ops. rewrite Hrun. f_equal. apply map_eq. intros k. rewrite Hm. unfold settled_schema.
    rewrite (collect_lookup t_name (λ t, settled_table (named t_name (t_name t) (tables current)) t)) by done.
    destruct (find _ (tables desired)) as [d|] eqn:E; cbn; [|done]. by apply find_name_in in E as [_ <-].
Qed.

(** What the plan of [diff] can express of a column: it neither changes the
    primary key nor replaces a foreign key. *)
Definition expressible (cc : option ColumnBlueprint) (dc : ColumnBlueprint) : Prop :=
  is_primary dc = default false (is_primary <$> cc) /\
  match references dc, cc ≫= references with Some r, Some r' => r = r' | _, _ => True end.

Definition expressible_plan (desired current : DatabaseBlueprint) : Prop :=
  forall dt ct dc, dt ∈ tables desired -> ct ∈ tables current -> t_name dt = t_name ct -> kind dt = kind ct ->
  dc ∈ columns dt -> expressible (named c_name (c_name dc) (columns ct)) dc.

Lemma settled_expressible cc dc : settled cc dc = col_of dc <-> expressible cc dc.
Proof.
  unfold settled, col_of, expressible. split.
  - intros H. injection H as Hp Hr. split; [congruence|]. destruct (references dc) as [r|], (cc ≫= references) as [r'|]; try done.
    assert (r' ∈ ({[r]} : gset string)) as Hin by (rewrite <- Hr; set_solver). set_solver.
  - intros [-> Hr]. f_equal. destruct (references dc) as [r|], (cc ≫= references) as [r'|]; subst; try done; set_solver.
Qed.

Lemma named_of_elem {X} (name : X -> string) (l : list X) x : NoDup (name <$> l) -> x ∈ l -> named name (name x) l = Some x.
Proof.
  induction l as [|y l IH]; intros Hnd Hx; [by apply elem_of_nil in Hx|]. cbn [fmap list_fmap] in Hnd. apply NoDup_cons in Hnd as [Hy Hnd]. cbn [find].
  apply elem_of_cons in Hx as [->|Hx]; [by rewrite bool_decide_eq_true_2|]. rewrite bool_decide_eq_false_2; [auto|]. intros Heq. apply Hy. rewrite Heq.
  by apply list_elem_of_fmap_2.
Qed.

Lemma collect_ext {X A} (name : X -> string) (f g : X -> A) l : NoDup (name <$> l) ->
  collect ((λ x, (name x, f x)) <$> l) = collect ((λ x, (name x, g x)) <$> l) <-> forall x, x ∈ l -> f x = g x.
Proof.
  intros Hnd. split.
  - intros H x Hx. pose proof (f_equal (λ m, m !! name x) H) as E. cbn in E. rewrite (collect_lookup name f), (collect_lookup name g) in E by done.
    rewrite (named_of_elem name l x Hnd Hx) in E. by injection E.
  - intros H. f_equal. apply list_fmap_ext. intros i x Hx. f_equal. apply H. by eapply list_elem_of_lookup_2.
Qed.

Lemma settled_schema_desired desired current : distinct_names desired -> distinct_names current ->
  settled_schema desired current = schema_of desired <-> expressible_plan desired current.
Proof.
  intros [Hd Hdc] [Hc Hcc]. unfold settled_schema, schema_of. rewrite (collect_ext t_name (λ t, settled_table (named t_name (t_name t) (tables current)) t) table_of) by done. split.
  - intros H dt ct dc Hdt Hct Hn Hk Hin. specialize (H dt Hdt). rewrite Hn, (named_of_elem t_name) in H by done. unfold settled_table, table_of in H.
    rewrite bool_decide_eq_true_2 in H by done. injection H as H. unfold settled_columns in H.
    pose proof (proj1 (collect_ext c_name _ _ _ (Hdc dt Hdt)) H dc Hin) as E. by apply settled_expressible.
  - intros H dt Hdt. unfold settled_table. destruct (find _ (tables current)) as [ct|] eqn:E; [|done]. apply find_name_in in E as [Hct Hn].
    case_bool_decide as Hk; [|done]. unfold table_of, settled_columns. f_equal. apply (collect_ext c_name); [auto|]. intros dc Hin. apply settled_expressible.
    eapply H; eauto.
Qed.

(** Running the plan [diff] makes on the current schema, whatever order the
    hash maps are iterated in, always succeeds, and it ends in the desired
    schema exactly when no column of a table that is kept changes whether it
    is a primary key (a new column of it is none) and no foreign key of a
    column is replaced by another one. *)
Theorem diff_reaches_desired desired current : distinct_names desired -> distinct_names current ->
  exists s, run_ops (schema_of current) (operations (diff desired current)) = Some s /\
  (s = schema_of desired <-> expressible_plan desired current).
Proof. intros Hd Hc. exists (settled_schema desired current). split; [by apply diff_effect|by apply settled_schema_desired]. Qed.

Lemma iter_empty {A} (m : gmap string A) : m = ∅ -> iter m = [].
Proof. intros ->. apply Permutation_nil. by rewrite iter_perm, map_to_list_empty. Qed.

Lemma blocks_nil {X} (block : X -> list MigrationOp) (l : list X) : (forall x, x ∈ l -> block x = []) -> concat (block <$> l) = [].
Proof. intros H. induction l as [|x l IH]; [done|]. cbn [fmap list_fmap concat]. rewrite H, IH by set_solver. done. Qed.

Lemma diff_table_self t : NoDup (c_name <$> columns t) -> diff_table t t = [].
Proof.
  intros Hnd. unfold diff_table. rewrite bool_decide_eq_true_2 by done. cbn [negb].
  pose proof (diff_columns_blocks (t_name t) (columns t) (collect ((λ c, (c_name c, c)) <$> columns t)) Hnd) as [C1 C2].
  pose proof (diff_keys_blocks (t_name t) (columns t) (collect (keys_of (columns t))) Hnd) as [K1 K2].
  destruct (diff_columns _ _ _) as [ops m], (diff_keys _ _ _) as [fks mf]. cbn [fst snd] in *.
  rewrite C1, K1, !blocks_nil, !iter_empty; [done|..].
  - apply map_eq. intros k. rewrite K2, keys_of_lookup by done. by destruct (find _ _ ≫= references).
  - apply map_eq. intros k. rewrite C2, (collect_lookup c_name (λ c, c)) by done. by destruct (find _ _).
  - intros c Hc. unfold key_block. rewrite keys_of_lookup, (named_of_elem c_name) by done. cbn. destruct (references c); [|done]. by rewrite bool_decide_eq_true_2.
  - intros c Hc. unfold column_block. rewrite (collect_lookup c_name (λ c, c)), (named_of_elem c_name) by done. cbn. unfold diff_column. by rewrite !bool_decide_eq_true_2.
Qed.

(** The plan from a blueprint to itself is empty: a second run after the
    database matches the blueprint changes nothing. *)
Theorem diff_self_empty d : distinct_names d -> operations (diff d d) = [].
Proof.
  intros [Hd Hdc]. unfold diff. pose proof (diff_tables_blocks (tables d) (collect ((λ t, (t_name t, t)) <$> tables d)) Hd) as [T1 T2].
  destruct (diff_tables _ _) as [ops rest]. cbn [fst snd operations] in *. rewrite T1, blocks_nil, iter_empty; [done|..].
  - apply map_eq. intros k. rewrite T2, (collect_lookup t_name (λ t, t)) by done. by destruct (find _ _).
  - intros t Ht. rewrite (collect_lookup t_name (λ t, t)), (named_of_elem t_name) by done. cbn. apply diff_table_self. auto.
Qed.
End Runs.

(** ** Concrete plans *)

#[global] Instance sorted_order : HashOrder := {| iter := λ A m, map_to_list m; iter_perm := λ A m, Permutation_refl _ |}.

Definition col (n ty : string) (pk : bool) (fk : option string) : ColumnBlueprint := mkColumn n ty false None pk fk.
Definition v1 : DatabaseBlueprint := mkDatabase Postgres
  [mkTable "users" [col "id" "int" true None; col "name" "text" false None; col "team" "int" false (Some "teams(id)")] Table; mkTable "old" [] Table].
Definition v2 : DatabaseBlueprint := mkDatabase Postgres
  [mkTable "users" [col "id" "bigint" true None; col "team" "int" false (Some "teams(id)"); col "boss" "int" false (Some "users(id)")] Table;
   mkTable "teams" [col "id" "int" true None] Table].
Definition v3 : DatabaseBlueprint := mkDatabase Postgres
  [mkTable "users" [col "id" "bigint" false None; col "team" "int" false (Some "groups(id)"); col "boss" "int" false (Some "users(id)")] Table;
   mkTable "teams" [col "id" "int" true None] Table].

Lemma distinct_by d : NoDup (t_name <$> tables d) -> Forall (λ t, NoDup (c_name <$> columns t)) (tables d) -> distinct_names d.
Proof. intros H1 H2. split; [done|]. by apply Forall_forall. Qed.
Ltac distinct := apply distinct_by; apply (bool_decide_unpack _); vm_compute; exact I.

Lemma diff_reaches_desired_witness :
  distinct_names v2 /\ distinct_names v1 /\
  exists s, run_ops (schema_of v1) (operations (diff v2 v1)) = Some s /\ (s = schema_of v2 <-> expressible_plan v2 v1).
Proof. split_and!; [distinct|distinct|]. apply (diff_reaches_desired v2 v1); distinct. Defined.

Lemma diff_self_empty_witness : distinct_names v1 /\ operations (diff v1 v1) = [].
Proof. split; [distinct|]. apply (diff_self_empty v1). distinct. Defined.

Example v2_plan : operations (diff v2 v1) =
  [AlterColumn "users" "id" (Some "bigint") None None; AddColumn "users" (col "boss" "int" false (Some "users(id)")); DropColumn "users" "name";
   AddForeignKey "users" "boss" "users(id)"; CreateTable (mkTable "teams" [col "id" "int" true None] Table); DropTable "old"].
Proof. vm_compute. reflexivity. Qed.

(** Replacing the foreign key of a column and removing a primary key:
    the plan only adds the new foreign key, so the column ends with two,
    and the primary key stays. *)
Theorem replaced_key_is_kept :
  operations (diff v3 v2) = [AddForeignKey "users" "team" "groups(id)"] /\
  exists s, run_ops (schema_of v2) (operations (diff v3 v2)) = Some s /\
  s_refs <$> ((s !! "users") ≫= λ t, s_cols t !! "team") = Some {["groups(id)"; "teams(id)"]} /\
  s_primary <$> ((s !! "users") ≫= λ t, s_cols t !! "id") = Some true /\ s <> schema_of v3.
Proof.
  split; [vm_compute; reflexivity|]. exists (settled_schema v3 v2). split; [apply diff_effect; distinct|].
  split_and!; [vm_compute; reflexivity..|].
  intros H. apply (f_equal (λ s, s_primary <$> ((s !! "users") ≫= λ t, s_cols t !! "id"))) in H. vm_compute in H. discriminate.
Qed.
