(* ===== verification/MigrationSql.v ===== *)
(** * SQL of a schema plan ([infra/db/migrations/planner.rs])

    [plan_to_sql] turns every operation of a plan into statements of the
    engine, refuses destructive operations without [force], and in a dry run
    writes the script under [runtime/migrations/generated].  The directory
    and the file are the results [create_dir] and [write_file] of the file
    system; the name of the file is the time in seconds. *)

From S2P Require Import Prelude Schema.
#[local] Open Scope fenrir_scope.

Record PlanOptions := mkOptions { force : bool; dry_run : bool }.
Record PlannedSql := mkPlanned { statements : list string; path : option string }.

Inductive PlanError :=
| NotImplemented (e : DbEngine)
| DropTableNeedsForce (name : string)
| DropColumnNeedsForce (table column : string)
| Io (e : string).

Definition engine_str (e : DbEngine) : string :=
  match e with Postgres => "postgres" | Mysql => "mysql" | Sqlite => "sqlite" | Mongodb => "mongodb" end.

Definition quote : string := String (Ascii.ascii_of_nat 34) EmptyString.
Definition quoted (s : string) : string := quote +:+ s +:+ quote.
Fixpoint concat_with (sep : string) (l : list string) : string :=
  match l with [] => EmptyString | [x] => x | x :: l => x +:+ sep +:+ concat_with sep l end.

(** The column of a [CREATE TABLE] or [ADD COLUMN] that both engines share. *)
Definition not_null (c : ColumnBlueprint) : string := if nullable c then EmptyString else " NOT NULL".
Definition default_clause (c : ColumnBlueprint) : string := match default_value c with Some d => " DEFAULT " +:+ d | None => EmptyString end.
Definition pg_column (c : ColumnBlueprint) : string := quoted (c_name c) +:+ " " +:+ data_type c +:+ not_null c +:+ default_clause c.
Definition sqlite_column (c : ColumnBlueprint) : string :=
  quoted (c_name c) +:+ " " +:+ data_type c +:+ not_null c +:+ default_clause c +:+ (if is_primary c then " PRIMARY KEY" else EmptyString).

(** For the key of each column, the first column that has this key. *)
Definition pg_foreign_keys (cols : list ColumnBlueprint) : list string :=
  omap (λ fk, (λ c, "FOREIGN KEY (" +:+ quoted (c_name c) +:+ ") REFERENCES " +:+ fk) <$> find (λ c, bool_decide (references c = Some fk)) cols)
       (omap references cols).

Definition pg_table_parts (t : TableBlueprint) : list string :=
  let pk_cols := (λ c, quoted (c_name c)) <$> base.filter (λ c, is_primary c = true) (columns t) in
  (pg_column <$> columns t) ++ (match pk_cols with [] => [] | _ => ["PRIMARY KEY (" +:+ concat_with ", " pk_cols +:+ ")"] end) ++ pg_foreign_keys (columns t).

Definition create_table (name : string) (parts : list string) : string :=
  "CREATE TABLE IF NOT EXISTS " +:+ quoted name +:+ " (" +:+ concat_with ", " parts +:+ ");".
Definition alter (table : string) : string := "ALTER TABLE " +:+ quoted table.
Definition fk_name (table column : string) : string := "fk_" +:+ table +:+ "_" +:+ column.

Definition map_pg (op : MigrationOp) (opts : PlanOptions) : result (list string) PlanError :=
  match op with
  | CreateTable t => Ok [create_table (t_name t) (pg_table_parts t)]
  | DropTable name => if force opts then Ok ["DROP TABLE IF EXISTS " +:+ quoted name +:+ ";"] else Err (DropTableNeedsForce name)
  | AddColumn table c =>
      Ok [alter table +:+ " ADD COLUMN " +:+ quoted (c_name c) +:+ " " +:+ data_type c +:+ not_null c +:+ default_clause c +:+ ";"]
  | DropColumn table column =>
      if force opts then Ok [alter table +:+ " DROP COLUMN IF EXISTS " +:+ quoted column +:+ ";"] else Err (DropColumnNeedsForce table column)
  | AlterColumn table column new_type nullable default_value =>
      let prefix := alter table +:+ " ALTER COLUMN " +:+ quoted column in
      Ok ((match new_type with Some t => [prefix +:+ " TYPE " +:+ t +:+ ";"] | None => [] end)
          ++ (match nullable with Some true => [prefix +:+ " DROP NOT NULL;"] | Some false => [prefix +:+ " SET NOT NULL;"] | None => [] end)
          ++ (match default_value with
              | Some (Some v) => [prefix +:+ " SET DEFAULT " +:+ v +:+ ";"]
              | Some None => [prefix +:+ " DROP DEFAULT;"]
              | None => []
              end))
  | AddForeignKey table column target =>
      Ok [alter table +:+ " ADD CONSTRAINT " +:+ quoted (fk_name table column) +:+ " FOREIGN KEY (" +:+ quoted column +:+ ") REFERENCES " +:+ target +:+ ";"]
  | DropForeignKey table column => Ok [alter table +:+ " DROP CONSTRAINT IF EXISTS " +:+ quoted (fk_name table column) +:+ ";"]
  end.

Definition map_sqlite (op : MigrationOp) (opts : PlanOptions) : result (list string) PlanError :=
  match op with
  | CreateTable t => Ok [create_table (t_name t) (sqlite_column <$> columns t)]
  | DropTable name => if force opts then Ok ["DROP TABLE IF EXISTS " +:+ quoted name +:+ ";"] else Err (DropTableNeedsForce name)
  | AddColumn table c => Ok [alter table +:+ " ADD COLUMN " +:+ quoted (c_name c) +:+ " " +:+ data_type c +:+ default_clause c +:+ ";"]
  | DropColumn table column =>
      if force opts
      then Ok ["-- SQLite drop column not supported directly; would require table rebuild for " +:+ table +:+ "." +:+ column]
      else Err (DropColumnNeedsForce table column)
  | AlterColumn _ _ _ _ _ => Ok ["-- SQLite alter column not supported; requires manual table rebuild"]
  | AddForeignKey _ _ _ | DropForeignKey _ _ => Ok ["-- SQLite FK alter not supported post-creation"]
  end.

Definition map_op (e : DbEngine) (op : MigrationOp) (opts : PlanOptions) : result (list string) PlanError :=
  match e with Postgres => map_pg op opts | Sqlite => map_sqlite op opts | _ => Err (NotImplemented e) end.

Fixpoint map_ops (e : DbEngine) (ops : list MigrationOp) (opts : PlanOptions) : result (list string) PlanError :=
  match ops with
  | [] => Ok []
  | op :: ops => sqls <-? map_op e op opts ;; rest <-? map_ops e ops opts ;; Ok (sqls ++ rest)
  end.

Section Plan.
Context (stamp : string) (create_dir : string -> option string) (write_file : string -> string -> option string).

(** The second result is what the call wrote. *)
Definition plan_to_sql (plan : SchemaMigrationPlan) (opts : PlanOptions) : result PlannedSql PlanError * list (string * string) :=
  match map_ops (plan_engine plan) (operations plan) opts with
  | Err e => (Err e, [])
  | Ok stmts =>
      if dry_run opts then
        let dir := "runtime/migrations/generated/" +:+ engine_str (plan_engine plan) in
        let file := dir +:+ "/" +:+ stamp in
        match create_dir dir with
        | Some e => (Err (Io e), [])
        | None =>
            let script := concat_with (String (Ascii.ascii_of_nat 59) (String (Ascii.ascii_of_nat 10) EmptyString)) stmts in
            match write_file file script with
            | Some e => (Err (Io e), [])
            | None => (Ok (mkPlanned stmts (Some file)), [(file, script)])
            end
        end
      else (Ok (mkPlanned stmts None), [])
  end.

Definition destructive (op : MigrationOp) : bool := match op with DropTable _ | DropColumn _ _ => true | _ => false end.
Definition refusal (op : MigrationOp) : option PlanError :=
  match op with DropTable n => Some (DropTableNeedsForce n) | DropColumn t c => Some (DropColumnNeedsForce t c) | _ => None end.
Definition implemented (e : DbEngine) : bool := match e with Postgres | Sqlite => true | _ => false end.

(** The statements of an operation that is let through. *)
Definition sql_of (e : DbEngine) (op : MigrationOp) : list string := match map_op e op (mkOptions true false) with Ok s => s | Err _ => [] end.

Lemma map_op_cases e op opts : implemented e = true ->
  map_op e op opts = if force opts then Ok (sql_of e op) else match refusal op with Some err => Err err | None => Ok (sql_of e op) end.
Proof. destruct e; intros He; try done; unfold sql_of; destruct op; cbn; by destruct (force opts). Qed.

Lemma map_ops_cases e ops opts : implemented e = true ->
  map_ops e ops opts = match (if force opts then None else head (omap refusal ops)) with Some err => Err err | None => Ok (concat (sql_of e <$> ops)) end.
Proof.
  intros He. induction ops as [|op ops IH]; cbn; [by destruct (force opts)|]. rewrite map_op_cases, IH by done.
  destruct (force opts); cbn; [done|]. destruct (refusal op); cbn; [done|]. by destruct (head (omap refusal ops)).
Qed.

(** Without [--force] a plan that drops a table or a column yields no
    statement and writes nothing: it is refused with the first such
    operation.  Otherwise the statements are those of all the operations,
    in the order of the plan. *)
Theorem drops_require_force plan opts : implemented (plan_engine plan) = true -> dry_run opts = false ->
  plan_to_sql plan opts =
    (if forallb (λ op, negb (destructive op)) (operations plan) || force opts
     then Ok (mkPlanned (concat (sql_of (plan_engine plan) <$> operations plan)) None)
     else match head (omap refusal (operations plan)) with Some e => Err e | None => Ok (mkPlanned [] None) end, []) /\
  (force opts = false -> (exists op, op ∈ operations plan /\ destructive op = true) <-> exists e, (plan_to_sql plan opts).1 = Err e).
Proof.
  intros He Hdry. unfold plan_to_sql. rewrite map_ops_cases, Hdry by done.
  assert (Hall : forallb (λ op, negb (destructive op)) (operations plan) = true <-> head (omap refusal (operations plan)) = None).
  { induction (operations plan) as [|op ops IH]; [done|]. cbn. destruct op; cbn; try exact IH; done. }
  assert (Hex : forallb (λ op, negb (destructive op)) (operations plan) = false <-> exists op, op ∈ operations plan /\ destructive op = true).
  { rewrite <- not_true_iff_false, forallb_forall. split.
    - intros H. destruct (existsb destructive (operations plan)) eqn:E.
      + apply existsb_exists in E as (op & Hin & Hop). exists op. by rewrite list_elem_of_In.
      + exfalso. apply H. intros op Hop. apply negb_true_iff. destruct (destructive op) eqn:Ed; [|done]. rewrite <- E. symmetry. apply existsb_exists. eauto.
    - intros (op & Hin & Hop) H. apply list_elem_of_In in Hin. specialize (H op Hin). by rewrite Hop in H. }
  rewrite <- Hex. destruct (forallb _ _) eqn:Ef.
  - rewrite (proj1 Hall) by done. cbn. destruct (force opts); cbn; (split; [done|]); intros Hf; (split; [done|]); by intros [e [=]].
  - destruct (head _) as [e|] eqn:Eh; [|by discriminate (proj2 Hall eq_refl)]. destruct (force opts); cbn; (split; [done|]); [done|]. intros _. split; eauto.
Qed.
End Plan.

Lemma drops_require_force_witness :
  implemented Postgres = true /\ dry_run (mkOptions false false) = false /\
  (plan_to_sql "0" (λ _, None) (λ _ _, None) (diff v2 v1) (mkOptions false false)).1 = Err (DropColumnNeedsForce "users" "name").
Proof.
  split_and!; [done..|]. destruct (drops_require_force "0" (λ _, None) (λ _ _, None) (diff v2 v1) (mkOptions false false)) as [-> _]; [reflexivity..|].
  vm_compute. reflexivity.
Defined.

Example v2_script : (plan_to_sql "1700000000" (λ _, None) (λ _ _, None) (diff v3 v2) (mkOptions false true)).2 =
  [("runtime/migrations/generated/postgres/1700000000",
    alter "users" +:+ " ADD CONSTRAINT " +:+ quoted "fk_users_team" +:+ " FOREIGN KEY (" +:+ quoted "team" +:+ ") REFERENCES groups(id);")].
Proof. vm_compute. reflexivity. Qed.

(** Two columns of a new table that reference the same target: the
    statement for Postgres has the foreign key of the first column twice
    and the one of the second column not at all. *)
Theorem second_key_is_lost c1 c2 target : references c1 = Some target -> references c2 = Some target ->
  pg_foreign_keys [c1; c2] = ["FOREIGN KEY (" +:+ quoted (c_name c1) +:+ ") REFERENCES " +:+ target;
                              "FOREIGN KEY (" +:+ quoted (c_name c1) +:+ ") REFERENCES " +:+ target].
Proof. intros H1 H2. unfold pg_foreign_keys. cbn. rewrite H1, H2. cbn. by rewrite !bool_decide_eq_true_2. Qed.

Lemma second_key_is_lost_witness : references (col "a" "int" false (Some "users(id)")) = Some "users(id)" /\
  pg_foreign_keys [col "a" "int" false (Some "users(id)"); col "b" "int" false (Some "users(id)")] =
    ["FOREIGN KEY (" +:+ quoted "a" +:+ ") REFERENCES users(id)"; "FOREIGN KEY (" +:+ quoted "a" +:+ ") REFERENCES users(id)"].
Proof. split; [done|]. apply (second_key_is_lost (col "a" "int" false (Some "users(id)")) (col "b" "int" false (Some "users(id)"))); reflexivity. Defined.
