(* ===== verification/Migrations.v ===== *)
(** * Database migrations ([infra/db/migrations/runner.rs],
    [infra/db/migrations/files.rs], [services/db_shell])

    The SQL files of a directory are applied in the order of their names;
    a state file per engine, and per module, remembers which ones were.
    [World] is the database, the state files and, for the theorems, the
    files whose statements succeeded ([ran]).  The adapter of the database
    is the class [DbAdminPort]; [outcome] says which writes of a state file
    fail and what they leave. *)

From S2P Require Import Prelude Text Schema MigrationSql.
#[local] Open Scope fenrir_scope.

#[global] Instance engine_dec : EqDecision DbEngine.
Proof. solve_decision. Defined.

(** ** The database shell *)

Inductive DbError :=
| EngineNotConfigured (e : DbEngine)
| Connection (m : string)
| QueryError (m : string)
| InvalidInput (m : string)
| DbNotImplemented (m : string).

Record DbResultSet := mkResultSet { rs_columns : list string; rows : list (list string) }.
Inductive DbExecutionResult :=
| ResultSet (rs : DbResultSet)
| AffectedRows (n : Z)
| CommandTag (t : string).

Class DbAdminPort (D : Type) := {
  port_query : DbEngine -> D -> text -> D * result (list DbExecutionResult) DbError;
}.

Record DbShellService := mkShell { default_engine : DbEngine; adapters : list DbEngine; enabled : bool }.
Record DbShellSession := mkDbSession { service : DbShellService; current_engine : DbEngine }.

Definition shell_new (e : DbEngine) (a : list DbEngine) : result DbShellService DbError :=
  if bool_decide (e ∈ a) then Ok (mkShell e a true) else Err (EngineNotConfigured e).
Definition adapter (s : DbShellService) (e : DbEngine) : result DbEngine DbError :=
  if bool_decide (e ∈ adapters s) then Ok e else Err (EngineNotConfigured e).
Definition create_session (s : DbShellService) : DbShellSession := mkDbSession s (default_engine s).
Definition guard_enabled (s : DbShellSession) : result unit DbError :=
  if enabled (service s) then Ok tt else Err (InvalidInput "db-shell service is disabled").
Definition switch_engine (s : DbShellSession) (e : DbEngine) : result DbShellSession DbError :=
  _ <-? guard_enabled s ;;
  if bool_decide (e = current_engine s) then Ok s
  else _ <-? adapter (service s) e ;; Ok (mkDbSession (service s) e).

Definition simple_query {D} `{DbAdminPort D} (s : DbShellSession) (d : D) (statement : text) : D * result (list DbExecutionResult) DbError :=
  match guard_enabled s with
  | Err e => (d, Err e)
  | Ok _ => match adapter (service s) (current_engine s) with
            | Err e => (d, Err e)
            | Ok e => port_query e d statement
            end
  end.

(** ** Migration files *)

(** A directory entry: its name, when it is UTF-8, and whether it is a file. *)
Record Entry := mkEntry { e_name : option string; e_is_file : bool }.
Inductive ReadDir := NoDir | DirError | Listing (entries : list (option Entry)).
Inductive FileRead := Gone | Unreadable | Payload (p : text).
Record Dir := mkDir { listing : ReadDir; read : string -> FileRead }.

Definition dot : Ascii.ascii := Ascii.ascii_of_nat 46.
Fixpoint rsplit_dot (s : string) : option (string * string) :=
  match s with
  | EmptyString => None
  | String c s => match rsplit_dot s with
                  | Some (a, b) => Some (String c a, b)
                  | None => if bool_decide (c = dot) then Some (EmptyString, s) else None
                  end
  end.
(** [Path::extension]: a name that starts with its only dot has none. *)
Definition extension (name : string) : option string :=
  if bool_decide (name = "..") then None
  else '(a, b) ← rsplit_dot name; if bool_decide (a = EmptyString) then None else Some b.

Inductive MigError :=
| ListFailed
| StateUnreadable
| ReadFailed (file : string)
| PersistFailed
| Db (e : DbError).

Definition list_sql_files_in (d : Dir) : result (list string) MigError :=
  match listing d with
  | NoDir => Ok []
  | DirError => Err ListFailed
  | Listing entries =>
      Ok (merge_sort String.le
            (omap (λ e, e ← e; if e_is_file e then n ← e_name e; if bool_decide (extension n = Some "sql") then Some n else None else None) entries))
  end.

(** ** State files *)

Record MigrationState := mkMState { applied : gset string; db_fingerprint : option string }.
Definition fresh_state : MigrationState := mkMState ∅ None.
Definition mark_applied (f : string) (s : MigrationState) : MigrationState := mkMState ({[f]} ∪ applied s) (db_fingerprint s).
Definition is_applied (f : string) (s : MigrationState) : bool := bool_decide (f ∈ applied s).
Definition clear (s : MigrationState) : MigrationState := mkMState ∅ (db_fingerprint s).
Definition set_fingerprint (fp : string) (s : MigrationState) : MigrationState := mkMState (applied s) (Some fp).

Record MigrationReport := mkReport { r_applied : list string; db_was_recreated : bool }.
Definition empty_report : MigrationReport := mkReport [] false.
Definition record (f : string) (r : MigrationReport) : MigrationReport := mkReport (r_applied r ++ [f]) (db_was_recreated r).

Inductive StateFile := Parsed (s : MigrationState) | Broken.

Definition state_file (runtime_dir : string) (e : DbEngine) : string := runtime_dir +:+ "/migrations/" +:+ engine_str e +:+ ".json".
Definition module_state_file (runtime_dir : string) (e : DbEngine) (module_id : string) : string :=
  runtime_dir +:+ "/migrations/" +:+ engine_str e +:+ "/" +:+ module_id +:+ ".json".

Record ModuleMigrationSource := mkSource { module_id : string; migrations_dir : Dir }.

Section Runner.
Context {D : Type} `{!DbAdminPort D} (outcome : nat -> option (option StateFile -> option StateFile)) (runtime_dir : string).

Record World := mkWorld { db : D; disk : gmap string StateFile; writes : nat; ran : list (string * string) }.

Definition load_state (path : string) (w : World) : result MigrationState MigError :=
  match disk w !! path with
  | None => Ok fresh_state
  | Some (Parsed s) => Ok s
  | Some Broken => Err StateUnreadable
  end.

Definition persist_state (path : string) (s : MigrationState) (w : World) : World * result unit MigError :=
  match outcome (writes w) with
  | None => (mkWorld (db w) (<[path := Parsed s]> (disk w)) (S (writes w)) (ran w), Ok tt)
  | Some torn => (mkWorld (db w) (put path (torn (disk w !! path)) (disk w)) (S (writes w)) (ran w), Err PersistFailed)
  end.

(** A query outside the migrations themselves. *)
Definition ask (ss : DbShellSession) (q : text) (w : World) : World * result (list DbExecutionResult) DbError :=
  let (d, r) := simple_query ss (db w) q in (mkWorld d (disk w) (writes w) (ran w), r).

(** One file of the loop: [label] is what the report calls it. *)
Definition apply_file (ss : DbShellSession) (path : string) (label : string -> string) (d : Dir) (file : string)
    (s : MigrationState) (r : MigrationReport) (w : World) : World * result (MigrationState * MigrationReport) MigError :=
  if is_applied file s then (w, Ok (s, r))
  else match read d file with
  | Gone => (w, Ok (s, r))
  | Unreadable => (w, Err (ReadFailed file))
  | Payload p =>
      if bool_decide (trim p = []) then
        match persist_state path (mark_applied file s) w with
        | (w, Ok _) => (w, Ok (mark_applied file s, r))
        | (w, Err e) => (w, Err e)
        end
      else
        match simple_query ss (db w) p with
        | (d', Err e) => (mkWorld d' (disk w) (writes w) (ran w), Err (Db e))
        | (d', Ok _) =>
            match persist_state path (mark_applied file s) (mkWorld d' (disk w) (writes w) (ran w ++ [(path, file)])) with
            | (w, Ok _) => (w, Ok (mark_applied file s, record (label file) r))
            | (w, Err e) => (w, Err e)
            end
        end
  end.

Fixpoint apply_files (ss : DbShellSession) (path : string) (label : string -> string) (d : Dir) (files : list string)
    (s : MigrationState) (r : MigrationReport) (w : World) : World * result (MigrationState * MigrationReport) MigError :=
  match files with
  | [] => (w, Ok (s, r))
  | file :: files =>
      match apply_file ss path label d file s r w with
      | (w, Ok (s, r)) => apply_files ss path label d files s r w
      | (w, Err e) => (w, Err e)
      end
  end.

(** The first value of a result set. *)
Definition first_value (r : result (list DbExecutionResult) DbError) : option string :=
  match r with Ok (ResultSet rs :: _) => head (rows rs) ≫= head | _ => None end.

Definition get_db_fingerprint (ss : DbShellSession) (e : DbEngine) (w : World) : World * option string :=
  match e with
  | Postgres => let (w, r) := ask ss (lit "SELECT oid::text FROM pg_database WHERE datname = current_database()") w in (w, first_value r)
  | _ => (w, None)
  end.

Definition tables_found (r : result (list DbExecutionResult) DbError) : bool :=
  match first_value r with Some v => bool_decide (v = "t" \/ v = "true" \/ v = "identity_keys") | None => false end.

Definition check_migrations_applied (ss : DbShellSession) (e : DbEngine) (w : World) : World * bool :=
  match e with
  | Postgres =>
      let (w, r) := ask ss (lit "SELECT EXISTS (SELECT 1 FROM information_schema.tables WHERE table_name = 'identity_keys')") w in (w, tables_found r)
  | Sqlite => let (w, r) := ask ss (lit "SELECT name FROM sqlite_master WHERE type='table' AND name='identity_keys'") w in (w, tables_found r)
  | _ => (w, true)
  end.

(** The two tests that reset the state when the database was recreated. *)
Definition detect_reset (ss : DbShellSession) (e : DbEngine) (s : MigrationState) (w : World)
    : World * (option string * MigrationState * MigrationReport) :=
  let (w, fp) := get_db_fingerprint ss e w in
  let changed := match db_fingerprint s, fp with Some stored, Some current => negb (bool_decide (stored = current)) | _, _ => false end in
  let s := if changed then clear s else s in
  let r := mkReport [] changed in
  if negb (bool_decide (applied s = ∅)) && negb changed then
    let (w, exist) := check_migrations_applied ss e w in
    if exist then (w, (fp, s, r)) else (w, (fp, clear s, mkReport [] true))
  else (w, (fp, s, r)).

Definition apply_pending_migrations (shell : DbShellService) (e : DbEngine) (d : Dir) (w : World) : World * result MigrationReport MigError :=
  match list_sql_files_in d with
  | Err err => (w, Err err)
  | Ok [] => (w, Ok empty_report)
  | Ok migrations =>
      match switch_engine (create_session shell) e with
      | Err err => (w, Err (Db err))
      | Ok ss =>
          let path := state_file runtime_dir e in
          match load_state path w with
          | Err err => (w, Err err)
          | Ok s =>
              let '(w, (fp, s, r)) := detect_reset ss e s w in
              match apply_files ss path (λ f, f) d migrations s r w with
              | (w, Err err) => (w, Err err)
              | (w, Ok (s, r)) =>
                  match fp with
                  | None => (w, Ok r)
                  | Some fp => match persist_state path (set_fingerprint fp s) w with (w, Ok _) => (w, Ok r) | (w, Err err) => (w, Err err) end
                  end
              end
          end
      end
  end.

Fixpoint apply_sources (ss : DbShellSession) (e : DbEngine) (sources : list ModuleMigrationSource) (r : MigrationReport) (w : World)
    : World * result MigrationReport MigError :=
  match sources with
  | [] => (w, Ok r)
  | source :: sources =>
      let path := module_state_file runtime_dir e (module_id source) in
      match load_state path w with
      | Err err => (w, Err err)
      | Ok s =>
          match list_sql_files_in (migrations_dir source) with
          | Err err => (w, Err err)
          | Ok files =>
              match apply_files ss path (λ f, module_id source +:+ ":" +:+ f) (migrations_dir source) files s r w with
              | (w, Err err) => (w, Err err)
              | (w, Ok (_, r)) => apply_sources ss e sources r w
              end
          end
      end
  end.

Definition apply_module_migrations (shell : DbShellService) (e : DbEngine) (sources : list ModuleMigrationSource) (w : World)
    : World * result MigrationReport MigError :=
  match sources with
  | [] => (w, Ok empty_report)
  | _ => match switch_engine (create_session shell) e with
         | Err err => (w, Err (Db err))
         | Ok ss => apply_sources ss e sources empty_report w
         end
  end.

(** ** Every file once

    A file whose statements succeeded is marked in its state file. *)

Definition marked (o : option StateFile) (f : string) : Prop := exists s, o = Some (Parsed s) /\ f ∈ applied s.
Record accounted (w : World) : Prop := {
  acc_once : NoDup (ran w);
  acc_marked : forall p f, (p, f) ∈ ran w -> marked (disk w !! p) f;
}.

(** The state in memory is the one in the file. *)
Definition represents (o : option StateFile) (s : MigrationState) : Prop := o = Some (Parsed s) \/ (o = None /\ s = fresh_state).

Lemma load_represents path w s : load_state path w = Ok s -> represents (disk w !! path) s.
Proof. unfold load_state, represents. destruct (disk w !! path) as [[]|]; intros [=]; subst; auto. Qed.

Lemma represents_marked o s f : represents o s -> marked o f -> f ∈ applied s.
Proof. intros [->|[-> ->]] (s' & [=] & Hf). by subst. Qed.

Definition handled (d : Dir) (s : MigrationState) (f : string) : Prop := f ∈ applied s \/ read d f = Gone.

(** What a run of the loop did: the new executions are files of the list in
    their order, and the report names them. *)
Record progress (path : string) (label : string -> string) (files : list string) (s s' : MigrationState) (r r' : MigrationReport) (w w' : World) : Prop := {
  pr_ran : exists new, new `sublist_of` files /\ ran w' = ran w ++ (pair path <$> new) /\ r_applied r' = r_applied r ++ (label <$> new);
  pr_applied : applied s ⊆ applied s';
  pr_fingerprint : db_fingerprint s' = db_fingerprint s;
  pr_acc : accounted w';
  pr_rep : represents (disk w' !! path) s';
  pr_frame : forall p, p <> path -> disk w' !! p = disk w !! p;
}.

Section NoWriteFails.
Hypothesis writes_succeed : forall n, outcome n = None.

Lemma persist_ok path s w : persist_state path s w = (mkWorld (db w) (<[path := Parsed s]> (disk w)) (S (writes w)) (ran w), Ok tt).
Proof. unfold persist_state. by rewrite writes_succeed. Qed.

Lemma accounted_mark path f s w d n : accounted w -> represents (disk w !! path) s ->
  accounted (mkWorld d (<[path := Parsed (mark_applied f s)]> (disk w)) n (ran w)) /\
  (f ∉ applied s -> accounted (mkWorld d (<[path := Parsed (mark_applied f s)]> (disk w)) n (ran w ++ [(path, f)]))).
Proof.
  intros [Hnd Hm] Hrep.
  assert (Hk : forall p g, (p, g) ∈ ran w -> marked (<[path := Parsed (mark_applied f s)]> (disk w) !! p) g).
  { intros p g Hg. destruct (decide (p = path)) as [->|]; [|rewrite lookup_insert_ne by done; auto]. rewrite lookup_insert_eq. eexists. split; [done|].
    cbn. apply elem_of_union_r. eapply represents_marked; eauto. }
  split; [by split|]. intros Hf. split; cbn.
  - apply NoDup_app. split_and!; [done| |apply NoDup_singleton]. intros [p g] Hg Hx%list_elem_of_singleton. injection Hx as -> ->.
    apply Hf. eapply represents_marked; eauto.
  - intros p g [Hg|Hg%list_elem_of_singleton]%elem_of_app; [auto|]. injection Hg as -> ->. rewrite lookup_insert_eq. eexists. split; [done|]. cbn. set_solver.
Qed.

Lemma accounted_db d w : accounted w -> accounted (mkWorld d (disk w) (writes w) (ran w)).
Proof. by intros []. Qed.

Lemma apply_file_step ss path label d file s r w : accounted w -> represents (disk w !! path) s ->
  match apply_file ss path label d file s r w with
  | (w', Ok (s', r')) => progress path label [file] s s' r r' w w' /\ handled d s' file
  | (w', Err _) => accounted w' /\ disk w' = disk w /\ ran w' = ran w
  end.
Proof.
  intros Hacc Hrep. assert (Hskip : handled d s file -> progress path label [file] s s r r w w /\ handled d s file).
  { intros Hh. split; [|done]. split; try done. exists []. cbn. rewrite !app_nil_r. split_and!; [apply sublist_nil_l|done|done]. }
  unfold apply_file, is_applied. case_bool_decide as Hin; [apply Hskip; by left|].
  destruct (read d file) as [| |p] eqn:Er; [apply Hskip; by right|done|]. case_bool_decide as Hblank.
  - rewrite persist_ok. destruct (accounted_mark path file s w (db w) (S (writes w)) Hacc Hrep) as [Ha _]. split; [|left; cbn; set_solver].
    split; cbn; [|set_solver|done|done|left; by rewrite lookup_insert_eq|intros; by rewrite lookup_insert_ne].
    exists []. cbn. rewrite !app_nil_r. split_and!; [apply sublist_nil_l|done|done].
  - destruct (simple_query ss (db w) p) as [d' [res|e]]; [|split_and!; [by apply accounted_db|done|done]]. rewrite persist_ok. cbn [db disk writes ran].
    destruct (accounted_mark path file s w d' (S (writes w)) Hacc Hrep) as [_ Ha]. specialize (Ha Hin). split; [|left; cbn; set_solver].
    split; cbn; [|set_solver|done|done|left; by rewrite lookup_insert_eq|intros; by rewrite lookup_insert_ne].
    exists [file]. done.
Qed.

Lemma progress_trans path label fs gs s1 s2 s3 r1 r2 r3 w1 w2 w3 :
  progress path label fs s1 s2 r1 r2 w1 w2 -> progress path label gs s2 s3 r2 r3 w2 w3 -> progress path label (fs ++ gs) s1 s3 r1 r3 w1 w3.
Proof.
  intros [(n1 & Hs1 & Hr1 & Hp1) Ha1 Hf1 _ _ Hk1] [(n2 & Hs2 & Hr2 & Hp2) Ha2 Hf2 Hacc Hrep Hk2].
  split; [|set_solver|congruence|done|done|intros p Hp; by rewrite Hk2, Hk1]. exists (n1 ++ n2). split; [by apply sublist_app|].
  rewrite Hr2, Hr1, Hp2, Hp1, !fmap_app, !app_assoc. done.
Qed.

Lemma apply_files_steps ss path label d files s r w : accounted w -> represents (disk w !! path) s ->
  match apply_files ss path label d files s r w with
  | (w', Ok (s', r')) => progress path label files s s' r r' w w' /\ Forall (handled d s') files
  | (w', Err _) => accounted w'
  end.
Proof.
  revert s r w. induction files as [|f files IH]; intros s r w Hacc Hrep; cbn.
  - split; [|constructor]. split; try done. exists []. cbn. rewrite !app_nil_r. split_and!; [apply sublist_nil_l|done|done].
  - pose proof (apply_file_step ss path label d f s r w Hacc Hrep) as H. destruct (apply_file ss path label d f s r w) as [w1 [[s1 r1]|e]]; [|by destruct H].
    destruct H as [H1 Hf]. specialize (IH s1 r1 w1 (pr_acc _ _ _ _ _ _ _ _ _ H1) (pr_rep _ _ _ _ _ _ _ _ _ H1)).
    destruct (apply_files ss path label d files s1 r1 w1) as [w2 [[s2 r2]|e]]; [|done]. destruct IH as [H2 Hfs]. split; [by apply (progress_trans path label [f] files _ _ _ _ _ _ _ _ _ H1 H2)|].
    constructor; [|done]. destruct Hf as [Hf|Hf]; [left|by right]. by apply (pr_applied _ _ _ _ _ _ _ _ _ H2).
Qed.

(** A list of handled files is skipped. *)
Lemma apply_files_done ss path label d files s r w : Forall (handled d s) files -> apply_files ss path label d files s r w = (w, Ok (s, r)).
Proof.
  induction 1 as [|f files [Hf|Hf] _ IH]; cbn; [done|..]; unfold apply_file, is_applied.
  - by rewrite bool_decide_eq_true_2.
  - case_bool_decide; [done|]. by rewrite Hf.
Qed.

(** State files that load keep loading, and forget no file. *)
Definition keeps (w w' : World) : Prop := forall p s, load_state p w = Ok s -> exists s', load_state p w' = Ok s' /\ applied s ⊆ applied s'.

Lemma represents_load path w s : represents (disk w !! path) s -> load_state path w = Ok s.
Proof. unfold load_state. by intros [->|[-> ->]]. Qed.

Lemma progress_keeps path label files s s' r r' w w' : represents (disk w !! path) s -> progress path label files s s' r r' w w' -> keeps w w'.
Proof.
  intros Hrep [_ Ha _ _ Hrep' Hk] p s0 Hl. destruct (decide (p = path)) as [->|Hne]; [|exists s0; unfold load_state in *; by rewrite Hk].
  apply represents_load in Hrep. assert (s0 = s) as -> by congruence. exists s'. split; [by apply represents_load|done].
Qed.

Lemma handled_marked d o s f : represents o s -> handled d s f -> marked o f \/ read d f = Gone.
Proof. intros [->|[-> ->]] [Hf|Hf]; auto; [left; by eexists|]. by apply not_elem_of_empty in Hf. Qed.

Definition settled_source (e : DbEngine) (w : World) (src : ModuleMigrationSource) : Prop :=
  exists files s, list_sql_files_in (migrations_dir src) = Ok files /\
  load_state (module_state_file runtime_dir e (module_id src)) w = Ok s /\ Forall (handled (migrations_dir src) s) files.

Lemma apply_sources_steps ss e sources r w : accounted w ->
  match apply_sources ss e sources r w with
  | (w', Ok _) => accounted w' /\ keeps w w' /\ Forall (settled_source e w') sources
  | (w', Err _) => accounted w'
  end.
Proof.
  revert r w. induction sources as [|src sources IH]; intros r w Hacc; cbn; [split_and!; [done| |done]; intros p s Hs; by exists s|].
  set (path := module_state_file _ _ _).
  destruct (load_state path w) as [s|] eqn:El; [|done]. apply load_represents in El. destruct (list_sql_files_in _) as [files|] eqn:Ef; [|done].
  pose proof (apply_files_steps ss path (λ f, module_id src +:+ ":" +:+ f) (migrations_dir src) files s r w Hacc El) as H.
  destruct (apply_files ss path _ _ files s r w) as [w1 [[s1 r1]|]]; [|done]. destruct H as [H Hh]. specialize (IH r1 w1 (pr_acc _ _ _ _ _ _ _ _ _ H)).
  destruct (apply_sources ss e sources r1 w1) as [w2 [r2|]]; [|done]. destruct IH as (Hacc2 & Hmono & Hall). split_and!; [done| |].
  - intros p s0 Hs0. eapply progress_keeps in Hs0 as (s0' & Hs0 & Hle); [|done|done]. apply Hmono in Hs0 as (s0'' & Hs0 & Hle'). exists s0''. split; [done|set_solver].
  - constructor; [|done]. pose proof (represents_load _ _ _ (pr_rep _ _ _ _ _ _ _ _ _ H)) as Hl. apply Hmono in Hl as (s2 & Hl & Hle).
    exists files, s2. split_and!; [done|done|]. eapply Forall_impl; [exact Hh|]. intros f [Hf|Hf]; [left; by apply Hle|by right].
Qed.

Lemma apply_sources_done ss e sources r w : Forall (settled_source e w) sources -> apply_sources ss e sources r w = (w, Ok r).
Proof.
  intros H. revert r. induction H as [|src sources (files & s & Hf & Hl & Hh) _ IH]; intros r; cbn; [done|]. rewrite Hl, Hf, apply_files_done by done. apply IH.
Qed.

Lemma ask_frame ss q w : let w' := (ask ss q w).1 in disk w' = disk w /\ ran w' = ran w /\ writes w' = writes w.
Proof. unfold ask. by destruct (simple_query ss (db w) q). Qed.

Lemma detect_reset_frame ss e s w : let w' := (detect_reset ss e s w).1 in disk w' = disk w /\ ran w' = ran w /\ writes w' = writes w.
Proof.
  unfold detect_reset, get_db_fingerprint, check_migrations_applied. destruct e; cbn -[ask];
    repeat (match goal with |- context [ask ?ss ?q ?w] => let H := fresh in pose proof (ask_frame ss q w) as H; destruct (ask ss q w); cbn in H; destruct_and? H end; cbn -[ask]);
    repeat (case_match; cbn -[ask] in *); simplify_eq; split_and!; congruence.
Qed.

(** The run finds the database it knows. *)
Definition known_database (shell : DbShellService) (e : DbEngine) (w : World) : Prop :=
  forall ss s, switch_engine (create_session shell) e = Ok ss -> load_state (state_file runtime_dir e) w = Ok s ->
  db_was_recreated (detect_reset ss e s w).2.2 = false.

Lemma detect_reset_keeps ss e s w : db_was_recreated (detect_reset ss e s w).2.2 = false ->
  (detect_reset ss e s w).2.1.2 = s /\ (detect_reset ss e s w).2.2 = empty_report.
Proof.
  unfold detect_reset. destruct (get_db_fingerprint ss e w) as [w1 fp]. set (changed := match db_fingerprint s with Some _ => _ | None => _ end).
  destruct changed; [rewrite andb_false_r; done|]. case_match; [|done]. destruct (check_migrations_applied ss e w1) as [w2 []]; done.
Qed.

Lemma apply_pending_steps shell e d w : accounted w -> known_database shell e w ->
  match apply_pending_migrations shell e d w with
  | (w', Ok r) => accounted w' /\ exists files, list_sql_files_in d = Ok files /\
      Forall (λ f, marked (disk w' !! state_file runtime_dir e) f \/ read d f = Gone) files /\
      r_applied r `sublist_of` files /\ ran w' = ran w ++ (pair (state_file runtime_dir e) <$> r_applied r)
  | (w', Err _) => accounted w'
  end.
Proof.
  intros Hacc Hknown. unfold apply_pending_migrations. destruct (list_sql_files_in d) as [[|f0 files]|];
    [split; [done|]; exists []; cbn; rewrite app_nil_r; split_and!; [done|constructor|constructor|done]| |done].
  destruct (switch_engine (create_session shell) e) as [ss|] eqn:Es; [|done]. set (path := state_file runtime_dir e).
  destruct (load_state path w) as [s|] eqn:El; [|done]. specialize (Hknown ss s Es El). apply detect_reset_keeps in Hknown as [Hs Hr].
  pose proof (detect_reset_frame ss e s w) as (Hd & Hran & Hw). destruct (detect_reset ss e s w) as [w1 [[fp s1] r1]]. cbn [fst snd] in *. subst s1 r1.
  apply load_represents in El. rewrite <- Hd in El. assert (Hacc1 : accounted w1) by (destruct Hacc as [H1 H2]; split; rewrite ?Hran, ?Hd; done).
  pose proof (apply_files_steps ss path (λ f, f) d (f0 :: files) s empty_report w1 Hacc1 El) as H.
  destruct (apply_files ss path (λ f, f) d (f0 :: files) s empty_report w1) as [w2 [[s2 r2]|]]; [|done]. destruct H as [H Hh].
  destruct (pr_ran _ _ _ _ _ _ _ _ _ H) as (new & Hsub & Hnew & Hrep2). cbn in Hrep2. rewrite list_fmap_id in Hrep2. rewrite <- Hrep2 in *.
  assert (Hh' : forall o s', represents o s' -> applied s' = applied s2 -> Forall (λ f, marked o f \/ read d f = Gone) (f0 :: files)).
  { intros o s' Ho Ha. eapply Forall_impl; [exact Hh|]. intros f Hf. eapply handled_marked; [exact Ho|]. unfold handled. by rewrite Ha. }
  destruct fp as [fp|]; [rewrite persist_ok|]; (split; [|exists (f0 :: files); split_and!; [done| |done|cbn; by rewrite Hnew, Hran]]).
  - destruct H as [_ _ _ [Hnd Hm] Hrep _]. split; [done|]. cbn. intros p f Hf. specialize (Hm p f Hf).
    destruct (decide (p = path)) as [->|]; [|by rewrite lookup_insert_ne]. rewrite lookup_insert_eq. eexists. split; [done|]. cbn. by eapply represents_marked.
  - cbn [disk]. apply (Hh' _ (set_fingerprint fp s2)); [|done]. left. by rewrite lookup_insert_eq.
  - apply H.
  - apply (Hh' _ s2); [apply H|done].
Qed.

(** Runs of the host and of the modules, with any change of the database
    between them; the host finds the database it knows. *)
Inductive mig_step : World -> World -> Prop :=
| step_modules shell e sources w : mig_step w (apply_module_migrations shell e sources w).1
| step_host shell e d w : known_database shell e w -> mig_step w (apply_pending_migrations shell e d w).1
| step_database d w : mig_step w (mkWorld d (disk w) (writes w) (ran w)).

Lemma mig_step_accounted w w' : mig_step w w' -> accounted w -> accounted w'.
Proof.
  intros [shell e sources w1|shell e d w1 Hk|d w1] Hacc; [| |by apply accounted_db].
  - unfold apply_module_migrations. destruct sources as [|src sources]; [done|]. destruct (switch_engine _ e) as [ss|]; [|done].
    pose proof (apply_sources_steps ss e (src :: sources) empty_report w1 Hacc) as H. destruct (apply_sources _ _ _ _ _) as [w2 [r|]]; [by destruct H|done].
  - pose proof (apply_pending_steps shell e d w1 Hacc Hk) as H. destruct (apply_pending_migrations shell e d w1) as [w2 [r|]]; [by destruct H|done].
Qed.
End NoWriteFails.

(** Over any number of runs, of the host and of the modules, failed ones
    included, the statements of a migration file succeed at most once per
    state file, and every file that succeeded is marked in its state file:
    a run after a failure resumes behind the files that went through. *)
Theorem migrations_run_once w0 w : (forall n, outcome n = None) -> ran w0 = [] -> rtc mig_step w0 w ->
  NoDup (ran w) /\ forall p f, (p, f) ∈ ran w -> exists s, disk w !! p = Some (Parsed s) /\ f ∈ applied s.
Proof.
  intros Hw H0 Hrun. assert (accounted w) as [H1 H2]; [|by split].
  assert (accounted w0) as Hacc by (split; rewrite H0; [constructor|set_solver]). revert Hacc. clear H0. induction Hrun; [done|]. intros Hacc. eauto using mig_step_accounted.
Qed.

(** When a run over the modules succeeds, a second run changes nothing: it
    sends no statement, writes no file and reports nothing. *)
Theorem module_rerun_applies_nothing shell e sources w w' r : (forall n, outcome n = None) -> accounted w ->
  apply_module_migrations shell e sources w = (w', Ok r) -> apply_module_migrations shell e sources w' = (w', Ok empty_report).
Proof.
  intros Hw Hacc. unfold apply_module_migrations. destruct sources as [|src sources]; [by intros [= <- _]|].
  destruct (switch_engine _ e) as [ss|]; [|done]. intros Hrun. pose proof (apply_sources_steps Hw ss e (src :: sources) empty_report w Hacc) as H. rewrite Hrun in H.
  by apply apply_sources_done, H.
Qed.

Lemma listing_sorted d files : list_sql_files_in d = Ok files -> StronglySorted String.le files.
Proof. unfold list_sql_files_in. destruct (listing d); intros [= <-]; [constructor|]. apply StronglySorted_merge_sort; apply _. Qed.

(** A run of the host that finds its database applies the pending files in
    the order of their names, reports exactly those, and afterwards every
    file of the directory is marked in the state file. *)
Theorem pending_in_order shell e d w w' r : (forall n, outcome n = None) -> accounted w -> known_database shell e w ->
  apply_pending_migrations shell e d w = (w', Ok r) ->
  StronglySorted String.le (r_applied r) /\ ran w' = ran w ++ (pair (state_file runtime_dir e) <$> r_applied r) /\
  exists files, list_sql_files_in d = Ok files /\
  forall f, f ∈ files -> read d f <> Gone -> exists s, disk w' !! state_file runtime_dir e = Some (Parsed s) /\ f ∈ applied s.
Proof.
  intros Hw Hacc Hk Hrun. pose proof (apply_pending_steps Hw shell e d w Hacc Hk) as H. rewrite Hrun in H.
  destruct H as (_ & files & Hl & Hall & Hsub & Hran). split_and!; [|done|].
  - eapply strongly_sorted_sublist; [done|]. by eapply listing_sorted.
  - exists files. split; [done|]. intros f Hf Hg. rewrite Forall_forall in Hall. by destruct (Hall f Hf).
Qed.
End Runner.

(** ** Concrete runs

    A database with an identity that accepts statements other than the ones
    it is told to refuse. *)
Record demo_db := mkDemo { oid : string; refuses : text }.
#[global] Instance demo_port : DbAdminPort demo_db := {|
  port_query e d q :=
    if bool_decide (q = lit "SELECT oid::text FROM pg_database WHERE datname = current_database()") then (d, Ok [ResultSet (mkResultSet ["oid"] [[oid d]])])
    else if bool_decide (q = lit "SELECT EXISTS (SELECT 1 FROM information_schema.tables WHERE table_name = 'identity_keys')")
    then (d, Ok [ResultSet (mkResultSet ["exists"] [["t"]])])
    else if bool_decide (q = refuses d) then (d, Err (QueryError "refused")) else (d, Ok [CommandTag "OK"]) |}.

Definition demo_shell : DbShellService := mkShell Postgres [Postgres] true.
Definition demo_dir : Dir := mkDir
  (Listing [Some (mkEntry (Some "002_b.sql") true); None; Some (mkEntry (Some "001_a.sql") true); Some (mkEntry (Some "README.md") true)])
  (λ f, if bool_decide (f = "001_a.sql") then Payload (lit "CREATE TABLE a") else if bool_decide (f = "002_b.sql") then Payload (lit "CREATE TABLE b") else Gone).
Definition all_written : nat -> option (option StateFile -> option StateFile) := λ _, None.
Definition demo_world (d : demo_db) : World := mkWorld d ∅ 0 [].

Example demo_listing : list_sql_files_in demo_dir = Ok ["001_a.sql"; "002_b.sql"].
Proof. vm_compute. reflexivity. Qed.

Lemma migrations_run_once_witness :
  let w := (apply_module_migrations all_written "rt" demo_shell Postgres [mkSource "web" demo_dir] (demo_world (mkDemo "1" (lit "CREATE TABLE b")))).1 in
  ran w = [("rt/migrations/postgres/web.json", "001_a.sql")] /\ NoDup (ran w) /\
  forall p f, (p, f) ∈ ran w -> exists s, disk w !! p = Some (Parsed s) /\ f ∈ applied s.
Proof.
  intros w. split; [vm_compute; reflexivity|]. apply (migrations_run_once all_written "rt" (demo_world (mkDemo "1" (lit "CREATE TABLE b")))); [done|done|].
  eapply rtc_l; [|apply rtc_refl]. apply (step_modules all_written "rt" demo_shell Postgres [mkSource "web" demo_dir]).
Defined.

Lemma demo_accounted d : accounted (demo_world d).
Proof. split; cbn; [constructor|set_solver]. Qed.

Lemma module_rerun_applies_nothing_witness :
  let run := apply_module_migrations all_written "rt" demo_shell Postgres [mkSource "web" demo_dir] in
  let w := demo_world (mkDemo "1" (lit "none")) in
  is_ok (run w).2 = true /\ run (run w).1 = ((run w).1, Ok empty_report).
Proof.
  intros run w. split; [vm_compute; reflexivity|].
  assert (exists r, (run w).2 = Ok r) as [r Hr] by (assert (is_ok (run w).2 = true) by (vm_compute; reflexivity); destruct ((run w).2); [eauto|done]).
  apply (module_rerun_applies_nothing all_written "rt" demo_shell Postgres [mkSource "web" demo_dir] w (run w).1 r); [done|apply demo_accounted|].
  fold run. rewrite <- Hr. apply surjective_pairing.
Defined.

Lemma pending_in_order_witness :
  let run := apply_pending_migrations all_written "rt" demo_shell Postgres demo_dir in
  let w := demo_world (mkDemo "1" (lit "none")) in
  match (run w).2 with
  | Ok r => StronglySorted String.le (r_applied r) /\ ran (run w).1 = ran w ++ (pair (state_file "rt" Postgres) <$> r_applied r)
  | Err _ => False
  end.
Proof.
  intros run w. destruct ((run w).2) as [r|e] eqn:Hr; [|assert (is_ok (run w).2 = true) as H by (vm_compute; reflexivity); by rewrite Hr in H].
  destruct (pending_in_order all_written "rt" demo_shell Postgres demo_dir w (run w).1 r) as (H1 & H2 & _); [done|apply demo_accounted|..|by split].
  - intros ss s Hss Hs. injection Hs as <-. injection Hss as <-. vm_compute. reflexivity.
  - fold run. rewrite <- Hr. apply surjective_pairing.
Defined.

(** After the database was recreated (its identity is not the stored one),
    a run that applies the first file and fails at the second stores the
    first file as applied but not the new identity, so the next run resets
    the state once more and sends the first file again to the database
    that already has it. *)
Theorem recreated_database_reruns :
  let known := mkMState {["001_a.sql"; "002_b.sql"]} (Some "1") in
  let w0 := mkWorld (mkDemo "2" (lit "CREATE TABLE b")) {["rt/migrations/postgres.json" := Parsed known]} 0 [] in
  let run := apply_pending_migrations all_written "rt" demo_shell Postgres demo_dir in
  let w1 := (run w0).1 in
  is_ok (run w0).2 = false /\ ran w1 = [("rt/migrations/postgres.json", "001_a.sql")] /\
  (exists s, disk w1 !! "rt/migrations/postgres.json" = Some (Parsed s) /\ "001_a.sql" ∈ applied s /\ db_fingerprint s = Some "1") /\
  ran (run w1).1 = [("rt/migrations/postgres.json", "001_a.sql"); ("rt/migrations/postgres.json", "001_a.sql")].
Proof.
  intros known w0 run w1. split_and!; [vm_compute; reflexivity..| |vm_compute; reflexivity].
  exists (mkMState {["001_a.sql"]} (Some "1")). split_and!; [vm_compute; reflexivity|set_solver|done].
Qed.
