(* ===== verification/Ports.v ===== *)
(** * Ports of the modules ([services/module/ports.rs],
    the port section of [config/model.rs])

    Which local port each module gets.  Whether a port can be bound is a
    question to the operating system, asked again for every candidate:
    the argument [available].  [writes] says whether a write of the state
    file succeeds; a failed one leaves what the file system left. *)

From S2P Require Import Prelude Text Manifests.
#[local] Open Scope fenrir_scope.

#[global] Instance module_id_dec : EqDecision ModuleId.
Proof. solve_decision. Defined.
#[global] Instance module_id_countable : Countable ModuleId.
Proof. apply (inj_countable' id_text mkId). by intros []. Defined.

#[global] Instance id_text_inj : Inj (=) (=) id_text.
Proof. intros [] [] H. cbn in H. by subst. Qed.

Inductive ModulePortStrategy := Dynamic | Fixed.
Record ModulePortRange := mkRange { min : Z; max : Z }.
Definition range_contains (r : ModulePortRange) (port : Z) : bool := (min r <=? port) && (port <=? max r).

Inductive ConfigError := PortZero | RangeEmpty | RangeTooSmall.
Definition validate (s : ModulePortStrategy) (r : ModulePortRange) : result unit ConfigError :=
  match s with
  | Dynamic =>
      if (min r =? 0) || (max r =? 0) then Err PortZero
      else if max r <=? min r then Err RangeEmpty
      else if Z.max (max r - min r) 0 <? 10 then Err RangeTooSmall
      else Ok tt
  | Fixed => Ok tt
  end.

(** The state file: absent, unreadable, or the assignments by the text of the id. *)
Inductive PortFile := NoFile | BadFile | Assigned (m : gmap text Z).

Record ModulePortAllocator := mkAllocator {
  strategy : ModulePortStrategy;
  range : ModulePortRange;
  assignments : gmap ModuleId Z;
  state_path : PortFile;
}.

Inductive ModuleRuntimeError := NoAvailablePorts (range_start range_end : Z).

(** [HashMap<String, u16>] to [HashMap<ModuleId, u16>]: entries whose name is no
    module id are dropped.  Two names can be one id (they are trimmed), so
    the order [iter] in which the map of the file is iterated matters. *)
Definition load_state (iter : gmap text Z -> list (text * Z)) (f : PortFile) : gmap ModuleId Z :=
  match f with
  | NoFile | BadFile => ∅
  | Assigned m => foldl (λ acc e, match ModuleId_new e.1 with Ok i => <[i := e.2]> acc | Err _ => acc end) ∅ (iter m)
  end.

Definition allocator_new (iter : gmap text Z -> list (text * Z)) (s : ModulePortStrategy) (r : ModulePortRange) (f : PortFile) : ModulePortAllocator :=
  mkAllocator s r (load_state iter f) f.

Definition serialized (m : gmap ModuleId Z) : gmap text Z := kmap id_text m.

Definition set_assignments (m : gmap ModuleId Z) (f : PortFile) (a : ModulePortAllocator) : ModulePortAllocator :=
  mkAllocator (strategy a) (range a) m f.

(** What a write leaves: the assignments, or after a failure [left]. *)
Definition persist (left : option PortFile) (m : gmap ModuleId Z) : PortFile := default (Assigned (serialized m)) left.

Definition release (left : option PortFile) (i : ModuleId) (a : ModulePortAllocator) : ModulePortAllocator :=
  match strategy a with
  | Fixed => a
  | Dynamic =>
      match assignments a !! i with
      | None => a
      | Some _ => let m := delete i (assignments a) in set_assignments m (persist left m) a
      end
  end.

Definition record_assigned (left : option PortFile) (i : ModuleId) (port : Z) (a : ModulePortAllocator) : ModulePortAllocator :=
  match strategy a with
  | Fixed => a
  | Dynamic =>
      if bool_decide (assignments a !! i = Some port) then a
      else let m := <[i := port]> (assignments a) in set_assignments m (persist left m) a
  end.

(** [guard.values().any(..)]. *)
Definition taken (m : gmap ModuleId Z) (port : Z) : bool := existsb (λ e, e.2 =? port) (map_to_list m).

(** The candidates [min..=max]. *)
Definition candidates (r : ModulePortRange) : list Z := seqZ (min r) (max r - min r + 1).

Definition allocate_dynamic (available : Z -> bool) (left1 left2 : option PortFile) (i : ModuleId) (a : ModulePortAllocator)
    : ModulePortAllocator * result (option Z) ModuleRuntimeError :=
  let search a :=
    match find (λ c, negb (taken (assignments a) c) && available c) (candidates (range a)) with
    | Some c => let m := <[i := c]> (assignments a) in (set_assignments m (persist left2 m) a, Ok (Some c))
    | None => (a, Err (NoAvailablePorts (min (range a)) (max (range a))))
    end in
  match assignments a !! i with
  | Some current =>
      if available current then (a, Ok (Some current))
      else let m := delete i (assignments a) in search (set_assignments m (persist left1 m) a)
  | None => search a
  end.

Definition assigned_port (available : Z -> bool) (left1 left2 : option PortFile) (i : ModuleId) (a : ModulePortAllocator)
    : ModulePortAllocator * result (option Z) ModuleRuntimeError :=
  match strategy a with
  | Fixed => (a, Ok None)
  | Dynamic => allocate_dynamic available left1 left2 i a
  end.

(** ** Distinct ports *)

Definition one_each (m : gmap ModuleId Z) : Prop := forall i j p, m !! i = Some p -> m !! j = Some p -> i = j.

Lemma taken_spec m p : taken m p = true <-> exists i, m !! i = Some p.
Proof.
  unfold taken. rewrite existsb_exists. split.
  - intros ([i q] & Hin & Hq). apply list_elem_of_In, elem_of_map_to_list in Hin. cbn in Hq. apply Z.eqb_eq in Hq. subst. eauto.
  - intros [i Hi]. exists (i, p). split; [by apply list_elem_of_In, elem_of_map_to_list|apply Z.eqb_refl].
Qed.

Lemma one_each_delete m i : one_each m -> one_each (delete i m).
Proof. intros H j k p Hj Hk. apply lookup_delete_Some in Hj as [_ Hj], Hk as [_ Hk]. eauto. Qed.

Lemma one_each_insert m i p : one_each m -> taken m p = false -> one_each (<[i := p]> m).
Proof.
  intros H Ht. assert (Hfree : forall j, m !! j <> Some p) by (intros j Hj; rewrite (proj2 (taken_spec m p)) in Ht; [done|eauto]).
  intros j k q. rewrite !lookup_insert_Some. intros [[<- <-]|[Hj Hjq]] [[<- Hk]|[Hk Hkq]]; try done; [by apply Hfree in Hkq|subst; by apply Hfree in Hjq|eauto].
Qed.

(** The search takes the first candidate. *)
Lemma find_seqZ f n m p : find f (seqZ m (Z.of_nat n)) = Some p ->
  m <= p < m + Z.of_nat n /\ f p = true /\ forall q, m <= q < p -> f q = false.
Proof.
  revert m. induction n as [|n IH]; intros m; [done|]. rewrite seqZ_cons by lia. cbn [find]. destruct (f m) eqn:Em.
  - intros [= <-]. split_and!; [lia|lia|done|lia].
  - replace (Z.pred (Z.of_nat (S n))) with (Z.of_nat n) by lia. intros H. apply IH in H as (H1 & H2 & H3). split_and!; [lia|lia|done|].
    intros q Hq. destruct (decide (q = m)) as [->|]; [done|]. apply H3. lia.
Qed.

Lemma find_candidate f r p : find f (candidates r) = Some p ->
  min r <= p <= max r /\ f p = true /\ forall q, min r <= q < p -> f q = false.
Proof.
  unfold candidates. destruct (decide (max r - min r + 1 < 0)) as [Hneg|]; [by rewrite seqZ_nil by lia|].
  rewrite <- (Z2Nat.id (max r - min r + 1)) by lia. intros H. apply find_seqZ in H as (H1 & H2 & H3). split_and!; [lia|lia|done|done].
Qed.

Lemma no_candidate f r p : find f (candidates r) = None -> min r <= p <= max r -> f p = false.
Proof. intros H Hp. apply (find_none _ _ H). apply list_elem_of_In, elem_of_seqZ. lia. Qed.

(** The assignments the search starts from. *)
Definition reclaimed (available : Z -> bool) (i : ModuleId) (a : ModulePortAllocator) : gmap ModuleId Z :=
  match assignments a !! i with
  | Some current => if available current then assignments a else delete i (assignments a)
  | None => assignments a
  end.

Lemma allocate_cases available left1 left2 i a :
  let m := reclaimed available i a in
  match allocate_dynamic available left1 left2 i a with
  | (a', Ok (Some p)) =>
      available p = true /\ assignments a' !! i = Some p /\ range a' = range a /\ strategy a' = strategy a /\
      (assignments a !! i = Some p /\ a' = a \/
       min (range a) <= p <= max (range a) /\ taken m p = false /\ assignments a' = <[i := p]> m /\
       forall q, min (range a) <= q < p -> taken m q = true \/ available q = false)
  | (a', Ok None) => False
  | (a', Err e) => e = NoAvailablePorts (min (range a)) (max (range a)) /\ assignments a' = m /\ m !! i = None /\
      range a' = range a /\ strategy a' = strategy a /\
      forall q, min (range a) <= q <= max (range a) -> taken m q = true \/ available q = false
  end.
Proof.
  intros m. unfold allocate_dynamic. set (f := λ (m : gmap ModuleId Z) c, negb (taken m c) && available c).
  assert (Hsearch : forall a0, assignments a0 = m -> m !! i = None -> range a0 = range a -> strategy a0 = strategy a ->
    match find (f (assignments a0)) (candidates (range a0)) with
    | Some p => available p = true /\ min (range a) <= p <= max (range a) /\ taken m p = false /\
        forall q, min (range a) <= q < p -> taken m q = true \/ available q = false
    | None => forall q, min (range a) <= q <= max (range a) -> taken m q = true \/ available q = false
    end).
  { intros a0 -> _ -> _. assert (Hf : forall q, f m q = false -> taken m q = true \/ available q = false)
      by (intros q; unfold f; destruct (taken m q), (available q); auto).
    destruct (find _ _) as [p|] eqn:E; [apply find_candidate in E as (H1 & H2 & H3)|intros q Hq; eauto using no_candidate].
    unfold f in H2. apply andb_prop in H2 as [H2 H2']. apply negb_true_iff in H2. split_and!; [done|lia|lia|done|]. intros q Hq. apply Hf, H3, Hq. }
  unfold reclaimed in m. destruct (assignments a !! i) as [cur|] eqn:Ei; [destruct (available cur) eqn:Ea; [by auto 10|]|].
  - specialize (Hsearch (set_assignments m (persist left1 m) a) eq_refl (lookup_delete_eq _ _) eq_refl eq_refl). fold f m. unfold f in Hsearch.
    destruct (find _ _) as [p|]; cbn; [|split_and!; try done; apply lookup_delete_eq]. destruct Hsearch as (? & ? & ? & ?). rewrite lookup_insert_eq. auto 10.
  - specialize (Hsearch a eq_refl Ei eq_refl eq_refl). unfold f in Hsearch.
    destruct (find _ _) as [p|]; cbn; [|by auto 10]. destruct Hsearch as (? & ? & ? & ?). rewrite lookup_insert_eq. auto 10.
Qed.

(** ** Histories *)

Inductive port_step (a : ModulePortAllocator) : ModulePortAllocator -> Prop :=
| step_assign available l1 l2 i : port_step a (assigned_port available l1 l2 i a).1
| step_release left i : port_step a (release left i a)
| step_record left i p : (forall j, j <> i -> assignments a !! j <> Some p) -> port_step a (record_assigned left i p a).

Lemma port_step_one_each a a' : port_step a a' -> one_each (assignments a) -> one_each (assignments a').
Proof.
  intros [available l1 l2 i|left i|left i p Hp] H.
  - unfold assigned_port. destruct (strategy a); [|done]. pose proof (allocate_cases available l1 l2 i a) as Hc.
    assert (Hm : one_each (reclaimed available i a)) by (unfold reclaimed; destruct (assignments a !! i); [destruct (available _)|]; auto using one_each_delete).
    destruct (allocate_dynamic _ _ _ _ _) as [a1 [[p|]|e]]; cbn; [|done|by destruct Hc as (_ & -> & _)].
    destruct Hc as (_ & _ & _ & _ & [[_ ->]|(_ & Ht & -> & _)]); [done|]. by apply one_each_insert.
  - unfold release. destruct (strategy a); [|done]. destruct (assignments a !! i); [|done]. by apply one_each_delete.
  - unfold record_assigned. destruct (strategy a); [|done]. case_bool_decide; [done|]. intros j k q. cbn. rewrite !lookup_insert_Some.
    intros [[<- <-]|[Hj Hjq]] [[<- Hk]|[Hk Hkq]]; try done; [by apply Hp in Hkq|subst; by apply Hp in Hjq|eauto].
Qed.

(** No two modules are assigned the same port in any history of requests
    and releases, provided the ports that running modules report are not
    ones assigned to others. *)
Theorem ports_are_distinct a0 a : one_each (assignments a0) -> rtc port_step a0 a ->
  forall i j p, assignments a !! i = Some p -> assignments a !! j = Some p -> i = j.
Proof. intros H0 Hrun. assert (one_each (assignments a)) as Ha; [|exact Ha]. revert H0. induction Hrun; eauto using port_step_one_each. Qed.

(** With dynamic ports a request yields the port the module had, when it
    can be bound, else the lowest port of the range that can be bound and is
    assigned to no other module; it fails, and then with the bounds of the
    range, only when the range has no such port. *)
Theorem assigned_port_spec available l1 l2 i a : strategy a = Dynamic ->
  let others q := exists j, j <> i /\ assignments a !! j = Some q in
  let usable q := min (range a) <= q <= max (range a) /\ available q = true /\ ~ others q in
  match assigned_port available l1 l2 i a with
  | (a', Ok (Some p)) => assignments a' !! i = Some p /\ available p = true /\
      (assignments a !! i = Some p \/ usable p /\ forall q, usable q -> q = p \/ p < q \/ assignments a !! i = Some q)
  | (a', Ok None) => False
  | (a', Err e) => e = NoAvailablePorts (min (range a)) (max (range a)) /\ assignments a' !! i = None /\ forall q, ~ usable q
  end.
Proof.
  intros Hs others usable. unfold assigned_port. rewrite Hs. pose proof (allocate_cases available l1 l2 i a) as Hc. set (m := reclaimed available i a) in Hc.
  assert (Hoth : forall q, available q = true -> taken m q = true -> others q \/ assignments a !! i = Some q).
  { intros q Hq Ht. apply taken_spec in Ht as [j Hj]. destruct (decide (j = i)) as [->|Hne]; subst m; unfold reclaimed in Hj.
    - destruct (assignments a !! i) as [cur|] eqn:Ei; [destruct (available cur)|]; rewrite ?lookup_delete_eq in Hj; simplify_eq; auto.
    - left. exists j. split; [done|]. destruct (assignments a !! i) as [cur|]; [destruct (available cur)|]; [done| |done]. by rewrite lookup_delete_ne in Hj by done. }
  assert (Htak : forall q, taken m q = false -> ~ others q).
  { intros q Hq (j & Hne & Hj). assert (taken m q = true) as Ht; [|by rewrite Hq in Ht]. apply taken_spec. exists j. unfold m, reclaimed.
    destruct (assignments a !! i); [destruct (available _)|]; by rewrite ?lookup_delete_ne. }
  destruct (allocate_dynamic _ _ _ _ _) as [a' [[p|]|e]]; [| done |].
  - destruct Hc as (Ha & Hi & _ & _ & [[Hold _]|(Hr & Ht & _ & Hlow)]); [auto|]. split_and!; [done|done|]. right. split; [by split_and!; auto; lia|].
    intros q (Hq & Hqa & Hqo). destruct (decide (q < p)) as [Hlt|]; [|lia]. destruct (Hlow q) as [Hx|Hx]; [lia| |by rewrite Hqa in Hx]. destruct (Hoth q Hqa Hx); auto. done.
  - destruct Hc as (-> & Hm & Hni & _ & _ & Hall). split_and!; [done|by rewrite Hm|]. intros q (Hq & Hqa & Hqo). destruct (Hall q Hq) as [Hx|Hx]; [|by rewrite Hqa in Hx].
    destruct (Hoth q Hqa Hx) as [|Hi]; [done|]. revert Hni. unfold m, reclaimed. rewrite Hi, Hqa, Hi. done.
Qed.

(** ** The state file *)

Definition valid_ids (m : gmap ModuleId Z) : Prop := forall i p, m !! i = Some p -> ModuleId_new (id_text i) = Ok i.

Lemma load_lookup (l : list (text * Z)) i p : NoDup l.*1 ->
  (forall e, e ∈ l -> exists j, e.1 = id_text j /\ ModuleId_new e.1 = Ok j) ->
  foldl (λ acc e, match ModuleId_new e.1 with Ok i => <[i := e.2]> acc | Err _ => acc end) (∅ : gmap ModuleId Z) l !! i = Some p
  <-> (id_text i, p) ∈ l.
Proof.
  induction l as [|[t q] l IH] using rev_ind; intros Hnd Hv; [by split; [|intros ?%elem_of_nil]|].
  rewrite (fmap_snoc fst) in Hnd. apply NoDup_app in Hnd as (Hnd & Hx & _). rewrite foldl_app. cbn [foldl fst snd].
  destruct (Hv (t, q)) as (j & Ht & Hj); [set_solver|]. cbn in Ht, Hj. rewrite Hj. specialize (IH Hnd (λ e He, Hv e (proj2 (elem_of_app _ _ _) (or_introl He)))).
  assert (Hfresh : forall p, (id_text j, p) ∉ l).
  { intros p' Hp'. apply (Hx t); [|set_solver]. rewrite Ht. apply (list_elem_of_fmap_2 fst) in Hp'. exact Hp'. }
  rewrite elem_of_app, list_elem_of_singleton. destruct (decide (j = i)) as [->|Hne].
  - rewrite lookup_insert_eq, Ht. split; [intros [= ->]; by right|]. intros [Hin|[= ->]]; [by apply Hfresh in Hin|done].
  - rewrite lookup_insert_ne, IH by done. split; [by left|]. intros [Hin|[= Heq _]]; [done|]. rewrite Ht in Heq. by apply (inj id_text) in Heq.
Qed.

(** The assignments survive a restart: the file written after a change is
    read back as the same assignments, in whatever order its entries come. *)
Theorem assignments_survive_restart iter s r m : (forall f, iter f ≡ₚ map_to_list f) -> valid_ids m ->
  assignments (allocator_new iter s r (persist None m)) = m.
Proof.
  intros Hperm Hv. cbn [allocator_new assignments persist default load_state]. unfold persist. cbn. apply map_eq. intros i. apply option_eq. intros p.
  rewrite load_lookup.
  - rewrite Hperm, elem_of_map_to_list. unfold serialized. rewrite (lookup_kmap_Some id_text). split; [by intros (j & <-%(inj id_text) & Hm)|intros Hm; by exists i].
  - rewrite Hperm. apply NoDup_fst_map_to_list.
  - intros [t q] He. rewrite Hperm, elem_of_map_to_list in He. apply (lookup_kmap_Some id_text) in He as (j & -> & Hj). exists j. split; [done|]. by apply (Hv j q).
Qed.

(** ** Concrete requests *)

Definition web : ModuleId := mkId (lit "web").
Definition api : ModuleId := mkId (lit "api").
Definition demo_allocator : ModulePortAllocator := mkAllocator Dynamic (mkRange 4000 4020) {[ api := 4000 ]} NoFile.
Definition all_but_4001 (p : Z) : bool := negb (p =? 4001).

Lemma demo_one_each : one_each (assignments demo_allocator).
Proof. intros i j p. cbn [demo_allocator assignments]. rewrite !lookup_singleton_Some. intros [<- _] [<- _]. done. Qed.

Lemma ports_are_distinct_witness :
  let a := (assigned_port all_but_4001 None None web demo_allocator).1 in
  (assigned_port all_but_4001 None None web demo_allocator).2 = Ok (Some 4002) /\
  forall i j p, assignments a !! i = Some p -> assignments a !! j = Some p -> i = j.
Proof.
  intros a. split; [vm_compute; reflexivity|]. apply (ports_are_distinct demo_allocator a demo_one_each).
  eapply rtc_l; [|apply rtc_refl]. apply (step_assign demo_allocator all_but_4001 None None web).
Defined.

Lemma assigned_port_spec_witness : strategy demo_allocator = Dynamic /\
  match assigned_port (λ _, false) None None api demo_allocator with
  | (a', Err e) => e = NoAvailablePorts 4000 4020 /\ assignments a' !! api = None
  | _ => False
  end.
Proof.
  split; [done|]. pose proof (assigned_port_spec (λ _, false) None None api demo_allocator eq_refl) as H.
  destruct (assigned_port (λ _, false) None None api demo_allocator) as [a' [[p|]|e]]; [by destruct H as (_ & H & _)|done|]. by destruct H as (H1 & H2 & _).
Defined.

Lemma assignments_survive_restart_witness : valid_ids {[ api := 4000 ]} /\
  assignments (allocator_new map_to_list Dynamic (mkRange 4000 4020) (persist None {[ api := 4000 ]})) = {[ api := 4000 ]}.
Proof.
  assert (valid_ids {[ api := 4000 ]}) as Hv. { intros i p [<- <-]%lookup_singleton_Some. vm_compute. reflexivity. }
  split; [done|]. by apply (assignments_survive_restart map_to_list Dynamic (mkRange 4000 4020) {[ api := 4000 ]}).
Defined.
