(* ===== verification/Redact.v ===== *)
(** * Redaction of secrets in log lines ([utils/redact.rs])

    Connection strings lose their password, request targets their invite
    tokens.  The theorems say that two inputs that differ only in the
    secret give the same line.  Percent-decoding is the [urlencoding]
    crate: the class [UrlDecode]. *)

From S2P Require Import Prelude Text.

Definition REDACTED : text := lit "***".
Definition SCHEME_SEP : text := lit "://".
Definition KEY : text := lit "password=".

Definition redact_param (param : text) : text :=
  if eq_ignore_ascii_case (take (length KEY) param) KEY then take (length KEY) param ++ REDACTED else param.

(** Replaces the value of each [password=] query parameter. *)
Definition redact_password_params (uri : text) : text :=
  match split_once 63 uri with
  | None => uri
  | Some (head, query) => head ++ [63] ++ join [38] (redact_param <$> split 38 query)
  end.

Definition redact_uri_password (uri : text) : text :=
  match find_sub SCHEME_SEP uri with
  | None => uri
  | Some (scheme, rest) =>
      let redacted :=
        match rsplit_once 64 rest with
        | Some (before, after) =>
            match split_once 58 before with
            | Some (user, _) => scheme ++ SCHEME_SEP ++ user ++ [58] ++ REDACTED ++ [64] ++ after
            | None => uri
            end
        | None => uri
        end in
      redact_password_params redacted
  end.

Definition push_token (token : text) : text := if contains_sub SCHEME_SEP token then redact_uri_password token else token.

(** The loop over the characters; [token] is the one being read. *)
Fixpoint redact_tokens (token : option text) (s : text) : text :=
  match s with
  | [] => match token with Some t => push_token t | None => [] end
  | ch :: s =>
      if is_whitespace ch then (match token with Some t => push_token t | None => [] end) ++ ch :: redact_tokens None s
      else redact_tokens (Some (default [] token ++ [ch])) s
  end.

Definition redact_uris_in_text (t : text) : text := if contains_sub SCHEME_SEP t then redact_tokens None t else t.

(** ** Request targets *)

Definition REDACTED_SEGMENT : text := lit "<redacted>".
Definition SECRET_AFTER : list text := [lit "invite"; lit "invites"].
Definition SECRET_PARAMS : list text := [lit "token"; lit "invite"; lit "invite_token"; lit "invitetoken"].

Class UrlDecode := { urldecode : text -> option text }.
(** A text without a percent sign decodes to itself. *)
Class UrlDecodeLaws (U : UrlDecode) : Prop := { urldecode_plain : forall t, 37 ∉ t -> urldecode t = Some t }.

Section Target.
Context `{U : UrlDecode}.

Definition percent_decoded_lower (t : text) : text := to_ascii_lowercase (default t (urldecode t)).

Fixpoint has_secret_pair (parts : list text) : bool :=
  match parts with
  | a :: ((b :: _) as rest) => (bool_decide (a ∈ SECRET_AFTER) && negb (bool_decide (b = []))) || has_secret_pair rest
  | _ => false
  end.

Definition announces_secret (segment : text) : bool :=
  match last (split 47 (percent_decoded_lower segment)) with Some l => bool_decide (l ∈ SECRET_AFTER) | None => false end.
Definition hides_secret (segment : text) : bool := has_secret_pair (split 47 (percent_decoded_lower segment)).

Fixpoint mask_segments (secret_next : bool) (segments : list text) : list bool :=
  match segments with
  | [] => []
  | s :: segments => ((secret_next && negb (bool_decide (s = []))) || hides_secret s) :: mask_segments (announces_secret s) segments
  end.

Definition mask_param (param : text) : text :=
  match split_once 61 param with
  | Some (key, value) =>
      if negb (bool_decide (value = [])) && bool_decide (percent_decoded_lower key ∈ SECRET_PARAMS) then key ++ [61] ++ REDACTED_SEGMENT else param
  | None => param
  end.

Definition request_target (target : text) : text :=
  let '(path, query) := match split_once 63 target with Some (p, q) => (p, Some q) | None => (target, None) end in
  let segments := split 47 path in
  let masked := mask_segments false segments in
  let query_masked := (λ q, join [38] (mask_param <$> split 38 q)) <$> query in
  let path_changed := existsb (λ m, m) masked in
  let query_changed := negb (bool_decide (query = query_masked)) in
  if negb path_changed && negb query_changed then target
  else join [47] (zip_with (λ s (m : bool), if m then REDACTED_SEGMENT else s) segments masked)
       ++ (match query_masked with Some q => [63] ++ q | None => [] end).
End Target.

(** ** Passwords *)

(** The redacted form of a URI whose userinfo has a password. *)
Lemma redact_userinfo scheme user pw host : 58 ∉ scheme -> 58 ∉ user -> 64 ∉ host ->
  redact_uri_password (scheme ++ SCHEME_SEP ++ user ++ [58] ++ pw ++ [64] ++ host) =
  redact_password_params (scheme ++ SCHEME_SEP ++ user ++ [58] ++ REDACTED ++ [64] ++ host).
Proof.
  intros Hs Hu Hh. unfold redact_uri_password. rewrite find_sub_here; [|intros x [= <-]; done|done].
  replace (user ++ [58] ++ pw ++ [64] ++ host) with ((user ++ 58 :: pw) ++ 64 :: host) by (cbn; by rewrite <- app_assoc).
  rewrite rsplit_once_app by done. by rewrite split_once_app.
Qed.

(** The redacted connection string does not depend on the password of the
    userinfo, whatever characters it has: [@], [:], [/] and [?] included. *)
Theorem redaction_hides_password scheme user pw1 pw2 host : 58 ∉ scheme -> 58 ∉ user -> 64 ∉ host ->
  redact_uri_password (scheme ++ SCHEME_SEP ++ user ++ [58] ++ pw1 ++ [64] ++ host) =
  redact_uri_password (scheme ++ SCHEME_SEP ++ user ++ [58] ++ pw2 ++ [64] ++ host).
Proof. intros. by rewrite !redact_userinfo. Qed.

(** Nor does it depend on the value of a [password=] parameter of the
    query, spelled in any case. *)
Theorem redaction_hides_password_param scheme host k v1 v2 ps qs :
  let uri v := scheme ++ SCHEME_SEP ++ host ++ [63] ++ join [38] (ps ++ [k ++ v] ++ qs) in
  eq_ignore_ascii_case k KEY = true -> 58 ∉ scheme -> 63 ∉ scheme -> 63 ∉ host -> Forall (λ p, 38 ∉ p) (ps ++ qs) -> 38 ∉ v1 -> 38 ∉ v2 -> 38 ∉ k ->
  64 ∉ uri v1 -> 64 ∉ uri v2 -> redact_uri_password (uri v1) = redact_uri_password (uri v2).
Proof.
  intros uri Hk Hs Hsq Hh Hps Hv1 Hv2 Hkk Hat1 Hat2.
  assert (Hlen : length k = length KEY).
  { unfold eq_ignore_ascii_case in Hk. apply bool_decide_eq_true_1 in Hk. apply (f_equal length) in Hk. unfold to_ascii_lowercase in Hk. by rewrite !length_fmap in Hk. }
  assert (Hform : forall v, 38 ∉ v -> 64 ∉ uri v ->
    redact_uri_password (uri v) = (scheme ++ SCHEME_SEP ++ host) ++ [63] ++ join [38] ((redact_param <$> ps) ++ [k ++ REDACTED] ++ (redact_param <$> qs))).
  { intros v Hv Hat. unfold redact_uri_password, uri. rewrite find_sub_here; [|intros x [= <-]; done|done].
    assert (rsplit_once 64 (host ++ [63] ++ join [38] (ps ++ [k ++ v] ++ qs)) = None) as ->.
    { unfold rsplit_once. rewrite (proj2 (split_once_none 64 _)); [done|]. intros Hin. apply Hat. unfold uri. rewrite !elem_of_app. right. right.
      apply list_elem_of_In, in_rev, list_elem_of_In in Hin. by rewrite !elem_of_app in Hin. }
    unfold redact_password_params. replace (scheme ++ SCHEME_SEP ++ host ++ [63] ++ join [38] (ps ++ [k ++ v] ++ qs))
      with ((scheme ++ SCHEME_SEP ++ host) ++ 63 :: join [38] (ps ++ [k ++ v] ++ qs)) by (cbn; by rewrite <- !app_assoc).
    rewrite split_once_app by (rewrite !elem_of_app; intros [?|[?|?]]; [done| |done]; vm_compute in H; set_solver).
    rewrite split_join; [|by destruct ps|]. 2:{ rewrite !Forall_app in *. destruct Hps. split_and!; [done| |done]. constructor; [set_solver|done]. }
    f_equal. f_equal. f_equal. rewrite !fmap_app. f_equal. cbn [fmap list_fmap app]. f_equal. unfold redact_param. rewrite take_app_length' by done. by rewrite Hk. }
  by rewrite !Hform.
Qed.

(** ** Log lines *)

Lemma contains_sub_app pat a b : contains_sub pat (a ++ pat ++ b) = true.
Proof.
  unfold contains_sub. induction a as [|x a IH].
  - cbn. assert (strip_prefix pat (pat ++ b) = Some b) as E by by apply strip_prefix_some. destruct (pat ++ b); cbn; by rewrite E.
  - cbn. destruct (strip_prefix pat _); [done|]. by destruct (find_sub pat (a ++ pat ++ b)) as [[]|].
Qed.

Lemma redact_tokens_ws token a c s : is_whitespace c = true ->
  redact_tokens token (a ++ c :: s) = redact_tokens token a ++ c :: redact_tokens None s.
Proof.
  intros Hc. revert token. induction a as [|x a IH]; intros token; cbn; [by rewrite Hc|]. destruct (is_whitespace x); [|apply IH]. rewrite IH. by rewrite <- app_assoc.
Qed.

Lemma redact_tokens_word t w : Forall (λ c, is_whitespace c = false) w -> redact_tokens (Some t) w = push_token (t ++ w).
Proof.
  intros Hw. revert t. induction Hw as [|c w Hc _ IH]; intros t; cbn; [by rewrite app_nil_r|]. rewrite Hc, IH. cbn. by rewrite <- app_assoc.
Qed.

(** A word stands between whitespace or at an end of the line. *)
Definition ends_word (a : text) : Prop := a = [] \/ exists a' c, a = a' ++ [c] /\ is_whitespace c = true.
Definition starts_gap (b : text) : Prop := b = [] \/ exists c b', b = c :: b' /\ is_whitespace c = true.

Lemma redact_line a w b : ends_word a -> starts_gap b -> w <> [] -> Forall (λ c, is_whitespace c = false) w ->
  redact_tokens None (a ++ w ++ b) = redact_tokens None a ++ push_token w ++ redact_tokens None b.
Proof.
  intros Ha Hb Hne Hw. assert (Hmid : redact_tokens None (w ++ b) = push_token w ++ redact_tokens None b).
  { assert (Hword : redact_tokens None w = push_token w).
    { destruct Hw as [|c w Hc Hw]; [done|]. cbn. rewrite Hc. by apply (redact_tokens_word [c]). }
    destruct Hb as [->|(c & b' & -> & Hc)]; [cbn; by rewrite !app_nil_r|]. rewrite redact_tokens_ws by done. rewrite Hword. cbn. by rewrite Hc. }
  destruct Ha as [->|(a' & c & -> & Hc)]; [done|]. rewrite <- app_assoc. cbn [app]. rewrite redact_tokens_ws, Hmid by done.
  rewrite redact_tokens_ws by done. rewrite <- app_assoc. done.
Qed.

(** A log line with a connection string as one of its words comes out the
    same for any two passwords without whitespace. *)
Theorem log_line_hides_password a b scheme user pw1 pw2 host :
  let line pw := a ++ (scheme ++ SCHEME_SEP ++ user ++ [58] ++ pw ++ [64] ++ host) ++ b in
  ends_word a -> starts_gap b -> Forall (λ c, is_whitespace c = false) (scheme ++ user ++ host ++ pw1 ++ pw2) ->
  58 ∉ scheme -> 58 ∉ user -> 64 ∉ host -> redact_uris_in_text (line pw1) = redact_uris_in_text (line pw2).
Proof.
  intros line Ha Hb Hws Hs Hu Hh. rewrite !Forall_app in Hws. destruct Hws as (H1 & H2 & H3 & H4 & H5).
  assert (Hform : forall pw, Forall (λ c, is_whitespace c = false) pw -> redact_uris_in_text (line pw) =
    redact_tokens None a ++ redact_password_params (scheme ++ SCHEME_SEP ++ user ++ [58] ++ REDACTED ++ [64] ++ host) ++ redact_tokens None b).
  { intros pw Hpw. unfold redact_uris_in_text, line.
    assert (contains_sub SCHEME_SEP (a ++ (scheme ++ SCHEME_SEP ++ user ++ [58] ++ pw ++ [64] ++ host) ++ b) = true) as ->.
    { replace (a ++ (scheme ++ SCHEME_SEP ++ user ++ [58] ++ pw ++ [64] ++ host) ++ b) with ((a ++ scheme) ++ SCHEME_SEP ++ ((user ++ [58] ++ pw ++ [64] ++ host) ++ b))
        by (by rewrite <- !app_assoc). apply contains_sub_app. }
    rewrite redact_line; [|done|done|by destruct scheme|rewrite !Forall_app; split_and!; try done; repeat constructor].
    f_equal. f_equal. unfold push_token. rewrite contains_sub_app. by apply redact_userinfo. }
  by rewrite !Hform.
Qed.

(** ** Invite tokens *)

Section Invites.
Context `{U : UrlDecode} {L : UrlDecodeLaws U}.

Lemma mask_segments_app next l1 l2 : mask_segments next (l1 ++ l2) =
  mask_segments next l1 ++ mask_segments (match last l1 with Some s => announces_secret s | None => next end) l2.
Proof.
  revert next. induction l1 as [|s l1 IH]; intros next; cbn [app mask_segments]; [done|]. rewrite IH. cbn [app]. f_equal. f_equal. f_equal.
  destruct l1 as [|s' l1]; [done|]. change (last (s :: s' :: l1)) with (last (s' :: l1)). destruct (last (s' :: l1)) eqn:E; [done|]. by apply last_None in E.
Qed.

Lemma announces_invite : announces_secret (lit "invite") = true.
Proof. unfold announces_secret, percent_decoded_lower. rewrite urldecode_plain by (apply (bool_decide_unpack _); vm_compute; exact I). vm_compute. reflexivity. Qed.

Lemma mask_length next l : length (mask_segments next l) = length l.
Proof. revert next. induction l as [|s l IH]; intros next; cbn; [done|]. by rewrite IH. Qed.

(** The path after masking: the token is gone. *)
Lemma masked_path before tok after : tok <> [] ->
  let segments := before ++ [lit "invite"; tok] ++ after in
  zip_with (λ s (m : bool), if m then REDACTED_SEGMENT else s) segments (mask_segments false segments) =
  zip_with (λ s (m : bool), if m then REDACTED_SEGMENT else s) (before ++ [lit "invite"]) (mask_segments false (before ++ [lit "invite"]))
  ++ [REDACTED_SEGMENT] ++ zip_with (λ s (m : bool), if m then REDACTED_SEGMENT else s) after (mask_segments (announces_secret tok) after)
  /\ existsb (λ m, m) (mask_segments false segments) = true.
Proof.
  intros Hne segments. unfold segments. replace (before ++ [lit "invite"; tok] ++ after) with ((before ++ [lit "invite"]) ++ tok :: after) by (by rewrite <- app_assoc).
  rewrite mask_segments_app, last_snoc, announces_invite. cbn [mask_segments andb]. rewrite (bool_decide_eq_false_2 (tok = [])) by done. cbn [negb orb].
  split; [by rewrite zip_with_app by (by rewrite mask_length)|]. rewrite existsb_app. cbn. by rewrite orb_true_r.
Qed.

(** Two request targets that differ only in the segment after [invite] are
    logged alike, provided this segment does not itself announce a secret. *)
Theorem target_hides_invite before tok1 tok2 after query :
  let target tok := join [47] (before ++ [lit "invite"; tok] ++ after) ++ (match query with Some q => [63] ++ q | None => [] end) in
  Forall (λ s, (47 ∉ s) /\ (63 ∉ s)) (before ++ [tok1; tok2] ++ after) -> tok1 <> [] -> tok2 <> [] ->
  announces_secret tok1 = false -> announces_secret tok2 = false -> request_target (target tok1) = request_target (target tok2).
Proof.
  intros target Hsep Hne1 Hne2 Ha1 Ha2. rewrite !Forall_app in Hsep. destruct Hsep as (Hb & Ht & Haf). apply Forall_cons in Ht as [Ht1 Ht2]. apply Forall_cons in Ht2 as [Ht2 _].
  assert (Hinv : (47 ∉ lit "invite") /\ (63 ∉ lit "invite")) by (split; apply (bool_decide_unpack _); vm_compute; exact I).
  assert (Hsegs : forall tok, (47 ∉ tok) /\ (63 ∉ tok) -> Forall (λ s, (47 ∉ s) /\ (63 ∉ s)) (before ++ [lit "invite"; tok] ++ after))
    by (intros tok Htok; rewrite !Forall_app; split_and!; [done| |done]; constructor; [done|]; by constructor).
  assert (Hnoq : forall l : list text, Forall (λ s, (47 ∉ s) /\ (63 ∉ s)) l -> 63 ∉ join [47] l).
  { induction 1 as [|s l [_ Hs] Hl IH]; [set_solver|]. destruct l; cbn [join]; [done|]. rewrite !elem_of_app. intros [H|[H|H]]; [done|set_solver|done]. }
  assert (Hform : forall tok, tok <> [] -> (47 ∉ tok) /\ (63 ∉ tok) -> announces_secret tok = false -> request_target (target tok) =
    join [47] (zip_with (λ s (m : bool), if m then REDACTED_SEGMENT else s) (before ++ [lit "invite"]) (mask_segments false (before ++ [lit "invite"]))
      ++ [REDACTED_SEGMENT] ++ zip_with (λ s (m : bool), if m then REDACTED_SEGMENT else s) after (mask_segments false after))
    ++ match (λ q, join [38] (mask_param <$> split 38 q)) <$> query with Some q => [63] ++ q | None => [] end).
  { intros tok Hne Htok Ha. unfold request_target.
    assert (match split_once 63 (target tok) with Some (p, q) => (p, Some q) | None => (target tok, None) end = (join [47] (before ++ [lit "invite"; tok] ++ after), query)) as ->.
    { unfold target. destruct query as [q|]; [cbn [app]; by rewrite split_once_app by (apply Hnoq; by apply Hsegs)|]. rewrite app_nil_r. by rewrite (proj2 (split_once_none 63 _)) by (apply Hnoq; by apply Hsegs). }
    rewrite split_join; [|by destruct before|eapply Forall_impl; [by apply Hsegs|]; by intros s [? _]].
    destruct (masked_path before tok after Hne) as [-> ->]. cbn [negb andb]. by rewrite Ha. }
  by rewrite !Hform.
Qed.
End Invites.

(** ** Concrete lines *)

#[global] Instance plain_decode : UrlDecode := {| urldecode := Some |}.
#[global] Instance plain_decode_laws : UrlDecodeLaws plain_decode.
Proof. split. done. Qed.

Lemma redaction_hides_password_witness :
  redact_uri_password (lit "postgres://fenrir:s3cr:et@@/db?x=1") = lit "postgres://fenrir:***@/db?x=1" /\
  redact_uri_password (lit "postgres" ++ SCHEME_SEP ++ lit "fenrir" ++ [58] ++ lit "a/b?c@" ++ [64] ++ lit "/db")
  = redact_uri_password (lit "postgres" ++ SCHEME_SEP ++ lit "fenrir" ++ [58] ++ lit "x" ++ [64] ++ lit "/db").
Proof.
  split; [vm_compute; reflexivity|].
  apply (redaction_hides_password (lit "postgres") (lit "fenrir") (lit "a/b?c@") (lit "x") (lit "/db")); apply (bool_decide_unpack _); vm_compute; exact I.
Defined.

Lemma redaction_hides_password_param_witness :
  let uri v := lit "db" ++ SCHEME_SEP ++ lit "/run" ++ [63] ++ join [38] ([lit "user=me"] ++ [lit "PassWord=" ++ v] ++ []) in
  redact_uri_password (uri (lit "one")) = lit "db:///run?user=me&PassWord=***" /\ redact_uri_password (uri (lit "one")) = redact_uri_password (uri (lit "two")).
Proof.
  intros uri. split; [vm_compute; reflexivity|].
  apply (redaction_hides_password_param (lit "db") (lit "/run") (lit "PassWord=") (lit "one") (lit "two") [lit "user=me"] []);
    apply (bool_decide_unpack _); vm_compute; exact I.
Defined.

Lemma log_line_hides_password_witness :
  redact_uris_in_text (lit "using " ++ (lit "db" ++ SCHEME_SEP ++ lit "me" ++ [58] ++ lit "one" ++ [64] ++ lit "h") ++ lit " now") =
  redact_uris_in_text (lit "using " ++ (lit "db" ++ SCHEME_SEP ++ lit "me" ++ [58] ++ lit "two" ++ [64] ++ lit "h") ++ lit " now").
Proof.
  apply (log_line_hides_password (lit "using ") (lit " now") (lit "db") (lit "me") (lit "one") (lit "two") (lit "h"));
    try (apply (bool_decide_unpack _); vm_compute; exact I).
  - right. exists (lit "using"), 32. split; reflexivity.
  - right. exists 32, (lit "now"). split; reflexivity.
Defined.

Lemma target_hides_invite_witness :
  request_target (lit "/api/invite/abc/accept?token=1&x=2") = lit "/api/invite/<redacted>/accept?token=<redacted>&x=2" /\
  request_target (join [47] ([[]; lit "api"] ++ [lit "invite"; lit "abc"] ++ [lit "accept"]) ++ [63] ++ lit "x=2") =
  request_target (join [47] ([[]; lit "api"] ++ [lit "invite"; lit "def"] ++ [lit "accept"]) ++ [63] ++ lit "x=2").
Proof.
  split; [vm_compute; reflexivity|].
  apply (target_hides_invite [[]; lit "api"] (lit "abc") (lit "def") [lit "accept"] (Some (lit "x=2"))); try done; try (vm_compute; reflexivity).
  apply (bool_decide_unpack _). vm_compute. exact I.
Defined.
