(* ===== verification/LogRetention.v ===== *)
(** * Log rotation and retention: [infra/logging/retention.rs]

    A directory of logs with its [archive] folder, the pruning of archives,
    the pass over the logs of the modules, and the rotating writer of the
    host's own log.  Names are the UTF-8 bytes of file names; times are
    seconds since the epoch, days are UTC days.  The timestamp in the name of
    an archive is printed by the [time] crate (class [Stamps]).  [RotIo] says
    which calls to the file system fail.  File modes are left out. *)

From stdpp Require Import pretty.
From S2P Require Import Prelude Text Versions.
#[local] Open Scope Z_scope.
#[local] Open Scope fenrir_scope.

(** ** Policy *)

Record TelemetryLogsSection := mkLogsSection {
  retention_days : Z; max_file_mb : Z; cfg_max_archives : Z; check_interval_seconds : Z;
}.
Definition logs_default : TelemetryLogsSection := mkLogsSection 7 50 30 60.
Inductive LogsConfigError := BadRetentionDays | BadMaxFileMb | BadMaxArchives | BadCheckInterval.
Definition logs_validate (c : TelemetryLogsSection) : result unit LogsConfigError :=
  if negb ((1 <=? retention_days c) && (retention_days c <=? 365)) then Err BadRetentionDays
  else if negb ((1 <=? max_file_mb c) && (max_file_mb c <=? 10240)) then Err BadMaxFileMb
  else if cfg_max_archives c =? 0 then Err BadMaxArchives
  else if negb ((1 <=? check_interval_seconds c) && (check_interval_seconds c <=? 3600)) then Err BadCheckInterval
  else Ok tt.

Definition SECONDS_PER_DAY : Z := 86400.
Definition BYTES_PER_MB : Z := 1024 * 1024.
Definition u64_saturating_mul (a b : Z) : Z := Z.min (a * b) u64_max.

Record LogRetention := mkRetention { max_bytes : Z; retention : Z; max_archives : Z }.
Definition retention_from (cfg : TelemetryLogsSection) : LogRetention :=
  mkRetention (u64_saturating_mul (max_file_mb cfg) BYTES_PER_MB)
    (u64_saturating_mul (retention_days cfg) SECONDS_PER_DAY) (cfg_max_archives cfg).

(** ** Names *)

Definition digits (s : list Z) : bool := negb (bool_decide (s = [])) && forallb is_ascii_digit s.

(** [s.split_at_checked(n)]: the index is a character boundary. *)
Definition split_at_checked (n : nat) (s : list Z) : option (list Z * list Z) :=
  if (length s <? n)%nat then None
  else match drop n s with
       | b :: _ => if is_cont b then None else Some (take n s, drop n s)
       | [] => Some (take n s, drop n s)
       end.

Definition is_archive_of (name stem : list Z) : bool :=
  match (strip_prefix stem name ≫= strip_prefix (lit "-")) ≫= strip_suffix (lit ".log") with
  | None => false
  | Some rest =>
      match split_at_checked 15 rest with
      | None => false
      | Some (stamp, tail) =>
          let stamp_ok := bool_decide (stamp !! 8%nat = Some 95) && digits (take 8 stamp) && digits (drop 9 stamp) in
          let counter_ok := bool_decide (tail = [])
                            || match strip_prefix (lit "_") tail with Some d => digits d | None => false end in
          stamp_ok && counter_ok
      end
  end.

Definition archive_stem (name : list Z) : option (list Z) :=
  match rsplit_once 45 name with
  | Some (stem, _) => if is_archive_of name stem then Some stem else None
  | None => None
  end.

(** [Path::file_stem] and [Path::extension] of a file name. *)
Definition file_stem (name : list Z) : list Z :=
  match rsplit_once 46 name with
  | Some ([], _) | None => name
  | Some (before, _) => before
  end.
Definition extension (name : list Z) : option (list Z) :=
  match rsplit_once 46 name with
  | Some ([], _) | None => None
  | Some (_, after) => Some after
  end.
(** [log_stem]; the names here are UTF-8. *)
Definition log_stem (name : list Z) : list Z := file_stem name.

(** ** Files *)

(** Content, time of the last change, creation time where there is one. *)
Record LogFile := mkLog { content : list Z; modified : Z; created : option Z }.
Record LogDir := mkDir { logs : gmap (list Z) LogFile; archive : option (gmap (list Z) LogFile) }.

Definition set_log (d : LogDir) (n : list Z) (f : LogFile) : LogDir := mkDir (<[n := f]> (logs d)) (archive d).
Definition archives (d : LogDir) : gmap (list Z) LogFile := default ∅ (archive d).
Definition set_archives (d : LogDir) (a : gmap (list Z) LogFile) : LogDir := mkDir (logs d) (Some a).

Definition day_of (t : Z) : Z := t / SECONDS_PER_DAY.

Record RotIo := mkRotIo {
  ok_mkdir : bool; ok_rename : bool; ok_open : bool; ok_copy : option (list Z); ok_truncate : bool;
  ok_list : bool; ok_entry : list Z -> bool; ok_remove : list Z -> bool;
}.
(** Nothing fails. *)
Definition rot_ok : RotIo := mkRotIo true true true None true true (λ _, true) (λ _, true).

(** The [time] crate: the text of [YYYYMMDD_HHMMSS], when the year has four
    digits. *)
Class Stamps := { format_stamp : Z -> option (list Z) }.

Section Retention.
Context {St : Stamps}.

Definition stamp_of (now : Z) : list Z := default (lit "00000000_000000") (format_stamp now).

(** [format!("{stem}-{stamp}_{n}.log")]. *)
Definition numbered (stem stamp : list Z) (n : N) : list Z :=
  stem ++ lit "-" ++ stamp ++ lit "_" ++ lit (pretty n) ++ lit ".log".
Definition unnumbered (stem stamp : list Z) : list Z := stem ++ lit "-" ++ stamp ++ lit ".log".

(** [(1..).find(..)]: [fuel] candidates from [n] on. *)
Fixpoint find_free (fuel : nat) (a : gmap (list Z) LogFile) (stem stamp : list Z) (n : N) : option (list Z) :=
  match fuel with
  | O => None
  | S fuel =>
      match a !! numbered stem stamp n with
      | None => Some (numbered stem stamp n)
      | Some _ => find_free fuel a stem stamp (n + 1)
      end
  end.

Definition archive_path (a : gmap (list Z) LogFile) (stem : list Z) (now : Z) : list Z :=
  let stamp := stamp_of now in
  let first := unnumbered stem stamp in
  match a !! first with
  | None => first
  | Some _ => default first (find_free (S (size a)) a stem stamp 1)
  end.

(** ** Pruning *)

(** [archives.sort_by(|left, right| right.0.cmp(&left.0))]: by name,
    descending. *)
Definition name_ge (x y : list Z * Z) : Prop := text_cmp x.1 y.1 <> Lt.
#[export] Instance name_ge_dec x y : Decision (name_ge x y).
Proof. unfold name_ge. destruct (text_cmp _ _); [left|right|left]; congruence. Defined.
Definition sort_desc : list (list Z * Z) -> list (list Z * Z) := merge_sort name_ge.

Definition listed (io : RotIo) (a : gmap (list Z) LogFile) (stem : list Z) : list (list Z * Z) :=
  sort_desc ((λ e, (e.1, modified e.2))
    <$> filter (λ e, (ok_entry io e.1 && is_archive_of e.1 stem) = true) (map_to_list a)).

(** [now.duration_since(modified).is_ok_and(|age| age > retention)]. *)
Definition expired (policy : LogRetention) (now m : Z) : bool := (m <=? now) && (retention policy <? now - m).

Fixpoint remove_old (io : RotIo) (policy : LogRetention) (now index : Z) (l : list (list Z * Z))
    (a : gmap (list Z) LogFile) (removed : Z) : result Z unit * gmap (list Z) LogFile :=
  match l with
  | [] => (Ok removed, a)
  | (path, m) :: l =>
      if expired policy now m || (max_archives policy <=? index) then
        if ok_remove io path then remove_old io policy now (index + 1) l (delete path a) (removed + 1)
        else (Err tt, a)
      else remove_old io policy now (index + 1) l a removed
  end.

Definition prune_archives (io : RotIo) (policy : LogRetention) (stem : list Z) (now : Z) (d : LogDir)
    : result Z unit * LogDir :=
  match archive d with
  | None => (Ok 0, d)
  | Some a =>
      if negb (ok_list io) then (Ok 0, d)
      else let '(r, a') := remove_old io policy now 0 (listed io a stem) a 0 in (r, mkDir (logs d) (Some a'))
  end.

(** [stems.sort(); stems.dedup()]. *)
Definition text_le (x y : list Z) : Prop := text_cmp x y <> Gt.
#[export] Instance text_le_dec x y : Decision (text_le x y).
Proof. unfold text_le. destruct (text_cmp _ _); [left|left|right]; congruence. Defined.
Definition stems_of (io : RotIo) (a : gmap (list Z) LogFile) : list (list Z) :=
  merge_sort text_le (remove_dups (omap archive_stem (filter (λ n, ok_entry io n = true) (map_to_list a).*1))).

Fixpoint prune_stems (io : RotIo) (policy : LogRetention) (now : Z) (stems : list (list Z)) (removed : Z) (d : LogDir)
    : result Z unit * LogDir :=
  match stems with
  | [] => (Ok removed, d)
  | stem :: stems =>
      match prune_archives io policy stem now d with
      | (Ok n, d') => prune_stems io policy now stems (removed + n) d'
      | (Err e, d') => (Err e, d')
      end
  end.

Definition prune_all_archives (io : RotIo) (policy : LogRetention) (now : Z) (d : LogDir) : result Z unit * LogDir :=
  match archive d with
  | None => (Ok 0, d)
  | Some a => if negb (ok_list io) then (Ok 0, d) else prune_stems io policy now (stems_of io a) 0 d
  end.

(** ** Rotation *)

(** [map] on the value of a call with a state. *)
Definition then_ok {A B S} (r : result A unit * S) (b : B) : result B unit * S :=
  match r with (Ok _, s) => (Ok b, s) | (Err e, s) => (Err e, s) end.

Definition archive_by_rename (io : RotIo) (policy : LogRetention) (now : Z) (name : list Z) (d : LogDir)
    : result (option (list Z)) unit * LogDir :=
  match logs d !! name with
  | None => (Ok None, d)
  | Some f =>
      if bool_decide (content f = []) then (Ok None, d)
      else if negb (ok_mkdir io) then (Err tt, d)
      else
        let d := set_archives d (archives d) in
        let target := archive_path (archives d) (log_stem name) now in
        if negb (ok_rename io) then (Err tt, d)
        else
          let d := mkDir (delete name (logs d)) (Some (<[target := f]> (archives d))) in
          then_ok (prune_archives io policy (log_stem name) now d) (Some target)
  end.

(** [during] is what the process appends between the copy and the
    truncation. *)
Definition archive_by_copy_truncate (io : RotIo) (policy : LogRetention) (now : Z) (during name : list Z) (d : LogDir)
    : result (option (list Z)) unit * LogDir :=
  match logs d !! name with
  | None => (Ok None, d)
  | Some f =>
      if bool_decide (content f = []) then (Ok None, d)
      else if negb (ok_mkdir io) then (Err tt, d)
      else
        let d := set_archives d (archives d) in
        let target := archive_path (archives d) (log_stem name) now in
        if negb (ok_open io) then (Err tt, d)
        else match ok_copy io with
        | Some part => (Err tt, set_archives d (<[target := mkLog part now (Some now)]> (archives d)))
        | None =>
            let d := set_archives d (<[target := mkLog (content f) now (Some now)]> (archives d)) in
            if negb (ok_truncate io) then (Err tt, set_log d name (mkLog (content f ++ during) now (created f)))
            else
              let d := set_log d name (mkLog [] now (created f)) in
              then_ok (prune_archives io policy (log_stem name) now d) (Some target)
        end
  end.

Inductive RotationDue := DueSize | DueDay.

Definition rotation_due (len started today : Z) (policy : LogRetention) : option RotationDue :=
  if len =? 0 then None
  else if max_bytes policy <=? len then Some DueSize
  else if negb (today =? started) then Some DueDay
  else None.

Definition file_day (f : LogFile) (fallback : Z) : Z :=
  match created f with Some t => day_of t | None => fallback end.

(** ** The pass over the logs of the modules *)

Definition file_len (f : LogFile) : Z := Z.of_nat (length (content f)).

(** One entry of the directory; the loop carries the days, the names that
    were seen, and the archives made so far. *)
Record Pass := mkPass { p_dir : LogDir; p_days : gmap (list Z) Z; p_seen : gset (list Z); p_rotated : list (list Z) }.

Definition maintain_entry (io : RotIo) (policy : LogRetention) (now : Z) (during : list Z -> list Z)
    (e : list Z * LogFile) (p : Pass) : result unit unit * Pass :=
  let today := day_of now in
  let '(name, f) := e in
  if negb (bool_decide (extension name = Some (lit "log"))) then (Ok tt, p)
  else if negb (ok_entry io name) then (Ok tt, p)
  else
    let seen := {[ name ]} ∪ p_seen p in
    if file_len f =? 0 then (Ok tt, mkPass (p_dir p) (<[name := today]> (p_days p)) seen (p_rotated p))
    else
      let started := default (file_day f today) (p_days p !! name) in
      let days := <[name := started]> (p_days p) in
      match rotation_due (file_len f) started today policy with
      | None => (Ok tt, mkPass (p_dir p) days seen (p_rotated p))
      | Some _ =>
          match archive_by_copy_truncate io policy now (during name) name (p_dir p) with
          | (Err e, d) => (Err e, mkPass d days seen (p_rotated p))
          | (Ok o, d) => (Ok tt, mkPass d (<[name := today]> days) seen
                                  (p_rotated p ++ match o with Some t => [t] | None => [] end))
          end
      end.

Fixpoint maintain_entries (io : RotIo) (policy : LogRetention) (now : Z) (during : list Z -> list Z)
    (es : list (list Z * LogFile)) (p : Pass) : result unit unit * Pass :=
  match es with
  | [] => (Ok tt, p)
  | e :: es =>
      match maintain_entry io policy now during e p with
      | (Ok _, p') => maintain_entries io policy now during es p'
      | (Err e, p') => (Err e, p')
      end
  end.

(** [listing] is the order of [read_dir]; [None] when it cannot be read. *)
Definition maintain_log_dir (io : RotIo) (policy : LogRetention) (now : Z) (during : list Z -> list Z)
    (listing : option (list (list Z * LogFile))) (days : gmap (list Z) Z) (d : LogDir)
    : result (list (list Z)) unit * LogDir * gmap (list Z) Z :=
  match listing with
  | None => (Ok [], d, days)
  | Some es =>
      match maintain_entries io policy now during es (mkPass d days ∅ []) with
      | (Err e, p) => (Err e, p_dir p, p_days p)
      | (Ok _, p) =>
          let days := filter (λ kv, kv.1 ∈ p_seen p) (p_days p) in
          let '(r, d) := then_ok (prune_all_archives io policy now (p_dir p)) (p_rotated p) in (r, d, days)
      end
  end.

(** ** The rotating writer *)

(** The file behind the open descriptor: the log, an archive it was renamed
    to, or a file without a name. *)
Inductive Handle := HLog | HArchive (n : list Z) | HGone.

Record RotatingFile := mkRotating {
  r_name : list Z; r_policy : LogRetention; r_file : Handle; r_written : Z; r_day : Z;
}.

(** [open_private_append]: the log, created when it is not there. *)
Definition open_append (now : Z) (name : list Z) (d : LogDir) : LogDir :=
  match logs d !! name with Some _ => d | None => set_log d name (mkLog [] now (Some now)) end.

Definition open (ok : bool) (now : Z) (name : list Z) (policy : LogRetention) (d : LogDir)
    : result RotatingFile unit * LogDir :=
  if negb ok then (Err tt, d)
  else
    let d := open_append now name d in
    let f := default (mkLog [] now None) (logs d !! name) in
    (Ok (mkRotating name policy HLog (file_len f) (file_day f (day_of now))), d).

(** Where a descriptor on the log points once it was archived as [target]
    and the archives were pruned. *)
Definition renamed_handle (h : Handle) (target : list Z) (d : LogDir) : Handle :=
  match h with
  | HLog => match archives d !! target with Some _ => HArchive target | None => HGone end
  | HArchive n => match archives d !! n with Some _ => HArchive n | None => HGone end
  | HGone => HGone
  end.

Definition rotation_wanted (r : RotatingFile) (now incoming : Z) : option RotationDue :=
  let projected := u64_saturating_add (r_written r) incoming in
  match rotation_due (r_written r) (r_day r) (day_of now) (r_policy r) with
  | Some due => Some due
  | None => if (0 <? r_written r) && (max_bytes (r_policy r) <? projected) then Some DueSize else None
  end.

(** [rotate_if_due]; [ok_flush] is the answer of flushing the descriptor.
    The result is dropped by [write]. *)
Definition rotate_if_due (io : RotIo) (ok_flush : bool) (now incoming : Z) (r : RotatingFile) (d : LogDir)
    : RotatingFile * LogDir :=
  match rotation_wanted r now incoming with
  | None => (r, d)
  | Some _ =>
      if negb ok_flush then (r, d)
      else
        let target := archive_path (archives d) (log_stem (r_name r)) now in
        let renamed := match logs d !! r_name r with Some f => negb (bool_decide (content f = [])) | None => false end in
        match archive_by_rename io (r_policy r) now (r_name r) d with
        | (Err _, d') =>
            (mkRotating (r_name r) (r_policy r)
               (if renamed && negb (bool_decide (is_Some (logs d' !! r_name r))) then renamed_handle (r_file r) target d'
                else r_file r) (r_written r) (r_day r), d')
        | (Ok _, d') =>
            if negb (ok_open io) then
              (mkRotating (r_name r) (r_policy r)
                 (if renamed then renamed_handle (r_file r) target d' else r_file r) (r_written r) (r_day r), d')
            else (mkRotating (r_name r) (r_policy r) HLog 0 (day_of now), open_append now (r_name r) d')
        end
  end.

Definition append_to (now : Z) (bytes : list Z) (f : LogFile) : LogFile := mkLog (content f ++ bytes) now (created f).

(** [File::write] of the first [n] bytes. *)
Definition write_handle (now : Z) (h : Handle) (name bytes : list Z) (d : LogDir) : LogDir :=
  match h with
  | HLog => mkDir (alter (append_to now bytes) name (logs d)) (archive d)
  | HArchive n => mkDir (logs d) (alter (append_to now bytes) n <$> archive d)
  | HGone => d
  end.

(** [write]: [accepted] is how many bytes the file takes, [None] an error. *)
Definition write (io : RotIo) (ok_flush : bool) (now : Z) (accepted : option nat) (buf : list Z)
    (r : RotatingFile) (d : LogDir) : result Z unit * RotatingFile * LogDir :=
  let '(r, d) := rotate_if_due io ok_flush now (Z.of_nat (length buf)) r d in
  match accepted with
  | None => (Err tt, r, d)
  | Some k =>
      let bytes := take k buf in
      let n := Z.of_nat (length bytes) in
      (Ok n, mkRotating (r_name r) (r_policy r) (r_file r) (u64_saturating_add (r_written r) n) (r_day r),
       write_handle now (r_file r) (r_name r) bytes d)
  end.
End Retention.
