(* ===== verification/LogRetentionSafety.v ===== *)
(** * What rotation and retention promise: properties of
    [infra/logging/retention.rs] *)

From stdpp Require Import pretty.
From S2P Require Import Prelude Text Versions LogRetention.
#[local] Open Scope Z_scope.

(** ** Names of archives *)

Definition stamp_ok (stamp : list Z) : Prop :=
  length stamp = 15%nat /\ stamp !! 8%nat = Some 95 /\ digits (take 8 stamp) = true /\ digits (drop 9 stamp) = true.
Definition tail_ok (tail : list Z) : Prop := tail = [] \/ exists ds, tail = lit "_" ++ ds /\ digits ds = true.

Lemma digits_spec s : digits s = true <-> s <> [] /\ Forall (λ c, is_ascii_digit c = true) s.
Proof.
  unfold digits. rewrite andb_true_iff, negb_true_iff, bool_decide_eq_false, forallb_forall, Forall_forall.
  by setoid_rewrite list_elem_of_In.
Qed.

Lemma digit_not_cont c : is_ascii_digit c = true -> is_cont c = false /\ c <> 45 /\ c <> 46.
Proof. unfold is_ascii_digit, is_cont. intros H. boolify. split_and!; lia. Qed.

Lemma tail_ok_spec tail : tail_ok tail <->
  (bool_decide (tail = []) || match strip_prefix (lit "_") tail with Some d => digits d | None => false end) = true.
Proof.
  unfold tail_ok. rewrite orb_true_iff, bool_decide_eq_true. apply or_iff_compat_l. split.
  - intros (ds & -> & Hd). by rewrite (proj2 (strip_prefix_some _ _ ds)).
  - destruct (strip_prefix (lit "_") tail) as [d|] eqn:E; [|done]. apply strip_prefix_some in E. eauto.
Qed.

Lemma is_archive_of_spec name stem : is_archive_of name stem = true <->
  exists stamp tail, name = stem ++ lit "-" ++ stamp ++ tail ++ lit ".log" /\ stamp_ok stamp /\ tail_ok tail.
Proof.
  unfold is_archive_of. split.
  - destruct (strip_prefix stem name) as [r1|] eqn:E1; [|done]. cbn [mbind option_bind].
    destruct (strip_prefix (lit "-") r1) as [r2|] eqn:E2; [|done]. cbn [mbind option_bind].
    destruct (strip_suffix (lit ".log") r2) as [rest|] eqn:E3; [|done].
    apply strip_prefix_some in E1, E2. apply strip_suffix_some in E3. unfold split_at_checked.
    destruct (Nat.ltb_spec (length rest) 15); [done|].
    set (st := take 15 rest). set (tl := drop 15 rest).
    assert (Hst : length st = 15%nat) by (unfold st; rewrite length_take; lia).
    assert (Hrest : rest = st ++ tl) by (symmetry; apply take_drop).
    intros Hb. exists st, tl. subst r1 r2 name. rewrite Hrest, <- !app_assoc. split; [done|].
    assert (Hb' : (bool_decide (st !! 8%nat = Some 95) && digits (take 8 st) && digits (drop 9 st)
       && (bool_decide (tl = []) || match strip_prefix (lit "_") tl with Some d => digits d | None => false end)) = true).
    { destruct tl as [|b tl']; [done|]. by destruct (is_cont b). }
    rewrite !andb_true_iff, bool_decide_eq_true in Hb'. destruct Hb' as [[[H8 Ha] Hc] Ht].
    split; [done|]. by apply tail_ok_spec.
  - intros (stamp & tail & -> & (Hl & H8 & Ha & Hb) & Ht).
    rewrite (proj2 (strip_prefix_some stem _ _) eq_refl). cbn [mbind option_bind].
    rewrite (proj2 (strip_prefix_some (lit "-") _ _) eq_refl). cbn [mbind option_bind].
    assert (Hs : strip_suffix (lit ".log") (stamp ++ tail ++ lit ".log") = Some (stamp ++ tail))
      by (apply strip_suffix_some; by rewrite <- app_assoc).
    rewrite Hs.
    unfold split_at_checked. rewrite length_app, Hl. destruct (Nat.ltb_spec (15 + length tail) 15); [lia|].
    rewrite take_app_length', drop_app_length' by done.
    assert (Hgoal : (bool_decide (stamp !! 8%nat = Some 95) && digits (take 8 stamp) && digits (drop 9 stamp)
       && (bool_decide (tail = []) || match strip_prefix (lit "_") tail with Some d => digits d | None => false end)) = true).
    { rewrite !andb_true_iff, bool_decide_eq_true. split; [done|]. by apply tail_ok_spec. }
    destruct Ht as [->|(ds & -> & _)]; [done|]. exact Hgoal.
Qed.

(** No dash after the one behind the stem. *)
Lemma stamp_no_dash stamp : stamp_ok stamp -> 45 ∉ stamp.
Proof.
  intros (Hl & H8 & [_ Ha]%digits_spec & [_ Hb]%digits_spec) Hin. rewrite Forall_forall in Ha, Hb.
  rewrite <- (take_drop 8 stamp), (drop_S stamp 95 8 H8), elem_of_app, elem_of_cons in Hin.
  destruct Hin as [Hin|[?|Hin]]; [|done|]; [apply Ha in Hin|apply Hb in Hin]; by apply digit_not_cont in Hin as (_ & ? & _).
Qed.
Lemma tail_no_dash tail : tail_ok tail -> 45 ∉ tail.
Proof.
  intros [->|(ds & -> & [_ Hd]%digits_spec)]; [apply not_elem_of_nil|]. rewrite Forall_forall in Hd. cbn.
  rewrite elem_of_cons. intros [?|Hin]; [done|]. apply Hd in Hin. by apply digit_not_cont in Hin as (_ & ? & _).
Qed.

Lemma archive_stem_spec name stem : archive_stem name = Some stem <-> is_archive_of name stem = true.
Proof.
  unfold archive_stem. split.
  - destruct (rsplit_once 45 name) as [[s ?]|]; [|done]. destruct (is_archive_of name s) eqn:E; [|done]. by intros [= <-].
  - intros H. pose proof H as (stamp & tail & Hn & Hs & Ht)%is_archive_of_spec.
    assert (Hr : rsplit_once 45 name = Some (stem, stamp ++ tail ++ lit ".log")).
    { rewrite Hn. apply (rsplit_once_app 45). rewrite !elem_of_app.
      intros [?|[?|Hin]]; [by eapply stamp_no_dash|by eapply tail_no_dash|].
      apply list_elem_of_In in Hin. cbn in Hin. lia. }
    by rewrite Hr, H.
Qed.

(** an archive belongs to one log only: no name is an archive of two
    stems (the archives of [auth] are never those of [auth-service]), and
    [archive_stem] finds the stem of exactly the names that are archives. *)
Theorem archive_of_one_log name stem :
  (archive_stem name = Some stem <-> is_archive_of name stem = true)
  /\ (forall stem', is_archive_of name stem = true -> is_archive_of name stem' = true -> stem' = stem).
Proof.
  split; [apply archive_stem_spec|]. intros stem' H%archive_stem_spec H'%archive_stem_spec. congruence.
Qed.

Lemma archive_of_one_log_witness :
  archive_stem (lit "auth-service-20261028_101010_2.log") = Some (lit "auth-service")
  /\ is_archive_of (lit "auth-service-20261028_101010_2.log") (lit "auth") = false.
Proof.
  split; [|vm_compute; reflexivity].
  apply (proj1 (archive_of_one_log (lit "auth-service-20261028_101010_2.log") (lit "auth-service"))). vm_compute. reflexivity.
Defined.

(** ** Free names *)

(** What the [time] crate promises of [YYYYMMDD_HHMMSS]. *)
Class StampLaws (St : Stamps) : Prop := { stamp_shape now s : format_stamp now = Some s -> stamp_ok s }.

Lemma numbered_inj stem stamp n n' : numbered stem stamp n = numbered stem stamp n' -> n = n'.
Proof.
  unfold numbered. intros H. do 4 apply app_inv_head in H. apply app_inv_tail in H. by apply lit_inj, (inj pretty) in H.
Qed.

Lemma pretty_digits n : digits (lit (pretty (n : N))) = true.
Proof. apply digits_spec. destruct (pretty_digit_text n). by split. Qed.

Section Rotation.
Context {St : Stamps}.
Implicit Types a : gmap (list Z) LogFile.

(** Among [size a + 1] numbers one is free. *)
Lemma free_number a stem stamp : exists m, (1 <= m < 1 + N.of_nat (S (size a)))%N /\ a !! numbered stem stamp m = None.
Proof.
  set (names := (λ i, numbered stem stamp (N.of_nat i)) <$> seq 1 (S (size a))).
  destruct (decide (Forall (λ x, x ∈ dom a) names)) as [Hall|Hno].
  - exfalso. assert (Hnd : NoDup names).
    { apply NoDup_fmap_2; [|apply NoDup_seq]. intros i j H%numbered_inj. lia. }
    assert (Hsub : list_to_set names ⊆ dom a) by (intros x Hx%elem_of_list_to_set; by rewrite Forall_forall in Hall; apply Hall).
    apply subseteq_size in Hsub. rewrite size_list_to_set, size_dom in Hsub by done.
    unfold names in Hsub. rewrite length_fmap, length_seq in Hsub. lia.
  - apply not_Forall_Exists in Hno; [|apply _]. apply Exists_exists in Hno as (x & Hx & Hn).
    apply list_elem_of_fmap in Hx as (i & -> & Hi%elem_of_seq). exists (N.of_nat i). split; [lia|].
    by apply not_elem_of_dom.
Qed.

Lemma find_free_some fuel a stem stamp n m : (n <= m < n + N.of_nat fuel)%N -> a !! numbered stem stamp m = None ->
  exists k, (n <= k <= m)%N /\ find_free fuel a stem stamp n = Some (numbered stem stamp k)
    /\ a !! numbered stem stamp k = None.
Proof.
  intros Hm Ha. revert n Hm. induction fuel as [|fuel IH]; intros n Hm; [lia|]. cbn [find_free].
  destruct (a !! numbered stem stamp n) eqn:E; [|exists n; split_and!; [lia..|done|done]].
  assert (n <> m) by congruence. destruct (IH (n + 1)%N) as (k & Hk & Hf & Hn); [lia|]. exists k. split_and!; [lia..|done|done].
Qed.

Lemma stamp_of_ok {L : StampLaws St} now : stamp_ok (stamp_of now).
Proof. unfold stamp_of. destruct (format_stamp now) eqn:E; [by eapply stamp_shape|]. by repeat split. Qed.

Lemma numbered_is_archive {L : StampLaws St} stem now n : is_archive_of (numbered stem (stamp_of now) n) stem = true.
Proof.
  apply is_archive_of_spec. exists (stamp_of now), (lit "_" ++ lit (pretty n)).
  split_and!; [unfold numbered; by rewrite <- !app_assoc | apply stamp_of_ok|]. right. exists (lit (pretty n)).
  split; [done|apply pretty_digits].
Qed.
Lemma unnumbered_is_archive {L : StampLaws St} stem now : is_archive_of (unnumbered stem (stamp_of now)) stem = true.
Proof.
  apply is_archive_of_spec. exists (stamp_of now), []. split_and!; [done | apply stamp_of_ok|by left].
Qed.

Lemma archive_path_free {L : StampLaws St} (a : gmap (list Z) LogFile) stem now :
  a !! archive_path a stem now = None /\ is_archive_of (archive_path a stem now) stem = true
  /\ exists m, (m <= N.of_nat (size a) + 1)%N /\ (archive_path a stem now = unnumbered stem (stamp_of now)
       \/ archive_path a stem now = numbered stem (stamp_of now) m).
Proof.
  unfold archive_path. destruct (a !! unnumbered stem (stamp_of now)) eqn:E.
  - destruct (free_number a stem (stamp_of now)) as (m & Hm & Ha).
    destruct (find_free_some (S (size a)) a stem (stamp_of now) 1 m Hm Ha) as (k & Hk & -> & Hk'). cbn [default]. split_and!; [done|apply numbered_is_archive|].
    exists k. split; [lia|by right].
  - split_and!; [done|apply unnumbered_is_archive|]. exists 0%N. split; [lia|by left].
Qed.

(** the search for an archive name ends: after at most as many numbers
    as there are files one is free, so [archive_path] yields a name that no
    file has, and the name is an archive of the log. *)
Theorem archive_path_is_free {L : StampLaws St} (a : gmap (list Z) LogFile) stem now :
  a !! archive_path a stem now = None /\ is_archive_of (archive_path a stem now) stem = true
  /\ exists m, (m <= N.of_nat (size a) + 1)%N /\ (archive_path a stem now = unnumbered stem (stamp_of now)
       \/ archive_path a stem now = numbered stem (stamp_of now) m).
Proof. apply archive_path_free. Qed.

(** ** Pruning *)

Definition doomed (policy : LogRetention) (now i : Z) (m : Z) : bool := expired policy now m || (max_archives policy <=? i).
Fixpoint victims (policy : LogRetention) (now i : Z) (l : list (list Z * Z)) : list (list Z) :=
  match l with
  | [] => []
  | (p, m) :: l => (if doomed policy now i m then [p] else []) ++ victims policy now (i + 1) l
  end.
Fixpoint survivors (policy : LogRetention) (now i : Z) (l : list (list Z * Z)) : list (list Z) :=
  match l with
  | [] => []
  | (p, m) :: l => (if doomed policy now i m then [] else [p]) ++ survivors policy now (i + 1) l
  end.

Lemma remove_old_ok io policy now l : forall i a k k' a', remove_old io policy now i l a k = (Ok k', a') ->
  forall n, a' !! n = if decide (n ∈ victims policy now i l) then None else a !! n.
Proof.
  induction l as [|[p m] l IH]; intros i a k k' a'; cbn [remove_old victims].
  - intros [= _ <-] n. by rewrite decide_False by apply not_elem_of_nil.
  - fold (doomed policy now i m). destruct (doomed policy now i m).
    + destruct (ok_remove io p); [|done]. intros H n. rewrite (IH _ _ _ _ _ H n). cbn [app].
      destruct (decide (n = p)) as [->|Hn].
      * rewrite (decide_True _ _ (list_elem_of_here p _)). rewrite lookup_delete_eq. by case_decide.
      * rewrite lookup_delete_ne by done. by repeat (case_decide; rewrite ?elem_of_cons in *; try tauto).
    + intros H n. by rewrite (IH _ _ _ _ _ H n).
Qed.

Lemma victims_listed policy now l : forall i p, p ∈ victims policy now i l -> p ∈ l.*1.
Proof.
  induction l as [|[q m] l IH]; intros i p; cbn; [done|]. rewrite elem_of_app, elem_of_cons.
  intros [H|H]; [|right; by eapply IH]. destruct (doomed _ _ _ _); [left; by apply list_elem_of_singleton in H|by apply elem_of_nil in H].
Qed.

Lemma survivors_spec policy now l : forall i p, NoDup l.*1 ->
  p ∈ survivors policy now i l <-> (p ∈ l.*1 /\ p ∉ victims policy now i l).
Proof.
  induction l as [|[q m] l IH]; intros i p; cbn [survivors victims fmap list_fmap]; [rewrite elem_of_nil; tauto|].
  cbn [fst]. intros [Hq Hnd]%NoDup_cons. rewrite !elem_of_app, elem_of_cons, (IH (i + 1) p Hnd).
  pose proof (victims_listed policy now l (i + 1) p) as Hv.
  destruct (doomed _ _ _ _); rewrite ?list_elem_of_singleton, ?elem_of_nil; destruct (decide (p = q)) as [->|]; tauto.
Qed.

Lemma survivors_len policy now l : forall i, (Z.of_nat (length (survivors policy now i l)) <= Z.max 0 (max_archives policy - i))%Z.
Proof.
  induction l as [|[q m] l IH]; intros i; cbn [survivors]; [cbn; lia|]. rewrite length_app. specialize (IH (i + 1)).
  destruct (doomed policy now i m) eqn:E; cbn [length]; [lia|]. unfold doomed in E. boolify. lia.
Qed.

Lemma survivors_nodup policy now l : forall i, NoDup l.*1 -> NoDup (survivors policy now i l).
Proof.
  intros i Hnd. eapply sublist_NoDup; [exact Hnd|]. clear Hnd. revert i.
  induction l as [|[q m] l IH]; intros i; cbn; [done|]. destruct (doomed _ _ _ _); cbn; by constructor.
Qed.

Lemma survivors_fresh policy now l : forall i p m, NoDup l.*1 -> p ∈ survivors policy now i l -> (p, m) ∈ l ->
  expired policy now m = false.
Proof.
  induction l as [|[q n] l IH]; intros i p m; cbn [survivors fmap list_fmap fst]; [by rewrite elem_of_nil|].
  intros [Hq Hnd]%NoDup_cons. rewrite elem_of_app, elem_of_cons. intros Hs Hl.
  destruct (decide (p = q)) as [->|Hne].
  - assert (Hnl : forall m, (q, m) ∉ l) by (intros m' Hin; apply Hq; apply list_elem_of_fmap; by exists (q, m')).
    destruct Hl as [[= ->]|Hl]; [|by destruct (Hnl m)]. destruct Hs as [Hs|Hs].
    + destruct (doomed policy now i n) eqn:E; [by apply elem_of_nil in Hs|]. unfold doomed in E. by boolify.
    + apply survivors_spec in Hs as [Hs _]; done.
  - destruct Hl as [[= ? ?]|Hl]; [done|]. destruct Hs as [Hs|Hs]; [|by eapply IH].
    destruct (doomed _ _ _ _); [by apply elem_of_nil in Hs|by apply list_elem_of_singleton in Hs].
Qed.

(** A victim that is not expired has [max_archives] entries before it. *)
Lemma victims_reason policy now l : forall i p, p ∈ victims policy now i l ->
  exists before m after, l = before ++ (p, m) :: after
    /\ (expired policy now m = true \/ max_archives policy <= i + Z.of_nat (length before))%Z.
Proof.
  induction l as [|[q m] l IH]; intros i p; cbn [victims]; [by rewrite elem_of_nil|]. rewrite elem_of_app. intros [H|H].
  - destruct (doomed policy now i m) eqn:E; [|by apply elem_of_nil in H]. apply list_elem_of_singleton in H as ->.
    exists [], m, l. split; [done|]. unfold doomed in E. apply orb_true_iff in E as [E|E]; [by left|]. boolify. right. cbn. lia.
  - apply IH in H as (bf & n & af & -> & H). exists ((q, m) :: bf), n, af. split; [done|].
    destruct H; [by left|right]. cbn [length]. lia.
Qed.

#[local] Instance name_ge_trans : Transitive name_ge.
Proof.
  intros x y z. unfold name_ge. destruct text_cmp_laws as [e o t]. intros Hxy Hyz Hxz.
  destruct (text_cmp x.1 y.1) eqn:E1; [|done|].
  - apply e in E1. rewrite E1 in Hxz. done.
  - assert (E2 : text_cmp y.1 x.1 = Lt) by (rewrite o, E1; done). by apply Hyz, (t _ x.1).
Qed.
#[local] Instance name_ge_total : Total name_ge.
Proof.
  intros x y. unfold name_ge. rewrite (cmp_opp _ text_cmp_laws x.1 y.1). destruct (text_cmp x.1 y.1); [left|right|left]; done.
Qed.

Lemma listed_sorted io a stem : StronglySorted name_ge (listed io a stem).
Proof. apply Sorted_StronglySorted; [apply _|]. apply Sorted_merge_sort, _. Qed.

Lemma listed_elem io a stem p m : (p, m) ∈ listed io a stem <->
  exists f, a !! p = Some f /\ modified f = m /\ ok_entry io p = true /\ is_archive_of p stem = true.
Proof.
  unfold listed, sort_desc. rewrite merge_sort_Permutation, list_elem_of_fmap. split.
  - intros ([n f] & [= -> ->] & [Hb Hin]%list_elem_of_filter). cbn in Hb. boolify. exists f.
    by apply elem_of_map_to_list in Hin.
  - intros (f & Ha & <- & Ho & Hi). exists (p, f). split; [done|]. apply list_elem_of_filter. cbn. rewrite Ho, Hi.
    split; [done|by apply elem_of_map_to_list].
Qed.

Lemma listed_nodup io a stem : NoDup (listed io a stem).*1.
Proof.
  apply NoDup_fmap_fst.
  - intros p m1 m2 (f & Hf & <- & _)%listed_elem (g & Hg & <- & _)%listed_elem. congruence.
  - unfold listed, sort_desc. rewrite merge_sort_Permutation.
    apply (NoDup_fmap_2_strong _ (filter _ _)); [|apply NoDup_filter, NoDup_map_to_list].
    intros [p f] [q g] [_ Hp]%list_elem_of_filter [_ Hq]%list_elem_of_filter [= -> _].
    apply elem_of_map_to_list in Hp, Hq. congruence.
Qed.

Definition archives_of (stem : list Z) a : gmap (list Z) LogFile := filter (λ e, is_archive_of e.1 stem = true) a.

Lemma prune_ok io policy stem now d r d' : prune_archives io policy stem now d = (Ok r, d') -> ok_list io = true ->
  logs d' = logs d /\ forall n, archives d' !! n =
    if decide (n ∈ victims policy now 0 (listed io (archives d) stem)) then None else archives d !! n.
Proof.
  unfold prune_archives, archives. intros H Hl. destruct (archive d) as [a|] eqn:Ea.
  - rewrite Hl in H. cbn [negb] in H. destruct (remove_old _ _ _ _ _ _ _) as [[k|] a'] eqn:E; [|done].
    injection H as _ <-. split; [done|]. cbn [archive default]. intros n. exact (remove_old_ok _ _ _ _ _ _ _ _ _ E n).
  - injection H as _ <-. rewrite Ea. split; [done|]. intros n. cbn [default]. rewrite lookup_empty. by case_decide.
Qed.

(** a pruning pass that succeeds leaves at most [max_archives] archives
    of the log, none of them older than the retention; it removes an archive
    only when it is too old or when [max_archives] others have later names;
    everything else in the directory stays as it was. *)
Theorem prune_keeps_what_it_should io policy stem now (d : LogDir) r d'
  (Hrun : prune_archives io policy stem now d = (Ok r, d')) (Hlist : ok_list io = true)
  (Hent : forall n, ok_entry io n = true) (Hmax : 0 <= max_archives policy) :
  (Z.of_nat (size (archives_of stem (archives d'))) <= max_archives policy
  /\ (forall n f, archives d' !! n = Some f -> is_archive_of n stem = true -> expired policy now (modified f) = false)
  /\ logs d' = logs d
  /\ (forall n, is_archive_of n stem = false -> archives d' !! n = archives d !! n)
  /\ (forall n f, archives d !! n = Some f -> archives d' !! n = Some f
       \/ archives d' !! n = None /\ (expired policy now (modified f) = true
          \/ exists later, NoDup later /\ Z.of_nat (length later) = max_archives policy
             /\ forall x, x ∈ later -> text_cmp x n = Gt /\ is_Some (archives d !! x) /\ is_archive_of x stem = true)))%Z.
Proof.
  destruct (prune_ok _ _ _ _ _ _ _ Hrun Hlist) as [Hlogs Ha]. set (l := listed io (archives d) stem) in *.
  assert (Hnd : NoDup l.*1) by apply listed_nodup.
  assert (Hl : forall n f, archives d !! n = Some f -> is_archive_of n stem = true -> (n, modified f) ∈ l)
    by (intros n f Hf Hs; apply listed_elem; eauto).
  assert (Hsurv : forall n f, archives d' !! n = Some f -> is_archive_of n stem = true ->
    archives d !! n = Some f /\ n ∈ survivors policy now 0 l).
  { intros n f Hf Hs. rewrite Ha in Hf. case_decide as Hv; [done|]. split; [done|]. apply survivors_spec; [done|].
    split; [|done]. apply list_elem_of_fmap. by exists (n, modified f); split; [|apply Hl]. }
  split_and!; [| |done| |].
  - assert (Hsub : dom (archives_of stem (archives d')) ⊆ list_to_set (survivors policy now 0 l)).
    { intros n [f Hf]%elem_of_dom. apply map_lookup_filter_Some in Hf as [Hf Hs]. apply elem_of_list_to_set.
      by eapply Hsurv. }
    apply subseteq_size in Hsub. rewrite size_dom in Hsub.
    pose proof (survivors_len policy now l 0). 
    rewrite size_list_to_set in Hsub by (by apply survivors_nodup). lia.
  - intros n f Hf Hs. destruct (Hsurv n f Hf Hs) as [Hd Hin]. eapply survivors_fresh; [done|exact Hin|by apply Hl].
  - intros n Hs. rewrite Ha, decide_False; [done|]. intros Hv%victims_listed.
    apply list_elem_of_fmap in Hv as ([p m] & -> & Hv). apply listed_elem in Hv as (f & _ & _ & _ & Hs'). cbn in Hs. congruence.
  - intros n f Hf. rewrite Ha. case_decide as Hv; [right|by left]. split; [done|].
    apply victims_reason in Hv as (bf & m & af & Hsplit & Hr).
    assert (Hm : (n, m) ∈ l) by (rewrite Hsplit; apply elem_of_app; right; left).
    apply listed_elem in Hm as (g & Hg & <- & _). assert (g = f) as -> by congruence.
    destruct Hr as [Hr|Hr]; [by left|right].
    exists (take (Z.to_nat (max_archives policy)) bf.*1).
    assert (Hbf : NoDup bf.*1) by (rewrite Hsplit, fmap_app in Hnd; by apply NoDup_app in Hnd as (? & _)).
    split_and!.
    + by eapply sublist_NoDup, sublist_take.
    + rewrite length_take, length_fmap. lia.
    + intros x Hx. apply elem_of_take in Hx as (j & Hx & _). apply list_elem_of_lookup_2 in Hx.
      apply list_elem_of_fmap in Hx as ([x' mx] & -> & Hx).
      assert (Hxl : (x', mx) ∈ l) by (rewrite Hsplit; apply elem_of_app; by left).
      pose proof Hxl as (fx & Hfx & _ & _ & Hsx)%listed_elem. split_and!; [|by eexists|done].
      pose proof (listed_sorted io (archives d) stem) as Hsort. fold l in Hsort. rewrite Hsplit in Hsort.
      assert (Hge : name_ge (x', mx) (n, modified f))
        by (eapply StronglySorted_app_1_elem_of; [exact Hsort|exact Hx|left]).
      unfold name_ge in Hge. cbn in Hge. destruct (text_cmp x' n) eqn:Ec; [|done|done]. exfalso.
      apply (cmp_eq _ text_cmp_laws) in Ec as ->. rewrite Hsplit, fmap_app in Hnd. apply NoDup_app in Hnd as (_ & Hdis & _).
      apply (Hdis n); [apply list_elem_of_fmap; by exists (n, mx)|left].
Qed.

(** ** The rotating writer *)

(** The file behind the descriptor. *)
Definition handle_file (h : Handle) (name : list Z) (d : LogDir) : option LogFile :=
  match h with HLog => logs d !! name | HArchive n => archives d !! n | HGone => None end.

(** The descriptor is on the log, and the counter is its length. *)
Definition in_sync (r : RotatingFile) (d : LogDir) (f : LogFile) : Prop :=
  r_file r = HLog /\ logs d !! r_name r = Some f /\ r_written r = file_len f.

Lemma prune_never_fails policy stem now d : exists k d', prune_archives rot_ok policy stem now d = (Ok k, d')
  /\ logs d' = logs d.
Proof.
  unfold prune_archives. destruct (archive d) as [a|]; [|by exists 0, d]. cbn [ok_list rot_ok negb].
  assert (H : forall l i a k, exists k' a', remove_old rot_ok policy now i l a k = (Ok k', a')).
  { clear. induction l as [|[p m] l IH]; intros i a k; cbn [remove_old]; [by eauto|].
    destruct (_ || _); cbn [ok_remove rot_ok]; apply IH. }
  destruct (H (listed rot_ok a stem) 0 a 0) as (k & a' & ->). by eexists _, _.
Qed.

Lemma rename_ok policy now name d f : logs d !! name = Some f -> content f <> [] ->
  let target := archive_path (archives d) (log_stem name) now in
  exists k d', prune_archives rot_ok policy (log_stem name) now
      (mkDir (delete name (logs d)) (Some (<[target := f]> (archives d)))) = (Ok k, d')
    /\ archive_by_rename rot_ok policy now name d = (Ok (Some target), d') /\ logs d' = delete name (logs d).
Proof.
  intros Hf Hne target. unfold archive_by_rename. rewrite Hf, bool_decide_false by done.
  cbn [ok_mkdir ok_rename rot_ok negb]. change (archives (set_archives d (archives d))) with (archives d).
  change (logs (set_archives d (archives d))) with (logs d). fold target.
  destruct (prune_never_fails policy (log_stem name) now
    (mkDir (delete name (logs d)) (Some (<[target := f]> (archives d))))) as (k & d' & Hp & Hl).
  exists k, d'. split; [done|]. split; [|done]. by rewrite Hp.
Qed.

Lemma file_len_nonneg f : 0 <= file_len f.
Proof. unfold file_len. lia. Qed.
Lemma file_len_pos f : file_len f <> 0 -> content f <> [].
Proof. unfold file_len. by destruct (content f). Qed.

Lemma wanted_nonempty r now n : 0 <= r_written r -> rotation_wanted r now n <> None -> r_written r <> 0.
Proof.
  unfold rotation_wanted, rotation_due. intros Hp Hw E. apply Hw. rewrite E. done.
Qed.

(** What a write without faults does. *)
Lemma write_step now buf r d f : in_sync r d f -> file_len f + Z.of_nat (length buf) <= u64_max ->
  exists r' d' f', write rot_ok true now (Some (length buf)) buf r d = (Ok (Z.of_nat (length buf)), r', d')
    /\ r_name r' = r_name r /\ r_policy r' = r_policy r /\ in_sync r' d' f'
    /\ match rotation_wanted r now (Z.of_nat (length buf)) with
       | None => content f' = content f ++ buf /\ archive d' = archive d
       | Some _ => content f' = buf /\ r_day r' = day_of now
           /\ let target := archive_path (archives d) (log_stem (r_name r)) now in
              exists k d0, prune_archives rot_ok (r_policy r) (log_stem (r_name r)) now
                (mkDir (delete (r_name r) (logs d)) (Some (<[target := f]> (archives d)))) = (Ok k, d0)
                /\ archive d' = archive d0
       end.
Proof.
  intros (Hh & Hf & Hw) Hmax. unfold write, rotate_if_due. rewrite firstn_all.
  assert (Hsat : forall z, 0 <= z -> z + Z.of_nat (length buf) <= u64_max ->
    u64_saturating_add z (Z.of_nat (length buf)) = z + Z.of_nat (length buf)) by (intros; unfold u64_saturating_add; lia).
  pose proof (file_len_nonneg f).
  destruct (rotation_wanted r now (Z.of_nat (length buf))) as [due|] eqn:Ew.
  - assert (Hne : content f <> []).
    { apply file_len_pos. rewrite <- Hw. eapply wanted_nonempty; [lia|]. rewrite Ew. done. }
    destruct (rename_ok (r_policy r) now (r_name r) d f Hf Hne) as (k & d1 & Hp & Hr & Hl).
    rewrite Hr. cbn [negb ok_open rot_ok r_file r_name r_policy r_written r_day]. unfold open_append.
    rewrite Hl, lookup_delete_eq. cbn [write_handle set_log logs archive].
    eexists _, _, (append_to now buf (mkLog [] now (Some now))). split; [done|]. split; [done|]. split; [done|]. split.
    + split; [done|]. cbn [r_name r_written logs]. rewrite lookup_alter_eq, lookup_insert_eq. split; [done|].
      by rewrite Hsat by lia.
    + split; [done|]. split; [done|]. exists k, d1. done.
  - cbn [negb]. rewrite Hh. cbn [write_handle]. eexists _, _, (append_to now buf f). split; [done|]. split; [done|]. split; [done|].
    split; [|done]. split; [done|]. cbn [r_name r_written logs]. rewrite lookup_alter_eq, Hf. split; [done|].
    rewrite Hw, Hsat by lia. unfold file_len. cbn [content append_to]. rewrite length_app. lia.
Qed.

(** A sequence of writes, each at its time. *)
Fixpoint run (ws : list (Z * list Z)) (r : RotatingFile) (d : LogDir) : RotatingFile * LogDir :=
  match ws with
  | [] => (r, d)
  | (now, buf) :: ws => let '(_, r', d') := write rot_ok true now (Some (length buf)) buf r d in run ws r' d'
  end.
Definition bytes_of (ws : list (Z * list Z)) : Z := foldr (λ w n, Z.of_nat (length w.2) + n) 0 ws.

Lemma bytes_of_nonneg ws : 0 <= bytes_of ws.
Proof. induction ws as [|w ws IH]; cbn; [lia|]. unfold bytes_of in IH. lia. Qed.

(** A write leaves its own bytes alone in the log, or the log within the cap. *)
Lemma write_bound now buf r d f : in_sync r d f -> file_len f + Z.of_nat (length buf) <= u64_max ->
  exists r' d' f', write rot_ok true now (Some (length buf)) buf r d = (Ok (Z.of_nat (length buf)), r', d')
    /\ r_name r' = r_name r /\ r_policy r' = r_policy r /\ in_sync r' d' f'
    /\ file_len f' <= file_len f + Z.of_nat (length buf)
    /\ (content f' = buf \/ (exists pre, content f' = pre ++ buf) /\ file_len f' <= max_bytes (r_policy r)).
Proof.
  intros Hs Hmax. destruct (write_step now buf r d f Hs Hmax) as (r' & d' & f' & Hw & Hn & Hp & Hs' & Hm).
  exists r', d', f'. do 4 (split; [done|]). pose proof (file_len_nonneg f). destruct Hs as (_ & _ & Hwr).
  destruct (rotation_wanted r now (Z.of_nat (length buf))) as [due|] eqn:Ew.
  - destruct Hm as (Hc & _). unfold file_len. rewrite Hc. split; [unfold file_len in *; lia|by left].
  - destruct Hm as (Hc & _). assert (Hlen : file_len f' = file_len f + Z.of_nat (length buf))
      by (unfold file_len; rewrite Hc, length_app; lia).
    split; [lia|]. destruct (decide (content f = [])) as [He|He]; [left; by rewrite Hc, He|right]. split; [by eexists|].
    unfold rotation_wanted in Ew. destruct (rotation_due _ _ _ _); [done|].
    assert (0 < r_written r) by (rewrite Hwr; unfold file_len; destruct (content f); [done|cbn; lia]).
    destruct (Z.ltb_spec 0 (r_written r)); [|lia]. cbn [andb] in Ew.
    destruct (Z.ltb_spec (max_bytes (r_policy r)) (u64_saturating_add (r_written r) (Z.of_nat (length buf)))) as [|Hle]; [done|].
    unfold u64_saturating_add in Hle. lia.
Qed.

Lemma run_sync ws : forall r d f, in_sync r d f -> file_len f + bytes_of ws <= u64_max ->
  exists r' d' f', run ws r d = (r', d') /\ r_name r' = r_name r /\ r_policy r' = r_policy r
    /\ in_sync r' d' f' /\ file_len f' <= file_len f + bytes_of ws.
Proof.
  induction ws as [|[now buf] ws IH]; intros r d f Hs Hmax; cbn [run].
  - exists r, d, f. split_and!; try done. cbn. lia.
  - change (bytes_of ((now, buf) :: ws)) with (Z.of_nat (length buf) + bytes_of ws) in *.
    pose proof (bytes_of_nonneg ws).
    destruct (write_bound now buf r d f Hs ltac:(lia)) as (r1 & d1 & f1 & -> & Hn & Hp & Hs1 & Hl & _).
    destruct (IH r1 d1 f1 Hs1 ltac:(lia)) as (r2 & d2 & f2 & Hr & Hn2 & Hp2 & Hs2 & Hl2).
    exists r2, d2, f2. split_and!; try done; [congruence|congruence|lia].
Qed.

(** through any sequence of writes the host's log stays in step with its
    counter, ends in the last write, and is longer than [max_bytes] only when
    it holds nothing but that one write. *)
Theorem rotating_log_within_cap ws now buf r d f
  (Hs : in_sync r d f) (Hmax : file_len f + bytes_of (ws ++ [(now, buf)]) <= u64_max) :
  exists r' d' f', run (ws ++ [(now, buf)]) r d = (r', d') /\ in_sync r' d' f'
    /\ (content f' = buf \/ (exists pre, content f' = pre ++ buf) /\ file_len f' <= max_bytes (r_policy r)).
Proof.
  assert (Happ : forall ws r d, run (ws ++ [(now, buf)]) r d = let '(r1, d1) := run ws r d in run [(now, buf)] r1 d1).
  { clear. induction ws as [|[n b] ws IH]; intros r d; [done|]. cbn [app run]. destruct (write _ _ _ _ _ _ _) as [[? r1] d1]. apply IH. }
  assert (Hb : bytes_of (ws ++ [(now, buf)]) = bytes_of ws + Z.of_nat (length buf)).
  { clear. induction ws as [|w ws IH]; cbn in *; [lia|]. unfold bytes_of in *. lia. }
  destruct (run_sync ws r d f Hs ltac:(lia)) as (r1 & d1 & f1 & Hr & Hn & Hp & Hs1 & Hl).
  destruct (write_bound now buf r1 d1 f1 Hs1 ltac:(lia)) as (r2 & d2 & f2 & Hw & _ & _ & Hs2 & _ & Hc).
  exists r2, d2, f2. rewrite Happ, Hr. cbn [run]. rewrite Hw, <- Hp. done.
Qed.

(** rotation loses nothing: a write without faults either extends the
    log, or leaves the old content under a new archive name that no file had
    (and that pruning then treats like any other archive) and the written
    bytes alone in the log. *)
Theorem rotation_keeps_content {L : StampLaws St} now buf r d f
  (Hs : in_sync r d f) (Hmax : file_len f + Z.of_nat (length buf) <= u64_max) :
  exists r' d' f', write rot_ok true now (Some (length buf)) buf r d = (Ok (Z.of_nat (length buf)), r', d')
    /\ logs d' !! r_name r = Some f'
    /\ (content f' = content f ++ buf /\ archive d' = archive d
        \/ content f' = buf /\ exists target k d0, archives d !! target = None
            /\ is_archive_of target (log_stem (r_name r)) = true
            /\ prune_archives rot_ok (r_policy r) (log_stem (r_name r)) now
                 (mkDir (delete (r_name r) (logs d)) (Some (<[target := f]> (archives d)))) = (Ok k, d0)
            /\ archive d' = archive d0).
Proof.
  destruct (write_step now buf r d f Hs Hmax) as (r' & d' & f' & Hw & Hn & Hp & (_ & Hf' & _) & Hm).
  exists r', d', f'. split; [done|]. split; [congruence|].
  destruct (rotation_wanted r now (Z.of_nat (length buf))); [right|by left].
  destruct Hm as (Hc & _ & k & d0 & Hpr & Ha). split; [done|].
  exists (archive_path (archives d) (log_stem (r_name r)) now), k, d0.
  destruct (archive_path_free (archives d) (log_stem (r_name r)) now) as (Hfree & Harch & _). done.
Qed.

(** ** Faults *)

(** The descriptor is on a file, unless its file was pruned. *)
Definition handle_ok (r : RotatingFile) (d : LogDir) : Prop :=
  r_file r = HGone \/ is_Some (handle_file (r_file r) (r_name r) d).

Lemma prune_logs io policy stem now d : logs (prune_archives io policy stem now d).2 = logs d.
Proof.
  unfold prune_archives. destruct (archive d); [|done]. destruct (ok_list io); [|done]. cbn [negb].
  by destruct (remove_old _ _ _ _ _ _ _).
Qed.

Lemma then_ok_snd {A B S} (x : result A unit * S) (b : B) : (then_ok x b).2 = x.2.
Proof. by destruct x as [[]]. Qed.

(** After [archive_by_rename] the log is as before, or it was renamed. *)
Lemma rename_cases io policy now name d : let '(r, d') := archive_by_rename io policy now name d in
  (logs d' = logs d /\ (forall n, archives d' !! n = archives d !! n)
   /\ ((exists f, logs d !! name = Some f /\ content f <> []) -> exists e, r = Err e))
  \/ (exists f, logs d !! name = Some f /\ content f <> [] /\ logs d' = delete name (logs d)).
Proof.
  unfold archive_by_rename. destruct (logs d !! name) as [f|] eqn:Ef; [|left; split_and!; try done; by intros (? & ? & _)].
  case_bool_decide as Hc; [left; split_and!; try done; by intros (? & [= <-] & ?)|].
  destruct (ok_mkdir io); cbn [negb]; [|left; split_and!; try done; by eauto].
  destruct (ok_rename io); cbn [negb]; [|left; split_and!; try done; by eauto].
  match goal with |- context [then_ok ?x ?b] => pose proof (then_ok_snd x b) as Hs; destruct (then_ok x b) as [r d'] end.
  right. exists f. split_and!; [done..|]. cbn [snd] in Hs. rewrite Hs, prune_logs. done.
Qed.

Lemma renamed_handle_ok h target name d :
  renamed_handle h target d = HGone \/ is_Some (handle_file (renamed_handle h target d) name d).
Proof.
  destruct h as [|n|]; cbn; [| |by left];
    (destruct (archives d !! _) eqn:E; [right; cbn; by rewrite E|by left]).
Qed.

Lemma rotate_handle_ok io fl now n r d : handle_ok r d ->
  let '(r', d') := rotate_if_due io fl now n r d in handle_ok r' d' /\ r_name r' = r_name r.
Proof.
  intros Hok. unfold rotate_if_due. destruct (rotation_wanted r now n); [|done]. destruct fl; [|done]. cbn [negb].
  pose proof (rename_cases io (r_policy r) now (r_name r) d) as Hc.
  destruct (archive_by_rename io (r_policy r) now (r_name r) d) as [[o|e] d'].
  - destruct (ok_open io); cbn [negb].
    + split; [|done]. right. cbn. unfold open_append. destruct (logs d' !! r_name r) eqn:E; [by rewrite E|].
      cbn. rewrite lookup_insert_eq. by eexists.
    + split; [|done]. destruct Hc as [(Hl & Ha & Hf)|(f & Hf & Hne & Hl)].
      * assert (Hr : match logs d !! r_name r with Some f => negb (bool_decide (content f = [])) | None => false end = false).
        { destruct (logs d !! r_name r) as [f|] eqn:E; [|done]. case_bool_decide; [done|]. destruct Hf as [e He]; [by exists f|done]. }
        rewrite Hr. unfold handle_ok in *. cbn. destruct Hok as [Hok|Hok]; [by left|right].
        destruct (r_file r); cbn in *; rewrite ?Hl, ?Ha; done.
      * rewrite Hf, bool_decide_false by done. cbn [negb]. unfold handle_ok. cbn. apply renamed_handle_ok.
  - split; [|done]. unfold handle_ok. cbn [r_file r_name].
    destruct Hc as [(Hl & Ha & _)|(f & Hf & Hne & Hl)].
    + assert (Hsame : r_file r = HGone \/ is_Some (handle_file (r_file r) (r_name r) d')).
      { destruct Hok as [Hok|Hok]; [by left|right]. destruct (r_file r); cbn in *; rewrite ?Hl, ?Ha; done. }
      destruct (logs d !! r_name r) as [f|] eqn:Ef; [|done].
      rewrite Hl, Ef, (bool_decide_true (is_Some (Some f))) by by eexists. rewrite andb_false_r. done.
    + rewrite Hf, (bool_decide_false (content f = [])) by done. rewrite Hl, lookup_delete_eq.
      rewrite bool_decide_false by (by intros [? ?]). cbn. apply renamed_handle_ok.
Qed.

(** a failed rotation does not lose the line: whatever fails while the
    log is rotated (flushing, making the folder, renaming, pruning, opening
    the new log), the bytes of a write are the end of the file the
    descriptor is on, unless pruning removed that very file. *)
Theorem failed_rotation_keeps_line io ok_flush now (buf : list Z) r d
  (Hok : handle_ok r d) :
  let '(res, r', d') := write io ok_flush now (Some (length buf)) buf r d in
  res = Ok (Z.of_nat (length buf)) /\ handle_ok r' d'
  /\ (r_file r' = HGone \/ exists f pre, handle_file (r_file r') (r_name r') d' = Some f /\ content f = pre ++ buf).
Proof.
  unfold write. pose proof (rotate_handle_ok io ok_flush now (Z.of_nat (length buf)) r d Hok) as H.
  destruct (rotate_if_due _ _ _ _ _ _) as [r1 d1]. destruct H as [H1 _]. rewrite firstn_all. split; [done|].
  unfold handle_ok in *. cbn [r_file r_name].
  assert (Hend : r_file r1 = HGone \/ exists f pre,
    handle_file (r_file r1) (r_name r1) (write_handle now (r_file r1) (r_name r1) buf d1) = Some f /\ content f = pre ++ buf).
  { destruct H1 as [H1|[f Hf]]; [by left|right]. exists (append_to now buf f), (content f). split; [|done].
    destruct (r_file r1) as [|n|]; cbn in *; [by rewrite lookup_alter_eq, Hf| |done].
    unfold archives in *. cbn. destruct (archive d1); cbn in *; [by rewrite lookup_alter_eq, Hf|by rewrite lookup_empty in Hf]. }
  split; [|done]. destruct Hend as [?|(f & pre & Hf & _)]; [by left|right; by eexists].
Qed.

(** ** Archives of one second *)

Lemma unnumbered_before stem stamp n : text_cmp (unnumbered stem stamp) (numbered stem stamp n) = Lt.
Proof. unfold unnumbered, numbered. rewrite !text_cmp_app. done. Qed.

Lemma listed_two {L : StampLaws St} stem now f g :
  let num := numbered stem (stamp_of now) 1 in let unn := unnumbered stem (stamp_of now) in
  listed rot_ok (<[unn := f]> {[num := g]}) stem = [(num, modified g); (unn, modified f)].
Proof.
  intros num unn. assert (Hne : unn <> num).
  { intros E. pose proof (unnumbered_before stem (stamp_of now) 1) as Hc. fold num unn in Hc. rewrite E in Hc.
    rewrite (proj2 (cmp_eq _ text_cmp_laws num num) eq_refl) in Hc. done. }
  assert (Hp : listed rot_ok (<[unn := f]> {[num := g]}) stem ≡ₚ [(unn, modified f); (num, modified g)]).
  { unfold listed, sort_desc. rewrite merge_sort_Permutation, map_to_list_insert, map_to_list_singleton
      by (rewrite lookup_singleton_ne; done).
    rewrite !filter_cons_True, filter_nil; [done|..]; cbn [ok_entry rot_ok fst andb];
      [apply numbered_is_archive|apply unnumbered_is_archive]. }
  symmetry in Hp. apply Permutation_length_2_inv in Hp as [Hp|Hp]; [|done]. exfalso.
  pose proof (listed_sorted rot_ok (<[unn := f]> {[num := g]}) stem) as Hs. rewrite Hp in Hs.
  apply StronglySorted_inv in Hs as [_ [Hge _]%Forall_cons]. apply Hge. cbn. apply unnumbered_before.
Qed.

(** names do not sort like their times within one second.  When the
    archive [stem-STAMP_1.log] of this second is the only one left (two
    rotations came before and one archive is kept), the next rotation takes
    the free name [stem-STAMP.log], pruning puts it behind the older one and
    deletes it: the content that was just rotated is in no file any more. *)
Theorem newest_archive_is_deleted {L : StampLaws St} policy now name d f g
  (Hone : max_archives policy = 1) (Hf : logs d !! name = Some f) (Hne : content f <> [])
  (Ha : archive d = Some {[numbered (log_stem name) (stamp_of now) 1 := g]})
  (Hfresh : expired policy now (modified g) = false) :
  archive_by_rename rot_ok policy now name d
  = (Ok (Some (unnumbered (log_stem name) (stamp_of now))), mkDir (delete name (logs d)) (archive d)).
Proof.
  set (num := numbered (log_stem name) (stamp_of now) 1) in *. set (unn := unnumbered (log_stem name) (stamp_of now)).
  assert (Hdiff : num <> unn).
  { intros E. pose proof (unnumbered_before (log_stem name) (stamp_of now) 1) as Hc. fold num unn in Hc. rewrite <- E in Hc.
    rewrite (proj2 (cmp_eq _ text_cmp_laws num num) eq_refl) in Hc. done. }
  assert (Har : archives d = {[num := g]}) by (unfold archives; by rewrite Ha).
  unfold archive_by_rename. rewrite Hf, bool_decide_false by done. cbn [ok_mkdir ok_rename rot_ok negb].
  change (archives (set_archives d (archives d))) with (archives d). change (logs (set_archives d (archives d))) with (logs d).
  assert (Ht : archive_path (archives d) (log_stem name) now = unn).
  { unfold archive_path. fold unn. by rewrite Har, lookup_singleton_ne. }
  rewrite Ht, Har. unfold prune_archives. cbn [archive ok_list rot_ok negb]. 
  pose proof (listed_two (log_stem name) now f g) as Hl. cbn zeta in Hl. fold num unn in Hl. rewrite Hl. cbn [remove_old]. rewrite Hfresh, Hone. cbn [orb Z.leb Z.compare].
  rewrite orb_true_r. cbn [ok_remove rot_ok then_ok logs]. rewrite Ha. do 3 f_equal.
  apply map_eq. intros n. destruct (decide (n = unn)) as [->|Hn].
  - by rewrite lookup_delete_eq, lookup_singleton_ne.
  - by rewrite lookup_delete_ne, lookup_insert_ne by done.
Qed.

(** ** The pass over the logs of the modules *)

Lemma copy_truncate_ok policy now during name d f : logs d !! name = Some f -> content f <> [] ->
  exists target d', archive_by_copy_truncate rot_ok policy now during name d = (Ok (Some target), d')
    /\ logs d' = <[name := mkLog [] now (created f)]> (logs d).
Proof.
  intros Hf Hne. unfold archive_by_copy_truncate. rewrite Hf, bool_decide_false by done.
  cbn [ok_mkdir ok_open ok_copy ok_truncate rot_ok negb].
  match goal with |- context [prune_archives _ ?p ?st ?n ?dd] => destruct (prune_never_fails p st n dd) as (k & d' & -> & Hl) end.
  eexists _, d'. split; [done|]. by rewrite Hl.
Qed.

(** A log is empty, or below the cap and started today. *)
Definition settled (policy : LogRetention) (now : Z) (days : gmap (list Z) Z) (n : list Z) (f : LogFile) : Prop :=
  file_len f = 0 \/ (file_len f < max_bytes policy /\ days !! n = Some (day_of now)).

Definition is_log (n : list Z) : Prop := extension n = Some (lit "log").

Lemma maintain_entry_ok policy now during name f p : logs (p_dir p) !! name = Some f ->
  exists p', maintain_entry rot_ok policy now during (name, f) p = (Ok tt, p')
    /\ (forall n, n <> name -> logs (p_dir p') !! n = logs (p_dir p) !! n /\ p_days p' !! n = p_days p !! n)
    /\ p_seen p ⊆ p_seen p'
    /\ (is_log name -> name ∈ p_seen p' /\ exists f', logs (p_dir p') !! name = Some f' /\ settled policy now (p_days p') name f').
Proof.
  intros Hf. unfold maintain_entry. case_bool_decide as Hext; cbn [negb]; [|by exists p; split_and!].
  cbn [ok_entry rot_ok negb]. destruct (Z.eqb_spec (file_len f) 0) as [H0|H0].
  - eexists. split; [done|]. cbn. split_and!; [|set_solver|].
    + intros n Hn. by rewrite lookup_insert_ne.
    + intros _. split; [set_solver|]. exists f. split; [done|by left].
  - destruct (rotation_due _ _ _ _) as [due|] eqn:Ed.
    + destruct (copy_truncate_ok policy now (during name) name (p_dir p) f Hf (file_len_pos f H0)) as (t & d' & -> & Hl).
      eexists. split; [done|]. cbn. split_and!; [|set_solver|].
      * intros n Hn. by rewrite Hl, !lookup_insert_ne.
      * intros _. split; [set_solver|]. eexists. rewrite Hl, lookup_insert_eq. split; [done|by left].
    + eexists. split; [done|]. cbn. split_and!; [|set_solver|].
      * intros n Hn. by rewrite lookup_insert_ne.
      * intros _. split; [set_solver|]. exists f. split; [done|]. right. unfold rotation_due in Ed.
        destruct (Z.eqb_spec (file_len f) 0); [done|]. destruct (Z.leb_spec (max_bytes policy) (file_len f)); [done|].
        split; [done|]. rewrite lookup_insert_eq.
        destruct (Z.eqb_spec (day_of now) (default (file_day f (day_of now)) (p_days p !! name))) as [<-|]; [done|done].
Qed.

Lemma maintain_entries_ok policy now during es : forall p, NoDup es.*1 ->
  (forall n f, (n, f) ∈ es -> logs (p_dir p) !! n = Some f) ->
  exists p', maintain_entries rot_ok policy now during es p = (Ok tt, p')
    /\ (forall n, n ∉ es.*1 -> logs (p_dir p') !! n = logs (p_dir p) !! n /\ p_days p' !! n = p_days p !! n)
    /\ p_seen p ⊆ p_seen p'
    /\ forall n, n ∈ es.*1 -> is_log n -> n ∈ p_seen p'
         /\ exists f', logs (p_dir p') !! n = Some f' /\ settled policy now (p_days p') n f'.
Proof.
  induction es as [|[name f] es IH]; intros p Hnd Hes; cbn [maintain_entries].
  - exists p. split_and!; try done. intros n Hn. by apply elem_of_nil in Hn.
  - rewrite fmap_cons in *. cbn [fst] in *. apply NoDup_cons in Hnd as [Hn Hnd].
    destruct (maintain_entry_ok policy now during name f p (Hes _ _ (list_elem_of_here _ _))) as (p1 & -> & Ho & Hs & Hl).
    assert (Hes1 : forall n g, (n, g) ∈ es -> logs (p_dir p1) !! n = Some g).
    { intros n g Hin. assert (n <> name) by (intros ->; apply Hn, list_elem_of_fmap; by exists (name, g)).
      rewrite (proj1 (Ho n ltac:(done))). apply Hes. by right. }
    destruct (IH p1 Hnd Hes1) as (p2 & -> & Ho2 & Hs2 & Hl2). exists p2. split; [done|]. split_and!.
    + intros n [Hne Hni]%not_elem_of_cons. destruct (Ho2 n Hni) as [-> ->]. by apply Ho.
    + set_solver.
    + intros n [->|Hin]%elem_of_cons Hext; [|by apply Hl2]. destruct (Hl Hext) as (Hseen & f' & Hf' & Hset).
      destruct (Ho2 name Hn) as [E1 E2]. split; [set_solver|]. exists f'. rewrite E1. split; [done|].
      unfold settled in *. by rewrite E2.
Qed.

Lemma prune_all_never_fails policy now d : exists k d', prune_all_archives rot_ok policy now d = (Ok k, d') /\ logs d' = logs d.
Proof.
  unfold prune_all_archives. destruct (archive d) as [a|]; [|by exists 0, d]. cbn [ok_list rot_ok negb].
  generalize (stems_of rot_ok a) as stems, 0 as k. intros stems. revert d.
  induction stems as [|st stems IH]; intros d k; cbn [prune_stems]; [by exists k, d|].
  destruct (prune_never_fails policy st now d) as (n & d1 & -> & Hl). rewrite <- Hl. apply IH.
Qed.

(** after a pass over the logs of the modules without faults every log
    is empty, or shorter than [max_bytes] and recorded as started today: no
    line stays in a log past its day.  [es] is what [read_dir] lists. *)
Theorem pass_settles_every_log policy now during es days d
  (Hnd : NoDup es.*1) (Hes : forall n f, (n, f) ∈ es <-> logs d !! n = Some f) :
  exists rotated d' days', maintain_log_dir rot_ok policy now during (Some es) days d = (Ok rotated, d', days')
    /\ forall n f, logs d !! n = Some f -> is_log n ->
         exists f', logs d' !! n = Some f' /\ settled policy now days' n f'.
Proof.
  unfold maintain_log_dir.
  destruct (maintain_entries_ok policy now during es (mkPass d days ∅ []) Hnd) as (p & -> & Ho & _ & Hl).
  { intros n f Hin. by apply Hes. }
  destruct (prune_all_never_fails policy now (p_dir p)) as (k & d' & -> & Hlogs). cbn [then_ok].
  eexists _, _, _. split; [done|]. rewrite Hlogs. cbn [p_dir] in Ho.
  intros n f Hf Hext. assert (Hin : n ∈ es.*1) by (apply list_elem_of_fmap; exists (n, f); split; [done|by apply Hes]).
  destruct (Hl n Hin Hext) as (Hseen & f' & Hf' & Hset). exists f'. split; [done|].
  destruct Hset as [?|[? Hday]]; [by left|right]. split; [done|]. by apply map_lookup_filter_Some.
Qed.
End Rotation.

(** ** A concrete host *)

#[local] Instance demo_stamps : Stamps := {| format_stamp _ := Some (lit "20261028_101010") |}.
#[local] Instance demo_stamp_laws : StampLaws demo_stamps.
Proof. split. intros now s [= <-]. by repeat split. Qed.

Definition app_log : list Z := lit "app.log".
Definition tiny : LogRetention := mkRetention 10 1000 1.
Definition demo_file (c : list Z) (t : Z) : LogFile := mkLog c t (Some 100000).
Definition old_archive : list Z := numbered (lit "app") (lit "20261028_101010") 1.
Definition demo_logs : LogDir := mkDir {[app_log := demo_file [1; 2; 3] 100000]} None.
Definition demo_writer : RotatingFile := mkRotating app_log tiny HLog 3 1.

Lemma archive_path_is_free_witness :
  (∅ : gmap (list Z) LogFile) !! archive_path ∅ (lit "app") 100000 = None.
Proof. apply (proj1 (archive_path_is_free ∅ (lit "app") 100000)). Defined.

Lemma prune_keeps_what_it_should_witness :
  logs (prune_archives rot_ok tiny (lit "app") 100000 demo_logs).2 = logs demo_logs.
Proof.
  apply (prune_keeps_what_it_should rot_ok tiny (lit "app") 100000 demo_logs 0
    (prune_archives rot_ok tiny (lit "app") 100000 demo_logs).2).
  - reflexivity.
  - reflexivity.
  - reflexivity.
  - discriminate.
Defined.

Lemma demo_in_sync : in_sync demo_writer demo_logs (demo_file [1; 2; 3] 100000).
Proof. split; [reflexivity|]. split; reflexivity. Qed.

Lemma rotating_log_within_cap_witness : exists r' d' f', run [(100001, [4; 5; 6; 7]); (100002, [8; 9; 10; 11])] demo_writer demo_logs = (r', d')
  /\ in_sync r' d' f'
  /\ (content f' = [8; 9; 10; 11] \/ (exists pre, content f' = pre ++ [8; 9; 10; 11]) /\ file_len f' <= 10).
Proof.
  apply (rotating_log_within_cap [(100001, [4; 5; 6; 7])] 100002 [8; 9; 10; 11] demo_writer demo_logs (demo_file [1; 2; 3] 100000)).
  - exact demo_in_sync.
  - vm_compute. discriminate.
Defined.

Lemma rotation_keeps_content_witness : exists r' d' f',
  write rot_ok true 100001 (Some 8%nat) [4; 5; 6; 7; 8; 9; 10; 11] demo_writer demo_logs = (Ok 8, r', d')
  /\ logs d' !! app_log = Some f'.
Proof.
  destruct (rotation_keeps_content 100001 [4; 5; 6; 7; 8; 9; 10; 11] demo_writer demo_logs (demo_file [1; 2; 3] 100000))
    as (r' & d' & f' & Hw & Hf & _).
  - exact demo_in_sync.
  - vm_compute. discriminate.
  - exists r', d', f'. split; [exact Hw|exact Hf].
Defined.

(** The disk refuses to rename. *)
Definition no_rename : RotIo := mkRotIo true false true None true true (λ _, true) (λ _, true).
Lemma failed_rotation_keeps_line_witness :
  let '(res, r', d') := write no_rename true 100001 (Some 8%nat) [4; 5; 6; 7; 8; 9; 10; 11] demo_writer demo_logs in
  res = Ok 8 /\ handle_ok r' d'
  /\ (r_file r' = HGone \/ exists f pre, handle_file (r_file r') (r_name r') d' = Some f /\ content f = pre ++ [4; 5; 6; 7; 8; 9; 10; 11]).
Proof.
  apply (failed_rotation_keeps_line no_rename true 100001 [4; 5; 6; 7; 8; 9; 10; 11] demo_writer demo_logs).
  right. exists (demo_file [1; 2; 3] 100000). reflexivity.
Defined.

Definition second_logs : LogDir :=
  mkDir {[app_log := demo_file [1; 2; 3] 100000]} (Some {[old_archive := demo_file [9] 99999]}).
Lemma newest_archive_is_deleted_witness :
  archive_by_rename rot_ok tiny 100000 app_log second_logs
  = (Ok (Some (unnumbered (log_stem app_log) (stamp_of 100000))), mkDir (delete app_log (logs second_logs)) (archive second_logs)).
Proof.
  apply (newest_archive_is_deleted tiny 100000 app_log second_logs (demo_file [1; 2; 3] 100000) (demo_file [9] 99999)).
  - reflexivity.
  - reflexivity.
  - discriminate.
  - reflexivity.
  - reflexivity.
Defined.

Lemma pass_settles_every_log_witness : exists rotated d' days',
  maintain_log_dir rot_ok tiny 200000 (λ _, []) (Some [(app_log, demo_file [1; 2; 3] 100000)]) ∅ demo_logs = (Ok rotated, d', days')
  /\ exists f', logs d' !! app_log = Some f' /\ settled tiny 200000 days' app_log f'.
Proof.
  destruct (pass_settles_every_log tiny 200000 (λ _, []) [(app_log, demo_file [1; 2; 3] 100000)] ∅ demo_logs)
    as (rotated & d' & days' & Hr & Hs).
  - apply NoDup_singleton.
  - intros n f. rewrite list_elem_of_singleton. split.
    + intros [= -> ->]. reflexivity.
    + cbn [logs demo_logs]. rewrite lookup_singleton_Some. intros [<- <-]. reflexivity.
  - exists rotated, d', days'. split; [exact Hr|]. apply (Hs app_log (demo_file [1; 2; 3] 100000)); reflexivity.
Defined.
