(* ===== verification/ProcessRuntime.v ===== *)
(** * The process runtime of modules: [infra/modules/runtime/process.rs] and
    the types of [domain/module/runtime.rs]

    [ProcessModuleRuntime] keeps a map of running instances and starts, stops,
    restarts and reconciles them.  The operating system is part of the state:
    the processes that are alive and the static-site tasks that still serve.
    What a call of the system answers (files, spawn, signals, clock) is given
    by [Answers], indexed by the number of calls made so far; processes also
    die on their own between calls ([crash]).

    [SiteProfile] is the choice between a static site and a binary. *)

From stdpp Require Import pretty.
From S2P Require Import Prelude StateError Text Versions Edge.

#[local] Open Scope fenrir_scope.

(** ** The runtime's types *)

Inductive ModuleRuntimeStatus := Running | Stopped | Failed | Starting | Stopping.
#[global] Instance ModuleRuntimeStatus_eq_dec : EqDecision ModuleRuntimeStatus.
Proof. solve_decision. Defined.
Inductive ModuleRuntimeKind := KindProcess | KindStaticSite.

(** Module ids are their texts here; times are nanoseconds since the epoch. *)
Record ModuleRuntimeInfo := mkInfo {
  i_module_id : text; i_version : Version; i_status : ModuleRuntimeStatus; i_kind : ModuleRuntimeKind;
  i_pid : option Z; i_port : option Z; i_started_at : option Z; i_stopped_at : option Z; i_restart_count : Z;
}.
Definition set_restart_count (i : ModuleRuntimeInfo) (n : Z) : ModuleRuntimeInfo :=
  mkInfo (i_module_id i) (i_version i) (i_status i) (i_kind i) (i_pid i) (i_port i) (i_started_at i) (i_stopped_at i) n.
Record ModuleRuntimeInstanceInfo := mkInstance { n_instance_id : text; n_primary : bool; n_runtime : ModuleRuntimeInfo }.
Record ModuleStartConfig := mkStartConfig { c_module_id : text; c_port : option Z; c_env_vars : list (text * text); c_auto_restart : bool }.

Inductive ModuleRuntimeError :=
| NotInstalled (m : text) | AlreadyRunning (m : text) | NotRunning (m : text)
| StartFailed (m reason : text) | StopFailed (m reason : text)
| NoAvailablePorts (range_start range_end : Z) | Io (message : text) | InvalidState (message : text)
| EnvUnavailable (m : text) | Quarantined (m : text) (resume_at : Z).

(** ** Static sites and binaries *)

Module SiteProfile.

(** The file system as the module's directory shows it: [Path::join] and
    [parent], kinds of entries, a directory's entries (name, path, is it a
    directory), the mode bits and the content of a file. *)
Record Fs := mkFs {
  join_path : text -> text -> text;
  parent : text -> option text;
  is_file : text -> bool;
  is_dir : text -> bool;
  read_dir : text -> option (list (text * text * bool));
  mode_of : text -> option Z;
  content : text -> option (list Z);
}.

Inductive TargetOs := Linux | Macos | OtherOs.
Inductive ExecCheck := Compatible | Script | Foreign (os : text) | Unknown.

Definition classify_executable (fs : Fs) (os : TargetOs) (path : text) : ExecCheck :=
  let magic := take 4 (default [] (content fs path)) in
  let is_mach := bool_decide (magic = [0xFE; 0xED; 0xFA; 0xCE]) || bool_decide (magic = [0xFE; 0xED; 0xFA; 0xCF])
    || bool_decide (magic = [0xCE; 0xFA; 0xED; 0xFE]) || bool_decide (magic = [0xCF; 0xFA; 0xED; 0xFE])
    || bool_decide (magic = [0xCA; 0xFE; 0xBA; 0xBE]) in
  if is_mach then (match os with Macos => Compatible | _ => Foreign (lit "macos") end)
  else if bool_decide (magic = [0x7F; 69; 76; 70]) then (match os with Linux => Compatible | _ => Foreign (lit "linux") end)
  else if bool_decide (take 2 (default [] (content fs path)) = [35; 33]) then Script
  else Unknown.

(** The first candidate that decides. *)
Fixpoint first_binary (fs : Fs) (os : TargetOs) (candidates : list text) : result (option text) text :=
  match candidates with
  | [] => Ok None
  | candidate :: rest =>
      if is_file fs candidate then
        match mode_of fs candidate with
        | Some mode =>
            if negb (Z.land mode 73 =? 0) then
              match classify_executable fs os candidate with
              | Compatible | Script => Ok (Some candidate)
              | Foreign target => Err target
              | Unknown => first_binary fs os rest
              end
            else first_binary fs os rest
        | None => first_binary fs os rest
        end
      else first_binary fs os rest
  end.

Definition binary_candidates (fs : Fs) (module_path module_id : text) : list text :=
  [join_path fs module_path module_id; join_path fs (join_path fs module_path (lit "bin")) module_id;
   join_path fs module_path (module_id ++ lit ".exe"); join_path fs (join_path fs module_path (lit "bin")) (module_id ++ lit ".exe");
   module_path].

(** The error is the foreign target of [exec_foreign_target]. *)
Definition locate_process_binary (fs : Fs) (os : TargetOs) (module_path module_id : text) : result (option text) text :=
  first_binary fs os (binary_candidates fs module_path module_id).

Record StaticSiteProfile := mkProfile { asset_root : text; index_file : text }.

Definition nested_index (fs : Fs) (index_name : text) (e : text * text * bool) : option StaticSiteProfile :=
  let '(_, nested_root, dir) := e in
  if (dir : bool) && is_file fs (join_path fs nested_root index_name)
  then Some (mkProfile nested_root (join_path fs nested_root index_name)) else None.

Definition build_profile_from_root (fs : Fs) (root index_name : text) : option StaticSiteProfile :=
  if negb (is_dir fs root) then None
  else
    let direct := join_path fs root index_name in
    if is_file fs direct then Some (mkProfile root direct)
    else
      let browser := join_path fs root (lit "browser") in
      let browser_index := join_path fs browser index_name in
      if is_dir fs browser && is_file fs browser_index then Some (mkProfile browser browser_index)
      else head (omap (nested_index fs index_name) (default [] (read_dir fs root))).

Inductive RuntimeMode := Auto | ModeProcess | ModeStaticSite.
Record RuntimeStaticSiteSection := mkStaticSection { entrypoint : option text; asset_roots : list text; s_index_file : option text }.
Record RuntimeManifest := mkRuntimeManifest { mode : RuntimeMode; static_site : option RuntimeStaticSiteSection; migrations_dir : option text }.

Inductive ProfileError := StaticEntrypointMissing (p : text) | StaticAssetRootsMissing | StaticAssetsNotFound (p : text).

Definition non_blank (v : text) : bool := negb (bool_decide (trim v = [])).

Definition static_profile_from_manifest (fs : Fs) (module_path : text) (manifest : RuntimeManifest) : result (option StaticSiteProfile) ProfileError :=
  match static_site manifest with
  | None => Ok None
  | Some cfg =>
      match (e ← entrypoint cfg; if non_blank e then Some (trim e) else None) with
      | Some entry =>
          let resolved := join_path fs module_path entry in
          if is_file fs resolved then Ok (Some (mkProfile (default module_path (parent fs resolved)) resolved))
          else Err (StaticEntrypointMissing resolved)
      | None =>
          let index_name := default (lit "index.html") (i ← s_index_file cfg; if non_blank i then Some i else None) in
          if bool_decide (asset_roots cfg = []) then Err StaticAssetRootsMissing
          else
            match head (omap (λ root, if non_blank root then build_profile_from_root fs (join_path fs module_path (trim root)) index_name else None) (asset_roots cfg)) with
            | Some profile => Ok (Some profile)
            | None => Err (StaticAssetsNotFound module_path)
            end
      end
  end.

Definition PRIMARY_DIRS : list text :=
  lit <$> ["dist"; "dist/browser"; "dist/public"; "build"; "build/browser"; "public"; "static"; "www"; "out"; "browser"]%string.
Definition GROUPS : list text := lit <$> ["apps"; "packages"; "projects"; "modules"]%string.

(** The names are compared after [to_lowercase]; the only letters it maps
    into the letters of [dist] and [browser] are the ASCII ones. *)
Definition looks_like_dist (name : text) : bool :=
  let name := to_ascii_lowercase name in
  starts_with (lit "dist") name || bool_decide (is_Some (strip_suffix (lit "dist") name)) || contains_sub (lit "browser") name.

Definition discovered_candidates (fs : Fs) (module_path : text) : list text :=
  (join_path fs module_path <$> PRIMARY_DIRS)
  ++ (e ← default [] (read_dir fs module_path);
      let '(name, path, dir) := e in
      if (dir : bool) then (if looks_like_dist name then [path] else []) ++ [join_path fs path (lit "dist"); join_path fs path (lit "dist/browser")] else [])
  ++ (group ← GROUPS;
      e ← default [] (read_dir fs (join_path fs module_path group));
      let '(_, path, dir) := e in
      if (dir : bool) then join_path fs path <$> [lit "dist"; lit "dist/browser"; lit "build"; lit "public"] else []).

Definition discover_static_profile (fs : Fs) (module_path : text) : option StaticSiteProfile :=
  head (omap (λ c, build_profile_from_root fs c (lit "index.html")) (discovered_candidates fs module_path)).
End SiteProfile.

Import SiteProfile.

(** ** State *)

Inductive RunningModuleKind := Process (pid : Z) | StaticSite (task : Z).
Record RunningModuleState := mkRunning {
  instance_id : text; module_id : text; version : Version; port : option Z; started_at : Z; restart_count : Z;
  log_file : text; env : option (list (text * text)); primary : bool; kind : RunningModuleKind;
}.
Definition with_restart_count (s : RunningModuleState) (n : Z) : RunningModuleState :=
  mkRunning (instance_id s) (module_id s) (version s) (port s) (started_at s) n (log_file s) (env s) (primary s) (kind s).

Record PersistedModuleState := mkPersisted {
  p_instance_id : text; p_primary : bool; p_module_id : text; p_version : text; p_pid : Z; p_port : option Z;
  p_started_at : Z; p_restart_count : Z; p_log_file : text;
}.

(** The runtime and the system below it; [state_file] is [None] when the file
    is missing or unreadable. *)
Record Rt := mkRt {
  running_modules : gmap text RunningModuleState;
  alive : gset Z;
  serving : gset Z;
  state_file : option (list PersistedModuleState);
  calls : nat;
}.
Definition set_running (r : Rt) m := mkRt m (alive r) (serving r) (state_file r) (calls r).
Definition set_alive (r : Rt) a := mkRt (running_modules r) a (serving r) (state_file r) (calls r).
Definition set_serving (r : Rt) a := mkRt (running_modules r) (alive r) a (state_file r) (calls r).
Definition set_file (r : Rt) f := mkRt (running_modules r) (alive r) (serving r) f (calls r).
Definition next_call (r : Rt) := mkRt (running_modules r) (alive r) (serving r) (state_file r) (S (calls r)).

(** What starting an instance meets. *)
Record StartFacts := mkFacts {
  f_installed : result (option (Version * text)) text;
  f_config_port : option Z;
  f_host_env : list (text * text);
  f_log_dir : result unit text;
  f_log_reset : result unit text;
  f_log_open : result unit text;
  f_fs : Fs;
  f_os : TargetOs;
  f_manifest : option RuntimeManifest;
  f_bind : result Z text;
  f_task : Z;
  f_bootstrap : result unit text;
  f_spawn : result Z text;
  f_now : Z;
}.
(** What a kill meets: is SIGTERM delivered, does the process exit within its
    grace, is SIGKILL delivered, does the process exit after it. *)
Record KillFacts := mkKill { k_term : bool; k_exits : bool; k_kill : bool; k_forced : bool }.
Inductive SaveFate := Saved | Kept | Torn.
Record Answers := mkAnswers { a_start : StartFacts; a_kill : KillFacts; a_save : SaveFate }.

(** [ModuleVersion]'s text. *)
Class VersionText := { show_version : Version -> text; parse_version : text -> option Version }.

(** ** Computations *)

Definition RtM (A : Type) : Type := SE Rt ModuleRuntimeError A.

(** ** Instances *)

Definition PRIMARY_INSTANCE_SUFFIX : text := lit "primary".
Definition REPLICA_INSTANCE_PREFIX : text := lit "replica".
Definition REPLICA_MARK : text := lit ":" ++ REPLICA_INSTANCE_PREFIX ++ lit ":".
Definition primary_instance_id (m : text) : text := m ++ lit ":" ++ PRIMARY_INSTANCE_SUFFIX.
Definition replica_instance_id (m : text) (ordinal : Z) : text := m ++ REPLICA_MARK ++ lit (pretty (Z.to_N ordinal)).

(** [rsplit_once] with a text: the part after the last occurrence. *)
Definition after_last (pat s : text) : option text :=
  match find_sub (rev pat) (rev s) with Some (tail, _) => Some (rev tail) | None => None end.

Definition replica_ordinal (instance_id : text) : option Z :=
  ordinal ← after_last REPLICA_MARK instance_id; parse_uint u64_max ordinal.

Definition values (m : gmap text RunningModuleState) : list RunningModuleState := (map_to_list m).*2.
Definition of_module (m : text) (states : list RunningModuleState) : list RunningModuleState :=
  filter (λ s, module_id s = m) states.

Definition max_ordinal (m : text) (states : list RunningModuleState) : Z :=
  foldl (λ n s, match replica_ordinal (instance_id s) with Some o => Z.max n o | None => n end) 0 (of_module m states).
Definition next_replica_instance_id (m : text) (states : list RunningModuleState) : text :=
  replica_instance_id m (u64_saturating_add (max_ordinal m states) 1).

Definition since_epoch (t : Z) : Z := Z.max 0 t.
(** [max_by]: the last of the largest, in the order of the map. *)
Definition not_less (a b : RunningModuleState) : bool :=
  if Bool.eqb (primary a) (primary b) then since_epoch (started_at a) <=? since_epoch (started_at b) else primary b.
Definition select_primary_instance (m : text) (states : list RunningModuleState) : option RunningModuleState :=
  foldl (λ best s, match best with Some b => if not_less b s then Some s else Some b | None => Some s end) None (of_module m states).

(** Primary instances first, then by id. *)
Definition inst_le (a b : RunningModuleState) : Prop :=
  if Bool.eqb (primary a) (primary b) then text_cmp (instance_id a) (instance_id b) <> Gt else primary a = true.
#[global] Instance inst_le_dec : RelDecision inst_le.
Proof.
  intros a b. unfold inst_le. destruct (Bool.eqb _ _); [|solve_decision].
  destruct (text_cmp _ _); [left|left|right]; congruence.
Defined.
Definition module_instances (m : text) (states : list RunningModuleState) : list RunningModuleState :=
  merge_sort inst_le (of_module m states).

Definition build_log_file_path (m : text) (primary : bool) (instance_id : text) : text :=
  if primary then m ++ lit ".log"
  else m ++ lit "__" ++ join (lit "__") (split 58 instance_id) ++ lit ".log".

Definition info_from_state (r : Rt) (s : RunningModuleState) : ModuleRuntimeInfo :=
  let '(status, pid, kind) :=
    match kind s with
    | Process pid => (if bool_decide (pid ∈ alive r) then Running else Failed, Some pid, KindProcess)
    | StaticSite task => (if bool_decide (task ∈ serving r) then Running else Failed, None, KindStaticSite)
    end in
  mkInfo (module_id s) (version s) status kind pid (port s) (Some (started_at s)) None (restart_count s).

Definition default_persisted_id (m : text) (i : text) : text := if bool_decide (trim i = []) then primary_instance_id m else i.

Section Runtime.
Context `{VT : VersionText} (ans : nat -> Answers).

(** ** System calls *)

Definition answer {A} (f : Answers -> A) : RtM A := λ r, (Ok (f (ans (calls r))), next_call r).

(** Poll until the process is gone or the time is up. *)
Definition wait_for_exit (pid : Z) (exits : bool) : RtM bool := λ r,
  if bool_decide (pid ∈ alive r) then (if exits then (Ok true, set_alive r (alive r ∖ {[pid]})) else (Ok false, r)) else (Ok true, r).

Definition kill_process (pid : Z) : RtM unit :=
  let* k := answer a_kill in
  let* gone := (if k_term k then wait_for_exit pid (k_exits k) else ret false) in
  if (gone : bool) then ret tt
  else
    let* still := gets (λ r, bool_decide (pid ∈ alive r)) in
    if (still : bool) then
      if k_kill k then
        let* gone := wait_for_exit pid (k_forced k) in
        if (gone : bool) then ret tt else fail (StopFailed (lit "unknown") (lit "process exit timeout"))
      else fail (StopFailed (lit "unknown") (lit "kill failed"))
    else ret tt.

(** The shutdown signal, then the join of the task. *)
Definition stop_kind (k : RunningModuleKind) : RtM unit :=
  match k with
  | Process pid => kill_process pid
  | StaticSite task => modify (λ r, set_serving r (serving r ∖ {[task]}))
  end.

(** ** Persistence *)

Definition from_running_state (s : RunningModuleState) : option PersistedModuleState :=
  match kind s with
  | Process pid =>
      Some (mkPersisted (instance_id s) (primary s) (module_id s) (show_version (version s)) pid (port s)
              (started_at s / 1000000000) (restart_count s) (log_file s))
  | StaticSite _ => None
  end.

(** Callers log a failure and go on. *)
Definition save_state : RtM unit :=
  let* fate := answer a_save in
  modify (λ r, match fate with
               | Saved => set_file r (Some (omap from_running_state (values (running_modules r))))
               | Kept => r
               | Torn => set_file r None
               end).

Definition reattach_running_module (installed : text -> result (option Version) text) (p : PersistedModuleState)
    (module_id_ok : text -> option text) : RtM unit :=
  match module_id_ok (p_module_id p) with
  | None => fail (InvalidState (p_module_id p))
  | Some m =>
      match parse_version (p_version p) with
      | None => fail (InvalidState (p_version p))
      | Some v =>
          match installed m with
          | Err e => fail (InvalidState e)
          | Ok None => ret tt
          | Ok (Some _) =>
              let i := default_persisted_id m (p_instance_id p) in
              let s := mkRunning i m v (p_port p) (p_started_at p * 1000000000) (p_restart_count p) (p_log_file p) None (p_primary p) (Process (p_pid p)) in
              modify (λ r, set_running r (<[i := s]> (running_modules r)))
          end
      end
  end.

(** A new runtime reads the file its predecessor left; errors are logged. *)
Definition load_state (installed : text -> result (option Version) text) (module_id_ok : text -> option text) : RtM unit :=
  let* file := gets state_file in
  each (default [] file) (λ p r,
    if bool_decide (p_pid p ∈ alive r) then (Ok tt, (reattach_running_module installed p module_id_ok r).2) else (Ok tt, r)).

(** ** Starting an instance *)

Definition insert_running (s : RunningModuleState) : RtM unit :=
  modify (λ r, set_running r (<[instance_id s := s]> (running_modules r))).

(** Port 0 lets the system choose; [f_bind] is then the port it chose. *)
Definition try_start_static_site (f : StartFacts) (m i : text) (prim : bool) (requested : option Z) (v : Version) (log : text) (full_env : list (text * text)) : RtM ModuleRuntimeInfo :=
  match f_bind f with
  | Err e => fail (StartFailed m (lit "failed to bind static module port: " ++ e))
  | Ok chosen =>
      let bind_port := default 0 requested in
      let actual := if bind_port =? 0 then chosen else bind_port in
      modify (λ r, set_serving r (serving r ∪ {[f_task f]})) >>
      insert_running (mkRunning i m v (Some actual) (f_now f) 0 log (Some full_env) prim (StaticSite (f_task f))) >>
      save_state >>
      ret (mkInfo m v Running KindStaticSite None (Some actual) (Some (f_now f)) None 0)
  end.

Definition spawn_process (f : StartFacts) (m i : text) (prim : bool) (v : Version) (p : option Z) (log : text) (full_env : list (text * text)) : RtM ModuleRuntimeInfo :=
  lift (map_err Io (f_log_open f)) >>
  lift (map_err (StartFailed m) (f_bootstrap f)) >>
  let* pid := lift (map_err (StartFailed m) (f_spawn f)) in
  modify (λ r, set_alive r (alive r ∪ {[pid]})) >>
  insert_running (mkRunning i m v p (f_now f) 0 log (Some full_env) prim (Process pid)) >>
  save_state >>
  ret (mkInfo m v Running KindProcess (Some pid) p (Some (f_now f)) None 0).

Definition profile_reason (e : ProfileError) : text :=
  match e with
  | StaticEntrypointMissing p => lit "static entrypoint missing: " ++ p
  | StaticAssetRootsMissing => lit "static asset roots missing"
  | StaticAssetsNotFound p => lit "static assets not found: " ++ p
  end.

(** The host's variables without its own, then the given ones. *)
Definition sanitized_host_env (host : list (text * text)) : list (text * text) :=
  filter (λ kv, starts_with (lit "FENRIR_") kv.1 = false) host.

Definition start_specific_instance (m i : text) (prim : bool) (requested_port : option Z) (env_vars : list (text * text)) : RtM ModuleRuntimeInfo :=
  let* f := answer a_start in
  let* installed := lift (map_err InvalidState (f_installed f)) in
  match installed with
  | None => fail (NotInstalled m)
  | Some (v, module_path) =>
      let p := match requested_port with Some p => Some p | None => f_config_port f end in
      let full_env := sanitized_host_env (f_host_env f) ++ env_vars in
      lift (map_err Io (f_log_dir f)) >>
      let log := build_log_file_path m prim i in
      lift (map_err Io (f_log_reset f)) >>
      let runtime_mode := default Auto (mode <$> f_manifest f) in
      let full_env :=
        match (mf ← f_manifest f; migrations_dir mf) with
        | Some dir =>
            let resolved := join_path (f_fs f) module_path dir in
            if is_dir (f_fs f) resolved then full_env ++ [(lit "FENRIR_MODULE_MIGRATIONS_DIR", resolved)] else full_env
        | None => full_env
        end in
      let static_allowed := match runtime_mode with ModeProcess => false | _ => true end in
      let* manifest_profile :=
        lift (match f_manifest f with
              | Some mf => if static_allowed then map_err (λ e, StartFailed m (profile_reason e)) (static_profile_from_manifest (f_fs f) module_path mf) else Ok None
              | None => Ok None
              end) in
      let static_profile := match manifest_profile with
                            | Some p => Some p
                            | None => if static_allowed then discover_static_profile (f_fs f) module_path else None
                            end in
      match runtime_mode with
      | ModeStaticSite =>
          match static_profile with
          | None => fail (StartFailed m (lit "static assets not found: " ++ module_path))
          | Some _ => try_start_static_site f m i prim requested_port v log full_env
          end
      | _ =>
          let* binary := lift (map_err (StartFailed m) (locate_process_binary (f_fs f) (f_os f) module_path m)) in
          match binary, static_profile, runtime_mode with
          | None, Some _, Auto => try_start_static_site f m i prim requested_port v log full_env
          | None, _, _ => fail (StartFailed m (lit "executable not found: " ++ module_path))
          | Some _, _, _ => spawn_process f m i prim v p log full_env
          end
      end
  end.

(** ** The port of the runtime *)

Definition all_states : RtM (list RunningModuleState) := gets (λ r, values (running_modules r)).

Definition remove_running (m i : text) : RtM RunningModuleState := λ r,
  match running_modules r !! i with
  | None => (Err (NotRunning m), r)
  | Some s => (Ok s, set_running r (delete i (running_modules r)))
  end.

Definition start (config : ModuleStartConfig) : RtM ModuleRuntimeInfo :=
  let* states := all_states in
  match select_primary_instance (c_module_id config) states with
  | Some _ => fail (AlreadyRunning (c_module_id config))
  | None => start_specific_instance (c_module_id config) (primary_instance_id (c_module_id config)) true (c_port config) (c_env_vars config)
  end.

Definition stop_instance_by_id (m i : text) : RtM unit :=
  let* s := remove_running m i in stop_kind (kind s).

Definition stop (m : text) : RtM unit :=
  let* states := all_states in
  let ids := instance_id <$> module_instances m states in
  if bool_decide (ids = []) then fail (NotRunning m)
  else each ids (stop_instance_by_id m) >> save_state.

Definition status (m : text) : RtM ModuleRuntimeInfo := λ r,
  match select_primary_instance m (values (running_modules r)) with
  | None => (Err (NotRunning m), r)
  | Some s => (Ok (info_from_state r s), r)
  end.

Definition list_instances (m : text) : RtM (list ModuleRuntimeInstanceInfo) := λ r,
  let states := module_instances m (values (running_modules r)) in
  if bool_decide (states = []) then (Err (NotRunning m), r)
  else (Ok ((λ s, mkInstance (instance_id s) (primary s) (info_from_state r s)) <$> states), r).

(** One info per module, in the order of the map. *)
Fixpoint list_running_from (r : Rt) (seen : list text) (states all : list RunningModuleState) : list ModuleRuntimeInfo :=
  match states with
  | [] => []
  | s :: states =>
      if bool_decide (module_id s ∈ seen) then list_running_from r seen states all
      else option_list (info_from_state r <$> select_primary_instance (module_id s) all)
           ++ list_running_from r (module_id s :: seen) states all
  end.
Definition list_running : RtM (list ModuleRuntimeInfo) := λ r,
  let all := values (running_modules r) in (Ok (list_running_from r [] all all), r).

Definition u32_saturating_add (a b : Z) : Z := Z.min (a + b) (2 ^ 32 - 1).

Definition restart_instance (m i : text) : RtM ModuleRuntimeInfo :=
  let* s := remove_running m i in
  if negb (bool_decide (module_id s = m)) then fail (NotRunning m)
  else
    let count := u32_saturating_add (restart_count s) 1 in
    stop_kind (kind s) >>
    let* info := start_specific_instance m (instance_id s) (primary s) (port s) (default [] (env s)) in
    modify (λ r, match running_modules r !! instance_id s with
                 | Some restarted => set_running r (<[instance_id s := with_restart_count restarted count]> (running_modules r))
                 | None => r
                 end) >>
    save_state >>
    ret (set_restart_count info count).

Fixpoint restart_all (m : text) (instances : list ModuleRuntimeInstanceInfo) (first : option ModuleRuntimeInfo) : RtM (option ModuleRuntimeInfo) :=
  match instances with
  | [] => ret first
  | i :: rest =>
      let* restarted := restart_instance m (n_instance_id i) in
      restart_all m rest (match first with Some f => Some f | None => Some restarted end)
  end.
Definition restart (m : text) : RtM ModuleRuntimeInfo :=
  let* instances := list_instances m in
  let* first := restart_all m instances None in
  match first with Some info => ret info | None => fail (NotRunning m) end.

Definition start_replica (config : ModuleStartConfig) : RtM unit :=
  let* states := all_states in
  let* _ := start_specific_instance (c_module_id config) (next_replica_instance_id (c_module_id config) states) false None (c_env_vars config) in
  ret tt.
Fixpoint start_replicas (config : ModuleStartConfig) (additional : nat) : RtM unit :=
  match additional with O => ret tt | S n => start_replica config >> start_replicas config n end.

(** The replicas to stop: the last ones of the list. *)
Definition surplus (instances : list ModuleRuntimeInstanceInfo) (remove_count : nat) : list text :=
  n_instance_id <$> take remove_count (rev (filter (λ i, n_primary i = false) instances)).

Definition reconcile_instances (config : ModuleStartConfig) (desired_instances : nat) : RtM (list ModuleRuntimeInstanceInfo) :=
  let m := c_module_id config in
  match desired_instances with
  | O => λ r, (Ok [], (stop m r).2)
  | _ =>
      let* current := (λ r, (Ok (match (list_instances m r).1 with Ok l => l | Err _ => [] end), r)) in
      let current_count := length current in
      (if Nat.eqb current_count 0 then (let* _ := start config in ret tt)
       else if Nat.ltb current_count desired_instances then start_replicas config (desired_instances - current_count)
       else if Nat.ltb desired_instances current_count then
         let* instances := list_instances m in
         each (surplus instances (current_count - desired_instances)) (stop_instance_by_id m)
       else ret tt) >>
      save_state >>
      list_instances m
  end.

Definition env_of (m : text) : RtM (list (text * text)) := λ r,
  match select_primary_instance m (values (running_modules r)) with
  | None => (Err (NotRunning m), r)
  | Some s => (match env s with Some e => Ok e | None => Err (EnvUnavailable m) end, r)
  end.

(** Between calls a process dies or a site's server ends. *)
Definition crash (pid : Z) (r : Rt) : Rt := set_alive r (alive r ∖ {[pid]}).
Definition server_ends (task : Z) (r : Rt) : Rt := set_serving r (serving r ∖ {[task]}).
End Runtime.
