(* ===== verification/ProcessRuntimeSafety.v ===== *)
(** * What the process runtime guarantees

    The invariant of the instance map, fresh replica ids, the effect of
    [reconcile_instances], which processes are tracked, what survives a
    restart of the host, and what a crashed module's entry blocks.  Theorems
    about [ProcessRuntime]. *)

From stdpp Require Import pretty.
From S2P Require Import Prelude StateError Text Versions Edge ProcessRuntime.
Import SiteProfile.

#[local] Open Scope fenrir_scope.

(** ** Instance ids *)

Lemma ordinal_digits n : 58 ∉ lit (pretty (n : N)).
Proof.
  destruct (pretty_digit_text n) as [Hd _]. unfold digit_text in Hd. rewrite Forall_forall in Hd. intros H. by specialize (Hd _ H).
Qed.

Lemma after_last_mark m o : 58 ∉ o -> after_last REPLICA_MARK (m ++ REPLICA_MARK ++ o) = Some o.
Proof.
  intros Ho. unfold after_last. rewrite !rev_app_distr, <- app_assoc.
  rewrite find_sub_here; [by rewrite rev_involutive| |done].
  intros x [= <-]. intros H. apply Ho. apply list_elem_of_In in H. apply in_rev in H. by apply list_elem_of_In.
Qed.

Lemma replica_ordinal_of m n : 0 <= n <= u64_max -> replica_ordinal (replica_instance_id m n) = Some n.
Proof.
  intros Hn. unfold replica_ordinal, replica_instance_id. rewrite after_last_mark by apply ordinal_digits. cbn.
  rewrite parse_pretty; [f_equal; lia|lia].
Qed.

Lemma replica_instance_inj m n n' : 0 <= n <= u64_max -> 0 <= n' <= u64_max -> replica_instance_id m n = replica_instance_id m n' -> n = n'.
Proof. intros Hn Hn' H. apply (f_equal replica_ordinal) in H. rewrite !replica_ordinal_of in H by done. congruence. Qed.

Lemma split_colon a b a' b' : 58 ∉ a -> 58 ∉ a' -> a ++ 58 :: b = a' ++ 58 :: b' -> a = a' /\ b = b'.
Proof. apply split_char_inj. Qed.

(** Instances of different modules have different ids. *)
Definition owner (i : text) : option text := fst <$> split_once 58 i.
Lemma owner_primary m : 58 ∉ m -> owner (primary_instance_id m) = Some m.
Proof. intros Hm. unfold owner, primary_instance_id. cbn. by rewrite split_once_app. Qed.
Lemma owner_replica m n : 58 ∉ m -> owner (replica_instance_id m n) = Some m.
Proof. intros Hm. unfold owner, replica_instance_id. unfold REPLICA_MARK. rewrite <- !app_assoc. cbn. by rewrite split_once_app. Qed.

Lemma primary_not_replica (m m' : text) n : 58 ∉ m -> 58 ∉ m' -> primary_instance_id m <> replica_instance_id m' n.
Proof.
  intros Hm Hm' H. assert (m = m') as <-.
  { apply (f_equal owner) in H. rewrite owner_primary, owner_replica in H by done. congruence. }
  unfold primary_instance_id, replica_instance_id, REPLICA_MARK in H. rewrite <- !app_assoc in H. apply app_inv_head in H. done.
Qed.

(** ** Well-placed instances *)

(** An instance is stored under its own id, which is its module's primary id
    or one of its replica ids, as its [primary] flag says. *)
Definition placed (k : text) (s : RunningModuleState) : Prop :=
  instance_id s = k /\ (58 ∉ module_id s)
  /\ if primary s then k = primary_instance_id (module_id s) else exists n, 0 <= n <= u64_max /\ k = replica_instance_id (module_id s) n.
Definition map_ok (m : gmap text RunningModuleState) : Prop := map_Forall placed m.
Definition rt_ok (r : Rt) : Prop := map_ok (running_modules r).

Lemma placed_owner k s : placed k s -> owner k = Some (module_id s).
Proof.
  intros (_ & Hm & Hk). destruct (primary s); [subst k; by apply owner_primary|]. destruct Hk as (n & _ & ->). by apply owner_replica.
Qed.

(** A module has at most one primary instance, and an id belongs to one module. *)
Lemma primary_unique m k k' s s' : map_ok m -> m !! k = Some s -> m !! k' = Some s' ->
  module_id s = module_id s' -> primary s = true -> primary s' = true -> k = k'.
Proof.
  intros Hok Hk Hk' Hm Hp Hp'. destruct (Hok _ _ Hk) as (_ & _ & H1). destruct (Hok _ _ Hk') as (_ & _ & H2).
  rewrite Hp in H1. rewrite Hp' in H2. congruence.
Qed.

(** ** Preservation

    [spec I m Q]: from a state in [I], [m] ends in [I] and a successful result satisfies [Q]. *)

Definition spec {A : Type} (I : gmap text RunningModuleState -> Prop) (m : RtM A) (Q : A -> Prop) : Prop :=
  forall r, I (running_modules r) -> I (running_modules (m r).2) /\ forall a, (m r).1 = Ok a -> Q a.

Section Specs.
Context (I : gmap text RunningModuleState -> Prop).

Lemma spec_ret {A : Type} (a : A) (Q : A -> Prop) : Q a -> spec I (ret a) Q.
Proof. intros HQ r HI. cbn. split; [done|]. by intros ? [= <-]. Qed.
Lemma spec_fail {A : Type} e (Q : A -> Prop) : spec I (fail e) Q.
Proof. intros r HI. by split. Qed.
Lemma spec_lift {A : Type} (x : result A ModuleRuntimeError) (Q : A -> Prop) : (forall a, x = Ok a -> Q a) -> spec I (lift x) Q.
Proof. intros HQ r HI. split; [done|]. apply HQ. Qed.
Lemma spec_same {A : Type} (m : RtM A) (Q : A -> Prop) : (forall r, running_modules (m r).2 = running_modules r /\ forall a, (m r).1 = Ok a -> I (running_modules r) -> Q a) -> spec I m Q.
Proof. intros H r HI. destruct (H r) as [-> HQ]. split; [done|]. intros a Ha. by apply HQ. Qed.
Lemma spec_bind {A B : Type} (m : RtM A) (k : A -> RtM B) P Q : spec I m P -> (forall a, P a -> spec I (k a) Q) -> spec I (bindr m k) Q.
Proof.
  intros Hm Hk r HI. unfold bindr. destruct (Hm r HI) as [HI1 HP]. destruct (m r) as [[a|e] r1]; cbn in *; [|by split].
  by apply (Hk a (HP a eq_refl) r1).
Qed.
Lemma spec_weaken {A : Type} (m : RtM A) (P Q : A -> Prop) : (forall a, P a -> Q a) -> spec I m P -> spec I m Q.
Proof. intros HPQ Hm r HI. destruct (Hm r HI) as [? HP]. split; [done|]. intros a Ha. by apply HPQ, HP. Qed.
Lemma spec_each {A : Type} (l : list A) f : (forall a, a ∈ l -> spec I (f a) (λ _, True)) -> spec I (each l f) (λ _, True).
Proof.
  induction l as [|a l IH]; intros Hf; cbn; [by apply spec_ret|]. eapply spec_bind; [apply Hf; left|].
  intros _ _. apply IH. intros b Hb. apply Hf. by right.
Qed.
End Specs.
#[global] Hint Resolve spec_ret spec_fail : fenrir.

Section Preserved.
Context `{VT : VersionText} (ans : nat -> Answers) (I : gmap text RunningModuleState -> Prop).
Hypothesis (Hdel : forall m k, I m -> I (delete k m)).

Lemma spec_answer {A : Type} (f : Answers -> A) : spec I (answer ans f) (λ _, True).
Proof. by apply spec_same. Qed.
Lemma spec_modify g : (forall r, running_modules (g r) = running_modules r) -> spec I (modify g) (λ _, True).
Proof. intros H. apply spec_same. intros r. cbn. by rewrite H. Qed.
Lemma spec_wait pid e : spec I (wait_for_exit pid e) (λ _, True).
Proof. apply spec_same. intros r. unfold wait_for_exit. repeat case_match; by cbn. Qed.

Lemma spec_kill pid : spec I (kill_process ans pid) (λ _, True).
Proof.
  unfold kill_process. eapply spec_bind; [apply spec_answer|]. intros k _. apply (spec_bind I _ _ (λ _ : bool, True)).
  { destruct (k_term k); [apply spec_wait|by apply spec_ret]. }
  intros [] _; [by apply spec_ret|]. apply (spec_bind I _ _ (λ _ : bool, True)); [by apply spec_same|]. intros [] _; [|by apply spec_ret].
  destruct (k_kill k); [|apply spec_fail]. eapply spec_bind; [apply spec_wait|]. intros [] _; [by apply spec_ret|apply spec_fail].
Qed.

Lemma spec_stop_kind k : spec I (stop_kind ans k) (λ _, True).
Proof. destruct k; [apply spec_kill|]. by apply spec_modify. Qed.

Lemma spec_save : spec I (save_state ans) (λ _, True).
Proof. eapply spec_bind; [apply spec_answer|]. intros fate _. apply spec_modify. by destruct fate. Qed.

Lemma spec_remove m i : spec I (remove_running m i) (λ s, exists mm, I mm /\ mm !! i = Some s).
Proof. intros r HI. unfold remove_running. destruct (_ !! i) as [s|] eqn:E; cbn; [|done]. split; [by apply Hdel|]. intros ? [= <-]. eauto. Qed.

(** Starting an instance [i] of [m] adds exactly that instance when it succeeds
    and nothing when it fails. *)
Definition starts (m i : text) (prim : bool) (c : RtM ModuleRuntimeInfo) : Prop :=
  forall r, match c r with
            | (Ok info, r') => exists s, running_modules r' = <[i := s]> (running_modules r) /\ instance_id s = i /\ module_id s = m /\ primary s = prim
            | (Err _, r') => running_modules r' = running_modules r
            end.

Lemma starts_bind {A : Type} m i prim (c : RtM A) k : (forall r, running_modules (c r).2 = running_modules r) -> (forall a, starts m i prim (k a)) -> starts m i prim (bindr c k).
Proof.
  intros Hc Hk r. unfold bindr. specialize (Hc r). destruct (c r) as [[a|e] r1]; cbn in Hc; [|done].
  specialize (Hk a r1). destruct (k a r1) as [[info|e] r']; by rewrite <- Hc.
Qed.
Lemma starts_fail m i prim e : starts m i prim (fail e).
Proof. by intros r. Qed.
Lemma starts_lift {A : Type} m i prim (x : result A ModuleRuntimeError) k : (forall a, starts m i prim (k a)) -> starts m i prim (bindr (lift x) k).
Proof. by apply starts_bind. Qed.

Lemma save_running r : running_modules (save_state ans r).2 = running_modules r.
Proof. unfold save_state, bindr, answer, modify. cbn. by destruct (a_save _). Qed.

Lemma starts_register m i prim s info : instance_id s = i -> module_id s = m -> primary s = prim ->
  starts m i prim (insert_running s >> save_state ans >> ret info).
Proof.
  intros <- Hm Hp r. unfold bindr, insert_running, modify. cbn.
  pose proof (save_running (set_running r (<[instance_id s:=s]> (running_modules r)))) as Hs.
  unfold save_state, bindr, answer, modify in *. cbn in *. destruct (a_save _); exists s; by rewrite Hs.
Qed.

Lemma starts_static f m i prim p v e : starts m i prim (try_start_static_site ans f m i prim p v (build_log_file_path m prim i) e).
Proof.
  unfold try_start_static_site. destruct (f_bind f); [|apply starts_fail]. apply starts_bind; [done|]. intros _. by apply starts_register.
Qed.
Lemma starts_spawn f m i prim v p e : starts m i prim (spawn_process ans f m i prim v p (build_log_file_path m prim i) e).
Proof.
  unfold spawn_process. do 3 (apply starts_lift; intros ?). apply starts_bind; [done|]. intros _. by apply starts_register.
Qed.

(** Everything before the instance is registered touches neither the map nor
    the processes: a property of computations that such calls keep holds of
    the start when it holds of its two ends. *)
Definition quiet {A : Type} (c : RtM A) : Prop := forall r, running_modules (c r).2 = running_modules r /\ alive (c r).2 = alive r.

Lemma start_specific_shape (Φ : RtM ModuleRuntimeInfo -> Prop) m i prim p e :
  (forall (A : Type) (c : RtM A) k, quiet c -> (forall a, Φ (k a)) -> Φ (bindr c k)) -> (forall err, Φ (fail err)) ->
  (forall f v e', Φ (try_start_static_site ans f m i prim p v (build_log_file_path m prim i) e')) ->
  (forall f v p' e', Φ (spawn_process ans f m i prim v p' (build_log_file_path m prim i) e')) ->
  Φ (start_specific_instance ans m i prim p e).
Proof.
  intros Hb Hf Hst Hsp. unfold start_specific_instance. apply Hb; [done|]. intros f. apply Hb; [done|]. intros [[v path]|]; [|apply Hf].
  do 2 (apply Hb; [done|]; intros _). apply Hb; [done|]. intros mp.
  assert (Hbin : forall (md : RuntimeMode) (sp : option StaticSiteProfile) p' e' (q : result (option text) ModuleRuntimeError),
      Φ (let* binary := lift q in
      match binary, sp, md with
      | None, Some _, Auto => try_start_static_site ans f m i prim p v (build_log_file_path m prim i) e'
      | None, _, _ => fail (StartFailed m (lit "executable not found: " ++ path))
      | Some _, _, _ => spawn_process ans f m i prim v p' (build_log_file_path m prim i) e'
      end)).
  { intros md sp p' e' q. apply Hb; [done|]. intros [b|]; [apply Hsp|]. destruct sp, md; try apply Hf. apply Hst. }
  destruct (default Auto (mode <$> f_manifest f)); [apply (Hbin Auto)|apply (Hbin ModeProcess)|]. destruct mp as [?|]; [apply Hst|].
  destruct (discover_static_profile (f_fs f) path); [apply Hst|apply Hf].
Qed.

Lemma start_specific_effect m i prim p e : starts m i prim (start_specific_instance ans m i prim p e).
Proof.
  apply start_specific_shape; [|apply starts_fail|intros; apply starts_static|intros; apply starts_spawn].
  intros A c k Hc. apply starts_bind. intros r. apply Hc.
Qed.

Lemma spec_start_specific m i prim p e :
  (forall s mm, I mm -> instance_id s = i -> module_id s = m -> primary s = prim -> I (<[i := s]> mm)) ->
  spec I (start_specific_instance ans m i prim p e) (λ _, True).
Proof.
  intros Hins r HI. pose proof (start_specific_effect m i prim p e r) as H. destruct (start_specific_instance _ _ _ _ _ _ r) as [[info|err] r']; cbn.
  - destruct H as (s & -> & ? & ? & ?). split; [by apply Hins|done].
  - by rewrite H.
Qed.
End Preserved.

(** ** Operations *)

Inductive runtime_op :=
| OpStart (c : ModuleStartConfig) | OpStop (m : text) | OpStopInstance (m i : text) | OpRestartInstance (m i : text) | OpRestart (m : text)
| OpReconcile (c : ModuleStartConfig) (desired : nat) | OpCrash (pid : Z) | OpServerEnds (task : Z).
Definition op_module (o : runtime_op) : option text :=
  match o with
  | OpStart c | OpReconcile c _ => Some (c_module_id c)
  | OpStop m | OpStopInstance m _ | OpRestartInstance m _ | OpRestart m => Some m
  | OpCrash _ | OpServerEnds _ => None
  end.

Section Operations.
Context `{VT : VersionText} (ans : nat -> Answers).

Definition run_op (r : Rt) (o : runtime_op) : Rt :=
  match o with
  | OpStart c => (start ans c r).2
  | OpStop m => (stop ans m r).2
  | OpStopInstance m i => (stop_instance_by_id ans m i r).2
  | OpRestartInstance m i => (restart_instance ans m i r).2
  | OpRestart m => (restart ans m r).2
  | OpReconcile c n => (reconcile_instances ans c n r).2
  | OpCrash pid => crash pid r
  | OpServerEnds task => server_ends task r
  end.

Lemma map_ok_delete m k : map_ok m -> map_ok (delete k m).
Proof. apply map_Forall_delete. Qed.
Lemma map_ok_insert (m : gmap text RunningModuleState) (k : text) (s : RunningModuleState) : map_ok m -> placed k s -> map_ok (<[k := s]> m).
Proof. intros Hm Hs. by apply map_Forall_insert_2. Qed.

Lemma start_specific_ok (m i : text) (prim : bool) p e : (58 ∉ m) ->
  (if prim then i = primary_instance_id m else exists n, 0 <= n <= u64_max /\ i = replica_instance_id m n) ->
  spec map_ok (start_specific_instance ans m i prim p e) (λ _, True).
Proof.
  intros Hm Hi. apply spec_start_specific. intros s mm Hmm Hsi Hsm Hsp. apply map_ok_insert; [done|].
  split; [done|]. rewrite Hsm, Hsp. done.
Qed.

Lemma stop_instance_ok m i : spec map_ok (stop_instance_by_id ans m i) (λ _, True).
Proof. eapply spec_bind; [apply spec_remove, map_ok_delete|]. intros s _. apply spec_stop_kind. Qed.

Lemma runtime_stop_ok m : spec map_ok (stop ans m) (λ _, True).
Proof.
  apply (spec_bind map_ok _ _ (λ _ : list RunningModuleState, True)); [by apply spec_same|]. intros states _. cbv beta zeta.
  case_bool_decide; [apply spec_fail|]. eapply spec_bind; [|intros _ _; apply spec_save].
  apply spec_each. intros i _. apply stop_instance_ok.
Qed.

Lemma spec_list_instances m : spec map_ok (list_instances m) (λ _, True).
Proof. apply spec_same. intros r. unfold list_instances. by case_bool_decide. Qed.

Lemma restart_instance_ok (m i : text) : (58 ∉ m) -> spec map_ok (restart_instance ans m i) (λ _, True).
Proof.
  intros Hm. eapply spec_bind; [apply spec_remove, map_ok_delete|]. intros s (mm & Hmm & Hs).
  destruct (Hmm _ _ Hs) as (Hi & _ & Hp). case_bool_decide as Hsm; cbn [negb]; [|apply spec_fail].
  eapply spec_bind; [apply spec_stop_kind|]. intros _ _. eapply spec_bind.
  { apply start_specific_ok; [done|]. rewrite Hi, Hsm in *. done. }
  intros info _. apply (spec_bind map_ok _ _ (λ _ : unit, True)).
  { intros r Hr. cbn. destruct (running_modules r !! instance_id s) as [s'|] eqn:E; [|done]. split; [|done]. cbn.
    apply map_ok_insert; [done|]. destruct (Hr _ _ E) as (? & ? & ?). by repeat split. }
  intros _ _. eapply spec_bind; [apply spec_save|]. intros _ _. by apply spec_ret.
Qed.

Lemma restart_ok (m : text) : (58 ∉ m) -> spec map_ok (restart ans m) (λ _, True).
Proof.
  intros Hm. eapply spec_bind; [apply spec_list_instances|]. intros l _. eapply (spec_bind _ _ _ (λ _ : option ModuleRuntimeInfo, True)).
  - generalize (@None ModuleRuntimeInfo). induction l as [|i l IH]; intros first; cbn [restart_all]; [by apply spec_ret|].
    eapply spec_bind; [by apply restart_instance_ok|]. intros info _. apply IH.
  - intros [info|] _; [by apply spec_ret|apply spec_fail].
Qed.

Lemma max_ordinal_nonneg m l : 0 <= max_ordinal m l.
Proof.
  unfold max_ordinal. assert (H : forall l n, 0 <= n -> 0 <= foldl (λ n s, match replica_ordinal (instance_id s) with Some o => Z.max n o | None => n end) n l); [|by apply H].
  clear l. induction l as [|s l IH]; intros n Hn; cbn; [done|]. apply IH. case_match; lia.
Qed.

Lemma next_ordinal_range m l : 0 <= u64_saturating_add (max_ordinal m l) 1 <= u64_max.
Proof. pose proof (max_ordinal_nonneg m l). unfold u64_saturating_add, u64_max in *. lia. Qed.

Lemma start_replicas_ok c n : (58 ∉ c_module_id c) -> spec map_ok (start_replicas ans c n) (λ _, True).
Proof.
  intros Hm. induction n as [|n IH]; cbn; [by apply spec_ret|]. apply (spec_bind map_ok _ _ (λ _ : unit, True)); [|by intros _ _].
  apply (spec_bind map_ok _ _ (λ _ : list RunningModuleState, True)); [by apply spec_same|]. intros states _.
  eapply spec_bind; [apply start_specific_ok; [done|]|intros _ _; by apply spec_ret].
  eexists. split; [apply next_ordinal_range|done].
Qed.

Lemma runtime_start_ok c : (58 ∉ c_module_id c) -> spec map_ok (start ans c) (λ _, True).
Proof.
  intros Hm. apply (spec_bind map_ok _ _ (λ _ : list RunningModuleState, True)); [by apply spec_same|]. intros states _.
  case_match; [apply spec_fail|]. by apply start_specific_ok.
Qed.

Lemma reconcile_ok c n : (58 ∉ c_module_id c) -> spec map_ok (reconcile_instances ans c n) (λ _, True).
Proof.
  intros Hm. unfold reconcile_instances. destruct n as [|n]; [intros r Hr; cbn; split; [by apply runtime_stop_ok|done]|].
  apply (spec_bind map_ok _ _ (λ _ : list ModuleRuntimeInstanceInfo, True)); [by apply spec_same|]. intros l _.
  apply (spec_bind map_ok _ _ (λ _ : unit, True)).
  - destruct (Nat.eqb _ _); [eapply spec_bind; [by apply runtime_start_ok|intros _ _; by apply spec_ret]|].
    destruct (Nat.ltb _ _); [by apply start_replicas_ok|]. destruct (Nat.ltb _ _); [|by apply spec_ret].
    eapply spec_bind; [apply spec_list_instances|]. intros l' _. apply spec_each. intros i _. apply stop_instance_ok.
  - intros _ _. eapply spec_bind; [apply spec_save|]. intros _ _. apply spec_list_instances.
Qed.

Lemma run_op_ok r o : (forall m, op_module o = Some m -> 58 ∉ m) -> rt_ok r -> rt_ok (run_op r o).
Proof.
  intros Hm Hr. destruct o; cbn in *.
  - by apply runtime_start_ok; [apply Hm|].
  - by apply runtime_stop_ok.
  - by apply stop_instance_ok.
  - by apply restart_instance_ok; [apply Hm|].
  - by apply restart_ok; [apply Hm|].
  - by apply reconcile_ok; [apply Hm|].
  - done.
  - done.
Qed.

(** C30: Whatever the operating system answers and whichever processes die, in
    every sequence of runtime operations each instance is stored under its
    own id, that id is of the form its module and its [primary] flag give it,
    and no module has two primary instances. *)
Theorem runtime_instances_well_placed r ops :
  (forall o m, o ∈ ops -> op_module o = Some m -> 58 ∉ m) -> rt_ok r ->
  rt_ok (foldl run_op r ops)
  /\ forall k k' s s', running_modules (foldl run_op r ops) !! k = Some s -> running_modules (foldl run_op r ops) !! k' = Some s' ->
       module_id s = module_id s' -> primary s = true -> primary s' = true -> k = k'.
Proof.
  intros Hm Hr. assert (Hok : rt_ok (foldl run_op r ops)).
  { revert r Hr. induction ops as [|o ops IH]; intros r Hr; cbn; [done|]. apply IH; [intros ? ? ?; apply Hm; by right|].
    apply run_op_ok; [|done]. intros m. apply Hm. left. }
  split; [done|]. intros k k' s s'. by apply primary_unique.
Qed.

(** ** Fresh replicas *)

Lemma values_elem (m : gmap text RunningModuleState) s : s ∈ values m <-> exists k, m !! k = Some s.
Proof.
  unfold values. rewrite list_elem_of_fmap. split.
  - intros ([k s'] & -> & H). exists k. by apply elem_of_map_to_list.
  - intros [k H]. exists (k, s). split; [done|]. by apply elem_of_map_to_list.
Qed.

Lemma max_ordinal_above m l s o : s ∈ l -> module_id s = m -> replica_ordinal (instance_id s) = Some o -> o <= max_ordinal m l.
Proof.
  intros Hs Hm Ho. assert (Hin : s ∈ of_module m l) by (apply list_elem_of_filter; done). unfold max_ordinal.
  assert (Hup : forall l n, n <= foldl (λ n s, match replica_ordinal (instance_id s) with Some o => Z.max n o | None => n end) n l).
  { clear. induction l as [|s l IH]; intros n; cbn; [done|]. etrans; [|apply IH]. case_match; lia. }
  generalize 0. revert Hin. generalize (of_module m l). clear Hs l. induction l as [|s' l IH]; intros Hin n; [by apply not_elem_of_nil in Hin|].
  apply elem_of_cons in Hin as [<-|Hin]; cbn; [rewrite Ho; etrans; [|apply Hup]; lia|by apply IH].
Qed.

Lemma next_replica_fresh (m : text) (mm : gmap text RunningModuleState) : map_ok mm -> (58 ∉ m) -> max_ordinal m (values mm) < u64_max ->
  mm !! next_replica_instance_id m (values mm) = None.
Proof.
  intros Hok Hm Hmax. destruct (mm !! _) as [s|] eqn:E; [|done]. exfalso. pose proof (Hok _ _ E) as Hpl. pose proof Hpl as (Hi & Hmm & Hp).
  assert (Hsm : module_id s = m).
  { apply placed_owner in Hpl. unfold next_replica_instance_id in Hpl. rewrite owner_replica in Hpl by done. congruence. }
  pose proof (max_ordinal_nonneg m (values mm)). assert (Hle : max_ordinal m (values mm) + 1 <= max_ordinal m (values mm)); [|lia].
  eapply max_ordinal_above; [apply values_elem; eauto|done|]. rewrite Hi. unfold next_replica_instance_id, u64_saturating_add in *.
  rewrite Z.min_l by lia. apply replica_ordinal_of. lia.
Qed.

(** ** Reconciling *)

Definition count (m : text) (mm : gmap text RunningModuleState) : nat := length (of_module m (values mm)).

Lemma of_module_insert (m k : text) (s : RunningModuleState) (mm : gmap text RunningModuleState) : mm !! k = None -> of_module m (values (<[k := s]> mm)) ≡ₚ of_module m (s :: values mm).
Proof. intros H. unfold of_module, values. by rewrite map_to_list_insert. Qed.

Lemma count_insert (m k : text) (s : RunningModuleState) (mm : gmap text RunningModuleState) : mm !! k = None -> module_id s = m -> count m (<[k := s]> mm) = S (count m mm).
Proof.
  intros H Hs. unfold count. rewrite of_module_insert by done. unfold of_module. by rewrite filter_cons_True.
Qed.
Lemma count_delete (m k : text) (s : RunningModuleState) (mm : gmap text RunningModuleState) : mm !! k = Some s -> module_id s = m -> count m mm = S (count m (delete k mm)).
Proof. intros H Hs. rewrite <- (insert_delete_id mm k s H) at 1. apply count_insert; [apply lookup_delete_eq|done]. Qed.

Lemma max_ordinal_le m l B : 0 <= B -> (forall s o, s ∈ l -> module_id s = m -> replica_ordinal (instance_id s) = Some o -> o <= B) -> max_ordinal m l <= B.
Proof.
  intros HB H. unfold max_ordinal. assert (Hf : Forall (λ s, forall o, replica_ordinal (instance_id s) = Some o -> o <= B) (of_module m l)).
  { apply Forall_forall. intros s [Hm Hs]%list_elem_of_filter o. by apply H. }
  revert HB. generalize 0. induction Hf as [|s l' Hs _ IH]; intros n Hn; cbn; [done|]. apply IH. case_match; [|done]. specialize (Hs _ eq_refl). lia.
Qed.

Lemma start_replica_effect c r r' : rt_ok r -> (58 ∉ c_module_id c) -> max_ordinal (c_module_id c) (values (running_modules r)) < u64_max ->
  start_replica ans c r = (Ok tt, r') ->
  let m := c_module_id c in
  count m (running_modules r') = S (count m (running_modules r)) /\ rt_ok r'
  /\ max_ordinal m (values (running_modules r')) <= max_ordinal m (values (running_modules r)) + 1
  /\ running_modules r ⊆ running_modules r'.
Proof.
  intros Hok Hm Hmax H. unfold start_replica, all_states, bindr, gets in H.
  set (i := next_replica_instance_id (c_module_id c) (values (running_modules r))) in *.
  pose proof (start_specific_effect ans (c_module_id c) i false None (c_env_vars c) r) as He.
  destruct (start_specific_instance _ _ _ _ _ _ r) as [[info|e] r1]; [|done]. injection H as <-.
  destruct He as (s & Hr & Hi & Hsm & Hp). assert (Hnone : running_modules r !! i = None) by by apply next_replica_fresh.
  pose proof (max_ordinal_nonneg (c_module_id c) (values (running_modules r))) as Hnn.
  cbn. rewrite Hr. split_and!.
  - by apply count_insert.
  - unfold rt_ok. rewrite Hr. apply map_ok_insert; [done|]. split; [done|]. rewrite Hsm, Hp. split; [done|]. eexists. split; [apply next_ordinal_range|done].
  - apply max_ordinal_le; [lia|]. intros s' o (k & Hk)%values_elem Hm' Ho. apply lookup_insert_Some in Hk as [[<- <-]|[_ Hk]].
    + rewrite Hi in Ho. subst i. unfold next_replica_instance_id in Ho. rewrite replica_ordinal_of in Ho by apply next_ordinal_range.
      injection Ho as <-. unfold u64_saturating_add. lia.
    + assert (o <= max_ordinal (c_module_id c) (values (running_modules r))); [|lia]. eapply max_ordinal_above; [|done|done]. apply values_elem. eauto.
  - by apply insert_subseteq.
Qed.

Lemma start_replicas_effect c n r r' : rt_ok r -> (58 ∉ c_module_id c) -> max_ordinal (c_module_id c) (values (running_modules r)) + Z.of_nat n <= u64_max ->
  start_replicas ans c n r = (Ok tt, r') ->
  let m := c_module_id c in
  count m (running_modules r') = (count m (running_modules r) + n)%nat /\ running_modules r ⊆ running_modules r'.
Proof.
  revert r. induction n as [|n IH]; intros r Hok Hm Hmax H; cbn in H.
  - injection H as <-. cbn. split; [lia|done].
  - unfold bindr in H. destruct (start_replica ans c r) as [[[]|e] r1] eqn:E; [|done].
    destruct (start_replica_effect c r r1 Hok Hm ltac:(lia) E) as (Hc & Hok1 & Hmax1 & Hsub).
    destruct (IH r1 Hok1 Hm ltac:(lia) H) as [Hc' Hsub']. cbn in *. split; [lia|]. by etrans.
Qed.

Lemma stop_instance_effect m i r r' : stop_instance_by_id ans m i r = (Ok tt, r') ->
  exists s, running_modules r !! i = Some s /\ running_modules r' = delete i (running_modules r).
Proof.
  unfold stop_instance_by_id, bindr, remove_running. destruct (running_modules r !! i) as [s|] eqn:E; [|done]. intros H. exists s. split; [done|].
  pose proof (spec_stop_kind ans (λ mm, mm = delete i (running_modules r)) (kind s)) as Hs.
  specialize (Hs (set_running r (delete i (running_modules r))) eq_refl). apply proj1 in Hs. unfold RtM in *.
  change (stop_kind ans (kind s) (set_running r (delete i (running_modules r))) = (Ok tt, r')) in H. change (running_modules (Ok tt : result unit ModuleRuntimeError, r').2 = delete i (running_modules r)).
  rewrite <- H. exact Hs.
Qed.

Lemma each_stop_effect (m : text) (ids : list text) r r' : NoDup ids -> (forall i s, i ∈ ids -> running_modules r !! i = Some s -> module_id s = m) ->
  each ids (stop_instance_by_id ans m) r = (Ok tt, r') ->
  (count m (running_modules r') + length ids)%nat = count m (running_modules r)
  /\ forall k, k ∉ ids -> running_modules r' !! k = running_modules r !! k.
Proof.
  intros Hnd. revert r. induction Hnd as [|i ids Hi Hnd IH]; intros r Hm H; cbn in H.
  - injection H as <-. cbn. split; [lia|done].
  - unfold bindr in H. destruct (stop_instance_by_id ans m i r) as [[[]|e] r1] eqn:E; [|done].
    apply stop_instance_effect in E as (s & Hs & Hr1). destruct (IH r1) as [Hc Hk]; [|done|].
    + intros j sj Hj. rewrite Hr1. intros [_ Hl]%lookup_delete_Some. apply (Hm j); [by right|done].
    + rewrite Hr1 in Hc, Hk. pose proof (count_delete m i s _ Hs (Hm i s ltac:(left) Hs)). cbn. split; [lia|].
      intros k Hnot. rewrite Hk by set_solver. apply lookup_delete_ne. set_solver.
Qed.

Lemma list_instances_state m r : (list_instances m r).2 = r.
Proof. unfold list_instances. by case_bool_decide. Qed.

Lemma list_instances_length m r : (list_instances m r).1 =
  if decide (count m (running_modules r) = 0%nat) then Err (NotRunning m)
  else Ok ((λ s, mkInstance (instance_id s) (primary s) (info_from_state r s)) <$> module_instances m (values (running_modules r))).
Proof.
  unfold list_instances, count. pose proof (merge_sort_Permutation inst_le (of_module m (values (running_modules r)))) as Hp.
  fold (module_instances m (values (running_modules r))) in Hp. case_bool_decide as Hn; case_decide as Hd; try done; exfalso.
  - apply Hd. rewrite <- Hp, Hn. done.
  - apply Hn, length_zero_iff_nil. by rewrite Hp.
Qed.

Lemma values_ids (mm : gmap text RunningModuleState) : map_ok mm -> instance_id <$> values mm = (map_to_list mm).*1.
Proof.
  intros Hok. unfold values. rewrite <- list_fmap_compose. apply list_fmap_ext. intros j [k s] Hj%list_elem_of_lookup_2%elem_of_map_to_list. cbn. apply (Hok _ _ Hj).
Qed.

(** The instances of a module: each once, at most one of them primary. *)
Lemma instances_ids (m : text) (mm : gmap text RunningModuleState) : map_ok mm -> NoDup (instance_id <$> module_instances m (values mm)).
Proof.
  intros Hok. unfold module_instances. rewrite (merge_sort_Permutation inst_le). unfold of_module, values.
  assert (Hnd : NoDup (instance_id <$> (map_to_list mm).*2)) by (change ((map_to_list mm).*2) with (values mm); rewrite values_ids by done; apply NoDup_fst_map_to_list).
  revert Hnd. generalize ((map_to_list mm).*2). induction l as [|s l IH]; intros Hnd0; [constructor|].
  rewrite fmap_cons in Hnd0. apply NoDup_cons in Hnd0 as [Hs Hnd]. rewrite filter_cons. case_decide; [|by apply IH]. rewrite fmap_cons. apply NoDup_cons. split; [|by apply IH].
  intros (x & Hx & Hin)%list_elem_of_fmap. apply Hs. rewrite Hx. apply list_elem_of_fmap_2. by apply list_elem_of_filter in Hin as [_ ?].
Qed.

Lemma instances_elem (m : text) (mm : gmap text RunningModuleState) s : s ∈ module_instances m (values mm) <-> module_id s = m /\ exists k, mm !! k = Some s.
Proof. unfold module_instances. rewrite (merge_sort_Permutation inst_le). unfold of_module. by rewrite list_elem_of_filter, values_elem. Qed.

Lemma replicas_all_but_one (m : text) (mm : gmap text RunningModuleState) : map_ok mm ->
  (length (module_instances m (values mm)) <= S (length (filter (λ s, primary s = false) (module_instances m (values mm)))))%nat.
Proof.
  intros Hok. pose proof (instances_ids m mm Hok) as Hnd.
  assert (Hpr : forall s s', s ∈ module_instances m (values mm) -> s' ∈ module_instances m (values mm) -> primary s = true -> primary s' = true -> instance_id s = instance_id s').
  { intros s s' (Hm & k & Hk)%instances_elem (Hm' & k' & Hk')%instances_elem Hp Hp'. destruct (Hok _ _ Hk) as [-> _]. destruct (Hok _ _ Hk') as [-> _].
    eapply primary_unique; [done|done|done|congruence|done|done]. }
  revert Hnd Hpr. generalize (module_instances m (values mm)). induction l as [|s l IH]; intros Hnd Hpr; [cbn; lia|].
  apply NoDup_cons in Hnd as [Hs Hnd]. rewrite filter_cons. destruct (primary s) eqn:Ep; case_decide; try done; cbn.
  - assert (Hall : filter (λ s, primary s = false) l = l); [|rewrite Hall; lia]. clear IH Hnd. apply filter_id.
    intros s' Hs'. destruct (primary s') eqn:Ep'; [|done]. exfalso. apply Hs. rewrite (Hpr s s'); [by apply list_elem_of_fmap_2|left|by right|done|done].
  - specialize (IH Hnd). cbn in IH |- *. assert (length l <= S (length (filter (λ s, primary s = false) l)))%nat; [|lia].
    apply IH. intros ? ? ? ?. apply Hpr; by right.
Qed.

Lemma surplus_ids r m n : surplus ((λ s, mkInstance (instance_id s) (primary s) (info_from_state r s)) <$> module_instances m (values (running_modules r))) n =
  instance_id <$> take n (rev (filter (λ s, primary s = false) (module_instances m (values (running_modules r))))).
Proof.
  unfold surplus. set (f := λ s, mkInstance (instance_id s) (primary s) (info_from_state r s)).
  assert (Hf : forall l : list RunningModuleState, filter (λ i, n_primary i = false) (f <$> l) = f <$> filter (λ s, primary s = false) l).
  { induction l as [|s l IH]; [done|]. rewrite fmap_cons, !filter_cons. cbn [f n_primary]. case_decide; [rewrite fmap_cons|]; by rewrite IH. }
  assert (Hr : forall l : list RunningModuleState, rev (f <$> l) = f <$> rev l).
  { induction l as [|s l IH]; [done|]. cbn [rev]. rewrite fmap_cons. cbn [rev]. by rewrite fmap_app, IH. }
  rewrite Hf, Hr, <- fmap_take, <- list_fmap_compose. done.
Qed.

(** Stopping the surplus leaves [n] instances, the primary one among them. *)
Lemma stop_surplus_effect m n r r1 (L := module_instances m (values (running_modules r))) :
  rt_ok r -> (0 < n)%nat -> (n < count m (running_modules r))%nat ->
  each (instance_id <$> take (count m (running_modules r) - n) (rev (filter (λ s, primary s = false) L))) (stop_instance_by_id ans m) r = (Ok tt, r1) ->
  count m (running_modules r1) = n
  /\ forall k s, running_modules r !! k = Some s -> (module_id s <> m \/ primary s = true) -> running_modules r1 !! k = Some s.
Proof.
  intros Hok Hn Hlt He. set (reps := filter (λ s, primary s = false) L) in *. set (d := (count m (running_modules r) - n)%nat) in *.
  assert (HL : length L = count m (running_modules r)) by (unfold L, module_instances, count; by rewrite (merge_sort_Permutation inst_le)).
  assert (Hids : forall i, i ∈ instance_id <$> take d (rev reps) -> exists s, running_modules r !! i = Some s /\ module_id s = m /\ primary s = false).
  { intros i (s & -> & Hs)%list_elem_of_fmap. apply elem_of_take in Hs as (j & Hj & _). apply list_elem_of_lookup_2 in Hj.
    apply list_elem_of_In, in_rev, list_elem_of_In in Hj. apply list_elem_of_filter in Hj as [Hp Hin]. apply instances_elem in Hin as (Hsm & k & Hk).
    exists s. destruct (Hok _ _ Hk) as [-> _]. done. }
  assert (Hlen : length (instance_id <$> take d (rev reps)) = d).
  { rewrite length_fmap, length_take, length_rev. pose proof (replicas_all_but_one m _ Hok) as Hall. fold L in Hall. fold reps in Hall. lia. }
  destruct (each_stop_effect m (instance_id <$> take d (rev reps)) r r1) as [Hc Hk]; [| |exact He|].
  - apply (sublist_NoDup _ (instance_id <$> rev reps)); [|apply fmap_sublist, sublist_take]. rewrite <- Permutation_rev.
    apply (sublist_NoDup _ (instance_id <$> L)); [by apply instances_ids|apply fmap_sublist, sublist_filter].
  - intros i s Hi Hs. destruct (Hids i Hi) as (s' & Hs' & ? & _). congruence.
  - split; [rewrite Hlen in Hc; lia|]. intros k s Hks Hor. rewrite Hk; [done|]. intros Hin. destruct (Hids k Hin) as (s' & Hs' & ? & ?).
    destruct Hor; congruence.
Qed.

Lemma reconcile_effect c n r l r' : rt_ok r -> (58 ∉ c_module_id c) -> (0 < n)%nat ->
  (0 < count (c_module_id c) (running_modules r))%nat -> max_ordinal (c_module_id c) (values (running_modules r)) + Z.of_nat n <= u64_max ->
  reconcile_instances ans c n r = (Ok l, r') ->
  length l = n /\ count (c_module_id c) (running_modules r') = n
  /\ forall k s, running_modules r !! k = Some s -> (module_id s <> c_module_id c \/ primary s = true) -> running_modules r' !! k = Some s.
Proof.
  intros Hok Hm Hn Hcur Hmax H. set (m := c_module_id c) in *. unfold reconcile_instances in H. destruct n as [|n']; [lia|]. set (n := S n') in *.
  unfold bindr at 1 in H. fold m in H. pose proof (list_instances_length m r) as Hli. rewrite decide_False in Hli by lia. rewrite Hli in H.
  set (L := module_instances m (values (running_modules r))) in *.
  assert (HL : length L = count m (running_modules r)) by (unfold L, module_instances, count; by rewrite (merge_sort_Permutation inst_le)).
  cbv beta iota in H. rewrite length_fmap, HL in H. rewrite (proj2 (Nat.eqb_neq _ _)) in H by lia.
  unfold bindr at 1 in H.
  match type of H with match ?body r with _ => _ end = _ => set (B := body) in H end.
  assert (HB : forall r1, B r = (Ok tt, r1) -> count m (running_modules r1) = n
    /\ forall k s, running_modules r !! k = Some s -> (module_id s <> m \/ primary s = true) -> running_modules r1 !! k = Some s).
  { intros r1. subst B. destruct (Nat.ltb_spec (count m (running_modules r)) n) as [Hlt|Hge].
    - intros Hs. assert (max_ordinal m (values (running_modules r)) + Z.of_nat (n - count m (running_modules r)) <= u64_max) as Hb by lia.
      destruct (start_replicas_effect c _ r r1 Hok Hm Hb Hs) as [Hc Hsub]. fold m in Hc. split; [lia|].
      intros k s Hk _. by eapply lookup_weaken.
    - destruct (Nat.ltb_spec n (count m (running_modules r))) as [Hlt|Heq]; [|intros [= <-]; split; [lia|done]].
      unfold bindr. destruct (list_instances m r) as [res rr] eqn:E. cbn in Hli. subst res.
      assert (rr = r) as -> by (unfold list_instances in E; case_bool_decide; congruence).
      pose proof (surplus_ids r m (count m (running_modules r) - n)) as Hsur. fold L in Hsur. rewrite Hsur. by apply stop_surplus_effect. }
  destruct (B r) as [[[]|e] r1]; [|done]. destruct (HB r1 eq_refl) as [Hc Hk]. unfold bindr in H.
  pose proof (save_running ans r1) as Hsave. destruct (save_state ans r1) as [[[]|e] r2] eqn:Es; [|done]. cbn in Hsave.
  pose proof (list_instances_length m r2) as Hli2. rewrite Hsave, Hc, decide_False in Hli2 by done.
  assert (Hr' : r' = r2) by (unfold list_instances in H; case_bool_decide; congruence). subst r'. rewrite Hsave.
  rewrite H in Hli2. cbn in Hli2. injection Hli2 as ->. rewrite length_fmap. unfold module_instances. rewrite (merge_sort_Permutation inst_le).
  split_and!; [exact Hc|done|done].
Qed.

(** Restarting an instance keeps the number of instances of its module. *)
Lemma restart_instance_count (m i : text) r info r' : restart_instance ans m i r = (Ok info, r') -> rt_ok r ->
  count m (running_modules r') = count m (running_modules r).
Proof.
  intros H Hok. unfold restart_instance in H. apply bindr_ok_inv in H as (s & r1 & Hrem & H). unfold remove_running in Hrem.
  destruct (running_modules r !! i) as [s0|] eqn:Ei; [|done]. injection Hrem as <- <-. destruct (Hok _ _ Ei) as (Hi & _ & _).
  case_bool_decide as Hm; [|done]. cbn [negb] in H. apply bindr_ok_inv in H as ([] & r2 & Hstop & H).
  pose proof (spec_stop_kind ans (λ mm, mm = delete i (running_modules r)) (kind s0) (set_running r (delete i (running_modules r))) eq_refl) as [Hr2 _].
  unfold RtM in *. rewrite Hstop in Hr2. cbn in Hr2. apply bindr_ok_inv in H as (info' & r3 & Hst & H).
  pose proof (start_specific_effect ans m (instance_id s0) (primary s0) (port s0) (default [] (env s0)) r2) as He. unfold RtM in *. rewrite Hst in He.
  destruct He as (s1 & Hr3 & _ & Hm1 & _). rewrite Hi in *. unfold modify in H. unfold bindr at 1 in H. rewrite Hr3, lookup_insert_eq in H.
  apply bindr_ok_inv in H as ([] & r4 & Hsave & H). injection H as _ <-.
  match type of Hsave with save_state ans ?w = _ => pose proof (save_running ans w) as Hs end. unfold RtM in *. rewrite Hsave in Hs. cbn in Hs. rewrite Hs, insert_insert_eq, Hr2.
  rewrite count_insert by (apply lookup_delete_eq || done). symmetry. by apply (count_delete m i s0).
Qed.

(** C31: Reconciling a running module ends in an error or with exactly the
    desired number of instances; its primary instance and the instances of
    every other module are left as they were. *)
Theorem reconcile_reaches_desired c n r l r' : rt_ok r -> (58 ∉ c_module_id c) -> (0 < n)%nat ->
  (0 < count (c_module_id c) (running_modules r))%nat -> max_ordinal (c_module_id c) (values (running_modules r)) + Z.of_nat n <= u64_max ->
  reconcile_instances ans c n r = (Ok l, r') ->
  length l = n /\ count (c_module_id c) (running_modules r') = n
  /\ forall k s, running_modules r !! k = Some s -> (module_id s <> c_module_id c \/ primary s = true) -> running_modules r' !! k = Some s.
Proof. apply reconcile_effect. Qed.
End Operations.

(** ** Tracked processes *)

Definition tracked (r : Rt) (pid : Z) : Prop := exists k s, running_modules r !! k = Some s /\ kind s = Process pid.
(** A process that is alive and no instance's: [r'] has none that [r] had not. *)
Definition stray (r : Rt) (pid : Z) : Prop := pid ∈ alive r /\ ~ tracked r pid.
Definition no_new_stray (r r' : Rt) : Prop := forall pid, stray r' pid -> stray r pid.
(** SIGKILL is delivered and ends the process. *)
Definition kills_work (ans : nat -> Answers) : Prop := forall n, k_kill (a_kill (ans n)) = true /\ k_forced (a_kill (ans n)) = true.

Section Tracked.
Context `{VT : VersionText} (ans : nat -> Answers).

Lemma no_new_stray_trans r1 r2 r3 : no_new_stray r1 r2 -> no_new_stray r2 r3 -> no_new_stray r1 r3.
Proof. intros H1 H2 pid H. by apply H1, H2. Qed.
Lemma no_new_stray_same r r' : running_modules r' = running_modules r -> alive r' = alive r -> no_new_stray r r'.
Proof. intros Hr Ha pid [H1 H2]. unfold stray, tracked in *. by rewrite Hr, Ha in *. Qed.

Lemma wait_gone pid r : wait_for_exit pid true r = (Ok true, set_alive r (alive r ∖ {[pid]})).
Proof. unfold wait_for_exit. case_bool_decide; [done|]. replace (alive r ∖ {[pid]}) with (alive r) by set_solver. by destruct r. Qed.

Lemma kill_works pid r : kills_work ans ->
  exists r', kill_process ans pid r = (Ok tt, r') /\ running_modules r' = running_modules r /\ alive r' = alive r ∖ {[pid]}.
Proof.
  intros Hk. unfold kill_process, bindr, answer, gets, ret, fail, wait_for_exit. destruct (Hk (calls r)) as [Hkill Hforced].
  set (k := a_kill (ans (calls r))) in *.
  destruct (k_term k), (k_exits k), (decide (pid ∈ alive r)) as [Hp|Hp]; cbn [alive next_call set_alive];
    rewrite ?(bool_decide_eq_true_2 _ Hp), ?(bool_decide_eq_false_2 _ Hp), ?Hkill, ?Hforced; cbn [alive next_call set_alive];
    rewrite ?(bool_decide_eq_true_2 _ Hp), ?(bool_decide_eq_false_2 _ Hp); cbn; eexists; (split; [reflexivity|split; [reflexivity|cbn; set_solver]]).
Qed.

Lemma stop_kind_works k r : kills_work ans ->
  exists r', stop_kind ans k r = (Ok tt, r') /\ running_modules r' = running_modules r
    /\ alive r' = alive r ∖ match k with Process pid => {[pid]} | StaticSite _ => ∅ end.
Proof.
  intros Hk. destruct k as [pid|task]; [by apply kill_works|]. eexists. split; [done|]. cbn. split; [done|set_solver].
Qed.

(** Removing an instance and ending what it runs. *)
Lemma removed_no_stray r r' i s : running_modules r !! i = Some s ->
  running_modules r' = delete i (running_modules r) -> alive r' = alive r ∖ match kind s with Process pid => {[pid]} | StaticSite _ => ∅ end -> no_new_stray r r'.
Proof.
  intros Hs Hr Ha pid [Hp Hn]. split; [set_solver|]. intros (k & s' & Hk & Hkind). apply Hn. exists k, s'. rewrite Hr.
  split; [|done]. apply lookup_delete_Some. split; [|done]. intros ->. assert (s' = s) as -> by congruence. rewrite Hkind in Ha. set_solver.
Qed.

Lemma stop_instance_no_stray m i r : kills_work ans -> no_new_stray r (stop_instance_by_id ans m i r).2.
Proof.
  intros Hk. unfold stop_instance_by_id, bindr, remove_running. destruct (running_modules r !! i) as [s|] eqn:E; [|by apply no_new_stray_same].
  destruct (stop_kind_works (kind s) (set_running r (delete i (running_modules r))) Hk) as (r' & Hs & Hr & Ha).
  change (no_new_stray r (stop_kind ans (kind s) (set_running r (delete i (running_modules r)))).2). rewrite Hs. by eapply removed_no_stray.
Qed.

Lemma each_stop_no_stray m ids r : kills_work ans -> no_new_stray r (each ids (stop_instance_by_id ans m) r).2.
Proof.
  intros Hk. revert r. induction ids as [|i ids IH]; intros r; cbn; [by apply no_new_stray_same|]. unfold bindr.
  pose proof (stop_instance_no_stray m i r Hk) as H. destruct (stop_instance_by_id ans m i r) as [[[]|e] r1]; [|done].
  eapply no_new_stray_trans; [exact H|apply IH].
Qed.

Lemma save_same r : running_modules (save_state ans r).2 = running_modules r /\ alive (save_state ans r).2 = alive r.
Proof. unfold save_state, bindr, answer, modify. cbn. by destruct (a_save _). Qed.

(** Starting an instance under a free id tracks what it spawns. *)
Definition no_stray_start (i : text) (c : RtM ModuleRuntimeInfo) : Prop := forall r, running_modules r !! i = None -> no_new_stray r (c r).2.

Lemma no_stray_bind {A : Type} i (c : RtM A) k : (forall r, running_modules (c r).2 = running_modules r /\ alive (c r).2 = alive r) ->
  (forall a, no_stray_start i (k a)) -> no_stray_start i (bindr c k).
Proof.
  intros Hc Hk r Hi. unfold bindr. specialize (Hc r). destruct (c r) as [[a|e] r1]; cbn in Hc; destruct Hc as [Hr Ha]; [|by apply no_new_stray_same].
  eapply no_new_stray_trans; [by apply no_new_stray_same|]. apply Hk. by rewrite Hr.
Qed.
Lemma no_stray_fail i e : no_stray_start i (fail e).
Proof. intros r _. by apply no_new_stray_same. Qed.

Lemma no_stray_static f m i prim p v log e : no_stray_start i (try_start_static_site ans f m i prim p v log e).
Proof.
  unfold try_start_static_site. destruct (f_bind f); [|apply no_stray_fail]. apply no_stray_bind; [done|]. intros _ r Hi.
  unfold bindr, insert_running, modify. cbn -[save_state].
  match goal with |- context [save_state ans ?r1] => destruct (save_same r1) as [Hr Ha]; destruct (save_state ans r1) as [[[]|?] r2] end; cbn in *;
    (intros pid [Hp Hn]; rewrite Ha in Hp; split; [done|]; intros (k & s & Hk & Hkind); apply Hn; exists k, s; rewrite Hr; split; [|done];
     rewrite lookup_insert_ne by congruence; done).
Qed.

Lemma no_stray_spawn f m i prim v p log e : no_stray_start i (spawn_process ans f m i prim v p log e).
Proof.
  unfold spawn_process. do 2 (apply no_stray_bind; [done|]; intros _). apply no_stray_bind; [done|]. intros pid r Hi.
  unfold bindr, insert_running, modify. cbn -[save_state].
  match goal with |- context [save_state ans ?r1] => destruct (save_same r1) as [Hr Ha]; destruct (save_state ans r1) as [[[]|?] r2] end; cbn in *;
    (intros q [Hp Hn]; rewrite Ha in Hp; destruct (decide (q = pid)) as [->|Hq];
     [destruct Hn; eexists i, _; rewrite Hr, lookup_insert_eq; split; reflexivity|];
     split; [set_solver|]; intros (k & s & Hk & Hkind); apply Hn; exists k, s; rewrite Hr; split; [|done]; rewrite lookup_insert_ne by congruence; done).
Qed.

Lemma start_specific_no_stray m i prim p e : no_stray_start i (start_specific_instance ans m i prim p e).
Proof.
  apply start_specific_shape; [|apply no_stray_fail|intros; apply no_stray_static|intros; apply no_stray_spawn].
  intros A c k Hc. by apply no_stray_bind.
Qed.

Lemma select_none m l : select_primary_instance m l = None -> of_module m l = [].
Proof.
  unfold select_primary_instance. destruct (of_module m l) as [|s l']; [done|]. cbn. intros H. exfalso.
  assert (Hs : forall l b, is_Some (foldl (λ best s, match best with Some b => if not_less b s then Some s else Some b | None => Some s end) (Some b) l)).
  { clear. induction l as [|s l IH]; intros b; cbn; [by eexists|]. destruct (not_less b s); apply IH. }
  destruct (Hs l' s) as [? Hx]. congruence.
Qed.

Lemma primary_free (m : text) (mm : gmap text RunningModuleState) : map_ok mm -> (58 ∉ m) -> select_primary_instance m (values mm) = None -> mm !! primary_instance_id m = None.
Proof.
  intros Hok Hm Hn%select_none. destruct (mm !! primary_instance_id m) as [s|] eqn:E; [|done]. exfalso.
  pose proof (placed_owner _ _ (Hok _ _ E)) as Ho. rewrite owner_primary in Ho by done. injection Ho as Ho.
  assert (Hin : s ∈ of_module m (values mm)) by (apply list_elem_of_filter; split; [done|]; apply values_elem; eauto). rewrite Hn in Hin. by apply not_elem_of_nil in Hin.
Qed.

Lemma start_no_stray c r : rt_ok r -> (58 ∉ c_module_id c) -> no_new_stray r (start ans c r).2.
Proof.
  intros Hok Hm. unfold start, all_states, bindr, gets. destruct (select_primary_instance _ _) eqn:E; [by apply no_new_stray_same|].
  apply start_specific_no_stray. by apply primary_free.
Qed.

Lemma stop_no_stray m r : kills_work ans -> no_new_stray r (stop ans m r).2.
Proof.
  intros Hk. unfold stop, all_states, bindr, gets. case_bool_decide; [by apply no_new_stray_same|].
  set (ids := instance_id <$> _). pose proof (each_stop_no_stray m ids r Hk) as He. destruct (each ids _ r) as [[[]|e] r1]; [|done].
  eapply no_new_stray_trans; [exact He|]. apply no_new_stray_same; apply save_same.
Qed.

Lemma restart_instance_no_stray (m i : text) r : kills_work ans -> rt_ok r -> (58 ∉ m) -> owner i = Some m -> no_new_stray r (restart_instance ans m i r).2.
Proof.
  intros Hk Hok Hm Ho. unfold restart_instance. unfold bindr at 1, remove_running. destruct (running_modules r !! i) as [s|] eqn:E; [|by apply no_new_stray_same].
  pose proof (Hok _ _ E) as Hpl. pose proof (placed_owner _ _ Hpl) as Hos. destruct Hpl as [Hi _]. assert (Hsm : module_id s = m) by congruence.
  rewrite bool_decide_eq_true_2 by done. cbn [negb].
  destruct (stop_kind_works (kind s) (set_running r (delete i (running_modules r))) Hk) as (r1 & Hs & Hr1 & Ha1).
  unfold bindr at 1. rewrite Hs. cbn in Hr1, Ha1.
  eapply no_new_stray_trans; [by eapply removed_no_stray|]. unfold bindr at 1.
  pose proof (start_specific_no_stray m (instance_id s) (primary s) (port s) (default [] (env s)) r1) as Hst.
  rewrite Hi in Hst |- *. specialize (Hst ltac:(by rewrite Hr1, lookup_delete_eq)).
  destruct (start_specific_instance _ _ _ _ _ _ r1) as [[info|e] r2]; [|exact Hst]. eapply no_new_stray_trans; [exact Hst|].
  unfold bindr, modify. cbn -[save_state]. match goal with |- context [save_state ans ?r3] => set (r3' := r3); destruct (save_same r3') as [Hr4 Ha4]; destruct (save_state ans r3') as [[[]|?] r4] end; cbn in Hr4, Ha4 |- *;
    (eapply (no_new_stray_trans _ r3'); [|by apply no_new_stray_same]); subst r3'; clear;
    (destruct (running_modules r2 !! i) as [s'|] eqn:E; [|by apply no_new_stray_same]; intros pid [Hp Hn]; split; [done|];
     intros (k & t & Hk & Hkind); apply Hn; destruct (decide (k = i)) as [->|Hne];
     [exists i, (with_restart_count s' (u32_saturating_add (restart_count s) 1)); cbn; rewrite lookup_insert_eq; split; [done|]; cbn; congruence
     |exists k, t; cbn; by rewrite lookup_insert_ne]).
Qed.

Lemma restart_no_stray (m : text) r : kills_work ans -> rt_ok r -> (58 ∉ m) -> no_new_stray r (restart ans m r).2.
Proof.
  intros Hk Hok Hm. unfold restart. unfold bindr at 1. destruct (list_instances m r) as [[l|e] r0] eqn:E;
    (assert (r0 = r) as -> by (pose proof (list_instances_state m r) as Hx; by rewrite E in Hx)); [|by apply no_new_stray_same].
  assert (Hl : Forall (λ n, owner (n_instance_id n) = Some m) l).
  { unfold list_instances in E. case_bool_decide; [done|]. injection E as <-. apply Forall_fmap, Forall_forall. intros s (Hsm & k & Hs)%instances_elem. unfold compose. cbn [n_instance_id].
    pose proof (Hok _ _ Hs) as Hpl. pose proof (placed_owner _ _ Hpl) as Ho. destruct Hpl as [-> _]. by rewrite Ho, Hsm. }
  clear E. unfold bindr. generalize (@None ModuleRuntimeInfo). revert r Hok. induction Hl as [|n l Hn _ IH]; intros r Hok first; cbn [restart_all].
  - cbn. destruct first; by apply no_new_stray_same.
  - unfold bindr at 1. pose proof (restart_instance_no_stray m (n_instance_id n) r Hk Hok Hm Hn) as H1.
    pose proof (proj1 (restart_instance_ok ans m (n_instance_id n) Hm r Hok)) as Hok1.
    destruct (restart_instance ans m (n_instance_id n) r) as [[info|e] r1]; [|exact H1]. eapply no_new_stray_trans; [exact H1|]. by apply IH.
Qed.

Lemma start_replicas_no_stray c n r : rt_ok r -> (58 ∉ c_module_id c) -> max_ordinal (c_module_id c) (values (running_modules r)) + Z.of_nat n <= u64_max ->
  no_new_stray r (start_replicas ans c n r).2.
Proof.
  revert r. induction n as [|n IH]; intros r Hok Hm Hmax; cbn; [by apply no_new_stray_same|]. unfold bindr at 1.
  assert (H1 : no_new_stray r (start_replica ans c r).2).
  { unfold start_replica, all_states. unfold bindr, gets. set (i := next_replica_instance_id _ _).
    pose proof (start_specific_no_stray (c_module_id c) i false None (c_env_vars c) r) as Hst. specialize (Hst ltac:(apply next_replica_fresh; [done|done|lia])).
    destruct (start_specific_instance _ _ _ _ _ _ r) as [[?|?] ?]; exact Hst. }
  destruct (start_replica ans c r) as [[[]|e] r1] eqn:E; [|exact H1]. eapply no_new_stray_trans; [exact H1|].
  destruct (start_replica_effect ans c r r1 Hok Hm ltac:(lia) E) as (_ & Hok1 & Hmax1 & _). apply IH; [done|done|lia].
Qed.

Lemma reconcile_no_stray c n r : kills_work ans -> rt_ok r -> (58 ∉ c_module_id c) -> max_ordinal (c_module_id c) (values (running_modules r)) + Z.of_nat n <= u64_max ->
  no_new_stray r (reconcile_instances ans c n r).2.
Proof.
  intros Hk Hok Hm Hmax. unfold reconcile_instances. destruct n as [|n']; [by apply stop_no_stray|]. set (n := S n') in *. unfold bindr at 1.
  set (cur := length _).
  assert (Hend : forall r1, no_new_stray r1 ((save_state ans >> list_instances (c_module_id c)) r1).2).
  { intros r1. unfold bindr. destruct (save_same r1) as [Hr2 Ha2]. destruct (save_state ans r1) as [[[]|e] r2]; [|by apply no_new_stray_same].
    unfold list_instances. case_bool_decide; by apply no_new_stray_same. }
  unfold bindr at 1. match goal with |- context [match ?b r with _ => _ end] => set (B := b) end.
  assert (HB : no_new_stray r (B r).2).
  { subst B. destruct (Nat.eqb cur 0).
    - unfold bindr. pose proof (start_no_stray c r Hok Hm). destruct (start ans c r) as [[?|?] ?]; done.
    - destruct (Nat.ltb cur n); [apply start_replicas_no_stray; [done|done|lia]|]. destruct (Nat.ltb n cur); [|by apply no_new_stray_same].
      unfold bindr. destruct (list_instances (c_module_id c) r) as [[l|e] r0] eqn:E;
        (assert (r0 = r) as -> by (pose proof (list_instances_state (c_module_id c) r) as Hx; by rewrite E in Hx)); [by apply each_stop_no_stray|by apply no_new_stray_same]. }
  destruct (B r) as [[[]|e] r1]; [|exact HB]. eapply no_new_stray_trans; [exact HB|apply Hend].
Qed.

(** The operation restarts the instance that runs [pid] for another module
    than its own. *)
Definition foreign_restart (r : Rt) (o : runtime_op) (pid : Z) : Prop :=
  exists m i s, o = OpRestartInstance m i /\ running_modules r !! i = Some s /\ module_id s <> m /\ kind s = Process pid.

Lemma foreign_restart_drops m i s r : running_modules r !! i = Some s -> module_id s <> m ->
  restart_instance ans m i r = (Err (NotRunning m), set_running r (delete i (running_modules r))).
Proof. intros Hi Hs. unfold restart_instance, bindr, remove_running. rewrite Hi. by rewrite bool_decide_eq_false_2. Qed.

Lemma foreign_restart_stray m i s r pid : running_modules r !! i = Some s -> module_id s <> m ->
  stray (run_op ans r (OpRestartInstance m i)) pid -> stray r pid \/ foreign_restart r (OpRestartInstance m i) pid.
Proof.
  intros Hi Hs. cbn. rewrite (foreign_restart_drops m i s r Hi Hs). cbn. intros [Hp Hn].
  assert (Hd : kind s = Process pid \/ kind s <> Process pid).
  { destruct (kind s) as [p|task]; [|by right]. destruct (decide (p = pid)) as [->|Hne]; [by left|right; congruence]. }
  destruct Hd as [Hk|Hk].
  - right. by exists m, i, s.
  - left. split; [done|]. intros (k & t & Ht & Hkt). apply Hn. exists k, t. cbn. split; [|done]. apply lookup_delete_Some. split; [|done]. intros <-. congruence.
Qed.

(** C28: As long as kills work, no operation of the runtime loses a process,
    whatever else the operating system answers: a process that is alive and
    belongs to no instance after the operation was so before it.  The one
    exception is to restart an instance for another module than its own: the
    only process that is lost then is the one of that instance, and it is
    ([restart_of_foreign_instance_loses_process]).  Module ids hold no colon,
    which [ModuleId] makes sure of, and the ordinals of replicas stay below
    2^64. *)
Theorem no_process_is_lost r o : kills_work ans -> rt_ok r -> (forall m, op_module o = Some m -> 58 ∉ m) ->
  (forall c n, o = OpReconcile c n -> max_ordinal (c_module_id c) (values (running_modules r)) + Z.of_nat n <= u64_max) ->
  forall pid, stray (run_op ans r o) pid -> stray r pid \/ foreign_restart r o pid.
Proof.
  intros Hk Hok Hm Hord pid Hst.
  assert (Hno : no_new_stray r (run_op ans r o) -> stray r pid \/ foreign_restart r o pid) by (intros H; left; by apply H).
  destruct o as [c|m|m i|m i|m|c n|p|task].
  - by apply Hno, start_no_stray; [|apply Hm].
  - by apply Hno, stop_no_stray.
  - by apply Hno, stop_instance_no_stray.
  - destruct (running_modules r !! i) as [s|] eqn:E.
    + destruct (decide (module_id s = m)) as [Hs|Hs]; [|by eapply foreign_restart_stray].
      apply Hno. cbn in *. apply restart_instance_no_stray; [done|done|by apply Hm|]. by rewrite (placed_owner _ _ (Hok _ _ E)), Hs.
    + apply Hno. cbn. unfold restart_instance, bindr, remove_running. rewrite E. by apply no_new_stray_same.
  - by apply Hno, restart_no_stray; [| |apply Hm].
  - by apply Hno, reconcile_no_stray; [| |apply Hm|apply Hord].
  - apply Hno. intros q [Hp Hn]. split; [cbn in Hp; set_solver|done].
  - by apply Hno, no_new_stray_same.
Qed.

(** The instance is removed from the map before its module is compared: a
    request to restart it for another module is refused, but its process
    keeps running and belongs to no instance. *)
Theorem restart_of_foreign_instance_loses_process r (m i : text) s pid :
  running_modules r !! i = Some s -> module_id s <> m -> kind s = Process pid -> pid ∈ alive r ->
  (forall k s', running_modules r !! k = Some s' -> kind s' = Process pid -> k = i) ->
  exists r', restart_instance ans m i r = (Err (NotRunning m), r') /\ stray r' pid /\ ~ stray r pid.
Proof.
  intros Hi Hs Hk Hp Huniq. eexists. split; [by apply foreign_restart_drops with s|]. split.
  - split; [done|]. intros (k & t & Ht & Hkt). cbn in Ht. apply lookup_delete_Some in Ht as [Hne Ht]. by destruct (Huniq k t Ht Hkt).
  - intros [_ Hn]. apply Hn. by exists i, s.
Qed.

(** A kill that fails loses the process: when the only instance of a
    module does not die, stopping the module reports the failure but has
    already dropped the instance, so the process keeps running untracked, the
    module counts as not running and can be started a second time. *)
Theorem failed_stop_loses_process r (m : text) s pid : rt_ok r -> (58 ∉ m) ->
  of_module m (values (running_modules r)) = [s] -> kind s = Process pid -> pid ∈ alive r ->
  (forall k s', running_modules r !! k = Some s' -> kind s' = Process pid -> s' = s) ->
  k_term (a_kill (ans (calls r))) = false -> k_kill (a_kill (ans (calls r))) = false ->
  exists r', stop ans m r = (Err (StopFailed (lit "unknown") (lit "kill failed")), r')
    /\ stray r' pid /\ (status m r').1 = Err (NotRunning m)
    /\ forall c, c_module_id c = m -> (start ans c r') = start_specific_instance ans m (primary_instance_id m) true (c_port c) (c_env_vars c) r'.
Proof.
  intros Hok Hm Hone Hkind Hpid Huniq Hterm Hkill.
  assert (Hs : running_modules r !! instance_id s = Some s /\ module_id s = m).
  { assert (Hin : s ∈ of_module m (values (running_modules r))) by (rewrite Hone; left). apply list_elem_of_filter in Hin as [? (k & Hk)%values_elem].
    destruct (Hok _ _ Hk) as [-> _]. done. }
  destruct Hs as [Hs Hsm].
  set (r1 := next_call (set_running r (delete (instance_id s) (running_modules r)))).
  assert (Hstop : stop ans m r = (Err (StopFailed (lit "unknown") (lit "kill failed")), r1)).
  { assert (Hmi : module_instances m (values (running_modules r)) = [s]) by (unfold module_instances; rewrite Hone; reflexivity).
    assert (Hsi : stop_instance_by_id ans m (instance_id s) r = (Err (StopFailed (lit "unknown") (lit "kill failed")), r1)).
    { unfold stop_instance_by_id, bindr at 1, remove_running. rewrite Hs. rewrite Hkind. unfold stop_kind, kill_process, bindr, answer, gets. cbn.
      rewrite Hterm. cbn. rewrite bool_decide_eq_true_2 by done. by rewrite Hkill. }
    unfold stop, all_states, gets. unfold bindr at 1. rewrite Hmi. cbn [fmap list_fmap]. rewrite bool_decide_eq_false_2 by done.
    cbn [each]. unfold bindr. by rewrite Hsi. }
  assert (Hnone : select_primary_instance m (values (running_modules r1)) = None).
  { unfold select_primary_instance. replace (of_module m (values (running_modules r1))) with (@nil RunningModuleState); [done|].
    symmetry. apply length_zero_iff_nil. pose proof (count_delete m _ _ _ Hs Hsm) as Hc. unfold count in Hc. rewrite Hone in Hc. cbn in Hc |- *. lia. }
  exists r1. split_and!; [done| | |].
  - split; [done|]. intros (k & s' & Hk & Hk'). cbn in Hk. apply lookup_delete_Some in Hk as [Hne Hk]. rewrite (Huniq k s' Hk Hk') in Hk.
    destruct (Hok _ _ Hk) as [? _]. done.
  - unfold status. by rewrite Hnone.
  - intros c Hcm. unfold start, all_states, bindr, gets. by rewrite Hcm, Hnone.
Qed.
End Tracked.

(** ** A module that crashed *)

Section Crashed.
Context `{VT : VersionText} (ans : nat -> Answers).

Lemma select_elem m l s : select_primary_instance m l = Some s -> s ∈ of_module m l.
Proof.
  unfold select_primary_instance. generalize (of_module m l). clear l.
  assert (H : forall l b, foldl (λ best s, match best with Some b => if not_less b s then Some s else Some b | None => Some s end) (Some b) l = Some s -> s ∈ b :: l).
  { induction l as [|x l IH]; intros b; cbn; [intros [= ->]; left|]. destruct (not_less b x); intros Hs%IH; set_solver. }
  intros [|x l]; [done|]. cbn. apply H.
Qed.

Definition runs (r : Rt) (s : RunningModuleState) : Prop :=
  match kind s with Process pid => pid ∈ alive r | StaticSite task => task ∈ serving r end.

(** A module whose processes died cannot be started: its entry stays, so
    the runtime reports it as failed but answers every start with
    [AlreadyRunning], whatever the configuration, until it is stopped. *)
Lemma crashed_start r m c : c_module_id c = m -> of_module m (values (running_modules r)) <> [] ->
  (forall s, s ∈ of_module m (values (running_modules r)) -> ~ runs r s) ->
  start ans c r = (Err (AlreadyRunning m), r)
  /\ exists info, status m r = (Ok info, r) /\ i_status info = Failed /\ i_module_id info = m.
Proof.
  intros Hc Hne Hdead. destruct (select_primary_instance m (values (running_modules r))) as [s|] eqn:E.
  - pose proof (select_elem _ _ _ E) as Hin. specialize (Hdead s Hin). apply list_elem_of_filter in Hin as [Hsm _]. split.
    + unfold start, all_states, bindr, gets. by rewrite Hc, E.
    + unfold status. rewrite E. eexists. split; [done|]. unfold info_from_state, runs in *. destruct (kind s); rewrite bool_decide_eq_false_2 by done; done.
  - by apply select_none in E.
Qed.
End Crashed.

(** ** Replacing an instance of many *)

Section Surge.
Context `{VT : VersionText} (ans : nat -> Answers).

Lemma text_cmp_trans a b c : text_cmp a b <> Gt -> text_cmp b c <> Gt -> text_cmp a c <> Gt.
Proof.
  intros Hab Hbc. destruct (text_cmp a b) eqn:E1; [apply (cmp_eq _ text_cmp_laws) in E1; by subst| |done].
  destruct (text_cmp b c) eqn:E2; [apply (cmp_eq _ text_cmp_laws) in E2; subst; congruence| |done].
  by rewrite (cmp_trans _ text_cmp_laws _ _ _ E1 E2).
Qed.

#[local] Instance inst_le_trans : Transitive inst_le.
Proof.
  intros a b c. unfold inst_le. destruct (primary a), (primary b), (primary c); cbn; try done; intros; by eapply text_cmp_trans.
Qed.
#[local] Instance inst_le_total : Total inst_le.
Proof.
  intros a b. unfold inst_le. destruct (primary a), (primary b); cbn; auto;
    (destruct (text_cmp (instance_id a) (instance_id b)) eqn:E; [left; done|left; done|right; rewrite (cmp_opp _ text_cmp_laws), E; done]).
Qed.

Lemma instances_sorted m l : StronglySorted inst_le (module_instances m l).
Proof. apply (StronglySorted_merge_sort inst_le). Qed.

Lemma sorted_last {A : Type} (R : A -> A -> Prop) l x : StronglySorted R (l ++ [x]) -> forall y, y ∈ l -> R y x.
Proof.
  induction l as [|z l IH]; intros Hs y Hy; [by apply not_elem_of_nil in Hy|]. cbn in Hs. apply StronglySorted_inv in Hs as [Hs Hz].
  apply elem_of_cons in Hy as [->|Hy]; [|by apply IH]. rewrite Forall_forall in Hz. apply Hz. set_solver.
Qed.

Lemma replica_before m n n' : text_cmp (lit (pretty (Z.to_N n))) (lit (pretty (Z.to_N n'))) = Lt -> text_cmp (replica_instance_id m n) (replica_instance_id m n') = Lt.
Proof. intros H. unfold replica_instance_id. by rewrite !text_cmp_app. Qed.

(** The last replica in the order of ids is the ninth, not the tenth. *)
Lemma ninth_is_last m r s9 : rt_ok r -> (forall s, s ∈ module_instances m (values (running_modules r)) -> primary s = false -> exists n, 1 <= n <= 10 /\ instance_id s = replica_instance_id m n) ->
  s9 ∈ module_instances m (values (running_modules r)) -> primary s9 = false -> instance_id s9 = replica_instance_id m 9 ->
  exists l, filter (λ s, primary s = false) (module_instances m (values (running_modules r))) = l ++ [s9].
Proof.
  intros Hok Hids H9 Hp9 Hi9. pose proof (instances_sorted m (values (running_modules r))) as Hs. pose proof (instances_ids m _ Hok) as Hnd.
  set (L := module_instances m (values (running_modules r))) in *. set (F := filter (λ s, primary s = false) L).
  assert (HsF : StronglySorted inst_le F) by (eapply strongly_sorted_sublist; [apply sublist_filter|done]).
  assert (HinF : s9 ∈ F) by by apply list_elem_of_filter.
  destruct (exists_last (l := F)) as (F' & x & HF); [by intros E; rewrite E in HinF; apply not_elem_of_nil in HinF|]. exists F'. rewrite HF. f_equal. f_equal.
  assert (Hx : x ∈ L /\ primary x = false).
  { assert (x ∈ F) as [? ?]%list_elem_of_filter; [|done]. rewrite HF. set_solver. }
  assert (HndF : NoDup (instance_id <$> F)) by (eapply sublist_NoDup; [exact Hnd|apply fmap_sublist, sublist_filter]).
  rewrite HF in HsF, HinF, HndF. apply elem_of_app in HinF as [HinF|HinF]; [|apply list_elem_of_singleton in HinF; by subst]. exfalso.
  assert (Hle : inst_le s9 x) by by apply (sorted_last inst_le F' x HsF).
  unfold inst_le in Hle. rewrite Hp9, (proj2 Hx) in Hle. cbn in Hle. apply Hle.
  destruct (Hids x (proj1 Hx) (proj2 Hx)) as (n & Hn & Hix).
  assert (n <> 9).
  { intros ->. rewrite fmap_app in HndF. apply NoDup_app in HndF as (_ & Hd & _). apply (Hd (instance_id s9)); [by apply list_elem_of_fmap_2|].
    apply list_elem_of_singleton. cbn. congruence. }
  rewrite (cmp_opp _ text_cmp_laws), Hi9, Hix. rewrite (replica_before m n 9); [done|].
  assert (n = 1 \/ n = 2 \/ n = 3 \/ n = 4 \/ n = 5 \/ n = 6 \/ n = 7 \/ n = 8 \/ n = 10) as Hcases by lia.
  repeat destruct Hcases as [->|Hcases]; try reflexivity. by subst.
Qed.

Lemma replica_state (m : text) n r s : rt_ok r -> (58 ∉ m) -> running_modules r !! replica_instance_id m n = Some s ->
  primary s = false /\ module_id s = m /\ instance_id s = replica_instance_id m n.
Proof.
  intros Hok Hm Hs. pose proof (Hok _ _ Hs) as Hpl. pose proof (placed_owner _ _ Hpl) as Ho. rewrite owner_replica in Ho by done. injection Ho as Ho.
  destruct Hpl as (Hi & _ & Hp). split_and!; [|done|done]. destruct (primary s); [|done]. exfalso. symmetry in Hp. rewrite <- Ho in Hp. by apply primary_not_replica in Hp.
Qed.

Lemma stop_instance_works m i r s : kills_work ans -> running_modules r !! i = Some s ->
  exists r', stop_instance_by_id ans m i r = (Ok tt, r') /\ running_modules r' = delete i (running_modules r).
Proof.
  intros Hk Hs. destruct (stop_kind_works ans (kind s) (set_running r (delete i (running_modules r))) Hk) as (r' & Hst & Hr & _).
  exists r'. split; [|done]. unfold stop_instance_by_id, bindr, remove_running. by rewrite Hs.
Qed.

(** With ten instances, replacing one of them drops another: the surge
    instance is replica 10, whose id sorts before that of replica 2, so
    returning to ten instances stops replica 9 and keeps the surge instance,
    although every kill works. *)
Theorem surge_stops_older_replica c r s9 : let m := c_module_id c in
  kills_work ans -> rt_ok r -> (58 ∉ m) -> count m (running_modules r) = 11%nat ->
  (forall s, s ∈ module_instances m (values (running_modules r)) -> primary s = false -> exists n, 1 <= n <= 10 /\ instance_id s = replica_instance_id m n) ->
  running_modules r !! replica_instance_id m 9 = Some s9 ->
  exists l r', reconcile_instances ans c 10 r = (Ok l, r') /\ running_modules r' = delete (replica_instance_id m 9) (running_modules r).
Proof.
  intros m Hk Hok Hm Hc Hids H9. destruct (replica_state m 9 r s9 Hok Hm H9) as (Hp9 & Hm9 & Hi9).
  assert (Hin9 : s9 ∈ module_instances m (values (running_modules r))) by (apply instances_elem; eauto).
  destruct (ninth_is_last m r s9 Hok Hids Hin9 Hp9 Hi9) as [F HF].
  pose proof (surplus_ids r m 1) as Hsur. rewrite HF, rev_app_distr in Hsur. cbn [rev app take fmap list_fmap] in Hsur. rewrite Hi9 in Hsur.
  pose proof (list_instances_length m r) as Hli. rewrite Hc, decide_False in Hli by done.
  destruct (stop_instance_works m _ r s9 Hk H9) as (r1 & Hst & Hr1).
  set (L := (λ s, mkInstance (instance_id s) (primary s) (info_from_state r s)) <$> module_instances m (values (running_modules r))) in *.
  assert (HL : length L = 11%nat) by (unfold L; rewrite length_fmap, <- Hc; unfold module_instances, count; by rewrite (merge_sort_Permutation inst_le)).
  assert (Hlist : list_instances m r = (Ok L, r)) by (rewrite (surjective_pairing (list_instances m r)), Hli, list_instances_state; done).
  assert (Hbody : forall r', save_state ans r1 = (Ok tt, r') -> running_modules r' = running_modules r1 ->
    exists l, list_instances m r' = (Ok l, r')).
  { intros r' _ Hr'. pose proof (list_instances_length m r') as Hx. rewrite Hr', Hr1, decide_False in Hx.
    - eexists. rewrite (surjective_pairing (list_instances m r')), Hx, list_instances_state. done.
    - pose proof (count_delete m _ _ _ H9 Hm9). lia. }
  assert (Hsave : exists r', save_state ans r1 = (Ok tt, r') /\ running_modules r' = running_modules r1).
  { unfold save_state, bindr, answer, modify. eexists. split; [done|]. cbn. by destruct (a_save _). }
  destruct Hsave as (r2 & Hs2 & Hr2). destruct (Hbody r2 Hs2 Hr2) as [l Hl].
  exists l, r2. split; [|congruence]. unfold reconcile_instances. fold m.
  rewrite (bindr_ok _ _ r L r) by by rewrite Hlist. rewrite HL.
  change (Nat.eqb 11 0) with false. change (Nat.ltb 11 10) with false. change (Nat.ltb 10 11) with true. cbv iota.
  erewrite bindr_ok; [by erewrite bindr_ok by exact Hs2|]. erewrite bindr_ok by exact Hlist. change (11 - 10)%nat with 1%nat. rewrite Hsur.
  cbn [each]. by erewrite bindr_ok by exact Hst.
Qed.
End Surge.

(** ** A restart of the host *)

Section Reattach.
Context `{VT : VersionText} (ans : nat -> Answers).

(** What is left of an instance: its environment is not stored and its start
    is rounded to seconds. *)
Definition reattached (s : RunningModuleState) : RunningModuleState :=
  mkRunning (instance_id s) (module_id s) (version s) (port s) (started_at s / 1000000000 * 1000000000) (restart_count s) (log_file s) None (primary s) (kind s).

Lemma drop_while_nil p s : drop_while p s = [] -> Forall (λ c, p c = true) s.
Proof. intros H. destruct (drop_while_suffix p s) as (pre & Hs & Hpre). rewrite H, app_nil_r in Hs. by rewrite Hs. Qed.

Lemma trim_blank s : trim s = [] -> Forall (λ c, is_whitespace c = true) s.
Proof.
  unfold trim, trim_end, trim_start. intros H. destruct (drop_while is_whitespace (rev (drop_while is_whitespace s))) as [|c l] eqn:E.
  - apply drop_while_nil in E. destruct (drop_while_suffix is_whitespace s) as (pre & Hs & Hpre). rewrite Hs. apply Forall_app. split; [done|].
    apply Forall_forall. intros c Hc. rewrite Forall_forall in E. apply E. apply list_elem_of_In, in_rev. rewrite rev_involutive. by apply list_elem_of_In.
  - cbn in H. by apply app_nil in H as [_ ?].
Qed.

Lemma placed_not_blank k s m : placed k s -> default_persisted_id m k = k.
Proof.
  intros Hpl. unfold default_persisted_id. rewrite bool_decide_eq_false_2; [done|]. intros H%trim_blank.
  assert (Hc : 58 ∈ k).
  { destruct Hpl as (_ & _ & Hk). destruct (primary s).
    - subst k. unfold primary_instance_id. set_solver.
    - destruct Hk as (n & _ & ->). unfold replica_instance_id, REPLICA_MARK. set_solver. }
  rewrite Forall_forall in H. by specialize (H _ Hc).
Qed.

Context (Hver : forall v, parse_version (show_version v) = Some v).

Lemma reattach_one installed mok p r s : placed (instance_id s) s -> from_running_state s = Some p -> mok (module_id s) = Some (module_id s) ->
  (reattach_running_module installed p mok r).2 =
  match installed (module_id s) with
  | Ok (Some _) => set_running r (<[instance_id s := reattached s]> (running_modules r))
  | _ => r
  end.
Proof.
  intros Hpl Hp Hm. unfold from_running_state in Hp. destruct (kind s) as [pid|] eqn:Ek; [|done]. injection Hp as <-.
  unfold reattach_running_module. cbn. rewrite Hm, Hver, (placed_not_blank _ _ _ Hpl). unfold reattached. rewrite Ek.
  destruct (installed (module_id s)) as [[?|]|]; done.
Qed.

(** Which instances a new host takes over. *)
Definition takes_over (installed : text -> result (option Version) text) (live : gset Z) (s : RunningModuleState) : bool :=
  match kind s with
  | Process pid => bool_decide (pid ∈ live) && match installed (module_id s) with Ok (Some _) => true | _ => false end
  | StaticSite _ => false
  end.
Definition take_over (installed : text -> result (option Version) text) (live : gset Z) (m : gmap text RunningModuleState) (s : RunningModuleState) : gmap text RunningModuleState :=
  if takes_over installed live s then <[instance_id s := reattached s]> m else m.

Lemma reattach_list installed mok (states : list RunningModuleState) r :
  Forall (λ s, placed (instance_id s) s /\ mok (module_id s) = Some (module_id s)) states ->
  let f : PersistedModuleState -> RtM unit := λ p r, if bool_decide (p_pid p ∈ alive r) then (Ok tt, (reattach_running_module installed p mok r).2) else (Ok tt, r) in
  (each (omap from_running_state states) f r).2 = set_running r (foldl (take_over installed (alive r)) (running_modules r) states).
Proof.
  intros Hst f. revert r. induction Hst as [|s states [Hpl Hm] _ IH]; intros r; [by destruct r|]. cbn [omap list_omap foldl].
  unfold take_over at 2, takes_over. destruct (from_running_state s) as [p|] eqn:Ep.
  2: { unfold from_running_state in Ep. destruct (kind s); [done|]. apply IH. }
  pose proof Ep as Hk. unfold from_running_state in Hk. destruct (kind s) as [pid|] eqn:Ek; [|done]. injection Hk as Hk.
  assert (Hpid : p_pid p = pid) by by rewrite <- Hk.
  assert (Hf : f p r = (Ok tt, set_running r (if bool_decide (pid ∈ alive r) && match installed (module_id s) with Ok (Some _) => true | _ => false end
    then <[instance_id s := reattached s]> (running_modules r) else running_modules r))).
  { unfold f. rewrite Hpid. case_bool_decide; cbn [andb]; [|by destruct r]. rewrite (reattach_one installed mok p r s Hpl Ep Hm).
    destruct (installed (module_id s)) as [[v|]|]; [done|by destruct r|by destruct r]. }
  change (each (p :: omap from_running_state states) f) with (f p >> each (omap from_running_state states) f).
  rewrite (bindr_ok _ _ _ _ _ Hf), IH. done.
Qed.

Lemma take_over_lookup (installed : text -> result (option Version) text) (live : gset Z) (states : list RunningModuleState) (m : gmap text RunningModuleState) k t : NoDup (instance_id <$> states) ->
  (forall s, s ∈ states -> m !! instance_id s = None) ->
  foldl (take_over installed live) m states !! k = Some t <->
  m !! k = Some t \/ exists s, s ∈ states /\ instance_id s = k /\ takes_over installed live s = true /\ t = reattached s.
Proof.
  revert m. induction states as [|s states IH]; intros m Hnd Hm; cbn [foldl]; [set_solver|]. rewrite fmap_cons in Hnd. apply NoDup_cons in Hnd as [Hs Hnd].
  assert (Hne : forall s', s' ∈ states -> instance_id s' <> instance_id s) by (intros s' Hs' E; apply Hs; rewrite <- E; by apply list_elem_of_fmap_2).
  unfold take_over at 2. destruct (takes_over installed live s) eqn:Et; (rewrite IH; [|done|]).
  - rewrite lookup_insert_Some. setoid_rewrite elem_of_cons. split.
    + intros [[[<- <-]|[? ?]]|(s' & ? & ? & ? & ?)]; eauto 10.
    + intros [H|(s' & [->|Hin] & Hk & Htk & ->)]; [left; right; split; [intros <-; rewrite (Hm s) in H by left; done|done]|left; left; by subst|eauto 10].
  - intros s' Hs'. rewrite lookup_insert_ne by (apply not_eq_sym; by apply Hne). apply Hm. by right.
  - setoid_rewrite elem_of_cons. split; [intros [?|(s' & ? & ? & ? & ?)]; eauto 10|].
    intros [?|(s' & [->|?] & ? & ? & ?)]; [by left|congruence|eauto 10].
  - intros s' Hs'. apply Hm. by right.
Qed.

(** A restarted host takes over exactly the processes that are still
    alive and whose modules are still installed: after a save by the old
    runtime, the new one's instances are those, each with its id, module,
    version, port, restart count, log and process, without its environment and
    with its start rounded down to the second.  Static sites are not taken
    over. *)
Theorem restart_takes_over_live_processes r installed (mok : text -> option text) (live : gset Z) (r0 := set_alive (mkRt ∅ ∅ ∅ (Some (omap from_running_state (values (running_modules r)))) 0) live) :
  rt_ok r -> (forall k s, running_modules r !! k = Some s -> mok (module_id s) = Some (module_id s)) ->
  a_save (ans (calls r)) = Saved ->
  state_file (save_state ans r).2 = state_file r0
  /\ forall k t, running_modules (load_state installed mok r0).2 !! k = Some t <->
       exists s, running_modules r !! k = Some s /\ takes_over installed live s = true /\ t = reattached s.
Proof.
  intros Hok Hmok Hsave. split; [unfold save_state, bindr, answer, modify; cbn; by rewrite Hsave|].
  intros k t.
  assert (Hall : Forall (λ s, placed (instance_id s) s /\ mok (module_id s) = Some (module_id s)) (values (running_modules r))).
  { apply Forall_forall. intros s (k' & Hk)%values_elem. destruct (Hok _ _ Hk) as [Hi Hp]. rewrite Hi. split; [by apply Hok|by eapply Hmok]. }
  assert (Hl : (load_state installed mok r0).2 = set_running r0 (foldl (take_over installed live) ∅ (values (running_modules r)))).
  { unfold load_state. erewrite bindr_ok by reflexivity. exact (reattach_list installed mok (values (running_modules r)) r0 Hall). }
  rewrite Hl. cbn [running_modules set_running].
  rewrite take_over_lookup.
  - rewrite lookup_empty. split.
    + intros [?|(s & (k' & Hk)%values_elem & Hi & Ht & ->)]; [done|]. exists s. destruct (Hok _ _ Hk) as [Hik _]. split_and!; [congruence|done|done].
    + intros (s & Hs & Ht & ->). right. exists s. split_and!; [apply values_elem; eauto| |done|done]. by destruct (Hok _ _ Hs) as [? _].
  - rewrite values_ids by done. apply NoDup_fst_map_to_list.
  - intros. apply lookup_empty.
Qed.
End Reattach.

(** ** Static sites and binaries *)

Lemma head_omap_some {A B : Type} (f : A -> option B) l b : head (omap f l) = Some b -> exists a, a ∈ l /\ f a = Some b.
Proof.
  induction l as [|a l IH]; cbn; [done|]. destruct (f a) as [b'|] eqn:E; [intros [= ->]; exists a; split; [left|done]|].
  intros (a' & Ha & Hf)%IH. exists a'. split; [by right|done].
Qed.

Lemma profile_of_root fs root idx p : build_profile_from_root fs root idx = Some p ->
  is_file fs (index_file p) = true /\ index_file p = join_path fs (asset_root p) idx.
Proof.
  unfold build_profile_from_root. destruct (negb (is_dir fs root)); [done|]. destruct (is_file fs (join_path fs root idx)) eqn:E; [intros [= <-]; by split|].
  destruct (_ && _) eqn:Eb; [apply andb_true_iff in Eb as [_ Eb]; intros [= <-]; by split|].
  intros ([[n path] dir] & _ & H)%head_omap_some. unfold nested_index in H. destruct (dir && is_file fs (join_path fs path idx)) eqn:En; [|done]. apply andb_true_iff in En as [_ En]. injection H as <-; by split.
Qed.

(** What the runtime decides to run exists: the index file of a static
    site it selects, from the manifest or by discovery, is a file (and lies in
    the served root unless the manifest names it), and a binary it selects is
    an executable file of this system or a script. *)
Theorem selected_site_or_binary_exists fs os module_path m :
  (forall mf p, static_profile_from_manifest fs module_path mf = Ok (Some p) -> is_file fs (index_file p) = true)
  /\ (forall p, discover_static_profile fs module_path = Some p -> is_file fs (index_file p) = true /\ index_file p = join_path fs (asset_root p) (lit "index.html"))
  /\ (forall b, locate_process_binary fs os module_path m = Ok (Some b) ->
        b ∈ binary_candidates fs module_path m /\ is_file fs b = true /\ (exists md, mode_of fs b = Some md /\ Z.land md 73 <> 0)
        /\ (classify_executable fs os b = Compatible \/ classify_executable fs os b = Script)).
Proof.
  split_and!.
  - intros mf p. unfold static_profile_from_manifest. destruct (static_site mf) as [cfg|]; [|done].
    destruct (entrypoint cfg ≫= _) as [e|]; [destruct (is_file fs _) eqn:E; [by intros [= <-]|done]|].
    case_bool_decide; [done|]. destruct (head _) as [p'|] eqn:E; [|done]. intros [= <-].
    apply head_omap_some in E as (root & _ & E). destruct (non_blank root); [|done]. by apply profile_of_root in E as [? _].
  - intros p (c & _ & H)%head_omap_some. by apply profile_of_root in H.
  - intros b. unfold locate_process_binary. generalize (binary_candidates fs module_path m). induction l as [|c l IH]; cbn [first_binary]; [done|].
    assert (Hrest : first_binary fs os l = Ok (Some b) -> b ∈ c :: l /\ is_file fs b = true /\ (exists md, mode_of fs b = Some md /\ Z.land md 73 <> 0)
      /\ (classify_executable fs os b = Compatible \/ classify_executable fs os b = Script)) by (intros (? & ?)%IH; split; [by right|done]).
    destruct (is_file fs c) eqn:Ef; [|done]. destruct (mode_of fs c) as [md|] eqn:Em; [|done]. destruct (Z.eqb_spec (Z.land md 73) 0); [done|].
    destruct (classify_executable fs os c) eqn:Ec; cbn [negb]; try done; intros [= <-]; (split_and!; [left|done|by exists md|auto]).
Qed.

(** ** Witnesses *)

#[local] Instance demo_versions : VersionText := {|
  show_version v := major v :: minor v :: patch v :: Z.of_nat (length (pre v)) :: pre v ++ build v;
  parse_version t :=
    match t with
    | a :: b :: c :: n :: rest => Some (mkVersion a b c (take (Z.to_nat n) rest) (drop (Z.to_nat n) rest))
    | _ => None
    end |}.
Lemma demo_versions_law v : parse_version (show_version v) = Some v.
Proof. destruct v as [a b c p q]. cbn. by rewrite Nat2Z.id, take_app_length, drop_app_length. Qed.

Definition shop : text := lit "shop".
Definition demo_version : Version := mkVersion 1 0 0 [] [].
Definition demo_fs : Fs := mkFs (λ a b, a ++ lit "/" ++ b) (λ _, None) (λ p, bool_decide (p = lit "/m/shop")) (λ _, false) (λ _, None)
  (λ _, Some 493) (λ _, Some [0x7F; 69; 76; 70]).
Definition demo_facts (n : nat) : StartFacts :=
  mkFacts (Ok (Some (demo_version, lit "/m"))) None [] (Ok tt) (Ok tt) (Ok tt) demo_fs Linux None (Ok 9000) 7 (Ok tt) (Ok (100 + Z.of_nat n)) 1700000000.
Definition demo_ans (kill : KillFacts) (n : nat) : Answers := mkAnswers (demo_facts n) kill Saved.
Definition good_kill : KillFacts := mkKill true false true true.
Definition bad_kill : KillFacts := mkKill false false false false.
Definition empty_rt : Rt := mkRt ∅ ∅ ∅ None 0.
Definition shop_config : ModuleStartConfig := mkStartConfig shop (Some 8080) [] true.
Definition shop_rt : Rt := run_op (demo_ans good_kill) empty_rt (OpStart shop_config).

Lemma shop_no_colon : 58 ∉ shop.
Proof. apply (bool_decide_unpack (58 ∉ shop)). vm_compute. exact I. Qed.
Lemma demo_ok : rt_ok empty_rt.
Proof. apply map_Forall_empty. Qed.
Lemma shop_ok : rt_ok shop_rt.
Proof. apply (run_op_ok (demo_ans good_kill) empty_rt (OpStart shop_config)); [|apply demo_ok]. intros m [= <-]. apply shop_no_colon. Qed.

Lemma runtime_instances_well_placed_witness :
  rt_ok (foldl (run_op (demo_ans good_kill)) empty_rt [OpStart shop_config; OpReconcile shop_config 3; OpCrash 100; OpRestart shop])
  /\ count shop (running_modules (foldl (run_op (demo_ans good_kill)) empty_rt [OpStart shop_config; OpReconcile shop_config 3; OpCrash 100; OpRestart shop])) = 3%nat.
Proof.
  split; [|vm_compute; reflexivity].
  apply (runtime_instances_well_placed (demo_ans good_kill) empty_rt [OpStart shop_config; OpReconcile shop_config 3; OpCrash 100; OpRestart shop]); [|apply demo_ok].
  intros o m Ho. assert (Hall : Forall (λ o, op_module o = Some shop \/ op_module o = None) [OpStart shop_config; OpReconcile shop_config 3; OpCrash 100; OpRestart shop])
    by (repeat constructor; auto). rewrite Forall_forall in Hall. destruct (Hall o Ho) as [-> | ->]; [intros [= <-]; apply shop_no_colon|done].
Defined.

Lemma reconcile_reaches_desired_witness :
  exists l r', reconcile_instances (demo_ans good_kill) shop_config 3 shop_rt = (Ok l, r') /\ length l = 3%nat.
Proof.
  destruct (reconcile_instances (demo_ans good_kill) shop_config 3 shop_rt) as [[l|e] r'] eqn:E.
  - exists l, r'. split; [done|]. apply (reconcile_reaches_desired (demo_ans good_kill) shop_config 3 shop_rt l r'); [apply shop_ok|apply shop_no_colon|lia| | |exact E].
    + vm_compute. lia.
    + vm_compute. discriminate.
  - exfalso. assert (Ho : is_ok (reconcile_instances (demo_ans good_kill) shop_config 3 shop_rt).1 = true) by (vm_compute; reflexivity). by rewrite E in Ho.
Defined.

(** Beside the shop a process runs that no instance owns. *)
Definition stray_rt : Rt := set_alive shop_rt ({[7]} ∪ alive shop_rt).
Lemma stray_ok : rt_ok stray_rt.
Proof. pose proof shop_ok as H. unfold stray_rt, rt_ok in *. generalize dependent shop_rt. intros r H. exact H. Qed.
Definition restarted_rt : Rt := run_op (demo_ans good_kill) stray_rt (OpRestart shop).
Lemma no_process_is_lost_witness : stray restarted_rt 7 /\ (stray stray_rt 7 \/ foreign_restart stray_rt (OpRestart shop) 7).
Proof.
  assert (Hst : stray restarted_rt 7).
  { split; [by apply (bool_decide_unpack (7 ∈ alive restarted_rt)); vm_compute|]. intros (k & s & Hk & Hkind).
    assert (Hin : s ∈ values (running_modules restarted_rt)) by (apply values_elem; eauto).
    assert (Hall : forallb (λ s, match kind s with Process pid => negb (pid =? 7) | _ => true end) (values (running_modules restarted_rt)) = true) by (vm_compute; reflexivity).
    apply list_elem_of_In in Hin. pose proof (proj1 (forallb_forall _ _) Hall s Hin) as Hs. clear Hk Hin Hall. cbv beta in Hs. rewrite Hkind in Hs. discriminate Hs. }
  split; [exact Hst|]. unfold restarted_rt in Hst.
  refine (no_process_is_lost (demo_ans good_kill) stray_rt (OpRestart shop) _ stray_ok _ _ 7 Hst).
  - intros n. split; reflexivity.
  - intros m [= <-]. apply shop_no_colon.
  - intros c n E. discriminate E.
Defined.

Definition shop_state : RunningModuleState :=
  mkRunning (lit "shop:primary") shop demo_version (Some 8080) 1700000000 0 (lit "shop.log") (Some []) true (Process 100).
Lemma failed_stop_loses_process_witness : exists r', stop (demo_ans bad_kill) shop shop_rt = (Err (StopFailed (lit "unknown") (lit "kill failed")), r') /\ stray r' 100.
Proof.
  destruct (failed_stop_loses_process (demo_ans bad_kill) shop_rt shop shop_state 100) as (r' & Hs & Hstray & _).
  - apply shop_ok.
  - apply shop_no_colon.
  - vm_compute. reflexivity.
  - reflexivity.
  - apply elem_of_elements. vm_compute. by left.
  - intros k s Hk _. assert (Hin : s ∈ values (running_modules shop_rt)) by (apply values_elem; eauto). vm_compute in Hin.
    apply list_elem_of_In in Hin as [<-|[]]. reflexivity.
  - reflexivity.
  - reflexivity.
  - exists r'. split; [exact Hs|exact Hstray].
Defined.


Lemma restart_of_foreign_instance_loses_process_witness :
  exists r', restart_instance (demo_ans good_kill) (lit "web") (lit "shop:primary") shop_rt = (Err (NotRunning (lit "web")), r') /\ stray r' 100.
Proof.
  destruct (restart_of_foreign_instance_loses_process (demo_ans good_kill) shop_rt (lit "web") (lit "shop:primary") shop_state 100) as (r' & Hr & Hs & _).
  - vm_compute. reflexivity.
  - discriminate.
  - reflexivity.
  - apply elem_of_elements. vm_compute. by left.
  - intros k s Hk _. destruct (shop_ok k s Hk) as [<- _]. assert (Hin : s ∈ values (running_modules shop_rt)) by (apply values_elem; eauto). vm_compute in Hin.
    apply list_elem_of_In in Hin as [<-|[]]. reflexivity.
  - exists r'. split; [exact Hr|exact Hs].
Defined.

Definition many_rt : Rt := run_op (demo_ans good_kill) shop_rt (OpReconcile shop_config 11).
Lemma shop_op o : op_module o = Some shop -> forall m, op_module o = Some m -> 58 ∉ m.
Proof. intros -> m [= <-]. apply shop_no_colon. Qed.
Lemma many_ok : rt_ok many_rt.
Proof. unfold many_rt. exact (run_op_ok (demo_ans good_kill) shop_rt (OpReconcile shop_config 11) (shop_op (OpReconcile shop_config 11) eq_refl) shop_ok). Qed.
Lemma many_replicas s : s ∈ module_instances (c_module_id shop_config) (values (running_modules many_rt)) -> primary s = false ->
  exists n, 1 <= n <= 10 /\ instance_id s = replica_instance_id (c_module_id shop_config) n.
Proof.
  assert (H : forallb (λ s, primary s || existsb (λ n, bool_decide (instance_id s = replica_instance_id (c_module_id shop_config) n)) [1;2;3;4;5;6;7;8;9;10])
    (module_instances (c_module_id shop_config) (values (running_modules many_rt))) = true) by (vm_compute; reflexivity).
  rewrite forallb_forall in H. intros Hs Hp. specialize (H s (proj1 (list_elem_of_In _ _) Hs)). rewrite Hp in H. apply existsb_exists in H as (n & Hn & Hb).
  exists n. split; [|by apply bool_decide_eq_true in Hb]. apply list_elem_of_In in Hn.
  assert (Hr : Forall (λ n, 1 <= n <= 10) [1;2;3;4;5;6;7;8;9;10]) by (repeat constructor; lia). rewrite Forall_forall in Hr. by apply Hr.
Qed.
Lemma surge_stops_older_replica_witness : exists l r', reconcile_instances (demo_ans good_kill) shop_config 10 many_rt = (Ok l, r')
  /\ running_modules r' = delete (replica_instance_id (c_module_id shop_config) 9) (running_modules many_rt).
Proof.
  assert (Hc : count (c_module_id shop_config) (running_modules many_rt) = 11%nat) by (vm_compute; reflexivity).
  assert (Hs : bool_decide (is_Some (running_modules many_rt !! replica_instance_id (c_module_id shop_config) 9)) = true) by (vm_compute; reflexivity).
  apply bool_decide_eq_true in Hs as [s9 H9].
  exact (surge_stops_older_replica (demo_ans good_kill) shop_config many_rt s9 (λ _, conj eq_refl eq_refl) many_ok shop_no_colon Hc many_replicas H9).
Defined.

Definition old_file : option (list PersistedModuleState) := Some (omap from_running_state (values (running_modules shop_rt))).
Lemma restart_takes_over_live_processes_witness :
  running_modules (load_state (λ _, Ok (Some demo_version)) Some (set_alive (mkRt ∅ ∅ ∅ old_file 0) {[100]})).2 !! lit "shop:primary" = Some (reattached shop_state).
Proof.
  destruct (restart_takes_over_live_processes (demo_ans good_kill) demo_versions_law shop_rt (λ _, Ok (Some demo_version)) Some {[100]}) as [_ H].
  - apply shop_ok.
  - intros k s _. reflexivity.
  - reflexivity.
  - apply H. exists shop_state. split_and!; vm_compute; reflexivity.
Defined.
