(* ===== verification/Lifecycle.v ===== *)
(** * The life cycle of modules: [services/module/runtime.rs] and the
    quarantine and status operations of [services/module/service.rs]

    Starting, stopping, restarting and keeping modules running.  The runtime
    below is the interface [ModuleRuntimePort] (the trait of
    [domain/module/runtime.rs]), which [ProcessRuntime] implements; tokens,
    leases, ports and the service registry are those of [TokenExchange],
    [Ports] and [Registry].

    What a call learns from outside (storage, sockets, timeouts, environment,
    clocks) is its [Inputs].  The clock of the registry is read once per
    call; notes are reduced to their kind; the services a running module
    reports itself are left out, only the retries of reading them are
    recorded ([v_refreshes]). *)

From stdpp Require Import pretty.
From S2P Require Import Prelude StateError Text Manifests Roles Versions ServiceTokens Gateway Registry Ports TokenExchange ProcessRuntime.

#[local] Open Scope fenrir_scope.

(** ** The runtime port *)

Abbreviation RtError := ProcessRuntime.ModuleRuntimeError.

Class ModuleRuntimePort (R : Type) := {
  port_start : ModuleStartConfig -> SE R RtError ModuleRuntimeInfo;
  port_stop : text -> SE R RtError unit;
  port_status : text -> SE R RtError ModuleRuntimeInfo;
  port_list_running : SE R RtError (list ModuleRuntimeInfo);
  port_list_instances : text -> SE R RtError (list ModuleRuntimeInstanceInfo);
  port_restart_instance : text -> text -> SE R RtError ModuleRuntimeInfo;
  port_reconcile : ModuleStartConfig -> nat -> SE R RtError (list ModuleRuntimeInstanceInfo);
  port_env : text -> SE R RtError (list (text * text));
  (** the states the runtime can be in, and the module ids it takes *)
  port_inv : R -> Prop;
  port_id : text -> Prop;
}.

(** What the life cycle relies on. *)
Class ModuleRuntimePortLaws (R : Type) `{!ModuleRuntimePort R} : Prop := {
  status_pure m r : (port_status m r).2 = r;
  started_runs c r info r' : port_id (c_module_id c) -> port_inv r -> port_start c r = (Ok info, r') ->
    i_module_id info = c_module_id c /\ exists info', (port_status (c_module_id c) r').1 = Ok info' /\ i_status info' = Running;
  stopped_is_gone m r r' : port_inv r -> port_stop m r = (Ok tt, r') -> (port_status m r').1 = Err (NotRunning m);
  stop_needs_running m r : (port_status m r).1 = Err (NotRunning m) -> port_stop m r = (Err (NotRunning m), r);
}.

(** ** Data *)

Definition FAILURE_WINDOW_SECS : Z := 120.
Definition FAILURE_THRESHOLD : Z := 3.
Definition QUARANTINE_DURATION_SECS : Z := 300.
Definition PREFLIGHT_ARTIFACT_MISSING : text := lit "MODULE-PREFLIGHT-001".
Definition PREFLIGHT_PORT_UNAVAILABLE : text := lit "MODULE-PREFLIGHT-002".
Definition START_PREFLIGHT_TIMEOUT : text := lit "MODULE-SLO-001".
Definition START_TOKEN_TIMEOUT : text := lit "MODULE-SLO-002".
Definition START_RUNTIME_TIMEOUT : text := lit "MODULE-SLO-003".

Record ModuleHealth := mkHealth { failure_count : Z; last_failure : option Z; quarantined_until : option Z }.
Definition healthy : ModuleHealth := mkHealth 0 None None.

Inductive ModuleStartupTrigger := TAutostart | TEnsureRunning | TManualStart | TRestart.
Inductive PhaseStatus := PhaseSucceeded | PhaseFailed | PhaseSkipped.
Record PhaseReport := mkPhase { ph_phase : string; ph_status : PhaseStatus; ph_error_code : option text }.
Definition succeeded (phase : string) : PhaseReport := mkPhase phase PhaseSucceeded None.
Definition failed (phase : string) (code : option text) : PhaseReport := mkPhase phase PhaseFailed code.
Inductive StartupStatus := StartupSucceeded | StartupFailed.
Record StartupReport := mkReport { rp_module_id : text; rp_trigger : ModuleStartupTrigger; rp_status : StartupStatus; rp_phases : list PhaseReport }.

(** The part of an installed module that is looked at, and what
    [storage.load] answers. *)
Record Installed := mkInstalled { in_version : Version; in_path : text }.
Definition Loaded : Type := result (option Installed) text.

(** Readiness of an instance, with the last error. *)
Record RuntimeInstanceHealth := mkInstanceHealth { ready : bool; last_error : option string }.

Section Service.
Context {R : Type} `{RP : ModuleRuntimePort R}.

Record Service := mkService {
  v_rt : R;
  v_tokens : Exchange;
  v_health : gmap text ModuleHealth;
  v_registry : ServiceRegistry (D := string);
  v_ports : ModulePortAllocator;
  v_gateways : gmap text text;
  v_reports : gmap text StartupReport;
  v_overrides : gset text;
  v_refreshes : list text;
  v_instances : gmap text (gmap text RuntimeInstanceHealth);
}.
Definition with_rt (v : Service) x := mkService x (v_tokens v) (v_health v) (v_registry v) (v_ports v) (v_gateways v) (v_reports v) (v_overrides v) (v_refreshes v) (v_instances v).
Definition with_tokens (v : Service) x := mkService (v_rt v) x (v_health v) (v_registry v) (v_ports v) (v_gateways v) (v_reports v) (v_overrides v) (v_refreshes v) (v_instances v).
Definition with_health (v : Service) x := mkService (v_rt v) (v_tokens v) x (v_registry v) (v_ports v) (v_gateways v) (v_reports v) (v_overrides v) (v_refreshes v) (v_instances v).
Definition with_registry (v : Service) x := mkService (v_rt v) (v_tokens v) (v_health v) x (v_ports v) (v_gateways v) (v_reports v) (v_overrides v) (v_refreshes v) (v_instances v).
Definition with_ports (v : Service) x := mkService (v_rt v) (v_tokens v) (v_health v) (v_registry v) x (v_gateways v) (v_reports v) (v_overrides v) (v_refreshes v) (v_instances v).
Definition with_gateways (v : Service) x := mkService (v_rt v) (v_tokens v) (v_health v) (v_registry v) (v_ports v) x (v_reports v) (v_overrides v) (v_refreshes v) (v_instances v).
Definition with_reports (v : Service) x := mkService (v_rt v) (v_tokens v) (v_health v) (v_registry v) (v_ports v) (v_gateways v) x (v_overrides v) (v_refreshes v) (v_instances v).
Definition with_refreshes (v : Service) x := mkService (v_rt v) (v_tokens v) (v_health v) (v_registry v) (v_ports v) (v_gateways v) (v_reports v) (v_overrides v) x (v_instances v).
Definition with_instances (v : Service) x := mkService (v_rt v) (v_tokens v) (v_health v) (v_registry v) (v_ports v) (v_gateways v) (v_reports v) (v_overrides v) (v_refreshes v) x.

Definition LcM (A : Type) : Type := SE Service RtError A.

(** What one start learns from outside.  The declared services are read as
    none or some; [x_inject] is [inject_runtime_env] as a function of the
    environment, the port and the token; [x_gateway_alive] tells whether the
    task of a known gateway still runs; [x_cancelled] is the state a start of
    the runtime leaves that is cancelled by its timeout. *)
Record Inputs := mkInputs {
  x_now : Z;
  x_load : Loaded;
  x_declared : result bool text;
  x_available : Z -> bool;
  x_left1 : option PortFile; x_left2 : option PortFile; x_left3 : option PortFile;
  x_artifact : bool; x_bind_error : option text; x_preflight_timeout : bool;
  x_gateway_alive : bool; x_gateway : result text text;
  x_token_timeout : bool;
  x_reads : Reads;
  x_inject : list (text * text) -> option Z -> option (string * DelegatedTokenClaims) -> result (list (text * text)) text;
  x_cancelled : option R;
  x_failed_at : Z;
  x_revoke_elapsed : Z; x_revoke_now : Z;
  x_audit_now : Z;
  x_replicas : nat;
  x_refreshed : result bool text;
}.

(** ** Quarantine *)

Definition quarantine_deadline (m : text) (now : Z) (h : gmap text ModuleHealth) : option Z * gmap text ModuleHealth :=
  match h !! m with
  | Some e =>
      match quarantined_until e with
      | Some until =>
          if until <=? now then (None, <[m := mkHealth (failure_count e) (last_failure e) None]> h) else (Some until, h)
      | None => (None, h)
      end
  | None => (None, h)
  end.

Definition guard_quarantine (m : text) (now : Z) : LcM unit := λ v,
  match quarantine_deadline m now (v_health v) with
  | (Some until, h) => (Err (Quarantined m until), with_health v h)
  | (None, h) => (Ok tt, with_health v h)
  end.

(** [duration_since] is zero when the clock went back. *)
Definition record_failure (m : text) (now : Z) (h : gmap text ModuleHealth) : option Z * gmap text ModuleHealth :=
  let e := default healthy (h !! m) in
  let count := match last_failure e with
               | Some last => if seconds FAILURE_WINDOW_SECS <? Z.max 0 (now - last) then 0 else failure_count e
               | None => failure_count e
               end in
  let count := count + 1 in
  if FAILURE_THRESHOLD <=? count then
    let until := now + seconds QUARANTINE_DURATION_SECS in
    (Some until, <[m := mkHealth 0 (Some now) (Some until)]> h)
  else (None, <[m := mkHealth count (Some now) (quarantined_until e)]> h).

Definition clear_health (m : text) (h : gmap text ModuleHealth) : gmap text ModuleHealth :=
  match h !! m with Some _ => <[m := healthy]> h | None => h end.

(** ** Small operations *)

Definition service_id_of (m : text) : string := str_of (lit "module:" ++ m).
Definition update_module_service_status (m : text) (st : ServiceStatus) (note : string) (now : Z) : LcM unit :=
  modify (λ v, with_registry v (Registry.register (λ d : string, d) (v_registry v) (service_id_of m) st (Some note) now)).
Definition annotate_quarantine (m : text) (now : Z) : LcM unit := update_module_service_status m Registry.Failed "quarantined" now.

Definition store_startup_report (m : text) (t : ModuleStartupTrigger) (st : StartupStatus) (phases : list PhaseReport) : LcM unit :=
  modify (λ v, with_reports v (<[m := mkReport m t st phases]> (v_reports v))).

Definition is_unmanaged_module (m : text) : bool := false.
Definition is_dev_override_active (m : text) : LcM bool := gets (λ v, bool_decide (m ∈ v_overrides v)).

(** A gateway whose task runs is kept; otherwise one is spawned. *)
Definition ensure_gateway_endpoint (m : text) (alive : bool) (spawned : result text text) : LcM text := λ v,
  let spawn := match spawned with
               | Ok endpoint => (Ok endpoint, with_gateways v (<[m := endpoint]> (v_gateways v)))
               | Err e => (Err (StartFailed m e), v)
               end in
  match v_gateways v !! m with
  | Some endpoint => if alive then (Ok endpoint, v) else spawn
  | None => spawn
  end.
Definition stop_gateway_if_any (m : text) : LcM unit := modify (λ v, with_gateways v (delete m (v_gateways v))).

(** The code before the first colon of the reason, when it looks like one. *)
Definition error_code_for_runtime_error (e : RtError) : option text :=
  match e with
  | StartFailed _ reason =>
      let candidate := trim (default [] (head (split 58 reason))) in
      if bool_decide (candidate = []) then None
      else if forallb (λ c, is_ascii_upper c || is_ascii_digit c || (c =? 45)) candidate then Some candidate else None
  | _ => None
  end.

Definition run_start_preflight (m : text) (x : Inputs) (installed_path : text) (assigned : option Z) : result unit RtError :=
  if negb (x_artifact x) then Err (StartFailed m (PREFLIGHT_ARTIFACT_MISSING ++ lit ": installed artifact path missing (" ++ installed_path ++ lit ")"))
  else match assigned with
       | Some port =>
           match x_bind_error x with
           | None => Ok tt
           | Some e => Err (StartFailed m (PREFLIGHT_PORT_UNAVAILABLE ++ lit ": failed to reserve 127.0.0.1:" ++ lit (pretty (Z.to_N port)) ++ lit " (" ++ e ++ lit ")"))
           end
       | None => Ok tt
       end.

(** A call of the runtime; [attempt] gives its result as a value: the error
    is handled, not propagated. *)
Definition run_rt {A : Type} (c : SE R RtError A) : LcM A := λ v, let (res, r) := c (v_rt v) in (res, with_rt v r).
Definition attempt {A : Type} (c : LcM A) : LcM (result A RtError) := λ v, let (res, v) := c v in (Ok res, v).

Definition loaded (m : text) (l : Loaded) : result Installed RtError :=
  match l with Err e => Err (InvalidState e) | Ok None => Err (NotInstalled m) | Ok (Some i) => Ok i end.

Definition assign_port (m : text) (x : Inputs) : LcM (option Z) := λ v,
  let (a, res) := assigned_port (x_available x) (x_left1 x) (x_left2 x) (mkId m) (v_ports v) in
  (match res with Ok p => Ok p | Err (Ports.NoAvailablePorts a b) => Err (NoAvailablePorts a b) end, with_ports v a).
Definition record_port (m : text) (left : option PortFile) (port : option Z) : LcM unit :=
  match port with Some p => modify (λ v, with_ports v (record_assigned left (mkId m) p (v_ports v))) | None => ret tt end.

(** Only its call of the port allocator changes what is kept here. *)
Definition register_declared_services (m : text) (x : Inputs) : LcM unit :=
  let* dev := is_dev_override_active m in
  if dev : bool then ret tt
  else match x_declared x with
       | Err e => fail (InvalidState e)
       | Ok false => ret tt
       | Ok true => let* _ := attempt (assign_port m x) in ret tt
       end.

Definition issue_module_service_token (m : text) (rd : Reads) : LcM (option (string * DelegatedTokenClaims)) :=
  if is_unmanaged_module m then ret None
  else let* dev := is_dev_override_active m in
  if dev : bool then ret None
  else λ v, match issue_default_service_token (v_tokens v) (mkId m) rd with
            | (Ok t, x) => (Ok (Some t), with_tokens v x)
            | (Err _, x) => (Err (InvalidState (lit "service token store")), with_tokens v x)
            end.

(** A failed revocation is only logged. *)
Definition revoke_issued (token : option (string * DelegatedTokenClaims)) (reason : string) (x : Inputs) : LcM unit :=
  match token with
  | Some t => modify (λ v, with_tokens v (revoke_service_token (v_tokens v) t.1 reason (x_revoke_elapsed x) (x_revoke_now x)).2)
  | None => ret tt
  end.
Definition revoke_recorded (m : text) (reason : string) (elapsed now : Z) : LcM unit :=
  modify (λ v, with_tokens v (revoke_service_token_if_any (v_tokens v) (mkId m) reason elapsed now)).

(** The token is audited and its lease recorded. *)
Definition refresh_audit (t : string * DelegatedTokenClaims) (now : Z) : ModuleTokenAuditContext :=
  mkAudit (lit "module-runtime") None (format_requested_scope_list []) (format_granted_scope_list (scopes t.2))
    (Some (lit "service_token_refresh")) (token_expires_in_seconds t.2 now) Success None.
Definition record_issued (m : text) (token : option (string * DelegatedTokenClaims)) (now : Z) : LcM unit :=
  match token with
  | Some t => modify (λ v, with_tokens v (record_service_token (record_event (v_tokens v) (TokenExchanged m (refresh_audit t now))) (mkId m) t))
  | None => ret tt
  end.

(** A retry is scheduled unless the module is overridden or one is pending. *)
Definition schedule_manifest_refresh (m : text) : LcM unit :=
  let* dev := is_dev_override_active m in
  if dev : bool then ret tt
  else modify (λ v, if bool_decide (m ∈ v_refreshes v) then v else with_refreshes v (v_refreshes v ++ [m])).
Definition refresh_or_schedule (m : text) (refreshed : result bool text) : LcM unit :=
  match refreshed with Ok true => ret tt | _ => schedule_manifest_refresh m end.

(** ** Starting *)

(** A phase that fails: the module's entry, the report, the error. *)
Definition fail_start {A : Type} (m : text) (t : ModuleStartupTrigger) (phases : list PhaseReport) (e : RtError) : LcM A :=
  store_startup_report m t StartupFailed phases >> fail e.
Definition mark_failed (m : text) (now : Z) : LcM unit := update_module_service_status m Registry.Failed "start failed" now.

Definition is_running (st : result ModuleRuntimeInfo RtError) : bool :=
  match st with Ok info => bool_decide (i_status info = Running) | Err _ => false end.

(** Up to the port: [None] when the module is overridden. *)
Definition accept_start (config : ModuleStartConfig) (x : Inputs) : LcM (option (option Z)) :=
  let m := c_module_id config in
  register_declared_services m x >>
  let* dev := is_dev_override_active m in
  if dev : bool then ret None
  else let* st := attempt (run_rt (port_status m)) in
  if is_running st then fail (AlreadyRunning m)
  else guard_quarantine m (x_now x) >>
  match c_port config with
  | Some p => ret (Some (Some p))
  | None => let* p := assign_port m x in ret (Some p)
  end.

Definition preflight_phase (m : text) (t : ModuleStartupTrigger) (x : Inputs) (path : text) (assigned : option Z) : LcM (list PhaseReport) :=
  let now := x_now x in
  if x_preflight_timeout x then
    mark_failed m now >> fail_start m t [failed "preflight" (Some START_PREFLIGHT_TIMEOUT)]
      (StartFailed m (START_PREFLIGHT_TIMEOUT ++ lit ": preflight phase exceeded"))
  else match run_start_preflight m x path assigned with
       | Ok _ => ret [succeeded "preflight"]
       | Err e => mark_failed m now >> fail_start m t [failed "preflight" (error_code_for_runtime_error e)] e
       end.

(** The issue itself does not wait, so a timeout strikes before it. *)
Definition token_phase (m : text) (t : ModuleStartupTrigger) (x : Inputs) (phases : list PhaseReport)
    : LcM (option (string * DelegatedTokenClaims) * list PhaseReport) :=
  let now := x_now x in
  let refuse code e := mark_failed m now >> stop_gateway_if_any m >> fail_start m t (phases ++ [failed "service_token" code]) e in
  if x_token_timeout x then
    refuse (Some START_TOKEN_TIMEOUT) (StartFailed m (START_TOKEN_TIMEOUT ++ lit ": token issuance exceeded"))
  else let* token := attempt (issue_module_service_token m (x_reads x)) in
  match token with
  | Ok token => ret (token, phases ++ [succeeded "service_token"])
  | Err e => refuse (error_code_for_runtime_error e) e
  end.

Definition GATEWAY_ENV : text := lit "FENRIR_GATEWAY_ENDPOINT".
Definition runtime_config (config : ModuleStartConfig) (assigned : option Z) (env : list (text * text)) (endpoint : text) : ModuleStartConfig :=
  mkStartConfig (c_module_id config) assigned
    (filter (λ kv, negb (bool_decide (kv.1 = GATEWAY_ENV)) = true) env ++ [(GATEWAY_ENV, endpoint)]) (c_auto_restart config).

Definition note_failure (m : text) (x : Inputs) (e : RtError) : LcM RtError := λ v,
  match record_failure m (x_failed_at x) (v_health v) with
  | (Some until, h) => (annotate_quarantine m (x_now x) >> ret (Quarantined m until)) (with_health v h)
  | (None, h) => (Ok e, with_health v h)
  end.

Definition runtime_phase (rc : ModuleStartConfig) (t : ModuleStartupTrigger) (x : Inputs) (token : option (string * DelegatedTokenClaims)) (phases : list PhaseReport)
    : LcM (ModuleRuntimeInfo * list PhaseReport) :=
  let m := c_module_id rc in
  let now := x_now x in
  match x_cancelled x with
  | Some r =>
      modify (λ v, with_rt v r) >> stop_gateway_if_any m >>
      let* _ := attempt (run_rt (port_stop m)) in
      revoke_issued token "module-start-timeout" x >> mark_failed m now >>
      fail_start m t (phases ++ [failed "runtime_start" (Some START_RUNTIME_TIMEOUT)]) (StartFailed m (START_RUNTIME_TIMEOUT ++ lit ": runtime start exceeded"))
  | None =>
      let* res := attempt (run_rt (port_start rc)) in
      match res with
      | Ok info => modify (λ v, with_health v (clear_health (i_module_id info) (v_health v))) >> ret (info, phases ++ [succeeded "runtime_start"])
      | Err e =>
          stop_gateway_if_any m >>
          let* final := note_failure m x e in
          revoke_issued token "module-start-failed" x >> mark_failed m now >>
          fail_start m t (phases ++ [failed "runtime_start" (error_code_for_runtime_error e)]) final
      end
  end.

Definition finish_start (rc : ModuleStartConfig) (t : ModuleStartupTrigger) (x : Inputs) (token : option (string * DelegatedTokenClaims))
    (info : ModuleRuntimeInfo) (phases : list PhaseReport) : LcM ModuleRuntimeInfo :=
  let m := i_module_id info in
  let now := x_now x in
  let desired := Nat.max (x_replicas x) 1 in
  let* reconciled := if (1 <? desired)%nat then attempt (run_rt (port_reconcile rc desired)) else ret (Ok []) in
  match reconciled with
  | Err e => mark_failed m now >> fail e
  | Ok _ =>
      record_issued m token (x_audit_now x) >>
      record_port m (x_left3 x) (i_port info) >>
      update_module_service_status m Active "running" now >>
      refresh_or_schedule m (x_refreshed x) >>
      store_startup_report m t StartupSucceeded phases >>
      ret info
  end.

(** From the environment on. *)
Definition start_issued (config : ModuleStartConfig) (t : ModuleStartupTrigger) (x : Inputs) (assigned : option Z) (endpoint : text)
    (issued : option (string * DelegatedTokenClaims) * list PhaseReport) : LcM ModuleRuntimeInfo :=
  let* env := lift (match x_inject x (c_env_vars config) assigned issued.1 with Ok env => Ok env | Err e => Err (InvalidState e) end) in
  let rc := runtime_config config assigned env endpoint in
  update_module_service_status (c_module_id config) Registry.Starting "starting" (x_now x) >>
  let* started := runtime_phase rc t x issued.1 issued.2 in
  finish_start rc t x issued.1 started.1 started.2.

Definition start_with_trigger (config : ModuleStartConfig) (t : ModuleStartupTrigger) (x : Inputs) : LcM ModuleRuntimeInfo :=
  let m := c_module_id config in
  let* installed := lift (loaded m (x_load x)) in
  if is_unmanaged_module m then ret (mkInfo m (in_version installed) ProcessRuntime.Stopped KindProcess None (c_port config) None (Some (x_now x)) 0)
  else let* accepted := accept_start config x in
  match accepted with
  | None => ret (mkInfo m (in_version installed) Running KindProcess None (c_port config) (Some (x_now x)) None 0)
  | Some assigned =>
      let* phases := preflight_phase m t x (in_path installed) assigned in
      let* endpoint := ensure_gateway_endpoint m (x_gateway_alive x) (x_gateway x) in
      let* issued := token_phase m t x phases in
      start_issued config t x assigned endpoint issued
  end.

(** ** Keeping modules running *)

Definition plain_config (m : text) (env : list (text * text)) (auto : bool) : ModuleStartConfig := mkStartConfig m None env auto.

(** [load] is what the first read of the storage answers; the start reads it
    again. *)
Definition ensure_running_with_trigger (m : text) (t : ModuleStartupTrigger) (load : Loaded) (x : Inputs) : LcM unit :=
  match load with
  | Err e => fail (InvalidState e)
  | Ok None => ret tt
  | Ok (Some _) =>
      if is_unmanaged_module m then ret tt
      else guard_quarantine m (x_now x) >>
      register_declared_services m x >>
      let* dev := is_dev_override_active m in
      if dev : bool then ret tt
      else let* st := attempt (run_rt (port_status m)) in
      let start := let* _ := start_with_trigger (plain_config m [] true) t x in ret tt in
      match st with
      | Ok info =>
          if bool_decide (i_status info = Running) then
            record_port m (x_left3 x) (i_port info) >>
            let* _ := attempt (ensure_gateway_endpoint m (x_gateway_alive x) (x_gateway x)) in
            update_module_service_status m Active "running" (x_now x) >>
            refresh_or_schedule m (x_refreshed x)
          else start
      | Err (NotRunning _) => start
      | Err e => fail e
      end
  end.
Definition ensure_running (m : text) : Loaded -> Inputs -> LcM unit := ensure_running_with_trigger m TEnsureRunning.
Definition start_module (m : text) : Inputs -> LcM ModuleRuntimeInfo := start_with_trigger (plain_config m [] true) TManualStart.

(** ** Stopping *)

Definition stop (m : text) (load : Loaded) (elapsed now : Z) : LcM unit :=
  let* dev := is_dev_override_active m in
  if is_unmanaged_module m || dev then ret tt
  else run_rt (port_stop m) >>
  match load with
  | Err e => fail (InvalidState e)
  | Ok l =>
      match l with Some _ => update_module_service_status m Registry.Stopped "stopped" now | None => ret tt end >>
      revoke_recorded m "module-stop" elapsed now >>
      modify (λ v, with_health v (clear_health m (v_health v))) >>
      stop_gateway_if_any m
  end.

(** Before an update or removal: errors of the runtime are only logged. *)
Definition stop_module_process (m : text) (elapsed now : Z) : LcM unit :=
  let* _ := attempt (run_rt (port_stop m)) in
  revoke_recorded m "module-stop" elapsed now >> stop_gateway_if_any m.

(** Each running module with the clocks of its revocation. *)
Definition stop_all_modules (clocks : text -> Z * Z) : LcM unit :=
  let* running := run_rt port_list_running in
  each running (λ info,
    let m := i_module_id info in
    let* _ := attempt (run_rt (port_stop m)) in
    revoke_recorded m "module-stop-all" (clocks m).1 (clocks m).2 >> stop_gateway_if_any m).

(** ** Restarting *)

Definition restart (m : text) (load : Loaded) (at_stop : Loaded) (elapsed now : Z) (x : Inputs) : LcM ModuleRuntimeInfo :=
  guard_quarantine m now >>
  let* installed := lift (loaded m load) in
  if is_unmanaged_module m then ret (mkInfo m (in_version installed) ProcessRuntime.Stopped KindProcess None None None (Some now) 0)
  else let* dev := is_dev_override_active m in
  if dev : bool then ret (mkInfo m (in_version installed) Running KindProcess None None None None 1)
  else let* st := attempt (run_rt (port_status m)) in
  let count := match st with Ok info => u32_saturating_add (i_restart_count info) 1 | Err _ => 0 end in
  update_module_service_status m Standby "draining for controlled restart" now >>
  stop m at_stop elapsed now >>
  let* info := start_with_trigger (plain_config m [] false) TRestart x in
  let info := set_restart_count info count in
  update_module_service_status m Active "running" (x_now x) >>
  ret info.

Definition update_instance_health (m i : text) (ok : bool) (error : option string) : LcM unit :=
  modify (λ v, with_instances v (<[m := <[i := mkInstanceHealth ok error]> (default ∅ (v_instances v !! m))]> (v_instances v))).
Definition update_if_routed (port : option Z) (m i : text) (ok : bool) (error : option string) : LcM unit :=
  match port with Some _ => update_instance_health m i ok error | None => ret tt end.

(** What the health checks of one replacement answer: of the surge instance,
    of the restarted one inside the replacement, of the restarted one after
    it.  A module without a port passes. *)
Record Probes := mkProbes { p_surge : result text text; p_restarted : result text text; p_after : result text text }.
Definition verify_module_rollout_health (port : option Z) (probe : result text text) : result text text :=
  match port with None => Ok (lit "restart completed without a routable runtime port") | Some _ => probe end.

Definition surge_replace_instance (m : text) (target : ModuleRuntimeInstanceInfo) (desired : nat) (env : list (text * text)) (p : Probes) : LcM ModuleRuntimeInfo :=
  let* before := run_rt (port_list_instances m) in
  let before_ids := n_instance_id <$> before in
  let* surged := run_rt (port_reconcile (plain_config m env false) (desired + 1)) in
  match find (λ i, negb (bool_decide (n_instance_id i ∈ before_ids))) surged with
  | None => fail (InvalidState (lit "failed to identify surge instance for module " ++ m))
  | Some surge =>
      match verify_module_rollout_health (i_port (n_runtime surge)) (p_surge p) with
      | Err e =>
          update_if_routed (i_port (n_runtime surge)) m (n_instance_id surge) false (Some "surge instance failed readiness") >>
          let* _ := attempt (run_rt (port_reconcile (plain_config m env false) desired)) in
          fail (InvalidState e)
      | Ok _ =>
          update_if_routed (i_port (n_runtime surge)) m (n_instance_id surge) true None >>
          update_if_routed (i_port (n_runtime target)) m (n_instance_id target) false (Some "instance draining for surge replacement") >>
          let* restarted := run_rt (port_restart_instance m (n_instance_id target)) in
          match verify_module_rollout_health (i_port restarted) (p_restarted p) with
          | Err e =>
              update_if_routed (i_port restarted) m (n_instance_id target) false (Some "restarted instance failed readiness") >>
              fail (InvalidState e)
          | Ok _ =>
              update_if_routed (i_port restarted) m (n_instance_id target) true None >>
              run_rt (port_reconcile (plain_config m env false) desired) >>
              ret restarted
          end
      end
  end.

Record RollingReport := mkRolling { rr_restarted : list ModuleRuntimeInstanceInfo; rr_health_verified : bool }.

(** The instances still to restart, each with its probes. *)
Fixpoint roll (m : text) (desired : nat) (env : list (text * text)) (abort : bool) (todo : list (ModuleRuntimeInstanceInfo * Probes)) (acc : RollingReport)
    : LcM RollingReport :=
  match todo with
  | [] => ret acc
  | (snapshot, p) :: todo =>
      let* info :=
        if (1 <? desired)%nat then surge_replace_instance m snapshot desired env p
        else update_if_routed (i_port (n_runtime snapshot)) m (n_instance_id snapshot) false (Some "single-instance restart in progress") >>
             run_rt (port_restart_instance m (n_instance_id snapshot)) in
      let verified := rr_health_verified acc && is_ok (verify_module_rollout_health (i_port info) (p_after p)) in
      let acc := mkRolling (rr_restarted acc ++ [mkInstance (n_instance_id snapshot) (n_primary snapshot) info]) verified in
      if negb verified && abort then ret acc else roll m desired env abort todo acc
  end.

Definition rolling_restart (m : text) (load : Loaded) (abort : bool) (probes : text -> Probes) : LcM RollingReport :=
  let* _ := lift (loaded m load) in
  let* snapshots := run_rt (port_list_instances m) in
  match snapshots with
  | [] => fail (NotRunning m)
  | _ =>
      let* env := attempt (run_rt (port_env m)) in
      roll m (length snapshots) (match env with Ok e => e | Err _ => [] end) abort
        ((λ s, (s, probes (n_instance_id s))) <$> snapshots) (mkRolling [] true)
  end.
End Service.
Arguments Service R : clear implicits.
Arguments LcM R A : clear implicits.
Arguments Inputs R : clear implicits.
