(* ===== verification/LifecycleSafety.v ===== *)
(** * What the life cycle guarantees

    The process runtime implements the port the life cycle relies on; the
    quarantine of failing modules; what a start, failed or not, and a stop
    leave behind.  Theorems about [Lifecycle]. *)

From S2P Require Import Prelude StateError Text Manifests Roles Versions ServiceTokens Registry Ports TokenExchange TokenExchangeSafety ProcessRuntime ProcessRuntimeSafety Lifecycle.

#[local] Open Scope fenrir_scope.

(** ** The process runtime is such a runtime *)

Section ProcessPort.
Context `{VT : VersionText} (ans : nat -> Answers).

Definition process_port : ModuleRuntimePort Rt := {|
  port_start := ProcessRuntime.start ans;
  port_stop := ProcessRuntime.stop ans;
  port_status := status;
  port_list_running := list_running;
  port_list_instances := list_instances;
  port_restart_instance := restart_instance ans;
  port_reconcile := reconcile_instances ans;
  port_env := env_of;
  port_inv := rt_ok;
  port_id m := 58 ∉ m
|}.

(** A start that succeeds gives an info of the module, and its instance runs. *)
Definition runs_after (m i : text) (c : RtM ModuleRuntimeInfo) : Prop :=
  forall r info r', c r = (Ok info, r') -> i_module_id info = m /\ exists s, running_modules r' = <[i := s]> (running_modules r) /\ module_id s = m /\ runs r' s.

Lemma register_then s (info : ModuleRuntimeInfo) r : exists f n, (insert_running s >> save_state ans >> ret info : RtM ModuleRuntimeInfo) r
  = (Ok info, mkRt (<[instance_id s := s]> (running_modules r)) (alive r) (serving r) f n).
Proof. unfold save_state, bindr, answer, modify, insert_running, ret. cbn. destruct (a_save _); eauto. Qed.

Lemma bindr_assoc_modify {A : Type} (f : Rt -> Rt) (k : RtM A) r : (modify f >> k) r = k (f r).
Proof. done. Qed.

Lemma start_specific_runs m i prim p e : runs_after m i (start_specific_instance ans m i prim p e).
Proof.
  apply start_specific_shape.
  - intros A c k Hq Hk r info r'. unfold bindr. destruct (Hq r) as [Hr _]. destruct (c r) as [[a|err] r1]; cbn in Hr; [|done].
    intros H%Hk. by rewrite <- Hr.
  - by intros err r info r'.
  - intros f v e' r info r'. unfold try_start_static_site. destruct (f_bind f) as [chosen|]; [|done]. rewrite bindr_assoc_modify.
    edestruct register_then as (f0 & n0 & ->). intros [= <- <-]. split; [done|]. eexists. split; [done|]. split; [done|]. unfold runs. cbn. set_solver.
  - intros f v p' e' r info r'. unfold spawn_process, lift. unfold bindr at 1. destruct (f_log_open f); [|done]. cbn [map_err].
    unfold bindr at 1. destruct (f_bootstrap f); [|done]. cbn [map_err]. unfold bindr at 1. destruct (f_spawn f) as [pid|]; [|done]. cbn [map_err].
    rewrite bindr_assoc_modify. edestruct register_then as (f0 & n0 & ->). intros [= <- <-]. split; [done|]. eexists. split; [done|]. split; [done|].
    unfold runs. cbn. set_solver.
Qed.

Lemma select_only (m i : text) (s : RunningModuleState) (mm : gmap text RunningModuleState) : of_module m (values mm) = [] -> mm !! i = None -> module_id s = m ->
  select_primary_instance m (values (<[i := s]> mm)) = Some s.
Proof.
  intros Hnil Hi Hm. pose proof (of_module_insert m i s mm Hi) as Hp. unfold of_module in Hp, Hnil. rewrite filter_cons_True, Hnil in Hp by done.
  apply Permutation_singleton_r in Hp. unfold select_primary_instance, of_module. by rewrite Hp.
Qed.

Lemma process_port_laws : @ModuleRuntimePortLaws Rt process_port.
Proof.
  split; cbn [port_start port_stop port_status port_inv port_id process_port].
  - intros m r. unfold status. by case_match.
  - intros c r info r' Hm Hok. unfold ProcessRuntime.start, all_states, bindr, gets, fail. destruct (select_primary_instance (c_module_id c) (values (running_modules r))) eqn:E; [done|].
    intros H%start_specific_runs. destruct H as (Hi & s & Hr & Hs & Hrun). split; [done|].
    unfold status. rewrite Hr, select_only by (done || by apply select_none || by apply primary_free). eexists. split; [done|].
    unfold info_from_state, runs in *. destruct (kind s); by rewrite bool_decide_eq_true_2.
  - intros m r r' Hok. unfold ProcessRuntime.stop, all_states, gets, fail. unfold bindr at 1. case_bool_decide as Hids; [done|].
    intros ([] & r1 & He & Hs)%bindr_ok_inv. apply each_stop_effect in He as [Hc _].
    + pose proof (save_running ans r1) as Hsr. rewrite Hs in Hsr. cbn in Hsr. unfold status. rewrite Hsr.
      assert (Hz : count m (running_modules r1) = 0%nat).
      { rewrite length_fmap in Hc. unfold module_instances in Hc. rewrite (merge_sort_Permutation inst_le) in Hc. unfold count in *. lia. }
      apply nil_length_inv in Hz. unfold select_primary_instance. by rewrite Hz.
    + by apply instances_ids.
    + intros i s (t & -> & Ht)%list_elem_of_fmap Hl. apply instances_elem in Ht as (Hm & k & Hk). 
      assert (instance_id t = k) by apply (Hok _ _ Hk). congruence.
  - intros m r. unfold status. destruct (select_primary_instance _ _) eqn:E; [done|]. intros _. apply select_none in E.
    unfold ProcessRuntime.stop, all_states, gets, fail. unfold bindr at 1. unfold module_instances. by rewrite E.
Qed.
End ProcessPort.

(** ** Quarantine *)

(** What the failures at the given times answer. *)
Fixpoint run_failures (m : text) (h : gmap text ModuleHealth) (times : list Z) : list (option Z) :=
  match times with
  | [] => []
  | t :: times => let (q, h) := record_failure m t h in q :: run_failures m h times
  end.

Definition window : Z := seconds FAILURE_WINDOW_SECS.
Lemma window_positive : 0 <= window.
Proof. done. Qed.
Fixpoint gaps (P : Z -> Prop) (last : Z) (times : list Z) : Prop :=
  match times with [] => True | t :: times => P (t - last) /\ gaps P t times end.
Definition gaps_from (P : Z -> Prop) (times : list Z) : Prop := match times with [] => True | t :: times => gaps P t times end.

(** The deadline a failure at [t] gives when it is the [i]-th of a streak. *)
Definition deadline_at (i t : Z) : option Z := if i mod FAILURE_THRESHOLD =? 0 then Some (t + seconds QUARANTINE_DURATION_SECS) else None.

(** The entry after a failure at [t] that is the [i]-th of a streak. *)
Definition after_failure (i t : Z) (e : ModuleHealth) : Prop := failure_count e = i mod FAILURE_THRESHOLD /\ last_failure e = Some t.

Lemma failure_in_streak (m : text) (i t t' : Z) (h : gmap text ModuleHealth) e : 0 <= i -> h !! m = Some e -> after_failure i t e -> t' - t <= window ->
  (record_failure m t' h).1 = deadline_at (i + 1) t' /\ exists e', (record_failure m t' h).2 !! m = Some e' /\ after_failure (i + 1) t' e'.
Proof.
  intros Hi He [Hc Hl] Hgap. unfold record_failure, deadline_at, after_failure, window, FAILURE_THRESHOLD in *. rewrite He. change (default healthy (Some e)) with e. rewrite Hl, Hc.
  rewrite (proj2 (Z.ltb_ge _ _)) by (pose proof window_positive; unfold window in *; lia).
  assert (Hm : (i + 1) mod 3 = if 3 <=? i mod 3 + 1 then 0 else i mod 3 + 1).
  { destruct (Z.leb_spec 3 (i mod 3 + 1)) as [H|H]; pose proof (Z.mod_pos_bound i 3); rewrite <- Zplus_mod_idemp_l; [replace (i mod 3) with 2 by lia; done|]. rewrite Z.mod_small; lia. }
  destruct (Z.leb_spec 3 (i mod 3 + 1)) as [H|H]; rewrite Hm; cbn [fst snd].
  - split; [done|]. eexists. rewrite lookup_insert_eq. done.
  - rewrite (proj2 (Z.eqb_neq _ _)) by (pose proof (Z.mod_pos_bound i 3); lia). split; [done|]. eexists. rewrite lookup_insert_eq. done.
Qed.

Lemma streak_answers (m : text) (i t : Z) (h : gmap text ModuleHealth) e (times : list Z) (k : nat) (t' : Z) : 0 <= i -> h !! m = Some e -> after_failure i t e -> gaps (λ d, d <= window) t times ->
  times !! k = Some t' -> run_failures m h times !! k = Some (deadline_at (i + 1 + Z.of_nat k) t').
Proof.
  revert i t h e k. induction times as [|t1 times IH]; intros i t h e k Hi He Ha Hg Hk; [done|]. destruct Hg as [Hg1 Hg]. cbn [run_failures].
  destruct (failure_in_streak m i t t1 h e Hi He Ha Hg1) as [Hq (e' & He' & Ha')]. destruct (record_failure m t1 h) as [q h']. cbn in Hq, He'.
  destruct k as [|k]; cbn in *; [injection Hk as <-; rewrite Hq; do 2 f_equal; lia|].
  etrans; [exact (IH (i + 1) t1 h' e' k ltac:(lia) He' Ha' Hg Hk)|]. do 2 f_equal. lia.
Qed.

(** An unknown or healthy module and one failure. *)
Lemma first_failure (m : text) (t : Z) (h : gmap text ModuleHealth) : default healthy (h !! m) = healthy ->
  (record_failure m t h).1 = None /\ exists e', (record_failure m t h).2 !! m = Some e' /\ after_failure 1 t e'.
Proof.
  intros He. unfold record_failure. rewrite He. change (FAILURE_THRESHOLD <=? _) with false. cbn [fst snd]. split; [done|].
  eexists. rewrite lookup_insert_eq. done.
Qed.

Lemma spaced_answers (m : text) (t : Z) (h : gmap text ModuleHealth) e (times : list Z) (q : option Z) : h !! m = Some e -> after_failure 1 t e -> gaps (λ d, window < d) t times ->
  q ∈ run_failures m h times -> q = None.
Proof.
  revert t h e. induction times as [|t1 times IH]; intros t h e He [Hc Hl] Hg; cbn; [by intros ?%not_elem_of_nil|]. destruct Hg as [Hg1 Hg].
  destruct (record_failure m t1 h) as [q' h'] eqn:E. unfold record_failure in E. rewrite He in E. change (default healthy (Some e)) with e in E. rewrite Hl in E.
  rewrite (proj2 (Z.ltb_lt _ _)) in E by (pose proof window_positive; unfold window in *; lia). cbn in E. injection E as <- <-.
  rewrite elem_of_cons. intros [->|Hin]; [done|]. eapply (IH t1); [| |exact Hg|exact Hin]; [apply lookup_insert_eq|by split].
Qed.

(** The quarantine.  When failures of a healthy module follow each other
    within the window, exactly every third one quarantines it, for the fixed
    duration from that failure; failures further apart never do.  While a
    quarantine lasts the guard refuses with its deadline, from the deadline
    on it lets the module pass. *)
Theorem quarantine_every_third {R : Type} (m : text) (h : gmap text ModuleHealth) (times : list Z) : default healthy (h !! m) = healthy ->
  (gaps_from (λ d, d <= window) times -> forall k t, times !! k = Some t -> run_failures m h times !! k = Some (deadline_at (Z.of_nat k + 1) t))
  /\ (gaps_from (λ d, window < d) times -> forall q, q ∈ run_failures m h times -> q = None)
  /\ forall (g : gmap text ModuleHealth) (t until now : Z) (v : Service R), record_failure m t g = (Some until, v_health v) ->
     (guard_quarantine m now v).1 = if now <? until then Err (Quarantined m until) else Ok tt.
Proof.
  intros He. split_and!.
  - destruct times as [|t0 times]; cbn [gaps_from run_failures]; [done|]. intros Hg k t Hk. destruct (first_failure m t0 h He) as [Hq (e' & He' & Ha)].
    destruct (record_failure m t0 h) as [q h']. cbn in Hq, He'. destruct k as [|k]; cbn in *; [injection Hk as <-; by rewrite Hq|].
    etrans; [exact (streak_answers m 1 t0 h' e' times k t ltac:(lia) He' Ha Hg Hk)|]. do 2 f_equal. lia.
  - destruct times as [|t0 times]; cbn [gaps_from run_failures]; [by intros _ q ?%not_elem_of_nil|]. intros Hg q. destruct (first_failure m t0 h He) as [Hq (e' & He' & Ha)].
    destruct (record_failure m t0 h) as [q' h']. cbn in Hq, He'. rewrite elem_of_cons. intros [->|Hin]; [done|]. by eapply spaced_answers.
  - intros g t until now v H. unfold record_failure in H. destruct (FAILURE_THRESHOLD <=? _); [|done]. injection H as <- Hh.
    unfold guard_quarantine, quarantine_deadline. rewrite <- Hh, lookup_insert_eq. cbn [quarantined_until].
    destruct (Z.ltb_spec now (t + seconds QUARANTINE_DURATION_SECS)); [rewrite (proj2 (Z.leb_gt _ _)) by done|rewrite (proj2 (Z.leb_le _ _)) by done]; done.
Qed.

(** ** Starting *)

Section Starting.
Context {R : Type} {RP : ModuleRuntimePort R} {RL : ModuleRuntimePortLaws R}.
Implicit Types (v : Service R) (x : Inputs R) (m : text) (c rc : ModuleStartConfig) (t : ModuleStartupTrigger).

(** What the checks before the preflight leave alone: everything but the
    health entries and the ports. *)
Definition same_core v v' : Prop :=
  v_rt v' = v_rt v /\ v_tokens v' = v_tokens v /\ v_registry v' = v_registry v /\ v_gateways v' = v_gateways v
  /\ v_reports v' = v_reports v /\ v_overrides v' = v_overrides v.
Definition quiet_call {A : Type} (c : LcM R A) : Prop := forall v, same_core v (c v).2.

Lemma same_core_refl v : same_core v v.
Proof. done. Qed.
Lemma same_core_trans v1 v2 v3 : same_core v1 v2 -> same_core v2 v3 -> same_core v1 v3.
Proof. intros (? & ? & ? & ? & ? & ?) (? & ? & ? & ? & ? & ?). repeat split; congruence. Qed.

Lemma quiet_bind {A B : Type} (c : LcM R A) (k : A -> LcM R B) : quiet_call c -> (forall a, quiet_call (k a)) -> quiet_call (bindr c k).
Proof.
  intros Hc Hk v. specialize (Hc v). unfold bindr. destruct (c v) as [[a|e] v1]; [|done]. by eapply same_core_trans; [exact Hc|apply Hk].
Qed.
Lemma quiet_ret {A : Type} (a : A) : quiet_call (ret a).
Proof. by intros v. Qed.
Lemma quiet_fail {A : Type} e : quiet_call (A := A) (fail e).
Proof. by intros v. Qed.
Lemma quiet_attempt {A : Type} (c : LcM R A) : quiet_call c -> quiet_call (attempt c).
Proof. intros Hc v. specialize (Hc v). unfold attempt. by destruct (c v). Qed.
Lemma quiet_override m : quiet_call (is_dev_override_active m).
Proof. by intros v. Qed.
Lemma quiet_assign m x : quiet_call (assign_port m x).
Proof. intros v. unfold assign_port. by destruct (assigned_port _ _ _ _ _). Qed.
Lemma quiet_declared m x : quiet_call (register_declared_services m x).
Proof.
  apply quiet_bind; [apply quiet_override|]. intros [|]; [apply quiet_ret|]. destruct (x_declared x) as [[|]|]; [|apply quiet_ret|apply quiet_fail].
  apply quiet_bind; [apply quiet_attempt, quiet_assign|]. intros _. apply quiet_ret.
Qed.
Lemma quiet_guard m now : quiet_call (guard_quarantine m now).
Proof. intros v. unfold guard_quarantine. by destruct (quarantine_deadline _ _ _) as [[|] h]. Qed.
Lemma quiet_status m : quiet_call (attempt (run_rt (port_status m))).
Proof.
  intros v. unfold attempt, run_rt. pose proof (status_pure m (v_rt v)) as H. destruct (port_status m (v_rt v)) as [res r]. cbn in H. by subst r.
Qed.

Lemma quiet_accept c x : quiet_call (accept_start c x).
Proof.
  unfold accept_start. apply quiet_bind; [apply quiet_declared|intros _]. apply quiet_bind; [apply quiet_override|intros [|]; [apply quiet_ret|]].
  apply quiet_bind; [apply quiet_status|intros st]. destruct (is_running st); [apply quiet_fail|].
  apply quiet_bind; [apply quiet_guard|intros _]. destruct (c_port c); [apply quiet_ret|].
  apply quiet_bind; [apply quiet_assign|intros p; apply quiet_ret].
Qed.

(** An accepted start: not overridden, not running. *)
Lemma accepted c x v a v' : c_module_id c ∉ v_overrides v -> accept_start c x v = (Ok a, v') ->
  same_core v v' /\ exists p, a = Some p /\ is_running (port_status (c_module_id c) (v_rt v)).1 = false.
Proof.
  intros Ho H. split; [by pose proof (quiet_accept c x v) as Hq; rewrite H in Hq|]. unfold accept_start in H.
  apply bindr_ok_inv in H as ([] & v1 & H1 & H). pose proof (quiet_declared (c_module_id c) x v) as Hq. rewrite H1 in Hq. destruct Hq as (Hrt & _ & _ & _ & _ & Hov). cbn in *.
  unfold is_dev_override_active, gets in H. unfold bindr at 1 in H. rewrite Hov, bool_decide_eq_false_2 in H by done.
  unfold attempt, run_rt in H. unfold bindr at 1 in H. rewrite Hrt in H. pose proof (status_pure (c_module_id c) (v_rt v)) as Hs.
  destruct (port_status (c_module_id c) (v_rt v)) as [st r]. cbn in Hs |- *. subst r. destruct (is_running st) eqn:E; [done|].
  apply bindr_ok_inv in H as ([] & v2 & _ & H). destruct (c_port c).
  - injection H as <- _. eauto.
  - apply bindr_ok_inv in H as (p & v3 & _ & H). injection H as <- _. eauto.
Qed.

(** A start of a module with a development override. *)
Lemma overridden_start c t x v info v' : c_module_id c ∈ v_overrides v -> start_with_trigger c t x v = (Ok info, v') ->
  i_module_id info = c_module_id c /\ i_status info = Running /\ v' = v.
Proof.
  intros Ho H. unfold start_with_trigger in H. apply bindr_ok_inv in H as (inst & v0 & Hl & H). injection Hl as _ <-.
  cbn [is_unmanaged_module] in H. unfold accept_start, register_declared_services, is_dev_override_active, gets, bindr, ret in H.
  rewrite !bool_decide_eq_true_2 in H by done. cbn in H. by simplify_eq.
Qed.

(** Only the module's entry, its report and what was logged differ. *)
Definition same_holdings v v' : Prop :=
  v_rt v' = v_rt v /\ v_tokens v' = v_tokens v /\ v_gateways v' = v_gateways v /\ v_overrides v' = v_overrides v.

Lemma preflight_cases m t x path a v : match preflight_phase m t x path a v with
  | (Ok ph, v') => ph = [succeeded "preflight"] /\ v' = v
  | (Err _, v') => same_holdings v v'
  end.
Proof. unfold preflight_phase. destruct (x_preflight_timeout x); [done|]. by destruct (run_start_preflight m x path a). Qed.

(** The token a start issues. *)
Definition start_claims v m (rd : Reads) : DelegatedTokenClaims :=
  mkClaims (r_uuid rd) (ServiceTokens.Service (module_service_id (mkId m)) SWrite) DEFAULT_SERVICE_TENANT (x_default_scopes (v_tokens v)) (r_issue rd)
    (r_issue rd + lifetime (x_tokens (v_tokens v))).
Definition start_token v m (rd : Reads) : string * DelegatedTokenClaims := (r_token rd, start_claims v m rd).
Definition with_issued v m (rd : Reads) : Exchange :=
  let s := x_tokens (v_tokens v) in
  let c := start_claims v m rd in
  record_event (set_store (v_tokens v) (set_tokens s (<[r_token rd := new_entry c (r_issue rd)]> (ServiceTokens.tokens s)))) (TokenIssue c).

Lemma token_cases m t x ph v : m ∉ v_overrides v -> ServiceTokens.poisoned (x_tokens (v_tokens v)) = false ->
  match token_phase m t x ph v with
  | (Ok issued, v') => issued = (Some (start_token v m (x_reads x)), ph ++ [succeeded "service_token"]) /\ v' = with_tokens v (with_issued v m (x_reads x))
  | (Err _, v') => v_rt v' = v_rt v /\ v_tokens v' = v_tokens v /\ v_gateways v' = delete m (v_gateways v) /\ v_overrides v' = v_overrides v
  end.
Proof.
  intros Ho Hp. unfold token_phase. destruct (x_token_timeout x); [done|].
  unfold attempt, issue_module_service_token, is_unmanaged_module, is_dev_override_active, gets. unfold bindr at 1.
  unfold bindr at 1. rewrite bool_decide_eq_false_2 by done.
  unfold issue_default_service_token, issue_service_token_with_scopes, issue_service_token, issue. by rewrite Hp.
Qed.

Lemma note_failure_cases m x e v : exists e' v', note_failure m x e v = (Ok e', v') /\ same_holdings v v'.
Proof. unfold note_failure. destruct (record_failure _ _ _) as [[until|] h]; eexists _, _; done. Qed.

Lemma runtime_cases rc t x tok ph v : let m := c_module_id rc in
  match runtime_phase rc t x (Some tok) ph v with
  | (Ok started, v') => x_cancelled x = None /\ started.2 = ph ++ [succeeded "runtime_start"]
      /\ exists r, port_start rc (v_rt v) = (Ok started.1, r)
      /\ v' = with_health (with_rt v r) (clear_health (i_module_id started.1) (v_health v))
  | (Err _, v') => v_gateways v' = delete m (v_gateways v) /\ v_overrides v' = v_overrides v
      /\ exists reason, v_tokens v' = (revoke_service_token (v_tokens v) tok.1 reason (x_revoke_elapsed x) (x_revoke_now x)).2
  end.
Proof.
  cbn zeta. unfold runtime_phase. destruct (x_cancelled x) as [r|].
  - unfold attempt, run_rt, modify, stop_gateway_if_any, revoke_issued, mark_failed, update_module_service_status, fail_start, store_startup_report, bindr, fail.
    cbn. destruct (port_stop (c_module_id rc) r) as [res r']. cbn. eauto.
  - unfold attempt, run_rt. unfold bindr at 1. destruct (port_start rc (v_rt v)) as [[info|e] r].
    + cbn. eauto 6.
    + unfold stop_gateway_if_any, modify. unfold bindr at 1. unfold bindr at 1.
      match goal with |- context [note_failure ?m ?x ?e ?w] => destruct (note_failure_cases m x e w) as (e' & v' & -> & Hrt & Htok & Hg & Ho) end.
      cbn in Hrt, Htok, Hg, Ho. cbn. rewrite Hg, Ho, Htok. eauto.
Qed.

Definition entry v m := Registry.get (v_registry v) (service_id_of m).

Lemma status_entry m st n now v : Registry.poisoned (v_registry v) = false ->
  exists v', update_module_service_status m st n now v = (Ok tt, v') /\ same_holdings v v' /\ v_reports v' = v_reports v /\ v_health v' = v_health v
    /\ Registry.poisoned (v_registry v') = false /\ entry v' m = Some (Registry.mkSnapshot (service_id_of m) st now (Some n)).
Proof.
  intros Hp. eexists. split; [reflexivity|]. unfold entry, Registry.get, Registry.register. cbn. rewrite Hp. cbn. rewrite lookup_insert_eq. done.
Qed.

Lemma refresh_quiet m res : quiet_call (refresh_or_schedule m res).
Proof.
  unfold refresh_or_schedule, schedule_manifest_refresh. intros v. destruct res as [[|]|]; [done|..];
    unfold is_dev_override_active, gets, bindr; destruct (bool_decide _); unfold modify; cbn; try case_bool_decide; done.
Qed.
Lemma refresh_ok m res v : exists v', refresh_or_schedule m res v = (Ok tt, v') /\ v_health v' = v_health v.
Proof.
  unfold refresh_or_schedule, schedule_manifest_refresh. destruct res as [[|]|]; [by eexists|..];
    unfold is_dev_override_active, gets, bindr; destruct (bool_decide _); unfold modify; cbn; try case_bool_decide; by eexists.
Qed.
Lemma record_port_ok m l p v : exists a, record_port m l p v = (Ok tt, with_ports v a).
Proof. destruct p; cbn; [by eexists|]. exists (v_ports v). by destruct v. Qed.

(** The configured replicas: with more than one, the runtime was brought to
    their number and answered without an error. *)
Definition replicas_settled (rc : ModuleStartConfig) (x : Inputs R) (r r' : R) : Prop :=
  if (1 <? x_replicas x)%nat then exists l, port_reconcile rc (x_replicas x) r = (Ok l, r') else r' = r.

(** The end of a start. *)
Lemma finish_cases rc t x tok info ph v info' v' : let m := i_module_id info in Registry.poisoned (v_registry v) = false ->
  finish_start rc t x (Some tok) info ph v = (Ok info', v') ->
  info' = info /\ replicas_settled rc x (v_rt v) (v_rt v')
  /\ v_tokens v' = record_service_token (record_event (v_tokens v) (TokenExchanged m (refresh_audit tok (x_audit_now x)))) (mkId m) tok
  /\ v_gateways v' = v_gateways v /\ v_health v' = v_health v
  /\ entry v' m = Some (Registry.mkSnapshot (service_id_of m) Active (x_now x) (Some "running"%string))
  /\ v_reports v' !! m = Some (mkReport m t StartupSucceeded ph).
Proof.
  cbn zeta. intros Hp H. unfold finish_start in H. apply bindr_ok_inv in H as (rec & v1 & H1 & H).
  assert (Hv1 : v_tokens v1 = v_tokens v /\ v_gateways v1 = v_gateways v /\ v_health v1 = v_health v /\ v_registry v1 = v_registry v
    /\ (is_ok rec = true -> replicas_settled rc x (v_rt v) (v_rt v1))).
  { unfold replicas_settled. destruct (Nat.ltb_spec 1 (x_replicas x)) as [Hlt|Hge].
    - rewrite (proj2 (Nat.ltb_lt 1 _)) in H1 by lia. rewrite Nat.max_l in H1 by lia. unfold attempt, run_rt in H1.
      destruct (port_reconcile _ _ (v_rt v)) as [res r]. injection H1 as <- <-. cbn. split_and!; [done..|]. destruct res as [l|]; [by exists l|done].
    - rewrite (proj2 (Nat.ltb_ge 1 _)) in H1 by lia. by injection H1 as _ <-. }
  destruct Hv1 as (Ht1 & Hg1 & Hh1 & Hreg1 & Hrt1). destruct rec as [l|e]; [|by apply bindr_ok_inv in H as ([] & v2 & _ & H)].
  erewrite (bindr_ok (record_issued _ _ _)) in H by reflexivity.
  match type of H with bindr (record_port ?m ?l ?p) _ ?w = _ => destruct (record_port_ok m l p w) as [a Ha]; rewrite (bindr_ok _ _ _ _ _ Ha) in H end.
  match type of H with (update_module_service_status ?m ?st ?n ?now >> _) ?w = _ =>
    destruct (status_entry m st n now w) as (v2 & E2 & (Hrt2 & Ht2 & Hg2 & _) & _ & Hh2 & _ & He2); [cbn; congruence|]; rewrite (bindr_ok _ _ _ _ _ E2) in H end.
  match type of H with (refresh_or_schedule ?m ?res >> _) ?w = _ =>
    destruct (refresh_ok m res w) as (v3 & E3 & Hh3); pose proof (refresh_quiet m res w) as (Hrt3 & Ht3 & Hreg3 & Hg3 & _); rewrite (bindr_ok _ _ _ _ _ E3) in H; rewrite E3 in Hrt3, Ht3, Hreg3, Hg3 end.
  unfold store_startup_report, modify, bindr, ret in H. injection H as <- <-. cbn in *.
  split_and!; [done|rewrite Hrt3, Hrt2; by apply Hrt1|congruence..| |].
  - unfold entry in *. cbn. by rewrite Hreg3.
  - by rewrite lookup_insert_eq.
Qed.

Lemma gateway_cases m alive spawned v : match ensure_gateway_endpoint m alive spawned v with
  | (Ok endpoint, v') => exists g, v' = with_gateways v g /\ g !! m = Some endpoint /\ delete m g = delete m (v_gateways v)
  | (Err _, v') => v' = v
  end.
Proof.
  assert (Hs : forall endpoint, exists g, with_gateways v (<[m := endpoint]> (v_gateways v)) = with_gateways v g /\ g !! m = Some endpoint /\ delete m g = delete m (v_gateways v)).
  { intros endpoint. eexists. split; [done|]. split; [apply lookup_insert_eq|apply delete_insert_eq]. }
  unfold ensure_gateway_endpoint. destruct (v_gateways v !! m) as [ep|] eqn:E; [|by destruct spawned].
  destruct alive; [|by destruct spawned]. exists (v_gateways v). by destruct v.
Qed.

Lemma issued_then_revoked v m rd reason elapsed now : ServiceTokens.poisoned (x_tokens (v_tokens v)) = false ->
  let x' := (revoke_service_token (with_issued v m rd) (r_token rd) reason elapsed now).2 in
  x_leases x' = x_leases (v_tokens v)
  /\ forall tk e', ServiceTokens.tokens (x_tokens x') !! tk = Some e' -> exists e, ServiceTokens.tokens (x_tokens (v_tokens v)) !! tk = Some e /\ claims e = claims e'.
Proof.
  intros Hp. cbn zeta. destruct (revoke_tokens (with_issued v m rd) (r_token rd) reason elapsed now Hp) as (Ht & Hl & _).
  split; [by rewrite Hl|]. intros tk e'. rewrite Ht. cbn. intros [Hne He]%lookup_delete_Some.
  apply validate_with_claims in He as (e & He & Hc); [|done]. cbn in He. rewrite lookup_insert_ne in He by done. eauto.
Qed.

(** C18: A start that succeeds is complete.  For a module with a development
    override there is nothing to start: the answer says that it runs and
    nothing changes.  For any other module the runtime has started it and
    reports it as running; with more than one configured replica it was then
    brought to their number without an error.  The token issued to it, with
    the module as actor and expiring one lifetime after it was issued, is in
    the store and recorded as its lease; its gateway is there, it is
    registered as active, its failures are forgotten, and the report lists
    the three phases. *)
Theorem successful_start_is_complete c t x v info v' : let m := c_module_id c in
  port_inv (v_rt v) -> port_id m -> ServiceTokens.poisoned (x_tokens (v_tokens v)) = false -> Registry.poisoned (v_registry v) = false ->
  start_with_trigger c t x v = (Ok info, v') ->
  i_module_id info = m
  /\ (m ∈ v_overrides v -> i_status info = Running /\ v' = v)
  /\ (m ∉ v_overrides v ->
      (exists rc r info', c_module_id rc = m /\ (port_status m r).1 = Ok info' /\ i_status info' = Running /\ replicas_settled rc x r (v_rt v'))
      /\ (exists lease, x_leases (v_tokens v') !! m = Some lease
            /\ ServiceTokens.tokens (x_tokens (v_tokens v')) !! l_token lease = Some (new_entry (start_claims v m (x_reads x)) (r_issue (x_reads x))))
      /\ is_Some (v_gateways v' !! m)
      /\ (exists s, entry v' m = Some s /\ Registry.s_status s = Active)
      /\ v_reports v' !! m = Some (mkReport m t StartupSucceeded (succeeded <$> ["preflight"; "service_token"; "runtime_start"]%string))
      /\ default healthy (v_health v' !! m) = healthy).
Proof.
  cbn zeta. intros Hi Hid Hp Hrp H. destruct (decide (c_module_id c ∈ v_overrides v)) as [Ho|Ho].
  { destruct (overridden_start c t x v info v' Ho H) as (Hm & Hs & Hv). by split_and!. }
  unfold start_with_trigger in H. apply bindr_ok_inv in H as (inst & v0 & Hl & H). injection Hl as _ <-.
  cbn [is_unmanaged_module] in H. apply bindr_ok_inv in H as (a & v1 & Ha & H).
  destruct (accepted c x v a v1 Ho Ha) as ((Hrt & Htok & Hreg & _ & _ & Hov) & p & -> & _).
  apply bindr_ok_inv in H as (ph & v2 & Hpre & H). pose proof (preflight_cases (c_module_id c) t x (in_path inst) p v1) as Hc. rewrite Hpre in Hc. destruct Hc as [-> ->].
  apply bindr_ok_inv in H as (ep & v3 & Hgw & H). pose proof (gateway_cases (c_module_id c) (x_gateway_alive x) (x_gateway x) v1) as Hc. rewrite Hgw in Hc.
  destruct Hc as (g & -> & Hgm & _). apply bindr_ok_inv in H as (iss & v4 & Htk & H).
  pose proof (token_cases (c_module_id c) t x [succeeded "preflight"] (with_gateways v1 g)) as Hc. rewrite Htk in Hc. cbn in Hc.
  destruct Hc as [-> ->]; [by rewrite Hov|by rewrite Htok|]. unfold start_issued in H. apply bindr_ok_inv in H as (env & v5 & He & H). injection He as _ <-. cbn [fst snd] in H.
  match type of H with bindr (update_module_service_status ?m ?st ?n ?now) _ ?w = _ =>
    destruct (status_entry m st n now w) as (v6 & E6 & (Hrt6 & Ht6 & Hg6 & _) & _ & Hh6 & Hp6 & _); [cbn; by rewrite Hreg|]; rewrite (bindr_ok _ _ _ _ _ E6) in H end.
  apply bindr_ok_inv in H as (st & v7 & Hrun & H).
  match type of Hrun with runtime_phase ?rc ?t ?x (Some ?tok) ?ph ?w = _ => pose proof (runtime_cases rc t x tok ph w) as Hc end.
  rewrite Hrun in Hc. destruct Hc as (_ & Hph & r & Hst & ->).
  pose proof Hst as Hst'. apply started_runs in Hst' as [Hinfo Hrunning]; [|exact Hid|cbn in *; congruence]. cbn [c_module_id runtime_config] in Hinfo, Hrunning.
  apply finish_cases in H as (-> & Hrt8 & Ht8 & Hg8 & Hh8 & He8 & Hr8); [|exact Hp6]. rewrite Hinfo in *.
  cbn [v_rt v_tokens v_gateways v_health v_registry with_rt with_health] in *. split; [done|]. split; [done|]. intros _. split_and!.
  - destruct Hrunning as (info' & Hst' & Hr'). eexists _, r, info'. split; [|split; [exact Hst'|split; [exact Hr'|exact Hrt8]]]. done.
  - rewrite Ht8, Ht6. cbn. rewrite lookup_insert_eq. eexists. split; [done|]. cbn. rewrite lookup_insert_eq. unfold start_claims. cbn. by rewrite Htok.
  - rewrite Hg8, Hg6. cbn. by rewrite Hgm.
  - by eexists.
  - rewrite Hr8, Hph. done.
  - rewrite Hh8. unfold clear_health. destruct (v_health v6 !! c_module_id c) eqn:E; [by rewrite lookup_insert_eq|by rewrite E].
Qed.

(** The tokens and leases of [v'] were there in [v], and no gateway is new. *)
Definition nothing_left m v v' : Prop :=
  x_leases (v_tokens v') = x_leases (v_tokens v)
  /\ (forall tk e', ServiceTokens.tokens (x_tokens (v_tokens v')) !! tk = Some e' ->
        exists e, ServiceTokens.tokens (x_tokens (v_tokens v)) !! tk = Some e /\ claims e = claims e')
  /\ (v_gateways v' = v_gateways v \/ v_gateways v' = delete m (v_gateways v)).

Lemma nothing_left_same m v v' : v_tokens v' = v_tokens v -> v_gateways v' = v_gateways v \/ v_gateways v' = delete m (v_gateways v) -> nothing_left m v v'.
Proof. intros Ht Hg. unfold nothing_left. rewrite Ht. eauto. Qed.

Lemma finish_single rc t x tok info ph v : Registry.poisoned (v_registry v) = false -> (x_replicas x <= 1)%nat -> exists res, finish_start rc t x tok info ph v = (Ok info, res).
Proof.
  intros Hp Hr. unfold finish_start. destruct (Nat.ltb_spec 1 (Nat.max (x_replicas x) 1)) as [|_]; [lia|]. unfold bindr at 1, ret at 1.
  assert (Hrec : exists w, record_issued (i_module_id info) tok (x_audit_now x) v = (Ok tt, w)) by (destruct tok; by eexists).
  destruct Hrec as [w Hw]. rewrite (bindr_ok _ _ _ _ _ Hw). edestruct record_port_ok as [a Ha]. rewrite (bindr_ok _ _ _ _ _ Ha).
  erewrite (bindr_ok (update_module_service_status _ _ _ _)) by reflexivity. edestruct refresh_ok as (w' & Hw' & _). rewrite (bindr_ok _ _ _ _ _ Hw').
  by eexists.
Qed.

(** C19: A start of one instance that fails, wherever it fails, leaves nothing
    behind, as long as the environment can be built: no token and no lease
    that was not there, and no new gateway. *)
Theorem failed_start_leaves_nothing c t x v e v' : let m := c_module_id c in
  m ∉ v_overrides v -> ServiceTokens.poisoned (x_tokens (v_tokens v)) = false -> Registry.poisoned (v_registry v) = false ->
  (forall env p tok, is_ok (x_inject x env p tok) = true) -> (x_replicas x <= 1)%nat ->
  start_with_trigger c t x v = (Err e, v') -> nothing_left m v v'.
Proof.
  cbn zeta. intros Ho Hp Hrp Henv Hrep H. unfold start_with_trigger in H. unfold lift in H. unfold bindr at 1 in H.
  destruct (loaded _ _) as [inst|e0]; [|injection H as _ <-; apply nothing_left_same; auto]. cbn [is_unmanaged_module] in H. unfold bindr at 1 in H.
  destruct (accept_start c x v) as [[a|e1] v1] eqn:Ha.
  2: { pose proof (quiet_accept c x v) as Hq. rewrite Ha in Hq. destruct Hq as (_ & Ht & _ & Hg & _). cbn in Ht, Hg. injection H as _ <-. apply nothing_left_same; auto. }
  destruct (accepted c x v a v1 Ho Ha) as ((Hrt & Htok & Hreg & Hg & _ & Hov) & p & -> & _).
  unfold bindr at 1 in H. pose proof (preflight_cases (c_module_id c) t x (in_path inst) p v1) as Hc.
  destruct (preflight_phase _ _ _ _ _ v1) as [[ph|e2] v2]; [destruct Hc as [-> ->]|destruct Hc as (_ & Ht2 & Hg2 & _); injection H as _ <-; apply nothing_left_same; [congruence|left; congruence]].
  unfold bindr at 1 in H. pose proof (gateway_cases (c_module_id c) (x_gateway_alive x) (x_gateway x) v1) as Hc.
  destruct (ensure_gateway_endpoint _ _ _ v1) as [[ep|e3] v3]; [|subst v3; injection H as _ <-; apply nothing_left_same; auto].
  destruct Hc as (g & -> & _ & Hdel). unfold bindr at 1 in H.
  pose proof (token_cases (c_module_id c) t x [succeeded "preflight"] (with_gateways v1 g)) as Hc. specialize (Hc ltac:(cbn; by rewrite Hov) ltac:(cbn; by rewrite Htok)).
  destruct (token_phase _ _ _ _ _) as [[iss|e4] v4];
    [|destruct Hc as (_ & Ht4 & Hg4 & _); cbn in *; injection H as _ <-; apply nothing_left_same; [congruence|right; congruence]].
  destruct Hc as [-> ->]. unfold start_issued, lift in H. cbn [fst snd] in H. unfold bindr at 1 in H.
  match type of H with context [x_inject x ?a ?b ?c] => specialize (Henv a b c); destruct (x_inject x a b c) as [env|]; [|done] end.
  erewrite (bindr_ok (update_module_service_status _ _ _ _)) in H by reflexivity. unfold bindr at 1 in H.
  match type of H with context [runtime_phase ?rc ?t ?x (Some ?tok) ?ph ?w] => pose proof (runtime_cases rc t x tok ph w) as Hc; destruct (runtime_phase rc t x (Some tok) ph w) as [[st|e5] v5] end.
  - destruct Hc as (_ & _ & r & _ & ->). exfalso.
    match type of H with finish_start ?rc ?t ?x ?tok ?i ?ph ?w = _ => destruct (finish_single rc t x tok i ph w) as [res Hres]; [|done|congruence] end.
    cbn. unfold Registry.register. rewrite Hreg, Hrp. done.
  - destruct Hc as (Hg5 & _ & reason & Ht5). injection H as _ <-. cbn in Ht5, Hg5.
    destruct (issued_then_revoked v (c_module_id c) (x_reads x) reason (x_revoke_elapsed x) (x_revoke_now x) Hp) as [Hl Htk].
    assert (Hx : v_tokens v5 = (revoke_service_token (with_issued v (c_module_id c) (x_reads x)) (r_token (x_reads x)) reason (x_revoke_elapsed x) (x_revoke_now x)).2).
    { rewrite Ht5. unfold with_issued, start_claims. cbn. by rewrite Htok. }
    unfold nothing_left. rewrite Hx. split_and!; [done|done|right; congruence].
Qed.

(** A start the runtime refuses is counted, and its token revoked. *)
Lemma runtime_refuses rc t x tok ph v e r (q := record_failure (c_module_id rc) (x_failed_at x) (v_health v)) :
  x_cancelled x = None -> port_start rc (v_rt v) = (Err e, r) ->
  exists v', runtime_phase rc t x (Some tok) ph v = (Err (match q.1 with Some until => Quarantined (c_module_id rc) until | None => e end), v')
    /\ v_health v' = q.2 /\ v_rt v' = r /\ v_ports v' = v_ports v /\ v_overrides v' = v_overrides v
    /\ v_tokens v' = (revoke_service_token (v_tokens v) tok.1 "module-start-failed" (x_revoke_elapsed x) (x_revoke_now x)).2.
Proof.
  intros Hc Hst. unfold runtime_phase. rewrite Hc. unfold attempt, run_rt. unfold bindr at 1. rewrite Hst.
  erewrite (bindr_ok (stop_gateway_if_any _)) by reflexivity. subst q. unfold note_failure. unfold bindr at 1. cbn [v_health with_rt with_gateways].
  destruct (record_failure _ _ _) as [[until|] h]; eexists; (split; [reflexivity|]); done.
Qed.

Lemma revoked_not_poisoned (x : Exchange) token reason elapsed now : ServiceTokens.poisoned (x_tokens x) = false ->
  ServiceTokens.poisoned (x_tokens (revoke_service_token x token reason elapsed now).2) = false.
Proof. intros Hp. destruct (revoke_tokens x token reason elapsed now Hp) as (-> & _). by apply validate_with_poisoned. Qed.

(** ** Stopping *)

Lemma revoked_lease (x : Exchange) m reason elapsed now : ServiceTokens.poisoned (x_tokens x) = false ->
  let x' := revoke_service_token_if_any x (mkId m) reason elapsed now in
  x_leases x' = delete m (x_leases x) /\ ServiceTokens.poisoned (x_tokens x') = false
  /\ forall lease, x_leases x !! m = Some lease -> ServiceTokens.tokens (x_tokens x') !! l_token lease = None.
Proof.
  intros Hp. unfold revoke_service_token_if_any, take_service_token. cbn [id_text]. destruct (x_leases x !! m) as [lease|] eqn:E; [|done]. cbn zeta.
  destruct (revoke_tokens (set_leases x (delete m (x_leases x))) (l_token lease) reason elapsed now Hp) as (Ht & Hl & _).
  rewrite Ht, Hl. cbn. split; [done|]. split; [by apply validate_with_poisoned|]. intros l [= <-]. apply lookup_delete_eq.
Qed.

Lemma cleared m (h : gmap text ModuleHealth) : default healthy (clear_health m h !! m) = healthy.
Proof. unfold clear_health. destruct (h !! m) eqn:E; [by rewrite lookup_insert_eq|by rewrite E]. Qed.

(** A stop that succeeds settles the module: it no longer runs, its lease
    is gone and the leased token dead, its gateway is down, its failures are
    forgotten, and an installed module is registered as stopped. *)
Theorem stop_settles_module m (load : Loaded) elapsed now v v' :
  port_inv (v_rt v) -> m ∉ v_overrides v -> ServiceTokens.poisoned (x_tokens (v_tokens v)) = false -> Registry.poisoned (v_registry v) = false ->
  stop m load elapsed now v = (Ok tt, v') ->
  (port_status m (v_rt v')).1 = Err (NotRunning m)
  /\ x_leases (v_tokens v') !! m = None
  /\ (forall lease, x_leases (v_tokens v) !! m = Some lease -> ServiceTokens.tokens (x_tokens (v_tokens v')) !! l_token lease = None)
  /\ v_gateways v' !! m = None /\ default healthy (v_health v' !! m) = healthy
  /\ (forall i, load = Ok (Some i) -> exists s, entry v' m = Some s /\ Registry.s_status s = Registry.Stopped).
Proof.
  intros Hi Ho Hp Hrp H. unfold stop, is_dev_override_active, gets in H. unfold bindr at 1 in H. cbn [is_unmanaged_module orb] in H.
  rewrite bool_decide_eq_false_2 in H by done. apply bindr_ok_inv in H as ([] & v1 & H1 & H). unfold run_rt in H1.
  destruct (port_stop m (v_rt v)) as [[[]|e] r] eqn:Es; [|done]. injection H1 as <-. apply stopped_is_gone in Es; [|done].
  destruct load as [l|e]; [|done].
  destruct (revoked_lease (v_tokens v) m "module-stop" elapsed now Hp) as (Hl & _ & Htk).
  assert (Hd : default healthy (clear_health m (v_health v) !! m) = healthy) by apply cleared.
  destruct l as [i|]; unfold revoke_recorded, stop_gateway_if_any, update_module_service_status, modify, bindr, ret in H; injection H as <-; cbn [v_rt v_tokens v_gateways v_health with_rt with_tokens with_registry with_gateways with_health].
  - split_and!; [done|by rewrite Hl, lookup_delete_eq|done|apply lookup_delete_eq|done|]. intros _ _. unfold entry, Registry.get, Registry.register. cbn. rewrite Hrp.
    cbn. rewrite lookup_insert_eq. by eexists.
  - split_and!; [done|by rewrite Hl, lookup_delete_eq|done|apply lookup_delete_eq|done|done].
Qed.

(** A stop whose read of the storage fails has stopped the module but
    answers with the error and keeps its lease, its token and its gateway;
    stopping again cannot help, it answers that the module is not running. *)
Theorem storage_error_keeps_token m e elapsed now v r load' elapsed' now' : port_inv (v_rt v) -> m ∉ v_overrides v ->
  port_stop m (v_rt v) = (Ok tt, r) ->
  stop m (Err e) elapsed now v = (Err (InvalidState e), with_rt v r)
  /\ stop m load' elapsed' now' (with_rt v r) = (Err (NotRunning m), with_rt v r)
  /\ v_tokens (with_rt v r) = v_tokens v /\ v_gateways (with_rt v r) = v_gateways v.
Proof.
  intros Hi Ho Es. pose proof (stopped_is_gone _ _ _ Hi Es) as Hgone.
  unfold stop, is_dev_override_active, gets, run_rt, bindr. cbn. rewrite bool_decide_eq_false_2, Es by done.
  change (v_rt (with_rt v r)) with r. rewrite (stop_needs_running _ _ Hgone). done.
Qed.

(** Nothing stands in the way of a start before its token is issued. *)
Definition preflight_passes c x (inst : Installed) (p : option Z) : Prop :=
  x_load x = Ok (Some inst) /\ x_preflight_timeout x = false /\ run_start_preflight (c_module_id c) x (in_path inst) p = Ok tt
  /\ is_ok (x_gateway x) = true /\ x_token_timeout x = false.

Lemma start_reaches_issue c t x v inst p v1 : let m := c_module_id c in
  m ∉ v_overrides v -> ServiceTokens.poisoned (x_tokens (v_tokens v)) = false -> accept_start c x v = (Ok (Some p), v1) -> preflight_passes c x inst p ->
  exists g ep, is_Some (g !! m) /\ start_with_trigger c t x v =
    start_issued c t x p ep (Some (start_token v m (x_reads x)), [succeeded "preflight"; succeeded "service_token"]) (with_tokens (with_gateways v1 g) (with_issued v m (x_reads x))).
Proof.
  cbn zeta. intros Ho Hp Ha (Hl & Hpt & Hpre & Hgw & Htt). destruct (accepted c x v _ v1 Ho Ha) as ((Hrt & Htok & Hreg & Hg & Hrep & Hov) & _ & _ & _).
  unfold start_with_trigger. rewrite Hl. erewrite (bindr_ok (lift _)) by reflexivity. cbn [is_unmanaged_module]. rewrite (bindr_ok _ _ _ _ _ Ha).
  unfold preflight_phase. rewrite Hpt, Hpre. erewrite (bindr_ok (ret _)) by reflexivity.
  pose proof (gateway_cases (c_module_id c) (x_gateway_alive x) (x_gateway x) v1) as Hc.
  destruct (ensure_gateway_endpoint _ _ _ v1) as [[ep|eg] v2] eqn:Eg.
  2: { unfold ensure_gateway_endpoint in Eg. destruct (x_gateway x); [|done]. repeat case_match; congruence. }
  destruct Hc as (g & -> & Hgm & _). rewrite (bindr_ok _ _ _ _ _ Eg). exists g, ep. split; [by rewrite Hgm|].
  unfold token_phase. rewrite Htt. unfold attempt, issue_module_service_token, is_unmanaged_module, is_dev_override_active, gets, bindr.
  rewrite bool_decide_eq_false_2 by (cbn; by rewrite Hov). unfold issue_default_service_token, issue_service_token_with_scopes, issue_service_token, issue, ret.
  cbn [v_tokens with_gateways]. unfold with_issued, start_token, start_claims. by rewrite Htok, Hp.
Qed.

(** When the environment of a module cannot be built, the start fails
    after its token was issued and its gateway started: the token is live
    and recorded nowhere, the gateway runs, and neither the registry nor the
    reports show the failure. *)
Theorem failed_environment_leaks_token c t x v inst p v1 e : let m := c_module_id c in
  m ∉ v_overrides v -> ServiceTokens.poisoned (x_tokens (v_tokens v)) = false -> accept_start c x v = (Ok (Some p), v1) -> preflight_passes c x inst p ->
  x_inject x (c_env_vars c) p (Some (start_token v m (x_reads x))) = Err e ->
  exists v', start_with_trigger c t x v = (Err (InvalidState e), v')
    /\ (exists en, ServiceTokens.tokens (x_tokens (v_tokens v')) !! r_token (x_reads x) = Some en /\ claims en = start_claims v m (x_reads x))
    /\ x_leases (v_tokens v') = x_leases (v_tokens v) /\ is_Some (v_gateways v' !! m)
    /\ v_registry v' = v_registry v /\ v_reports v' = v_reports v /\ v_rt v' = v_rt v.
Proof.
  cbn zeta. intros Ho Hp Ha Hpre Hinj. destruct (accepted c x v _ v1 Ho Ha) as ((Hrt & Htok & Hreg & Hg & Hrep & Hov) & _ & _ & _).
  destruct (start_reaches_issue c t x v inst p v1 Ho Hp Ha Hpre) as (g & ep & Hgm & Hs). rewrite Hs. unfold start_issued. cbn [fst snd]. rewrite Hinj.
  eexists. split; [reflexivity|]. cbn. split_and!; [|done..]. rewrite lookup_insert_eq. eauto.
Qed.

(** When the replicas of a started module cannot be brought up, the start
    fails with the module running: its token is live and not recorded. *)
Lemma failed_replicas_keep_token rc t x tok info ph v e r : (1 < x_replicas x)%nat -> port_reconcile rc (x_replicas x) (v_rt v) = (Err e, r) ->
  exists v', finish_start rc t x (Some tok) info ph v = (Err e, v') /\ v_rt v' = r /\ v_tokens v' = v_tokens v /\ v_gateways v' = v_gateways v.
Proof.
  intros Hr Hrec. unfold finish_start. destruct (Nat.ltb_spec 1 (Nat.max (x_replicas x) 1)) as [_|]; [|lia]. rewrite Nat.max_l by lia.
  unfold attempt, run_rt. unfold bindr at 1. rewrite Hrec. by eexists.
Qed.
End Starting.

(** ** A crashed module *)

Section Crashed.
Context `{VT : VersionText} (ans : nat -> Answers).
#[local] Hint Extern 0 (ModuleRuntimePort Rt) => exact (process_port ans) : typeclass_instances.
#[local] Hint Extern 0 (ModuleRuntimePortLaws Rt) => exact (process_port_laws ans) : typeclass_instances.

(** All its processes and servers have ended, and nobody stopped it. *)
Definition crashed (m : text) (r : Rt) : Prop :=
  of_module m (values (running_modules r)) <> [] /\ forall s, s ∈ of_module m (values (running_modules r)) -> ~ runs r s.

(** Nothing but the runtime itself stands in the way of a start. *)
Definition unhindered (m : text) (ports : ModulePortAllocator) (x : Inputs Rt) : Prop :=
  (exists inst p, preflight_passes (plain_config m [] true) x inst p
     /\ assigned_port (x_available x) (x_left1 x) (x_left2 x) (mkId m) ports = (ports, Ok p))
  /\ x_declared x = Ok false /\ (forall env p tok, is_ok (x_inject x env p tok) = true) /\ x_cancelled x = None.

Definition failure_answer (m : text) (q : option Z) : RtError := match q with Some until => Quarantined m until | None => AlreadyRunning m end.

Lemma guard_open (m : text) now (v : Service Rt) : (forall e, v_health v !! m = Some e -> quarantined_until e = None) -> guard_quarantine m now v = (Ok tt, v).
Proof.
  intros H. unfold guard_quarantine, quarantine_deadline. destruct (v_health v !! m) as [e|] eqn:E; [rewrite (H e eq_refl)|]; by destruct v.
Qed.

Lemma status_of_crashed (m : text) (v : Service Rt) : crashed m (v_rt v) ->
  exists info, attempt (run_rt (R := Rt) (port_status m)) v = (Ok (Ok info), v) /\ i_status info <> Running.
Proof.
  intros [Hne Hdead]. destruct (crashed_start ans (v_rt v) m (plain_config m [] true) eq_refl Hne Hdead) as [_ (info & Hs & Hf & _)].
  exists info. unfold attempt, run_rt. cbn [port_status process_port]. rewrite Hs. split; [by destruct v|congruence].
Qed.

(** One attempt: the failure is counted, and nothing else that the next
    attempt looks at changes. *)
Lemma ensure_crashed m (inst : Installed) x (v : Service Rt) : crashed m (v_rt v) -> unhindered m (v_ports v) x -> m ∉ v_overrides v ->
  ServiceTokens.poisoned (x_tokens (v_tokens v)) = false -> (forall e, v_health v !! m = Some e -> quarantined_until e = None) ->
  exists v', ensure_running m (Ok (Some inst)) x v = (Err (failure_answer m (record_failure m (x_failed_at x) (v_health v)).1), v')
    /\ v_health v' = (record_failure m (x_failed_at x) (v_health v)).2 /\ v_rt v' = v_rt v /\ v_ports v' = v_ports v /\ v_overrides v' = v_overrides v
    /\ ServiceTokens.poisoned (x_tokens (v_tokens v')) = false.
Proof.
  intros Hcr ((inst' & p & Hpre & Hport) & Hdecl & Hinj & Hcan) Ho Hp Hq.
  destruct (status_of_crashed m v Hcr) as (info & Hst & Hnr). pose proof (guard_open m (x_now x) v Hq) as Hg.
  assert (Hd : register_declared_services m x v = (Ok tt, v)).
  { unfold register_declared_services, is_dev_override_active, gets, bindr. by rewrite bool_decide_eq_false_2, Hdecl by done. }
  assert (Hov : is_dev_override_active m v = (Ok false, v)) by (unfold is_dev_override_active, gets; by rewrite bool_decide_eq_false_2).
  assert (Hacc : accept_start (plain_config m [] true) x v = (Ok (Some p), v)).
  { unfold accept_start. cbn [c_module_id plain_config c_port]. rewrite (bindr_ok _ _ _ _ _ Hd), (bindr_ok _ _ _ _ _ Hov), (bindr_ok _ _ _ _ _ Hst).
    cbn [is_running]. rewrite bool_decide_eq_false_2, (bindr_ok _ _ _ _ _ Hg) by done. unfold bindr, assign_port. rewrite Hport. by destruct v. }
  unfold ensure_running, ensure_running_with_trigger. cbn [is_unmanaged_module].
  rewrite (bindr_ok _ _ _ _ _ Hg), (bindr_ok _ _ _ _ _ Hd), (bindr_ok _ _ _ _ _ Hov), (bindr_ok _ _ _ _ _ Hst), bool_decide_eq_false_2 by done.
  destruct (start_reaches_issue (plain_config m [] true) TEnsureRunning x v inst' p v Ho Hp Hacc Hpre) as (g & ep & _ & Hs). cbn [c_module_id plain_config] in Hs.
  set (w := with_tokens _ _) in Hs. unfold start_issued in Hs. cbn [fst snd c_env_vars plain_config] in Hs.
  match type of Hs with context [x_inject x ?a ?b ?c] => specialize (Hinj a b c); destruct (x_inject x a b c) as [env|]; [|done] end.
  erewrite (bindr_ok (lift _)) in Hs by reflexivity. erewrite (bindr_ok (update_module_service_status _ _ _ _)) in Hs by reflexivity.
  match type of Hs with _ = bindr (runtime_phase ?rc ?t ?x (Some ?tok) ?ph) _ ?w' =>
    destruct (runtime_refuses rc t x tok ph w' (AlreadyRunning m) (v_rt v) Hcan) as (v' & Hrun & Hh & Hrt & Hpo & Hov' & Htk) end.
  { destruct Hcr as [Hne Hdead]. cbn [port_start process_port]. by apply crashed_start. }
  rewrite (bindr_err _ _ _ _ _ Hrun) in Hs. rewrite (bindr_err _ _ _ _ _ Hs). exists v'. split; [reflexivity|].
  split_and!; [done..|]. rewrite Htk. by apply revoked_not_poisoned.
Qed.

(** A failure that does not quarantine leaves the entry without a deadline. *)
Lemma counted_not_quarantined (m : text) (t : Z) (h : gmap text ModuleHealth) : (forall e, h !! m = Some e -> quarantined_until e = None) ->
  (record_failure m t h).1 = None -> forall e, (record_failure m t h).2 !! m = Some e -> quarantined_until e = None.
Proof.
  intros Hq. unfold record_failure. destruct (FAILURE_THRESHOLD <=? _); [done|]. intros _ e. cbn [snd]. rewrite lookup_insert_eq. intros [= <-]. cbn.
  destruct (h !! m) as [e|] eqn:E; cbn; [by apply Hq|done].
Qed.

(** A crashed module is not brought back by [ensure_running]: the runtime
    answers [AlreadyRunning] for it, every attempt is counted as a failure
    of the module, and the third one within the window quarantines it. *)
Theorem crashed_module_is_quarantined m (inst : Installed) (x1 x2 x3 : Inputs Rt) (v : Service Rt) :
  crashed m (v_rt v) -> m ∉ v_overrides v -> ServiceTokens.poisoned (x_tokens (v_tokens v)) = false -> v_health v !! m = None ->
  (forall x, x ∈ [x1; x2; x3] -> unhindered m (v_ports v) x) ->
  x_failed_at x2 - x_failed_at x1 <= window -> x_failed_at x3 - x_failed_at x2 <= window ->
  exists v1 v2 v3, ensure_running m (Ok (Some inst)) x1 v = (Err (AlreadyRunning m), v1)
    /\ ensure_running m (Ok (Some inst)) x2 v1 = (Err (AlreadyRunning m), v2)
    /\ ensure_running m (Ok (Some inst)) x3 v2 = (Err (Quarantined m (x_failed_at x3 + seconds QUARANTINE_DURATION_SECS)), v3)
    /\ crashed m (v_rt v3).
Proof.
  intros Hcr Ho Hp Hh Hx Hw1 Hw2. assert (Hx1 := Hx x1 ltac:(set_solver)). assert (Hx2 := Hx x2 ltac:(set_solver)). assert (Hx3 := Hx x3 ltac:(set_solver)).
  assert (Hq0 : forall e, v_health v !! m = Some e -> quarantined_until e = None) by (rewrite Hh; done).
  destruct (first_failure m (x_failed_at x1) (v_health v)) as [Ha1 (e1 & He1 & Hs1)]; [by rewrite Hh|].
  destruct (ensure_crashed m inst x1 v Hcr Hx1 Ho Hp Hq0) as (v1 & Hr1 & Hh1 & Hrt1 & Hpo1 & Hov1 & Hp1). rewrite Ha1 in Hr1. rewrite <- Hh1 in He1.
  pose proof (counted_not_quarantined m (x_failed_at x1) _ Hq0 Ha1) as Hq1. rewrite <- Hh1 in Hq1.
  destruct (failure_in_streak m 1 (x_failed_at x1) (x_failed_at x2) (v_health v1) e1 ltac:(lia) He1 Hs1 Hw1) as [Ha2 (e2 & He2 & Hs2)].
  destruct (ensure_crashed m inst x2 v1) as (v2 & Hr2 & Hh2 & Hrt2 & Hpo2 & Hov2 & Hp2); [by rewrite ?Hrt1, ?Hpo1, ?Hov1..|done|done|].
  rewrite Ha2 in Hr2. rewrite <- Hh2 in He2. pose proof (counted_not_quarantined m (x_failed_at x2) _ Hq1 Ha2) as Hq2. rewrite <- Hh2 in Hq2.
  destruct (failure_in_streak m 2 (x_failed_at x2) (x_failed_at x3) (v_health v2) e2 ltac:(lia) He2 Hs2 Hw2) as [Ha3 _].
  destruct (ensure_crashed m inst x3 v2) as (v3 & Hr3 & Hh3 & Hrt3 & _); [by rewrite ?Hrt2, ?Hrt1, ?Hpo2, ?Hpo1, ?Hov2, ?Hov1..|done|done|].
  rewrite Ha3 in Hr3. exists v1, v2, v3. split_and!; [done..|]. by rewrite Hrt3, Hrt2, Hrt1.
Qed.

Lemma update_if_routed_ok (p : option Z) (m i : text) ok err (v : Service Rt) : exists w, update_if_routed p m i ok err v = (Ok tt, w) /\ v_rt w = v_rt v.
Proof. destruct p; by eexists. Qed.

(** Replacing an instance of many starts a surge instance first, so the
    restart happens with one instance more than desired; but when the
    restarted instance fails its check, the replacement ends there and the
    surge instance stays, where a failed surge instance is removed again. *)
Theorem failed_replacement_keeps_surge m target (desired : nat) env (p : Probes) (v : Service Rt) surged surge r1 restarted r2 q e :
  rt_ok (v_rt v) -> (58 ∉ m) -> (0 < desired)%nat -> count m (running_modules (v_rt v)) = desired ->
  max_ordinal m (values (running_modules (v_rt v))) + Z.of_nat (desired + 1) <= u64_max ->
  reconcile_instances ans (plain_config m env false) (desired + 1) (v_rt v) = (Ok surged, r1) ->
  find (λ i, negb (bool_decide (n_instance_id i ∈ n_instance_id <$> (match (list_instances m (v_rt v)).1 with Ok l => l | Err _ => [] end)))) surged = Some surge ->
  is_ok (verify_module_rollout_health (i_port (n_runtime surge)) (p_surge p)) = true ->
  restart_instance ans m (n_instance_id target) r1 = (Ok restarted, r2) -> i_port restarted = Some q -> p_restarted p = Err e ->
  exists v', surge_replace_instance m target desired env p v = (Err (InvalidState e), v') /\ v_rt v' = r2 /\ count m (running_modules r2) = (desired + 1)%nat.
Proof.
  intros Hok Hm Hd Hc Hmax Hrec Hfind Hsv Hres Hq Hpr.
  destruct (reconcile_effect ans (plain_config m env false) (desired + 1) (v_rt v) surged r1 Hok Hm ltac:(lia) ltac:(cbn [c_module_id plain_config]; lia) Hmax Hrec) as (_ & Hc1 & _).
  assert (Hok1 : rt_ok r1).
  { pose proof (reconcile_ok ans (plain_config m env false) (desired + 1) Hm (v_rt v) Hok) as [H _]. unfold RtM in *. by rewrite Hrec in H. }
  pose proof (restart_instance_count ans m _ r1 restarted r2 Hres Hok1) as Hc2.
  pose proof (list_instances_length m (v_rt v)) as Hl. rewrite decide_False in Hl by lia. pose proof (list_instances_state m (v_rt v)) as Hls.
  destruct (list_instances m (v_rt v)) as [l0 r0] eqn:El. cbn [fst snd] in Hl, Hls, Hfind. subst l0 r0.
  assert (Hlist : run_rt (R := Rt) (port_list_instances m) v = (Ok ((λ s, mkInstance (instance_id s) (primary s) (info_from_state (v_rt v) s)) <$> module_instances m (values (running_modules (v_rt v)))), v)).
  { unfold run_rt. cbn [port_list_instances process_port]. rewrite El. by destruct v. }
  unfold surge_replace_instance. rewrite (bindr_ok _ _ _ _ _ Hlist). unfold run_rt at 1. unfold bindr at 1. cbn [port_reconcile process_port]. unfold RtM in *. rewrite Hrec, Hfind.
  destruct (verify_module_rollout_health _ (p_surge p)); [|done].
  edestruct update_if_routed_ok as (w1 & E1 & Hw1). rewrite (bindr_ok _ _ _ _ _ E1). edestruct update_if_routed_ok as (w2 & E2 & Hw2). rewrite (bindr_ok _ _ _ _ _ E2).
  assert (Hrun : run_rt (R := Rt) (port_restart_instance m (n_instance_id target)) w2 = (Ok restarted, with_rt w2 r2)).
  { unfold run_rt. cbn [port_restart_instance process_port]. rewrite Hw2, Hw1. unfold RtM in *. cbn [v_rt with_rt]. by rewrite Hres. }
  rewrite (bindr_ok _ _ _ _ _ Hrun), Hq, Hpr. cbn [verify_module_rollout_health]. edestruct update_if_routed_ok as (w3 & E3 & Hw3). rewrite (bindr_ok _ _ _ _ _ E3).
  eexists. split; [reflexivity|]. split; [exact Hw3|]. rewrite Hc2. exact Hc1.
Qed.
End Crashed.

(** ** Witnesses *)

#[local] Existing Instance demo_versions.
#[local] Instance demo_port : ModuleRuntimePort Rt := process_port (demo_ans good_kill).
#[local] Instance demo_port_laws : ModuleRuntimePortLaws Rt := process_port_laws (demo_ans good_kill).

Definition fixed_ports : ModulePortAllocator := mkAllocator Fixed (mkRange 4000 4020) ∅ NoFile.
Definition demo_service (r : Rt) : Service Rt := mkService r demo_exchange ∅ Registry.new fixed_ports ∅ ∅ ∅ [] ∅.
Definition shop_installed : Installed := mkInstalled demo_version (lit "/m").
Definition env_ok (env : list (text * text)) (p : option Z) (tok : option (string * DelegatedTokenClaims)) : result (list (text * text)) text := Ok env.
Definition env_broken (env : list (text * text)) (p : option Z) (tok : option (string * DelegatedTokenClaims)) : result (list (text * text)) text := Err (lit "env").
Definition demo_inputs (inject : list (text * text) -> option Z -> option (string * DelegatedTokenClaims) -> result (list (text * text)) text)
    (bind : option text) (failed_at : Z) : Inputs Rt :=
  mkInputs 0 (Ok (Some shop_installed)) (Ok false) (λ _, true) None None None true bind false false (Ok (lit "http://127.0.0.1:7000")) false
    demo_reads inject None failed_at 0 0 0 1 (Ok true).

Lemma quarantine_every_third_witness : run_failures shop ∅ [seconds 1; seconds 60; seconds 170] !! 2%nat = Some (deadline_at (Z.of_nat 2 + 1) (seconds 170))
  /\ deadline_at (Z.of_nat 2 + 1) (seconds 170) = Some (seconds 470).
Proof.
  split; [|reflexivity]. destruct (quarantine_every_third (R := Rt) shop ∅ [seconds 1; seconds 60; seconds 170] ltac:(by rewrite lookup_empty)) as [H _].
  apply H; [|reflexivity]. split; [|split; [|exact I]]; vm_compute; discriminate.
Defined.

(** The start of [shop] on an empty host. *)
Definition shop_started : result ModuleRuntimeInfo RtError * Service Rt := start_with_trigger shop_config TManualStart (demo_inputs env_ok None 0) (demo_service empty_rt).
Lemma shop_free : c_module_id shop_config ∉ v_overrides (demo_service empty_rt).
Proof. apply not_elem_of_empty. Qed.
Lemma successful_start_is_complete_witness : exists info v', shop_started = (Ok info, v') /\ is_Some (v_gateways v' !! c_module_id shop_config).
Proof.
  assert (Ho : is_ok shop_started.1 = true) by (vm_compute; reflexivity). destruct shop_started as [[info|e] v'] eqn:E; [|done]. exists info, v'. split; [done|].
  destruct (successful_start_is_complete (RP := demo_port) (RL := demo_port_laws) shop_config TManualStart (demo_inputs env_ok None 0) (demo_service empty_rt) info v' demo_ok shop_no_colon eq_refl eq_refl E)
    as (_ & _ & H). apply (H shop_free).
Defined.

(** Its port is taken. *)
Lemma failed_start_leaves_nothing_witness : exists e v', start_with_trigger shop_config TManualStart (demo_inputs env_ok (Some (lit "in use")) 0) (demo_service empty_rt) = (Err e, v')
  /\ nothing_left (c_module_id shop_config) (demo_service empty_rt) v'.
Proof.
  destruct (start_with_trigger shop_config TManualStart (demo_inputs env_ok (Some (lit "in use")) 0) (demo_service empty_rt)) as [[info|e] v'] eqn:E.
  - exfalso. assert (Ho : is_ok (start_with_trigger shop_config TManualStart (demo_inputs env_ok (Some (lit "in use")) 0) (demo_service empty_rt)).1 = false) by (vm_compute; reflexivity).
    by rewrite E in Ho.
  - exists e, v'. split; [done|].
    exact (failed_start_leaves_nothing (RP := demo_port) (RL := demo_port_laws) shop_config TManualStart (demo_inputs env_ok (Some (lit "in use")) 0) (demo_service empty_rt) e v' shop_free eq_refl eq_refl (λ _ _ _, eq_refl) ltac:(cbn; lia) E).
Defined.

Lemma stop_settles_module_witness : exists v', stop shop (Ok (Some shop_installed)) 0 5 (demo_service shop_rt) = (Ok tt, v') /\ x_leases (v_tokens v') !! shop = None.
Proof.
  destruct (stop shop (Ok (Some shop_installed)) 0 5 (demo_service shop_rt)) as [[[]|e] v'] eqn:E.
  - exists v'. split; [done|].
    destruct (stop_settles_module (RP := demo_port) (RL := demo_port_laws) shop (Ok (Some shop_installed)) 0 5 (demo_service shop_rt) v' shop_ok (not_elem_of_empty _) eq_refl eq_refl E) as (_ & Hl & _). exact Hl.
  - exfalso. assert (Ho : is_ok (stop shop (Ok (Some shop_installed)) 0 5 (demo_service shop_rt)).1 = true) by (vm_compute; reflexivity). by rewrite E in Ho.
Defined.

Lemma storage_error_keeps_token_witness : exists r, stop shop (Err (lit "disk")) 0 5 (demo_service shop_rt) = (Err (InvalidState (lit "disk")), with_rt (demo_service shop_rt) r)
  /\ stop shop (Ok (Some shop_installed)) 0 6 (with_rt (demo_service shop_rt) r) = (Err (NotRunning shop), with_rt (demo_service shop_rt) r).
Proof.
  destruct (port_stop shop (v_rt (demo_service shop_rt))) as [[[]|e] r] eqn:E.
  - exists r. destruct (storage_error_keeps_token (RP := demo_port) (RL := demo_port_laws) shop (lit "disk") 0 5 (demo_service shop_rt) r (Ok (Some shop_installed)) 0 6 shop_ok (not_elem_of_empty _) E) as (H1 & H2 & _).
    split; [exact H1|exact H2].
  - exfalso. assert (Ho : is_ok (port_stop shop (v_rt (demo_service shop_rt))).1 = true) by (vm_compute; reflexivity). by rewrite E in Ho.
Defined.

Lemma failed_environment_leaks_token_witness : exists v', start_with_trigger shop_config TManualStart (demo_inputs env_broken None 0) (demo_service empty_rt) = (Err (InvalidState (lit "env")), v')
  /\ is_Some (v_gateways v' !! c_module_id shop_config).
Proof.
  destruct (accept_start shop_config (demo_inputs env_broken None 0) (demo_service empty_rt)) as [a v1] eqn:E.
  assert (Ha : a = Ok (Some (Some 8080))) by (change a with ((a, v1).1); rewrite <- E; vm_compute; reflexivity). subst a.
  destruct (failed_environment_leaks_token (RP := demo_port) (RL := demo_port_laws) shop_config TManualStart (demo_inputs env_broken None 0) (demo_service empty_rt) shop_installed (Some 8080) v1 (lit "env"))
    as (v' & Hs & _ & _ & Hg & _); [exact shop_free|reflexivity|exact E|split_and!; reflexivity|reflexivity|]. exists v'. split; [exact Hs|exact Hg].
Defined.

Lemma shop_crashed : crashed shop (v_rt (demo_service (crash 100 shop_rt))).
Proof.
  assert (He : of_module shop (values (running_modules (crash 100 shop_rt))) = [shop_state]) by (vm_compute; reflexivity).
  split; cbn [v_rt demo_service]; [by rewrite He|]. intros s Hs. rewrite He in Hs. apply list_elem_of_singleton in Hs as ->. intros Hr.
  unfold runs, crash in Hr. cbn [kind shop_state alive set_alive] in Hr. apply elem_of_difference in Hr as [_ Hr]. by apply Hr, elem_of_singleton.
Qed.
Lemma demo_unhindered t : unhindered shop fixed_ports (demo_inputs env_ok None t).
Proof. split_and!; [|reflexivity|done|reflexivity]. exists shop_installed, None. split; [split_and!; reflexivity|reflexivity]. Qed.
Lemma crashed_module_is_quarantined_witness : exists v1 v2 v3,
  ensure_running shop (Ok (Some shop_installed)) (demo_inputs env_ok None (seconds 1)) (demo_service (crash 100 shop_rt)) = (Err (AlreadyRunning shop), v1)
  /\ ensure_running shop (Ok (Some shop_installed)) (demo_inputs env_ok None (seconds 2)) v1 = (Err (AlreadyRunning shop), v2)
  /\ ensure_running shop (Ok (Some shop_installed)) (demo_inputs env_ok None (seconds 3)) v2 = (Err (Quarantined shop (seconds 3 + seconds QUARANTINE_DURATION_SECS)), v3)
  /\ crashed shop (v_rt v3).
Proof.
  apply (crashed_module_is_quarantined (demo_ans good_kill) shop shop_installed (demo_inputs env_ok None (seconds 1)) (demo_inputs env_ok None (seconds 2))
    (demo_inputs env_ok None (seconds 3)) (demo_service (crash 100 shop_rt))); [exact shop_crashed|apply not_elem_of_empty|reflexivity|apply lookup_empty| | |].
  - intros x Hx. rewrite !elem_of_cons in Hx. destruct Hx as [-> |[-> |[-> |Hx]]]; [apply demo_unhindered..|by apply not_elem_of_nil in Hx].
  - vm_compute. discriminate.
  - vm_compute. discriminate.
Defined.

(** Two instances of [shop], the first one replaced. *)
Definition pair_rt : Rt := run_op (demo_ans good_kill) shop_rt (OpReconcile shop_config 2).
Definition pair_target : ModuleRuntimeInstanceInfo := mkInstance (primary_instance_id shop) true (info_from_state pair_rt shop_state).
Definition sick_probes : Probes := mkProbes (Ok []) (Err (lit "unhealthy")) (Ok []).
Lemma pair_ok : rt_ok pair_rt.
Proof. unfold pair_rt. exact (run_op_ok (demo_ans good_kill) shop_rt (OpReconcile shop_config 2) (shop_op (OpReconcile shop_config 2) eq_refl) shop_ok). Qed.
Definition pair_surged : result (list ModuleRuntimeInstanceInfo) RtError * Rt :=
  reconcile_instances (demo_ans good_kill) (plain_config shop [] false) (2 + 1) (v_rt (demo_service pair_rt)).
Definition pair_restarted : result ModuleRuntimeInfo RtError * Rt := restart_instance (demo_ans good_kill) shop (n_instance_id pair_target) pair_surged.2.
Definition ok_or {A : Type} (d : A) (r : result A RtError) : A := match r with Ok a => a | Err _ => d end.
Definition pair_surge : ModuleRuntimeInstanceInfo := List.last (ok_or [] pair_surged.1) pair_target.
Lemma failed_replacement_keeps_surge_witness : exists v', surge_replace_instance shop pair_target 2 [] sick_probes (demo_service pair_rt) = (Err (InvalidState (lit "unhealthy")), v')
  /\ v_rt v' = pair_restarted.2 /\ count shop (running_modules pair_restarted.2) = (2 + 1)%nat.
Proof.
  apply (failed_replacement_keeps_surge (demo_ans good_kill) shop pair_target 2 [] sick_probes (demo_service pair_rt) (ok_or [] pair_surged.1) pair_surge pair_surged.2
    (ok_or (n_runtime pair_target) pair_restarted.1) pair_restarted.2 8080 (lit "unhealthy")).
  - exact pair_ok.
  - exact shop_no_colon.
  - lia.
  - vm_compute. reflexivity.
  - vm_compute. discriminate.
  - vm_compute. reflexivity.
  - vm_compute. reflexivity.
  - vm_compute. reflexivity.
  - vm_compute. reflexivity.
  - vm_compute. reflexivity.
  - reflexivity.
Defined.
