(* ===== verification/ModuleEnv.v ===== *)
(** * The environment of a module: [inject_runtime_env] of
    [services/module/runtime.rs] and the variables of
    [services/module/config.rs]

    The variables a module process is started with: the host's own
    ([RESERVED_ENV_KEYS]), those of the control-plane client, of telemetry,
    those passed through from the host's environment by their prefix, and
    the configured ones, whose values may come from host variables or files.

    An environment is a list of bindings in order; a process sees the last
    binding of a name. *)

From stdpp Require Import pretty.
From S2P Require Import Prelude Text ServiceTokens Manifests TokenExchange.

#[local] Open Scope fenrir_scope.

Abbreviation Env := (list (text * text)) (only parsing).

(** The names and the version of the framed connector come from the module
    kit; timestamps are formatted by the [time] crate. *)
Class ModuleKit := {
  ENV_CONNECTOR_FRAMED : text;
  CONNECTOR_FRAMED_VERSION : text;
  format_timestamp : Z -> option text;
}.

Definition RESERVED_ENV_KEYS : list text := lit <$>
  ["FENRIR_ENV"; "FENRIR_MODULE_ID"; "FENRIR_SERVICE_ID"; "FENRIR_SERVICE_URI"; "FENRIR_SERVICE_PORT"; "FENRIR_SERVICE_ADDR";
   "FENRIR_SERVICE_TOKEN"; "FENRIR_SERVICE_TOKEN_ISSUED_AT"; "FENRIR_SERVICE_TOKEN_EXPIRES_AT"; "FENRIR_SERVICE_TOKEN_TTL_SECS";
   "FENRIR_DB_CONNECTOR_PROTOCOL"; "FENRIR_DB_CONNECTOR_ENDPOINT"; "FENRIR_DB_CONNECTOR_URI"; "FENRIR_DB_CONNECTOR_FRAMED";
   "FENRIR_CONTROL_PLANE_URL"; "FENRIR_SERVICE_SNAPSHOT_PATH"; "FENRIR_GATEWAY_ENDPOINT"]%string.
Definition is_reserved (k : text) : bool := bool_decide (k ∈ RESERVED_ENV_KEYS).

(** ** Operations on environments *)

Definition has_key (k : text) (env : Env) : bool := existsb (λ kv, bool_decide (kv.1 = k)) env.
Definition without (k : text) (env : Env) : Env := filter (λ kv, kv.1 <> k) env.
Definition replace_env (env : Env) (k v : text) : Env := without k env ++ [(k, v)].
Definition replace_some (env : Env) (k : text) (v : option text) : Env := match v with Some v => replace_env env k v | None => env end.

(** ** Configured variables *)

Inductive ModuleEnvSource := Literal (value : text) | FromEnv (var : text).
Record ModuleEnvVar := mkEnvVar { ev_key : text; ev_source : ModuleEnvSource; ev_secret : bool }.

Inductive EnvVarError := KeyEmpty | KeyWhitespace | RefEmpty | SecretNotRef.
Definition ModuleEnvVar_new (key value : text) (secret : bool) : result ModuleEnvVar EnvVarError :=
  let name := trim key in
  if bool_decide (name = []) then Err KeyEmpty
  else if existsb is_whitespace name then Err KeyWhitespace
  else match strip_prefix (lit "env:") (trim value) with
       | Some env_ref =>
           let var := trim env_ref in
           if bool_decide (var = []) then Err RefEmpty else Ok (mkEnvVar name (FromEnv var) secret)
       | None => if secret then Err SecretNotRef else Ok (mkEnvVar name (Literal value) secret)
       end.

Inductive ModuleEnvResolutionError :=
| Missing (env_var key : text) | Empty (env_var key : text) | Conflict (env_var file_var key : text) | FileRead (env_var file_var key path reason : text).

(** The host: its variables (each name once) and the files it can read. *)
Record Host := mkHost { h_vars : Env; h_read : text -> result text text }.
Definition host_var (h : Host) (k : text) : option text := snd <$> find (λ kv, bool_decide (kv.1 = k)) (h_vars h).
Definition non_empty (v : option text) : option text := v ≫= λ v, if bool_decide (trim v = []) then None else Some (trim v).

Definition resolve_secret_value (h : Host) (key env_var : text) : result text ModuleEnvResolutionError :=
  let direct := host_var h env_var in
  let file_var := env_var ++ lit "_FILE" in
  let file_ref := host_var h file_var in
  match non_empty direct, non_empty file_ref with
  | Some _, Some _ => Err (Conflict env_var file_var key)
  | Some value, None => Ok value
  | None, Some path =>
      match h_read h (trim path) with
      | Err reason => Err (FileRead env_var file_var key (trim path) reason)
      | Ok raw => if bool_decide (trim raw = []) then Err (Empty file_var key) else Ok (trim raw)
      end
  | None, None =>
      match direct, file_ref with
      | Some _, _ => Err (Empty env_var key)
      | None, Some _ => Err (Empty file_var key)
      | None, None => Err (Missing env_var key)
      end
  end.

Definition resolve_for (h : Host) (v : ModuleEnvVar) : result (text * text) ModuleEnvResolutionError :=
  match ev_source v with
  | Literal value => Ok (ev_key v, value)
  | FromEnv var => match resolve_secret_value h (ev_key v) var with Ok value => Ok (ev_key v, value) | Err e => Err e end
  end.

Fixpoint append_configured_env (h : Host) (env : Env) (overrides : list ModuleEnvVar) : result Env ModuleEnvResolutionError :=
  match overrides with
  | [] => Ok env
  | var :: overrides =>
      match resolve_for h var with
      | Err e => Err e
      | Ok (k, v) => append_configured_env h (if is_reserved k then env else replace_env env k v) overrides
      end
  end.

(** ** Host settings *)

Inductive OperatingMode := Production | Development.
Definition as_env_value (m : OperatingMode) : text := match m with Production => lit "prod" | Development => lit "dev" end.

Definition from_env_value (raw : option text) : OperatingMode :=
  match raw with
  | Some value => if bool_decide (to_ascii_lowercase (trim value) ∈ lit <$> ["dev"; "development"; "local"; "test"]%string) then Development else Production
  | None => Production
  end.

(** Where the database connector listens; [location] is the path or address. *)
Inductive ConnectorKind := Ipc | Tcp.
Record DbConnectorEndpoint := mkEndpoint { e_kind : ConnectorKind; e_location : text }.
Definition protocol (e : DbConnectorEndpoint) : text := match e_kind e with Ipc => lit "ipc" | Tcp => lit "tcp" end.
Definition uri (e : DbConnectorEndpoint) : text := protocol e ++ lit "://" ++ e_location e.

Record ModuleClientSettings := mkClient {
  timeout_ms : Z; retries : Z; backoff_ms : Z;
  accept_invalid_certs : bool; ca_cert_path : option text; client_cert_path : option text; client_key_path : option text;
}.

Record Settings := mkSettings {
  operating_mode : OperatingMode;
  db_connector_endpoint : option DbConnectorEndpoint;
  control_plane_url : option text;
  service_snapshot_path : option text;
  client_settings : ModuleClientSettings;
  env_passthrough_prefixes : list text;
  env_overrides : list ModuleEnvVar;
}.

Definition number (n : Z) : text := lit (pretty (Z.to_N n)).
Definition bool_text (b : bool) : text := lit (if b then "true" else "false").

Section Inject.
Context {MK : ModuleKit}.

(** [now] is the reading of the clock for the time left. *)
Definition service_token_env (token : string * DelegatedTokenClaims) (now : Z) : Env :=
  [(lit "FENRIR_SERVICE_TOKEN", text_of token.1)]
  ++ option_list ((λ t, (lit "FENRIR_SERVICE_TOKEN_ISSUED_AT", t)) <$> format_timestamp (issued_at token.2))
  ++ option_list ((λ t, (lit "FENRIR_SERVICE_TOKEN_EXPIRES_AT", t)) <$> format_timestamp (expires_at token.2))
  ++ [(lit "FENRIR_SERVICE_TOKEN_TTL_SECS", number (token_expires_in_seconds token.2 now))].

Definition db_connector_env (endpoint : option DbConnectorEndpoint) : Env :=
  match endpoint with
  | Some e => [(lit "FENRIR_DB_CONNECTOR_PROTOCOL", protocol e); (lit "FENRIR_DB_CONNECTOR_ENDPOINT", e_location e);
               (lit "FENRIR_DB_CONNECTOR_URI", uri e); (ENV_CONNECTOR_FRAMED, CONNECTOR_FRAMED_VERSION)]
  | None => []
  end.

Definition control_plane_env (url : option text) : Env := option_list ((λ u, (lit "FENRIR_CONTROL_PLANE_URL", u)) <$> url).

Definition append_client_env (c : ModuleClientSettings) (env : Env) : Env :=
  let env := replace_env env (lit "FENRIR_CONTROL_PLANE_TIMEOUT_MS") (number (timeout_ms c)) in
  let env := replace_env env (lit "FENRIR_CONTROL_PLANE_RETRY_ATTEMPTS") (number (retries c)) in
  let env := replace_env env (lit "FENRIR_CONTROL_PLANE_RETRY_BACKOFF_MS") (number (backoff_ms c)) in
  let env := replace_env env (lit "FENRIR_CONTROL_PLANE_TLS_ACCEPT_INVALID") (bool_text (accept_invalid_certs c)) in
  let env := replace_some env (lit "FENRIR_CONTROL_PLANE_TLS_CA_CERT") (ca_cert_path c) in
  let env := replace_some env (lit "FENRIR_CONTROL_PLANE_TLS_CLIENT_CERT") (client_cert_path c) in
  replace_some env (lit "FENRIR_CONTROL_PLANE_TLS_CLIENT_KEY") (client_key_path c).

(** ** Telemetry *)

Definition OTEL_ATTRIBUTES : text := lit "OTEL_RESOURCE_ATTRIBUTES".
Definition OTEL_NAMES : list text := lit <$>
  ["OTEL_EXPORTER_OTLP_ENDPOINT"; "OTEL_EXPORTER_OTLP_TRACES_ENDPOINT"; "OTEL_EXPORTER_OTLP_HEADERS"; "OTEL_EXPORTER_OTLP_PROTOCOL";
   "OTEL_TRACES_EXPORTER"; "OTEL_EXPORTER_OTLP_CERTIFICATE"; "TRACEPARENT"; "TRACESTATE"]%string.

(** The first binding of the attributes is extended. *)
Fixpoint extend_attributes (value : text) (env : Env) : option Env :=
  match env with
  | [] => None
  | (k, v) :: env =>
      if bool_decide (k = OTEL_ATTRIBUTES) then Some ((k, v ++ (if bool_decide (trim v = []) then [] else lit ",") ++ value) :: env)
      else (λ env, (k, v) :: env) <$> extend_attributes value env
  end.

Definition append_otel_name (h : Host) (env : Env) (name : text) : Env :=
  if has_key name env then env
  else match host_var h name with
       | Some value => if bool_decide (trim value = []) then env else env ++ [(name, value)]
       | None => env
       end.

Definition append_otel_env (h : Host) (m service_id : text) (env : Env) : Env :=
  let env := if has_key (lit "OTEL_SERVICE_NAME") env then env else env ++ [(lit "OTEL_SERVICE_NAME", service_id)] in
  let resource_value := lit "service.name=" ++ service_id ++ lit ",fenrir.module_id=" ++ m in
  let env := default (env ++ [(OTEL_ATTRIBUTES, resource_value)]) (extend_attributes resource_value env) in
  foldl (append_otel_name h) env OTEL_NAMES.

(** ** Passthrough *)

Definition trim_underscores (s : text) : text := let d := drop_while (λ c, c =? 95) in rev (d (rev (d s))).
Definition derived_env_prefixes (m : text) : list text :=
  let normalized := trim_underscores ((λ c, if is_ascii_alphanumeric c then ascii_upper c else 95) <$> m) in
  if bool_decide (normalized = []) then []
  else
    let prefix := normalized ++ lit "_" in
    prefix :: match find (λ s, negb (bool_decide (s = []))) (split 95 normalized) with
              | Some first => let short := first ++ lit "_" in if bool_decide (short = prefix) then [] else [short]
              | None => []
              end.

(** The first prefix of those that agree up to case is kept. *)
Fixpoint dedup_prefixes (seen : list text) (prefixes : list text) : list text :=
  match prefixes with
  | [] => []
  | p :: ps => if bool_decide (to_ascii_uppercase p ∈ seen) then dedup_prefixes seen ps else p :: dedup_prefixes (to_ascii_uppercase p :: seen) ps
  end.
Definition passthrough_prefixes (configured : list text) (m : text) : list text :=
  dedup_prefixes [] (filter (λ p, p <> []) (trim <$> configured) ++ derived_env_prefixes m).

Definition passes (prefixes : list text) (k : text) : bool :=
  negb (starts_with (lit "FENRIR_") k) && negb (is_reserved k) && existsb (λ p, starts_with p k) prefixes.
Definition append_env_passthrough (h : Host) (configured : list text) (m : text) (env : Env) : Env :=
  let prefixes := passthrough_prefixes configured m in
  foldl (λ env kv, if passes prefixes kv.1 && negb (has_key kv.1 env) then env ++ [kv] else env) env (h_vars h).

(** ** The whole environment *)

Definition own_env (s : Settings) (m : text) (port : option Z) (token : option (string * DelegatedTokenClaims)) (now : Z) : Env :=
  let service_id := lit "module:" ++ m in
  [(lit "FENRIR_ENV", as_env_value (operating_mode s)); (lit "FENRIR_MODULE_ID", m); (lit "FENRIR_SERVICE_ID", service_id);
   (lit "FENRIR_SERVICE_URI", lit "service://" ++ service_id)]
  ++ match port with
     | Some p => [(lit "FENRIR_SERVICE_PORT", number p); (lit "FENRIR_SERVICE_ADDR", lit "127.0.0.1:" ++ number p)]
     | None => []
     end
  ++ match token with Some t => service_token_env t now | None => [] end
  ++ db_connector_env (db_connector_endpoint s)
  ++ control_plane_env (control_plane_url s).

Definition inject_runtime_env (s : Settings) (h : Host) (env : Env) (m : text) (port : option Z) (token : option (string * DelegatedTokenClaims)) (now : Z)
    : result Env ModuleEnvResolutionError :=
  let env := filter (λ kv, is_reserved kv.1 = false) env ++ own_env s m port token now in
  let env := replace_some env (lit "FENRIR_SERVICE_SNAPSHOT_PATH") (service_snapshot_path s) in
  let env := append_client_env (client_settings s) env in
  let env := append_otel_env h m (lit "module:" ++ m) env in
  let env := append_env_passthrough h (env_passthrough_prefixes s) m env in
  append_configured_env h env (env_overrides s).
End Inject.
