(* ===== verification/ModuleEnvSafety.v ===== *)
(** * What the environment of a module guarantees

    The host's own variables reach the process as the host set them; where
    configured values come from; and what the prefixes of the passthrough do
    and do not restrict.  Theorems about [ModuleEnv], with the start of
    [Lifecycle] and [ProcessRuntime] that hand the environment on. *)

From S2P Require Import Prelude StateError Text Manifests Versions ServiceTokens TokenExchange ProcessRuntime ProcessRuntimeSafety Lifecycle LifecycleSafety ModuleEnv.

Import SiteProfile.
#[local] Open Scope fenrir_scope.

(** ** Bindings of a name *)

Definition bindings (k : text) (env : Env) : list text := (filter (λ kv, kv.1 = k) env).*2.

Lemma bindings_app k a b : bindings k (a ++ b) = bindings k a ++ bindings k b.
Proof. unfold bindings. by rewrite filter_app, fmap_app. Qed.
Lemma bindings_ne k k' v : k' <> k -> bindings k [(k', v)] = [].
Proof. intros H. unfold bindings. by rewrite filter_cons_False. Qed.
Lemma bindings_here k v : bindings k [(k, v)] = [v].
Proof. unfold bindings. by rewrite filter_cons_True. Qed.
Lemma bindings_none k (env : Env) : (forall kv, kv ∈ env -> kv.1 <> k) -> bindings k env = [].
Proof.
  intros H. unfold bindings. induction env as [|kv env IH]; [done|]. rewrite filter_cons_False by (apply H; left). apply IH. intros kv' Hin. apply H. by right.
Qed.
Lemma bindings_filter k (P : text * text -> Prop) `{forall x, Decision (P x)} (env : Env) : (forall kv, kv ∈ env -> kv.1 = k -> P kv) -> bindings k (filter P env) = bindings k env.
Proof.
  intros H1. unfold bindings. f_equal. induction env as [|kv env IH]; [done|]. rewrite !filter_cons. destruct (decide (P kv)) as [Hp|Hp].
  - rewrite filter_cons. destruct (decide (kv.1 = k)); rewrite IH; [done|..|done|]; intros; apply H1; set_solver.
  - destruct (decide (kv.1 = k)) as [Hk|]; [by exfalso; apply Hp, H1; [left|]|]. apply IH. intros; apply H1; set_solver.
Qed.
Lemma bindings_replace_ne k k' v env : k' <> k -> bindings k (replace_env env k' v) = bindings k env.
Proof.
  intros H. unfold replace_env, without. rewrite bindings_app, bindings_ne, app_nil_r by done. apply bindings_filter. intros kv _ <-. by apply not_eq_sym.
Qed.
Lemma bindings_replace_eq k v env : bindings k (replace_env env k v) = [v].
Proof.
  unfold replace_env, without. rewrite bindings_app, bindings_here, bindings_none; [done|]. by intros kv [Hne _]%list_elem_of_filter.
Qed.
Lemma bindings_replace_some_ne k k' v env : k' <> k -> bindings k (replace_some env k' v) = bindings k env.
Proof. intros H. destruct v; [by apply bindings_replace_ne|done]. Qed.

(** ** Reserved names *)

Lemma reserved_ne k k' : k ∈ RESERVED_ENV_KEYS -> is_reserved k' = false -> k' <> k.
Proof. unfold is_reserved. intros Hk H%bool_decide_eq_false ->. done. Qed.

#[local] Ltac free := apply reserved_ne; [assumption|vm_compute; reflexivity].

Lemma client_keeps k c env : k ∈ RESERVED_ENV_KEYS -> bindings k (append_client_env c env) = bindings k env.
Proof. intros Hk. unfold append_client_env. rewrite !bindings_replace_some_ne, !bindings_replace_ne by free. done. Qed.

Lemma attributes_keep k value env env' : k <> OTEL_ATTRIBUTES -> extend_attributes value env = Some env' -> bindings k env' = bindings k env.
Proof.
  intros Hk. revert env'. induction env as [|[k1 v1] env IH]; intros env'; cbn [extend_attributes]; [done|]. case_bool_decide as H.
  - intros [= <-]. unfold bindings. rewrite !filter_cons. cbn. by rewrite !decide_False by congruence.
  - destruct (extend_attributes value env) as [e|]; [|done]. intros [= <-]. specialize (IH e eq_refl). unfold bindings in *. rewrite !filter_cons. cbn.
    destruct (decide (k1 = k)); cbn; by rewrite IH.
Qed.

Lemma otel_name_keeps h k env name : name <> k -> bindings k (append_otel_name h env name) = bindings k env.
Proof.
  intros H. unfold append_otel_name. destruct (has_key name env); [done|]. destruct (host_var h name) as [v|]; [|done]. case_bool_decide; [done|].
  by rewrite bindings_app, bindings_ne, app_nil_r.
Qed.
Lemma otel_names_keep h k names env : k ∉ names -> bindings k (foldl (append_otel_name h) env names) = bindings k env.
Proof. revert env. induction names as [|n names IH]; intros env Hk; cbn [foldl]; [done|]. rewrite IH by set_solver. apply otel_name_keeps. set_solver. Qed.

Lemma otel_keeps h m sid k env : k ∈ RESERVED_ENV_KEYS -> bindings k (append_otel_env h m sid env) = bindings k env.
Proof.
  intros Hk. unfold append_otel_env.
  assert (Hn : k ∉ OTEL_NAMES).
  { intros Hin. assert (Hall : Forall (λ n, is_reserved n = false) OTEL_NAMES) by (apply (bool_decide_unpack (Forall (λ n, is_reserved n = false) OTEL_NAMES)); vm_compute; exact I).
    rewrite Forall_forall in Hall. by apply (reserved_ne k k Hk (Hall k Hin)). }
  rewrite otel_names_keep by done. set (e1 := if has_key _ env then env else _).
  assert (He1 : bindings k e1 = bindings k env).
  { subst e1. destruct (has_key _ env); [done|]. rewrite bindings_app, bindings_ne, app_nil_r; [done|]. free. }
  destruct (extend_attributes _ e1) as [e2|] eqn:E.
  - etrans; [|exact He1]. apply (attributes_keep k _ _ _) with (2 := E). apply not_eq_sym. free.
  - etrans; [|exact He1]. etrans; [apply bindings_app|]. rewrite bindings_ne, app_nil_r; [done|]. free.
Qed.

Lemma passthrough_keeps h configured m k env : k ∈ RESERVED_ENV_KEYS -> bindings k (append_env_passthrough h configured m env) = bindings k env.
Proof.
  intros Hk. unfold append_env_passthrough. generalize (passthrough_prefixes configured m). intros ps. revert env.
  induction (h_vars h) as [|[k1 v1] vars IH]; intros env; cbn [foldl]; [done|]. rewrite IH. cbn [fst].
  destruct (passes ps k1) eqn:E; [|done]. destruct (has_key k1 env); [done|]. cbn [andb negb]. rewrite bindings_app, bindings_ne, app_nil_r; [done|].
  apply reserved_ne; [done|]. unfold passes in E. apply andb_prop in E as [E _]. apply andb_prop in E as [_ E]. by destruct (is_reserved k1).
Qed.

Lemma configured_keeps h k overrides env env' : k ∈ RESERVED_ENV_KEYS -> append_configured_env h env overrides = Ok env' -> bindings k env' = bindings k env.
Proof.
  intros Hk. revert env. induction overrides as [|var overrides IH]; intros env; cbn [append_configured_env]; [by intros [= <-]|].
  destruct (resolve_for h var) as [[k1 v1]|e]; [|done]. intros H%IH. rewrite H. destruct (is_reserved k1) eqn:E; [done|]. apply bindings_replace_ne. by apply reserved_ne.
Qed.

Section Inject.
Context {MK : ModuleKit}.

(** The host's own bindings, with the path of the service snapshot. *)
Definition host_env (s : Settings) (m : text) (port : option Z) (token : option (string * DelegatedTokenClaims)) (now : Z) : Env :=
  own_env s m port token now ++ option_list ((λ p, (lit "FENRIR_SERVICE_SNAPSHOT_PATH", p)) <$> service_snapshot_path s).

(** Its names are among the reserved ones, each at most once. *)
Lemma host_keys s m port token now : ENV_CONNECTOR_FRAMED = lit "FENRIR_DB_CONNECTOR_FRAMED" -> (host_env s m port token now).*1 `sublist_of` RESERVED_ENV_KEYS.
Proof.
  intros Hf. unfold host_env, own_env. rewrite !fmap_app, <- !app_assoc.
  change RESERVED_ENV_KEYS with (take 4 RESERVED_ENV_KEYS ++ take 2 (drop 4 RESERVED_ENV_KEYS) ++ take 4 (drop 6 RESERVED_ENV_KEYS)
    ++ take 4 (drop 10 RESERVED_ENV_KEYS) ++ take 1 (drop 14 RESERVED_ENV_KEYS) ++ drop 15 RESERVED_ENV_KEYS).
  repeat (apply sublist_app; [|]).
  - reflexivity.
  - destruct port; [reflexivity|apply sublist_nil_l].
  - destruct token as [t|]; [|apply sublist_nil_l]. unfold service_token_env.
    destruct (format_timestamp (issued_at t.2)), (format_timestamp (expires_at t.2)); cbn; repeat first [apply sublist_skip | apply sublist_cons | apply sublist_nil].
  - destruct (db_connector_endpoint s); [|apply sublist_nil_l]. cbn. rewrite Hf. reflexivity.
  - destruct (control_plane_url s); [reflexivity|apply sublist_nil_l].
  - destruct (service_snapshot_path s); [|apply sublist_nil_l]. cbn. apply sublist_skip, sublist_nil_l.
Qed.

Lemma reserved_nodup : NoDup RESERVED_ENV_KEYS.
Proof. apply (bool_decide_unpack (NoDup RESERVED_ENV_KEYS)). vm_compute. exact I. Qed.

Lemma bindings_nodup k (env : Env) : NoDup env.*1 -> (length (bindings k env) <= 1)%nat.
Proof.
  induction env as [|[k1 v1] env IH]; [intros _; cbn; lia|]. rewrite fmap_cons. intros [Hk1 Hnd]%NoDup_cons. change ((k1, v1) :: env) with ([(k1, v1)] ++ env). rewrite bindings_app.
  destruct (decide (k1 = k)) as [->|Hne]; [|rewrite bindings_ne by done; by apply IH]. rewrite bindings_here, bindings_none; [done|].
  intros kv Hin Heq. apply Hk1, list_elem_of_fmap. by exists kv.
Qed.

(** The host's bindings of a reserved name, whatever the other sources hold. *)
Lemma inject_reserved s h env m port token now env' k : ENV_CONNECTOR_FRAMED = lit "FENRIR_DB_CONNECTOR_FRAMED" ->
  inject_runtime_env s h env m port token now = Ok env' -> k ∈ RESERVED_ENV_KEYS -> bindings k env' = bindings k (host_env s m port token now).
Proof.
  intros Hf H Hk. unfold inject_runtime_env in H. apply (configured_keeps _ k) in H; [|done]. rewrite H, passthrough_keeps, otel_keeps, client_keeps by done.
  pose proof (sublist_NoDup _ _ reserved_nodup (host_keys s m port token now Hf)) as Hnd. unfold host_env in *.
  assert (Hbase : bindings k (filter (λ kv, is_reserved kv.1 = false) env ++ own_env s m port token now) = bindings k (own_env s m port token now)).
  { rewrite bindings_app, (bindings_none k (filter _ _)); [done|]. intros kv [Hr _]%list_elem_of_filter. by apply reserved_ne. }
  destruct (service_snapshot_path s) as [p|]; cbn [replace_some]; [|etrans; [exact Hbase|]; by rewrite app_nil_r].
  change (option_list _) with [(lit "FENRIR_SERVICE_SNAPSHOT_PATH", p)] in *.
  rewrite bindings_app. destruct (decide (k = lit "FENRIR_SERVICE_SNAPSHOT_PATH")) as [->|Hne].
  - rewrite bindings_replace_eq, bindings_here, bindings_none; [done|]. intros kv Hin Heq. rewrite fmap_app in Hnd. apply NoDup_app in Hnd as (_ & Hd & _).
    apply (Hd kv.1); [apply list_elem_of_fmap; by exists kv|]. rewrite Heq. left.
  - by rewrite bindings_replace_ne, bindings_ne, app_nil_r by done.
Qed.

Lemma bindings_unique k v (env : Env) : NoDup env.*1 -> (k, v) ∈ env -> bindings k env = [v].
Proof.
  intros Hnd Hin. pose proof (bindings_nodup k env Hnd) as Hlen. assert (Hv : v ∈ bindings k env).
  { apply list_elem_of_fmap. exists (k, v). split; [done|]. by apply list_elem_of_filter. }
  destruct (bindings k env) as [|x [|y l]]; [by apply not_elem_of_nil in Hv| |cbn in Hlen; lia]. by apply list_elem_of_singleton in Hv as ->.
Qed.
End Inject.

(** ** The environment of a process *)

Section Process.
Context `{VT : VersionText} (ans : nat -> Answers).

(** A computation that starts the instance [i] with the environment [e]. *)
Definition starts_with_env (i : text) (e : Env) (c : RtM ModuleRuntimeInfo) : Prop :=
  forall r info r', c r = (Ok info, r') -> exists s, running_modules r' !! i = Some s /\ env s = Some e.

Lemma with_env_bind {A : Type} i e (c : RtM A) k : (forall a, starts_with_env i e (k a)) -> starts_with_env i e (bindr c k).
Proof. intros Hk r info r' (a & r1 & _ & H)%bindr_ok_inv. by apply (Hk a _ _ _ H). Qed.
Lemma with_env_fail i e err : starts_with_env i e (fail err).
Proof. by intros r info r'. Qed.
Lemma with_env_register i e s info : instance_id s = i -> env s = Some e -> starts_with_env i e (insert_running s >> save_state ans >> ret info).
Proof.
  intros <- He r info' r' H. destruct (register_then ans s info r) as (f & n & Hr). rewrite Hr in H. injection H as _ <-. exists s. cbn.
  by rewrite lookup_insert_eq.
Qed.
Lemma with_env_static f m i prim p v log e : starts_with_env i e (try_start_static_site ans f m i prim p v log e).
Proof. unfold try_start_static_site. destruct (f_bind f); [|apply with_env_fail]. apply with_env_bind. intros _. by apply with_env_register. Qed.
Lemma with_env_spawn f m i prim v p log e : starts_with_env i e (spawn_process ans f m i prim v p log e).
Proof. unfold spawn_process. do 4 (apply with_env_bind; intros ?). by apply with_env_register. Qed.

(** What the process of a started module sees: the host's variables without
    the host's own, then the given ones, then at most the migrations. *)
Lemma started_environment c r info r' : ProcessRuntime.start ans c r = (Ok info, r') ->
  exists s extra, running_modules r' !! primary_instance_id (c_module_id c) = Some s
    /\ env s = Some (sanitized_host_env (f_host_env (a_start (ans (calls r)))) ++ c_env_vars c ++ extra)
    /\ Forall (λ kv : text * text, kv.1 = lit "FENRIR_MODULE_MIGRATIONS_DIR") extra.
Proof.
  unfold ProcessRuntime.start, all_states, gets, fail. unfold bindr at 1. destruct (select_primary_instance _ _); [done|].
  unfold start_specific_instance, answer. unfold bindr at 1. set (f := a_start (ans (calls r))). unfold lift at 1. unfold bindr at 1.
  destruct (f_installed f) as [[[v path]|]|]; [|done|done]. cbn [map_err]. intros H. set (i := primary_instance_id (c_module_id c)) in *.
  set (base := sanitized_host_env (f_host_env f) ++ c_env_vars c) in H.
  set (full := match (f_manifest f ≫= λ mf, migrations_dir mf) with Some dir => _ | None => base end) in H.
  assert (Hfull : exists extra, full = sanitized_host_env (f_host_env f) ++ c_env_vars c ++ extra /\ Forall (λ kv : text * text, kv.1 = lit "FENRIR_MODULE_MIGRATIONS_DIR") extra).
  { subst full base. destruct (f_manifest f ≫= λ mf, migrations_dir mf) as [dir|]; [destruct (is_dir _ _)|].
    - exists [(lit "FENRIR_MODULE_MIGRATIONS_DIR", join_path (f_fs f) path dir)]. rewrite <- app_assoc. split; [done|]. by repeat constructor.
    - exists []. by rewrite app_nil_r.
    - exists []. by rewrite app_nil_r. }
  destruct Hfull as (extra & Hfull & Hex). enough (Hst : exists s, running_modules r' !! i = Some s /\ env s = Some full) by (destruct Hst as (s & ? & He); exists s, extra; rewrite He, Hfull; done).
  revert H. match goal with |- ?body _ = _ -> _ => enough (Hb : starts_with_env i full body) by exact (Hb _ _ _) end.
  do 3 (apply with_env_bind; intros ?).
  destruct (default Auto _); repeat first [apply with_env_fail|apply with_env_static|apply with_env_spawn|case_match|apply with_env_bind; intros ?].
Qed.

Lemma sanitized_no_fenrir host k : starts_with (lit "FENRIR_") k = true -> bindings k (sanitized_host_env host) = [].
Proof. intros Hk. apply bindings_none. intros kv [Hs _]%list_elem_of_filter <-. congruence. Qed.
Lemma reserved_is_fenrir k : k ∈ RESERVED_ENV_KEYS -> starts_with (lit "FENRIR_") k = true.
Proof.
  intros Hk. assert (Hall : Forall (λ n, starts_with (lit "FENRIR_") n = true) RESERVED_ENV_KEYS)
    by (apply (bool_decide_unpack (Forall (λ n, starts_with (lit "FENRIR_") n = true) RESERVED_ENV_KEYS)); vm_compute; exact I).
  rewrite Forall_forall in Hall. by apply Hall.
Qed.
Lemma migrations_not_reserved k (extra : Env) : k ∈ RESERVED_ENV_KEYS -> Forall (λ kv, kv.1 = lit "FENRIR_MODULE_MIGRATIONS_DIR") extra -> bindings k extra = [].
Proof. intros Hk He. apply bindings_none. intros kv Hin. rewrite Forall_forall in He. rewrite (He kv Hin). free. Qed.

Context {MK : ModuleKit}.

(** The reserved names in the process: what the host set, and the gateway. *)
Lemma process_reserved c assigned s h tok now environ ep host (extra : Env) k : ENV_CONNECTOR_FRAMED = lit "FENRIR_DB_CONNECTOR_FRAMED" ->
  inject_runtime_env s h (c_env_vars c) (c_module_id c) assigned tok now = Ok environ -> Forall (λ kv, kv.1 = lit "FENRIR_MODULE_MIGRATIONS_DIR") extra ->
  k ∈ RESERVED_ENV_KEYS ->
  bindings k (sanitized_host_env host ++ c_env_vars (runtime_config c assigned environ ep) ++ extra)
  = if decide (k = GATEWAY_ENV) then [ep] else bindings k (host_env s (c_module_id c) assigned tok now).
Proof.
  intros Hf Hinj Hex Hk. rewrite !bindings_app, sanitized_no_fenrir, (migrations_not_reserved k extra Hk Hex), app_nil_r by by apply reserved_is_fenrir. cbn [app c_env_vars runtime_config].
  rewrite bindings_app. destruct (decide (k = GATEWAY_ENV)) as [->|Hne].
  - rewrite bindings_here, bindings_none; [done|]. intros kv [Hg _]%list_elem_of_filter Heq. by rewrite bool_decide_eq_true_2 in Hg.
  - rewrite bindings_ne, app_nil_r by done. rewrite <- (inject_reserved _ _ _ _ _ _ _ _ k Hf Hinj Hk). apply bindings_filter.
    intros kv _ <-. by rewrite bool_decide_eq_false_2.
Qed.

Lemma host_binding s m port token now k v : ENV_CONNECTOR_FRAMED = lit "FENRIR_DB_CONNECTOR_FRAMED" -> (k, v) ∈ host_env s m port token now ->
  bindings k (host_env s m port token now) = [v].
Proof. intros Hf. apply bindings_unique. apply (sublist_NoDup _ _ reserved_nodup), host_keys, Hf. Qed.

(** C22: The process of a started module sees the host's own variables exactly
    as the host set them for it: its module id, its own token, the mode of
    the host and its gateway, each bound once, whatever the caller, the host
    environment and the configuration hold. *)
Theorem module_identity_from_host c assigned s h tok now environ ep r info r' : ENV_CONNECTOR_FRAMED = lit "FENRIR_DB_CONNECTOR_FRAMED" ->
  inject_runtime_env s h (c_env_vars c) (c_module_id c) assigned (Some tok) now = Ok environ ->
  ProcessRuntime.start ans (runtime_config c assigned environ ep) r = (Ok info, r') ->
  exists st e, running_modules r' !! primary_instance_id (c_module_id c) = Some st /\ env st = Some e
    /\ bindings (lit "FENRIR_MODULE_ID") e = [c_module_id c] /\ bindings (lit "FENRIR_SERVICE_TOKEN") e = [text_of tok.1]
    /\ bindings (lit "FENRIR_ENV") e = [as_env_value (operating_mode s)] /\ bindings GATEWAY_ENV e = [ep]
    /\ forall k, k ∈ RESERVED_ENV_KEYS -> (length (bindings k e) <= 1)%nat.
Proof.
  intros Hf Hinj Hst. destruct (started_environment _ _ _ _ Hst) as (st & extra & Hl & He & Hex). cbn [c_module_id runtime_config] in Hl.
  exists st. eexists. split; [exact Hl|]. split; [exact He|].
  assert (Hin : forall k v, k ∈ RESERVED_ENV_KEYS -> k <> GATEWAY_ENV -> (k, v) ∈ host_env s (c_module_id c) assigned (Some tok) now ->
    bindings k (sanitized_host_env (f_host_env (a_start (ans (calls r)))) ++ c_env_vars (runtime_config c assigned environ ep) ++ extra) = [v]).
  { intros k v Hk Hne Hkv. rewrite (process_reserved c assigned s h (Some tok) now environ ep _ extra k Hf Hinj Hex Hk), decide_False by done. by apply host_binding. }
  split_and!.
  1-3: apply Hin; [by apply (bool_decide_unpack _)|by apply (bool_decide_unpack _)|]; unfold host_env, own_env; rewrite !elem_of_app, !elem_of_cons; auto 20.
  - left. right. right. left. unfold service_token_env. left.
  - rewrite (process_reserved c assigned s h (Some tok) now environ ep _ extra GATEWAY_ENV Hf Hinj Hex), decide_True by (done || by apply (bool_decide_unpack _)). done.
  - intros k Hk. rewrite (process_reserved c assigned s h (Some tok) now environ ep _ extra k Hf Hinj Hex Hk). destruct (decide _); [done|].
    apply bindings_nodup, (sublist_NoDup _ _ reserved_nodup), host_keys, Hf.
Qed.

(** The prefixes do not restrict what a module sees.  A host variable
    without a matching prefix is not passed through, but the process of
    every module inherits it all the same, unless it is one of the host's
    own. *)
Theorem host_variables_reach_every_module c r info r' h configured k v : ProcessRuntime.start ans c r = (Ok info, r') ->
  (k, v) ∈ f_host_env (a_start (ans (calls r))) -> starts_with (lit "FENRIR_") k = false ->
  existsb (λ p, starts_with p k) (passthrough_prefixes configured (c_module_id c)) = false ->
  ~ (k, v) ∈ append_env_passthrough h configured (c_module_id c) []
  /\ exists st e, running_modules r' !! primary_instance_id (c_module_id c) = Some st /\ env st = Some e /\ (k, v) ∈ e.
Proof.
  intros Hst Hin Hk Hp. split.
  - unfold append_env_passthrough. generalize (h_vars h). intros vars.
    assert (Hgen : forall acc : Env, ~ (k, v) ∈ acc -> ~ (k, v) ∈ foldl (λ env kv, if passes (passthrough_prefixes configured (c_module_id c)) kv.1 && negb (has_key kv.1 env) then env ++ [kv] else env) acc vars).
    { induction vars as [|[k1 v1] vars IH]; intros acc Hacc; cbn [foldl]; [done|]. apply IH. cbn [fst]. destruct (passes _ k1 && _) eqn:E; [|done].
      rewrite elem_of_app, list_elem_of_singleton. intros [H|[= -> ->]]; [done|]. unfold passes in E. rewrite Hp in E. by rewrite !andb_false_r in E. }
    apply Hgen. apply not_elem_of_nil.
  - destruct (started_environment _ _ _ _ Hst) as (st & extra & Hl & He & _). exists st. eexists. split; [exact Hl|]. split; [exact He|].
    apply elem_of_app. left. by apply list_elem_of_filter.
Qed.
End Process.

(** ** Configured values *)

Definition blank (v : option text) : Prop := forall t, v = Some t -> trim t = [].

Lemma non_empty_none v : non_empty v = None <-> blank v.
Proof. unfold non_empty, blank. destruct v as [t|]; cbn; [case_bool_decide|]; naive_solver. Qed.
Lemma non_empty_some v t : non_empty v = Some t <-> exists raw, v = Some raw /\ t = trim raw /\ t <> [].
Proof. unfold non_empty. destruct v as [raw|]; cbn; [case_bool_decide|]; naive_solver. Qed.

(** The value of a configured variable that refers to the host's
    environment is the trimmed, non-empty content of the variable or of the
    file the variable with the suffix _FILE names; it is an error to set
    both, and no other value is ever used. *)
Theorem secret_resolution_exact h key var value :
  let file := host_var h (var ++ lit "_FILE") in
  resolve_secret_value h key var = Ok value <->
  (exists raw, host_var h var = Some raw /\ value = trim raw /\ value <> [] /\ blank file)
  \/ (blank (host_var h var) /\ exists path raw, file = Some path /\ trim path <> [] /\ h_read h (trim (trim path)) = Ok raw /\ value = trim raw /\ value <> []).
Proof.
  cbn zeta. unfold resolve_secret_value. destruct (non_empty (host_var h var)) as [d|] eqn:E1, (non_empty (host_var h (var ++ lit "_FILE"))) as [p|] eqn:E2.
  - apply non_empty_some in E1 as (raw & Hraw & -> & Hne), E2 as (path & Hpath & -> & Hpne). split; [done|]. intros [(raw' & _ & _ & _ & Hb)|(Hb & _)].
    + by apply Hb in Hpath.
    + by apply Hb in Hraw.
  - apply non_empty_some in E1 as (raw & Hraw & -> & Hne). apply non_empty_none in E2. split; [intros [= <-]; left; eauto|].
    intros [(raw' & Hraw' & -> & _)|(Hb & _)]; [congruence|by apply Hb in Hraw].
  - apply non_empty_none in E1. apply non_empty_some in E2 as (path & Hpath & -> & Hpne). destruct (h_read h (trim (trim path))) as [raw|e] eqn:Er.
    + case_bool_decide as Hb; (split; [|intros [(raw' & Hraw' & -> & Hne & Hbl)|(_ & path' & raw' & Hp' & _ & Hr' & -> & Hne)]]).
      * done.
      * by apply Hbl in Hpath.
      * congruence.
      * intros [= <-]. right. split; [done|]. exists path, raw. done.
      * by apply Hbl in Hpath.
      * congruence.
    + split; [done|]. intros [(raw' & Hraw' & -> & Hne & Hbl)|(_ & path' & raw' & Hp' & _ & Hr' & _)]; [by apply Hbl in Hpath|congruence].
  - apply non_empty_none in E1, E2. split; [by destruct (host_var h var), (host_var h (var ++ lit "_FILE"))|].
    intros [(raw & Hraw & -> & Hne & _)|(_ & path & raw & Hp & Hne & _)]; [by apply E1 in Hraw|by apply E2 in Hp].
Qed.

(** ** Prefixes *)

Lemma dedup_drops seen d ps : to_ascii_uppercase d ∈ seen -> d ∉ dedup_prefixes seen ps.
Proof.
  revert seen. induction ps as [|p ps IH]; intros seen Hs; cbn [dedup_prefixes]; [apply not_elem_of_nil|]. case_bool_decide as H; [by apply IH|].
  apply not_elem_of_cons. split; [congruence|]. apply IH. by right.
Qed.

(** A configured prefix in lower case switches off the derived prefix of
    the same letters: variables with the derived prefix are then not passed
    to the module.  [ConfigCheck.prefix_validate] refuses such a prefix. *)
Theorem lower_case_prefix_disables_derived (p d m : text) : trim p = p -> p <> [] -> d <> p -> to_ascii_uppercase p = to_ascii_uppercase d ->
  d ∈ derived_env_prefixes m -> d ∉ passthrough_prefixes [p] m.
Proof.
  intros Ht Hne Hd Hup Hin. unfold passthrough_prefixes. cbn [fmap list_fmap]. rewrite Ht, filter_cons_True by done. rewrite filter_nil. cbn [app dedup_prefixes].
  rewrite bool_decide_eq_false_2 by apply not_elem_of_nil. apply not_elem_of_cons. split; [done|]. apply dedup_drops. rewrite Hup. left.
Qed.

(** ** Witnesses *)

#[local] Existing Instance demo_versions.
#[local] Instance demo_kit : ModuleKit := {| ENV_CONNECTOR_FRAMED := lit "FENRIR_DB_CONNECTOR_FRAMED"; CONNECTOR_FRAMED_VERSION := lit "1"; format_timestamp := λ _, None |}.
Definition demo_settings : Settings :=
  mkSettings Production (Some (mkEndpoint Tcp (lit "127.0.0.1:7100"))) (Some (lit "http://127.0.0.1:9000")) (Some (lit "/run/services.json"))
    (mkClient 500 2 100 false None None None) [lit "shop_"] [mkEnvVar (lit "FENRIR_MODULE_ID") (Literal (lit "admin")) false; mkEnvVar (lit "KEY") (FromEnv (lit "SHOP_KEY")) true].
Definition demo_host : Host := mkHost [(lit "FENRIR_ENV", lit "dev"); (lit "SHOP_KEY", lit " s3cret "); (lit "OTHER", lit "x")] (λ _, Err (lit "no file")).
Definition shop_token : string * DelegatedTokenClaims := ("t-9", mkClaims "id-9" (ServiceTokens.Service "module:shop" Roles.SWrite) "default" [] 0 (seconds 60)).
Definition shop_environ : Env :=
  match inject_runtime_env demo_settings demo_host (c_env_vars shop_config) (c_module_id shop_config) (Some 8080) (Some shop_token) 0 with Ok e => e | Err _ => [] end.

Lemma module_identity_from_host_witness : exists info r' st e,
  ProcessRuntime.start (demo_ans good_kill) (runtime_config shop_config (Some 8080) shop_environ (lit "http://127.0.0.1:7000")) empty_rt = (Ok info, r')
  /\ running_modules r' !! primary_instance_id (c_module_id shop_config) = Some st /\ env st = Some e /\ bindings (lit "FENRIR_MODULE_ID") e = [c_module_id shop_config].
Proof.
  destruct (ProcessRuntime.start (demo_ans good_kill) (runtime_config shop_config (Some 8080) shop_environ (lit "http://127.0.0.1:7000")) empty_rt) as [[info|e] r'] eqn:E.
  - destruct (module_identity_from_host (demo_ans good_kill) shop_config (Some 8080) demo_settings demo_host shop_token 0 shop_environ (lit "http://127.0.0.1:7000") empty_rt info r')
      as (st & e & Hl & He & Hid & _); [reflexivity|vm_compute; reflexivity|exact E|]. exists info, r', st, e. split; [done|]. split; [exact Hl|]. split; [exact He|exact Hid].
  - exfalso. assert (Ho : is_ok (ProcessRuntime.start (demo_ans good_kill) (runtime_config shop_config (Some 8080) shop_environ (lit "http://127.0.0.1:7000")) empty_rt).1 = true) by (vm_compute; reflexivity).
    by rewrite E in Ho.
Defined.

(** A password of the host's database. *)
Definition leaky_ans (n : nat) : Answers :=
  let f := demo_facts n in
  mkAnswers (mkFacts (f_installed f) None [(lit "PGPASSWORD", lit "root")] (Ok tt) (Ok tt) (Ok tt) demo_fs Linux None (Ok 9000) 7 (Ok tt) (Ok 100) 0) good_kill Saved.
Lemma host_variables_reach_every_module_witness : ~ (lit "PGPASSWORD", lit "root") ∈ append_env_passthrough demo_host [] (c_module_id shop_config) []
  /\ exists r' st e, (ProcessRuntime.start leaky_ans shop_config empty_rt).2 = r' /\ running_modules r' !! primary_instance_id (c_module_id shop_config) = Some st /\ env st = Some e
  /\ (lit "PGPASSWORD", lit "root") ∈ e.
Proof.
  destruct (ProcessRuntime.start leaky_ans shop_config empty_rt) as [[info|e] r'] eqn:E.
  - destruct (host_variables_reach_every_module leaky_ans shop_config empty_rt info r' demo_host [] (lit "PGPASSWORD") (lit "root") E) as [H1 (st & e & Hl & He & Hin)];
      [left|vm_compute; reflexivity|vm_compute; reflexivity|]. split; [exact H1|]. exists r', st, e. split; [done|]. split; [exact Hl|]. split; [exact He|exact Hin].
  - exfalso. assert (Ho : is_ok (ProcessRuntime.start leaky_ans shop_config empty_rt).1 = true) by (vm_compute; reflexivity). by rewrite E in Ho.
Defined.

Lemma lower_case_prefix_disables_derived_witness : lit "SHOP_" ∉ passthrough_prefixes [lit "shop_"] (lit "shop").
Proof.
  apply (lower_case_prefix_disables_derived (lit "shop_") (lit "SHOP_") (lit "shop")); [vm_compute; reflexivity|discriminate|vm_compute; discriminate|vm_compute; reflexivity|].
  apply (bool_decide_unpack (lit "SHOP_" ∈ derived_env_prefixes (lit "shop"))). vm_compute. exact I.
Defined.
