(* ===== verification/Autostart.v ===== *)
(** * Start of all modules ([services/module/runtime.rs])

    [build_autostart_plan] orders the installed modules in layers by their
    required dependencies, with the modules it refuses; [ensure_all_running]
    starts layer after layer.  The order in which the hash map of the
    manifests is iterated is the argument [iter]; the result of a start is
    the argument [start]. *)

From S2P Require Import Prelude Text Versions Manifests Ports.

Inductive BlockReason :=
| InvalidDependency (raw : text)
| SelfDependency
| NotInstalled (dep : ModuleId)
| VersionMismatch (dep : ModuleId) (req : VersionReq)
| DependencyCycle.
Definition block_code (r : BlockReason) : string :=
  match r with
  | NotInstalled _ => "MODULE-DEP-001"
  | DependencyCycle => "MODULE-DEP-002"
  | InvalidDependency _ | SelfDependency => "MODULE-DEP-003"
  | VersionMismatch _ _ => "MODULE-DEP-005"
  end.
Record BlockedAutostartModule := mkBlocked { bl_module_id : ModuleId; bl_manifest : ModuleManifest; bl_reason : BlockReason }.
Record AutostartNode := mkNode { n_module_id : ModuleId; n_manifest : ModuleManifest; n_dependencies : list ModuleId }.
Record AutostartPlan := mkPlan { layers : list (list AutostartNode); blocked : list BlockedAutostartModule }.

(** A module after the loop over its dependencies. *)
Record Checked := mkChecked { ck_id : ModuleId; ck_manifest : ModuleManifest; ck_blocks : list BlockReason; ck_edges : list ModuleId }.

(** The maps of the loop and its sets. *)
Record Graph := mkGraph {
  indegree : gmap ModuleId nat;
  outgoing : gmap ModuleId (list ModuleId);
  deps_by_module : gmap ModuleId (list ModuleId);
  ready : gset ModuleId;
  processed : gset ModuleId;
}.

(** The order of [BTreeSet<ModuleId>]: texts compared character by character. *)
Fixpoint text_leb (a b : text) : bool :=
  match a, b with
  | [], _ => true
  | _ :: _, [] => false
  | x :: a, y :: b => (x <? y) || ((x =? y) && text_leb a b)
  end.
Definition id_le (a b : ModuleId) : Prop := text_leb (id_text a) (id_text b) = true.
#[global] Instance id_le_dec : RelDecision id_le.
Proof. intros a b. unfold id_le. apply _. Defined.

Section Plan.
Context `{S : Semver}.

Definition collect_manifests (modules : list ModuleManifest) : gmap ModuleId ModuleManifest :=
  foldl (λ m x, match ModuleId_new (lit (m_id x)) with Ok i => <[i := x]> m | Err _ => m end) ∅ modules.

Definition required_version (d : ModuleDependency) : option VersionReq :=
  match d with DepSpec s => dep_version s | DepId _ => None end.

(** The loop over the dependencies of one module: what blocks it, and the
    modules it waits for. *)
Fixpoint check_deps (manifests : gmap ModuleId ModuleManifest) (self : ModuleId) (seen : list ModuleId) (deps : list ModuleDependency)
    : list BlockReason * list ModuleId :=
  match deps with
  | [] => ([], [])
  | d :: deps =>
      if negb (required d) then check_deps manifests self seen deps
      else
        let raw := trim (lit (dependency_id d)) in
        match ModuleId_new raw with
        | Err _ => let (bs, es) := check_deps manifests self seen deps in (InvalidDependency raw :: bs, es)
        | Ok i =>
            if bool_decide (i = self) then let (bs, es) := check_deps manifests self seen deps in (SelfDependency :: bs, es)
            else if bool_decide (i ∈ seen) then check_deps manifests self seen deps
            else
              let (bs, es) := check_deps manifests self (i :: seen) deps in
              match manifests !! i with
              | None => (NotInstalled i :: bs, es)
              | Some dm =>
                  match required_version d with
                  | Some req => if version_req_matches req (m_version dm) then (bs, i :: es) else (VersionMismatch i req :: bs, es)
                  | None => (bs, i :: es)
                  end
              end
        end
  end.

Definition add_edge (g : Graph) (e : ModuleId * ModuleId) : Graph :=
  mkGraph (alter Datatypes.S e.1 (indegree g))
    (<[e.2 := default [] (outgoing g !! e.2) ++ [e.1]]> (outgoing g))
    (<[e.1 := default [] (deps_by_module g !! e.1) ++ [e.2]]> (deps_by_module g)) (ready g) (processed g).

Definition drop_blocked (g : Graph) (b : ModuleId) : Graph :=
  mkGraph (delete b (indegree g))
    (base.filter (λ c, c <> b) <$> delete b (outgoing g))
    (base.filter (λ c, c <> b) <$> delete b (deps_by_module g)) (ready g) (processed g).

(** One child of a module that was placed. *)
Definition release_child (g : Graph) (c : ModuleId) : Graph :=
  match indegree g !! c with
  | Some (Datatypes.S n) =>
      mkGraph (<[c := n]> (indegree g)) (outgoing g) (deps_by_module g) (if (n =? 0)%nat then {[c]} ∪ ready g else ready g) (processed g)
  | _ => g
  end.

Definition place_module (manifests : gmap ModuleId ModuleManifest) (gl : Graph * list AutostartNode) (m : ModuleId) : Graph * list AutostartNode :=
  let (g, layer) := gl in
  let g := mkGraph (indegree g) (outgoing g) (deps_by_module g) (ready g) ({[m]} ∪ processed g) in
  match manifests !! m with
  | None => (g, layer)
  | Some manifest =>
      let node := mkNode m manifest (default [] (deps_by_module g !! m)) in
      let children := default [] (outgoing g !! m) in
      let g := mkGraph (indegree g) (delete m (outgoing g)) (delete m (deps_by_module g)) (ready g) (processed g) in
      (foldl release_child g children, layer ++ [node])
  end.

Definition place_layer (manifests : gmap ModuleId ModuleManifest) (g : Graph) : Graph * list AutostartNode :=
  let current := merge_sort id_le (elements (ready g)) in
  foldl (place_module manifests) (mkGraph (indegree g) (outgoing g) (deps_by_module g) ∅ (processed g), []) current.

(** [while !ready.is_empty()]. *)
Fixpoint place_layers (fuel : nat) (manifests : gmap ModuleId ModuleManifest) (g : Graph) : Graph * list (list AutostartNode) :=
  match fuel with
  | O => (g, [])
  | Datatypes.S fuel =>
      if bool_decide (ready g = ∅) then (g, [])
      else
        let (g, layer) := place_layer manifests g in
        let (g, rest) := place_layers fuel manifests g in
        (g, match layer with [] => rest | _ => layer :: rest end)
  end.

Context (iter : gmap ModuleId ModuleManifest -> list (ModuleId * ModuleManifest)).

Definition checked (manifests : gmap ModuleId ModuleManifest) : list Checked :=
  (λ e, let (bs, es) := check_deps manifests e.1 [] (m_dependencies e.2) in mkChecked e.1 e.2 bs es) <$> iter manifests.

Definition blocks_of (cs : list Checked) : list BlockedAutostartModule :=
  concat ((λ c, mkBlocked (ck_id c) (ck_manifest c) <$> ck_blocks c) <$> cs).
Definition edges_of (cs : list Checked) : list (ModuleId * ModuleId) := concat ((λ c, pair (ck_id c) <$> ck_edges c) <$> cs).

Definition initial_graph (manifests : gmap ModuleId ModuleManifest) : Graph :=
  mkGraph ((λ _, 0%nat) <$> manifests) ((λ _, []) <$> manifests) ((λ _, []) <$> manifests) ∅ ∅.

Definition dependency_graph (manifests : gmap ModuleId ModuleManifest) : Graph :=
  let cs := checked manifests in
  let g := foldl add_edge (initial_graph manifests) (edges_of cs) in
  let blocked_ids : gset ModuleId := list_to_set (bl_module_id <$> blocks_of cs) in
  let g := foldl drop_blocked g (elements blocked_ids) in
  mkGraph (indegree g) (outgoing g) (deps_by_module g) (dom (base.filter (λ e, e.2 = 0%nat) (indegree g))) ∅.

Definition build_autostart_plan (modules : list ModuleManifest) : AutostartPlan :=
  let manifests := collect_manifests modules in
  let (g, ls) := place_layers (size manifests) manifests (dependency_graph manifests) in
  let cycles := omap (λ m, if bool_decide (m ∈ processed g) then None else (λ x, mkBlocked m x DependencyCycle) <$> manifests !! m) (elements (dom (indegree g))) in
  mkPlan ls (blocks_of (checked manifests) ++ cycles).
End Plan.

(** ** Starting the layers *)

(** What is reported of a module: blocked by the plan, skipped because a
    dependency did not start, or started with a result. *)
Inductive AutostartEvent :=
| Refused (b : BlockedAutostartModule)
| Skipped (m dep : ModuleId)
| Started (m : ModuleId) (ok : bool).
Definition started_ok (e : AutostartEvent) : option ModuleId := match e with Started m true => Some m | _ => None end.

(** One layer, with the modules that had started before it. *)
Definition start_node (start : ModuleId -> bool) (succeeded : gset ModuleId) (n : AutostartNode) : AutostartEvent :=
  match find (λ d, negb (bool_decide (d ∈ succeeded))) (n_dependencies n) with
  | Some dep => Skipped (n_module_id n) dep
  | None => Started (n_module_id n) (start (n_module_id n))
  end.

Fixpoint start_layers (start : ModuleId -> bool) (succeeded : gset ModuleId) (ls : list (list AutostartNode)) : list AutostartEvent :=
  match ls with
  | [] => []
  | l :: ls =>
      let events := start_node start succeeded <$> l in
      events ++ start_layers start (list_to_set (omap started_ok events) ∪ succeeded) ls
  end.

Definition ensure_all_running `{S : Semver} iter (start : ModuleId -> bool) (modules : list ModuleManifest) : list AutostartEvent :=
  let plan := build_autostart_plan iter modules in
  (Refused <$> blocked plan) ++ start_layers start ∅ (layers plan).
