(* ===== verification/AutostartSafety.v ===== *)
(** * What the start order promises

    Theorems about [Autostart]: layers follow the dependencies, nothing
    startable is left out, the loop ends, and no module is started before
    what it requires. *)

From S2P Require Import Prelude Text Versions Manifests Ports Autostart.

(** The modules of nodes. *)
Abbreviation ids ns := (n_module_id <$> ns).

Section Loop.
Context (edges : ModuleId -> list ModuleId).

Definition open_deps (P : gset ModuleId) (m : ModuleId) : list ModuleId := base.filter (λ d, d ∉ P) (edges m).

Lemma open_deps_nil P m : open_deps P m = [] <-> forall d, d ∈ edges m -> d ∈ P.
Proof.
  unfold open_deps. split.
  - intros H d Hd. destruct (decide (d ∈ P)); [done|]. assert (d ∈ base.filter (λ d, d ∉ P) (edges m)) as Hf by by apply list_elem_of_filter. rewrite H in Hf. by apply elem_of_nil in Hf.
  - intros H. destruct (base.filter _ _) as [|d l] eqn:E; [done|]. assert (d ∈ base.filter (λ d, d ∉ P) (edges m)) as Hf by (rewrite E; set_solver).
    apply list_elem_of_filter in Hf as [Hf1 Hf2]. by apply H in Hf2.
Qed.

Lemma open_deps_mono P P' m : P ⊆ P' -> open_deps P m = [] -> open_deps P' m = [].
Proof. rewrite !open_deps_nil. set_solver. Qed.

Lemma open_deps_length P m : length (open_deps P m) = 0%nat <-> open_deps P m = [].
Proof. split; [apply nil_length_inv|by intros ->]. Qed.

Context (manifests : gmap ModuleId ModuleManifest) (V : gset ModuleId).

(** The state of the loop; [extra] are the modules of the layer still to place. *)
Record linv (extra : list ModuleId) (g : Graph) : Prop := {
  li_processed : processed g ⊆ V;
  li_indegree : forall m, indegree g !! m = if decide (m ∈ V) then Some (length (open_deps (processed g) m)) else None;
  li_outgoing : forall d, d ∈ V -> d ∉ processed g -> exists cs, outgoing g !! d = Some cs /\ NoDup cs /\ forall c, c ∈ cs <-> c ∈ V /\ d ∈ edges c;
  li_deps : forall d, d ∈ V -> d ∉ processed g -> deps_by_module g !! d = Some (base.filter (λ x, x ∈ V) (edges d));
  li_ready : forall m, (m ∈ ready g \/ m ∈ extra) <-> m ∈ V /\ (m ∉ processed g) /\ open_deps (processed g) m = [];
  li_closed : forall m, m ∈ processed g -> open_deps (processed g) m = [];
  li_extra : NoDup extra;
  li_disjoint : forall m, m ∈ extra -> m ∉ ready g;
}.

Lemma release_children cs g : NoDup cs ->
  let g' := foldl release_child g cs in
  outgoing g' = outgoing g /\ deps_by_module g' = deps_by_module g /\ processed g' = processed g /\
  (forall x, indegree g' !! x = if decide (x ∈ cs) then Nat.pred <$> indegree g !! x else indegree g !! x) /\
  (forall x, x ∈ ready g' <-> x ∈ ready g \/ (x ∈ cs /\ indegree g !! x = Some 1%nat)).
Proof.
  revert g. induction cs as [|c cs IH]; intros g Hnd; cbn.
  - split_and!; [done..|]. intros x. set_solver.
  - apply NoDup_cons in Hnd as [Hc Hnd]. destruct (IH (release_child g c) Hnd) as (-> & -> & -> & Hi & Hr). clear IH.
    assert (Hrel : outgoing (release_child g c) = outgoing g /\ deps_by_module (release_child g c) = deps_by_module g /\ processed (release_child g c) = processed g /\
      (forall x, indegree (release_child g c) !! x = if decide (x = c) then Nat.pred <$> indegree g !! x else indegree g !! x) /\
      (forall x, x ∈ ready (release_child g c) <-> x ∈ ready g \/ (x = c /\ indegree g !! x = Some 1%nat))).
    { unfold release_child. destruct (indegree g !! c) as [[|n]|] eqn:Ec; cbn.
      - split_and!; try done; intros x; [destruct (decide (x = c)) as [->|]; [by rewrite Ec|done]|]. split; [by left|]. intros [?|[-> ?]]; [done|congruence].
      - split_and!; try done; intros x; [destruct (decide (x = c)) as [->|]; [by rewrite lookup_insert_eq, Ec|by rewrite lookup_insert_ne]|].
        destruct (n =? 0)%nat eqn:En; [apply Nat.eqb_eq in En as ->|apply Nat.eqb_neq in En]; [set_solver|]. split; [by left|]. intros [?|[-> ?]]; [done|congruence].
      - split_and!; try done; intros x; [destruct (decide (x = c)) as [->|]; [by rewrite Ec|done]|]. split; [by left|]. intros [?|[-> ?]]; [done|congruence]. }
    destruct Hrel as (R1 & R2 & R3 & R4 & R5). split_and!; try done; intros x.
    + rewrite Hi, R4. destruct (decide (x = c)) as [->|Hne]; [rewrite decide_False, decide_True by set_solver; done|].
      destruct (decide (x ∈ cs)); [by rewrite decide_True by set_solver|by rewrite decide_False by set_solver].
    + rewrite Hr, R5, R4. destruct (decide (x = c)) as [->|Hne]; set_solver.
Qed.

Hypothesis V_manifests : forall m, m ∈ V -> exists x, manifests !! m = Some x.
Hypothesis edges_nodup : forall m, m ∈ V -> NoDup (edges m).

Lemma open_deps_placed P m c : c ∈ V -> m ∉ P ->
  length (open_deps ({[m]} ∪ P) c) = if decide (m ∈ edges c) then Nat.pred (length (open_deps P c)) else length (open_deps P c).
Proof.
  intros Hc Hm. pose proof (edges_nodup c Hc) as Hnd. unfold open_deps. induction (edges c) as [|d l IH]; [done|]. apply NoDup_cons in Hnd as [Hd Hnd]. specialize (IH Hnd).
  rewrite !filter_cons. destruct (decide (d = m)) as [->|Hne].
  - rewrite (decide_False (P := m ∉ {[m]} ∪ P)), (decide_True (P := m ∉ P)), (decide_True (P := m ∈ m :: l)) by set_solver. cbn.
    rewrite decide_False in IH by done. done.
  - destruct (decide (d ∉ P)) as [HdP|HdP].
    + rewrite (decide_True (P := d ∉ {[m]} ∪ P)) by set_solver. cbn. rewrite IH. destruct (decide (m ∈ l)) as [Hml|Hml].
      * rewrite (decide_True (P := m ∈ d :: l)) by set_solver.
        assert (length (base.filter (λ d, d ∉ P) l) <> 0%nat); [|cbn; lia]. intros E%nil_length_inv. assert (m ∈ base.filter (λ d, d ∉ P) l) as H by by apply list_elem_of_filter.
        rewrite E in H. by apply elem_of_nil in H.
      * rewrite (decide_False (P := m ∈ d :: l)) by set_solver. done.
    + rewrite (decide_False (P := d ∉ {[m]} ∪ P)) by set_solver. rewrite IH. destruct (decide (m ∈ l)); [by rewrite decide_True by set_solver|by rewrite decide_False by set_solver].
Qed.

Lemma place_module_step m extra g l : linv (m :: extra) g ->
  exists g' x, place_module manifests (g, l) m = (g', l ++ [mkNode m x (base.filter (λ x, x ∈ V) (edges m))]) /\
  manifests !! m = Some x /\ linv extra g' /\ processed g' = {[m]} ∪ processed g.
Proof.
  intros [Hp Hi Ho Hd Hr Hcl He Hdis]. destruct (proj1 (Hr m)) as (HmV & HmP & Hopen); [right; set_solver|]. destruct (V_manifests m HmV) as [x Hx].
  destruct (Ho m HmV HmP) as (cs & Hcs & Hnd & Hel). unfold place_module. cbn [deps_by_module outgoing indegree ready processed]. rewrite Hx, Hcs, (Hd m HmV HmP). cbn [default].
  set (g0 := mkGraph _ _ _ _ _). destruct (release_children cs g0 Hnd) as (R1 & R2 & R3 & R4 & R5). set (g' := foldl release_child g0 cs) in *.
  exists g', x. split_and!; [done|done| |done]. apply NoDup_cons in He as [Hme He]. assert (Hself : m ∉ edges m) by (intros H; by apply (proj1 (open_deps_nil _ _) Hopen) in H).
  assert (Hdeg : forall c, c ∈ V -> length (open_deps ({[m]} ∪ processed g) c) = if decide (c ∈ cs) then Nat.pred (length (open_deps (processed g) c)) else length (open_deps (processed g) c)).
  { intros c Hc. rewrite open_deps_placed by done. destruct (decide (m ∈ edges c)) as [Hin|Hin]; [rewrite decide_True by (by apply Hel)|rewrite decide_False by (by intros [_ ?]%Hel)]; done. }
  split; rewrite ?R1, ?R2, ?R3; cbn; [set_solver|..].
  - intros c. rewrite R4. cbn. rewrite Hi. destruct (decide (c ∈ V)) as [Hc|Hc]; [rewrite Hdeg by done; by destruct (decide (c ∈ cs))|by destruct (decide (c ∈ cs))].
  - intros d HdV HdP. assert (d <> m) by set_solver. rewrite lookup_delete_ne by done. apply Ho; set_solver.
  - intros d HdV HdP. assert (d <> m) by set_solver. rewrite lookup_delete_ne by done. apply Hd; set_solver.
  - intros c. rewrite R5. cbn. rewrite Hi. split.
    + assert (Hold : c <> m -> c ∈ V /\ (c ∉ processed g) /\ open_deps (processed g) c = [] -> c ∈ V /\ (c ∉ {[m]} ∪ processed g) /\ open_deps ({[m]} ∪ processed g) c = []).
      { intros Hne (H1 & H2 & H3). split_and!; [done|set_solver|]. eapply open_deps_mono; [|exact H3]. set_solver. }
      intros [[Hin|[Hin Hone]]|Hin].
      * apply Hold; [intros ->; apply (Hdis m); set_solver|apply Hr; by left].
      * apply Hel in Hin as Hin'. destruct Hin' as [HcV Hmc]. rewrite decide_True in Hone by done. injection Hone as Hone.
        split_and!; [done| |apply open_deps_length; rewrite Hdeg, decide_True, Hone by done; done].
        intros [->%elem_of_singleton|HcP]%elem_of_union; [done|]. apply Hcl, open_deps_length in HcP. lia.
      * apply Hold; [set_solver|apply Hr; set_solver].
    + intros (HcV & HcP & Hnil). apply open_deps_length in Hnil. rewrite Hdeg in Hnil by done.
      assert (Hback : length (open_deps (processed g) c) = 0%nat -> c ∈ ready g \/ c ∈ extra).
      { intros H%open_deps_length. assert (c ∈ ready g \/ c ∈ m :: extra) as [?|?] by (apply Hr; split_and!; [done|set_solver|done]); set_solver. }
      rewrite decide_True by done. destruct (decide (c ∈ cs)) as [Hcc|Hcc]; [|destruct (Hback Hnil); auto].
      destruct (length (open_deps (processed g) c)) as [|[|n]] eqn:E; [destruct (Hback eq_refl); auto|by auto|done].
  - intros c [->%elem_of_singleton|HcP]%elem_of_union; (eapply open_deps_mono; [apply union_subseteq_r|]); [done|by apply Hcl].
  - done.
  - intros c Hce. rewrite R5. cbn. rewrite Hi. intros [Hin|[_ Hone]]; [apply (Hdis c); set_solver|].
    destruct (proj1 (Hr c)) as (HcV & _ & Hn); [set_solver|]. rewrite decide_True in Hone by done. apply open_deps_length in Hn. rewrite Hn in Hone. done.
Qed.

(** ** Layers *)

(** A node of a layer: its dependencies are all placed before. *)
Record node_ok (P : gset ModuleId) (n : AutostartNode) : Prop := {
  no_manifest : manifests !! n_module_id n = Some (n_manifest n);
  no_deps : n_dependencies n = edges (n_module_id n);
  no_before : forall d, d ∈ edges (n_module_id n) -> d ∈ P;
}.

Lemma filter_all (P : gset ModuleId) (l : list ModuleId) : (forall d, d ∈ l -> d ∈ P) -> base.filter (λ x, x ∈ P) l = l.
Proof. induction l as [|d l IH]; intros H; [done|]. rewrite filter_cons_True by set_solver. f_equal. apply IH. set_solver. Qed.

Lemma place_current cur P g l : P ⊆ processed g -> (forall m, m ∈ cur -> forall d, d ∈ edges m -> d ∈ P) -> linv cur g ->
  exists g' ns, foldl (place_module manifests) (g, l) cur = (g', l ++ ns) /\ ids ns = cur /\ Forall (node_ok P) ns /\
  linv [] g' /\ processed g' = list_to_set cur ∪ processed g.
Proof.
  revert g l. induction cur as [|m cur IH]; intros g l HP Hdeps Hinv.
  - exists g, []. rewrite app_nil_r. split_and!; [done|done|constructor|done|set_solver].
  - assert (HPV : P ⊆ V) by (pose proof (li_processed _ _ Hinv); set_solver).
    destruct (place_module_step m cur g l Hinv) as (g1 & x & Hstep & Hx & Hinv1 & Hp1). cbn [foldl]. rewrite Hstep.
    destruct (IH g1 (l ++ [mkNode m x (base.filter (λ x, x ∈ V) (edges m))])) as (g' & ns & Hf & Hids & Hall & Hinv' & Hp'); [set_solver|set_solver|done|].
    exists g', (mkNode m x (base.filter (λ x, x ∈ V) (edges m)) :: ns). rewrite Hf, <- app_assoc. split_and!; [done|cbn; by rewrite Hids| |done|rewrite Hp', Hp1; set_solver].
    constructor; [|done]. split; cbn; [done| |apply Hdeps; set_solver]. apply filter_all. intros d Hd. apply HPV. eapply Hdeps; [|done]. set_solver.
Qed.

Lemma place_layer_step g : linv [] g ->
  exists g' ns, place_layer manifests g = (g', ns) /\ ids ns ≡ₚ elements (ready g) /\ Forall (node_ok (processed g)) ns /\
  linv [] g' /\ processed g' = ready g ∪ processed g.
Proof.
  intros Hinv. unfold place_layer. set (cur := merge_sort id_le (elements (ready g))).
  assert (Hcur : cur ≡ₚ elements (ready g)) by apply merge_sort_Permutation. assert (Hin : forall m, m ∈ cur <-> m ∈ ready g) by (intros m; by rewrite Hcur, elem_of_elements).
  set (g0 := mkGraph _ _ _ _ _). destruct (place_current cur (processed g) g0 []) as (g' & ns & Hf & Hids & Hall & Hinv' & Hp'); [done| | |].
  - intros m Hm. apply Hin in Hm. apply open_deps_nil. by apply (li_ready _ _ Hinv m); left.
  - destruct Hinv as [Hp Hi Ho Hd Hr Hcl He Hdis]. split; cbn; try done.
    + intros m. rewrite <- Hr, Hin. set_solver.
    + cbn. rewrite Hcur. apply NoDup_elements.
  - exists g', ns. rewrite Hf. split_and!; [done|by rewrite Hids|done|done|]. rewrite Hp'. cbn. apply set_eq. intros m. rewrite !elem_of_union, elem_of_list_to_set, Hin. done.
Qed.

Inductive layered (P : gset ModuleId) : list (list AutostartNode) -> Prop :=
| layered_nil : layered P []
| layered_cons l ls : Forall (node_ok P) l -> layered (list_to_set (ids l) ∪ P) ls -> layered P (l :: ls).

Lemma place_layers_spec fuel g : linv [] g -> (size (V ∖ processed g) <= fuel)%nat ->
  exists g' ls, place_layers fuel manifests g = (g', ls) /\ linv [] g' /\ ready g' = ∅ /\ layered (processed g) ls /\
  NoDup (ids (concat ls)) /\ (forall m, m ∈ ids (concat ls) -> m ∉ processed g) /\ processed g' = list_to_set (ids (concat ls)) ∪ processed g.
Proof.
  revert g. induction fuel as [|fuel IH]; intros g Hinv Hsize; cbn [place_layers].
  - exists g, []. assert (Hr : ready g = ∅).
    { apply set_eq. intros m. split; [|set_solver]. intros Hm. destruct (proj1 (li_ready _ _ Hinv m) (or_introl Hm)) as (HV & HP & _).
      assert (size (V ∖ processed g) = 0%nat) as H0 by lia. apply size_empty_inv in H0. set_solver. }
    split_and!; [done|done|done|constructor|constructor|set_solver|set_solver].
  - case_bool_decide as Hr; [exists g, []; split_and!; [done|done|done|constructor|constructor|set_solver|set_solver]|].
    destruct (place_layer_step g Hinv) as (g1 & ns & Hl & Hids & Hall & Hinv1 & Hp1). rewrite Hl.
    assert (Hfresh : forall m, m ∈ ids ns <-> m ∈ ready g) by (intros m; by rewrite Hids, elem_of_elements).
    assert (Hnew : forall m, m ∈ ready g -> m ∈ V /\ m ∉ processed g) by (intros m Hm; destruct (proj1 (li_ready _ _ Hinv m) (or_introl Hm)) as (? & ? & _); done).
    destruct (IH g1 Hinv1) as (g' & ls & Hls & Hinv' & Hr' & Hlay & Hnd & Hnp & Hp').
    { rewrite Hp1. assert (size (V ∖ (ready g ∪ processed g)) < size (V ∖ processed g))%nat; [|lia]. apply subset_size. apply set_choose_L in Hr as [m Hm].
      split; [set_solver|]. intros Hsub. destruct (Hnew m Hm). assert (m ∈ V ∖ (ready g ∪ processed g)) by set_solver. set_solver. }
    rewrite Hls. destruct ns as [|n ns]; [exfalso; apply Hr; apply set_eq; intros m; rewrite <- Hfresh; set_solver|].
    exists g', ((n :: ns) :: ls). assert (Hset : list_to_set (ids (n :: ns)) = ready g) by (apply set_eq; intros m; by rewrite elem_of_list_to_set).
    split_and!; [done|done|done|constructor; [done|by rewrite Hset, <- Hp1]|..].
    + cbn [concat]. rewrite fmap_app. apply NoDup_app. split_and!; [rewrite Hids; apply NoDup_elements| |done]. intros m Hm Hm'. apply Hnp in Hm'. apply Hm'. rewrite Hp1.
      apply Hfresh in Hm. set_solver.
    + cbn [concat]. intros m. rewrite fmap_app, elem_of_app. intros [Hm|Hm]; [by apply Hnew, Hfresh|]. apply Hnp in Hm. rewrite Hp1 in Hm. set_solver.
    + rewrite Hp', Hp1. cbn [concat]. rewrite fmap_app, list_to_set_app_L, Hset. set_solver.
Qed.
End Loop.

(** ** The graph *)

Section Built.
Context `{S : Semver} (manifests : gmap ModuleId ModuleManifest).

Definition deps_checked (m : ModuleId) : list BlockReason * list ModuleId :=
  match manifests !! m with Some x => check_deps manifests m [] (m_dependencies x) | None => ([], []) end.
Definition edges (m : ModuleId) : list ModuleId := (deps_checked m).2.
Definition blocks (m : ModuleId) : list BlockReason := (deps_checked m).1.

Lemma check_deps_edges self seen deps : let es := (check_deps manifests self seen deps).2 in
  NoDup es /\ forall i, i ∈ es -> (i ∉ seen) /\ i <> self /\ is_Some (manifests !! i).
Proof.
  revert seen. induction deps as [|d deps IH]; intros seen; cbn; [split; [constructor|set_solver]|].
  destruct (negb (required d)); [apply IH|]. destruct (ModuleId_new _) as [i|e]; [|specialize (IH seen); by destruct (check_deps manifests self seen deps)].
  case_bool_decide; [specialize (IH seen); by destruct (check_deps manifests self seen deps)|]. case_bool_decide; [apply IH|].
  specialize (IH (i :: seen)). destruct (check_deps manifests self (i :: seen) deps) as [bs es]. cbn in IH. destruct IH as [Hnd Hes].
  assert (Hsub : forall j, j ∈ es -> (j ∉ seen) /\ j <> self /\ is_Some (manifests !! j)) by (intros j Hj; destruct (Hes j Hj) as (? & ? & ?); set_solver).
  destruct (manifests !! i) as [dm|] eqn:Ei; [|done].
  assert (Hok : NoDup (i :: es) /\ forall j, j ∈ i :: es -> (j ∉ seen) /\ j <> self /\ is_Some (manifests !! j)).
  { split; [constructor; [|done]; intros Hi; destruct (Hes i Hi) as [? _]; set_solver|]. intros j [->|Hj]%elem_of_cons; [rewrite Ei; eauto|auto]. }
  destruct (required_version d) as [req|]; [destruct (version_req_matches req (m_version dm))|]; done.
Qed.

Lemma edges_nodup m : NoDup (edges m).
Proof. unfold edges, deps_checked. destruct (manifests !! m); [apply check_deps_edges|constructor]. Qed.
Lemma edges_installed m d : d ∈ edges m -> is_Some (manifests !! d).
Proof. unfold edges, deps_checked. destruct (manifests !! m); [|set_solver]. intros H. by apply check_deps_edges in H as (_ & _ & ?). Qed.

(** Without a block the edges are the required dependencies. *)
Lemma check_deps_complete self seen deps : (check_deps manifests self seen deps).1 = [] -> forall i,
  i ∈ (check_deps manifests self seen deps).2 <-> (i ∉ seen) /\ exists d, d ∈ deps /\ required d = true /\ ModuleId_new (trim (lit (dependency_id d))) = Ok i.
Proof.
  revert seen. induction deps as [|d deps IH]; intros seen; cbn; [intros _ i; set_solver|].
  assert (Hskip : forall i, (required d = true -> forall j, ModuleId_new (trim (lit (dependency_id d))) = Ok j -> j ∈ seen) ->
    ((i ∉ seen) /\ (exists d0, d0 ∈ deps /\ required d0 = true /\ ModuleId_new (trim (lit (dependency_id d0))) = Ok i) <->
     (i ∉ seen) /\ exists d0, d0 ∈ d :: deps /\ required d0 = true /\ ModuleId_new (trim (lit (dependency_id d0))) = Ok i)).
  { intros i Hd. split; intros [Hi (d0 & Hin & Hreq & Hid)]; (split; [done|]); exists d0; split_and!; try done; [set_solver|].
    apply elem_of_cons in Hin as [->|]; [|done]. exfalso. by apply Hi, (Hd Hreq). }
  destruct (required d) eqn:Ereq; cbn [negb]; [|intros H i; rewrite IH by done; by apply Hskip].
  destruct (ModuleId_new _) as [i0|e] eqn:Eid; [|by destruct (check_deps manifests self seen deps)].
  case_bool_decide as Hself; [by destruct (check_deps manifests self seen deps)|]. case_bool_decide as Hseen; [intros H i; rewrite IH by done; apply Hskip; intros _ j [= <-]; done|].
  specialize (IH (i0 :: seen)). destruct (check_deps manifests self (i0 :: seen) deps) as [bs es]. cbn in IH.
  assert (Hall : bs = [] -> forall i, i ∈ i0 :: es <-> (i ∉ seen) /\ exists d0, d0 ∈ d :: deps /\ required d0 = true /\ ModuleId_new (trim (lit (dependency_id d0))) = Ok i).
  { intros Hbs i. rewrite elem_of_cons, IH by done. split.
    - intros [->|[Hi (d0 & ? & ? & ?)]]; [split; [done|exists d; set_solver]|split; [set_solver|exists d0; set_solver]].
    - intros [Hi (d0 & Hin & Hreq & Hid)]. destruct (decide (i = i0)) as [->|Hne]; [by left|right]. split; [set_solver|].
      exists d0. apply elem_of_cons in Hin as [->|Hin]; [congruence|done]. }
  destruct (manifests !! i0) as [dm|]; [|done]. destruct (required_version d) as [req|]; [destruct (version_req_matches req (m_version dm)); [|done]|]; exact Hall.
Qed.

Lemma required_has_id self seen ds d : (check_deps manifests self seen ds).1 = [] -> d ∈ ds -> required d = true ->
  exists i, ModuleId_new (trim (lit (dependency_id d))) = Ok i.
Proof.
  revert seen. induction ds as [|d0 ds IH]; intros seen; [set_solver|]. cbn. destruct (required d0) eqn:Er; cbn [negb].
  2:{ intros H [->|Hd]%elem_of_cons Hreq; [congruence|eauto]. }
  destruct (ModuleId_new (trim (lit (dependency_id d0)))) as [i|e] eqn:Ei; [|destruct (check_deps manifests self seen ds); intros [=]].
  assert (Hhere : forall seen', (check_deps manifests self seen' ds).1 = [] -> d ∈ d0 :: ds -> required d = true -> exists i, ModuleId_new (trim (lit (dependency_id d))) = Ok i).
  { intros seen' H [->|Hd]%elem_of_cons Hreq; eauto. }
  case_bool_decide; [destruct (check_deps manifests self seen ds); intros [=]|]. case_bool_decide; [apply Hhere|]. specialize (Hhere (i :: seen)).
  destruct (check_deps manifests self (i :: seen) ds) as [bs es]. destruct (manifests !! i); [|intros [=]].
  destruct (required_version d0); [destruct (version_req_matches _ _); [|intros [=]]|]; exact Hhere.
Qed.

(** ** Starting *)

Lemma start_node_started start succeeded n m b : start_node start succeeded n = Started m b ->
  n_module_id n = m /\ b = start m /\ forall d, d ∈ n_dependencies n -> d ∈ succeeded.
Proof.
  unfold start_node. destruct (find _ _) as [d|] eqn:E; [done|]. intros [= <- <-]. split_and!; try done. intros d Hd. apply list_elem_of_In, (find_none _ _ E) in Hd.
  apply negb_false_iff in Hd. by boolify.
Qed.

Lemma started_ok_elem (l : list AutostartEvent) d : d ∈ omap started_ok l -> Started d true ∈ l.
Proof. intros (e & He & Hs)%list_elem_of_omap. destruct e as [| |m []]; try done. by injection Hs as ->. Qed.

Lemma start_layers_order start succeeded P ls t1 m b t2 : layered edges manifests P ls ->
  start_layers start succeeded ls = t1 ++ Started m b :: t2 ->
  m ∈ ids (concat ls) /\ b = start m /\ forall d, d ∈ edges m -> d ∈ succeeded \/ Started d true ∈ t1.
Proof.
  intros Hl. revert succeeded t1. induction Hl as [P|P l ls Hall Hl IH]; intros succeeded t1; cbn [start_layers concat]; [by destruct t1|].
  set (events := start_node start succeeded <$> l). intros Heq. rewrite fmap_app.
  assert (Hrest : forall k, start_layers start (list_to_set (omap started_ok events) ∪ succeeded) ls = k ++ Started m b :: t2 -> t1 = events ++ k ->
    m ∈ ids l ++ ids (concat ls) /\ b = start m /\ forall d, d ∈ edges m -> d ∈ succeeded \/ Started d true ∈ t1).
  { intros k Hk ->. destruct (IH _ k Hk) as (H1 & H2 & H3). split_and!; [apply elem_of_app; by right|done|]. intros d Hd. rewrite elem_of_app.
    destruct (H3 d Hd) as [[Hs%elem_of_list_to_set%started_ok_elem|]%elem_of_union|]; auto. }
  apply app_eq_inv in Heq as [(k & Hs & Hk)|(k & Ht & Hk)]; [|by apply (Hrest k)]. destruct k as [|e k].
  - apply (Hrest []); [by rewrite Hk|by rewrite app_nil_r in *].
  - injection Hk as <- _. assert (Started m b ∈ events) as Hin by (rewrite Hs; set_solver). apply list_elem_of_fmap in Hin as (n & Hst & Hn). symmetry in Hst.
    apply start_node_started in Hst as (Hid & Hb & Hdeps). rewrite Forall_forall in Hall. destruct (Hall n Hn) as [_ Hd _].
    split_and!; [apply elem_of_app; left; rewrite <- Hid; by apply list_elem_of_fmap_2|done|]. intros d Hdm. left. apply Hdeps. by rewrite Hd, Hid.
Qed.

Lemma start_layers_all start succeeded P ls : layered edges manifests P ls -> P ⊆ succeeded -> (forall m, start m = true) ->
  start_layers start succeeded ls = (λ n, Started (n_module_id n) true) <$> concat ls.
Proof.
  intros Hl. revert succeeded. induction Hl as [P|P l ls Hall Hl IH]; intros succeeded HP Hstart; cbn [start_layers concat]; [done|].
  assert (Hs : start_node start succeeded <$> l = (λ n, Started (n_module_id n) true) <$> l).
  { apply list_fmap_ext. intros i n Hi. apply list_elem_of_lookup_2 in Hi. rewrite Forall_forall in Hall. destruct (Hall n Hi) as [_ He Hb]. unfold start_node.
    destruct (find _ _) as [d|] eqn:E; [|by rewrite Hstart]. exfalso. apply find_some in E as [Hd Hn]. apply list_elem_of_In in Hd. rewrite He in Hd. apply negb_true_iff in Hn. boolify.
    apply Hn, HP, Hb, Hd. }
  rewrite fmap_app, Hs. f_equal. apply IH; [|done]. intros m. rewrite !elem_of_union, !elem_of_list_to_set. intros [Hm|Hm]; [left|right; auto].
  apply list_elem_of_fmap in Hm as (n & -> & Hn). apply list_elem_of_omap. exists (Started (n_module_id n) true). split; [|done]. apply list_elem_of_fmap. by exists n.
Qed.

(** ** The graph of the plan *)

Context (iter : gmap ModuleId ModuleManifest -> list (ModuleId * ModuleManifest)).
Hypothesis iter_perm : forall m, iter m ≡ₚ map_to_list m.

Lemma checked_ids : ck_id <$> checked iter manifests = (iter manifests).*1.
Proof. unfold checked. rewrite <- list_fmap_compose. apply list_fmap_ext. intros i [m x] _. cbn. by destruct (check_deps _ _ _ _). Qed.

Lemma checked_nodup : NoDup (ck_id <$> checked iter manifests).
Proof. rewrite checked_ids, iter_perm. apply NoDup_fst_map_to_list. Qed.

Lemma checked_elem c : c ∈ checked iter manifests <->
  manifests !! ck_id c = Some (ck_manifest c) /\ ck_blocks c = blocks (ck_id c) /\ ck_edges c = edges (ck_id c).
Proof.
  unfold checked. rewrite list_elem_of_fmap. unfold blocks, edges, deps_checked. split.
  - intros ([m x] & -> & Hin). rewrite iter_perm in Hin. apply elem_of_map_to_list in Hin. cbn. destruct (check_deps manifests m [] (m_dependencies x)) as [bs es] eqn:E. cbn. by rewrite Hin, E.
  - destruct c as [m x bs es]. cbn. intros (Hm & Hbs & Hes). rewrite Hm in Hbs, Hes. exists (m, x). cbn. split; [destruct (check_deps manifests m [] (m_dependencies x)); cbn in *; by subst|].
    rewrite iter_perm. by apply elem_of_map_to_list.
Qed.

Lemma blocked_elem m : m ∈ bl_module_id <$> blocks_of (checked iter manifests) <-> blocks m <> [].
Proof.
  rewrite list_elem_of_fmap. unfold blocks_of. split.
  - intros (b & -> & Hb). apply list_elem_of_In, in_concat in Hb as (l & Hl & Hb). apply list_elem_of_In, list_elem_of_fmap in Hl as (c & -> & Hc).
    apply list_elem_of_In, list_elem_of_fmap in Hb as (r & -> & Hr). cbn. apply checked_elem in Hc as (_ & <- & _). intros E. rewrite E in Hr. by apply elem_of_nil in Hr.
  - intros Hne. destruct (blocks m) as [|r rs] eqn:Eb; [done|]. assert (exists x, manifests !! m = Some x) as [x Hx].
    { unfold blocks, deps_checked in Eb. destruct (manifests !! m); [eauto|done]. }
    exists (mkBlocked m x r). split; [done|]. apply list_elem_of_In, in_concat. exists (mkBlocked m x <$> blocks m). split; apply list_elem_of_In; [|rewrite Eb; cbn; set_solver].
    apply list_elem_of_fmap. exists (mkChecked m x (blocks m) (edges m)). split; [done|]. by apply checked_elem.
Qed.

Lemma edges_of_elem e : e ∈ edges_of (checked iter manifests) <-> e.2 ∈ edges e.1.
Proof.
  unfold edges_of. rewrite list_elem_of_In, in_concat. split.
  - intros (l & Hl & He). apply list_elem_of_In, list_elem_of_fmap in Hl as (c & -> & Hc). apply list_elem_of_In, list_elem_of_fmap in He as (d & -> & Hd). cbn.
    by apply checked_elem in Hc as (_ & _ & <-).
  - intros He. assert (exists x, manifests !! e.1 = Some x) as [x Hx]. { unfold edges, deps_checked in He. destruct (manifests !! e.1); [eauto|set_solver]. }
    exists (pair e.1 <$> edges e.1). split; apply list_elem_of_In; [|destruct e; by apply list_elem_of_fmap_2]. apply list_elem_of_fmap.
    exists (mkChecked e.1 x (blocks e.1) (edges e.1)). split; [done|]. by apply checked_elem.
Qed.

(** The edges of one module, in their order. *)
Lemma edges_of_filter cs m : NoDup (ck_id <$> cs) ->
  (base.filter (λ e, e.1 = m) (edges_of cs)).*2 = match find (λ c, bool_decide (ck_id c = m)) cs with Some c => ck_edges c | None => [] end.
Proof.
  induction cs as [|c cs IH]; intros Hnd; [done|]. cbn [fmap list_fmap] in Hnd. apply NoDup_cons in Hnd as [Hc Hnd]. unfold edges_of. cbn [fmap list_fmap concat find].
  rewrite filter_app, fmap_app. fold (edges_of cs). rewrite IH by done.
  assert (Hfil : forall l, (base.filter (λ e : ModuleId * ModuleId, e.1 = m) (pair (ck_id c) <$> l)).*2 = if decide (ck_id c = m) then l else []).
  { induction l as [|d l IHl]; cbn [fmap list_fmap]; [by destruct (decide _)|]. rewrite filter_cons. cbn. destruct (decide (ck_id c = m)); cbn; by rewrite IHl. }
  rewrite Hfil. destruct (decide (ck_id c = m)) as [Heq|Hne]; [rewrite bool_decide_eq_true_2 by done|by rewrite bool_decide_eq_false_2].
  destruct (find _ cs) as [c'|] eqn:E; [|apply app_nil_r]. exfalso. apply find_some in E as [Hin Hid]. boolify. apply Hc. rewrite Heq, <- Hid. by apply list_elem_of_fmap_2, list_elem_of_In.
Qed.

Lemma edges_of_module m : (base.filter (λ e, e.1 = m) (edges_of (checked iter manifests))).*2 = edges m.
Proof.
  rewrite edges_of_filter by apply checked_nodup. destruct (find _ _) as [c|] eqn:E.
  - apply find_some in E as [Hin Hid]. boolify. apply list_elem_of_In, checked_elem in Hin as (_ & _ & ->). by rewrite Hid.
  - unfold edges, deps_checked. destruct (manifests !! m) as [x|] eqn:Ex; [|done]. exfalso.
    assert (mkChecked m x (blocks m) (edges m) ∈ checked iter manifests) as Hin by by apply checked_elem. apply list_elem_of_In in Hin. apply (find_none _ _ E) in Hin. cbn in Hin. boolify. done.
Qed.

Lemma add_edges_lookup E g :
  let g' := foldl add_edge g E in
  (forall m, indegree g' !! m = (λ n, (n + length (base.filter (λ e, e.1 = m) E))%nat) <$> indegree g !! m) /\
  (forall d cs, outgoing g !! d = Some cs -> outgoing g' !! d = Some (cs ++ (base.filter (λ e, e.2 = d) E).*1)) /\
  (forall m ds, deps_by_module g !! m = Some ds -> deps_by_module g' !! m = Some (ds ++ (base.filter (λ e, e.1 = m) E).*2)) /\
  (forall d, outgoing g !! d = None -> (forall e, e ∈ E -> e.2 <> d) -> outgoing g' !! d = None).
Proof.
  revert g. induction E as [|e E IH]; intros g; cbn [foldl].
  - split_and!; [intros m; destruct (indegree g !! m); cbn; [f_equal; lia|done]|intros; by rewrite app_nil_r|intros; by rewrite app_nil_r|done].
  - destruct (IH (add_edge g e)) as (H1 & H2 & H3 & H4). split_and!.
    + intros m. rewrite H1. unfold add_edge. cbn [indegree]. rewrite filter_cons. destruct (decide (e.1 = m)) as [<-|Hne].
      * rewrite lookup_alter_eq. destruct (indegree g !! e.1); cbn; [f_equal; lia|done].
      * rewrite lookup_alter_ne by done. done.
    + intros d cs Hd. rewrite filter_cons. destruct (decide (e.2 = d)) as [<-|Hne].
      * rewrite (H2 e.2 (cs ++ [e.1])); [cbn; by rewrite <- app_assoc|]. unfold add_edge. cbn [outgoing]. by rewrite lookup_insert_eq, Hd.
      * apply H2. unfold add_edge. cbn [outgoing]. by rewrite lookup_insert_ne.
    + intros m ds Hm. rewrite filter_cons. destruct (decide (e.1 = m)) as [<-|Hne].
      * rewrite (H3 e.1 (ds ++ [e.2])); [cbn; by rewrite <- app_assoc|]. unfold add_edge. cbn [deps_by_module]. by rewrite lookup_insert_eq, Hm.
      * apply H3. unfold add_edge. cbn [deps_by_module]. by rewrite lookup_insert_ne.
    + intros d Hd Hno. apply H4; [|set_solver]. unfold add_edge. cbn [outgoing]. rewrite lookup_insert_ne by (apply Hno; set_solver). done.
Qed.

Lemma drop_all_lookup bl g :
  let g' := foldl drop_blocked g bl in
  (forall m, indegree g' !! m = if decide (m ∈ bl) then None else indegree g !! m) /\
  (forall d, outgoing g' !! d = if decide (d ∈ bl) then None else base.filter (λ c, c ∉ bl) <$> outgoing g !! d) /\
  (forall d, deps_by_module g' !! d = if decide (d ∈ bl) then None else base.filter (λ c, c ∉ bl) <$> deps_by_module g !! d).
Proof.
  assert (Hnone : forall l : list ModuleId, base.filter (λ c, c ∉ []) l = l) by (induction l as [|x l IH]; [done|]; rewrite filter_cons_True by set_solver; by rewrite IH).
  assert (Hff : forall b bl (l : list ModuleId), base.filter (λ c, c ∉ bl) (base.filter (λ c, c <> b) l) = base.filter (λ c, c ∉ b :: bl) l).
  { intros b bl0 l. induction l as [|x l IH]; [done|]. rewrite !filter_cons. destruct (decide (x <> b)) as [Hx|Hx].
    - rewrite filter_cons. destruct (decide (x ∉ bl0)); [rewrite decide_True by set_solver|rewrite decide_False by set_solver]; by rewrite IH.
    - rewrite decide_False by set_solver. exact IH. }
  revert g. induction bl as [|b bl IH]; intros g; cbn [foldl].
  - split_and!; intros d; [done|..]; (destruct (_ !! d); cbn; [by rewrite Hnone|done]).
  - destruct (IH (drop_blocked g b)) as (H1 & H2 & H3). unfold drop_blocked in *. cbn [indegree outgoing deps_by_module] in *. split_and!; intros d.
    + rewrite H1. destruct (decide (d = b)) as [->|Hne]; [rewrite lookup_delete_eq, (decide_True (P := b ∈ b :: bl)) by set_solver; by destruct (decide (b ∈ bl))|].
      rewrite lookup_delete_ne by done. destruct (decide (d ∈ bl)); [by rewrite decide_True by set_solver|by rewrite decide_False by set_solver].
    + rewrite H2, lookup_fmap. destruct (decide (d = b)) as [->|Hne]; [rewrite lookup_delete_eq, (decide_True (P := b ∈ b :: bl)) by set_solver; by destruct (decide (b ∈ bl))|].
      rewrite lookup_delete_ne by done. destruct (decide (d ∈ bl)); [by rewrite decide_True by set_solver|rewrite (decide_False (P := d ∈ b :: bl)) by set_solver].
      destruct (outgoing g !! d); cbn; [by rewrite Hff|done].
    + rewrite H3, lookup_fmap. destruct (decide (d = b)) as [->|Hne]; [rewrite lookup_delete_eq, (decide_True (P := b ∈ b :: bl)) by set_solver; by destruct (decide (b ∈ bl))|].
      rewrite lookup_delete_ne by done. destruct (decide (d ∈ bl)); [by rewrite decide_True by set_solver|rewrite (decide_False (P := d ∈ b :: bl)) by set_solver].
      destruct (deps_by_module g !! d); cbn; [by rewrite Hff|done].
Qed.

(** The modules nothing of their own blocks. *)
Definition unblocked : gset ModuleId := base.filter (λ m, blocks m = []) (dom manifests).

Lemma unblocked_elem m : m ∈ unblocked <-> is_Some (manifests !! m) /\ blocks m = [].
Proof. unfold unblocked. rewrite elem_of_filter, elem_of_dom. tauto. Qed.

Lemma blocked_ids_elem m :
  m ∈ elements (list_to_set (bl_module_id <$> blocks_of (checked iter manifests)) : gset ModuleId) <-> blocks m <> [].
Proof. by rewrite elem_of_elements, elem_of_list_to_set, blocked_elem. Qed.

Lemma NoDup_fst_filter (E : list (ModuleId * ModuleId)) d : NoDup E -> NoDup (base.filter (λ e, e.2 = d) E).*1.
Proof.
  intros H. apply (NoDup_fmap_2_strong fst); [|by apply NoDup_filter]. intros [a b] [a' b'] H1%list_elem_of_filter H2%list_elem_of_filter. cbn in *.
  destruct H1 as [-> _], H2 as [-> _]. by intros ->.
Qed.

Lemma edges_of_nodup : NoDup (edges_of (checked iter manifests)).
Proof.
  pose proof checked_nodup as Hnd. unfold edges_of. assert (Hsub : forall c, c ∈ checked iter manifests -> NoDup (ck_edges c)) by (intros c (_ & _ & ->)%checked_elem; apply edges_nodup).
  induction (checked iter manifests) as [|c cs IH]; cbn [fmap list_fmap concat]; [constructor|]. cbn [fmap list_fmap] in Hnd. apply NoDup_cons in Hnd as [Hc Hnd]. apply NoDup_app. split_and!.
  - apply (NoDup_fmap_2 (pair (ck_id c))). apply Hsub. set_solver.
  - intros e He He'. apply list_elem_of_fmap in He as (d & -> & _). apply list_elem_of_In, in_concat in He' as (l & Hl & He). apply list_elem_of_In, list_elem_of_fmap in Hl as (c' & -> & Hc').
    apply list_elem_of_In, list_elem_of_fmap in He as (d' & Hp & _). injection Hp as Hid _. apply Hc. rewrite Hid. by apply list_elem_of_fmap_2.
  - apply IH; [done|]. intros c' Hc'. apply Hsub. set_solver.
Qed.

Lemma dependency_graph_inv : linv edges unblocked [] (dependency_graph iter manifests).
Proof.
  unfold dependency_graph. set (E := edges_of _). set (bl := elements _).
  destruct (add_edges_lookup E (initial_graph manifests)) as (A1 & A2 & A3 & A4). set (g1 := foldl add_edge _ E) in *.
  destruct (drop_all_lookup bl g1) as (B1 & B2 & B3). set (g2 := foldl drop_blocked g1 bl) in *.
  assert (Hbl : forall m, m ∈ bl <-> blocks m <> []) by apply blocked_ids_elem.
  assert (Hopen : forall m, open_deps edges ∅ m = edges m) by (intros m; unfold open_deps; induction (edges m) as [|x l IH]; [done|]; rewrite filter_cons_True by set_solver; by rewrite IH).
  assert (Hlen : forall m, length (base.filter (λ e, e.1 = m) E) = length (edges m)) by (intros m; rewrite <- (edges_of_module m); by rewrite length_fmap).
  assert (Hin : forall m, m ∈ unblocked -> (m ∉ bl) /\ exists x, manifests !! m = Some x)
    by (intros m [[x Hx] Hb]%unblocked_elem; split; [intros H; by apply Hbl in H|eauto]).
  assert (Hdeg : forall m, indegree g2 !! m = if decide (m ∈ unblocked) then Some (length (edges m)) else None).
  { intros m. rewrite B1, A1. unfold initial_graph. cbn [indegree]. rewrite lookup_fmap. destruct (decide (m ∈ unblocked)) as [Hm|Hm].
    - destruct (Hin m Hm) as [Hnb [x Hx]]. rewrite decide_False, Hx by done. cbn. by rewrite Hlen.
    - destruct (decide (m ∈ bl)) as [|Hb]; [done|]. destruct (manifests !! m) as [x|] eqn:Ex; [|done]. exfalso. apply Hm, unblocked_elem. rewrite Ex. split; [eauto|].
      destruct (blocks m) eqn:Eb; [done|]. exfalso. apply Hb, Hbl. by rewrite Eb. }
  split; cbn [processed indegree outgoing deps_by_module ready]; [set_solver|..].
  - intros m. by rewrite Hdeg, Hopen.
  - intros d Hd _. destruct (Hin d Hd) as [Hnb [x Hx]]. rewrite B2, decide_False by done. rewrite (A2 d []) by (unfold initial_graph; cbn [outgoing]; by rewrite lookup_fmap, Hx). cbn [app fmap option_fmap option_map].
    eexists. split; [done|]. split; [apply NoDup_filter, NoDup_fst_filter, edges_of_nodup|]. intros c. rewrite list_elem_of_filter, list_elem_of_fmap. split.
    + intros [Hc ([a b] & -> & [Hb He]%list_elem_of_filter)]. cbn in *. subst b. apply edges_of_elem in He. cbn in He. split; [|done]. apply unblocked_elem. split.
      * unfold edges, deps_checked in He. destruct (manifests !! a) eqn:Ea; [by eexists|set_solver].
      * destruct (blocks a) eqn:Eb; [done|]. exfalso. apply Hc, Hbl. by rewrite Eb.
    + intros [Hc Hdc]. split; [by apply Hin|]. exists (c, d). split; [done|]. apply list_elem_of_filter. split; [done|]. by apply edges_of_elem.
  - intros d Hd _. destruct (Hin d Hd) as [Hnb [x Hx]]. rewrite B3, decide_False by done. rewrite (A3 d []) by (unfold initial_graph; cbn [deps_by_module]; by rewrite lookup_fmap, Hx). cbn [app fmap option_fmap option_map].
    f_equal. rewrite edges_of_module. apply filter_ext_in. intros y Hy. rewrite Hbl, unblocked_elem. apply edges_installed in Hy. split; [intros H; split; [done|]; destruct (blocks y); [done|]; exfalso; by apply H|intros [_ Hy0] Hn; by apply Hn].
  - intros m. rewrite elem_of_dom, map_lookup_filter, Hdeg, Hopen. destruct (decide (m ∈ unblocked)) as [Hm|Hm]; cbn; [|split; [intros [[? [=]]|?]; set_solver|by intros [? _]]].
    split.
    + intros [[n Hn]|?]; [|set_solver]. split_and!; [done|set_solver|]. case_guard as Hz; [|done]. cbn in Hz. by apply nil_length_inv.
    + intros (_ & _ & ->). left. cbn. by eexists.
  - set_solver.
  - constructor.
  - set_solver.
Qed.

(** ** The plan *)

(** Everything a module requires, directly or not, is installed in the right
    version and without a cycle. *)
Inductive startable : ModuleId -> Prop :=
| startable_intro m x : manifests !! m = Some x -> blocks m = [] -> (forall d, d ∈ edges m -> startable d) -> startable m.

Lemma layered_startable P ls : (forall d, d ∈ P -> startable d) -> layered edges manifests P ls ->
  (forall m, m ∈ ids (concat ls) -> blocks m = []) -> forall m, m ∈ ids (concat ls) -> startable m.
Proof.
  intros HP Hl. induction Hl as [P|P l ls Hall Hl IH]; intros Hb m; [set_solver|]. cbn [concat] in *. rewrite fmap_app, elem_of_app.
  assert (Hhere : forall m, m ∈ ids l -> startable m).
  { intros m0 Hm. pose proof Hm as Hm'. apply list_elem_of_fmap in Hm as (n & -> & Hn). rewrite Forall_forall in Hall. destruct (Hall n Hn) as [Hx _ Hd].
    econstructor; [done|apply Hb; rewrite fmap_app; set_solver|]. intros d Hdm. by apply HP, Hd. }
  intros [Hm|Hm]; [auto|]. apply IH; [|intros m0 Hm0; apply Hb; rewrite fmap_app; set_solver|done]. intros d. rewrite elem_of_union, elem_of_list_to_set. intros [?|?]; auto.
Qed.

Lemma plan_layers :
  exists g ls, place_layers (size manifests) manifests (dependency_graph iter manifests) = (g, ls) /\ layered edges manifests ∅ ls /\
  NoDup (ids (concat ls)) /\ (forall m, m ∈ processed g <-> m ∈ ids (concat ls)) /\ (forall m, m ∈ processed g <-> startable m) /\
  (forall m, m ∈ elements (dom (indegree g)) <-> m ∈ unblocked).
Proof.
  assert (HV : forall m, m ∈ unblocked -> exists x, manifests !! m = Some x) by (intros m [[x Hx] _]%unblocked_elem; eauto).
  destruct (place_layers_spec edges manifests unblocked HV (λ m _, edges_nodup m) (size manifests) (dependency_graph iter manifests) dependency_graph_inv)
    as (g & ls & Hrun & Hinv & Hr & Hlay & Hnd & _ & Hp).
  { rewrite <- size_dom. apply subseteq_size. unfold unblocked. set_solver. }
  cbn [processed dependency_graph] in Hlay, Hp. assert (Hp' : forall m, m ∈ processed g <-> m ∈ ids (concat ls)) by (intros m; rewrite Hp; set_solver).
  exists g, ls. split_and!; [done|done|done|done| |intros m; rewrite elem_of_elements, elem_of_dom, (li_indegree _ _ _ _ Hinv); destruct (decide (m ∈ unblocked)); split; try done; by intros [? [=]]].
  intros m. split.
  - rewrite Hp'. apply (layered_startable ∅ ls); [set_solver|done|]. intros m0 Hm0%Hp'. by apply (li_processed _ _ _ _ Hinv), unblocked_elem in Hm0 as [_ ?].
  - induction 1 as [m x Hx Hb Hd IH]. destruct (decide (m ∈ processed g)) as [|Hm]; [done|]. exfalso. assert (m ∈ ready g) as Hready; [|rewrite Hr in Hready; set_solver].
    destruct (proj2 (li_ready _ _ _ _ Hinv m)) as [?|?]; [|done|set_solver]. split_and!; [apply unblocked_elem; eauto|done|exact (proj2 (open_deps_nil edges (processed g) m) IH)].
Qed.

End Built.

Lemma layered_lookup edges manifests P ls k l n d : layered edges manifests P ls -> ls !! k = Some l -> n ∈ l -> d ∈ edges (n_module_id n) ->
  d ∈ P \/ exists j l', (j < k)%nat /\ ls !! j = Some l' /\ d ∈ ids l'.
Proof.
  intros Hl. revert k. induction Hl as [P|P l0 ls Hall Hl IH]; intros k Hk Hn Hd; [done|]. destruct k as [|k].
  - injection Hk as ->. rewrite Forall_forall in Hall. left. by apply (no_before _ _ _ _ (Hall n Hn)).
  - destruct (IH k Hk Hn Hd) as [Hin|(j & l' & Hj & Hl' & Hin)]; [|right; exists (Datatypes.S j), l'; split_and!; [lia|done|done]].
    apply elem_of_union in Hin as [Hin%elem_of_list_to_set|]; [|by left]. right. exists 0%nat, l0. split_and!; [lia|done|done].
Qed.

Lemma layered_manifest edges manifests P ls k l n : layered edges manifests P ls -> ls !! k = Some l -> n ∈ l -> manifests !! n_module_id n = Some (n_manifest n).
Proof.
  intros Hl. revert k. induction Hl as [P|P l0 ls Hall Hl IH]; intros k Hk Hn; [done|]. destruct k as [|k]; [|eauto].
  injection Hk as ->. rewrite Forall_forall in Hall. by apply (no_manifest _ _ _ _ (Hall n Hn)).
Qed.

Section Claims.
Context `{S : Semver} (iter : gmap ModuleId ModuleManifest -> list (ModuleId * ModuleManifest)).

Lemma edges_required manifests m x : manifests !! m = Some x -> blocks manifests m = [] -> forall d, d ∈ m_dependencies x -> required d = true ->
  exists i, ModuleId_new (trim (lit (dependency_id d))) = Ok i /\ i ∈ edges manifests m.
Proof.
  intros Hx Hb d Hd Hreq. unfold blocks, edges, deps_checked in *. rewrite Hx in *. destruct (required_has_id manifests m [] (m_dependencies x) d Hb Hd Hreq) as [i Hi].
  exists i. split; [done|]. apply check_deps_complete; [done|]. split; [set_solver|eauto].
Qed.

(** The plan for starting all modules: a module is in a layer exactly when
    everything it requires, directly or not, is installed in a version it
    accepts and without a cycle; it is there once; what it requires is in
    earlier layers; and every other installed module is reported as blocked. *)
Theorem autostart_plan_correct modules : (forall m, iter m ≡ₚ map_to_list m) ->
  let manifests := collect_manifests modules in
  let plan := build_autostart_plan iter modules in
  (forall m, m ∈ ids (concat (layers plan)) <-> startable manifests m) /\ NoDup (ids (concat (layers plan))) /\
  (forall k l n d, layers plan !! k = Some l -> n ∈ l -> d ∈ m_dependencies (n_manifest n) -> required d = true ->
    exists i j l', ModuleId_new (trim (lit (dependency_id d))) = Ok i /\ (j < k)%nat /\ layers plan !! j = Some l' /\ i ∈ ids l') /\
  (forall m, is_Some (manifests !! m) -> (m ∈ bl_module_id <$> blocked plan <-> ~ startable manifests m)).
Proof.
  intros Hperm manifests plan. destruct (plan_layers manifests iter Hperm) as (g & ls & Hrun & Hlay & Hnd & Hp & Hst & Hdom).
  unfold plan, build_autostart_plan. fold manifests. rewrite Hrun. cbn [layers blocked]. split_and!; [intros m; by rewrite <- Hp|done| |].
  - intros k l n d Hk Hn Hd Hreq. pose proof (layered_manifest _ _ _ _ _ _ _ Hlay Hk Hn) as Hx.
    assert (Hsn : startable manifests (n_module_id n)).
    { apply Hst, Hp, list_elem_of_fmap_2, list_elem_of_In, in_concat. exists l. split; apply list_elem_of_In; [by eapply list_elem_of_lookup_2|done]. }
    inversion_clear Hsn as [? x Hx' Hb _]. destruct (edges_required manifests _ _ Hx Hb d Hd Hreq) as (i & Hi & He).
    destruct (layered_lookup _ _ _ _ _ _ _ _ Hlay Hk Hn He) as [|(j & l' & Hj & Hl' & Hin)]; [set_solver|]. exists i, j, l'. done.
  - intros m [x Hx]. rewrite fmap_app, elem_of_app, (blocked_elem manifests iter Hperm), list_elem_of_fmap. split.
    + intros [Hb|(b & -> & Hb)] Hs; [inversion_clear Hs; congruence|]. apply list_elem_of_omap in Hb as (m' & _ & Hb). case_bool_decide as Hm'; [done|].
      destruct (manifests !! m'); [|done]. injection Hb as <-. cbn in Hs. by apply Hst in Hs.
    + intros Hns. destruct (blocks manifests m) eqn:Eb; [right|by left]. exists (mkBlocked m x DependencyCycle). split; [done|]. apply list_elem_of_omap. exists m. split.
      * apply Hdom, unblocked_elem. by rewrite Hx.
      * rewrite bool_decide_eq_false_2 by (by rewrite Hst). by rewrite Hx.
Qed.

(** When all modules are started, no module is started before every
    module it requires has been started with success; and when every start
    succeeds, all startable modules are started. *)
Theorem starts_after_requirements start modules : (forall m, iter m ≡ₚ map_to_list m) ->
  let manifests := collect_manifests modules in
  let events := ensure_all_running iter start modules in
  (forall t1 m b t2 x d, events = t1 ++ Started m b :: t2 -> manifests !! m = Some x -> d ∈ m_dependencies x -> required d = true ->
    exists i, ModuleId_new (trim (lit (dependency_id d))) = Ok i /\ Started i true ∈ t1) /\
  ((forall m, start m = true) -> forall m, startable manifests m -> Started m true ∈ events).
Proof.
  intros Hperm manifests events. destruct (plan_layers manifests iter Hperm) as (g & ls & Hrun & Hlay & Hnd & Hp & Hst & Hdom).
  unfold events, ensure_all_running, build_autostart_plan. fold manifests. rewrite Hrun. cbn [layers]. set (refused := blocked _). split.
  - intros t1 m b t2 x d Ht Hx Hd Hreq. apply app_eq_inv in Ht as [(k & Hr & Hk)|(k & Hr & Hk)].
    { destruct k as [|e k]; [cbn in Hk; symmetry in Hk|].
      - destruct (start_layers_order manifests _ _ _ _ [] _ _ _ Hlay Hk) as (Hm & _ & Hbefore). apply Hp, Hst in Hm. inversion_clear Hm as [? x' Hx' Hb _].
        destruct (edges_required manifests m x Hx Hb d Hd Hreq) as (i & Hi & He). destruct (Hbefore i He) as [|Hn]; [set_solver|by apply elem_of_nil in Hn].
      - injection Hk as <- _. assert (Started m b ∈ Refused <$> refused) as Hin by (rewrite Hr; set_solver). by apply list_elem_of_fmap in Hin as (? & [=] & _). }
    destruct (start_layers_order manifests _ _ _ _ _ _ _ _ Hlay Hk) as (Hm & _ & Hbefore). apply Hp, Hst in Hm. inversion_clear Hm as [? x' Hx' Hb _].
    destruct (edges_required manifests m x Hx Hb d Hd Hreq) as (i & Hi & He). exists i. split; [done|]. rewrite Hr, elem_of_app. destruct (Hbefore i He); [set_solver|by right].
  - intros Hstart m Hm. apply Hst, Hp, list_elem_of_fmap in Hm as (n & -> & Hn). rewrite (start_layers_all manifests start ∅ ∅ ls Hlay) by done.
    apply elem_of_app. right. apply list_elem_of_fmap. by exists n.
Qed.
End Claims.

(** ** Concrete plans *)

Definition module_of (n : string) (deps : list string) : ModuleManifest :=
  mkManifest n (mkVersion 1 0 0 [] []) None None None [] None (mkArtifact [] (mkChecksum Sha256 []) None None)
    (mkSignature Ed25519 EmptyString EmptyString) (DepId <$> deps) [] None.
Definition mid (n : string) : ModuleId := mkId (lit n).
Definition by_key (m : gmap ModuleId ModuleManifest) : list (ModuleId * ModuleManifest) := map_to_list m.
Definition shop : list ModuleManifest := [module_of "web" ["api"; "auth"]; module_of "api" ["db"]; module_of "auth" ["db"]; module_of "db" []].

Lemma autostart_plan_correct_witness :
  map (map (λ n, id_text (n_module_id n))) (layers (build_autostart_plan (S := demo_semver) by_key shop)) = [[lit "db"]; [lit "api"; lit "auth"]; [lit "web"]] /\
  startable (S := demo_semver) (collect_manifests shop) (mid "web").
Proof.
  split; [vm_compute; reflexivity|]. apply (autostart_plan_correct (S := demo_semver) by_key shop); [done|]. apply (bool_decide_unpack _). vm_compute. exact I.
Defined.

Lemma starts_after_requirements_witness :
  let start m := negb (bool_decide (m = mid "auth")) in
  ensure_all_running (S := demo_semver) by_key start shop = [Started (mid "db") true; Started (mid "api") true; Started (mid "auth") false; Skipped (mid "web") (mid "auth")] /\
  exists i, ModuleId_new (trim (lit "db")) = Ok i /\ Started i true ∈ [Started (mid "db") true].
Proof.
  intros start. assert (H : ensure_all_running (S := demo_semver) by_key start shop
    = [Started (mid "db") true] ++ Started (mid "api") true :: [Started (mid "auth") false; Skipped (mid "web") (mid "auth")]) by (vm_compute; reflexivity).
  split; [exact H|]. destruct (starts_after_requirements (S := demo_semver) by_key start shop) as [Hb _]; [done|].
  refine (Hb _ (mid "api") true _ (module_of "api" ["db"]) (DepId "db") H _ _ _); [vm_compute; reflexivity|apply list_elem_of_In; left; reflexivity|reflexivity].
Defined.

(** A module that requires a module which is itself blocked (here: its
    dependency is not installed) is reported with a dependency cycle, though
    there is none. *)
Theorem dependent_of_blocked_reported_as_cycle :
  let plan := build_autostart_plan (S := demo_semver) by_key [module_of "web" ["api"]; module_of "api" ["db"]] in
  layers plan = [] /\
  map (λ b, (id_text (bl_module_id b), block_code (bl_reason b))) (blocked plan) = [(lit "api", "MODULE-DEP-001"); (lit "web", "MODULE-DEP-002")].
Proof. vm_compute. split; reflexivity. Qed.
