(* ===== verification/DbConnector.v ===== *)
(** * The database connector of modules: [services/db_connector/mod.rs]

    A module sends a statement with its service token; the host classifies
    the statement itself, checks the scope, binds the tenant, converts the
    parameters and runs at most one call on the database.  [process] gives
    the answer, the call it made and the token store it left.

    From the module kit come the classification of statements, from other
    crates the JSON texts, UUIDs, RFC 3339 times and floats; they are the
    class [ConnectorLibs]. *)

From S2P Require Import Prelude Text Ip Roles ServiceTokens TokenExchange Schema MigrationSql Migrations BundleInspect.

#[local] Open Scope fenrir_scope.

(** ** Data *)

Definition MAX_STATEMENT_LEN : Z := 32 * 1024.
Definition DB_SCOPE_READ : text := lit "db:read".
Definition DB_SCOPE_WRITE : text := lit "db:write".

Inductive DbConnectorIntent := Read | Write.
Inductive SessionEffect := EffectNone | Resettable | Unrecoverable.
Record StatementAnalysis := mkAnalysis { a_intent : DbConnectorIntent; a_session : SessionEffect }.

(** Numbers as [serde_json] keeps them: u64, negative i64, float. *)
Inductive JsonNumber (F : Type) := PosInt (n : Z) | NegInt (n : Z) | Flt (f : F).
Arguments PosInt {F} n.
Arguments NegInt {F} n.
Arguments Flt {F} f.
Inductive JsonValue (F : Type) :=
| JNull | JBool (b : bool) | JNumber (n : JsonNumber F) | JString (s : text) | JArray (l : list (JsonValue F)) | JObject (l : list (text * JsonValue F)).
Arguments JNull {F}.
Arguments JBool {F} b.
Arguments JNumber {F} n.
Arguments JString {F} s.
Arguments JArray {F} l.
Arguments JObject {F} l.

Class ConnectorLibs := {
  F64 : Type;
  UuidT : Type;
  analyze_statement : text -> StatementAnalysis;
  json_text : JsonValue F64 -> option text;
  json_display : JsonValue F64 -> text;
  json_parse : text -> option (JsonValue F64);
  f64_of_int : Z -> F64;
  uuid_parse : text -> option UuidT;
  rfc3339_parse : text -> option Z;
}.

Section Connector.
Context {CL : ConnectorLibs}.

Inductive DbValue :=
| VNull | VNullTimestamp | VNullUuid | VNullInet | VText (s : text) | VInteger (n : Z) | VFloat (f : F64) | VBool (b : bool) | VJson (s : text)
| VTextArray (l : list text) | VUuid (u : UuidT) | VInet (ip : IpAddr) | VTimestamp (t : Z) | VTimestampStr (s : text).

Record DbPreparedParam := mkParam { p_name : text; p_value : JsonValue F64 }.
Inductive DbConnectorCommand := Simple (statement : text) | Prepared (statement : text) (params : list DbPreparedParam).
Definition statement_of (c : DbConnectorCommand) : text := match c with Simple s => s | Prepared s _ => s end.
Inductive DbTenantBindingMode := Inject | RequireMatch.
Record DbTenantPolicy := mkPolicy { tp_param : text; tp_mode : DbTenantBindingMode }.
Record DbConnectorRequest := mkConnRequest {
  q_token : string; q_command : DbConnectorCommand; q_intent : option DbConnectorIntent; q_engine : option text; q_tenant : option DbTenantPolicy;
}.

Inductive InvalidReason :=
| StatementEmpty | StatementTooLong | EngineUnknown (raw : text) | EngineRefused (e : DbError) | TenantNeedsPrepared | TenantParamMissing (p : text)
| TenantParamMismatch (p : text) | BadBoolean (name : text) (n : Z) | UnsupportedJson.
Inductive DbConnectorError :=
| InvalidRequest (r : InvalidReason) | ServiceActorsOnly | MissingScope (scope : text) | Db (e : DbError) | Token (e : ServiceTokenError).

(** ** Call contexts *)

Inductive DbAccess := ReadOnly | ReadWrite.
Record DbCallContext := mkContext { pool : text; access : DbAccess; session_effect : SessionEffect }.
Definition pool_key_service (service_id tenant_id : text) : text := lit "service:" ++ service_id ++ lit "@" ++ tenant_id.

Definition call_context (service_id tenant_id : text) (a : StatementAnalysis) : DbCallContext :=
  mkContext (pool_key_service service_id tenant_id) (match a_intent a with Read => ReadOnly | Write => ReadWrite end) (a_session a).

(** ** Names and texts *)

(** Lower case as far as comparisons with ASCII texts can tell: besides the
    ASCII letters, the Kelvin sign becomes [k] and the dotted capital I
    becomes [i] with a combining dot. *)
Definition lower_char (c : char) : text := if c =? 0x212A then [107] else if c =? 0x130 then [105; 0x307] else [ascii_lower c].
Definition to_lowercase (s : text) : text := concat (lower_char <$> s).
Definition one_of (s : text) (l : list string) : bool := bool_decide (s ∈ lit <$> l).
Definition ends_any (s : text) (l : list string) : bool := existsb (λ p, ends_with (lit p) s) l.

Definition looks_like_timestamp_column (name : text) : bool :=
  let lower := to_lowercase name in
  ends_any lower ["_at"; "_until"; "_date"; "_time"]%string || one_of lower ["created"; "updated"; "timestamp"]%string.
Definition looks_like_bool_column (name : text) : bool :=
  let lower := to_lowercase name in
  one_of lower ["enabled"; "requires_api_key"; "maintenance_mode"; "email_verified"; "success"]%string
  || starts_with (lit "is_") lower || starts_with (lit "has_") lower || ends_any lower ["_enabled"; "_active"; "_verified"; "_required"]%string.
Definition looks_like_text_array_column (name : text) : bool :=
  let lower := to_lowercase name in one_of lower ["allowed_email_domains"; "scopes"]%string || ends_any lower ["_domains"; "_scopes"]%string.
Definition looks_like_inet_column (name : text) : bool :=
  let lower := to_lowercase name in
  one_of lower ["ip"; "ip_address"; "client_ip"; "remote_ip"; "peer_ip"]%string || ends_any lower ["_ip"; "_ip_address"]%string.
Definition looks_like_uuid_column (name : text) : bool :=
  let lower := to_lowercase name in ends_any lower ["_id"; "_uuid"]%string || one_of lower ["id"; "uuid"]%string.

(** Positions are bytes. *)
Definition byte_is (s : text) (i : nat) (b : Z) : bool := bool_decide (utf8 s !! i = Some b).
Definition looks_like_uuid (s : text) : bool :=
  (byte_len s =? 36) && byte_is s 8 45 && byte_is s 13 45 && byte_is s 18 45 && byte_is s 23 45.
Definition looks_like_timestamp (s : text) : bool :=
  (19 <=? byte_len s) && byte_is s 4 45 && byte_is s 7 45 && (byte_is s 10 84 || byte_is s 10 32) && byte_is s 13 58 && byte_is s 16 58.

(** The address of a [SocketAddr]: [read_socket_addr_v4] and [_v6]. *)
Definition read_port (s : text) : option (Z * text) := read_given 58 s ≫= read_number 10 (length s) true (2 ^ 16).
Definition skip_scope_id (s : text) : text :=
  match read_given 37 s ≫= read_number 10 (length s) true (2 ^ 32) with Some (_, s) => s | None => s end.
Definition parse_socket_ip (s : text) : option IpAddr :=
  match ('(ip, s) ← read_ipv4 s; '(_, s) ← read_port s; if bool_decide (s = []) then Some (V4 ip) else None) with
  | Some ip => Some ip
  | None => s ← read_given 91 s; '(ip, s) ← read_ipv6 s; s ← read_given 93 (skip_scope_id s); '(_, s) ← read_port s;
            if bool_decide (s = []) then Some (V6 ip) else None
  end.
Definition parse_inet_value (s : text) : option IpAddr :=
  let trimmed := trim (default s (head (split 44 s))) in
  if bool_decide (trimmed = []) then None
  else match parse_ip trimmed with Some ip => Some ip | None => parse_socket_ip trimmed end.

Definition array_item (v : JsonValue F64) : option text := match v with JString s => Some s | JNull => None | other => Some (json_display other) end.
Definition parse_text_array_items (values : list (JsonValue F64)) : DbValue := VTextArray (omap array_item values).
Definition parse_text_array_value (s : text) : DbValue :=
  let trimmed := trim s in
  if bool_decide (trimmed = []) then VTextArray []
  else match json_parse trimmed with Some (JArray values) => parse_text_array_items values | _ => VTextArray [s] end.

(** ** Parameters *)

Definition i64_max : Z := 2 ^ 63 - 1.
Definition as_i64 (n : JsonNumber F64) : option Z := match n with PosInt n => if n <=? i64_max then Some n else None | NegInt n => Some n | Flt _ => None end.
Definition as_f64 (n : JsonNumber F64) : F64 := match n with PosInt n => f64_of_int n | NegInt n => f64_of_int n | Flt f => f end.

Definition to_json_value (v : JsonValue F64) : result DbValue DbConnectorError :=
  match json_text v with Some s => Ok (VJson s) | None => Err (InvalidRequest UnsupportedJson) end.

Definition parse_param_value_with_name (name : text) (value : JsonValue F64) : result DbValue DbConnectorError :=
  match value with
  | JNull => Ok (if looks_like_timestamp_column name then VNullTimestamp else if looks_like_uuid_column name then VNullUuid
                 else if looks_like_inet_column name then VNullInet else VNull)
  | JBool b => Ok (VBool b)
  | JNumber n =>
      match as_i64 n with
      | Some int =>
          if looks_like_bool_column name then
            if int =? 0 then Ok (VBool false) else if int =? 1 then Ok (VBool true) else Err (InvalidRequest (BadBoolean name int))
          else Ok (VInteger int)
      | None => Ok (VFloat (as_f64 n))
      end
  | JString s =>
      if looks_like_inet_column name then Ok (match parse_inet_value s with Some ip => VInet ip | None => VNullInet end)
      else if looks_like_text_array_column name then Ok (parse_text_array_value s)
      else match (if looks_like_uuid s then uuid_parse s else None) with
           | Some u => Ok (VUuid u)
           | None =>
               if looks_like_timestamp s then Ok (match rfc3339_parse s with Some t => VTimestamp t | None => VTimestampStr s end) else Ok (VText s)
           end
  | JArray values => if looks_like_text_array_column name then Ok (parse_text_array_items values) else to_json_value value
  | JObject _ => to_json_value value
  end.

Fixpoint convert_prepared_params (params : list DbPreparedParam) : result (list DbValue) DbConnectorError :=
  match params with
  | [] => Ok []
  | p :: params => v <-? parse_param_value_with_name (p_name p) (p_value p) ;; vs <-? convert_prepared_params params ;; Ok (v :: vs)
  end.

(** ** Tenants *)

(** The first parameter of the name gets the value; [None] when there is none. *)
Fixpoint set_first (name : text) (v : JsonValue F64) (params : list DbPreparedParam) : option (list DbPreparedParam) :=
  match params with
  | [] => None
  | p :: params => if bool_decide (p_name p = name) then Some (mkParam name v :: params) else (λ ps, p :: ps) <$> set_first name v params
  end.

Definition apply_tenant_policy (params : list DbPreparedParam) (policy : DbTenantPolicy) (tenant_id : text) : result (list DbPreparedParam) DbConnectorError :=
  match tp_mode policy with
  | Inject => Ok (default (params ++ [mkParam (tp_param policy) (JString tenant_id)]) (set_first (tp_param policy) (JString tenant_id) params))
  | RequireMatch =>
      match List.find (λ p, bool_decide (p_name p = tp_param policy)) params with
      | None => Err (InvalidRequest (TenantParamMissing (tp_param policy)))
      | Some target =>
          match p_value target with
          | JString value => if bool_decide (value = tenant_id) then Ok params else Err (InvalidRequest (TenantParamMismatch (tp_param policy)))
          | _ => Err (InvalidRequest (TenantParamMismatch (tp_param policy)))
          end
      end
  end.

Definition prepare_command (c : DbConnectorCommand) (policy : option DbTenantPolicy) (tenant_id : text) : result DbConnectorCommand DbConnectorError :=
  match policy with
  | None => Ok c
  | Some policy =>
      match c with
      | Prepared s params => ps <-? apply_tenant_policy params policy tenant_id ;; Ok (Prepared s ps)
      | Simple _ => Err (InvalidRequest TenantNeedsPrepared)
      end
  end.

(** ** Requests *)

Definition engine_from_str (s : text) : option DbEngine :=
  let lower := to_ascii_lowercase s in
  if one_of lower ["postgres"; "postgresql"]%string then Some Postgres
  else if one_of lower ["mysql"]%string then Some Mysql
  else if one_of lower ["sqlite"; "sqlite3"]%string then Some Sqlite
  else if one_of lower ["mongodb"; "mongo"]%string then Some Mongodb
  else None.

Inductive DbConnectorResultView := VResultSet (rs : DbResultSet) | VAffectedRows (n : Z) | VCommand (tag : string).
Definition view (r : DbExecutionResult) : DbConnectorResultView :=
  match r with ResultSet rs => VResultSet rs | AffectedRows n => VAffectedRows n | CommandTag t => VCommand t end.

(** A call of the adapter of an engine on behalf of a context. *)
Inductive DbOp := SimpleQuery (s : text) | PreparedQuery (s : text) (values : list DbValue) | PreparedExecute (s : text) (values : list DbValue).
Record DbCall := mkCall { k_engine : DbEngine; k_context : DbCallContext; k_op : DbOp }.
Inductive DbAnswer := Results (l : list DbExecutionResult) | Affected (n : Z).

(** The sessions refuse before the adapter is reached. *)
Definition run_call (answer : DbCall -> result DbAnswer DbError) (s : DbShellSession) (ctx : DbCallContext) (op : DbOp)
    : result DbAnswer DbConnectorError * option DbCall :=
  match (_ <-? guard_enabled s ;; adapter (service s) (current_engine s)) with
  | Err e => (Err (Db e), None)
  | Ok e => let call := mkCall e ctx op in (match answer call with Ok a => Ok a | Err e => Err (Db e) end, Some call)
  end.

Definition views_of (a : DbAnswer) : list DbConnectorResultView := match a with Results l => view <$> l | Affected n => [VAffectedRows n] end.

Definition execute_command (answer : DbCall -> result DbAnswer DbError) (s : DbShellSession) (ctx : DbCallContext) (c : DbConnectorCommand) (intent : DbConnectorIntent)
    : result (list DbConnectorResultView) DbConnectorError * option DbCall :=
  let finish r := match r with (Ok a, k) => (Ok (views_of a), k) | (Err e, k) => (Err e, k) end in
  match c with
  | Simple statement => finish (run_call answer s ctx (SimpleQuery statement))
  | Prepared statement params =>
      match convert_prepared_params params with
      | Err e => (Err e, None)
      | Ok values => finish (run_call answer s ctx (match intent with Write => PreparedExecute statement values | Read => PreparedQuery statement values end))
      end
  end.

Definition claims_have_scope (c : DelegatedTokenClaims) (required : text) : bool := existsb (λ s, bool_decide (scope_text s = required)) (scopes c).
Definition required_scope (i : DbConnectorIntent) : text := match i with Read => DB_SCOPE_READ | Write => DB_SCOPE_WRITE end.

(** Everything after the token is valid. *)
Definition process_claims (answer : DbCall -> result DbAnswer DbError) (shell : DbShellService) (q : DbConnectorRequest) (c : DelegatedTokenClaims)
    : result (list DbConnectorResultView) DbConnectorError * option DbCall :=
  match actor c with
  | User _ _ => (Err ServiceActorsOnly, None)
  | Service service_id _ =>
      let analysis := analyze_statement (statement_of (q_command q)) in
      let exec_intent := default (a_intent analysis) (q_intent q) in
      if negb (claims_have_scope c (required_scope (a_intent analysis))) then (Err (MissingScope (required_scope (a_intent analysis))), None)
      else
        let tenant := text_of (tenant_id c) in
        let ctx := call_context (text_of service_id) tenant analysis in
        match (s <-? match q_engine q with
                     | None => Ok (create_session shell)
                     | Some raw =>
                         match engine_from_str raw with
                         | None => Err (InvalidRequest (EngineUnknown raw))
                         | Some e => match switch_engine (create_session shell) e with Ok s => Ok s | Err e => Err (InvalidRequest (EngineRefused e)) end
                         end
                     end ;;
               command <-? prepare_command (q_command q) (q_tenant q) tenant ;; Ok (s, command)) with
        | Err e => (Err e, None)
        | Ok (s, command) => execute_command answer s ctx command exec_intent
        end
  end.

(** [elapsed] and [now] are the clocks of the token check. *)
Definition process (answer : DbCall -> result DbAnswer DbError) (shell : DbShellService) (store : ServiceTokenStore) (elapsed now : Z) (q : DbConnectorRequest)
    : result (list DbConnectorResultView) DbConnectorError * option DbCall * ServiceTokenStore :=
  let statement := statement_of (q_command q) in
  if bool_decide (trim statement = []) then (Err (InvalidRequest StatementEmpty), None, store)
  else if MAX_STATEMENT_LEN <? byte_len statement then (Err (InvalidRequest StatementTooLong), None, store)
  else match validate store (q_token q) elapsed now with
       | (Err e, store) => (Err (Token e), None, store)
       | (Ok c, store) => (process_claims answer shell q c, store)
       end.
End Connector.
