(* ===== verification/DbConnectorSafety.v ===== *)
(** * What the database connector guarantees

    When a request of a module reaches the database and on whose behalf, how
    the tenant is bound, and what becomes of the parameters.  Theorems about
    [DbConnector]. *)

From S2P Require Import Prelude Text Ip Roles ServiceTokens Manifests TokenExchange TokenExchangeSafety Schema MigrationSql Migrations BundleInspect DbConnector.

#[local] Open Scope fenrir_scope.

Section Connector.
Context {CL : ConnectorLibs}.

(** ** Who reaches the database *)

(** The session of a request: the engine it names must be known and configured. *)
Definition open_session (shell : DbShellService) (q : DbConnectorRequest) (s : DbShellSession) : Prop :=
  match q_engine q with
  | None => s = create_session shell
  | Some raw => exists e, engine_from_str raw = Some e /\ switch_engine (create_session shell) e = Ok s
  end.

Definition convertible (c : DbConnectorCommand) : Prop := match c with Simple _ => True | Prepared _ ps => exists vs, convert_prepared_params ps = Ok vs end.

(** The conditions on claims, in the order of the code. *)
Definition may_call (shell : DbShellService) (q : DbConnectorRequest) (c : DelegatedTokenClaims) : Prop :=
  exists sid role s command, actor c = Service sid role
    /\ mkScope (required_scope (a_intent (analyze_statement (statement_of (q_command q))))) ∈ scopes c
    /\ open_session shell q s /\ prepare_command (q_command q) (q_tenant q) (text_of (tenant_id c)) = Ok command
    /\ convertible command /\ enabled shell = true /\ current_engine s ∈ adapters shell.

(** A call on behalf of the claims: their service and tenant, the access the
    statement needs, and the statement as it was sent. *)
Definition call_for (q : DbConnectorRequest) (c : DelegatedTokenClaims) (k : DbCall) : Prop :=
  exists sid role, actor c = Service sid role
    /\ k_context k = call_context (text_of sid) (text_of (tenant_id c)) (analyze_statement (statement_of (q_command q)))
    /\ match k_op k with SimpleQuery s | PreparedQuery s _ | PreparedExecute s _ => s = statement_of (q_command q) end.

Lemma scope_elem c required : claims_have_scope c required = true <-> mkScope required ∈ scopes c.
Proof.
  unfold claims_have_scope. rewrite existsb_exists. split.
  - intros ([t] & Hin & Ht). apply bool_decide_eq_true in Ht. cbn in Ht. subst t. by apply list_elem_of_In.
  - intros Hin. exists (mkScope required). split; [by apply list_elem_of_In|]. by apply bool_decide_eq_true_2.
Qed.

Lemma session_service shell q s : open_session shell q s -> service s = shell.
Proof.
  unfold open_session. destruct (q_engine q) as [raw|]; [|by intros ->]. intros (e & _ & H). unfold switch_engine in H.
  destruct (guard_enabled _); [|done]. cbn in H. case_bool_decide; [by injection H as <-|]. destruct (adapter _ _); [|done]. by injection H as <-.
Qed.

(** A call is made exactly when the session is enabled, its engine configured
    and the parameters convert. *)
Lemma execute_cases answer s ctx command intent :
  match (execute_command answer s ctx command intent).2 with
  | Some k => convertible command /\ enabled (service s) = true /\ current_engine s ∈ adapters (service s)
      /\ k_context k = ctx /\ match k_op k with SimpleQuery t | PreparedQuery t _ | PreparedExecute t _ => t = statement_of command end
  | None => ~ (convertible command /\ enabled (service s) = true /\ current_engine s ∈ adapters (service s))
  end.
Proof.
  unfold execute_command, run_call, guard_enabled, adapter. destruct command as [t|t ps]; cbn [convertible].
  - destruct (enabled (service s)) eqn:Ee; cbn; [|naive_solver]. case_bool_decide as Ha; cbn; [|naive_solver]. destruct (answer _); cbn; naive_solver.
  - destruct (convert_prepared_params ps) as [vs|e]; [|cbn; naive_solver]. destruct (enabled (service s)) eqn:Ee; cbn; [|naive_solver].
    case_bool_decide as Ha; cbn; [|naive_solver]. destruct (answer _), intent; cbn; naive_solver.
Qed.

Lemma prepared_statement c policy tenant c' : prepare_command c policy tenant = Ok c' -> statement_of c' = statement_of c.
Proof. unfold prepare_command. destruct policy, c; try (by intros [= <-]). destruct (apply_tenant_policy _ _ _); [|done]. by intros [= <-]. Qed.

Lemma claims_cases answer shell q c : match (process_claims answer shell q c).2 with Some k => may_call shell q c /\ call_for q c k | None => ~ may_call shell q c end.
Proof.
  unfold process_claims, may_call, call_for. destruct (actor c) as [u r|sid role] eqn:Ea; [cbn; naive_solver|].
  destruct (claims_have_scope c _) eqn:Es; cbn [negb].
  2: { cbn. intros (? & ? & s & cmd & _ & Hs & _). apply scope_elem in Hs. congruence. }
  apply scope_elem in Es. set (ctx := call_context _ _ _).
  destruct (match q_engine q with None => _ | Some raw => _ end) as [s|e] eqn:Eo; cbn [mbind].
  2: { cbn. intros (? & ? & s & cmd & _ & _ & Ho & _). unfold open_session in Ho. destruct (q_engine q); [|done]. destruct Ho as (e' & He & Hsw). rewrite He, Hsw in Eo. done. }
  assert (Ho : forall s', open_session shell q s' <-> s' = s).
  { intros s'. unfold open_session. destruct (q_engine q) as [raw|]; [|by injection Eo as <-]. destruct (engine_from_str raw) as [e|]; [|done].
    destruct (switch_engine (create_session shell) e) as [s0|] eqn:Esw; [injection Eo as ->|done]. split; [intros (e' & [= <-] & H); congruence|intros ->; eauto]. }
  destruct (prepare_command _ _ _) as [cmd|e] eqn:Ep; cbn.
  2: { intros (? & ? & s' & cmd & _ & _ & _ & Hp & _). congruence. }
  pose proof (execute_cases answer s ctx cmd (default (a_intent (analyze_statement (statement_of (q_command q)))) (q_intent q))) as Hx.
  rewrite (session_service shell q s) in Hx by by apply Ho. destruct (execute_command _ _ _ _ _).2 as [k|].
  - destruct Hx as (Hconv & Hen & Had & Hk & Hop). split; [exists sid, role, s, cmd; split_and!; [done|done|by apply Ho|done..]|]. exists sid, role. split_and!; [done|done|].
    rewrite <- (prepared_statement _ _ _ _ Ep). exact Hop.
  - intros (? & ? & s' & cmd' & _ & _ & Hs' & Hp' & Hrest). apply Ho in Hs' as ->. apply Hx. assert (cmd' = cmd) as -> by congruence. exact Hrest.
Qed.

(** C16: A request reaches the database exactly when its statement is neither
    blank nor too long, its token is valid and a service's, the token has
    the scope that the host's own classification of the statement needs, and
    the engine, the tenant policy and the parameters are in order; the call
    runs in the pool of the token's service and tenant with the statement as
    sent, and read-write only with [db:write]. *)
Theorem connector_call_exact answer shell store elapsed now q :
  let out := process answer shell store elapsed now q in
  let statement := statement_of (q_command q) in
  ((exists k, out.1.2 = Some k) <-> trim statement <> [] /\ byte_len statement <= MAX_STATEMENT_LEN
     /\ exists c, (validate store (q_token q) elapsed now).1 = Ok c /\ may_call shell q c)
  /\ forall k, out.1.2 = Some k -> exists c, (validate store (q_token q) elapsed now).1 = Ok c /\ call_for q c k
       /\ (access (k_context k) = ReadWrite -> mkScope DB_SCOPE_WRITE ∈ scopes c).
Proof.
  cbn zeta. unfold process. case_bool_decide as Hb; [cbn; naive_solver|]. destruct (Z.ltb_spec MAX_STATEMENT_LEN (byte_len (statement_of (q_command q)))) as [Hl|Hl].
  { cbn [fst snd]. split; [|done]. split; [by intros [? ?]|]. intros (_ & H & _). lia. }
  destruct (validate store (q_token q) elapsed now) as [[c|e] store']; cbn [fst snd].
  2: { split; [|done]. split; [by intros [? ?]|]. by intros (_ & _ & c & H & _). }
  pose proof (claims_cases answer shell q c) as Hc. destruct (process_claims answer shell q c).2 as [k|].
  - destruct Hc as [Hm Hk]. split; [split; eauto 6|]. intros k' [= <-]. exists c. split_and!; [done|done|]. intros Hrw.
    destruct Hk as (sid & role & _ & Hctx & _), Hm as (? & ? & ? & ? & _ & Hs & _). rewrite Hctx in Hrw. cbn in Hrw.
    unfold required_scope in Hs. by destruct (a_intent (analyze_statement (statement_of (q_command q)))).
  - split; [|done]. split; [by intros [? ?]|]. intros (_ & _ & c' & [= <-] & Hm). done.
Qed.

(** ** Pools *)

(** Two modules, or two tenants of one module, never share a pool: the
    pool of a module's token belongs to that module and tenant alone. *)
Theorem pools_are_separate i j t t' : id_ok i -> id_ok j ->
  pool_key_service (text_of (module_service_id i)) t = pool_key_service (text_of (module_service_id j)) t' -> i = j /\ t = t'.
Proof.
  intros Hi Hj. assert (Ht : forall i, id_ok i -> text_of (module_service_id i) = lit "module:" ++ id_text i /\ (64 ∉ lit "module:" ++ id_text i)).
  { intros k [Hne Hk]. assert (Hascii : Forall (λ c, 0 <= c < 128) (lit "module:" ++ id_text k)) by (apply Forall_app; split; [repeat constructor; lia|by apply id_chars_ascii]).
    split; [by apply text_of_ascii|]. rewrite not_elem_of_app. split; [by apply (bool_decide_unpack (64 ∉ lit "module:"))|].
    intros Hin. rewrite forallb_forall in Hk. by specialize (Hk 64 (proj1 (list_elem_of_In _ _) Hin)). }
  destruct (Ht i Hi) as [-> Hni], (Ht j Hj) as [-> Hnj]. unfold pool_key_service. intros H%app_inv_head.
  apply (split_char_inj 64) in H as [H ->]; [|done..]. apply app_inv_head in H. destruct i, j. cbn in H. by subst.
Qed.

(** ** Tenants *)

Lemma set_first_spec name v ps ps' : set_first name v ps = Some ps' ->
  exists a p b, ps = a ++ p :: b /\ ps' = a ++ mkParam name v :: b /\ p_name p = name /\ Forall (λ p, p_name p <> name) a.
Proof.
  revert ps'. induction ps as [|p ps IH]; intros ps'; [done|]. cbn [set_first]. case_bool_decide as H.
  - intros [= <-]. exists [], p, ps. done.
  - destruct (set_first name v ps) as [ps1|]; [|done]. intros [= <-]. destruct (IH ps1 eq_refl) as (a & p' & b & -> & -> & ? & ?).
    exists (p :: a), p', b. split_and!; [done|done|done|]. by constructor.
Qed.
Lemma set_first_none name v ps : set_first name v ps = None -> Forall (λ p, p_name p <> name) ps.
Proof. induction ps as [|p ps IH]; [by constructor|]. cbn [set_first]. case_bool_decide; [done|]. destruct (set_first name v ps); [done|]. constructor; auto. Qed.

(** A tenant policy that is accepted binds the tenant of the token: the
    first parameter of the name holds it, parameters before it have other
    names, and injection changes nothing else. *)
Theorem tenant_policy_binds params policy tenant ps : apply_tenant_policy params policy tenant = Ok ps ->
  exists a b, ps = a ++ mkParam (tp_param policy) (JString tenant) :: b /\ Forall (λ p, p_name p <> tp_param policy) a
    /\ (ps = params \/ params = a \/ exists p, p_name p = tp_param policy /\ params = a ++ p :: b).
Proof.
  unfold apply_tenant_policy. destruct (tp_mode policy).
  - intros [= <-]. destruct (set_first _ _ params) as [ps'|] eqn:E.
    + apply set_first_spec in E as (a & p & b & -> & -> & Hp & Ha). exists a, b. split_and!; [done|done|]. right. right. eauto.
    + exists params, []. split_and!; [done|by eapply set_first_none|]. by right; left.
  - destruct (List.find _ params) as [target|] eqn:E; [|done]. destruct (p_value target) as [| | |v| |] eqn:Ev; try done. case_bool_decide as Hv; [|done]. subst v.
    intros [= <-]. revert E. induction params as [|p params IH]; [done|]. cbn [List.find]. case_bool_decide as Hp.
    + intros [= ->]. exists [], params. split_and!; [|constructor|by left]. destruct target; cbn in *. by subst.
    + intros (a & b & Hab & Ha & _)%IH. exists (p :: a), b. rewrite Hab. split_and!; [done|by constructor|by left].
Qed.

(** Only the first parameter of the name is looked at: whatever follows
    it, under the same name too, is accepted with the value the module
    chose. *)
Theorem later_tenant_param_is_free params policy tenant ps p : apply_tenant_policy params policy tenant = Ok ps ->
  Exists (λ q, p_name q = tp_param policy) params -> apply_tenant_policy (params ++ [p]) policy tenant = Ok (ps ++ [p]).
Proof.
  intros H Hex. unfold apply_tenant_policy in *. destruct (tp_mode policy).
  - assert (Hs : set_first (tp_param policy) (JString tenant) (params ++ [p]) = (λ ps, ps ++ [p]) <$> set_first (tp_param policy) (JString tenant) params).
    { clear H. induction Hex as [q qs Hq|q qs _ IH]; cbn [app set_first]; case_bool_decide; try done. rewrite IH. by destruct (set_first _ _ qs). }
    rewrite Hs. destruct (set_first _ _ params) eqn:E; [by injection H as <-|]. apply set_first_none in E. exfalso.
    apply Exists_exists in Hex as (q & Hq & Hn). rewrite Forall_forall in E. by apply (E q Hq).
  - assert (Hf : List.find (λ q, bool_decide (p_name q = tp_param policy)) (params ++ [p]) = List.find (λ q, bool_decide (p_name q = tp_param policy)) params).
    { clear H. induction Hex as [q qs Hq|q qs _ IH]; cbn; case_bool_decide; try done. }
    rewrite Hf. destruct (List.find _ params) as [target|]; [|done]. destruct (p_value target); try done. case_bool_decide; [|done]. by injection H as <-.
Qed.

(** ** Parameters *)

(** What a string parameter arrives as: itself exactly when its name is
    neither an address nor an array column and its content neither is a UUID
    nor has the shape of a time; every parameter keeps its position, and an
    integer arrives unchanged when it fits 64 bits and its name is not that
    of a flag. *)
Theorem parameters_arrive name : 
  (forall s, parse_param_value_with_name name (JString s) = Ok (VText s) <->
     looks_like_inet_column name = false /\ looks_like_text_array_column name = false
     /\ (looks_like_uuid s = true -> uuid_parse s = None) /\ looks_like_timestamp s = false)
  /\ (forall n v, parse_param_value_with_name name (JNumber (PosInt n)) = Ok v ->
        v = VInteger n \/ (i64_max < n /\ v = VFloat (f64_of_int n)) \/ (looks_like_bool_column name = true /\ v = VBool (n =? 1) /\ 0 <= n <= 1))
  /\ forall ps vs, convert_prepared_params ps = Ok vs -> Forall2 (λ p v, parse_param_value_with_name (p_name p) (p_value p) = Ok v) ps vs.
Proof.
  split_and!.
  - intros s. cbn [parse_param_value_with_name]. destruct (looks_like_inet_column name); [split; [by destruct (parse_inet_value s)|naive_solver]|].
    destruct (looks_like_text_array_column name).
    { split; [|naive_solver]. unfold parse_text_array_value, parse_text_array_items. repeat case_match; done. }
    destruct (looks_like_uuid s); [destruct (uuid_parse s) as [u|]|]; destruct (looks_like_timestamp s); try destruct (rfc3339_parse s); naive_solver.
  - intros n v. cbn [parse_param_value_with_name as_i64]. destruct (Z.leb_spec n i64_max).
    + destruct (looks_like_bool_column name); [|intros [= <-]; by left]. destruct (Z.eqb_spec n 0) as [->|]; [intros [= <-]; right; right; by split_and!|].
      destruct (Z.eqb_spec n 1) as [->|]; [|done]. intros [= <-]. right. right. by split_and!.
    + intros [= <-]. right. left. by split.
  - induction ps as [|p ps IH]; intros vs; cbn; [by intros [= <-]; constructor|]. destruct (parse_param_value_with_name _ _) as [v|] eqn:E; [|done]. cbn.
    destruct (convert_prepared_params ps) as [vs'|]; [|done]. cbn. intros [= <-]. constructor; auto.
Qed.
End Connector.

(** ** Witnesses *)

(** A module kit that takes statements beginning with SELECT for reads. *)
#[local] Instance demo_libs : ConnectorLibs := {|
  F64 := Z; UuidT := text;
  analyze_statement s := if starts_with (lit "SELECT") s then mkAnalysis Read EffectNone else mkAnalysis Write EffectNone;
  json_text _ := Some []; json_display _ := []; json_parse _ := None; f64_of_int n := n; uuid_parse _ := None; rfc3339_parse _ := None |}.
Definition demo_shell : DbShellService := mkShell Postgres [Postgres] true.
Definition reader_claims : DelegatedTokenClaims := mkClaims "id-1" (Service "module:shop" SWrite) "default" [mkScope (lit "db:read")] 0 (seconds 600).
Definition reader_store : ServiceTokenStore := mkStore (seconds 600) (seconds 600) 0 (seconds 60) {[ "t-1"%string := ServiceTokens.mkEntry reader_claims 0 ]} (2 ^ 60) false.
Definition select_request : DbConnectorRequest := mkConnRequest "t-1" (Simple (lit "SELECT 1")) (Some Write) None None.
Definition no_rows (k : DbCall) : result DbAnswer DbError := Ok (Results []).

(** A read with the read scope is run read-only, although the client asked for
    a write; a write with it is not run. *)
Lemma connector_call_exact_witness :
  (exists k c, (process no_rows demo_shell reader_store 0 5 select_request).1.2 = Some k /\ access (k_context k) = ReadOnly /\ call_for select_request c k)
  /\ (process no_rows demo_shell reader_store 0 5 (mkConnRequest "t-1" (Simple (lit "DELETE FROM t")) (Some Read) None None)).1.1 = Err (MissingScope DB_SCOPE_WRITE).
Proof.
  split; [|vm_compute; reflexivity]. destruct (connector_call_exact no_rows demo_shell reader_store 0 5 select_request) as [_ H].
  destruct (process no_rows demo_shell reader_store 0 5 select_request).1.2 as [k|] eqn:E.
  - destruct (H k eq_refl) as (c & _ & Hk & _). exists k, c. split; [done|]. split; [|exact Hk].
    assert (Ha : match (process no_rows demo_shell reader_store 0 5 select_request).1.2 with Some k => access (k_context k) = ReadOnly | None => False end) by (vm_compute; reflexivity).
    by rewrite E in Ha.
  - exfalso. assert (Ho : match (process no_rows demo_shell reader_store 0 5 select_request).1.2 with Some _ => true | None => false end = true) by (vm_compute; reflexivity). by rewrite E in Ho.
Defined.

Lemma pools_are_separate_witness : mkId (lit "shop") = mkId (lit "shop") /\ lit "a" = lit "a".
Proof. apply (pools_are_separate (mkId (lit "shop")) (mkId (lit "shop")) (lit "a") (lit "a")); [split; [discriminate|reflexivity]..|reflexivity]. Defined.

Definition tenant_policy : DbTenantPolicy := mkPolicy (lit "tenant_id") RequireMatch.
Definition tenant_params : list DbPreparedParam := [mkParam (lit "n") (JNumber (PosInt 1)); mkParam (lit "tenant_id") (JString (lit "default"))].
Lemma tenant_policy_binds_witness : exists a b, tenant_params = a ++ mkParam (tp_param tenant_policy) (JString (lit "default")) :: b.
Proof.
  destruct (tenant_policy_binds tenant_params tenant_policy (lit "default") tenant_params eq_refl) as (a & b & H & _). exists a, b. exact H.
Defined.

(** A second [tenant_id] of another tenant. *)
Lemma later_tenant_param_is_free_witness :
  apply_tenant_policy (tenant_params ++ [mkParam (lit "tenant_id") (JString (lit "other"))]) tenant_policy (lit "default")
  = Ok (tenant_params ++ [mkParam (lit "tenant_id") (JString (lit "other"))]).
Proof.
  apply (later_tenant_param_is_free tenant_params tenant_policy (lit "default") tenant_params); [reflexivity|]. apply Exists_cons_tl, Exists_cons_hd. reflexivity.
Defined.
