(* ===== verification/Backup.v ===== *)
(** * Database backups: [services/backup]

    One run of a backup, the rotation of old ones, and the flag that keeps
    two runs apart.  The backup directory is a map from names (UTF-8 bytes)
    to entries, [None] while it does not exist; the order in which it is read
    is the operating system's.  [BackupIo] holds what a run learns from
    outside: the database, the disk, [pg_basebackup], clocks, and which calls
    fail.  Times are a number; SHA-256 and JSON are the class [BackupLibs].
    Log lines and the texts inside errors are left out. *)

From S2P Require Import Prelude StateError Text Versions Manifests Verifier ModuleStorage LogRetention.
#[local] Open Scope Z_scope.
#[local] Open Scope fenrir_scope.

(** ** Configuration and values *)

Inductive EmbeddedEngineKind := Sqlite | Postgres.
Definition engine_str (e : EmbeddedEngineKind) : text :=
  match e with Sqlite => lit "sqlite" | Postgres => lit "postgres" end.

Record DbBackupSection := mkBackupSection {
  enabled : bool; schedule : text; retention_count : nat; path : text; min_disk_space_mb : Z;
  require_healthy : bool; verify_integrity : bool; anomaly_threshold_pct : Z; pg_basebackup_path : option text;
}.
Definition backup_default : DbBackupSection :=
  mkBackupSection false (lit "daily") 7 (lit "backups") 500 true true 0 None.

(** [parse_backup_schedule], in seconds. *)
Definition parse_backup_schedule (s : text) : Z :=
  let s := to_ascii_lowercase s in
  if bool_decide (s = lit "hourly") then 3600
  else if bool_decide (s = lit "daily") then 86400
  else if bool_decide (s = lit "weekly") then 604800
  else 86400.

Inductive BackupError :=
| DatabaseUnhealthy
| InsufficientDiskSpace (available_mb required_mb : Z)
| ActiveLocks
| BackupInProgress
| SizeAnomaly (expected_mb actual_mb deviation_pct : Z)
| IntegrityCheckFailed
| CheckpointFailed
| BackupFailed
| RotationFailed
| BackupIoError
| NotEnabled.

Inductive BackupTrigger := Auto | Manual.

Record BackupMetadata := mkMetadata {
  m_created_at : text; m_engine : text; m_size_bytes : Z; m_checksum : option text; m_verified : bool; m_fenrir_version : text;
}.
Record BackupStatus := mkStatus {
  st_path : text; st_created_at : Z; st_size_bytes : Z; st_checksum : option text; st_engine : text; st_verified : bool;
}.

(** An entry of the backup directory: what it is, the length the system
    reports when it is a directory, its creation time where there is one. *)
Record BackupItem := mkItem { b_tree : tree; b_dir_len : Z; b_created : option Z }.
Definition item_len (i : BackupItem) : Z :=
  match b_tree i with TFile c => Z.of_nat (length c) | TDir _ => b_dir_len i end.
Definition item_is_dir (i : BackupItem) : bool := match b_tree i with TDir _ => true | TFile _ => false end.
Abbreviation Backups := (@gmap (list Z) list_eq_dec (@list_countable Z numbers.Z.eq_dec Z_countable) BackupItem).

(** The fields of [BackupInfo]; the path is the name in the directory. *)
Record BackupInfo := mkInfo { bi_name : list Z; bi_dir : bool; bi_metadata : option BackupMetadata; bi_size : Z; bi_created_at : Z }.
Record PreBackupChecks := mkChecks {
  db_healthy : bool; disk_space_mb : Z; has_active_locks : bool; last_backup_size_mb : option Z;
}.

Class BackupLibs := {
  sha256_hex : list Z -> text;
  metadata_to_json : BackupMetadata -> option (list Z);
  metadata_from_json : list Z -> option BackupMetadata;
}.
Class BackupLibsLaws (L : BackupLibs) : Prop := {
  metadata_json m j : metadata_to_json m = Some j -> metadata_from_json j = Some m;
}.

(** A call of [pg_basebackup]: program, password in its environment,
    arguments. *)
Record PgCommand := mkPgCommand { pg_program : text; pg_password : text; pg_args : list text }.

Record BackupIo := mkBackupIo {
  io_ping : bool;
  io_statvfs : option (Z * Z);                    (* f_bavail and f_frsize of the directory *)
  io_list_before : option (Backups -> list (list Z * BackupItem));
  io_query : text -> bool;                        (* a statement of a database session succeeds *)
  io_mkdir : bool;
  io_stamp : text;                                (* chrono, %Y%m%d_%H%M%S *)
  io_connection : bool * text * option Z * text;  (* connection_info *)
  io_credentials : option text;
  io_exists : text -> bool;
  io_which : option (bool * text);                (* status and output of which *)
  io_pg : PgCommand -> option (bool * option tree);
  io_source : option (list Z);                    (* db/fenrir.db *)
  io_copy : option (option (list Z));             (* what a failed copy leaves *)
  io_new_len : Z; io_new_created : option Z;
  io_size : bool;
  io_state : option (list Z);                     (* db_state.json *)
  io_state_copy : option (option (list Z));
  io_read : bool;
  io_created_at : text; io_now : Z; io_version : text;
  io_meta_write : option (option (list Z));
  io_list_after : option (Backups -> list (list Z * BackupItem));
  io_clock : list Z -> Z;                         (* now, for an entry without a creation time *)
  io_rm : list Z -> option (option tree);
  io_rm_meta : list Z -> bool;
}.

Definition MB : Z := 1024 * 1024.

(** [Path::with_extension("json")] of a file name. *)
Definition with_json (n : list Z) : list Z := file_stem n ++ lit ".json".
Definition is_json (n : list Z) : bool := bool_decide (extension n = Some (lit "json")).

(** An entry whose tree is written anew keeps its creation time. *)
Definition put_item (io : BackupIo) (n : list Z) (t : option tree) (d : Backups) : Backups :=
  match t with
  | None => delete n d
  | Some t =>
      <[n := match d !! n with
             | Some i => mkItem t (b_dir_len i) (b_created i)
             | None => mkItem t (io_new_len io) (io_new_created io)
             end]> d
  end.

(** The directory, when it exists. *)
Abbreviation BDir := (option Backups).
Abbreviation B := (SE BDir BackupError).
Definition dir_of (d : BDir) : Backups := default ∅ d.

Section Backup.
Context {L : BackupLibs}.
Context (cfg : DbBackupSection) (eng : EmbeddedEngineKind) (runtime_dir : text).

(** ** Paths *)

Definition is_absolute (p : text) : bool := starts_with (lit "/") p.
Definition backup_dir : text := if is_absolute (path cfg) then path cfg else path_join runtime_dir (path cfg).

(** ** Listing *)

Definition info_metadata (d : Backups) (n : list Z) (i : BackupItem) : option BackupMetadata :=
  match b_tree i with
  | TDir es => match entry (lit "backup.json") es with Some (TFile c) => metadata_from_json c | _ => None end
  | TFile _ => match d !! with_json n with Some (mkItem (TFile c) _ _) => metadata_from_json c | _ => None end
  end.
Definition info_of (io : BackupIo) (d : Backups) (e : list Z * BackupItem) : BackupInfo :=
  mkInfo e.1 (item_is_dir e.2) (info_metadata d e.1 e.2) (item_len e.2) (default (io_clock io e.1) (b_created e.2)).

(** [list_backups_internal]; [order] is [None] when a call to the file
    system fails. *)
Definition list_backups (io : BackupIo) (order : option (Backups -> list (list Z * BackupItem))) (d : BDir)
    : result (list BackupInfo) BackupError :=
  match d with
  | None => Ok []
  | Some d =>
      match order with
      | None => Err BackupIoError
      | Some order => Ok (info_of io d <$> filter (λ e, is_json e.1 = false) (order d))
      end
  end.

(** ** Checks before a backup *)

Definition get_last_backup_size_mb (io : BackupIo) (d : BDir) : result (option Z) BackupError :=
  bs <-? list_backups io (io_list_before io) d ;;
  Ok ((λ b, bi_size b / MB) <$> head bs).

(** [statvfs] fails on a directory that is not there. *)
Definition get_available_disk_space (io : BackupIo) (d : BDir) : result Z BackupError :=
  if bool_decide (0 ∈ backup_dir) then Err BackupIoError
  else match d, io_statvfs io with
       | Some _, Some (bavail, frsize) => Ok ((bavail * frsize) mod 2 ^ 64 / MB)
       | _, _ => Ok 10000
       end.

Definition run_pre_checks (io : BackupIo) (d : BDir) : PreBackupChecks :=
  mkChecks (io_ping io)
    (match get_available_disk_space io d with Ok n => n | Err _ => 0 end)
    false
    (match get_last_backup_size_mb io d with Ok o => o | Err _ => None end).

Definition force_checkpoint (io : BackupIo) : result unit BackupError :=
  let statement := match eng with Postgres => lit "CHECKPOINT" | Sqlite => lit "PRAGMA wal_checkpoint(TRUNCATE)" end in
  if io_query io statement then Ok tt else Err CheckpointFailed.

(** ** Making the copy *)

Definition COMMON_PATHS : list text :=
  [lit "/opt/homebrew/opt/postgresql@16/bin/pg_basebackup"; lit "/opt/homebrew/opt/postgresql@15/bin/pg_basebackup";
   lit "/opt/homebrew/opt/postgresql/bin/pg_basebackup"; lit "/opt/homebrew/bin/pg_basebackup";
   lit "/usr/local/opt/postgresql@16/bin/pg_basebackup"; lit "/usr/local/opt/postgresql@15/bin/pg_basebackup";
   lit "/usr/local/bin/pg_basebackup"; lit "/usr/bin/pg_basebackup"].

Definition find_pg_basebackup (io : BackupIo) : result text BackupError :=
  match pg_basebackup_path cfg with
  | Some p => if io_exists io p then Ok p else Err BackupFailed
  | None =>
      let found := match io_which io with
                   | Some (true, out) => if bool_decide (trim out = []) then None else Some (trim out)
                   | _ => None
                   end in
      match found with
      | Some p => Ok p
      | None => ok_or (find (io_exists io) COMMON_PATHS) BackupFailed
      end
  end.

Definition create_postgres_backup (io : BackupIo) (n : list Z) : B (list Z) :=
  let target_dir := path_join backup_dir n in
  let '(use_socket, socket_dir, port, user) := io_connection io in
  let* password := lift (ok_or (io_credentials io) BackupFailed) in
  let* program := lift (find_pg_basebackup io) in
  let* address := lift (if use_socket then Ok [lit "-h"; socket_dir]
                        else p <-? ok_or port BackupFailed ;;
                             Ok [lit "-h"; lit "127.0.0.1"; lit "-p"; lit (pretty.pretty p)]) in
  let args := [lit "-D"; target_dir; lit "-X"; lit "stream"; lit "-c"; lit "fast"; lit "-U"; user] ++ address in
  match io_pg io (mkPgCommand program password args) with
  | None => fail BackupFailed
  | Some (success, left_) =>
      modify (λ d, Some (put_item io n left_ (dir_of d))) >>
      if success then ret n else fail BackupFailed
  end.

Definition create_sqlite_backup (io : BackupIo) (n : list Z) : B (list Z) :=
  let n := n ++ lit ".db" in
  match io_source io with
  | None => fail BackupFailed
  | Some db =>
      match io_copy io with
      | Some left_ => modify (λ d, Some (put_item io n (TFile <$> left_) (dir_of d))) >> fail BackupFailed
      | None => modify (λ d, Some (put_item io n (Some (TFile db)) (dir_of d))) >> ret n
      end
  end.

(** [create_backup]; the result is the name in the backup directory. *)
Definition create_backup (io : BackupIo) : B (list Z) :=
  if negb (io_mkdir io) then fail BackupIoError
  else
    modify (λ d, Some (dir_of d)) >>
    let n := engine_str eng ++ lit "-" ++ io_stamp io in
    match eng with
    | Postgres => create_postgres_backup io n
    | Sqlite => create_sqlite_backup io n
    end.

(** ** After the copy *)

Definition member_size (e : list Z * tree) : Z :=
  match e.2 with TFile c => Z.of_nat (length c) | TDir _ => MB end.
Definition tree_size (t : tree) : Z :=
  match t with TFile c => Z.of_nat (length c) | TDir es => foldl (λ total e, total + member_size e) 0 es end.
Definition get_backup_size (io : BackupIo) (n : list Z) (d : Backups) : result Z BackupError :=
  match d !! n with
  | Some i => if io_size io then Ok (tree_size (b_tree i)) else Err BackupIoError
  | None => Err BackupIoError
  end.

Definition deviation (size_mb last_mb : Z) : Z :=
  if last_mb <? size_mb then (size_mb - last_mb) * 100 / last_mb else (last_mb - size_mb) * 100 / last_mb.
Definition anomaly_check (size_mb : Z) (last : option Z) : result unit BackupError :=
  if 0 <? anomaly_threshold_pct cfg then
    match last with
    | Some last_mb =>
        if 0 <? last_mb then
          if anomaly_threshold_pct cfg <? deviation size_mb last_mb
          then Err (SizeAnomaly last_mb size_mb (deviation size_mb last_mb mod 2 ^ 32))
          else Ok tt
        else Ok tt
    | None => Ok tt
    end
  else Ok tt.

(** [DbRuntimeSupervisor::copy_snapshot_to_backup]: a failure is only
    logged. *)
Definition copy_snapshot_to_backup (io : BackupIo) (n : list Z) (d : Backups) : Backups :=
  match io_state io, d !! n with
  | Some state, Some i =>
      let written := match io_state_copy io with None => Some (Some state) | Some left_ => Some left_ end in
      match b_tree i, written with
      | TDir es, Some o => <[n := mkItem (TDir (put_entry (lit "db_state.json") (TFile <$> o) es)) (b_dir_len i) (b_created i)]> d
      | TFile _, Some o => put_item io (n ++ lit ".state.json") (TFile <$> o) d
      | _, None => d
      end
  | _, _ => d
  end.

Definition verify_and_checksum (io : BackupIo) (n : list Z) (d : Backups) : result text BackupError :=
  match eng with
  | Sqlite =>
      match d !! n with
      | Some (mkItem (TFile c) _ _) => if io_read io then Ok (sha256_hex c) else Err BackupIoError
      | _ => Err BackupIoError
      end
  | Postgres =>
      match d !! n with
      | Some (mkItem (TDir es) _ _) => match entry (lit "PG_VERSION") es with Some _ => Ok (lit "postgres-backup-verified") | None => Err IntegrityCheckFailed end
      | _ => Err IntegrityCheckFailed
      end
  end.

Definition write_metadata (io : BackupIo) (n : list Z) (m : BackupMetadata) (d : Backups) : result unit BackupError * Backups :=
  match metadata_to_json m with
  | None => (Err BackupIoError, d)
  | Some json =>
      let content := match io_meta_write io with None => Some json | Some left_ => left_ end in
      let r := match io_meta_write io with None => Ok tt | Some _ => Err BackupIoError end in
      match d !! n with
      | Some (mkItem (TDir es) len c) => (r, <[n := mkItem (TDir (put_entry (lit "backup.json") (TFile <$> content) es)) len c]> d)
      | _ => (r, put_item io (with_json n) (TFile <$> content) d)
      end
  end.

(** ** Rotation *)

Definition newer (x y : BackupInfo) : Prop := bi_created_at y <= bi_created_at x.
#[export] Instance newer_dec x y : Decision (newer x y) := Z_le_dec _ _.

Definition remove_backup (io : BackupIo) (b : BackupInfo) : B unit :=
  match io_rm io (bi_name b) with
  | Some left_ => modify (λ d, Some (put_item io (bi_name b) left_ (dir_of d))) >> fail RotationFailed
  | None =>
      modify (λ d, Some (delete (bi_name b) (dir_of d))) >>
      modify (λ d, if io_rm_meta io (bi_name b) then Some (delete (with_json (bi_name b)) (dir_of d)) else d)
  end.

Definition rotate_backups (io : BackupIo) : B unit :=
  let* d := gets id in
  match d with
  | None => ret tt
  | Some _ =>
      let* backups := lift (list_backups io (io_list_after io) d) in
      let backups := merge_sort newer backups in
      if (retention_count cfg <? length backups)%nat
      then each (drop (retention_count cfg) backups) (remove_backup io)
      else ret tt
  end.

(** ** One run *)

Definition put_dir {A : Type} (f : Backups -> result A BackupError * Backups) : B A :=
  λ d, let '(r, d') := f (dir_of d) in (r, Some d').

Definition stop_if (b : bool) (e : BackupError) : B unit := if b then fail e else ret tt.

Definition run_backup_inner (io : BackupIo) : B BackupStatus :=
  let* checks := gets (run_pre_checks io) in
  stop_if (require_healthy cfg && negb (db_healthy checks)) DatabaseUnhealthy >>
  stop_if (disk_space_mb checks <? min_disk_space_mb cfg) (InsufficientDiskSpace (disk_space_mb checks) (min_disk_space_mb cfg)) >>
  stop_if (has_active_locks checks) ActiveLocks >>
  lift (force_checkpoint io) >>
  let* n := create_backup io in
  let* size_bytes := bindr (gets dir_of) (λ d, lift (get_backup_size io n d)) in
  lift (anomaly_check (size_bytes / MB) (last_backup_size_mb checks)) >>
  modify (λ d, Some (copy_snapshot_to_backup io n (dir_of d))) >>
  let* checksum := (if verify_integrity cfg
                    then let* d := gets dir_of in let* c := lift (verify_and_checksum io n d) in ret (Some c)
                    else ret None) in
  put_dir (write_metadata io n
    (mkMetadata (io_created_at io) (engine_str eng) size_bytes checksum (verify_integrity cfg) (io_version io))) >>
  rotate_backups io >>
  ret (mkStatus (path_join backup_dir n) (io_now io) size_bytes checksum (engine_str eng) (verify_integrity cfg)).

(** ** The flag and the audit log *)

(** [backup_in_progress], the directory, and the audit events: the trigger
    and the result of a run. *)
Record BackupService := mkBackup {
  in_progress : bool; b_backups : BDir; b_audit : list (BackupTrigger * result BackupStatus BackupError);
}.

(** The two halves of [run_backup], split at the [await] of the run: the
    exchange of the flag, and what follows the run.  [audit_ok] is the
    success of the audit log. *)
Definition backup_enter (s : BackupService) : result unit BackupError * BackupService :=
  if negb (enabled cfg) then (Err NotEnabled, s)
  else if in_progress s then (Err BackupInProgress, s)
  else (Ok tt, mkBackup true (b_backups s) (b_audit s)).
Definition backup_leave (io : BackupIo) (audit_ok : bool) (trigger : BackupTrigger) (s : BackupService)
    : result BackupStatus BackupError * BackupService :=
  let '(r, d) := run_backup_inner io (b_backups s) in
  (r, mkBackup false d (if audit_ok then b_audit s ++ [(trigger, r)] else b_audit s)).
Definition run_backup (io : BackupIo) (audit_ok : bool) (trigger : BackupTrigger) (s : BackupService)
    : result BackupStatus BackupError * BackupService :=
  match backup_enter s with
  | (Err e, s) => (Err e, s)
  | (Ok _, s) => backup_leave io audit_ok trigger s
  end.

(** Tasks: the runs that are waiting for their copy.  A run that is dropped
    (its task is aborted) leaves without touching the flag. *)
Record BackupWorld := mkBackupWorld { w_service : BackupService; w_runs : gmap nat BackupTrigger }.
Inductive BackupAct :=
| ACall (task : nat) (trigger : BackupTrigger)
| AFinish (task : nat) (io : BackupIo) (audit_ok : bool)
| ADrop (task : nat).

Definition backup_act (a : BackupAct) (w : BackupWorld) : option (result BackupStatus BackupError) * BackupWorld :=
  match a with
  | ACall t trigger =>
      match w_runs w !! t with
      | Some _ => (None, w)
      | None =>
          match backup_enter (w_service w) with
          | (Err e, s) => (Some (Err e), mkBackupWorld s (w_runs w))
          | (Ok _, s) => (None, mkBackupWorld s (<[t := trigger]> (w_runs w)))
          end
      end
  | AFinish t io audit_ok =>
      match w_runs w !! t with
      | None => (None, w)
      | Some trigger =>
          let '(r, s) := backup_leave io audit_ok trigger (w_service w) in
          (Some r, mkBackupWorld s (delete t (w_runs w)))
      end
  | ADrop t => (None, mkBackupWorld (w_service w) (delete t (w_runs w)))
  end.
Definition backup_acts (acts : list BackupAct) (w : BackupWorld) : BackupWorld := foldl (λ w a, (backup_act a w).2) w acts.
End Backup.
