(* ===== verification/BackupSafety.v ===== *)
(** * Theorems on the backups of [Backup]

    What a rotation keeps, that a successful run leaves a complete backup,
    that runs exclude each other, and where the checks do not do what they
    are for. *)

From S2P Require Import Prelude StateError Text Versions Manifests Verifier ModuleStorage ModuleStorageSafety LogRetention Backup.
#[local] Open Scope Z_scope.
#[local] Open Scope fenrir_scope.

(** ** Names *)

Lemma no_dot_stem n : 46 ∉ n -> file_stem n = n /\ extension n = None.
Proof.
  intros Hn. unfold file_stem, extension, rsplit_once. destruct (split_once 46 (rev n)) as [[a b]|] eqn:E; [|done].
  apply split_once_some in E as [E _]. exfalso. apply Hn, list_elem_of_In, in_rev, list_elem_of_In. rewrite E. set_solver.
Qed.
Lemma dot_stem s e : s <> [] -> 46 ∉ e -> file_stem (s ++ 46 :: e) = s /\ extension (s ++ 46 :: e) = Some e.
Proof. intros Hs He. unfold file_stem, extension. rewrite rsplit_once_app by done. by destruct s. Qed.

Lemma json_no_dot : 46 ∉ lit "json".
Proof. apply (bool_decide_unpack (46 ∉ lit "json")). vm_compute. exact I. Qed.
Lemma json_of s : s <> [] -> is_json (s ++ lit ".json") = true.
Proof.
  intros Hs. unfold is_json. change (lit ".json") with (46 :: lit "json"). destruct (dot_stem s (lit "json") Hs json_no_dot) as [_ ->].
  by rewrite bool_decide_true.
Qed.
Lemma stem_nonempty n : n <> [] -> file_stem n <> [].
Proof. unfold file_stem. intros Hn. destruct (rsplit_once 46 n) as [[[|x s] e]|]; done. Qed.
Lemma with_json_is_json n : n <> [] -> is_json (with_json n) = true.
Proof. intros Hn. by apply json_of, stem_nonempty. Qed.
Lemma with_json_stem n m : with_json n = with_json m -> file_stem n = file_stem m.
Proof. apply app_inj_2. done. Qed.

(** ** Rotation *)

(** The entries of a directory that count as backups. *)
Definition backups_in (d : Backups) : Backups := filter (λ e, is_json e.1 = false) d.
Definition created_of (io : BackupIo) (n : list Z) (i : BackupItem) : Z := default (io_clock io n) (b_created i).

Lemma backups_in_lookup d n i : backups_in d !! n = Some i <-> d !! n = Some i /\ is_json n = false.
Proof. unfold backups_in. by rewrite map_lookup_filter_Some. Qed.

#[global] Instance newer_total : Total newer.
Proof. intros x y. unfold newer. lia. Qed.
#[global] Instance newer_trans : Transitive newer.
Proof. intros x y z. unfold newer. lia. Qed.

Lemma sorted_take_drop {X : Type} (R : relation X) (l : list X) k x y :
  StronglySorted R l -> x ∈ take k l -> y ∈ drop k l -> R x y.
Proof.
  intros Hl. revert k. induction Hl as [|a l Hl IH Ha]; intros [|k] Hx Hy; cbn in *; try set_solver.
  apply elem_of_cons in Hx as [->|Hx]; [|by eapply IH]. rewrite Forall_forall in Ha. apply Ha. eapply elem_of_sublist; [exact Hy|apply sublist_drop].
Qed.

Section Rotation.
Context {L : BackupLibs} (cfg : DbBackupSection) (io : BackupIo).

(** Removing a list of backups: the others stay, and so do the metadata
    files of the others. *)
Lemma each_remove l d d' : Forall (λ b, bi_name b <> []) l -> each l (remove_backup io) (Some d) = (Ok tt, d') ->
  exists d1, d' = Some d1 /\
  (forall n, is_json n = false -> d1 !! n = if decide (n ∈ (bi_name <$> l)) then None else d !! n) /\
  (forall n, is_json n = true -> n ∉ (bi_name <$> l) -> n ∉ ((with_json ∘ bi_name) <$> l) -> d1 !! n = d !! n).
Proof.
  revert d. induction l as [|b l IH]; intros d Hl; cbn [each].
  { intros [= <-]. exists d. split; [done|]. split; intros n; [|done]. by rewrite decide_False by (apply not_elem_of_nil). }
  apply Forall_cons in Hl as [Hb Hl]. intros Hrun. apply bindr_ok_inv in Hrun as (? & s1 & Hrm & Hrest).
  unfold remove_backup in Hrm. destruct (io_rm io (bi_name b)); [done|].
  set (d2 := if io_rm_meta io (bi_name b) then delete (with_json (bi_name b)) (delete (bi_name b) d) else delete (bi_name b) d).
  assert (s1 = Some d2) as ->.
  { unfold bindr, modify in Hrm. cbn in Hrm. unfold d2. destruct (io_rm_meta io (bi_name b)); by injection Hrm. }
  destruct (IH d2 Hl Hrest) as (d1 & -> & Hin & Hjs). exists d1. split; [done|]. pose proof (with_json_is_json _ Hb) as Hj. split.
  - intros n Hn. rewrite Hin by done. assert (Hne : with_json (bi_name b) <> n) by congruence. rewrite fmap_cons.
    assert (Hd2 : d2 !! n = delete (bi_name b) d !! n) by (unfold d2; destruct (io_rm_meta _ _); [by rewrite lookup_delete_ne|done]).
    destruct (decide (n ∈ bi_name <$> l)); [by rewrite decide_True by set_solver|]. rewrite Hd2.
    destruct (decide (n = bi_name b)) as [->|Hnb]; [rewrite lookup_delete_eq, decide_True by set_solver; done|].
    rewrite lookup_delete_ne, decide_False by set_solver. done.
  - intros n Hn Hnm Hnj. rewrite fmap_cons in Hnm, Hnj. rewrite Hjs by set_solver. unfold d2. cbn in Hnj.
    destruct (io_rm_meta _ _); rewrite ?lookup_delete_ne by set_solver; done.
Qed.

Definition infos (order : Backups -> list (list Z * BackupItem)) (d : Backups) : list BackupInfo :=
  merge_sort newer (info_of io d <$> filter (λ e, is_json e.1 = false) (order d)).

Lemma rotate_unfold order d : io_list_after io = Some order ->
  rotate_backups cfg io (Some d) = each (drop (retention_count cfg) (infos order d)) (remove_backup io) (Some d).
Proof.
  intros Ho. unfold rotate_backups, bindr, gets, lift, list_backups, id. rewrite Ho. cbv beta iota zeta. fold (infos order d).
  destruct (retention_count cfg <? length (infos order d))%nat eqn:E; [done|]. apply Nat.ltb_ge in E. by rewrite drop_ge by done.
Qed.

Context (order : Backups -> list (list Z * BackupItem)) (d : Backups).
Context (Horder : order d ≡ₚ map_to_list d) (Hnames : d !! [] = None).

Lemma infos_elem b : b ∈ infos order d <-> exists n i, d !! n = Some i /\ is_json n = false /\ b = info_of io d (n, i).
Proof.
  unfold infos. rewrite merge_sort_Permutation, list_elem_of_fmap. split.
  - intros ([n i] & -> & Hin). apply list_elem_of_filter in Hin as [Hj Hin]. rewrite Horder, elem_of_map_to_list in Hin. eauto.
  - intros (n & i & Hd & Hj & ->). exists (n, i). split; [done|]. apply list_elem_of_filter. split; [done|]. by rewrite Horder, elem_of_map_to_list.
Qed.
Lemma infos_names : NoDup (bi_name <$> infos order d).
Proof.
  unfold infos. rewrite merge_sort_Permutation, <- list_fmap_compose.
  change (bi_name ∘ info_of io d) with (@fst (list Z) BackupItem). rewrite Horder.
  apply NoDup_fmap_fst; [|by apply NoDup_filter, NoDup_map_to_list].
  intros n i j [_ Hi%elem_of_map_to_list]%list_elem_of_filter [_ Hj%elem_of_map_to_list]%list_elem_of_filter. congruence.
Qed.
Lemma infos_sorted : StronglySorted newer (infos order d).
Proof. apply Sorted_StronglySorted; [apply _|]. apply Sorted_merge_sort, _. Qed.

Lemma infos_nonempty : Forall (λ b, bi_name b <> []) (infos order d).
Proof. apply Forall_forall. intros b (n & i & Hd & _ & ->)%infos_elem. cbn. congruence. Qed.

(** What a successful rotation does to the directory. *)
Lemma rotate_effect d' : io_list_after io = Some order -> rotate_backups cfg io (Some d) = (Ok tt, d') ->
  exists d1, d' = Some d1 /\
  (forall n, is_json n = false -> d1 !! n = if decide (n ∈ (bi_name <$> drop (retention_count cfg) (infos order d))) then None else d !! n) /\
  (forall n, is_json n = true -> (forall m, m ∈ (bi_name <$> drop (retention_count cfg) (infos order d)) -> with_json m <> n) -> d1 !! n = d !! n).
Proof.
  intros Ho. rewrite (rotate_unfold order d Ho). intros Hrun.
  destruct (each_remove (drop (retention_count cfg) (infos order d)) d d') as (d1 & Hd' & Hin & Hjs);
    [apply Forall_drop, infos_nonempty|done|].
  exists d1. split; [done|]. split; [done|]. intros n Hn Hfree. apply Hjs; [done| |].
  - intros (b & -> & Hb)%list_elem_of_fmap. apply (elem_of_sublist _ (infos order d)) in Hb; [|apply sublist_drop].
    apply infos_elem in Hb as (m & i & _ & Hj & ->). cbn in Hn. congruence.
  - intros (b & Hb & Hin')%list_elem_of_fmap. apply (Hfree (bi_name b)); [|done]. apply list_elem_of_fmap. eauto.
Qed.

(** A name is kept or removed, by its place in the sorted list. *)
Lemma infos_split n i k : d !! n = Some i -> is_json n = false ->
  (info_of io d (n, i) ∈ take k (infos order d) /\ n ∉ (bi_name <$> drop k (infos order d)))
  \/ (info_of io d (n, i) ∈ drop k (infos order d)).
Proof.
  intros Hd Hj. assert (Hin : info_of io d (n, i) ∈ infos order d) by (apply infos_elem; eauto).
  rewrite <- (take_drop k (infos order d)) in Hin. apply elem_of_app in Hin as [Hin|Hin]; [left|by right]. split; [done|].
  intros Hn. pose proof infos_names as Hnd. rewrite <- (take_drop k (infos order d)), fmap_app in Hnd.
  apply NoDup_app in Hnd as (_ & Hdis & _). apply (Hdis n); [|done]. apply list_elem_of_fmap. by exists (info_of io d (n, i)).
Qed.
Lemma infos_size : size (backups_in d) = length (infos order d).
Proof.
  unfold infos. rewrite merge_sort_Permutation, length_fmap, Horder, <- length_map_to_list. apply Permutation_length.
  unfold backups_in. apply NoDup_Permutation; [apply NoDup_map_to_list|apply NoDup_filter, NoDup_map_to_list|].
  intros [n i]. rewrite list_elem_of_filter, !elem_of_map_to_list, map_lookup_filter_Some. cbn. tauto.
Qed.

Section Kept.
Context (k : nat) (d' : Backups).
Context (Hin : forall n, is_json n = false -> d' !! n = if decide (n ∈ (bi_name <$> drop k (infos order d))) then None else d !! n).

Lemma kept_subset : backups_in d' ⊆ backups_in d.
Proof.
  apply map_subseteq_spec. intros n i [Hn Hj]%backups_in_lookup. apply backups_in_lookup. rewrite Hin in Hn by done. by destruct (decide _).
Qed.
Lemma kept_in_front n i : backups_in d' !! n = Some i -> info_of io d (n, i) ∈ take k (infos order d).
Proof.
  intros Hn. pose proof (lookup_weaken _ _ _ _ Hn kept_subset) as [Hd Hj]%backups_in_lookup. apply backups_in_lookup in Hn as [Hn _].
  rewrite Hin in Hn by done. destruct (decide _) as [|Hout]; [done|].
  destruct (infos_split n i k Hd Hj) as [[Ht _]|Hdrop]; [done|]. destruct Hout. apply list_elem_of_fmap. by exists (info_of io d (n, i)).
Qed.
Lemma front_is_kept n i : d !! n = Some i -> is_json n = false -> info_of io d (n, i) ∈ take k (infos order d) -> backups_in d' !! n = Some i.
Proof.
  intros Hd Hj Ht. apply backups_in_lookup. split; [|done]. rewrite Hin, decide_False; [done| |done].
  intros Hout. pose proof infos_names as Hnd. rewrite <- (take_drop k (infos order d)), fmap_app in Hnd.
  apply NoDup_app in Hnd as (_ & Hdis & _). apply (Hdis n); [|done]. apply list_elem_of_fmap. by exists (info_of io d (n, i)).
Qed.
Lemma kept_names : (map_to_list (backups_in d')).*1 ≡ₚ (bi_name <$> take k (infos order d)).
Proof.
  apply NoDup_Permutation; [apply NoDup_fst_map_to_list| |].
  - eapply sublist_NoDup; [apply infos_names|]. rewrite fmap_take. apply sublist_take.
  - intros n. rewrite list_elem_of_fmap. split.
    + intros ([n' i] & -> & Hn%elem_of_map_to_list). apply list_elem_of_fmap. exists (info_of io d (n', i)). split; [done|]. by apply kept_in_front.
    + intros (b & -> & Hb)%list_elem_of_fmap. assert (Hbl : b ∈ infos order d) by (eapply elem_of_sublist; [exact Hb|apply sublist_take]).
      apply infos_elem in Hbl as (m & i & Hd & Hj & ->). exists (m, i). split; [done|]. by apply elem_of_map_to_list, front_is_kept.
Qed.
End Kept.
End Rotation.

Section RotationTheorems.
Context {L : BackupLibs}.

(** A successful rotation keeps the newest backups, exactly
    [retention_count] of them or all when there are fewer; nothing that is
    kept is older than what was removed, and no kept entry is changed. *)
Theorem rotation_keeps_newest (cfg : DbBackupSection) (io : BackupIo) (order : Backups -> list (list Z * BackupItem)) (d d' : Backups) :
  io_list_after io = Some order -> order d ≡ₚ map_to_list d -> d !! [] = None ->
  rotate_backups cfg io (Some d) = (Ok tt, Some d') ->
  size (backups_in d') = Nat.min (retention_count cfg) (size (backups_in d)) /\
  backups_in d' ⊆ backups_in d /\
  (forall n i m j, backups_in d' !! n = Some i -> backups_in d !! m = Some j -> backups_in d' !! m = None ->
     created_of io m j <= created_of io n i).
Proof.
  intros Ho Horder Hnil Hrun. set (l := infos io order d). set (k := retention_count cfg).
  destruct (rotate_effect cfg io order d Horder Hnil _ Ho Hrun) as (d1 & [= <-] & Hin & _). fold l k in Hin.
  split; [|split; [by apply (kept_subset io order d k)|]].
  - rewrite (infos_size io order d Horder), <- length_map_to_list, <- (length_fmap fst), (kept_names io order d Horder k d' Hin), length_fmap, length_take. done.
  - intros n i m j Hn Hm Hgone. apply (kept_in_front io order d Horder k d' Hin) in Hn. apply backups_in_lookup in Hm as [Hm Hj].
    destruct (infos_split io order d Horder m j k Hm Hj) as [[Hfront _]|Hdrop].
    + exfalso. pose proof (front_is_kept io order d Horder k d' Hin m j Hm Hj Hfront). congruence.
    + exact (sorted_take_drop newer l k _ _ (infos_sorted io order d) Hn Hdrop).
Qed.
End RotationTheorems.

(** ** A successful run *)

Lemma newest_is_kept {L : BackupLibs} io order d n i k : order d ≡ₚ map_to_list d -> d !! n = Some i -> is_json n = false -> (1 <= k)%nat ->
  (forall m j, m <> n -> d !! m = Some j -> is_json m = false -> created_of io m j < created_of io n i) ->
  info_of io d (n, i) ∈ take k (infos io order d).
Proof.
  intros Horder Hd Hj Hk Hnew. assert (Hin : info_of io d (n, i) ∈ infos io order d) by (apply infos_elem; eauto).
  pose proof (infos_sorted io order d) as Hs. destruct (infos io order d) as [|x l] eqn:E; [set_solver|]. destruct k as [|k]; [lia|]. cbn [take].
  apply elem_of_cons in Hin as [->|Hin]; [set_solver|].
  assert (Hx : x ∈ infos io order d) by (rewrite E; set_solver). apply (infos_elem io order d Horder) in Hx as (m & j & Hm & Hmj & ->).
  apply StronglySorted_inv in Hs as [_ Hs]. rewrite Forall_forall in Hs. specialize (Hs _ Hin). unfold newer in Hs. cbn in Hs.
  destruct (decide (m = n)) as [->|Hne]; [assert (i = j) as -> by congruence; set_solver|].
  specialize (Hnew m j Hne Hm Hmj). unfold created_of in Hnew. lia.
Qed.

(** The name of the backup made in a run. *)
Definition backup_name (eng : EmbeddedEngineKind) (io : BackupIo) : list Z :=
  engine_str eng ++ lit "-" ++ io_stamp io ++ match eng with Sqlite => lit ".db" | Postgres => [] end.

Lemma backup_name_nonempty eng io : backup_name eng io <> [].
Proof. by destruct eng. Qed.
Lemma backup_name_not_json eng io : 46 ∉ io_stamp io -> is_json (backup_name eng io) = false.
Proof.
  intros Hs. unfold is_json, backup_name. destruct eng.
  - rewrite !app_assoc. change (lit ".db") with (46 :: lit "db").
    destruct (dot_stem ((engine_str Sqlite ++ lit "-") ++ io_stamp io) (lit "db")) as [_ ->]; [done| |by apply bool_decide_false].
    apply (bool_decide_unpack (46 ∉ lit "db")). vm_compute. exact I.
  - rewrite app_nil_r. destruct (no_dot_stem (engine_str Postgres ++ lit "-" ++ io_stamp io)) as [_ ->]; [|by apply bool_decide_false].
    rewrite app_assoc, elem_of_app. intros [H|H]; [|done]. revert H. apply (bool_decide_unpack (46 ∉ engine_str Postgres ++ lit "-")). vm_compute. exact I.
Qed.

(** Two directories hold the same backups but for one name. *)
Definition same_but (n : list Z) (d d' : Backups) : Prop := forall m, m <> n -> is_json m = false -> d' !! m = d !! m.

Lemma put_item_ne (io : BackupIo) (n : list Z) (t : option tree) (m : list Z) (d : Backups) : m <> n -> put_item io n t d !! m = d !! m.
Proof. intros Hm. unfold put_item. destruct t; [by rewrite lookup_insert_ne|by rewrite lookup_delete_ne]. Qed.

Section Run.
Context {L : BackupLibs} (cfg : DbBackupSection) (eng : EmbeddedEngineKind) (rd : text) (io : BackupIo).

Lemma stop_if_ok b e (s : BDir) u s' : stop_if b e s = (Ok u, s') -> b = false /\ s' = s.
Proof. unfold stop_if. destruct b; [done|]. by intros [= _ <-]. Qed.

Lemma create_named s n s1 : create_backup cfg eng rd io s = (Ok n, s1) ->
  n = backup_name eng io /\ exists o, s1 = Some (put_item io n o (dir_of s)) /\ (eng = Sqlite -> exists db, io_source io = Some db /\ o = Some (TFile db)).
Proof.
  unfold create_backup, backup_name. destruct (io_mkdir io); [|done]. cbn. unfold bindr, modify. destruct eng.
  - unfold create_sqlite_backup. destruct (io_source io) as [db|]; [|done]. destruct (io_copy io); [done|]. cbn. intros [= <- <-].
    split; [reflexivity|]. exists (Some (TFile db)). split; [done|]. eauto.
  - unfold create_postgres_backup. destruct (io_connection io) as [[[us sd] port] user]. unfold bindr, lift.
    destruct (ok_or (io_credentials io) BackupFailed); [|done]. destruct (find_pg_basebackup cfg io); [|done].
    destruct (if us then _ else _) as [addr|]; [|done]. destruct (io_pg io _) as [[[] o]|]; cbn; [|done..]. intros [= <- <-].
    split; [by rewrite app_nil_r|]. by exists o.
Qed.

Lemma snapshot_effect (n : list Z) (d : Backups) (i : BackupItem) : n <> [] -> is_json n = false -> d !! n = Some i ->
  exists i', copy_snapshot_to_backup io n d !! n = Some i' /\ b_created i' = b_created i
  /\ (forall c, b_tree i = TFile c -> b_tree i' = TFile c) /\ same_but n d (copy_snapshot_to_backup io n d).
Proof.
  intros Hn Hj Hd. unfold copy_snapshot_to_backup. rewrite Hd. destruct (io_state io) as [st|]; [|exists i; repeat split; auto].
  set (w := match io_state_copy io with None => Some (Some st) | Some o => Some o end).
  assert (Hw : exists o, w = Some o) by (unfold w; destruct (io_state_copy io); eauto). destruct Hw as [o ->].
  destruct (b_tree i) as [c|es] eqn:Et.
  - assert (Hjs : is_json (n ++ lit ".state.json") = true).
    { change (lit ".state.json") with (lit ".state" ++ lit ".json"). rewrite app_assoc. apply json_of. by destruct n. }
    exists i. assert (Hne : n <> n ++ lit ".state.json") by congruence. rewrite put_item_ne by done. repeat split; auto; [congruence|].
    intros m Hm Hmj. apply put_item_ne. congruence.
  - eexists. rewrite lookup_insert_eq. repeat split; [done|]. intros m Hm _. by rewrite lookup_insert_ne.
Qed.

Lemma write_metadata_effect `{!BackupLibsLaws L} (n : list Z) (m : BackupMetadata) (d : Backups) (i : BackupItem) (d' : Backups) : n <> [] -> is_json n = false -> d !! n = Some i ->
  write_metadata io n m d = (Ok tt, d') ->
  exists i', d' !! n = Some i' /\ b_created i' = b_created i /\ (forall c, b_tree i = TFile c -> b_tree i' = TFile c)
  /\ same_but n d d' /\ info_metadata d' n i' = Some m.
Proof.
  intros Hn Hj Hd. unfold write_metadata. destruct (metadata_to_json m) as [json|] eqn:Em; [|done]. apply metadata_json in Em.
  rewrite Hd. destruct (io_meta_write io); [destruct i as [[]]; done|]. pose proof (with_json_is_json n Hn) as Hwj.
  destruct i as [[c|es] len cr]; cbn; intros [= <-].
  - assert (Hne : n <> with_json n) by congruence. eexists. split; [rewrite lookup_insert_ne by done; exact Hd|]. repeat split; auto.
    + intros x Hx Hxj. apply lookup_insert_ne. congruence.
    + unfold info_metadata. cbn. rewrite lookup_insert_eq. by destruct (d !! with_json n).
  - eexists. rewrite lookup_insert_eq. repeat split; auto; [done| |].
    + intros x Hx _. by apply lookup_insert_ne.
    + unfold info_metadata. cbn [b_tree]. by rewrite entry_set.
Qed.

(** What a run has done when it succeeds: the directory before and after the
    rotation. *)
Lemma run_stages s st s' : run_backup_inner cfg eng rd io s = (Ok st, s') ->
  exists t d3, let n := backup_name eng io in let d1 := put_item io n (Some t) (dir_of s) in
    (eng = Sqlite -> exists db, io_source io = Some db /\ t = TFile db)
    /\ write_metadata io n (mkMetadata (io_created_at io) (engine_str eng) (st_size_bytes st) (st_checksum st) (verify_integrity cfg) (io_version io))
         (copy_snapshot_to_backup io n d1) = (Ok tt, d3)
    /\ rotate_backups cfg io (Some d3) = (Ok tt, s')
    /\ st_path st = path_join (backup_dir cfg rd) n /\ st_size_bytes st = tree_size t
    /\ (if verify_integrity cfg then exists c, verify_and_checksum eng io n (copy_snapshot_to_backup io n d1) = Ok c /\ st_checksum st = Some c
        else st_checksum st = None).
Proof.
  unfold run_backup_inner. intros H.
  apply bindr_ok_inv in H as (checks & s0 & [= <- <-] & H).
  do 3 (apply bindr_ok_inv in H as (? & ? & [_ ->]%stop_if_ok & H)). apply bindr_ok_inv in H as (? & ? & [= _ <-] & H).
  apply bindr_ok_inv in H as (n & s1 & Hc & H). apply create_named in Hc as [-> (o & -> & Ho)].
  apply bindr_ok_inv in H as (sz & ? & Hsz & H). unfold bindr, gets, lift in Hsz. cbn in Hsz. injection Hsz as Hsz <-.
  apply bindr_ok_inv in H as (? & ? & Ha & H). unfold lift in Ha. injection Ha as Ha <-.
  apply bindr_ok_inv in H as (? & ? & [= _ <-] & H). cbn [dir_of default] in H.
  unfold get_backup_size in Hsz. destruct o as [t|]; [|cbn in Hsz; by rewrite lookup_delete_eq in Hsz].
  set (d1 := put_item io _ _ _) in *. exists t.
  assert (Ht : exists i, d1 !! backup_name eng io = Some i /\ b_tree i = t) by (unfold d1, put_item; rewrite lookup_insert_eq; destruct (dir_of s !! _); by eexists).
  destruct Ht as (i & Hi & <-). rewrite Hi in Hsz. destruct (io_size io); [|done]. injection Hsz as <-.
  apply bindr_ok_inv in H as (ck & s2 & Hck & H). apply bindr_ok_inv in H as (uw & s3 & Hm & H). apply bindr_ok_inv in H as ([] & s4 & Hr & H).
  injection H as <- <-. cbn [st_size_bytes st_checksum st_path].
  assert (Hck' : s2 = Some (copy_snapshot_to_backup io (backup_name eng io) d1) /\
    if verify_integrity cfg then exists c, verify_and_checksum eng io (backup_name eng io) (copy_snapshot_to_backup io (backup_name eng io) d1) = Ok c /\ ck = Some c else ck = None).
  { destruct (verify_integrity cfg); [|by injection Hck]. unfold bindr, gets, lift, ret in Hck. cbn [dir_of default] in Hck.
    destruct (verify_and_checksum _ _ _ _) as [c|]; [|done]. injection Hck as <- <-. eauto. }
  destruct Hck' as [-> Hck']. unfold put_dir in Hm. cbn [dir_of default] in Hm. destruct (write_metadata _ _ _ _) as [r d3] eqn:Ew. injection Hm as -> <-.
  exists d3. split; [intros He; destruct (Ho He) as (db & Hs & [= ->]); eauto|]. split; [by destruct uw|]. split; [exact Hr|]. split; [done|]. split; [done|]. exact Hck'.
Qed.
End Run.

Section RunTheorems.
Context {L : BackupLibs} `{!BackupLibsLaws L}.

(** C23: When a run succeeds, at least one backup is retained
    ([retention_count >= 1]), the file system gives the new backup a later
    time of creation than every other file of the directory and no other file
    has its stem, then the backup is in the directory afterwards, at the path
    that is returned, with metadata that read back as the size, checksum and
    engine of the run; a SQLite backup is the database file, byte for byte.
    With [retention_count = 0], which the configuration accepts, the run
    deletes what it made ([zero_retention_keeps_nothing]). *)
Theorem successful_backup_is_kept cfg eng rd io (order : Backups -> list (list Z * BackupItem)) (s s' : BDir) st now :
  let n := backup_name eng io in
  run_backup_inner cfg eng rd io s = (Ok st, s') ->
  (1 <= retention_count cfg)%nat -> io_list_after io = Some order -> (forall d, order d ≡ₚ map_to_list d) ->
  46 ∉ io_stamp io -> dir_of s !! [] = None -> io_new_created io = Some now ->
  (forall m j, dir_of s !! m = Some j -> created_of io m j < now /\ file_stem m <> file_stem n) ->
  exists d i, s' = Some d /\ st_path st = path_join (backup_dir cfg rd) n /\ d !! n = Some i
  /\ info_metadata d n i = Some (mkMetadata (io_created_at io) (engine_str eng) (st_size_bytes st) (st_checksum st) (verify_integrity cfg) (io_version io))
  /\ (eng = Sqlite -> exists db, io_source io = Some db /\ b_tree i = TFile db /\ st_size_bytes st = Z.of_nat (length db)
        /\ (verify_integrity cfg = true -> st_checksum st = Some (sha256_hex db))).
Proof.
  intros n Hrun Hk Ho Horder Hdot Hnil Hnow Hold. pose proof (backup_name_nonempty eng io) as Hne. pose proof (backup_name_not_json eng io Hdot) as Hj. fold n in Hne, Hj.
  apply run_stages in Hrun as (t & d3 & Hsrc & Hw & Hr & Hp & Hsz & Hck). fold n in Hsrc, Hw, Hr, Hp, Hsz, Hck. set (d1 := put_item io n (Some t) (dir_of s)) in *.
  assert (Hd1 : d1 !! n = Some (mkItem t (io_new_len io) (Some now))).
  { unfold d1, put_item. rewrite lookup_insert_eq. destruct (dir_of s !! n) as [j|] eqn:E; [by destruct (Hold n j E)|]. by rewrite Hnow. }
  destruct (snapshot_effect io n d1 _ Hne Hj Hd1) as (i2 & Hi2 & Hc2 & Ht2 & Hs2). cbn in Hc2, Ht2.
  destruct (write_metadata_effect io n _ _ _ _ Hne Hj Hi2 Hw) as (i & Hi & Hc & Ht & Hs3 & Hmeta).
  assert (Hother : forall m, m <> n -> is_json m = false -> d3 !! m = dir_of s !! m).
  { intros m Hm Hmj. rewrite (Hs3 m Hm Hmj), (Hs2 m Hm Hmj). by apply put_item_ne. }
  assert (Hnil3 : d3 !! [] = None) by (rewrite Hother; done).
  destruct (rotate_effect cfg io order d3 (Horder d3) Hnil3 _ Ho Hr) as (d & -> & Hin & Hjs).
  assert (Hfront : info_of io d3 (n, i) ∈ take (retention_count cfg) (infos io order d3)).
  { apply newest_is_kept; auto. intros m j Hm Hmd Hmj. rewrite Hother in Hmd by done. unfold created_of at 2. rewrite Hc, Hc2. cbn. by apply Hold. }
  apply (front_is_kept io order d3 (Horder d3) _ d Hin n i Hi Hj) in Hfront as Hkept. apply backups_in_lookup in Hkept as [Hkept _].
  exists d, i. split; [done|]. split; [done|]. split; [done|]. split.
  - rewrite <- Hmeta. unfold info_metadata. destruct (b_tree i); [|done]. rewrite Hjs; [done|by apply with_json_is_json|].
    intros m Hm Heq. apply list_elem_of_fmap in Hm as (b & -> & Hb). pose proof Hb as Hb'. apply (elem_of_sublist _ (infos io order d3)) in Hb; [|apply sublist_drop].
    apply (infos_elem io order d3 (Horder d3)) in Hb as (m & j & Hmd & Hmj & ->). cbn in Heq. destruct (decide (m = n)) as [->|Hmn].
    + rewrite Hin, decide_True in Hkept; [done| |done]. apply list_elem_of_fmap. by eexists (info_of io d3 (n, j)).
    + rewrite Hother in Hmd by done. apply with_json_stem in Heq. by destruct (Hold m j Hmd).
  - intros ->. destruct (Hsrc eq_refl) as (db & Hdb & ->). exists db. specialize (Ht2 db eq_refl). split; [done|]. split; [by apply Ht|]. split; [done|].
    intros Hv. rewrite Hv in Hck. destruct Hck as (c & Hvc & ->). unfold verify_and_checksum in Hvc. rewrite Hi2 in Hvc. destruct i2 as [t2 l2 c2]. cbn in Ht2. subst t2.
    destruct (io_read io); [|done]. by injection Hvc as <-.
Qed.

(** With [retention_count = 0] a run that succeeds has deleted what it
    made, and everything else. *)
Theorem zero_retention_keeps_nothing cfg eng rd io (order : Backups -> list (list Z * BackupItem)) (s s' : BDir) st :
  run_backup_inner cfg eng rd io s = (Ok st, s') -> retention_count cfg = 0%nat -> io_list_after io = Some order ->
  (forall d, order d ≡ₚ map_to_list d) -> 46 ∉ io_stamp io -> dir_of s !! [] = None ->
  exists d, s' = Some d /\ backups_in d = ∅.
Proof.
  intros Hrun Hk Ho Horder Hdot Hnil. pose proof (backup_name_nonempty eng io) as Hne. pose proof (backup_name_not_json eng io Hdot) as Hj.
  apply run_stages in Hrun as (t & d3 & _ & Hw & Hr & _). set (n := backup_name eng io) in *. set (d1 := put_item io n (Some t) (dir_of s)) in *.
  assert (Hd1 : exists i, d1 !! n = Some i) by (unfold d1, put_item; rewrite lookup_insert_eq; eauto). destruct Hd1 as [i1 Hd1].
  destruct (snapshot_effect io n d1 _ Hne Hj Hd1) as (i2 & Hi2 & _ & _ & Hs2). destruct (write_metadata_effect io n _ _ _ _ Hne Hj Hi2 Hw) as (i & _ & _ & _ & Hs3 & _).
  assert (Hnil3 : d3 !! [] = None) by (rewrite (Hs3 [] ltac:(done) eq_refl), (Hs2 [] ltac:(done) eq_refl); unfold d1; by rewrite put_item_ne).
  destruct (rotate_effect cfg io order d3 (Horder d3) Hnil3 _ Ho Hr) as (d & -> & Hin & _). exists d. split; [done|].
  apply map_empty. intros m. unfold backups_in. apply map_lookup_filter_None. right. intros j Hm Hmj. cbn in Hmj. rewrite Hin, Hk, drop_0 in Hm by done.
  destruct (decide _) as [|Hout]; [done|]. apply Hout, list_elem_of_fmap. exists (info_of io d3 (m, j)). split; [done|]. apply infos_elem; eauto.
Qed.
End RunTheorems.

(** ** Runs exclude each other *)

Section Exclusion.
Context {L : BackupLibs} (cfg : DbBackupSection) (eng : EmbeddedEngineKind) (rd : text).

Abbreviation act := (backup_act cfg eng rd).
Abbreviation acts := (backup_acts cfg eng rd).

Definition no_drop (a : BackupAct) : bool := match a with ADrop _ => false | _ => true end.

(** At most one run, and only while the flag is set. *)
Definition exclusive (w : BackupWorld) : Prop :=
  (size (w_runs w) <= 1)%nat /\ (w_runs w <> ∅ -> in_progress (w_service w) = true).

Lemma leave_clears io ok trigger s : in_progress (backup_leave cfg eng rd io ok trigger s).2 = false.
Proof. unfold backup_leave. by destruct (run_backup_inner cfg eng rd io (b_backups s)). Qed.

Lemma enter_cases s : backup_enter cfg s = (Err NotEnabled, s) \/ (backup_enter cfg s = (Err BackupInProgress, s) /\ in_progress s = true)
  \/ (backup_enter cfg s = (Ok tt, mkBackup true (b_backups s) (b_audit s)) /\ in_progress s = false /\ enabled cfg = true).
Proof. unfold backup_enter. destruct (enabled cfg), (in_progress s); cbn; auto. Qed.

Lemma one_left (w : BackupWorld) t trigger : (size (w_runs w) <= 1)%nat -> w_runs w !! t = Some trigger -> delete t (w_runs w) = ∅.
Proof.
  intros Hs Ht. apply map_size_empty_inv. rewrite map_size_delete, Ht. cbn. lia.
Qed.

Lemma act_exclusive a w : exclusive w -> exclusive (act a w).2.
Proof.
  intros [Hs Hf]. destruct a as [t trigger|t io ok|t]; cbn [backup_act].
  - destruct (w_runs w !! t) eqn:Et; [by split|]. destruct (enter_cases (w_service w)) as [->|[[-> _]|(-> & Hp & _)]]; cbn; [by split..|].
    assert (He : w_runs w = ∅) by (destruct (decide (w_runs w = ∅)) as [|Hne]; [done|]; rewrite Hf in Hp; done).
    unfold exclusive. cbn. rewrite He, map_size_insert_None, map_size_empty by done. split; [lia|done].
  - destruct (w_runs w !! t) eqn:Et; [|by split]. destruct (backup_leave cfg eng rd io ok b (w_service w)) as [r s] eqn:El. cbn.
    unfold exclusive. cbn. rewrite (one_left w t b Hs Et). split; [rewrite map_size_empty; lia|done].
  - unfold exclusive. cbn. split.
    + rewrite map_size_delete. destruct (w_runs w !! t); cbn; lia.
    + intros Hne. apply Hf. intros He. by rewrite He, delete_empty in Hne.
Qed.

(** Without a dropped run the flag is set exactly while a run is waiting. *)
Lemma act_flag a w : no_drop a = true -> exclusive w -> (in_progress (w_service w) = true <-> w_runs w <> ∅) ->
  (in_progress (w_service (act a w).2) = true <-> w_runs (act a w).2 <> ∅).
Proof.
  intros Hnd [Hs _] Hflag. destruct a as [t trigger|t io ok|t]; cbn [backup_act]; [| |done].
  - destruct (w_runs w !! t) eqn:Et; [done|]. destruct (enter_cases (w_service w)) as [->|[[-> _]|(-> & Hp & _)]]; cbn; [done..|].
    split; [|done]. intros _. apply insert_non_empty.
  - destruct (w_runs w !! t) eqn:Et; [|done]. pose proof (leave_clears io ok b (w_service w)) as Hc.
    destruct (backup_leave cfg eng rd io ok b (w_service w)) as [r s]. cbn in *. rewrite Hc, (one_left w t b Hs Et). done.
Qed.

(** However calls, runs and their ends interleave, two runs are never at
    work at once; as long as no run is dropped the flag is set exactly while
    one is, so a call is refused only then and every run, failed or not,
    gives the flag back. *)
Theorem backups_run_one_at_a_time d audit l :
  let w := acts l (mkBackupWorld (mkBackup false d audit) ∅) in
  exclusive w /\ (forallb no_drop l = true -> (in_progress (w_service w) = true <-> w_runs w <> ∅)).
Proof.
  unfold backup_acts. assert (H : exclusive (mkBackupWorld (mkBackup false d audit) ∅) /\
    (in_progress (w_service (mkBackupWorld (mkBackup false d audit) ∅)) = true <-> w_runs (mkBackupWorld (mkBackup false d audit) ∅) <> ∅))
    by (unfold exclusive; cbn; rewrite map_size_empty; repeat split; [lia|done..]).
  revert H. generalize (mkBackupWorld (mkBackup false d audit) ∅). induction l as [|a l IH]; intros w [He Hf]; cbn [foldl forallb]; [auto|].
  destruct (no_drop a) eqn:Ea; cbn.
  - apply IH. split; [by apply act_exclusive|by apply act_flag].
  - split; [|done]. pose proof (act_exclusive a w He) as He'. revert He'. generalize (act a w).2. clear. induction l as [|b l IH]; intros w Hw; [done|].
    cbn. apply IH. by apply act_exclusive.
Qed.

(** A run whose task is aborted keeps the flag: from then on every backup is
    refused, and nothing changes any more. *)
Theorem dropped_backup_blocks_all l w t trigger : enabled cfg = true -> in_progress (w_service w) = true -> w_runs w = ∅ ->
  acts l w = w /\ (act (ACall t trigger) (acts l w)).1 = Some (Err BackupInProgress).
Proof.
  intros He Hp Hr. assert (Hstep : forall a, (act a w).2 = w).
  { destruct w as [s runs]. cbn in *. subst runs. intros [t' tr|t' io ok|t']; cbn [backup_act w_runs w_service]; rewrite ?lookup_empty, ?delete_empty; [|done..].
    unfold backup_enter. rewrite He, Hp. done. }
  assert (Hl : acts l w = w) by (induction l as [|a l IH]; [done|]; unfold backup_acts in *; cbn; by rewrite Hstep).
  split; [done|]. rewrite Hl. cbn. rewrite Hr, lookup_empty. unfold backup_enter. rewrite He, Hp. done.
Qed.
End Exclusion.

(** ** Where the checks fail *)

Section Checks.
Context {L : BackupLibs} (cfg : DbBackupSection) (eng : EmbeddedEngineKind) (rd : text).

(** While the backup directory does not exist the free space of the disk is
    not seen: 10000 MB are assumed.  A larger minimum refuses every run, and
    the directory is never made. *)
Theorem missing_directory_hides_disk io : 0 ∉ backup_dir cfg rd ->
  disk_space_mb (run_pre_checks cfg rd io None) = 10000 /\
  (10000 < min_disk_space_mb cfg -> (require_healthy cfg = true -> io_ping io = true) ->
   run_backup_inner cfg eng rd io None = (Err (InsufficientDiskSpace 10000 (min_disk_space_mb cfg)), None)).
Proof.
  intros H0. assert (Hd : disk_space_mb (run_pre_checks cfg rd io None) = 10000) by (cbn; unfold get_available_disk_space; by rewrite bool_decide_false).
  split; [done|]. intros Hmin Hping. unfold run_backup_inner. unfold bindr at 1, gets at 1. unfold bindr at 1, stop_if at 1.
  assert (Hh : require_healthy cfg && negb (db_healthy (run_pre_checks cfg rd io None)) = false)
    by (cbn; destruct (require_healthy cfg); [by rewrite Hping|done]).
  rewrite Hh. cbn [ret]. unfold ret at 1, bindr at 1, stop_if at 1. rewrite Hd. by rewrite (proj2 (Z.ltb_lt _ _) Hmin).
Qed.

(** The baseline of the size check is the length of the directory entry
    itself: where backups are directories, as with Postgres, a change of
    size is never found. *)
Theorem directory_backups_have_no_baseline io (d : Backups) size_mb : 0 ∉ backup_dir cfg rd ->
  (forall n i, d !! n = Some i -> is_json n = false -> item_is_dir i = true /\ 0 <= b_dir_len i < MB) ->
  (forall order, io_list_before io = Some order -> order d ≡ₚ map_to_list d) ->
  anomaly_check cfg size_mb (last_backup_size_mb (run_pre_checks cfg rd io (Some d))) = Ok tt.
Proof.
  intros _ Hdirs Horder. cbn. unfold get_last_backup_size_mb, list_backups. destruct (io_list_before io) as [order|]; cbn; [|by unfold anomaly_check; destruct (0 <? _)].
  destruct (filter _ (order d)) as [|[n i] l] eqn:E; cbn; [by unfold anomaly_check; destruct (0 <? _)|].
  assert (Hin : (n, i) ∈ filter (λ e, is_json e.1 = false) (order d)) by (rewrite E; left). apply list_elem_of_filter in Hin as [Hj Hin].
  rewrite (Horder order eq_refl), elem_of_map_to_list in Hin. destruct (Hdirs n i Hin Hj) as [Hd Hl]. unfold item_is_dir in Hd. unfold item_len.
  destruct (b_tree i); [done|]. rewrite Z.div_small by done. unfold anomaly_check. by destruct (0 <? _).
Qed.

(** The errors of making a copy and of the rotation. *)
Lemma create_err io s e s' : create_backup cfg eng rd io s = (Err e, s') -> e = BackupIoError \/ e = BackupFailed.
Proof.
  unfold create_backup. destruct (io_mkdir io); cbn [negb]; [|intros [= <- _]; by left].
  intros [H|(? & ? & _ & H)]%bindr_err_inv; [done|]. right. destruct eng.
  - unfold create_sqlite_backup in H. destruct (io_source io); [|by injection H as <- _]. destruct (io_copy io); [by injection H as <- _|done].
  - unfold create_postgres_backup in H. destruct (io_connection io) as [[[us sd] port] user].
    apply bindr_err_inv in H as [H|(? & ? & _ & H)]; [unfold lift in H; destruct (io_credentials io); by injection H|].
    apply bindr_err_inv in H as [H|(? & ? & _ & H)].
    { unfold lift, find_pg_basebackup in H. destruct (pg_basebackup_path cfg); [destruct (io_exists io _); by injection H|].
      destruct (match io_which io with Some _ => _ | None => _ end); [done|]. destruct (find _ _); by injection H. }
    apply bindr_err_inv in H as [H|(? & ? & _ & H)]; [unfold lift in H; destruct us, port; by injection H|].
    destruct (io_pg io _) as [[[] o]|]; by injection H.
Qed.
Lemma verify_err io n d e : verify_and_checksum eng io n d = Err e -> e = BackupIoError \/ e = IntegrityCheckFailed.
Proof.
  unfold verify_and_checksum. destruct eng, (d !! n) as [[[c|es] ? ?]|]; try (intros [= <-]; auto).
  - destruct (io_read io); [done|]. intros [= <-]. auto.
  - destruct (entry _ _); [done|]. intros [= <-]. auto.
Qed.
Lemma write_err io n m d e d' : write_metadata io n m d = (Err e, d') -> e = BackupIoError.
Proof.
  unfold write_metadata. destruct (metadata_to_json m); [|by intros [= <- _]].
  destruct (d !! n) as [[[c|es] ? ?]|], (io_meta_write io); by intros [= <- _].
Qed.
Lemma rotate_err io s e s' : rotate_backups cfg io s = (Err e, s') -> e = RotationFailed \/ e = BackupIoError.
Proof.
  unfold rotate_backups. intros [H|(d & s1 & _ & H)]%bindr_err_inv; [done|]. destruct d as [d|]; [|done].
  apply bindr_err_inv in H as [H|(l & s2 & _ & H)]; [right; unfold lift, list_backups in H; destruct (io_list_after io); by injection H|]. left.
  destruct (_ <? _)%nat; [|done]. revert s2 H. generalize (drop (retention_count cfg) (merge_sort newer l)). clear.
  intros l. induction l as [|b l IH]; intros s2 H; [done|]. cbn [each] in H. apply bindr_err_inv in H as [H|(? & ? & _ & H)]; [|by eapply IH].
  unfold remove_backup in H. destruct (io_rm io (bi_name b)); by injection H.
Qed.

(** A backup that is refused for its size stays in the directory, without
    metadata, and counts in the next rotation. *)
Theorem refused_backup_stays io s e a p s' : run_backup_inner cfg eng rd io s = (Err (SizeAnomaly e a p), s') ->
  exists d, s' = Some d /\ is_Some (d !! backup_name eng io).
Proof.
  unfold run_backup_inner. intros [H|(checks & ? & [= <- <-] & H)]%bindr_err_inv; [done|].
  do 3 (apply bindr_err_inv in H as [H|(? & ? & [_ ->]%stop_if_ok & H)]; [unfold stop_if in H; by destruct (_ : bool) in H|]).
  apply bindr_err_inv in H as [H|(? & ? & [= _ <-] & H)]; [unfold lift, force_checkpoint in H; destruct (io_query io _); by injection H|].
  apply bindr_err_inv in H as [H|(n & s1 & Hc & H)]; [by apply create_err in H as [?|?]|]. apply create_named in Hc as [-> (o & -> & _)].
  apply bindr_err_inv in H as [H|(sz & s2 & Hsz & H)].
  { unfold bindr, gets, lift, get_backup_size in H. cbn in H. destruct (put_item _ _ _ _ !! _); [destruct (io_size io)|]; done. }
  unfold bindr, gets, lift, get_backup_size in Hsz. cbn [dir_of from_option id] in Hsz.
  destruct (put_item io (backup_name eng io) o (dir_of s) !! backup_name eng io) as [i|] eqn:Ei; [|done].
  apply bindr_err_inv in H as [H|(? & s3 & Ha & H)].
  - unfold lift in H. injection H as _ <-. destruct (io_size io); [|done]. injection Hsz as _ <-. eexists. split; [done|]. unfold id in *. rewrite Ei. eauto.
  - exfalso. apply bindr_err_inv in H as [H|(? & ? & _ & H)]; [done|].
    apply bindr_err_inv in H as [H|(? & ? & _ & H)].
    { destruct (verify_integrity cfg); [|done]. unfold bindr, gets, lift in H.
      destruct (verify_and_checksum eng io _ _) eqn:Ev; [done|]. injection H as -> _. by apply verify_err in Ev as [?|?]. }
    apply bindr_err_inv in H as [H|(? & ? & _ & H)].
    { unfold put_dir in H. destruct (write_metadata io _ _ _) as [r d] eqn:Ew. injection H as -> _. by apply write_err in Ew. }
    apply bindr_err_inv in H as [H|(? & ? & _ & H)]; [by apply rotate_err in H as [?|?]|done].
Qed.

(** The copy of [db_state.json] beside a SQLite backup is not removed with
    it: no rotation deletes it. *)
Theorem snapshots_outlive_backups io (order : Backups -> list (list Z * BackupItem)) (d d' : Backups) n : let snapshot := n ++ lit ".state.json" in
  io_list_after io = Some order -> order d ≡ₚ map_to_list d -> d !! [] = None -> n <> [] ->
  (forall m, is_Some (d !! m) -> is_json m = false -> file_stem m <> n ++ lit ".state") ->
  rotate_backups cfg io (Some d) = (Ok tt, Some d') -> d' !! snapshot = d !! snapshot.
Proof.
  intros snapshot Ho Horder Hnil Hn Hfree Hrun. destruct (rotate_effect cfg io order d Horder Hnil _ Ho Hrun) as (d1 & [= <-] & _ & Hjs).
  assert (Hs : snapshot = (n ++ lit ".state") ++ lit ".json") by (unfold snapshot; rewrite <- app_assoc; reflexivity).
  apply Hjs; [rewrite Hs; apply json_of; by destruct n|]. intros m (b & -> & Hb)%list_elem_of_fmap Heq.
  apply (elem_of_sublist _ (infos io order d)) in Hb; [|apply sublist_drop]. apply (infos_elem io order d Horder) in Hb as (m & i & Hm & Hj & ->).
  apply (Hfree m); [by eexists|done|]. cbn in Heq. rewrite Hs in Heq. unfold with_json in Heq. by apply app_inj_2 in Heq as [? _].
Qed.
End Checks.

(** ** Witnesses *)

(** Metadata as texts with their lengths before them. *)
Definition put_text (t rest : text) : text := Z.of_nat (length t) :: t ++ rest.
Definition get_text (s : text) : option (text * text) :=
  match s with [] => None | n :: s => Some (take (Z.to_nat n) s, drop (Z.to_nat n) s) end.
Lemma get_put_text t rest : get_text (put_text t rest) = Some (t, rest).
Proof. cbn. by rewrite Nat2Z.id, take_app_length, drop_app_length. Qed.

#[local] Instance demo_libs : BackupLibs := {|
  sha256_hex c := c;
  metadata_to_json m := Some (m_size_bytes m :: Z.b2z (m_verified m) :: Z.b2z (bool_decide (m_checksum m = None))
    :: put_text (m_created_at m) (put_text (m_engine m) (put_text (m_fenrir_version m) (default [] (m_checksum m)))));
  metadata_from_json j :=
    match j with
    | size :: v :: none :: j =>
        '(c, j) ← get_text j; '(e, j) ← get_text j; '(f, j) ← get_text j;
        Some (mkMetadata c e size (if none =? 1 then None else Some j) (v =? 1) f)
    | _ => None
    end;
|}.
#[local] Instance demo_libs_laws : BackupLibsLaws demo_libs.
Proof.
  constructor. intros [c e size [k|] [] f] j [= <-]; cbn -[put_text get_text]; rewrite !get_put_text; cbn -[put_text get_text];
    rewrite get_put_text; cbn -[put_text get_text]; by rewrite get_put_text.
Qed.

Definition demo_cfg : DbBackupSection := mkBackupSection true (lit "daily") 1 (lit "backups") 500 true true 50 None.
Definition demo_order (d : Backups) : list (list Z * BackupItem) := map_to_list d.
Definition demo_io : BackupIo :=
  mkBackupIo true (Some (4096, 1048576)) (Some demo_order) (λ _, true) true (lit "20240102_000000") (false, [], None, lit "fenrir_embedded") None
    (λ _, false) None (λ _, None) (Some [1; 2; 3]) None 4096 (Some 200) true (Some [9]) None true (lit "now") 200 (lit "1.0") None (Some demo_order)
    (λ _, 0) (λ _, None) (λ _, true).
Definition demo_old : list Z := lit "sqlite-20240101_000000.db".
Definition demo_dir : Backups := {[ demo_old := mkItem (TFile [7]) 0 (Some 100) ]}.
Definition demo_new : list Z := backup_name Sqlite demo_io.
Definition demo_both : Backups := <[demo_new := mkItem (TFile [1; 2; 3]) 0 (Some 200)]> demo_dir.

Lemma rotation_keeps_newest_witness : exists d', rotate_backups demo_cfg demo_io (Some demo_both) = (Ok tt, Some d') /\ size (backups_in d') = 1%nat.
Proof.
  assert (Hok : is_ok (rotate_backups demo_cfg demo_io (Some demo_both)).1 && bool_decide (is_Some (rotate_backups demo_cfg demo_io (Some demo_both)).2) = true) by (vm_compute; reflexivity).
  destruct (rotate_backups demo_cfg demo_io (Some demo_both)) as [[[]|e] s] eqn:E; [|discriminate Hok].
  destruct s as [d'|]; [|discriminate Hok]. exists d'. split; [done|].
  destruct (rotation_keeps_newest demo_cfg demo_io demo_order demo_both d') as [Hs _]; [reflexivity|reflexivity|vm_compute; reflexivity|exact E|].
  rewrite Hs. vm_compute. reflexivity.
Defined.

Lemma successful_backup_is_kept_witness : exists st d i, run_backup_inner demo_cfg Sqlite (lit "/run") demo_io (Some demo_dir) = (Ok st, Some d)
  /\ d !! demo_new = Some i /\ b_tree i = TFile [1; 2; 3] /\ st_checksum st = Some [1; 2; 3].
Proof.
  assert (Hok : is_ok (run_backup_inner demo_cfg Sqlite (lit "/run") demo_io (Some demo_dir)).1 = true) by (vm_compute; reflexivity).
  destruct (run_backup_inner demo_cfg Sqlite (lit "/run") demo_io (Some demo_dir)) as [[st|e] s] eqn:E; [|discriminate Hok].
  destruct (successful_backup_is_kept demo_cfg Sqlite (lit "/run") demo_io demo_order (Some demo_dir) s st 200) as (d & i & -> & _ & Hi & _ & Hsq);
    [exact E|cbn; lia|reflexivity|reflexivity| |vm_compute; reflexivity|reflexivity| |].
  - apply (bool_decide_unpack (46 ∉ io_stamp demo_io)). vm_compute. exact I.
  - intros m j. cbn [dir_of from_option id]. unfold demo_dir. intros [<- <-]%lookup_singleton_Some. split; [cbn; lia|vm_compute; discriminate].
  - destruct (Hsq eq_refl) as (db & Hdb & Ht & _ & Hc). cbn in Hdb. injection Hdb as <-. exists st, d, i. auto.
Defined.

(** One aborted run, then none succeeds. *)
Lemma dropped_backup_blocks_all_witness :
  let w := backup_acts demo_cfg Sqlite (lit "/run") [ACall 0 Auto; ADrop 0] (mkBackupWorld (mkBackup false (Some demo_dir) []) ∅) in
  (backup_act demo_cfg Sqlite (lit "/run") (ACall 1 Manual) (backup_acts demo_cfg Sqlite (lit "/run") [ACall 2 Auto] w)).1 = Some (Err BackupInProgress).
Proof.
  intros w. exact (proj2 (dropped_backup_blocks_all demo_cfg Sqlite (lit "/run") [ACall 2 Auto] w 1 Manual eq_refl eq_refl eq_refl)).
Defined.

(** A rotation of one of two backups leaves the snapshot of the old one. *)
Lemma snapshots_outlive_backups_witness :
  let d := <[demo_old ++ lit ".state.json" := mkItem (TFile [9]) 0 (Some 100)]> demo_both in
  exists d', rotate_backups demo_cfg demo_io (Some d) = (Ok tt, Some d') /\ d' !! demo_old = None /\ is_Some (d' !! (demo_old ++ lit ".state.json")).
Proof.
  intros d.
  assert (Hok : is_ok (rotate_backups demo_cfg demo_io (Some d)).1 && bool_decide (is_Some (rotate_backups demo_cfg demo_io (Some d)).2) = true) by (vm_compute; reflexivity).
  destruct (rotate_backups demo_cfg demo_io (Some d)) as [[[]|e] s] eqn:E; [|discriminate Hok].
  destruct s as [d'|]; [|discriminate Hok]. exists d'. split; [done|]. split.
  - assert (H : match (rotate_backups demo_cfg demo_io (Some d)).2 with Some d' => d' !! demo_old | None => None end = None) by (vm_compute; reflexivity). by rewrite E in H.
  - rewrite (snapshots_outlive_backups demo_cfg demo_io demo_order d d' demo_old); [vm_compute; eauto|reflexivity|reflexivity|vm_compute; reflexivity|discriminate| |exact E].
    intros m [j Hm] Hj. unfold d, demo_both, demo_dir in Hm. apply lookup_insert_Some in Hm as [[<- _]|[_ Hm]]; [vm_compute in Hj; discriminate|].
    apply lookup_insert_Some in Hm as [[<- _]|[_ Hm]]; [vm_compute; discriminate|]. apply lookup_singleton_Some in Hm as [<- _]. vm_compute. discriminate.
Defined.
