(* ===== verification/RuntimeGateway.v ===== *)
(** * Calls between modules: [services/module/gateway.rs]

    Every running module has a gateway of its own on a loopback port.  A
    [POST /call] names a service, and the gateway resolves its targets, adds
    the module's service token and sends the request, failing over between
    the targets and retrying the last one.  [execute] is the call,
    [gateway_call] the handler around it.

    Maps of the request are lists in the order in which a [HashMap] gives
    them.  HTTP types, JSON, percent and base64 encoding are the class
    [GatewayLibs].  The network answers the [i]-th attempt with [net i]. *)

From S2P Require Import Prelude Text Ip Edge Gateway.

#[local] Open Scope fenrir_scope.

(** ** Requests and answers *)

Class GatewayLibs := {
  json : Type;
  json_to_vec : json -> option bytes;
  is_json_text : text -> bool;                   (* RawValue::from_string succeeds *)
  base64 : bytes -> text;
  urlencode : text -> text;
  to_uppercase : text -> text;
  method_from_bytes : text -> option text;
  header_name : text -> option text;             (* HeaderName::try_from: the name in lower case *)
  header_value : text -> option bytes;           (* HeaderValue::try_from *)
  header_text : bytes -> option text;            (* HeaderValue::to_str *)
}.

Definition SERVICE_TOKEN_HEADER : text := lit "x-fenrir-service-token".
Definition CONTENT_TYPE : text := lit "content-type".

Section Types.
Context {GL : GatewayLibs}.
Record GatewayRequest := mkGatewayRequest {
  gr_target : text; gr_verb : option text; gr_path : text; gr_body : option json;
  gr_headers : list (text * text); gr_query : list (text * text); gr_timeout_ms : option Z;
}.
End Types.

Definition default_path : text := lit "/".

Inductive GatewayBody := BEmpty | BText (t : text) | BBase64 (t : text) | BRawJson (t : text).
Record GatewayResponsePayload := mkPayload {
  gp_status : Z; gp_audit_id : text; gp_headers : list (text * text); gp_body : GatewayBody;
}.

(** [Http] carries what the client library says about the error. *)
Inductive GatewayError :=
| GModuleUnavailable
| GInvalidTarget (target : text)
| GMissingToken
| GInvalidHeader (header : text)
| GSerialization
| GInvalidMethod (method : text)
| GIngress (e : IngressError)
| GHttp (is_connect is_timeout : bool).

Definition error_status (e : GatewayError) : Z :=
  match e with
  | GModuleUnavailable | GMissingToken => 503
  | GInvalidTarget _ | GInvalidHeader _ | GInvalidMethod _ => 400
  | GSerialization => 500
  | GIngress _ => 502
  | GHttp _ is_timeout => if is_timeout then 504 else 502
  end.

(** ** Pieces *)

Definition normalize_target (raw : text) : result text GatewayError :=
  let trimmed := trim raw in
  if bool_decide (trimmed = []) then Err (GInvalidTarget raw)
  else Ok (default trimmed (strip_prefix (lit "service://") trimmed)).

Definition normalize_path (value : text) : text :=
  let trimmed := trim value in
  if bool_decide (trimmed = []) then lit "/"
  else if starts_with [47] trimmed then trimmed
  else 47 :: trimmed.

(** [HashMap::insert] on the list of a map. *)
Fixpoint insert_header (k v : text) (l : list (text * text)) : list (text * text) :=
  match l with
  | [] => [(k, v)]
  | (k', v') :: l => if decide (k = k') then (k, v) :: l else (k', v') :: insert_header k v l
  end.

Definition is_safe_method (m : text) : bool := bool_decide (m ∈ [lit "GET"; lit "HEAD"; lit "OPTIONS"]).
Definition repeat_is_safe (m : text) (e : GatewayError) : bool :=
  match e with
  | GHttp true _ => true
  | GHttp false true => is_safe_method m
  | _ => false
  end.
Definition should_retry (m : text) (e : GatewayError) (attempt max_retries : nat) : bool :=
  (attempt <? max_retries)%nat && repeat_is_safe m e.
Definition should_fail_over (m : text) (e : GatewayError) (candidate_index candidate_count : nat) : bool :=
  (candidate_index + 1 <? candidate_count)%nat && repeat_is_safe m e.

(** What is sent: [reqwest] appends a header to those of its name. *)
Record SentRequest := mkSent {
  s_method : text; s_url : text; s_headers : ProxyHeaders.HeaderMap; s_body : option bytes; s_timeout_ms : option Z;
}.

Section Gateway.
Context {GL : GatewayLibs}.

Definition from_bytes (bs : bytes) : GatewayBody :=
  if bool_decide (bs = []) then BEmpty
  else match from_utf8 bs with
       | Some t =>
           let trimmed := trim_start t in
           if (starts_with (lit "{") trimmed || starts_with (lit "[") trimmed) && is_json_text t then BRawJson t else BText t
       | None => BBase64 (base64 bs)
       end.

Definition parse_method (value : option text) : result text GatewayError :=
  match value with
  | Some m => ok_or (method_from_bytes (to_uppercase (trim m))) (GInvalidMethod m)
  | None => Ok (lit "POST")
  end.

Definition encode_query (params : list (text * text)) : text :=
  if bool_decide (params = []) then []
  else lit "?" ++ join (lit "&") ((λ kv, urlencode kv.1 ++ lit "=" ++ urlencode kv.2) <$> params).

Definition call_url (t : Target) (path : text) (query : list (text * text)) : text :=
  Gateway.build_target_url t (normalize_path path ++ encode_query query).

Definition map_headers (hs : ProxyHeaders.HeaderMap) : list (text * text) :=
  foldl (λ mapped h, match header_text h.2 with Some t => insert_header h.1 t mapped | None => mapped end) [] hs.

(** The caller's headers, in the order of the map; the first that is not
    valid stops. *)
Fixpoint caller_headers (hs : list (text * text)) : result ProxyHeaders.HeaderMap GatewayError :=
  match hs with
  | [] => Ok []
  | (key, value) :: hs =>
      name <-? ok_or (header_name key) (GInvalidHeader key) ;;
      v <-? ok_or (header_value value) (GInvalidHeader key) ;;
      rest <-? caller_headers hs ;;
      Ok ((name, v) :: rest)
  end.

Definition build_call (method url token : text) (headers : list (text * text)) (body : option json) (timeout_ms : option Z)
    : result SentRequest GatewayError :=
  let has_user_service_token := bool_decide (SERVICE_TOKEN_HEADER ∈ headers.*1) in
  hs <-? caller_headers headers ;;
  let has_content_type := bool_decide (CONTENT_TYPE ∈ hs.*1) in
  let hs := if has_user_service_token then hs else hs ++ [(SERVICE_TOKEN_HEADER, utf8 (lit "Bearer " ++ token))] in
  match body with
  | None => Ok (mkSent method url hs None timeout_ms)
  | Some b =>
      serialized <-? ok_or (json_to_vec b) GSerialization ;;
      Ok (mkSent method url (if has_content_type then hs else hs ++ [(CONTENT_TYPE, utf8 (lit "application/json"))]) (Some serialized) timeout_ms)
  end.

(** ** The call *)

Section Call.
Context (net : nat -> SentRequest -> Reply).

(** What one attempt yields, and the loop over the candidates: [sent] are
    the requests with their replies, in order.  [None]: no candidate at the
    index (a panic), or no fuel. *)
Definition Trace : Type := list (Target * SentRequest * Reply).

Fixpoint call_loop (fuel : nat) (req : GatewayRequest) (method token audit_id : text) (retries : nat) (ingresses : list Target)
    (attempt candidate_index : nat) (sent : Trace) : option (result GatewayResponsePayload GatewayError * Trace) :=
  match fuel with
  | O => None
  | S fuel =>
      ingress ← ingresses !! candidate_index;
      match build_call method (call_url ingress (gr_path req) (gr_query req)) token (gr_headers req) (gr_body req) (gr_timeout_ms req) with
      | Err e => Some (Err e, sent)
      | Ok r =>
          let reply := net (length sent) r in
          let sent := sent ++ [(ingress, r, reply)] in
          match reply with
          | Response status hs (Some bs) => Some (Ok (mkPayload status audit_id (map_headers hs) (from_bytes bs)), sent)
          | Response _ _ None => Some (Err (GHttp false false), sent)
          | Failure is_connect is_timeout =>
              let e := GHttp is_connect is_timeout in
              if should_fail_over method e candidate_index (length ingresses)
              then call_loop fuel req method token audit_id retries ingresses attempt (S candidate_index) sent
              else if should_retry method e attempt retries && (candidate_index =? length ingresses - 1)%nat
              then call_loop fuel req method token audit_id retries ingresses (S attempt) candidate_index sent
              else Some (Err e, sent)
          end
      end
  end.

(** The module service as the call uses it: whether it still exists, the
    targets of a service, the module's own token. *)
Record CallHost := mkCallHost {
  ch_alive : bool; ch_resolve : text -> result (list Target) IngressError; ch_token : option text; ch_retries : nat;
}.

Definition execute (h : CallHost) (req : GatewayRequest) (audit_id : text)
    : option (result GatewayResponsePayload GatewayError * Trace) :=
  if negb (ch_alive h) then Some (Err GModuleUnavailable, [])
  else match normalize_target (gr_target req) with
  | Err e => Some (Err e, [])
  | Ok target =>
      match ch_resolve h target with
      | Err e => Some (Err (GIngress e), [])
      | Ok ingresses =>
          match parse_method (gr_verb req) with
          | Err e => Some (Err e, [])
          | Ok method =>
              match ch_token h with
              | None => Some (Err GMissingToken, [])
              | Some token => call_loop (length ingresses + ch_retries h) req method token audit_id (ch_retries h) ingresses 0 0 []
              end
          end
      end
  end.

(** The answer of the handler, the probe it records, and what was sent. *)
Definition metric_name (module_id : text) : text := lit "module-runtime-gateway/" ++ module_id.
Record CallOutcome := mkCallOutcome {
  co_answer : result GatewayResponsePayload (Z * text * GatewayError); co_probe : text * bool; co_sent : Trace;
}.
Definition gateway_call (module_id : text) (h : CallHost) (req : GatewayRequest) (audit_id : text) : option CallOutcome :=
  '(r, sent) ← execute h req audit_id;
  Some (match r with
        | Ok p => mkCallOutcome (Ok p) (metric_name module_id, true) sent
        | Err e => mkCallOutcome (Err (error_status e, audit_id, e)) (metric_name module_id, false) sent
        end).
End Call.
End Gateway.
