(* ===== verification/RuntimeGatewaySafety.v ===== *)
(** * What the calls between modules guarantee

    Theorems about [RuntimeGateway]: the loop over candidates and retries
    ends and never repeats a request that may have run; what the request
    says about the caller; which values of the answer's headers survive. *)

From S2P Require Import Prelude Text Ip Edge Manifests Rollout Gateway GatewaySafety Routing RoutingSafety RuntimeGateway.

#[local] Open Scope fenrir_scope.

(** ** The loop *)

Section Loop.
Context {GL : GatewayLibs} (net : nat -> SentRequest -> Reply).
Context (req : GatewayRequest) (method token audit_id : text) (retries : nat) (ts : list Target) (final : Target).

Abbreviation loop fuel := (call_loop net fuel req method token audit_id retries ts).
Abbreviation request_to t := (build_call method (call_url t (gr_path req) (gr_query req)) token (gr_headers req) (gr_body req) (gr_timeout_ms req)).

Definition reply_result (r : Reply) : result GatewayResponsePayload GatewayError :=
  match r with
  | Response status hs (Some bs) => Ok (mkPayload status audit_id (map_headers hs) (from_bytes bs))
  | Response _ _ None => Err (GHttp false false)
  | Failure c t => Err (GHttp c t)
  end.
Definition repeatable (r : Reply) : bool :=
  match r with Failure c t => repeat_is_safe method (GHttp c t) | Response _ _ _ => false end.

(** What a run of the loop sent from [sent] on, with [budget] attempts. *)
Record loop_ok (idx : nat) (again : nat) (sent : Trace) (r : result GatewayResponsePayload GatewayError) (tr : Trace) : Prop := {
  lo_order : tr.*1.*1 `prefix_of` drop idx ts ++ replicate again final;
  lo_repeat : Forall (λ x, repeatable x.2 = true) (removelast tr);
  lo_request : Forall (λ x, request_to x.1.1 = Ok x.1.2) tr;
  lo_reply : forall i x, tr !! i = Some x -> x.2 = net (length sent + i) x.1.2;
  lo_result : match last tr with Some x => r = reply_result x.2 | None => exists t e, t ∈ ts /\ request_to t = Err e /\ r = Err e end;
  lo_gives_up : forall x, last tr = Some x -> repeatable x.2 = true -> length tr = (length ts - idx + again)%nat;
}.

Lemma request_same t t' e : request_to t = Err e -> request_to t' = Err e.
Proof.
  unfold build_call. destruct (caller_headers (gr_headers req)); cbn; [|done]. destruct (gr_body req); [|done]. by destruct (json_to_vec j).
Qed.

Lemma loop_ok_last idx again sent t q : ts !! idx = Some t -> request_to t = Ok q ->
  (repeatable (net (length sent) q) = true -> (length ts - idx + again = 1)%nat) ->
  loop_ok idx again sent (reply_result (net (length sent) q)) [(t, q, net (length sent) q)].
Proof.
  intros Ht Hq Hr. split; cbn; auto.
  - rewrite (drop_S ts t idx Ht). cbn. apply prefix_cons, prefix_nil.
  - intros [|i] x; [|done]. intros [= <-]. by rewrite Nat.add_0_r.
  - intros x [= <-] Hx. symmetry. auto.
Qed.

Lemma loop_ok_cons idx again idx' again' sent t q r tr : ts !! idx = Some t -> request_to t = Ok q ->
  repeatable (net (length sent) q) = true ->
  (drop idx ts ++ replicate again final = t :: drop idx' ts ++ replicate again' final) ->
  (length ts - idx + again = S (length ts - idx' + again'))%nat ->
  loop_ok idx' again' (sent ++ [(t, q, net (length sent) q)]) r tr -> loop_ok idx again sent r ((t, q, net (length sent) q) :: tr).
Proof.
  intros Ht Hq Hrep Hlist Hlen [Ho Hr Hreq Hnet Hres Hg]. assert (Hne : tr <> []).
  { intros ->. cbn in Hres. destruct Hres as (t' & e & _ & He & _). rewrite (request_same t' t e He) in Hq. done. }
  assert (Hlast : last ((t, q, net (length sent) q) :: tr) = last tr) by (by destruct tr).
  split.
  - rewrite Hlist. cbn. by apply prefix_cons.
  - destruct tr as [|x tr]; [done|]. constructor; done.
  - by constructor.
  - intros [|i] x; [intros [= <-]; by rewrite Nat.add_0_r|]. intros Hx%Hnet. rewrite Hx, length_app. cbn. f_equal. lia.
  - by rewrite Hlast.
  - intros x. rewrite Hlast. intros Hx Hx'. cbn. rewrite (Hg x Hx Hx'). lia.
Qed.

Context (Hfinal : ts !! (length ts - 1)%nat = Some final).

Lemma loop_spec fuel attempt idx sent : (idx < length ts)%nat -> (attempt <= retries)%nat ->
  (length ts - idx + (retries - attempt) <= fuel)%nat ->
  exists r tr, loop fuel attempt idx sent = Some (r, sent ++ tr) /\ loop_ok idx (retries - attempt) sent r tr.
Proof.
  revert attempt idx sent. induction fuel as [|fuel IH]; intros attempt idx sent Hi Ha Hf; [lia|].
  destruct (ts !! idx) as [t|] eqn:Et; [|apply lookup_ge_None in Et; lia]. cbn [call_loop]. rewrite Et. cbn [mbind option_bind].
  destruct (request_to t) as [q|e] eqn:Eq; [|exists (Err e), []; rewrite app_nil_r; split; [done|]; split; cbn; try done; [apply prefix_nil|];
    exists t, e; split; [by apply list_elem_of_lookup_2 in Et|done]].
  pose proof (loop_ok_last idx (retries - attempt) sent t q Et Eq) as Hstop.
  destruct (net (length sent) q) as [st hs [bs|]|c tm] eqn:En; [eexists _, [_]; split; [reflexivity|]; apply Hstop; done..|].
  unfold should_fail_over. destruct (repeat_is_safe method (GHttp c tm)) eqn:Er.
  2: { rewrite andb_false_r. unfold should_retry. rewrite Er, andb_false_r. cbn. eexists _, [_]. split; [reflexivity|]. apply Hstop. unfold repeatable. by rewrite Er. }
  rewrite andb_true_r. destruct (idx + 1 <? length ts)%nat eqn:El.
  - apply Nat.ltb_lt in El. destruct (IH attempt (S idx) (sent ++ [(t, q, Failure c tm)])) as (r & tr & Hrun & Hok); [lia..|].
    exists r, ((t, q, Failure c tm) :: tr). rewrite Hrun, <- app_assoc. split; [done|]. rewrite <- En.
    apply (loop_ok_cons idx _ (S idx) (retries - attempt)); auto; [rewrite En; done| |lia|by rewrite En]. by rewrite (drop_S ts t idx Et).
  - apply Nat.ltb_ge in El. assert (Hidx : idx = (length ts - 1)%nat) by lia. unfold should_retry. rewrite Er, andb_true_r, (proj2 (Nat.eqb_eq _ _) Hidx), andb_true_r.
    assert (Hd : drop idx ts = [t]) by (rewrite (drop_S ts t idx Et), drop_ge by lia; done). assert (t = final) as -> by (subst idx; congruence).
    destruct (attempt <? retries)%nat eqn:Eat.
    + apply Nat.ltb_lt in Eat. destruct (IH (S attempt) idx (sent ++ [(final, q, Failure c tm)])) as (r & tr & Hrun & Hok); [lia..|].
      exists r, ((final, q, Failure c tm) :: tr). rewrite Hrun, <- app_assoc. split; [done|]. rewrite <- En.
      apply (loop_ok_cons idx _ idx (retries - S attempt)); auto; [rewrite En; done| |lia|by rewrite En].
      rewrite Hd. replace (retries - attempt)%nat with (S (retries - S attempt)) by lia. done.
    + apply Nat.ltb_ge in Eat. eexists _, [_]. split; [reflexivity|]. apply Hstop. intros _. lia.
Qed.
End Loop.

(** ** The call *)

Section Execute.
Context {GL : GatewayLibs} (net : nat -> SentRequest -> Reply).

(** A call that resolves to targets runs the loop over them; any other sends
    nothing. *)
Lemma gateway_execute_cases h req audit_id : (exists e, execute net h req audit_id = Some (Err e, []) /\ forall c t, e <> GHttp c t) \/
  exists target ts method token, normalize_target (gr_target req) = Ok target /\ ch_resolve h target = Ok ts
    /\ parse_method (gr_verb req) = Ok method /\ ch_token h = Some token
    /\ execute net h req audit_id = call_loop net (length ts + ch_retries h) req method token audit_id (ch_retries h) ts 0 0 [].
Proof.
  unfold execute. destruct (ch_alive h); cbn; [|left; eauto]. destruct (normalize_target _) as [target|e] eqn:En.
  2: { left. eexists. split; [done|]. unfold normalize_target in En. destruct (bool_decide _); [by injection En as <-|done]. }
  destruct (ch_resolve h target) as [ts|] eqn:Er; [|left; eauto]. destruct (parse_method _) as [method|e] eqn:Ep.
  2: { left. eexists. split; [done|]. unfold parse_method in Ep. destruct (gr_verb req); [|done]. unfold ok_or in Ep. destruct (method_from_bytes _); [done|]. by injection Ep as <-. }
  destruct (ch_token h) as [token|] eqn:Et; [|left; eauto]. right. exists target, ts, method, token. auto.
Qed.

(** The targets of an executed call, with the record of what it sent. *)
Lemma execute_loop h req audit_id target ts method token : normalize_target (gr_target req) = Ok target -> ch_resolve h target = Ok ts -> ts <> [] ->
  parse_method (gr_verb req) = Ok method -> ch_token h = Some token -> ch_alive h = true ->
  exists r tr final, last ts = Some final /\ execute net h req audit_id = Some (r, tr) /\
    loop_ok net req method token audit_id ts final 0 (ch_retries h) [] r tr.
Proof.
  intros Hn Hr Hne Hp Ht Ha. destruct (last ts) as [final|] eqn:El; [|by apply last_None in El].
  assert (Hf : ts !! (length ts - 1)%nat = Some final) by (rewrite last_lookup in El; by rewrite Nat.sub_1_r).
  assert (Hlen : (0 < length ts)%nat) by (destruct ts; [done|cbn; lia]).
  destruct (loop_spec net req method token audit_id (ch_retries h) ts final Hf (length ts + ch_retries h) 0 0 []) as (r & tr & Hrun & Hok); [lia..|].
  exists r, tr, final. split; [done|]. rewrite Nat.sub_0_r in Hok. split; [|exact Hok]. unfold execute. by rewrite Ha, Hn, Hr, Hp, Ht.
Qed.

(** C11: A call between modules ends, whatever the network answers, after at
    most one request per target and the configured retries; its targets are
    those of the router, so there is always one to begin with.  A request
    that is not GET, HEAD or OPTIONS is sent again only after attempts that
    never connected: at most one module may have run it. *)
Theorem module_calls_end_and_never_repeat `{FL : Floats} (s : Routing) list_instances alive token retries req audit_id :
  let h := mkCallHost alive (λ sid, (resolve_ingress_targets s list_instances sid).1) token retries in
  exists r tr, execute net h req audit_id = Some (r, tr) /\
    (tr <> [] -> exists target ts, normalize_target (gr_target req) = Ok target /\ ch_resolve h target = Ok ts
      /\ (length tr <= length ts + retries)%nat /\ forall x, x ∈ tr -> x.1.1 ∈ ts) /\
    (forall method, parse_method (gr_verb req) = Ok method -> method ∉ [lit "GET"; lit "HEAD"; lit "OPTIONS"] ->
      forall earlier x, tr = earlier ++ [x] -> Forall (λ y, ~ may_have_run y.2) earlier).
Proof.
  intros h. destruct (gateway_execute_cases h req audit_id) as [(e & He & _)|(target & ts & method & tok & Hn & Hr & Hp & Ht & Hex)].
  { exists (Err e), []. split; [done|]. split; [done|]. intros. by destruct earlier. }
  assert (Hne : ts <> []).
  { cbn in Hr. destruct (resolve_ingress_targets s list_instances target) as [res s'] eqn:E. cbn in Hr. subst res.
    by eapply targets_of_nonempty, resolve_targets_of. }
  assert (Halive : alive = true \/ alive = false) by (destruct alive; auto). destruct Halive as [->| ->].
  2: { exists (Err GModuleUnavailable), []. split; [done|]. split; [done|]. intros. by destruct earlier. }
  destruct (execute_loop h req audit_id target ts method tok Hn Hr Hne Hp Ht eq_refl) as (r & tr & final & Hlast & Hrun & [Ho Hrep Hreq Hnet Hres Hg]).
  exists r, tr. split; [done|]. split.
  - intros _. exists target, ts. split; [done|]. split; [done|]. split.
    + apply prefix_length in Ho. rewrite !length_fmap, length_app, length_replicate in Ho. exact Ho.
    + intros x Hx. assert (Hin : x.1.1 ∈ tr.*1.*1) by (apply list_elem_of_fmap; exists x.1; split; [done|]; apply list_elem_of_fmap; eauto).
      destruct Ho as [k Hk]. assert (Hin' : x.1.1 ∈ drop 0 ts ++ replicate retries final) by (cbn in Hk; rewrite Hk; set_solver).
      apply elem_of_app in Hin' as [Hin'|Hin']; [done|]. apply elem_of_replicate in Hin' as [-> _]. rewrite last_lookup in Hlast. by apply list_elem_of_lookup_2 in Hlast.
  - intros method' Hp' Hm earlier x Htr. assert (method' = method) as -> by congruence. rewrite Htr, removelast_last in Hrep.
    eapply Forall_impl; [exact Hrep|]. intros y Hy. unfold repeatable in Hy. destruct y.2 as [|c t]; [done|]. cbn in Hy. destruct c; [cbn; done|].
    destruct t; [|done]. unfold is_safe_method in Hy. by boolify.
Qed.

(** A call fails with an error that allows another attempt only when
    every target was tried in order and the last one again as often as
    configured. *)
Theorem module_calls_try_everything h req audit_id target ts method token e tr :
  normalize_target (gr_target req) = Ok target -> ch_resolve h target = Ok ts -> ts <> [] ->
  parse_method (gr_verb req) = Ok method -> ch_token h = Some token -> ch_alive h = true ->
  execute net h req audit_id = Some (Err e, tr) -> repeat_is_safe method e = true ->
  exists final, last ts = Some final /\ tr.*1.*1 = ts ++ replicate (ch_retries h) final /\ Forall (λ x, exists c t, x.2 = Failure c t) tr.
Proof.
  intros Hn Hr Hne Hp Ht Ha Hrun Hsafe. destruct (execute_loop h req audit_id target ts method token Hn Hr Hne Hp Ht Ha) as (r & tr' & final & Hlast & Hrun' & [Ho Hrep Hreq Hnet Hres Hg]).
  rewrite Hrun in Hrun'. injection Hrun' as <- <-. exists final. split; [done|]. destruct (last tr) as [x|] eqn:El.
  2: { destruct Hres as (t & e' & _ & He & [= ->]). unfold build_call in He. exfalso. destruct (caller_headers (gr_headers req)) as [hs|e''] eqn:Ec; cbn in He.
       - destruct (gr_body req); [|done]. unfold ok_or in He. destruct (json_to_vec j); [done|]. injection He as <-. done.
       - injection He as ->. revert Ec. generalize (gr_headers req). intros l. induction l as [|[k v] l IH]; cbn; [done|]. unfold ok_or.
         destruct (header_name k); cbn; [|by intros [= <-]]. destruct (header_value v); cbn; [|by intros [= <-]]. destruct (caller_headers l); cbn; [done|]. intros [= ->]. auto. }
  assert (Hx : repeatable method x.2 = true /\ exists c t, x.2 = Failure c t).
  { destruct x.2 as [st hs [bs|]|c t]; cbn in Hres; [done|injection Hres as ->; done|injection Hres as ->]. eauto. }
  destruct Hx as [Hx Hfail]. specialize (Hg x eq_refl Hx). split.
  - destruct Ho as [k Hk]. rewrite drop_0 in Hk. rewrite Hk. assert (k = []) as ->; [|by rewrite app_nil_r].
    apply nil_length_inv. apply (f_equal length) in Hk. rewrite length_app, !length_app, !length_fmap, length_replicate in Hk. lia.
  - apply last_Some in El as [l ->]. rewrite removelast_last in Hrep. apply Forall_app. split; [|by constructor].
    eapply Forall_impl; [exact Hrep|]. intros y Hy. unfold repeatable in Hy. destruct y.2 as [|c t]; [done|eauto].
Qed.
End Execute.

(** ** Headers *)

Section Headers.
Context {GL : GatewayLibs}.

Lemma caller_headers_names hs hs' n : caller_headers hs = Ok hs' -> n ∈ hs'.*1 -> exists k v, (k, v) ∈ hs /\ header_name k = Some n.
Proof.
  revert hs'. induction hs as [|[k v] hs IH]; intros hs'; cbn; [intros [= <-]; by intros ?%not_elem_of_nil|]. unfold ok_or.
  destruct (header_name k) as [name|] eqn:En; cbn; [|done]. destruct (header_value v) as [v'|]; cbn; [|done]. destruct (caller_headers hs) as [rest|]; cbn; [|done].
  intros [= <-]. cbn. rewrite elem_of_cons. intros [->|Hn]; [exists k, v; split; [left|done]|].
  destruct (IH rest eq_refl Hn) as (k' & v0 & Hin & Hk). exists k', v0. split; [by right|done].
Qed.
Lemma built_token_values method url token headers body timeout q hs : build_call method url token headers body timeout = Ok q ->
  SERVICE_TOKEN_HEADER ∉ headers.*1 -> caller_headers headers = Ok hs ->
  ProxyHeaders.get_all (s_headers q) SERVICE_TOKEN_HEADER = ProxyHeaders.get_all hs SERVICE_TOKEN_HEADER ++ [utf8 (lit "Bearer " ++ token)].
Proof.
  unfold build_call. intros Hb Hn Hc. rewrite Hc, bool_decide_false in Hb by done. cbn [result_bind] in Hb.
  assert (Hv : ProxyHeaders.get_all (hs ++ [(SERVICE_TOKEN_HEADER, utf8 (lit "Bearer " ++ token))]) SERVICE_TOKEN_HEADER
    = ProxyHeaders.get_all hs SERVICE_TOKEN_HEADER ++ [utf8 (lit "Bearer " ++ token)]) by (rewrite get_all_snoc; by rewrite decide_True).
  destruct body as [b|]; [|by injection Hb as <-]. unfold ok_or in Hb. destruct (json_to_vec b); cbn [result_bind] in Hb; [|done]. injection Hb as <-. cbn [s_headers].
  case_bool_decide; [done|]. rewrite get_all_snoc, decide_False, app_nil_r by (vm_compute; discriminate). exact Hv.
Qed.

(** Unless the caller names the header itself, the request that leaves
    carries the token of the calling module in it, once. *)
Theorem calls_carry_module_token method url token headers body timeout q :
  build_call method url token headers body timeout = Ok q ->
  (forall k v, (k, v) ∈ headers -> header_name k <> Some SERVICE_TOKEN_HEADER) -> header_name SERVICE_TOKEN_HEADER = Some SERVICE_TOKEN_HEADER ->
  ProxyHeaders.get_all (s_headers q) SERVICE_TOKEN_HEADER = [utf8 (lit "Bearer " ++ token)] /\ s_method q = method /\ s_url q = url.
Proof.
  intros Hb Hfree Hname. assert (Hkey : SERVICE_TOKEN_HEADER ∉ headers.*1).
  { intros ([k v] & Hk & Hin)%list_elem_of_fmap. cbn in Hk. subst k. by apply (Hfree _ v Hin). }
  destruct (caller_headers headers) as [hs|e] eqn:Ec; [|unfold build_call in Hb; by rewrite Ec in Hb].
  rewrite (built_token_values _ _ _ _ _ _ _ hs Hb Hkey Ec), get_all_absent.
  - split; [done|]. unfold build_call in Hb. rewrite Ec in Hb. cbn [result_bind] in Hb. destruct body as [b|]; [|by injection Hb as <-].
    unfold ok_or in Hb. destruct (json_to_vec b); cbn [result_bind] in Hb; [|done]. by injection Hb as <-.
  - intros Hin. destruct (caller_headers_names _ _ _ Ec Hin) as (k & v & Hkv & Hk). by apply (Hfree k v).
Qed.

(** The test for a token of the caller is by the exact key: a key in other
    letters sends both tokens. *)
Theorem other_case_sends_two_tokens method url token k v v' timeout q : k <> SERVICE_TOKEN_HEADER ->
  header_name k = Some SERVICE_TOKEN_HEADER -> header_value v = Some v' ->
  build_call method url token [(k, v)] None timeout = Ok q ->
  ProxyHeaders.get_all (s_headers q) SERVICE_TOKEN_HEADER = [v'; utf8 (lit "Bearer " ++ token)].
Proof.
  intros Hk Hn Hv Hb. assert (Hc : caller_headers [(k, v)] = Ok [(SERVICE_TOKEN_HEADER, v')]) by (cbn; rewrite Hn; cbn; by rewrite Hv).
  rewrite (built_token_values _ _ _ _ _ _ _ _ Hb ltac:(cbn; by rewrite list_elem_of_singleton) Hc).
  rewrite get_all_cons, decide_True by done. done.
Qed.

Lemma insert_header_lookup k v l k' : find (λ kv, bool_decide (kv.1 = k')) (insert_header k v l) =
  if decide (k = k') then Some (k, v) else find (λ kv, bool_decide (kv.1 = k')) l.
Proof.
  induction l as [|[k0 v0] l IH]; cbn; [repeat case_decide; repeat case_bool_decide; done|].
  destruct (decide (k = k0)) as [->|Hne]; cbn.
  - repeat case_decide; repeat case_bool_decide; done.
  - case_bool_decide; [|exact IH]. by rewrite decide_False by congruence.
Qed.

(** Of a header the answer repeats (several [set-cookie], say) the caller
    sees the last value only. *)
Theorem repeated_headers_keep_last (hs : ProxyHeaders.HeaderMap) k :
  snd <$> find (λ kv, bool_decide (kv.1 = k)) (map_headers hs) = last (omap header_text (ProxyHeaders.get_all hs k)).
Proof.
  unfold map_headers. induction hs as [|[n v] hs IH] using rev_ind; [done|]. rewrite foldl_app, get_all_snoc, omap_app. cbn [foldl fst snd].
  destruct (header_text v) as [t|] eqn:Et; [rewrite insert_header_lookup|]; destruct (decide (n = k)) as [->|]; cbn; rewrite ?Et, ?last_snoc, ?app_nil_r; done.
Qed.
End Headers.

(** ** Witnesses *)

Definition demo_gl : GatewayLibs := {|
  json := list Z; json_to_vec b := Some b; is_json_text _ := true; base64 b := b; urlencode t := t; to_uppercase := to_ascii_uppercase;
  method_from_bytes m := if bool_decide (m = []) then None else Some m; header_name k := Some (to_ascii_lowercase k); header_value v := Some (utf8 v);
  header_text b := from_utf8 b;
|}.
#[local] Existing Instance demo_gl.

Definition demo_call : GatewayRequest := mkGatewayRequest (lit "service://module:shop") (Some (lit "get")) (lit "items") None [(lit "Accept", lit "text/plain")] [] None.
Definition demo_targets : list Target := [RuntimePort (lit "shop") (lit "a") 9001; RuntimePort (lit "shop") (lit "b") 9002].
Definition demo_call_host : CallHost := mkCallHost true (λ _, Ok demo_targets) (Some (lit "tok")) 1.

Lemma module_calls_try_everything_witness : exists e tr, execute (λ _ _, Failure false true) demo_call_host demo_call (lit "id") = Some (Err e, tr) /\ length tr = 3%nat.
Proof.
  destruct (execute (λ _ _, Failure false true) demo_call_host demo_call (lit "id")) as [[[p|e] tr]|] eqn:E;
    [exfalso; revert E; vm_compute; discriminate| |exfalso; revert E; vm_compute; discriminate].
  exists e, tr. split; [done|]. assert (He : repeat_is_safe (lit "GET") e = true) by (revert E; vm_compute; intros [= <- _]; reflexivity).
  destruct (module_calls_try_everything (λ _ _, Failure false true) demo_call_host demo_call (lit "id") (lit "module:shop") demo_targets (lit "GET") (lit "tok") e tr) as (f & _ & Ht & _);
    [vm_compute; reflexivity|reflexivity|discriminate|vm_compute; reflexivity|reflexivity|reflexivity|exact E|exact He|].
  apply (f_equal length) in Ht. rewrite !length_fmap in Ht. rewrite Ht. reflexivity.
Defined.

Lemma calls_carry_module_token_witness : exists q, build_call (lit "GET") (lit "http://x/") (lit "tok") (gr_headers demo_call) None None = Ok q
  /\ ProxyHeaders.get_all (s_headers q) SERVICE_TOKEN_HEADER = [utf8 (lit "Bearer tok")].
Proof.
  destruct (build_call (lit "GET") (lit "http://x/") (lit "tok") (gr_headers demo_call) None None) as [q|e] eqn:E; [|exfalso; revert E; vm_compute; discriminate].
  exists q. split; [done|]. destruct (calls_carry_module_token _ _ _ _ _ _ q E) as [H _]; [|vm_compute; reflexivity|exact H].
  intros k v [= -> ->]%list_elem_of_singleton. vm_compute. discriminate.
Defined.

Lemma other_case_sends_two_tokens_witness : exists q, build_call (lit "GET") (lit "http://x/") (lit "tok") [(lit "X-Fenrir-Service-Token", lit "mine")] None None = Ok q
  /\ ProxyHeaders.get_all (s_headers q) SERVICE_TOKEN_HEADER = [utf8 (lit "mine"); utf8 (lit "Bearer tok")].
Proof.
  eexists. split; [vm_compute; reflexivity|].
  apply (other_case_sends_two_tokens (lit "GET") (lit "http://x/") (lit "tok") (lit "X-Fenrir-Service-Token") (lit "mine") (utf8 (lit "mine")) None);
    [vm_compute; discriminate|vm_compute; reflexivity|reflexivity|vm_compute; reflexivity].
Defined.
