(* ===== verification/Compression.v ===== *)
(** * Response compression: [infra/http/compression.rs]

    The choice of an encoding for a request, what may be compressed, and the
    stream that compresses a proxied body as it arrives.  Quality values are
    [f32] ([Quality]); the encoders of brotli and flate2 are [Codec]; the
    answers of the upstream to successive polls are a list, whose end stands
    for an upstream that pauses. *)

From S2P Require Import Prelude Text Ip Edge Gateway Redact BundleInspect.

#[local] Open Scope fenrir_scope.

Definition MIN_SIZE : nat := Z.to_nat 1024.
Definition STREAM_BATCH : nat := Z.to_nat (64 * 1024).

Inductive Encoding := Brotli | Gzip.
#[export] Instance Encoding_eq_dec : EqDecision Encoding.
Proof. solve_decision. Defined.
#[export] Instance Encoding_countable : Countable Encoding.
Proof.
  refine (inj_countable' (λ e, match e with Brotli => true | Gzip => false end) (λ b, if b then Brotli else Gzip) _). by intros [].
Defined.
Definition token (e : Encoding) : text := match e with Brotli => lit "br" | Gzip => lit "gzip" end.

(** ** Negotiation *)

(** [f32]: parsing and the comparisons. *)
Class Quality := {
  q : Type; q_zero : q; q_one : q;
  q_parse : text -> option q;
  q_le : q -> q -> bool; q_ge : q -> q -> bool;
}.

Section Negotiate.
Context {QL : Quality} {HT : HttpTypes}.

Record Offers := mkOffers { o_brotli : option q; o_gzip : option q; o_wildcard : option q }.

(** The parameters after the coding: a later [q=] replaces an earlier one. *)
Definition item_quality (params : list text) : q :=
  foldl (λ quality param, match strip_prefix (lit "q=") (trim param) with
                          | Some v => default q_zero (q_parse (trim v))
                          | None => quality
                          end) q_one params.

Definition add_item (o : Offers) (item : text) : Offers :=
  match split 59 item with
  | [] => o
  | coding :: params =>
      let coding := to_ascii_lowercase (trim coding) in
      let quality := item_quality params in
      if bool_decide (coding = lit "br") then mkOffers (Some quality) (o_gzip o) (o_wildcard o)
      else if bool_decide (coding = lit "gzip") || bool_decide (coding = lit "x-gzip") then mkOffers (o_brotli o) (Some quality) (o_wildcard o)
      else if bool_decide (coding = lit "*") then mkOffers (o_brotli o) (o_gzip o) (Some quality)
      else o
  end.

Definition offers (headers : ProxyHeaders.HeaderMap) : Offers :=
  foldl add_item (mkOffers None None None) (concat (split 44 <$> omap to_str (ProxyHeaders.get_all headers (lit "accept-encoding")))).

Definition or_some {A} (a b : option A) : option A := match a with Some _ => a | None => b end.
Definition brotli_quality (o : Offers) : q := default q_zero (or_some (o_brotli o) (o_wildcard o)).
Definition gzip_quality (o : Offers) : q := default q_zero (or_some (o_gzip o) (o_wildcard o)).

Definition negotiate (headers : ProxyHeaders.HeaderMap) : option Encoding :=
  let o := offers headers in
  let brotli := brotli_quality o in
  let gzip := gzip_quality o in
  if q_le brotli q_zero && q_le gzip q_zero then None
  else if q_ge brotli gzip then Some Brotli
  else Some Gzip.
End Negotiate.

(** ** What may be compressed *)

Definition COMPRESSIBLE : list text :=
  [lit "application/json"; lit "application/javascript"; lit "application/x-javascript"; lit "application/xml";
   lit "application/manifest+json"; lit "application/problem+json"; lit "application/wasm"; lit "image/svg+xml";
   lit "image/x-icon"; lit "image/vnd.microsoft.icon"].

Definition is_compressible (content_type : text) : bool :=
  let media := to_ascii_lowercase (trim (default [] (head (split 59 content_type)))) in
  if bool_decide (media = lit "text/event-stream") then false
  else starts_with (lit "text/") media || bool_decide (media ∈ COMPRESSIBLE)
       || ends_with (lit "+json") media || ends_with (lit "+xml") media.

Definition SECRET_SEGMENTS : list text :=
  [lit "auth"; lit "api-keys"; lit "api_keys"; lit "apikeys"; lit "invites"; lit "invite"; lit "invitations";
   lit "sessions"; lit "tokens"; lit "token"; lit "password"; lit "secrets"].

(** [decoded.split(['/', '\\'])]. *)
Definition path_segments (decoded : text) : list text := concat (split 92 <$> split 47 decoded).
Definition is_secret_bearing_path {U : UrlDecode} (path : text) : bool :=
  let decoded := default path (urldecode path) in
  existsb (λ segment, bool_decide (to_ascii_lowercase segment ∈ SECRET_SEGMENTS)) (path_segments decoded).

Definition VARY : text := lit "vary".
Definition names_encoding (item : text) : bool :=
  eq_ignore_ascii_case (trim item) (lit "accept-encoding") || bool_decide (trim item = lit "*").
Definition has_vary {HT : HttpTypes} (headers : ProxyHeaders.HeaderMap) : bool :=
  existsb (λ v, match to_str v with Some t => existsb names_encoding (split 44 t) | None => false end)
    (ProxyHeaders.get_all headers VARY).
Definition add_vary {HT : HttpTypes} (headers : ProxyHeaders.HeaderMap) : ProxyHeaders.HeaderMap :=
  if has_vary headers then headers else headers ++ [(VARY, utf8 (lit "accept-encoding"))].

(** ** Encoders *)

(** An encoder is created for an encoding, best or fast; it takes input,
    hands out what it has produced when it is flushed, and the rest at the
    end.  [None] is an error. *)
Class Codec := {
  encoder : Type;
  enc_new : Encoding -> bool -> encoder;
  enc_write : encoder -> bytes -> option encoder;
  enc_flush : encoder -> option (bytes * encoder);
  enc_finish : encoder -> option bytes;
}.

(** The documented behaviour of the encoders: [holds e out inp] says that
    [e] has taken [inp] and handed out [out]; after a flush or at the end
    the output decodes to the input. *)
Class CodecLaws (C : Codec) := {
  decode : Encoding -> bytes -> option bytes;
  holds : Encoding -> encoder -> bytes -> bytes -> Prop;
  holds_new e best : holds e (enc_new e best) [] [];
  decode_nil e : decode e [] = Some [];
  holds_write e c out inp b c' : holds e c out inp -> enc_write c b = Some c' -> holds e c' out (inp ++ b);
  holds_flush e c out inp o c' : holds e c out inp -> enc_flush c = Some (o, c') -> holds e c' (out ++ o) inp /\ decode e (out ++ o) = Some inp;
  holds_finish e c out inp o : holds e c out inp -> enc_finish c = Some o -> decode e (out ++ o) = Some inp;
}.

Section Stream.
Context {C : Codec}.

Definition compress_static (bs : bytes) (e : Encoding) : option bytes :=
  c ← enc_write (enc_new e true) bs; enc_finish c.

(** ** The compressed stream *)

Record CompressedStream := mkStream { cs_encoder : option encoder; cs_pending : nat; cs_done : bool }.
Definition stream_new (e : Encoding) : CompressedStream := mkStream (Some (enc_new e false)) 0 false.

(** An answer of the upstream, and one of the stream. *)
Inductive Upstream := UChunk (b : bytes) | UError | UEnd | UPending.
Inductive Poll := Pending | ReadyEnd | ReadyChunk (b : bytes) | ReadyError.

Definition pause (enc : encoder) (pending : nat) : Poll * CompressedStream :=
  if (pending =? 0)%nat then (Pending, mkStream (Some enc) 0 false)
  else match enc_flush enc with
       | Some (out, enc) => (if bool_decide (out = []) then Pending else ReadyChunk out, mkStream (Some enc) 0 false)
       | None => (ReadyError, mkStream (Some enc) 0 true)
       end.

(** The loop of [poll_next] with the encoder taken out; it gives back the
    answers that are left. *)
Fixpoint poll_loop (enc : encoder) (pending : nat) (up : list Upstream) : Poll * CompressedStream * list Upstream :=
  match up with
  | [] => (pause enc pending, [])
  | UPending :: up => (pause enc pending, up)
  | UError :: up => (ReadyError, mkStream (Some enc) pending true, up)
  | UEnd :: up =>
      (match enc_finish enc with
       | Some out => if bool_decide (out = []) then ReadyEnd else ReadyChunk out
       | None => ReadyError
       end, mkStream None pending true, up)
  | UChunk chunk :: up =>
      match enc_write enc chunk with
      | None => (ReadyError, mkStream (Some enc) pending true, up)
      | Some enc =>
          let pending := (pending + length chunk)%nat in
          if (STREAM_BATCH <=? pending)%nat then
            match enc_flush enc with
            | None => (ReadyError, mkStream (Some enc) 0 true, up)
            | Some (out, enc) =>
                if bool_decide (out = []) then poll_loop enc 0 up
                else (ReadyChunk out, mkStream (Some enc) 0 false, up)
            end
          else poll_loop enc pending up
      end
  end.

(** [poll_next]; an encoder is there until the stream is done. *)
Definition poll_next (s : CompressedStream) (up : list Upstream) : Poll * CompressedStream * list Upstream :=
  if cs_done s then (ReadyEnd, s, up)
  else match cs_encoder s with
       | Some enc => poll_loop enc (cs_pending s) up
       | None => (ReadyEnd, s, up)
       end.

(** A consumer that polls [n] times: what it received, and the last answer. *)
Fixpoint consume (n : nat) (s : CompressedStream) (up : list Upstream) : list Poll * CompressedStream * list Upstream :=
  match n with
  | O => ([], s, up)
  | S n =>
      let '(p, s, up) := poll_next s up in
      let '(ps, s, up) := consume n s up in
      (p :: ps, s, up)
  end.
End Stream.
