(* ===== verification/CompressionSafety.v ===== *)
(** * What response compression guarantees

    Theorems about [Compression]: the compressed stream decodes to the body,
    also while the upstream pauses; which encoding is chosen. *)

From S2P Require Import Prelude Text Ip Edge Gateway Redact BundleInspect Compression.

#[local] Open Scope fenrir_scope.

(** ** The stream *)

Definition chunk_of (p : Poll) : option bytes := match p with ReadyChunk b => Some b | _ => None end.
Definition upstream_chunk (u : Upstream) : option bytes := match u with UChunk b => Some b | _ => None end.
(** What a consumer received, and the body the upstream sent. *)
Definition received (ps : list Poll) : bytes := concat (omap chunk_of ps).
Definition body (us : list Upstream) : bytes := concat (omap upstream_chunk us).

Lemma received_cons p ps : received (p :: ps) = default [] (chunk_of p) ++ received ps.
Proof. unfold received. cbn. by destruct (chunk_of p). Qed.
Lemma body_app us vs : body (us ++ vs) = body us ++ body vs.
Proof. unfold body. by rewrite omap_app, concat_app. Qed.

Lemma chunk_no_end b us : UEnd ∈ UChunk b :: us <-> UEnd ∈ us.
Proof. rewrite elem_of_cons. naive_solver. Qed.
Lemma one_end u : UEnd ∈ [u] <-> u = UEnd.
Proof. rewrite list_elem_of_singleton. naive_solver. Qed.

Section Stream.
Context {C : Codec} {CL : CodecLaws C} (e : Encoding).

(** The stream has handed out [out] for [inp]; nothing is held back while no
    input is pending. *)
Definition stream_ok (s : CompressedStream) (out inp : bytes) : Prop :=
  if cs_done s then decode e out = Some inp
  else exists c, cs_encoder s = Some c /\ holds e c out inp /\ (cs_pending s = 0%nat -> decode e out = Some inp).

Lemma pause_spec c pending out inp p s : holds e c out inp -> (pending = 0%nat -> decode e out = Some inp) ->
  pause c pending = (p, s) -> p <> ReadyError ->
  stream_ok s (out ++ default [] (chunk_of p)) inp /\ decode e (out ++ default [] (chunk_of p)) = Some inp /\ p <> ReadyEnd /\ cs_done s = false.
Proof.
  intros Hc H0. unfold pause. destruct (pending =? 0)%nat eqn:Ep.
  - apply Nat.eqb_eq in Ep. intros [= <- <-] _. cbn. rewrite app_nil_r. split; [exists c; auto|]. auto.
  - destruct (enc_flush c) as [[o c']|] eqn:Ef; [|by intros [= <- <-]]. destruct (holds_flush _ _ _ _ _ _ Hc Ef) as [Hc' Hd].
    intros [= <- <-] _. case_bool_decide; cbn; [subst o; split; [exists c'; auto|]; auto|]. split; [exists c'; auto|]. auto.
Qed.

Lemma poll_loop_spec up c pending out inp p s rest : holds e c out inp -> (pending = 0%nat -> decode e out = Some inp) ->
  poll_loop c pending up = (p, s, rest) -> p <> ReadyError ->
  exists used, up = used ++ rest /\ stream_ok s (out ++ default [] (chunk_of p)) (inp ++ body used)
    /\ (p = Pending \/ p = ReadyEnd -> decode e out = Some (inp ++ body used))
    /\ (cs_done s = true <-> UEnd ∈ used) /\ (p = ReadyEnd -> cs_done s = true).
Proof.
  revert c pending out inp. induction up as [|u up IH]; intros c pending out inp Hc H0; cbn [poll_loop].
  { destruct (pause c pending) as [p' s'] eqn:Ep. intros [= <- <- <-] Hp. destruct (pause_spec _ _ _ _ _ _ Hc H0 Ep Hp) as (Hok & Hd & Hne & Hdone).
    exists []. unfold body. cbn. rewrite app_nil_r. split; [done|]. split; [done|]. rewrite Hdone. split; [intros [->| ->]; [|done]; cbn in Hd; by rewrite app_nil_r in Hd|].
    split; [split; [done|by intros ?%not_elem_of_nil]|done]. }
  destruct u as [b| | |].
  - destruct (enc_write c b) as [c1|] eqn:Ew; [|by intros [= <- <- <-]]. pose proof (holds_write _ _ _ _ _ _ Hc Ew) as Hc1.
    destruct (STREAM_BATCH <=? pending + length b)%nat eqn:Eb.
    + destruct (enc_flush c1) as [[o c2]|] eqn:Ef; [|by intros [= <- <- <-]]. destruct (holds_flush _ _ _ _ _ _ Hc1 Ef) as [Hc2 Hd].
      case_bool_decide as Ho.
      * subst o. rewrite app_nil_r in Hc2, Hd. intros Hrun Hp. destruct (IH c2 0%nat out (inp ++ b) Hc2 (λ _, Hd) Hrun Hp) as (used & -> & Hok & Hdec & Hend & He).
        exists (UChunk b :: used). unfold body in *. cbn. rewrite <- app_assoc in Hok, Hdec. split; [done|]. split; [done|]. split; [done|]. split; [by rewrite chunk_no_end|done].
      * intros [= <- <- <-] _. exists [UChunk b]. unfold body. cbn. rewrite app_nil_r. split; [done|]. split; [exists c2; auto|]. split; [intros [?|?]; done|].
        split; [by rewrite one_end|done].
    + intros Hrun Hp. destruct (IH c1 (pending + length b)%nat out (inp ++ b) Hc1) with (3 := Hp) as (used & -> & Hok & Hdec & Hend & He); [|exact Hrun|].
      { intros Hz. assert (b = []) as -> by (apply nil_length_inv; lia). rewrite app_nil_r. apply H0. lia. }
      exists (UChunk b :: used). unfold body in *. cbn. rewrite <- app_assoc in Hok, Hdec. split; [done|]. split; [done|]. split; [done|]. split; [by rewrite chunk_no_end|done].
  - by intros [= <- <- <-].
  - destruct (enc_finish c) as [o|] eqn:Ef; [|by intros [= <- <- <-]]. pose proof (holds_finish _ _ _ _ _ Hc Ef) as Hd.
    intros [= <- <- <-] _. exists [UEnd]. unfold body. cbn. rewrite app_nil_r. split; [done|].
    case_bool_decide as Ho; cbn; [subst o; split; [done|]; rewrite app_nil_r in Hd; split; [done|]; split; [by rewrite one_end|done]|].
    split; [done|]. split; [intros [?|?]; done|]. split; [by rewrite one_end|done].
  - destruct (pause c pending) as [p' s'] eqn:Ep. intros [= <- <- <-] Hp. destruct (pause_spec _ _ _ _ _ _ Hc H0 Ep Hp) as (Hok & Hd & Hne & Hdone).
    exists [UPending]. unfold body. cbn. rewrite app_nil_r. split; [done|]. split; [done|]. rewrite Hdone. split; [intros [->| ->]; [|done]; cbn in Hd; by rewrite app_nil_r in Hd|].
    split; [by rewrite one_end|done].
Qed.

Lemma consume_spec n s up out inp seen ps s' rest : stream_ok s out inp -> (cs_done s = true <-> UEnd ∈ seen) ->
  consume n s up = (ps, s', rest) -> ReadyError ∉ ps ->
  exists used, up = used ++ rest /\ stream_ok s' (out ++ received ps) (inp ++ body used)
    /\ (last ps = Some Pending -> decode e (out ++ received ps) = Some (inp ++ body used))
    /\ (cs_done s' = true <-> UEnd ∈ seen ++ used) /\ (ReadyEnd ∈ ps -> cs_done s' = true).
Proof.
  revert s up out inp seen ps. induction n as [|n IH]; intros s up out inp seen ps Hok Hseen; cbn [consume].
  { intros [= <- <- <-] _. exists []. unfold received, body. cbn. rewrite !app_nil_r. split; [done|]. split; [done|]. split; [done|]. split; [done|set_solver]. }
  destruct (poll_next s up) as [[p s1] up1] eqn:Ep. destruct (consume n s1 up1) as [[ps1 s2] up2] eqn:Ec. intros [= <- <- <-] Hne.
  assert (Hp : p <> ReadyError) by set_solver. assert (Hps1 : ReadyError ∉ ps1) by set_solver.
  assert (Hstep : exists used, up = used ++ up1 /\ stream_ok s1 (out ++ default [] (chunk_of p)) (inp ++ body used)
    /\ (p = Pending -> decode e out = Some (inp ++ body used)) /\ (cs_done s1 = true <-> UEnd ∈ seen ++ used) /\ (p = ReadyEnd -> cs_done s1 = true)).
  { unfold poll_next in Ep. destruct (cs_done s) eqn:Ed.
    - injection Ep as <- <- <-. exists []. unfold body. cbn. rewrite !app_nil_r. rewrite Ed. split; [done|]. split; [exact Hok|]. split; [done|]. split; [exact Hseen|done].
    - unfold stream_ok in Hok. rewrite Ed in Hok. destruct Hok as (c & Hc & Hh & H0). rewrite Hc in Ep.
      destruct (poll_loop_spec _ _ _ _ _ _ _ _ Hh H0 Ep Hp) as (used & -> & Hok1 & Hdec & Hend & He). exists used. split; [done|]. split; [done|].
      split; [auto|]. split; [rewrite Hend, elem_of_app; naive_solver|done]. }
  destruct Hstep as (used & -> & Hok1 & Hdec & Hseen1 & Hend1).
  destruct (IH s1 up1 _ _ (seen ++ used) ps1 Hok1 Hseen1 Ec Hps1) as (used2 & -> & Hok2 & Hdec2 & Hseen2 & Hend2).
  rewrite <- (app_assoc out), <- (app_assoc inp) in Hok2, Hdec2. rewrite <- app_assoc in Hseen2. exists (used ++ used2). rewrite body_app, received_cons. split; [by rewrite app_assoc|]. split; [exact Hok2|]. split.
  - destruct ps1 as [|q ps1]; [|done]. cbn. intros [= ->]. cbn in Hdec2, Hok2 |- *. destruct n; [|cbn in Ec; destruct (poll_next s1 _) as [[? ?] ?]; by destruct (consume n _ _) as [[? ?] ?]].
    injection Ec as Es Eu. assert (used2 = []) as -> by (apply (f_equal length) in Eu; rewrite length_app in Eu; apply nil_length_inv; lia).
    unfold received, body. cbn. rewrite !app_nil_r. by apply Hdec.
  - split; [done|]. intros [<-|Hin]%elem_of_cons; [|by apply Hend2]. rewrite Hseen2, app_assoc, elem_of_app. left. apply Hseen1. auto.
Qed.

(** What a client received so far decodes to exactly the body the
    upstream has sent, whenever the stream reports that it waits and once it
    has ended; it ends only when the upstream has. *)
Theorem compressed_stream_roundtrip n up ps s rest : consume n (stream_new e) up = (ps, s, rest) -> ReadyError ∉ ps ->
  exists used, up = used ++ rest
    /\ (last ps = Some Pending -> decode e (received ps) = Some (body used))
    /\ (ReadyEnd ∈ ps -> UEnd ∈ used /\ decode e (received ps) = Some (body used)).
Proof.
  intros Hrun Hne. assert (Hok : stream_ok (stream_new e) [] []) by (exists (enc_new e false); split; [done|]; split; [apply holds_new|intros _; apply decode_nil]).
  destruct (consume_spec n (stream_new e) up [] [] [] ps s rest Hok ltac:(cbn; set_solver) Hrun Hne) as (used & -> & Hs & Hd & Hseen & Hend).
  exists used. split; [done|]. split; [exact Hd|]. intros Hin. specialize (Hend Hin). split; [by apply Hseen in Hend|]. unfold stream_ok in Hs. by rewrite Hend in Hs.
Qed.

Lemma static_roundtrip bs packed : compress_static bs e = Some packed -> decode e packed = Some bs.
Proof.
  unfold compress_static. destruct (enc_write (enc_new e true) bs) as [c|] eqn:Ew; cbn; [|done]. intros Hf.
  pose proof (holds_write _ _ _ _ _ _ (holds_new e true) Ew) as Hc. exact (holds_finish _ _ [] _ _ Hc Hf).
Qed.
End Stream.

(** ** The choice of an encoding *)

Section Negotiate.
Context {QL : Quality} {HT : HttpTypes}.

(** The quality the request gives to an encoding. *)
Definition accepted_quality (headers : ProxyHeaders.HeaderMap) (e : Encoding) : q :=
  match e with Brotli => brotli_quality (offers headers) | Gzip => gzip_quality (offers headers) end.
Definition other (e : Encoding) : Encoding := match e with Brotli => Gzip | Gzip => Brotli end.

(** Where the qualities a request gives are numbers, the encoding that
    is chosen has a quality above zero, none is rated higher, Brotli wins a
    tie, and none is chosen exactly when the request accepts none. *)
Theorem negotiation_exact headers :
  let b := accepted_quality headers Brotli in let g := accepted_quality headers Gzip in
  (q_ge b g = false -> q_ge g b = true) ->
  (forall x y, x ∈ [b; g] -> y ∈ [b; g] -> q_ge x y = true -> q_le x q_zero = true -> q_le y q_zero = true) ->
  (negotiate headers = None <-> q_le b q_zero = true /\ q_le g q_zero = true) /\
  (forall e, negotiate headers = Some e ->
     q_le (accepted_quality headers e) q_zero = false /\ q_ge (accepted_quality headers e) (accepted_quality headers (other e)) = true) /\
  (negotiate headers = Some Gzip -> q_ge b g = false).
Proof.
  intros b g Htotal Hmono. assert (Hneg : negotiate headers = if q_le b q_zero && q_le g q_zero then None else if q_ge b g then Some Brotli else Some Gzip) by done.
  rewrite Hneg. destruct (q_le b q_zero) eqn:Eb, (q_le g q_zero) eqn:Eg; cbn [andb]; destruct (q_ge b g) eqn:Ege; (split; [split; [by intros|by intros [? ?]]|split; [|by intros]]); intros e [= <-]; cbn [other]; fold b g.
  - rewrite (Hmono b g ltac:(set_solver) ltac:(set_solver) Ege Eb) in Eg. done.
  - rewrite Eg. auto.
  - rewrite Eb. auto.
  - rewrite (Hmono g b ltac:(set_solver) ltac:(set_solver) (Htotal eq_refl) Eg) in Eb. done.
  - rewrite Eb. auto.
  - rewrite Eg. auto.
Qed.

(** A quality that is not a number is neither at most zero nor at least any
    other: with it for Brotli the answer is gzip, accepted or not. *)
Theorem nan_quality_picks_gzip headers : q_le (accepted_quality headers Brotli) q_zero = false ->
  q_ge (accepted_quality headers Brotli) (accepted_quality headers Gzip) = false -> negotiate headers = Some Gzip.
Proof. cbn. intros Hb Hg. unfold negotiate. rewrite Hb. cbn. by rewrite Hg. Qed.
End Negotiate.

(** ** Witnesses *)

(** Qualities in tenths, with a value that is not a number. *)
Definition demo_quality : Quality := {|
  q := option Z; q_zero := Some 0; q_one := Some 10;
  q_parse t := if bool_decide (t = lit "nan") then Some None else if bool_decide (t = lit "0.5") then Some (Some 5) else if bool_decide (t = lit "0") then Some (Some 0) else None;
  q_le x y := match x, y with Some a, Some b => a <=? b | _, _ => false end;
  q_ge x y := match x, y with Some a, Some b => b <=? a | _, _ => false end;
|}.
Definition demo_http : HttpTypes := {| to_str := from_utf8; url_decode t := Some t; method_converts _ := true; header_converts _ _ := true |}.
#[local] Existing Instance demo_quality.
#[local] Existing Instance demo_http.
(** An encoder that passes the input on when it is flushed. *)
Definition demo_codec : Codec := {|
  encoder := bytes; enc_new _ _ := []; enc_write c b := Some (c ++ b); enc_flush c := Some (c, []); enc_finish c := Some c;
|}.
Definition demo_codec_laws : CodecLaws demo_codec.
Proof.
  refine (@Build_CodecLaws demo_codec (λ _ o, Some o) (λ _ c out inp, out ++ c = inp) _ _ _ _ _); cbn; try done.
  - intros _ c out inp b c' <- [= <-]. by rewrite app_assoc.
  - intros _ c out inp o c' <- [= <- <-]. by rewrite app_nil_r.
  - intros _ c out inp o <- [= <-]. done.
Defined.

Definition accept (s : string) : ProxyHeaders.HeaderMap := [(lit "accept-encoding", utf8 (lit s))].

Lemma compressed_stream_roundtrip_witness :
  let '(ps, s, rest) := @consume demo_codec 3 (@stream_new demo_codec Gzip) [UChunk [1; 2]; UPending; UChunk [3]; UEnd] in
  received ps = [1; 2; 3] /\ exists used, body used = [1; 2; 3].
Proof.
  destruct (@consume demo_codec 3 (@stream_new demo_codec Gzip) [UChunk [1; 2]; UPending; UChunk [3]; UEnd]) as [[ps s] rest] eqn:E.
  assert (Hps : ps = [ReadyChunk [1; 2]; ReadyChunk [3]; ReadyEnd]) by (revert E; vm_compute; by intros [= <- _ _]).
  destruct (@compressed_stream_roundtrip demo_codec demo_codec_laws Gzip 3 _ ps s rest E) as (used & _ & _ & Hend); [rewrite Hps; intros H; repeat (apply elem_of_cons in H as [H|H]; [discriminate|]); by apply not_elem_of_nil in H|].
  destruct Hend as [_ Hd]; [rewrite Hps; right; right; left|]. subst ps. cbn in Hd |- *. injection Hd as Hd. split; [done|]. exists used. done.
Defined.

Lemma negotiation_exact_witness : negotiate (accept "br;q=0.5, gzip") = Some Gzip /\ q_ge (accepted_quality (accept "br;q=0.5, gzip") Gzip) (accepted_quality (accept "br;q=0.5, gzip") Brotli) = true.
Proof.
  split; [vm_compute; reflexivity|]. destruct (negotiation_exact (accept "br;q=0.5, gzip")) as (_ & H & _).
  - intros _. vm_compute. reflexivity.
  - assert (Hg : q_le (accepted_quality (accept "br;q=0.5, gzip") Gzip) q_zero = false) by (vm_compute; reflexivity).
    assert (Hb : q_le (accepted_quality (accept "br;q=0.5, gzip") Brotli) q_zero = false) by (vm_compute; reflexivity).
    intros x y Hx _ _ Hl. apply elem_of_cons in Hx as [->|Hx]; [congruence|]. apply list_elem_of_singleton in Hx as ->. congruence.
  - apply (H Gzip). vm_compute. reflexivity.
Defined.

(** [Accept-Encoding: br;q=nan] accepts no gzip, and gets gzip. *)
Lemma nan_quality_picks_gzip_witness : negotiate (accept "br;q=nan") = Some Gzip /\ accepted_quality (accept "br;q=nan") Gzip = q_zero.
Proof. split; [|vm_compute; reflexivity]. apply (nan_quality_picks_gzip (accept "br;q=nan")); vm_compute; reflexivity. Defined.
