(* ===== verification/StaticSite.v ===== *)
(** * Static sites: the edge of a module's site in [infra/modules/runtime/process.rs]

    The files of a static site: which file answers a path, the headers and
    the encoding of the answer, revalidation, the cache of compressed
    variants; and the answers of the gateway that pass through the edge.  A
    path in the site is the list of its components.  Files are those of the
    directory of the site, read at the request ([SiteFiles]).  SHA-256,
    dates and header syntax are the class [SiteLibs]; links are left out. *)

From S2P Require Import Prelude Text Ip Edge Gateway Redact LogRetention Compression.

#[local] Open Scope fenrir_scope.

Class SiteLibs := {
  sha16_hex : bytes -> text;                       (* hex of the first 16 bytes of SHA-256 *)
  http_date : Z -> option bytes;
  parse_header_name : text -> option text;         (* HeaderName::from_bytes, in lower case *)
  parse_header_value : text -> option bytes;
}.

Definition hdr (name value : string) : text * bytes := (lit name, utf8 (lit value)).

Definition STATIC_DEFAULT_HEADERS : ProxyHeaders.HeaderMap :=
  [hdr "x-content-type-options" "nosniff"; hdr "referrer-policy" "same-origin";
   hdr "permissions-policy" "camera=(), microphone=(), geolocation=(), payment=(), usb=()";
   hdr "x-frame-options" "DENY"; hdr "cross-origin-opener-policy" "same-origin"].

Definition STATIC_HOST_OWNED_HEADERS : list text :=
  [lit "cache-control"; lit "connection"; lit "content-length"; lit "content-type"; lit "etag"; lit "last-modified";
   lit "strict-transport-security"; lit "transfer-encoding"].

Definition STATIC_CACHE_IMMUTABLE : bytes := utf8 (lit "public, max-age=31536000, immutable").
Definition STATIC_CACHE_REVALIDATE : bytes := utf8 (lit "no-cache").
Definition STATIC_VARIANT_CACHE_BYTES : nat := Z.to_nat (64 * 1024 * 1024).

(** [HeaderMap::insert]: the only value of its name. *)
Definition set_header (hs : ProxyHeaders.HeaderMap) (n : text) (v : bytes) : ProxyHeaders.HeaderMap :=
  base.filter (λ h, h.1 <> n) hs ++ [(n, v)].
Definition remove_header (hs : ProxyHeaders.HeaderMap) (n : text) : ProxyHeaders.HeaderMap := base.filter (λ h, h.1 <> n) hs.
Definition contains_key (hs : ProxyHeaders.HeaderMap) (n : text) : bool := bool_decide (n ∈ hs.*1).

Record Response := mkResponse { r_status : Z; r_headers : ProxyHeaders.HeaderMap; r_body : bytes }.

(** ** Names *)

Definition content_type_for (file : text) : text :=
  let ext := default [] (extension file) in
  let ext_is (s : string) := bool_decide (ext = lit s) in
  if ext_is "html" then lit "text/html; charset=utf-8"
  else if ext_is "css" then lit "text/css; charset=utf-8"
  else if ext_is "js" then lit "application/javascript; charset=utf-8"
  else if ext_is "json" || ext_is "map" then lit "application/json; charset=utf-8"
  else if ext_is "png" then lit "image/png"
  else if ext_is "jpg" || ext_is "jpeg" then lit "image/jpeg"
  else if ext_is "svg" then lit "image/svg+xml"
  else if ext_is "ico" then lit "image/x-icon"
  else if ext_is "webmanifest" then lit "application/manifest+json"
  else if ext_is "woff2" then lit "font/woff2"
  else if ext_is "woff" then lit "font/woff"
  else lit "application/octet-stream".

Definition is_upper_or_digit (c : Z) : bool := ((65 <=? c) && (c <=? 90)) || ((48 <=? c) && (c <=? 57)).
Definition is_lower_hex (c : Z) : bool := ((48 <=? c) && (c <=? 57)) || ((97 <=? c) && (c <=? 102)).
Definition hashed_after (sep : Z) (lengths : list nat) (ok : Z -> bool) (stem : text) : bool :=
  match rsplit_once sep stem with
  | Some (name, hash) => negb (bool_decide (name = [])) && bool_decide (length hash ∈ lengths) && forallb ok hash
  | None => false
  end.
Definition is_content_hashed (file : text) : bool :=
  match extension file with
  | None => false
  | Some _ =>
      let stem := file_stem file in
      hashed_after 45 [8%nat] is_upper_or_digit stem || hashed_after 46 [16%nat; 20%nat] is_lower_hex stem
  end.

(** [sanitize_request_path]: the components of the path below the root. *)
Definition sanitize_request_path (path : text) : list text :=
  base.filter (λ s, s <> [] /\ s <> lit "." /\ s <> lit "..") (split 47 path).

(** The files of a site. *)
Record SiteFiles := mkSite { site_file : list text -> option bytes; site_dir : list text -> bool; site_modified : list text -> option Z }.
Definition is_file (fs : SiteFiles) (p : list text) : bool := bool_decide (is_Some (site_file fs p)).

Definition resolve_asset (fs : SiteFiles) (request_path : text) : option (list text) :=
  if bool_decide (request_path = lit "/") || bool_decide (request_path = []) then None
  else
    let cleaned := sanitize_request_path request_path in
    if bool_decide (cleaned = []) then None
    else if is_file fs cleaned then Some cleaned
    else if site_dir fs cleaned then
      let index := cleaned ++ [lit "index.html"] in
      if is_file fs index then Some index else None
    else None.

(** ** Headers of the module *)

Section Headers.
Context {SL : SiteLibs}.

(** [with_response_headers]: [raw] is in the order of the [BTreeMap]. *)
Definition with_response_headers (raw : list (text * text)) : ProxyHeaders.HeaderMap :=
  omap (λ nv, name ← parse_header_name (trim nv.1); value ← parse_header_value (trim nv.2);
              if bool_decide (name ∈ STATIC_HOST_OWNED_HEADERS) then None else Some (name, value)) raw.

Definition static_etag (bs : bytes) : text := 34 :: sha16_hex bs ++ [34].
End Headers.

(** [trim_matches] with a double quote. *)
Definition trim_quotes (t : text) : text :=
  rev (drop_while (λ c, c =? 34) (rev (drop_while (λ c, c =? 34) t))).
Definition variant_etag (etag : text) (e : Encoding) : text := 34 :: trim_quotes etag ++ lit "-" ++ token e ++ [34].

Section Answers.
Context {SL : SiteLibs} {HT : HttpTypes} {QL : Quality} {C : Codec}.

Definition etag_matches (if_none_match : bytes) (etag : text) : bool :=
  match to_str if_none_match with
  | None => false
  | Some value =>
      existsb (λ candidate, bool_decide (candidate = lit "*") || bool_decide (default candidate (strip_prefix (lit "W/") candidate) = etag))
        (trim <$> split 44 value)
  end.

(** ** The cache of variants *)

Record StaticVariantCache := mkVariants { vc_bytes : nat; vc_variants : gmap (text * Encoding) bytes }.
Definition variants_new : StaticVariantCache := mkVariants 0 ∅.

(** The two sections of [get_or_compress] that hold the lock. *)
Definition variant_get (etag : text) (e : Encoding) (c : StaticVariantCache) : option bytes := vc_variants c !! (etag, e).
Definition variant_store (budget : nat) (etag : text) (e : Encoding) (packed : bytes) (c : StaticVariantCache) : StaticVariantCache :=
  let c := if (budget <? vc_bytes c + length packed)%nat then variants_new else c in
  mkVariants (vc_bytes c + length packed) (<[(etag, e) := packed]> (vc_variants c)).

Definition get_or_compress (budget : nat) (etag : text) (e : Encoding) (bs : bytes) (c : StaticVariantCache)
    : option bytes * StaticVariantCache :=
  match variant_get etag e c with
  | Some hit => (Some hit, c)
  | None =>
      match compress_static bs e with
      | None => (None, c)
      | Some packed =>
          if (length bs <=? length packed)%nat then (None, c)
          else (Some packed, variant_store budget etag e packed c)
      end
  end.

(** ** The answer for a file *)

Definition add_headers (hs extra : ProxyHeaders.HeaderMap) : ProxyHeaders.HeaderMap := foldl (λ hs h, set_header hs h.1 h.2) hs extra.

Definition static_headers (etag file : text) (modified : option Z) (html_headers : ProxyHeaders.HeaderMap)
    (variant : option (Encoding * bytes)) (vary : bool) : ProxyHeaders.HeaderMap :=
  let is_html := starts_with (lit "text/html") (content_type_for file) in
  let cache_control := if negb is_html && is_content_hashed file then STATIC_CACHE_IMMUTABLE else STATIC_CACHE_REVALIDATE in
  let served_etag := match variant with Some (e, _) => variant_etag etag e | None => etag end in
  let hs := [(lit "cache-control", cache_control)] in
  let hs := match parse_header_value served_etag with Some v => set_header hs (lit "etag") v | None => hs end in
  let hs := match modified ≫= http_date with Some v => set_header hs (lit "last-modified") v | None => hs end in
  let hs := add_headers hs STATIC_DEFAULT_HEADERS in
  let hs := if is_html then add_headers hs html_headers else hs in
  if vary then add_vary hs else hs.

Definition build_static_variant (bs : bytes) (etag file : text) (modified : option Z) (html_headers : ProxyHeaders.HeaderMap)
    (if_none_match : option bytes) (variant : option (Encoding * bytes)) (vary : bool) : Response :=
  let hs := static_headers etag file modified html_headers variant vary in
  let not_modified := match if_none_match with
                      | Some v => etag_matches v etag || existsb (λ e, etag_matches v (variant_etag etag e)) [Brotli; Gzip]
                      | None => false
                      end in
  if not_modified then mkResponse 304 hs []
  else
    let hs := set_header hs (lit "content-type") (utf8 (content_type_for file)) in
    match variant with
    | Some (e, packed) => mkResponse 200 (set_header hs (lit "content-encoding") (utf8 (token e))) packed
    | None => mkResponse 200 hs bs
    end.

Definition negotiated_static_response (budget : nat) (html_headers : ProxyHeaders.HeaderMap) (bs : bytes) (file : text) (modified : option Z)
    (request_headers : ProxyHeaders.HeaderMap) (c : StaticVariantCache) : Response * StaticVariantCache :=
  let compressible := is_compressible (content_type_for file) in
  let etag := static_etag bs in
  let '(variant, c) :=
    if compressible && (MIN_SIZE <=? length bs)%nat then
      match negotiate request_headers with
      | Some e => let '(packed, c) := get_or_compress budget etag e bs c in (pair e <$> packed, c)
      | None => (None, c)
      end
    else (None, c) in
  (build_static_variant bs etag file modified html_headers (ProxyHeaders.get request_headers (lit "if-none-match")) variant compressible, c).

(** [static_asset_handler]: the answer, whether it counts as a success, and
    the cache. *)
Definition failed (message : string) : Response := mkResponse 500 [hdr "content-type" "text/plain; charset=utf-8"] (utf8 (lit message)).

Definition static_asset_handler (budget : nat) (html_headers : ProxyHeaders.HeaderMap) (fs : SiteFiles) (index : list text) (readable : list text -> bool)
    (path : text) (request_headers : ProxyHeaders.HeaderMap) (c : StaticVariantCache) : Response * bool * StaticVariantCache :=
  let serve (p : list text) (message : string) :=
    match site_file fs p, readable p with
    | Some bs, true =>
        let '(r, c) := negotiated_static_response budget html_headers bs (default [] (last p)) (site_modified fs p) request_headers c in (r, true, c)
    | _, _ => (failed message, false, c)
    end in
  match resolve_asset fs path with
  | Some p => serve p "failed to read asset"
  | None => serve index "module assets missing index.html"
  end.

(** ** Answers that pass through *)

Definition proxied_compression (headers : ProxyHeaders.HeaderMap) (status : Z) (secret_path is_head : bool) (encoding : option Encoding)
    : option Encoding * ProxyHeaders.HeaderMap :=
  let compressible_type := match (v ← ProxyHeaders.get headers (lit "content-type"); to_str v) with Some t => is_compressible t | None => false end in
  let eligible := compressible_type && negb secret_path && negb (contains_key headers (lit "set-cookie"))
                  && negb (contains_key headers (lit "content-encoding")) && negb (contains_key headers (lit "content-range")) in
  if negb eligible then (None, headers)
  else
    let too_small := match (v ← ProxyHeaders.get headers (lit "content-length"); t ← to_str v; parse_uint u64_max (trim t)) with
                     | Some len => len <? 1024
                     | None => false
                     end in
    if too_small then (None, headers)
    else
      let headers := add_vary headers in
      let has_body := negb (((100 <=? status) && (status <? 200)) || (status =? 204) || (status =? 304)) in
      if is_head || negb has_body then (None, headers) else (encoding, headers).

Definition weaken_etag (headers : ProxyHeaders.HeaderMap) : ProxyHeaders.HeaderMap :=
  match (v ← ProxyHeaders.get headers (lit "etag"); to_str v) with
  | None => headers
  | Some etag =>
      if starts_with (lit "W/") etag then headers
      else match parse_header_value (lit "W/" ++ etag) with Some weak => set_header headers (lit "etag") weak | None => headers end
  end.

(** The end of [static_gateway_proxy_handler]: status, headers and encoding
    of the answer for the browser. *)
Definition proxied_response {U : UrlDecode} (path : text) (is_head : bool) (request_headers : ProxyHeaders.HeaderMap) (status : Z) (upstream : ProxyHeaders.HeaderMap)
    : Z * ProxyHeaders.HeaderMap * option Encoding :=
  let encoding := negotiate request_headers in
  let secret_path := is_secret_bearing_path path in
  let status := if (100 <=? status) && (status <=? 999) then status else 502 in
  let hop := ProxyHeaders.new (ProxyHeaders.get_all upstream (lit "connection")) in
  let headers := base.filter (λ h, Is_true (negb (ProxyHeaders.contains hop h.1) && header_converts h.1 h.2)) upstream in
  match proxied_compression headers status secret_path is_head encoding with
  | (Some e, headers) =>
      (status, weaken_etag (set_header (remove_header headers (lit "content-length")) (lit "content-encoding") (utf8 (token e))), Some e)
  | (None, headers) => (status, headers, None)
  end.
End Answers.

(** ** The body of a proxied answer *)

(** [ProxyBody]: the deadline of the idle timer.  A poll at [now] gets the
    upstream's answer. *)
Record ProxyBody := mkBody { pb_idle : Z; pb_deadline : Z; pb_finished : bool }.
Definition body_new (idle now : Z) : ProxyBody := mkBody idle (now + idle) false.
Definition body_poll (now : Z) (u : Upstream) (b : ProxyBody) : Poll * ProxyBody :=
  if pb_finished b then (ReadyEnd, b)
  else match u with
       | UChunk c => (ReadyChunk c, mkBody (pb_idle b) (now + pb_idle b) false)
       | UError => (ReadyError, mkBody (pb_idle b) (pb_deadline b) true)
       | UEnd => (ReadyEnd, mkBody (pb_idle b) (pb_deadline b) true)
       | UPending => if pb_deadline b <=? now then (ReadyError, mkBody (pb_idle b) (pb_deadline b) true) else (Pending, b)
       end.

(** ** The log of requests *)

Definition error_hint (status : Z) : option text :=
  if (400 <=? status) && (status <=? 499) then
    Some (if status =? 400 then lit "Bad Request" else if status =? 401 then lit "Unauthorized" else if status =? 403 then lit "Forbidden"
          else if status =? 404 then lit "Not Found" else if status =? 405 then lit "Method Not Allowed" else if status =? 408 then lit "Request Timeout"
          else lit "Client Error")
  else if (500 <=? status) && (status <=? 599) then
    Some (if status =? 500 then lit "Internal Server Error" else if status =? 502 then lit "Bad Gateway" else if status =? 503 then lit "Service Unavailable"
          else if status =? 504 then lit "Gateway Timeout" else lit "Server Error")
  else None.

Definition log_request (timestamp method path : text) (status duration_ms : Z) (error : option text) : text :=
  timestamp ++ lit " " ++ method ++ lit " " ++ path ++ lit " " ++ lit (pretty.pretty status) ++ lit " " ++ lit (pretty.pretty duration_ms) ++ lit "ms"
  ++ match error with Some e => lit " - ERROR: " ++ e | None => [] end ++ [10].
(** [static_request_logger]: the line for a request and its answer. *)
Definition static_request_logger {U : UrlDecode} (timestamp method path : text) (status duration_ms : Z) : text :=
  log_request timestamp method (request_target path) status duration_ms (error_hint status).
