(* ===== verification/StaticSiteSafety.v ===== *)
(** * What the edge of a static site guarantees

    Theorems about [StaticSite]: a request reaches files of the site only,
    an answer is the file in an encoding the client accepts, the cache of
    variants stays within its budget, the module does not set headers of the
    host, and answers that carry secrets are not compressed. *)

From S2P Require Import Prelude Text Ip Edge Gateway Redact LogRetention Compression CompressionSafety StaticSite.

#[local] Open Scope fenrir_scope.

(** ** Headers *)

Lemma get_all_filter_ne (hs : ProxyHeaders.HeaderMap) n m : ProxyHeaders.get_all (base.filter (λ h, h.1 <> n) hs) m = if decide (n = m) then [] else ProxyHeaders.get_all hs m.
Proof.
  unfold ProxyHeaders.get_all. rewrite list_filter_filter. destruct (decide (n = m)) as [->|Hne].
  - induction hs as [|h hs IH]; [done|]. rewrite filter_cons_False; [done|]. cbn. tauto.
  - f_equal. apply list_filter_iff. intros [x v]. cbn. split; [tauto|]. intros ->. split; [done|congruence].
Qed.
Lemma get_all_set (hs : ProxyHeaders.HeaderMap) n v m : ProxyHeaders.get_all (set_header hs n v) m = if decide (n = m) then [v] else ProxyHeaders.get_all hs m.
Proof. unfold set_header. rewrite get_all_snoc, get_all_filter_ne. by destruct (decide (n = m)); rewrite ?app_nil_r. Qed.
Lemma get_all_remove (hs : ProxyHeaders.HeaderMap) n m : ProxyHeaders.get_all (remove_header hs n) m = if decide (n = m) then [] else ProxyHeaders.get_all hs m.
Proof. apply get_all_filter_ne. Qed.
Lemma get_all_add (extra hs : ProxyHeaders.HeaderMap) m : m ∉ extra.*1 -> ProxyHeaders.get_all (add_headers hs extra) m = ProxyHeaders.get_all hs m.
Proof.
  revert hs. induction extra as [|[n v] extra IH]; intros hs; [done|]. rewrite fmap_cons, not_elem_of_cons. cbn [fst]. intros [Hm Hx].
  unfold add_headers. cbn [foldl fst snd]. fold (add_headers (set_header hs n v) extra). rewrite IH, get_all_set, decide_False by congruence. done.
Qed.
Lemma get_all_vary `{HT : HttpTypes} hs m : m <> VARY -> ProxyHeaders.get_all (add_vary hs) m = ProxyHeaders.get_all hs m.
Proof. intros Hm. unfold add_vary. destruct (has_vary hs); [done|]. rewrite get_all_snoc, decide_False, app_nil_r by congruence. done. Qed.
Lemma contains_key_values (hs : ProxyHeaders.HeaderMap) n : contains_key hs n = false -> ProxyHeaders.get_all hs n = [].
Proof. unfold contains_key. intros H. boolify. by apply get_all_absent. Qed.

(** ** Files *)

(** A request for a file of a site is answered with a file below the
    root: the path has at least one component, none is empty, [.] or [..],
    and none contains a slash. *)
Theorem static_files_stay_in_site fs path p : resolve_asset fs path = Some p ->
  p <> [] /\ is_file fs p = true /\ Forall (λ s, s <> [] /\ s <> lit "." /\ s <> lit ".." /\ 47 ∉ s) p.
Proof.
  unfold resolve_asset. destruct (_ || _); [done|]. case_bool_decide as Hne; [done|].
  assert (Hc : Forall (λ s, s <> [] /\ s <> lit "." /\ s <> lit ".." /\ 47 ∉ s) (sanitize_request_path path)).
  { apply Forall_forall. intros s [Hs Hin]%list_elem_of_filter. destruct Hs as (H1 & H2 & H3). pose proof (split_pieces 47 path) as Hp. rewrite Forall_forall in Hp. auto. }
  destruct (is_file fs (sanitize_request_path path)) eqn:Ef; [intros [= <-]; auto|]. destruct (site_dir fs _); [|done].
  destruct (is_file fs (sanitize_request_path path ++ [lit "index.html"])) eqn:Ei; [|done]. intros [= <-].
  split; [by destruct (sanitize_request_path path)|]. split; [done|]. apply Forall_app. split; [done|]. constructor; [|constructor].
  apply (bool_decide_unpack (lit "index.html" <> [] /\ lit "index.html" <> lit "." /\ lit "index.html" <> lit ".." /\ 47 ∉ lit "index.html")). vm_compute. exact I.
Qed.

(** ** The cache *)

Section Cache.
Context {SL : SiteLibs} {C : Codec}.

Abbreviation stored c := (msum length (vc_variants c)).

Definition within (budget : nat) (c : StaticVariantCache) : Prop :=
  (stored c <= vc_bytes c)%nat /\ ((vc_bytes c <= budget)%nat \/ (size (vc_variants c) <= 1)%nat).

Lemma store_within budget etag e packed c : within budget c -> within budget (variant_store budget etag e packed c).
Proof.
  intros [Hs Hb]. unfold variant_store, within. destruct (budget <? vc_bytes c + length packed)%nat eqn:El; cbn [vc_bytes vc_variants variants_new].
  - rewrite msum_insert_new by done. rewrite msum_empty, map_size_insert_None, map_size_empty by done. split; [lia|right; lia].
  - apply Nat.ltb_ge in El. split; [|by left]. destruct (vc_variants c !! (etag, e)) as [old|] eqn:Eo.
    + pose proof (msum_update length (vc_variants c) (etag, e) packed old Eo). lia.
    + rewrite msum_insert_new by done. lia.
Qed.

(** Whatever the order in which variants are stored, also the same one
    twice by requests that raced, the cache holds no more bytes than it
    counts, and no more than its budget unless a single file exceeds it. *)
Theorem variant_cache_within_budget budget (stores : list (text * Encoding * bytes)) :
  let c := foldl (λ c s, variant_store budget s.1.1 s.1.2 s.2 c) variants_new stores in
  (msum length (vc_variants c) <= vc_bytes c)%nat /\ ((vc_bytes c <= budget)%nat \/ (size (vc_variants c) <= 1)%nat).
Proof.
  assert (H0 : within budget variants_new) by (unfold within; cbn; rewrite msum_empty; lia).
  revert H0. generalize variants_new. induction stores as [|[[t e] b] l IH]; intros c Hc; [exact Hc|]. cbn [foldl]. apply IH. by apply store_within.
Qed.

(** Every variant is the compressed form of a file with its tag. *)
Definition cache_ok (c : StaticVariantCache) : Prop :=
  forall etag e packed, vc_variants c !! (etag, e) = Some packed -> exists bs, static_etag bs = etag /\ compress_static bs e = Some packed.

Lemma store_ok budget bs e packed c : cache_ok c -> compress_static bs e = Some packed -> cache_ok (variant_store budget (static_etag bs) e packed c).
Proof.
  intros Hc Hp. unfold variant_store. destruct (_ <? _)%nat; intros t e' p; cbn [vc_variants variants_new]; rewrite lookup_insert_Some.
  - intros [[[= <- <-] <-]|[_ H]]; [eauto|done].
  - intros [[[= <- <-] <-]|[_ H]]; [eauto|by apply Hc].
Qed.

Lemma get_or_compress_spec budget e bs c o c' : cache_ok c -> get_or_compress budget (static_etag bs) e bs c = (o, c') ->
  cache_ok c' /\ forall packed, o = Some packed -> exists bs', static_etag bs' = static_etag bs /\ compress_static bs' e = Some packed
    /\ (vc_variants c !! (static_etag bs, e) = None -> bs' = bs).
Proof.
  intros Hc. unfold get_or_compress, variant_get. destruct (vc_variants c !! (static_etag bs, e)) as [hit|] eqn:Eh.
  - intros [= <- <-]. split; [done|]. intros packed [= <-]. destruct (Hc _ _ _ Eh) as (bs' & ? & ?). by exists bs'.
  - destruct (compress_static bs e) as [packed|] eqn:Ep; [|by intros [= <- <-]]. destruct (_ <=? _)%nat; [by intros [= <- <-]|].
    intros [= <- <-]. split; [by apply store_ok|]. intros p [= <-]. eauto.
Qed.
End Cache.

(** ** The answer for a file *)

Section Answers.
Context {SL : SiteLibs} {HT : HttpTypes} {QL : Quality} {C : Codec} {CL : CodecLaws C}.

(** The headers before the content type, for a name that is not among those
    every file gets. *)
Lemma static_headers_values etag file modified html variant vary m :
  m ∉ html.*1 -> m ∉ [lit "cache-control"; lit "etag"; lit "last-modified"; VARY] -> m ∉ STATIC_DEFAULT_HEADERS.*1 ->
  ProxyHeaders.get_all (static_headers etag file modified html variant vary) m = [].
Proof.
  intros Hh Hm Hd. unfold static_headers. set (hs0 := [(lit "cache-control", _)]).
  set (hs1 := match parse_header_value _ with Some v => _ | None => hs0 end). set (hs2 := match modified ≫= http_date with Some v => _ | None => hs1 end).
  set (hs3 := if starts_with _ _ then add_headers (add_headers hs2 STATIC_DEFAULT_HEADERS) html else _).
  rewrite !not_elem_of_cons in Hm. destruct Hm as (Hcc & He & Hl & Hv & _).
  assert (H0 : ProxyHeaders.get_all hs0 m = []) by (unfold hs0; rewrite get_all_cons, decide_False by congruence; done).
  assert (H1 : ProxyHeaders.get_all hs1 m = []) by (unfold hs1; destruct (parse_header_value _); [rewrite get_all_set, decide_False by congruence|]; done).
  assert (H2 : ProxyHeaders.get_all hs2 m = []) by (unfold hs2; destruct (modified ≫= http_date); [rewrite get_all_set, decide_False by congruence|]; done).
  assert (H3 : ProxyHeaders.get_all hs3 m = []) by (unfold hs3; destruct (starts_with _ _); rewrite ?get_all_add by done; done).
  destruct vary; [by rewrite get_all_vary|done].
Qed.

(** C24: A static site answers with the file: 304 without a body exactly when
    the client names a tag of its content (or a star), otherwise 200 with the
    bytes of the file as they are, labelled with no encoding unless the
    headers of the module say otherwise ([module_may_claim_encoding]), or in
    the encoding the request accepts.  A compressed body decodes to the file
    when no variant with the file's tag was cached; a cached variant decodes
    to contents with the same tag, i.e. with the same first 16 bytes of their
    SHA-256. *)
Theorem static_answer_is_the_file budget html fs index readable path headers c r c' :
  cache_ok c ->
  static_asset_handler budget html fs index readable path headers c = (r, true, c') ->
  cache_ok c' /\ exists p bs, p = default index (resolve_asset fs path) /\ site_file fs p = Some bs /\
    let named := match ProxyHeaders.get headers (lit "if-none-match") with
                 | Some v => etag_matches v (static_etag bs) || existsb (λ e, etag_matches v (variant_etag (static_etag bs) e)) [Brotli; Gzip]
                 | None => false
                 end in
    if named then r_status r = 304 /\ r_body r = []
    else r_status r = 200 /\
      ((r_body r = bs /\ (lit "content-encoding" ∉ html.*1 -> ProxyHeaders.get_all (r_headers r) (lit "content-encoding") = []))
       \/ exists e bs', negotiate headers = Some e /\ ProxyHeaders.get_all (r_headers r) (lit "content-encoding") = [utf8 (token e)]
            /\ decode e (r_body r) = Some bs' /\ sha16_hex bs' = sha16_hex bs /\ (vc_variants c !! (static_etag bs, e) = None -> bs' = bs)).
Proof.
  intros Hc Hrun. assert (Hserve : exists p bs, p = default index (resolve_asset fs path) /\ site_file fs p = Some bs /\
    negotiated_static_response budget html bs (default [] (last p)) (site_modified fs p) headers c = (r, c')).
  { unfold static_asset_handler in Hrun. destruct (resolve_asset fs path) as [p|]; [exists p|exists index]; cbn [default from_option id].
    all: destruct (site_file fs _) as [bs|]; [|done]; destruct (readable _); [|done]; exists bs;
      destruct (negotiated_static_response _ _ _ _ _ _ _) as [r0 c0]; injection Hrun as <- <-; auto. }
  destruct Hserve as (p & bs & Hp & Hbs & Hneg). unfold negotiated_static_response in Hneg.
  destruct (if _ && _ then _ else _) as [variant c1] eqn:Ev. injection Hneg as <- <-.
  assert (Hv : cache_ok c1 /\ forall e packed, variant = Some (e, packed) -> negotiate headers = Some e
    /\ exists bs', decode e packed = Some bs' /\ sha16_hex bs' = sha16_hex bs /\ (vc_variants c !! (static_etag bs, e) = None -> bs' = bs)).
  { destruct (_ && _); [|injection Ev as <- <-; split; [done|]; by intros]. destruct (negotiate headers) as [e|] eqn:En; [|injection Ev as <- <-; split; [done|]; by intros].
    destruct (get_or_compress budget (static_etag bs) e bs c) as [o c2] eqn:Eg. injection Ev as <- <-.
    destruct (get_or_compress_spec budget e bs c o c2 Hc Eg) as [Hc2 Hpk]. split; [done|]. intros e' packed Ho. destruct o as [pk|]; [|done]. injection Ho as <- <-. split; [done|].
    destruct (Hpk pk eq_refl) as (bs' & Het & Hcs & Hnew). exists bs'. split; [by apply static_roundtrip|]. split; [|done].
    unfold static_etag in Het. injection Het as Het. by apply app_inj_2 in Het as [? _]. }
  destruct Hv as [Hc1 Hv]. split; [done|]. exists p, bs. split; [done|]. split; [done|]. cbv zeta. unfold build_static_variant.
  destruct (match ProxyHeaders.get headers (lit "if-none-match") with Some v => _ | None => false end); [done|].
  assert (Hnone : lit "content-encoding" ∉ html.*1 -> ProxyHeaders.get_all (set_header (static_headers (static_etag bs) (default [] (last p)) (site_modified fs p) html variant (is_compressible (content_type_for (default [] (last p)))))
    (lit "content-type") (utf8 (content_type_for (default [] (last p))))) (lit "content-encoding") = []).
  { intros Hce. rewrite get_all_set, decide_False by (vm_compute; discriminate). apply static_headers_values; [done| |].
    - apply (bool_decide_unpack (lit "content-encoding" ∉ [lit "cache-control"; lit "etag"; lit "last-modified"; VARY])). vm_compute. exact I.
    - apply (bool_decide_unpack (lit "content-encoding" ∉ STATIC_DEFAULT_HEADERS.*1)). vm_compute. exact I. }
  destruct variant as [[e packed]|]; cbn [r_status r_headers r_body]; (split; [done|]); [right|left; done].
  destruct (Hv e packed eq_refl) as (Hn & bs' & Hd). exists e, bs'. split; [done|]. split; [|done]. rewrite get_all_set, decide_True by done. done.
Qed.
End Answers.

(** ** The module's own headers *)

Section ModuleHeaders.
Context {SL : SiteLibs} {HT : HttpTypes} {QL : Quality} {C : Codec}.

Lemma module_header_names raw n : n ∈ (with_response_headers raw).*1 -> n ∉ STATIC_HOST_OWNED_HEADERS.
Proof.
  intros ([n' v] & -> & Hin)%list_elem_of_fmap. unfold with_response_headers in Hin. apply list_elem_of_omap in Hin as ([k w] & _ & Hk). cbn [mbind option_bind fst snd] in Hk.
  destruct (parse_header_name (trim k)) as [name|]; cbn [mbind option_bind fst snd] in Hk; [|done]. destruct (parse_header_value (trim w)); cbn [mbind option_bind fst snd] in Hk; [|done].
  case_bool_decide; [done|]. injection Hk as <- <-. done.
Qed.

Lemma static_headers_html etag file modified html variant vary m : m ∉ html.*1 -> m <> VARY ->
  ProxyHeaders.get_all (static_headers etag file modified html variant vary) m = ProxyHeaders.get_all (static_headers etag file modified [] variant vary) m.
Proof.
  intros Hh Hv. unfold static_headers. set (hs := add_headers _ STATIC_DEFAULT_HEADERS).
  assert (Hif : ProxyHeaders.get_all (if starts_with (lit "text/html") (content_type_for file) then add_headers hs html else hs) m
    = ProxyHeaders.get_all (if starts_with (lit "text/html") (content_type_for file) then add_headers hs [] else hs) m)
    by (destruct (starts_with _ _); [by rewrite get_all_add|done]).
  destruct vary; [by rewrite !get_all_vary|done].
Qed.

(** The headers a module asks for never change a header of the host: for
    each of those names the answer carries what it would carry without the
    module's headers. *)
Theorem module_headers_leave_host_alone raw bs etag file modified if_none_match variant vary n : n ∈ STATIC_HOST_OWNED_HEADERS ->
  ProxyHeaders.get_all (r_headers (build_static_variant bs etag file modified (with_response_headers raw) if_none_match variant vary)) n
  = ProxyHeaders.get_all (r_headers (build_static_variant bs etag file modified [] if_none_match variant vary)) n.
Proof.
  intros Hn. assert (Hout : n ∉ (with_response_headers raw).*1) by (intros H; by apply (module_header_names raw n)).
  assert (Hv : n <> VARY) by (intros ->; revert Hn; apply (bool_decide_unpack (VARY ∉ STATIC_HOST_OWNED_HEADERS)); vm_compute; exact I).
  pose proof (static_headers_html etag file modified (with_response_headers raw) variant vary n Hout Hv) as Hs.
  unfold build_static_variant. destruct (match if_none_match with Some v => _ | None => false end); [exact Hs|].
  destruct variant as [[e packed]|]; cbn [r_headers]; rewrite !get_all_set; repeat destruct (decide _); done.
Qed.

(** The encoding of the body is not among the names of the host: a module
    can label its uncompressed pages as compressed. *)
Theorem module_may_claim_encoding (bs : bytes) (etag file : text) v value : parse_header_name (trim (lit "content-encoding")) = Some (lit "content-encoding") ->
  parse_header_value (trim v) = Some value -> starts_with (lit "text/html") (content_type_for file) = true ->
  let r := build_static_variant bs etag file None (with_response_headers [(lit "content-encoding", v)]) None None false in
  r_body r = bs /\ ProxyHeaders.get_all (r_headers r) (lit "content-encoding") = [value].
Proof.
  intros Hn Hv Hf r. split; [done|]. unfold r, build_static_variant. cbn [r_headers]. rewrite get_all_set, decide_False by (vm_compute; discriminate).
  assert (Hw : with_response_headers [(lit "content-encoding", v)] = [(lit "content-encoding", value)]).
  { unfold with_response_headers. cbn [omap list_omap fst snd]. rewrite Hn, Hv. cbn [mbind option_bind]. rewrite bool_decide_false; [done|].
    apply (bool_decide_unpack (lit "content-encoding" ∉ STATIC_HOST_OWNED_HEADERS)). vm_compute. exact I. }
  rewrite Hw. unfold static_headers. rewrite Hf. unfold add_headers at 1. cbn [foldl fst snd]. rewrite get_all_set, decide_True by done. done.
Qed.
End ModuleHeaders.

(** ** Answers that pass through *)

Section Proxied.
Context {SL : SiteLibs} {HT : HttpTypes} {QL : Quality} {U : UrlDecode}.

Lemma get_all_weaken hs n : n <> lit "etag" -> ProxyHeaders.get_all (weaken_etag hs) n = ProxyHeaders.get_all hs n.
Proof.
  intros Hn. unfold weaken_etag. destruct (_ ← _; _) as [t|]; [|done]. destruct (starts_with _ t); [done|]. destruct (parse_header_value _); [|done].
  by rewrite get_all_set, decide_False by congruence.
Qed.

Lemma has_vary_added hs : to_str (utf8 (lit "accept-encoding")) = Some (lit "accept-encoding") -> has_vary (add_vary hs) = true.
Proof.
  intros Hs. unfold add_vary. destruct (has_vary hs) eqn:E; [done|]. unfold has_vary. rewrite get_all_snoc, decide_True by done. rewrite existsb_app. apply orb_true_iff. right.
  cbn [existsb]. rewrite Hs. reflexivity.
Qed.

Lemma proxied_compression_some hs status secret_path is_head enc e hs' : proxied_compression hs status secret_path is_head enc = (Some e, hs') ->
  enc = Some e /\ secret_path = false /\ is_head = false /\ contains_key hs (lit "set-cookie") = false /\ hs' = add_vary hs.
Proof.
  unfold proxied_compression. cbv zeta.
  destruct (match ProxyHeaders.get hs (lit "content-type") ≫= (λ v, to_str v) with Some t => is_compressible t | None => false end), secret_path, (contains_key hs (lit "set-cookie")), (contains_key hs (lit "content-encoding")), (contains_key hs (lit "content-range")); cbn [negb andb]; try done.
  intros H. destruct is_head; [by repeat case_match|]. repeat case_match; simplify_eq; done.
Qed.

(** An answer of the gateway leaves the edge compressed only if the
    request accepts the encoding, its path names no secret, and the answer
    sets no cookie; then its length is gone, its encoding is named once, and
    caches are told that it depends on the request. *)
Theorem secrets_are_not_compressed path is_head request status upstream st out e :
  to_str (utf8 (lit "accept-encoding")) = Some (lit "accept-encoding") ->
  proxied_response path is_head request status upstream = (st, out, Some e) ->
  negotiate request = Some e /\ is_secret_bearing_path path = false /\ is_head = false
  /\ ProxyHeaders.get_all out (lit "set-cookie") = [] /\ ProxyHeaders.get_all out (lit "content-length") = []
  /\ ProxyHeaders.get_all out (lit "content-encoding") = [utf8 (token e)] /\ has_vary out = true.
Proof.
  intros Hstr. unfold proxied_response. generalize (base.filter (λ h, Is_true (negb (ProxyHeaders.contains (ProxyHeaders.new (ProxyHeaders.get_all upstream (lit "connection"))) h.1) && header_converts h.1 h.2)) upstream).
  intros hs. destruct (proxied_compression hs _ _ _ _) as [o hs'] eqn:Ep. destruct o as [e'|]; [|done]. intros [= <- <- ->].
  apply proxied_compression_some in Ep as (Hn & Hsec & Hhead & Hcookie & ->).
  split; [done|]. split; [done|]. split; [done|].
  assert (Hvals : forall n, n <> lit "etag" -> n <> VARY -> n <> lit "content-length" -> n <> lit "content-encoding" ->
    ProxyHeaders.get_all (weaken_etag (set_header (remove_header (add_vary hs) (lit "content-length")) (lit "content-encoding") (utf8 (token e)))) n = ProxyHeaders.get_all hs n).
  { intros n H1 H2 H3 H4. rewrite get_all_weaken, get_all_set, decide_False, get_all_remove, decide_False, get_all_vary by congruence. done. }
  split; [rewrite Hvals by (vm_compute; discriminate); by apply contains_key_values|].
  split; [rewrite get_all_weaken, get_all_set, decide_False, get_all_remove, decide_True by (done || (vm_compute; discriminate)); done|].
  split; [rewrite get_all_weaken, get_all_set, decide_True by (done || (vm_compute; discriminate)); done|].
  pose proof (has_vary_added hs Hstr) as Hvary. unfold has_vary in Hvary |- *.
  assert (H1 : VARY <> lit "etag") by (vm_compute; discriminate). assert (H2 : lit "content-encoding" <> VARY) by (vm_compute; discriminate).
  assert (H3 : lit "content-length" <> VARY) by (vm_compute; discriminate).
  rewrite (get_all_weaken _ _ H1), get_all_set, (decide_False _ _ H2), get_all_remove, (decide_False _ _ H3). exact Hvary.
Qed.
End Proxied.

(** ** Witnesses *)

#[local] Existing Instance demo_quality.
#[local] Existing Instance demo_http.
#[local] Existing Instance demo_codec.
#[local] Existing Instance demo_codec_laws.
Definition demo_site_libs : SiteLibs := {|
  sha16_hex bs := bs; http_date _ := None; parse_header_name n := Some (to_ascii_lowercase n); parse_header_value v := Some (utf8 v);
|}.
#[local] Existing Instance demo_site_libs.
Definition demo_url : UrlDecode := {| urldecode t := Some t |}.
#[local] Existing Instance demo_url.

Definition demo_site : SiteFiles :=
  mkSite (λ p, if bool_decide (p = [lit "app.js"]) then Some [1; 2; 3] else None) (λ _, false) (λ _, None).

Lemma static_files_stay_in_site_witness : exists p, resolve_asset demo_site (lit "/../app.js") = Some p /\ is_file demo_site p = true.
Proof.
  exists [lit "app.js"]. split; [vm_compute; reflexivity|]. destruct (static_files_stay_in_site demo_site (lit "/../app.js") [lit "app.js"]) as (_ & H & _); [vm_compute; reflexivity|exact H].
Defined.

Lemma static_answer_is_the_file_witness : exists r c', static_asset_handler 0 [] demo_site [lit "index.html"] (λ _, true) (lit "/app.js") (accept "br") variants_new = (r, true, c')
  /\ r_body r = [1; 2; 3].
Proof.
  destruct (static_asset_handler 0 [] demo_site [lit "index.html"] (λ _, true) (lit "/app.js") (accept "br") variants_new) as [[r ok] c'] eqn:E.
  assert (ok = true) as -> by (revert E; vm_compute; by intros [= _ <- _]). exists r, c'. split; [done|].
  destruct (static_answer_is_the_file 0 [] demo_site [lit "index.html"] (λ _, true) (lit "/app.js") (accept "br") variants_new r c') as (_ & p & bs & -> & Hbs & H);
    [by intros t e p; unfold variants_new; cbn; rewrite lookup_empty|exact E|].
  assert (bs = [1; 2; 3]) as -> by (revert Hbs; vm_compute; by intros [= <-]). destruct H as [_ [[H _]|(e & bs' & _ & _ & H & _ & Hnew)]]; [exact H|].
  rewrite Hnew in H by apply lookup_empty. cbn in H. by injection H.
Defined.

Lemma module_headers_leave_host_alone_witness :
  ProxyHeaders.get_all (r_headers (build_static_variant [1] (lit "t") (lit "index.html") None (with_response_headers [(lit "Cache-Control", lit "max-age=9")]) None None false)) (lit "cache-control")
  = [STATIC_CACHE_REVALIDATE].
Proof.
  rewrite (module_headers_leave_host_alone [(lit "Cache-Control", lit "max-age=9")] [1] (lit "t") (lit "index.html") None None None false (lit "cache-control")); [vm_compute; reflexivity|left].
Defined.

Definition demo_upstream : ProxyHeaders.HeaderMap := [hdr "content-type" "application/json"; hdr "content-length" "5000"].
Lemma secrets_are_not_compressed_witness : exists st out, proxied_response (lit "/gateway/services/x/tickets") false (accept "gzip") 200 demo_upstream = (st, out, Some Gzip)
  /\ ProxyHeaders.get_all out (lit "content-length") = [].
Proof.
  destruct (proxied_response (lit "/gateway/services/x/tickets") false (accept "gzip") 200 demo_upstream) as [[st out] o] eqn:E.
  assert (o = Some Gzip) as -> by (revert E; vm_compute; by intros [= _ _ <-]). exists st, out. split; [done|].
  apply (secrets_are_not_compressed (lit "/gateway/services/x/tickets") false (accept "gzip") 200 demo_upstream st out Gzip); [vm_compute; reflexivity|exact E].
Defined.
