(* ===== verification/ConfigCheck.v ===== *)
(** * The configuration and its checks ([config/model.rs],
    [config/validation.rs], [config/mode.rs], [validate] of
    [config/loading.rs])

    The sections of the configuration the checks read, the resolution of
    secrets that name a variable of the host, the check of each section, the
    list of settings a production host refuses ([production_violations]),
    and [validate], which runs them in the order of the source.

    The host's variables and files are the [Host] of [ModuleEnv]; variables
    whose value is not Unicode are not represented.  A map ([HashMap] or
    [BTreeMap]) that is only iterated is the list of its entries in the
    order of the iteration; a section of one field is that field, and the
    small sections of [telemetry] are flattened.  [unreachable!()] is the
    failure [Unreachable]. *)

From S2P Require Import Prelude Text Ip ModuleStorage Roles ServiceTokens Sessions Edge Rollout Ports LogRetention Verifier Backup ModuleEnv.

#[local] Open Scope fenrir_scope.

Inductive ConfigError :=
| Anyhow (message : text) | Invalid (message : text) | InvalidMessage (message : text)
| MissingEnv (key var : text) | InvalidProfile (value : text) | MissingConfigFile (path : text).

Definition refuse (b : bool) (message : string) : result unit ConfigError :=
  if b then Err (Invalid (lit message)) else Ok tt.
Definition refuse_msg (b : bool) (message : text) : result unit ConfigError :=
  if b then Err (InvalidMessage message) else Ok tt.
Fixpoint each {A} (f : A -> result unit ConfigError) (l : list A) : result unit ConfigError :=
  match l with [] => Ok tt | x :: l => _ <-? f x;; each f l end.

Definition blank (s : text) : bool := bool_decide (trim s = []).
Definition blank_when_set (o : option text) : bool := match o with Some s => blank s | None => false end.

(** ** Sections *)

Record HttpTlsConfig := mkHttpTls {
  http_tls_enabled : bool; http_cert_path : option text; http_key_path : option text; http_cipher_suites : list text;
  http_reload_seconds : option Z;
}.
Record HttpConfig := mkHttp { http_host : text; http_port : Z; http_tls : HttpTlsConfig }.
Record GrpcTlsConfig := mkGrpcTls {
  grpc_tls_enabled : bool; grpc_cert_path : option text; grpc_key_path : option text; grpc_client_ca_path : option text;
  grpc_cipher_suites : list text; grpc_reload_seconds : option Z;
}.
Record GrpcConfig := mkGrpc { grpc_host : text; grpc_port : Z; grpc_tls : GrpcTlsConfig }.
Record SshTlsConfig := mkSshTls { ssh_allowed_ciphers : list text; host_key_reload_seconds : option Z }.
Record SshConfig := mkSsh {
  ssh_host : text; ssh_port : Z; ssh_user : text; ssh_server_name : text; host_key_path : text;
  idle_close_seconds : option Z; ssh_tls : SshTlsConfig;
}.
Record ServerSection := mkServer {
  enable_http : bool; enable_grpc : bool; ssh : SshConfig; http : HttpConfig; grpc : option GrpcConfig; edge : Edge.EdgeSection;
}.

Record KdfConfig := mkKdf {
  kdf_algorithm : text; kdf_version : Z; memory_mib : Z; iterations : Z; parallelism : Z; salt_length : Z; output_length : Z;
}.
Record JwtConfig := mkJwt { jwt_issuer : text; jwt_audience : text; exp_seconds : Z }.
Inductive IdentityProviderKind := ProviderEmbedded | ProviderExternal.
Inductive IdentityStorageKind := StorageFile | StorageDb.
Record IdentityEmbeddedSection := mkIdEmbedded { id_storage : IdentityStorageKind; store_path : text; embedded_audience : text }.
Record IdentityExternalTlsSection := mkIdTls {
  id_ca_cert_path : option text; id_client_cert_path : option text; id_client_key_path : option text; id_accept_invalid_certs : bool;
}.
Record IdentityExternalSection := mkIdExternal {
  base_url : option text; jwks_url : option text; auth_token : option text; jwks_refresh_seconds : Z; external_audience : text;
  id_tls : IdentityExternalTlsSection;
}.
Record IdentitySection := mkIdentity {
  provider : IdentityProviderKind; environment : text; instance_id : text; id_embedded : IdentityEmbeddedSection;
  id_external : IdentityExternalSection;
}.
Record PasswordPolicyConfig := mkPasswordPolicy {
  min_length : Z; max_length : Z; require_uppercase : bool; require_lowercase : bool; require_digit : bool; require_special : bool;
  check_common_passwords : bool;
}.
Record SecuritySection := mkSecurity {
  kdf : KdfConfig; jwt : JwtConfig; sec_allowed_ciphers : list text; control_tokens : list text; session : SessionSection;
  service_tokens : ServiceTokenSection; identity : IdentitySection; password_policy : PasswordPolicyConfig;
}.

Inductive DbRuntimeMode := External | Embedded.
#[global] Instance DbRuntimeMode_eq_dec : EqDecision DbRuntimeMode.
Proof. solve_decision. Defined.
Inductive DbAuthMethod := Trust | ScramSha256.
Record DbPoolSettings := mkDbPool { pool_max : option Z; pool_timeout_ms : option Z }.
Record DbConnectionSettings := mkDbConnection { db_uri : text; db_pool : DbPoolSettings }.
Record DbConnections := mkDbConnections {
  c_postgres : option DbConnectionSettings; c_mysql : option DbConnectionSettings; c_sqlite : option DbConnectionSettings;
  c_mongodb : option DbConnectionSettings;
}.
Record DbEmbeddedSqlite := mkSqlite { file_path : text; vacuum_interval_seconds : option Z }.
Record DbEmbeddedPortRange := mkPgPorts { pg_min : Z; pg_max : Z }.
Record DbEmbeddedPostgres := mkPostgres { data_dir : text; binary_path : text; port_range : DbEmbeddedPortRange }.
Record DbEmbeddedSecuritySection := mkDbSecurity { auth_method : DbAuthMethod; prefer_unix_socket : bool; credential_rotation_hours : Z }.
Record DbEmbeddedSection := mkDbEmbedded {
  db_engine : EmbeddedEngineKind; sqlite : DbEmbeddedSqlite; postgres : DbEmbeddedPostgres; db_security : DbEmbeddedSecuritySection;
}.
Record DbRuntimeSection := mkDbRuntime { db_mode : DbRuntimeMode; db_embedded : DbEmbeddedSection }.
Record DbSchemaSection := mkDbSchema { export_dir : text; import_dir : text; backup_before_import : bool }.
Record DbSection := mkDb {
  default_engine : text; connections : DbConnections; db_runtime : DbRuntimeSection; db_schema : DbSchemaSection;
  db_backup : DbBackupSection; module_statement_timeout_ms : Z;
}.

Record TelemetryHistorySection := mkHistory {
  h_retention_days : option Z; h_retention_hours : option Z; h_persist_interval_seconds : option Z; h_sample_interval_seconds : option Z;
}.
Record TelemetrySection := mkTelemetry {
  tracing_level : text; metrics_enabled : bool; metrics_exporter : option text; health_enabled : bool; system_enabled : bool;
  system_interval_ms : option Z; history : TelemetryHistorySection; logs : TelemetryLogsSection;
}.
Record AuditStorageSection := mkAuditStorage {
  a_path : option text; a_retention_hours : option Z; a_retention_days : option Z; a_persist_interval_seconds : option Z;
}.
Record AuditSection := mkAudit { audit_enabled : bool; a_buffer_capacity : option Z; a_storage : AuditStorageSection }.

Record ModuleRegistryTlsSection := mkRegistryTls {
  r_ca_cert_path : option text; r_client_cert_path : option text; r_client_key_path : option text; r_accept_invalid_certs : bool;
}.
Record ModuleRegistrySection := mkModuleRegistry {
  registry_url : text; allow_offline : bool; offline_dirs : list text; registry_auth_token : option text; registry_tls : ModuleRegistryTlsSection;
}.
Record ModuleStorageSection := mkModuleStorage { install_dir : text; cache_dir : option text }.
Record ModuleRuntimeClientSection := mkClients {
  cl_timeout_ms : Z; cl_retries : Z; cl_backoff_ms : Z; health_probe_interval_seconds : Z; clients_tls : ModuleRegistryTlsSection;
}.
Record ModuleRuntimeReplacementSection := mkReplacement {
  rp_enabled : bool; default_strategy : ModuleRolloutStrategy; default_max_surge : Z; default_max_unavailable : Z;
  default_warmup_timeout_ms : Z; default_promotion_interval_ms : Z;
}.
Record ModuleRuntimeRolloutSection := mkRuntimeRollout {
  watch_config : bool; watch_debounce_ms : Z; restart_on_override_change : bool; drain_before_restart_ms : Z;
  inter_restart_delay_ms : Z; health_check_timeout_ms : Z; health_poll_interval_ms : Z; rollback_on_failure : bool;
  abort_on_first_failure : bool; replacement : ModuleRuntimeReplacementSection;
}.
Inductive ModuleRuntimeEngine := Process | Stub.
Record ModuleRuntimeSection := mkModuleRuntime {
  rt_engine : ModuleRuntimeEngine; port_strategy : ModulePortStrategy; rt_port_range : ModulePortRange;
  rt_default_service_scopes : list text; clients : ModuleRuntimeClientSection; rt_rollout : ModuleRuntimeRolloutSection;
  env_passthrough_prefixes : list text;
}.
Inductive ModuleServiceTenantMode := TenantAny | TenantFixed | TenantAllowList.
Record ModuleServiceTenantConfig := mkTenant { tenant_mode : ModuleServiceTenantMode; tenant_value : option text; tenant_allow : list text }.
Record ModuleServicePolicyOverride := mkPolicyOverride {
  po_internal_only : option bool; po_allowed_roles : list text; po_required_scopes : list text; po_tenant : option ModuleServiceTenantConfig;
}.

(** The directories of runtime data. *)
Record RuntimeSection := mkRuntimeDirs {
  base_path : text; identity_dir : text; db_dir : text; migrations_dir : text; ipc_dir : text; scheduler_dir : text;
}.
Definition runtime_default : RuntimeSection :=
  mkRuntimeDirs (lit "runtime") (lit "identity") (lit "db") (lit "migrations") (lit "ipc") (lit "scheduler").
Definition resolve_base_path (h : Host) (r : RuntimeSection) : text := default (base_path r) (host_var h (lit "FENRIR_RUNTIME_DIR")).
Definition resolve_path (h : Host) (r : RuntimeSection) (subdir : text) : text :=
  if is_absolute subdir then subdir else path_join (resolve_base_path h r) subdir.

(** The derived [Default] of a section, taken when the section is absent. *)
Definition session_absent : SessionSection := Sessions.mkSection 0 0 0.
Definition service_tokens_absent : ServiceTokenSection := ServiceTokens.mkSection 0 0 0 0.
Definition trust_absent : ModuleTrustSection := mkTrust false [] None.
Definition clients_absent : ModuleRuntimeClientSection := mkClients 0 0 0 0 (mkRegistryTls None None None false).
Definition replacement_absent : ModuleRuntimeReplacementSection := mkReplacement false Restart 0 0 0 0.
Definition rollout_absent : ModuleRuntimeRolloutSection := mkRuntimeRollout true 750 true 750 250 15000 500 true true replacement_absent.

(** The section that is present and empty: each field takes its own default. *)
Definition session_empty : SessionSection := Sessions.mkSection 3600 900 300.
Definition service_tokens_empty : ServiceTokenSection := ServiceTokens.mkSection 600 300 60 3600.
Definition trust_empty : ModuleTrustSection := mkTrust true [] None.
Definition clients_empty : ModuleRuntimeClientSection := mkClients 10000 2 200 30 (mkRegistryTls None None None false).
Definition replacement_empty : ModuleRuntimeReplacementSection := mkReplacement true RollingReplace 1 0 30000 30000.

(** ** Secrets *)

Definition resolve_secret_from_env (h : Host) (var key : text) : result text ConfigError :=
  let file_var := var ++ lit "_FILE" in
  let direct := host_var h var in
  let file_ref := host_var h file_var in
  let direct_non_empty := non_empty direct in
  let file_ref_non_empty := non_empty file_ref in
  if bool_decide (is_Some direct_non_empty) && bool_decide (is_Some file_ref_non_empty) then
    Err (InvalidMessage (lit "configuration secret source '" ++ var ++ lit "' is ambiguous: set either " ++ var ++ lit " or " ++ file_var
                         ++ lit ", not both"))
  else match direct_non_empty with
  | Some secret => Ok secret
  | None =>
      match file_ref_non_empty with
      | Some path =>
          match h_read h (trim path) with
          | Err reason => Err (InvalidMessage (lit "failed to read secret file from " ++ file_var ++ lit ": " ++ reason))
          | Ok raw =>
              let secret := trim raw in
              if bool_decide (secret = []) then
                Err (InvalidMessage (lit "secret file referenced by " ++ file_var ++ lit " must not be empty"))
              else Ok secret
          end
      | None =>
          if blank_when_set direct then Err (InvalidMessage (lit "environment variable " ++ var ++ lit " must not be empty"))
          else if blank_when_set file_ref then Err (InvalidMessage (lit "environment variable " ++ file_var ++ lit " must not be empty"))
          else Err (MissingEnv key (var ++ lit " or " ++ file_var))
      end
  end.

Definition resolve_secret (h : Host) (value key : text) : result text ConfigError :=
  match strip_prefix (lit "env:") value with
  | Some env => resolve_secret_from_env h (trim env) key
  | None => Ok value
  end.

Definition resolve_optional_secret (h : Host) (value : option text) (key : string) : result (option text) ConfigError :=
  match value with
  | Some raw =>
      secret <-? resolve_secret h raw (lit key);;
      _ <-? refuse (blank secret) "secret values must not be empty";;
      Ok (Some secret)
  | None => Ok None
  end.

Definition resolve_external_auth_token (h : Host) (i : IdentitySection) : result (option text) ConfigError :=
  resolve_optional_secret h (auth_token (id_external i)) "security.identity.external.auth_token".
(** The paths may be secrets in variables too. *)
Definition resolve_tls (h : Host) (e : IdentityExternalSection) : result IdentityExternalTlsSection ConfigError :=
  ca <-? resolve_optional_secret h (id_ca_cert_path (id_tls e)) "security.identity.external.tls.ca_cert_path";;
  cert <-? resolve_optional_secret h (id_client_cert_path (id_tls e)) "security.identity.external.tls.client_cert_path";;
  key <-? resolve_optional_secret h (id_client_key_path (id_tls e)) "security.identity.external.tls.client_key_path";;
  Ok (mkIdTls ca cert key (id_accept_invalid_certs (id_tls e))).
Definition identity_audience (i : IdentitySection) : text :=
  match provider i with ProviderEmbedded => embedded_audience (id_embedded i) | ProviderExternal => external_audience (id_external i) end.

(** ** Control tokens *)

Record HttpControlToken := mkControlToken { ct_role : Role; ct_secret : text }.

(** [raw.splitn(2, ':')]: the part before the first colon, and the rest if
    there is a colon. *)
Definition parse_role_token (raw : text) : result (Role * text) ConfigError :=
  let '(first, second) := match split_once 58 raw with Some (a, b) => (a, Some b) | None => (raw, None) end in
  role <-? ok_or (non_empty (Some first)) (Invalid (lit "security.http.control_tokens entries must start with <role>:<secret>"));;
  value <-? ok_or (non_empty second) (Invalid (lit "security.http.control_tokens entries must contain a secret reference"));;
  parsed_role <-? map_err (λ _, Invalid (lit "security.http.control_tokens must prefix role as admin|operator|viewer")) (Role.from_str role);;
  Ok (parsed_role, value).

Definition resolve_control_token (h : Host) (entry : text) : result HttpControlToken ConfigError :=
  rv <-? parse_role_token entry;;
  secret <-? resolve_secret h (snd rv) (lit "security.http.control_tokens");;
  _ <-? refuse (bool_decide (secret = [])) "security.http.control_tokens secrets must not be empty";;
  Ok (mkControlToken (fst rv) secret).

Fixpoint resolve_control_tokens (h : Host) (entries : list text) : result (list HttpControlToken) ConfigError :=
  match entries with
  | [] => Ok []
  | entry :: entries =>
      token <-? resolve_control_token h entry;;
      tokens <-? resolve_control_tokens h entries;;
      Ok (token :: tokens)
  end.

(** ** [config/validation.rs] *)

Definition validate_http_tls (c : HttpConfig) : result unit ConfigError :=
  let tls := http_tls c in
  if http_tls_enabled tls then
    cert <-? ok_or (non_empty (http_cert_path tls)) (Invalid (lit "server.http.tls.cert_path must be set when TLS is enabled"));;
    key <-? ok_or (non_empty (http_key_path tls)) (Invalid (lit "server.http.tls.key_path must be set when TLS is enabled"));;
    _ <-? refuse (bool_decide (cert = key)) "server.http.tls.cert_path and key_path must differ";;
    _ <-? refuse (bool_decide (http_cipher_suites tls = [])) "server.http.tls.cipher_suites must not be empty when TLS is enabled";;
    refuse (is_zero (http_reload_seconds tls)) "server.http.tls.reload_interval_seconds must be > 0"
  else Ok tt.

Definition validate_grpc_tls (c : GrpcConfig) : result unit ConfigError :=
  let tls := grpc_tls c in
  if grpc_tls_enabled tls then
    cert <-? ok_or (non_empty (grpc_cert_path tls)) (Invalid (lit "server.grpc.tls.cert_path must be set when TLS is enabled"));;
    key <-? ok_or (non_empty (grpc_key_path tls)) (Invalid (lit "server.grpc.tls.key_path must be set when TLS is enabled"));;
    _ <-? refuse (bool_decide (cert = key)) "server.grpc.tls.cert_path and key_path must differ";;
    _ <-? refuse (bool_decide (grpc_cipher_suites tls = [])) "server.grpc.tls.cipher_suites must not be empty when TLS is enabled";;
    _ <-? refuse (existsb blank (grpc_cipher_suites tls)) "server.grpc.tls.cipher_suites must not contain empty entries";;
    _ <-? refuse (blank_when_set (grpc_client_ca_path tls)) "server.grpc.tls.client_ca_path must not be empty when set";;
    refuse (is_zero (grpc_reload_seconds tls)) "server.grpc.tls.reload_interval_seconds must be > 0"
  else Ok tt.

Definition validate_ssh_tls (c : SshConfig) : result unit ConfigError :=
  _ <-? refuse (is_zero (host_key_reload_seconds (ssh_tls c))) "server.ssh.tls.host_key_reload_seconds must be > 0";;
  refuse (existsb blank (ssh_allowed_ciphers (ssh_tls c))) "server.ssh.tls.allowed_ciphers must not contain empty entries".

Definition is_prod_name (env : text) : bool := bool_decide (env ∈ lit <$> ["prod"; "production"]%string).

Definition validate_identity_tls (tls : IdentityExternalTlsSection) (env : text) : result unit ConfigError :=
  _ <-? refuse (blank_when_set (id_ca_cert_path tls)) "security.identity.external.tls.ca_cert_path must not be empty when set";;
  _ <-? match trim <$> id_client_cert_path tls, trim <$> id_client_key_path tls with
        | Some cert, Some key =>
            refuse (bool_decide (cert = []) || bool_decide (key = []))
              "security.identity.external.tls.client_cert_path and client_key_path must not be empty"
        | None, None => Ok tt
        | _, _ => Err (Invalid (lit "security.identity.external.tls.client_cert_path and client_key_path must be provided together"))
        end;;
  refuse (is_prod_name env && id_accept_invalid_certs tls)
    "security.identity.external.tls.accept_invalid_certs must be false in production".

Definition validate_module_registry_tls (c : ModuleRegistrySection) : result unit ConfigError :=
  let tls := registry_tls c in
  _ <-? refuse (blank_when_set (r_ca_cert_path tls)) "modules.registry.tls.ca_cert_path must not be empty";;
  match r_client_cert_path tls, r_client_key_path tls with
  | Some cert, Some key => refuse (blank cert || blank key) "modules.registry.tls.client_cert_path and client_key_path must not be empty"
  | None, None => Ok tt
  | _, _ => Err (Invalid (lit "modules.registry.tls.client_cert_path and client_key_path must be provided together"))
  end.

(** ** The checks of the sections ([config/model.rs]) *)

Definition kdf_validate (k : KdfConfig) : result unit ConfigError :=
  _ <-? refuse (blank (kdf_algorithm k)) "security.kdf.algorithm must not be empty";;
  _ <-? refuse (negb (bool_decide (to_ascii_lowercase (kdf_algorithm k) ∈ lit <$> ["argon2id"; "argon2"]%string)))
          "security.kdf.algorithm must be argon2id";;
  _ <-? refuse (kdf_version k =? 0) "security.kdf.version must be > 0";;
  _ <-? refuse (memory_mib k =? 0) "security.kdf.memory_mib must be > 0";;
  _ <-? refuse (iterations k =? 0) "security.kdf.iterations must be > 0";;
  _ <-? refuse (parallelism k =? 0) "security.kdf.parallelism must be > 0";;
  _ <-? refuse (salt_length k <? 12) "security.kdf.salt_length must be >= 12 bytes";;
  refuse (output_length k <? 16) "security.kdf.output_length must be >= 16 bytes".

Definition session_validate (s : SessionSection) : result unit ConfigError :=
  let lifetime := Sessions.lifetime_seconds s in
  let idle := Sessions.idle_timeout_seconds s in
  let cleanup := Sessions.cleanup_interval_seconds s in
  _ <-? refuse (lifetime =? 0) "security.session.lifetime_seconds must be > 0";;
  _ <-? refuse (idle =? 0) "security.session.idle_timeout_seconds must be > 0";;
  _ <-? refuse (lifetime <? idle) "security.session.idle_timeout_seconds must not exceed lifetime_seconds";;
  _ <-? refuse (cleanup =? 0) "security.session.cleanup_interval_seconds must be > 0";;
  refuse (lifetime <? cleanup) "security.session.cleanup_interval_seconds must not exceed lifetime_seconds".

Definition is_https (url : text) : bool := starts_with (lit "https://") (to_ascii_lowercase (trim url)).

Definition identity_external_validate (e : IdentityExternalSection) (env_lower : text) : result unit ConfigError :=
  base <-? ok_or (base_url e) (Invalid (lit "security.identity.external.base_url must be set for external provider"));;
  _ <-? refuse (blank base) "security.identity.external.base_url must not be empty";;
  _ <-? validate_identity_tls (id_tls e) env_lower;;
  _ <-? match jwks_url e with
        | Some jwks =>
            _ <-? refuse (blank jwks) "security.identity.external.jwks_url must not be empty when set";;
            refuse (is_prod_name env_lower && negb (is_https jwks)) "security.identity.external.jwks_url must use https:// in production"
        | None => Ok tt
        end;;
  _ <-? refuse (jwks_refresh_seconds e =? 0) "security.identity.external.jwks_refresh_seconds must be > 0";;
  _ <-? refuse (blank (external_audience e)) "security.identity.external.audience must not be empty";;
  if is_prod_name env_lower then
    _ <-? refuse (negb (is_https base)) "security.identity.external.base_url must use https:// in production";;
    refuse (bool_decide (non_empty (auth_token e) = None)) "security.identity.external.auth_token must be configured in production"
  else Ok tt.

Definition identity_validate (i : IdentitySection) : result unit ConfigError :=
  _ <-? refuse (blank (environment i)) "security.identity.environment must not be empty";;
  _ <-? refuse (blank (instance_id i)) "security.identity.instance_id must not be empty";;
  match provider i with
  | ProviderEmbedded =>
      _ <-? refuse (blank (store_path (id_embedded i))) "security.identity.embedded.store_path must not be empty";;
      refuse (blank (embedded_audience (id_embedded i))) "security.identity.embedded.audience must not be empty"
  | ProviderExternal => identity_external_validate (id_external i) (to_ascii_lowercase (trim (environment i)))
  end.

Definition SUPPORTED_CIPHERS : list text := lit <$> ["aes-gcm"; "aes256-gcm"; "aes_256_gcm"; "xchacha20-poly1305"]%string.
Definition security_validate (h : Host) (s : SecuritySection) : result unit ConfigError :=
  _ <-? refuse (bool_decide (sec_allowed_ciphers s = [])) "security.allowed_ciphers must contain at least one cipher";;
  _ <-? each (λ cipher, refuse (negb (bool_decide (to_ascii_lowercase (trim cipher) ∈ SUPPORTED_CIPHERS)))
                          "security.allowed_ciphers contains unsupported cipher") (sec_allowed_ciphers s);;
  _ <-? kdf_validate (kdf s);;
  _ <-? resolve_control_tokens h (control_tokens s);;
  _ <-? session_validate (session s);;
  identity_validate (identity s).

Definition logs_message (e : LogsConfigError) : text :=
  match e with
  | BadRetentionDays => lit "telemetry.logs.retention_days must be 1..=365"
  | BadMaxFileMb => lit "telemetry.logs.max_file_mb must be 1..=10240"
  | BadMaxArchives => lit "telemetry.logs.max_archives must be > 0"
  | BadCheckInterval => lit "telemetry.logs.check_interval_seconds must be 1..=3600"
  end.
Definition telemetry_validate (t : TelemetrySection) : result unit ConfigError :=
  _ <-? map_err (λ e, Invalid (logs_message e)) (logs_validate (logs t));;
  _ <-? refuse (blank (tracing_level t)) "telemetry.tracing.level must not be empty";;
  _ <-? refuse (blank_when_set (metrics_exporter t)) "telemetry.metrics.exporter must not be empty when set";;
  _ <-? refuse (is_zero (system_interval_ms t)) "telemetry.system.interval_ms must be > 0";;
  _ <-? refuse (is_zero (h_retention_days (history t))) "telemetry.history.retention_days must be > 0 when set";;
  _ <-? refuse (is_zero (h_retention_hours (history t))) "telemetry.history.retention_hours must be > 0 when set";;
  _ <-? refuse (is_zero (h_persist_interval_seconds (history t))) "telemetry.history.persist_interval_seconds must be > 0 when set";;
  refuse (is_zero (h_sample_interval_seconds (history t))) "telemetry.history.sample_interval_seconds must be > 0 when set".

Definition audit_storage_validate (s : AuditStorageSection) (on : bool) : result unit ConfigError :=
  _ <-? refuse (is_zero (a_retention_hours s)) "audit.storage.retention_hours must be > 0 when set";;
  _ <-? refuse (is_zero (a_retention_days s)) "audit.storage.retention_days must be > 0 when set";;
  _ <-? refuse (is_zero (a_persist_interval_seconds s)) "audit.storage.persist_interval_seconds must be > 0 when set";;
  match non_empty (a_path s) with
  | Some _ => Ok tt
  | None => refuse on "audit.storage.path must be set when audit.enabled=true"
  end.
Definition audit_validate (a : AuditSection) : result unit ConfigError :=
  _ <-? refuse (is_zero (a_buffer_capacity a)) "audit.buffer_capacity must be > 0";;
  audit_storage_validate (a_storage a) (audit_enabled a).

(** How long history and audit entries are kept; the product of the days is
    checked on 64 bits. *)
Definition u64_checked_mul (a b : Z) : option Z := if a * b <=? u64_max then Some (a * b) else None.
Definition history_retention_hours (s : TelemetryHistorySection) : option Z :=
  match h_retention_days s with Some days => u64_checked_mul days 24 | None => h_retention_hours s end.
Definition history_retention_seconds (s : TelemetryHistorySection) : option Z :=
  (λ hours, Z.min (hours * 3600) u64_max) <$> history_retention_hours s.
Definition audit_retention_hours (s : AuditStorageSection) : option Z :=
  match a_retention_days s with Some days => u64_checked_mul days 24 | None => a_retention_hours s end.

Definition registry_validate (h : Host) (r : ModuleRegistrySection) : result unit ConfigError :=
  _ <-? refuse (blank (registry_url r)) "modules.registry.url must not be empty";;
  token <-? resolve_optional_secret h (registry_auth_token r) "modules.registry.auth_token";;
  _ <-? refuse (match token with Some token => byte_len token <? 16 | None => false end)
          "modules.registry.auth_token must be at least 16 characters";;
  each (λ dir, refuse (blank dir) "modules.registry.offline_dirs must not contain empty paths") (offline_dirs r).

Definition storage_validate (s : ModuleStorageSection) : result unit ConfigError :=
  _ <-? refuse (blank (install_dir s)) "modules.storage.install_dir must not be empty";;
  refuse (blank_when_set (cache_dir s)) "modules.storage.cache_dir must not be empty when set".

Definition is_set {A} (o : option A) : bool := match o with Some _ => true | None => false end.
Definition clients_validate (c : ModuleRuntimeClientSection) : result unit ConfigError :=
  _ <-? refuse (cl_timeout_ms c =? 0) "modules.runtime.clients.timeout_ms must be > 0";;
  _ <-? refuse (cl_backoff_ms c =? 0) "modules.runtime.clients.backoff_ms must be > 0";;
  _ <-? refuse (health_probe_interval_seconds c =? 0) "modules.runtime.clients.health_probe_interval_seconds must be > 0";;
  refuse (xorb (is_set (r_client_cert_path (clients_tls c))) (is_set (r_client_key_path (clients_tls c))))
    "modules.runtime.clients.tls.client_cert_path and client_key_path must be set together".

Definition replacement_validate (r : ModuleRuntimeReplacementSection) : result unit ConfigError :=
  _ <-? refuse (default_max_surge r =? 0) "modules.runtime.rollout.replacement.default_max_surge must be > 0";;
  _ <-? refuse (default_warmup_timeout_ms r =? 0) "modules.runtime.rollout.replacement.default_warmup_timeout_ms must be > 0";;
  refuse (default_promotion_interval_ms r =? 0) "modules.runtime.rollout.replacement.default_promotion_interval_ms must be > 0".
Definition runtime_rollout_validate (r : ModuleRuntimeRolloutSection) : result unit ConfigError :=
  _ <-? refuse (watch_debounce_ms r =? 0) "modules.runtime.rollout.watch_debounce_ms must be > 0";;
  _ <-? refuse (health_check_timeout_ms r =? 0) "modules.runtime.rollout.health_check_timeout_ms must be > 0";;
  _ <-? refuse (health_poll_interval_ms r =? 0) "modules.runtime.rollout.health_poll_interval_ms must be > 0";;
  _ <-? refuse (health_check_timeout_ms r <? inter_restart_delay_ms r)
          "modules.runtime.rollout.inter_restart_delay_ms must be <= health_check_timeout_ms";;
  replacement_validate (replacement r).

Definition ports_message (e : Ports.ConfigError) : text :=
  match e with
  | PortZero => lit "modules.runtime.ports.range min/max must be > 0"
  | RangeEmpty => lit "modules.runtime.ports.range.min must be less than range.max"
  | RangeTooSmall => lit "modules.runtime.ports.range must span at least 10 ports"
  end.
Definition prefix_char (c : char) : bool := is_ascii_upper c || is_ascii_digit c || (c =? 95).
Definition prefix_validate (prefix : text) : result unit ConfigError :=
  let value := trim prefix in
  _ <-? refuse (bool_decide (value = [])) "modules.runtime.env_passthrough_prefixes must not contain empty values";;
  _ <-? refuse_msg (negb (bool_decide (last value = Some 95)))
          (lit "modules.runtime.env_passthrough_prefixes entry '" ++ value ++ lit "' must end with '_'");;
  refuse_msg (existsb (λ c, negb (prefix_char c)) value)
    (lit "modules.runtime.env_passthrough_prefixes entry '" ++ value ++ lit "' must contain only A-Z, 0-9 and '_'").
Definition runtime_validate (r : ModuleRuntimeSection) : result unit ConfigError :=
  _ <-? map_err (λ e, Invalid (ports_message e)) (Ports.validate (port_strategy r) (rt_port_range r));;
  _ <-? clients_validate (clients r);;
  _ <-? runtime_rollout_validate (rt_rollout r);;
  each prefix_validate (env_passthrough_prefixes r).

Definition env_key_validate (path key : text) : result unit ConfigError :=
  let trimmed := trim key in
  _ <-? refuse_msg (bool_decide (trimmed = [])) (path ++ lit " env keys must not be empty");;
  refuse_msg (existsb is_whitespace trimmed) (path ++ lit " env key '" ++ trimmed ++ lit "' must not contain whitespace").
Definition validate_env_key_set (path : text) (env secrets : list (text * text)) : result unit ConfigError :=
  each (env_key_validate path) (env.*1 ++ secrets.*1).

Definition tenant_validate (path : text) (t : ModuleServiceTenantConfig) : result unit ConfigError :=
  match tenant_mode t with
  | TenantAny => Ok tt
  | TenantFixed =>
      value <-? ok_or (non_empty (tenant_value t)) (InvalidMessage (path ++ lit ".value must be set for mode=fixed"));;
      refuse_msg (existsb is_whitespace value) (path ++ lit ".value must not contain whitespace")
  | TenantAllowList =>
      _ <-? refuse_msg (bool_decide (tenant_allow t = [])) (path ++ lit ".allow must list at least one tenant for mode=allow_list");;
      refuse_msg (existsb (λ v, blank v || existsb is_whitespace v) (tenant_allow t))
        (path ++ lit ".allow entries must be non-empty and without whitespace")
  end.
Definition tenant_when_set (path : text) (t : option ModuleServiceTenantConfig) : result unit ConfigError :=
  match t with Some t => tenant_validate path t | None => Ok tt end.

Definition pool_validate (s : DbConnectionSettings) : result unit ConfigError :=
  _ <-? refuse (is_zero (pool_max (db_pool s))) "db pool max must be greater than zero";;
  refuse (is_zero (pool_timeout_ms (db_pool s))) "db pool timeout must be greater than zero".

Definition resolve_uri (h : Host) (s : DbConnectionSettings) (key : text) : result text ConfigError :=
  let raw := trim (db_uri s) in
  if bool_decide (raw = []) then Err (Invalid (lit "database uri must not be empty"))
  else match strip_prefix (lit "env:") raw with
       | Some env =>
           match host_var h (trim env) with
           | Some value =>
               if blank value then Err (Invalid (lit "database uri environment variable must not be empty")) else Ok value
           | None => Err (MissingEnv key (trim env))
           end
       | None => Ok raw
       end.

Definition pg_ports_validate (r : DbEmbeddedPortRange) : result unit ConfigError :=
  _ <-? refuse ((pg_min r =? 0) || (pg_max r =? 0)) "db.runtime.embedded.postgres.port_range min/max must be > 0";;
  refuse (pg_max r <? pg_min r) "db.runtime.embedded.postgres.port_range.min must be <= max".
Definition postgres_validate (p : DbEmbeddedPostgres) : result unit ConfigError :=
  _ <-? refuse (blank (data_dir p)) "db.runtime.embedded.postgres.data_dir must not be empty";;
  _ <-? refuse (blank (binary_path p)) "db.runtime.embedded.postgres.binary_path must not be empty";;
  pg_ports_validate (port_range p).
Definition sqlite_validate (s : DbEmbeddedSqlite) : result unit ConfigError :=
  _ <-? refuse (blank (file_path s)) "db.runtime.embedded.sqlite.file_path must not be empty";;
  refuse (is_zero (vacuum_interval_seconds s)) "db.runtime.embedded.sqlite.vacuum_interval_seconds must be > 0 when set".
Definition embedded_validate (e : DbEmbeddedSection) (engine : text) : result unit ConfigError :=
  _ <-? refuse (negb (bool_decide (engine = engine_str (db_engine e))))
          "db.runtime.embedded.engine must match db.default_engine when mode = embedded";;
  match db_engine e with Sqlite => sqlite_validate (sqlite e) | Postgres => postgres_validate (postgres e) end.
Definition db_runtime_validate (r : DbRuntimeSection) (engine : text) : result unit ConfigError :=
  match db_mode r with External => Ok tt | Embedded => embedded_validate (db_embedded r) engine end.

Definition trust_validate (t : ModuleTrustSection) : result unit ConfigError :=
  if require_signature t then
    _ <-? ok_or (non_empty (keyring_path t)) (Invalid (lit "modules.trust.keyring_path must be provided when signatures are required"));;
    _ <-? refuse (bool_decide (cfg_allowed_signers t = []))
            "modules.trust.allowed_signers must list at least one signer when signatures are required";;
    refuse (existsb blank (cfg_allowed_signers t)) "modules.trust.allowed_signers must not contain empty entries"
  else Ok tt.

(** ** Hosts and addresses *)

Definition is_loopback (ip : IpAddr) : bool := match ip with V4 b => Z.shiftr b 24 =? 127 | V6 b => b =? 1 end.
Definition trim_end_matches (p : char -> bool) (s : text) : text := rev (drop_while p (rev s)).

Definition is_loopback_host (host : text) : bool :=
  let host := trim_end_matches (λ c, c =? 93) (drop_while (λ c, c =? 91) (trim host)) in
  eq_ignore_ascii_case host (lit "localhost")
  || match parse_ip host with Some ip => is_loopback (to_canonical ip) | None => false end.

Definition is_plain_remote_url (url : text) : bool :=
  match strip_prefix (lit "http://") (trim url) with
  | None => false
  | Some rest =>
      let authority := default [] (head (split 47 rest)) in
      let host := match rsplit_once 64 authority with Some (_, host) => host | None => authority end in
      let host := if starts_with (lit "[") host then match head (split 93 host) with Some inner => drop 1 inner | None => host end
                  else default host (head (split 58 host)) in
      negb (is_loopback_host host)
  end.

(** ** Services, and the whole configuration *)

Section Config.
Context {FL : Floats}.

Record ModuleServiceOverride := mkServiceOverride {
  so_profile : option text; so_replicas : option Z; so_rollout : ModuleServiceRolloutConfig; so_env : list (text * text);
  so_secrets : list (text * text); so_policy : ModuleServicePolicyOverride;
}.
Record ModuleServiceProfile := mkServiceProfile {
  sp_replicas : option Z; sp_rollout : ModuleServiceRolloutConfig; sp_env : list (text * text); sp_secrets : list (text * text);
  sp_internal_only : option bool; sp_allowed_roles : list text; sp_required_scopes : list text;
  sp_tenant : option ModuleServiceTenantConfig; sp_ingress_access : option text; rate_limit_per_second : option Z;
  disable_rate_limit : bool;
}.
Record ModulesSection := mkModules {
  registry : ModuleRegistrySection; storage : ModuleStorageSection; runtime : ModuleRuntimeSection; bootstrap : list text;
  trust : ModuleTrustSection; dev_base_path : option text; services : list (text * ModuleServiceOverride);
  service_profiles : list (text * ModuleServiceProfile);
}.
Record AppSection := mkApp { app_name : text; app_version : text; distribution : option text; app_profile : option text; debug : bool }.
Record AppConfig := mkConfig {
  app_section : AppSection; server : ServerSection; security : SecuritySection; db : DbSection; telemetry : TelemetrySection;
  audit : AuditSection; prompt_theme : text; modules : ModulesSection; runtime_dirs : RuntimeSection; mode : OperatingMode;
}.

Definition rollout_message (path : text) (r : ModuleServiceRolloutConfig) (e : RolloutError) : text :=
  path ++ lit ".rollout." ++
  match e with
  | SurgeZero => lit "max_surge must be > 0"
  | WarmupZero => lit "warmup_timeout_ms must be > 0"
  | DrainZero => lit "drain_timeout_ms must be > 0"
  | IntervalZero => lit "promotion_interval_ms must be > 0"
  | StepRange => lit "traffic_steps entries must be between 1 and 100"
  | StepOrder => lit "traffic_steps must be monotonic ascending"
  | StepEnd => lit "traffic_steps must end with 100"
  | RateRange =>
      lit "success_criteria." ++
      (if out_of_range (max_error_rate_percent (success_criteria r)) then lit "max_error_rate_percent" else lit "max_retry_rate_percent")
      ++ lit " must be between 0 and 100"
  | LatencyZero => lit "success_criteria.max_p95_latency_ms must be > 0"
  end.
Definition rollout_validate (path : text) (r : ModuleServiceRolloutConfig) : result unit ConfigError :=
  map_err (λ e, InvalidMessage (rollout_message path r e)) (Rollout.validate r).

Definition profile_validate (name : text) (p : ModuleServiceProfile) : result unit ConfigError :=
  let path := lit "modules.service_profiles." ++ name in
  _ <-? validate_env_key_set path (sp_env p) (sp_secrets p);;
  _ <-? rollout_validate path (sp_rollout p);;
  _ <-? tenant_when_set (path ++ lit ".tenant") (sp_tenant p);;
  _ <-? refuse_msg (disable_rate_limit p && is_set (rate_limit_per_second p))
          (path ++ lit " cannot set both disable_rate_limit and rate_limit_per_second");;
  refuse_msg (is_zero (rate_limit_per_second p)) (path ++ lit ".rate_limit_per_second must be > 0").

Definition override_validate (profiles : list (text * ModuleServiceProfile)) (service_id : text) (o : ModuleServiceOverride)
    : result unit ConfigError :=
  let path := lit "modules.services." ++ service_id in
  _ <-? refuse (blank service_id) "modules.services keys must not be empty";;
  _ <-? match non_empty (so_profile o) with
        | Some name =>
            refuse_msg (negb (bool_decide (name ∈ profiles.*1)))
              (path ++ lit ".profile references unknown service profile '" ++ name ++ lit "'")
        | None => Ok tt
        end;;
  _ <-? validate_env_key_set path (so_env o) (so_secrets o);;
  _ <-? rollout_validate path (so_rollout o);;
  tenant_when_set (path ++ lit ".policy.tenant") (po_tenant (so_policy o)).

Definition validate_services (m : ModulesSection) : result unit ConfigError :=
  _ <-? each (λ np, profile_validate np.1 np.2) (service_profiles m);;
  each (λ so, override_validate (service_profiles m) so.1 so.2) (services m).

(** ** What a production host refuses ([config/mode.rs]) *)

Definition PRODUCTION_MIN_CONTROL_TOKEN_LEN : Z := 32.
Definition PRODUCTION_MIN_PASSWORD_LEN : Z := 12.

Definition flag_text (active : bool) (message : text) : list text := if active then [message] else [].
Definition flag (active : bool) (message : string) : list text := flag_text active (lit message).

Definition token_violations (h : Host) (entry : text) : list text :=
  let reference := match split_once 58 entry with Some (_, value) => trim value | None => [] end in
  match strip_prefix (lit "env:") reference with
  | None => flag true "security.http.control_tokens contains an inline token (use env:VAR)"
  | Some var =>
      let len := match host_var h (trim var) with Some value => byte_len (trim value) | None => 0 end in
      flag ((0 <? len) && (len <? PRODUCTION_MIN_CONTROL_TOKEN_LEN)) "security.http.control_tokens holds a token shorter than 32 characters"
  end.

Definition is_external (k : IdentityProviderKind) : bool := match k with ProviderExternal => true | ProviderEmbedded => false end.
Definition is_trust (m : DbAuthMethod) : bool := match m with Trust => true | ScramSha256 => false end.

Definition production_violations (h : Host) (cfg : AppConfig) : list text :=
  let id := identity (security cfg) in
  let policy := password_policy (security cfg) in
  flag (r_accept_invalid_certs (registry_tls (registry (modules cfg)))) "modules.registry.tls.accept_invalid_certs = true"
  ++ flag (r_accept_invalid_certs (clients_tls (clients (runtime (modules cfg))))) "modules.runtime.clients.tls.accept_invalid_certs = true"
  ++ flag (id_accept_invalid_certs (id_tls (id_external id))) "security.identity.external.tls.accept_invalid_certs = true"
  ++ flag (match dev_base_path (modules cfg) with Some path => negb (blank path) | None => false end)
       "modules.dev_sources.base_path (or FENRIR_DEV_MODULE_PATH) is set: dev module sources"
  ++ flag (negb (is_prod_name (to_ascii_lowercase (trim (environment id))))) "security.identity.environment is not prod"
  ++ flag (is_external (provider id) && match base_url (id_external id) with Some url => negb (is_https url) | None => false end)
       "security.identity.external.base_url is not https://"
  ++ flag (min_length policy <? PRODUCTION_MIN_PASSWORD_LEN) "security.password_policy.min_length is below 12"
  ++ flag (negb (check_common_passwords policy)) "security.password_policy.check_common_passwords = false"
  ++ concat (token_violations h <$> control_tokens (security cfg))
  ++ flag_text (bool_decide (db_mode (db_runtime (db cfg)) = Embedded) && is_trust (auth_method (db_security (db_embedded (db_runtime (db cfg))))))
       (lit "db.runtime.embedded.security.auth_method = " ++ [34] ++ lit "trust" ++ [34])
  ++ flag (enable_http (server cfg) && negb (http_tls_enabled (http_tls (http (server cfg)))) && negb (is_loopback_host (http_host (http (server cfg)))))
       "server.http listens beyond loopback without TLS"
  ++ flag (enable_grpc (server cfg)
           && match grpc (server cfg) with
              | Some g => negb (grpc_tls_enabled (grpc_tls g)) && negb (is_loopback_host (grpc_host g))
              | None => false
              end)
       "server.grpc listens beyond loopback without TLS"
  ++ flag (negb (is_loopback_host (ssh_host (ssh (server cfg))))) "server.ssh listens beyond loopback"
  ++ flag (is_plain_remote_url (registry_url (registry (modules cfg)))) "modules.registry.url is plain http:// to a remote host".

Definition is_production (m : OperatingMode) : bool := match m with Production => true | Development => false end.

Definition ENV_OPERATING_MODE : text := lit "FENRIR_ENV".
Definition validate_mode (h : Host) (cfg : AppConfig) : result unit ConfigError :=
  if negb (is_production (mode cfg)) then Ok tt
  else match production_violations h cfg with
       | [] => Ok tt
       | violations =>
           Err (InvalidMessage (ENV_OPERATING_MODE ++ lit " is production (it is unset or not one of dev|development|local|test), but dev-only settings are active: "
                                ++ join (lit "; ") violations ++ lit ". Fix them in the production profile, or set " ++ ENV_OPERATING_MODE
                                ++ lit "=dev on a development machine"))
       end.

(** ** [validate] *)

Inductive Failure := Refused (e : ConfigError) | Unreachable.

Definition ENGINES : list text := lit <$> ["postgres"; "mysql"; "sqlite"; "mongodb"]%string.

Definition engine_settings (h : Host) (m : DbRuntimeMode) (settings : option DbConnectionSettings) (engine : text)
    : result (option DbConnectionSettings) ConfigError :=
  let key := lit "db.connections." ++ engine ++ lit ".uri" in
  match m, settings with
  | External, None => Err (Invalid (key ++ lit " must be set when " ++ engine ++ lit " is default"))
  | Embedded, None => Ok None
  | _, Some s => _ <-? resolve_uri h s key;; Ok (Some s)
  end.

Definition default_settings (h : Host) (d : DbSection) : result (option DbConnectionSettings) Failure :=
  let m := db_mode (db_runtime d) in
  let e := default_engine d in
  let c := connections d in
  if bool_decide (e = lit "postgres") then map_err Refused (engine_settings h m (c_postgres c) e)
  else if bool_decide (e = lit "mysql") then map_err Refused (engine_settings h m (c_mysql c) e)
  else if bool_decide (e = lit "sqlite") then map_err Refused (engine_settings h m (c_sqlite c) e)
  else if bool_decide (e = lit "mongodb") then map_err Refused (engine_settings h m (c_mongodb c) e)
  else Err Unreachable.

Definition edge_error (e : Edge.ConfigError) : ConfigError :=
  match e with Edge.InvalidMessage m => InvalidMessage m | Edge.Invalid m => Invalid m end.

(** The checks before the database's connection is looked up. *)
Definition validate_sections (h : Host) (cfg : AppConfig) : result unit ConfigError :=
  _ <-? validate_mode h cfg;;
  _ <-? map_err edge_error (Edge.policy (edge (server cfg)));;
  _ <-? security_validate h (security cfg);;
  _ <-? telemetry_validate (telemetry cfg);;
  _ <-? registry_validate h (registry (modules cfg));;
  _ <-? storage_validate (storage (modules cfg));;
  _ <-? runtime_validate (runtime (modules cfg));;
  _ <-? validate_services (modules cfg);;
  _ <-? audit_validate (audit cfg);;
  _ <-? db_runtime_validate (db_runtime (db cfg)) (default_engine (db cfg));;
  refuse (negb (bool_decide (default_engine (db cfg) ∈ ENGINES))) "db.default_engine must be one of postgres|mysql|sqlite|mongodb".

Definition grpc_validate (on : bool) (g : option GrpcConfig) : result unit ConfigError :=
  match g with
  | Some g =>
      _ <-? refuse (blank (grpc_host g)) "server.grpc.host must not be empty";;
      _ <-? refuse (grpc_port g =? 0) "server.grpc.port must be > 0";;
      validate_grpc_tls g
  | None => refuse on "server.grpc must be configured when server.enable_grpc=true"
  end.

(** The checks after it. *)
Definition validate_server (cfg : AppConfig) : result unit ConfigError :=
  let s := server cfg in
  _ <-? refuse ((http_port (http s) =? 0) || (ssh_port (ssh s) =? 0)) "server ports must be > 0";;
  _ <-? refuse (blank (http_host (http s))) "server.http.host must not be empty";;
  _ <-? grpc_validate (enable_grpc s) (grpc s);;
  _ <-? refuse (exp_seconds (jwt (security cfg)) =? 0) "security.jwt.exp_seconds must be > 0";;
  _ <-? refuse (is_zero (idle_close_seconds (ssh s))) "server.ssh.idle_close_seconds must be > 0 if set";;
  _ <-? refuse (blank (host_key_path (ssh s))) "server.ssh.host_key_path must not be empty";;
  _ <-? refuse (blank (export_dir (db_schema (db cfg)))) "db.schema.export_dir must not be empty";;
  _ <-? refuse (blank (import_dir (db_schema (db cfg)))) "db.schema.import_dir must not be empty";;
  _ <-? validate_http_tls (http s);;
  _ <-? validate_ssh_tls (ssh s);;
  _ <-? validate_module_registry_tls (registry (modules cfg));;
  trust_validate (trust (modules cfg)).

Definition validate (h : Host) (cfg : AppConfig) : result unit Failure :=
  _ <-? map_err Refused (validate_sections h cfg);;
  settings <-? default_settings h (db cfg);;
  _ <-? map_err Refused (match settings with Some s => pool_validate s | None => Ok tt end);;
  map_err Refused (validate_server cfg).
End Config.
