(* ===== verification/ConfigLoad.v ===== *)
(** * Loading the configuration ([config/loading.rs])

    The environment files ([bin/.fenrir-profile], [secrets/.env] or the file
    [FENRIR_ENV_FILE] names), the choice of the profile, the files the
    configuration is built from and their order, the overrides by single
    variables, and [load], which ends with [validate].

    The files are bytes, and errors carry no reason of the operating system;
    merging the sources and reading the configuration
    from them is the [config] crate ([ConfigLibs]). *)

From S2P Require Import Prelude Text Roles Edge Rollout ModuleEnv ConfigCheck.

#[local] Open Scope fenrir_scope.

(** ** Environment files *)

(** [BufRead::lines]: the pieces between line feeds without a final carriage
    return, [None] where a line is not UTF-8; nothing follows a final line
    feed. *)
Definition strip_cr (bs : list Z) : list Z := match strip_suffix [13] bs with Some r => r | None => bs end.
Definition raw_lines (bs : list Z) : list (list Z) :=
  match last (split 10 bs) with Some [] => removelast (split 10 bs) | _ => split 10 bs end.
Definition lines (bs : list Z) : list (option text) := (λ l, from_utf8 (strip_cr l)) <$> raw_lines bs.

Inductive Assignment := NoAssignment | Assign (key value : text) | MissingEquals | EmptyName.

(** [value.as_bytes().first() == .last()], a quote character: the quotes are
    single bytes, so the first and last characters decide. *)
Definition unquote (value : text) : text :=
  if (2 <=? byte_len value) && bool_decide (head value = last value)
     && bool_decide (head value = Some 34 \/ head value = Some 39)
  then removelast (tail value) else value.

Definition parse_env_assignment (raw : text) : Assignment :=
  if bool_decide (raw = []) || starts_with (lit "#") raw then NoAssignment
  else
    let trimmed := match strip_prefix (lit "export ") raw with Some stripped => trim stripped | None => raw end in
    match split_once 61 trimmed with
    | None => MissingEquals
    | Some (key_part, value_part) =>
        let key := trim key_part in
        if bool_decide (key = []) then EmptyName else Assign key (unquote (trim value_part))
    end.

(** [env::set_var] panics on a NUL character (and on an empty name or one
    with an equals sign). *)
Inductive LoadError := Config (e : ConfigError) | Panicked | AtUnreachable.

Definition env_get (env : Env) (k : text) : option text := snd <$> find (λ kv, bool_decide (kv.1 = k)) env.
Definition set_var (env : Env) (k v : text) : result Env LoadError :=
  if bool_decide (k = []) || bool_decide (61 ∈ k) || bool_decide (0 ∈ k) || bool_decide (0 ∈ v) then Err Panicked
  else Ok (replace_env env k v).

Definition line_error (path : text) (line : nat) (what : string) : LoadError :=
  Config (InvalidMessage (lit "env file " ++ path ++ lit " line " ++ lit (pretty.pretty (N.of_nat line)) ++ lit what)).

(** The environment is returned with an error too: the lines before it stay set. *)
Fixpoint load_lines (path : text) (n : nat) (ls : list (option text)) (env : Env) : Env * result unit LoadError :=
  match ls with
  | [] => (env, Ok tt)
  | None :: _ => (env, Err (Config (InvalidMessage (lit "failed to read env file " ++ path ++ lit " line " ++ lit (pretty.pretty (N.of_nat n))))))
  | Some line :: ls =>
      match parse_env_assignment (trim line) with
      | NoAssignment => load_lines path (S n) ls env
      | MissingEquals => (env, Err (line_error path n " is missing '='"))
      | EmptyName => (env, Err (line_error path n " has empty variable name"))
      | Assign key value =>
          match env_get env key with
          | Some _ => load_lines path (S n) ls env
          | None =>
              match set_var env key value with
              | Ok env => load_lines path (S n) ls env
              | Err e => (env, Err e)
              end
          end
      end
  end.

(** The files of the host: their contents, [None] where [open] fails, and
    whether a path exists. *)
Record Files := mkFiles { f_exists : text -> bool; f_open : text -> option (list Z) }.

Definition load_env_file (fs : Files) (path : text) (env : Env) : Env * result unit LoadError :=
  match f_open fs path with
  | None => (env, Err (Config (InvalidMessage (lit "failed to open env file " ++ path))))
  | Some bytes => load_lines path 1 (lines bytes) env
  end.

Definition ENV_CONFIG_FILE : text := lit "FENRIR_CONFIG_FILE".
Definition ENV_CONFIG_ENV : text := lit "FENRIR_CONFIG_ENV".
Definition ENV_ENV : text := ENV_OPERATING_MODE.
Definition ENV_FILE : text := lit "secrets/.env".
Definition ENV_FILE_OVERRIDE : text := lit "FENRIR_ENV_FILE".
Definition LOCAL_OVERRIDE_FILE : text := lit "config/local.toml".
Definition PROFILE_FILE : text := lit "bin/.fenrir-profile".
Definition ENV_EDGE_CLIENT_IP_HEADER : text := lit "FENRIR_SERVER__EDGE__CLIENT_IP_HEADER".
Definition ENV_EDGE_TRUSTED_PROXIES : text := lit "FENRIR_SERVER__EDGE__TRUSTED_PROXIES".

Definition load_env_file_overrides (fs : Files) (env : Env) : Env * result unit LoadError :=
  let '(env, r) := if f_exists fs PROFILE_FILE then load_env_file fs PROFILE_FILE env else (env, Ok tt) in
  match r with
  | Err e => (env, Err e)
  | Ok _ =>
      let override_path := match env_get env ENV_FILE_OVERRIDE with Some v => if blank v then None else Some v | None => None end in
      let candidate := default ENV_FILE override_path in
      if negb (f_exists fs candidate) then
        match override_path with Some _ => (env, Err (Config (MissingConfigFile candidate))) | None => (env, Ok tt) end
      else load_env_file fs candidate env
  end.

(** ** The profile and the files *)

Definition profile_char (c : char) : bool := is_ascii_alphanumeric c || (c =? 45) || (c =? 95).
Definition sanitize_profile (raw : text) : result text ConfigError :=
  let lower := to_ascii_lowercase (trim raw) in
  if forallb profile_char lower then Ok lower else Err (InvalidProfile raw).

Fixpoint detect_profile_in (env : Env) (keys : list text) : result (option text) ConfigError :=
  match keys with
  | [] => Ok None
  | key :: keys =>
      match env_get env key with
      | None => detect_profile_in env keys
      | Some value =>
          let trimmed := trim value in
          if bool_decide (trimmed = []) then detect_profile_in env keys
          else
            profile <-? sanitize_profile trimmed;;
            Ok (Some (if bool_decide (key = ENV_ENV /\ profile = lit "production") then lit "prod"
                      else if bool_decide (key = ENV_ENV /\ profile = lit "development") then lit "dev" else profile))
      end
  end.
Definition detect_config_profile (env : Env) : result (option text) ConfigError := detect_profile_in env [ENV_CONFIG_ENV; ENV_ENV].

Definition explicit_config_path (fs : Files) (env : Env) : result (option text) ConfigError :=
  match env_get env ENV_CONFIG_FILE with
  | Some value =>
      let path := trim value in
      if bool_decide (path = []) then Err (Invalid (lit "FENRIR_CONFIG_FILE must not be empty when set"))
      else if negb (f_exists fs path) then Err (MissingConfigFile path)
      else Ok (Some path)
  | None => Ok None
  end.

Definition local_override_path (fs : Files) : option text := if f_exists fs LOCAL_OVERRIDE_FILE then Some LOCAL_OVERRIDE_FILE else None.
Definition profile_path (profile : text) : text := lit "config/" ++ profile ++ lit ".toml".

(** The files [load] gives the builder, in order: a later one overrides. *)
Definition sources (fs : Files) (env : Env) (m : OperatingMode) : result (list text) ConfigError :=
  profile <-? detect_config_profile env;;
  profile_files <-? match profile with
                    | Some profile => if f_exists fs (profile_path profile) then Ok [profile_path profile]
                                      else Err (MissingConfigFile (profile_path profile))
                    | None => Ok []
                    end;;
  let local_files := if is_production m then [] else match local_override_path fs with Some p => [p] | None => [] end in
  explicit <-? explicit_config_path fs env;;
  Ok ([lit "config/default.toml"] ++ profile_files ++ local_files ++ match explicit with Some p => [p] | None => [] end).

(** ** Overrides, and [load] *)

Section Load.
Context {FL : Floats}.

(** Building and deserializing the configuration from files and variables. *)
Class ConfigLibs := { build_config : list text -> Env -> result AppConfig text }.

(** Only ASCII letters have the lower-case forms compared with. *)
Definition debug_on (value : text) : bool := bool_decide (to_ascii_lowercase value ∈ lit <$> ["true"; "1"; "yes"]%string).

Definition set_text (env : Env) (name : string) (cfg : AppConfig) (f : text -> AppConfig) : AppConfig :=
  match env_get env (lit name) with Some value => if blank value then cfg else f value | None => cfg end.

Definition with_app (cfg : AppConfig) (a : AppSection) : AppConfig :=
  mkConfig a (server cfg) (security cfg) (db cfg) (telemetry cfg) (audit cfg) (prompt_theme cfg) (modules cfg) (runtime_dirs cfg) (mode cfg).
Definition with_server (cfg : AppConfig) (s : ServerSection) : AppConfig :=
  mkConfig (app_section cfg) s (security cfg) (db cfg) (telemetry cfg) (audit cfg) (prompt_theme cfg) (modules cfg) (runtime_dirs cfg) (mode cfg).
Definition with_modules (cfg : AppConfig) (m : ModulesSection) : AppConfig :=
  mkConfig (app_section cfg) (server cfg) (security cfg) (db cfg) (telemetry cfg) (audit cfg) (prompt_theme cfg) m (runtime_dirs cfg) (mode cfg).
Definition with_mode (cfg : AppConfig) (m : OperatingMode) : AppConfig :=
  mkConfig (app_section cfg) (server cfg) (security cfg) (db cfg) (telemetry cfg) (audit cfg) (prompt_theme cfg) (modules cfg) (runtime_dirs cfg) m.
Definition with_edge (cfg : AppConfig) (e : Edge.EdgeSection) : AppConfig :=
  let s := server cfg in with_server cfg (mkServer (enable_http s) (enable_grpc s) (ssh s) (http s) (grpc s) e).

Definition set_distribution (cfg : AppConfig) (v : text) : AppConfig :=
  let a := app_section cfg in with_app cfg (mkApp (app_name a) (app_version a) (Some v) (app_profile a) (debug a)).
Definition set_profile (cfg : AppConfig) (v : text) : AppConfig :=
  let a := app_section cfg in with_app cfg (mkApp (app_name a) (app_version a) (distribution a) (Some v) (debug a)).
Definition set_debug (cfg : AppConfig) (b : bool) : AppConfig :=
  let a := app_section cfg in with_app cfg (mkApp (app_name a) (app_version a) (distribution a) (app_profile a) b).
Definition set_user (cfg : AppConfig) (v : text) : AppConfig :=
  let s := server cfg in let c := ssh s in
  with_server cfg (mkServer (enable_http s) (enable_grpc s)
    (mkSsh (ssh_host c) (ssh_port c) v (ssh_server_name c) (host_key_path c) (idle_close_seconds c) (ssh_tls c)) (http s) (grpc s) (edge s)).
Definition set_dev_path (cfg : AppConfig) (v : text) : AppConfig :=
  let m := modules cfg in
  with_modules cfg (mkModules (registry m) (storage m) (runtime m) (bootstrap m) (trust m) (Some v) (services m) (service_profiles m)).
Definition set_install_dir (cfg : AppConfig) (v : text) : AppConfig :=
  let m := modules cfg in
  with_modules cfg (mkModules (registry m) (mkModuleStorage v (cache_dir (storage m))) (runtime m) (bootstrap m) (trust m)
    (dev_base_path m) (services m) (service_profiles m)).

Definition apply_profile_overrides (env : Env) (cfg : AppConfig) : AppConfig :=
  let cfg := set_text env "FENRIR_DISTRIBUTION" cfg (set_distribution cfg) in
  let cfg := set_text env "FENRIR_PROFILE" cfg (set_profile cfg) in
  let cfg := match env_get env (lit "FENRIR_DEBUG") with Some value => set_debug cfg (debug_on value) | None => cfg end in
  let cfg := set_text env "FENRIR_USER" cfg (set_user cfg) in
  let cfg := set_text env "FENRIR_DEV_MODULE_PATH" cfg (set_dev_path cfg) in
  let cfg := set_text env "FENRIR_MODULE_INSTALL_DIR" cfg (set_install_dir cfg) in
  let cfg := match env_get env ENV_EDGE_CLIENT_IP_HEADER with
             | Some value => with_edge cfg (Edge.mkEdge (non_empty (Some value)) (Edge.trusted_proxies (edge (server cfg))))
             | None => cfg
             end in
  match env_get env ENV_EDGE_TRUSTED_PROXIES with
  | Some value => with_edge cfg (Edge.mkEdge (Edge.client_ip_header (edge (server cfg))) (Edge.split_list value))
  | None => cfg
  end.

Definition failure_error (f : Failure) : LoadError := match f with Refused e => Config e | Unreachable => AtUnreachable end.

(** [read] is [std::fs::read_to_string], for the secrets in files. *)
Definition load `{!ConfigLibs} (fs : Files) (read : text -> result text text) (env : Env) : Env * result AppConfig LoadError :=
  match load_env_file_overrides fs env with
  | (env, Err e) => (env, Err e)
  | (env, Ok _) =>
      let m := from_env_value (env_get env ENV_ENV) in
      (env,
       files <-? map_err Config (sources fs env m);;
       cfg <-? map_err (λ e, Config (Anyhow e)) (build_config files env);;
       let cfg := with_mode (apply_profile_overrides env cfg) m in
       _ <-? map_err failure_error (validate (mkHost env read) cfg);;
       Ok cfg)
  end.
End Load.
