(* ===== verification/ConfigSafety.v ===== *)
(** * What an accepted configuration guarantees

    Theorems on [ConfigCheck] and [ConfigLoad]: a production host that
    starts has no dev-only setting, [validate] never reaches its
    [unreachable!()], environment files never replace a variable that is
    set and read back what was written, the two resolvers of secrets agree,
    and the limits of the checks. *)

From S2P Require Import Prelude Text Ip Roles ServiceTokens Sessions Edge Rollout Ports LogRetention Verifier Backup ModuleEnv ConfigCheck ConfigLoad.

#[local] Open Scope fenrir_scope.

(** ** Inversion of checks *)

Lemma refuse_ok b m u : refuse b m = Ok u -> b = false.
Proof. by destruct b. Qed.
Lemma refuse_msg_ok b m u : refuse_msg b m = Ok u -> b = false.
Proof. by destruct b. Qed.
Lemma map_err_ok {A E F} (f : E -> F) (r : result A E) a : map_err f r = Ok a -> r = Ok a.
Proof. by destruct r; simpl; intros [= ->]. Qed.
Lemma ok_or_ok {A E} (o : option A) (e : E) a : ok_or o e = Ok a -> o = Some a.
Proof. by destruct o; simpl; intros [= ->]. Qed.
Lemma each_ok {A} (f : A -> result unit ConfigError) l u : each f l = Ok u -> Forall (λ x, f x = Ok tt) l.
Proof.
  induction l as [|x l IH]; cbn [each]; intros H; [constructor|]. apply result_bind_ok_inv in H as ([] & Hx & H). constructor; [done|by apply IH].
Qed.

(** Takes a chain of checks apart: one hypothesis for each. *)
Ltac checks H :=
  repeat match type of H with
  | result_bind _ _ = Ok _ =>
      let u := fresh "u" in let C := fresh "C" in apply result_bind_ok_inv in H as (u & C & H); checks C
  end;
  try match type of H with
  | refuse _ _ = Ok _ => apply refuse_ok in H
  | refuse_msg _ _ = Ok _ => apply refuse_msg_ok in H
  | map_err _ _ = Ok _ => apply map_err_ok in H; checks H
  | ok_or _ _ = Ok _ => apply ok_or_ok in H
  | each _ _ = Ok _ => apply each_ok in H
  end.

(** ** Loopback hosts and registry addresses *)

Lemma is_loopback_v4 b : 0 <= b < 2 ^ 32 -> is_loopback (V4 b) = true <-> 127 * 2 ^ 24 <= b < 128 * 2 ^ 24.
Proof. intros Hb. cbn. rewrite Z.eqb_eq, Z.shiftr_div_pow2 by lia. Z.to_euclidean_division_equations. lia. Qed.

Lemma trim_end_matches_id p s : Forall (λ c, p c = false) s -> trim_end_matches p s = s.
Proof.
  intros Hf. unfold trim_end_matches. rewrite drop_while_id; [apply rev_involutive|].
  destruct (rev s) as [|c r] eqn:E; [done|]. rewrite Forall_forall in Hf. apply Hf. rewrite <- (rev_involutive s), E. apply list_elem_of_In, in_rev. rewrite rev_involutive. by left.
Qed.

(** A host name of plain characters is taken as it is. *)
Definition plain_host (s : text) : Prop := Forall (λ c, is_whitespace c = false /\ c <> 91 /\ c <> 93) s.
Lemma loopback_plain s : plain_host s ->
  is_loopback_host s = eq_ignore_ascii_case s (lit "localhost") || match parse_ip s with Some ip => is_loopback (to_canonical ip) | None => false end.
Proof.
  intros Hp. unfold is_loopback_host. rewrite trim_no_ws by (eapply Forall_impl; [exact Hp|by intros c (? & ? & ?)]).
  rewrite (drop_while_id _ s).
  - by rewrite trim_end_matches_id by (eapply Forall_impl; [exact Hp|intros c (? & ? & ?); by apply Z.eqb_neq]).
  - destruct s as [|c s]; [done|]. apply Forall_cons in Hp as [(? & ? & ?) _]. by apply Z.eqb_neq.
Qed.

Lemma ip_char_host c : ip_char c = true -> is_whitespace c = false /\ c <> 91 /\ c <> 93 /\ c <> 64 /\ c <> 47.
Proof. unfold ip_char, is_ascii_digit. intros H. unfold is_whitespace. rewrite !orb_true_iff, !andb_true_iff in H. split; [|lia]. solve_guards. Qed.

(** Of the IPv4 addresses exactly the 2^24 of 127.0.0.0/8 are loopback hosts. *)
Lemma loopback_v4_exact b : 0 <= b < 2 ^ 32 -> is_loopback_host (show_ip (V4 b)) = true <-> 127 * 2 ^ 24 <= b < 128 * 2 ^ 24.
Proof.
  intros Hb. destruct (show_ip_chars (V4 b)) as [Hc Hne]. rewrite loopback_plain.
  - rewrite parse_show_v4 by done. cbn [to_canonical]. rewrite orb_true_iff, is_loopback_v4 by done. split; [intros [Hl|Hl]; [|done]|by right].
    exfalso. unfold eq_ignore_ascii_case in Hl. apply bool_decide_eq_true in Hl. destruct (show_ip (V4 b)) as [|c s]; [done|].
    apply Forall_cons in Hc as [Hc _]. change (to_ascii_lowercase (lit "localhost")) with (108 :: lit "ocalhost") in Hl.
    unfold to_ascii_lowercase in Hl. cbn [fmap list_fmap] in Hl. injection Hl as Hl _. revert Hl Hc.
    unfold ascii_lower, ip_char, is_ascii_upper, is_ascii_digit. rewrite !orb_true_iff, !andb_true_iff. destruct (_ && _) eqn:E; boolify; lia.
  - eapply Forall_impl; [exact Hc|]. intros c Hi%ip_char_host. tauto.
Qed.

(** The characters of a host name, a port and a path in a registry address. *)
Definition name_char (c : char) : Prop := is_whitespace c = false /\ c ∉ lit "[]:@/".
Definition path_text (p : text) : Prop := (p = [] \/ head p = Some 47) /\ Forall (λ c, is_whitespace c = false) p.

Lemma elem_forall {A} (P : A -> Prop) x l : Forall P l -> ~ P x -> x ∉ l.
Proof. rewrite Forall_forall. naive_solver. Qed.

Lemma split_head c a s : c ∉ a -> (s = [] \/ head s = Some c) -> head (split c (a ++ s)) = Some a.
Proof.
  intros Ha [-> | Hs]; [by rewrite app_nil_r, split_no_sep|]. destruct s as [|d s]; [done|]. injection Hs as ->. by rewrite split_app_sep.
Qed.

Lemma rsplit_once_none c s : c ∉ s -> rsplit_once c s = None.
Proof.
  intros Hc. unfold rsplit_once. destruct (split_once c (rev s)) as [[a b]|] eqn:E; [|done]. exfalso. apply split_once_some in E as [E _].
  apply Hc. rewrite <- (rev_involutive s), E. apply list_elem_of_In, in_rev. rewrite rev_involutive. apply list_elem_of_In. set_solver.
Qed.

(** An address of a scheme, a host name, an optional port and an optional
    path. *)
Definition port_text (port : text) : Prop := port = [] \/ exists ds, port = 58 :: ds /\ Forall (λ c, is_ascii_digit c = true) ds.
Definition ordinary (host port path : text) : Prop := host <> [] /\ Forall name_char host /\ port_text port /\ path_text path.

Lemma ordinary_trim host port path : ordinary host port path -> trim (lit "http://" ++ host ++ port ++ path) = lit "http://" ++ host ++ port ++ path.
Proof.
  intros (_ & Hhost & Hport & _ & Hws). apply trim_no_ws. rewrite !Forall_app. repeat split; [by apply (bool_decide_unpack (Forall _ _))|..|done].
  - eapply Forall_impl; [exact Hhost|]. by intros c [? ?].
  - destruct Hport as [-> | (ds & -> & Hd)]; [constructor|]. constructor; [done|]. eapply Forall_impl; [exact Hd|].
    intros c Hc. cbn in Hc. apply (ip_char_host c). unfold ip_char. by rewrite Hc.
Qed.

Lemma plain_remote_exact url host port path : ordinary host port path -> trim url = lit "http://" ++ host ++ port ++ path ->
  is_plain_remote_url url = negb (is_loopback_host host).
Proof.
  intros (Hne & Hhost & Hport & Hpath & Hws) Hurl.
  assert (Hp : Forall (λ c, is_whitespace c = false /\ c <> 47 /\ c <> 64) port).
  { destruct Hport as [-> | (ds & -> & Hd)]; [constructor|]. constructor; [done|]. eapply Forall_impl; [exact Hd|].
  intros c Hc. cbn in Hc. destruct (ip_char_host c) as (? & ? & ? & ? & ?); [unfold ip_char; by rewrite Hc|done]. }
  assert (Hn : forall c, c ∈ lit "[]:@/" -> c ∉ host) by (intros c Hc; apply (elem_forall _ _ _ Hhost); by intros [_ ?]).
  unfold is_plain_remote_url. rewrite Hurl.
  rewrite (proj2 (strip_prefix_some _ _ _) eq_refl). cbv zeta. rewrite (app_assoc host), (split_head 47); [| |exact Hpath]; [|apply not_elem_of_app; split].
  2: { apply Hn. by apply (bool_decide_unpack (_ ∈ _)). }
  2: { apply (elem_forall _ _ _ Hp). naive_solver. }
  cbn [default from_option Datatypes.id]. rewrite rsplit_once_none.
  2: { apply not_elem_of_app. split; [apply Hn; by apply (bool_decide_unpack (_ ∈ _))|apply (elem_forall _ _ _ Hp); naive_solver]. }
  assert (Hb : starts_with (lit "[") (host ++ port) = false).
  { unfold starts_with. destruct (strip_prefix _ _) as [r|] eqn:E; [|done]. apply strip_prefix_some in E. destruct host as [|c host]; [done|].
    injection E as -> _. exfalso. apply (Hn 91); [by apply (bool_decide_unpack (_ ∈ _))|left]. }
  rewrite Hb, (split_head 58); [done|apply Hn; by apply (bool_decide_unpack (_ ∈ _))|].
  destruct Hport as [-> | (ds & -> & _)]; [by left|by right].
Qed.

(** Which registry addresses a production host refuses as plain text: [http://], a host
    name, an optional port and an optional path is refused exactly when
    the host is not a loopback one; for an IPv4 address, exactly when it is
    outside 127.0.0.0/8. *)
Theorem plain_registry_url_exact (host port path : text) :
  ordinary host port path ->
  is_plain_remote_url (lit "http://" ++ host ++ port ++ path) = negb (is_loopback_host host)
  /\ (forall b, 0 <= b < 2 ^ 32 -> host = show_ip (V4 b) ->
        is_plain_remote_url (lit "http://" ++ host ++ port ++ path) = true <-> ~ (127 * 2 ^ 24 <= b < 128 * 2 ^ 24)).
Proof.
  intros Ho. assert (He := plain_remote_exact _ _ _ _ Ho (ordinary_trim _ _ _ Ho)).
  split; [done|]. intros b Hb ->. rewrite He, negb_true_iff, <- (loopback_v4_exact b Hb). by destruct (is_loopback_host _).
Qed.

(** ** Hosts on this machine *)

(** The address or name of a listener or server on this machine, with or
    without brackets: [localhost] in any case, an address of 127.0.0.0/8
    (also as an IPv6 address), or [::1]. *)
Definition on_this_machine (host : text) : Prop :=
  exists opening bare closing, trim host = opening ++ bare ++ closing
    /\ Forall (λ c, c = 91) opening /\ Forall (λ c, c = 93) closing
    /\ (to_ascii_lowercase bare = lit "localhost"
        \/ exists ip, parse_ip bare = Some ip
             /\ match to_canonical ip with V4 b => 127 * 2 ^ 24 <= b < 128 * 2 ^ 24 | V6 b => b = 1 end).

Lemma trim_end_matches_prefix p s : exists post, s = trim_end_matches p s ++ post /\ Forall (λ c, p c = true) post.
Proof.
  destruct (drop_while_suffix p (rev s)) as (pre & Hs & Hp). exists (rev pre). unfold trim_end_matches. split.
  - by rewrite <- rev_app_distr, <- Hs, rev_involutive.
  - apply Forall_forall. intros c Hc%list_elem_of_In%in_rev%list_elem_of_In. by eapply Forall_forall in Hp.
Qed.

Lemma loopback_on_this_machine host : is_loopback_host host = true -> on_this_machine host.
Proof.
  unfold is_loopback_host. cbv zeta. destruct (drop_while_suffix (λ c, c =? 91) (trim host)) as (opening & Ho & Hop).
  set (rest := drop_while _ _) in *. destruct (trim_end_matches_prefix (λ c, c =? 93) rest) as (closing & Hc & Hcl).
  set (bare := trim_end_matches _ _) in *. intros Hl. exists opening, bare, closing. split; [by rewrite Ho, <- Hc|].
  split; [eapply Forall_impl; [exact Hop|]; intros ? ?%Z.eqb_eq; done|]. split; [eapply Forall_impl; [exact Hcl|]; intros ? ?%Z.eqb_eq; done|].
  apply orb_true_iff in Hl as [Hl|Hl]; [left; unfold eq_ignore_ascii_case in Hl; by apply bool_decide_eq_true in Hl|right].
  destruct (parse_ip bare) as [ip|] eqn:Ep; [|done]. exists ip. split; [done|]. pose proof (to_canonical_ok ip (parse_ip_ok _ _ Ep)) as Hok.
  destruct (to_canonical ip) as [b|b]; [by apply is_loopback_v4|by apply Z.eqb_eq].
Qed.

(** ** The two resolvers of secrets *)

(** The configuration's resolver of a secret variable and the module
    configuration's accept the same variables of the same host and give the
    same secret, and refuse together. *)
Theorem secret_resolvers_agree (h : Host) (var key key' : text) :
  match resolve_secret_from_env h var key, resolve_secret_value h key' var with
  | Ok a, Ok b => a = b
  | Err _, Err _ => True
  | _, _ => False
  end.
Proof.
  unfold resolve_secret_from_env, resolve_secret_value.
  destruct (non_empty (host_var h var)) as [d|] eqn:Ed, (non_empty (host_var h (var ++ lit "_FILE"))) as [f|] eqn:Ef; cbn; try done.
  - destruct (h_read h (trim f)) as [raw|e]; [|done]. by case_bool_decide.
  - destruct (host_var h var) as [v|], (host_var h (var ++ lit "_FILE")) as [w|]; cbn [blank_when_set]; repeat case_match; done.
Qed.

(** ** [validate] is total *)

(** [validate] never reaches its [unreachable!()]: the engine's name has
    been checked when the connection is looked up. *)
Theorem validate_never_unreachable {FL : Floats} (h : Host) (cfg : AppConfig) : validate h cfg <> Err Unreachable.
Proof.
  unfold validate. destruct (validate_sections h cfg) as [[]|e] eqn:E; [|done]. cbn [map_err result_bind].
  unfold validate_sections in E. checks E. boolify. unfold default_settings.
  assert (Hs : forall r : result unit ConfigError, map_err Refused r <> Err Unreachable) by by destruct r.
  assert (Hk : forall o, result_bind (map_err Refused (match o with Some s => pool_validate s | None => Ok tt end))
                 (λ _, map_err Refused (validate_server cfg)) <> Err Unreachable)
    by (intros [s|]; cbn [map_err result_bind]; [destruct (pool_validate s); cbn [map_err result_bind]|]; auto; done).
  repeat (case_bool_decide; [destruct (engine_settings _ _ _ _) as [o|]; cbn [map_err result_bind]; [apply Hk|done]|]).
  exfalso. unfold ENGINES in E. cbn [fmap list_fmap] in E. rewrite !elem_of_cons in E.
  destruct E as [?|[?|[?|[?|E]]]]; [congruence..|by apply elem_of_nil in E].
Qed.

(** ** Environment files *)

Lemma env_get_replace (env : Env) (k v k' : text) : env_get (replace_env env k v) k' = if decide (k' = k) then Some v else env_get env k'.
Proof.
  unfold env_get, replace_env, without. induction env as [|[a b] env IH].
  - cbn. case_decide; [subst; by rewrite bool_decide_eq_true_2|by rewrite bool_decide_eq_false_2].
  - destruct (decide (a = k)) as [-> |Ha].
    + rewrite filter_cons_False by (cbn; tauto). rewrite IH. case_decide; [done|]. cbn [find fst]. by rewrite (bool_decide_eq_false_2 (k = k')).
    + rewrite filter_cons_True by done. rewrite <- app_comm_cons. cbn [find fst]. case_bool_decide as Hk; [|exact IH]. cbn. subst a. by rewrite decide_False.
Qed.

(** The first assignment of a name in a list of assignments. *)
Definition first_assignment (kvs : list (text * text)) (k : text) : option text := env_get kvs k.

Lemma load_lines_keeps path n ls (env : Env) k v : env_get env k = Some v -> env_get (load_lines path n ls env).1 k = Some v.
Proof.
  revert n env. induction ls as [|[line|] ls IH]; intros n env Hk; cbn [load_lines]; [done| |done].
  destruct (parse_env_assignment (trim line)) as [|key value| |]; [by apply IH| |done|done].
  destruct (env_get env key) eqn:E; [by apply IH|]. unfold set_var. destruct (_ || _); [done|]. apply IH.
  rewrite env_get_replace. case_decide; [congruence|done].
Qed.

Lemma load_env_file_keeps fs path (env : Env) k v : env_get env k = Some v -> env_get (load_env_file fs path env).1 k = Some v.
Proof. unfold load_env_file. destruct (f_open fs path); [apply load_lines_keeps|done]. Qed.

Lemma overrides_keep fs (env : Env) k v : env_get env k = Some v -> env_get (load_env_file_overrides fs env).1 k = Some v.
Proof.
  intros Hk. unfold load_env_file_overrides.
  assert (H1 : env_get (if f_exists fs PROFILE_FILE then load_env_file fs PROFILE_FILE env else (env, Ok tt)).1 k = Some v)
    by (destruct (f_exists fs PROFILE_FILE); [by apply load_env_file_keeps|done]).
  destruct (if f_exists fs PROFILE_FILE then _ else _) as [env1 [[]|e]]; [|done]. cbn [fst] in H1. cbv zeta.
  destruct (negb _); [repeat case_match; simplify_eq/=; done|by apply load_env_file_keeps].
Qed.

(** A line of an environment file, with the value in quotes. *)
Definition env_line (kv : text * text) : text := kv.1 ++ 61 :: 34 :: kv.2 ++ [34].
Definition env_text (kvs : list (text * text)) : list Z := concat ((λ kv, env_line kv ++ [10]) <$> kvs).

Definition env_name (k : text) : Prop := k <> [] /\ Forall (λ c, 32 < c < 128 /\ c <> 61 /\ c <> 35) k.
Definition env_value (v : text) : Prop := Forall (λ c, 0 < c < 128 /\ c <> 10) v.

Lemma raw_lines_concat (ls : list text) : Forall (λ l, 10 ∉ l) ls -> raw_lines (concat ((λ l, l ++ [10]) <$> ls)) = ls.
Proof.
  intros Hl. assert (Hs : split 10 (concat ((λ l, l ++ [10]) <$> ls)) = ls ++ [[]]).
  { induction Hl as [|l ls Hn _ IH]; [done|]. cbn [fmap list_fmap concat]. rewrite <- app_assoc.
    change ([10] ++ ?r) with (10 :: r). rewrite split_app_sep by done. cbn [app]. f_equal. exact IH. }
  unfold raw_lines. by rewrite Hs, last_snoc, removelast_last.
Qed.

Lemma name_not_ws c : 32 < c < 128 -> is_whitespace c = false.
Proof. intros Hc. unfold is_whitespace. solve_guards. Qed.

Lemma trim_ends (a b : char) (s : text) : is_whitespace a = false -> is_whitespace b = false -> trim (a :: s ++ [b]) = a :: s ++ [b].
Proof.
  intros Ha Hb. unfold trim, trim_start, trim_end. rewrite (drop_while_id _ (a :: _)) by done.
  change (a :: s ++ [b]) with ((a :: s) ++ [b]). rewrite rev_app_distr. cbn [rev app]. rewrite drop_while_id by done. cbn [rev].
  by rewrite rev_app_distr, rev_involutive.
Qed.

Lemma unquote_quoted v : unquote (34 :: v ++ [34]) = v.
Proof.
  assert (Hl : 2 <= byte_len (34 :: v ++ [34])).
  { change (34 :: v ++ [34]) with ([34] ++ v ++ [34]). rewrite !byte_len_app. pose proof (byte_len_nonneg v). change (byte_len [34]) with 1. lia. }
  unfold unquote. rewrite (proj2 (Z.leb_le _ _) Hl). rewrite app_comm_cons, last_snoc. cbn [app head tail andb].
  rewrite (bool_decide_eq_true_2 (Some 34 = Some 34)), (bool_decide_eq_true_2 (_ \/ _)) by auto. apply removelast_last.
Qed.

Lemma trim_env_line k v : env_name k -> trim (env_line (k, v)) = env_line (k, v).
Proof.
  intros [Hne Hk]. destruct k as [|c k]; [done|]. apply Forall_cons in Hk as [[Hc _] _]. unfold env_line. cbn [fst snd].
  replace ((c :: k) ++ 61 :: 34 :: v ++ [34]) with (c :: (k ++ 61 :: 34 :: v) ++ [34]) by (rewrite <- app_assoc; done).
  apply trim_ends; [by apply name_not_ws|done].
Qed.

Lemma parse_env_line k v : env_name k -> parse_env_assignment (env_line (k, v)) = Assign k v.
Proof.
  intros Hn. destruct (Hn) as [Hne Hk]. unfold parse_env_assignment, env_line. cbn [fst snd].
  assert (Hw : Forall (λ c, is_whitespace c = false) k) by (eapply Forall_impl; [exact Hk|intros c [? _]; by apply name_not_ws]).
  rewrite bool_decide_eq_false_2 by (intros [? ?]%app_nil; done).
  assert (Hh : starts_with (lit "#") (k ++ 61 :: 34 :: v ++ [34]) = false).
  { unfold starts_with. destruct (strip_prefix _ _) as [r|] eqn:E; [|done]. apply strip_prefix_some in E. destruct k as [|c k]; [done|].
    injection E as -> _. apply Forall_cons in Hk as [[_ [_ ?]] _]. done. }
  assert (He : strip_prefix (lit "export ") (k ++ 61 :: 34 :: v ++ [34]) = None).
  { destruct (strip_prefix _ _) as [r|] eqn:E; [|done]. exfalso. apply strip_prefix_some in E.
    change (lit "export " ++ r) with (lit "export" ++ 32 :: r) in E.
    assert (H61 : 61 ∉ k) by (apply (elem_forall _ _ _ Hk); naive_solver).
    assert (H32 : 32 ∉ k) by (apply (elem_forall _ _ _ Hk); lia).
    pose proof (split_once_app 61 k (34 :: v ++ [34]) H61) as Hs. rewrite E in Hs. apply split_once_some in Hs as [Hs _].
    apply app_eq_inv in Hs as [(l & Hk1 & Hk2)|(l & Hk1 & Hk2)].
    - destruct l as [|x l]; [done|]. injection Hk2 as <- _.
      pose proof (f_equal (λ s, bool_decide (61 ∈ s)) Hk1) as Hb. cbn beta in Hb.
      rewrite (bool_decide_eq_true_2 (61 ∈ k ++ 61 :: l)) in Hb by set_solver. vm_compute in Hb. done.
    - destruct l as [|x l]; [done|]. injection Hk2 as <- _. apply H32. rewrite Hk1. set_solver. }
  rewrite Hh, He. cbn [orb]. rewrite split_once_app by (apply (elem_forall _ _ _ Hk); naive_solver). cbv zeta.
  rewrite (trim_no_ws k) by done. rewrite bool_decide_eq_false_2 by done. by rewrite trim_ends, unquote_quoted.
Qed.

Lemma env_text_lines (kvs : list (text * text)) : Forall (λ kv, env_name kv.1 /\ env_value kv.2) kvs -> lines (env_text kvs) = Some ∘ env_line <$> kvs.
Proof.
  intros Hf. unfold lines, env_text.
  change (λ kv, env_line kv ++ [10]) with ((λ l, l ++ [10]) ∘ env_line).
  rewrite (list_fmap_compose env_line (λ l, l ++ [10])), raw_lines_concat; [|apply Forall_fmap].
  - rewrite <- list_fmap_compose. apply list_fmap_ext. intros i kv Hi. rewrite Forall_forall in Hf. destruct (Hf kv) as [[_ Hk] Hv]; [by eapply list_elem_of_lookup_2|].
    unfold compose, strip_cr, env_line. assert (Hs : strip_suffix [13] (kv.1 ++ 61 :: 34 :: kv.2 ++ [34]) = None).
    { destruct (strip_suffix _ _) as [r|] eqn:E; [|done]. apply strip_suffix_some in E.
      apply (f_equal last) in E. rewrite !app_comm_cons, app_assoc, !last_snoc in E. done. }
    rewrite Hs. apply utf8_ascii. rewrite Forall_app, !Forall_cons, Forall_app, Forall_singleton.
    split; [eapply Forall_impl; [exact Hk|cbn; lia]|]. do 2 (split; [lia|]). split; [eapply Forall_impl; [exact Hv|cbn; lia]|lia].
  - eapply Forall_impl; [exact Hf|]. intros kv [[_ Hk] Hv]. unfold compose, env_line. rewrite not_elem_of_app, !not_elem_of_cons, not_elem_of_app.
    split; [apply (elem_forall _ _ _ Hk); lia|]. do 2 (split; [lia|]). split; [apply (elem_forall _ _ _ Hv); lia|set_solver].
Qed.

Lemma load_env_lines path n (kvs : list (text * text)) (env : Env) :
  Forall (λ kv, env_name kv.1 /\ env_value kv.2) kvs -> exists env', load_lines path n (Some ∘ env_line <$> kvs) env = (env', Ok tt)
    /\ forall k, env_get env' k = match env_get env k with Some v => Some v | None => first_assignment kvs k end.
Proof.
  intros Hf. revert n env. induction Hf as [|[k v] kvs [Hk Hv] Hf IH]; intros n env; cbn [fmap list_fmap load_lines].
  - exists env. split; [done|]. intros k. by destruct (env_get env k).
  - cbn [compose]. rewrite trim_env_line, parse_env_line by done. cbn [fst snd] in Hk, Hv.
    assert (Hfirst : forall k', first_assignment ((k, v) :: kvs) k' = if decide (k = k') then Some v else first_assignment kvs k').
    { intros k'. unfold first_assignment, env_get. cbn [find fst]. case_decide; [by rewrite bool_decide_eq_true_2|by rewrite bool_decide_eq_false_2]. }
    destruct (env_get env k) as [w|] eqn:E.
    + destruct (IH (S n) env) as (env' & He & Hg). exists env'. split; [done|]. intros k'. rewrite Hg, Hfirst. destruct (env_get env k') eqn:E'; [done|].
      case_decide; [congruence|done].
    + unfold set_var. destruct Hk as [Hne Hk].
      rewrite !(bool_decide_eq_false_2); [|apply (elem_forall _ _ _ Hv); lia|apply (elem_forall _ _ _ Hk); lia|apply (elem_forall _ _ _ Hk); naive_solver|done].
      cbn [orb]. destruct (IH (S n) (replace_env env k v)) as (env' & He & Hg). exists env'. split; [done|]. intros k'.
      rewrite Hg, Hfirst, env_get_replace. destruct (decide (k' = k)) as [-> |Hn]; [by rewrite E, decide_True|]. by rewrite decide_False by congruence.
Qed.

(** Assignments written to an environment file, one on a line with the value in
    quotes, read back: loading succeeds, every variable that was set keeps
    its value, and every other one has the value of its first assignment in
    the file; values may hold any ASCII character but NUL and the line feed. *)
Theorem env_file_roundtrip (fs : Files) (path : text) (kvs : list (text * text)) (env : Env) :
  Forall (λ kv, env_name kv.1 /\ env_value kv.2) kvs -> f_open fs path = Some (env_text kvs) ->
  exists env', load_env_file fs path env = (env', Ok tt)
    /\ forall k, env_get env' k = match env_get env k with Some v => Some v | None => first_assignment kvs k end.
Proof. intros Hf Ho. unfold load_env_file. rewrite Ho, env_text_lines by done. by apply load_env_lines. Qed.

(** ** Starting in production *)

Section Production.
Context {FL : Floats} {CL : ConfigLibs}.

Lemma load_ok_inv fs read (env env' : Env) cfg : load fs read env = (env', Ok cfg) ->
  env' = (load_env_file_overrides fs env).1 /\ validate (mkHost env' read) cfg = Ok tt
  /\ mode cfg = from_env_value (env_get env' ENV_ENV) /\ exists files, sources fs env' (mode cfg) = Ok files.
Proof.
  unfold load. destruct (load_env_file_overrides fs env) as [env1 [[]|e]]; [|done]. intros Hl. injection Hl as <- Hr. checks Hr. injection Hr as <-.
  cbn [mode with_mode]. repeat split; [by destruct u1|eauto].
Qed.

Definition dev_names : list text := lit <$> ["dev"; "development"; "local"; "test"]%string.
Lemma mode_of_value v : to_ascii_lowercase (trim v) ∉ dev_names -> from_env_value (Some v) = Production.
Proof. intros H. unfold from_env_value. by rewrite bool_decide_eq_false_2. Qed.

Lemma flag_nil b m : flag b m = [] -> b = false.
Proof. by destruct b. Qed.
Lemma flag_text_nil b m : flag_text b m = [] -> b = false.
Proof. by destruct b. Qed.
Lemma concat_nil {A} (l : list (list A)) : concat l = [] -> Forall (λ x, x = []) l.
Proof. induction l as [|x l IH]; intros H; [constructor|]. apply app_nil in H as [-> H]. constructor; auto. Qed.

(** Where the secret of a control token came from. *)
Definition token_source (h : Host) (entry : text) (t : HttpControlToken) : Prop :=
  exists role value var, split_once 58 entry = Some (role, value) /\ Role.from_str (trim role) = Ok (ct_role t)
    /\ strip_prefix (lit "env:") (trim value) = Some var
    /\ ((exists v, host_var h (trim var) = Some v /\ ct_secret t = trim v /\ 32 <= byte_len (ct_secret t))
        \/ exists path raw, non_empty (host_var h (trim var ++ lit "_FILE")) = Some path /\ h_read h (trim path) = Ok raw
             /\ ct_secret t = trim raw /\ ct_secret t <> []).

Lemma non_empty_inv o s : non_empty o = Some s -> exists v, o = Some v /\ s = trim v /\ s <> [].
Proof. destruct o as [v|]; [|done]. unfold non_empty. cbn. case_bool_decide; [done|]. intros [= <-]. eauto. Qed.

Lemma secret_from_env_inv h var key s : resolve_secret_from_env h var key = Ok s ->
  (exists v, host_var h var = Some v /\ s = trim v /\ s <> [])
  \/ ((forall v, host_var h var = Some v -> trim v = [])
      /\ exists path raw, non_empty (host_var h (var ++ lit "_FILE")) = Some path /\ h_read h (trim path) = Ok raw /\ s = trim raw /\ s <> []).
Proof.
  unfold resolve_secret_from_env. destruct (non_empty (host_var h var)) as [d|] eqn:Ed.
  - destruct (_ && _); [done|]. intros [= <-]. left. apply non_empty_inv in Ed as (v & -> & -> & ?). eauto.
  - cbn [andb]. rewrite bool_decide_eq_false_2 by (by intros [? ?]). cbn [andb].
    destruct (non_empty (host_var h (var ++ lit "_FILE"))) as [path|] eqn:Ef; [|destruct (blank_when_set _); [done|by destruct (blank_when_set _)]].
    destruct (h_read h (trim path)) as [raw|e] eqn:Er; [|done]. case_bool_decide as Hb; [done|]. intros [= <-]. right. split; [|eauto 7].
    intros v Hv. rewrite Hv in Ed. unfold non_empty in Ed. cbn in Ed. destruct (bool_decide (trim v = [])) eqn:E; [by boolify|done].
Qed.

Lemma control_token_source h entry t : token_violations h entry = [] -> resolve_control_token h entry = Ok t -> token_source h entry t.
Proof.
  unfold resolve_control_token, parse_role_token, token_violations. destruct (split_once 58 entry) as [[role value]|] eqn:Es; [|done].
  intros Hv Hr. checks Hr. injection Hr as <-. boolify. apply non_empty_inv in C0 as (r0 & [= <-] & -> & _). apply non_empty_inv in C1 as (v0 & [= <-] & -> & _).
  injection C as <-. cbn [fst snd] in *. destruct (strip_prefix (lit "env:") (trim value)) as [var|] eqn:Ep; [|done]. cbv zeta in Hv. apply flag_nil in Hv.
  exists role, value, var. cbn [ct_role ct_secret]. repeat split; [done..|]. unfold resolve_secret in C3. rewrite Ep in C3.
  apply secret_from_env_inv in C3 as [(v & Hh & -> & Hne)|(_ & path & raw & ? & ? & -> & ?)]; [left|right; by exists path, raw].
  exists v. repeat split; [done|]. rewrite Hh in Hv. apply andb_false_iff in Hv as [Hv|Hv]; boolify; [|done].
  destruct (trim v) as [|c tv]; [done|]. change (c :: tv) with ([c] ++ tv) in Hv. rewrite byte_len_app in Hv. pose proof (byte_len_nonneg tv). pose proof (len_utf8_pos c).
  change (byte_len [c]) with (len_utf8 c + 0) in Hv. lia.
Qed.

Lemma control_tokens_sources h entries tokens : concat (token_violations h <$> entries) = [] -> resolve_control_tokens h entries = Ok tokens ->
  Forall2 (token_source h) entries tokens.
Proof.
  revert tokens. induction entries as [|e es IH]; intros tokens Hv Hr; cbn [resolve_control_tokens fmap list_fmap concat] in *.
  - injection Hr as <-. constructor.
  - apply app_nil in Hv as [H1 H2]. apply result_bind_ok_inv in Hr as (t & Ht & Hr). apply result_bind_ok_inv in Hr as (ts & Hts & [= <-]).
    constructor; [by apply control_token_source|by apply IH].
Qed.

(** ** What production starts with *)

Definition tls_ready (enabled : bool) (cert key : option text) (suites : list text) : Prop :=
  enabled = true /\ exists c k, non_empty cert = Some c /\ non_empty key = Some k /\ c <> k /\ suites <> [].

Definition listeners_safe (s : ServerSection) : Prop :=
  (enable_http s = true -> on_this_machine (http_host (http s))
     \/ tls_ready (http_tls_enabled (http_tls (http s))) (http_cert_path (http_tls (http s))) (http_key_path (http_tls (http s))) (http_cipher_suites (http_tls (http s))))
  /\ (enable_grpc s = true -> exists g, grpc s = Some g
      /\ (on_this_machine (grpc_host g) \/ tls_ready (grpc_tls_enabled (grpc_tls g)) (grpc_cert_path (grpc_tls g)) (grpc_key_path (grpc_tls g)) (grpc_cipher_suites (grpc_tls g))))
  /\ on_this_machine (ssh_host (ssh s)).

Definition outgoing_safe (m : ModulesSection) : Prop :=
  r_accept_invalid_certs (registry_tls (registry m)) = false /\ r_accept_invalid_certs (clients_tls (clients (runtime m))) = false
  /\ forall host port path, ordinary host port path -> trim (registry_url (registry m)) = lit "http://" ++ host ++ port ++ path ->
       on_this_machine host.

Definition identity_safe (i : IdentitySection) : Prop :=
  id_accept_invalid_certs (id_tls (id_external i)) = false /\ to_ascii_lowercase (trim (environment i)) ∈ [lit "prod"; lit "production"]
  /\ (provider i = ProviderExternal -> exists base token, base_url (id_external i) = Some base /\ is_https base = true
        /\ (forall jwks, jwks_url (id_external i) = Some jwks -> is_https jwks = true) /\ non_empty (auth_token (id_external i)) = Some token).

Definition passwords_safe (p : PasswordPolicyConfig) : Prop := 12 <= min_length p /\ check_common_passwords p = true.
Definition no_dev_sources (m : ModulesSection) : Prop := forall path, dev_base_path m = Some path -> trim path = [].
Definition database_safe (d : DbSection) : Prop :=
  db_mode (db_runtime d) = Embedded -> auth_method (db_security (db_embedded (db_runtime d))) = ScramSha256.

Lemma http_tls_ready c : validate_http_tls c = Ok tt -> http_tls_enabled (http_tls c) = true ->
  tls_ready (http_tls_enabled (http_tls c)) (http_cert_path (http_tls c)) (http_key_path (http_tls c)) (http_cipher_suites (http_tls c)).
Proof. unfold validate_http_tls. intros Hv He. rewrite He in Hv. checks Hv. boolify. split; [done|]. by exists u, u0. Qed.
Lemma grpc_tls_ready c : validate_grpc_tls c = Ok tt -> grpc_tls_enabled (grpc_tls c) = true ->
  tls_ready (grpc_tls_enabled (grpc_tls c)) (grpc_cert_path (grpc_tls c)) (grpc_key_path (grpc_tls c)) (grpc_cipher_suites (grpc_tls c)).
Proof. unfold validate_grpc_tls. intros Hv He. rewrite He in Hv. checks Hv. boolify. split; [done|]. by exists u, u0. Qed.

Lemma identity_production i : identity_validate i = Ok tt -> is_prod_name (to_ascii_lowercase (trim (environment i))) = true ->
  id_accept_invalid_certs (id_tls (id_external i)) = false -> identity_safe i.
Proof.
  intros Hv Hp Ha. split; [done|]. split; [by apply bool_decide_eq_true in Hp|]. intros He. unfold identity_validate in Hv. checks Hv. rewrite He in Hv. unfold identity_external_validate in Hv.
  rewrite Hp in Hv. checks Hv. boolify. destruct (non_empty (auth_token _)) as [token|]; [|done]. exists u1, token. repeat split; [done|done|].
  intros jwks Hj. rewrite Hj in C4. checks C4. cbn [andb] in C4. by apply negb_false_iff in C4.
Qed.

Lemma validate_parts h cfg : validate h cfg = Ok tt -> validate_sections h cfg = Ok tt /\ validate_server cfg = Ok tt.
Proof.
  unfold validate. intros Hv. apply result_bind_ok_inv in Hv as ([] & H1 & Hv). apply result_bind_ok_inv in Hv as (s & _ & Hv).
  apply result_bind_ok_inv in Hv as ([] & _ & Hv). by apply map_err_ok in H1, Hv.
Qed.

(** A production host that has loaded its configuration. *)
Definition production_safe (h : Host) (cfg : AppConfig) : Prop :=
  listeners_safe (server cfg) /\ outgoing_safe (modules cfg) /\ identity_safe (identity (security cfg))
  /\ passwords_safe (password_policy (security cfg)) /\ no_dev_sources (modules cfg) /\ database_safe (db cfg)
  /\ exists tokens, resolve_control_tokens h (control_tokens (security cfg)) = Ok tokens /\ Forall2 (token_source h) (control_tokens (security cfg)) tokens.

Lemma validated_production_safe h cfg : validate h cfg = Ok tt -> mode cfg = Production -> production_safe h cfg.
Proof.
  intros [Hs Hv]%validate_parts Hm. unfold validate_sections in Hs. apply result_bind_ok_inv in Hs as ([] & Hmode & Hs).
  unfold validate_mode in Hmode. rewrite Hm in Hmode. cbn [is_production negb] in Hmode.
  destruct (production_violations h cfg) eqn:Ev; [|done]. clear Hmode. unfold production_violations in Ev. cbv zeta in Ev.
  repeat match type of Ev with _ ++ _ = [] => let V := fresh "V" in apply app_nil in Ev as [V Ev]; first [apply flag_nil in V | apply flag_text_nil in V | idtac] end.
  apply flag_nil in Ev. apply result_bind_ok_inv in Hs as (pol & _ & Hs). apply result_bind_ok_inv in Hs as ([] & Hsec & _).
  unfold security_validate in Hsec. checks Hsec. unfold validate_server in Hv. checks Hv.
  assert (Hid : identity_safe (identity (security cfg))) by (apply identity_production; [exact Hsec|by apply negb_false_iff|exact V1]).
  split; [|split; [split_and!; [done|done|]; intros host port path Ho Hu; apply loopback_on_this_machine, negb_false_iff; by rewrite <- (plain_remote_exact _ _ _ _ Ho Hu)|]].
  { repeat split.
    - intros He. rewrite He in V9. cbn [andb] in V9. apply andb_false_iff in V9 as [Ht%negb_false_iff|Hl%negb_false_iff]; [right|left; by apply loopback_on_this_machine].
      apply http_tls_ready; [|done]. match goal with H : validate_http_tls _ = Ok ?x |- _ => by destruct x end.
    - intros He. rewrite He in V10. cbn [andb] in V10. match goal with H : grpc_validate _ _ = Ok _ |- _ => rename H into Hg end.
      unfold grpc_validate in Hg. destruct (grpc (server cfg)) as [g|]; [|by rewrite He in Hg]. exists g. split; [done|]. checks Hg.
      apply andb_false_iff in V10 as [Ht%negb_false_iff|Hl%negb_false_iff]; [right|left; by apply loopback_on_this_machine]. apply grpc_tls_ready; [|done]. by destruct u6.
    - by apply loopback_on_this_machine, negb_false_iff. }
  split; [done|]. split; [split; [by apply Z.ltb_ge|by apply negb_false_iff]|]. split.
  { intros path Hp. rewrite Hp in V2. apply negb_false_iff in V2. unfold blank in V2. by boolify. }
  split.
  { intros He. rewrite He in V8. cbn in V8. by destruct (auth_method _). }
  match goal with H : resolve_control_tokens _ _ = Ok ?ts |- _ => exists ts; split; [done|]; by apply control_tokens_sources end.
Qed.

(** C8: A host whose process environment names a mode that is not one of the
    development names starts only in production and only safely, whatever
    its environment files and configuration files hold.  The SSH listener,
    and every other one that has not TLS with a certificate, a key and cipher
    suites, is on this machine.  Certificates of the registry, the modules
    and the identity provider are checked; an external identity provider is
    addressed by https; a registry address that is [http://], a host name and
    perhaps a port and a path names this machine.  Passwords have at least 12
    characters and are compared with the common ones, no dev checkout is a
    source of modules and an embedded database asks for passwords.  A control
    token comes from a variable and has at least 32 bytes, or comes from a
    file and is not empty.  Not covered: registry addresses of another form
    ([plain_registry_url_slips_through]) and the length of tokens in files
    ([file_token_length_unchecked]). *)
Theorem production_start_is_safe fs read (env env' : Env) cfg v :
  env_get env ENV_ENV = Some v -> to_ascii_lowercase (trim v) ∉ dev_names -> load fs read env = (env', Ok cfg) ->
  mode cfg = Production /\ production_safe (mkHost env' read) cfg.
Proof.
  intros Hv Hd (-> & Hok & Hm & _)%load_ok_inv. apply (overrides_keep fs) in Hv. rewrite Hv, mode_of_value in Hm by done.
  split; [done|]. by apply validated_production_safe.
Qed.
End Production.

(** ** Profiles and files *)

Lemma profile_char_name c : profile_char c = true -> c <> 47 /\ c <> 46.
Proof. unfold profile_char, is_ascii_alphanumeric, is_ascii_digit, is_ascii_upper, is_ascii_lower. rewrite !orb_true_iff, !andb_true_iff. lia. Qed.

Lemma detect_profile_chars (env : Env) keys p : detect_profile_in env keys = Ok (Some p) -> Forall (λ c, profile_char c = true) p.
Proof.
  induction keys as [|k keys IH]; cbn [detect_profile_in]; [done|]. destruct (env_get env k) as [value|]; [|done]. case_bool_decide; [done|].
  intros Hr. checks Hr. injection Hr as <-. unfold sanitize_profile in C. destruct (forallb _ _) eqn:E; [|done]. injection C as <-.
  assert (Hf : forall s, forallb profile_char s = true -> Forall (λ c, profile_char c = true) s)
    by (intros s Hs; apply Forall_forall; intros c Hc%list_elem_of_In; by apply (proj1 (forallb_forall _ _) Hs)).
  case_bool_decide; [by apply Hf|]. case_bool_decide; [by apply Hf|]. by apply Hf.
Qed.

(** A profile names a file directly in [config/]: its name holds no
    separator and no point.  In production [config/local.toml] is read only
    when a variable names it, as the profile or as the explicit file. *)
Theorem configuration_files_are_chosen (fs : Files) (env : Env) (m : OperatingMode) files :
  sources fs env m = Ok files ->
  (forall p, detect_config_profile env = Ok (Some p) -> profile_path p ∈ files /\ 47 ∉ p /\ 46 ∉ p)
  /\ (m = Production -> LOCAL_OVERRIDE_FILE ∈ files ->
        detect_config_profile env = Ok (Some (lit "local")) \/ explicit_config_path fs env = Ok (Some LOCAL_OVERRIDE_FILE)).
Proof.
  unfold sources. intros Hs. apply result_bind_ok_inv in Hs as (prof & Hp & Hs). apply result_bind_ok_inv in Hs as (pf & Hpf & Hs).
  apply result_bind_ok_inv in Hs as (ex & Hex & [= <-]). split.
  - intros p Hd. rewrite Hp in Hd. injection Hd as ->. destruct (f_exists fs (profile_path p)); [|done]. injection Hpf as <-.
    pose proof (detect_profile_chars env _ p Hp) as Hc. split; [cbn [app]; right; left|].
    split; apply (elem_forall _ _ _ Hc); intros [? ?]%profile_char_name; done.
  - intros -> Hin. cbn [is_production app] in Hin. rewrite elem_of_cons, elem_of_app in Hin. destruct Hin as [Hin|[Hin|Hin]].
    + discriminate.
    + left. destruct prof as [p|]; [|injection Hpf as <-; by apply elem_of_nil in Hin]. destruct (f_exists fs (profile_path p)); [|done]. injection Hpf as <-.
      apply list_elem_of_singleton in Hin. unfold LOCAL_OVERRIDE_FILE, profile_path in Hin.
      change (lit "config/local.toml") with (lit "config/" ++ lit "local" ++ lit ".toml") in Hin.
      apply app_inv_head in Hin. apply app_inv_tail in Hin. by subst p.
    + right. destruct ex as [p|]; [|by apply elem_of_nil in Hin]. apply list_elem_of_singleton in Hin. by rewrite Hex, Hin.
Qed.

(** ** Limits of the checks *)

(** A production host reads [config/local.toml] when [FENRIR_CONFIG_ENV] is
    [local]. *)
Theorem production_reads_local_profile (fs : Files) (env : Env) :
  env_get env ENV_CONFIG_ENV = Some (lit "local") -> env_get env ENV_CONFIG_FILE = None -> f_exists fs LOCAL_OVERRIDE_FILE = true ->
  sources fs env Production = Ok [lit "config/default.toml"; LOCAL_OVERRIDE_FILE].
Proof.
  intros Hl Hf He. unfold sources, detect_config_profile, explicit_config_path. cbn [detect_profile_in]. rewrite Hl.
  rewrite bool_decide_eq_false_2 by (vm_compute; discriminate).
  assert (Hs : sanitize_profile (trim (lit "local")) = Ok (lit "local")) by (vm_compute; reflexivity). rewrite Hs. cbn [result_bind].
  rewrite !bool_decide_eq_false_2 by (intros [Hx _]; revert Hx; vm_compute; discriminate).
  assert (Hp : profile_path (lit "local") = LOCAL_OVERRIDE_FILE) by (vm_compute; reflexivity). rewrite Hp, He. cbn [result_bind]. by rewrite Hf.
Qed.

(** A control token read from a file is accepted in production whatever its
    length. *)
Theorem file_token_length_unchecked (h : Host) (role : Role) (var path raw : text) :
  Forall (λ c, is_whitespace c = false) var -> host_var h var = None -> host_var h (var ++ lit "_FILE") = Some path ->
  Forall (λ c, is_whitespace c = false) path -> path <> [] -> h_read h path = Ok raw -> trim raw <> [] ->
  let entry := Role.as_str role ++ lit ":env:" ++ var in
  token_violations h entry = [] /\ resolve_control_token h entry = Ok (mkControlToken role (trim raw)).
Proof.
  intros Hvw Hv Hfile Hpw Hpne Hread Hne. cbv zeta.
  assert (Hsp : split_once 58 (Role.as_str role ++ lit ":env:" ++ var) = Some (Role.as_str role, lit "env:" ++ var)).
  { change (lit ":env:" ++ var) with (58 :: (lit "env:" ++ var)). apply split_once_app. destruct role; by apply (bool_decide_unpack (_ ∉ _)). }
  assert (Htr : trim (lit "env:" ++ var) = lit "env:" ++ var) by (apply trim_no_ws; apply Forall_app; split; [by apply (bool_decide_unpack (Forall _ _))|done]).
  assert (Hst : strip_prefix (lit "env:") (lit "env:" ++ var) = Some var) by by apply strip_prefix_some.
  assert (Hrole : non_empty (Some (Role.as_str role)) = Some (Role.as_str role) /\ Role.from_str (Role.as_str role) = Ok role) by (destruct role; by vm_compute).
  assert (Hval : non_empty (Some (lit "env:" ++ var)) = Some (lit "env:" ++ var)) by (unfold non_empty; cbn [mbind option_bind]; rewrite Htr; by rewrite bool_decide_eq_false_2).
  split.
  - unfold token_violations. rewrite Hsp. cbv zeta. rewrite Htr, Hst, (trim_no_ws var Hvw), Hv. done.
  - unfold resolve_control_token, parse_role_token. rewrite Hsp. cbv beta iota zeta. rewrite (proj1 Hrole), Hval. cbn [ok_or result_bind].
    rewrite (proj2 Hrole). cbn [map_err result_bind fst snd]. unfold resolve_secret. rewrite Hst, (trim_no_ws var Hvw). unfold resolve_secret_from_env.
    rewrite Hv, Hfile. cbn [non_empty mbind option_bind]. rewrite (trim_no_ws path Hpw). rewrite (bool_decide_eq_false_2 (path = [])) by done.
    rewrite (bool_decide_eq_false_2 (is_Some None)) by by intros [? ?]. cbn [andb]. rewrite (trim_no_ws path Hpw), Hread, (bool_decide_eq_false_2 (trim raw = [])) by done.
    cbn [result_bind]. by rewrite bool_decide_eq_false_2.
Qed.

(** The registry check reads the scheme in lower case only, and takes what
    follows an at sign in a query or fragment for the host. *)
Theorem plain_registry_url_slips_through :
  is_plain_remote_url (lit "http://registry.example/api") = true
  /\ is_plain_remote_url (lit "HTTP://registry.example/api") = false
  /\ is_plain_remote_url (lit "http://registry.example?@localhost") = false
  /\ is_plain_remote_url (lit "http://registry.example#@127.0.0.1") = false.
Proof. vm_compute. done. Qed.

(** A section that is absent takes zeros and [false], not the defaults of
    its fields: without [modules.trust] no signature is required, without
    [security.service_tokens] (which no check covers) every token has
    expired when it is issued, and without [security.session],
    [modules.runtime.clients] or the rollout's replacement section the host
    does not start; each section, present and empty, is accepted or asks
    for a keyring. *)
Theorem absent_sections_lose_defaults :
  (require_signature trust_absent = false /\ trust_validate trust_absent = Ok tt /\ require_signature trust_empty = true)
  /\ (forall req token uuid now later r s, now <= later -> ServiceTokens.issue (ServiceTokens.new service_tokens_absent) req token uuid now = (r, s) ->
        exists e, tokens s !! token = Some e /\ verdict e later (lifetime_limits s) = VExpired)
  /\ is_ok (session_validate session_absent) = false /\ is_ok (session_validate session_empty) = true
  /\ is_ok (clients_validate clients_absent) = false /\ is_ok (clients_validate clients_empty) = true
  /\ is_ok (runtime_rollout_validate rollout_absent) = false /\ is_ok (replacement_validate replacement_empty) = true.
Proof.
  split; [done|]. split; [|done]. intros req token uuid now later r s Hl Hi. unfold ServiceTokens.issue in Hi. change (poisoned (ServiceTokens.new service_tokens_absent)) with false in Hi. cbv beta iota zeta in Hi. injection Hi as <- <-.
  eexists. split; [apply lookup_insert_eq|]. unfold verdict. rewrite (proj2 (Z.leb_le _ _)); [done|]. unfold new_entry. cbn [claims ServiceTokens.expires_at].
  change (now + 0 + 0 <= later). lia.
Qed.

(** ** Prefixes of variables for modules *)

Definition upper_text (s : text) : Prop := Forall (λ c, ascii_upper c = c) s.

Lemma upper_fixed s : upper_text s -> to_ascii_uppercase s = s.
Proof. induction 1 as [|c s Hc _ IH]; [done|]. unfold to_ascii_uppercase in *. cbn [fmap list_fmap]. by rewrite Hc, IH. Qed.
Lemma drop_while_forall (P : char -> Prop) q s : Forall P s -> Forall P (drop_while q s).
Proof. destruct (drop_while_suffix q s) as (pre & Hs & _). rewrite Hs at 1. by intros [_ ?]%Forall_app. Qed.
Lemma rev_forall {A} (P : A -> Prop) s : Forall P s -> Forall P (rev s).
Proof. rewrite !Forall_forall. intros Hs x Hx. apply Hs. apply list_elem_of_In, in_rev. by apply list_elem_of_In. Qed.
Lemma split_forall (P : char -> Prop) c s : Forall P s -> Forall (Forall P) (split c s).
Proof.
  induction 1 as [|x s Hx Hs IH]; cbn [split]; [by repeat constructor|]. destruct (x =? c); [by constructor|].
  destruct (split c s) as [|p ps]; [by repeat constructor|]. apply Forall_cons in IH as [Hp Hps]. by repeat constructor.
Qed.

Lemma ascii_upper_idemp c : ascii_upper (ascii_upper c) = ascii_upper c.
Proof. unfold ascii_upper, is_ascii_lower. solve_guards. Qed.

Lemma derived_upper m d : d ∈ derived_env_prefixes m -> upper_text d.
Proof.
  unfold derived_env_prefixes. set (n := trim_underscores _). assert (Hn : upper_text n).
  { unfold n, trim_underscores. apply rev_forall, drop_while_forall, rev_forall, drop_while_forall. apply Forall_fmap, Forall_true. intros c. cbn.
    destruct (is_ascii_alphanumeric c); [apply ascii_upper_idemp|done]. }
  case_bool_decide as He; [intros Hd; by apply elem_of_nil in Hd|]. cbv zeta.
  assert (Hu : forall s, upper_text s -> upper_text (s ++ lit "_")) by (intros s Hs; apply Forall_app; split; [done|by repeat constructor]).
  rewrite elem_of_cons. intros [-> |Hd]; [by apply Hu|]. destruct (find _ _) as [first|] eqn:Ef; [|by apply elem_of_nil in Hd].
  case_bool_decide; [by apply elem_of_nil in Hd|]. apply list_elem_of_singleton in Hd. subst d. apply Hu.
  apply find_some in Ef as [Ef%list_elem_of_In _]. pose proof (split_forall _ 95 n Hn) as Hs. rewrite Forall_forall in Hs. by apply Hs.
Qed.

Lemma dedup_keeps_upper ps d seen : Forall upper_text ps -> d ∈ ps -> d ∉ seen -> d ∈ dedup_prefixes seen ps.
Proof.
  intros Hf. revert seen. induction Hf as [|p ps Hp Hf IH]; intros seen Hd Hs; cbn [dedup_prefixes]; [by apply elem_of_nil in Hd|].
  rewrite (upper_fixed p Hp). rewrite elem_of_cons in Hd. case_bool_decide as Hin; [destruct Hd as [-> |Hd]; [done|by apply IH]|].
  destruct (decide (d = p)) as [-> |Hne]; [left|right]. destruct Hd as [?|Hd]; [done|]. apply IH; [done|]. rewrite elem_of_cons. naive_solver.
Qed.

(** With an accepted configuration every derived prefix of a module
    stays in force, whatever prefixes are configured: they are in upper
    case, so the removal of duplicates up to case drops no other prefix. *)
Theorem accepted_prefixes_keep_derived (r : ModuleRuntimeSection) (m d : text) :
  runtime_validate r = Ok tt -> d ∈ derived_env_prefixes m -> d ∈ passthrough_prefixes (env_passthrough_prefixes r) m.
Proof.
  intros Hv Hd. unfold runtime_validate in Hv. checks Hv. unfold passthrough_prefixes. apply dedup_keeps_upper.
  - apply Forall_app. split; [|apply Forall_forall; apply derived_upper]. apply Forall_forall. intros p [_ Hp]%list_elem_of_filter.
    apply list_elem_of_fmap in Hp as (q & -> & Hq). rewrite Forall_forall in Hv. specialize (Hv q Hq). unfold prefix_validate in Hv. checks Hv.
    apply Forall_forall. intros c Hc. destruct (prefix_char c) eqn:E.
    + unfold prefix_char, is_ascii_upper, is_ascii_digit in E. rewrite !orb_true_iff, !andb_true_iff in E. unfold ascii_upper, is_ascii_lower. solve_guards.
    + exfalso. assert (Ht : existsb (λ c, negb (prefix_char c)) (trim q) = true); [|by rewrite Ht in Hv].
      apply existsb_exists. exists c. split; [by apply list_elem_of_In|by rewrite E].
  - apply elem_of_app. by right.
  - apply not_elem_of_nil.
Qed.

(** ** Witnesses: the shipped production profile *)

(** [config/default.toml] under [config/prod.toml], with the two settings a
    server overrides. *)
Definition shipped_identity : IdentitySection :=
  mkIdentity ProviderExternal (lit "prod") (lit "local") (mkIdEmbedded StorageFile (lit "identity/store.json") (lit "fenrir-control-plane"))
    (mkIdExternal (Some (lit "https://127.0.0.1:8081")) (Some (lit "https://127.0.0.1:8081/jwks.json")) (Some (lit "env:FENRIR_IDENTITY_TOKEN")) 300
       (lit "fenrir-control-plane")
       (mkIdTls (Some (lit "env:FENRIR_IDENTITY_TLS_CA")) (Some (lit "env:FENRIR_IDENTITY_TLS_CERT")) (Some (lit "env:FENRIR_IDENTITY_TLS_KEY")) false)).
Definition shipped_server : ServerSection :=
  let suites := [lit "TLS_AES_256_GCM_SHA384"; lit "TLS_AES_128_GCM_SHA256"] in
  mkServer true true
    (mkSsh (lit "127.0.0.1") 2222 (lit "test") (lit "fenrir-prod") (lit "keys/server/ssh/host_ed25519") (Some 30) (mkSshTls [] None))
    (mkHttp (lit "127.0.0.1") 8080 (mkHttpTls false (Some (lit "config/certs/server.crt")) (Some (lit "config/certs/server.key")) suites None))
    (Some (mkGrpc (lit "127.0.0.1") 50051
             (mkGrpcTls true (Some (lit "config/certs/server-grpc.crt")) (Some (lit "config/certs/server-grpc.key")) None suites None)))
    (Edge.mkEdge None []).
Definition shipped_security (control : list text) : SecuritySection :=
  mkSecurity (mkKdf (lit "argon2id") 1 64 3 2 16 32) (mkJwt (lit "fenrir") (lit "fenrir-clients") 3600) [lit "AES-GCM"; lit "XChaCha20-Poly1305"]
    control (Sessions.mkSection 3600 900 300) (ServiceTokens.mkSection 900 300 60 3600) shipped_identity
    (mkPasswordPolicy 12 128 true true true false true).
Definition shipped_db : DbSection :=
  mkDb (lit "postgres") (mkDbConnections (Some (mkDbConnection (lit "env:FENRIR_DB_POSTGRES_URI") (mkDbPool (Some 16) (Some 5000)))) None None None)
    (mkDbRuntime Embedded
       (mkDbEmbedded Postgres (mkSqlite (lit "runtime/db/fenrir.db") None)
          (mkPostgres (lit "/opt/fenrir/tmp/runtime/db/postgres") (lit "postgres") (mkPgPorts 55432 55442)) (mkDbSecurity ScramSha256 true 0)))
    (mkDbSchema (lit "/opt/fenrir/development/tmp/schemas") (lit "/opt/fenrir/development/tmp/schemas") true)
    (mkBackupSection true (lit "daily") 7 (lit "backups") 500 true true 0 None) 30000.
Definition shipped_runtime (prefixes : list text) : ModuleRuntimeSection :=
  mkModuleRuntime Process Dynamic (mkRange 41000 46000) [lit "db:read"] clients_empty
    (mkRuntimeRollout true 750 true 750 250 15000 500 true true replacement_empty) prefixes.
Definition shipped_profile : ModuleServiceProfile :=
  mkServiceProfile None default_rollout [(lit "FENRIR_CONTROL_PLANE_TIMEOUT_MS", lit "2500")] [] None [] [] None None None false.
Definition shipped_modules : ModulesSection :=
  mkModules (mkModuleRegistry (lit "http://localhost:8443") false [] (Some (lit "env:FENRIR_REGISTRY_TOKEN"))
               (mkRegistryTls (Some (lit "env:FENRIR_IDENTITY_TLS_CA")) (Some (lit "env:FENRIR_IDENTITY_TLS_CERT")) (Some (lit "env:FENRIR_IDENTITY_TLS_KEY")) false))
    (mkModuleStorage (lit "/opt/modules") (Some (lit "/opt/modules/.cache"))) (shipped_runtime []) [lit "fenrir-api"]
    (mkTrust false [lit "module-registry"] (Some (lit "config/modules/keyring.json"))) (Some [])
    [(lit "module:athenos-api", mkServiceOverride (Some (lit "control_plane_standard")) None default_rollout [] [] (mkPolicyOverride None [] [] None))]
    [(lit "control_plane_standard", shipped_profile)].
Definition shipped_config (control : list text) : AppConfig :=
  mkConfig (mkApp (lit "fenrir") (lit "1.0.0") None None false) shipped_server (shipped_security control) shipped_db
    (mkTelemetry (lit "error") true None true true (Some 5000) (mkHistory (Some 1) None (Some 120) (Some 30)) logs_default)
    (mkAudit true (Some 2048) (mkAuditStorage (Some (lit "runtime/audit/fenrir-audit-history.json")) None (Some 2) (Some 30)))
    (lit "default") shipped_modules runtime_default Development.

#[local] Instance shipped_libs : ConfigLibs := {| build_config := λ _ _, Ok (shipped_config [lit "admin:env:FENRIR_HTTP_TOKEN_ADMIN"]) |}.
Definition server_env : Env :=
  [(ENV_ENV, lit "prod"); (lit "FENRIR_DB_POSTGRES_URI", lit "postgresql://db"); (lit "FENRIR_REGISTRY_TOKEN", lit "registry-token-0123456789");
   (lit "FENRIR_HTTP_TOKEN_ADMIN", lit "0123456789abcdef0123456789abcdef")].
(** The profile file of the repository sets the development mode when no
    mode is set. *)
Definition server_files : Files :=
  mkFiles (λ p, bool_decide (p ∈ [PROFILE_FILE; lit "config/prod.toml"; LOCAL_OVERRIDE_FILE]))
    (λ p, if bool_decide (p = PROFILE_FILE) then Some (env_text [(ENV_ENV, lit "dev"); (lit "FENRIR_USER", lit "admin")]) else None).
Definition no_files (p : text) : result text text := Err (lit "no such file").

Lemma production_start_is_safe_witness : exists env' cfg, load server_files no_files server_env = (env', Ok cfg)
  /\ ssh_user (ssh (server cfg)) = lit "admin" /\ mode cfg = Production /\ production_safe (mkHost env' no_files) cfg.
Proof.
  destruct (load server_files no_files server_env) as [env' [cfg|e]] eqn:E.
  - exists env', cfg. split; [done|]. split.
    + assert (Hu : match (load server_files no_files server_env).2 with Ok c => bool_decide (ssh_user (ssh (server c)) = lit "admin") | Err _ => false end = true)
        by (vm_compute; reflexivity). rewrite E in Hu. by apply bool_decide_eq_true in Hu.
    + apply (production_start_is_safe server_files no_files server_env env' cfg (lit "prod"));
        [vm_compute; reflexivity|apply (bool_decide_unpack (_ ∉ dev_names)); vm_compute; exact I|exact E].
  - exfalso. assert (Ho : is_ok (load server_files no_files server_env).2 = true) by (vm_compute; reflexivity). by rewrite E in Ho.
Defined.

Lemma env_file_roundtrip_witness : exists env', load_env_file (mkFiles (λ _, true) (λ _, Some (env_text [(lit "A", lit " x=1 "); (lit "B", []); (lit "A", lit "y")])))
    (lit "secrets/.env") [(lit "B", lit "kept")] = (env', Ok tt)
  /\ env_get env' (lit "A") = Some (lit " x=1 ") /\ env_get env' (lit "B") = Some (lit "kept").
Proof.
  destruct (env_file_roundtrip (mkFiles (λ _, true) (λ _, Some (env_text [(lit "A", lit " x=1 "); (lit "B", []); (lit "A", lit "y")])))
    (lit "secrets/.env") [(lit "A", lit " x=1 "); (lit "B", []); (lit "A", lit "y")] [(lit "B", lit "kept")]) as (env' & He & Hg).
  - repeat constructor; cbn; try discriminate; lia.
  - reflexivity.
  - exists env'. split; [exact He|]. rewrite !Hg. split; vm_compute; reflexivity.
Defined.

Lemma plain_registry_url_exact_witness : is_plain_remote_url (lit "http://10.0.0.5:8443/api") = true.
Proof.
  apply (plain_registry_url_exact (lit "10.0.0.5") (lit ":8443") (lit "/api")) with (b := 0x0A000005); [split_and!|..].
  - discriminate.
  - apply (bool_decide_unpack (Forall (λ c, is_whitespace c = false /\ c ∉ lit "[]:@/") (lit "10.0.0.5"))). vm_compute. exact I.
  - right. exists (lit "8443"). split; [reflexivity|]. repeat constructor.
  - split; [by right|]. repeat constructor.
  - lia.
  - vm_compute. reflexivity.
  - lia.
Defined.

Lemma configuration_files_are_chosen_witness : exists files, sources server_files server_env Production = Ok files /\ LOCAL_OVERRIDE_FILE ∉ files.
Proof.
  exists [lit "config/default.toml"; lit "config/prod.toml"]. assert (Hs : sources server_files server_env Production = Ok [lit "config/default.toml"; lit "config/prod.toml"])
    by (vm_compute; reflexivity). split; [exact Hs|]. intros Hin.
  destruct (proj2 (configuration_files_are_chosen _ _ _ _ Hs) eq_refl Hin) as [Hd|Hd]; revert Hd; vm_compute; discriminate.
Defined.

Lemma production_reads_local_profile_witness :
  sources server_files [(ENV_ENV, lit "prod"); (ENV_CONFIG_ENV, lit "local")] Production = Ok [lit "config/default.toml"; LOCAL_OVERRIDE_FILE].
Proof. apply production_reads_local_profile; vm_compute; reflexivity. Defined.

Definition file_host : Host := mkHost [(ENV_ENV, lit "prod"); (lit "FENRIR_DB_POSTGRES_URI", lit "postgresql://db"); (lit "FENRIR_REGISTRY_TOKEN", lit "registry-token-0123456789");
  (lit "ADMIN_FILE", lit "/run/admin")] (λ _, Ok (lit "x")).
Definition file_config : AppConfig := with_mode (shipped_config [lit "admin:env:ADMIN"]) Production.
Lemma file_token_length_unchecked_witness : validate file_host file_config = Ok tt
  /\ token_violations file_host (lit "admin:env:ADMIN") = [] /\ resolve_control_token file_host (lit "admin:env:ADMIN") = Ok (mkControlToken Admin (lit "x")).
Proof.
  split; [vm_compute; reflexivity|].
  apply (file_token_length_unchecked file_host Admin (lit "ADMIN") (lit "/run/admin") (lit "x"));
    [by repeat constructor|vm_compute; reflexivity|vm_compute; reflexivity|by repeat constructor|discriminate|reflexivity|vm_compute; discriminate].
Defined.

Lemma accepted_prefixes_keep_derived_witness : lit "SHOP_" ∈ passthrough_prefixes [lit "SHOP_"; lit "AUTH_"] (lit "shop").
Proof.
  apply (accepted_prefixes_keep_derived (shipped_runtime [lit "SHOP_"; lit "AUTH_"]) (lit "shop") (lit "SHOP_")); [vm_compute; reflexivity|].
  apply (bool_decide_unpack (lit "SHOP_" ∈ derived_env_prefixes (lit "shop"))). vm_compute. exact I.
Defined.
