(* ===== verification/ServiceOverrides.v ===== *)
(** * Overrides of module services ([services/module/config.rs])

    What the configuration says about the services of modules: profiles and
    the sections of single services become, for each service, its
    environment variables, security override, replica count and rollout.
    Profiles and overrides are applied to the descriptors of services.

    A [HashMap] that is read once is the list of its entries in the order of
    the iteration.  The calls of [expect] are the failure [Panic]. *)

From S2P Require Import Prelude Text Roles ServiceTokens ServiceTypes Gateway Rollout ModuleEnv ConfigCheck.

#[local] Open Scope fenrir_scope.

Inductive OverrideError := Refuse (e : ConfigError) | Panic.

Fixpoint traverse {A B E} (f : A -> result B E) (l : list A) : result (list B) E :=
  match l with
  | [] => Ok []
  | x :: l => y <-? f x;; ys <-? traverse f l;; Ok (y :: ys)
  end.

(** ** Descriptors ([services/types.rs]) *)

Inductive ServiceKind := Infrastructure | Transport | BackgroundJob | KCli | KSecurity | KStorage | KOther.
Inductive ServiceTag := Core | Platform | Auxiliary.

Record ServiceDescriptorOwned := mkServiceDescriptor {
  sd_id : text; sd_name : text; sd_description : text; sd_kind : ServiceKind; sd_critical : bool; sd_tags : list ServiceTag;
  sd_security : option ServiceSecurityMetadata; sd_ingress : option ServiceIngressMetadata;
}.
Definition descriptor_new (id name description : text) (k : ServiceKind) : ServiceDescriptorOwned :=
  mkServiceDescriptor id name description k false [] None None.
Definition with_tags (d : ServiceDescriptorOwned) (tags : list ServiceTag) : ServiceDescriptorOwned :=
  mkServiceDescriptor (sd_id d) (sd_name d) (sd_description d) (sd_kind d) (sd_critical d) tags (sd_security d) (sd_ingress d).
Definition with_security (d : ServiceDescriptorOwned) (m : ServiceSecurityMetadata) : ServiceDescriptorOwned :=
  mkServiceDescriptor (sd_id d) (sd_name d) (sd_description d) (sd_kind d) (sd_critical d) (sd_tags d) (Some m) (sd_ingress d).
Definition with_ingress (d : ServiceDescriptorOwned) (i : ServiceIngressMetadata) : ServiceDescriptorOwned :=
  mkServiceDescriptor (sd_id d) (sd_name d) (sd_description d) (sd_kind d) (sd_critical d) (sd_tags d) (sd_security d) (Some i).

(** ** Security overrides *)

Record ServiceSecurityOverride := mkSecurityOverride {
  ov_internal_only : option bool; ov_allowed_roles : option (list ServiceRole); ov_required_scopes : option (list ServiceScope);
  ov_tenant_guard : option ServiceTenantGuard;
}.
Definition no_override : ServiceSecurityOverride := mkSecurityOverride None None None None.
Definition override_is_set (o : ServiceSecurityOverride) : bool :=
  is_set (ov_internal_only o) || is_set (ov_allowed_roles o) || is_set (ov_required_scopes o) || is_set (ov_tenant_guard o).

(** The roles, scopes and tenant of a section; [owner] is its name in messages. *)
Definition parse_roles (owner : text) (roles : list text) : result (option (list ServiceRole)) OverrideError :=
  if bool_decide (roles = []) then Ok None
  else
    rs <-? traverse (λ role, map_err (λ _, Refuse (InvalidMessage (owner ++ lit "allowed_roles contains unknown role '" ++ role ++ lit "'")))
                               (ServiceRole.from_str role)) roles;;
    Ok (Some rs).
Definition parse_scopes (owner : text) (scopes : list text) : result (option (list ServiceScope)) OverrideError :=
  if bool_decide (scopes = []) then Ok None
  else
    ss <-? traverse (λ scope, map_err (λ _, Refuse (InvalidMessage (owner ++ lit "required_scopes '" ++ scope ++ lit "' invalid")))
                                (ServiceScope.new scope)) scopes;;
    Ok (Some ss).
Definition guard_of (t : ModuleServiceTenantConfig) : result ServiceTenantGuard OverrideError :=
  match tenant_mode t with
  | TenantAny => Ok AnyTenant
  | TenantFixed => match non_empty (tenant_value t) with Some value => Ok (ServiceTypes.Fixed (str_of value)) | None => Err Panic end
  | TenantAllowList => Ok (AllowList (str_of <$> tenant_allow t))
  end.
Definition guard_when_set (t : option ModuleServiceTenantConfig) : result (option ServiceTenantGuard) OverrideError :=
  match t with Some t => g <-? guard_of t;; Ok (Some g) | None => Ok None end.

Definition from_policy (service_id : text) (p : ModuleServicePolicyOverride) : result (option ServiceSecurityOverride) OverrideError :=
  let owner := lit "modules.services." ++ service_id ++ lit ".policy." in
  roles <-? parse_roles owner (po_allowed_roles p);;
  scopes <-? parse_scopes owner (po_required_scopes p);;
  guard <-? guard_when_set (po_tenant p);;
  let o := mkSecurityOverride (po_internal_only p) roles scopes guard in
  Ok (if override_is_set o then Some o else None).

Definition override_apply (o : ServiceSecurityOverride) (base : ServiceSecurityMetadata) : ServiceSecurityMetadata :=
  ServiceTypes.mkSecurity (default (internal_only base) (ov_internal_only o)) (default (allowed_roles base) (ov_allowed_roles o))
    (default (required_scopes base) (ov_required_scopes o)) (default (tenant base) (ov_tenant_guard o)).

(** [self.apply_override(base)]: the settings of [self] come first. *)
Definition apply_override (self base : ServiceSecurityOverride) : ServiceSecurityOverride :=
  mkSecurityOverride (or_else (ov_internal_only self) (ov_internal_only base)) (or_else (ov_allowed_roles self) (ov_allowed_roles base))
    (or_else (ov_required_scopes self) (ov_required_scopes base)) (or_else (ov_tenant_guard self) (ov_tenant_guard base)).

(** ** Environment variables of a section *)

Definition env_error (owner name : text) (e : EnvVarError) : OverrideError :=
  Refuse (InvalidMessage match e with
    | KeyEmpty => lit "modules.services." ++ owner ++ lit " env keys must not be empty"
    | KeyWhitespace => lit "modules.services." ++ owner ++ lit " env key '" ++ trim name ++ lit "' must not contain whitespace"
    | RefEmpty => lit "modules.services." ++ owner ++ lit ".env." ++ trim name ++ lit " references an empty environment variable"
    | SecretNotRef => lit "modules.services." ++ owner ++ lit ".secrets." ++ trim name ++ lit " must reference env:<VAR>"
    end).
Definition section_vars (owner : text) (env secrets : list (text * text)) : result (list ModuleEnvVar) OverrideError :=
  plain <-? traverse (λ kv, map_err (env_error owner kv.1) (ModuleEnvVar_new kv.1 kv.2 false)) env;;
  secret <-? traverse (λ kv, map_err (env_error owner kv.1) (ModuleEnvVar_new kv.1 kv.2 true)) secrets;;
  Ok (plain ++ secret).

Section Overrides.
Context {FL : Floats}.

(** ** Profiles *)

Record ModuleServiceProfileResolved := mkProfile {
  pr_desired_replicas : option Z; pr_rollout : ModuleServiceRolloutConfig; pr_env : list ModuleEnvVar; pr_internal_only : option bool;
  pr_allowed_roles : option (list ServiceRole); pr_required_scopes : option (list ServiceScope); pr_tenant_guard : option ServiceTenantGuard;
  pr_ingress_access : option ServiceIngressAccess; pr_rate_limit : option ServiceRateLimit;
}.

Definition parse_access (owner : text) (a : option text) : result (option ServiceIngressAccess) OverrideError :=
  match a with
  | None => Ok None
  | Some access =>
      let value := to_ascii_lowercase (trim access) in
      if bool_decide (value = lit "public") then Ok (Some Public)
      else if bool_decide (value = lit "internal") then Ok (Some Internal)
      else Err (Refuse (InvalidMessage (owner ++ lit "ingress_access '" ++ access ++ lit "' invalid (expected 'public' or 'internal')")))
  end.
Definition parse_rate_limit (owner : text) (p : ModuleServiceProfile) : result (option ServiceRateLimit) OverrideError :=
  if disable_rate_limit p && is_set (rate_limit_per_second p) then
    Err (Refuse (InvalidMessage (owner ++ lit " cannot set both disable_rate_limit and rate_limit_per_second")))
  else if disable_rate_limit p then Ok (Some Unlimited)
  else match rate_limit_per_second p with
       | Some limit =>
           if limit =? 0 then Err (Refuse (InvalidMessage (owner ++ lit ".rate_limit_per_second must be > 0"))) else Ok (Some (CustomPerSecond limit))
       | None => Ok None
       end.

Definition from_profile (name : text) (p : ModuleServiceProfile) : result ModuleServiceProfileResolved OverrideError :=
  let owner := lit "modules.service_profiles." ++ name in
  vars <-? section_vars name (sp_env p) (sp_secrets p);;
  roles <-? parse_roles (owner ++ lit ".") (sp_allowed_roles p);;
  scopes <-? parse_scopes (owner ++ lit ".") (sp_required_scopes p);;
  guard <-? guard_when_set (sp_tenant p);;
  access <-? parse_access (owner ++ lit ".") (sp_ingress_access p);;
  limit <-? parse_rate_limit owner p;;
  Ok (mkProfile (sp_replicas p) (sp_rollout p) vars (sp_internal_only p) roles scopes guard access limit).

Definition profile_security (p : ModuleServiceProfileResolved) : ServiceSecurityOverride :=
  mkSecurityOverride (pr_internal_only p) (pr_allowed_roles p) (pr_required_scopes p) (pr_tenant_guard p).
Definition security_override_of (p : ModuleServiceProfileResolved) : option ServiceSecurityOverride :=
  if override_is_set (profile_security p) then Some (profile_security p) else None.

Definition profile_apply (p : ModuleServiceProfileResolved) (d : ServiceDescriptorOwned) : ServiceDescriptorOwned :=
  let security := override_apply (profile_security p) (default internal_default (sd_security d)) in
  let ingress := default internal (sd_ingress d) in
  let acc := match pr_ingress_access p with
             | Some a => a
             | None => match pr_internal_only p with Some true => Internal | Some false => Public | None => access ingress end
             end in
  with_ingress (with_security d security)
    (mkIngress (route_prefix ingress) (health_endpoint ingress) acc (default (rate_limit ingress) (pr_rate_limit p)) (protocols ingress)).

(** ** The overrides of all services *)

Record ModuleServiceOverrides := mkOverrides {
  o_env : gmap text (list ModuleEnvVar); o_security : gmap text ServiceSecurityOverride; o_replicas : gmap text Z;
  o_rollout : gmap text ModuleServiceRolloutConfig; o_profiles : gmap text ModuleServiceProfileResolved;
}.
Definition empty_overrides : ModuleServiceOverrides := mkOverrides ∅ ∅ ∅ ∅ ∅.

Fixpoint load_profiles (profiles : list (text * ModuleServiceProfile)) (acc : gmap text ModuleServiceProfileResolved)
    : result (gmap text ModuleServiceProfileResolved) OverrideError :=
  match profiles with
  | [] => Ok acc
  | (raw, p) :: profiles =>
      let name := trim raw in
      if bool_decide (name = []) then Err (Refuse (Invalid (lit "modules.service_profiles keys must not be empty")))
      else resolved <-? from_profile name p;; load_profiles profiles (<[name := resolved]> acc)
  end.

(** What one service's section comes to. *)
Record ServiceEntry := mkEntry {
  e_vars : list ModuleEnvVar; e_security : option ServiceSecurityOverride; e_replicas : option Z; e_rollout : ModuleServiceRolloutConfig;
}.

Definition service_entry (profiles : gmap text ModuleServiceProfileResolved) (service_id : text) (c : ModuleServiceOverride)
    : result ServiceEntry OverrideError :=
  base <-? match non_empty (so_profile c) with
           | None => Ok (mkEntry [] None None default_rollout)
           | Some name =>
               p <-? ok_or (profiles !! name)
                      (Refuse (InvalidMessage (lit "modules.services." ++ service_id ++ lit ".profile references unknown service profile '" ++ name ++ lit "'")));;
               Ok (mkEntry (pr_env p) (security_override_of p) (pr_desired_replicas p) (merge_rollout_config default_rollout (pr_rollout p)))
           end;;
  vars <-? section_vars service_id (so_env c) (so_secrets c);;
  policy <-? from_policy service_id (so_policy c);;
  let security := match policy with
                  | Some o => Some (apply_override o (default no_override (e_security base)))
                  | None => e_security base
                  end in
  Ok (mkEntry (e_vars base ++ vars) security (or_else (so_replicas c) (e_replicas base)) (merge_rollout_config (e_rollout base) (so_rollout c))).

Definition add_entry (service_id : text) (e : ServiceEntry) (o : ModuleServiceOverrides) : ModuleServiceOverrides :=
  mkOverrides
    (if bool_decide (e_vars e = []) then o_env o else <[service_id := e_vars e]> (o_env o))
    (match e_security e with Some s => <[service_id := s]> (o_security o) | None => o_security o end)
    (match e_replicas e with Some n => <[service_id := n]> (o_replicas o) | None => o_replicas o end)
    (if is_configured (e_rollout e) then <[service_id := e_rollout e]> (o_rollout o) else o_rollout o)
    (o_profiles o).

Fixpoint load_services (entries : list (text * ModuleServiceOverride)) (o : ModuleServiceOverrides) : result ModuleServiceOverrides OverrideError :=
  match entries with
  | [] => Ok o
  | (raw, c) :: entries =>
      let service_id := trim raw in
      if bool_decide (service_id = []) then Err (Refuse (Invalid (lit "modules.services keys must not be empty")))
      else e <-? service_entry (o_profiles o) service_id c;; load_services entries (add_entry service_id e o)
  end.

Definition from_config (entries : list (text * ModuleServiceOverride)) (profiles : list (text * ModuleServiceProfile))
    : result ModuleServiceOverrides OverrideError :=
  ps <-? load_profiles profiles ∅;; load_services entries (mkOverrides ∅ ∅ ∅ ∅ ps).

Definition env_for (o : ModuleServiceOverrides) (service_id : text) : list ModuleEnvVar :=
  concat ((λ candidate, default [] (o_env o !! candidate)) <$> service_candidates service_id).
Definition security_override (o : ModuleServiceOverrides) (service_id : text) : option ServiceSecurityOverride :=
  first_of (o_security o) (service_candidates service_id).
Definition desired_replicas_for (o : ModuleServiceOverrides) (service_id : text) : option Z :=
  first_of (o_replicas o) (service_candidates service_id).

(** [apply_descriptor_overrides] of [services/module/service.rs]; a poisoned
    lock gives the overrides of an empty configuration. *)
Definition apply_descriptor_overrides (o : ModuleServiceOverrides) (d : ServiceDescriptorOwned) : ServiceDescriptorOwned :=
  match security_override o (sd_id d) with
  | Some policy => with_security d (override_apply policy (default internal_default (sd_security d)))
  | None => d
  end.
End Overrides.
