(* ===== verification/ReportedServices.v ===== *)
(** * Services a module reports ([services/module/runtime.rs],
    [services/module/reported.rs], the handler [register_module_services] of
    [infra/http/routes.rs])

    A running module names the services it offers, when the host asks each
    running instance or when the module publishes them with a signature.
    The host turns each entry into a descriptor under the module's own
    prefix, registers it and records where the service is reached; both are
    replaced as a whole by the next report.

    The registry is that of [Registry], keyed by the id of the descriptor.
    [rs_endpoints] maps a service URI to its addresses; the snapshot file
    holds what was last written of it.  [disk] answers whether the n-th
    write of the snapshot succeeds. *)

From stdpp Require Import pretty.
From S2P Require Import Prelude Text Edge Roles ServiceTokens ServiceTypes Registry Gateway Manifests Rollout ModuleEnv TokenExchange ConfigCheck ServiceOverrides.

#[local] Open Scope fenrir_scope.

Record ReportedServiceEntry := mkReported {
  re_service_id : text; re_profile : option text; re_name : option text; re_description : option text; re_kind : option text;
  re_tags : list text; re_route_prefix : option text; re_health_path : option text; re_internal_only : option bool;
  re_ingress_access : option text; re_protocols : list text; re_required_scopes : list text; re_allowed_roles : list text;
}.

(** ** Reading an entry *)

Definition map_kind (value : option text) : ServiceKind :=
  match value with
  | None => KOther
  | Some raw =>
      let v := to_ascii_lowercase (trim raw) in
      if bool_decide (v = lit "transport") then Transport
      else if bool_decide (v = lit "infrastructure") then Infrastructure
      else if bool_decide (v = lit "security") then KSecurity
      else if bool_decide (v = lit "storage") then KStorage
      else if bool_decide (v = lit "background" \/ v = lit "job") then BackgroundJob
      else if bool_decide (v = lit "cli") then KCli else KOther
  end.
Definition map_tag (value : text) : option ServiceTag :=
  let v := to_ascii_lowercase (trim value) in
  if bool_decide (v = lit "core") then Some Core
  else if bool_decide (v = lit "platform") then Some Platform
  else if bool_decide (v = lit "auxiliary") then Some Auxiliary else None.
Definition map_tags (values : list text) : list ServiceTag := omap map_tag values.
Definition map_protocol (value : text) : ServiceIngressProtocol :=
  if bool_decide (to_ascii_lowercase (trim value) = lit "grpc") then Grpc else Http.
Definition map_protocols (values : list text) : list ServiceIngressProtocol :=
  foldl (λ ps value, let p := map_protocol value in if bool_decide (p ∈ ps) then ps else ps ++ [p]) [] values.
Definition map_roles (values : list text) : list ServiceRole :=
  omap (λ value, match ServiceRole.from_str value with Ok r => Some r | Err _ => None end) values.
Definition map_scopes (values : list text) : result (list ServiceScope) text :=
  traverse (λ value, map_err (λ _, lit "invalid scope " ++ value) (ServiceScope.new value)) values.

(** ** Names *)

Definition module_service (m : ModuleId) : text := lit "module:" ++ id_text m.
Definition descriptor_id (m : ModuleId) (suffix : text) : text := lit "module:" ++ id_text m ++ lit "::" ++ suffix.
Definition service_uri (m : ModuleId) (suffix : text) : text := lit "service://" ++ descriptor_id m suffix.
Definition uri_prefix (m : ModuleId) : text := lit "service://module:" ++ id_text m ++ lit "::".

Definition reported_service_endpoint (port : Z) (prefix : option text) : string :=
  str_of (lit "http://127.0.0.1:" ++ lit (pretty (Z.to_N port)) ++ default (lit "/") (non_empty prefix)).

(** ** State *)

Record Reported := mkState {
  rs_registry : @ServiceRegistry ServiceDescriptorOwned;
  rs_runtime_services : gmap text (list text);
  rs_endpoints : gmap text (list string);
  rs_snapshot : option (gmap text (list string));
  rs_writes : nat;
}.
Definition set_registry (s : Reported) r := mkState r (rs_runtime_services s) (rs_endpoints s) (rs_snapshot s) (rs_writes s).
Definition set_services (s : Reported) v := mkState (rs_registry s) v (rs_endpoints s) (rs_snapshot s) (rs_writes s).
Definition set_endpoints (s : Reported) e := mkState (rs_registry s) (rs_runtime_services s) e (rs_snapshot s) (rs_writes s).

Definition key_of (d : ServiceDescriptorOwned) : string := str_of (sd_id d).

Section Reported.
Context {FL : Floats} (overrides : ModuleServiceOverrides).
Context (snapshot_path : bool) (disk : nat -> bool).

Definition persist_service_snapshot (s : Reported) : Reported :=
  if snapshot_path then
    mkState (rs_registry s) (rs_runtime_services s) (rs_endpoints s)
      (if disk (rs_writes s) then Some (rs_endpoints s) else rs_snapshot s) (S (rs_writes s))
  else s.

(** [guard.retain(|uri, _| !uri.starts_with(&prefix))]. *)
Definition retain_others (m : ModuleId) (e : gmap text (list string)) : gmap text (list string) :=
  filter (λ kv, starts_with (uri_prefix m) kv.1 = false) e.

Definition unregister_ids (r : @ServiceRegistry ServiceDescriptorOwned) (ids : list text) : @ServiceRegistry ServiceDescriptorOwned :=
  foldl (λ r i, unregister r (str_of i)) r ids.

Definition clear_reported_services (m : ModuleId) (s : Reported) : Reported :=
  let removed := rs_runtime_services s !! id_text m in
  let s := set_services s (delete (id_text m) (rs_runtime_services s)) in
  let s := match removed with Some ids => set_registry s (unregister_ids (rs_registry s) ids) | None => s end in
  persist_service_snapshot (set_endpoints s (retain_others m (rs_endpoints s))).

(** ** Descriptors *)

Definition reported_ingress (e : ReportedServiceEntry) : ServiceIngressMetadata :=
  let i := if default (negb (bool_decide (re_ingress_access e = Some (lit "public")))) (re_internal_only e) then internal else public in
  let i := match re_route_prefix e with Some p => with_route_prefix i p | None => i end in
  let i := match re_health_path e with Some h => with_health_endpoint i h | None => i end in
  match re_protocols e with [] => i | ps => with_protocols i (map_protocols ps) end.

Definition reported_security (e : ReportedServiceEntry) : result ServiceSecurityMetadata text :=
  let s := if default true (re_internal_only e) then internal_default
           else ServiceTypes.mkSecurity false (allowed_roles internal_default) (required_scopes internal_default) (tenant internal_default) in
  let s := match re_allowed_roles e with
           | [] => s
           | roles => ServiceTypes.mkSecurity (internal_only s) (map_roles roles) (required_scopes s) (tenant s)
           end in
  match re_required_scopes e with
  | [] => Ok s
  | values => scopes <-? map_scopes values;; Ok (ServiceTypes.mkSecurity (internal_only s) (allowed_roles s) scopes (tenant s))
  end.

Definition build_descriptor_from_report (m : ModuleId) (manifest_description : option text) (port : Z) (e : ReportedServiceEntry)
    : result (ServiceDescriptorOwned * string * text) text :=
  let suffix := trim (re_service_id e) in
  if bool_decide (suffix = []) then Err (lit "reported service id must not be empty")
  else
    let name := default (id_text m ++ lit "::" ++ suffix) (re_name e) in
    let description := default (lit "service " ++ suffix ++ lit " of module " ++ id_text m) (or_else (re_description e) manifest_description) in
    let d := descriptor_new (descriptor_id m suffix) name description (map_kind (re_kind e)) in
    let d := match re_tags e with [] => d | tags => with_tags d (map_tags tags) end in
    let d := with_ingress d (reported_ingress e) in
    security <-? reported_security e;;
    let d := with_security d security in
    let d := match re_profile e with
             | Some name => match o_profiles overrides !! name with Some p => profile_apply p d | None => d end
             | None => d
             end in
    let d := apply_descriptor_overrides overrides d in
    let route_base := default (lit "/") (sd_ingress d ≫= route_prefix) in
    Ok (d, reported_service_endpoint port (Some route_base), suffix).

(** ** Applying a report *)

Definition endpoint_note (endpoint : string) : string := "endpoint " +:+ endpoint.

(** The entries of the first instance: each valid one is registered. *)
Fixpoint register_entries (m : ModuleId) (description : option text) (port now : Z) (entries : list ReportedServiceEntry)
    (r : @ServiceRegistry ServiceDescriptorOwned) (registered : list text) (endpoints : gmap text (list string))
    : @ServiceRegistry ServiceDescriptorOwned * list text * gmap text (list string) :=
  match entries with
  | [] => (r, registered, endpoints)
  | e :: entries =>
      match build_descriptor_from_report m description port e with
      | Ok (d, endpoint, suffix) =>
          register_entries m description port now entries (register key_of r d Active (Some (endpoint_note endpoint)) now)
            (registered ++ [sd_id d]) (<[service_uri m suffix := [endpoint]]> endpoints)
      | Err _ => register_entries m description port now entries r registered endpoints
      end
  end.

(** The entries of a further instance add an address. *)
Definition add_endpoint (m : ModuleId) (port : Z) (endpoints : gmap text (list string)) (e : ReportedServiceEntry) : gmap text (list string) :=
  let suffix := trim (re_service_id e) in
  if bool_decide (suffix = []) then endpoints
  else
    let uri := service_uri m suffix in
    let endpoint := reported_service_endpoint port (re_route_prefix e) in
    let known := default [] (endpoints !! uri) in
    <[uri := if bool_decide (endpoint ∈ known) then known else known ++ [endpoint]]> endpoints.

Definition add_instance (m : ModuleId) (endpoints : gmap text (list string)) (p : Z * list ReportedServiceEntry) : gmap text (list string) :=
  foldl (add_endpoint m p.1) endpoints p.2.

Definition apply_reported_services (m : ModuleId) (description : option text) (payloads : list (Z * list ReportedServiceEntry)) (now : Z) (s : Reported)
    : bool * Reported :=
  match filter (λ p, p.2 <> []) payloads with
  | [] => (false, clear_reported_services m s)
  | (primary_port, primary) :: rest =>
      let s := clear_reported_services m s in
      let '(r, registered, endpoints) := register_entries m description primary_port now primary (rs_registry s) [] ∅ in
      let s := set_registry s r in
      if bool_decide (registered = []) then (false, s)
      else
        let endpoints := foldl (add_instance m) endpoints rest in
        let s := set_services s (<[id_text m := registered]> (rs_runtime_services s)) in
        let s := set_endpoints s ((merge_sort String.le <$> endpoints) ∪ retain_others m (rs_endpoints s)) in
        (true, persist_service_snapshot s)
  end.

(** ** The module's own entry ([services/module/service.rs]) *)

(** What the host reads of a module's manifest. *)
Record ManifestView := mkManifestView { mf_id : text; mf_title : option text; mf_description : option text }.

Definition module_service_descriptor (m : ModuleId) (f : ManifestView) : ServiceDescriptorOwned :=
  with_ingress
    (with_security
       (with_tags (descriptor_new (module_service m) (default (mf_id f) (mf_title f)) (default (lit "module " ++ mf_id f) (mf_description f)) KOther) [Core])
       (with_tenant_guard internal_default (ServiceTypes.Fixed DEFAULT_SERVICE_TENANT)))
    (with_health_endpoint internal (lit "/health")).

Definition ensure_module_service_entry (m : ModuleId) (f : ManifestView) (now : Z) (s : Reported) : Reported :=
  match get (rs_registry s) (str_of (module_service m)) with
  | Some _ => s
  | None =>
      set_registry s (register key_of (rs_registry s) (apply_descriptor_overrides overrides (module_service_descriptor m f))
                        Standby (Some "installed") now)
  end.

(** ** Asking the instances *)

(** [sort_by_key] is stable; [dedup] removes neighbours that are equal. *)
Fixpoint dedup (l : list Z) : list Z :=
  match l with
  | [] => []
  | x :: l => match dedup l with [] => [x] | y :: l' => if x =? y then y :: l' else x :: y :: l' end
  end.
Definition order_ports (preferred : option Z) (ports : list Z) : list Z :=
  match preferred with
  | Some p => dedup (filter (λ q, q = p) ports ++ filter (λ q, q <> p) ports)
  | None => ports
  end.

(** Running instances with a port. *)
Definition running_ports (instances : list (bool * option Z)) : list Z := omap (λ i : bool * option Z, if i.1 then i.2 else None) instances.

(** What an instance answers at an attempt: a report, nothing (no such path,
    or no connection), or an error. *)
Context (fetch : nat -> Z -> result (option (list ReportedServiceEntry)) text).

Definition fetch_all (attempt : nat) (ports : list Z) : list (Z * list ReportedServiceEntry) :=
  omap (λ port, match fetch attempt port with Ok (Some p) => Some (port, p) | _ => None end) ports.

Fixpoint refresh_loop (m : ModuleId) (description : option text) (ports : list Z) (attempt remaining : nat) (now : nat -> Z) (s : Reported) : bool * Reported :=
  match remaining with
  | O => (false, s)
  | S remaining =>
      match apply_reported_services m description (fetch_all attempt ports) (now attempt) s with
      | (true, s) => (true, s)
      | (false, s) => refresh_loop m description ports (S attempt) remaining now s
      end
  end.

Definition attempt_count (retries : Z) : nat := Z.to_nat (Z.max (Z.min (retries + 1) (2 ^ 32 - 1)) 2).

Definition refresh_reported_services (m : ModuleId) (f : ManifestView) (retries : Z) (preferred : option Z)
    (instances : list (bool * option Z)) (now : nat -> Z) (s : Reported) : bool * Reported :=
  let ports := order_ports preferred (running_ports instances) in
  if bool_decide (ports = []) then (false, clear_reported_services m s)
  else match refresh_loop m (mf_description f) ports 0 (attempt_count retries) now s with
       | (true, s) => (true, s)
       | (false, s) => (false, ensure_module_service_entry m f (now (attempt_count retries)) s)
       end.
End Reported.

(** ** Publishing ([register_module_services]) *)

Record ModuleServicesPublishRequest := mkPublish {
  pb_module_id : text; pb_schema_version : option text; pb_signed_at : option text; pb_signature : option text;
  pb_services : list ReportedServiceEntry;
}.

(** HMAC-SHA256, JSON, base64 and timestamps are libraries'. *)
Class ManifestSigning := {
  sign_manifest_hmac_bytes : text -> list Z -> list Z;
  signature_payload_json : text -> text -> text -> list ReportedServiceEntry -> list Z;
  base64_decode : text -> option (list Z);
  parse_rfc3339 : text -> option Z;
}.

Definition MODULE_SERVICE_SIGNATURE_MAX_AGE_SECS : Z := 300.
Definition MODULE_SERVICE_SIGNATURE_MAX_FUTURE_SECS : Z := 60.

Inductive PublishError :=
| PGateway (r : Refusal) | POtherModule (module_id : text) | PInvalidModule (value : text) | PInvalidSignedAt | PSignedAtMissing
| PSignatureExpired | PSignatureMissing | PSignatureInvalid | PStorage | PNotInstalled | PNotRunning | PNoPort | PRuntime.
Definition publish_status (e : PublishError) : Z :=
  match e with
  | PGateway r => TokenExchange.status r
  | POtherModule _ | PSignatureInvalid => 403
  | PInvalidModule _ | PInvalidSignedAt | PSignedAtMissing | PSignatureMissing => 400
  | PSignatureExpired => 401
  | PNotInstalled => 404
  | PStorage | PNotRunning | PNoPort => 409
  | PRuntime => 500
  end.

Definition normalize_module_id (raw : text) : result ModuleId PublishError :=
  let value := trim raw in
  map_err (λ _, PInvalidModule value) (ModuleId_new (default value (strip_prefix (lit "module:") value))).

Section Publish.
Context {HT : HttpTypes} {MS : ManifestSigning} {FL : Floats} (overrides : ModuleServiceOverrides).
Context (snapshot_path : bool) (disk : nat -> bool).

(** The module as the host knows it: what the store of modules answers, with
    the description of its manifest, whether a development override is
    active, and what the runtime answers. *)
Record ModuleView := mkModuleView {
  mv_installed : result (option (option text)) unit; mv_dev_override : bool; mv_status : result (bool * option Z) PublishError;
}.

Definition register_reported_services (m : ModuleId) (v : ModuleView) (payload : list ReportedServiceEntry) (now : Z) (s : Reported)
    : result unit PublishError * Reported :=
  match mv_installed v with
  | Err _ => (Err PStorage, s)
  | Ok None => (Err PNotInstalled, s)
  | Ok (Some description) =>
      if mv_dev_override v then (Ok tt, s)
      else match mv_status v with
           | Err e => (Err e, s)
           | Ok (running, port) =>
               if negb running then (Err PNotRunning, s)
               else match port with
                    | None => (Err PNoPort, s)
                    | Some port => (Ok tt, (apply_reported_services overrides snapshot_path disk m description [(port, payload)] now s).2)
                    end
           end
  end.

Definition verify_service_manifest_signature (token : text) (payload : list Z) (signature : text) : bool :=
  match base64_decode signature with
  | Some bytes => bool_decide (bytes = sign_manifest_hmac_bytes token payload)
  | None => false
  end.

Definition check_signature (token : text) (p : ModuleServicesPublishRequest) (now : Z) : result unit PublishError :=
  signed_at <-? match pb_signed_at p with
                | Some value => ok_or (parse_rfc3339 value) PInvalidSignedAt
                | None => Err PSignedAtMissing
                end;;
  if (MODULE_SERVICE_SIGNATURE_MAX_AGE_SECS <? whole_seconds (now - signed_at)) || (MODULE_SERVICE_SIGNATURE_MAX_FUTURE_SECS <? whole_seconds (signed_at - now))
  then Err PSignatureExpired
  else
    signature <-? match pb_signature p with
                  | Some value => if blank value then Err PSignatureMissing else Ok value
                  | None => Err PSignatureMissing
                  end;;
    let bytes := signature_payload_json (pb_module_id p) (default (lit "1.0") (pb_schema_version p)) (default [] (pb_signed_at p)) (pb_services p) in
    if verify_service_manifest_signature token bytes signature then Ok tt else Err PSignatureInvalid.

(** [elapsed] and [now] are the readings of the token store and the clock,
    [view] what the host answers about a module. *)
Definition register_module_services (has_module_service has_security : bool) (headers : ProxyHeaders.HeaderMap) (p : ModuleServicesPublishRequest)
    (view : ModuleId -> ModuleView) (elapsed now : Z) (st : ServiceTokenStore) (s : Reported)
    : result unit PublishError * ServiceTokenStore * Reported :=
  if negb has_module_service then (Err (PGateway (mkRefusal 503 (MGateway module_service_missing))), st, s)
  else if negb has_security then (Err (PGateway (mkRefusal 503 (MGateway gateway_security_unavailable))), st, s)
  else
    match extract_gateway_token headers with
    | Err problem => (Err (PGateway (of_problem problem)), st, s)
    | Ok token =>
        match ServiceTokens.validate st (str_of token) elapsed now with
        | (Err e, st) => (Err (PGateway (of_problem (map_service_token_error e))), st, s)
        | (Ok claims, st) =>
            match module_id_from_claims claims with
            | Err r => (Err (PGateway r), st, s)
            | Ok module_id =>
                match normalize_module_id (pb_module_id p) with
                | Err e => (Err e, st, s)
                | Ok payload_module_id =>
                    if negb (bool_decide (id_text module_id = id_text payload_module_id)) then (Err (POtherModule (pb_module_id p)), st, s)
                    else match check_signature token p now with
                         | Err e => (Err e, st, s)
                         | Ok _ => let '(r, s) := register_reported_services module_id (view module_id) (pb_services p) now s in (r, st, s)
                         end
                end
            end
        end
    end.
End Publish.
