(* ===== verification/ReportedSafety.v ===== *)
(** * Theorems on reported services and overrides

    On [ServiceOverrides] and [ReportedServices]: a report changes nothing
    outside its module, what is registered and recorded is what the last
    report said, published reports are authentic, the configuration's
    security settings win over those a module reports, and the settings of
    an accepted configuration never panic. *)

From S2P Require Import Prelude Text Edge Roles ServiceTokens ServiceTypes Registry Gateway Manifests Rollout ModuleEnv TokenExchange TokenExchangeSafety ConfigCheck ConfigSafety ServiceOverrides ReportedServices.

#[local] Open Scope fenrir_scope.

(** ** Keys of the registry *)

Lemma str_bytes_app a b : bytes_of (str_of (a ++ b)) = bytes_of (str_of a) ++ bytes_of (str_of b).
Proof.
  unfold bytes_of, str_of. rewrite !String.list_ascii_of_string_of_list_ascii. unfold utf8. by rewrite fmap_app, concat_app, !fmap_app.
Qed.

Lemma module_prefix_ascii m : id_ok m -> Forall (λ c, 0 <= c < 128) (lit "module:" ++ id_text m).
Proof. intros [_ Hc]. apply Forall_app. split; [by repeat constructor; lia|by apply id_chars_ascii]. Qed.

(** The keys a module's reported services have. *)
Definition own_key (m : ModuleId) (k : string) : Prop := exists r, bytes_of k = (lit "module:" ++ id_text m) ++ 58 :: 58 :: r.

Lemma descriptor_key m suffix : id_ok m -> own_key m (str_of (descriptor_id m suffix)).
Proof.
  intros Hm. exists (bytes_of (str_of suffix)). unfold descriptor_id.
  replace (lit "module:" ++ id_text m ++ lit "::" ++ suffix) with ((lit "module:" ++ id_text m) ++ lit "::" ++ suffix) by by rewrite <- app_assoc.
  rewrite !str_bytes_app, <- str_bytes_app, (bytes_of_ascii _ (module_prefix_ascii m Hm)). done.
Qed.

Lemma id_no_colon m : id_ok m -> 58 ∉ id_text m.
Proof. intros [_ Hc] Hin. rewrite forallb_forall in Hc. apply list_elem_of_In in Hin. by specialize (Hc _ Hin). Qed.

Lemma own_key_unique m m' k : id_ok m -> id_ok m' -> own_key m k -> own_key m' k -> id_text m = id_text m'.
Proof.
  intros Hm Hm' [r Hr] [r' Hr']. rewrite Hr in Hr'. rewrite <- !app_assoc in Hr'. apply app_inv_head in Hr'.
  by apply split_char_inj in Hr' as [? _]; [|by apply id_no_colon..].
Qed.

(** The entry of a module itself belongs to no module's reports. *)
Lemma module_entry_not_own m m' : id_ok m -> id_ok m' -> ~ own_key m (str_of (module_service m')).
Proof.
  intros Hm Hm' [r Hr]. unfold module_service in Hr. rewrite (bytes_of_ascii _ (module_prefix_ascii m' Hm')) in Hr.
  rewrite <- app_assoc in Hr. apply app_inv_head in Hr. apply (id_no_colon m' Hm'). rewrite Hr. set_solver.
Qed.

(** ** The parts of a report *)

Section Reports.
Context {FL : Floats} (o : ModuleServiceOverrides) (path : bool) (disk : nat -> bool).

Lemma apply_overrides_id d : sd_id (apply_descriptor_overrides o d) = sd_id d.
Proof. unfold apply_descriptor_overrides. by destruct (security_override o (sd_id d)). Qed.

Lemma built_descriptor m f port e d ep suffix : build_descriptor_from_report o m f port e = Ok (d, ep, suffix) ->
  suffix = trim (re_service_id e) /\ suffix <> [] /\ sd_id d = descriptor_id m suffix.
Proof.
  unfold build_descriptor_from_report. case_bool_decide; [done|]. cbv zeta. intros Hr. apply result_bind_ok_inv in Hr as (sec & _ & Hr).
  injection Hr as <- _ <-. repeat split; [done|]. rewrite apply_overrides_id. destruct (re_profile e) as [n|]; [destruct (o_profiles o !! n)|]; by destruct (re_tags e).
Qed.

Lemma unregister_inner (r : @ServiceRegistry ServiceDescriptorOwned) k j : inner (unregister r k) !! j = if poisoned r then inner r !! j else if decide (j = k) then None else inner r !! j.
Proof. unfold unregister. destruct (poisoned r) eqn:E; [done|]. cbn. case_decide; [subst; by rewrite lookup_delete_eq|by rewrite lookup_delete_ne]. Qed.
Lemma unregister_poisoned (r : @ServiceRegistry ServiceDescriptorOwned) k : poisoned (unregister r k) = poisoned r.
Proof. unfold unregister. by destruct (poisoned r) eqn:E. Qed.

Lemma unregister_ids_inner (r : @ServiceRegistry ServiceDescriptorOwned) ids j : poisoned r = false ->
  inner (unregister_ids r ids) !! j = (if decide (j ∈ str_of <$> ids) then None else inner r !! j) /\ poisoned (unregister_ids r ids) = false.
Proof.
  revert r. induction ids as [|i ids IH]; intros r Hp; cbn [unregister_ids foldl fmap list_fmap].
  - split; [|done]. rewrite decide_False; [done|apply not_elem_of_nil].
  - destruct (IH (unregister r (str_of i))) as [H1 H2]; [by rewrite unregister_poisoned|]. split; [|done].
    unfold unregister_ids in H1. rewrite H1, unregister_inner, Hp. destruct (decide (j ∈ str_of <$> ids)) as [Hj|Hj].
    + by rewrite decide_True by by right.
    + destruct (decide (j = str_of i)) as [-> |Hn]; [by rewrite decide_True by left|].
      rewrite decide_False; [done|]. by apply not_elem_of_cons.
Qed.

(** What [register_entries] leaves: the keys it wrote are those of the
    module and active, the others as before. *)
Lemma register_entries_spec m f port now es r reg eps r' reg' eps' : id_ok m -> poisoned r = false ->
  register_entries o m f port now es r reg eps = (r', reg', eps') ->
  poisoned r' = false
  /\ (forall k, (exists rec, inner r' !! k = Some rec /\ Registry.status rec = Active /\ k ∈ str_of <$> reg') \/ inner r' !! k = inner r !! k)
  /\ (forall k, k ∈ str_of <$> reg' -> k ∈ str_of <$> reg \/ (own_key m k /\ exists rec, inner r' !! k = Some rec /\ Registry.status rec = Active))
  /\ (forall k, k ∈ str_of <$> reg -> k ∈ str_of <$> reg')
  /\ (forall uri, is_Some (eps' !! uri) -> is_Some (eps !! uri) \/ starts_with (uri_prefix m) uri = true).
Proof.
  intros Hm. revert r reg eps. induction es as [|e es IH]; intros r reg eps Hp; cbn [register_entries].
  - intros [= <- <- <-]. repeat split; auto.
  - destruct (build_descriptor_from_report o m f port e) as [[[d ep] suffix]|] eqn:Eb; [|by apply IH].
    apply built_descriptor in Eb as (-> & Hne & Hid). intros Hr. apply IH in Hr as (H1 & H2 & H3 & H4 & H5); [|unfold register; by rewrite Hp].
    assert (Hin : forall k, inner (register key_of r d Active (Some (endpoint_note ep)) now) !! k
        = if decide (k = key_of d) then Some (mkRecord d Active now (Some (endpoint_note ep))) else inner r !! k).
    { intros k. unfold register. rewrite Hp. cbn. case_decide; [subst; by rewrite lookup_insert_eq|by rewrite lookup_insert_ne]. }
    assert (Hreg : key_of d ∈ str_of <$> reg') by (apply H4; rewrite fmap_app; apply elem_of_app; right; left).
    assert (Hown : own_key m (key_of d)) by (unfold key_of; rewrite Hid; by apply descriptor_key).
    split; [done|]. split; [|split; [|split]].
    + intros k. destruct (H2 k) as [?|Hk]; [by left|]. rewrite Hin in Hk. destruct (decide (k = key_of d)) as [-> |]; [|by right].
      left. eexists. split; [exact Hk|]. done.
    + intros k Hk. destruct (H3 k Hk) as [Ho|Ho]; [|by right]. rewrite fmap_app in Ho. apply elem_of_app in Ho as [Ho|Ho]; [by left|].
      apply list_elem_of_singleton in Ho as ->. right. split; [done|]. destruct (H2 (key_of d)) as [(rec & ? & ? & _)|Hk2]; [by exists rec|].
      unfold key_of in Hk2 at 2. rewrite Hin, decide_True in Hk2 by done. eexists. by split.
    + intros k Hk. apply H4. rewrite fmap_app. apply elem_of_app. by left.
    + intros uri Hu. destruct (H5 uri Hu) as [Hi|]; [|by right]. destruct (decide (uri = service_uri m (trim (re_service_id e)))) as [-> |Hn].
      * right. unfold starts_with. rewrite (proj2 (strip_prefix_some _ _ (trim (re_service_id e)))); [done|].
        unfold service_uri, descriptor_id, uri_prefix. rewrite <- !app_assoc. done.
      * left. by rewrite lookup_insert_ne in Hi.
Qed.

(** ** The invariant *)

(** Every key of a module in the registry is listed as that module's; what
    is listed is registered and active; addresses are recorded only for a
    module with listed services. *)
Record reports_ok (s : Reported) : Prop := {
  ro_open : poisoned (rs_registry s) = false;
  ro_listed : forall m k, id_ok m -> own_key m k -> is_Some (inner (rs_registry s) !! k) ->
    exists ids, rs_runtime_services s !! id_text m = Some ids /\ k ∈ str_of <$> ids;
  ro_owned : forall m ids k, id_ok m -> rs_runtime_services s !! id_text m = Some ids -> k ∈ str_of <$> ids ->
    own_key m k /\ exists rec, inner (rs_registry s) !! k = Some rec /\ Registry.status rec = Active;
  ro_uris : forall m uri, id_ok m -> starts_with (uri_prefix m) uri = true -> is_Some (rs_endpoints s !! uri) ->
    is_Some (rs_runtime_services s !! id_text m);
}.

Lemma snapshot_fields s : rs_registry (persist_service_snapshot path disk s) = rs_registry s
  /\ rs_runtime_services (persist_service_snapshot path disk s) = rs_runtime_services s
  /\ rs_endpoints (persist_service_snapshot path disk s) = rs_endpoints s.
Proof. unfold persist_service_snapshot. by destruct path. Qed.

Lemma retain_lookup (m : ModuleId) (e : gmap text (list string)) (uri : text) : retain_others m e !! uri = if starts_with (uri_prefix m) uri then None else e !! uri.
Proof.
  unfold retain_others. destruct (starts_with (uri_prefix m) uri) eqn:E.
  - apply map_lookup_filter_None_2. right. intros l _. cbn [fst]. congruence.
  - destruct (e !! uri) as [l|] eqn:El; [by apply map_lookup_filter_Some_2|]. apply map_lookup_filter_None_2. by left.
Qed.

Lemma uri_prefix_unique m m' uri : id_ok m -> id_ok m' -> starts_with (uri_prefix m) uri = true -> starts_with (uri_prefix m') uri = true -> id_text m = id_text m'.
Proof.
  intros Hm Hm'. unfold starts_with. destruct (strip_prefix (uri_prefix m) uri) as [r|] eqn:E; [|done].
  destruct (strip_prefix (uri_prefix m') uri) as [r'|] eqn:E'; [|done]. intros _ _. apply strip_prefix_some in E, E'. rewrite E in E'.
  unfold uri_prefix in E'. rewrite <- !app_assoc in E'. apply app_inv_head in E'.
  change (lit "::" ++ r) with (58 :: 58 :: r) in E'. change (lit "::" ++ r') with (58 :: 58 :: r') in E'.
  by apply split_char_inj in E' as [? _]; [|by apply id_no_colon..].
Qed.

Lemma clear_fields m s : reports_ok s -> id_ok m ->
  let s' := clear_reported_services path disk m s in
  poisoned (rs_registry s') = false
  /\ (forall k, own_key m k -> inner (rs_registry s') !! k = None) /\ (forall k, ~ own_key m k -> inner (rs_registry s') !! k = inner (rs_registry s) !! k)
  /\ rs_runtime_services s' = delete (id_text m) (rs_runtime_services s) /\ rs_endpoints s' = retain_others m (rs_endpoints s).
Proof.
  intros Hok Hm. unfold clear_reported_services. cbv zeta.
  destruct (snapshot_fields (set_endpoints (match rs_runtime_services s !! id_text m with
      | Some ids => set_registry (set_services s (delete (id_text m) (rs_runtime_services s))) (unregister_ids (rs_registry s) ids)
      | None => set_services s (delete (id_text m) (rs_runtime_services s)) end)
      (retain_others m (rs_endpoints s)))) as (H1 & H2 & H3).
  destruct (rs_runtime_services s !! id_text m) as [ids|] eqn:Ei; cbn [rs_registry rs_runtime_services rs_endpoints set_registry set_services set_endpoints] in *;
    rewrite H1, H2, H3; cbn [rs_registry rs_runtime_services rs_endpoints set_registry set_services set_endpoints].
  - pose proof (λ k, unregister_ids_inner (rs_registry s) ids k (ro_open s Hok)) as Hu. split; [apply (Hu "")|]. split; [|split; [|done]].
    + intros k Hk. rewrite (proj1 (Hu k)). case_decide as Hin; [done|]. destruct (inner (rs_registry s) !! k) eqn:El; [|done].
      destruct (ro_listed s Hok m k Hm Hk) as (ids' & Hi & ?); [by rewrite El|]. congruence.
    + intros k Hk. rewrite (proj1 (Hu k)). rewrite decide_False; [done|]. intros Hin. by destruct (ro_owned s Hok m ids k Hm Ei Hin).
  - split; [apply (ro_open s Hok)|]. split; [|done]. intros k Hk. destruct (inner (rs_registry s) !! k) eqn:El; [|done].
    destruct (ro_listed s Hok m k Hm Hk) as (ids' & Hi & ?); [by rewrite El|]. congruence.
Qed.

Lemma clear_ok m s : reports_ok s -> id_ok m -> reports_ok (clear_reported_services path disk m s).
Proof.
  intros Hok Hm. destruct (clear_fields m s Hok Hm) as (Hp & Hown & Hoth & Hrs & Hep).
  assert (Hsep : forall m' k, id_ok m' -> own_key m' k -> id_text m' <> id_text m -> ~ own_key m k).
  { intros m' k Hm' Hk Hn Hk2. by rewrite (own_key_unique m m' k) in Hn. }
  split; [done|..].
  - intros m' k Hm' Hk Hs. destruct (decide (id_text m' = id_text m)) as [He|Hn].
    + rewrite Hown in Hs; [by destruct Hs|]. unfold own_key in *. by rewrite <- He.
    + rewrite Hoth in Hs by eauto. rewrite Hrs, lookup_delete_ne by done. by apply (ro_listed s Hok).
  - intros m' ids k Hm' Hi Hin. rewrite Hrs in Hi. destruct (decide (id_text m' = id_text m)) as [He|Hn]; [by rewrite He, lookup_delete_eq in Hi|].
    rewrite lookup_delete_ne in Hi by done. destruct (ro_owned s Hok m' ids k Hm' Hi Hin) as [Hk Hr]. split; [done|]. by rewrite Hoth by eauto.
  - intros m' uri Hm' Hu Hs. rewrite Hep, retain_lookup in Hs. destruct (starts_with (uri_prefix m) uri) eqn:E; [by destruct Hs|].
    rewrite Hrs, lookup_delete_ne; [by apply (ro_uris s Hok m' uri)|]. intros He. unfold uri_prefix in *. rewrite He in E. congruence.
Qed.

(** ** Applying a report *)

Lemma service_uri_prefix m suffix : starts_with (uri_prefix m) (service_uri m suffix) = true.
Proof.
  unfold starts_with. rewrite (proj2 (strip_prefix_some _ _ suffix)); [done|]. unfold service_uri, descriptor_id, uri_prefix. by rewrite <- !app_assoc.
Qed.

Definition prefixed (m : ModuleId) (e : gmap text (list string)) : Prop := forall uri : text, is_Some (e !! uri) -> starts_with (uri_prefix m) uri = true.

Lemma add_endpoint_prefixed (m : ModuleId) (port : Z) (e : gmap text (list string)) (en : ReportedServiceEntry) : prefixed m e -> prefixed m (add_endpoint m port e en).
Proof.
  intros He uri. unfold add_endpoint. case_bool_decide; [apply He|]. cbv zeta. destruct (decide (uri = service_uri m (trim (re_service_id en)))) as [-> |Hn].
  - intros _. apply service_uri_prefix.
  - rewrite lookup_insert_ne by done. apply He.
Qed.
Lemma add_instances_prefixed (m : ModuleId) (e : gmap text (list string)) (ps : list (Z * list ReportedServiceEntry)) : prefixed m e -> prefixed m (foldl (add_instance m) e ps).
Proof.
  revert e. induction ps as [|p ps IH]; intros e He; cbn [foldl]; [done|]. apply IH. unfold add_instance. revert e He.
  induction p.2 as [|en es IHe]; intros e He; cbn [foldl]; [done|]. by apply IHe, add_endpoint_prefixed.
Qed.

(** The entries that give a descriptor, and the ids of those descriptors. *)
Definition valid_ids (m : ModuleId) (f : option text) (port : Z) (es : list ReportedServiceEntry) : list text :=
  omap (λ e, match build_descriptor_from_report o m f port e with Ok (d, _, _) => Some (sd_id d) | Err _ => None end) es.

Lemma register_entries_ids m f port now es r reg eps : (register_entries o m f port now es r reg eps).1.2 = reg ++ valid_ids m f port es.
Proof.
  revert r reg eps. induction es as [|e es IH]; intros r reg eps; cbn [register_entries valid_ids omap list_omap]; [by rewrite app_nil_r|].
  destruct (build_descriptor_from_report o m f port e) as [[[d ep] sfx]|]; rewrite IH; [by rewrite <- app_assoc|done].
Qed.

Lemma register_entries_from m f port now es r reg eps k rec : poisoned r = false ->
  inner (register_entries o m f port now es r reg eps).1.1 !! k = Some rec ->
  inner r !! k = Some rec \/ exists e d ep sfx, e ∈ es /\ build_descriptor_from_report o m f port e = Ok (d, ep, sfx) /\ k = key_of d
    /\ rec = mkRecord d Active now (Some (endpoint_note ep)).
Proof.
  revert r reg eps. induction es as [|e es IH]; intros r reg eps Hp; cbn [register_entries]; [by left|].
  destruct (build_descriptor_from_report o m f port e) as [[[d ep] sfx]|] eqn:Eb.
  - intros Hr. apply IH in Hr as [Hr|(e' & d' & ep' & sfx' & ? & ?)]; [|right; exists e', d', ep', sfx'; set_solver|unfold register; by rewrite Hp].
    unfold register in Hr. rewrite Hp in Hr. cbn in Hr. destruct (decide (k = key_of d)) as [-> |Hn].
    + rewrite lookup_insert_eq in Hr. injection Hr as <-. right. exists e, d, ep, sfx. set_solver.
    + rewrite lookup_insert_ne in Hr by done. by left.
  - intros Hr. apply IH in Hr as [Hr|(e' & d' & ep' & sfx' & ? & ?)]; [by left|right; exists e', d', ep', sfx'; set_solver|done].
Qed.

Lemma apply_fields (m : ModuleId) (f : option text) (ps : list (Z * list ReportedServiceEntry)) (now : Z) (s : Reported) : reports_ok s -> id_ok m ->
  let '(b, s') := apply_reported_services o path disk m f ps now s in
  poisoned (rs_registry s') = false
  /\ (forall k, ~ own_key m k -> inner (rs_registry s') !! k = inner (rs_registry s) !! k)
  /\ (forall n, n <> id_text m -> rs_runtime_services s' !! n = rs_runtime_services s !! n)
  /\ (forall uri, starts_with (uri_prefix m) uri = false -> rs_endpoints s' !! uri = rs_endpoints s !! uri)
  /\ (forall k, own_key m k -> is_Some (inner (rs_registry s') !! k) -> exists ids, rs_runtime_services s' !! id_text m = Some ids /\ k ∈ str_of <$> ids)
  /\ (forall ids k, rs_runtime_services s' !! id_text m = Some ids -> k ∈ str_of <$> ids ->
        own_key m k /\ exists rec, inner (rs_registry s') !! k = Some rec /\ Registry.status rec = Active)
  /\ (b = false -> rs_runtime_services s' !! id_text m = None /\ forall uri, starts_with (uri_prefix m) uri = true -> rs_endpoints s' !! uri = None)
  /\ (b = true -> exists port es, (port, es) ∈ ps /\ rs_runtime_services s' !! id_text m = Some (valid_ids m f port es) /\ valid_ids m f port es <> []).
Proof.
  intros Hok Hm. unfold apply_reported_services. destruct (clear_fields m s Hok Hm) as (Hp & Hown & Hoth & Hrs & Hep).
  assert (Hcl : forall uri, rs_endpoints (clear_reported_services path disk m s) !! uri = if starts_with (uri_prefix m) uri then None else rs_endpoints s !! uri)
    by (intros uri; by rewrite Hep, retain_lookup).
  set (c := clear_reported_services path disk m s) in *.
  assert (Hfalse : poisoned (rs_registry c) = false
    /\ (forall k, ~ own_key m k -> inner (rs_registry c) !! k = inner (rs_registry s) !! k)
    /\ (forall n, n <> id_text m -> rs_runtime_services c !! n = rs_runtime_services s !! n)
    /\ (forall uri, starts_with (uri_prefix m) uri = false -> rs_endpoints c !! uri = rs_endpoints s !! uri)).
  { split; [done|]. split; [done|]. split; [intros n Hn; by rewrite Hrs, lookup_delete_ne|]. intros uri Hu. by rewrite Hcl, Hu. }
  destruct Hfalse as (F1 & F2 & F3 & F4).
  assert (F5 : rs_runtime_services c !! id_text m = None) by by rewrite Hrs, lookup_delete_eq.
  destruct (filter (λ p, p.2 <> []) ps) as [|[port es] rest] eqn:Ef.
  - split; [done|]. split; [done|]. split; [done|]. split; [done|]. split; [intros k Hk; rewrite (Hown k Hk); by intros [? ?]|].
    split; [intros ids k; congruence|]. split; [|done]. intros _. split; [done|]. intros uri Hu. by rewrite Hcl, Hu.
  - assert (Hin : (port, es) ∈ ps) by (apply (list_elem_of_filter (λ p : Z * list ReportedServiceEntry, p.2 <> []) ps); rewrite Ef; left).
    pose proof (register_entries_ids m f port now es (rs_registry c) [] ∅) as Hids.
    destruct (register_entries o m f port now es (rs_registry c) [] ∅) as [[r reg] eps] eqn:Er. cbn [fst snd app] in Hids.
    destruct (register_entries_spec m f port now es _ _ _ _ _ _ Hm Hp Er) as (R1 & R2 & R3 & _ & R5). cbv zeta.
    assert (Hnot : forall k, ~ own_key m k -> inner r !! k = inner (rs_registry s) !! k).
    { intros k Hk. destruct (R2 k) as [(rec & _ & _ & Hreg)|He]; [|rewrite He; by apply F2]. exfalso.
      destruct (R3 k Hreg) as [Hn|[? _]]; [by apply elem_of_nil in Hn|done]. }
    assert (Hyes : forall k, own_key m k -> is_Some (inner r !! k) -> k ∈ str_of <$> reg).
    { intros k Hk Hs. destruct (R2 k) as [(rec & _ & _ & Hreg)|He]; [done|]. rewrite He, (Hown k Hk) in Hs. by destruct Hs. }
    assert (Hall : forall k, k ∈ str_of <$> reg -> own_key m k /\ exists rec, inner r !! k = Some rec /\ Registry.status rec = Active).
    { intros k Hk. destruct (R3 k Hk) as [Hn|?]; [by apply elem_of_nil in Hn|done]. }
    case_bool_decide as Hreg.
    + cbn [rs_registry rs_runtime_services rs_endpoints set_registry]. split; [done|]. split; [done|]. split; [done|]. split; [done|].
      split; [intros k Hk Hs; apply (Hyes k Hk) in Hs; rewrite Hreg in Hs; by apply elem_of_nil in Hs|]. split; [intros ids k; congruence|].
      split; [|done]. intros _. split; [done|]. intros uri Hu. by rewrite Hcl, Hu.
    + destruct (snapshot_fields (set_endpoints (set_services (set_registry c r) (<[id_text m := reg]> (rs_runtime_services (set_registry c r))))
        ((merge_sort String.le <$> foldl (add_instance m) eps rest) ∪ retain_others m (rs_endpoints (set_registry c r))))) as (P1 & P2 & P3).
      cbn [rs_registry rs_runtime_services rs_endpoints set_registry set_services set_endpoints] in P1, P2, P3 |- *. rewrite P1, P2, P3.
      assert (Hpre : prefixed m (foldl (add_instance m) eps rest)).
      { apply add_instances_prefixed. intros uri Hu. destruct (R5 uri Hu) as [Hn|?]; [|done]. rewrite lookup_empty in Hn. by destruct Hn. }
      split; [done|]. split; [done|]. split; [intros n Hn; rewrite lookup_insert_ne by done; by apply F3|].
      split; [|split; [|split; [|split; [done|]]]].
      * intros uri Hu. rewrite lookup_union, lookup_fmap. destruct (foldl (add_instance m) eps rest !! uri) eqn:El.
        { rewrite Hpre in Hu by (by rewrite El). done. }
        cbn [fmap option_fmap option_map]. rewrite option_union_left_id, retain_lookup, Hu. by apply F4.
      * intros k Hk Hs. exists reg. split; [by rewrite lookup_insert_eq|by apply Hyes].
      * intros ids k. rewrite lookup_insert_eq. intros [= <-]. apply Hall.
      * intros _. exists port, es. rewrite lookup_insert_eq, <- Hids. done.
Qed.

Lemma report_apply_ok m f ps now s : reports_ok s -> id_ok m -> reports_ok (apply_reported_services o path disk m f ps now s).2.
Proof.
  intros Hok Hm. pose proof (apply_fields m f ps now s Hok Hm) as Ha. destruct (apply_reported_services o path disk m f ps now s) as [b s'].
  destruct Ha as (H1 & H2 & H3 & H4 & H5 & H6 & H7 & H8). cbn [snd].
  assert (Hsep : forall m' k, id_ok m' -> own_key m' k -> id_text m' <> id_text m -> ~ own_key m k).
  { intros m' k Hm' Hk Hn Hk2. by rewrite (own_key_unique m m' k) in Hn. }
  split; [done|..].
  - intros m' k Hm' Hk Hs. destruct (decide (id_text m' = id_text m)) as [He|Hn].
    + rewrite He. apply H5; [|done]. unfold own_key in *. by rewrite <- He.
    + rewrite H2 in Hs by eauto. rewrite H3 by done. by apply (ro_listed s Hok).
  - intros m' ids k Hm' Hi Hin. destruct (decide (id_text m' = id_text m)) as [He|Hn].
    + rewrite He in Hi. destruct (H6 ids k Hi Hin) as [Hk ?]. split; [|done]. unfold own_key in *. by rewrite He.
    + rewrite H3 in Hi by done. destruct (ro_owned s Hok m' ids k Hm' Hi Hin) as [Hk Hr]. split; [done|]. by rewrite H2 by eauto.
  - intros m' uri Hm' Hu Hs. destruct (decide (id_text m' = id_text m)) as [He|Hn].
    + rewrite He. unfold uri_prefix in Hu. rewrite He in Hu. destruct b; [destruct H8 as (port & es & _ & Hr & _); [done|]; by rewrite Hr|].
      destruct (H7 eq_refl) as [_ Hnone]. rewrite (Hnone uri Hu) in Hs. by destruct Hs.
    + rewrite H3 by done. apply (ro_uris s Hok m' uri); [done|done|]. rewrite <- H4; [done|].
      destruct (starts_with (uri_prefix m) uri) eqn:E; [|done]. by rewrite (uri_prefix_unique m m' uri) in Hn.
Qed.

Lemma ensure_fields m f now s : reports_ok s -> id_ok m ->
  let s' := ensure_module_service_entry o m f now s in
  poisoned (rs_registry s') = false /\ (forall k, k <> str_of (module_service m) -> inner (rs_registry s') !! k = inner (rs_registry s) !! k)
  /\ rs_runtime_services s' = rs_runtime_services s /\ rs_endpoints s' = rs_endpoints s.
Proof.
  intros Hok Hm. unfold ensure_module_service_entry. destruct (get _ _); [by split; [apply (ro_open s Hok)|]|].
  unfold register. rewrite (ro_open s Hok). cbn. split; [done|]. split; [|done]. intros k Hk. rewrite lookup_insert_ne; [done|].
  unfold key_of. rewrite apply_overrides_id. cbn. congruence.
Qed.

Lemma ensure_ok m f now s : reports_ok s -> id_ok m -> reports_ok (ensure_module_service_entry o m f now s).
Proof.
  intros Hok Hm. destruct (ensure_fields m f now s Hok Hm) as (H1 & H2 & H3 & H4).
  assert (Hk : forall m' k, id_ok m' -> own_key m' k -> k <> str_of (module_service m)) by (intros m' k Hm' Hk ->; by apply (module_entry_not_own m' m)).
  split; [done|..].
  - intros m' k Hm' Ho Hs. rewrite H2 in Hs by eauto. rewrite H3. by apply (ro_listed s Hok).
  - intros m' ids k Hm' Hi Hin. rewrite H3 in Hi. destruct (ro_owned s Hok m' ids k Hm' Hi Hin) as [Ho Hr]. split; [done|]. by rewrite H2 by eauto.
  - intros m' uri Hm' Hu Hs. rewrite H4 in Hs. rewrite H3. by apply (ro_uris s Hok m' uri).
Qed.

(** ** Executions *)

(** What the host does with reports, of any module and in any order. *)
Inductive report_step : Reported -> Reported -> Prop :=
| step_report m f ps now s : id_ok m -> report_step s (apply_reported_services o path disk m f ps now s).2
| step_clear m s : id_ok m -> report_step s (clear_reported_services path disk m s)
| step_ensure m f now s : id_ok m -> report_step s (ensure_module_service_entry o m f now s).

Definition no_reports (s : Reported) : Prop :=
  poisoned (rs_registry s) = false /\ rs_runtime_services s = ∅ /\ rs_endpoints s = ∅
  /\ (forall m k, id_ok m -> own_key m k -> inner (rs_registry s) !! k = None).
Definition reachable (s : Reported) : Prop := exists s0, no_reports s0 /\ rtc report_step s0 s.

Lemma no_reports_ok s : no_reports s -> reports_ok s.
Proof.
  intros (Hp & Hr & He & Hn). split; [done|..].
  - intros m k Hm Hk [? Hs]. by rewrite (Hn m k) in Hs.
  - intros m ids k Hm Hi. by rewrite Hr, lookup_empty in Hi.
  - intros m uri Hm Hu [? Hs]. by rewrite He, lookup_empty in Hs.
Qed.

Lemma step_ok s s' : report_step s s' -> reports_ok s -> reports_ok s'.
Proof. intros [] Hok; [by apply report_apply_ok|by apply clear_ok|by apply ensure_ok]. Qed.

Lemma reachable_ok s : reachable s -> reports_ok s.
Proof. intros (s0 & H0 & Hs). apply no_reports_ok in H0. induction Hs as [|s0 s1 s2 H1 _ IH]; [done|]. by apply IH, (step_ok s0). Qed.

(** In every reachable state the services registered under a
    module's prefix are exactly those listed for it, all active, and
    addresses are recorded only for modules with listed services. *)
Theorem reported_state_invariant s : reachable s -> reports_ok s.
Proof. apply reachable_ok. Qed.

(** Asking the instances is a sequence of such steps. *)
Lemma refresh_loop_steps fetch m f ports a n now s : id_ok m -> rtc report_step s (refresh_loop o path disk fetch m f ports a n now s).2.
Proof.
  intros Hm. revert a s. induction n as [|n IH]; intros a s; cbn [refresh_loop]; [done|].
  destruct (apply_reported_services o path disk m f (fetch_all fetch a ports) (now a) s) as [[|] s1] eqn:E;
    assert (H1 : report_step s s1) by (change s1 with (true, s1).2; replace s1 with (apply_reported_services o path disk m f (fetch_all fetch a ports) (now a) s).2 by (by rewrite E); by apply step_report).
  - by apply rtc_once.
  - eapply rtc_l; [exact H1|]. apply IH.
Qed.

Lemma refresh_steps fetch m f retries pref inst now s : id_ok m -> rtc report_step s (refresh_reported_services o path disk fetch m f retries pref inst now s).2.
Proof.
  intros Hm. unfold refresh_reported_services. case_bool_decide; [by apply rtc_once, step_clear|].
  pose proof (refresh_loop_steps fetch m (mf_description f) (order_ports pref (running_ports inst)) 0 (attempt_count retries) now s Hm) as Hl.
  destruct (refresh_loop _ _ _ _ _ _ _ _ _ _) as [[|] s1]; [done|]. eapply rtc_r; [exact Hl|]. by apply step_ensure.
Qed.

(** C12: A report changes nothing outside its module: the services, the entry
    and the addresses of every other module and every service of the host
    stay as they were, whether the report is applied, refused or cleared;
    and a module whose reports are cleared offers no service any more. *)
Theorem reports_stay_in_own_module (m : ModuleId) (f : option text) (ps : list (Z * list ReportedServiceEntry)) (now : Z) (s s' : Reported) (k : string) (m' : ModuleId) (suffix : text) :
  reachable s -> id_ok m -> s' = (apply_reported_services o path disk m f ps now s).2 \/ s' = clear_reported_services path disk m s ->
  (~ own_key m k -> inner (rs_registry s') !! k = inner (rs_registry s) !! k)
  /\ (id_ok m' -> id_text m' <> id_text m ->
        inner (rs_registry s') !! str_of (descriptor_id m' suffix) = inner (rs_registry s) !! str_of (descriptor_id m' suffix)
        /\ inner (rs_registry s') !! str_of (module_service m') = inner (rs_registry s) !! str_of (module_service m')
        /\ rs_runtime_services s' !! id_text m' = rs_runtime_services s !! id_text m'
        /\ rs_endpoints s' !! service_uri m' suffix = rs_endpoints s !! service_uri m' suffix)
  /\ (own_key m k -> inner (rs_registry (clear_reported_services path disk m s)) !! k = None).
Proof.
  intros Hr%reachable_ok Hm Hs'. destruct (clear_fields m s Hr Hm) as (_ & C2 & C3 & C4 & C5).
  assert (Hframe : (forall k, ~ own_key m k -> inner (rs_registry s') !! k = inner (rs_registry s) !! k)
    /\ (forall n, n <> id_text m -> rs_runtime_services s' !! n = rs_runtime_services s !! n)
    /\ (forall uri, starts_with (uri_prefix m) uri = false -> rs_endpoints s' !! uri = rs_endpoints s !! uri)).
  { destruct Hs' as [-> | ->].
    - pose proof (apply_fields m f ps now s Hr Hm) as Ha. destruct (apply_reported_services o path disk m f ps now s). naive_solver.
    - split; [done|]. split; [intros n Hn; by rewrite C4, lookup_delete_ne|]. intros uri Hu. by rewrite C5, retain_lookup, Hu. }
  destruct Hframe as (F1 & F2 & F3). split; [apply F1|]. split; [|apply C2]. intros Hm' Hn. split; [|split; [|split]].
  - apply F1. intros Ho. apply Hn. apply (own_key_unique m' m _ Hm' Hm (descriptor_key m' suffix Hm') Ho).
  - apply F1. by apply module_entry_not_own.
  - by apply F2.
  - apply F3. destruct (starts_with (uri_prefix m) _) eqn:E; [|done]. destruct Hn. apply (uri_prefix_unique m' m (service_uri m' suffix)); [done|done|apply service_uri_prefix|done].
Qed.

(** A report that is applied registers exactly its valid entries: the ids
    listed are theirs, in order, and each is in the registry, active, with
    the descriptor and the address of one of them. *)
Theorem report_registers_its_entries (m : ModuleId) (f : option text) (ps : list (Z * list ReportedServiceEntry)) (now : Z) (s s' : Reported) :
  reachable s -> id_ok m -> apply_reported_services o path disk m f ps now s = (true, s') ->
  exists port es, (port, es) ∈ ps /\ rs_runtime_services s' !! id_text m = Some (valid_ids m f port es)
    /\ forall i, i ∈ valid_ids m f port es -> exists e d ep sfx, e ∈ es /\ build_descriptor_from_report o m f port e = Ok (d, ep, sfx)
          /\ inner (rs_registry s') !! str_of i = Some (mkRecord d Active now (Some (endpoint_note ep))).
Proof.
  intros Hr%reachable_ok Hm Ha. destruct (clear_fields m s Hr Hm) as (Hp & Hown & _). unfold apply_reported_services in Ha.
  destruct (filter (λ p, p.2 <> []) ps) as [|[port es] rest] eqn:Ef; [done|].
  assert (Hin : (port, es) ∈ ps) by (apply (list_elem_of_filter (λ p : Z * list ReportedServiceEntry, p.2 <> []) ps); rewrite Ef; left).
  set (c := clear_reported_services path disk m s) in *.
  pose proof (register_entries_ids m f port now es (rs_registry c) [] ∅) as Hids.
  pose proof (λ k rec, register_entries_from m f port now es (rs_registry c) [] ∅ k rec Hp) as Hfrom.
  destruct (register_entries o m f port now es (rs_registry c) [] ∅) as [[r reg] eps] eqn:Er. cbn [fst snd app] in Hids, Hfrom.
  destruct (register_entries_spec m f port now es _ _ _ _ _ _ Hm Hp Er) as (_ & _ & R3 & _). cbv zeta in Ha. case_bool_decide; [done|]. injection Ha as <-.
  destruct (snapshot_fields (set_endpoints (set_services (set_registry c r) (<[id_text m := reg]> (rs_runtime_services (set_registry c r))))
    ((merge_sort String.le <$> foldl (add_instance m) eps rest) ∪ retain_others m (rs_endpoints (set_registry c r))))) as (P1 & P2 & P3).
  exists port, es. split; [done|]. cbn [rs_registry rs_runtime_services rs_endpoints set_registry set_services set_endpoints] in P1, P2 |- *. rewrite P1, P2.
  rewrite lookup_insert_eq, Hids. split; [done|]. intros i Hi.
  destruct (R3 (str_of i)) as [Hn|[Ho (rec & Hrec & _)]]; [apply list_elem_of_fmap_2; by rewrite Hids|by apply elem_of_nil in Hn|].
  destruct (Hfrom _ _ Hrec) as [Hc|(e & d & ep & sfx & ? & ? & _ & ->)]; [by rewrite (Hown _ Ho) in Hc|]. exists e, d, ep, sfx. done.
Qed.
End Reports.

(** ** Configured security settings *)

(** The settings of an override hold in the metadata. *)
Definition enforces (p : ServiceSecurityOverride) (m : ServiceSecurityMetadata) : Prop :=
  (forall b, ov_internal_only p = Some b -> internal_only m = b) /\ (forall rs, ov_allowed_roles p = Some rs -> allowed_roles m = rs)
  /\ (forall ss, ov_required_scopes p = Some ss -> required_scopes m = ss) /\ (forall g, ov_tenant_guard p = Some g -> tenant m = g).

Lemma override_enforced p base : enforces p (override_apply p base).
Proof. unfold enforces, override_apply. cbn. repeat split; intros ? ->; done. Qed.

Lemma guard_of_validated (path : text) t : tenant_validate path t = Ok tt -> guard_of t <> Err Panic.
Proof.
  unfold tenant_validate, guard_of. destruct (tenant_mode t); [done| |done]. intros Hv. checks Hv. by rewrite C.
Qed.
Lemma guard_set_validated (path : text) t : tenant_when_set path t = Ok tt -> guard_when_set t <> Err Panic.
Proof.
  destruct t as [t|]; [|done]. cbn. intros Hv%guard_of_validated. by destruct (guard_of t) as [|[]].
Qed.

(** No step of the list refuses with [Panic]. *)
Lemma traverse_no_panic {A B} (f : A -> result B OverrideError) l : (forall x, f x <> Err Panic) -> traverse f l <> Err Panic.
Proof.
  intros Hf. induction l as [|x l IH]; cbn; [done|]. destruct (f x) as [y|e] eqn:E; cbn; [|intros [= ->]; by apply (Hf x)].
  destruct (traverse f l); cbn; [done|]. intros [= ->]. by apply IH.
Qed.
Lemma map_err_refuse {A E} (g : E -> ConfigError) (r : result A E) : map_err (λ e, Refuse (g e)) r <> Err Panic.
Proof. by destruct r. Qed.

Lemma bind_no_panic {A B} (r : result A OverrideError) (k : A -> result B OverrideError) :
  r <> Err Panic -> (forall a, r = Ok a -> k a <> Err Panic) -> result_bind r k <> Err Panic.
Proof. destruct r as [a|e]; cbn; intros Hr Hk; [by apply Hk|]. intros [= ->]. done. Qed.

Lemma parse_roles_no_panic owner l : parse_roles owner l <> Err Panic.
Proof. unfold parse_roles. case_bool_decide; [done|]. apply bind_no_panic; [|done]. apply traverse_no_panic. intros x. by destruct (ServiceRole.from_str x). Qed.
Lemma parse_scopes_no_panic owner l : parse_scopes owner l <> Err Panic.
Proof. unfold parse_scopes. case_bool_decide; [done|]. apply bind_no_panic; [|done]. apply traverse_no_panic. intros x. by destruct (ServiceScope.new x). Qed.
Lemma section_vars_no_panic owner env secrets : section_vars owner env secrets <> Err Panic.
Proof.
  unfold section_vars. apply bind_no_panic; [|intros a _; apply bind_no_panic; [|done]]; apply traverse_no_panic; intros [k v]; cbn [fst snd];
    match goal with |- map_err _ ?r <> _ => by destruct r end.
Qed.

Section NoPanic.
Context {FL : Floats}.

Lemma from_profile_no_panic name raw p : profile_validate raw p = Ok tt -> from_profile name p <> Err Panic.
Proof.
  unfold profile_validate. cbv zeta. intros Hv. checks Hv. destruct u1. unfold from_profile. cbv zeta.
  apply bind_no_panic; [apply section_vars_no_panic|intros vars _]. apply bind_no_panic; [apply parse_roles_no_panic|intros roles _].
  apply bind_no_panic; [apply parse_scopes_no_panic|intros scopes _]. apply bind_no_panic; [by eapply guard_set_validated|intros g _].
  apply bind_no_panic; [unfold parse_access; destruct (sp_ingress_access p); repeat case_bool_decide; done|intros a _].
  apply bind_no_panic; [unfold parse_rate_limit; repeat case_match; done|done].
Qed.

Lemma service_entry_no_panic ps profiles raw id c : override_validate profiles raw c = Ok tt -> service_entry ps id c <> Err Panic.
Proof.
  unfold override_validate. cbv zeta. intros Hv. checks Hv. unfold service_entry.
  apply bind_no_panic; [destruct (non_empty (so_profile c)) as [n|]; [|done]; by destruct (ps !! n)|intros base _].
  apply bind_no_panic; [apply section_vars_no_panic|intros vars _]. apply bind_no_panic; [|done].
  unfold from_policy. cbv zeta. apply bind_no_panic; [apply parse_roles_no_panic|intros roles _]. apply bind_no_panic; [apply parse_scopes_no_panic|intros scopes _].
  apply bind_no_panic; [by eapply guard_set_validated|done].
Qed.

(** C40: Reading the service sections of an accepted configuration may
    refuse a role, scope or variable, but never panics: the tenant values
    the code expects are there. *)
Theorem accepted_overrides_never_panic (m : ModulesSection) : validate_services m = Ok tt -> from_config (services m) (service_profiles m) <> Err Panic.
Proof.
  unfold validate_services. intros Hv. checks Hv. rename C into Hp, Hv into Hs. unfold from_config. apply bind_no_panic; [|intros ps _].
  - clear Hs. generalize (∅ : gmap text ModuleServiceProfileResolved). induction Hp as [|[raw p] l Hx _ IH]; intros acc; cbn [load_profiles]; [done|].
    case_bool_decide; [done|]. apply bind_no_panic; [by eapply from_profile_no_panic|intros a _; apply IH].
  - generalize (mkOverrides ∅ ∅ ∅ ∅ ps). induction Hs as [|[raw c] l Hx _ IH]; intros acc; cbn [load_services]; [done|].
    case_bool_decide; [done|]. apply bind_no_panic; [by eapply service_entry_no_panic|intros a _; apply IH].
Qed.

(** What the configuration says about a service wins over what its module
    reports: the descriptor of a reported service enforces the security
    override configured for that service, or else for its module, whatever
    the entry and the profile it names say. *)
Theorem configured_security_wins (o : ModuleServiceOverrides) (m : ModuleId) f port e d ep suffix p :
  build_descriptor_from_report o m f port e = Ok (d, ep, suffix) -> security_override o (descriptor_id m suffix) = Some p ->
  exists sec, sd_security d = Some sec /\ enforces p sec.
Proof.
  intros Hb Hp. destruct (built_descriptor o m f port e d ep suffix Hb) as (_ & _ & Hid). unfold build_descriptor_from_report in Hb.
  destruct (bool_decide _); [done|]. cbv zeta in Hb. apply result_bind_ok_inv in Hb as (sec & _ & Hb). injection Hb as Hd _ _.
  rewrite <- Hd, apply_overrides_id in Hid. revert Hd. unfold apply_descriptor_overrides. rewrite Hid, Hp. intros <-. cbn [sd_security with_security].
  eexists. split; [done|]. apply override_enforced.
Qed.
End NoPanic.

(** ** Published reports *)

Section PublishSafety.
Context {HT : HttpTypes} {MS : ManifestSigning} {FL : Floats} (o : ModuleServiceOverrides) (path : bool) (disk : nat -> bool).

(** A published report that is accepted was signed with the caller's own
    token, which is valid and names the module of the report, at most five
    minutes ago; every refusal leaves the services as they were. *)
Theorem published_report_is_authentic has_ms has_sec headers (p : ModuleServicesPublishRequest) view elapsed now (st st' : ServiceTokenStore) (s s' : Reported) r :
  register_module_services o path disk has_ms has_sec headers p view elapsed now st s = (r, st', s') ->
  match r with
  | Err _ => s' = s
  | Ok _ => exists token claims m signature bytes at', extract_gateway_token headers = Ok token
      /\ ServiceTokens.validate st (str_of token) elapsed now = (Ok claims, st') /\ module_id_from_claims claims = Ok m /\ id_ok m
      /\ normalize_module_id (pb_module_id p) = Ok m /\ pb_signature p = Some signature /\ base64_decode signature = Some bytes
      /\ bytes = sign_manifest_hmac_bytes token (signature_payload_json (pb_module_id p) (default (lit "1.0") (pb_schema_version p)) (default [] (pb_signed_at p)) (pb_services p))
      /\ pb_signed_at p ≫= parse_rfc3339 = Some at' /\ now - at' < 301 * NANOS /\ at' - now < 61 * NANOS
      /\ (s' = s \/ exists f port, s' = (apply_reported_services o path disk m f [(port, pb_services p)] now s).2)
  end.
Proof.
  unfold register_module_services. destruct has_ms; [|by intros [= <- <- <-]]. destruct has_sec; [|by intros [= <- <- <-]]. cbn [negb].
  destruct (extract_gateway_token headers) as [token|] eqn:Et; [|by intros [= <- <- <-]].
  destruct (ServiceTokens.validate st (str_of token) elapsed now) as [[claims|] st1] eqn:Ev; [|by intros [= <- <- <-]].
  destruct (module_id_from_claims claims) as [m|] eqn:Em; [|by intros [= <- <- <-]].
  destruct (normalize_module_id (pb_module_id p)) as [m'|] eqn:En; [|by intros [= <- <- <-]].
  case_bool_decide as Hm; [|by intros [= <- <- <-]]. cbn [negb].
  destruct (check_signature token p now) as [[]|] eqn:Ec; [|by intros [= <- <- <-]].
  destruct (register_reported_services o path disk m (view m) (pb_services p) now s) as [r1 s1] eqn:Er. intros [= <- <- <-].
  assert (Hr : match r1 with Ok _ => s1 = s \/ exists f port, s1 = (apply_reported_services o path disk m f [(port, pb_services p)] now s).2 | Err _ => s1 = s end).
  { unfold register_reported_services in Er. destruct (mv_installed (view m)) as [[f|]|]; [|by injection Er as <- <-..].
    destruct (mv_dev_override (view m)); [injection Er as <- <-; by left|]. destruct (mv_status (view m)) as [[[] [port|]]|]; cbn in Er; injection Er as <- <-; [|done..].
    right. eauto. }
  destruct r1; [|done]. unfold check_signature in Ec. apply result_bind_ok_inv in Ec as (at' & Ha & Ec).
  destruct (_ || _) eqn:Eage; [done|]. apply orb_false_iff in Eage as [E1%Z.ltb_ge E2%Z.ltb_ge].
  apply result_bind_ok_inv in Ec as (signature & Hs & Ec). cbv zeta in Ec. unfold verify_service_manifest_signature in Ec.
  destruct (base64_decode signature) as [bytes|] eqn:Eb; [|done]. case_bool_decide as Hbytes; [|done].
  assert (Hmm : m = m') by (destruct m, m'; cbn in Hm; by subst).
  exists token, claims, m, signature, bytes, at'. split; [done|]. split; [done|]. split; [done|]. split; [by eapply claims_id_ok|]. split; [by subst|].
  split; [destruct (pb_signature p) as [v|]; [|done]; destruct (blank v); [done|]; by injection Hs as ->|]. split; [done|]. split; [done|].
  split; [destruct (pb_signed_at p) as [v|]; [|done]; cbn; by apply ok_or_ok in Ha|].
  unfold whole_seconds, MODULE_SERVICE_SIGNATURE_MAX_AGE_SECS, MODULE_SERVICE_SIGNATURE_MAX_FUTURE_SECS in *.
  split; [|split; [|done]]; unfold NANOS in *; Z.to_euclidean_division_equations; lia.
Qed.
End PublishSafety.

(** ** What reports can get wrong *)

(** A report that names only unknown roles is open to every service role:
    unknown names are dropped, and an empty list admits every role. *)
Theorem unknown_roles_open_service (e : ReportedServiceEntry) (sec : ServiceSecurityMetadata) (role : ServiceRole) :
  re_allowed_roles e <> [] -> Forall (λ r, is_ok (ServiceRole.from_str r) = false) (re_allowed_roles e) -> reported_security e = Ok sec ->
  allows_role sec role = true.
Proof.
  intros Hne Hf Hs. assert (Hr : map_roles (re_allowed_roles e) = []).
  { clear Hne Hs. induction Hf as [|r l Hr _ IH]; [done|]. unfold map_roles in *. cbn. by destruct (ServiceRole.from_str r). }
  unfold reported_security in Hs. cbv zeta in Hs. destruct (re_allowed_roles e) as [|r l]; [done|]. rewrite Hr in Hs.
  destruct (re_required_scopes e); [injection Hs as <-; done|]. apply result_bind_ok_inv in Hs as (ss & _ & [= <-]). done.
Qed.

(** A shop whose orders service is reported by two instances. *)
Definition shop : ModuleId := mkId (lit "shop").
Definition orders (prefix : option text) (scopes roles : list text) : ReportedServiceEntry :=
  mkReported (lit "orders") None None None None [] prefix None None None [] scopes roles.
Definition empty_state : Reported := mkState Registry.new ∅ ∅ None 0.
#[local] Existing Instance z_floats.

(** A route prefix without a slash gives the further instances an address
    that is none. *)
Theorem replica_address_malformed :
  rs_endpoints (apply_reported_services empty_overrides false (λ _, true) shop None
      [(8080, [orders (Some (lit "api")) [] []]); (8081, [orders (Some (lit "api")) [] []])] 0 empty_state).2 !! service_uri shop (lit "orders")
  = Some ["http://127.0.0.1:8080/api"; "http://127.0.0.1:8081api"]%string.
Proof. vm_compute. reflexivity. Qed.

(** An entry that is refused for its scope is not registered, but a second
    instance records an address for it. *)
Definition stock : ReportedServiceEntry := mkReported (lit "stock") None None None None [] None None None None [] [lit "Bad Scope"] [].
Theorem refused_entry_gets_address :
  let s := (apply_reported_services empty_overrides false (λ _, true) shop None
              [(8080, [orders None [] []; stock]); (8081, [orders None [] []; stock])] 0 empty_state).2 in
  inner (rs_registry s) !! str_of (descriptor_id shop (lit "stock")) = None
  /\ rs_endpoints s !! service_uri shop (lit "stock") = Some ["http://127.0.0.1:8081/"]%string.
Proof. vm_compute. done. Qed.

(** ** Witnesses *)

Lemma shop_id_ok : id_ok shop.
Proof. by vm_compute. Qed.
Lemma empty_no_reports : no_reports empty_state.
Proof. split; [done|]. split; [done|]. split; [done|]. intros m k _ _. apply lookup_empty. Qed.
Definition shop_report : list (Z * list ReportedServiceEntry) := [(8080, [orders (Some (lit "/api")) [] []])].
Definition shop_state : Reported := (apply_reported_services empty_overrides false (λ _, true) shop None shop_report 0 empty_state).2.
Lemma shop_reachable : reachable empty_overrides false (λ _, true) shop_state.
Proof. exists empty_state. split; [apply empty_no_reports|]. apply rtc_once, step_report, shop_id_ok. Qed.

Lemma reported_state_invariant_witness : reports_ok shop_state.
Proof. apply (reported_state_invariant empty_overrides false (λ _, true)). apply shop_reachable. Defined.

Lemma reports_stay_in_own_module_witness :
  inner (rs_registry (clear_reported_services false (λ _, true) (mkId (lit "blog")) shop_state)) !! str_of (descriptor_id shop (lit "orders"))
  = inner (rs_registry shop_state) !! str_of (descriptor_id shop (lit "orders")).
Proof.
  assert (Hb : id_ok (mkId (lit "blog"))) by by vm_compute.
  destruct (reports_stay_in_own_module empty_overrides false (λ _, true) (mkId (lit "blog")) None [] 0 shop_state
    (clear_reported_services false (λ _, true) (mkId (lit "blog")) shop_state) "" shop (lit "orders") shop_reachable Hb (or_intror eq_refl)) as (_ & H & _).
  destruct (H shop_id_ok) as [H1 _]; [vm_compute; discriminate|]. exact H1.
Defined.

Lemma report_registers_its_entries_witness : exists s', apply_reported_services empty_overrides false (λ _, true) shop None shop_report 7 shop_state = (true, s')
  /\ exists port es, (port, es) ∈ shop_report /\ rs_runtime_services s' !! id_text shop = Some (valid_ids empty_overrides shop None port es).
Proof.
  destruct (apply_reported_services empty_overrides false (λ _, true) shop None shop_report 7 shop_state) as [b s'] eqn:E. exists s'.
  assert (Hb : (apply_reported_services empty_overrides false (λ _, true) shop None shop_report 7 shop_state).1 = true) by (vm_compute; reflexivity).
  rewrite E in Hb. cbn in Hb. subst b. split; [done|].
  destruct (report_registers_its_entries empty_overrides false (λ _, true) shop None shop_report 7 shop_state s' shop_reachable shop_id_ok E) as (port & es & H1 & H2 & _).
  by exists port, es.
Defined.

(** An operator closes the shop to all but administrators. *)
Definition closed : ServiceSecurityOverride := mkSecurityOverride (Some true) (Some [SAdmin]) None None.
Definition closed_overrides : ModuleServiceOverrides := mkOverrides ∅ {[ lit "module:shop" := closed ]} ∅ ∅ ∅.
Lemma configured_security_wins_witness : exists d ep suffix sec,
  build_descriptor_from_report closed_overrides shop None 8080 (orders None [] [lit "service-read"]) = Ok (d, ep, suffix)
  /\ sd_security d = Some sec /\ allowed_roles sec = [SAdmin].
Proof.
  destruct (build_descriptor_from_report closed_overrides shop None 8080 (orders None [] [lit "service-read"])) as [[[d ep] suffix]|] eqn:E; [|vm_compute in E; discriminate].
  exists d, ep, suffix. destruct (configured_security_wins closed_overrides shop None 8080 (orders None [] [lit "service-read"]) d ep suffix closed E) as (sec & H1 & _ & H2 & _).
  - destruct (built_descriptor _ _ _ _ _ _ _ _ E) as (-> & _). vm_compute. reflexivity.
  - exists sec. split; [done|]. split; [done|]. by apply H2.
Defined.

Lemma accepted_overrides_never_panic_witness : from_config (services shipped_modules) (service_profiles shipped_modules) <> Err Panic.
Proof. apply (accepted_overrides_never_panic shipped_modules). vm_compute. reflexivity. Defined.

#[local] Instance demo_signing : ManifestSigning := {|
  sign_manifest_hmac_bytes k b := k ++ b; signature_payload_json a b c es := a ++ b ++ c; base64_decode s := Some s; parse_rfc3339 s := Some 0 |}.
Definition shop_claims : DelegatedTokenClaims := mkClaims "id-1" (ServiceTokens.Service "module:shop" SWrite) "default" [] 0 (seconds 600).
Definition shop_tokens : ServiceTokenStore :=
  ServiceTokens.set_tokens (ServiceTokens.new (ServiceTokens.mkSection 600 300 60 3600)) {[ "tok"%string := ServiceTokens.mkEntry shop_claims 0 ]}.
Definition shop_headers : ProxyHeaders.HeaderMap := [(AUTHORIZATION, lit "Bearer tok")].
Definition shop_publish : ModuleServicesPublishRequest :=
  mkPublish (lit "shop") None (Some (lit "now")) (Some (lit "tok" ++ lit "shop" ++ lit "1.0" ++ lit "now")) [orders (Some (lit "/api")) [] []].
Definition shop_view (m : ModuleId) : ModuleView := mkModuleView (Ok (Some None)) false (Ok (true, Some 8080)).
Lemma published_report_is_authentic_witness : exists st' s',
  register_module_services empty_overrides false (λ _, true) true true shop_headers shop_publish shop_view 0 (seconds 10) shop_tokens empty_state = (Ok tt, st', s')
  /\ exists f port, s' = empty_state \/ s' = (apply_reported_services empty_overrides false (λ _, true) shop f [(port, pb_services shop_publish)] (seconds 10) empty_state).2.
Proof.
  destruct (register_module_services empty_overrides false (λ _, true) true true shop_headers shop_publish shop_view 0 (seconds 10) shop_tokens empty_state) as [[r st'] s'] eqn:E.
  assert (Hr : is_ok (register_module_services empty_overrides false (λ _, true) true true shop_headers shop_publish shop_view 0 (seconds 10) shop_tokens empty_state).1.1 = true)
    by (vm_compute; reflexivity). rewrite E in Hr. cbn [fst] in Hr. destruct r as [[]|]; [|done]. exists st', s'. split; [done|].
  destruct (published_report_is_authentic empty_overrides false (λ _, true) _ _ _ _ _ _ _ _ _ _ _ _ E) as (token & claims & m & sg & bs & at' & _ & _ & _ & _ & Hn & _ & _ & _ & _ & _ & _ & Hs).
  assert (Hm : m = shop) by (vm_compute in Hn; by injection Hn as <-). subst m. destruct Hs as [-> |(f & port & ->)]; [exists None, 0; by left|exists f, port; by right].
Defined.

Lemma unknown_roles_open_service_witness : exists sec, reported_security (orders None [] [lit "service-admn"]) = Ok sec /\ allows_role sec SRead = true.
Proof.
  eexists. split; [reflexivity|]. apply (unknown_roles_open_service (orders None [] [lit "service-admn"])); [discriminate|by repeat constructor|reflexivity].
Defined.
