(* ===== verification/AuditLog.v ===== *)
(** * Audit log ([audit/event.rs], [audit/log.rs], [audit/persistence.rs], the
    audit parts of [services/app.rs], [boot/startup.rs] and
    [infra/http/routes.rs])

    Who did what to which target, with what outcome.  The log holds the last
    [capacity] events, those older than the retention are dropped at its
    front, and the whole log is written to a file that the next start reads.

    Times are nanoseconds since the epoch; [Instant]s are nanoseconds of the
    monotonic clock.  The JSON of the file is the class [AuditJson]. *)

From stdpp Require Import pretty.
From S2P Require Import Prelude Text ModuleEnv ConfigCheck.

#[local] Open Scope fenrir_scope.

(** ** Events *)

Inductive AuditActor := System | User (user_id role : text).
Inductive AuditOutcome := Success | Failure | Denied.
#[global] Instance AuditActor_eq_dec : EqDecision AuditActor.
Proof. solve_decision. Defined.
#[global] Instance AuditOutcome_eq_dec : EqDecision AuditOutcome.
Proof. solve_decision. Defined.

Definition actor_str (a : AuditActor) : text := match a with System => lit "system" | User _ _ => lit "user" end.
Definition outcome_str (o : AuditOutcome) : text :=
  match o with Success => lit "success" | Failure => lit "failure" | Denied => lit "denied" end.

Notation AuditMetadata := (list (text * text)).
Definition metadata_insert (key value : text) (m : AuditMetadata) : AuditMetadata := m ++ [(key, value)].

Record AuditEvent := mkEvent {
  timestamp : Z; actor : AuditActor; action : text; target : text; outcome : AuditOutcome; redactions : list text; metadata : AuditMetadata;
}.
#[global] Instance AuditEvent_eq_dec : EqDecision AuditEvent.
Proof. solve_decision. Defined.

Inductive AuditError := Validation (message : text) | Storage (message : text).

Record AuditEventBuilder := mkBuilder {
  b_actor : option AuditActor; b_action : option text; b_target : option text; b_outcome : AuditOutcome; b_redactions : list text;
  b_metadata : AuditMetadata;
}.
Definition builder : AuditEventBuilder := mkBuilder None None None Success [] [].
Definition set_actor (a : AuditActor) (b : AuditEventBuilder) : AuditEventBuilder :=
  mkBuilder (Some a) (b_action b) (b_target b) (b_outcome b) (b_redactions b) (b_metadata b).
Definition set_action (a : text) (b : AuditEventBuilder) : AuditEventBuilder :=
  mkBuilder (b_actor b) (Some a) (b_target b) (b_outcome b) (b_redactions b) (b_metadata b).
Definition set_target (t : text) (b : AuditEventBuilder) : AuditEventBuilder :=
  mkBuilder (b_actor b) (b_action b) (Some t) (b_outcome b) (b_redactions b) (b_metadata b).
Definition set_outcome (o : AuditOutcome) (b : AuditEventBuilder) : AuditEventBuilder :=
  mkBuilder (b_actor b) (b_action b) (b_target b) o (b_redactions b) (b_metadata b).
Definition redact (field : text) (b : AuditEventBuilder) : AuditEventBuilder :=
  mkBuilder (b_actor b) (b_action b) (b_target b) (b_outcome b) (b_redactions b ++ [field]) (b_metadata b).
Definition set_metadata (m : AuditMetadata) (b : AuditEventBuilder) : AuditEventBuilder :=
  mkBuilder (b_actor b) (b_action b) (b_target b) (b_outcome b) (b_redactions b) m.

Definition build (now : Z) (b : AuditEventBuilder) : result AuditEvent AuditError :=
  a <-? ok_or (b_actor b) (Validation (lit "audit actor must be set"));;
  c <-? ok_or (b_action b) (Validation (lit "action is required"));;
  t <-? ok_or (b_target b) (Validation (lit "target is required"));;
  Ok (mkEvent now a c t (b_outcome b) (b_redactions b) (b_metadata b)).

(** ** The file *)

Definition NANOS : Z := 1000000000.
(** [SystemTime::checked_sub] with [unwrap_or(UNIX_EPOCH)]: seconds are 64-bit. *)
Definition cutoff_of (now retention : Z) : Z := if i64_min * NANOS <=? now - retention then now - retention else 0.

Definition young (cutoff : Z) (e : AuditEvent) : Prop := (cutoff <=? timestamp e) = true.
#[global] Instance young_dec cutoff e : Decision (young cutoff e).
Proof. unfold young. apply _. Defined.

Notation bytes := (list Z).

(** [serde_json] on the history file: an event's time must have a year that
    RFC 3339 can write. *)
Class AuditJson := {
  to_vec : list AuditEvent -> option bytes;
  from_slice : bytes -> option (list AuditEvent);
}.
Class AuditJsonLaws (J : AuditJson) : Prop := {
  json_roundtrip : forall evs b, to_vec evs = Some b -> from_slice b = Some evs;
}.

(** What is at the path of the file. *)
Inductive AuditFile := AMissing | AUnreadable | AData (b : bytes).

Record PersistenceConfig := mkPersistence {
  retention : Z; persist_interval : Z; last_persist : Z; file : AuditFile;
}.
Definition with_last_persist (t : Z) (p : PersistenceConfig) : PersistenceConfig := mkPersistence (retention p) (persist_interval p) t (file p).
Definition with_file (f : AuditFile) (p : PersistenceConfig) : PersistenceConfig := mkPersistence (retention p) (persist_interval p) (last_persist p) f.

(** What the clocks and the disk answer during one call: the wall clock, the
    monotonic clock, whether the directory can be made, and whether the write
    succeeds or what it leaves behind. *)
Record Io := mkIo { wall : Z; mono : Z; dir_ok : bool; write_fails : option AuditFile }.

Section Log.
Context {J : AuditJson}.

(** [PersistenceConfig::new]: the probe creates a missing file; [boot] is
    when the monotonic clock began, before which there is no [Instant].  The
    message leaves out the path and the cause. *)
Definition persistence_new (probe_ok : bool) (mono_now boot retention interval : Z) (f : AuditFile) : result PersistenceConfig AuditError :=
  if negb probe_ok then Err (Storage (lit "audit persistence path not writable"))
  else
    let initial := if boot <=? mono_now - interval then mono_now - interval else mono_now in
    Ok (mkPersistence retention interval initial (match f with AMissing => AData [] | f => f end)).

Definition should_persist (io : Io) (p : PersistenceConfig) : bool * PersistenceConfig :=
  if persist_interval p <=? Z.max 0 (mono io - last_persist p) then (true, with_last_persist (mono io) p) else (false, p).

Definition persist (io : Io) (evs : list AuditEvent) (p : PersistenceConfig) : PersistenceConfig :=
  match to_vec evs with
  | Some data =>
      if negb (dir_ok io) then p
      else match write_fails io with Some rest => with_file rest p | None => with_file (AData data) p end
  | None => p
  end.

(** [sort_by_key]: stable, by the time since the epoch (none before it). *)
Definition sort_key (e : AuditEvent) : Z := Z.max 0 (timestamp e).
Definition sort_events : list AuditEvent -> list AuditEvent := stable_sort (λ a b, sort_key a <=? sort_key b).

Definition load_persisted_events (now : Z) (f : AuditFile) (retention : Z) (capacity : nat) : list AuditEvent :=
  if bool_decide (capacity = 0%nat) then []
  else match f with
       | AData b =>
           match from_slice b with
           | Some evs =>
               let cutoff := cutoff_of now retention in
               let evs := sort_events (filter (young cutoff) evs) in
               if (capacity <? length evs)%nat then drop (length evs - capacity) evs else evs
           | None => []
           end
       | AMissing | AUnreadable => []
       end.

(** ** The log *)

Record InMemoryAuditLog := mkLog { capacity : nat; events : list AuditEvent; poisoned : bool; persistence : option PersistenceConfig }.
Definition log_new (capacity : nat) : InMemoryAuditLog := mkLog capacity [] false None.

Definition with_persistence (capacity : nat) (now mono_now boot retention interval : Z) (probe_ok : bool) (f : AuditFile) : result InMemoryAuditLog AuditError :=
  let initial := load_persisted_events now f retention capacity in
  p <-? persistence_new probe_ok mono_now boot retention interval f;;
  Ok (mkLog capacity initial false (Some p)).

(** The two loops of [prune_retention]. *)
Fixpoint pop_old (cutoff : Z) (l : list AuditEvent) : list AuditEvent :=
  match l with
  | [] => []
  | front :: l' => if timestamp front <? cutoff then pop_old cutoff l' else l
  end.
Fixpoint pop_over (capacity : nat) (l : list AuditEvent) : list AuditEvent :=
  match l with
  | [] => []
  | _ :: l' => if (capacity <? length l)%nat then pop_over capacity l' else l
  end.
Definition prune_retention (now : Z) (g : InMemoryAuditLog) (l : list AuditEvent) : list AuditEvent :=
  let l := match persistence g with Some p => pop_old (cutoff_of now (retention p)) l | None => l end in
  pop_over (capacity g) l.

(** [append] in its two parts: under the lock, where the snapshot to be
    written is taken, and the write after the lock is released. *)
Definition append_locked (io : Io) (e : AuditEvent) (g : InMemoryAuditLog) : result (option (list AuditEvent)) AuditError * InMemoryAuditLog :=
  if poisoned g then (Err (Storage (lit "audit log locked")), g)
  else
    let evs := prune_retention (wall io) g (events g ++ [e]) in
    match persistence g with
    | None => (Ok None, mkLog (capacity g) evs false None)
    | Some p =>
        let snapshot_to_persist : option (list AuditEvent) := None in
        let (should_flush, p) := should_persist io p in
        let snapshot_to_persist := if should_flush || negb (is_set snapshot_to_persist) then Some evs else snapshot_to_persist in
        (Ok snapshot_to_persist, mkLog (capacity g) evs false (Some p))
    end.
Definition append_write (io : Io) (snapshot : option (list AuditEvent)) (g : InMemoryAuditLog) : InMemoryAuditLog :=
  match persistence g, snapshot with
  | Some p, Some snapshot => mkLog (capacity g) (events g) (poisoned g) (Some (persist io snapshot p))
  | _, _ => g
  end.
Definition append (io : Io) (e : AuditEvent) (g : InMemoryAuditLog) : result unit AuditError * InMemoryAuditLog :=
  if bool_decide (capacity g = 0%nat) then (Ok tt, g)
  else match append_locked io e g with
       | (Ok snapshot, g) => (Ok tt, append_write io snapshot g)
       | (Err x, g) => (Err x, g)
       end.

Definition recent (limit : nat) (g : InMemoryAuditLog) : result (list AuditEvent) AuditError :=
  if poisoned g then Err (Storage (lit "audit log locked"))
  else let count := Nat.min (length (events g)) limit in Ok (take count (rev (events g))).

(** [Drop]: what is on disk after the host has let go of the log. *)
Definition drop_log (io : Io) (g : InMemoryAuditLog) : option PersistenceConfig :=
  p ← persistence g; Some (if poisoned g then p else persist io (events g) p).

(** ** [services/app.rs]: the log and the bus of the event streams *)

Record Audit := mkTrail { log : InMemoryAuditLog; bus : list AuditEvent }.
Definition record_audit (io : Io) (e : AuditEvent) (a : Audit) : result unit AuditError * Audit :=
  match append io e (log a) with
  | (Ok _, g) => (Ok tt, mkTrail g (bus a ++ [e]))
  | (Err x, g) => (Err x, mkTrail g (bus a))
  end.

(** [boot/startup.rs]: the log of a host with these settings.  [expect] on
    the path is the failure [BootPanic]. *)
Inductive BootAuditError := AuditDir | AuditInit (e : AuditError) | BootPanic.
Definition boot_audit_log (cfg : AuditSection) (now mono_now boot : Z) (parent_ok probe_ok : bool) (f : AuditFile) : result InMemoryAuditLog BootAuditError :=
  let audit_capacity := if audit_enabled cfg then default 1024 (a_buffer_capacity cfg) else 0 in
  if audit_capacity =? 0 then Ok (log_new (Z.to_nat audit_capacity))
  else
    _ <-? ok_or (non_empty (a_path (a_storage cfg))) BootPanic;;
    if negb parent_ok then Err AuditDir
    else
      let retention_hours := default 48 (audit_retention_hours (a_storage cfg)) in
      let retention_seconds := Z.min (retention_hours * 3600) u64_max in
      let persist_seconds := default 30 (a_persist_interval_seconds (a_storage cfg)) in
      map_err AuditInit (with_persistence (Z.to_nat audit_capacity) now mono_now boot (retention_seconds * NANOS) (persist_seconds * NANOS) probe_ok f).

End Log.

(** ** What the routes show of it *)

Record AuditActorView := mkActorView { av_kind : text; av_role : option text; av_user_id : option text; av_user_id_redacted : bool }.
Record AuditMetadataView := mkMetadataView { mv_key : text; mv_value : text; mv_redacted : bool }.
Record AuditEventView := mkEventView {
  ev_timestamp : text; ev_action : text; ev_target : text; ev_outcome : text; ev_actor : AuditActorView; ev_metadata : list AuditMetadataView;
}.

(** [format_time] writes a time as RFC 3339, or as the [time] crate displays
    it where that fails. *)
Definition audit_event_to_view (format_time : Z -> text) (e : AuditEvent) : AuditEventView :=
  let actor_view := match actor e with
                    | System => mkActorView (lit "system") None None false
                    | User user_id role =>
                        let redacted := existsb (λ field, bool_decide (field = lit "user_id")) (redactions e) in
                        mkActorView (lit "user") (Some role) (if redacted then None else Some user_id) redacted
                    end in
  let metadata_view := (λ '(key, value),
                         let redacted := existsb (λ field, bool_decide (field = key)) (redactions e) in
                         mkMetadataView key (if redacted then lit "<redacted>" else value) redacted) <$> metadata e in
  mkEventView (format_time (timestamp e)) (action e) (target e) (outcome_str (outcome e)) actor_view metadata_view.

Definition audit_outcome_matches (o : AuditOutcome) (filter : text) : bool :=
  let normalized := to_ascii_lowercase filter in
  match o with
  | Success => bool_decide (normalized = lit "success")
  | Failure => bool_decide (normalized = lit "failure")
  | Denied => bool_decide (normalized = lit "denied")
  end.
Definition audit_actor_matches (a : AuditActor) (filter : text) : bool :=
  match a with
  | System => eq_ignore_ascii_case filter (lit "system")
  | User user_id role => eq_ignore_ascii_case filter role || eq_ignore_ascii_case user_id filter
  end.

Record AuditQuery := mkAuditQuery { q_limit : option nat; q_action : option text; q_outcome : option text; q_actor : option text }.
Definition clamp (low high n : nat) : nat := Nat.max low (Nat.min high n).
Definition query_matches (q : AuditQuery) (e : AuditEvent) : bool :=
  match q_action q with Some a => bool_decide (action e = a) | None => true end
  && match q_outcome q with Some o => audit_outcome_matches (outcome e) o | None => true end
  && match q_actor q with Some a => audit_actor_matches (actor e) a | None => true end.

(** The events [list_audit_events] and [audit_history] answer with. *)
Definition audit_events (format_time : Z -> text) (q : AuditQuery) (g : InMemoryAuditLog) : result (list AuditEventView) AuditError :=
  let limit := clamp 1 200 (default 20%nat (q_limit q)) in
  evs <-? recent limit g;;
  Ok (audit_event_to_view format_time <$> filter (λ e, query_matches q e = true) evs).

Definition parse_history_range (range : option text) : Z * text :=
  let r := default (lit "1h") range in
  if bool_decide (r = lit "3h") then (3 * 3600 * NANOS, lit "3h")
  else if bool_decide (r = lit "24h" \/ r = lit "1d" \/ r = lit "day") then (24 * 3600 * NANOS, lit "24h")
  else (3600 * NANOS, lit "1h").
Definition audit_history_events (format_time : Z -> text) (now : Z) (range : option text) (limit : option nat) (g : InMemoryAuditLog)
    : result (text * list AuditEventView) AuditError :=
  let (span, label) := parse_history_range range in
  let limit := clamp 1 5000 (default 512%nat limit) in
  evs <-? recent limit g;;
  let cutoff := cutoff_of now span in
  Ok (label, audit_event_to_view format_time <$> filter (young cutoff) evs).
