(* ===== verification/AuditLogSafety.v ===== *)
(** * Theorems on the audit log

    The log is the window of the history that capacity and retention ask
    for, it survives a restart, values marked as redacted do not show in the
    answers of the audit routes, and accepted settings never panic.  Findings:
    the persist interval delays no write, and the actor filter tells redacted
    user ids. *)

From S2P Require Import Prelude Text ModuleEnv ConfigCheck AuditLog.

#[local] Open Scope fenrir_scope.

(** ** Windows of a history *)

Definition last_n {A : Type} (n : nat) (l : list A) : list A := drop (length l - n) l.
(** The newest [capacity] of the events not older than [cutoff]. *)
Definition window (capacity : nat) (cutoff : Z) (history : list AuditEvent) : list AuditEvent :=
  last_n capacity (filter (young cutoff) history).
Definition in_time_order (l : list AuditEvent) : Prop := StronglySorted (λ a b, timestamp a <= timestamp b) l.

Lemma young_true c (e : AuditEvent) : c <= timestamp e -> young c e.
Proof. apply Z.leb_le. Qed.

Lemma pop_over_last_n n (l : list AuditEvent) : pop_over n l = last_n n l.
Proof.
  unfold last_n. induction l as [|e l IH]; [by rewrite drop_nil|]. cbn [pop_over length].
  destruct (Nat.ltb_spec n (S (length l))).
  - rewrite IH. by replace (S (length l) - n)%nat with (S (length l - n)) by lia.
  - by replace (S (length l) - n)%nat with 0%nat by lia.
Qed.

Lemma last_n_length {A : Type} n (l : list A) : (length (last_n n l) <= n)%nat.
Proof. unfold last_n. rewrite length_drop. lia. Qed.

Lemma last_n_all {A : Type} n (l : list A) : (length l <= n)%nat -> last_n n l = l.
Proof. intros. unfold last_n. by replace (length l - n)%nat with 0%nat by lia. Qed.

Lemma last_n_app {A : Type} n (l k : list A) : (length k <= n)%nat -> last_n n (last_n n l ++ k) = last_n n (l ++ k).
Proof.
  intros Hk. unfold last_n at 1 3. rewrite !length_app. unfold last_n. rewrite length_drop.
  rewrite !drop_app, drop_drop, length_drop. f_equal; f_equal; lia.
Qed.

Lemma filter_young_all c (l : list AuditEvent) : Forall (λ e, c <= timestamp e) l -> filter (young c) l = l.
Proof. induction 1 as [|e l He _ IH]; [done|]. rewrite filter_cons_True, IH; [done|by apply young_true]. Qed.

Lemma pop_old_filter c (l : list AuditEvent) : in_time_order l -> pop_old c l = filter (young c) l.
Proof.
  induction 1 as [|e l Hs IH Hle]; [done|]. cbn [pop_old]. destruct (Z.ltb_spec (timestamp e) c) as [H|H].
  - rewrite filter_cons_False, IH; [done|]. unfold young. rewrite Z.leb_le. lia.
  - rewrite filter_young_all; [done|]. constructor; [done|]. eapply Forall_impl; [exact Hle|]. cbn. lia.
Qed.

Lemma filter_later c c' (l : list AuditEvent) : c <= c' -> filter (young c') (filter (young c) l) = filter (young c') l.
Proof.
  intros Hc. rewrite list_filter_filter. apply list_filter_iff. intros e. unfold young. rewrite !Z.leb_le. lia.
Qed.

Lemma in_time_order_sublist (k l : list AuditEvent) : k `sublist_of` l -> in_time_order l -> in_time_order k.
Proof. intros. by eapply strongly_sorted_sublist. Qed.

(** In time order, what is young in a suffix is a suffix of what is young. *)
Lemma filter_drop c n (l : list AuditEvent) : in_time_order l ->
  filter (young c) (drop n l) = drop (n - (length l - length (filter (young c) l))) (filter (young c) l).
Proof.
  intros Hs. revert n. induction Hs as [|e l Hs IH Hle]; intros n; [rewrite drop_nil, filter_nil; by rewrite drop_nil|].
  destruct n as [|n]; [done|]. cbn [drop]. rewrite IH. clear IH.
  pose proof (length_filter (young c) l) as Hlen. destruct (decide (young c e)) as [He|He].
  - assert (Hall : filter (young c) l = l).
    { apply filter_young_all. eapply Forall_impl; [exact Hle|]. unfold young in He. rewrite Z.leb_le in He. cbn. lia. }
    rewrite !filter_cons_True, Hall by done. cbn [length].
    replace (S n - (S (length l) - S (length l)))%nat with (S n) by lia. cbn. f_equal. lia.
  - rewrite !filter_cons_False by done. cbn [length]. f_equal. lia.
Qed.

Lemma filter_last_n c n (l : list AuditEvent) : in_time_order l -> filter (young c) (last_n n l) = last_n n (filter (young c) l).
Proof.
  intros Hs. unfold last_n. rewrite filter_drop by done. f_equal. pose proof (length_filter (young c) l). lia.
Qed.

(** A window of a window with more appended is the window of the whole. *)
Lemma window_app n c c' (h k : list AuditEvent) : c <= c' -> (length k <= n)%nat -> in_time_order h ->
  window n c' (window n c h ++ k) = window n c' (h ++ k).
Proof.
  intros Hc Hk Hs. unfold window. rewrite !filter_app, filter_last_n, filter_later.
  - apply last_n_app. pose proof (length_filter (young c') k). lia.
  - done.
  - by eapply in_time_order_sublist; [apply sublist_filter|].
Qed.

Lemma window_window n c c' (h : list AuditEvent) : c <= c' -> in_time_order h -> window n c' (window n c h) = window n c' h.
Proof. intros Hc Hs. pose proof (window_app n c c' h [] Hc ltac:(cbn; lia) Hs) as H. by rewrite !app_nil_r in H. Qed.

Lemma window_sublist n c (h : list AuditEvent) : window n c h `sublist_of` h.
Proof. unfold window, last_n. etrans; [apply sublist_drop|apply sublist_filter]. Qed.

Lemma cutoff_later now now' r : i64_min * NANOS <= now - r -> now <= now' -> cutoff_of now r <= cutoff_of now' r.
Proof. unfold cutoff_of. intros. repeat case_match; rewrite ?Z.leb_le, ?Z.leb_gt in *; lia. Qed.

(** ** Sorting on load *)

Lemma sort_events_id (l : list AuditEvent) : in_time_order l -> sort_events l = l.
Proof.
  intros Hs. apply stable_sort_id. induction Hs as [|e l Hs IH Hle]; constructor; [done|].
  eapply Forall_impl; [exact Hle|]. cbn. unfold sort_key. intros. apply Z.leb_le. lia.
Qed.

Section Log.
Context {J : AuditJson}.

(** Loading takes the young events of the file, in time order, the newest
    [capacity] of them. *)
Lemma load_is_window now f r n b (evs : list AuditEvent) : f = AData b -> from_slice b = Some evs ->
  load_persisted_events now f r n = last_n n (sort_events (filter (young (cutoff_of now r)) evs)).
Proof.
  intros -> Hb. unfold load_persisted_events. rewrite Hb. case_bool_decide as Hn.
  - subst. unfold last_n. by rewrite Nat.sub_0_r, drop_all.
  - cbn zeta. case_match eqn:E; [done|]. apply Nat.ltb_ge in E. by rewrite last_n_all.
Qed.

Lemma load_in_window now f r n : let l := load_persisted_events now f r n in
  (length l <= n)%nat /\ Forall (λ e, cutoff_of now r <= timestamp e) l.
Proof.
  cbn zeta. assert (Hnil : (length (@nil AuditEvent) <= n)%nat /\ Forall (λ e, cutoff_of now r <= timestamp e) []) by (split; [cbn; lia|done]).
  destruct f as [| |b]; [by unfold load_persisted_events; destruct (bool_decide _)..|].
  destruct (from_slice b) as [evs|] eqn:Hb.
  - erewrite load_is_window by done. split; [apply last_n_length|]. apply Forall_drop.
    unfold sort_events. rewrite stable_sort_perm. apply Forall_forall. intros e [He _]%list_elem_of_filter. by apply Z.leb_le.
  - unfold load_persisted_events. rewrite Hb. by destruct (bool_decide _).
Qed.

(** ** Appending *)

Record log_is (n : nat) (r c : Z) (history : list AuditEvent) (g : InMemoryAuditLog) : Prop := {
  li_capacity : capacity g = n;
  li_lock : poisoned g = false;
  li_retention : retention <$> persistence g = Some r;
  li_events : events g = window n c history;
}.

Lemma retention_persist io evs (p : PersistenceConfig) : retention (persist io evs p) = retention p.
Proof. unfold persist. by repeat case_match. Qed.
Lemma retention_should io (p : PersistenceConfig) : retention (should_persist io p).2 = retention p.
Proof. unfold should_persist. by case_match. Qed.

(** Whatever the interval says, the log is written. *)
Lemma append_writes io e g p : capacity g <> 0%nat -> poisoned g = false -> persistence g = Some p ->
  let evs := prune_retention (wall io) g (events g ++ [e]) in
  append io e g = (Ok tt, mkLog (capacity g) evs false (Some (persist io evs (should_persist io p).2))).
Proof.
  intros Hn Hl Hp. unfold append, append_locked. rewrite bool_decide_false, Hl, Hp by done.
  destruct (should_persist io p) as [b p']. cbn. by rewrite orb_true_r.
Qed.

Lemma append_keeps n r c history io e g : log_is n r c history g ->
  c <= cutoff_of (wall io) r -> in_time_order (history ++ [e]) ->
  (append io e g).1 = Ok tt /\ log_is n r (cutoff_of (wall io) r) (history ++ [e]) (append io e g).2.
Proof.
  intros [Hn Hl Hr He] Hc Hs. destruct (decide (n = 0%nat)) as [->|Hz].
  - unfold append. rewrite bool_decide_true by done. split; [done|]. split; [done..|].
    cbn. rewrite He. unfold window, last_n. by rewrite !Nat.sub_0_r, !drop_all.
  - destruct (persistence g) as [p|] eqn:Hp; [|done]. rewrite (append_writes _ _ _ p) by congruence. split; [done|].
    split; cbn; [done..| |].
    + by rewrite retention_persist, retention_should.
    + unfold prune_retention. rewrite Hp, pop_over_last_n, Hn. injection Hr as ->. rewrite pop_old_filter.
      * rewrite He. apply (window_app n c); [done|cbn; lia|]. eapply in_time_order_sublist; [|done]. by apply sublist_inserts_r.
      * rewrite He. eapply in_time_order_sublist; [|done]. apply sublist_app; [apply window_sublist|done].
Qed.

Definition run (steps : list (Io * AuditEvent)) (g : InMemoryAuditLog) : InMemoryAuditLog :=
  foldl (λ g '(io, e), (append io e g).2) g steps.
Definition last_wall (now : Z) (steps : list (Io * AuditEvent)) : Z := default now (wall <$> last steps.*1).

Lemma run_keeps n r now history steps g : log_is n r (cutoff_of now r) history g ->
  i64_min * NANOS <= now - r -> StronglySorted Z.le (now :: (wall <$> steps.*1)) -> in_time_order (history ++ steps.*2) ->
  log_is n r (cutoff_of (last_wall now steps) r) (history ++ steps.*2) (run steps g).
Proof.
  revert now history g. induction steps as [|[io e] steps IH]; intros now history g Hg Hr Hw Hs.
  - cbn. by rewrite app_nil_r.
  - cbn in Hw. apply StronglySorted_inv in Hw as [Hw Hle]. apply Forall_cons in Hle as [Hle _].
    cbn [fmap list_fmap snd] in Hs |- *. rewrite cons_middle, app_assoc in Hs |- *.
    replace (last_wall now ((io, e) :: steps)) with (last_wall (wall io) steps).
    + apply IH; [|lia|done|done]. eapply append_keeps; [done|by apply cutoff_later|].
      eapply in_time_order_sublist; [|done]. by apply sublist_inserts_r.
    + unfold last_wall. cbn. destruct (last steps.*1) as [i|] eqn:E.
      * by rewrite last_cons, E.
      * by rewrite last_cons, E.
Qed.

Lemma started_log_is n now mono_now boot r i ok f g : with_persistence n now mono_now boot r i ok f = Ok g ->
  log_is n r (cutoff_of now r) (events g) g.
Proof.
  unfold with_persistence, persistence_new. destruct ok; [|done]. cbn [negb result_bind]. intros [= <-]. split; [done..|].
  pose proof (load_in_window now f r n) as [Hn Hc]. cbn [events]. unfold window. by rewrite filter_young_all, last_n_all.
Qed.

Lemma restart_is_window n now r b (evs : list AuditEvent) : from_slice b = Some evs -> in_time_order evs ->
  load_persisted_events now (AData b) r n = window n (cutoff_of now r) evs.
Proof.
  intros Hb Hs. erewrite load_is_window by done. unfold window. rewrite sort_events_id; [done|].
  eapply in_time_order_sublist; [apply sublist_filter|done].
Qed.

Lemma run_app steps steps' g : run (steps ++ steps') g = run steps' (run steps g).
Proof. apply foldl_app. Qed.

(** A host that starts its audit log and then records events in the
    order of time, on a clock that does not go back, holds at every moment
    the window of everything recorded and loaded: the events not older than
    the retention, and of those the newest [capacity].  The audit routes
    answer with that window, newest first. *)
Theorem audit_log_is_window n now mono_now boot r i ok f g steps limit :
  with_persistence n now mono_now boot r i ok f = Ok g -> i64_min * NANOS <= now - r ->
  StronglySorted Z.le (now :: (wall <$> steps.*1)) -> in_time_order (events g ++ steps.*2) ->
  let g' := run steps g in let w := window n (cutoff_of (last_wall now steps) r) (events g ++ steps.*2) in
  events g' = w /\ (length (events g') <= n)%nat /\ recent limit g' = Ok (take limit (rev w)).
Proof.
  intros Hg Hr Hw Hs g' w. pose proof (run_keeps n r now (events g) steps g (started_log_is _ _ _ _ _ _ _ _ _ Hg) Hr Hw Hs) as [_ Hl _ He].
  split_and!; [done| |].
  - subst g'. rewrite He. apply last_n_length.
  - subst g'. unfold recent. rewrite Hl, He. fold w. f_equal. rewrite <- length_rev.
    destruct (Nat.le_ge_cases (length (rev w)) limit); [|by rewrite Nat.min_r].
    by rewrite Nat.min_l, !take_ge.
Qed.

(** C36: When events are recorded one after the other (each append has written
    its snapshot before the next begins), in the order of their times and on
    a clock that never goes back, and the last one was written, then a host
    that starts again later, with the same settings, holds the window (the
    capacity and the retention of the settings) of everything recorded
    before.  For appends that overlap this fails: the older snapshot can be
    written last ([stale_snapshot_can_win]). *)
Theorem audit_survives_a_crash {L : AuditJsonLaws J} n now mono_now boot r i ok f g steps io e data now' mono' boot' :
  with_persistence n now mono_now boot r i ok f = Ok g -> i64_min * NANOS <= now - r -> n <> 0%nat ->
  StronglySorted Z.le (now :: (wall <$> (steps ++ [(io, e)]).*1)) -> in_time_order (events g ++ (steps ++ [(io, e)]).*2) ->
  dir_ok io = true -> write_fails io = None -> to_vec (events (run (steps ++ [(io, e)]) g)) = Some data -> wall io <= now' ->
  exists p g', persistence (run (steps ++ [(io, e)]) g) = Some p
    /\ with_persistence n now' mono' boot' r i true (file p) = Ok g'
    /\ events g' = window n (cutoff_of now' r) (events g ++ (steps ++ [(io, e)]).*2).
Proof.
  intros Hg Hr Hn Hw Hs Hd Hf Hv Hlate. pose proof (started_log_is _ _ _ _ _ _ _ _ _ Hg) as Hg0.
  pose proof (run_keeps n r now (events g) _ g Hg0 Hr Hw Hs) as [_ _ _ He].
  assert (Hlast : last_wall now (steps ++ [(io, e)]) = wall io) by (unfold last_wall; rewrite fmap_app; cbn; by rewrite last_snoc).
  rewrite Hlast in He.
  assert (Hpre : log_is n r (cutoff_of (last_wall now steps) r) (events g ++ steps.*2) (run steps g)).
  { apply run_keeps; [done|done| |].
    - eapply strongly_sorted_sublist; [|exact Hw]. rewrite !fmap_app. apply sublist_skip. by apply sublist_inserts_r.
    - eapply in_time_order_sublist; [|exact Hs]. rewrite fmap_app. apply sublist_app; [done|]. by apply sublist_inserts_r. }
  destruct Hpre as [Hc Hl Hp _]. destruct (persistence (run steps g)) as [p|] eqn:Ep; [|done].
  rewrite run_app in Hv, He |- *. cbn [run foldl] in Hv, He |- *. fold (run steps g) in *.
  rewrite (append_writes _ _ _ p) in Hv, He |- * by congruence. cbn [snd events persistence] in *.
  eexists _, _. split_and!; [done|done|]. cbn [events].
  unfold persist. rewrite Hv, Hd, Hf. cbn [negb with_file file]. apply json_roundtrip in Hv. rewrite He in Hv.
  erewrite restart_is_window; [|exact Hv|by eapply in_time_order_sublist; [apply window_sublist|]].
  apply window_window; [|done].
  apply cutoff_later; [|done]. assert (now <= wall io); [|lia].
  apply StronglySorted_inv in Hw as [_ Hw]. rewrite Forall_forall in Hw. apply Hw. rewrite !fmap_app. set_solver.
Qed.

End Log.

(** ** A concrete history file *)

Definition event_tuple (e : AuditEvent) : Z * option (text * text) * text * text * nat * list text * AuditMetadata :=
  (timestamp e, match actor e with System => None | User u r => Some (u, r) end, action e, target e,
   match outcome e with Success => 0%nat | Failure => 1%nat | Denied => 2%nat end, redactions e, metadata e).
Definition event_of_tuple (t : Z * option (text * text) * text * text * nat * list text * AuditMetadata) : AuditEvent :=
  match t with
  | (ts, a, c, g, o, rs, m) =>
      mkEvent ts (match a with None => System | Some (u, r) => User u r end) c g
        (match o with 0%nat => Success | 1%nat => Failure | _ => Denied end) rs m
  end.
#[local] Instance AuditEvent_countable : Countable AuditEvent.
Proof. apply (inj_countable' event_tuple event_of_tuple). by intros [? [] ? ? [] ? ?]. Defined.

#[local] Instance demo_json : AuditJson := {
  to_vec evs := Some [Zpos (encode evs)];
  from_slice b := match b with [Zpos p] => decode p | _ => None end;
}.
#[local] Instance demo_json_laws : AuditJsonLaws demo_json.
Proof. split. intros evs b [= <-]. apply decode_encode. Qed.

Definition demo_event (t : Z) (what : string) : AuditEvent := mkEvent (t * NANOS) System (lit what) (lit "x") Success [] [].
Definition demo_io (t : Z) : Io := mkIo (t * NANOS) 0 true None.
Definition demo_steps : list (Io * AuditEvent) :=
  [(demo_io 10, demo_event 10 "a"); (demo_io 20, demo_event 20 "b"); (demo_io 30, demo_event 30 "c")].
Definition demo_log : InMemoryAuditLog := mkLog 2 [] false (Some (mkPersistence (15 * NANOS) (3600 * NANOS) 0 (AData []))).

Ltac time_order := repeat constructor; vm_compute; discriminate.

Lemma audit_log_is_window_witness :
  action <$> events (run demo_steps demo_log) = [lit "b"; lit "c"].
Proof.
  pose proof (audit_log_is_window (J := demo_json) 2 0 0 0 (15 * NANOS) (3600 * NANOS) true AMissing demo_log demo_steps 5
    eq_refl ltac:(vm_compute; discriminate) ltac:(time_order) ltac:(time_order)) as (-> & _). by vm_compute.
Defined.

Lemma audit_survives_a_crash_witness : exists p g',
  persistence (run demo_steps demo_log) = Some p
  /\ with_persistence 2 (40 * NANOS) 0 0 (15 * NANOS) (3600 * NANOS) true (file p) = Ok g' /\ action <$> events g' = [lit "c"].
Proof.
  destruct (audit_survives_a_crash (J := demo_json) 2 0 0 0 (15 * NANOS) (3600 * NANOS) true AMissing demo_log
    [(demo_io 10, demo_event 10 "a"); (demo_io 20, demo_event 20 "b")] (demo_io 30) (demo_event 30 "c")
    [Zpos (encode (events (run demo_steps demo_log)))] (40 * NANOS) 0 0
    eq_refl ltac:(vm_compute; discriminate) ltac:(discriminate) ltac:(time_order) ltac:(time_order) eq_refl eq_refl eq_refl
    ltac:(vm_compute; discriminate)) as (p & g' & Hp & Hg & He).
  exists p, g'. split_and!; [exact Hp|exact Hg|]. rewrite He. by vm_compute.
Defined.

Section Findings.
Context {J : AuditJson}.

(** The persist interval of the settings delays nothing: the condition of
    [append] holds on every call, so the whole log is written to disk for
    every event, however short the time since the last write. *)
Theorem persist_interval_delays_nothing io e g p data :
  capacity g <> 0%nat -> poisoned g = false -> persistence g = Some p -> dir_ok io = true -> write_fails io = None ->
  Z.max 0 (mono io - last_persist p) < persist_interval p -> to_vec (events (append io e g).2) = Some data ->
  exists p', persistence (append io e g).2 = Some p' /\ last_persist p' = last_persist p /\ file p' = AData data.
Proof.
  intros Hn Hl Hp Hd Hf Ht Hv. rewrite (append_writes _ _ _ p) in Hv |- * by done. cbn [snd events persistence] in *.
  eexists. split; [done|]. unfold persist. rewrite Hv, Hd, Hf. cbn. split; [|done].
  unfold should_persist. case_match eqn:E; [apply Z.leb_le in E; lia|done].
Qed.

(** The settings of an accepted configuration never reach the [expect] of
    the start-up. *)
Theorem accepted_audit_settings_start cfg now mono_now boot parent_ok probe_ok f :
  audit_validate cfg = Ok tt -> boot_audit_log cfg now mono_now boot parent_ok probe_ok f <> Err BootPanic.
Proof.
  unfold audit_validate, boot_audit_log. intros (_ & _ & H)%result_bind_ok_inv.
  destruct (audit_enabled cfg); [|done]. case_match; [done|].
  unfold audit_storage_validate in H. apply result_bind_ok_inv in H as (_ & _ & H). apply result_bind_ok_inv in H as (_ & _ & H).
  apply result_bind_ok_inv in H as (_ & _ & H). destruct (non_empty _); [|done]. cbn [ok_or result_bind].
  case_match; [done|]. by destruct (with_persistence _ _ _ _ _ _ _ _).
Qed.
End Findings.

(** The write happens after the lock is released: when two threads record at
    the same time, the older snapshot can be written last.  The log holds
    both events, the file only the first, until something else is recorded. *)
Theorem stale_snapshot_can_win :
  let io := demo_io 10 in
  let (s1, g1) := append_locked io (demo_event 10 "a") demo_log in
  let (s2, g2) := append_locked io (demo_event 10 "b") g1 in
  exists snapshot1 snapshot2 p, s1 = Ok snapshot1 /\ s2 = Ok snapshot2
    /\ let g := append_write io snapshot1 (append_write io snapshot2 g2) in
       action <$> events g = [lit "a"; lit "b"] /\ persistence g = Some p
       /\ load_persisted_events (20 * NANOS) (file p) (15 * NANOS) 2 = [demo_event 10 "a"].
Proof. vm_compute. eexists _, _, _. split_and!; reflexivity. Qed.

(** ** Redaction *)

(** Two actors, and two entries, that differ at most in what is redacted. *)
Definition same_actor (fields : list text) (a b : AuditActor) : Prop :=
  match a, b with
  | System, System => True
  | User u r, User u' r' => r = r' /\ (u = u' \/ lit "user_id" ∈ fields)
  | _, _ => False
  end.
Definition same_entry (fields : list text) (a b : text * text) : Prop := a.1 = b.1 /\ (a.2 = b.2 \/ a.1 ∈ fields).
Record same_shown (a b : AuditEvent) : Prop := {
  ss_time : timestamp a = timestamp b; ss_action : action a = action b; ss_target : target a = target b; ss_outcome : outcome a = outcome b;
  ss_fields : redactions a = redactions b; ss_actor : same_actor (redactions a) (actor a) (actor b);
  ss_entries : Forall2 (same_entry (redactions a)) (metadata a) (metadata b);
}.

Lemma is_redacted key (fields : list text) : key ∈ fields -> existsb (λ field, bool_decide (field = key)) fields = true.
Proof. intros H. apply existsb_exists. exists key. rewrite list_elem_of_In in H. by rewrite bool_decide_true. Qed.

Lemma view_same fmt a b : same_shown a b -> audit_event_to_view fmt a = audit_event_to_view fmt b.
Proof.
  intros [Ht Ha Hg Ho Hf Hac He]. unfold audit_event_to_view. rewrite Ht, Ha, Hg, Ho, <- Hf. f_equal.
  - destruct (actor a) as [|u r], (actor b) as [|u' r']; try done. destruct Hac as [-> [->|Hin]]; [done|]. by rewrite is_redacted.
  - induction He as [|[k v] [k' v'] l l' [Hk Hv] _ IH]; [done|]. cbn in Hk, Hv. subst k'. rewrite !fmap_cons, IH. f_equal.
    destruct Hv as [->|Hin]; [done|]. by rewrite is_redacted.
Qed.

Lemma query_same q a b : q_actor q = None -> same_shown a b -> query_matches q a = query_matches q b.
Proof. intros Hq [_ Ha _ Ho _ _ _]. unfold query_matches. by rewrite Hq, Ha, Ho. Qed.

Lemma views_same fmt (P : AuditEvent -> Prop) `{!forall e, Decision (P e)} (l l' : list AuditEvent) :
  (forall a b, same_shown a b -> P a <-> P b) -> Forall2 same_shown l l' ->
  audit_event_to_view fmt <$> filter P l = audit_event_to_view fmt <$> filter P l'.
Proof.
  intros HP. induction 1 as [|a b l l' Hab _ IH]; [done|]. destruct (decide (P a)) as [Ha|Ha].
  - rewrite !filter_cons_True, !fmap_cons, IH, (view_same _ _ _ Hab); [done|by apply (HP a)|done].
  - rewrite !filter_cons_False; [done|by rewrite <- (HP a)|done].
Qed.

(** The answers of [GET /audit] and [GET /audit/history] do not depend on
    what an event marks as redacted, neither the values of its entries nor
    its user id: logs that differ only there give the same answers.  The
    query must not filter by actor. *)
Theorem redacted_values_do_not_show fmt now q range limit g g' :
  q_actor q = None -> poisoned g = poisoned g' -> Forall2 same_shown (events g) (events g') ->
  audit_events fmt q g = audit_events fmt q g' /\ audit_history_events fmt now range limit g = audit_history_events fmt now range limit g'.
Proof.
  intros Hq Hp Hs. assert (Hr : forall n, Forall2 same_shown (take n (rev (events g))) (take n (rev (events g')))).
  { intros n. apply Forall2_take. rewrite !rev_alt. by apply Forall2_reverse. }
  pose proof (Forall2_length _ _ _ Hs) as Hlen. unfold audit_events, audit_history_events, recent. rewrite <- Hp, <- Hlen.
  destruct (poisoned g); [by destruct (parse_history_range range)|]. cbn [result_bind]. split.
  - f_equal. apply views_same; [|done]. intros a b Hab. by rewrite (query_same q a b).
  - destruct (parse_history_range range) as [span label]. f_equal. f_equal. apply views_same; [|done].
    intros a b [Ht _ _ _ _ _ _]. unfold young. by rewrite Ht.
Qed.

Definition demo_secret (who what : string) : AuditEvent :=
  mkEvent 0 (User (lit who) (lit "admin")) (lit "x") (lit "y") Success [lit "user_id"; lit "pin"] [(lit "pin", lit what); (lit "k", lit "v")].

Lemma redacted_values_do_not_show_witness :
  audit_events (λ _, []) (mkAuditQuery None None None None) (mkLog 5 [demo_secret "eve" "1234"] false None)
  = audit_events (λ _, []) (mkAuditQuery None None None None) (mkLog 5 [demo_secret "bob" "9999"] false None).
Proof.
  apply (redacted_values_do_not_show (λ _, []) 0 (mkAuditQuery None None None None) None None
    (mkLog 5 [demo_secret "eve" "1234"] false None) (mkLog 5 [demo_secret "bob" "9999"] false None)); [done|done|].
  constructor; [|constructor]. split; try done.
  - split; [done|]. right. apply list_elem_of_here.
  - constructor; [|constructor; [|constructor]]; (split; [done|]); [right|by left]. apply list_elem_of_further, list_elem_of_here.
Defined.

(** With a filter by actor they do: an event whose user id is redacted is
    found by that id, so a viewer can test ids one by one. *)
Theorem actor_filter_tells_redacted_ids :
  let q who := mkAuditQuery None None None (Some (lit who)) in
  let g := mkLog 5 [demo_secret "eve" "1234"] false None in
  (exists v, audit_events (λ _, []) (q "eve") g = Ok [v] /\ av_user_id (ev_actor v) = None) /\ audit_events (λ _, []) (q "bob") g = Ok [].
Proof. vm_compute. split; [by eexists|done]. Qed.
