(* ===== verification/PublicStatus.v ===== *)
(** * Public status page ([services/public_status.rs] and the public status of
    [infra/http/routes.rs])

    The page shows four components and their recent incidents.  The tracker
    follows the events of the service registry: it keeps a level per service,
    the worst level per component, and opens, changes and resolves one
    incident per component.

    Services are those of [Registry]; of their descriptors only the id and
    whether their ingress is public matter here.  The error rate is a number
    of which the code asks only whether it is at least 5.0 ([high]). *)

From stdpp Require Import pretty.
From S2P Require Import Prelude Text Registry.

#[local] Open Scope fenrir_scope.

Inductive PublicComponentKey := Website | Account | Api | Notifications.
#[global] Instance PublicComponentKey_eq_dec : EqDecision PublicComponentKey.
Proof. solve_decision. Defined.
Definition component_order (k : PublicComponentKey) : nat := match k with Website => 0 | Account => 1 | Api => 2 | Notifications => 3 end.
#[global] Instance PublicComponentKey_countable : Countable PublicComponentKey.
Proof.
  apply (inj_countable' component_order (λ n, match n with 0%nat => Website | 1%nat => Account | 2%nat => Api | _ => Notifications end)).
  by intros [].
Defined.

Definition REQUIRED : list PublicComponentKey := [Website; Account; Api].
Definition as_key (k : PublicComponentKey) : text :=
  match k with Website => lit "website" | Account => lit "account" | Api => lit "api" | Notifications => lit "notifications" end.
Definition display_name (k : PublicComponentKey) : text :=
  match k with Website => lit "Website" | Account => lit "Account & Login" | Api => lit "API" | Notifications => lit "Notifications" end.

(** ** Levels *)

Inductive PublicComponentStatus := Unknown | Up | Degraded | Down.
#[global] Instance PublicComponentStatus_eq_dec : EqDecision PublicComponentStatus.
Proof. solve_decision. Defined.
Definition level_rank (l : PublicComponentStatus) : nat := match l with Unknown => 0 | Up => 1 | Degraded => 2 | Down => 3 end.
Definition level_max (a b : PublicComponentStatus) : PublicComponentStatus := if (level_rank a <=? level_rank b)%nat then b else a.
Definition level_str (l : PublicComponentStatus) : text :=
  match l with Unknown => lit "unknown" | Up => lit "up" | Degraded => lit "degraded" | Down => lit "down" end.
Definition is_incident (l : PublicComponentStatus) : bool := match l with Degraded | Down => true | _ => false end.

Inductive PublicIncidentSeverity := Minor | Major.
Inductive PublicIncidentStatus := Open | Resolved.
Definition severity (l : PublicComponentStatus) : PublicIncidentSeverity := match l with Down => Major | _ => Minor end.

Definition status_from_service_status (s : ServiceStatus) : PublicComponentStatus :=
  match s with
  | Failed | Stopped => Down
  | Registry.Degraded | Starting => Degraded
  | Active => Up
  | Standby => Unknown
  end.

Definition incident_title (k : PublicComponentKey) (l : PublicComponentStatus) : text :=
  display_name k ++ match l with Down => lit " outage" | Degraded => lit " degraded" | Unknown | Up => lit " recovered" end.

Definition map_service_to_public_component (id : string) : option PublicComponentKey :=
  if bool_decide (id = "module:athenos-web::static"%string) || String.prefix "module:athenos-web::" id then Some Website
  else if bool_decide (id = "module:athenos-api::api-gateway"%string) || String.prefix "module:athenos-api::" id then Some Api
  else if String.prefix "module:auth-service::" id || bool_decide (id = "identity-service"%string) then Some Account
  else if String.prefix "module:notification-service::" id then Some Notifications
  else None.

(** ** The tracker *)

Record PublicIncidentRecord := mkIncident {
  in_id : text; in_component : PublicComponentKey; in_title : text; in_severity : PublicIncidentSeverity; in_started_at : Z;
  in_resolved_at : option Z;
}.
Record PublicStatusTrackerState := mkTracker {
  sequence : Z; open_incidents : gmap PublicComponentKey PublicIncidentRecord; resolved_incidents : list PublicIncidentRecord;
  component_levels : gmap PublicComponentKey PublicComponentStatus; service_levels : gmap string PublicComponentStatus;
}.
Definition tracker_new : PublicStatusTrackerState := mkTracker 0 ∅ [] ∅ ∅.

(** [inc-{sequence:06}]. *)
Definition incident_id (sequence : Z) : text :=
  let digits := lit (pretty (Z.to_N sequence)) in lit "inc-" ++ replicate (6 - length digits) 48 ++ digits.
Definition incident_open (k : PublicComponentKey) (l : PublicComponentStatus) (sequence now : Z) : PublicIncidentRecord :=
  mkIncident (incident_id sequence) k (incident_title k l) (severity l) now None.

Definition recompute_component_status (k : PublicComponentKey) (levels : gmap string PublicComponentStatus) : PublicComponentStatus :=
  foldr level_max Unknown
    (omap (λ '(id, l), if bool_decide (map_service_to_public_component id = Some k) then Some l else None) (map_to_list levels)).

Section Tracker.
Context {D : Type} (d_id : D -> string).

Definition seed_service (st : PublicStatusTrackerState) (service : ServiceSnapshot (D := D)) : PublicStatusTrackerState :=
  let id := d_id (s_descriptor service) in
  match map_service_to_public_component id with
  | None => st
  | Some k =>
      let l := status_from_service_status (s_status service) in
      let level := match component_levels st !! k with Some value => level_max value l | None => l end in
      mkTracker (sequence st) (open_incidents st) (resolved_incidents st) (<[k := level]> (component_levels st)) (<[id := l]> (service_levels st))
  end.
Definition seed_levels_from_snapshot (st : PublicStatusTrackerState) (snapshot : list (ServiceSnapshot (D := D))) : PublicStatusTrackerState :=
  foldl seed_service (mkTracker (sequence st) (open_incidents st) (resolved_incidents st) ∅ ∅) snapshot.

Definition apply_transition (max_recent : nat) (now : Z) (st : PublicStatusTrackerState) (snapshot : ServiceSnapshot (D := D)) : PublicStatusTrackerState :=
  let id := d_id (s_descriptor snapshot) in
  match map_service_to_public_component id with
  | None => st
  | Some k =>
      let previous := default Unknown (component_levels st !! k) in
      let services := <[id := status_from_service_status (s_status snapshot)]> (service_levels st) in
      let current := recompute_component_status k services in
      let components := <[k := current]> (component_levels st) in
      if negb (is_incident previous) && is_incident current then
        let seq := u64_saturating_add (sequence st) 1 in
        mkTracker seq (<[k := incident_open k current seq now]> (open_incidents st)) (resolved_incidents st) components services
      else if is_incident previous && is_incident current then
        let change i := mkIncident (in_id i) (in_component i) (incident_title k current) (severity current) (in_started_at i) (in_resolved_at i) in
        mkTracker (sequence st) (alter change k (open_incidents st)) (resolved_incidents st) components services
      else if is_incident previous && negb (is_incident current) then
        match open_incidents st !! k with
        | Some i =>
            let i := mkIncident (in_id i) (in_component i) (in_title i) (in_severity i) (in_started_at i) (Some now) in
            mkTracker (sequence st) (delete k (open_incidents st)) (take max_recent (i :: resolved_incidents st)) components services
        | None => mkTracker (sequence st) (open_incidents st) (resolved_incidents st) components services
        end
      else mkTracker (sequence st) (open_incidents st) (resolved_incidents st) components services
  end.

(** The tracker follows the registry: the events it has not seen yet are
    taken one by one.  [seen] is how many of them it has. *)
Record Following := mkFollowing { f_registry : ServiceRegistry (D := D); f_tracker : PublicStatusTrackerState; f_seen : nat }.

(** [start]: the levels are seeded, and a task is spawned. *)
Definition tracker_start (g : ServiceRegistry (D := D)) : PublicStatusTrackerState := seed_levels_from_snapshot tracker_new (snapshot g).
(** The task subscribes when it first runs; it gets what is sent from then on. *)
Definition tracker_subscribe (g : ServiceRegistry (D := D)) (st : PublicStatusTrackerState) : Following := mkFollowing g st (length (events g)).
Definition follow (max_recent : nat) (now : Z) (f : Following) : Following :=
  mkFollowing (f_registry f) (foldl (apply_transition max_recent now) (f_tracker f) (drop (f_seen f) (events (f_registry f))))
    (length (events (f_registry f))).
Definition follow_op (max_recent : nat) (f : Following) (step : op (D := D) * Z) : Following :=
  follow max_recent step.2 (mkFollowing (run_op d_id (f_registry f) step.1) (f_tracker f) (f_seen f)).

(** ** What the page shows *)

Record PublicIncidentSnapshot := mkIncidentView { iv_record : PublicIncidentRecord; iv_status : PublicIncidentStatus }.
Definition incident_time (i : PublicIncidentSnapshot) : Z := default (in_started_at (iv_record i)) (in_resolved_at (iv_record i)).
Definition recent_incidents (limit : nat) (st : PublicStatusTrackerState) : list PublicIncidentSnapshot :=
  let incidents := ((λ i, mkIncidentView i Open) <$> (map_to_list (open_incidents st)).*2)
                   ++ ((λ i, mkIncidentView i Resolved) <$> resolved_incidents st) in
  take limit (stable_sort (λ a b, incident_time b <=? incident_time a) incidents).

Context (is_public : D -> bool) {F : Type} (high : F -> bool).
Record ServiceMetricSnapshot := mkMetrics { last_heartbeat_elapsed : option Z; error_rate_pct : option F }.
Definition HTTP_SERVICE_ID : string := "http-server".
Definition SERVICE_HEALTH_STALE_AFTER_SECS : Z := 180.
Inductive HealthLabel := LStale | LDegraded | LHealthy | LUnknown.

Definition health_state_label (s : ServiceStatus) (metrics : option ServiceMetricSnapshot) : HealthLabel :=
  match metrics with
  | Some m =>
      if match last_heartbeat_elapsed m with Some last => SERVICE_HEALTH_STALE_AFTER_SECS <=? last | None => false end then LStale
      else if match error_rate_pct m with Some err => high err | None => false end then LDegraded
      else LHealthy
  | None => match s with Failed | Registry.Degraded => LDegraded | _ => LUnknown end
  end.
Definition public_status_level (s : ServiceStatus) (metrics : option ServiceMetricSnapshot) : PublicComponentStatus :=
  match s with
  | Failed | Stopped => Down
  | Registry.Degraded | Starting => Degraded
  | Standby => Unknown
  | Active => match health_state_label s metrics with LStale => Down | LDegraded => Degraded | LHealthy | LUnknown => Up end
  end.

Definition is_public_status_visible (s : ServiceSnapshot (D := D)) : bool :=
  bool_decide (d_id (s_descriptor s) = HTTP_SERVICE_ID) || is_public (s_descriptor s).

Definition add_level (diagnostics : gmap string ServiceMetricSnapshot) (acc : gmap PublicComponentKey PublicComponentStatus * bool)
    (s : ServiceSnapshot (D := D)) : gmap PublicComponentKey PublicComponentStatus * bool :=
  let (levels, seen) := acc in
  let id := d_id (s_descriptor s) in
  match map_service_to_public_component id with
  | None => acc
  | Some k =>
      if negb (is_public_status_visible s) then acc
      else
        let seen := seen || bool_decide (k = Notifications) in
        let level := public_status_level (s_status s) (diagnostics !! id) in
        (<[k := match levels !! k with Some value => level_max value level | None => level end]> levels, seen)
  end.
Definition or_insert (k : PublicComponentKey) (l : PublicComponentStatus) (m : gmap PublicComponentKey PublicComponentStatus)
    : gmap PublicComponentKey PublicComponentStatus := match m !! k with Some _ => m | None => <[k := l]> m end.
Definition build_public_components (services : list (ServiceSnapshot (D := D))) (diagnostics : gmap string ServiceMetricSnapshot)
    : list (PublicComponentKey * PublicComponentStatus) :=
  let (levels, seen_notifications) := foldl (add_level diagnostics) (∅, false) services in
  let levels := foldl (λ m k, or_insert k Unknown m) levels REQUIRED in
  let levels := if seen_notifications then or_insert Notifications Unknown levels else delete Notifications levels in
  stable_sort (λ a b, (component_order a.1 <=? component_order b.1)%nat) (map_to_list levels).

Inductive Overall := Operational | OverallDegraded | MajorOutage.
Definition overall_public_status (live ready : bool) (components : list (PublicComponentKey * PublicComponentStatus)) : Overall :=
  if negb live then MajorOutage
  else if negb ready then MajorOutage
  else if existsb (λ c, bool_decide (c.2 = Down)) components then MajorOutage
  else if existsb (λ c, bool_decide (c.2 = Degraded)) components || forallb (λ c, bool_decide (c.2 = Unknown)) components then OverallDegraded
  else Operational.

End Tracker.
