(* ===== verification/PublicStatusSafety.v ===== *)
(** * Theorems on the public status page

    The tracker's invariant: levels are the worst of the services, an open
    incident always tells the current level, and ids are never used twice.
    A service that fails while the tracker follows the registry has an open
    incident.  The page shows the fixed components with the worst visible
    level.  Findings: what the page misses or shows too long. *)

From stdpp Require Import pretty.
From S2P Require Import Prelude Text Registry PublicStatus.

#[local] Open Scope fenrir_scope.

(** ** Levels *)

Lemma level_rank_inj a b : level_rank a = level_rank b -> a = b.
Proof. by destruct a, b. Qed.
Lemma level_max_rank a b : level_rank (level_max a b) = Nat.max (level_rank a) (level_rank b).
Proof. by destruct a, b. Qed.

Lemma foldr_max_le (ls : list PublicComponentStatus) n :
  (level_rank (foldr level_max Unknown ls) <= n)%nat <-> Forall (λ l, (level_rank l <= n)%nat) ls.
Proof.
  induction ls as [|l ls IH]; cbn [foldr]; [split; [constructor|cbn; lia]|]. rewrite level_max_rank, Forall_cons, <- IH. lia.
Qed.

(** The level of a component is the worst of its services. *)
Lemma recompute_le k (m : gmap string PublicComponentStatus) n :
  (level_rank (recompute_component_status k m) <= n)%nat
  <-> forall id l, m !! id = Some l -> map_service_to_public_component id = Some k -> (level_rank l <= n)%nat.
Proof.
  unfold recompute_component_status. rewrite foldr_max_le, Forall_forall. split.
  - intros H id l Hl Hk. apply H. apply list_elem_of_omap. exists (id, l). rewrite elem_of_map_to_list. by rewrite bool_decide_true.
  - intros H l ([id l'] & Hin & Hl)%list_elem_of_omap. case_bool_decide; [|done]. simplify_eq. apply elem_of_map_to_list in Hin. eauto.
Qed.

Lemma recompute_ext k (m m' : gmap string PublicComponentStatus) :
  (forall id, map_service_to_public_component id = Some k -> m !! id = m' !! id) ->
  recompute_component_status k m = recompute_component_status k m'.
Proof.
  intros H. apply level_rank_inj, Nat.le_antisymm; apply recompute_le; intros id l Hl Hk.
  - rewrite H in Hl by done. by apply (proj1 (recompute_le k m' _) (le_n _) id).
  - rewrite <- H in Hl by done. by apply (proj1 (recompute_le k m _) (le_n _) id).
Qed.

(** A new service raises the level of its component to at least its own. *)
Lemma recompute_insert_new k id l (m : gmap string PublicComponentStatus) :
  map_service_to_public_component id = Some k -> m !! id = None ->
  recompute_component_status k (<[id := l]> m) = level_max (recompute_component_status k m) l.
Proof.
  intros Hk Hn. apply level_rank_inj. rewrite level_max_rank. apply Nat.le_antisymm.
  - apply recompute_le. intros id' l' [[<- <-]|[Hne Hl']]%lookup_insert_Some Hk'; [lia|].
    pose proof (proj1 (recompute_le k m _) (le_n _) id' l' Hl' Hk'). lia.
  - assert (H := proj1 (recompute_le k (<[id := l]> m) _) (le_n _)). apply Nat.max_lub.
    + apply recompute_le. intros id' l' Hl' Hk'. apply (H id'); [|done]. apply lookup_insert_Some. right. split; [congruence|done].
    + apply (H id); [apply lookup_insert_eq|done].
Qed.

Definition level_of (st : PublicStatusTrackerState) (k : PublicComponentKey) : PublicComponentStatus := default Unknown (component_levels st !! k).

(** ** Ids of incidents *)

Lemma digits_zeros n (s : text) : digits_value (replicate n 48 ++ s) = digits_value s.
Proof. unfold digits_value. induction n as [|n IH]; cbn; [done|]. exact IH. Qed.

Lemma pretty_value n : digits_value (lit (pretty (n : N))) = Z.of_N n.
Proof. unfold digits_value, pretty, pretty_N. case_decide as Hz; [by rewrite Hz|]. by rewrite pretty_go_value. Qed.

Lemma incident_id_inj a b : 0 <= a -> 0 <= b -> incident_id a = incident_id b -> a = b.
Proof.
  unfold incident_id. intros Ha Hb H. apply app_inv_head in H. apply (f_equal digits_value) in H.
  rewrite !digits_zeros, !pretty_value in H. lia.
Qed.

(** ** The invariant *)

Definition all_incidents (st : PublicStatusTrackerState) : list PublicIncidentRecord :=
  (map_to_list (open_incidents st)).*2 ++ resolved_incidents st.

Record tells (k : PublicComponentKey) (l : PublicComponentStatus) (i : PublicIncidentRecord) : Prop := {
  tells_component : in_component i = k; tells_incident : is_incident l = true; tells_title : in_title i = incident_title k l;
  tells_severity : in_severity i = severity l; tells_open : in_resolved_at i = None;
}.
Record tracker_ok (max_recent : nat) (st : PublicStatusTrackerState) : Prop := {
  tk_levels : forall k, level_of st k = recompute_component_status k (service_levels st);
  tk_open : forall k i, open_incidents st !! k = Some i -> tells k (level_of st k) i;
  tk_recent : (length (resolved_incidents st) <= max_recent)%nat;
  tk_resolved : Forall (λ i, is_Some (in_resolved_at i)) (resolved_incidents st);
  tk_sequence : 0 <= sequence st;
  tk_numbers : Forall (λ i, exists n, 0 < n <= sequence st /\ in_id i = incident_id n) (all_incidents st);
  tk_ids : NoDup (in_id <$> all_incidents st);
}.

Section Tracker.
Context {D : Type} (d_id : D -> string).
Implicit Types st : PublicStatusTrackerState.

(** Seeding, from services with different ids. *)
Lemma seed_levels (services : list (ServiceSnapshot (D := D))) st :
  NoDup ((λ s, d_id (s_descriptor s)) <$> services) ->
  (forall s, s ∈ services -> service_levels st !! d_id (s_descriptor s) = None) ->
  (forall k, level_of st k = recompute_component_status k (service_levels st)) ->
  let st' := foldl (seed_service d_id) st services in
  (forall k, level_of st' k = recompute_component_status k (service_levels st'))
  /\ open_incidents st' = open_incidents st /\ resolved_incidents st' = resolved_incidents st /\ sequence st' = sequence st
  /\ (forall id l, service_levels st !! id = Some l -> service_levels st' !! id = Some l)
  /\ (forall s k, s ∈ services -> map_service_to_public_component (d_id (s_descriptor s)) = Some k ->
        service_levels st' !! d_id (s_descriptor s) = Some (status_from_service_status (s_status s))).
Proof.
  revert st. induction services as [|s services IH]; intros st Hnd Hnew Hlev; cbn [foldl]; [split_and!; try done; set_solver|].
  rewrite fmap_cons in Hnd. apply NoDup_cons in Hnd as [Hs Hnd]. pose proof (Hnew s (list_elem_of_here _ _)) as Hns.
  assert (Hstep : let st1 := seed_service d_id st s in
    (forall k, level_of st1 k = recompute_component_status k (service_levels st1)) /\ open_incidents st1 = open_incidents st
    /\ resolved_incidents st1 = resolved_incidents st /\ sequence st1 = sequence st
    /\ (forall id l, service_levels st !! id = Some l -> service_levels st1 !! id = Some l)
    /\ (forall id, id <> d_id (s_descriptor s) -> service_levels st1 !! id = service_levels st !! id)
    /\ (forall k, map_service_to_public_component (d_id (s_descriptor s)) = Some k ->
        service_levels st1 !! d_id (s_descriptor s) = Some (status_from_service_status (s_status s)))).
  { unfold seed_service. cbn zeta. destruct (map_service_to_public_component (d_id (s_descriptor s))) as [k|] eqn:Hk; [|by split_and!].
    split_and!; try done; cbn [service_levels].
    - intros k'. unfold level_of in *. cbn [component_levels]. destruct (decide (k' = k)) as [->|Hne].
      + rewrite lookup_insert_eq, recompute_insert_new by done. rewrite <- Hlev. by destruct (component_levels st !! k).
      + rewrite lookup_insert_ne by done. rewrite Hlev. apply recompute_ext. intros id Hid. by rewrite lookup_insert_ne by congruence.
    - intros id l Hl. rewrite lookup_insert_ne by congruence. done.
    - intros id Hne. by rewrite lookup_insert_ne by congruence.
    - intros _ _. by rewrite lookup_insert_eq. }
  destruct Hstep as (Hl1 & Ho1 & Hr1 & Hq1 & Hk1 & Hn1 & Hs1).
  destruct (IH (seed_service d_id st s) Hnd) as (Hl2 & Ho2 & Hr2 & Hq2 & Hk2 & Hs2).
  - intros s' Hs'. rewrite Hn1; [apply Hnew; by right|]. intros E. apply Hs. rewrite <- E. apply list_elem_of_fmap. by exists s'.
  - done.
  - split_and!; [done|congruence|congruence|congruence|eauto|]. intros s' k [->|Hin]%elem_of_cons Hk; [|by apply (Hs2 s' k)]. eauto.
Qed.

(** A registry lists every service once. *)
Lemma snapshot_ids (g : ServiceRegistry (D := D)) : registry_ok d_id g -> NoDup ((λ s, d_id (s_descriptor s)) <$> snapshot g).
Proof.
  intros [Hid _]. unfold snapshot. destruct (poisoned g); [constructor|]. unfold btree_values. rewrite <- !list_fmap_compose.
  replace (_ <$> btree_entries (inner g)) with (btree_entries (inner g)).*1; [rewrite btree_entries_keys; apply btree_keys_nodup|].
  apply list_fmap_ext. intros i [k r] Hk. symmetry. apply Hid. apply btree_entries_elem, list_elem_of_lookup. eauto.
Qed.

Lemma seeded_tracker_ok max_recent (g : ServiceRegistry (D := D)) : registry_ok d_id g -> tracker_ok max_recent (tracker_start d_id g).
Proof.
  intros Hg. unfold tracker_start, seed_levels_from_snapshot. change (mkTracker _ _ _ _ _) with (mkTracker 0 ∅ [] ∅ ∅).
  destruct (seed_levels (snapshot g) (mkTracker 0 ∅ [] ∅ ∅) (snapshot_ids g Hg)) as (Hl & Ho & Hr & Hq & _).
  - intros s _. apply lookup_empty.
  - intros k. unfold level_of, recompute_component_status. cbn. by rewrite lookup_empty, map_to_list_empty.
  - revert Hl Ho Hr Hq. generalize (foldl (seed_service d_id) (mkTracker 0 ∅ [] ∅ ∅) (snapshot g)). intros st Hl Ho Hr Hq.
    cbn in Ho, Hr, Hq. split; [done| |..]; unfold all_incidents; rewrite ?Ho, ?Hr, ?Hq.
    + intros k i. by rewrite lookup_empty.
    + cbn. lia.
    + constructor.
    + done.
    + rewrite map_to_list_empty. constructor.
    + rewrite map_to_list_empty. constructor.
Qed.

(** ** One event *)

Lemma incidents_split (m : gmap PublicComponentKey PublicIncidentRecord) k i (r : list PublicIncidentRecord) : m !! k = Some i ->
  (map_to_list m).*2 ++ r ≡ₚ i :: (map_to_list (delete k m)).*2 ++ r.
Proof. intros H. by rewrite <- (map_to_list_delete m k i H). Qed.

Lemma incidents_insert (m : gmap PublicComponentKey PublicIncidentRecord) k i (r : list PublicIncidentRecord) :
  (map_to_list (<[k := i]> m)).*2 ++ r ≡ₚ i :: (map_to_list (delete k m)).*2 ++ r.
Proof.
  rewrite (incidents_split _ k i) by apply lookup_insert_eq. by rewrite delete_insert_eq.
Qed.

(** The parts of the invariant that speak of the ids, of a list of incidents. *)
Definition numbered (n : Z) (l : list PublicIncidentRecord) : Prop :=
  Forall (λ i, exists x, 0 < x <= n /\ in_id i = incident_id x) l /\ NoDup (in_id <$> l).

Lemma numbered_perm n (l l' : list PublicIncidentRecord) : (in_id <$> l) ≡ₚ (in_id <$> l') -> numbered n l -> numbered n l'.
Proof.
  intros Hp [H1 H2]. split; [|by rewrite <- Hp]. rewrite Forall_forall in H1. apply Forall_forall. intros i Hi.
  assert (Hin : in_id i ∈ in_id <$> l) by (rewrite Hp; by apply list_elem_of_fmap_2).
  apply list_elem_of_fmap in Hin as (j & -> & Hj). eauto.
Qed.

Lemma numbered_sublist n (l l' : list PublicIncidentRecord) : l' `sublist_of` l -> numbered n l -> numbered n l'.
Proof.
  intros Hs [H1 H2]. rewrite Forall_forall in H1. split.
  - apply Forall_forall. intros i Hi. apply H1. by eapply elem_of_sublist.
  - eapply sublist_NoDup; [exact H2|]. clear -Hs. induction Hs; cbn; by constructor.
Qed.

Lemma numbered_new n k l now (r : list PublicIncidentRecord) : 0 <= n -> numbered n r -> numbered (n + 1) (incident_open k l (n + 1) now :: r).
Proof.
  intros Hn [H1 H2]. split.
  - constructor; [exists (n + 1); split; [lia|done]|]. eapply Forall_impl; [exact H1|]. cbn. intros i (x & Hx & Hi). exists x. split; [lia|done].
  - rewrite fmap_cons. apply NoDup_cons. split; [|done]. intros (i & Hid & Hi)%list_elem_of_fmap.
    rewrite Forall_forall in H1. destruct (H1 i Hi) as (x & Hx & Hx'). rewrite Hx' in Hid. apply incident_id_inj in Hid; lia.
Qed.

Lemma tracker_ok_intro max_recent st : (forall k, level_of st k = recompute_component_status k (service_levels st)) ->
  (forall k i, open_incidents st !! k = Some i -> tells k (level_of st k) i) ->
  (length (resolved_incidents st) <= max_recent)%nat -> Forall (λ i, is_Some (in_resolved_at i)) (resolved_incidents st) ->
  0 <= sequence st -> numbered (sequence st) (all_incidents st) -> tracker_ok max_recent st.
Proof. intros ????? [??]. by split. Qed.

Lemma transition_ok max_recent now st (s : ServiceSnapshot (D := D)) :
  tracker_ok max_recent st -> sequence st < u64_max -> tracker_ok max_recent (apply_transition d_id max_recent now st s).
Proof.
  intros [Hlev Hopen Hrec Hres Hseq Hnum Hids] Hmax. unfold apply_transition.
  destruct (map_service_to_public_component (d_id (s_descriptor s))) as [k|] eqn:Hk; [|by split].
  set (services := <[_ := _]> (service_levels st)). set (current := recompute_component_status k services).
  fold (level_of st k). cbn zeta.
  assert (Hn : numbered (sequence st) (all_incidents st)) by done.
  assert (Hl : forall q o r k', level_of (mkTracker q o r (<[k := current]> (component_levels st)) services) k' = recompute_component_status k' services).
  { intros q o r k'. unfold level_of. cbn. destruct (decide (k' = k)) as [->|Hne]; [by rewrite lookup_insert_eq|].
    rewrite lookup_insert_ne by done. fold (level_of st k'). rewrite Hlev. apply recompute_ext. intros id Hid. subst services.
    by rewrite lookup_insert_ne by congruence. }
  assert (Hoth : forall q o r k' i, k' <> k -> open_incidents st !! k' = Some i ->
    tells k' (level_of (mkTracker q o r (<[k := current]> (component_levels st)) services) k') i).
  { intros q o r k' i Hne Hi. unfold level_of. cbn. rewrite lookup_insert_ne by done. by apply Hopen. }
  assert (Hcur : forall q o r, level_of (mkTracker q o r (<[k := current]> (component_levels st)) services) k = current) by (intros; apply Hl).
  destruct (is_incident (level_of st k)) eqn:Hp, (is_incident current) eqn:Hc; cbn [negb andb].
  - apply tracker_ok_intro; cbn [sequence resolved_incidents open_incidents]; try exact (Hl _ _ _); try done; [ |].
    + intros k' i. destruct (decide (k' = k)) as [->|Hne]; [|rewrite lookup_alter_ne by done; by apply Hoth].
      rewrite lookup_alter_eq. intros (j & Hj & ->)%fmap_Some. rewrite Hcur. destruct (Hopen k j Hj). by split.
    + eapply numbered_perm; [|exact Hn]. unfold all_incidents. cbn [open_incidents resolved_incidents].
      destruct (open_incidents st !! k) as [j|] eqn:Hj; [|by rewrite alter_id by (intros; congruence)].
      rewrite (incidents_split _ k j) by done. rewrite (incidents_split (alter _ k _) k) by (rewrite lookup_alter_eq, Hj; reflexivity).
      by rewrite delete_alter_eq.
  - destruct (open_incidents st !! k) as [j|] eqn:Hj.
    + apply tracker_ok_intro; cbn [sequence resolved_incidents open_incidents]; try exact (Hl _ _ _); try done; [ | | |].
      * intros k' i [Hne Hi]%lookup_delete_Some. by apply Hoth.
      * rewrite length_take. lia.
      * apply Forall_take. by constructor; [eexists|].
      * eapply numbered_sublist.
        { unfold all_incidents. cbn [open_incidents resolved_incidents]. apply sublist_app; [done|apply sublist_take]. }
        eapply numbered_perm; [|exact Hn]. unfold all_incidents. rewrite (incidents_split _ k j) by done.
        rewrite fmap_cons, !fmap_app, fmap_cons. cbn [in_id]. apply Permutation_middle.
    + apply tracker_ok_intro; cbn [sequence resolved_incidents open_incidents]; try exact (Hl _ _ _); try done.
      intros k' i Hi. apply Hoth; [congruence|done].
  - assert (Hnone : open_incidents st !! k = None).
    { destruct (open_incidents st !! k) as [j|] eqn:Hj; [|done]. destruct (Hopen k j Hj). congruence. }
    assert (Hs1 : u64_saturating_add (sequence st) 1 = sequence st + 1) by (unfold u64_saturating_add; lia).
    apply tracker_ok_intro; cbn [sequence resolved_incidents open_incidents]; try exact (Hl _ _ _); try done; [ |rewrite Hs1; lia|].
    + intros k' i [[<- <-]|[Hne Hi]]%lookup_insert_Some; [|by apply Hoth]. rewrite Hcur. by split.
    + rewrite Hs1. eapply numbered_perm; [|by apply (numbered_new (sequence st) k current now _ Hseq Hn)].
      unfold all_incidents. cbn [open_incidents resolved_incidents]. by rewrite incidents_insert, delete_id.
  - apply tracker_ok_intro; cbn [sequence resolved_incidents open_incidents]; try exact (Hl _ _ _); try done.
    intros k' i Hi. destruct (decide (k' = k)) as [->|Hne]; [|by apply Hoth]. destruct (Hopen k i Hi). congruence.
Qed.

Lemma transition_services max_recent now st (s : ServiceSnapshot (D := D)) :
  service_levels (apply_transition d_id max_recent now st s)
  = match map_service_to_public_component (d_id (s_descriptor s)) with
    | Some _ => <[d_id (s_descriptor s) := status_from_service_status (s_status s)]> (service_levels st)
    | None => service_levels st
    end.
Proof. unfold apply_transition. cbn zeta. by repeat case_match. Qed.

Lemma transition_sequence max_recent now st (s : ServiceSnapshot (D := D)) :
  sequence st <= sequence (apply_transition d_id max_recent now st s) <= sequence st + 1 \/ u64_max < sequence st.
Proof. unfold apply_transition, u64_saturating_add. cbn zeta. repeat case_match; cbn; lia. Qed.

(** A component that is in an incident has an open one. *)
Definition reported st (k : PublicComponentKey) : Prop := is_incident (level_of st k) = true -> is_Some (open_incidents st !! k).

Lemma transition_reported max_recent now st (s : ServiceSnapshot (D := D)) k :
  reported st k -> reported (apply_transition d_id max_recent now st s) k.
Proof.
  unfold reported, apply_transition. intros Hr. destruct (map_service_to_public_component (d_id (s_descriptor s))) as [k0|]; [|done].
  cbn zeta. fold (level_of st k0). set (services := <[_ := _]> (service_levels st)). set (current := recompute_component_status k0 services).
  destruct (decide (k = k0)) as [<-|Hne].
  - destruct (is_incident (level_of st k)) eqn:Hp, (is_incident current) eqn:Hc; cbn [negb andb];
      try (repeat case_match); unfold level_of; cbn [open_incidents component_levels]; rewrite lookup_insert_eq; unfold id; cbn [from_option];
      try (intros; congruence).
    + intros _. rewrite lookup_alter_eq. destruct (Hr eq_refl) as [i ->]. by eexists.
    + intros _. rewrite lookup_insert_eq. by eexists.
  - repeat case_match; unfold level_of in *; cbn [open_incidents component_levels]; rewrite ?lookup_insert_ne by done; try done.
    + by rewrite lookup_alter_ne.
    + by rewrite lookup_delete_ne.
Qed.

(** ** Following the registry *)

Lemma run_op_events (g : ServiceRegistry (D := D)) o : registry_ok d_id g ->
  (events (run_op d_id g o) = events g /\ forall id r, inner (run_op d_id g o) !! id = Some r -> inner g !! id = Some r)
  \/ exists r, events (run_op d_id g o) = events g ++ [snapshot_from_record r]
       /\ inner (run_op d_id g o) = <[d_id (descriptor r) := r]> (inner g).
Proof.
  intros Hg. destruct o as [d x n now|id x n now|id n|id|p]; cbn [run_op];
    unfold register, set_status, update_note, unregister, unregister_prefixed; destruct (poisoned g); try (by left).
  - right. exists (mkRecord d x now n). cbn. by rewrite lookup_insert_eq.
  - destruct (inner g !! id) as [r|] eqn:Hr; [|by left]. right. exists (mkRecord (descriptor r) x now n). cbn.
    by rewrite (ok_ids _ _ Hg _ _ Hr).
  - destruct (inner g !! id) as [r|] eqn:Hr; [|by left]. right. exists (mkRecord (descriptor r) (status r) (since r) n). cbn.
    by rewrite (ok_ids _ _ Hg _ _ Hr).
  - left. split; [done|]. cbn. by intros id' r [_ ?]%lookup_delete_Some.
  - left. split; [done|]. cbn. intros id r. rewrite foldl_delete_lookup. by destruct (decide _).
Qed.

Record following_ok (max_recent : nat) (f : Following (D := D)) : Prop := {
  fo_registry : registry_ok d_id (f_registry f);
  fo_seen : f_seen f = length (events (f_registry f));
  fo_tracker : tracker_ok max_recent (f_tracker f);
  fo_services : forall id r k, inner (f_registry f) !! id = Some r -> map_service_to_public_component id = Some k ->
    service_levels (f_tracker f) !! id = Some (status_from_service_status (status r));
  fo_sequence : sequence (f_tracker f) <= Z.of_nat (f_seen f);
}.

Lemma follow_op_ok max_recent f step : following_ok max_recent f -> Z.of_nat (f_seen f) < u64_max ->
  following_ok max_recent (follow_op d_id max_recent f step) /\ (f_seen (follow_op d_id max_recent f step) <= S (f_seen f))%nat
  /\ forall k, reported (f_tracker f) k -> reported (f_tracker (follow_op d_id max_recent f step)) k.
Proof.
  intros [Hg Hs Ht Hsv Hq] Hmax. destruct step as [o now]. pose proof (registry_op_ok d_id _ o Hg) as Hg'.
  destruct (run_op_events (f_registry f) o Hg) as [[He Hi]|(r & He & Hi)].
  - unfold follow_op, follow. cbn. rewrite He, Hs, drop_all. cbn. split_and!; [|lia|done]. split; cbn; rewrite ?He; try done.
    + intros id r k Hr. apply Hsv. by apply Hi.
    + by rewrite <- Hs.
  - unfold follow_op, follow. cbn. rewrite He, Hs, drop_app_length. cbn [foldl].
    pose proof (transition_sequence max_recent now (f_tracker f) (snapshot_from_record r)) as Hseq. split_and!.
    + split; cbn; rewrite ?He, ?length_app; try done.
      * apply transition_ok; [done|lia].
      * intros id r' k Hr' Hk. rewrite transition_services. cbn. rewrite Hi in Hr'.
        apply lookup_insert_Some in Hr' as [[<- <-]|[Hne Hr']]; [by rewrite Hk, lookup_insert_eq|].
        case_match; [rewrite lookup_insert_ne by done|]; by apply (Hsv id r' k).
      * cbn. lia.
    + rewrite length_app. cbn. lia.
    + intros k. apply transition_reported.
Qed.

Lemma follow_ops_ok max_recent f (steps : list (op (D := D) * Z)) : following_ok max_recent f ->
  Z.of_nat (f_seen f + length steps) <= u64_max ->
  let f' := foldl (follow_op d_id max_recent) f steps in
  following_ok max_recent f' /\ forall k, reported (f_tracker f) k -> reported (f_tracker f') k.
Proof.
  revert f. induction steps as [|step steps IH]; intros f Hf Hn; cbn [foldl length] in *; [done|].
  destruct (follow_op_ok max_recent f step Hf) as (Hf' & Hs & Hr); [lia|].
  destruct (IH (follow_op d_id max_recent f step) Hf') as [H1 H2]; [lia|]. split; [done|]. eauto.
Qed.

Lemma subscribe_ok max_recent (g : ServiceRegistry (D := D)) : registry_ok d_id g -> poisoned g = false ->
  following_ok max_recent (tracker_subscribe g (tracker_start d_id g)).
Proof.
  intros Hg Hp. pose proof (seeded_tracker_ok max_recent g Hg) as Hst. split; cbn; [done|done|done| |].
  - intros id r k Hr Hk. unfold tracker_start, seed_levels_from_snapshot. change (mkTracker _ _ _ _ _) with (mkTracker 0 ∅ [] ∅ ∅).
    destruct (seed_levels (snapshot g) (mkTracker 0 ∅ [] ∅ ∅) (snapshot_ids g Hg)) as (_ & _ & _ & _ & _ & Hin).
    + intros s _. apply lookup_empty.
    + intros k'. unfold level_of, recompute_component_status. cbn. by rewrite lookup_empty, map_to_list_empty.
    + assert (Hid : d_id (descriptor r) = id) by by apply (ok_ids _ _ Hg). subst id.
      apply (Hin (snapshot_from_record r) k); [|done]. unfold snapshot. rewrite Hp. apply list_elem_of_fmap_2. unfold btree_values.
      apply list_elem_of_fmap. exists (d_id (descriptor r), r). split; [done|]. by apply btree_entries_elem.
  - assert (Hz : sequence (tracker_start d_id g) = 0); [|lia]. unfold tracker_start, seed_levels_from_snapshot. cbn.
    generalize (mkTracker 0 ∅ [] ∅ ∅ : PublicStatusTrackerState) (eq_refl : sequence (mkTracker 0 ∅ [] ∅ ∅) = 0). intros st0.
    revert st0. induction (snapshot g) as [|x l IH]; intros st0 H0; cbn; [done|]. apply IH. unfold seed_service. by case_match.
Qed.

End Tracker.

(** ** The components of the page *)

Section Components.
Context {D : Type} (d_id : D -> string) (is_public : D -> bool) {F : Type} (high : F -> bool).
Implicit Types s : ServiceSnapshot (D := D).

(** Service [s] counts for component [k] on the page. *)
Definition counts (k : PublicComponentKey) s : bool :=
  bool_decide (map_service_to_public_component (d_id (s_descriptor s)) = Some k) && is_public_status_visible d_id is_public s.
Definition shown_level (diagnostics : gmap string (ServiceMetricSnapshot (F := F))) s : PublicComponentStatus :=
  public_status_level high (s_status s) (diagnostics !! d_id (s_descriptor s)).

Lemma level_max_unknown l : level_max Unknown l = l.
Proof. by destruct l. Qed.

Lemma add_level_spec diagnostics levels seen s : let r := add_level d_id is_public high diagnostics (levels, seen) s in
  (forall k, r.1 !! k = if counts k s then Some (level_max (default Unknown (levels !! k)) (shown_level diagnostics s)) else levels !! k)
  /\ r.2 = seen || counts Notifications s.
Proof.
  unfold add_level, counts. cbn zeta.
  destruct (map_service_to_public_component (d_id (s_descriptor s))) as [k0|]; [|by rewrite orb_false_r].
  destruct (is_public_status_visible d_id is_public s); cbn [negb]; [|split; [by intros k; rewrite andb_false_r|by rewrite andb_false_r, orb_false_r]].
  cbn [fst snd]. rewrite !andb_true_r. split.
  - intros k. rewrite andb_true_r. case_bool_decide as E; [injection E as <-|].
    + rewrite lookup_insert_eq. fold (shown_level diagnostics s). destruct (levels !! k0); [done|].
      change (default Unknown None) with Unknown. by rewrite level_max_unknown.
    + by rewrite lookup_insert_ne by congruence.
  - f_equal. apply bool_decide_ext. split; [by intros ->|by intros [= ->]].
Qed.

Lemma add_levels diagnostics services levels seen :
  let r := foldl (add_level d_id is_public high diagnostics) (levels, seen) services in
  (forall k n, (level_rank (default Unknown (r.1 !! k)) <= n)%nat <-> (level_rank (default Unknown (levels !! k)) <= n)%nat
     /\ Forall (λ s, counts k s = true -> (level_rank (shown_level diagnostics s) <= n)%nat) services)
  /\ (forall k, is_Some (r.1 !! k) <-> is_Some (levels !! k) \/ existsb (counts k) services = true)
  /\ r.2 = seen || existsb (counts Notifications) services.
Proof.
  revert levels seen. induction services as [|s services IH]; intros levels seen; cbn [foldl existsb].
  - cbn. split_and!; [| |by rewrite orb_false_r]; intros k; [intros n; rewrite Forall_nil; tauto|]. split; [by left|by intros [?|?]].
  - destruct (add_level_spec diagnostics levels seen s) as [H1 H2]. destruct (add_level _ _ _ _ _ s) as [levels' seen']. cbn [fst snd] in *.
    destruct (IH levels' seen') as (I1 & I2 & I3). split_and!.
    + intros k n. rewrite I1, H1, Forall_cons. destruct (counts k s); [|naive_solver]. cbn. rewrite level_max_rank, Nat.max_lub_iff. naive_solver.
    + intros k. rewrite I2, H1. destruct (counts k s); cbn; [|done]. split; [by right|by left].
    + rewrite I3, H2. by rewrite orb_assoc.
Qed.

Lemma or_insert_lookup k k' l (m : gmap PublicComponentKey PublicComponentStatus) :
  or_insert k l m !! k' = if decide (k' = k) then Some (default l (m !! k)) else m !! k'.
Proof.
  unfold or_insert. destruct (decide (k' = k)) as [->|Hne]; destruct (m !! k) eqn:E; cbn; rewrite ?lookup_insert_eq, ?lookup_insert_ne by done; done.
Qed.

(** The components in the order of the page. *)
Definition shown_keys (services : list (ServiceSnapshot (D := D))) : list PublicComponentKey :=
  REQUIRED ++ if existsb (counts Notifications) services then [Notifications] else [].

Lemma shown_levels diagnostics services :
  let m := let (levels, seen) := foldl (add_level d_id is_public high diagnostics) (∅, false) services in
           let levels := foldl (λ m k, or_insert k Unknown m) levels REQUIRED in
           if seen then or_insert Notifications Unknown levels else delete Notifications levels in
  (forall k, is_Some (m !! k) <-> k ∈ shown_keys services)
  /\ forall k l n, m !! k = Some l ->
       (level_rank l <= n)%nat <-> Forall (λ s, counts k s = true -> (level_rank (shown_level diagnostics s) <= n)%nat) services.
Proof.
  destruct (add_levels diagnostics services ∅ false) as (H1 & H2 & H3).
  destruct (foldl (add_level _ _ _ _) (∅, false) services) as [levels seen]. cbn [fst snd orb] in *. unfold shown_keys. rewrite H3. cbn [foldl REQUIRED].
  assert (Hrank : forall k n, (level_rank (default Unknown (levels !! k)) <= n)%nat
    <-> Forall (λ s, counts k s = true -> (level_rank (shown_level diagnostics s) <= n)%nat) services).
  { intros k n. rewrite H1, lookup_empty. cbn. split; [by intros [_ ?]|]. split; [lia|done]. }
  destruct (existsb (counts Notifications) services) eqn:E; (split; [intros k|intros k l n]).
  - rewrite !or_insert_lookup. destruct k; cbn; (split; [intros _|by eexists]); set_solver.
  - rewrite !or_insert_lookup. rewrite <- Hrank. destruct k; cbn; by intros [= <-].
  - destruct (decide (k = Notifications)) as [->|Hne]; [rewrite lookup_delete_eq; split; [by intros [??]|set_solver]|].
    rewrite lookup_delete_ne, !or_insert_lookup by done. destruct k; cbn; try done; (split; [intros _|by eexists]); set_solver.
  - intros [Hne Hl]%lookup_delete_Some. rewrite !or_insert_lookup in Hl. rewrite <- Hrank. destruct k; cbn in Hl; try done; by injection Hl as <-.
Qed.

End Components.

(** ** Theorems *)

Section Theorems.
Context {D : Type} (d_id : D -> string).

Lemma poisoned_run (g : ServiceRegistry (D := D)) os : poisoned (foldl (run_op d_id) g os) = poisoned g.
Proof.
  revert g. induction os as [|o os IH]; intros g; [done|]. cbn [foldl]. rewrite IH.
  destruct o; cbn; unfold register, set_status, update_note, unregister, unregister_prefixed; by repeat case_match.
Qed.

(** The tracker of a host: it starts on the registry that [os] made and
    follows what [steps] do to it. *)
Definition tracked (os : list (op (D := D))) (steps : list (op (D := D) * Z)) : Following (D := D) :=
  let g := foldl (run_op d_id) new os in
  foldl (follow_op d_id 20) (tracker_subscribe g (tracker_start d_id g)) steps.

Lemma tracked_ok os steps : let g := foldl (run_op d_id) new os in
  Z.of_nat (length (events g) + length steps) <= u64_max ->
  following_ok d_id 20 (tracked os steps) /\ forall k, reported (tracker_start d_id g) k -> reported (f_tracker (tracked os steps)) k.
Proof.
  intros g Hn. apply follow_ops_ok; [|done]. apply subscribe_ok; [apply registry_runs_ok, registry_new_ok|]. subst g. by rewrite poisoned_run.
Qed.

(** Whatever happens to the services, the tracker's levels are the worst
    of its services' levels, an open incident is that of a component in an
    incident and has the title and severity of its current level, at most
    twenty resolved incidents are kept, and no two incidents have the same
    id. *)
Theorem status_tracker_invariant os steps :
  Z.of_nat (length (events (foldl (run_op d_id) new os)) + length steps) <= u64_max ->
  let st := f_tracker (tracked os steps) in
  (forall k, level_of st k = recompute_component_status k (service_levels st))
  /\ (forall k i, open_incidents st !! k = Some i -> tells k (level_of st k) i)
  /\ (length (resolved_incidents st) <= 20)%nat /\ Forall (λ i, is_Some (in_resolved_at i)) (resolved_incidents st)
  /\ NoDup (in_id <$> all_incidents st).
Proof. intros Hn. destruct (tracked_ok os steps Hn) as [[_ _ [] _ _] _]. by split_and!. Qed.

(** C38: A failing service shows: while the tracker follows the registry, a
    registered service that is not healthy has an open incident of its
    component, a major one when the service is down; unless the component
    was already in an incident when the tracker started. *)
Theorem outages_show os steps k id r :
  Z.of_nat (length (events (foldl (run_op d_id) new os)) + length steps) <= u64_max ->
  is_incident (level_of (tracker_start d_id (foldl (run_op d_id) new os)) k) = false ->
  let f := tracked os steps in
  inner (f_registry f) !! id = Some r -> map_service_to_public_component id = Some k ->
  is_incident (status_from_service_status (status r)) = true ->
  exists i, open_incidents (f_tracker f) !! k = Some i /\ in_component i = k
    /\ (status_from_service_status (status r) = Down -> in_severity i = Major).
Proof.
  intros Hn Hk f Hr Hid Hinc. destruct (tracked_ok os steps Hn) as [[_ _ Ht Hsv _] Hrep]. fold f in Ht, Hsv, Hrep.
  assert (Hle : (level_rank (status_from_service_status (status r)) <= level_rank (level_of (f_tracker f) k))%nat).
  { rewrite (tk_levels _ _ Ht k). apply (proj1 (recompute_le k _ _) (le_n _) id); [|done]. by apply (Hsv id r k). }
  destruct (Hrep k) as [i Hi].
  - unfold reported. by rewrite Hk.
  - destruct (status_from_service_status (status r)), (level_of (f_tracker f) k); cbn in *; try done; lia.
  - exists i. split; [done|]. destruct (tk_open _ _ Ht k i Hi) as [Hc _ _ Hs _]. split; [done|]. intros Hd. rewrite Hs.
    rewrite Hd in Hle. destruct (level_of (f_tracker f) k); cbn in Hle; [lia|lia|lia|done].
Qed.

Context (is_public : D -> bool) {F : Type} (high : F -> bool).

Lemma order_inj a b : component_order a = component_order b -> a = b.
Proof. by destruct a, b. Qed.

(** The page shows the website, the account and the API in this order,
    and the notifications when a visible service offers them; each with the
    worst level of its visible services, and none of the others count. *)
Theorem page_shows_worst_visible_level (services : list (ServiceSnapshot (D := D))) (diagnostics : gmap string (ServiceMetricSnapshot (F := F))) :
  let page := build_public_components d_id is_public high services diagnostics in
  page.*1 = shown_keys d_id is_public services
  /\ forall k l, (k, l) ∈ page ->
       (forall s, s ∈ services -> counts d_id is_public k s = true -> (level_rank (shown_level d_id high diagnostics s) <= level_rank l)%nat)
       /\ (l = Unknown \/ exists s, s ∈ services /\ counts d_id is_public k s = true /\ shown_level d_id high diagnostics s = l).
Proof.
  unfold build_public_components. destruct (shown_levels d_id is_public high diagnostics services) as [Hk Hl].
  destruct (foldl (add_level d_id is_public high diagnostics) (∅, false) services) as [levels seen]. cbn zeta in *.
  set (m := if seen then _ else _) in *. set (le := λ a b : PublicComponentKey * PublicComponentStatus, _). cbn zeta. split.
  - assert (Hs : StronglySorted (λ a b, (component_order a <= component_order b)%nat) (stable_sort le (map_to_list m)).*1).
    { assert (H : StronglySorted (λ a b, le a b = true) (stable_sort le (map_to_list m))).
      { apply stable_sort_sorted; unfold le; [intros x y H%Nat.leb_gt|intros x y z H1%Nat.leb_le H2%Nat.leb_le]; apply Nat.leb_le; lia. }
      clear -H. induction H as [|x l Hs IH Hle]; cbn; constructor; [done|]. apply Forall_fmap. eapply Forall_impl; [exact Hle|].
      intros y Hy. by apply Nat.leb_le. }
    apply (StronglySorted_unique_strong (λ a b, (component_order a <= component_order b)%nat)); [|done| |].
    + intros a b _ _ Hab Hba. apply order_inj. lia.
    + unfold shown_keys. destruct (existsb _ services); repeat constructor.
    + apply NoDup_Permutation.
      * rewrite stable_sort_perm. apply NoDup_fst_map_to_list.
      * unfold shown_keys. destruct (existsb _ services); repeat constructor; set_solver.
      * intros k. rewrite <- Hk, stable_sort_perm. split.
        -- intros ([k' l] & -> & Hin)%list_elem_of_fmap. apply elem_of_map_to_list in Hin. by eexists.
        -- intros [l Hm]. apply list_elem_of_fmap. exists (k, l). by rewrite elem_of_map_to_list.
  - intros k l. rewrite stable_sort_perm, elem_of_map_to_list. intros Hm. split.
    + intros s Hin Hc. pose proof (proj1 (Hl k l _ Hm) (le_n _)) as Hall. rewrite Forall_forall in Hall. by apply Hall.
    + destruct (level_rank l) as [|n] eqn:En; [left; by destruct l|]. right.
      assert (Hnot : ~ Forall (λ s, counts d_id is_public k s = true -> (level_rank (shown_level d_id high diagnostics s) <= n)%nat) services)
        by (rewrite <- (Hl k l n Hm); lia).
      apply not_Forall_Exists in Hnot; [|apply _]. apply Exists_exists in Hnot as (s & Hin & Hs). exists s. split; [done|].
      pose proof (proj1 (Hl k l _ Hm) (le_n _)) as Hall. rewrite Forall_forall in Hall. specialize (Hall s Hin). cbn beta in Hs, Hall.
      destruct (counts d_id is_public k s) eqn:Ec; [|exfalso; apply Hs; congruence]. split; [done|]. apply level_rank_inj. specialize (Hall eq_refl).
      assert (~ (level_rank (shown_level d_id high diagnostics s) <= n)%nat) by auto. lia.
Qed.

End Theorems.

(** ** Witnesses and findings *)

Definition web : string := "module:athenos-web::static".
Definition demo_start : list (op (D := string)) := [ORegister web Active None 0; ORegister "identity-service"%string Active None 0].
Definition demo_steps : list (op (D := string) * Z) :=
  [(OSetStatus web Registry.Degraded None 1, 1); (OSetStatus web Failed None 2, 2)].

Lemma status_tracker_invariant_witness :
  NoDup (in_id <$> all_incidents (f_tracker (tracked id demo_start demo_steps))).
Proof. apply (status_tracker_invariant id demo_start demo_steps). by vm_compute. Defined.

Lemma outages_show_witness :
  exists i, open_incidents (f_tracker (tracked id demo_start demo_steps)) !! Website = Some i /\ in_severity i = Major.
Proof.
  destruct (outages_show id demo_start demo_steps Website web (mkRecord web Failed 2 None)) as (i & Hi & _ & Hs);
    [by vm_compute|by vm_compute|by vm_compute|by vm_compute|done|]. exists i. split; [exact Hi|by apply Hs].
Defined.

(** A component that is down when the tracker starts has no incident, and
    gets none when more of it fails: the first condition of
    [apply_transition] asks for a component that was healthy before. *)
Theorem outage_before_start_never_shows :
  let f := tracked id [ORegister web Stopped None 0] [(OSetStatus web Failed None 1, 1); (OSetStatus web Starting None 2, 2)] in
  level_of (f_tracker f) Website = Degraded /\ open_incidents (f_tracker f) = ∅.
Proof. by vm_compute. Qed.

(** The removal of a service sends no event: the level of a service that
    failed and was unregistered stays, and so does its incident. *)
Theorem removed_service_keeps_incident :
  let f := tracked id demo_start (demo_steps ++ [(OUnregister web, 3)]) in
  get (f_registry f) web = None /\ is_Some (open_incidents (f_tracker f) !! Website).
Proof. vm_compute. split; [done|by eexists]. Qed.

(** Between seeding and the first run of its task the tracker has no
    subscription: a failure in between is in no snapshot and no event. *)
Theorem failure_before_subscription_is_missed :
  let g := foldl (run_op id) new demo_start in
  let g' := set_status g web Failed None 1 in
  let f := follow id 20 2 (tracker_subscribe g' (tracker_start id g)) in
  level_of (f_tracker f) Website = Up /\ open_incidents (f_tracker f) = ∅.
Proof. by vm_compute. Qed.

(** The page lists the twelve newest incidents by the time they were resolved
    or opened: an outage that is still open disappears behind twelve that
    were resolved after it began. *)
Definition flap (n : nat) : list (op (D := string) * Z) :=
  concat ((λ i, let t := Z.of_nat i + 10 in
    [(OSetStatus "identity-service"%string Failed None t, t); (OSetStatus "identity-service"%string Active None t, t)]) <$> seq 0 n).
Theorem open_outage_can_be_hidden :
  let f := tracked id demo_start (demo_steps ++ flap 12) in
  is_Some (open_incidents (f_tracker f) !! Website) /\ forallb (λ i, match iv_status i with Open => false | Resolved => true end)
    (recent_incidents 12 (f_tracker f)) = true.
Proof. vm_compute. split; [by eexists|done]. Qed.

(** Incidents also come from services that the components leave out: the
    identity service is not public, so the account shows as unknown while an
    incident of it is open. *)
Theorem incident_of_hidden_service :
  let f := tracked id demo_start [(OSetStatus "identity-service"%string Failed None 1, 1)] in
  is_Some (open_incidents (f_tracker f) !! Account)
  /\ (Account, Unknown) ∈ build_public_components id (λ _, false) (λ _ : unit, false) (snapshot (f_registry f)) ∅.
Proof. vm_compute. split; [by eexists|]. apply list_elem_of_further, list_elem_of_here. Qed.
