(* ===== verification/ServiceControl.v ===== *)
(** * Control of the host's services ([services/app.rs], [services/managed.rs],
    [ServiceActionKind] of [services/types.rs])

    The host starts, stops and restarts those of its registered services for
    which a handle was given.  What a handle does is the service's own affair:
    it changes the world [W], of which the control reads the registry and
    the table of handles. *)

From S2P Require Import Prelude Text Roles Registry Gateway ConfigCheck ServiceOverrides.

#[local] Open Scope fenrir_scope.

Inductive ServiceActionKind := ActStart | ActStop | ActRestart.
Definition verb (k : ServiceActionKind) : text :=
  match k with ActStart => lit "start" | ActStop => lit "stop" | ActRestart => lit "restart" end.
Definition required_role (k : ServiceActionKind) : Role :=
  match k with ActStart => Operator | ActStop => Operator | ActRestart => Admin end.

Inductive ServiceControlOutcome := Started | AlreadyRunning | Stopped | AlreadyStopped | Restarted.
Definition control_str (o : ServiceControlOutcome) : text :=
  match o with
  | Started => lit "started" | AlreadyRunning => lit "already_running" | Stopped => lit "stopped"
  | AlreadyStopped => lit "already_stopped" | Restarted => lit "restarted"
  end.
Inductive ServiceControlError :=
| UnknownService (id : text) | NotControllable (id : text) | ForceRequired (id : text) | CoreLocked (id : text)
| OperationFailed (id source : text).

(** [start] and [stop] answer whether they changed anything. *)
Record ManagedService (W : Type) := mkManaged { ms_start : W -> W * result bool text; ms_stop : bool -> W -> W * result bool text }.
Arguments ms_start {W}. Arguments ms_stop {W}. Arguments mkManaged {W}.

Class ServiceWorld (W : Type) := {
  w_registry : W -> ServiceRegistry (D := ServiceDescriptorOwned);
  w_managed : W -> gmap text (ManagedService W);
}.

Definition tag_is (a b : ServiceTag) : bool := match a, b with Core, Core | Platform, Platform | Auxiliary, Auxiliary => true | _, _ => false end.
Definition has_tag (d : ServiceDescriptorOwned) (t : ServiceTag) : bool := existsb (tag_is t) (sd_tags d).

Section Control.
Context {W : Type} {SW : ServiceWorld W}.

Definition find_service (id : text) (w : W) : option (ServiceSnapshot (D := ServiceDescriptorOwned)) := get (w_registry w) (str_of id).
Definition managed_service (id : text) (w : W) : option (ManagedService W) := w_managed w !! id.

Definition controllable_non_core_ids (w : W) : list text :=
  (λ s, sd_id (s_descriptor s)) <$>
    filter (λ s, is_set (managed_service (sd_id (s_descriptor s)) w) && negb (has_tag (s_descriptor s) Core) = true) (snapshot (w_registry w)).

Definition start_service (id : text) (w : W) : W * result ServiceControlOutcome ServiceControlError :=
  match find_service id w with
  | None => (w, Err (UnknownService id))
  | Some snapshot =>
      match managed_service id w with
      | None => (w, Err (NotControllable id))
      | Some handle =>
          match ms_start handle w with
          | (w, Ok true) => (w, Ok Started)
          | (w, Ok false) => (w, Ok AlreadyRunning)
          | (w, Err err) => (w, Err (OperationFailed (sd_id (s_descriptor snapshot)) err))
          end
      end
  end.

Definition stop_service (id : text) (force : bool) (w : W) : W * result ServiceControlOutcome ServiceControlError :=
  match find_service id w with
  | None => (w, Err (UnknownService id))
  | Some snapshot =>
      if sd_critical (s_descriptor snapshot) && negb force then (w, Err (ForceRequired id))
      else if has_tag (s_descriptor snapshot) Core then (w, Err (CoreLocked id))
      else match managed_service id w with
           | None => (w, Err (NotControllable id))
           | Some handle =>
               match ms_stop handle force w with
               | (w, Ok true) => (w, Ok Stopped)
               | (w, Ok false) => (w, Ok AlreadyStopped)
               | (w, Err err) => (w, Err (OperationFailed id err))
               end
           end
  end.

Definition restart_service (id : text) (force : bool) (w : W) : W * result ServiceControlOutcome ServiceControlError :=
  match find_service id w with
  | None => (w, Err (UnknownService id))
  | Some snapshot =>
      if sd_critical (s_descriptor snapshot) && negb force then (w, Err (ForceRequired id))
      else if has_tag (s_descriptor snapshot) Core then (w, Err (CoreLocked id))
      else match stop_service id force w with
           | (w, Err err) => (w, Err err)
           | (w, Ok _) =>
               match start_service id w with
               | (w, Err err) => (w, Err err)
               | (w, Ok (Started | AlreadyRunning)) => (w, Ok Restarted)
               | (w, Ok other) => (w, Ok other)
               end
           end
  end.

Record ServiceActionReport := mkReport { rep_id : text; rep_result : result ServiceControlOutcome ServiceControlError }.
Fixpoint for_each (act : text -> W -> W * result ServiceControlOutcome ServiceControlError) (ids : list text) (w : W) : W * list ServiceActionReport :=
  match ids with
  | [] => (w, [])
  | id :: ids => let (w, r) := act id w in let (w, rs) := for_each act ids w in (w, mkReport id r :: rs)
  end.
Definition stop_all_non_core (force : bool) (w : W) : W * list ServiceActionReport :=
  for_each (λ id, stop_service id force) (controllable_non_core_ids w) w.
Definition start_all_non_core (w : W) : W * list ServiceActionReport := for_each start_service (controllable_non_core_ids w) w.
Definition restart_all_non_core (force : bool) (w : W) : W * list ServiceActionReport :=
  for_each (λ id, restart_service id force) (controllable_non_core_ids w) w.

Definition act_on (k : ServiceActionKind) (id : text) (force : bool) (w : W) : W * result ServiceControlOutcome ServiceControlError :=
  match k with ActStart => start_service id w | ActStop => stop_service id force w | ActRestart => restart_service id force w end.
Definition act_on_all (k : ServiceActionKind) (force : bool) (w : W) : W * list ServiceActionReport :=
  match k with ActStart => start_all_non_core w | ActStop => stop_all_non_core force w | ActRestart => restart_all_non_core force w end.

End Control.
