(* ===== verification/ControlPlane.v ===== *)
(** * Control plane ([security/auth/http.rs], the management routes of
    [infra/http/routes.rs], the authorizer of [infra/http/server.rs])

    The management routes, each with its check of the caller's role, what it
    calls and what it answers.  A caller shows a token: one that the identity
    provider verifies, or one of the configured control tokens.

    What the routes call is the class [ControlWorld]: the services of the
    host ([ServiceControl]), the module service, the identity provider, the
    log level and the database runtime, all reading and changing the world
    [W].  An answer is its status with the data that is sent; the problem
    bodies carry their code, not the message.  Axum has parsed the path,
    query and body; the middleware that counts requests is left out. *)

From stdpp Require Import pretty.
From S2P Require Import Prelude Text Edge Roles Identity ServiceTypes Registry BundleInspect Gateway Versions Manifests Redact ConfigCheck ServiceOverrides AuditLog PublicStatus ServiceControl.

#[local] Open Scope fenrir_scope.

(** ** Who is calling *)

Inductive AuthError := AuthUnauthorized | AuthForbidden.
Record ControlPlaneAuthorizer := mkAuthorizer {
  au_identity : option (text -> result IdentityClaims IdentityError); au_tokens : list (Role * text);
}.
Definition is_configured (a : ControlPlaneAuthorizer) : bool := is_set (au_identity a) || negb (bool_decide (au_tokens a = [])).

Definition auth_error_from (e : IdentityError) : AuthError := match e with Unauthorized _ => AuthUnauthorized | _ => AuthForbidden end.

Definition authorize_token (a : ControlPlaneAuthorizer) (bearer : option text) : result Role AuthError :=
  bearer <-? ok_or bearer AuthUnauthorized;;
  let token := trim bearer in
  let by_identity := match au_identity a with Some verify => Some (verify token) | None => None end in
  match by_identity with
  | Some (Ok claims) => Ok (ic_role claims)
  | _ =>
      let last_err := match by_identity with Some (Err err) => Some (auth_error_from err) | _ => None end in
      if bool_decide (au_tokens a = []) then Err (default AuthUnauthorized last_err)
      else match List.find (λ entry, bool_decide (utf8 entry.2 = utf8 token)) (au_tokens a) with
           | Some entry => Ok entry.1
           | None => Err (default AuthForbidden last_err)
           end
  end.

(** [HttpServer::new]: a server without any way to authenticate is not made. *)
Definition server_authorizer (identity : option (text -> result IdentityClaims IdentityError)) (entries : list (Role * text))
    : option ControlPlaneAuthorizer :=
  if negb (is_set identity) && bool_decide (entries = []) then None
  else Some (match identity with
             | Some i => if bool_decide (entries = []) then mkAuthorizer (Some i) [] else mkAuthorizer (Some i) entries
             | None => mkAuthorizer None entries
             end).

Record HttpInfo := mkHttpInfo { hi_app_name : text; hi_app_version : text; hi_host : text; hi_port : Z }.

Section Routes.
Context {HT : HttpTypes}.
Notation HeaderMap := ProxyHeaders.HeaderMap.

Definition extract_bearer_token (headers : HeaderMap) : option text :=
  raw ← ProxyHeaders.get headers AUTHORIZATION;
  text ← to_str raw;
  let value := trim text in
  match strip_prefix (lit "Bearer ") value with
  | Some token => if bool_decide (token = []) then None else Some token
  | None => if bool_decide (value = []) then None else Some value
  end.

(** ** Answers *)

Record Answer (B : Type) := mkAnswer { ans_status : Z; ans_body : B }.
Arguments mkAnswer {B}. Arguments ans_status {B}. Arguments ans_body {B}.

Definition map_auth_error (e : AuthError) : Z * string := match e with AuthUnauthorized => (401, "unauthorized"%string) | AuthForbidden => (403, "forbidden"%string) end.

Definition authorize (a : ControlPlaneAuthorizer) (headers : HeaderMap) (required : Role) : result Role (Z * string) :=
  match authorize_token a (extract_bearer_token headers) with
  | Ok role => if Role.satisfies role required then Ok role else Err (403, "role_insufficient"%string)
  | Err err => Err (map_auth_error err)
  end.

(** A server without authentication lets everybody view ([None] is no
    objection). *)
Definition viewer_check (a : ControlPlaneAuthorizer) (token : option text) : option (Z * string) :=
  if is_configured a then
    match authorize_token a token with
    | Ok role => if Role.satisfies role Viewer then None else Some (403, "role_insufficient"%string)
    | Err err => Some (map_auth_error err)
    end
  else None.
Definition ensure_viewer_access (a : ControlPlaneAuthorizer) (headers : HeaderMap) : option (Z * string) := viewer_check a (extract_bearer_token headers).

(** ** What the routes call *)

Inductive ModuleServiceError := RegistryUnavailable | RegistryNotFound | RegistryProtocol | StorageFailed | StorageInvalidState | VerificationFailed.
Definition module_error_problem (e : ModuleServiceError) : Z * string :=
  match e with
  | RegistryUnavailable => (502, "registry_unavailable"%string)
  | RegistryNotFound => (404, "module_not_found"%string)
  | RegistryProtocol => (502, "registry_protocol_error"%string)
  | StorageFailed => (500, "module_storage_error"%string)
  | StorageInvalidState => (409, "module_invalid_state"%string)
  | VerificationFailed => (422, "module_verification_error"%string)
  end.
Inductive ModuleRuntimeError := RtNotInstalled | RtAlreadyRunning | RtNotRunning | RtStartFailed | RtStopFailed | RtPortInUse | RtNoAvailablePorts
  | RtInvalidState | RtIo | RtQuarantined | RtEnvUnavailable.
Definition module_runtime_problem (e : ModuleRuntimeError) : Z * string :=
  match e with
  | RtNotInstalled => (404, "module_not_installed"%string)
  | RtAlreadyRunning => (409, "module_already_running"%string)
  | RtNotRunning => (409, "module_not_running"%string)
  | RtStartFailed => (500, "module_start_failed"%string)
  | RtStopFailed => (500, "module_stop_failed"%string)
  | RtPortInUse => (409, "module_port_in_use"%string)
  | RtNoAvailablePorts => (503, "module_no_ports"%string)
  | RtInvalidState => (409, "module_invalid_state"%string)
  | RtIo => (500, "module_runtime_io"%string)
  | RtQuarantined => (409, "module_quarantined"%string)
  | RtEnvUnavailable => (409, "module_env_unavailable"%string)
  end.

(** What the module service answers with is shown as it is. *)
Class ModuleTypes := {
  Installed : Type; Found : Type; InstallResult : Type; RuntimeInfo : Type; Instances : Type; RollingReport : Type; StartupReport : Type;
  Analytics : Type; Job : Type; RuntimeMetrics : Type; DbRest : Type; Telemetry : Type; Sample : Type;
  Rate : Type; high_rate : Rate -> bool;
}.
Context {MT : ModuleTypes}.
Record DbStatus := mkDbStatus { db_uri : option text; db_rest : DbRest }.

Class ControlWorld (W : Type) := {
  cw_services :: ServiceWorld W;
  module_service : W -> bool;
  list_installed : W -> W * result (list Installed) ModuleServiceError;
  search : option text -> W -> W * result (list Found) ModuleServiceError;
  install : ModuleId -> option Version -> W -> W * result InstallResult ModuleServiceError;
  update : ModuleId -> text -> W -> W * result InstallResult ModuleServiceError;
  update_all : text -> W -> W * result (list InstallResult) ModuleServiceError;
  uninstall : ModuleId -> W -> W * result unit ModuleServiceError;
  start_module : ModuleId -> W -> W * result RuntimeInfo ModuleRuntimeError;
  stop_module : ModuleId -> W -> W * result unit ModuleRuntimeError;
  stop_all_modules : W -> W * result unit ModuleRuntimeError;
  restart_module : ModuleId -> W -> W * result RuntimeInfo ModuleRuntimeError;
  runtime_instances : ModuleId -> W -> W * result Instances ModuleRuntimeError;
  rolling_restart : ModuleId -> W -> W * result RollingReport ModuleRuntimeError;
  startup_reports : W -> list StartupReport;
  startup_report : ModuleId -> W -> option StartupReport;
  release_all_dev_overrides_without_restart : text -> W -> W * option (list (ModuleId * bool));
  module_analytics_of : option text -> option text -> option text -> option Z -> option Z -> W -> W * result Analytics ModuleServiceError;
  identity_attached : W -> bool;
  (** [None]: the blocking task panicked. *)
  list_users : W -> option (result (list IdentityUserRecord) IdentityError);
  issue_token : IssueTokenRequest -> W -> W * option (result IssuedToken IdentityError);
  logging_attached : W -> bool;
  reload_level : text -> W -> W * bool;
  scheduler_jobs : W -> list Job;
  service_runtime_metrics : text -> W -> option RuntimeMetrics;
  db_runtime_status : W -> option DbStatus;
  db_runtime_logs : Z -> W -> list text;
  read_file : text -> W -> option (list Z);
  is_live : W -> bool;
  is_ready : W -> bool;
  telemetry_snapshot : W -> Telemetry;
  telemetry_history : Z -> W -> list Sample;
  diagnostics : W -> gmap string (ServiceMetricSnapshot (F := Rate));
  status_tracker : W -> PublicStatusTrackerState;
}.

Inductive Body :=
| BProblem (code : string) | BEmpty | BText (t : text)
| BAction (id action outcome : text) (force : bool) (actor_role : text)
| BBulk (action actor_role : text) (results : list ServiceActionReport)
| BServices (l : list (ServiceSnapshot (D := ServiceDescriptorOwned))) | BMetricsOf (m : RuntimeMetrics) | BJobs (l : list Job)
| BAudit (l : list AuditEventView) | BHistory (range : text) (l : list AuditEventView) | BStream
| BUsers (l : list IdentityUserRecord) | BToken (t : IssuedToken) (user_id role : text) | BLevel (level actor_role : text)
| BInstalled (l : list Installed) | BFound (l : list Found) | BInstall (r : InstallResult) | BUpdate (l : list InstallResult)
| BRuntime (i : RuntimeInfo) | BInstances (i : Instances) | BRolling (r : RollingReport) | BReports (l : list StartupReport) | BReport (r : StartupReport)
| BReleased (ids : list text) | BAnalytics (a : Analytics) | BDbStatus (uri : option text) (logs : option (list text)) (rest : DbRest) | BLogs (l : list text)
| BHtml (t : text) | BFile (content_type : text) (content : list Z) | BInfo (name version host : text) (port : Z) (base_url : text)
| BHealth (status : text) (live ready : bool)
| BPublic (overall : Overall) (live ready : bool) (components : list (PublicComponentKey * PublicComponentStatus)) (incidents : list PublicIncidentSnapshot)
| BMetrics (t : Telemetry) (live ready : bool) | BSamples (range : text) (l : list Sample).
Definition Response : Type := Answer Body.
Definition problem (p : Z * string) : Response := mkAnswer p.1 (BProblem p.2).
Definition ok_with (b : Body) : Response := mkAnswer 200 b.

(** The host as the routes see it: the world, the audit trail and the
    counters of the telemetry. *)
Record Host (W : Type) := mkHost { h_world : W; h_audit : Audit; h_counters : list (text * Z) }.
Arguments mkHost {W}. Arguments h_world {W}. Arguments h_audit {W}. Arguments h_counters {W}.

Context {W : Type} {CW : ControlWorld W} {J : AuditJson}.
Context (parse_version : text -> option Version) (format_time : Z -> text) (info : HttpInfo) (INDEX_HTML : text).
Notation app_version := (hi_app_version info).
Context (auth : ControlPlaneAuthorizer).
Implicit Types h : Host W.

Definition with_role (headers : HeaderMap) (required : Role) h (k : Role -> Host W * Response) : Host W * Response :=
  match authorize auth headers required with Err p => (h, problem p) | Ok role => k role end.
Definition as_viewer (headers : HeaderMap) h (k : Host W * Response) : Host W * Response :=
  match ensure_viewer_access auth headers with Some p => (h, problem p) | None => k end.
Definition with_modules h (k : Host W * Response) : Host W * Response :=
  if module_service (h_world h) then k else (h, problem (503, "module_service_unavailable"%string)).
Definition on_world {A : Type} (f : W -> W * A) (answer : A -> Response) h : Host W * Response :=
  let (w, a) := f (h_world h) in (mkHost w (h_audit h) (h_counters h), answer a).
Definition shown {A E : Type} (err : E -> Z * string) (good : A -> Response) (r : result A E) : Response :=
  match r with Ok a => good a | Err e => problem (err e) end.
Definition no_content : Response := mkAnswer 204 BEmpty.

(** ** Modules *)

Definition with_module_id (id : text) h (k : ModuleId -> Host W * Response) : Host W * Response :=
  match ModuleId_new (trim id) with Ok m => k m | Err _ => (h, problem (400, "invalid_module_id"%string)) end.

Definition list_installed_modules (headers : HeaderMap) h : Host W * Response :=
  with_role headers Viewer h (λ _, with_modules h (on_world list_installed (shown module_error_problem (λ l, ok_with (BInstalled l))) h)).
Definition list_available_modules (headers : HeaderMap) (pattern : option text) h : Host W * Response :=
  with_role headers Viewer h (λ _, with_modules h (on_world (search pattern) (shown module_error_problem (λ l, ok_with (BFound l))) h)).
Definition install_module_version (headers : HeaderMap) (module_id : text) (version : option text) h : Host W * Response :=
  with_role headers Operator h (λ _, with_modules h (with_module_id module_id h (λ m,
    match version with
    | Some raw =>
        match parse_version raw with
        | Some v => on_world (install m (Some v)) (shown module_error_problem (λ r, ok_with (BInstall r))) h
        | None => (h, problem (400, "invalid_module_version"%string))
        end
    | None => on_world (install m None) (shown module_error_problem (λ r, ok_with (BInstall r))) h
    end))).
Definition update_module_versions (headers : HeaderMap) (module_id fenrir_version : option text) h : Host W * Response :=
  with_role headers Operator h (λ _, with_modules h (
    let version := default app_version fenrir_version in
    match module_id with
    | Some raw => with_module_id raw h (λ m, on_world (update m version) (shown module_error_problem (λ r, ok_with (BUpdate [r]))) h)
    | None => on_world (update_all version) (shown module_error_problem (λ l, ok_with (BUpdate l))) h
    end)).
Definition uninstall_module_version (headers : HeaderMap) (id : text) h : Host W * Response :=
  with_role headers Operator h (λ _, with_modules h (with_module_id id h (λ m,
    on_world (uninstall m) (shown module_error_problem (λ _, no_content)) h))).
Definition start_module_runtime (headers : HeaderMap) (id : text) h : Host W * Response :=
  with_role headers Operator h (λ _, with_modules h (with_module_id id h (λ m,
    on_world (start_module m) (shown module_runtime_problem (λ i, ok_with (BRuntime i))) h))).
Definition stop_module_runtime (headers : HeaderMap) (id : text) h : Host W * Response :=
  with_role headers Operator h (λ _, with_modules h (with_module_id id h (λ m,
    on_world (stop_module m) (shown module_runtime_problem (λ _, no_content)) h))).
Definition stop_all_module_runtimes (headers : HeaderMap) h : Host W * Response :=
  with_role headers Operator h (λ _, with_modules h (on_world stop_all_modules (shown module_runtime_problem (λ _, no_content)) h)).
Definition restart_module_runtime (headers : HeaderMap) (id : text) h : Host W * Response :=
  with_role headers Operator h (λ _, with_modules h (with_module_id id h (λ m,
    on_world (restart_module m) (shown module_runtime_problem (λ i, ok_with (BRuntime i))) h))).
Definition module_runtime_instances (headers : HeaderMap) (id : text) h : Host W * Response :=
  with_role headers Operator h (λ _, with_modules h (with_module_id id h (λ m,
    on_world (runtime_instances m) (shown module_runtime_problem (λ i, ok_with (BInstances i))) h))).
Definition rolling_restart_module_runtime (headers : HeaderMap) (id : text) h : Host W * Response :=
  with_role headers Operator h (λ _, with_modules h (with_module_id id h (λ m,
    on_world (rolling_restart m) (shown module_runtime_problem (λ r, ok_with (BRolling r))) h))).
Definition list_module_startup_reports (headers : HeaderMap) h : Host W * Response :=
  with_role headers Operator h (λ _, with_modules h (h, ok_with (BReports (startup_reports (h_world h))))).
Definition module_startup_report (headers : HeaderMap) (id : text) h : Host W * Response :=
  with_role headers Operator h (λ _, with_modules h (with_module_id id h (λ m,
    (h, match startup_report m (h_world h) with
        | Some report => ok_with (BReport report)
        | None => problem (404, "module_startup_report_not_found"%string)
        end)))).
Definition release_dev_overrides (headers : HeaderMap) h : Host W * Response :=
  with_role headers Operator h (λ _, with_modules h (
    on_world (release_all_dev_overrides_without_restart app_version)
      (λ r, match r with
            | None => problem (400, "operation_failed"%string)
            | Some outcomes => ok_with (BReleased ((λ o, id_text o.1) <$> filter (λ o, o.2 = true) outcomes))
            end) h)).
Definition module_analytics (headers : HeaderMap) (module level search : option text) (limit tail : option Z) h : Host W * Response :=
  with_role headers Viewer h (λ _, with_modules h (
    on_world (module_analytics_of module level search limit tail) (shown module_error_problem (λ a, ok_with (BAnalytics a))) h)).

(** ** Identity and logging *)

Definition authorize_identity (headers : HeaderMap) (required : Role) h : result unit (Z * string) :=
  _ <-? authorize auth headers required;;
  if identity_attached (h_world h) then Ok tt else Err (503, "identity_service_unavailable"%string).
Definition list_identity_users (headers : HeaderMap) h : Host W * Response :=
  match authorize_identity headers Admin h with
  | Err p => (h, problem p)
  | Ok _ =>
      (h, match list_users (h_world h) with
          | Some (Ok users) => ok_with (BUsers users)
          | Some (Err _) => problem (500, "identity_list_failed"%string)
          | None => problem (500, "identity_task_failed"%string)
          end)
  end.
Definition issue_identity_token (headers : HeaderMap) (user_id : text) (display_name role : option text) h : Host W * Response :=
  match authorize_identity headers Admin h with
  | Err p => (h, problem p)
  | Ok _ =>
      match match role with Some value => map_err (λ _, (400, "invalid_role"%string)) (Role.from_str value) | None => Ok Admin end with
      | Err p => (h, problem p)
      | Ok role =>
          on_world (issue_token (mkIssue user_id display_name role))
            (λ r, match r with
                  | Some (Ok issued) => ok_with (BToken issued user_id (Role.as_str role))
                  | Some (Err _) => problem (500, "identity_issue_failed"%string)
                  | None => problem (500, "identity_task_failed"%string)
                  end) h
      end
  end.

Definition update_logging_level (headers : HeaderMap) (level : text) h : Host W * Response :=
  let level := trim level in
  if bool_decide (level = []) then (h, problem (400, "invalid_level"%string))
  else
    let role :=
      if is_configured auth then
        match authorize_token auth (extract_bearer_token headers) with
        | Ok role => if negb (Role.satisfies role Admin) then Err (403, "role_insufficient"%string) else Ok role
        | Err err => Err (map_auth_error err)
        end
      else Ok Admin in
    match role with
    | Err p => (h, problem p)
    | Ok role =>
        if negb (logging_attached (h_world h)) then (h, problem (501, "logging_reload_unavailable"%string))
        else on_world (reload_level level) (λ ok : bool, if ok then ok_with (BLevel level (Role.as_str role)) else problem (400, "logging_reload_failed"%string)) h
    end.

(** ** Views *)

Definition is_module_placeholder (id : text) : bool := starts_with (lit "module:") id && negb (contains_sub (lit "::") id).
Fixpoint text_leb (a b : text) : bool :=
  match a, b with
  | [], _ => true
  | _ :: _, [] => false
  | x :: a, y :: b => (x <? y) || ((x =? y) && text_leb a b)
  end.
Definition list_services (headers : HeaderMap) h : Host W * Response :=
  as_viewer headers h
    (h, ok_with (BServices (stable_sort (λ a b, text_leb (sd_id (s_descriptor a)) (sd_id (s_descriptor b)))
      (filter (λ s, negb (is_module_placeholder (sd_id (s_descriptor s))) = true) (snapshot (w_registry (h_world h))))))).
Definition service_runtime_metrics_route (headers : HeaderMap) (id : text) h : Host W * Response :=
  as_viewer headers h
    (h, match find_service id (h_world h) with
        | None => problem (404, "unknown_service"%string)
        | Some _ => match service_runtime_metrics id (h_world h) with
                    | Some m => ok_with (BMetricsOf m)
                    | None => problem (404, "runtime_metrics_unavailable"%string)
                    end
        end).
Definition list_scheduler_jobs (headers : HeaderMap) h : Host W * Response := as_viewer headers h (h, ok_with (BJobs (scheduler_jobs (h_world h)))).
Definition list_audit_events (headers : HeaderMap) (q : AuditQuery) h : Host W * Response :=
  as_viewer headers h
    (h, match audit_events format_time q (log (h_audit h)) with
        | Ok l => ok_with (BAudit l)
        | Err _ => problem (500, "audit_unavailable"%string)
        end).
Definition audit_history (headers : HeaderMap) (now : Z) (range : option text) (limit : option nat) h : Host W * Response :=
  as_viewer headers h
    (h, match audit_history_events format_time now range limit (log (h_audit h)) with
        | Ok (label, l) => ok_with (BHistory label l)
        | Err _ => problem (500, "audit_unavailable"%string)
        end).
(** A stream takes its token from the query when the header has none. *)
Definition audit_events_stream (headers : HeaderMap) (token : option text) h : Host W * Response :=
  let token := match extract_bearer_token headers with Some t => Some t | None => token end in
  match viewer_check auth token with Some p => (h, problem p) | None => (h, ok_with BStream) end.

(** ** Database runtime *)

Definition DB_RUNTIME_SECRET_ROLE : Role := Admin.
Definition redact_log_lines (lines : list text) : list text := redact_uris_in_text <$> lines.
Definition usize_param (v : option text) (otherwise : Z) : Z := default otherwise (v ≫= parse_uint u64_max).
Definition db_runtime_status_response (s : DbStatus) (role : Role) (logs : option (list text)) : Body :=
  let logs := match logs with Some l => if Role.satisfies role DB_RUNTIME_SECRET_ROLE then Some (redact_log_lines l) else None | None => None end in
  BDbStatus (redact_uri_password <$> db_uri s) logs (db_rest s).
Definition db_runtime_status_route (headers : HeaderMap) (tail : option text) h : Host W * Response :=
  with_role headers Viewer h (λ role,
    let tail := usize_param tail 0 in
    (h, match db_runtime_status (h_world h) with
        | None => mkAnswer 404 (BText (lit "not found"))
        | Some status =>
            let logs := if (0 <? tail) && Role.satisfies role DB_RUNTIME_SECRET_ROLE then Some (db_runtime_logs tail (h_world h)) else None in
            ok_with (db_runtime_status_response status role logs)
        end)).
Definition db_runtime_logs_route (headers : HeaderMap) (tail : option text) h : Host W * Response :=
  with_role headers DB_RUNTIME_SECRET_ROLE h (λ _,
    (h, ok_with (BLogs (redact_log_lines (db_runtime_logs (Z.max (usize_param tail 50) 1) (h_world h)))))).

(** ** Service actions *)

Definition status_label (s : ServiceStatus) : text :=
  match s with
  | Starting => lit "starting" | Active => lit "active" | Registry.Degraded => lit "degraded" | Failed => lit "failed"
  | Standby => lit "standby" | Registry.Stopped => lit "stopped"
  end.
Definition control_error_problem (e : ServiceControlError) : Z * string :=
  match e with
  | UnknownService _ => (404, "unknown_service"%string)
  | NotControllable _ => (409, "not_controllable"%string)
  | ForceRequired _ => (412, "force_required"%string)
  | CoreLocked _ => (409, "core_locked"%string)
  | OperationFailed _ _ => (500, "operation_failed"%string)
  end.
Definition control_problem_message (e : ServiceControlError) : text :=
  match e with
  | UnknownService id => lit "service `" ++ id ++ lit "` is not registered."
  | NotControllable id => lit "service `" ++ id ++ lit "` cannot be controlled over HTTP."
  | ForceRequired id => lit "service `" ++ id ++ lit "` is marked as critical. Please confirm the action with force=true."
  | CoreLocked id => lit "service `" ++ id ++ lit "` belongs to the core platform and cannot be stopped or restarted."
  | OperationFailed _ source => lit "action failed: " ++ source
  end.

Definition audit_actor_from_role (role : Role) : AuditActor := User (lit "http::" ++ Role.as_str role) (Role.as_str role).
Definition audit_metadata_base (role : Role) (force : bool) : AuditMetadata :=
  metadata_insert (lit "force") (if force then lit "true" else lit "false")
    (metadata_insert (lit "actor_role") (Role.as_str role) (metadata_insert (lit "transport") (lit "http") [])).
(** An event that cannot be stored is only logged. *)
Definition push_audit_event (io : Io) (a : AuditActor) (action target : text) (o : AuditOutcome) (m : AuditMetadata) (t : Audit) : Audit :=
  match build (wall io) (set_metadata m (set_outcome o (set_target target (set_action action (set_actor a builder))))) with
  | Ok event => (record_audit io event t).2
  | Err _ => t
  end.

Definition service_action (io : Io) (headers : HeaderMap) (k : ServiceActionKind) (id : text) (force : bool) h : Host W * Response :=
  with_role headers (required_role k) h (λ role,
    let actor := audit_actor_from_role role in
    let action_label := lit "service::" ++ verb k in
    let base := audit_metadata_base role force in
    let count (what : text) (l : list (text * Z)) := l ++ [(lit "service.action.total", 1); (lit "service.action." ++ what, 1);
                                                          (lit "service.action." ++ verb k ++ lit "." ++ what, 1)] in
    match act_on k id force (h_world h) with
    | (w, Ok control) =>
        let m := metadata_insert (lit "service_outcome") (control_str control) base in
        let m := match find_service id w with
                 | Some s =>
                     let m := metadata_insert (lit "service_status") (status_label (s_status s)) m in
                     match s_note s with Some note => metadata_insert (lit "note") (lit note) m | None => m end
                 | None => m
                 end in
        (mkHost w (push_audit_event io actor action_label id Success m (h_audit h)) (count (lit "success") (h_counters h)),
         ok_with (BAction id (verb k) (control_str control) force (Role.as_str role)))
    | (w, Err err) =>
        let p := control_error_problem err in
        let m := metadata_insert (lit "message") (control_problem_message err)
                   (metadata_insert (lit "http_status") (lit (pretty (Z.to_N p.1))) (metadata_insert (lit "error_code") (lit p.2) base)) in
        (mkHost w (push_audit_event io actor action_label id Failure m (h_audit h)) (count (lit "failure") (h_counters h)), problem p)
    end).

Definition control_error_display (e : ServiceControlError) : text :=
  match e with
  | UnknownService id => lit "service `" ++ id ++ lit "` is unknown"
  | NotControllable id => lit "service `" ++ id ++ lit "` does not support runtime control"
  | ForceRequired id => lit "service `" ++ id ++ lit "` is marked as critical " ++ [8211] ++ lit " --force required"
  | CoreLocked id => lit "service `" ++ id ++ lit "` is marked as core and cannot be stopped"
  | OperationFailed id source => lit "operation for service `" ++ id ++ lit "` failed: " ++ source
  end.
Definition bulk_str (k : ServiceActionKind) : text := verb k ++ lit "-all".
Definition number (n : nat) : text := lit (pretty (N.of_nat n)).

Definition bulk_service_action (io : Io) (headers : HeaderMap) (k : ServiceActionKind) (force : bool) h : Host W * Response :=
  with_role headers (required_role k) h (λ role,
    let (w, reports) := act_on_all k force (h_world h) in
    let failures := omap (λ r, match rep_result r with Ok _ => None | Err err => Some (rep_id r, control_error_display err) end) reports in
    let total := length reports in
    let success_count := length (filter (λ r, is_ok (rep_result r) = true) reports) in
    let failed := (total - success_count)%nat in
    let m := metadata_insert (lit "success") (number success_count) (metadata_insert (lit "total") (number total) (audit_metadata_base role force)) in
    let m := if (0 <? failed)%nat then
               let m := metadata_insert (lit "failed_ids") (join (lit ",") failures.*1) (metadata_insert (lit "failed") (number failed) m) in
               if bool_decide (failures = []) then m else metadata_insert (lit "errors") (join (lit " | ") failures.*2) m
             else m in
    let outcome := if (failed =? 0)%nat then Success else Failure in
    let n (x : nat) := Z.of_nat x in
    let counters := [(lit "service.bulk.total", 1); (lit "service.bulk." ++ bulk_str k ++ lit ".total", 1);
      (lit "service.bulk.success_services", n success_count); (lit "service.bulk.failed_services", n failed);
      (lit "service.bulk." ++ bulk_str k ++ lit ".success_services", n success_count);
      (lit "service.bulk." ++ bulk_str k ++ lit ".failed_services", n failed)] in
    (mkHost w (push_audit_event io (audit_actor_from_role role) (lit "service::bulk::" ++ bulk_str k) (bulk_str k) outcome m (h_audit h))
       (h_counters h ++ counters),
     ok_with (BBulk (bulk_str k) (Role.as_str role) reports))).

(** ** Open routes *)

Definition index h : Response :=
  let html (path : string) := read_file (lit path) (h_world h) ≫= from_utf8 in
  ok_with (BHtml (match html "static/control-plane/index.html" with
                  | Some content => content
                  | None => match html "static/index.html" with Some content => content | None => INDEX_HTML end
                  end)).
(** [path] is what follows [/static/], percent-decoded. *)
Definition serve_static (path : text) h : Response :=
  let file_path := lit "static/" ++ path in
  match read_file file_path (h_world h) with
  | Some content =>
      let content_type :=
        if ends_with (lit ".css") file_path then lit "text/css"
        else if ends_with (lit ".js") file_path then lit "application/javascript"
        else if ends_with (lit ".html") file_path then lit "text/html"
        else if ends_with (lit ".png") file_path then lit "image/png"
        else if ends_with (lit ".jpg") file_path || ends_with (lit ".jpeg") file_path then lit "image/jpeg"
        else if ends_with (lit ".svg") file_path then lit "image/svg+xml"
        else lit "application/octet-stream" in
      ok_with (BFile content_type content)
  | None => mkAnswer 404 BEmpty
  end.
Definition info_route : Response :=
  ok_with (BInfo (hi_app_name info) (hi_app_version info) (hi_host info) (hi_port info)
    (lit "http://" ++ hi_host info ++ lit ":" ++ lit (pretty (Z.to_N (hi_port info))))).
Definition health_live h : Response :=
  let live := is_live (h_world h) in
  mkAnswer (if live then 200 else 503) (BHealth (if live then lit "ok" else lit "unavailable") live (is_ready (h_world h))).
Definition health_ready h : Response :=
  let ready := is_ready (h_world h) in
  mkAnswer (if ready then 200 else 503) (BHealth (if ready then lit "ok" else lit "unavailable") (is_live (h_world h)) ready).
(** Whether the ingress of a service is public. *)
Definition public_ingress (d : ServiceDescriptorOwned) : bool :=
  match sd_ingress d with Some i => match access i with Public => true | _ => false end | None => false end.
Definition public_status h : Response :=
  let w := h_world h in
  let components := build_public_components (λ d, str_of (sd_id d)) public_ingress high_rate (snapshot (w_registry w)) (diagnostics w) in
  ok_with (BPublic (overall_public_status (is_live w) (is_ready w) components) (is_live w) (is_ready w) components
    (recent_incidents 12 (status_tracker w))).
Definition metrics_snapshot h : Response := let w := h_world h in ok_with (BMetrics (telemetry_snapshot w) (is_live w) (is_ready w)).
Definition metrics_history (range : option text) h : Response :=
  let (span, label) := parse_history_range range in ok_with (BSamples label (telemetry_history span (h_world h))).

(** ** The router *)

(** A request to one of these routes, with what was parsed of it. *)
Inductive Call :=
| CIndex | CStatic (path : text) | CInfo | CLive | CReady | CPublicStatus | CMetrics | CMetricsHistory (range : option text)
| CServices | CRuntimeMetrics (id : text) | CJobs | CAudit (q : AuditQuery) | CAuditHistory (range : option text) (limit : option nat)
| CEvents (token : option text)
| CAction (k : ServiceActionKind) (id : text) (force : bool) | CBulk (k : ServiceActionKind) (force : bool)
| CDbStatus (tail : option text) | CDbLogs (tail : option text) | CLevel (level : text)
| CAnalytics (module level search : option text) (limit tail : option Z)
| CUsers | CIssue (user_id : text) (display_name role : option text)
| CInstalled | CAvailable (pattern : option text) | CInstall (module_id : text) (version : option text)
| CUpdate (module_id fenrir_version : option text) | CUninstall (id : text)
| CModuleStart (id : text) | CModuleStop (id : text) | CModuleRestart (id : text) | CInstances (id : text) | CRolling (id : text)
| CReports | CReport (id : text) | CModuleStopAll | CRelease.

Definition handle (io : Io) (headers : HeaderMap) (c : Call) h : Host W * Response :=
  match c with
  | CIndex => (h, index h)
  | CStatic path => (h, serve_static path h)
  | CInfo => (h, info_route)
  | CLive => (h, health_live h)
  | CReady => (h, health_ready h)
  | CPublicStatus => (h, public_status h)
  | CMetrics => (h, metrics_snapshot h)
  | CMetricsHistory range => (h, metrics_history range h)
  | CServices => list_services headers h
  | CRuntimeMetrics id => service_runtime_metrics_route headers id h
  | CJobs => list_scheduler_jobs headers h
  | CAudit q => list_audit_events headers q h
  | CAuditHistory range limit => audit_history headers (wall io) range limit h
  | CEvents token => audit_events_stream headers token h
  | CAction k id force => service_action io headers k id force h
  | CBulk k force => bulk_service_action io headers k force h
  | CDbStatus tail => db_runtime_status_route headers tail h
  | CDbLogs tail => db_runtime_logs_route headers tail h
  | CLevel level => update_logging_level headers level h
  | CAnalytics m l s n t => module_analytics headers m l s n t h
  | CUsers => list_identity_users headers h
  | CIssue u d r => issue_identity_token headers u d r h
  | CInstalled => list_installed_modules headers h
  | CAvailable p => list_available_modules headers p h
  | CInstall m v => install_module_version headers m v h
  | CUpdate m v => update_module_versions headers m v h
  | CUninstall id => uninstall_module_version headers id h
  | CModuleStart id => start_module_runtime headers id h
  | CModuleStop id => stop_module_runtime headers id h
  | CModuleRestart id => restart_module_runtime headers id h
  | CInstances id => module_runtime_instances headers id h
  | CRolling id => rolling_restart_module_runtime headers id h
  | CReports => list_module_startup_reports headers h
  | CReport id => module_startup_report headers id h
  | CModuleStopAll => stop_all_module_runtimes headers h
  | CRelease => release_dev_overrides headers h
  end.

End Routes.
