(* ===== verification/ControlPlaneSafety.v ===== *)
(** * Theorems on the control plane

    A management route works exactly for callers whose token has the role it
    asks for, and changes nothing for others; a role comes from a verified
    identity or a configured token; core services cannot be stopped; service
    actions leave one audit event.  Findings: routes that ask for another
    role than the documentation says, and files outside the static
    directory. *)

From stdpp Require Import pretty.
From S2P Require Import Prelude Text Edge Roles Identity IdentitySafety ServiceTypes Registry BundleInspect Gateway Versions Manifests Redact ConfigCheck ServiceOverrides AuditLog PublicStatus ServiceControl ControlPlane.

#[local] Open Scope fenrir_scope.

(** ** Tokens *)

Definition may (a : ControlPlaneAuthorizer) (token : option text) (r : Role) : Prop :=
  exists role, authorize_token a token = Ok role /\ Role.satisfies role r = true.


Lemma find_entry (l : list (Role * text)) token e : List.find (λ entry, bool_decide (utf8 entry.2 = utf8 token)) l = Some e ->
  e ∈ l /\ utf8 e.2 = utf8 token.
Proof. intros [H1 H2]%find_some. apply bool_decide_eq_true in H2. by rewrite list_elem_of_In. Qed.

(** What a granted role rests on. *)
Lemma token_granted a bearer role : authorize_token a bearer = Ok role ->
  exists t, bearer = Some t
    /\ ((exists verify claims, au_identity a = Some verify /\ verify (trim t) = Ok claims /\ ic_role claims = role)
        \/ exists secret, (role, secret) ∈ au_tokens a /\ utf8 secret = utf8 (trim t)).
Proof.
  unfold authorize_token. destruct bearer as [t|]; [|done]. cbn [ok_or result_bind]. intros H. exists t. split; [done|].
  destruct (au_identity a) as [verify|]; [destruct (verify (trim t)) as [claims|e] eqn:Hv|].
  - left. injection H as <-. eauto 10.
  - right. case_bool_decide; [done|]. destruct (List.find _ _) as [[r s]|] eqn:Hf; [|done]. injection H as <-. apply find_entry in Hf. eauto.
  - right. case_bool_decide; [done|]. destruct (List.find _ _) as [[r s]|] eqn:Hf; [|done]. injection H as <-. apply find_entry in Hf. eauto.
Qed.

(** ** The role of each route *)

Definition required (c : Call) : option Role :=
  match c with
  | CIndex | CStatic _ | CInfo | CLive | CReady | CPublicStatus | CMetrics | CMetricsHistory _ => None
  | CServices | CRuntimeMetrics _ | CJobs | CAudit _ | CAuditHistory _ _ | CEvents _ | CDbStatus _ | CAnalytics _ _ _ _ _ | CInstalled | CAvailable _ =>
      Some Viewer
  | CAction k _ _ | CBulk k _ => Some (required_role k)
  | CDbLogs _ | CLevel _ | CUsers | CIssue _ _ _ => Some Admin
  | CInstall _ _ | CUpdate _ _ | CUninstall _ | CModuleStart _ | CModuleStop _ | CModuleRestart _ | CInstances _ | CRolling _ | CReports | CReport _
  | CModuleStopAll | CRelease => Some Operator
  end.

(** The role that the route table of the README names, with [None] for no
    role and for routes that are not in the table. *)
Definition readme_role (c : Call) : option Role :=
  match c with
  | CInfo | CServices | CRuntimeMetrics _ | CInstalled | CAvailable _ | CInstances _ | CMetrics | CMetricsHistory _ | CAudit _
  | CAuditHistory _ _ | CEvents _ | CJobs => Some Viewer
  | CAction _ _ _ | CBulk _ _ | CInstall _ _ | CUpdate _ _ | CUninstall _ | CModuleStart _ | CModuleStop _ | CModuleRestart _ | CRolling _
  | CModuleStopAll | CRelease | CLevel _ => Some Operator
  | CUsers | CIssue _ _ _ => Some Admin
  | CLive | CReady | CPublicStatus | CIndex | CStatic _ | CDbStatus _ | CDbLogs _ | CAnalytics _ _ _ _ _ | CReports | CReport _ => None
  end.


Section Routes.
Context {HT : HttpTypes} {MT : ModuleTypes} {W : Type} {CW : ControlWorld W} {J : AuditJson}.
Context (parse_version : text -> option Version) (format_time : Z -> text) (info : HttpInfo) (INDEX_HTML : text).
Context (auth : ControlPlaneAuthorizer).
Implicit Types h : Host W.

(** The answer to a caller without the role. *)
Definition refusal (r : Response) : bool :=
  match ans_body _ r with BProblem code => bool_decide (code ∈ ["unauthorized"; "forbidden"; "role_insufficient"]%string) | _ => false end.






Lemma authorize_cases headers r :
  (may auth (extract_bearer_token headers) r -> exists role, authorize auth headers r = Ok role)
  /\ (~ may auth (extract_bearer_token headers) r -> exists p, authorize auth headers r = Err p /\ (p.1 = 401 \/ p.1 = 403)).
Proof.
  unfold authorize, may. destruct (authorize_token auth _) as [role|e].
  - destruct (Role.satisfies role r) eqn:E; split; intros H.
    + by exists role.
    + exfalso. eauto.
    + destruct H as (role' & [= ->] & H). congruence.
    + eexists. split; [done|]. cbn. lia.
  - split; [by intros (? & ? & _)|]. intros _. eexists. split; [done|]. destruct e; cbn; lia.
Qed.



Notation handle := (handle parse_version format_time info INDEX_HTML auth).



(** ** Control of services *)

Section Invariant.
Context (P : W -> Prop).
Hypothesis stop_keeps : forall id s hd force w, find_service id w = Some s -> managed_service id w = Some hd ->
  has_tag (s_descriptor s) Core = false -> (sd_critical (s_descriptor s) = true -> force = true) -> P w -> P (ms_stop hd force w).1.
Hypothesis start_keeps : forall id s hd w, find_service id w = Some s -> managed_service id w = Some hd -> P w -> P (ms_start hd w).1.

Lemma start_service_keeps id w : P w -> P (start_service id w).1.
Proof.
  intros Hw. unfold start_service. destruct (find_service id w) as [s|] eqn:Hs; [|done]. destruct (managed_service id w) as [hd|] eqn:Hd; [|done].
  pose proof (start_keeps id s hd w Hs Hd Hw). destruct (ms_start hd w) as [w' [[]|]]; done.
Qed.
Lemma stop_service_keeps id force w : P w -> P (stop_service id force w).1.
Proof.
  intros Hw. unfold stop_service. destruct (find_service id w) as [s|] eqn:Hs; [|done]. case_match eqn:Hc; [done|].
  destruct (has_tag _ Core) eqn:Hcore; [done|]. destruct (managed_service id w) as [hd|] eqn:Hd; [|done].
  assert (H : P (ms_stop hd force w).1).
  { apply (stop_keeps id s); try done. intros Hcrit. rewrite Hcrit in Hc. by destruct force. }
  destruct (ms_stop hd force w) as [w' [[]|]]; done.
Qed.
Lemma restart_service_keeps id force w : P w -> P (restart_service id force w).1.
Proof.
  intros Hw. unfold restart_service. destruct (find_service id w); [|done]. case_match; [done|]. case_match; [done|].
  pose proof (stop_service_keeps id force w Hw) as H1. destruct (stop_service id force w) as [w1 [o|e]]; [|done].
  pose proof (start_service_keeps id w1 H1) as H2. by destruct (start_service id w1) as [w2 [[]|]].
Qed.
Lemma for_each_keeps act ids w : (forall id w, P w -> P (act id w).1) -> P w -> P (for_each act ids w).1.
Proof.
  intros Hact. revert w. induction ids as [|id ids IH]; intros w Hw; cbn; [done|].
  pose proof (Hact id w Hw) as H1. destruct (act id w) as [w1 r]. pose proof (IH w1 H1) as H2. by destruct (for_each act ids w1).
Qed.
Lemma act_on_keeps k id force w : P w -> P (act_on k id force w).1.
Proof. destruct k; cbn; auto using start_service_keeps, stop_service_keeps, restart_service_keeps. Qed.
Lemma act_on_all_keeps k force w : P w -> P (act_on_all k force w).1.
Proof. destruct k; apply for_each_keeps; auto using start_service_keeps, stop_service_keeps, restart_service_keeps. Qed.
End Invariant.

Lemma for_each_ids act ids (w : W) : rep_id <$> (for_each act ids w).2 = ids.
Proof.
  revert w. induction ids as [|id ids IH]; intros w; cbn; [done|]. destruct (act id w) as [w1 r]. specialize (IH w1).
  destruct (for_each act ids w1). cbn in *. by f_equal.
Qed.

(** ** Theorems *)


(** C21: What holds of the host whenever services that are not core are
    stopped (critical ones only by force) and whenever services are started,
    also holds after every service action over HTTP: no such action stops a
    core service, or a critical one without force. *)
Theorem core_services_survive (P : W -> Prop) io headers k id force h :
  (forall i s hd f w, find_service i w = Some s -> managed_service i w = Some hd -> has_tag (s_descriptor s) Core = false ->
     (sd_critical (s_descriptor s) = true -> f = true) -> P w -> P (ms_stop hd f w).1) ->
  (forall i s hd w, find_service i w = Some s -> managed_service i w = Some hd -> P w -> P (ms_start hd w).1) ->
  P (h_world _ h) ->
  P (h_world _ (service_action auth io headers k id force h).1) /\ P (h_world _ (bulk_service_action auth io headers k force h).1).
Proof.
  intros Hstop Hstart Hp. unfold service_action, bulk_service_action, with_role. destruct (authorize _ _ _) as [role|]; [|done].
  pose proof (act_on_keeps P Hstop Hstart k id force _ Hp) as H1. pose proof (act_on_all_keeps P Hstop Hstart k force _ Hp) as H2.
  destruct (act_on k id force _) as [w1 [o|e]], (act_on_all k force _) as [w2 rs]; done.
Qed.

(** Every service action of a caller with the role leaves exactly one
    event in the audit trail, which names the role, the action and the
    service and is a success exactly when the action succeeded; the world is
    the one the action made. *)
Theorem service_actions_are_audited io headers k id force h :
  may auth (extract_bearer_token headers) (required_role k) -> poisoned (log (h_audit _ h)) = false ->
  let h' := (service_action auth io headers k id force h).1 in let r := act_on k id force (h_world _ h) in
  h_world _ h' = r.1
  /\ exists role e, authorize_token auth (extract_bearer_token headers) = Ok role
     /\ h_audit _ h' = (record_audit io e (h_audit _ h)).2 /\ bus (h_audit _ h') = bus (h_audit _ h) ++ [e]
     /\ timestamp e = wall io /\ actor e = User (lit "http::" ++ Role.as_str role) (Role.as_str role)
     /\ action e = lit "service::" ++ verb k /\ target e = id /\ outcome e = (if is_ok r.2 then Success else Failure).
Proof.
  intros (role & Ha & Hs) Hl. unfold service_action, with_role, authorize. rewrite Ha, Hs.
  assert (Hbus : forall e, bus (record_audit io e (h_audit _ h)).2 = bus (h_audit _ h) ++ [e]).
  { intros e. unfold record_audit, append, append_locked. rewrite Hl. repeat case_match; simplify_eq/=; done. }
  destruct (act_on k id force _) as [w [o|e]]; (split; [done|]); eexists role, _; (split; [done|]); cbn [fst h_audit];
    unfold push_audit_event; cbn [build ok_or result_bind b_actor b_action b_target set_metadata set_outcome set_target set_action set_actor];
    (split; [reflexivity|]); (split; [apply Hbus|]); done.
Qed.

(** A bulk action reports on every service it may control, once and in the
    order of the registry. *)
Theorem bulk_reports_every_service io headers k force h :
  may auth (extract_bearer_token headers) (required_role k) ->
  exists reports role, (bulk_service_action auth io headers k force h).2 = ok_with (BBulk (bulk_str k) role reports)
    /\ rep_id <$> reports = controllable_non_core_ids (h_world _ h).
Proof.
  intros Hm. unfold bulk_service_action, with_role. destruct (proj1 (authorize_cases headers _) Hm) as [role ->].
  assert (Hids : rep_id <$> (act_on_all k force (h_world _ h)).2 = controllable_non_core_ids (h_world _ h)) by (destruct k; apply for_each_ids).
  destruct (act_on_all k force (h_world _ h)) as [w rs]. by eexists _, _.
Qed.

End Routes.

(** A role rests on a credential: with the embedded identity authority, a
    token is granted a role only when its signature verifies under the
    authority's current key, issuer, audience and environment are its own,
    it has not expired and its claims say the role; or when it is one of the
    configured control tokens with that role. *)
Theorem granted_role_is_backed {D : Type} {C : IdentityCrypto} {DB : DbIdentity D} now (a : IdentityAuthority (D := D)) entries bearer role :
  authorize_token (mkAuthorizer (Some (λ t, verify now t a)) entries) bearer = Ok role ->
  exists t, bearer = Some t
    /\ ((exists p st raw, parse_jwt (trim t) = Ok p /\ any_read (λ st, st) (store a) = Ok st
           /\ sig_verify (public_key (current_key st)) (encoded_header p ++ [46] ++ encoded_claims p) (signature p) = true
           /\ claims_of (decoded p) = Some raw /\ iss raw = issuer a /\ aud raw = audience a /\ env raw = a_environment a
           /\ unix_timestamp now < exp raw /\ Role.from_str (c_role raw) = Ok role)
        \/ exists secret, (role, secret) ∈ entries /\ utf8 secret = utf8 (trim t)).
Proof.
  intros (t & -> & [(v & c & [= <-] & Hv & <-)|H])%token_granted; exists t; (split; [done|]); [left|by right].
  apply verify_ok in Hv as (p & st & raw & H1 & H2 & _ & H3 & H4 & H5 & H6 & H7 & H8 & H9 & _). exists p, st, raw. by split_and!.
Qed.

(** ** A small host *)

Record DemoWorld := mkDemoWorld { core_runs : bool; worker_runs : bool }.
Definition core_descriptor : ServiceDescriptorOwned := mkServiceDescriptor (lit "http-server") (lit "HTTP") [] Transport true [Core] None None.
Definition worker_descriptor : ServiceDescriptorOwned := mkServiceDescriptor (lit "worker") (lit "Worker") [] BackgroundJob false [Auxiliary] None None.
Definition demo_registry : ServiceRegistry (D := ServiceDescriptorOwned) :=
  let key d := str_of (sd_id d) in register key (register key new core_descriptor Active None 0) worker_descriptor Active None 0.
Definition demo_managed : gmap text (ManagedService DemoWorld) :=
  <[lit "http-server" := mkManaged (λ w, (mkDemoWorld true (worker_runs w), Ok (negb (core_runs w)))) (λ _ w, (mkDemoWorld false (worker_runs w), Ok (core_runs w)))]>
    {[lit "worker" := mkManaged (λ w, (mkDemoWorld (core_runs w) true, Ok (negb (worker_runs w)))) (λ _ w, (mkDemoWorld (core_runs w) false, Ok (worker_runs w)))]}.
#[local] Instance demo_services : ServiceWorld DemoWorld := { w_registry _ := demo_registry; w_managed _ := demo_managed }.
#[local] Instance demo_types : ModuleTypes := {
  Installed := unit; Found := unit; InstallResult := unit; RuntimeInfo := unit; Instances := unit; RollingReport := unit; StartupReport := unit;
  Analytics := unit; Job := unit; RuntimeMetrics := unit; DbRest := unit; Telemetry := unit; Sample := unit; Rate := unit; high_rate _ := false;
}.
#[local] Instance demo_control : ControlWorld DemoWorld := {
  module_service _ := false; list_installed w := (w, Ok []); search _ w := (w, Ok []); install _ _ w := (w, Ok tt); update _ _ w := (w, Ok tt);
  update_all _ w := (w, Ok []); uninstall _ w := (w, Ok tt); start_module _ w := (w, Ok tt); stop_module _ w := (w, Ok tt);
  stop_all_modules w := (w, Ok tt); restart_module _ w := (w, Ok tt); runtime_instances _ w := (w, Ok tt); rolling_restart _ w := (w, Ok tt);
  startup_reports _ := []; startup_report _ _ := None; release_all_dev_overrides_without_restart _ w := (w, Some []);
  module_analytics_of _ _ _ _ _ w := (w, Ok tt); identity_attached _ := false; list_users _ := None; issue_token _ w := (w, None);
  logging_attached _ := false; reload_level _ w := (w, true); scheduler_jobs _ := []; service_runtime_metrics _ _ := None;
  db_runtime_status _ := None; db_runtime_logs _ _ := [];
  read_file p _ := if bool_decide (p = lit "static/../config/local.toml") then Some (lit "admin_token") else None;
  is_live _ := true; is_ready _ := true; telemetry_snapshot _ := tt; telemetry_history _ _ := []; diagnostics _ := ∅; status_tracker _ := tracker_new;
}.
#[local] Instance demo_json : AuditJson := { to_vec _ := None; from_slice _ := None }.
Definition demo_auth : ControlPlaneAuthorizer := mkAuthorizer None [(Admin, lit "root-secret"); (Viewer, lit "look-secret")].
Definition demo_host : Host DemoWorld := mkHost _ (mkDemoWorld true true) (mkTrail (log_new 10) []) [].
Definition demo_io : Io := mkIo 0 0 true None.
Definition bearer (token : string) : ProxyHeaders.HeaderMap := [(AUTHORIZATION, lit ("Bearer " ++ token))].
Definition demo_handle (headers : ProxyHeaders.HeaderMap) (c : Call) : Host DemoWorld * Response :=
  handle (λ _, None) (λ _, []) (mkHttpInfo [] [] [] 0) [] demo_auth demo_io headers c demo_host.


Lemma core_services_survive_witness :
  core_runs (h_world _ (bulk_service_action demo_auth demo_io (bearer "root-secret") ActStop true demo_host).1) = true.
Proof.
  apply (core_services_survive demo_auth (λ w, core_runs w = true) demo_io (bearer "root-secret") ActStop (lit "http-server") true demo_host); [| |done].
  - intros i s hd f w Hs Hd Hcore _ Hw. unfold managed_service in Hd. cbn [w_managed demo_services cw_services demo_control] in Hd. unfold demo_managed in Hd.
    apply lookup_insert_Some in Hd as [[<- <-]|[_ Hd]].
    + exfalso. revert Hs Hcore. vm_compute. by intros [= <-].
    + by apply lookup_singleton_Some in Hd as [_ <-].
  - intros i s hd w _ Hd Hw. unfold managed_service in Hd. cbn [w_managed demo_services cw_services demo_control] in Hd. unfold demo_managed in Hd.
    apply lookup_insert_Some in Hd as [[_ <-]|[_ Hd]]; [done|]. by apply lookup_singleton_Some in Hd as [_ <-].
Defined.

Lemma service_actions_are_audited_witness : exists e,
  bus (h_audit _ (service_action demo_auth demo_io (bearer "root-secret") ActStop (lit "http-server") true demo_host).1) = [e]
  /\ outcome e = Failure /\ actor e = User (lit "http::admin") (lit "admin").
Proof.
  destruct (service_actions_are_audited demo_auth demo_io (bearer "root-secret") ActStop (lit "http-server") true demo_host)
    as (_ & role & e & Ha & _ & Hb & _ & Hac & _ & _ & Ho); [exists Admin; split; by vm_compute|done|].
  exists e. rewrite Hb, Hac, Ho. vm_compute in Ha. injection Ha as <-. split_and!; by vm_compute.
Defined.

Lemma granted_role_is_backed_witness : exists t, Some (lit " root-secret ") = Some t
  /\ (trim t = lit "root-secret").
Proof.
  destruct (granted_role_is_backed (D := IdentityState) noon (demo_authority demo_file) (au_tokens demo_auth) (Some (lit " root-secret ")) Admin) as (t & Ht & _);
    [by vm_compute|]. exists t. split; [exact Ht|]. injection Ht as <-. by vm_compute.
Defined.

(** ** Findings *)

(** The file route joins the decoded path to [static/] and reads it: a path
    with [..] leaves the directory, and the route asks for no token. *)
Theorem static_route_leaves_directory :
  demo_handle [] (CStatic (lit "../config/local.toml")) = (demo_host, ok_with (BFile (lit "application/octet-stream") (lit "admin_token"))).
Proof. by vm_compute. Qed.

(** The routes of the README. *)
Definition readme_routes : list Call :=
  [CLive; CReady; CPublicStatus; CInfo; CServices; CRuntimeMetrics []; CAction ActStart [] false; CAction ActStop [] false;
   CAction ActRestart [] false; CBulk ActStart false; CBulk ActStop false; CBulk ActRestart false; CInstalled; CAvailable None;
   CInstall [] None; CUpdate None None; CUninstall []; CModuleStart []; CModuleStop []; CModuleRestart []; CRolling []; CInstances [];
   CModuleStopAll; CRelease; CMetrics; CMetricsHistory None; CAudit (mkAuditQuery None None None None); CAuditHistory None None;
   CEvents None; CUsers; CIssue [] None None; CLevel []; CJobs].

(** Where the README is wrong: three routes it says need a viewer are open,
    the instances need an operator, and restarts and the log level an
    admin. *)
Theorem readme_names_other_roles :
  filter (λ c, required c <> readme_role c) readme_routes
  = [CInfo; CAction ActRestart [] false; CBulk ActRestart false; CInstances []; CMetrics; CMetricsHistory None; CLevel []]
  /\ refusal (demo_handle [] CMetrics).2 = false.
Proof. split; by vm_compute. Qed.
