(* ===== verification/ModuleRegistry.v ===== *)
(** * Module registries ([infra/modules/registry.rs])

    Where modules are looked up and downloaded: a registry over HTTP, local
    directories with manifests, and the composition of several sources.
    A source is a record of operations ([ModuleRegistryPort]).

    The HTTP server is a function of the number of the request and its URL;
    [Net] records the URLs asked for.  The semver, hex, URL and JSON
    libraries are the class [RegistryLibs]; SHA-256 and base64 are those of
    [Verifier]. *)

From S2P Require Import Prelude Text Versions Manifests Ports Verifier Gateway ModuleStorage ModuleEnv ConfigCheck.

#[local] Open Scope fenrir_scope.
#[local] Instance version_dec : EqDecision Version.
Proof. solve_decision. Defined.

Inductive ModuleRegistryError := Unavailable | NotFound (module : text) | Protocol.
Inductive ModuleRegistryInitError := InvalidConfig (message : text).
Record ModuleSummary := mkSummary { su_id : ModuleId; su_version : Version; su_title : option string; su_description : option string; su_tags : list string }.
Record DistributionTarget := mkTarget { dt_module : ModuleId; dt_version : Version }.

(** [ModuleRegistryPort]: the operations over a state [S]; a download that
    does not end is [None]. *)
Record ModuleRegistryPort (S : Type) := mkPort {
  po_search : option text -> S -> S * result (list ModuleSummary) ModuleRegistryError;
  po_fetch : ModuleId -> option Version -> S -> S * result ModuleManifest ModuleRegistryError;
  po_download : ModuleManifest -> S -> option (S * result ModuleBundle ModuleRegistryError);
  po_targets : text -> S -> S * result (list DistributionTarget) ModuleRegistryError;
}.
Arguments po_search {S}. Arguments po_fetch {S}. Arguments po_download {S}. Arguments po_targets {S}. Arguments mkPort {S}.

(** ** Secrets and paths in the settings *)

Definition resolve_reference (h : Host) (raw : text) (allow_file : bool) : result text ModuleRegistryInitError :=
  let trimmed := trim raw in
  if bool_decide (trimmed = []) then Ok []
  else match strip_prefix (lit "env:") trimmed with
       | None => Ok trimmed
       | Some env =>
           let var := trim env in
           let direct := host_var h var in
           let file_var := var ++ lit "_FILE" in
           let file_ref := if allow_file then non_empty (host_var h file_var) else None in
           match non_empty direct, file_ref with
           | Some _, Some _ => Err (InvalidConfig (lit "ambiguous"))
           | Some value, None => Ok value
           | None, Some path =>
               match h_read h path with
               | Err _ => Err (InvalidConfig (lit "unreadable"))
               | Ok content => let secret := trim content in if bool_decide (secret = []) then Err (InvalidConfig (lit "empty")) else Ok secret
               end
           | None, None => if is_set direct then Ok [] else Err (InvalidConfig (lit "missing"))
           end
       end.
Definition resolve_optional_path (h : Host) (raw : option text) : result (option text) ModuleRegistryInitError :=
  match raw with
  | Some value =>
      resolved <-? resolve_reference h value false;;
      let trimmed := trim resolved in
      if bool_decide (trimmed = []) then Err (InvalidConfig (lit "resolved empty")) else Ok (Some trimmed)
  | None => Ok None
  end.

(** ** Libraries *)

(** The JSON of the registry. *)
Record ModuleInfo := mkModuleInfo { mi_id : string; mi_name : string; mi_description : option string; mi_author : option string }.
Record VersionInfo := mkVersionInfo {
  vi_version : text; vi_fenrir_min : option text; vi_fenrir_max : option text; vi_download_url : text; vi_checksum : text; vi_signature : option string;
  vi_released_at : Z;
}.
Record RegistryModule := mkRegistryModule { rm_module : ModuleInfo; rm_versions : list VersionInfo; rm_latest : option text }.

(** [module-manifest.toml] of a local directory. *)
Record LocalManifestVersion := mkLocalVersion {
  lm_version : text; lm_released : option text; lm_fenrir_min : option text; lm_fenrir_max : option text; lm_artifact_url : option text;
  lm_checksum : option text; lm_signature : option string; lm_signer : option string;
}.
Record LocalManifestFile := mkLocalFile {
  lf_id : string; lf_name : option string; lf_description : option string; lf_author : option string; lf_tags : option (list string);
  lf_versions : list LocalManifestVersion;
}.

Class RegistryLibs := {
  semver_parse : text -> option Version;
  semver_display : Version -> text;
  req_parse : text -> option VersionReq;
  hex_decode : text -> option (list Z);
  header_ok : text -> bool;
  pem_ok : list Z -> bool;
  url_join : text -> text -> result text bool;
  url_encode : text -> text;
  json_module : list Z -> option RegistryModule;
  json_modules : list Z -> option (list RegistryModule);
  toml_manifest : text -> option LocalManifestFile;
  rfc3339_seconds : text -> option Z;
}.

Section Registry.
Context {RL : RegistryLibs} {VC : VerifierCrypto} {SV : Semver}.

Definition parse_fenrir_version_req (min max : option text) : option VersionReq :=
  match min, max with
  | Some min_v, Some max_v => req_parse (lit ">=" ++ min_v ++ lit ", <" ++ max_v)
  | Some min_v, None => req_parse (lit ">=" ++ min_v)
  | None, Some max_v => req_parse (lit "<" ++ max_v)
  | None, None => None
  end.

(** ** The registry over HTTP *)

Record HttpModuleRegistry := mkHttpRegistry {
  base_url : text; hr_token : option text; hr_ca : option (list Z); hr_identity : option (list Z); hr_accept_invalid : bool;
}.
Definition trim_end_slash (t : text) : text := rev (drop_while (λ c, c =? 47) (rev t)).

Definition read_pem (read : text -> option (list Z)) (path : text) : result (list Z) ModuleRegistryInitError :=
  ok_or (read path) (InvalidConfig (lit "read failed")).
Definition http_new (h : Host) (read : text -> option (list Z)) (c : ModuleRegistrySection) : result HttpModuleRegistry ModuleRegistryInitError :=
  if bool_decide (trim (registry_url c) = []) then Err (InvalidConfig (lit "url empty"))
  else
    token <-? match registry_auth_token c with
              | Some raw =>
                  token <-? resolve_reference h raw true;;
                  if bool_decide (token = []) then Ok None
                  else if header_ok (lit "Bearer " ++ token) then Ok (Some token) else Err (InvalidConfig (lit "auth token"))
              | None => Ok None
              end;;
    ca_path <-? resolve_optional_path h (r_ca_cert_path (registry_tls c));;
    ca <-? match ca_path with
           | Some path => pem <-? read_pem read path;; if pem_ok pem then Ok (Some pem) else Err (InvalidConfig (lit "ca pem"))
           | None => Ok None
           end;;
    client_cert <-? resolve_optional_path h (r_client_cert_path (registry_tls c));;
    client_key <-? resolve_optional_path h (r_client_key_path (registry_tls c));;
    if xorb (is_set client_cert) (is_set client_key) then Err (InvalidConfig (lit "certificate and key"))
    else
      identity <-? match client_cert, client_key with
                   | Some cert_path, Some key_path =>
                       cert <-? read_pem read cert_path;;
                       key <-? read_pem read key_path;;
                       let pem := cert ++ (if bool_decide (last cert = Some 10) then [] else [10]) ++ key in
                       if pem_ok pem then Ok (Some pem) else Err (InvalidConfig (lit "identity"))
                   | _, _ => Ok None
                   end;;
      Ok (mkHttpRegistry (trim_end_slash (registry_url c)) token ca identity (r_accept_invalid_certs (registry_tls c))).

(** A request, with the token that the client adds to all of them. *)
Record Request := mkRequest { rq_url : text; rq_token : option text }.
Inductive Reply := NoReply | Replied (status : Z) (chunks : list (option (list Z))).
Record Net := mkNet { sent : list Request }.
Context (server : nat -> text -> Reply).
Context (reg : HttpModuleRegistry).

Definition http_get (url : text) (n : Net) : Net * Reply :=
  (mkNet (sent n ++ [mkRequest url (hr_token reg)]), server (length (sent n)) url).
Definition is_success (status : Z) : bool := (200 <=? status) && (status <? 300).
Fixpoint body_of (chunks : list (option (list Z))) : option (list Z) :=
  match chunks with
  | [] => Some []
  | None :: _ => None
  | Some c :: chunks => rest ← body_of chunks; Some (c ++ rest)
  end.

Definition resolve_url (url : text) : result text ModuleRegistryError :=
  if starts_with (lit "http://") url || starts_with (lit "https://") url then Ok url
  else match url_join (base_url reg) url with
       | Ok joined => Ok joined
       | Err base_invalid => Err (if base_invalid then Unavailable else Protocol)
       end.

Definition http_summary (m : RegistryModule) : option ModuleSummary :=
  id ← match ModuleId_new (lit (mi_id (rm_module m))) with Ok id => Some id | Err _ => None end;
  latest ← match rm_latest m with Some v => Some v | None => vi_version <$> head (rm_versions m) end;
  version ← semver_parse latest;
  Some (mkSummary id version (Some (mi_name (rm_module m))) (mi_description (rm_module m)) []).
Definition http_search (pattern : option text) (n : Net) : Net * result (list ModuleSummary) ModuleRegistryError :=
  let base := trim_end_slash (base_url reg) in
  let url := match pattern with Some p => base ++ lit "/v1/modules/search?q=" ++ url_encode p | None => base ++ lit "/v1/modules" end in
  match http_get url n with
  | (n, NoReply) => (n, Err Unavailable)
  | (n, Replied status chunks) =>
      if negb (is_success status) then (n, Err Unavailable)
      else (n, match body_of chunks ≫= json_modules with Some modules => Ok (omap http_summary modules) | None => Err Protocol end)
  end.

Definition target_version (m : RegistryModule) (id : ModuleId) (version : option Version) : result VersionInfo ModuleRegistryError :=
  match version with
  | Some requested => ok_or (List.find (λ v, bool_decide (vi_version v = semver_display requested)) (rm_versions m))
                        (NotFound (id_text id ++ lit " v" ++ semver_display requested))
  | None => ok_or (head (rm_versions m)) Protocol
  end.
Definition manifest_of (m : RegistryModule) (v : VersionInfo) (parsed : Version) : ModuleManifest :=
  let info := rm_module m in
  mkManifest (mi_id info) parsed (Some (mi_name info)) (mi_description info)
    (parse_fenrir_version_req (vi_fenrir_min v) (vi_fenrir_max v)) (match mi_author info with Some a => [a] | None => [] end) None
    (mkArtifact (vi_download_url v) (mkChecksum Sha256 (vi_checksum v)) (Some "application/gzip"%string) None)
    (mkSignature Ed25519 (default "module-registry"%string (mi_author info)) (default ""%string (vi_signature v)))
    [] [] (if 0 <=? vi_released_at v then Some (vi_released_at v) else None).
Definition http_fetch_manifest (id : ModuleId) (version : option Version) (n : Net) : Net * result ModuleManifest ModuleRegistryError :=
  let url := trim_end_slash (base_url reg) ++ lit "/v1/modules/" ++ url_encode (id_text id) in
  match http_get url n with
  | (n, NoReply) => (n, Err Unavailable)
  | (n, Replied status chunks) =>
      (n, if status =? 404 then Err (NotFound (id_text id))
          else if negb (is_success status) then Err Unavailable
          else
            m <-? ok_or (body_of chunks ≫= json_module) Protocol;;
            v <-? target_version m id version;;
            parsed <-? ok_or (semver_parse (vi_version v)) Protocol;;
            Ok (manifest_of m v parsed))
  end.

(** One turn of the download: the archive, checked, or what to do next. *)
Inductive Turn := TBundle (b : ModuleBundle) | TFailed (e : ModuleRegistryError) | TMismatch.
Definition hash_of (m : ModuleManifest) : text := Manifests.hash (checksum (m_artifact m)).
Definition download_once (m : ModuleManifest) (n : Net) : Net * Turn :=
  match resolve_url (download_url (m_artifact m)) with
  | Err e => (n, TFailed e)
  | Ok url =>
      match http_get url n with
      | (n, NoReply) => (n, TFailed Unavailable)
      | (n, Replied status chunks) =>
          (n, if negb (is_success status) then TFailed Unavailable
              else match body_of chunks with
                   | None => TFailed Unavailable
                   | Some archive =>
                       match hex_decode (hash_of m) with
                       | None => TFailed Protocol
                       | Some expected =>
                           if negb (bool_decide (sha256_of archive = expected)) then TMismatch
                           else
                             let signature := lit (sig_value (m_signature m)) in
                             match (if bool_decide (signature = []) then Some [] else base64_decode signature) with
                             | None => TFailed Protocol
                             | Some bytes => TBundle (mkBundle m archive bytes expected)
                             end
                       end
                   end)
      end
  end.

(** The loop; [None]: the fuel is used up. *)
Fixpoint download_loop (fuel : nat) (m : ModuleManifest) (allow_refresh retried_same refreshed : bool) (n : Net)
    : option (Net * result ModuleBundle ModuleRegistryError) :=
  match fuel with
  | 0%nat => None
  | S fuel =>
      match download_once m n with
      | (n, TBundle b) => Some (n, Ok b)
      | (n, TFailed e) => Some (n, Err e)
      | (n, TMismatch) =>
          if allow_refresh && negb retried_same then download_loop fuel m allow_refresh true refreshed n
          else if allow_refresh && negb refreshed then
            match ModuleId_new (lit (m_id m)) with
            | Err _ => Some (n, Err Protocol)
            | Ok id =>
                match http_fetch_manifest id (Some (m_version m)) n with
                | (n, Ok fresh) =>
                    if negb (bool_decide (hash_of fresh = hash_of m)) || negb (bool_decide (download_url (m_artifact fresh) = download_url (m_artifact m)))
                    then download_loop fuel fresh allow_refresh true true n
                    else Some (n, Err Protocol)
                | (n, Err _) => Some (n, Err Protocol)
                end
            end
          else Some (n, Err Protocol)
      end
  end.
(** At most three turns are made (proved below). *)
Definition DOWNLOAD_FUEL : nat := 3.
Definition http_download (m : ModuleManifest) (n : Net) : option (Net * result ModuleBundle ModuleRegistryError) :=
  download_loop DOWNLOAD_FUEL m true false false n.

Definition http_port : ModuleRegistryPort Net := mkPort http_search http_fetch_manifest http_download (λ _ n, (n, Ok [])).

(** ** Local directories *)

Inductive LocalManifestError := LIo | LParse | LInvalidField | LMissingArtifact (path : text).
Record LocalModuleVersion := mkLocalEntry {
  lv_version : Version; artifact_path : text; artifact_url : text; checksum_hex : text; lv_published : option Z; fenrir_req : option VersionReq;
  lv_signature : option string; lv_signer : option string;
}.
Record LocalModule := mkLocalModule {
  lo_id : ModuleId; lo_title : string; lo_description : option string; lo_author : list string; lo_tags : list string;
  lo_versions : list LocalModuleVersion; lo_latest : LocalModuleVersion;
}.

(** The directories: which paths exist, and the bytes of the files. *)
Context (fs_exists : text -> bool) (fs_read : text -> option (list Z)).

Definition artifact_file_name (url : text) (module_id version : text) : text :=
  match List.find (λ part, negb (bool_decide (part = []))) (rev (split 47 url)) with
  | Some segment => segment
  | None => module_id ++ lit "-" ++ version ++ lit ".tar.gz"
  end.
(** [unix_timestamp() as u64]. *)
Definition parse_timestamp (raw : text) : option Z := (λ t, t mod 2 ^ 64) <$> rfc3339_seconds raw.

Definition manifest_load (root : text) : result LocalManifestFile LocalManifestError :=
  contents <-? ok_or (fs_read (path_join root (lit "module-manifest.toml")) ≫= from_utf8) LIo;;
  ok_or (toml_manifest contents) LParse.

Definition from_entry (root : text) (module_id : string) (v : LocalManifestVersion) : result LocalModuleVersion LocalManifestError :=
  parsed <-? ok_or (semver_parse (lm_version v)) LInvalidField;;
  let url := default [] (lm_artifact_url v) in
  let path := path_join root (artifact_file_name url (lit module_id) (lm_version v)) in
  if negb (fs_exists path) then Err (LMissingArtifact path)
  else
    checksum <-? ok_or (lm_checksum v) LInvalidField;;
    Ok (mkLocalEntry parsed path url checksum (lm_released v ≫= parse_timestamp) (parse_fenrir_version_req (lm_fenrir_min v) (lm_fenrir_max v))
          (lm_signature v) (lm_signer v)).

(** [max_by]: of several maximal elements the last. *)
Definition later (acc : option LocalModuleVersion) (v : LocalModuleVersion) : option LocalModuleVersion :=
  match acc with
  | None => Some v
  | Some a => match compare_versions (lv_version a) (lv_version v) with Gt => Some a | _ => Some v end
  end.
Definition newest (l : list LocalModuleVersion) : option LocalModuleVersion := foldl later None l.

Definition ok_entries {A E} (l : list (result A E)) : list A := omap (λ r, match r with Ok a => Some a | Err _ => None end) l.
Definition from_manifest (root : text) (f : LocalManifestFile) : result LocalModule LocalManifestError :=
  match ModuleId_new (lit (lf_id f)) with
  | Err _ => Err LInvalidField
  | Ok id =>
      let versions := ok_entries (from_entry root (lf_id f) <$> lf_versions f) in
      if bool_decide (versions = []) then Err LInvalidField
      else
        latest <-? ok_or (newest versions) LInvalidField;;
        Ok (mkLocalModule id (default (lf_id f) (lf_name f)) (lf_description f) (match lf_author f with Some a => [a] | None => [] end)
              (default [] (lf_tags f)) versions latest)
  end.

Definition pick_version (m : LocalModule) (version : option Version) : result LocalModuleVersion ModuleRegistryError :=
  match version with
  | Some requested => ok_or (List.find (λ e, bool_decide (lv_version e = requested)) (lo_versions m))
                        (NotFound (id_text (lo_id m) ++ lit "@" ++ semver_display requested))
  | None => Ok (lo_latest m)
  end.

Definition is_compatible_with (e : LocalModuleVersion) (version : Version) : bool :=
  match fenrir_req e with Some req => version_req_matches req version | None => true end.

Definition as_manifest (e : LocalModuleVersion) (m : LocalModule) : ModuleManifest :=
  mkManifest (str_of (id_text (lo_id m))) (lv_version e) (Some (lo_title m)) (lo_description m) (fenrir_req e) (lo_author m) None
    (mkArtifact (artifact_url e) (mkChecksum Sha256 (checksum_hex e)) (Some "application/gzip"%string) None)
    (mkSignature Ed25519 (default "local-dev"%string (lv_signer e)) (default ""%string (lv_signature e)))
    [] (lo_tags m) (lv_published e).

Definition load_bundle (e : LocalModuleVersion) (m : LocalModule) : result ModuleBundle ModuleRegistryError :=
  bytes <-? ok_or (fs_read (artifact_path e)) Unavailable;;
  expected <-? ok_or (hex_decode (checksum_hex e)) Protocol;;
  if negb (bool_decide (sha256_of bytes = expected)) then Err Protocol
  else
    let signature := lit (default ""%string (lv_signature e)) in
    signature_bytes <-? ok_or (if bool_decide (signature = []) then Some [] else base64_decode signature) Protocol;;
    Ok (mkBundle (as_manifest e m) bytes signature_bytes expected).

Record LocalModuleRegistry := mkLocalRegistry { lr_roots : list text }.
Definition try_new (c : ModuleRegistrySection) : option LocalModuleRegistry :=
  let valid := List.filter (λ raw, negb (bool_decide (trim raw = [])) && fs_exists raw) (offline_dirs c) in
  if bool_decide (offline_dirs c = []) || bool_decide (valid = []) then None else Some (mkLocalRegistry valid).

Definition load_modules (r : LocalModuleRegistry) : list LocalModule :=
  ok_entries ((λ root, f <-? manifest_load root;; from_manifest root f) <$> lr_roots r).
Definition find_module (r : LocalModuleRegistry) (id : ModuleId) : result LocalModule ModuleRegistryError :=
  ok_or (List.find (λ m, bool_decide (id_text (lo_id m) = id_text id)) (load_modules r)) (NotFound (id_text id)).

Definition matches_pattern (pattern : option text) (m : LocalModule) : bool :=
  match pattern with
  | None => true
  | Some pat => contains_sub pat (id_text (lo_id m)) || contains_sub pat (to_ascii_lowercase (lit (lo_title m)))
  end.
Definition local_search (r : LocalModuleRegistry) (pattern : option text) : list ModuleSummary :=
  (λ m, mkSummary (lo_id m) (lv_version (lo_latest m)) (Some (lo_title m)) (lo_description m) (lo_tags m))
    <$> List.filter (matches_pattern (to_ascii_lowercase <$> pattern)) (load_modules r).
Definition local_fetch (r : LocalModuleRegistry) (id : ModuleId) (version : option Version) : result ModuleManifest ModuleRegistryError :=
  m <-? find_module r id;;
  e <-? pick_version m version;;
  Ok (as_manifest e m).
Definition local_download (r : LocalModuleRegistry) (manifest : ModuleManifest) : result ModuleBundle ModuleRegistryError :=
  match ModuleId_new (lit (m_id manifest)) with
  | Err _ => Err Protocol
  | Ok id =>
      m <-? find_module r id;;
      e <-? pick_version m (Some (m_version manifest));;
      load_bundle e m
  end.
Definition local_targets (r : LocalModuleRegistry) (fenrir_version : text) : result (list DistributionTarget) ModuleRegistryError :=
  parsed <-? ok_or (semver_parse fenrir_version) Protocol;;
  Ok (omap (λ m, (λ e, mkTarget (lo_id m) (lv_version e)) <$> newest (List.filter (λ e, is_compatible_with e parsed) (lo_versions m)))
        (load_modules r)).
Definition local_port {S} (r : LocalModuleRegistry) : ModuleRegistryPort S :=
  mkPort (λ p s, (s, Ok (local_search r p))) (λ id v s, (s, local_fetch r id v)) (λ m s, Some (s, local_download r m))
    (λ v s, (s, local_targets r v)).

End Registry.

(** ** Several sources *)

Section Composite.
Context {S : Type}.
Implicit Types (sources : list (ModuleRegistryPort S)) (s : S).

Definition add_unseen (acc : gset text * list ModuleSummary) (x : ModuleSummary) : gset text * list ModuleSummary :=
  if bool_decide (id_text (su_id x) ∈ acc.1) then acc else ({[id_text (su_id x)]} ∪ acc.1, acc.2 ++ [x]).
Fixpoint search_from sources (pattern : option text) (acc : gset text * list ModuleSummary) s : S * result (list ModuleSummary) ModuleRegistryError :=
  match sources with
  | [] => (s, Ok acc.2)
  | p :: sources =>
      match po_search p pattern s with
      | (s, Err e) => (s, Err e)
      | (s, Ok entries) => search_from sources pattern (foldl add_unseen acc entries) s
      end
  end.
Fixpoint composite_fetch sources (id : ModuleId) (version : option Version) s : S * result ModuleManifest ModuleRegistryError :=
  match sources with
  | [] => (s, Err (NotFound (id_text id)))
  | p :: sources =>
      match po_fetch p id version s with
      | (s, Ok m) => (s, Ok m)
      | (s, Err (NotFound _)) => composite_fetch sources id version s
      | (s, Err e) => (s, Err e)
      end
  end.
Fixpoint composite_download sources (m : ModuleManifest) s : option (S * result ModuleBundle ModuleRegistryError) :=
  match sources with
  | [] => Some (s, Err (NotFound (lit (m_id m))))
  | p :: sources =>
      match po_download p m s with
      | None => None
      | Some (s, Ok b) => Some (s, Ok b)
      | Some (s, Err (NotFound _)) => composite_download sources m s
      | Some (s, Err e) => Some (s, Err e)
      end
  end.
(** [entry(module_id).or_insert(version)]. *)
Definition or_insert (combined : gmap ModuleId Version) (t : DistributionTarget) : gmap ModuleId Version :=
  match combined !! dt_module t with Some _ => combined | None => <[dt_module t := dt_version t]> combined end.
Fixpoint targets_from sources (fenrir_version : text) (combined : gmap ModuleId Version) s
    : S * result (gmap ModuleId Version) ModuleRegistryError :=
  match sources with
  | [] => (s, Ok combined)
  | p :: sources =>
      match po_targets p fenrir_version s with
      | (s, Ok targets) => targets_from sources fenrir_version (foldl or_insert combined targets) s
      | (s, Err (NotFound _)) => targets_from sources fenrir_version combined s
      | (s, Err e) => (s, Err e)
      end
  end.
(** The hash map lists its entries in an order of its own; here that of [map_to_list]. *)
Definition composite_targets sources (fenrir_version : text) s : S * result (list DistributionTarget) ModuleRegistryError :=
  match targets_from sources fenrir_version ∅ s with
  | (s, Ok combined) => (s, Ok ((λ kv, mkTarget kv.1 kv.2) <$> map_to_list combined))
  | (s, Err e) => (s, Err e)
  end.
Definition composite_port sources : ModuleRegistryPort S :=
  mkPort (λ p s, search_from sources p (∅, []) s) (composite_fetch sources) (composite_download sources) (composite_targets sources).
End Composite.

(** The registry the boot builds: local directories first, then HTTP. *)
Definition boot_registry {RL : RegistryLibs} {VC : VerifierCrypto} {SV : Semver} (h : Host) (server : nat -> text -> Reply)
    (fs_exists : text -> bool) (fs_read : text -> option (list Z)) (c : ModuleRegistrySection)
    : result (ModuleRegistryPort Net) ModuleRegistryInitError :=
  remote <-? http_new h fs_read c;;
  let remote := http_port server remote in
  let chain := (if allow_offline c then match try_new fs_exists c with Some r => [local_port fs_exists fs_read r] | None => [] end else []) ++ [remote] in
  Ok (match chain with [only] => only | _ => composite_port chain end).
