(* ===== verification/ModuleRegistrySafety.v ===== *)
(** * What a module registry gives

    Theorems on [ModuleRegistry]: the download loop ends after at most three
    downloads and one question for the manifest, whatever bundle it gives
    has the digest its manifest names, through every composition the boot
    builds; local directories give the newest (compatible) version; a local
    manifest is downloaded as it was fetched; a search over several sources
    lists each module once; and the limits of the checks. *)

From S2P Require Import Prelude Text Versions Manifests Ports Verifier Gateway ModuleStorage ModuleEnv ConfigCheck TokenExchangeSafety ModuleRegistry.

#[local] Open Scope fenrir_scope.

Section Downloads.
Context {RL : RegistryLibs} {VC : VerifierCrypto} {SV : Semver}.

(** The bundle has the digest that its manifest names. *)
Definition bundle_checked (b : ModuleBundle) : Prop :=
  sha256_of (b_archive b) = b_checksum b /\ hex_decode (hash_of (b_manifest b)) = Some (b_checksum b).

(** What a source promises of a download: it ends, after at most [k]
    requests, with a checked bundle or an error. *)
Class DownloadLaw (k : nat) (p : ModuleRegistryPort Net) : Prop := {
  download_law : forall m n, exists n' r,
    po_download p m n = Some (n', r) /\ (length (sent n') <= length (sent n) + k)%nat /\ forall b, r = Ok b -> bundle_checked b;
}.

Section Http.
Context (server : nat -> text -> Reply) (reg : HttpModuleRegistry).

Lemma http_get_sent url n : length (sent (http_get server reg url n).1) = S (length (sent n)).
Proof. cbn. rewrite length_app. cbn. lia. Qed.

Lemma download_once_spec m n :
  exists n' t, download_once server reg m n = (n', t) /\ (length (sent n') <= length (sent n) + 1)%nat
    /\ forall b, t = TBundle b -> bundle_checked b /\ b_manifest b = m.
Proof.
  unfold download_once. destruct (resolve_url reg (download_url (m_artifact m))) as [url|e]; [|eexists _, _; split; [done|]; split; [lia|done]].
  pose proof (http_get_sent url n) as Hs. destruct (http_get server reg url n) as [n' r]. cbn [fst] in Hs.
  destruct r as [|status chunks]; (eexists _, _; split; [reflexivity|]; split; [lia|]); [done|].
  intros b. destruct (negb (is_success status)); [done|]. destruct (body_of chunks) as [archive|]; [|done].
  destruct (hex_decode (hash_of m)) as [expected|] eqn:He; [|done]. case_bool_decide as Hd; cbn [negb]; [|done].
  destruct (if bool_decide _ then _ else _) as [bytes|]; [|done]. by intros [= <-].
Qed.

Lemma fetch_sent id v n : (length (sent (http_fetch_manifest server reg id v n).1) = length (sent n) + 1)%nat.
Proof.
  unfold http_fetch_manifest. pose proof (http_get_sent (trim_end_slash (base_url reg) ++ lit "/v1/modules/" ++ url_encode (id_text id)) n) as Hs.
  destruct (http_get server reg _ n) as [n' []]; cbn [fst] in *; lia.
Qed.

(** The turns the loop still has, from its flags, and its requests. *)
Definition turns (retried refreshed : bool) : nat := 1 + (if retried then 0 else 1) + (if refreshed then 0 else 1).
Definition requests (retried refreshed : bool) : nat := turns retried refreshed + (if refreshed then 0 else 1).

Lemma download_loop_ends fuel m retried refreshed n :
  (turns retried refreshed <= fuel)%nat ->
  exists n' r, download_loop server reg fuel m true retried refreshed n = Some (n', r)
    /\ (length (sent n') <= length (sent n) + requests retried refreshed)%nat /\ forall b, r = Ok b -> bundle_checked b.
Proof.
  revert m retried refreshed n. induction fuel as [|fuel IH]; intros m retried refreshed n Hf; [unfold turns in Hf; lia|].
  cbn [download_loop]. destruct (download_once_spec m n) as (n1 & t & -> & Hn & Ht). destruct t as [b|e|].
  - eexists _, _. split; [done|]. split; [unfold requests, turns; lia|]. intros b' [= <-]. by apply Ht.
  - eexists _, _. split; [done|]. split; [unfold requests, turns; lia|done].
  - destruct retried; cbn [negb andb].
    + destruct refreshed; cbn [negb andb]; [eexists _, _; split; [done|]; split; [cbn in *; lia|done]|].
      destruct (ModuleId_new (lit (m_id m))) as [id|]; [|eexists _, _; split; [done|]; split; [cbn in *; lia|done]].
      pose proof (fetch_sent id (Some (m_version m)) n1) as Hg. destruct (http_fetch_manifest server reg id _ n1) as [n2 [fresh|]]; cbn [fst] in Hg;
        [|eexists _, _; split; [done|]; split; [cbn in *; lia|done]].
      destruct (negb _ || negb _); [|eexists _, _; split; [done|]; split; [cbn in *; lia|done]].
      destruct (IH fresh true true n2) as (n' & r & E & Hle & Hr); [cbn in *; lia|]. exists n', r. split; [done|]. split; [cbn in *; lia|done].
    + destruct (IH m true refreshed n1) as (n' & r & E & Hle & Hr); [unfold turns in *; destruct refreshed; lia|]. exists n', r.
      split; [done|]. split; [unfold requests, turns in *; destruct refreshed; lia|done].
Qed.

#[global] Instance http_law : DownloadLaw 4 (http_port server reg).
Proof. constructor. intros m n. by apply (download_loop_ends DOWNLOAD_FUEL m false false n). Qed.

End Http.

Context (server : nat -> text -> Reply) (fs_exists : text -> bool) (fs_read : text -> option (list Z)).

Lemma load_bundle_checked e m b : load_bundle fs_read e m = Ok b -> bundle_checked b /\ b_manifest b = as_manifest e m.
Proof.
  unfold load_bundle. destruct (fs_read (artifact_path e)) as [bytes|]; [|done]. cbn.
  destruct (hex_decode (checksum_hex e)) as [expected|] eqn:He; [|done]. cbn. case_bool_decide as Hd; cbn [negb]; [|done].
  destruct (if bool_decide _ then _ else _); [|done]. cbn. by intros [= <-].
Qed.

#[global] Instance local_law r : DownloadLaw 0 (local_port fs_exists fs_read r).
Proof.
  constructor. intros m n. eexists _, _. split; [reflexivity|]. split; [lia|]. intros b. unfold local_download.
  destruct (ModuleId_new (lit (m_id m))); [|done]. intros H. apply result_bind_ok_inv in H as (lm & _ & H).
  apply result_bind_ok_inv in H as (e & _ & H). by apply load_bundle_checked in H as [].
Qed.

#[global] Instance composite_law ks sources : Forall2 DownloadLaw ks sources -> DownloadLaw (sum_list ks) (composite_port sources).
Proof.
  intros H. constructor. cbn. induction H as [|k p ks sources Hp _ IH]; intros m n; cbn; [eexists _, _; split; [done|]; split; [lia|done]|].
  destruct (download_law (p := p) m n) as (n1 & r & -> & Hle & Hr).
  destruct r as [b|[]]; try (eexists _, _; split; [done|]; split; [lia|]; auto).
  destruct (IH m n1) as (n' & r' & E & Hle' & Hr'). exists n', r'. split; [done|]. split; [lia|done].
Qed.

(** C34: The registry the boot builds ends every download: after at most four
    requests (three downloads and one question for a fresh manifest) it
    gives an error, or a bundle with the SHA-256 digest that the manifest
    in the bundle names. *)
Theorem downloads_end_checked (h : Host) (c : ModuleRegistrySection) (p : ModuleRegistryPort Net) (m : ModuleManifest) (n : Net) :
  boot_registry h server fs_exists fs_read c = Ok p ->
  exists n' r, po_download p m n = Some (n', r) /\ (length (sent n') <= length (sent n) + 4)%nat /\ forall b, r = Ok b -> bundle_checked b.
Proof.
  unfold boot_registry. intros H. apply result_bind_ok_inv in H as (remote & _ & [= <-]).
  pose proof (λ k p, @download_law k p) as L.
  destruct (allow_offline c); cbn [app]; [destruct (try_new fs_exists c) as [r|]|]; cbn [app]; try apply (L 4%nat), _.
  apply (L 4%nat), (composite_law [0; 4]%nat [local_port fs_exists fs_read r; http_port server remote]).
  apply Forall2_cons; split; [apply _|]. apply Forall2_cons; split; [apply _|constructor].
Qed.

(** ** Local directories *)

Lemma later_spec `{!SemverLaws SV} acc x :
  exists e, later acc x = Some e /\ (e = x \/ acc = Some e) /\ (forall y, y = x \/ acc = Some y -> compare_versions (lv_version e) (lv_version y) <> Lt).
Proof.
  pose proof key_cmp_laws as [ce co ct]. unfold later. destruct acc as [a|].
  - destruct (compare_versions (lv_version a) (lv_version x)) eqn:E; rewrite compare_versions_key in E; eexists; (split; [done|]);
      (split; [by auto|]); intros y [->|[= <-]]; rewrite compare_versions_key, ?E, ?(proj2 (ce _ _) eq_refl); try done.
    + by rewrite co, E.
    + by rewrite co, E.
  - eexists. split; [done|]. split; [by auto|]. intros y [->|]; [|done]. by rewrite compare_versions_key, (proj2 (ce _ _) eq_refl).
Qed.

Lemma newest_from `{!SemverLaws SV} l acc :
  match foldl later acc l with
  | None => acc = None /\ l = []
  | Some e => (e ∈ l \/ acc = Some e) /\ (forall x, x ∈ l \/ acc = Some x -> compare_versions (lv_version e) (lv_version x) <> Lt)
  end.
Proof.
  pose proof key_cmp_laws as L. revert acc. induction l as [|x l IH]; intros acc; cbn.
  - destruct acc as [a|]; [|done]. split; [by auto|]. intros y [[]%elem_of_nil|[= <-]]. rewrite compare_versions_key.
    destruct L as [ce _ _]. by rewrite (proj2 (ce _ _) eq_refl).
  - destruct (later_spec acc x) as (e1 & E1 & Ho & Hm). rewrite E1. specialize (IH (Some e1)). destruct (foldl later (Some e1) l) as [e|];
      [|by destruct IH].
    destruct IH as [Hin Hall]. split; [destruct Hin as [|[= <-]]; [set_solver|destruct Ho as [->|]; set_solver]|].
    assert (Hs : forall y, y = x \/ acc = Some y -> compare_versions (lv_version e) (lv_version y) <> Lt).
    { intros y Hy. specialize (Hm y Hy). specialize (Hall e1 (or_intror eq_refl)). rewrite compare_versions_key in *. by eapply cmp_not_lt_up. }
    intros y [[->|]%elem_of_cons|]; auto.
Qed.

(** [e] is the newest entry of [l]. *)
Definition is_newest (l : list LocalModuleVersion) (e : LocalModuleVersion) : Prop :=
  e ∈ l /\ forall x, x ∈ l -> compare_versions (lv_version e) (lv_version x) <> Lt.
Lemma newest_is `{!SemverLaws SV} l :
  match newest l with Some e => is_newest l e | None => l = [] end.
Proof.
  unfold newest, is_newest. pose proof (newest_from l None) as H. destruct (foldl later None l); [|by destruct H].
  destruct H as [[|] H]; [|done]. by auto.
Qed.

Lemma loaded_module_newest `{!SemverLaws SV} r m :
  m ∈ load_modules fs_exists fs_read r -> is_newest (lo_versions m) (lo_latest m).
Proof.
  unfold load_modules, ok_entries. intros (res & Hr & E)%list_elem_of_omap. apply list_elem_of_fmap in Hr as (root & -> & _).
  destruct (manifest_load fs_read root) as [f|]; [|done]. cbn in E. unfold from_manifest in E.
  destruct (ModuleId_new (lit (lf_id f))); [|done]. case_bool_decide; [done|].
  pose proof (newest_is (ok_entries (from_entry fs_exists root (lf_id f) <$> lf_versions f))) as H'. destruct (newest _); [|done]. cbn in E. by injection E as <-.
Qed.

(** Of the local directories a search, and a fetch that names no version,
    give the newest version of each module; [distribution_targets] gives,
    for each module with a version whose requirement the host meets, the
    newest of those, and no module without one. *)
Theorem local_source_gives_newest `{!SemverLaws SV} (r : LocalModuleRegistry) (fenrir_version : text) (host : Version) :
  semver_parse fenrir_version = Some host ->
  (forall id mf, local_fetch fs_exists fs_read r id None = Ok mf ->
     exists m e, m ∈ load_modules fs_exists fs_read r /\ lo_id m = id /\ is_newest (lo_versions m) e /\ mf = as_manifest e m)
  /\ (forall m, m ∈ load_modules fs_exists fs_read r -> exists s, s ∈ local_search fs_exists fs_read r None
        /\ su_id s = lo_id m /\ su_version s = lv_version (lo_latest m) /\ is_newest (lo_versions m) (lo_latest m))
  /\ exists ts, local_targets fs_exists fs_read r fenrir_version = Ok ts
     /\ forall t, t ∈ ts <-> exists m e, m ∈ load_modules fs_exists fs_read r /\ t = mkTarget (lo_id m) (lv_version e)
          /\ newest (List.filter (λ e, is_compatible_with e host) (lo_versions m)) = Some e
          /\ is_newest (List.filter (λ e, is_compatible_with e host) (lo_versions m)) e.
Proof.
  intros Hh. split; [|split].
  - intros id mf H. apply result_bind_ok_inv in H as (m & Hm & H). cbn in H. injection H as <-.
    unfold find_module in Hm. destruct (List.find _ _) as [m'|] eqn:E; [|done]. injection Hm as <-.
    apply List.find_some in E as [Hin Hid%bool_decide_eq_true]. apply list_elem_of_In in Hin. exists m', (lo_latest m').
    split; [done|]. split; [by apply (inj id_text)|]. split; [by eapply loaded_module_newest|done].
  - intros m Hm. eexists. split; [|split; [|split; [|by eapply loaded_module_newest]]].
    + unfold local_search. apply list_elem_of_fmap. exists m. split; [reflexivity|]. apply list_elem_of_In, filter_In.
      split; [by apply list_elem_of_In|done].
    + done.
    + done.
  - unfold local_targets. rewrite Hh. cbn. eexists. split; [done|]. intros t. rewrite list_elem_of_omap. split.
    + intros (m & Hm & E). pose proof (newest_is (List.filter (λ e, is_compatible_with e host) (lo_versions m))) as Hn.
      destruct (newest _) as [e|] eqn:En; [|done]. cbn in E. injection E as <-. by exists m, e.
    + intros (m & e & Hm & -> & E & _). exists m. split; [done|]. by rewrite E.
Qed.

(** ** A local manifest is downloaded as it was fetched *)

Lemma lit_str_of t : Forall (λ c, 0 <= c < 128) t -> lit (str_of t) = t.
Proof. apply bytes_of_ascii. Qed.

(** A manifest that a local source gave for a requested version is the
    manifest in the bundle that the source gives for it. *)
Theorem local_manifest_roundtrip (r : LocalModuleRegistry) (id : ModuleId) (v : Version) (mf : ModuleManifest) (b : ModuleBundle) :
  id_ok id ->
  local_fetch fs_exists fs_read r id (Some v) = Ok mf -> local_download fs_exists fs_read r mf = Ok b ->
  b_manifest b = mf /\ m_version mf = v /\ ModuleId_new (lit (m_id mf)) = Ok id.
Proof.
  intros Hid Hf Hd. apply result_bind_ok_inv in Hf as (m & Hm & Hf). apply result_bind_ok_inv in Hf as (e & He & Hf). injection Hf as <-.
  assert (Hmid : lo_id m = id).
  { unfold find_module in Hm. destruct (List.find _ _) as [m'|] eqn:E; [|done]. injection Hm as <-.
    apply List.find_some in E as [_ Hi%bool_decide_eq_true]. by apply (inj id_text). }
  assert (Hv : lv_version e = v).
  { unfold pick_version in He. destruct (List.find _ _) as [e'|] eqn:E; [|done]. injection He as <-.
    by apply List.find_some in E as [_ Hi%bool_decide_eq_true]. }
  assert (Hn : ModuleId_new (lit (m_id (as_manifest e m))) = Ok id).
  { cbn [as_manifest m_id]. rewrite Hmid, lit_str_of by apply id_chars_ascii, Hid. by apply module_id_new_ok. }
  split; [|done]. unfold local_download in Hd. rewrite Hn, Hm in Hd. cbn [result_bind] in Hd. cbn [as_manifest m_version] in Hd. rewrite Hv, He in Hd.
  by apply load_bundle_checked in Hd as [_ ?].
Qed.

End Downloads.

(** ** A search over several sources *)

Section Search.
Context {S : Type}.
Implicit Types (sources : list (ModuleRegistryPort S)) (s : S).

(** The sources, asked in turn, gave these answers. *)
Inductive answered (pattern : option text) : list (ModuleRegistryPort S) -> S -> list (list ModuleSummary) -> S -> Prop :=
  | answered_nil s : answered pattern [] s [] s
  | answered_cons p sources s s1 s2 entries answers :
      po_search p pattern s = (s1, Ok entries) -> answered pattern sources s1 answers s2 -> answered pattern (p :: sources) s (entries :: answers) s2.

(** The first entry of a module. *)
Definition entry_of (id : ModuleId) (l : list ModuleSummary) : option ModuleSummary := List.find (λ x, bool_decide (su_id x = id)) l.

Lemma entry_of_app id a b : entry_of id (a ++ b) = match entry_of id a with Some x => Some x | None => entry_of id b end.
Proof. unfold entry_of. induction a as [|x a IH]; [done|]. cbn. by destruct (bool_decide (su_id x = id)). Qed.
Lemma entry_of_none id l : entry_of id l = None <-> id ∉ (su_id <$> l).
Proof.
  unfold entry_of. induction l as [|x l IH]; cbn; [set_solver|]. case_bool_decide as E; [subst; set_solver|]. rewrite IH. set_solver.
Qed.

(** [acc] holds the first entry of each module of [l], once. *)
Definition holds_first (acc : gset text * list ModuleSummary) (l : list ModuleSummary) : Prop :=
  (forall id, id_text id ∈ acc.1 <-> id ∈ (su_id <$> acc.2)) /\ NoDup (su_id <$> acc.2) /\ forall id, entry_of id acc.2 = entry_of id l.

Lemma add_unseen_first acc l x : holds_first acc l -> holds_first (add_unseen acc x) (l ++ [x]).
Proof.
  intros (Hset & Hnd & He). unfold add_unseen. case_bool_decide as Hin.
  - split; [done|]. split; [done|]. intros id. rewrite entry_of_app, <- He. destruct (entry_of id acc.2) eqn:E; [done|].
    apply entry_of_none in E. unfold entry_of. cbn. case_bool_decide as Hid; [|done]. subst id. by apply Hset in Hin.
  - unfold holds_first. cbn [fst snd]. rewrite fmap_app. cbn. split; [|split].
    + intros id. rewrite elem_of_union, elem_of_singleton, Hset, elem_of_app, list_elem_of_singleton. split; intros [E|E]; auto.
      * right. by apply (inj id_text).
      * left. by subst.
    + apply NoDup_app. split; [done|]. split; [|apply NoDup_singleton]. intros id Hid ->%list_elem_of_singleton. by apply Hin, Hset.
    + intros id. by rewrite !entry_of_app, He.
Qed.
Lemma add_all_first entries acc l : holds_first acc l -> holds_first (foldl add_unseen acc entries) (l ++ entries).
Proof.
  revert acc l. induction entries as [|x entries IH]; intros acc l H; cbn; [by rewrite app_nil_r|].
  rewrite (cons_middle x l entries), app_assoc. by apply IH, add_unseen_first.
Qed.

Lemma search_from_first sources pattern acc l s s' res :
  holds_first acc l -> search_from sources pattern acc s = (s', Ok res) ->
  exists answers, answered pattern sources s answers s' /\ NoDup (su_id <$> res) /\ forall id, entry_of id res = entry_of id (l ++ concat answers).
Proof.
  revert acc l s. induction sources as [|p sources IH]; intros acc l s H; cbn.
  - intros [= <- <-]. exists []. split; [constructor|]. cbn. rewrite app_nil_r. destruct H as (_ & ? & ?). done.
  - destruct (po_search p pattern s) as [s1 [entries|e]] eqn:E; [|done]. intros Hs.
    destruct (IH _ _ _ (add_all_first entries acc l H) Hs) as (answers & Ha & Hn & He). exists (entries :: answers).
    split; [by econstructor|]. split; [done|]. intros id. cbn. by rewrite He, app_assoc.
Qed.

(** A search over several sources lists no module twice, and for each module
    that some source lists, the entry of the first source that lists it. *)
Theorem search_lists_each_once sources pattern s s' res :
  po_search (composite_port sources) pattern s = (s', Ok res) ->
  exists answers, answered pattern sources s answers s' /\ NoDup (su_id <$> res) /\ forall id, entry_of id res = entry_of id (concat answers).
Proof. apply (search_from_first sources pattern (∅, []) []). split; [cbn; set_solver|]. split; [constructor|done]. Qed.

End Search.

(** ** The token of the registry *)

(** A token of the form [env:VAR] resolves as the configuration's secrets
    do: the same value, refused together, but that a variable set to blank
    text (with no file) is no error and means no token. *)
Theorem registry_token_resolves_as_secret (h : Host) (var key : text) :
  trim (lit "env:" ++ var) = lit "env:" ++ var -> trim var = var ->
  match resolve_secret_from_env h var key, resolve_reference h (lit "env:" ++ var) true with
  | Ok a, Ok b => a = b
  | Err _, Err _ => True
  | Err _, Ok b => b = [] /\ (exists v, host_var h var = Some v /\ trim v = []) /\ non_empty (host_var h (var ++ lit "_FILE")) = None
  | Ok _, Err _ => False
  end.
Proof.
  intros H1 H2. unfold resolve_reference. rewrite H1. cbn [lit].
  rewrite bool_decide_false by done. change (strip_prefix (lit "env:") (lit "env:" ++ var)) with (Some var). cbn zeta iota. rewrite H2.
  unfold resolve_secret_from_env.
  destruct (non_empty (host_var h var)) as [d|] eqn:Ed, (non_empty (host_var h (var ++ lit "_FILE"))) as [f|] eqn:Ef; cbn; try done.
  - assert (Hf : trim f = f).
    { unfold non_empty in Ef. destruct (host_var h (var ++ lit "_FILE")); [|done]. cbn in Ef. case_bool_decide; [done|]. injection Ef as <-. apply trim_idemp. }
    rewrite Hf. destruct (h_read h f) as [raw|]; [|done]. by case_bool_decide.
  - destruct (host_var h var) as [v|] eqn:Ev; cbn.
    + cbn in Ed. case_bool_decide as Hb; [|done]. repeat case_match; try done; naive_solver.
    + repeat case_match; done.
Qed.

(** ** Limits *)

Section Limits.
Context {RL : RegistryLibs} {VC : VerifierCrypto} {SV : Semver}.

(** A requirement of a local version that cannot be parsed is taken for
    none: the version counts as compatible with every host. *)
Theorem unreadable_requirement_admits_all (fs_exists : text -> bool) (root : text) (id : string) (v : LocalManifestVersion) (e : LocalModuleVersion)
    (least : text) (host : Version) :
  lm_fenrir_min v = Some least -> lm_fenrir_max v = None -> req_parse (lit ">=" ++ least) = None ->
  from_entry fs_exists root id v = Ok e -> is_compatible_with e host = true.
Proof.
  intros Hmin Hmax Hreq H. apply result_bind_ok_inv in H as (parsed & _ & H). cbn zeta in H. destruct (negb (fs_exists _)); [done|].
  apply result_bind_ok_inv in H as (c & _ & H). injection H as <-. unfold is_compatible_with. cbn [fenrir_req]. unfold parse_fenrir_version_req.
  by rewrite Hmin, Hmax, Hreq.
Qed.

(** A manifest whose artifact has an absolute URL is downloaded from there,
    whatever the host, with the token of the registry. *)
Theorem token_goes_to_the_manifest_host (server : nat -> text -> Reply) (reg : HttpModuleRegistry) (m : ModuleManifest) (n : Net) :
  starts_with (lit "https://") (download_url (m_artifact m)) = true ->
  sent (download_once server reg m n).1 = sent n ++ [mkRequest (download_url (m_artifact m)) (hr_token reg)].
Proof.
  intros H. unfold download_once, resolve_url. rewrite H, orb_true_r. cbn [http_get]. by destruct (server (length (sent n)) (download_url (m_artifact m))).
Qed.
End Limits.

(** ** Concrete runs *)

Section Runs.
(** Versions of one digit; digests that are sums; texts as their own hex. *)
#[local] Instance run_semver : Semver := demo_semver.
#[local] Instance run_semver_laws : SemverLaws run_semver.
Proof. split; apply text_cmp_laws. Qed.
#[local] Instance run_crypto : VerifierCrypto := {|
  VerifyingKey := unit; sha256_of := λ l, [foldr Z.add 0 l]; base64_decode := Some; key_from_bytes := λ _, Some tt; ed25519_verify := λ _ _ _, true |}.
Definition digit_version (d : Z) : Version := mkVersion d 0 0 [] [].
Definition info (id : string) := mkModuleInfo id "Web" None None.
Definition offer (d : Z) (url : string) (sum : Z) := mkVersionInfo [48 + d] None None (lit url) [sum] None 0.
Definition web_module : RegistryModule := mkRegistryModule (info "web") [offer 1 "/web-1.tgz" 6; offer 2 "/web-2.tgz" 7] (Some [50]).
Definition other_module : RegistryModule := mkRegistryModule (info "other") [offer 1 "https://elsewhere/x.tgz" 6] None.
Definition local_versions := [mkLocalVersion [49] (Some [0]) None None (Some (lit "a/web-1.tgz")) (Some [6]) None None;
                              mkLocalVersion [51] None (Some (lit "x")) None (Some (lit "a/web-3.tgz")) (Some [9]) None None].
#[local] Instance run_libs : RegistryLibs := {|
  semver_parse := λ t, match t with [c] => Some (digit_version (c - 48)) | _ => None end;
  semver_display := λ v, [48 + major v];
  req_parse := λ _, None; hex_decode := Some; header_ok := λ _, true; pem_ok := λ _, true;
  url_join := λ base url, Ok (base ++ url); url_encode := λ t, t;
  json_module := λ b, match b with [1] => Some web_module | [2] => Some other_module | _ => None end;
  json_modules := λ b, match b with [1] => Some [web_module] | _ => None end;
  toml_manifest := λ _, Some (mkLocalFile "web" None None None None local_versions);
  rfc3339_seconds := λ _, Some (-1) |}.

Definition settings := mkModuleRegistry (lit "http://reg/") true [lit "mods"] (Some (lit "secret")) (mkRegistryTls None None None false).
Definition run_host : Host := mkHost [] (λ _, Err []).
Definition run_exists (p : text) : bool := negb (bool_decide (p = lit "mods/web-2.tgz")).
Definition run_read (p : text) : option (list Z) := if bool_decide (p = lit "mods/web-3.tgz") then Some [4; 5] else Some [1; 2; 3].
Definition reg : HttpModuleRegistry := mkHttpRegistry (lit "http://reg") (Some (lit "secret")) None None false.
Definition id_web : ModuleId := mkId (lit "web").
Definition no_net : Net := mkNet [].
(** A server that first sends a broken archive, then the right one. *)
Definition flaky (k : nat) (url : text) : Reply :=
  if bool_decide (url = lit "http://reg/v1/modules/web") then Replied 200 [Some [1]]
  else match k with 1%nat => Replied 200 [Some [9]] | _ => Replied 200 [Some [1; 2]; Some [3]] end.
Definition web_manifest : ModuleManifest := manifest_of web_module (offer 1 "/web-1.tgz" 6) (digit_version 1).

Definition mods : LocalModuleRegistry := mkLocalRegistry [lit "mods"].
Definition chain (server : nat -> text -> Reply) : ModuleRegistryPort Net := composite_port [local_port run_exists run_read mods; http_port server reg].
Lemma booted server : boot_registry run_host server run_exists run_read settings = Ok (chain server).
Proof. reflexivity. Qed.

Lemma downloads_end_checked_witness :
  exists n' r, po_download (chain flaky) web_manifest no_net = Some (n', r) /\ (length (sent n') <= 4)%nat /\ forall b, r = Ok b -> bundle_checked b.
Proof. exact (downloads_end_checked flaky run_exists run_read run_host settings (chain flaky) web_manifest no_net (booted flaky)). Defined.

(** A first mismatch is retried: two requests, and the bundle. *)
Example mismatch_is_retried :
  (λ r, (length (sent r.1), match r.2 with Ok b => b_archive b | Err _ => [] end))
    <$> http_download flaky reg web_manifest (mkNet [mkRequest [] None]) = Some (3%nat, [1; 2; 3]).
Proof. vm_compute. reflexivity. Qed.

Lemma local_source_gives_newest_witness :
  exists m e, m ∈ load_modules run_exists run_read mods /\ lo_id m = id_web /\ is_newest (lo_versions m) e /\ lv_version e = digit_version 3.
Proof.
  destruct (proj1 (local_source_gives_newest (RL := run_libs) run_exists run_read mods [53] (digit_version 5) eq_refl) id_web _ eq_refl) as (m & e & Hm & Hid & Hn & E).
  exists m, e. split; [exact Hm|]. split; [exact Hid|]. split; [exact Hn|]. symmetry. exact (f_equal m_version E).
Defined.

Lemma local_manifest_roundtrip_witness :
  exists mf b, local_fetch run_exists run_read mods id_web (Some (digit_version 1)) = Ok mf /\ local_download run_exists run_read mods mf = Ok b
    /\ b_manifest b = mf /\ m_version mf = digit_version 1.
Proof.
  do 2 eexists. split; [reflexivity|]. split; [vm_compute; reflexivity|].
  edestruct (local_manifest_roundtrip (RL := run_libs) (VC := run_crypto) run_exists run_read mods id_web (digit_version 1)) as (H1 & H2 & _);
    [split; [done|reflexivity]|reflexivity|vm_compute; reflexivity|]. split; [exact H1|exact H2].
Defined.

Lemma search_lists_each_once_witness :
  exists s' res, po_search (composite_port [local_port run_exists run_read mods; http_port (λ _ _, Replied 200 [Some [1]]) reg]) None no_net = (s', Ok res)
    /\ NoDup (su_id <$> res) /\ su_version <$> res = [digit_version 3].
Proof.
  do 2 eexists. split; [vm_compute; reflexivity|]. split; [|reflexivity].
  edestruct (search_lists_each_once [local_port run_exists run_read mods; http_port (λ _ _, Replied 200 [Some [1]]) reg] None no_net)
    as (answers & _ & Hn & _); [vm_compute; reflexivity|exact Hn].
Defined.

Lemma registry_token_resolves_as_secret_witness :
  resolve_reference (mkHost [(lit "TOKEN", lit " ")] (λ _, Err [])) (lit "env:TOKEN") true = Ok []
  /\ match resolve_secret_from_env (mkHost [(lit "TOKEN", lit "a")] (λ _, Err [])) (lit "TOKEN") [],
           resolve_reference (mkHost [(lit "TOKEN", lit "a")] (λ _, Err [])) (lit "env:TOKEN") true with
     | Ok a, Ok b => a = b | Err _, Err _ => True | _, _ => False end.
Proof.
  split; [vm_compute; reflexivity|].
  exact (registry_token_resolves_as_secret (mkHost [(lit "TOKEN", lit "a")] (λ _, Err [])) (lit "TOKEN") [] eq_refl eq_refl).
Defined.

Lemma unreadable_requirement_admits_all_witness :
  exists e, from_entry run_exists (lit "mods") "web" (mkLocalVersion [51] None (Some (lit "x")) None (Some (lit "a/web-3.tgz")) (Some [9]) None None) = Ok e
    /\ is_compatible_with e (digit_version 1) = true.
Proof.
  eexists. split; [reflexivity|].
  refine (unreadable_requirement_admits_all (RL := run_libs) run_exists (lit "mods") "web" _ _ (lit "x") (digit_version 1) _ _ _ (eq_refl (from_entry run_exists (lit "mods") "web" (mkLocalVersion [51] None (Some (lit "x")) None (Some (lit "a/web-3.tgz")) (Some [9]) None None))));
    reflexivity.
Defined.

Lemma token_goes_to_the_manifest_host_witness :
  sent (download_once flaky reg (manifest_of other_module (offer 1 "https://elsewhere/x.tgz" 6) (digit_version 1)) no_net).1
  = [mkRequest (lit "https://elsewhere/x.tgz") (Some (lit "secret"))].
Proof. apply (token_goes_to_the_manifest_host flaky reg (manifest_of other_module (offer 1 "https://elsewhere/x.tgz" 6) (digit_version 1))). reflexivity. Defined.

(** A fetch by HTTP takes the module that the server answers with: the id in
    the answer is not compared with the id asked for. *)
Theorem fetch_takes_any_module :
  exists mf, (http_fetch_manifest (λ _ _, Replied 200 [Some [2]]) reg id_web None no_net).2 = Ok mf /\ m_id mf = "other"%string.
Proof. eexists. split; vm_compute; reflexivity. Qed.

(** The version that a search shows (the server's latest) is not the one a
    fetch without a version takes (the first of the server's list). *)
Theorem search_and_fetch_differ :
  exists shown mf, (http_search (λ _ _, Replied 200 [Some [1]]) reg None no_net).2 = Ok [shown] /\ su_id shown = id_web
    /\ (http_fetch_manifest (λ _ _, Replied 200 [Some [1]]) reg id_web None no_net).2 = Ok mf
    /\ su_version shown = digit_version 2 /\ m_version mf = digit_version 1.
Proof. do 2 eexists. repeat split; vm_compute; reflexivity. Qed.

(** When the registry over HTTP cannot be reached, a search also fails for
    the modules of the local directories, which a fetch still finds. *)
Theorem offline_search_fails :
  exists p mf, boot_registry run_host (λ _ _, NoReply) run_exists run_read settings = Ok p
    /\ (po_search p None no_net).2 = Err Unavailable /\ (po_fetch p id_web None no_net).2 = Ok mf /\ m_id mf = "web"%string.
Proof. eexists _, _. split; [apply booted|]. repeat split; vm_compute; reflexivity. Qed.

(** A release date before 1970 becomes a date far in the future. *)
Theorem early_release_date_wraps : parse_timestamp (lit "1969-12-31T23:59:59Z") = Some u64_max.
Proof. vm_compute. reflexivity. Qed.

End Runs.
