(* ===== verification/DepotVerify.v ===== *)
(** * From what the depot says to what this host may install
      ([services/depot/verify.rs], the selecting callers of [installer.rs])

    Distributions are fetched from a depot that is not trusted, checked with
    the crate [depot_protocol] (the class [SignedDocuments]), and judged
    against this host.  The depot is the class [DepotSource]: each question
    may change its state [S].  The loop over includes has fuel; [None] is
    that it was used up.  Messages are texts where the code compares them. *)

From S2P Require Import Prelude Text Versions Manifests DepotPlan DepotStore DepotInstaller.

#[local] Open Scope fenrir_scope.

Section Data.
Context `{P : DepotProtocol}.

Record ManifestInclude := mkInclude { in_product : string; in_rule : string; in_version : DepotVersion; in_sha256 : Digest }.
(** What a summary says of a module, and of a distribution. *)
Record ItemSummary := mkItem {
  it_module : string; it_rule : string; it_version : DepotVersion; it_platform : string; it_sha256 : Digest; it_size : Z; it_optional : bool;
}.
Record DistributionSummary := mkSummary {
  ds_product : string; ds_version : DepotVersion; ds_channel : string; ds_platform : string; ds_sha256 : Digest; ds_published_at : text;
  ds_yanked : option (text * text); ds_modules : list ItemSummary; ds_includes : list ManifestInclude;
}.
End Data.

(** What the code uses of the signed documents of [depot_protocol]. *)
Class SignedDocuments (P : DepotProtocol) (SM : SignedManifests P) := {
  PublicKey : Type;
  TrustedKeys : Type;
  trusted_new : list PublicKey -> TrustedKeys;
  trusted_is_empty : TrustedKeys -> bool;
  DistributionId : Type;
  distribution_id_dec :: EqDecision DistributionId;
  id_new : string -> DepotVersion -> DistributionId;
  id_product : DistributionId -> string;
  id_version : DistributionId -> DepotVersion;
  id_show : DistributionId -> text;
  id_parse : text -> option DistributionId;
  name_parse : text -> option string;
  rule_parse : text -> option Rule;
  rule_show : Rule -> text;
  VersionPattern : Type;
  pattern_matches : VersionPattern -> DepotVersion -> bool;
  include_id : ManifestInclude -> DistributionId;
  cd_dist : Checked -> DistributionId;
  cd_version : Checked -> DepotVersion;
  cd_platform : Checked -> string;
  cd_created_at : Checked -> text;
  cd_includes : Checked -> list ManifestInclude;
  cd_yanked : Checked -> option text;
  channel_lt : string -> string -> bool;
  runs_on : string -> string -> bool;
  Detail : Type;
  check_distribution : Detail -> DistributionId -> TrustedKeys -> option Checked;
  check_include : DistributionId -> ManifestInclude -> Checked -> bool;
  check_requirements_for_host : Checked -> list DistributionSummary -> DepotVersion -> list text;
}.

Section Sources.
Context {P : DepotProtocol} {SM : SignedManifests P} {SD : SignedDocuments P SM}.

(** [GET /v1/modules/<name>]: unsigned. *)
Record ArtifactInfo := mkArtifactInfo { a_version : DepotVersion; a_platform : string; a_sha256 : Digest; a_yanked : option text }.
Record UsedIn := mkUsedIn { u_distribution : DistributionId; u_yanked : bool; u_channel : string }.
Record ModuleUsage := mkUsage { us_artifact : ArtifactInfo; us_used_in : list UsedIn }.
Record ModuleInfo := mkModuleInfo { mo_versions : list ModuleUsage }.

Class DepotSource (S : Type) := {
  src_distribution : DistributionId -> S -> S * result (option Detail) DepotError;
  src_distributions : string -> S -> S * result (list DistributionSummary) DepotError;
  src_module : string -> S -> S * result (option ModuleInfo) DepotError;
}.

Record HostPolicy := mkPolicy { po_trusted : TrustedKeys; po_channel : string; po_platform : string; po_fenrir : DepotVersion }.

(** Questions to the depot that may fail, and loops that may not end. *)
Definition V (S A : Type) : Type := S -> option (S * result A DepotError).
Definition vret {S A} (a : A) : V S A := λ s, Some (s, Ok a).
Definition vfail {S A} (e : DepotError) : V S A := λ s, Some (s, Err e).
Definition vlift {S A} (r : result A DepotError) : V S A := λ s, Some (s, r).
Definition ask {S A} (f : S -> S * result A DepotError) : V S A := λ s, Some (f s).
Definition vbind {S A B} (m : V S A) (k : A -> V S B) : V S B :=
  λ s, match m s with
       | None => None
       | Some (s, Ok a) => k a s
       | Some (s, Err e) => Some (s, Err e)
       end.
End Sources.
Notation "x <-- m ;; k" := (vbind m (λ x, k)) (at level 20, m at level 99, k at level 200) : fenrir_scope.

Section Verify.
Context {P : DepotProtocol} {SM : SignedManifests P} {SD : SignedDocuments P SM} {S : Type} {Src : DepotSource S}.
Implicit Types (t : TrustedKeys) (p : HostPolicy) (s : S).

(** ** Fetching *)

Definition fetch_one t (id : DistributionId) : V S Checked :=
  detail <-- ask (src_distribution id);;
  match detail with
  | None => vfail ENotFound
  | Some d => vlift (ok_or (check_distribution d id t) EVerification)
  end.

(** The loop; the end of the queue, where the code pops, is the head. *)
Fixpoint fetch_includes (fuel : nat) t (seen : list DistributionId) (queue : list (DistributionId * ManifestInclude)) (includes : list Checked)
    : V S (list Checked) :=
  match fuel with
  | 0%nat => λ _, None
  | Datatypes.S fuel =>
      match queue with
      | [] => vret includes
      | (parent, include) :: queue =>
          let id := include_id include in
          if bool_decide (id ∈ seen) then fetch_includes fuel t seen queue includes
          else
            checked <-- fetch_one t id;;
            if check_include parent include checked then
              fetch_includes fuel t (id :: seen) (rev ((λ next, (id, next)) <$> cd_includes checked) ++ queue) (includes ++ [checked])
            else vfail EVerification
      end
  end.
Definition fetch_verified (fuel : nat) t (id : DistributionId) : V S VerifiedDistribution :=
  if trusted_is_empty t then vfail EConfig
  else
    root <-- fetch_one t id;;
    includes <-- fetch_includes fuel t [id] (rev ((λ i, (id, i)) <$> cd_includes root)) [];;
    vret (mkVerified root includes).

(** ** This host *)

Definition all (d : VerifiedDistribution) : list Checked := root d :: includes d.
Definition item_of (m : TargetModule) : ItemSummary :=
  mkItem (name m) (t_rule m) (version m) (platform m) (sha256 m) (size m) (optional m).
Definition verified_summary (c : Checked) : DistributionSummary :=
  mkSummary (cd_product c) (cd_version c) (cd_channel c) (cd_platform c) (cd_digest c) (cd_created_at c)
    ((λ reason, (reason, cd_created_at c)) <$> cd_yanked c) (item_of <$> cd_modules c) (cd_includes c).

Definition platform_problem p (m : TargetModule) : option text :=
  if runs_on (platform m) (po_platform p) then None
  else Some (lit (name m) ++ lit " " ++ version_text (version m) ++ lit " is built for " ++ lit (platform m) ++ lit ", this host is " ++ lit (po_platform p)).
(** A [BTreeSet] of texts, in its order. *)
Definition text_le (a b : text) : bool := match text_cmp a b with Gt => false | _ => true end.
Definition text_set (l : list text) : list text := stable_sort text_le (remove_dups l).
Definition platform_problems p (d : VerifiedDistribution) : list text :=
  text_set (omap (platform_problem p) (concat (cd_modules <$> filter (λ c, cd_product c <> FENRIR_PRODUCT) (all d)))).
(** [seen.insert(text)]: the first of equal texts. *)
Definition push_new (acc : list text) (x : text) : list text := if bool_decide (x ∈ acc) then acc else acc ++ [x].
Definition requirement_problems p (d : VerifiedDistribution) : list text :=
  let summaries := verified_summary <$> all d in
  foldl push_new [] (concat ((λ c, check_requirements_for_host c summaries (po_fenrir p)) <$> all d)).
Definition host_problems (d : VerifiedDistribution) p : list text :=
  match cd_yanked (root d) with Some reason => [id_show (cd_dist (root d)) ++ lit " is yanked: " ++ reason] | None => [] end
  ++ (if channel_lt (cd_channel (root d)) (po_channel p)
      then [id_show (cd_dist (root d)) ++ lit " is in channel " ++ lit (cd_channel (root d)) ++ lit " (signed); this host follows " ++ lit (po_channel p)
            ++ lit " and installs " ++ lit (po_channel p) ++ lit " or above"] else [])
  ++ platform_problems p d
  ++ requirement_problems p d.

(** ** What was asked for *)

Inductive DistributionRequest := Exact (id : DistributionId) | Range (product : string) (rule : Rule).
Definition request_parse (args : list text) : option DistributionRequest :=
  match args with
  | [single] =>
      match id_parse single with
      | Some id => Some (Exact id)
      | None => product ← name_parse single; rule ← rule_parse (lit "*"); Some (Range product rule)
      end
  | product :: (_ :: _) as rule_parts =>
      product ← name_parse product; rule ← rule_parse (join (lit " ") (tail rule_parts)); Some (Range product rule)
  | [] => None
  end.

Record Selection := mkSelection { se_distribution : VerifiedDistribution; se_skipped : list text }.

Definition version_le (a b : DepotVersion) : bool := match version_cmp a b with Gt => false | _ => true end.
(** [Vec::dedup]. *)
Fixpoint dedup {A} `{EqDecision A} (l : list A) : list A :=
  match l with
  | x :: ((y :: _) as l') => if bool_decide (x = y) then dedup l' else x :: dedup l'
  | _ => l
  end.
Definition candidates (product : string) (wanted : DepotVersion -> bool) (listed : list DistributionSummary) : list DepotVersion :=
  rev (dedup (stable_sort version_le (ds_version <$> filter (λ x, ds_product x = product /\ wanted (ds_version x) = true) listed))).

Fixpoint first_installable (fuel : nat) p (product : string) (versions : list DepotVersion) (skipped : list text) : V S (result Selection (list text)) :=
  match versions with
  | [] => vret (Err skipped)
  | v :: versions =>
      let id := id_new product v in
      d <-- fetch_verified fuel (po_trusted p) id;;
      match host_problems d p with
      | [] => vret (Ok (mkSelection d skipped))
      | problems => first_installable fuel p product versions (skipped ++ [id_show id ++ lit ": " ++ join (lit "; ") problems])
      end
  end.
Definition newest_installable (fuel : nat) p (product : string) (wanted : DepotVersion -> bool) : V S (result Selection (list text)) :=
  listed <-- ask (src_distributions product);;
  first_installable fuel p product (candidates product wanted listed) [].

Definition select_distribution (fuel : nat) p (request : DistributionRequest) : V S Selection :=
  match request with
  | Exact id =>
      d <-- fetch_verified fuel (po_trusted p) id;;
      match host_problems d p with [] => vret (mkSelection d []) | _ => vfail ERefused end
  | Range product rule =>
      r <-- newest_installable fuel p product (rule_matches rule);;
      match r with
      | Ok sel => vret sel
      | Err skipped => vfail (if bool_decide (skipped = []) then ENotFound else ERefused)
      end
  end.

Definition newer_distribution (fuel : nat) p (current : DistributionId) : V S (option VerifiedDistribution) :=
  λ s, match newest_installable fuel p (id_product current) (λ v, bool_decide (version_cmp v (id_version current) = Gt)) s with
       | None => None
       | Some (s, Ok (Ok sel)) => Some (s, Ok (Some (se_distribution sel)))
       | Some (s, Ok (Err _)) | Some (s, Err ENotFound) | Some (s, Err ERefused) => Some (s, Ok None)
       | Some (s, Err e) => Some (s, Err e)
       end.

(** ** One module *)

Definition matches_artifact (n : string) (a : ArtifactInfo) (m : TargetModule) : bool :=
  bool_decide (name m = n) && bool_decide (version m = a_version a) && bool_decide (sha256 m = a_sha256 a) && bool_decide (platform m = a_platform a).

(** The distributions that use an artifact, in turn: found, given up
    ([break], with a reason), or none. *)
Inductive Search := Found (m : TargetModule) (from : text) | GaveUp (reason : text) | NotThere.
Fixpoint search_uses (fuel : nat) p (n : string) (label : text) (a : ArtifactInfo) (uses : list UsedIn) : V S Search :=
  match uses with
  | [] => vret NotThere
  | u :: uses =>
      d <-- fetch_verified fuel (po_trusted p) (u_distribution u);;
      if bool_decide (is_Some (cd_yanked (root d))) || channel_lt (cd_channel (root d)) (po_channel p) then search_uses fuel p n label a uses
      else match List.find (matches_artifact n a) (target_modules d) with
           | None => search_uses fuel p n label a uses
           | Some m =>
               match req_fenrir (requires m) with
               | Some rule =>
                   if rule_matches rule (po_fenrir p) then vret (Found (with_via None m) (vd_id d))
                   else vret (GaveUp (label ++ lit ": requires fenrir " ++ rule_show rule ++ lit ", but this host runs fenrir " ++ version_text (po_fenrir p)))
               | None => vret (Found (with_via None m) (vd_id d))
               end
           end
  end.

Definition newer_use (x y : UsedIn) : bool := version_le (id_version (u_distribution y)) (id_version (u_distribution x)).
Definition newer_usage (x y : ModuleUsage) : bool := version_le (a_version (us_artifact y)) (a_version (us_artifact x)).
Definition usable p (u : UsedIn) : bool := negb (u_yanked u) && negb (channel_lt (u_channel u) (po_channel p)).

Record ModuleCandidate := mkCandidate { ca_module : TargetModule; ca_from : text }.
Fixpoint search_versions (fuel : nat) p (n : string) (pattern : VersionPattern) (usages : list ModuleUsage) (skipped : list text)
    : V S ModuleCandidate :=
  match usages with
  | [] => vfail (if bool_decide (skipped = []) then ENotFound else ERefused)
  | u :: usages =>
      let a := us_artifact u in
      let label := lit n ++ lit " " ++ version_text (a_version a) in
      if negb (pattern_matches pattern (a_version a)) || negb (runs_on (a_platform a) (po_platform p)) then search_versions fuel p n pattern usages skipped
      else match a_yanked a with
      | Some reason => search_versions fuel p n pattern usages (skipped ++ [label ++ lit ": yanked (" ++ reason ++ lit ")"])
      | None =>
          found <-- search_uses fuel p n label a (List.filter (usable p) (stable_sort newer_use (us_used_in u)));;
          match found with
          | Found m from => vret (mkCandidate m from)
          | GaveUp reason => search_versions fuel p n pattern usages (skipped ++ [reason])
          | NotThere =>
              let reported := match last skipped with Some l => starts_with label l | None => false end in
              search_versions fuel p n pattern usages
                (if reported then skipped
                 else skipped ++ [label ++ lit ": in no verified distribution of channel " ++ lit (po_channel p) ++ lit " or above"])
          end
      end
  end.
Definition select_module (fuel : nat) p (n : string) (pattern : VersionPattern) : V S ModuleCandidate :=
  info <-- ask (src_module n);;
  match info with
  | None => vfail ENotFound
  | Some info => search_versions fuel p n pattern (stable_sort newer_usage (mo_versions info)) []
  end.

(** ** The selecting callers *)

Context {H : Type} {MH : ModuleHost P H}.
Context (inspect : list Z -> result BundleInfo DepotError) (src : BlobSource).
(** A selection, then a preparation over the files. *)
Definition then_prepare {A} (m : V S A) (k : A -> M H Prepared) (s : S) (w : World H) : option (S * (result Prepared DepotError * World H)) :=
  match m s with
  | None => None
  | Some (s, Ok a) => Some (s, k a w)
  | Some (s, Err e) => Some (s, (Err e, w))
  end.
Definition prepare_distribution (fuel : nat) p (request : DistributionRequest) :=
  then_prepare (select_distribution fuel p request) (λ sel, prepare_verified inspect src (se_distribution sel) false).
Definition prepare_module (fuel : nat) p (n : string) (pattern : VersionPattern) :=
  then_prepare (select_module fuel p n pattern) (λ c, prepare_selected inspect src (ca_module c) (ca_from c)).

Definition set_title (x : Prepared) (ti : text) : Prepared :=
  mkPrepared (intent x) (mkPlan ti (entries (plan x)) (problems (plan x))) (staged x) (downloaded x).
(** [prepare_rollback]: the backup, else the previous distribution again.
    The state is the one read first; [prepare_restore] reads the same file. *)
Definition prepare_rollback (fuel : nat) p (s : S) (w : World H) : option (S * (result Prepared DepotError * World H)) :=
  match prepare_restore w with
  | (Err e, w) => Some (s, (Err e, w))
  | (Ok (Some x), w) => Some (s, (Ok x, w))
  | (Ok None, w') =>
      match load w with
      | (Ok st, _) =>
          match current st, previous st with
          | Some cur, Some prev =>
              match id_parse (d_id prev) with
              | None => Some (s, (Err EIo, w'))
              | Some id =>
                  then_prepare (select_distribution fuel p (Exact id))
                    (λ sel w, match prepare_verified inspect src (se_distribution sel) true w with
                              | (Ok x, w) => (Ok (set_title x (lit "rollback " ++ d_id cur ++ [32; 0x2192; 32] ++ d_id prev)), w)
                              | (Err e, w) => (Err e, w)
                              end) s w'
              end
          | _, _ => Some (s, (Err ERefused, w'))
          end
      | (Err e, _) => Some (s, (Err e, w'))
      end
  end.

End Verify.
