(* ===== verification/DepotVerifySafety.v ===== *)
(** * What a selection of the depot guarantees

    Theorems on [DepotVerify]: fetching ends when the signed releases are
    finitely many; what is fetched is signed and, include by include, bound
    to what refers to it; what is selected has no problem on this host, and
    of a range it is the newest such; a module comes out of a verified
    distribution of the host's channel.  The limit: only the first reference
    to an included distribution has its digest checked. *)

From S2P Require Import Prelude Text Versions Manifests DepotPlan DepotStore DepotInstaller DepotVerify.

#[local] Open Scope fenrir_scope.

Section Safety.
Context {P : DepotProtocol} {SM : SignedManifests P} {SD : SignedDocuments P SM} {S : Type} {Src : DepotSource S}.
Implicit Types (t : TrustedKeys) (p : HostPolicy) (s : S).

(** ** Fetching ends *)

(** With enough fuel there is a result, and more fuel does not change it. *)
Definition ends {A} (m : nat -> V S A) s : Prop := exists r f, forall f', (f <= f')%nat -> m f' s = Some r.

Lemma ends_bind {A B} (m : nat -> V S A) (k : A -> nat -> V S B) s :
  ends m s -> (forall a s', ends (k a) s') -> ends (λ f, vbind (m f) (λ a, k a f)) s.
Proof.
  intros ([s1 [a|e]] & f & H) Hk.
  - destruct (Hk a s1) as (r & f2 & H2). exists r, (Nat.max f f2). intros f' Hf. unfold vbind. rewrite H by lia. apply H2. lia.
  - exists (s1, Err e), f. intros f' Hf. unfold vbind. by rewrite H.
Qed.
Lemma ends_const {A} (m : V S A) s : m s <> None -> ends (λ _, m) s.
Proof. intros H. destruct (m s) as [r|] eqn:E; [|done]. by exists r, 0%nat. Qed.

Lemma fetch_one_total t id s : fetch_one t id s <> None.
Proof. unfold fetch_one, vbind, ask. by destruct (src_distribution id s) as [s1 [[d|]|e]]. Qed.
Lemma fetch_one_ok t id s s' c : fetch_one t id s = Some (s', Ok c) -> exists d, check_distribution d id t = Some c.
Proof.
  unfold fetch_one, vbind, ask. destruct (src_distribution id s) as [s1 [[d|]|e]]; [|done..]. unfold vlift.
  destruct (check_distribution d id t) as [c'|] eqn:E; [|done]. intros [= _ <-]. by exists d.
Qed.

(** The releases signed with the trusted keys include only these. *)
Definition finite_releases t (U : list DistributionId) : Prop :=
  forall d id c i, check_distribution d id t = Some c -> i ∈ cd_includes c -> include_id i ∈ U.

Lemma unseen_less (U seen : list DistributionId) id :
  id ∈ U -> id ∉ seen -> (length (filter (.∉ id :: seen) U) < length (filter (.∉ seen) U))%nat.
Proof.
  intros HU Hs. induction U as [|x U IH]; [set_solver|]. rewrite !filter_cons.
  assert (Hle : (length (filter (.∉ id :: seen) U) <= length (filter (.∉ seen) U))%nat).
  { clear IH HU. induction U as [|y U IH]; [done|]. rewrite !filter_cons. repeat case_decide; cbn; try lia; set_solver. }
  apply elem_of_cons in HU as [->|HU].
  - rewrite decide_False by set_solver. rewrite decide_True by done. cbn. lia.
  - specialize (IH HU). repeat case_decide; cbn; try lia; set_solver.
Qed.

Lemma fetch_includes_ends t U : finite_releases t U -> forall n queue seen includes s,
  (length (filter (.∉ seen) U) <= n)%nat -> (forall q, q ∈ queue -> include_id q.2 ∈ U) ->
  ends (λ f, fetch_includes f t seen queue includes) s.
Proof.
  intros HU. induction n as [n IHn] using lt_wf_ind. intros queue. induction queue as [|[parent i] queue IHq]; intros seen includes s Hn Hq.
  - exists (s, Ok includes), 1%nat. intros [|f] Hf; [lia|done].
  - assert (Hi : include_id i ∈ U) by (apply (Hq (parent, i)); set_solver).
    assert (Hrest : forall q, q ∈ queue -> include_id q.2 ∈ U) by (intros q ?; apply Hq; set_solver).
    assert (Hstep : ends (λ f, fetch_includes (Datatypes.S f) t seen ((parent, i) :: queue) includes) s).
    { cbn [fetch_includes]. case_bool_decide as Hseen; [by apply IHq|].
      destruct (fetch_one t (include_id i) s) as [[s1 [c|e]]|] eqn:E; [|by exists (s1, Err e), 0%nat; intros f' _; unfold vbind; rewrite E|by apply fetch_one_total in E].
      destruct (check_include parent i c) eqn:Ec; [|exists (s1, Err EVerification), 0%nat; intros f' _; unfold vbind; rewrite E; cbn; by rewrite Ec].
      apply fetch_one_ok in E as Hd. destruct Hd as [d Hd]. pose proof (unseen_less U seen _ Hi Hseen) as Hless.
      destruct (IHn (length (filter (.∉ include_id i :: seen) U)) ltac:(lia)
        (rev ((λ next, (include_id i, next)) <$> cd_includes c) ++ queue) (include_id i :: seen) (includes ++ [c]) s1) as (r & f & H); [done| |].
      - intros q [Hr|]%elem_of_app; [|by auto]. apply list_elem_of_In, in_rev, list_elem_of_In, list_elem_of_fmap in Hr as (next & -> & Hnext). by eapply HU.
      - exists r, f. intros f' Hf. unfold vbind. rewrite E. cbn. rewrite Ec. by apply H. }
    destruct Hstep as (r & f & H). exists r, (Datatypes.S f). intros [|f'] Hf; [lia|]. apply H. lia.
Qed.

Lemma fetch_verified_ends t U id s : finite_releases t U -> ends (λ f, fetch_verified f t id) s.
Proof.
  intros HU. unfold fetch_verified. destruct (trusted_is_empty t); [by apply ends_const|].
  destruct (fetch_one t id s) as [[s1 [c|e]]|] eqn:E; [|by exists (s1, Err e), 0%nat; intros f' _; unfold vbind; rewrite E|by apply fetch_one_total in E].
  apply fetch_one_ok in E as Hd. destruct Hd as [d Hd].
  destruct (fetch_includes_ends t U HU _ (rev ((λ i, (id, i)) <$> cd_includes c)) [id] [] s1 (le_n _)) as ([s2 r] & f & H).
  - intros q Hr. apply list_elem_of_In, in_rev, list_elem_of_In, list_elem_of_fmap in Hr as (next & -> & Hnext). by eapply HU.
  - destruct r as [incs|e].
    + exists (s2, Ok (mkVerified c incs)), f. intros f' Hf. unfold vbind. rewrite E. by rewrite H.
    + exists (s2, Err e), f. intros f' Hf. unfold vbind. rewrite E. by rewrite H.
Qed.

(** ** What is fetched *)

Definition verified_as t (id : DistributionId) (c : Checked) : Prop := exists d, check_distribution d id t = Some c.
(** [c] is what a distribution of [d] includes, and is what it refers to. *)
Definition bound_include t (l : list Checked) (c : Checked) : Prop :=
  exists parent pid i, parent ∈ l /\ verified_as t pid parent /\ i ∈ cd_includes parent /\ verified_as t (include_id i) c /\ check_include pid i c = true.
Definition has_include t (l : list Checked) (i : ManifestInclude) : Prop := exists c, c ∈ l /\ verified_as t (include_id i) c.

Record fetched_ok t (d : VerifiedDistribution) (id : DistributionId) : Prop := {
  fo_trusted : trusted_is_empty t = false;
  fo_root : verified_as t id (root d);
  fo_bound : forall c, c ∈ includes d -> bound_include t (all d) c;
  fo_closed : forall c i, c ∈ all d -> i ∈ cd_includes c -> has_include t (all d) i;
}.

(** The loop: what is seen is there, what is there is bound, and what is
    included is there or queued. *)
Record loop_ok t (r : Checked) (seen : list DistributionId) (queue : list (DistributionId * ManifestInclude)) (incs : list Checked) : Prop := {
  lo_seen : forall id, id ∈ seen -> exists c, c ∈ r :: incs /\ verified_as t id c;
  lo_bound : forall c, c ∈ incs -> bound_include t (r :: incs) c;
  lo_queue : forall q, q ∈ queue -> exists c, c ∈ r :: incs /\ verified_as t q.1 c /\ q.2 ∈ cd_includes c;
  lo_closed : forall c i, c ∈ r :: incs -> i ∈ cd_includes c -> has_include t (r :: incs) i \/ exists q, q ∈ queue /\ q.2 = i;
}.

Lemma bound_include_mono t l l' c : (forall x, x ∈ l -> x ∈ l') -> bound_include t l c -> bound_include t l' c.
Proof. intros Hl (parent & pid & i & ? & ?). exists parent, pid, i. split; [by apply Hl|done]. Qed.

Lemma loop_seen_step t r seen pid i queue incs :
  include_id i ∈ seen -> loop_ok t r seen ((pid, i) :: queue) incs -> loop_ok t r seen queue incs.
Proof.
  intros Hs [Hse Hb Hq Hc]. constructor; [done|done|intros q ?; apply Hq; set_solver|].
  intros c j Hin Hj. destruct (Hc c j Hin Hj) as [|([q1 q2] & Hq2 & <-)]; [by auto|]. apply elem_of_cons in Hq2 as [[= -> ->]|]; [|right; eauto].
  left. by apply Hse.
Qed.
Lemma loop_fetch_step t r seen pid i queue incs c :
  verified_as t (include_id i) c -> check_include pid i c = true -> loop_ok t r seen ((pid, i) :: queue) incs ->
  loop_ok t r (include_id i :: seen) (rev ((λ next, (include_id i, next)) <$> cd_includes c) ++ queue) (incs ++ [c]).
Proof.
  intros Hv Hck [Hse Hb Hq Hc]. assert (Hsub : forall x, x ∈ r :: incs -> x ∈ r :: incs ++ [c]) by set_solver.
  assert (Hnew : c ∈ r :: incs ++ [c]) by set_solver. constructor.
  - intros id [->|Hid]%elem_of_cons; [by exists c|]. destruct (Hse id Hid) as (x & ? & ?). exists x. split; [by apply Hsub|done].
  - intros x [Hx| ->%list_elem_of_singleton]%elem_of_app; [by eapply bound_include_mono, Hb|].
    destruct (Hq (pid, i)) as (parent & Hp & Hvp & Hi); [set_solver|]. exists parent, pid, i. by auto.
  - intros q [Hr|Hr]%elem_of_app.
    + apply list_elem_of_In, in_rev, list_elem_of_In, list_elem_of_fmap in Hr as (next & -> & Hnext). by exists c.
    + destruct (Hq q) as (x & ? & ?); [set_solver|]. exists x. split; [by apply Hsub|done].
  - intros x j Hx Hj. assert (Hx' : x ∈ r :: incs \/ x = c) by set_solver. destruct Hx' as [Hx'| ->].
    + destruct (Hc x j Hx' Hj) as [(y & Hy & Hvy)|([q1 q2] & Hq2 & <-)]; [left; exists y; by auto|].
      apply elem_of_cons in Hq2 as [[= -> ->]|]; [left; by exists c|right]. exists (q1, q2). split; [set_solver|done].
    + right. exists (include_id i, j). split; [|done]. apply elem_of_app. left. apply list_elem_of_In, in_rev. rewrite rev_involutive.
      apply list_elem_of_In, list_elem_of_fmap. by exists j.
Qed.

Lemma fetch_includes_ok t r fuel seen queue incs s s' out :
  loop_ok t r seen queue incs -> fetch_includes fuel t seen queue incs s = Some (s', Ok out) -> exists seen', loop_ok t r seen' [] out.
Proof.
  revert seen queue incs s. induction fuel as [|fuel IH]; intros seen queue incs s Hok; [done|]. cbn [fetch_includes].
  destruct queue as [|[pid i] queue]; [intros [= _ <-]; by exists seen|].
  case_bool_decide as Hs; [apply IH, (loop_seen_step _ _ _ pid i _ _ Hs Hok)|]. unfold vbind.
  destruct (fetch_one t (include_id i) s) as [[s1 [c|e]]|] eqn:E; [|done..]. apply fetch_one_ok in E.
  destruct (check_include pid i c) eqn:Ec; [|done]. apply IH, loop_fetch_step with pid; done.
Qed.

Lemma root_loop_ok t r id : verified_as t id r -> loop_ok t r [id] (rev ((λ i, (id, i)) <$> cd_includes r)) [].
Proof.
  intros Hv. assert (Hq : forall q, q ∈ rev ((λ i, (id, i)) <$> cd_includes r) <-> exists i, q = (id, i) /\ i ∈ cd_includes r).
  { intros q. by rewrite list_elem_of_In, <- in_rev, <- list_elem_of_In, list_elem_of_fmap. }
  constructor.
  - intros j ->%list_elem_of_singleton. exists r. split; [set_solver|done].
  - set_solver.
  - intros q (i & -> & Hi)%Hq. exists r. split; [set_solver|done].
  - intros c i ->%list_elem_of_singleton Hi. right. exists (id, i). split; [apply Hq; eauto|done].
Qed.

Lemma fetch_verified_ok fuel t id s s' d : fetch_verified fuel t id s = Some (s', Ok d) -> fetched_ok t d id.
Proof.
  unfold fetch_verified, vbind. destruct (trusted_is_empty t) eqn:Et; [done|].
  destruct (fetch_one t id s) as [[s1 [r|e]]|] eqn:E; [|done..]. apply fetch_one_ok in E.
  destruct (fetch_includes fuel t [id] _ [] s1) as [[s2 [incs|e]]|] eqn:Ei; [|done..]. intros [= _ <-].
  destruct (fetch_includes_ok t r _ _ _ _ _ _ _ (root_loop_ok t r id E) Ei) as [seen [Hse Hb Hq Hc]].
  constructor; [done|done|done|]. intros c i Hin Hi. destruct (Hc c i Hin Hi) as [|(q & Hq' & _)]; [done|set_solver].
Qed.

(** C13: When the releases signed with the trusted keys are finitely many,
    fetching a distribution ends, and what it gives is signed with a
    trusted key for the id asked for; every included distribution is signed
    and is the one that a distribution of the set refers to; and none that
    one of them includes is missing. *)
Theorem fetched_distribution_is_signed t (U : list DistributionId) (id : DistributionId) s :
  finite_releases t U ->
  exists s' r, (exists f, forall fuel, (f <= fuel)%nat -> fetch_verified fuel t id s = Some (s', r))
    /\ forall d, r = Ok d -> fetched_ok t d id.
Proof.
  intros HU. destruct (fetch_verified_ends t U id s HU) as ([s' r] & f & H). exists s', r. split; [by exists f|].
  intros d ->. by eapply fetch_verified_ok, (H f).
Qed.

(** ** What is selected *)

(** This host may install [d]. *)
Record installable p (d : VerifiedDistribution) : Prop := {
  in_yank : cd_yanked (root d) = None;
  in_channel : channel_lt (cd_channel (root d)) (po_channel p) = false;
  in_platform : cd_product (root d) <> FENRIR_PRODUCT -> forall m, m ∈ target_modules d -> runs_on (platform m) (po_platform p) = true;
  in_requirements : forall c, c ∈ all d -> check_requirements_for_host c (verified_summary <$> all d) (po_fenrir p) = [];
}.

Lemma push_new_nil l acc : foldl push_new acc l = [] <-> acc = [] /\ l = [].
Proof.
  revert acc. induction l as [|x l IH]; intros acc; cbn; [naive_solver|]. rewrite IH. unfold push_new. case_bool_decide.
  - split; [|naive_solver]. intros [-> ->]. set_solver.
  - split; [|naive_solver]. intros [E _]. by destruct acc.
Qed.
Lemma text_set_nil l : text_set l = [] <-> l = [].
Proof.
  unfold text_set. split; [|by intros ->]. intros E. pose proof (stable_sort_perm text_le (remove_dups l)) as Hp. rewrite E in Hp.
  apply Permutation_nil_l in Hp. destruct l as [|x l]; [done|]. assert (x ∈ remove_dups (x :: l)) as Hx by (apply elem_of_remove_dups; set_solver).
  rewrite <- Hp in Hx. set_solver.
Qed.
Lemma target_modules_from d m : m ∈ target_modules d ->
  exists c v m', c ∈ all d /\ (c = root d \/ cd_product c <> FENRIR_PRODUCT) /\ m' ∈ cd_modules c /\ m = with_via v m'.
Proof.
  unfold target_modules. rewrite sort_by_key_perm, elem_of_app, list_elem_of_fmap, list_elem_of_bind. unfold all.
  intros [(m' & -> & Hm)|(c & Hm & Hc)].
  - exists (root d), None, m'. split; [set_solver|]. by auto.
  - apply list_elem_of_filter in Hc as [Hp Hc]. apply list_elem_of_fmap in Hm as (m' & -> & Hm). exists c, (Some (cd_id c)), m'.
    split; [set_solver|]. by auto.
Qed.

Lemma no_problem_installable p d : host_problems d p = [] -> installable p d.
Proof.
  unfold host_problems. intros (Hy & (Hc & (Hp & Hr)%app_nil)%app_nil)%app_nil.
  assert (Hch : channel_lt (cd_channel (root d)) (po_channel p) = false) by (by destruct (channel_lt _ _)).
  assert (Hya : cd_yanked (root d) = None) by (by destruct (cd_yanked (root d))). constructor; [done|done| |].
  - intros Hroot m (c & v & m' & Hin & Hprod & Hm & ->)%target_modules_from. cbn [platform with_via].
    destruct (runs_on (platform m') (po_platform p)) eqn:E; [done|]. exfalso. apply (proj1 (text_set_nil _)) in Hp. apply elem_of_nil with (x := default [] (platform_problem p m')).
    rewrite <- Hp. apply list_elem_of_omap. exists m'. split; [|by unfold platform_problem; rewrite E].
    apply list_elem_of_In, in_concat. exists (cd_modules c). rewrite <- !list_elem_of_In. split; [|done]. apply list_elem_of_fmap. exists c. split; [done|].
    apply list_elem_of_filter. split; [|done]. by destruct Hprod as [->|].
  - intros c Hin. apply push_new_nil in Hr as [_ Hr]. destruct (check_requirements_for_host _ _ _) as [|x l] eqn:E; [done|]. exfalso.
    apply elem_of_nil with (x := x). rewrite <- Hr. apply list_elem_of_In, in_concat. exists (x :: l). rewrite <- !list_elem_of_In.
    split; [|set_solver]. rewrite <- E. apply list_elem_of_fmap. by exists c.
Qed.

(** The versions that were tried before the one that was taken had problems
    on this host. *)
Definition refused_here fuel p (id : DistributionId) : Prop :=
  exists s1 s2 d, fetch_verified fuel (po_trusted p) id s1 = Some (s2, Ok d) /\ host_problems d p <> [].

Lemma first_installable_ok fuel p product versions skipped s s' sel :
  first_installable fuel p product versions skipped s = Some (s', Ok (Ok sel)) ->
  exists before v after, versions = before ++ v :: after /\ Forall (λ v', refused_here fuel p (id_new product v')) before
    /\ fetched_ok (po_trusted p) (se_distribution sel) (id_new product v) /\ installable p (se_distribution sel).
Proof.
  revert skipped s. induction versions as [|v versions IH]; intros skipped s; [done|]. cbn [first_installable]. unfold vbind at 1.
  destruct (fetch_verified fuel (po_trusted p) (id_new product v) s) as [[s1 [d|e]]|] eqn:E; [|done..].
  destruct (host_problems d p) as [|x l] eqn:Ep.
  - intros [= _ <-]. exists [], v, versions. split; [done|]. split; [constructor|]. cbn. split; [by eapply fetch_verified_ok|by apply no_problem_installable].
  - intros H. apply IH in H as (before & w & after & -> & Hb & H). exists (v :: before), w, after. split; [done|]. split; [|done].
    constructor; [|done]. exists s, s1, d. split; [done|]. by rewrite Ep.
Qed.

Lemma dedup_elem {A} `{EqDecision A} (l : list A) x : x ∈ dedup l <-> x ∈ l.
Proof. induction l as [|y [|z l] IH]; [done|done|]. cbn [dedup] in *. case_bool_decide; rewrite ?elem_of_cons, IH, ?elem_of_cons; naive_solver. Qed.
Lemma dedup_sorted {A} `{EqDecision A} (R : A -> A -> Prop) (l : list A) : StronglySorted R l -> StronglySorted R (dedup l).
Proof.
  induction 1 as [|y l Hs IH Hl]; [constructor|]. destruct l as [|z l]; [by repeat constructor|]. cbn [dedup]. case_bool_decide; [done|].
  constructor; [done|]. apply Forall_forall. intros x Hx. apply (proj1 (dedup_elem (z :: l) x)) in Hx.
  rewrite Forall_forall in Hl. by apply Hl.
Qed.

Lemma candidates_elem product wanted listed v :
  v ∈ candidates product wanted listed <-> wanted v = true /\ exists x, x ∈ listed /\ ds_product x = product /\ ds_version x = v.
Proof.
  unfold candidates. rewrite list_elem_of_In, <- in_rev, <- list_elem_of_In, dedup_elem, stable_sort_perm, list_elem_of_fmap.
  split.
  - intros (x & -> & Hx). apply list_elem_of_filter in Hx as [[Hp Hw] Hx]. eauto.
  - intros (Hw & x & Hx & Hp & <-). exists x. split; [done|]. by apply list_elem_of_filter.
Qed.
(** ** One module *)

Lemma search_uses_found fuel p n label a uses s s' m from :
  search_uses fuel p n label a uses s = Some (s', Ok (Found m from)) ->
  exists u d m', u ∈ uses /\ fetched_ok (po_trusted p) d (u_distribution u) /\ from = vd_id d /\ m' ∈ target_modules d /\ m = with_via None m'
    /\ matches_artifact n a m' = true /\ cd_yanked (root d) = None /\ channel_lt (cd_channel (root d)) (po_channel p) = false
    /\ (forall rule, req_fenrir (requires m') = Some rule -> rule_matches rule (po_fenrir p) = true).
Proof.
  revert s. induction uses as [|u uses IH]; intros s; [done|]. cbn [search_uses]. unfold vbind at 1.
  destruct (fetch_verified fuel (po_trusted p) (u_distribution u) s) as [[s1 [d|e]]|] eqn:E; [|done..].
  assert (Hrest : search_uses fuel p n label a uses s1 = Some (s', Ok (Found m from)) -> exists u' d m', u' ∈ u :: uses
    /\ fetched_ok (po_trusted p) d (u_distribution u') /\ from = vd_id d /\ m' ∈ target_modules d /\ m = with_via None m'
    /\ matches_artifact n a m' = true /\ cd_yanked (root d) = None /\ channel_lt (cd_channel (root d)) (po_channel p) = false
    /\ (forall rule, req_fenrir (requires m') = Some rule -> rule_matches rule (po_fenrir p) = true)).
  { intros (u' & d' & m' & Hu & H)%IH. exists u', d', m'. split; [set_solver|done]. }
  destruct (bool_decide _ || _) eqn:Eb; [done|]. apply orb_false_iff in Eb as [Hy%bool_decide_eq_false Hc]. apply eq_None_not_Some in Hy.
  destruct (List.find (matches_artifact n a) (target_modules d)) as [m'|] eqn:Ef; [|done]. apply List.find_some in Ef as [Hin Hm].
  apply list_elem_of_In in Hin. apply fetch_verified_ok in E.
  destruct (req_fenrir (requires m')) as [rule|] eqn:Er; [destruct (rule_matches rule (po_fenrir p)) eqn:Erm; [|done]|];
    intros [= _ <- <-]; exists u, d, m'; (split; [set_solver|]); repeat (split; [done|]); rewrite Er; intros r Hr; by simplify_eq.
Qed.

(** A module that is selected is a module of a distribution that is signed,
    not yanked and in the channel of this host or above; it has the name
    asked for, a version of the pattern, a platform that runs here, and its
    own requirement holds here. *)
Theorem selected_module_is_vouched_for fuel p (n : string) (pattern : VersionPattern) s s' (c : ModuleCandidate) :
  select_module fuel p n pattern s = Some (s', Ok c) ->
  name (ca_module c) = n /\ pattern_matches pattern (version (ca_module c)) = true /\ runs_on (platform (ca_module c)) (po_platform p) = true
  /\ (forall rule, req_fenrir (requires (ca_module c)) = Some rule -> rule_matches rule (po_fenrir p) = true)
  /\ exists id d m, fetched_ok (po_trusted p) d id /\ ca_from c = vd_id d /\ m ∈ target_modules d /\ ca_module c = with_via None m
       /\ cd_yanked (root d) = None /\ channel_lt (cd_channel (root d)) (po_channel p) = false.
Proof.
  unfold select_module, vbind at 1, ask. destruct (src_module n s) as [s1 [[info|]|e]]; [|done..].
  generalize (stable_sort newer_usage (mo_versions info)). intros usages. generalize (@nil text). revert s1.
  induction usages as [|u usages IH]; intros s1 skipped; [done|]. cbn [search_versions].
  destruct (negb _ || negb _) eqn:Eb; [apply IH|]. apply orb_false_iff in Eb as [Hpat%negb_false_iff Hrun%negb_false_iff].
  destruct (a_yanked (us_artifact u)); [apply IH|]. unfold vbind at 1.
  destruct (search_uses fuel p n _ _ _ s1) as [[s2 [[m from|reason|]|e]]|] eqn:E; [|apply IH|apply IH|done|done].
  intros [= _ <-]. cbn [ca_module ca_from]. apply search_uses_found in E as (u' & d & m' & _ & Hf & -> & Hin & -> & Hm & Hy & Hc & Hr).
  unfold matches_artifact in Hm. rewrite !andb_true_iff, !bool_decide_eq_true in Hm. destruct Hm as [[[Hn Hv] _] Hp]. cbn [name version platform requires with_via].
  rewrite Hv, Hp. repeat (split; [done|]). by exists (u_distribution u'), d, m'.
Qed.

(** ** Selections end *)

Lemma first_installable_ends p U product versions skipped s :
  finite_releases (po_trusted p) U -> ends (λ f, first_installable f p product versions skipped) s.
Proof.
  intros HU. revert skipped s. induction versions as [|v versions IH]; intros skipped s; cbn [first_installable]; [by apply ends_const|].
  apply (ends_bind (λ f, fetch_verified f (po_trusted p) (id_new product v))
    (λ d f, match host_problems d p with [] => vret (Ok (mkSelection d skipped))
            | problems => first_installable f p product versions (skipped ++ [id_show (id_new product v) ++ lit ": " ++ join (lit "; ") problems]) end));
    [by eapply fetch_verified_ends|].
  intros d s'. destruct (host_problems d p); [by apply ends_const|apply IH].
Qed.

(** Selecting a distribution ends, when the releases signed with the trusted
    keys are finitely many. *)
Theorem selections_end p (U : list DistributionId) (request : DistributionRequest) s :
  finite_releases (po_trusted p) U ->
  exists r f, forall fuel, (f <= fuel)%nat -> select_distribution fuel p request s = Some r.
Proof.
  intros HU. destruct request as [id|product rule]; cbn [select_distribution].
  - apply (ends_bind (λ f, fetch_verified f (po_trusted p) id) (λ d _, match host_problems d p with [] => vret (mkSelection d []) | _ => vfail ERefused end));
      [by eapply fetch_verified_ends|]. intros d s'. apply ends_const. by destruct (host_problems d p).
  - apply (ends_bind (λ f, newest_installable f p product (rule_matches rule))
      (λ r _, match r with Ok sel => vret sel | Err skipped => vfail (if bool_decide (skipped = []) then ENotFound else ERefused) end)).
    + unfold newest_installable. apply (ends_bind (λ _, ask (src_distributions product))
        (λ listed f, first_installable f p product (candidates product (rule_matches rule) listed) [])); [by apply ends_const|].
      intros listed s'. by eapply first_installable_ends.
    + intros r s'. apply ends_const. by destruct r.
Qed.

(** ** What is prepared *)

Section Prepared.
Context {H : Type} {MH : ModuleHost P H} (inspect : list Z -> result BundleInfo DepotError) (src : BlobSource).

Lemma prepare_verified_intent d rollback w x w' :
  prepare_verified inspect src d rollback w = (Ok x, w') -> intent x = IDistribution d rollback.
Proof.
  unfold prepare_verified, bind at 1. destruct (host EIo host_modules w) as [[inst|] w1]; [|done].
  unfold bind at 1. destruct (load w1) as [[st|] w2]; [|done]. unfold bind at 1.
  destruct (stage_unless_problems _ _ _ _ _ w2) as [[[pl [sb n]]|] w3]; [|done]. by intros [= <- _].
Qed.

Lemma select_distribution_ok fuel p request s s' sel :
  select_distribution fuel p request s = Some (s', Ok sel) -> installable p (se_distribution sel) /\ exists id, fetched_ok (po_trusted p) (se_distribution sel) id.
Proof.
  destruct request as [id|product rule]; cbn [select_distribution]; unfold vbind at 1.
  - destruct (fetch_verified fuel (po_trusted p) id s) as [[s2 [d|e]]|] eqn:Ef; [|done..]. destruct (host_problems d p) eqn:Ep; [|done].
    intros [= _ <-]. split; [by apply no_problem_installable|]. exists id. by eapply fetch_verified_ok.
  - destruct (newest_installable fuel p product (rule_matches rule) s) as [[s2 [[sel'|skipped]|e]]|] eqn:En; [|done..].
    intros [= _ <-]. unfold newest_installable, vbind at 1, ask in En. destruct (src_distributions product s) as [s1 [listed|e]]; [|done].
    apply first_installable_ok in En as (before & v & after & _ & _ & Hf & Hi). eauto.
Qed.

Lemma prepare_restore_intent w x w' : prepare_restore w = (Ok (Some x), w') -> exists n r, intent x = IRestore n r.
Proof.
  unfold prepare_restore, bind at 1. destruct (load w) as [[st|] w1]; [|done]. destruct (current st) as [cur|]; [|done].
  destruct (backup st) as [n|]; [|done]. unfold bind at 1. destruct (load_backup n w1) as [[[r|]|] w2]; [|done..].
  case_bool_decide; [|done]. unfold bind at 1. destruct (restore_bundles n (br_modules r) ∅ w2) as [[sb|] w3]; [|done].
  unfold bind at 1. destruct (host EIo host_modules w3) as [[inst|] w4]; [|done]. intros [= <- _]. by exists n, r.
Qed.

(** What [install distribution] prepares is for a distribution that is
    signed and that this host may install now; a rollback prepares the
    restore of a backup or such a distribution. *)
Theorem prepared_install_is_installable fuel p (request : DistributionRequest) s w s' (x : Prepared) w' :
  (prepare_distribution inspect src fuel p request s w = Some (s', (Ok x, w')) ->
     exists d id, intent x = IDistribution d false /\ fetched_ok (po_trusted p) d id /\ installable p d)
  /\ (prepare_rollback inspect src fuel p s w = Some (s', (Ok x, w')) ->
     (exists n r, intent x = IRestore n r) \/ exists d id, intent x = IDistribution d true /\ fetched_ok (po_trusted p) d id /\ installable p d).
Proof.
  split.
  - unfold prepare_distribution, then_prepare. destruct (select_distribution fuel p request s) as [[s1 [sel|e]]|] eqn:E; [|done..].
    intros [= _ Hp]. apply prepare_verified_intent in Hp. apply select_distribution_ok in E as (Hi & id & Hf). by exists (se_distribution sel), id.
  - unfold prepare_rollback. destruct (prepare_restore w) as [[[y|]|e] w1] eqn:Er; [| |done].
    + intros [= _ <- _]. left. by eapply prepare_restore_intent.
    + destruct (load w) as [[st|e] w2]; [|done]. destruct (current st) as [cur|]; [|done]. destruct (previous st) as [prev|]; [|done].
      destruct (id_parse (d_id prev)) as [id|]; [|done]. unfold then_prepare.
      destruct (select_distribution fuel p (Exact id) s) as [[s1 [sel|e]]|] eqn:E; [|done..]. intros [= _ Hp].
      destruct (prepare_verified inspect src (se_distribution sel) true w1) as [[y|] w3] eqn:Ev; [|done]. injection Hp as <- _. right.
      apply prepare_verified_intent in Ev. apply select_distribution_ok in E as (Hi & id' & Hf). by exists (se_distribution sel), id'.
Qed.

End Prepared.

(** ** The newest of a range *)

Context (Hcmp : cmp_laws version_cmp).

Lemma version_le_total x y : version_le x y = false -> version_le y x = true.
Proof. unfold version_le. destruct Hcmp as [_ o _]. rewrite (o x y). by destruct (version_cmp x y). Qed.
Lemma version_le_trans x y z : version_le x y = true -> version_le y z = true -> version_le x z = true.
Proof.
  unfold version_le. pose proof (cmp_not_lt_up version_cmp Hcmp y z x) as Hup. destruct Hcmp as [_ o _]. rewrite (o y x), (o z y), (o z x) in *.
  destruct (version_cmp y x), (version_cmp z y), (version_cmp z x); cbn in *; naive_solver.
Qed.

(** The candidates come newest first, each once. *)
Lemma candidates_before product wanted listed before v after v' :
  candidates product wanted listed = before ++ v :: after -> v' ∈ candidates product wanted listed -> version_cmp v' v = Gt -> v' ∈ before.
Proof.
  intros E Hin Hgt. rewrite E, elem_of_app in Hin. destruct Hin as [|Hin]; [done|]. exfalso.
  assert (Hs : StronglySorted (λ a b, version_le a b = true) (rev (before ++ v :: after))).
  { rewrite <- E. unfold candidates. rewrite rev_involutive. apply dedup_sorted, stable_sort_sorted; [apply version_le_total|apply version_le_trans]. }
  rewrite rev_app_distr in Hs. cbn in Hs. rewrite <- app_assoc in Hs. cbn in Hs.
  apply elem_of_cons in Hin as [->|Hin].
  - destruct Hcmp as [e _ _]. by rewrite (proj2 (e v v) eq_refl) in Hgt.
  - assert (Hle : version_le v' v = true).
    { assert (Hr : v' ∈ rev after) by (by rewrite list_elem_of_In, <- in_rev, <- list_elem_of_In). revert Hs. generalize (rev before). intros l Hs.
      induction (rev after) as [|x r IH]; [set_solver|]. cbn in Hs. apply StronglySorted_inv in Hs as [Hs Hf].
      apply elem_of_cons in Hr as [->|]; [|by apply IH]. rewrite Forall_forall in Hf. apply Hf. set_solver. }
    unfold version_le in Hle. by rewrite Hgt in Hle.
Qed.

Lemma newest_installable_ok fuel p product wanted s s' sel :
  newest_installable fuel p product wanted s = Some (s', Ok (Ok sel)) ->
  exists v listed, fetched_ok (po_trusted p) (se_distribution sel) (id_new product v) /\ installable p (se_distribution sel) /\ wanted v = true
    /\ (src_distributions product s).2 = Ok listed
    /\ forall x, x ∈ listed -> ds_product x = product -> wanted (ds_version x) = true -> version_cmp (ds_version x) v = Gt ->
         refused_here fuel p (id_new product (ds_version x)).
Proof.
  unfold newest_installable, vbind at 1, ask. destruct (src_distributions product s) as [s1 [listed|e]]; [|done].
  intros H. apply first_installable_ok in H as (before & v & after & E & Hb & Hf & Hi). exists v, listed. split; [done|]. split; [done|].
  split; [apply (candidates_elem product wanted listed); rewrite E; set_solver|]. split; [done|]. intros x Hx Hp Hw Hgt.
  assert (Hin : ds_version x ∈ before) by (eapply candidates_before; [exact E| |done]; apply candidates_elem; eauto).
  rewrite Forall_forall in Hb. by apply Hb.
Qed.

(** C4: A distribution that is selected is signed as asked for and has nothing
    that stops this host from installing it; for a range its version
    matches, and every newer one that the depot lists and that matches was
    fetched, verified and refused by this host. *)
Theorem selected_distribution_is_installable fuel p (request : DistributionRequest) s s' (sel : Selection) :
  select_distribution fuel p request s = Some (s', Ok sel) ->
  installable p (se_distribution sel)
  /\ match request with
     | Exact id => fetched_ok (po_trusted p) (se_distribution sel) id
     | Range product rule => exists v listed, fetched_ok (po_trusted p) (se_distribution sel) (id_new product v) /\ rule_matches rule v = true
         /\ (src_distributions product s).2 = Ok listed
         /\ forall x, x ∈ listed -> ds_product x = product -> rule_matches rule (ds_version x) = true -> version_cmp (ds_version x) v = Gt ->
              refused_here fuel p (id_new product (ds_version x))
     end.
Proof.
  destruct request as [id|product rule]; cbn [select_distribution]; unfold vbind at 1.
  - destruct (fetch_verified fuel (po_trusted p) id s) as [[s1 [d|e]]|] eqn:E; [|done..]. destruct (host_problems d p) eqn:Ep; [|done].
    intros [= _ <-]. split; [by apply no_problem_installable|by eapply fetch_verified_ok].
  - destruct (newest_installable fuel p product (rule_matches rule) s) as [[s1 [[sel'|skipped]|e]]|] eqn:E; [|done..].
    intros [= _ <-]. apply newest_installable_ok in E as (v & listed & Hf & Hi & Hw & Hl & Hn). split; [done|]. by exists v, listed.
Qed.

(** An update that [status distribution] reports is newer than the installed
    distribution, signed, and installable here. *)
Theorem reported_update_is_installable fuel p (current : DistributionId) s s' (d : VerifiedDistribution) :
  newer_distribution fuel p current s = Some (s', Ok (Some d)) ->
  installable p d /\ exists v, version_cmp v (id_version current) = Gt /\ fetched_ok (po_trusted p) d (id_new (id_product current) v).
Proof.
  unfold newer_distribution. destruct (newest_installable fuel p _ _ s) as [[s1 [[sel|sk]|e]]|] eqn:E; [|done|by destruct e|done].
  intros [= _ <-]. apply newest_installable_ok in E as (v & listed & Hf & Hi & Hw%bool_decide_eq_true & _). eauto.
Qed.

End Safety.

(** ** Concrete runs *)

Section Runs.
(** Distributions of a small depot: versions, digests and ids are numbers
    and pairs; a document is the place of a release in the list of the
    releases that were signed. *)
Record DemoDist := mkDemo {
  dd_id : string * Z; dd_key : Z; dd_digest : Z; dd_channel : string; dd_yanked : option text;
  dd_modules : list (TargetModule (P := demo_protocol)); dd_includes : list (ManifestInclude (P := demo_protocol));
}.
Definition demo_id_show (i : string * Z) : text := lit i.1 ++ lit "-" ++ lit (pretty.pretty i.2).
#[local] Instance demo_manifests : SignedManifests demo_protocol :=
  mkManifests demo_protocol DemoDist (λ c, demo_id_show (dd_id c)) (λ c, (dd_id c).1) dd_modules dd_digest dd_channel (λ _, "key"%string).

Definition tool : TargetModule := demo_target "web" 3 [].
Definition native : TargetModule (P := demo_protocol) := mkTarget "web" "*" (3 : Z) "windows" (103 : Z) 10 false (mkRequires None []) None.
Definition inc (n : string) (v d : Z) : ManifestInclude := mkInclude (P := demo_protocol) n "*" v d.
Definition shop (v : Z) (y : option text) : DemoDist := mkDemo ("shop"%string, v) 1 (10 + v) "prod" y [tool] [inc "base" 1 21].
Definition base : DemoDist := mkDemo ("base"%string, 1) 1 21 "prod" None [demo_target "db" 2 []] [].
(** A distribution that includes [base] by two ways, with two digests. *)
Definition side : DemoDist := mkDemo ("side"%string, 1) 1 31 "prod" None [] [inc "base" 1 99].
Definition twice : DemoDist := mkDemo ("twice"%string, 1) 1 41 "prod" None [] [inc "side" 1 31; inc "base" 1 21].
(** The host product itself, with a module for another platform. *)
Definition host_product : DemoDist := mkDemo ("fenrir"%string, 1) 1 51 "prod" None [native] [].
Definition published : list DemoDist := [shop 1 None; shop 2 (Some (lit "broken")); base; side; twice; host_product].

#[local] Instance demo_documents : SignedDocuments demo_protocol demo_manifests := {|
  PublicKey := Z; TrustedKeys := list Z; trusted_new := λ l, l; trusted_is_empty := λ l, bool_decide (l = []);
  DistributionId := string * Z; id_new := pair; id_product := fst; id_version := snd; id_show := demo_id_show;
  id_parse := λ _, None; name_parse := λ _, None; rule_parse := λ _, None; rule_show := λ _, [];
  VersionPattern := Z; pattern_matches := λ lo v, lo <=? v; include_id := λ i, (in_product i, in_version i);
  cd_dist := dd_id; cd_version := λ c, (dd_id c).2; cd_platform := λ _, "any"%string; cd_created_at := λ _, [];
  cd_includes := dd_includes; cd_yanked := dd_yanked;
  channel_lt := λ a b, bool_decide (a = "beta"%string /\ b = "prod"%string);
  runs_on := λ a b, bool_decide (a = "any"%string \/ a = b);
  Detail := nat;
  check_distribution := λ n id t, d ← published !! n; if bool_decide (dd_id d = id /\ dd_key d ∈ t) then Some d else None;
  check_include := λ _ i c, bool_decide (in_sha256 i = dd_digest c);
  check_requirements_for_host := λ _ _ _, [] |}.

#[local] Instance shelf : DepotSource unit := {|
  src_distribution := λ id s, (s, Ok (fst <$> list_find (λ d, dd_id d = id) published));
  src_distributions := λ n s, (s, Ok (verified_summary <$> filter (λ d, (dd_id d).1 = n) published));
  src_module := λ _ s, (s, Ok (Some (mkModuleInfo [mkUsage (mkArtifactInfo (3 : Z) "any" (103 : Z) None) [mkUsedIn (("shop"%string, 1) : string * Z) false "prod"]]))) |}.

Definition demo_policy : HostPolicy := mkPolicy ([1] : list Z) "prod" "linux" (5 : Z).
Definition dist (n : string) (v : Z) : DistributionId := (n, v).
Definition releases : list DistributionId := concat ((λ d, include_id <$> dd_includes d) <$> published).

Lemma releases_finite t : finite_releases t releases.
Proof.
  intros n id c i Hc Hi. cbn [check_distribution demo_documents] in Hc. apply bind_Some in Hc as (d & E & Hc). case_bool_decide; [|done]. injection Hc as <-.
  apply list_elem_of_In, in_concat. exists (include_id <$> dd_includes d). rewrite <- !list_elem_of_In. split; apply list_elem_of_fmap.
  - exists d. split; [done|]. by eapply list_elem_of_lookup_2.
  - by exists i.
Qed.
Lemma demo_version_cmp : cmp_laws (version_cmp (DepotProtocol := demo_protocol)).
Proof. exact Z_cmp_laws. Qed.

Lemma fetched_distribution_is_signed_witness :
  exists s' r, (exists f, forall fuel, (f <= fuel)%nat -> fetch_verified fuel ([1] : list Z) (dist "shop" 1) tt = Some (s', r))
    /\ forall d, r = Ok d -> fetched_ok ([1] : list Z) d (dist "shop" 1).
Proof. exact (fetched_distribution_is_signed ([1] : list Z) releases (dist "shop" 1) tt (releases_finite _)). Defined.
(** With five rounds it gives the distribution and what it includes. *)
Example fetched_shop : fetch_verified 5 ([1] : list Z) (dist "shop" 1) tt = Some (tt, Ok (mkVerified (shop 1 None) [base])).
Proof. vm_compute. reflexivity. Qed.

Definition shop_dist : VerifiedDistribution := mkVerified (shop 1 None) [base].
(** The newer version 2 is yanked: it is passed over. *)
Lemma selected_shop : exists skipped, select_distribution 5 demo_policy (Range "shop" (1 : Z)) tt = Some (tt, Ok (mkSelection shop_dist skipped)).
Proof. eexists. vm_compute. reflexivity. Qed.
Lemma newer_shop : newer_distribution 5 demo_policy (dist "shop" 0) tt = Some (tt, Ok (Some shop_dist)).
Proof. vm_compute. reflexivity. Qed.
Definition web_candidate : ModuleCandidate := mkCandidate tool (lit "shop-1").
Lemma selected_web : select_module 5 demo_policy "web" (2 : Z) tt = Some (tt, Ok web_candidate).
Proof. vm_compute. reflexivity. Qed.

Lemma selected_distribution_is_installable_witness : installable demo_policy shop_dist.
Proof.
  destruct selected_shop as [skipped E].
  exact (proj1 (selected_distribution_is_installable demo_version_cmp 5 demo_policy (Range "shop" (1 : Z)) tt tt (mkSelection shop_dist skipped) E)).
Defined.

Lemma reported_update_is_installable_witness : installable demo_policy shop_dist.
Proof. exact (proj1 (reported_update_is_installable demo_version_cmp 5 demo_policy (dist "shop" 0) tt tt shop_dist newer_shop)). Defined.

Lemma selected_module_is_vouched_for_witness : name (ca_module web_candidate) = "web"%string.
Proof. exact (proj1 (selected_module_is_vouched_for 5 demo_policy "web" (2 : Z) tt tt web_candidate selected_web)). Defined.

Lemma selections_end_witness :
  exists r f, forall fuel, (f <= fuel)%nat -> select_distribution fuel demo_policy (Range "shop" (1 : Z)) tt = Some r.
Proof. exact (selections_end demo_policy releases (Range "shop" (1 : Z)) tt (releases_finite _)). Defined.

(** ** Limits *)

Definition twice_dist : VerifiedDistribution := mkVerified twice [base; side].
Definition host_dist : VerifiedDistribution := mkVerified host_product [].

(** A distribution that two others include is compared with the digest of
    one of them only: here [side] refers to another [base], and the fetch
    succeeds all the same. *)
Theorem second_reference_is_not_checked :
  exists d i, fetch_verified 9 ([1] : list Z) (dist "twice" 1) tt = Some (tt, Ok d) /\ side ∈ includes d /\ base ∈ includes d
    /\ i ∈ cd_includes side /\ include_id i = dist "base" 1 /\ check_include (dist "side" 1) i base = false.
Proof.
  exists twice_dist, (inc "base" 1 99). split; [vm_compute; reflexivity|]. cbn [includes twice_dist]. split; [set_solver|]. split; [set_solver|].
  split; [cbn; set_solver|]. split; reflexivity.
Qed.

(** The modules of a distribution of the host product itself are targets,
    but their platform is not checked. *)
Theorem host_product_platform_is_not_checked :
  exists sel m, select_distribution 5 demo_policy (Exact (dist "fenrir" 1)) tt = Some (tt, Ok sel)
    /\ m ∈ target_modules (se_distribution sel) /\ runs_on (platform m) (po_platform demo_policy) = false.
Proof.
  exists (mkSelection host_dist []), native. split; [vm_compute; reflexivity|]. split; [|reflexivity].
  change (target_modules _) with [native]. set_solver.
Qed.

End Runs.
