(* ===== verification/DepotSettings.v ===== *)
(** * Depot settings and client ([infra/modules/depot])

    The settings that the host reads from its environment, the policy they
    give, and the HTTP client that answers the questions of [DepotVerify].
    The server is a function of the number of the request and its URL, and
    [Asked] records the URLs; URLs, keys, platforms and JSON are the class
    [SettingsLibs]. *)

From S2P Require Import Prelude Text Ip Versions Manifests DepotPlan DepotStore DepotInstaller ModuleEnv DepotVerify.

#[local] Open Scope fenrir_scope.

Record Url := mkUrl { scheme : text; host_str : option text; path : text }.
Class SettingsLibs (P : DepotProtocol) (SM : SignedManifests P) (SD : SignedDocuments P SM) := {
  url_parse : text -> option Url;
  url_join : Url -> text -> option Url;
  url_with_query : Url -> text -> text -> Url;
  channel_parse : text -> option string;
  platform_parse : text -> option string;
  any_platform : string;
  key_parse : text -> option PublicKey;
  os_arch : text;
  digest_show : Digest -> text;
  pem_certificate : list Z -> bool;
  pem_identity : list Z -> bool;
  client_builds : bool;
  json_detail : list Z -> option Detail;
  json_summaries : list Z -> option (list DistributionSummary);
  json_module_info : list Z -> option ModuleInfo;
}.

Section Settings.
Context {P : DepotProtocol} {SM : SignedManifests P} {SD : SignedDocuments P SM} {L : SettingsLibs P SM SD}.

Definition URL : text := lit "FENRIR_DEPOT_URL".
Definition CHANNEL : text := lit "FENRIR_DEPOT_CHANNEL".
Definition TRUSTED_KEYS : text := lit "FENRIR_DEPOT_TRUSTED_KEYS".
Definition CLIENT_CERT : text := lit "FENRIR_DEPOT_CLIENT_CERT".
Definition CLIENT_KEY : text := lit "FENRIR_DEPOT_CLIENT_KEY".
Definition CA_CERT : text := lit "FENRIR_DEPOT_CA_CERT".
Definition PLATFORM : text := lit "FENRIR_DEPOT_PLATFORM".

Record DepotSettings := mkSettings {
  st_url : Url; st_channel : string; st_trusted_keys : list PublicKey; st_client_identity : option (list Z); st_ca_cert : option (list Z);
  st_platform : string;
}.

Definition default_platform : string := default any_platform (platform_parse os_arch).

Definition value (h : Host) (var : text) : result (option text) DepotError :=
  match non_empty (host_var h var), non_empty (host_var h (var ++ lit "_FILE")) with
  | Some _, Some _ => Err EConfig
  | Some v, None => Ok (Some v)
  | None, Some path =>
      match h_read h path with
      | Err _ => Err EConfig
      | Ok content => if bool_decide (trim content = []) then Err EConfig else Ok (Some (trim content))
      end
  | None, None => Ok None
  end.

Definition ip_is_loopback (ip : IpAddr) : bool := match ip with V4 b => Z.shiftr b 24 =? 127 | V6 b => b =? 1 end.
Definition is_loopback (u : Url) : bool :=
  match host_str u with
  | None => false
  | Some host =>
      bool_decide (host = lit "localhost")
      || match parse_ip (rev (drop_while (λ c, c =? 93) (rev (drop_while (λ c, c =? 91) host)))) with Some ip => ip_is_loopback ip | None => false end
  end.

Definition key_texts (raw : text) : list text :=
  List.filter (λ k, negb (bool_decide (k = [])) && negb (starts_with (lit "#") k)) (trim <$> (split 44 raw ≫= split 10)).
Fixpoint parse_keys (ks : list text) : result (list PublicKey) DepotError :=
  match ks with
  | [] => Ok []
  | k :: ks => key <-? ok_or (key_parse k) EConfig;; rest <-? parse_keys ks;; Ok (key :: rest)
  end.

Definition from_lookup (h : Host) : result (option DepotSettings) DepotError :=
  raw <-? value h URL;;
  match raw with
  | None => Ok None
  | Some raw =>
      url <-? ok_or (url_parse raw) EConfig;;
      if negb (bool_decide (scheme url = lit "https")) && negb (bool_decide (scheme url = lit "http") && is_loopback url) then Err EConfig
      else
        let url := if bool_decide (last (path url) = Some 47) then url else mkUrl (scheme url) (host_str url) (path url ++ lit "/") in
        channel <-? value h CHANNEL;;
        channel <-? match channel with Some raw => ok_or (channel_parse raw) EConfig | None => Ok "prod"%string end;;
        keys <-? value h TRUSTED_KEYS;;
        keys <-? parse_keys (key_texts (default [] keys));;
        if bool_decide (keys = []) then Err EConfig
        else
          cert <-? value h CLIENT_CERT;;
          key <-? value h CLIENT_KEY;;
          identity <-? match cert, key with
                       | Some cert, Some key => Ok (Some (utf8 cert ++ [10] ++ utf8 key ++ [10]))
                       | None, None => Ok None
                       | _, _ => Err EConfig
                       end;;
          ca <-? value h CA_CERT;;
          platform <-? value h PLATFORM;;
          platform <-? match platform with Some raw => ok_or (platform_parse raw) EConfig | None => Ok default_platform end;;
          Ok (Some (mkSettings url channel keys identity (utf8 <$> ca) platform))
  end.

Definition policy (s : DepotSettings) (fenrir : DepotVersion) : HostPolicy :=
  mkPolicy (trusted_new (st_trusted_keys s)) (st_channel s) (st_platform s) fenrir.

(** ** The client *)

Record DepotHttpClient := mkClient { https_only : bool; c_ca : option (list Z); c_identity : option (list Z); c_base : Url }.
Definition client_new (s : DepotSettings) : result DepotHttpClient DepotError :=
  if negb (match st_ca_cert s with Some pem => pem_certificate pem | None => true end) then Err EConfig
  else if negb (match st_client_identity s with Some pem => pem_identity pem | None => true end) then Err EConfig
  else if negb client_builds then Err EConfig
  else Ok (mkClient (negb (bool_decide (scheme (st_url s) = lit "http"))) (st_ca_cert s) (st_client_identity s) (st_url s)).

(** An answer: a connection may fail before it or in its middle. *)
Record Answer := mkAnswer { an_status : Z; an_length : option Z; an_chunks : list (list Z); an_broken : bool }.
Record Asked := mkAsked { asked : list Url }.
Context (server : nat -> Url -> option Answer) (c : DepotHttpClient).

Definition url (p : text) : result Url DepotError := ok_or (url_join (c_base c) p) EProtocol.
Definition get (u : Url) (n : Asked) : Asked * result Answer DepotError :=
  (mkAsked (asked n ++ [u]),
   if https_only c && negb (bool_decide (scheme u = lit "https")) then Err EUnreachable else ok_or (server (length (asked n)) u) EUnreachable).
Definition success (a : Answer) : bool := (200 <=? an_status a) && (an_status a <? 300).
Definition json {A} (decode : list Z -> option A) (a : Answer) : result A DepotError :=
  if an_broken a then Err EProtocol else ok_or (decode (concat (an_chunks a))) EProtocol.
Definition get_json {A} (decode : list Z -> option A) (u : Url) (n : Asked) : Asked * result A DepotError :=
  match get u n with
  | (n, Err e) => (n, Err e)
  | (n, Ok a) => (n, if success a then json decode a else Err (EApi (an_status a)))
  end.
Definition get_optional {A} (decode : list Z -> option A) (u : Url) (n : Asked) : Asked * result (option A) DepotError :=
  match get u n with
  | (n, Err e) => (n, Err e)
  | (n, Ok a) =>
      (n, if an_status a =? 404 then Ok None
          else if success a then x <-? json decode a;; Ok (Some x) else Err (EApi (an_status a)))
  end.
Definition with_url {A} (p : text) (k : Url -> Asked -> Asked * result A DepotError) (n : Asked) : Asked * result A DepotError :=
  match url p with Ok u => k u n | Err e => (n, Err e) end.

#[global] Instance http_source : DepotSource Asked := {|
  src_distribution := λ id, with_url (lit "v1/distributions/" ++ id_show id) (get_optional json_detail);
  src_distributions := λ product, with_url (lit "v1/distributions") (λ u, get_json json_summaries (url_with_query u (lit "product") (lit product)));
  src_module := λ name, with_url (lit "v1/modules/" ++ lit name) (get_optional json_module_info) |}.

(** The chunks that [blob] writes to the sink, and how it ends. *)
Definition blob (d : Digest) (size : Z) (n : Asked) : Asked * (list (list Z) * option DepotError) :=
  match url (lit "v1/blobs/" ++ digest_show d) with
  | Err e => (n, ([], Some e))
  | Ok u =>
      match get u n with
      | (n, Err e) => (n, ([], Some e))
      | (n, Ok a) =>
          (n, if an_status a =? 404 then ([], Some ENotFound)
              else if negb (success a) then ([], Some (EApi (an_status a)))
              else if match an_length a with Some l => negb (l =? size) | None => false end then ([], Some EBundle)
              else (an_chunks a, if an_broken a then Some EUnreachable else None))
      end
  end.
End Settings.
