(* ===== verification/DepotSettingsSafety.v ===== *)
(** * What the depot settings guarantee

    Theorems on [DepotSettings]: accepted settings reach the depot over TLS
    (or stay on this machine) and have a key to verify with, so that a
    selection never fails for want of one; the client sends no plain request
    and passes on no blob of another announced length; a comment may hold a
    trusted key. *)

From S2P Require Import Prelude Text Ip Versions Manifests DepotPlan DepotStore DepotInstaller ModuleEnv DepotVerify DepotSettings.

#[local] Open Scope fenrir_scope.

Section Safety.
Context {P : DepotProtocol} {SM : SignedManifests P} {SD : SignedDocuments P SM} {L : SettingsLibs P SM SD}.

Definition connection_safe (u : Url) : Prop := scheme u = lit "https" \/ (scheme u = lit "http" /\ is_loopback u = true).

Lemma parse_keys_from ks keys : parse_keys ks = Ok keys -> forall k, k ∈ keys -> exists t, t ∈ ks /\ key_parse t = Some k.
Proof.
  revert keys. induction ks as [|x ks IH]; intros keys; cbn [parse_keys].
  - intros [= <-] k. set_solver.
  - intros H. apply result_bind_ok_inv in H as (key & Hk & H). apply result_bind_ok_inv in H as (rest & Hr & H). injection H as <-.
    destruct (key_parse x) as [key'|] eqn:E; [|done]. injection Hk as ->. intros k [->|Hin]%elem_of_cons.
    + exists x. split; [set_solver|done].
    + destruct (IH rest Hr k Hin) as (t & ? & ?). exists t. split; [set_solver|done].
Qed.

Lemma accepted_settings (h : Host) (s : DepotSettings) :
  from_lookup h = Ok (Some s) ->
  connection_safe (st_url s) /\ last (path (st_url s)) = Some 47 /\ st_trusted_keys s <> []
  /\ exists raw, value h TRUSTED_KEYS = Ok raw /\ forall k, k ∈ st_trusted_keys s -> exists t, t ∈ key_texts (default [] raw) /\ key_parse t = Some k.
Proof.
  unfold from_lookup. intros H. apply result_bind_ok_inv in H as ([raw|] & _ & H); [|done].
  apply result_bind_ok_inv in H as (u & _ & H). destruct (negb _ && negb _) eqn:Es; [done|]. cbn zeta in H.
  apply result_bind_ok_inv in H as (ch & _ & H). apply result_bind_ok_inv in H as (ch' & _ & H).
  apply result_bind_ok_inv in H as (ks & Hks & H). apply result_bind_ok_inv in H as (keys & Hp & H).
  destruct (bool_decide (keys = [])) eqn:Ek; [done|]. apply bool_decide_eq_false in Ek.
  apply result_bind_ok_inv in H as (cert & _ & H). apply result_bind_ok_inv in H as (key & _ & H).
  apply result_bind_ok_inv in H as (idn & _ & H). apply result_bind_ok_inv in H as (ca & _ & H).
  apply result_bind_ok_inv in H as (pl & _ & H). apply result_bind_ok_inv in H as (pl' & _ & H). injection H as <-. cbn [st_url st_trusted_keys].
  split; [|split; [|split; [done|]]].
  - apply andb_false_iff in Es. rewrite !negb_false_iff, andb_true_iff, !bool_decide_eq_true in Es.
    unfold connection_safe. by destruct (bool_decide (last (path u) = Some 47)).
  - destruct (bool_decide (last (path u) = Some 47)) eqn:El; [by apply bool_decide_eq_true in El|]. cbn. by rewrite last_snoc.
  - exists ks. split; [done|]. by apply parse_keys_from.
Qed.

(** Settings that are accepted connect over TLS or to this machine only,
    have a base path that ends in a slash, and have at least one trusted
    key, each one written in the variable. *)
Theorem accepted_settings_are_usable (h : Host) (s : DepotSettings) :
  from_lookup h = Ok (Some s) ->
  connection_safe (st_url s) /\ last (path (st_url s)) = Some 47 /\ st_trusted_keys s <> []
  /\ exists raw, value h TRUSTED_KEYS = Ok raw /\ forall k, k ∈ st_trusted_keys s -> exists t, t ∈ key_texts (default [] raw) /\ key_parse t = Some k.
Proof. apply accepted_settings. Qed.

Section Client.
Context (server : nat -> Url -> option Answer) (c : DepotHttpClient).
#[local] Instance client_source : DepotSource Asked := http_source server c.

Lemma get_not_config u n n' e : get server c u n = (n', Err e) -> e <> EConfig.
Proof. unfold get. destruct (https_only c && _); [by intros [= _ <-]|]. by destruct (server _ u); intros [= _ <-]. Qed.
Lemma fetch_one_not_config t id n n' : fetch_one t id n <> Some (n', Err EConfig).
Proof.
  unfold fetch_one, vbind, ask. cbn [src_distribution client_source http_source]. unfold with_url, url.
  destruct (url_join _ _) as [u|]; cbn [ok_or]; [|done]. unfold get_optional.
  destruct (get server c u n) as [n1 [a|e]] eqn:E; [|intros [= _ ->]; by apply get_not_config in E].
  destruct (an_status a =? 404); [done|]. destruct (success a); [|done]. unfold json. destruct (an_broken a); [done|].
  destruct (json_detail _) as [d|]; [|done]. cbn. unfold vlift. by destruct (check_distribution d id t).
Qed.
Lemma fetch_includes_not_config fuel t seen queue incs n n' : fetch_includes fuel t seen queue incs n <> Some (n', Err EConfig).
Proof.
  revert seen queue incs n. induction fuel as [|fuel IH]; intros seen queue incs n; [done|]. cbn [fetch_includes].
  destruct queue as [|[parent i] queue]; [done|]. case_bool_decide; [apply IH|]. unfold vbind.
  destruct (fetch_one t (include_id i) n) as [[n1 [ch|e]]|] eqn:E; [|intros [= _ ->]; by apply fetch_one_not_config in E|done].
  destruct (check_include parent i ch); [apply IH|done].
Qed.

(** A host whose settings were accepted has a key to verify with: no fetch
    over its client fails for want of one (or of any other setting). *)
Theorem configured_host_can_verify (h : Host) (st : DepotSettings) (fenrir : DepotVersion) (fuel : nat) (id : DistributionId) (n n' : Asked) :
  (forall ks, trusted_is_empty (trusted_new ks) = bool_decide (ks = [])) -> from_lookup h = Ok (Some st) ->
  fetch_verified fuel (po_trusted (policy st fenrir)) id n <> Some (n', Err EConfig).
Proof.
  intros Htrust Hst. apply accepted_settings in Hst as (_ & _ & Hk & _). unfold fetch_verified. cbn [policy po_trusted]. rewrite Htrust, bool_decide_false by done.
  unfold vbind at 1. destruct (fetch_one _ id n) as [[n1 [r|e]]|] eqn:E; [|intros [= _ ->]; by apply fetch_one_not_config in E|done].
  unfold vbind. destruct (fetch_includes fuel _ _ _ [] n1) as [[n2 [incs|e]]|] eqn:Ei; [done| |done]. intros [= _ ->].
  by apply fetch_includes_not_config in Ei.
Qed.

(** A client for a depot at an https address gets nothing from a plain
    request, and of a blob that is announced with another length than the
    signed one no byte reaches the cache. *)
Theorem client_refuses_early (st : DepotSettings) (d : Digest) (size : Z) (u : Url) (n : Asked) :
  client_new st = Ok c -> scheme (st_url st) = lit "https" ->
  (scheme u <> lit "https" -> (get server c u n).2 = Err EUnreachable)
  /\ forall u' a, url c (lit "v1/blobs/" ++ digest_show d) = Ok u' -> (get server c u' n).2 = Ok a ->
       (forall l, an_length a = Some l -> l <> size) -> an_length a <> None -> exists e, (blob server c d size n).2 = ([], Some e).
Proof.
  unfold client_new. destruct (negb _); [done|]. destruct (negb _); [done|]. destruct (negb _); [done|]. intros [= <-] Hs. split.
  - intros Hu. unfold get. cbn [https_only]. rewrite Hs. by rewrite !bool_decide_false.
  - intros u' a Hurl Hget Hl Hn. unfold blob. rewrite Hurl. destruct (get server _ u' n) as [n1 r]. cbn in Hget. subst r.
    destruct (an_status a =? 404); [by eexists|]. destruct (success a); cbn; [|by eexists].
    destruct (an_length a) as [l|]; [|done]. specialize (Hl l eq_refl). destruct (Z.eqb_spec l size); [done|]. cbn. by eexists.
Qed.
End Client.
End Safety.

(** ** Limits *)

(** A line of the trusted keys that is commented out still counts from its
    first comma on. *)
Theorem commented_key_is_trusted :
  key_texts (lit "# retired key, ed25519:00ff") = [lit "ed25519:00ff"].
Proof. vm_compute. reflexivity. Qed.

(** ** Concrete runs *)

Section Runs.
#[local] Instance run_manifests : SignedManifests demo_protocol := mkManifests demo_protocol unit (λ _, []) (λ _, "shop"%string) (λ _, []) (λ _, 1) (λ _, "prod"%string) (λ _, "key"%string).
#[local] Instance run_documents : SignedDocuments demo_protocol run_manifests := {|
  PublicKey := text; TrustedKeys := list text; trusted_new := λ l, l; trusted_is_empty := λ l, bool_decide (l = []);
  DistributionId := Z; id_new := λ _ v, v; id_product := λ _, "shop"%string; id_version := λ v, v; id_show := λ _, [];
  id_parse := λ _, None; name_parse := λ _, None; rule_parse := λ _, None; rule_show := λ _, [];
  VersionPattern := Z; pattern_matches := λ lo v, lo <=? v; include_id := λ i, in_version i;
  cd_dist := λ _, 1; cd_version := λ _, 1; cd_platform := λ _, "any"%string; cd_created_at := λ _, []; cd_includes := λ _, []; cd_yanked := λ _, None;
  channel_lt := λ _ _, false; runs_on := λ _ _, true; Detail := unit; check_distribution := λ _ _ _, Some tt; check_include := λ _ _ _, true;
  check_requirements_for_host := λ _ _ _, [] |}.
#[local] Instance run_libs : SettingsLibs demo_protocol run_manifests run_documents := {|
  url_parse := λ t, Some (mkUrl (lit "https") (Some t) []); url_join := λ u t, Some (mkUrl (scheme u) (host_str u) (path u ++ t)); url_with_query := λ u _ _, u;
  channel_parse := λ _, None; platform_parse := λ _, None; any_platform := "any"%string; key_parse := Some; os_arch := []; digest_show := λ _, [];
  pem_certificate := λ _, true; pem_identity := λ _, true; client_builds := true;
  json_detail := λ _, Some tt; json_summaries := λ _, None; json_module_info := λ _, None |}.

Definition run_host : Host := mkHost [(URL, lit "depot"); (TRUSTED_KEYS, lit "a, b")] (λ _, Err []).
Definition run_settings : DepotSettings := mkSettings (mkUrl (lit "https") (Some (lit "depot")) (lit "/")) "prod" [lit "a"; lit "b"] None None "any".
Definition run_client : DepotHttpClient := mkClient true None None (mkUrl (lit "https") (Some (lit "depot")) (lit "/")).
Lemma run_accepted : from_lookup run_host = Ok (Some run_settings).
Proof. vm_compute. reflexivity. Qed.

Lemma accepted_settings_are_usable_witness : connection_safe (st_url run_settings) /\ st_trusted_keys run_settings <> [].
Proof.
  destruct (accepted_settings_are_usable run_host run_settings run_accepted) as (H1 & _ & H2 & _). exact (conj H1 H2).
Defined.
Lemma configured_host_can_verify_witness :
  fetch_verified (Src := http_source (λ _ _, None) run_client) 3 (po_trusted (policy run_settings (1 : Z))) (1 : Z) (mkAsked []) <> Some (mkAsked [], Err EConfig).
Proof. exact (configured_host_can_verify (λ _ _, None) run_client run_host run_settings (1 : Z) 3 (1 : Z) (mkAsked []) (mkAsked []) (λ _, eq_refl) run_accepted). Defined.
Lemma client_refuses_early_witness :
  (get (λ _ _, None) run_client (mkUrl (lit "http") None []) (mkAsked [])).2 = Err EUnreachable.
Proof.
  apply (client_refuses_early (λ _ _, None) run_client run_settings (1 : Z) 5 (mkUrl (lit "http") None []) (mkAsked []));
    [vm_compute; reflexivity|reflexivity|by vm_compute].
Defined.
End Runs.
