(* ===== verification/PasswordPolicy.v ===== *)
(** * The password policy ([security/auth/password_policy.rs])

    What a new password must satisfy.  The Unicode properties of characters
    and [str::to_lowercase] are the class [Unicode]; messages are left out.
    [accepted_password_exact] says which passwords are accepted, and that
    every rule that is broken is reported once, in order. *)

From S2P Require Import Prelude Text ConfigCheck.

#[local] Open Scope fenrir_scope.

Class Unicode := { is_uppercase : char -> bool; is_lowercase : char -> bool; is_alphanumeric : char -> bool; to_lowercase : text -> text }.

Inductive PasswordPolicyError :=
| TooShort (least actual : Z) | TooLong (most actual : Z) | MissingUppercase | MissingLowercase | MissingDigit | MissingSpecial | CommonPassword
| ContainsUsername | NoWhitespaceAllowed.
Record PasswordValidationResult := mkValidation { valid : bool; errors : list PasswordPolicyError }.
Definition ok : PasswordValidationResult := mkValidation true [].
Definition failed (e : list PasswordPolicyError) : PasswordValidationResult := mkValidation false e.

Record PasswordPolicy := mkPolicy {
  pp_min_length : Z; pp_max_length : Z; pp_uppercase : bool; pp_lowercase : bool; pp_digit : bool; pp_special : bool; pp_common : bool;
  pp_username : bool; common_passwords : list text;
}.

Definition default_common_passwords : list text := lit <$>
  ["password"; "123456"; "12345678"; "qwerty"; "abc123"; "monkey"; "1234567"; "letmein"; "trustno1"; "dragon"; "baseball"; "iloveyou"; "master";
   "sunshine"; "ashley"; "bailey"; "passw0rd"; "shadow"; "123123"; "654321"; "superman"; "qazwsx"; "michael"; "football"; "password1"; "password123";
   "welcome"; "welcome1"; "admin"; "login"; "princess"; "qwerty123"; "solo"; "passpass"; "hello"; "charlie"; "donald"; "password12"; "qwerty1";
   "1234567890"; "fenrir"; "fenrirdev"; "fenrir123"; "administrator"]%string.

Definition standard : PasswordPolicy := mkPolicy 12 128 true true true false true true default_common_passwords.
Definition development : PasswordPolicy := mkPolicy 8 128 false false false false true true default_common_passwords.
Definition from_config (c : PasswordPolicyConfig) : PasswordPolicy :=
  mkPolicy (min_length c) (max_length c) (require_uppercase c) (require_lowercase c) (require_digit c) (require_special c) (check_common_passwords c) true
    default_common_passwords.

Section Validate.
Context {U : Unicode}.

Definition push (broken : bool) (e : PasswordPolicyError) : list PasswordPolicyError := if broken then [e] else [].
(** A policy that checks the name finds it in the password, in any case. *)
Definition contains_username (password : text) (username : option text) : bool :=
  match username with
  | Some user => negb (bool_decide (to_lowercase user = [])) && contains_sub (to_lowercase user) (to_lowercase password)
  | None => false
  end.
Definition validate (p : PasswordPolicy) (password : text) (username : option text) : PasswordValidationResult :=
  let len := Z.of_nat (length password) in
  let errors :=
    push (len <? pp_min_length p) (TooShort (pp_min_length p) len)
    ++ push (pp_max_length p <? len) (TooLong (pp_max_length p) len)
    ++ push (existsb is_whitespace password) NoWhitespaceAllowed
    ++ push (pp_uppercase p && negb (existsb is_uppercase password)) MissingUppercase
    ++ push (pp_lowercase p && negb (existsb is_lowercase password)) MissingLowercase
    ++ push (pp_digit p && negb (existsb is_ascii_digit password)) MissingDigit
    ++ push (pp_special p && negb (existsb (λ c, negb (is_alphanumeric c)) password)) MissingSpecial
    ++ push (pp_common p && bool_decide (to_lowercase password ∈ common_passwords p)) CommonPassword
    ++ push (pp_username p && contains_username password username) ContainsUsername in
  if bool_decide (errors = []) then ok else failed errors.

Definition description (p : PasswordPolicy) (show : Z -> text) : text :=
  [27] ++ lit "[38;5;240m   Requirements: "
  ++ join (lit " | ") ([show (pp_min_length p) ++ lit " characters minimum"] ++ (if pp_uppercase p then [lit "uppercase"] else [])
       ++ (if pp_lowercase p then [lit "lowercase"] else []) ++ (if pp_digit p then [lit "number"] else [])
       ++ (if pp_special p then [lit "special char"] else []))
  ++ [27] ++ lit "[0m".

(** What the rules ask, apart from how they are checked. *)
Record acceptable (p : PasswordPolicy) (password : text) (username : option text) : Prop := {
  ac_length : pp_min_length p <= Z.of_nat (length password) <= pp_max_length p;
  ac_blank : forall c, c ∈ password -> is_whitespace c = false;
  ac_upper : pp_uppercase p = true -> exists c, c ∈ password /\ is_uppercase c = true;
  ac_lower : pp_lowercase p = true -> exists c, c ∈ password /\ is_lowercase c = true;
  ac_digit : pp_digit p = true -> exists c, c ∈ password /\ is_ascii_digit c = true;
  ac_special : pp_special p = true -> exists c, c ∈ password /\ is_alphanumeric c = false;
  ac_common : pp_common p = true -> to_lowercase password ∉ common_passwords p;
  ac_user : pp_username p = true -> forall user, username = Some user -> to_lowercase user <> [] ->
    contains_sub (to_lowercase user) (to_lowercase password) = false;
}.

Lemma push_nil b e : push b e = [] <-> b = false.
Proof. by destruct b. Qed.
Lemma existsb_elem (f : char -> bool) (l : text) : existsb f l = true <-> exists c, c ∈ l /\ f c = true.
Proof. rewrite existsb_exists. by setoid_rewrite list_elem_of_In. Qed.
Lemma required_elem (b : bool) (f : char -> bool) (l : text) : b && negb (existsb f l) = false <-> (b = true -> exists c, c ∈ l /\ f c = true).
Proof. rewrite <- existsb_elem. destruct b, (existsb f l); cbn; naive_solver. Qed.
Lemma no_elem (f : char -> bool) (l : text) : existsb f l = false <-> forall c, c ∈ l -> f c = false.
Proof.
  rewrite <- not_true_iff_false, existsb_elem. split.
  - intros H c Hc. destruct (f c) eqn:E; [|done]. exfalso. eauto.
  - intros H (c & Hc & E). by rewrite (H c Hc) in E.
Qed.

(** A password is accepted exactly when it satisfies every rule of the
    policy; a refused one is reported with at least one broken rule, and no
    rule is reported twice. *)
Theorem accepted_password_exact (p : PasswordPolicy) (password : text) (username : option text) :
  (valid (validate p password username) = true <-> acceptable p password username)
  /\ (valid (validate p password username) = false <-> errors (validate p password username) <> [])
  /\ NoDup (errors (validate p password username)).
Proof.
  unfold validate. set (errs := push _ _ ++ _). assert (Herrs : errs = [] <-> acceptable p password username).
  { subst errs. rewrite !app_nil, !push_nil. rewrite Z.ltb_ge, Z.ltb_ge, no_elem, !required_elem. split.
    - intros (H1 & H2 & H3 & H4 & H5 & H6 & H7 & H8 & H9). constructor; auto.
      + intros Hs. destruct (H7 Hs) as (c & ? & ?%negb_true_iff). eauto.
      + intros Hc. rewrite Hc in H8. cbn in H8. by apply bool_decide_eq_false in H8.
      + intros Hu user -> Hn. rewrite Hu in H9. cbn in H9. by rewrite bool_decide_false in H9.
    - intros [[H1 H2] H3 H4 H5 H6 H7 H8 H9]. repeat split; auto.
      + intros Hs. destruct (H7 Hs) as (c & ? & ?). exists c. by rewrite negb_true_iff.
      + destruct (pp_common p); [|done]. cbn. apply bool_decide_eq_false. by apply H8.
      + destruct (pp_username p); [|done]. cbn. unfold contains_username. destruct username as [user|]; [|done]. case_bool_decide as Hn; [done|]. cbn.
        by apply H9. }
  split; [|split].
  - rewrite <- Herrs. by case_bool_decide.
  - by case_bool_decide.
  - assert (Hn : NoDup errs); [|case_bool_decide; [apply NoDup_nil_2|exact Hn]]. subst errs. clear Herrs.
    unfold push. repeat case_match; cbn; repeat constructor; set_solver.
Qed.

(** A host whose configuration a production start accepts (at least twelve
    characters, common passwords refused) accepts no shorter password and no
    common one. *)
Theorem configured_policy_holds (c : PasswordPolicyConfig) (password : text) (username : option text) :
  12 <= min_length c -> check_common_passwords c = true -> valid (validate (from_config c) password username) = true ->
  12 <= Z.of_nat (length password) /\ to_lowercase password ∉ default_common_passwords.
Proof.
  intros Hm Hc Hv. unfold validate in Hv. case_bool_decide as E; [|done]. rewrite !app_nil, !push_nil in E.
  destruct E as (H1 & _ & _ & _ & _ & _ & _ & H8 & _). cbn in H1, H8. rewrite Hc in H8. apply Z.ltb_ge in H1.
  split; [lia|]. by apply bool_decide_eq_false in H8.
Qed.
End Validate.

(** ** Concrete runs *)

Section Runs.
#[local] Instance ascii : Unicode := {| is_uppercase := is_ascii_upper; is_lowercase := is_ascii_lower; is_alphanumeric := is_ascii_alphanumeric; to_lowercase := to_ascii_lowercase |}.
Example rejected_for_each_rule :
  errors (validate standard (lit "pass word") (Some (lit "PASS")))
  = [TooShort 12 9; NoWhitespaceAllowed; MissingUppercase; MissingDigit; ContainsUsername].
Proof. vm_compute. reflexivity. Qed.
Lemma configured_policy_holds_witness : 12 <= Z.of_nat (length (lit "Correct9Horse")) /\ to_lowercase (lit "Correct9Horse") ∉ default_common_passwords.
Proof. apply (configured_policy_holds (mkPasswordPolicy 12 128 true true true false true) (lit "Correct9Horse") None); vm_compute; congruence. Defined.
End Runs.
