(* ===== verification/Crypto.v ===== *)
(** * Ciphers and key derivation ([security/crypto])

    The checks around the crates [aes-gcm], [chacha20poly1305] and [argon2],
    which are the classes [Ciphers] and [Argon2]; random bytes are an
    argument.  With the crates' own round trips as laws, what is encrypted
    under a generated nonce is decrypted, only with the same data and by an
    allowed cipher, and a hashed password verifies. *)

From S2P Require Import Prelude Text ConfigCheck.

#[local] Open Scope fenrir_scope.

Inductive CryptoError := UnsupportedAlgorithm (name : text) | InvalidKeyLength | InvalidNonceLength | Encryption | Decryption | Derivation | PasswordHashError | RandomError.
Inductive CipherAlgorithm := Aes256Gcm | XChaCha20Poly1305.
#[export] Instance cipher_dec : EqDecision CipherAlgorithm.
Proof. solve_decision. Defined.

Definition as_str (a : CipherAlgorithm) : text := match a with Aes256Gcm => lit "aes-gcm" | XChaCha20Poly1305 => lit "xchacha20-poly1305" end.
Definition key_size (a : CipherAlgorithm) : nat := 32.
Definition nonce_size (a : CipherAlgorithm) : nat := match a with Aes256Gcm => 12 | XChaCha20Poly1305 => 24 end.
Definition try_from (value : text) : result CipherAlgorithm CryptoError :=
  let name := to_ascii_lowercase (trim value) in
  if bool_decide (name ∈ lit <$> ["aes-gcm"; "aes256-gcm"; "aes_256_gcm"]%string) then Ok Aes256Gcm
  else if bool_decide (name ∈ lit <$> ["xchacha20-poly1305"; "xchacha20poly1305"]%string) then Ok XChaCha20Poly1305
  else Err (UnsupportedAlgorithm name).

(** The crates: a key of 32 bytes and a nonce of the cipher's size. *)
Class Ciphers := {
  seal : CipherAlgorithm -> list Z -> list Z -> list Z -> list Z -> option (list Z);
  open : CipherAlgorithm -> list Z -> list Z -> list Z -> list Z -> option (list Z);
}.
(** What authenticated encryption promises of itself. *)
Class CipherLaws (C : Ciphers) : Prop := {
  open_seal : forall a key nonce m aad c, seal a key nonce m aad = Some c -> open a key nonce c aad = Some m;
}.

Record AeadRegistry := mkAead { allowed : list CipherAlgorithm }.

Section Aead.
Context {C : Ciphers}.
Implicit Types (r : AeadRegistry) (a : CipherAlgorithm) (key nonce aad : list Z).

Definition ensure_allowed r a : result unit CryptoError :=
  if bool_decide (a ∈ allowed r) then Ok tt else Err (UnsupportedAlgorithm (as_str a)).
Definition check_sizes a key nonce : result unit CryptoError :=
  if negb (bool_decide (length key = key_size a)) then Err InvalidKeyLength
  else if negb (bool_decide (length nonce = nonce_size a)) then Err InvalidNonceLength else Ok tt.

Definition encrypt_aes256_gcm key nonce (plaintext : list Z) aad : result (list Z) CryptoError :=
  _ <-? check_sizes Aes256Gcm key nonce;; ok_or (seal Aes256Gcm key nonce plaintext aad) Encryption.
Definition decrypt_aes256_gcm key nonce (ciphertext : list Z) aad : result (list Z) CryptoError :=
  _ <-? check_sizes Aes256Gcm key nonce;; ok_or (open Aes256Gcm key nonce ciphertext aad) Decryption.
Definition encrypt_xchacha20 key nonce (plaintext : list Z) aad : result (list Z) CryptoError :=
  _ <-? check_sizes XChaCha20Poly1305 key nonce;; ok_or (seal XChaCha20Poly1305 key nonce plaintext aad) Encryption.
Definition decrypt_xchacha20 key nonce (ciphertext : list Z) aad : result (list Z) CryptoError :=
  _ <-? check_sizes XChaCha20Poly1305 key nonce;; ok_or (open XChaCha20Poly1305 key nonce ciphertext aad) Decryption.

Definition encrypt r a key nonce (plaintext : list Z) aad : result (list Z) CryptoError :=
  _ <-? ensure_allowed r a;;
  match a with Aes256Gcm => encrypt_aes256_gcm key nonce plaintext aad | XChaCha20Poly1305 => encrypt_xchacha20 key nonce plaintext aad end.
Definition decrypt r a key nonce (ciphertext : list Z) aad : result (list Z) CryptoError :=
  _ <-? ensure_allowed r a;;
  match a with Aes256Gcm => decrypt_aes256_gcm key nonce ciphertext aad | XChaCha20Poly1305 => decrypt_xchacha20 key nonce ciphertext aad end.
(** [fill_bytes] takes the next random bytes. *)
Definition generate_nonce r a (random : nat -> Z) : result (list Z) CryptoError :=
  _ <-? ensure_allowed r a;; Ok (random <$> seq 0 (nonce_size a)).

(** The two ciphers go through the same checks. *)
Lemma encrypt_eq r a key nonce m aad :
  encrypt r a key nonce m aad = (_ <-? ensure_allowed r a;; _ <-? check_sizes a key nonce;; ok_or (seal a key nonce m aad) Encryption).
Proof. by destruct a. Qed.
Lemma decrypt_eq r a key nonce c aad :
  decrypt r a key nonce c aad = (_ <-? ensure_allowed r a;; _ <-? check_sizes a key nonce;; ok_or (open a key nonce c aad) Decryption).
Proof. by destruct a. Qed.

(** What was encrypted decrypts to itself, with the same key, nonce and
    data; a cipher that is not allowed neither encrypts nor decrypts, and a
    key or nonce of another size is refused; a generated nonce has the size
    its cipher asks for; a cipher's name is read back as the cipher. *)
Theorem encryption_roundtrip `{!CipherLaws C} r a key nonce (m : list Z) aad (c : list Z) (random : nat -> Z) (n : list Z) :
  (encrypt r a key nonce m aad = Ok c -> decrypt r a key nonce c aad = Ok m /\ a ∈ allowed r /\ length key = 32%nat /\ length nonce = nonce_size a)
  /\ (a ∉ allowed r -> encrypt r a key nonce m aad = Err (UnsupportedAlgorithm (as_str a)) /\ decrypt r a key nonce c aad = Err (UnsupportedAlgorithm (as_str a)))
  /\ (generate_nonce r a random = Ok n -> length n = nonce_size a)
  /\ try_from (as_str a) = Ok a.
Proof.
  rewrite encrypt_eq, decrypt_eq. unfold ensure_allowed, check_sizes, generate_nonce, ensure_allowed. split; [|split; [|split]].
  - case_bool_decide; [|done]. cbn. case_bool_decide as Hk; [|done]. cbn. case_bool_decide as Hn; [|done]. cbn.
    destruct (seal a key nonce m aad) as [c'|] eqn:E; [|done]. intros [= ->]. by rewrite (open_seal _ _ _ _ _ _ E).
  - intros Ha. by rewrite bool_decide_false.
  - case_bool_decide; [|done]. intros [= <-]. by rewrite length_fmap, length_seq.
  - by destruct a; vm_compute.
Qed.
End Aead.

(** ** Key derivation *)

Class Argon2 := {
  Params : Type;
  params_build : Z -> Z -> Z -> Z -> option Params;
  hash_password_into : Params -> list Z -> list Z -> Z -> option (list Z);
  encode_b64 : list Z -> option text;
  phc_hash : Params -> list Z -> text -> option text;
  PasswordHash : Type;
  phc_parse : text -> option PasswordHash;
  phc_verify : Params -> list Z -> PasswordHash -> bool;
}.
(** A hash that was made parses, and verifies its password. *)
Class Argon2Laws (A : Argon2) : Prop := {
  phc_roundtrip : forall p password salt h, phc_hash p password salt = Some h -> exists x, phc_parse h = Some x /\ phc_verify p password x = true;
}.

Definition u32_max : Z := 2 ^ 32 - 1.
Section Kdf.
Context {A : Argon2}.
Record Argon2Kdf := mkArgon { argon2 : Params; k_output_length : Z; k_salt_length : Z }.
Definition kdf_from_config (c : KdfConfig) : result Argon2Kdf CryptoError :=
  let memory_kib := memory_mib c * 1024 in
  if u32_max <? memory_kib then Err Derivation
  else
    params <-? ok_or (params_build memory_kib (iterations c) (parallelism c) (output_length c)) Derivation;;
    Ok (mkArgon params (output_length c) (salt_length c)).
Definition derive_key (k : Argon2Kdf) (password salt : list Z) : result (list Z) CryptoError :=
  if Z.of_nat (length salt) <? k_salt_length k then Err Derivation
  else ok_or (hash_password_into (argon2 k) password salt (k_output_length k)) Derivation.
Definition hash_password (k : Argon2Kdf) (password : list Z) (random : nat -> Z) : result text CryptoError :=
  salt <-? ok_or (encode_b64 (random <$> seq 0 (Z.to_nat (k_salt_length k)))) Derivation;;
  ok_or (phc_hash (argon2 k) password salt) PasswordHashError.
Definition verify_password (k : Argon2Kdf) (password : list Z) (hash : text) : result bool CryptoError :=
  parsed <-? ok_or (phc_parse hash) PasswordHashError;; Ok (phc_verify (argon2 k) password parsed).

(** A password that was hashed verifies; no key is derived with a salt that
    is shorter than configured; and a configuration that is accepted asks
    for no more memory than its 32 bits hold. *)
Theorem password_hash_verifies `{!Argon2Laws A} (c : KdfConfig) (k : Argon2Kdf) (password salt key : list Z) (random : nat -> Z) (h : text) :
  kdf_from_config c = Ok k ->
  memory_mib c * 1024 <= u32_max
  /\ (hash_password k password random = Ok h -> verify_password k password h = Ok true)
  /\ (derive_key k password salt = Ok key -> salt_length c <= Z.of_nat (length salt)).
Proof.
  unfold kdf_from_config. destruct (Z.ltb_spec u32_max (memory_mib c * 1024)) as [|Hm]; [done|]. intros H.
  apply result_bind_ok_inv in H as (params & _ & [= <-]). split; [done|]. split.
  - intros Hh. apply result_bind_ok_inv in Hh as (s & _ & Hh). cbn [argon2] in Hh. destruct (phc_hash params password s) as [h'|] eqn:E; [|done].
    injection Hh as ->. destruct (phc_roundtrip _ _ _ _ E) as (x & Hx & Hv). unfold verify_password. rewrite Hx. cbn. by rewrite Hv.
  - unfold derive_key. cbn [k_salt_length]. by destruct (Z.ltb_spec (Z.of_nat (length salt)) (salt_length c)).
Qed.
End Kdf.

(** ** Concrete runs *)

Section Runs.
(** A cipher that appends key and data, and a hash that is the password. *)
#[local] Instance toy_ciphers : Ciphers := {|
  seal := λ _ key _ m aad, Some (m ++ key ++ aad);
  open := λ _ key _ c aad, let n := (length c - length (key ++ aad))%nat in if bool_decide (drop n c = key ++ aad) then Some (take n c) else None |}.
#[local] Instance toy_cipher_laws : CipherLaws toy_ciphers.
Proof.
  constructor. intros a key nonce m aad c [= <-]. cbn [open toy_ciphers]. rewrite (length_app m), Nat.add_sub.
  by rewrite drop_app_length, bool_decide_true, take_app_length.
Qed.
#[local] Instance toy_argon : Argon2 := {|
  Params := unit; params_build := λ _ _ _ _, Some tt; hash_password_into := λ _ p _ _, Some p; encode_b64 := Some;
  phc_hash := λ _ p _, Some p; PasswordHash := text; phc_parse := Some; phc_verify := λ _ p h, bool_decide (p = h) |}.
#[local] Instance toy_argon_laws : Argon2Laws toy_argon.
Proof. constructor. intros p password salt h [= <-]. exists password. split; [done|]. by apply bool_decide_eq_true. Qed.

Lemma encryption_roundtrip_witness :
  decrypt (mkAead [Aes256Gcm]) Aes256Gcm (repeat 7 32) (repeat 1 12) ([1; 2] ++ repeat 7 32 ++ [9]) [9] = Ok [1; 2].
Proof.
  apply (encryption_roundtrip (mkAead [Aes256Gcm]) Aes256Gcm (repeat 7 32) (repeat 1 12) [1; 2] [9] ([1; 2] ++ repeat 7 32 ++ [9]) (λ _, 0) []).
  vm_compute. reflexivity.
Defined.
Definition toy_kdf : Argon2Kdf := mkArgon (A := toy_argon) tt 32 16.
Definition demo_kdf : KdfConfig := mkKdf (lit "argon2id") 19 64 3 1 16 32.
Lemma password_hash_verifies_witness :
  verify_password toy_kdf (lit "secret") (lit "secret") = Ok true.
Proof.
  apply (password_hash_verifies demo_kdf toy_kdf (lit "secret") [] [] (λ _, 0) (lit "secret")); vm_compute; reflexivity.
Defined.
End Runs.
